(* ===== verification/_CoqProject ===== *)
-Q . S2P
Prelude.v
GoSort.v
Bytes.v
Crc32c.v
FileIO.v
Wal.v
Utf8.v
KeyStore.v
IdMap.v
Paths.v
Snapshot.v
Json.v
Names.v
Manifest.v
ManifestFile.v
JsonText.v
ManifestJson.v
VersionManager.v
Segment.v
SegmentManager.v
WriteEngine.v
Recovery.v
Durability.v
Rotation.v
Storage.v
Collection.v
Rewrite.v
Prune.v
Compaction.v
Checkpoint.v
Preparation.v
StoreSafety.v
FlushSafety.v
CreationSafety.v
RewriteSafety.v
PublicationSafety.v
PruneSafety.v
CompactionSafety.v
CollectionSafety.v
MaintenanceSafety.v
Bitmap.v
SqlValue.v
Like.v
Predicate.v
Inverted.v
IndexRows.v
IndexStore.v
InvertedStore.v
InvertedReopen.v
FilterExpr.v
FilterPlan.v
Literals.v
FilterRewrite.v
Analyzer.v
FilterMeaning.v
FtsPack.v
FtsPosting.v
FtsHolds.v
FtsBuild.v
FtsIterator.v
FtsCursor.v
