(* ===== verification/Prelude.v ===== *)
(** * xvec storage and filter engines: verification development

    xvec is an embedded vector database in Go.  This development models the
    storage engine under a collection, [internal/db] and the packages it stands
    on, its filter engine, [internal/db/sqlengine], and the posting lists of its
    full-text engine, [internal/db/index/column/fts_column].  It proves of the
    first that what is acknowledged survives a crash, that files are read back as
    they were written and corrupt ones are refused, and that every operation on
    the shared state does what its data structure promises; of the second that
    a filter keeps exactly the rows on which it is true, through all of its
    rewriting, binding, optimizing and index searching; and of the third that a
    list reads back the postings it was built from, in any order of seeks.

    ** The program

    A collection is a directory.  [CURRENT] names a manifest, and the manifest
    names everything else: the sealed segment files, the write segment, the
    IDMap (a key-value database from primary keys to document IDs), the delete
    snapshot and the write-ahead log.  A write is encoded, appended to the log
    and then applied to the write segment, the IDMap and the delete store; a
    flush seals the write segment, checkpoints the IDMap and the delete store,
    starts a new log and publishes a manifest that names them.  Opening loads
    what the manifest names and replays the log.

    A filter is parsed to a syntax tree, rewritten (equalities on one field that
    OR connects become one IN), bound to the schema of the collection (which
    gives predicates on typed values), and optimized (empty contain sets,
    constant folding) to a plan.  A plan is evaluated on a row in three-valued
    logic, or asks the inverted indexes for candidate rows: bitmaps that hold
    the rows to keep, exactly where the plan says so.

    A full-text index keeps for each term the documents that contain it, with
    frequencies, lengths and positions: a packed list in blocks, under a
    directory of the blocks' last documents by which an iterator seeks.

    ** Files of the development and the code they model

    - [Prelude]: results with errors ([errors.Is], [errors.Join], [%w]),
      contexts, tactics and generic lemmas.
    - [GoSort]: the binary search of the standard library.
    - [Bytes]: byte strings, little-endian integers, [copy] into a slice.
    - [Crc32c]: [internal/ailego/hash/crc32c.go].
    - [FileIO]: [internal/ailego/io/file.go] (full reads and writes).
    - [Wal]: [internal/db/index/storage/wal/wal.go] (record codec, recovery
      scan, append, sync, reader, replay, close).
    - [Utf8]: what the code uses of [unicode/utf8].
    - [KeyStore], [IdMap]: [internal/db/index/common/id_map.go]; the key-value
      store Pebble is the class [KVStore] with its laws, and [mem_store] an
      instance.
    - [Paths], [Snapshot]: [snapshot.go] and [delete_store.go].
    - [Names]: artifact names of [file_helper.go], [version_manager.go] and
      [collection.go].
    - [Json], [JsonText], [ManifestJson]: what the code uses of
      [encoding/json]: validity, string and number literals, compaction,
      reading of members, and the manifest's structures.
    - [Manifest], [ManifestFile]: [manifest.go] (the records, [Validate], the
      file codec over the class [ManifestJSON], which [ManifestJson]
      implements).
    - [VersionManager]: [version_manager.go] and [atomic_unix.go] (CURRENT,
      creation, opening, publication, updates, over a directory that can lose
      what was not synchronized).
    - [Segment], [SegmentManager]: [internal/db/index/segment].
    - [WriteEngine]: [internal/db/write_engine.go].
    - [Recovery]: the replay and the state check of [internal/db/collection.go].
    - [Durability]: the engine, its log, crashes and the replay put together.
    - [Rotation]: sealing the write segment in the manager, seen through its
      abstract state.
    - [Storage]: the disk of a collection, its crashes, and a monad that threads
      the disk, the names created so far and every disk on the way; the choice
      of free artifact names and the cleanup of [internal/db/collection.go].
    - [Collection]: [CollectionStore] of [internal/db/collection.go]: create,
      open, delegated writes and reads, snapshots, statistics, flush, schema
      and index publication, close.
    - [Checkpoint]: when the files a manifest names hold a given state, and that
      opening reads it back.
    - [Preparation]: the artifacts that a flush or a creation writes before it
      publishes.
    - [Rewrite]: [RewriteDocuments] of [internal/db/collection.go].
    - [Prune]: [PruneObsoleteArtifacts] of the same file.
    - [Compaction]: [internal/db/compaction.go].
    - [StoreSafety], [FlushSafety], [CreationSafety], [RewriteSafety],
      [PublicationSafety], [PruneSafety], [CompactionSafety]: the invariant of an
      open store, and that each operation keeps it on every branch and leaves,
      at every disk it passes through, one that opens.
    - [CollectionSafety]: the states a process can reach and their crashes.
    - [MaintenanceSafety]: what rewriting, publishing, pruning and compacting do
      to a reachable collection.
    - [Bitmap]: [internal/ailego/container/bitmap.go]; Roaring bitmaps are the
      class [Roaring] with its laws, and finite sets an instance.
    - [SqlValue]: [value.go] and [schema.go] of [internal/db/sqlengine].
    - [Like], [Predicate]: [like.go] and [predicate.go].
    - [Inverted], [IndexRows]: [inverted.go] and [inverted_range.go], the
      definitions and the searches seen through the rows that were added.
    - [IndexStore]: [internal/db/common/pebble_context.go], the store over Pebble
      under saved indexes (the class [PebbleStore] extends [KVStore]).
    - [InvertedStore], [InvertedReopen]: [inverted_pebble.go], the definitions and
      that what is saved reads back.
    - [FilterExpr], [FilterPlan]: [ast.go] and [plan.go].
    - [Literals]: [bindLiteral] of [analyzer.go] and what it uses of [strconv].
    - [FilterRewrite], [Analyzer]: [rewrite.go] and the rest of [analyzer.go].
    - [FilterMeaning]: the truth of an expression and of its plan put together.
    - [FtsPack], [FtsPosting]: [fts_posting.go] of
      [internal/db/index/column/fts_column]: varints, position deltas and packed
      blocks of numbers (the packing kernels are the class [Bitpack] with its
      laws, and their scalar fallback an instance); opening, validating and
      building a list.
    - [FtsHolds]: when the bytes of a list hold given postings, and that
      validation decides it.  [FtsBuild]: that a built list holds its postings.
    - [FtsIterator], [FtsCursor]: the iterator of the same file, and that it
      behaves as a cursor in the postings.

    ** How the code is modelled

    Functions keep their names; methods whose names clash carry a prefix
    ([idmap_Put], [ws_Append], [sg_Fetch]).  Structures are records, mutation is
    explicit state passing, errors are values of [gerror] inside [result] or
    [option]; the text of a formatted error is kept only as far as [errors.Is]
    can tell.  A [uint64] is a [Z] in range with [wrap64] where the code can
    wrap.  Go strings are byte strings; file names are [string]s.  The answers
    of the operating system (short writes, failing [fsync], locks) are
    arguments of the operations, so every theorem covers every answer.
    Contexts are values of [context]; a context does not change during a call.
    Locks are not modelled: each method is one atomic step, which is what its
    mutex makes it.

    Crashes.  A log file holds a synchronized prefix and a tail that a crash
    may cut or corrupt ([Wal]); a directory holds a durable and a visible map
    of names, and names whose content was never synchronized
    ([VersionManager]); a crash takes for each name any of the allowed entries.
    Renaming or linking a file passes on that its content was not synchronized,
    so the synchronization of the temporary [CURRENT] is needed.
    A collection's disk ([Storage]) adds the artifacts: one whose creation or
    removal was begun and not synchronized may be anything after a crash.  The
    working copy of the IDMap is disposable and not on the disk of the model.

    Fuel.  The scan of a log and the loops of full reads and writes take fuel
    that is the length of the file, and [wal_scan_exact] shows that it is
    enough; the search for a free artifact name has one step per artifact and
    one more, enough by [available_loop_fuel]; the cutting of documents into runs
    takes one step per document, enough by [rewriteDocumentRuns_spec]; the JSON scanner has [json_fuel], twice the length of the text,
    with [json_Valid_total].  In the filter engine: the rewriter has the size of the
    expression, enough by [rewrite_loop_fuel]; the union of a range of keys has one
    step per key; the scan for the keys that a binary search could not compare has
    the number of keys; the loops over the bits of a word have 64 steps; a bitmap is
    saved in at most one chunk per word and one more, and the loops that read a
    saved index have a step per entry that is left, enough by [read_chunks_spec],
    [read_terms_spec] and [read_lengths_spec].  In the
    full-text engine: a varint has at most 10 bytes; packing and unpacking have a
    step per number and per word; building takes a step per posting; the search
    of a block or of the directory has as many steps as there are entries; the
    seek's loop over blocks has enough by [Advance_refines].  Every
    other recursion is structural.

    ** The groups of theorems

    - The collection: [collection_writes_survive_crash], [flush_crash_safe],
      [reachable_collections_reopen], [create_collection_crash_safe],
      [close_keeps_contents].  [reaches] is the set of states of a process
      that creates a collection, writes, flushes, rewrites, publishes, compacts,
      prunes and restarts after crashes anywhere, on the condition that each
      publication that went on had synchronized the directory of [CURRENT]; in
      all of them ([reachable_synced]) the disk a crash leaves opens, to the
      contents that the acknowledged calls made.  The condition is needed, since
      the code goes on when this synchronization fails:
      [unsynchronized_flush_loses_writes] shows that after such a flush a crash
      can lose every later write, acknowledged and synchronized as it is.
    - Maintenance: [rewrite_crash_safe], [publication_crash_safe],
      [prune_exact] (against [named] and [part_of], which say what a manifest
      names), [compaction_prepares_copies], [compaction_crash_safe].
      A compaction overlaps writes, flushes and publications of schemas and
      indexes: dropping the purged versions
      commutes with the replay of the log ([compacts_replay]).
    - Durability: [acknowledged_writes_survive_crash], [logged_prefix_recovered],
      [engine_calls_exact], [validate_collection_exact] (and [batches_are_runs]).
      Whatever the writes, the log's synchronization policy and the crash, the
      recovered collection holds exactly the effect of a prefix of the logged
      operations that contains every acknowledged one.
    - Filters: [build_plan_sound] for the whole way from a syntax tree to a plan,
      [filter_rewrite_sound], [bound_plan_well_typed] and [filter_optimizer_sound]
      for its passes, [plan_candidates_exact] for the rows that the indexes give,
      [bind_literal_bounds] for numbers at their width.
    - Predicates and indexes: [predicate_evaluate_exact], [like_match_exact],
      [inverted_search_exact] (and [inverted_length_exact]): a search finds the
      rows on which the predicate evaluates to TRUE; [inverted_save_reopen] for an
      index that was saved and opened again.
    - Bitmaps: [bitmap_refines_set], [bitmap_words_roundtrip].
    - Posting lists: [posting_build_roundtrip], [posting_iterator_refines].
    - The log: [wal_crash_recovery] (what any calls and a crash leave), [wal_scan_exact], [wal_corruption_detected]
      (and [wal_append_acknowledged], [wal_replay_in_order]).
    - Publication: [publish_crash_atomic], [manifest_roundtrip],
      [manifest_validate_exact] (and [create_crash_atomic],
      [update_optimistic], [manifest_name_exact]).
    - The IDMap as a finite map: [idmap_refines_map], [idmap_checkpoint_open] (and
      [idmap_error_atomic], [snapshot_iterator_sorted]).
    - Segments: [segment_codec_exact], [segment_manager_operations] (and
      [write_segment_append], [segment_snapshot_reopen],
      [retained_document_exact], [fetch_live_documents]).
    - Codecs and names: [write_operation_codec] (and [portable_path_exact],
      [delete_snapshot_roundtrip], [delete_snapshot_canonical]).

    ** Not modelled

    Goroutine interleavings inside a method (each holds its mutex), memory
    mapping and file descriptors, the creation of directories and lock files,
    Pebble's own storage, the [encoding/json] treatment of a member repeated
    inside an object (an arbitrary function), the vector indexes and distance
    kernels (floating point), and of the full-text index its scores and the
    block maxima that cache them (floating point), its tokenizers, its queries and
    its storage in Pebble, and the vendored stemmers.
    Of the filter engine: the lexer and the parser, which run generated tables on
    the ANTLR runtime ([BuildPlan] takes the parser as an argument); Go's regular expressions beyond
    the three constructs that LIKE patterns compile to; number texts that the
    grammar does not have (hexadecimal, infinities); and arrays of 2^32 elements
    or more, whose length a row of the index could not hold. *)
From Stdlib Require Export ZArith Lia.
From stdpp Require Export base tactics decidable option list gmap sets countable strings.

(** ** Notation scope of the development *)
Declare Scope xvec_scope.
Delimit Scope xvec_scope with xvec.
#[global] Open Scope Z_scope.
#[global] Open Scope xvec_scope.

(** ** Go errors

    An error is its text together with the errors it wraps ([fmt.Errorf] with
    [%w], [errors.Join]).  A detail that the code formats into the text with
    [%d], [%q] or [%v] is left out of the text: only identity under
    [errors.Is] and the fixed part of the message are kept. *)
Inductive gerror : Type :=
| GErr (text : string) (wrapped : list gerror).

(** [errors.New]. *)
Definition errors_New (text : string) : gerror := GErr text [].

(** [fmt.Errorf("text: %w", e)]. *)
Definition errorf (text : string) (wrapped : gerror) : gerror := GErr text [wrapped].

Fixpoint gerror_eqb (a b : gerror) {struct a} : bool :=
  match a, b with
  | GErr ta wa, GErr tb wb =>
      String.eqb ta tb &&
      (fix go (xs ys : list gerror) {struct xs} : bool :=
         match xs, ys with
         | [], [] => true
         | x :: xs, y :: ys => gerror_eqb x y && go xs ys
         | _, _ => false
         end) wa wb
  end.

(** [errors.Is]: the error itself or one that it wraps, at any depth. *)
Fixpoint errors_Is (e target : gerror) {struct e} : bool :=
  gerror_eqb e target ||
  match e with
  | GErr _ ws =>
      (fix go (xs : list gerror) : bool :=
         match xs with
         | [] => false
         | x :: xs => errors_Is x target || go xs
         end) ws
  end.

(** [errors.Join]: nil errors are dropped, and no error at all is nil. *)
Definition errors_Join (es : list (option gerror)) : option gerror :=
  match omap id es with
  | [] => None
  | ws => Some (GErr "" ws)
  end.

(** ** Results

    A Go function that returns [(T, error)] with a meaningless [T] on failure
    is a [result T]; one whose value is meaningful beside an error returns a
    pair with an [option gerror]. *)
Inductive result (A : Type) : Type :=
| Ok (a : A)
| Fail (e : gerror).
Arguments Ok {A} a.
Arguments Fail {A} e.

#[global] Instance result_ret : MRet result := fun A a => Ok a.
#[global] Instance result_bind : MBind result :=
  fun A B f m => match m with Ok a => f a | Fail e => Fail e end.
#[global] Instance result_fmap : FMap result :=
  fun A B f m => match m with Ok a => Ok (f a) | Fail e => Fail e end.

Definition is_ok {A} (r : result A) : bool :=
  match r with Ok _ => true | Fail _ => false end.

(** [fmt.Errorf("text: %w", err)] around the error of a call; an empty text
    stands for the error as it is. *)
Definition wrap_text (text : string) (e : gerror) : gerror := if String.eqb text EmptyString then e else errorf text e.
Definition wrap_err {A} (text : string) (r : result A) : result A :=
  match r with Ok a => Ok a | Fail e => Fail (wrap_text text e) end.

(** ** Contexts

    A call sees its [context.Context] through [ctx == nil] and [ctx.Err()].
    [CtxLive] answers nil, [CtxDone e] is cancelled with [e]. *)
Inductive context : Type :=
| CtxNil
| CtxLive
| CtxDone (e : gerror).

(** The guard [if ctx == nil { return errors.New(text) }; if err := ctx.Err();
    err != nil { return err }] that opens most operations. *)
Definition ctx_guard (text : string) (ctx : context) : option gerror :=
  match ctx with
  | CtxNil => Some (errors_New text)
  | CtxLive => None
  | CtxDone e => Some e
  end.

(** [ctx.Err()] on a non-nil context. *)
Definition ctx_Err (ctx : context) : option gerror :=
  match ctx with CtxDone e => Some e | _ => None end.

(** The sentinel of [manifest.go] that every codec reports for a version it does not know. *)
Definition ErrUnsupportedFormatVersion : gerror := errors_New "db: unsupported disk format version".

(** ** Machine integers *)
Definition u8_max : Z := 255.
Definition u16_max : Z := 65535.
Definition u32_max : Z := 4294967295.
Definition u64_max : Z := 18446744073709551615.
(** [math.MaxInt] on the 64-bit platforms. *)
Definition int_max : Z := 9223372036854775807.

Definition wrap16 (z : Z) : Z := z mod 65536.
Definition wrap32 (z : Z) : Z := z mod 4294967296.
Definition wrap64 (z : Z) : Z := z mod 18446744073709551616.

Definition is_u64 (z : Z) : Prop := 0 <= z <= u64_max.
Definition is_u32 (z : Z) : Prop := 0 <= z <= u32_max.

(** Length of a slice or string, as the code's [uint64(len(x))]. *)
Definition zlen {A} (l : list A) : Z := Z.of_nat (length l).

Lemma zlen_nonneg {A} (l : list A) : 0 <= zlen l.
Proof. unfold zlen. lia. Qed.

Lemma zlen_app {A} (l k : list A) : zlen (l ++ k) = zlen l + zlen k.
Proof. unfold zlen. rewrite length_app. lia. Qed.

Lemma zlen_cons {A} (x : A) l : zlen (x :: l) = zlen l + 1.
Proof. unfold zlen. simpl. lia. Qed.

Lemma zlen_nil {A} : zlen (@nil A) = 0.
Proof. reflexivity. Qed.

Lemma zlen_to_nat {A} (l : list A) : Z.to_nat (zlen l) = length l.
Proof. unfold zlen. lia. Qed.

Lemma zlen_0_nil {A} (l : list A) : zlen l = 0 <-> l = [].
Proof. unfold zlen. destruct l; simpl; split; intros; try done; lia. Qed.

Lemma wrap64_id z : is_u64 z -> wrap64 z = z.
Proof. unfold is_u64, wrap64, u64_max. intros. apply Z.mod_small. lia. Qed.

Lemma wrap64_range z : is_u64 (wrap64 z).
Proof. unfold is_u64, wrap64, u64_max. pose proof (Z.mod_pos_bound z 18446744073709551616). lia. Qed.

(** ** Hint database and automation *)
Create HintDb xvec discriminated.
Create HintDb zlen.
#[export] Hint Resolve zlen_nonneg wrap64_range : xvec.
#[export] Hint Rewrite @zlen_app @zlen_cons @zlen_nil @length_app @length_take @length_drop
  @length_replicate : zlen.

Ltac zlen_simpl := autorewrite with zlen in *; unfold zlen in *; simpl length in *.

(** Split the [if]s and [match]es of the goal or of a hypothesis. *)
Ltac case_if :=
  match goal with
  | |- context [if ?b then _ else _] => let E := fresh "E" in destruct b eqn:E
  end.
Ltac case_in H :=
  match type of H with
  | context [if ?b then _ else _] => let E := fresh "E" in destruct b eqn:E
  | context [match ?x with _ => _ end] => let E := fresh "E" in destruct x eqn:E
  end.

(** Turn boolean comparisons into propositions. *)
Ltac to_prop :=
  repeat match goal with
  | H : (_ =? _) = true |- _ => apply Z.eqb_eq in H
  | H : (_ =? _) = false |- _ => apply Z.eqb_neq in H
  | H : (_ <? _) = true |- _ => apply Z.ltb_lt in H
  | H : (_ <? _) = false |- _ => apply Z.ltb_ge in H
  | H : (_ <=? _) = true |- _ => apply Z.leb_le in H
  | H : (_ <=? _) = false |- _ => apply Z.leb_gt in H
  | H : (_ && _) = true |- _ => apply andb_true_iff in H as [? ?]
  | H : (_ && _) = false |- _ => apply andb_false_iff in H
  | H : (_ || _) = true |- _ => apply orb_true_iff in H
  | H : (_ || _) = false |- _ => apply orb_false_iff in H as [? ?]
  | H : negb _ = true |- _ => apply negb_true_iff in H
  | H : negb _ = false |- _ => apply negb_false_iff in H
  end.

(** Walk a hypothesis [f x = Ok y] or [f x = Fail e] through its guards. *)
Ltac go_result H :=
  repeat (first [ discriminate H
                | progress simplify_eq/=
                | case_in H ]).

(** ** Errors: lemmas *)
Lemma gerror_eqb_refl e : gerror_eqb e e = true.
Proof.
  revert e. fix IH 1. intros [t ws]. simpl. rewrite String.eqb_refl. simpl.
  induction ws as [|w ws IHw]; [done|]. by rewrite IH, IHw.
Qed.

Lemma errors_Is_refl e : errors_Is e e = true.
Proof. destruct e as [t ws]. unfold errors_Is; fold errors_Is. by rewrite gerror_eqb_refl. Qed.

Lemma errors_Is_errorf text e t : errors_Is e t = true -> errors_Is (errorf text e) t = true.
Proof. intros H. simpl. destruct t as [tt' tw]. rewrite H. simpl. apply orb_true_r. Qed.

Lemma errors_Join_None es : errors_Join es = None <-> Forall (fun e => e = None) es.
Proof.
  unfold errors_Join. split.
  - intros H. induction es as [|[e|] es IH]; [constructor | simpl in H; discriminate |].
    constructor; [done|]. apply IH. exact H.
  - intros H. assert (omap id es = []) as ->; [|done].
    induction H as [|x l Hx HF IH]; [done|]. by subst.
Qed.

Lemma bind_Ok {A B} (m : result A) (f : A -> result B) b :
  (m ≫= f) = Ok b <-> exists a, m = Ok a /\ f a = Ok b.
Proof. destruct m; cbn; naive_solver. Qed.

(** ** Lists *)
Lemma take_app_exact {A} (l k : list A) n : length l = n -> take n (l ++ k) = l.
Proof. intros <-. by rewrite take_app_length. Qed.

Lemma drop_app_exact {A} (l k : list A) n : length l = n -> drop n (l ++ k) = k.
Proof. intros <-. by rewrite drop_app_length. Qed.

(** Left fold with an error: the [for] loops that stop at the first error. *)
Fixpoint foldM {A S} (f : S -> A -> result S) (l : list A) (s : S) : result S :=
  match l with
  | [] => Ok s
  | x :: l => match f s x with Ok s' => foldM f l s' | Fail e => Fail e end
  end.

Lemma foldM_app {A S} (f : S -> A -> result S) l k s :
  foldM f (l ++ k) s = match foldM f l s with Ok s' => foldM f k s' | Fail e => Fail e end.
Proof.
  revert s. induction l as [|x l IH]; intros s; simpl; [done|].
  destruct (f s x); [apply IH | done].
Qed.

Lemma foldM_invariant {A S} (P : S -> Prop) (f : S -> A -> result S) l s s' :
  (forall s x s', P s -> x ∈ l -> f s x = Ok s' -> P s') ->
  P s -> foldM f l s = Ok s' -> P s'.
Proof.
  revert s. induction l as [|x l IH]; intros s Hstep Hs H; simpl in H; [by simplify_eq|].
  destruct (f s x) as [s1|] eqn:E; [|done].
  eapply (IH s1); [|eapply Hstep; eauto; left|exact H].
  intros. eapply Hstep; eauto. by right.
Qed.
