(* ===== verification/GoSort.v ===== *)
(** * The searches of Go's [sort] and [slices] packages

    Binary search on an index range, used by the segment manager and by the
    inverted index. *)
From S2P Require Import Prelude.
#[local] Open Scope Z_scope.

(** ** Binary search

    The loop of [sort.Search] and of [slices.BinarySearchFunc]: the first index
    of [i, j) at which [f] holds, or [j]. *)
Fixpoint search_loop (fuel : nat) (f : nat -> bool) (i j : nat) : nat :=
  match fuel with
  | O => i
  | S fuel =>
      if (i <? j)%nat then
        let h := ((i + j) / 2)%nat in
        if negb (f h) then search_loop fuel f (S h) j else search_loop fuel f i h
      else i
  end.
Definition sort_Search (n : nat) (f : nat -> bool) : nat := search_loop n f 0 n.

Lemma search_loop_spec fuel f i j n :
  (j <= n)%nat -> (i <= j)%nat -> (j - i <= fuel)%nat ->
  (forall a b, (a <= b)%nat -> (b < n)%nat -> f a = true -> f b = true) ->
  (forall a, (a < i)%nat -> f a = false) -> (forall a, (j <= a)%nat -> (a < n)%nat -> f a = true) ->
  let k := search_loop fuel f i j in
  (i <= k <= j)%nat /\ (forall a, (a < k)%nat -> f a = false) /\
  (forall a, (k <= a)%nat -> (a < n)%nat -> f a = true).
Proof.
  revert i j. induction fuel as [|fuel IH]; intros i j Hj Hij Hf Hmono Hlo Hhi; cbn [search_loop].
  { assert (i = j) as -> by lia. split; [lia|done]. }
  destruct (i <? j)%nat eqn:E; [apply Nat.ltb_lt in E|apply Nat.ltb_ge in E; assert (i = j) as -> by lia; split; [lia|done]].
  assert (i <= (i + j) / 2 < j)%nat as Hh.
  { split; [apply Nat.div_le_lower_bound; lia|apply Nat.Div0.div_lt_upper_bound; lia]. }
  set (h := ((i + j) / 2)%nat) in *. destruct (f h) eqn:Eh; cbn [negb].
  - destruct (IH i h) as (Hk & H1 & H2); [lia|lia|lia|done|done| |].
    { intros a Ha Hn. by apply (Hmono h). }
    split; [lia|done].
  - destruct (IH (S h) j) as (Hk & H1 & H2); [lia|lia|lia|done| |done|].
    { intros a Ha. destruct (f a) eqn:Ea; [|done]. rewrite (Hmono a h) in Eh; [done|lia|lia|done]. }
    split; [lia|done].
Qed.

Lemma sort_Search_spec n f :
  (forall a b, (a <= b)%nat -> (b < n)%nat -> f a = true -> f b = true) ->
  let k := sort_Search n f in
  (k <= n)%nat /\ (forall a, (a < k)%nat -> f a = false) /\ (forall a, (k <= a)%nat -> (a < n)%nat -> f a = true).
Proof.
  intros Hmono k. destruct (search_loop_spec n f 0 n n) as (Hk & H1 & H2); try lia; try done; try (intros; lia).
  unfold k, sort_Search. split; [lia|done].
Qed.
