(* ===== verification/Bytes.v ===== *)
(** * Byte strings and fixed-width integers

    Go strings and [[]byte] values are lists of bytes.  This file models the
    parts of [encoding/binary] (little- and big-endian put and get), slicing,
    [copy] into a buffer and byte-wise comparison that the codecs use, with
    the layout lemmas that the codec proofs share. *)
From S2P Require Import Prelude.
From Stdlib Require Export Strings.Byte Init.Byte.

Abbreviation bytes := (list byte).

#[global] Instance byte_eq_dec : EqDecision byte := Byte.byte_eq_dec.
#[global] Program Instance byte_countable : Countable byte :=
  inj_countable Byte.to_N Byte.of_N _.
Next Obligation. intros x. apply Byte.of_to_N. Qed.

(** ** One byte *)
Definition Z_of_byte (b : byte) : Z := Z.of_N (Byte.to_N b).

(** [byte(v)]: conversion keeps the low eight bits. *)
Definition byte_of_Z (z : Z) : byte :=
  match Byte.of_N (Z.to_N (z mod 256)) with Some b => b | None => x00 end.

Lemma Z_of_byte_range b : 0 <= Z_of_byte b < 256.
Proof. unfold Z_of_byte. pose proof (Byte.to_N_bounded b). lia. Qed.

Lemma Z_of_byte_of_Z z : Z_of_byte (byte_of_Z z) = z mod 256.
Proof.
  unfold Z_of_byte, byte_of_Z. pose proof (Z.mod_pos_bound z 256 ltac:(lia)).
  destruct (Byte.of_N (Z.to_N (z mod 256))) as [b|] eqn:E.
  - apply Byte.to_of_N in E. lia.
  - apply Byte.of_N_None_iff in E. lia.
Qed.

Lemma byte_of_Z_of_byte b : byte_of_Z (Z_of_byte b) = b.
Proof.
  unfold byte_of_Z. rewrite Z.mod_small by apply Z_of_byte_range.
  unfold Z_of_byte. rewrite N2Z.id, Byte.of_to_N. done.
Qed.

#[global] Instance Z_of_byte_inj : Inj (=) (=) Z_of_byte.
Proof. intros a b H. rewrite <- (byte_of_Z_of_byte a), H. apply byte_of_Z_of_byte. Qed.

Lemma byte_of_Z_mod z : byte_of_Z (z mod 256) = byte_of_Z z.
Proof. unfold byte_of_Z. by rewrite Z.mod_mod by lia. Qed.

Lemma x00_byte : byte_of_Z 0 = x00.
Proof. done. Qed.

#[global] Opaque byte_of_Z.
#[global] Opaque Z_of_byte.

(** ** Little and big endian integers: [binary.LittleEndian], [binary.BigEndian] *)

(** The [n] bytes of [z], least significant first. *)
Fixpoint le_put (n : nat) (z : Z) : bytes :=
  match n with
  | O => []
  | S n => byte_of_Z z :: le_put n (z / 256)
  end.

Fixpoint le_get (bs : bytes) : Z :=
  match bs with
  | [] => 0
  | b :: bs => Z_of_byte b + 256 * le_get bs
  end.

Definition be_put (n : nat) (z : Z) : bytes := reverse (le_put n z).
Definition be_get (bs : bytes) : Z := le_get (reverse bs).

Lemma length_le_put n z : length (le_put n z) = n.
Proof. revert z. induction n; intros; simpl; auto. Qed.

Lemma length_be_put n z : length (be_put n z) = n.
Proof. unfold be_put. rewrite length_reverse. apply length_le_put. Qed.

Lemma le_get_bound bs : 0 <= le_get bs < 256 ^ zlen bs.
Proof.
  unfold zlen. induction bs as [|b bs IH]; [simpl; lia|].
  cbn [le_get length]. rewrite Nat2Z.inj_succ, Z.pow_succ_r by lia.
  pose proof (Z_of_byte_range b). nia.
Qed.

Lemma le_get_put n z : le_get (le_put n z) = z mod 256 ^ Z.of_nat n.
Proof.
  revert z. induction n as [|n IH]; intros z; [by rewrite Z.mod_1_r|].
  cbn [le_get le_put]. rewrite IH, Z_of_byte_of_Z, Nat2Z.inj_succ, Z.pow_succ_r by lia.
  rewrite Z.rem_mul_r by lia. lia.
Qed.

Lemma le_put_get bs : le_put (length bs) (le_get bs) = bs.
Proof.
  induction bs as [|b bs IH]; [done|]. cbn [le_get le_put length].
  pose proof (Z_of_byte_range b). f_equal.
  - rewrite <- byte_of_Z_mod, (Z.mul_comm 256), Z.mod_add by lia.
    rewrite byte_of_Z_mod. apply byte_of_Z_of_byte.
  - rewrite (Z.mul_comm 256), Z.div_add by lia.
    rewrite Z.div_small by lia. apply IH.
Qed.

Lemma le_get_inj a b : length a = length b -> le_get a = le_get b -> a = b.
Proof. intros Hl H. rewrite <- (le_put_get a), <- (le_put_get b), Hl, H. done. Qed.

Lemma be_get_put n z : be_get (be_put n z) = z mod 256 ^ Z.of_nat n.
Proof. unfold be_get, be_put. rewrite reverse_involutive. apply le_get_put. Qed.

Lemma le_get_put2 z : 0 <= z <= u16_max -> le_get (le_put 2 z) = z.
Proof. intros. rewrite le_get_put. apply Z.mod_small. unfold u16_max in *. simpl. lia. Qed.
Lemma le_get_put4 z : is_u32 z -> le_get (le_put 4 z) = z.
Proof. intros. rewrite le_get_put. apply Z.mod_small. unfold is_u32, u32_max in *. simpl. lia. Qed.
Lemma le_get_put8 z : is_u64 z -> le_get (le_put 8 z) = z.
Proof. intros. rewrite le_get_put. apply Z.mod_small. unfold is_u64, u64_max in *. simpl. lia. Qed.
Lemma be_get_put8 z : is_u64 z -> be_get (be_put 8 z) = z.
Proof. intros. rewrite be_get_put. apply Z.mod_small. unfold is_u64, u64_max in *. simpl. lia. Qed.

Lemma le_get_u64 bs : length bs = 8%nat -> is_u64 (le_get bs).
Proof. intros H. pose proof (le_get_bound bs). unfold zlen, is_u64, u64_max in *. rewrite H in *. simpl in *. lia. Qed.

#[export] Hint Rewrite length_le_put length_be_put : zlen.
Arguments le_put : simpl never.
Arguments be_put : simpl never.

(** ** Slices and copies *)

(** [buf[lo:hi]] of a long enough buffer. *)
Definition slice (lo hi : nat) (buf : bytes) : bytes := take (hi - lo) (drop lo buf).

(** [copy(buf[off:], src)] of a source that fits. *)
Definition splice (off : nat) (src buf : bytes) : bytes :=
  take off buf ++ src ++ drop (off + length src) buf.

(** [make([]byte, n)] *)
Definition make_bytes (n : nat) : bytes := replicate n x00.

Lemma slice_app_l lo hi a b :
  (hi <= length a)%nat -> slice lo hi (a ++ b) = slice lo hi a.
Proof.
  intros H. unfold slice.
  destruct (decide (lo <= hi)%nat) as [Hle|].
  - rewrite drop_app_le by lia. rewrite take_app_le; [done|]. rewrite length_drop. lia.
  - replace (hi - lo)%nat with 0%nat by lia. by rewrite !take_0.
Qed.

Lemma slice_app_r lo hi a b :
  (length a <= lo)%nat -> slice lo hi (a ++ b) = slice (lo - length a) (hi - length a) b.
Proof.
  intros H. unfold slice. rewrite drop_app_ge by lia. f_equal. lia.
Qed.

Lemma slice_full a : slice 0 (length a) a = a.
Proof. unfold slice. rewrite drop_0, Nat.sub_0_r, firstn_all. done. Qed.

Lemma slice_0 n a : slice 0 n a = take n a.
Proof. unfold slice. by rewrite drop_0, Nat.sub_0_r. Qed.

(** The field at [lo, hi) of a concatenation of fields. *)
Lemma slice_field lo hi pre fld rest :
  length pre = lo -> length fld = (hi - lo)%nat -> slice lo hi (pre ++ fld ++ rest) = fld.
Proof.
  intros Hp Hf. unfold slice. rewrite drop_app_exact by done.
  by apply take_app_exact.
Qed.

Lemma splice_field off src pre fld rest :
  length pre = off -> length fld = length src ->
  splice off src (pre ++ fld ++ rest) = pre ++ src ++ rest.
Proof.
  intros Hp Hf. unfold splice. rewrite take_app_exact by done. do 2 f_equal.
  rewrite app_assoc. apply drop_app_exact. rewrite length_app. lia.
Qed.

Lemma length_splice off src buf :
  (off + length src <= length buf)%nat -> length (splice off src buf) = length buf.
Proof. intros H. unfold splice. rewrite !length_app, length_take, length_drop. lia. Qed.

(** Splices and slices of a fixed-size header that is followed by a body. *)
Lemma splice_app_l off src a b :
  (off + length src <= length a)%nat -> splice off src (a ++ b) = splice off src a ++ b.
Proof.
  intros H. unfold splice. rewrite take_app_le by lia. rewrite drop_app_le by lia.
  by rewrite <- !app_assoc.
Qed.

Lemma splice_tail a src n :
  n = length src -> splice (length a) src (a ++ make_bytes n) = a ++ src.
Proof.
  intros ->. unfold splice. rewrite take_app_length. f_equal.
  rewrite drop_ge; [by rewrite app_nil_r|].
  unfold make_bytes. rewrite length_app, length_replicate. lia.
Qed.

Lemma make_bytes_add n m : make_bytes (n + m) = make_bytes n ++ make_bytes m.
Proof. apply replicate_add. Qed.

(** Cut a slice in two. *)
Lemma slice_split lo mid hi a :
  (lo <= mid <= hi)%nat -> slice lo hi a = slice lo mid a ++ slice mid hi a.
Proof.
  intros H. unfold slice. replace (hi - lo)%nat with ((mid - lo) + (hi - mid))%nat by lia.
  rewrite <- take_take_drop, drop_drop. do 3 f_equal. lia.
Qed.

Lemma length_slice lo hi a : (hi <= length a)%nat -> length (slice lo hi a) = (hi - lo)%nat.
Proof. intros H. unfold slice. rewrite length_take, length_drop. lia. Qed.

Lemma take_slice n a : take n a = slice 0 n a.
Proof. by rewrite slice_0. Qed.

(** A field is the encoding of the integer it decodes to. *)
Lemma slice_le_put lo hi a :
  (lo <= hi <= length a)%nat -> slice lo hi a = le_put (hi - lo) (le_get (slice lo hi a)).
Proof.
  intros H. rewrite <- (length_slice lo hi a) by lia. by rewrite le_put_get.
Qed.

Lemma slice_le_get lo hi a z :
  (lo <= hi <= length a)%nat -> le_get (slice lo hi a) = z -> slice lo hi a = le_put (hi - lo) z.
Proof. intros H <-. by apply slice_le_put. Qed.

(** ** Byte-wise order of Go strings *)
Fixpoint bytes_compare (a b : bytes) : comparison :=
  match a, b with
  | [], [] => Eq
  | [], _ => Lt
  | _, [] => Gt
  | x :: a, y :: b =>
      match Z.compare (Z_of_byte x) (Z_of_byte y) with
      | Eq => bytes_compare a b
      | c => c
      end
  end.

(** [a < b] on strings. *)
Definition bytes_ltb (a b : bytes) : bool :=
  match bytes_compare a b with Lt => true | _ => false end.
Definition bytes_eqb (a b : bytes) : bool :=
  match bytes_compare a b with Eq => true | _ => false end.

Definition bytes_lt (a b : bytes) : Prop := bytes_ltb a b = true.

Lemma bytes_compare_eq a b : bytes_compare a b = Eq <-> a = b.
Proof.
  revert b. induction a as [|x a IH]; intros [|y b]; simpl; try done.
  destruct (Z.compare_spec (Z_of_byte x) (Z_of_byte y)) as [E|E|E]; rewrite ?IH.
  - apply Z_of_byte_inj in E as ->. naive_solver.
  - split; [done|]. intros [= -> ->]. lia.
  - split; [done|]. intros [= -> ->]. lia.
Qed.

Lemma bytes_eqb_eq a b : bytes_eqb a b = true <-> a = b.
Proof. rewrite <- bytes_compare_eq. unfold bytes_eqb. destruct (bytes_compare a b); naive_solver. Qed.

Lemma bytes_eqb_refl a : bytes_eqb a a = true.
Proof. by apply bytes_eqb_eq. Qed.

Lemma bytes_eqb_neq a b : bytes_eqb a b = false <-> a <> b.
Proof. rewrite <- bytes_eqb_eq. destruct (bytes_eqb a b); naive_solver. Qed.

Lemma bytes_compare_antisym a b : bytes_compare b a = CompOpp (bytes_compare a b).
Proof.
  revert b. induction a as [|x a IH]; intros [|y b]; simpl; try done.
  rewrite (Z.compare_antisym (Z_of_byte x)).
  destruct (Z_of_byte x ?= Z_of_byte y); simpl; auto.
Qed.

Lemma bytes_lt_trans a b c : bytes_lt a b -> bytes_lt b c -> bytes_lt a c.
Proof.
  unfold bytes_lt, bytes_ltb. revert b c.
  induction a as [|x a IH]; intros [|y b] [|z c]; simpl; try done.
  destruct (Z.compare_spec (Z_of_byte x) (Z_of_byte y)) as [E|E|E];
  destruct (Z.compare_spec (Z_of_byte y) (Z_of_byte z)) as [F|F|F]; try done;
  destruct (Z.compare_spec (Z_of_byte x) (Z_of_byte z)) as [G|G|G]; try done; try lia.
  apply IH.
Qed.

Lemma bytes_lt_irrefl a : ~ bytes_lt a a.
Proof.
  unfold bytes_lt, bytes_ltb.
  assert (bytes_compare a a = Eq) as -> by by apply bytes_compare_eq. done.
Qed.

Lemma bytes_lt_total a b : bytes_lt a b \/ a = b \/ bytes_lt b a.
Proof.
  unfold bytes_lt, bytes_ltb. rewrite (bytes_compare_antisym a b).
  destruct (bytes_compare a b) eqn:E; simpl; auto.
  right; left. by apply bytes_compare_eq.
Qed.

#[global] Instance bytes_lt_dec a b : Decision (bytes_lt a b).
Proof. unfold bytes_lt. apply _. Defined.

#[global] Instance bytes_lt_strict : StrictOrder bytes_lt.
Proof.
  split; [intros a H; by eapply bytes_lt_irrefl | intros a b c; apply bytes_lt_trans].
Qed.

#[export] Hint Resolve Z_of_byte_range bytes_eqb_refl : xvec.
