(* ===== verification/Crc32c.v ===== *)
(** * CRC-32C (Castagnoli)

    [internal/ailego/hash/crc32c.go] calls [hash/crc32] of the Go standard
    library with the Castagnoli table; the table construction and the update
    loop of that package are written out here.  Besides the composition law
    that the write path relies on ([UpdateCRC32C] over parts equals [CRC32C]
    over their concatenation) the file proves what the checksum detects: two
    byte strings that differ only inside a window of four bytes never have the
    same checksum. *)
From S2P Require Import Prelude Bytes.

(** [crc32.Castagnoli], the reversed polynomial. *)
Definition castagnoli : Z := 2197175160.

(** One bit of [crc32.simplePopulateTable]. *)
Definition crc_bit (crc : Z) : Z :=
  if Z.odd crc then Z.lxor (Z.shiftr crc 1) castagnoli else Z.shiftr crc 1.

(** [table[i]] *)
Definition crc_table (i : Z) : Z := Nat.iter 8 crc_bit i.

Definition castagnoliTable : list Z := crc_table <$> seqZ 0 256.

(** The body of [crc32.simpleUpdate]: [crc = tab[byte(crc)^v] ^ (crc >> 8)]. *)
Definition crc_index (crc : Z) (v : byte) : Z := Z.lxor (Z.land crc 255) (Z_of_byte v).
Definition crc_step (crc : Z) (v : byte) : Z :=
  Z.lxor (crc_table (crc_index crc v)) (Z.shiftr crc 8).

(** Bitwise complement of a [uint32]. *)
Definition not32 (z : Z) : Z := Z.lxor z u32_max.

(** [UpdateCRC32C] *)
Definition UpdateCRC32C (crc : Z) (data : bytes) : Z :=
  not32 (fold_left crc_step data (not32 crc)).

(** [CRC32C] *)
Definition CRC32C (data : bytes) : Z := UpdateCRC32C 0 data.

(** ** Ranges *)
Lemma lxor_range n a b : 0 <= n -> 0 <= a < 2 ^ n -> 0 <= b < 2 ^ n -> 0 <= Z.lxor a b < 2 ^ n.
Proof.
  intros Hn Ha Hb. split; [apply Z.lxor_nonneg; lia|].
  destruct (decide (Z.lxor a b = 0)) as [->|Hne]; [lia|].
  apply Z.log2_lt_pow2; [pose proof (Z.lxor_nonneg a b); lia|].
  pose proof (Z.log2_lxor a b ltac:(lia) ltac:(lia)).
  assert (forall x, 0 <= x < 2 ^ n -> x = 0 \/ Z.log2 x < n) as Hl.
  { intros x Hx. destruct (decide (x = 0)); [by left|right]. apply Z.log2_lt_pow2; lia. }
  assert (n <> 0) by (intros ->; simpl in *; assert (a = 0) by lia; assert (b = 0) by lia; subst; done).
  destruct (Hl a Ha) as [->|]; destruct (Hl b Hb) as [->|]; simpl in *; try lia.
Qed.

Lemma not32_involutive z : not32 (not32 z) = z.
Proof. unfold not32. by rewrite Z.lxor_assoc, Z.lxor_nilpotent, Z.lxor_0_r. Qed.

Lemma crc_bit_range z : is_u32 z -> is_u32 (crc_bit z).
Proof.
  unfold is_u32, u32_max, crc_bit. intros H.
  assert (0 <= Z.shiftr z 1 < 2 ^ 32) as H0.
  { rewrite Z.shiftr_div_pow2 by lia. change (2 ^ 1) with 2. change (2 ^ 32) with 4294967296.
    split; [apply Z.div_pos; lia|apply Z.div_lt_upper_bound; lia]. }
  destruct (Z.odd z); [|lia].
  pose proof (lxor_range 32 (Z.shiftr z 1) castagnoli ltac:(lia) H0 ltac:(unfold castagnoli; lia)). lia.
Qed.

Lemma crc_table_range i : is_u32 i -> is_u32 (crc_table i).
Proof. intros H. unfold crc_table. simpl. by repeat apply crc_bit_range. Qed.

Lemma crc_index_range crc v : 0 <= crc_index crc v < 256.
Proof.
  unfold crc_index. apply (lxor_range 8); [lia| |apply Z_of_byte_range].
  change 255 with (Z.ones 8). rewrite Z.land_ones by lia. apply Z.mod_pos_bound. lia.
Qed.

Lemma shiftr8_range crc : is_u32 crc -> 0 <= Z.shiftr crc 8 < 2 ^ 24.
Proof. unfold is_u32, u32_max. rewrite Z.shiftr_div_pow2 by lia. change (2 ^ 8) with 256.
  change (2 ^ 24) with 16777216. intros. split; [apply Z.div_pos; lia|apply Z.div_lt_upper_bound; lia].
Qed.

Lemma crc_step_range crc v : is_u32 crc -> is_u32 (crc_step crc v).
Proof.
  intros H. unfold crc_step. pose proof (crc_index_range crc v) as Hi.
  pose proof (crc_table_range (crc_index crc v) ltac:(unfold is_u32, u32_max; lia)) as Ht.
  pose proof (shiftr8_range crc H). unfold is_u32, u32_max in *.
  pose proof (lxor_range 32 (crc_table (crc_index crc v)) (Z.shiftr crc 8)). lia.
Qed.

Lemma crc_run_range data crc : is_u32 crc -> is_u32 (fold_left crc_step data crc).
Proof.
  revert crc. induction data as [|v data IH]; intros crc H; simpl; [done|].
  by apply IH, crc_step_range.
Qed.

Lemma not32_range z : is_u32 z -> is_u32 (not32 z).
Proof.
  unfold is_u32, not32, u32_max. intros H.
  pose proof (lxor_range 32 z 4294967295). lia.
Qed.

Lemma UpdateCRC32C_range crc data : is_u32 crc -> is_u32 (UpdateCRC32C crc data).
Proof. intros. unfold UpdateCRC32C. by apply not32_range, crc_run_range, not32_range. Qed.

Lemma CRC32C_range data : is_u32 (CRC32C data).
Proof. apply UpdateCRC32C_range. unfold is_u32, u32_max. lia. Qed.

#[export] Hint Resolve CRC32C_range UpdateCRC32C_range : xvec.

(** ** Composition *)
Lemma UpdateCRC32C_app crc a b :
  UpdateCRC32C (UpdateCRC32C crc a) b = UpdateCRC32C crc (a ++ b).
Proof. unfold UpdateCRC32C. by rewrite not32_involutive, fold_left_app. Qed.

Lemma UpdateCRC32C_nil crc : UpdateCRC32C crc [] = crc.
Proof. unfold UpdateCRC32C. simpl. apply not32_involutive. Qed.

Lemma CRC32C_update data : UpdateCRC32C 0 data = CRC32C data.
Proof. done. Qed.

Lemma CRC32C_app a b : UpdateCRC32C (CRC32C a) b = CRC32C (a ++ b).
Proof. apply UpdateCRC32C_app. Qed.

(** ** Detection

    The top byte of a table entry determines its index, so a state determines
    the index of its last step and, shifted, the state before it. *)
Lemma crc_table_top_distinct : NoDup ((fun i => Z.shiftr (crc_table i) 24) <$> seqZ 0 256).
Proof. apply (bool_decide_unpack _). vm_compute. exact I. Qed.

Lemma crc_table_top_inj i j :
  0 <= i < 256 -> 0 <= j < 256 ->
  Z.shiftr (crc_table i) 24 = Z.shiftr (crc_table j) 24 -> i = j.
Proof.
  intros Hi Hj H. pose proof crc_table_top_distinct as Hnd.
  rewrite NoDup_alt in Hnd.
  specialize (Hnd (Z.to_nat i) (Z.to_nat j) (Z.shiftr (crc_table i) 24)).
  rewrite !list_lookup_fmap in Hnd.
  rewrite !lookup_seqZ_lt in Hnd by lia.
  simpl in Hnd. rewrite !Z2Nat.id in Hnd by lia.
  assert (Z.to_nat i = Z.to_nat j); [|lia].
  apply Hnd; [done|]. by rewrite H.
Qed.

Lemma shiftr_lxor_cancel t x y k :
  Z.shiftr (Z.lxor t x) k = Z.shiftr (Z.lxor t y) k -> Z.shiftr x k = Z.shiftr y k.
Proof.
  rewrite !Z.shiftr_lxor. intros H.
  apply (f_equal (Z.lxor (Z.shiftr t k))) in H.
  by rewrite <- !Z.lxor_assoc, Z.lxor_nilpotent, !Z.lxor_0_l in H.
Qed.

(** A step seen only through its bits above [k <= 24] still shows its index. *)
Lemma crc_step_back k a b v w :
  is_u32 a -> is_u32 b -> 0 <= k <= 24 ->
  Z.shiftr (crc_step a v) k = Z.shiftr (crc_step b w) k ->
  crc_index a v = crc_index b w /\ Z.shiftr a (8 + k) = Z.shiftr b (8 + k).
Proof.
  intros Ha Hb Hk H.
  assert (crc_index a v = crc_index b w) as Hi.
  { apply crc_table_top_inj; [apply crc_index_range..|].
    assert (Z.shiftr (crc_step a v) 24 = Z.shiftr (crc_step b w) 24) as H24.
    { apply (f_equal (fun z => Z.shiftr z (24 - k))) in H.
      rewrite !Z.shiftr_shiftr in H by lia. by replace (k + (24 - k)) with 24 in H by lia. }
    unfold crc_step in H24. rewrite !Z.shiftr_lxor, !(Z.shiftr_shiftr _ 8 24) in H24 by lia.
    assert (forall c, is_u32 c -> Z.shiftr c (8 + 24) = 0) as Hz.
    { intros c Hc. rewrite Z.shiftr_div_pow2 by lia. apply Z.div_small.
      unfold is_u32, u32_max in Hc. lia. }
    by rewrite (Hz a Ha), (Hz b Hb), !Z.lxor_0_r in H24. }
  split; [done|]. unfold crc_step in H. rewrite Hi in H.
  apply shiftr_lxor_cancel in H. rewrite !Z.shiftr_shiftr in H by lia. done.
Qed.

Fixpoint crc_indices (crc : Z) (data : bytes) : list Z :=
  match data with
  | [] => []
  | v :: data => crc_index crc v :: crc_indices (crc_step crc v) data
  end.

Lemma crc_indices_snoc crc data v :
  crc_indices crc (data ++ [v]) =
  crc_indices crc data ++ [crc_index (fold_left crc_step data crc) v].
Proof. revert crc. induction data as [|w data IH]; intros; simpl; [done|]. by rewrite IH. Qed.

Lemma crc_run_back w1 w2 k a b :
  is_u32 a -> is_u32 b -> length w1 = length w2 ->
  0 <= k -> k + 8 * zlen w1 <= 32 ->
  Z.shiftr (fold_left crc_step w1 a) k = Z.shiftr (fold_left crc_step w2 b) k ->
  crc_indices a w1 = crc_indices b w2.
Proof.
  intros Ha Hb. revert w2 k.
  induction w1 as [|v w1 IH] using rev_ind; intros w2 k Hlen Hk Hk32 H.
  - destruct w2; [done|simpl in Hlen; lia].
  - destruct w2 as [|w w2 _] using rev_ind; [rewrite length_app in Hlen; simpl in Hlen; lia|].
    rewrite !length_app in Hlen. simpl in Hlen. rewrite zlen_app in Hk32.
    change (zlen [v]) with 1 in Hk32. pose proof (zlen_nonneg w1).
    rewrite !fold_left_app in H. simpl in H.
    apply crc_step_back in H as [Hi Hs]; [|by apply crc_run_range..|lia].
    rewrite !crc_indices_snoc, Hi. f_equal.
    apply (IH w2 (8 + k)); [lia..|done].
Qed.

Lemma crc_indices_inj w1 w2 s :
  crc_indices s w1 = crc_indices s w2 -> w1 = w2.
Proof.
  revert w2 s. induction w1 as [|v w1 IH]; intros [|w w2] s H; simpl in H; try done.
  injection H as Hv Hrest.
  assert (v = w) as ->.
  { apply (inj Z_of_byte). unfold crc_index in Hv.
    apply (f_equal (Z.lxor (Z.land s 255))) in Hv.
    by rewrite <- !Z.lxor_assoc, Z.lxor_nilpotent, !Z.lxor_0_l in Hv. }
  f_equal. by eapply IH.
Qed.

Lemma crc_step_inj a b v : is_u32 a -> is_u32 b -> crc_step a v = crc_step b v -> a = b.
Proof.
  intros Ha Hb H. apply (f_equal (fun z => Z.shiftr z 0)) in H.
  apply crc_step_back in H as [Hi Hs]; [|done..|lia].
  unfold crc_index in Hi. apply (f_equal (fun z => Z.lxor z (Z_of_byte v))) in Hi.
  rewrite !Z.lxor_assoc, !Z.lxor_nilpotent, !Z.lxor_0_r in Hi.
  change 255 with (Z.ones 8) in Hi. rewrite !Z.land_ones in Hi by lia.
  change (8 + 0) with 8 in Hs. rewrite !Z.shiftr_div_pow2 in Hs by lia.
  rewrite (Z.div_mod a (2 ^ 8)), (Z.div_mod b (2 ^ 8)) by lia. congruence.
Qed.

Lemma crc_run_inj data a b :
  is_u32 a -> is_u32 b -> fold_left crc_step data a = fold_left crc_step data b -> a = b.
Proof.
  revert a b. induction data as [|v data IH]; intros a b Ha Hb H; simpl in H; [done|].
  apply IH in H; [|by apply crc_step_range..]. by eapply crc_step_inj.
Qed.

Lemma CRC32C_burst pre w1 w2 post :
  length w1 = length w2 -> (length w1 <= 4)%nat ->
  CRC32C (pre ++ w1 ++ post) = CRC32C (pre ++ w2 ++ post) -> w1 = w2.
Proof.
  intros Hl H4 H. unfold CRC32C, UpdateCRC32C in H.
  apply (f_equal not32) in H. rewrite !not32_involutive in H.
  rewrite !fold_left_app in H.
  assert (is_u32 (fold_left crc_step pre (not32 0))) as Hp.
  { apply crc_run_range, not32_range. unfold is_u32, u32_max. lia. }
  apply crc_run_inj in H; [|by apply crc_run_range..].
  apply (crc_indices_inj _ _ (fold_left crc_step pre (not32 0))).
  apply (crc_run_back _ _ 0); [done..|lia|unfold zlen; lia|by rewrite H].
Qed.

(** The check value of the algorithm, also asserted by the package's test. *)
Example crc_check_value :
  CRC32C (byte_of_Z <$> [49; 50; 51; 52; 53; 54; 55; 56; 57]) = 3808858755.
Proof. vm_compute. reflexivity. Qed.

#[global] Opaque CRC32C UpdateCRC32C.
