(* ===== verification/FileIO.v ===== *)
(** * Files: [internal/ailego/io/file.go]

    An open file is its content as the operating system shows it together with
    the length of the prefix that [fsync] has made stable.  [ReadFullAt] and
    [WriteFullAt] loop over short transfers; the transfers the system performs
    are an argument, so that a failed or torn write is a value of the model. *)
From S2P Require Import Prelude Bytes.

Record osfile := { f_content : bytes; f_stable : nat }.

Definition io_EOF : gerror := errors_New "EOF".
Definition io_ErrShortWrite : gerror := errors_New "short write".
Definition io_ErrNoProgress : gerror := errors_New "multiple Read calls return no data or error".
Definition os_ErrNotExist : gerror := errors_New "file does not exist".
Definition os_ErrExist : gerror := errors_New "file already exists".

(** ** Reading *)

(** One [ReadAt] call on a regular file: short only at the end of the file,
    where it reports [io.EOF]. [cap] is how many bytes the system is willing to
    return at once. *)
Definition ReadAt (content : bytes) (n : nat) (off : nat) (cap : nat) : bytes * option gerror :=
  let avail := take n (drop off content) in
  if decide (length avail < n)%nat then (avail, Some io_EOF)
  else (take cap avail, None).

(** The loop of [ReadFullAt]; [caps] are the transfer sizes of successive
    calls, and a call beyond the list transfers everything. *)
Fixpoint ReadFullAt_loop (caps : list nat) (content : bytes) (n off : nat) : result bytes :=
  if decide (n = 0)%nat then Ok []
  else match caps with
  | [] =>
      match ReadAt content n off n with
      | (got, Some e) => Fail e
      | (got, None) => Ok got
      end
  | cap :: caps =>
      match ReadAt content n off cap with
      | (got, err) =>
          if decide (length got = n) then Ok got
          else match err with
          | Some e => Fail e
          | None =>
              if decide (length got = 0)%nat then Fail io_ErrNoProgress
              else match ReadFullAt_loop caps content (n - length got) (off + length got) with
              | Ok rest => Ok (got ++ rest)
              | Fail e => Fail e
              end
          end
      end
  end.

(** [ReadFullAt(r, dst, off)] with [len(dst) = n]. *)
Definition ReadFullAt (caps : list nat) (content : bytes) (n : nat) (off : Z) : result bytes :=
  if off <? 0 then Fail (errors_New "ailego: negative read offset")
  else ReadFullAt_loop caps content n (Z.to_nat off).

(** ** Writing *)

(** [pwrite] of [src] at [off]; a hole before [off] reads as zeros. *)
Definition write_at (content : bytes) (off : nat) (src : bytes) : bytes :=
  take off (content ++ replicate (off - length content) x00) ++ src ++
  drop (off + length src) content.

(** What one [WriteAt] call does: how many bytes it stores, and its error. *)
Definition write_outcome : Type := nat * option gerror.

(** The loop of [WriteFullAt].  A call beyond [outs] stores everything. *)
Fixpoint WriteFullAt_loop (outs : list write_outcome) (content src : bytes) (off : nat)
  : bytes * option gerror :=
  match src with
  | [] => (content, None)
  | _ =>
      match outs with
      | [] => (write_at content off src, None)
      | (n, err) :: outs =>
          let stored := take n src in
          let content := write_at content off stored in
          match err with
          | Some e => (content, Some e)
          | None =>
              if decide (length stored = 0)%nat then (content, Some io_ErrShortWrite)
              else WriteFullAt_loop outs content (drop (length stored) src) (off + length stored)
          end
      end
  end.

Definition WriteFullAt (outs : list write_outcome) (content src : bytes) (off : Z)
  : bytes * option gerror :=
  if off <? 0 then (content, Some (errors_New "ailego: negative write offset"))
  else WriteFullAt_loop outs content src (Z.to_nat off).

(** [file.Sync()], [file.Truncate(n)] *)
Definition file_Sync (outcome : option gerror) (f : osfile) : osfile * option gerror :=
  match outcome with
  | Some e => (f, Some e)
  | None => ({| f_content := f_content f; f_stable := length (f_content f) |}, None)
  end.

Definition file_Truncate (outcome : option gerror) (n : nat) (f : osfile) : osfile * option gerror :=
  match outcome with
  | Some e => (f, Some e)
  | None =>
      ({| f_content := take n (f_content f ++ replicate (n - length (f_content f)) x00);
          f_stable := f_stable f `min` n |}, None)
  end.

(** ** Facts *)
Lemma length_write_at content off src :
  length (write_at content off src) = (length content `max` (off + length src))%nat.
Proof.
  unfold write_at. rewrite !length_app, length_take, length_app, length_replicate, length_drop. lia.
Qed.

Lemma write_at_end content src : write_at content (length content) src = content ++ src.
Proof.
  unfold write_at. rewrite Nat.sub_diag. simpl. rewrite app_nil_r, firstn_all.
  rewrite drop_ge by lia. by rewrite app_nil_r.
Qed.

Lemma take_write_at content off src n :
  (n <= off)%nat -> (n <= length content)%nat -> take n (write_at content off src) = take n content.
Proof.
  intros H1 H2. unfold write_at.
  rewrite take_app_le by (rewrite length_take, length_app, length_replicate; lia).
  rewrite take_take. replace (n `min` off)%nat with n by lia. by rewrite take_app_le.
Qed.

Lemma write_at_app content off a b :
  write_at (write_at content off a) (off + length a) b = write_at content off (a ++ b).
Proof.
  unfold write_at at 1. rewrite length_write_at.
  replace (off + length a - _)%nat with 0%nat by lia. simpl. rewrite app_nil_r.
  unfold write_at. set (p := take off _).
  assert (length p = off) as Hp.
  { unfold p. rewrite length_take, length_app, length_replicate. lia. }
  rewrite (app_assoc p). rewrite take_app_exact by (rewrite length_app; lia).
  rewrite drop_app_ge by (rewrite !length_app; lia).
  rewrite drop_drop, !length_app, <- !app_assoc. do 3 f_equal. f_equal. lia.
Qed.

(** A full write either stores the whole source or a prefix of it. *)
Lemma WriteFullAt_loop_spec outs content src off content' err :
  WriteFullAt_loop outs content src off = (content', err) ->
  exists k, (k <= length src)%nat /\
    (k = 0%nat /\ content' = content /\ (src = [] \/ err <> None)
     \/ content' = write_at content off (take k src)) /\
    (err = None -> k = length src).
Proof.
  revert content src off. induction outs as [|[n oe] outs IH]; intros content src off H;
    (destruct src as [|s src]; [simpl in H; simplify_eq; exists 0%nat; naive_solver|]).
  - simpl in H. simplify_eq. exists (length (s :: src)).
    rewrite firstn_all. simpl. split; [lia|]. naive_solver.
  - cbn [WriteFullAt_loop] in H. set (l := s :: src) in *.
    assert (take (length (take n l)) l = take n l) as Ht.
    { rewrite length_take. destruct (decide (n <= length l)%nat).
      - by rewrite Nat.min_l. - rewrite Nat.min_r, firstn_all by lia. by rewrite firstn_all2 by lia. }
    pose proof (length_take l n) as Hlt.
    destruct oe as [e|].
    { simplify_eq. exists (length (take n l)). rewrite Ht. split; [lia|]. naive_solver. }
    case_decide as Hd.
    { simplify_eq. exists (length (take n l)). rewrite Ht. split; [lia|]. naive_solver. }
    apply IH in H as (k & Hk & Hc & He).
    rewrite length_drop in Hk, He.
    exists (length (take n l) + k)%nat. split; [lia|]. split; [|intros; specialize (He H); lia].
    right. rewrite <- take_take_drop, Ht.
    destruct Hc as [(-> & -> & _)| -> ]; [by rewrite take_0, app_nil_r|].
    by rewrite write_at_app.
Qed.

Lemma WriteFullAt_spec outs content src off content' err :
  0 <= off -> src <> [] ->
  WriteFullAt outs content src off = (content', err) ->
  exists k, (k <= length src)%nat /\ content' = write_at content (Z.to_nat off) (take k src) \/
            (content' = content /\ err <> None) /\ k = 0%nat.
Proof.
  intros Hoff Hsrc H. unfold WriteFullAt in H. destruct (off <? 0) eqn:E; [to_prop; lia|].
  apply WriteFullAt_loop_spec in H as (k & Hk & [(-> & -> & Hor)| -> ] & He).
  - exists 0%nat. right. destruct Hor; naive_solver.
  - exists k. by left.
Qed.

Lemma WriteFullAt_ok outs content src off content' :
  0 <= off -> WriteFullAt outs content src off = (content', None) -> src <> [] ->
  content' = write_at content (Z.to_nat off) src.
Proof.
  intros Hoff H Hsrc. unfold WriteFullAt in H. destruct (off <? 0) eqn:E; [to_prop; lia|].
  apply WriteFullAt_loop_spec in H as (k & Hk & [(-> & -> & Hor)| -> ] & He).
  - destruct Hor; naive_solver.
  - rewrite He by done. by rewrite firstn_all.
Qed.

Lemma ReadAt_in content n off cap :
  (off + n <= length content)%nat ->
  ReadAt content n off cap = (take cap (slice off (off + n) content), None).
Proof.
  intros H. unfold ReadAt, slice. replace (off + n - off)%nat with n by lia.
  rewrite decide_False; [done|]. rewrite length_take, length_drop. lia.
Qed.

(** A read inside the file returns exactly the requested bytes, whatever the
    short reads on the way, provided each call makes progress. *)
Lemma ReadFullAt_loop_in caps content n off :
  (off + n <= length content)%nat -> Forall (fun c => 0 < c)%nat caps ->
  ReadFullAt_loop caps content n off = Ok (slice off (off + n) content).
Proof.
  revert n off. induction caps as [|cap caps IH]; intros n off H Hc;
    (destruct (decide (n = 0)%nat) as [->|Hn];
     [simpl; rewrite Nat.add_0_r; unfold slice; rewrite Nat.sub_diag, take_0; done|]).
  - simpl. rewrite decide_False by done. rewrite ReadAt_in by done.
    rewrite firstn_all2; [done|]. unfold slice. rewrite length_take. lia.
  - simpl. rewrite decide_False by done. rewrite ReadAt_in by done.
    inversion Hc as [|? ? Hcap Hcaps]; subst.
    assert (length (slice off (off + n) content) = n) as Hsl.
    { unfold slice. rewrite length_take, length_drop. lia. }
    rewrite length_take, Hsl. case_decide as Hd.
    { by rewrite firstn_all2 by lia. }
    rewrite decide_False by lia. rewrite IH; [|lia|done].
    replace (off + cap `min` n + (n - cap `min` n))%nat with (off + n)%nat by lia.
    f_equal. rewrite Nat.min_l by lia. unfold slice.
    replace (off + n - off)%nat with n by lia.
    replace (off + n - (off + cap))%nat with (n - cap)%nat by lia.
    rewrite take_take, Nat.min_l by lia.
    rewrite <- (drop_drop content), take_take_drop. f_equal. lia.
Qed.

Lemma ReadFullAt_in content n off :
  0 <= off -> off + Z.of_nat n <= zlen content ->
  ReadFullAt [] content n off = Ok (slice (Z.to_nat off) (Z.to_nat off + n) content).
Proof.
  intros H1 H2. unfold ReadFullAt. destruct (off <? 0) eqn:E; [to_prop; lia|].
  apply ReadFullAt_loop_in; [unfold zlen in *; lia|constructor].
Qed.

Lemma ReadFullAt_field pre fld post n off :
  off = zlen pre -> n = length fld -> ReadFullAt [] (pre ++ fld ++ post) n off = Ok fld.
Proof.
  intros -> ->. rewrite ReadFullAt_in; [|apply zlen_nonneg|rewrite !zlen_app; unfold zlen; lia].
  rewrite zlen_to_nat. f_equal. apply slice_field; lia.
Qed.

Lemma ReadFullAt_inv content n off x :
  ReadFullAt [] content n off = Ok x ->
  0 <= off /\ x = slice (Z.to_nat off) (Z.to_nat off + n) content /\ length x = n.
Proof.
  unfold ReadFullAt. destruct (off <? 0) eqn:E; [done|]. to_prop. intros H. split; [done|].
  simpl in H. unfold ReadAt in H. unfold slice.
  replace (Z.to_nat off + n - Z.to_nat off)%nat with n by lia.
  case_decide; [simplify_eq; split; [by rewrite take_0|done]|].
  case_decide; [done|]. simplify_eq.
  rewrite length_take in *. rewrite take_take, Nat.min_id, length_take. split; [done|lia].
Qed.

(** The bytes read at the end of a known prefix split the file. *)
Lemma ReadFullAt_split pre rest n x :
  ReadFullAt [] (pre ++ rest) n (zlen pre) = Ok x ->
  length x = n /\ rest = x ++ drop n rest.
Proof.
  intros H. apply ReadFullAt_inv in H as (_ & -> & Hl). split; [done|].
  rewrite zlen_to_nat. unfold slice. rewrite drop_app_length.
  replace (length pre + n - length pre)%nat with n by lia. by rewrite take_drop.
Qed.
