(* ===== verification/Wal.v ===== *)
(** * The write-ahead log: [internal/db/index/storage/wal/wal.go]

    Record and file-header codecs, the recovery scan, the append path with its
    poisoning, the reader and replay.  A log handle is a [WAL] record over an
    [osfile]; locks and directory syncs are outcomes passed in by the caller. *)
From S2P Require Import Prelude Bytes Crc32c FileIO.

(** ** Constants and sentinels *)
Definition walFormatVersion : Z := 1.
Definition walFileHeaderSize : Z := 32.
Definition walRecordHeaderSize : Z := 32.
Definition MaxWALRecordSize : Z := 4194304.

Definition walMagic : bytes := byte_of_Z <$> [90; 86; 69; 67; 87; 65; 76; 0].
Definition walRecordMagic : bytes := byte_of_Z <$> [90; 82; 69; 67].

Definition ErrWALNotFound := errors_New "db: WAL not found".
Definition ErrWALExists := errors_New "db: WAL already exists".
Definition ErrWALCorrupt := errors_New "db: corrupt WAL".
Definition ErrWALClosed := errors_New "db: WAL is closed".
Definition ErrWALReadOnly := errors_New "db: WAL is read-only".
Definition ErrWALPoisoned := errors_New "db: WAL append state is poisoned".
Definition ErrWALRecordTooLarge := errors_New "db: WAL record is too large".

Definition wal_corrupt (detail : string) : gerror := GErr ("db: corrupt WAL: " +:+ detail) [ErrWALCorrupt].

(** ** Codecs *)
Definition encodeWALFileHeader : bytes :=
  let header := make_bytes 32 in
  let header := splice 0 walMagic header in
  let header := splice 8 (le_put 2 walFormatVersion) header in
  let header := splice 10 (le_put 2 walFileHeaderSize) header in
  let header := splice 12 (le_put 4 MaxWALRecordSize) header in
  splice 24 (le_put 4 (CRC32C (slice 0 24 header))) header.

Definition validateWALFileHeader (header : bytes) : result unit :=
  if negb (zlen header =? walFileHeaderSize) then Fail (wal_corrupt "invalid file header length")
  else if negb (bytes_eqb (slice 0 8 header) walMagic) then Fail (wal_corrupt "invalid file magic")
  else if negb (le_get (slice 8 10 header) =? walFormatVersion)
  then Fail (errorf "unsupported WAL version" ErrUnsupportedFormatVersion)
  else if negb (le_get (slice 10 12 header) =? walFileHeaderSize)
  then Fail (wal_corrupt "invalid file header size")
  else if negb (le_get (slice 12 16 header) =? MaxWALRecordSize)
  then Fail (wal_corrupt "invalid maximum record size")
  else if negb (le_get (slice 16 24 header) =? 0) || negb (le_get (slice 28 32 header) =? 0)
  then Fail (wal_corrupt "nonzero file header reserved bytes")
  else if negb (CRC32C (slice 0 24 header) =? le_get (slice 24 28 header))
  then Fail (wal_corrupt "file header checksum")
  else Ok tt.

Definition encodeWALRecord (lsn : Z) (payload : bytes) : bytes :=
  let encoded := make_bytes (32 + length payload) in
  let encoded := splice 0 walRecordMagic encoded in
  let encoded := splice 4 (le_put 2 walFormatVersion) encoded in
  let encoded := splice 6 (le_put 2 walRecordHeaderSize) encoded in
  let encoded := splice 8 (le_put 8 lsn) encoded in
  let encoded := splice 16 (le_put 4 (wrap32 (zlen payload))) encoded in
  let encoded := splice 20 (le_put 4 (CRC32C payload)) encoded in
  let encoded := splice 24 (le_put 4 (CRC32C (slice 0 24 encoded))) encoded in
  splice 32 payload encoded.

Record walRecordMetadata := {
  md_lsn : Z;
  md_payloadLength : Z;
  md_payloadCRC : Z
}.

Definition decodeWALRecordHeader (header : bytes) (expectedLSN : Z) : result walRecordMetadata :=
  if negb (zlen header =? walRecordHeaderSize)
  then Fail (errors_New "invalid record header length")
  else if negb (bytes_eqb (slice 0 4 header) walRecordMagic)
  then Fail (errors_New "invalid record magic")
  else if negb (le_get (slice 4 6 header) =? walFormatVersion)
  then Fail (errors_New "unsupported record version")
  else if negb (le_get (slice 6 8 header) =? walRecordHeaderSize)
  then Fail (errors_New "invalid record header size")
  else let lsn := le_get (slice 8 16 header) in
  if negb (lsn =? expectedLSN) then Fail (errors_New "unexpected LSN")
  else let payloadLength := le_get (slice 16 20 header) in
  if (payloadLength =? 0) || (MaxWALRecordSize <? payloadLength)
  then Fail (errors_New "invalid payload length")
  else if negb (le_get (slice 28 32 header) =? 0)
  then Fail (errors_New "nonzero record header reserved bytes")
  else if negb (CRC32C (slice 0 24 header) =? le_get (slice 24 28 header))
  then Fail (errors_New "header checksum")
  else Ok {| md_lsn := lsn; md_payloadLength := payloadLength;
             md_payloadCRC := le_get (slice 20 24 header) |}.

(** ** Recovery scan *)
Record WALRecovery := {
  Records : Z;
  LastLSN : Z;
  ValidBytes : Z;
  TruncatedBytes : Z
}.

(** One iteration of the loop of [scanWAL]: stop with the recovery (a clean
    end, or a torn tail), fail, or go on. [offset < size] holds. *)
Inductive scan_outcome :=
| ScanStop (r : WALRecovery)
| ScanFail (e : gerror)
| ScanNext (offset : Z) (expectedLSN : Z) (r : WALRecovery).

Definition scan_step (ctx : context) (file : bytes) (size offset expectedLSN : Z)
    (recovery : WALRecovery) : scan_outcome :=
  match ctx_Err ctx with
  | Some e => ScanFail e
  | None =>
  let remaining := size - offset in
  let torn := {| Records := Records recovery; LastLSN := LastLSN recovery;
                 ValidBytes := ValidBytes recovery; TruncatedBytes := remaining |} in
  if remaining <? walRecordHeaderSize then ScanStop torn
  else match ReadFullAt [] file 32 offset with
  | Fail e => ScanFail (wal_corrupt "read record header")
  | Ok recordHeader =>
  match decodeWALRecordHeader recordHeader expectedLSN with
  | Fail e => ScanFail (wal_corrupt "record header")
  | Ok metadata =>
  let recordSize := walRecordHeaderSize + md_payloadLength metadata in
  if remaining <? recordSize then ScanStop torn
  else match ReadFullAt [] file (Z.to_nat (md_payloadLength metadata)) (offset + walRecordHeaderSize) with
  | Fail e => ScanFail (wal_corrupt "read record payload")
  | Ok payload =>
  if negb (CRC32C payload =? md_payloadCRC metadata) then ScanFail (wal_corrupt "record payload checksum")
  else ScanNext (offset + recordSize) (wrap64 (expectedLSN + 1))
         {| Records := wrap64 (Records recovery + 1); LastLSN := expectedLSN;
            ValidBytes := offset + recordSize; TruncatedBytes := TruncatedBytes recovery |}
  end end end end.

(** The [for offset < size] loop; every iteration that goes on consumes more
    than [walRecordHeaderSize] bytes, so [size] iterations are always enough. *)
Fixpoint scan_loop (fuel : nat) (ctx : context) (file : bytes) (size offset expectedLSN : Z)
    (recovery : WALRecovery) : option (result WALRecovery) :=
  if size <=? offset then Some (Ok recovery)
  else match fuel with
  | O => None
  | S fuel =>
      match scan_step ctx file size offset expectedLSN recovery with
      | ScanStop r => Some (Ok r)
      | ScanFail e => Some (Fail e)
      | ScanNext offset expectedLSN recovery =>
          scan_loop fuel ctx file size offset expectedLSN recovery
      end
  end.

Definition scan_fuel (file : bytes) : nat := length file.

Definition scanWAL (ctx : context) (file : bytes) : option (result WALRecovery) :=
  let size := zlen file in
  if size <? walFileHeaderSize then Some (Fail (wal_corrupt "file is shorter than its header"))
  else match ReadFullAt [] file 32 0 with
  | Fail e => Some (Fail (wal_corrupt "read file header"))
  | Ok header =>
      match validateWALFileHeader header with
      | Fail e => Some (Fail e)
      | Ok _ =>
          scan_loop (scan_fuel file) ctx file size walFileHeaderSize 1
            {| Records := 0; LastLSN := 0; ValidBytes := walFileHeaderSize; TruncatedBytes := 0 |}
      end
  end.

(** ** Reader *)
Record WALRecord := { LSN : Z; Payload : bytes }.

Definition readWALRecordAt (file : bytes) (offset limit expectedLSN : Z) : result (WALRecord * Z) :=
  let remaining := limit - offset in
  if remaining <? walRecordHeaderSize then Fail (wal_corrupt "partial record header")
  else match ReadFullAt [] file 32 offset with
  | Fail e => Fail (wal_corrupt "read record header")
  | Ok header =>
  match decodeWALRecordHeader header expectedLSN with
  | Fail e => Fail (wal_corrupt "record header")
  | Ok metadata =>
  let recordSize := walRecordHeaderSize + md_payloadLength metadata in
  if remaining <? recordSize then Fail (wal_corrupt "partial record payload")
  else match ReadFullAt [] file (Z.to_nat (md_payloadLength metadata)) (offset + walRecordHeaderSize) with
  | Fail e => Fail (wal_corrupt "read record payload")
  | Ok payload =>
  if negb (CRC32C payload =? md_payloadCRC metadata) then Fail (wal_corrupt "record payload checksum")
  else Ok ({| LSN := md_lsn metadata; Payload := payload |}, recordSize)
  end end end.

Record WALReader := {
  r_file : bytes;
  r_offset : Z;
  r_limit : Z;
  r_nextLSN : Z;
  r_closed : bool
}.

(** [Next]: the reader after the call and the record or error. *)
Definition WALReader_Next (ctx : context) (r : WALReader) : WALReader * result WALRecord :=
  match ctx_guard "db: nil WAL reader context" ctx with
  | Some e => (r, Fail e)
  | None =>
  if r_closed r then (r, Fail ErrWALClosed)
  else if r_offset r =? r_limit r then (r, Fail io_EOF)
  else match readWALRecordAt (r_file r) (r_offset r) (r_limit r) (r_nextLSN r) with
  | Fail e => (r, Fail e)
  | Ok (record, size) =>
      ({| r_file := r_file r; r_offset := r_offset r + size; r_limit := r_limit r;
          r_nextLSN := wrap64 (r_nextLSN r + 1); r_closed := r_closed r |}, Ok record)
  end end.

Definition WALReader_Close (r : WALReader) : WALReader :=
  {| r_file := r_file r; r_offset := r_offset r; r_limit := r_limit r;
     r_nextLSN := r_nextLSN r; r_closed := true |}.

(** ** Log handles *)
Record WAL := {
  w_file : osfile;
  w_SyncEvery : Z;
  w_recovery : WALRecovery;
  w_size : Z;
  w_lastLSN : Z;
  w_dirtyRecords : Z;
  w_poisoned : option gerror;
  w_readOnly : bool;
  w_closed : bool
}.

Definition wal_set_file (w : WAL) (f : osfile) : WAL :=
  {| w_file := f; w_SyncEvery := w_SyncEvery w; w_recovery := w_recovery w; w_size := w_size w;
     w_lastLSN := w_lastLSN w; w_dirtyRecords := w_dirtyRecords w; w_poisoned := w_poisoned w;
     w_readOnly := w_readOnly w; w_closed := w_closed w |}.
Definition wal_set_poisoned (w : WAL) (e : gerror) : WAL :=
  {| w_file := w_file w; w_SyncEvery := w_SyncEvery w; w_recovery := w_recovery w; w_size := w_size w;
     w_lastLSN := w_lastLSN w; w_dirtyRecords := w_dirtyRecords w; w_poisoned := Some e;
     w_readOnly := w_readOnly w; w_closed := w_closed w |}.
Definition wal_set_dirty (w : WAL) (n : Z) : WAL :=
  {| w_file := w_file w; w_SyncEvery := w_SyncEvery w; w_recovery := w_recovery w; w_size := w_size w;
     w_lastLSN := w_lastLSN w; w_dirtyRecords := n; w_poisoned := w_poisoned w;
     w_readOnly := w_readOnly w; w_closed := w_closed w |}.
Definition wal_set_closed (w : WAL) : WAL :=
  {| w_file := w_file w; w_SyncEvery := w_SyncEvery w; w_recovery := w_recovery w; w_size := w_size w;
     w_lastLSN := w_lastLSN w; w_dirtyRecords := w_dirtyRecords w; w_poisoned := w_poisoned w;
     w_readOnly := w_readOnly w; w_closed := true |}.
(** The three assignments after a complete write of [n] bytes. *)
Definition wal_appended (w : WAL) (n lsn : Z) : WAL :=
  {| w_file := w_file w; w_SyncEvery := w_SyncEvery w; w_recovery := w_recovery w;
     w_size := w_size w + n; w_lastLSN := lsn; w_dirtyRecords := wrap64 (w_dirtyRecords w + 1);
     w_poisoned := w_poisoned w; w_readOnly := w_readOnly w; w_closed := w_closed w |}.

(** What the operating system does during one call: the transfers of a
    [WriteFullAt], and the outcomes of a sync and of a truncation. *)
Record wal_io := {
  io_writes : list write_outcome;
  io_sync : option gerror;
  io_truncate : option gerror
}.
Definition io_fine : wal_io := {| io_writes := []; io_sync := None; io_truncate := None |}.

(** [w.syncFile()] *)
Definition wal_syncFile (io : wal_io) (w : WAL) : WAL * option gerror :=
  let '(f, e) := file_Sync (io_sync io) (w_file w) in (wal_set_file w f, e).

(** [CreateWAL] after its lock is held and its path is known to be free. *)
Definition CreateWAL (ctx : context) (exists_ : bool) (io : wal_io) (syncEvery : Z) : result WAL :=
  match ctx_guard "db: nil create WAL context" ctx with
  | Some e => Fail e
  | None =>
  if exists_ then Fail ErrWALExists
  else match WriteFullAt (io_writes io) [] encodeWALFileHeader 0 with
  | (_, Some e) => Fail (errorf "db: write WAL header" e)
  | (content, None) =>
  match file_Sync (io_sync io) {| f_content := content; f_stable := 0 |} with
  | (_, Some e) => Fail (errorf "db: sync WAL header" e)
  | (file, None) =>
      Ok {| w_file := file; w_SyncEvery := syncEvery;
            w_recovery := {| Records := 0; LastLSN := 0; ValidBytes := walFileHeaderSize; TruncatedBytes := 0 |};
            w_size := walFileHeaderSize; w_lastLSN := 0; w_dirtyRecords := 0;
            w_poisoned := None; w_readOnly := false; w_closed := false |}
  end end end.

(** [openWAL] under its lock. [None] only if the scan ran out of fuel, which
    [scanWAL_total] excludes. *)
Definition openWAL (ctx : context) (slot : option osfile) (io : wal_io) (syncEvery : Z)
    (readOnly : bool) : option (result WAL) :=
  match ctx_guard "db: nil open WAL context" ctx with
  | Some e => Some (Fail e)
  | None =>
  match slot with
  | None => Some (Fail ErrWALNotFound)
  | Some file =>
  match scanWAL ctx (f_content file) with
  | None => None
  | Some (Fail e) => Some (Fail e)
  | Some (Ok recovery) =>
      let handle f :=
        {| w_file := f; w_SyncEvery := syncEvery; w_recovery := recovery;
           w_size := ValidBytes recovery; w_lastLSN := LastLSN recovery; w_dirtyRecords := 0;
           w_poisoned := None; w_readOnly := readOnly; w_closed := false |} in
      if (0 <? TruncatedBytes recovery) && negb readOnly then
        match file_Truncate (io_truncate io) (Z.to_nat (ValidBytes recovery)) file with
        | (_, Some e) => Some (Fail (errorf "db: truncate partial WAL tail" e))
        | (file, None) =>
            match file_Sync (io_sync io) file with
            | (_, Some e) => Some (Fail (errorf "db: sync repaired WAL tail" e))
            | (file, None) => Some (Ok (handle file))
            end
        end
      else Some (Ok (handle file))
  end end end.

Definition OpenWAL ctx slot io syncEvery := openWAL ctx slot io syncEvery false.
Definition OpenWALReadOnly ctx slot := openWAL ctx slot io_fine 0 true.

Definition HasRecords (w : WAL) : bool := negb (w_lastLSN w =? 0).

(** [Append]: handle, returned LSN and error. *)
Definition WAL_Append (ctx : context) (io : wal_io) (payload : bytes) (w : WAL)
    : WAL * (Z * option gerror) :=
  match ctx_guard "db: nil WAL append context" ctx with
  | Some e => (w, (0, Some e))
  | None =>
  if zlen payload =? 0 then (w, (0, Some (errors_New "db: empty WAL record")))
  else if MaxWALRecordSize <? zlen payload then (w, (0, Some (errorf "too large" ErrWALRecordTooLarge)))
  else if w_closed w then (w, (0, Some ErrWALClosed))
  else if w_readOnly w then (w, (0, Some ErrWALReadOnly))
  else match w_poisoned w with
  | Some e => (w, (0, Some e))
  | None =>
  if w_lastLSN w =? u64_max then (w, (0, Some (errors_New "db: WAL LSN exhausted")))
  else
    let lsn := w_lastLSN w + 1 in
    let encoded := encodeWALRecord lsn payload in
    match WriteFullAt (io_writes io) (f_content (w_file w)) encoded (w_size w) with
    | (content, Some e) =>
        let poison := GErr "write record" [ErrWALPoisoned] in
        let w := wal_set_file w {| f_content := content; f_stable := f_stable (w_file w) |} in
        (wal_set_poisoned w poison, (0, Some poison))
    | (content, None) =>
        let w := wal_set_file w {| f_content := content; f_stable := f_stable (w_file w) |} in
        let w := wal_appended w (zlen encoded) lsn in
        if (0 <? w_SyncEvery w) && (w_SyncEvery w <=? w_dirtyRecords w) then
          match wal_syncFile io w with
          | (w, Some e) =>
              let poison := GErr "sync record" [ErrWALPoisoned; e] in
              (wal_set_poisoned w poison, (lsn, Some poison))
          | (w, None) => (wal_set_dirty w 0, (lsn, None))
          end
        else (w, (lsn, None))
    end
  end end.

Definition WAL_Sync (ctx : context) (io : wal_io) (w : WAL) : WAL * option gerror :=
  match ctx_guard "db: nil WAL sync context" ctx with
  | Some e => (w, Some e)
  | None =>
  if w_closed w then (w, Some ErrWALClosed)
  else if w_readOnly w then (w, Some ErrWALReadOnly)
  else match w_poisoned w with
  | Some e => (w, Some e)
  | None =>
      match wal_syncFile io w with
      | (w, Some e) =>
          let poison := GErr "sync WAL" [ErrWALPoisoned; e] in
          (wal_set_poisoned w poison, Some poison)
      | (w, None) => (wal_set_dirty w 0, None)
      end
  end end.

Definition NewReader (w : WAL) : result WALReader :=
  if w_closed w then Fail ErrWALClosed
  else match w_poisoned w with
  | Some e => Fail e
  | None =>
      match ReadFullAt [] (f_content (w_file w)) 32 0 with
      | Fail e => Fail (wal_corrupt "read WAL reader header")
      | Ok header =>
          match validateWALFileHeader header with
          | Fail e => Fail e
          | Ok _ => Ok {| r_file := f_content (w_file w); r_offset := walFileHeaderSize;
                          r_limit := w_size w; r_nextLSN := 1; r_closed := false |}
          end
      end
  end.

(** The loop of [Replay] over a callback that threads a state [S]. *)
Fixpoint replay_loop {S} (fuel : nat) (ctx : context) (apply : S -> WALRecord -> result S)
    (r : WALReader) (s : S) : option (S * option gerror) :=
  match fuel with
  | O => None
  | Datatypes.S fuel =>
      match WALReader_Next ctx r with
      | (r, Fail e) => if errors_Is e io_EOF then Some (s, None) else Some (s, Some e)
      | (r, Ok record) =>
          match apply s record with
          | Fail e => Some (s, Some (errorf "db: replay WAL record" e))
          | Ok s => replay_loop fuel ctx apply r s
          end
      end
  end.

Definition WAL_Replay {S} (ctx : context) (apply : S -> WALRecord -> result S) (w : WAL) (s : S)
    : option (S * option gerror) :=
  match ctx with
  | CtxNil => Some (s, Some (errors_New "db: nil WAL replay context"))
  | _ =>
      match NewReader w with
      | Fail e => Some (s, Some e)
      | Ok reader => replay_loop (Datatypes.S (length (r_file reader))) ctx apply reader s
      end
  end.

(** [Close]: syncs complete records unless the log is poisoned or read-only. *)
Definition WAL_Close (io : wal_io) (w : WAL) : WAL * option gerror :=
  if w_closed w then (w, None)
  else
    let w := wal_set_closed w in
    let '(w, syncErr) :=
      if negb (w_readOnly w) && (match w_poisoned w with None => true | _ => false end)
         && (0 <? w_dirtyRecords w)
      then match wal_syncFile io w with
           | (w, Some e) => (w, Some (errorf "db: sync WAL on close" e))
           | (w, None) => (w, None)
           end
      else (w, None) in
    (w, errors_Join [w_poisoned w; syncErr]).

(** ** Layout of the encodings *)
Definition wal_header_prefix (lsn len crc : Z) : bytes :=
  walRecordMagic ++ le_put 2 walFormatVersion ++ le_put 2 walRecordHeaderSize ++
  le_put 8 lsn ++ le_put 4 len ++ le_put 4 crc.
Definition wal_header (lsn len crc : Z) : bytes :=
  wal_header_prefix lsn len crc ++ le_put 4 (CRC32C (wal_header_prefix lsn len crc)) ++ make_bytes 4.

Lemma length_wal_header lsn len crc : length (wal_header lsn len crc) = 32%nat.
Proof. done. Qed.

Lemma encodeWALRecord_layout lsn payload :
  encodeWALRecord lsn payload = wal_header lsn (wrap32 (zlen payload)) (CRC32C payload) ++ payload.
Proof.
  unfold encodeWALRecord. rewrite make_bytes_add.
  repeat (rewrite splice_app_l by (apply Nat.leb_le; reflexivity)).
  rewrite slice_app_l by (apply Nat.leb_le; reflexivity).
  set (h := splice 24 _ _).
  assert (h = wal_header lsn (wrap32 (zlen payload)) (CRC32C payload)) as -> by reflexivity.
  by apply (splice_tail (wal_header lsn (wrap32 (zlen payload)) (CRC32C payload))).
Qed.

Lemma length_encodeWALRecord lsn payload :
  length (encodeWALRecord lsn payload) = (32 + length payload)%nat.
Proof. by rewrite encodeWALRecord_layout, length_app, length_wal_header. Qed.

Lemma zlen_encodeWALRecord lsn payload : zlen (encodeWALRecord lsn payload) = 32 + zlen payload.
Proof. unfold zlen. rewrite length_encodeWALRecord. lia. Qed.

(** A payload that [Append] accepts. *)
Definition wal_payload_ok (p : bytes) : Prop := 0 < zlen p <= MaxWALRecordSize.

Lemma wal_payload_wrap p : wal_payload_ok p -> wrap32 (zlen p) = zlen p.
Proof. unfold wal_payload_ok, MaxWALRecordSize, wrap32. intros. apply Z.mod_small. lia. Qed.

Lemma decode_wal_header lsn len crc :
  is_u64 lsn -> 0 < len <= MaxWALRecordSize -> is_u32 crc ->
  decodeWALRecordHeader (wal_header lsn len crc) lsn =
  Ok {| md_lsn := lsn; md_payloadLength := len; md_payloadCRC := crc |}.
Proof.
  intros Hl Hlen Hc. unfold decodeWALRecordHeader.
  change (slice 0 4 (wal_header lsn len crc)) with walRecordMagic.
  change (slice 4 6 (wal_header lsn len crc)) with (le_put 2 walFormatVersion).
  change (slice 6 8 (wal_header lsn len crc)) with (le_put 2 walRecordHeaderSize).
  change (slice 8 16 (wal_header lsn len crc)) with (le_put 8 lsn).
  change (slice 16 20 (wal_header lsn len crc)) with (le_put 4 len).
  change (slice 20 24 (wal_header lsn len crc)) with (le_put 4 crc).
  change (slice 24 28 (wal_header lsn len crc)) with (le_put 4 (CRC32C (wal_header_prefix lsn len crc))).
  change (slice 28 32 (wal_header lsn len crc)) with (make_bytes 4).
  change (slice 0 24 (wal_header lsn len crc)) with (wal_header_prefix lsn len crc).
  change (le_get (make_bytes 4)) with 0.
  assert (is_u32 len) as Hlen32 by (unfold MaxWALRecordSize, is_u32, u32_max in *; lia).
  rewrite (le_get_put2 walFormatVersion), (le_get_put2 walRecordHeaderSize)
    by (vm_compute; split; discriminate).
  rewrite (le_get_put8 lsn Hl), (le_get_put4 len Hlen32), (le_get_put4 crc Hc),
    (le_get_put4 _ (CRC32C_range _)).
  rewrite bytes_eqb_refl, !Z.eqb_refl. simpl.
  destruct (len =? 0) eqn:E1; [to_prop; lia|]. destruct (MaxWALRecordSize <? len) eqn:E2; [to_prop; lia|].
  done.
Qed.

Lemma header_fields (h : bytes) :
  length h = 32%nat ->
  h = (slice 0 4 h ++ slice 4 6 h ++ slice 6 8 h ++ slice 8 16 h ++ slice 16 20 h ++ slice 20 24 h) ++
      slice 24 28 h ++ slice 28 32 h /\
  slice 0 24 h = slice 0 4 h ++ slice 4 6 h ++ slice 6 8 h ++ slice 8 16 h ++ slice 16 20 h ++ slice 20 24 h.
Proof.
  intros H.
  assert (slice 0 24 h = slice 0 4 h ++ slice 4 6 h ++ slice 6 8 h ++ slice 8 16 h ++
          slice 16 20 h ++ slice 20 24 h) as H24.
  { rewrite (slice_split 0 4 24), (slice_split 4 6 24), (slice_split 6 8 24),
      (slice_split 8 16 24), (slice_split 16 20 24) by lia. done. }
  split; [|done]. rewrite <- H24, <- (slice_split 24 28 32), <- (slice_split 0 24 32) by lia.
  rewrite <- H. symmetry. apply slice_full.
Qed.

Lemma decode_wal_header_inv h lsn md :
  decodeWALRecordHeader h lsn = Ok md ->
  h = wal_header lsn (md_payloadLength md) (md_payloadCRC md) /\ md_lsn md = lsn /\
  0 < md_payloadLength md <= MaxWALRecordSize.
Proof.
  unfold decodeWALRecordHeader. intros H.
  repeat (case_in H; [discriminate H|]). injection H as <-. to_prop. simpl.
  assert (length h = 32%nat) as Hlen by (unfold zlen, walRecordHeaderSize in *; lia).
  pose proof (header_fields h Hlen) as [Hh H24].
  pose proof (le_get_bound (slice 16 20 h)) as Hb.
  split; [|split; [done|lia]].
  assert (slice 0 24 h = wal_header_prefix lsn (le_get (slice 16 20 h)) (le_get (slice 20 24 h))) as Hp.
  { rewrite H24. unfold wal_header_prefix. f_equal; [by apply bytes_eqb_eq|].
    f_equal; [by apply (slice_le_get 4 6); [lia|]|].
    f_equal; [by apply (slice_le_get 6 8); [lia|]|].
    f_equal; [by apply (slice_le_get 8 16); [lia|]|].
    f_equal; [apply (slice_le_put 16 20); lia|apply (slice_le_put 20 24); lia]. }
  rewrite Hh at 1. rewrite <- H24, Hp. unfold wal_header. f_equal. rewrite Hp in E6.
  f_equal; [apply (slice_le_get 24 28); [lia|done]|].
  rewrite (slice_le_get 28 32 h 0) by (lia || done). done.
Qed.

Lemma length_encodeWALFileHeader : length encodeWALFileHeader = 32%nat.
Proof. done. Qed.

Lemma validate_encodeWALFileHeader : validateWALFileHeader encodeWALFileHeader = Ok tt.
Proof. vm_compute. reflexivity. Qed.

#[global] Opaque encodeWALRecord wal_header encodeWALFileHeader.

(** ** Logs as byte strings *)
Fixpoint encode_records (lsn : Z) (ps : list bytes) : bytes :=
  match ps with
  | [] => []
  | p :: ps => encodeWALRecord lsn p ++ encode_records (lsn + 1) ps
  end.

(** The content of a log that holds the payloads [ps], numbered from one. *)
Definition encode_log (ps : list bytes) : bytes := encodeWALFileHeader ++ encode_records 1 ps.

Lemma encode_records_app lsn ps qs :
  encode_records lsn (ps ++ qs) = encode_records lsn ps ++ encode_records (lsn + zlen ps) qs.
Proof.
  revert lsn. induction ps as [|p ps IH]; intros lsn; simpl.
  - by rewrite zlen_nil, Z.add_0_r.
  - rewrite IH, zlen_cons, <- app_assoc.
    by replace (lsn + (zlen ps + 1)) with (lsn + 1 + zlen ps) by lia.
Qed.

Lemma encode_log_snoc ps p :
  encode_log (ps ++ [p]) = encode_log ps ++ encodeWALRecord (zlen ps + 1) p.
Proof.
  unfold encode_log. rewrite encode_records_app. simpl. rewrite app_nil_r, app_assoc.
  by replace (zlen ps + 1) with (1 + zlen ps) by lia.
Qed.

(** ** One scan iteration *)
Section scan_step.
Context (pre post : bytes) (lsn : Z) (r : WALRecovery).
Hypothesis Hlsn : is_u64 lsn.

Lemma read_record_header p n off :
  off = zlen pre -> n = 32%nat ->
  ReadFullAt [] (pre ++ encodeWALRecord lsn p ++ post) n off =
  Ok (wal_header lsn (wrap32 (zlen p)) (CRC32C p)).
Proof.
  intros -> ->. rewrite encodeWALRecord_layout, <- app_assoc. by apply ReadFullAt_field.
Qed.

Lemma read_record_payload p n off :
  off = zlen pre + walRecordHeaderSize -> n = length p ->
  ReadFullAt [] (pre ++ encodeWALRecord lsn p ++ post) n off = Ok p.
Proof.
  intros -> ->. rewrite encodeWALRecord_layout, <- app_assoc, app_assoc.
  apply ReadFullAt_field; [|done].
  rewrite zlen_app. unfold zlen at 3. by rewrite length_wal_header.
Qed.

Lemma scan_step_record p :
  wal_payload_ok p ->
  scan_step CtxLive (pre ++ encodeWALRecord lsn p ++ post)
    (zlen (pre ++ encodeWALRecord lsn p ++ post)) (zlen pre) lsn r =
  ScanNext (zlen pre + (32 + zlen p)) (wrap64 (lsn + 1))
    {| Records := wrap64 (Records r + 1); LastLSN := lsn;
       ValidBytes := zlen pre + (32 + zlen p); TruncatedBytes := TruncatedBytes r |}.
Proof.
  intros Hp. unfold scan_step. simpl ctx_Err. cbv zeta.
  rewrite !zlen_app, zlen_encodeWALRecord. pose proof (zlen_nonneg post).
  unfold walRecordHeaderSize. unfold wal_payload_ok in Hp.
  destruct (_ <? 32) eqn:E1; [to_prop; lia|].
  rewrite read_record_header by done.
  rewrite decode_wal_header; [|done|by rewrite wal_payload_wrap|apply CRC32C_range].
  simpl md_payloadLength. simpl md_payloadCRC. rewrite wal_payload_wrap by done.
  destruct (_ <? 32 + zlen p) eqn:E2; [to_prop; lia|].
  rewrite zlen_to_nat, (read_record_payload p) by done.
  by rewrite Z.eqb_refl.
Qed.
End scan_step.

(** A strict prefix of a record at the end of the file is a torn tail. *)
Lemma scan_step_torn pre lsn p k r :
  is_u64 lsn -> wal_payload_ok p -> (k < length (encodeWALRecord lsn p))%nat ->
  let file := pre ++ take k (encodeWALRecord lsn p) in
  scan_step CtxLive file (zlen file) (zlen pre) lsn r =
  ScanStop {| Records := Records r; LastLSN := LastLSN r; ValidBytes := ValidBytes r;
              TruncatedBytes := Z.of_nat k |}.
Proof.
  intros Hl Hp Hk file. subst file. unfold scan_step. simpl ctx_Err. cbv zeta.
  assert (zlen (take k (encodeWALRecord lsn p)) = Z.of_nat k) as Hz.
  { unfold zlen. rewrite length_take. lia. }
  rewrite !zlen_app, Hz. replace (zlen pre + Z.of_nat k - zlen pre) with (Z.of_nat k) by lia.
  destruct (_ <? walRecordHeaderSize) eqn:E1; [done|]. to_prop. unfold walRecordHeaderSize in *.
  rewrite length_encodeWALRecord in Hk.
  rewrite encodeWALRecord_layout.
  rewrite take_app_ge by (rewrite length_wal_header; lia).
  rewrite (ReadFullAt_field pre (wal_header lsn (wrap32 (zlen p)) (CRC32C p))) by done.
  rewrite decode_wal_header; [|done|by rewrite wal_payload_wrap|apply CRC32C_range].
  simpl md_payloadLength. rewrite wal_payload_wrap by done.
  destruct (_ <? 32 + zlen p) eqn:E2; [done|]. to_prop. unfold zlen in *. lia.
Qed.

(** ** The whole scan *)
Definition rec_at (n valid torn : Z) : WALRecovery :=
  {| Records := n; LastLSN := n; ValidBytes := valid; TruncatedBytes := torn |}.

Lemma scan_loop_end fuel ctx file size offset lsn r :
  size <= offset -> scan_loop fuel ctx file size offset lsn r = Some (Ok r).
Proof. intros H. destruct fuel; simpl; by rewrite (proj2 (Z.leb_le _ _) H). Qed.

Lemma scan_loop_S fuel ctx file size offset lsn r :
  offset < size ->
  scan_loop (S fuel) ctx file size offset lsn r =
  match scan_step ctx file size offset lsn r with
  | ScanStop r => Some (Ok r)
  | ScanFail e => Some (Fail e)
  | ScanNext offset lsn r => scan_loop fuel ctx file size offset lsn r
  end.
Proof. intros H. simpl. by rewrite (proj2 (Z.leb_gt _ _) H). Qed.

Lemma zlen_encode_record_pos lsn p : wal_payload_ok p -> 32 < zlen (encodeWALRecord lsn p).
Proof. intros []. rewrite zlen_encodeWALRecord. lia. Qed.

Lemma scan_loop_records ps pre n tail fuel :
  Forall wal_payload_ok ps -> 0 <= n -> n + zlen ps + 1 < u64_max ->
  (length ps <= fuel)%nat ->
  scan_loop fuel CtxLive (pre ++ encode_records (n + 1) ps ++ tail)
    (zlen (pre ++ encode_records (n + 1) ps ++ tail)) (zlen pre) (n + 1) (rec_at n (zlen pre) 0) =
  scan_loop (fuel - length ps) CtxLive (pre ++ encode_records (n + 1) ps ++ tail)
    (zlen (pre ++ encode_records (n + 1) ps ++ tail))
    (zlen (pre ++ encode_records (n + 1) ps)) (n + zlen ps + 1)
    (rec_at (n + zlen ps) (zlen (pre ++ encode_records (n + 1) ps)) 0).
Proof.
  intros Hps. revert pre n fuel. induction Hps as [|p ps Hp Hps IH]; intros pre n fuel Hn Hmax Hfuel.
  { cbn [encode_records length app]. by rewrite app_nil_r, Nat.sub_0_r, (@zlen_nil bytes), !Z.add_0_r. }
  cbn [encode_records length] in *. rewrite zlen_cons in *.
  destruct fuel as [|fuel]; [lia|].
  pose proof (zlen_nonneg ps) as Hz. pose proof (zlen_encode_record_pos (n + 1) p Hp).
  rewrite scan_loop_S.
  2:{ rewrite !zlen_app. pose proof (zlen_nonneg tail).
      pose proof (zlen_nonneg (encode_records (n + 1 + 1) ps)). lia. }
  rewrite <- app_assoc.
  rewrite (scan_step_record pre _ (n + 1)) by (done || (unfold is_u64; lia)).
  rewrite <- zlen_encodeWALRecord with (lsn := n + 1), <- zlen_app, !app_assoc.
  simpl TruncatedBytes. simpl Records.
  rewrite !wrap64_id by (unfold is_u64; lia).
  replace (n + (zlen ps + 1) + 1) with (n + 1 + zlen ps + 1) by lia.
  replace (n + (zlen ps + 1)) with (n + 1 + zlen ps) by lia.
  specialize (IH (pre ++ encodeWALRecord (n + 1) p) (n + 1) fuel ltac:(lia) ltac:(lia) ltac:(lia)).
  rewrite !app_assoc in IH. exact IH.
Qed.

Lemma length_encode_records lsn ps :
  (length ps <= length (encode_records lsn ps))%nat.
Proof.
  revert lsn. induction ps as [|p ps IH]; intros lsn; cbn [encode_records length]; [lia|].
  rewrite length_app, length_encodeWALRecord. specialize (IH (lsn + 1)). lia.
Qed.

Lemma read_file_header file : ReadFullAt [] (encodeWALFileHeader ++ file) 32 0 = Ok encodeWALFileHeader.
Proof. by apply (ReadFullAt_field []). Qed.

Lemma scanWAL_torn ps p k :
  Forall wal_payload_ok ps -> wal_payload_ok p -> zlen ps + 1 < u64_max ->
  (k < length (encodeWALRecord (zlen ps + 1) p))%nat ->
  scanWAL CtxLive (encode_log ps ++ take k (encodeWALRecord (zlen ps + 1) p)) =
  Some (Ok (rec_at (zlen ps) (zlen (encode_log ps)) (Z.of_nat k))).
Proof.
  intros Hps Hp Hmax Hk. unfold scanWAL, encode_log. rewrite <- !app_assoc.
  set (tail := take k _).
  assert (length tail = k) as Htail by (unfold tail; rewrite length_take; lia).
  rewrite (zlen_app encodeWALFileHeader). change (zlen encodeWALFileHeader) with 32.
  destruct (_ <? walFileHeaderSize) eqn:E.
  { to_prop. unfold walFileHeaderSize in *. pose proof (zlen_nonneg (encode_records 1 ps ++ tail)). lia. }
  rewrite read_file_header, validate_encodeWALFileHeader.
  change 32 with (zlen encodeWALFileHeader). rewrite <- zlen_app.
  assert (length ps + k <= length (encode_records 1 ps ++ tail))%nat as Hlen.
  { rewrite length_app, Htail. pose proof (length_encode_records 1 ps). lia. }
  set (fuel := scan_fuel _).
  assert (length ps + k < fuel)%nat as Hfuel.
  { unfold fuel, scan_fuel. rewrite length_app, length_encodeWALFileHeader. lia. }
  etrans.
  { exact (scan_loop_records ps encodeWALFileHeader 0 tail fuel Hps ltac:(lia) ltac:(lia) ltac:(lia)). }
  clearbody fuel. change (0 + 1) with 1.
  rewrite !Z.add_0_l.
  destruct (decide (k = 0%nat)) as [->|Hk0].
  { destruct tail; [|simpl in Htail; lia]. rewrite app_nil_r. by rewrite scan_loop_end by lia. }
  destruct (fuel - length ps)%nat as [|fuel'] eqn:Ef; [lia|].
  rewrite app_assoc. rewrite scan_loop_S by (rewrite (zlen_app _ tail); unfold zlen; lia).
  unfold tail. rewrite scan_step_torn; [done|unfold is_u64; pose proof (zlen_nonneg ps); lia|done..].
Qed.

(** ** Soundness and totality of the scan *)
Lemma scan_step_next_inv pre rest lsn r offset' lsn' r' :
  scan_step CtxLive (pre ++ rest) (zlen (pre ++ rest)) (zlen pre) lsn r = ScanNext offset' lsn' r' ->
  exists p rest', wal_payload_ok p /\ rest = encodeWALRecord lsn p ++ rest' /\
    offset' = zlen (pre ++ encodeWALRecord lsn p) /\ lsn' = wrap64 (lsn + 1) /\
    r' = {| Records := wrap64 (Records r + 1); LastLSN := lsn;
            ValidBytes := zlen (pre ++ encodeWALRecord lsn p); TruncatedBytes := TruncatedBytes r |}.
Proof.
  unfold scan_step. simpl ctx_Err. cbv zeta. intros H.
  case_in H; [discriminate H|].
  destruct (ReadFullAt [] (pre ++ rest) 32 (zlen pre)) as [h|] eqn:Eh; [|discriminate H].
  apply ReadFullAt_split in Eh as [Hh Hrest].
  destruct (decodeWALRecordHeader h lsn) as [md|] eqn:Ed; [|discriminate H].
  apply decode_wal_header_inv in Ed as (Hhdr & Hlsn & Hlen).
  case_in H; [discriminate H|].
  destruct (ReadFullAt [] (pre ++ rest) _ _) as [p|] eqn:Ep; [|discriminate H].
  case_in H; [discriminate H|]. to_prop. injection H as <- <- <-.
  set (rest1 := drop 32 rest) in *. rewrite Hrest in Ep.
  replace (zlen pre + walRecordHeaderSize) with (zlen (pre ++ h)) in Ep
    by (rewrite zlen_app; unfold zlen; rewrite Hh; unfold walRecordHeaderSize; lia).
  rewrite app_assoc in Ep. apply ReadFullAt_split in Ep as [Hp Hrest1].
  assert (zlen p = md_payloadLength md) as Hzp by (unfold zlen; lia).
  assert (encodeWALRecord lsn p = h ++ p) as Henc.
  { rewrite encodeWALRecord_layout, wal_payload_wrap by (unfold wal_payload_ok; lia).
    by rewrite Hhdr, Hzp, E1. }
  exists p, (drop (Z.to_nat (md_payloadLength md)) rest1).
  assert (zlen pre + (walRecordHeaderSize + md_payloadLength md) = zlen (pre ++ encodeWALRecord lsn p)) as Hz.
  { rewrite zlen_app, zlen_encodeWALRecord, Hzp. unfold walRecordHeaderSize. lia. }
  split; [unfold wal_payload_ok; lia|]. split.
  { by rewrite Henc, <- app_assoc, <- Hrest1. }
  by rewrite Hz.
Qed.

Lemma scan_step_stop_inv ctx file size offset lsn r r' :
  scan_step ctx file size offset lsn r = ScanStop r' ->
  r' = {| Records := Records r; LastLSN := LastLSN r; ValidBytes := ValidBytes r;
          TruncatedBytes := size - offset |}.
Proof.
  unfold scan_step. intros H. repeat (case_in H; simplify_eq/=; try done).
Qed.

Lemma encode_log_nil : encode_log [] = encodeWALFileHeader.
Proof. unfold encode_log. apply app_nil_r. Qed.

(** A file with the records [ps] scanned so far. *)
Lemma scan_loop_sound fuel ps rest r' :
  Forall wal_payload_ok ps ->
  zlen (encode_log ps ++ rest) <= int_max ->
  scan_loop fuel CtxLive (encode_log ps ++ rest) (zlen (encode_log ps ++ rest))
    (zlen (encode_log ps)) (zlen ps + 1) (rec_at (zlen ps) (zlen (encode_log ps)) 0) = Some (Ok r') ->
  exists qs tail, Forall wal_payload_ok qs /\ encode_log ps ++ rest = encode_log (ps ++ qs) ++ tail /\
    r' = rec_at (zlen (ps ++ qs)) (zlen (encode_log (ps ++ qs))) (zlen tail).
Proof.
  revert ps rest. induction fuel as [|fuel IH]; intros ps rest Hps Hmax H;
    (destruct (decide (zlen rest = 0)) as [Hr|Hr];
     [apply zlen_0_nil in Hr as ->; rewrite app_nil_r in *; rewrite scan_loop_end in H by lia;
      exists [], []; rewrite !app_nil_r; injection H as <-; by repeat split|]);
    pose proof (zlen_nonneg rest);
    assert (zlen (encode_log ps) < zlen (encode_log ps ++ rest)) as Hlt by (rewrite zlen_app; lia).
  { simpl in H. rewrite (proj2 (Z.leb_gt _ _) Hlt) in H. discriminate H. }
  rewrite scan_loop_S in H by done.
  destruct (scan_step _ _ _ _ _ _) as [r1|e|off' lsn' r1] eqn:Es; [|discriminate H|].
  - apply scan_step_stop_inv in Es as ->. injection H as <-. exists [], rest.
    rewrite app_nil_r. split; [constructor|]. split; [done|].
    unfold rec_at. f_equal. rewrite zlen_app. lia.
  - apply scan_step_next_inv in Es as (p & rest' & Hp & -> & -> & -> & ->).
    rewrite app_assoc, <- encode_log_snoc in H, Hmax.
    assert (zlen ps + 1 + 1 <= u64_max) as Hbound.
    { rewrite zlen_app in Hmax. unfold encode_log in Hmax. rewrite zlen_app in Hmax.
      pose proof (length_encode_records 1 (ps ++ [p])) as Hl. rewrite length_app in Hl. simpl in Hl.
      unfold int_max, u64_max, zlen in *. lia. }
    pose proof (zlen_nonneg ps).
    simpl Records in H. simpl TruncatedBytes in H. rewrite !wrap64_id in H by (unfold is_u64; lia).
    assert (zlen (ps ++ [p]) = zlen ps + 1) as Hzs by (by rewrite zlen_app).
    rewrite <- Hzs in H.
    apply IH in H as (qs & tail & Hqs & Heq & ->); [|by apply Forall_app; split; [|constructor]|done].
    exists (p :: qs), tail. rewrite <- !app_assoc in *. simpl in *.
    split; [by constructor|]. split; [|done].
    rewrite <- Heq, app_assoc, <- encode_log_snoc. done.
Qed.

Lemma header_fields_file (h : bytes) :
  length h = 32%nat ->
  h = (slice 0 8 h ++ slice 8 10 h ++ slice 10 12 h ++ slice 12 16 h ++ slice 16 24 h) ++
      slice 24 28 h ++ slice 28 32 h /\
  slice 0 24 h = slice 0 8 h ++ slice 8 10 h ++ slice 10 12 h ++ slice 12 16 h ++ slice 16 24 h.
Proof.
  intros H.
  assert (slice 0 24 h = slice 0 8 h ++ slice 8 10 h ++ slice 10 12 h ++ slice 12 16 h ++ slice 16 24 h) as H24.
  { rewrite (slice_split 0 8 24), (slice_split 8 10 24), (slice_split 10 12 24),
      (slice_split 12 16 24) by lia. done. }
  split; [|done]. rewrite <- H24, <- (slice_split 24 28 32), <- (slice_split 0 24 32) by lia.
  rewrite <- H. symmetry. apply slice_full.
Qed.

(** The file header has exactly one valid value. *)
Lemma validateWALFileHeader_inv h : validateWALFileHeader h = Ok tt -> h = encodeWALFileHeader.
Proof.
  unfold validateWALFileHeader. intros H. repeat (case_in H; [discriminate H|]). to_prop.
  assert (length h = 32%nat) as Hlen by (unfold zlen, walFileHeaderSize in *; lia).
  pose proof (header_fields_file h Hlen) as [Hh H24].
  set (pfx := walMagic ++ le_put 2 walFormatVersion ++ le_put 2 walFileHeaderSize ++
              le_put 4 MaxWALRecordSize ++ le_put 8 0).
  assert (slice 0 24 h = pfx) as Hp.
  { rewrite H24. unfold pfx. f_equal; [by apply bytes_eqb_eq|].
    f_equal; [by apply (slice_le_get 8 10); [lia|]|].
    f_equal; [by apply (slice_le_get 10 12); [lia|]|].
    f_equal; [by apply (slice_le_get 12 16); [lia|]|]. by apply (slice_le_get 16 24); [lia|]. }
  rewrite Hh, <- H24, Hp. rewrite Hp in *.
  rewrite (slice_le_get 24 28 h (CRC32C pfx)), (slice_le_get 28 32 h 0) by (lia || done).
  vm_compute. reflexivity.
Qed.

Lemma scanWAL_sound file r :
  zlen file <= int_max -> scanWAL CtxLive file = Some (Ok r) ->
  exists ps tail, Forall wal_payload_ok ps /\ file = encode_log ps ++ tail /\
    r = rec_at (zlen ps) (zlen (encode_log ps)) (zlen tail).
Proof.
  intros Hmax H. unfold scanWAL in H. case_in H; [discriminate H|].
  destruct (ReadFullAt [] file 32 0) as [h|] eqn:Eh; [|discriminate H].
  apply (ReadFullAt_split []) in Eh as [_ Hfile].
  destruct (validateWALFileHeader h) as [[]|] eqn:Ev; [|discriminate H].
  apply validateWALFileHeader_inv in Ev as ->.
  set (rest := drop 32 file) in *. clearbody rest. subst file.
  rewrite <- encode_log_nil in H, Hmax |- *.
  change walFileHeaderSize with 32 in H.
  replace 32 with (zlen (encode_log [])) in H by (rewrite encode_log_nil; reflexivity).
  apply (scan_loop_sound _ [] rest r) in H as (qs & tail & Hqs & Heq & ->); [|constructor|exact Hmax].
  simpl app in *. exists qs, tail. repeat split; assumption.
Qed.

Lemma scan_step_progress ctx file size offset lsn r offset' lsn' r' :
  scan_step ctx file size offset lsn r = ScanNext offset' lsn' r' -> offset < offset'.
Proof.
  unfold scan_step. intros H.
  repeat (case_in H; simplify_eq/=; try done).
  match goal with E : decodeWALRecordHeader _ _ = Ok _ |- _ =>
    apply decode_wal_header_inv in E as (_ & _ & ?) end.
  unfold walRecordHeaderSize. lia.
Qed.

Lemma scan_loop_total fuel ctx file size offset lsn r :
  size - offset <= Z.of_nat fuel -> is_Some (scan_loop fuel ctx file size offset lsn r).
Proof.
  revert offset lsn r. induction fuel as [|fuel IH]; intros offset lsn r H.
  { rewrite scan_loop_end by lia. done. }
  destruct (decide (size <= offset)); [rewrite scan_loop_end by lia; done|].
  rewrite scan_loop_S by lia. destruct (scan_step _ _ _ _ _ _) eqn:Es; [done..|].
  apply IH. apply scan_step_progress in Es. lia.
Qed.

Lemma scanWAL_total ctx file : is_Some (scanWAL ctx file).
Proof.
  unfold scanWAL. case_if; [done|]. destruct (ReadFullAt _ _ _ _); [|done].
  destruct (validateWALFileHeader a); [|done].
  apply scan_loop_total. unfold scan_fuel, walFileHeaderSize, zlen. lia.
Qed.

(** ** Damage *)
Lemma scan_step_bad_payload pre post lsn p p' r :
  is_u64 lsn -> wal_payload_ok p -> length p' = length p -> CRC32C p' <> CRC32C p ->
  let file := pre ++ wal_header lsn (zlen p) (CRC32C p) ++ p' ++ post in
  scan_step CtxLive file (zlen file) (zlen pre) lsn r = ScanFail (wal_corrupt "record payload checksum").
Proof.
  intros Hl Hp Hlen Hcrc file. subst file. unfold scan_step. simpl ctx_Err. cbv zeta.
  assert (zlen p' = zlen p) as Hz by (unfold zlen; lia).
  rewrite !zlen_app. change (zlen (wal_header lsn (zlen p) (CRC32C p))) with 32. rewrite Hz.
  pose proof (zlen_nonneg post). unfold walRecordHeaderSize. pose proof Hp as [? ?].
  destruct (_ <? 32) eqn:E1; [to_prop; lia|].
  rewrite ReadFullAt_field by done.
  rewrite decode_wal_header by (done || apply CRC32C_range).
  simpl md_payloadLength. simpl md_payloadCRC.
  destruct (_ <? 32 + zlen p) eqn:E2; [to_prop; lia|].
  rewrite app_assoc. rewrite ReadFullAt_field; [| |by rewrite zlen_to_nat].
  2:{ rewrite zlen_app. change (zlen (wal_header lsn (zlen p) (CRC32C p))) with 32. lia. }
  destruct (CRC32C p' =? CRC32C p) eqn:E3; [to_prop; done|done].
Qed.

(** ** Reading records back *)
Lemma readWALRecordAt_record pre lsn p post limit :
  is_u64 lsn -> wal_payload_ok p -> zlen (pre ++ encodeWALRecord lsn p) <= limit ->
  readWALRecordAt (pre ++ encodeWALRecord lsn p ++ post) (zlen pre) limit lsn =
  Ok ({| LSN := lsn; Payload := p |}, zlen (encodeWALRecord lsn p)).
Proof.
  intros Hl Hp Hlim. unfold readWALRecordAt. cbv zeta.
  rewrite zlen_app, zlen_encodeWALRecord in Hlim. pose proof Hp as [? ?].
  unfold walRecordHeaderSize.
  destruct (_ <? 32) eqn:E1; [to_prop; lia|].
  rewrite read_record_header by done.
  rewrite decode_wal_header; [|done|by rewrite wal_payload_wrap|apply CRC32C_range].
  simpl md_payloadLength. simpl md_payloadCRC. simpl md_lsn. rewrite wal_payload_wrap by done.
  destruct (_ <? 32 + zlen p) eqn:E2; [to_prop; lia|].
  rewrite zlen_to_nat, (read_record_payload pre post lsn p) by done.
  by rewrite Z.eqb_refl, zlen_encodeWALRecord.
Qed.

(** Replay as a specification: the callback over the records in order. *)
Fixpoint replay_spec {S} (apply : S -> WALRecord -> result S) (lsn : Z) (ps : list bytes) (s : S)
    : S * option gerror :=
  match ps with
  | [] => (s, None)
  | p :: ps =>
      match apply s {| LSN := lsn; Payload := p |} with
      | Fail e => (s, Some (errorf "db: replay WAL record" e))
      | Ok s => replay_spec apply (lsn + 1) ps s
      end
  end.

Lemma replay_loop_spec {S} (apply : S -> WALRecord -> result S) ps pre n junk fuel s :
  Forall wal_payload_ok ps -> 0 <= n -> n + zlen ps + 1 < u64_max -> (length ps < fuel)%nat ->
  replay_loop fuel CtxLive apply
    {| r_file := pre ++ encode_records (n + 1) ps ++ junk; r_offset := zlen pre;
       r_limit := zlen (pre ++ encode_records (n + 1) ps); r_nextLSN := n + 1; r_closed := false |} s =
  Some (replay_spec apply (n + 1) ps s).
Proof.
  intros Hps. revert pre n fuel s.
  induction Hps as [|p ps Hp Hps IH]; intros pre n fuel s Hn Hmax Hfuel;
    (destruct fuel as [|fuel]; [simpl in Hfuel; lia|]); cbn [replay_loop]; unfold WALReader_Next; simpl ctx_guard;
    cbn [r_closed r_offset r_limit r_file r_nextLSN encode_records replay_spec].
  { by rewrite app_nil_r, Z.eqb_refl. }
  pose proof (zlen_encode_record_pos (n + 1) p Hp). rewrite zlen_cons in Hmax.
  pose proof (zlen_nonneg ps). pose proof (zlen_nonneg (encode_records (n + 1 + 1) ps)).
  destruct (_ =? _) eqn:E; [to_prop; rewrite !zlen_app in E; lia|].
  rewrite <- (app_assoc (encodeWALRecord (n + 1) p)).
  rewrite readWALRecordAt_record; [|unfold is_u64; lia|done|rewrite !zlen_app; lia].
  destruct (apply s _) as [s'|e]; [|done].
  rewrite wrap64_id by (unfold is_u64; lia). rewrite <- zlen_app, !app_assoc.
  specialize (IH (pre ++ encodeWALRecord (n + 1) p) (n + 1) fuel s' ltac:(lia) ltac:(lia) ltac:(simpl in Hfuel; lia)).
  rewrite !app_assoc in IH. exact IH.
Qed.

(** ** Handles *)

(** The bytes after the last complete record: nothing, or what a failed write
    left of the next record (possibly all of it). *)
Definition wal_junk (n : Z) (junk : bytes) : Prop :=
  exists p, wal_payload_ok p /\ junk `prefix_of` encodeWALRecord (n + 1) p.

Record wal_inv (w : WAL) (ps : list bytes) : Prop := {
  wi_ok : Forall wal_payload_ok ps;
  wi_len : zlen ps + 1 < u64_max;
  wi_content : exists junk, f_content (w_file w) = encode_log ps ++ junk /\ wal_junk (zlen ps) junk /\
    (w_poisoned w = None -> w_readOnly w = false -> junk = []);
  wi_size : w_size w = zlen (encode_log ps);
  wi_lsn : w_lastLSN w = zlen ps;
  wi_dirty : 0 <= w_dirtyRecords w <= zlen ps
}.

(** All but the last [w_dirtyRecords] records are on stable storage. *)
Definition wal_durable (w : WAL) (ps : list bytes) : Prop :=
  zlen (encode_log (take (length ps - Z.to_nat (w_dirtyRecords w)) ps)) <= Z.of_nat (f_stable (w_file w)).

Lemma some_payload : wal_payload_ok [x00].
Proof. unfold wal_payload_ok. vm_compute. split; [done|discriminate]. Qed.

Lemma wal_junk_nil n : wal_junk n [].
Proof. exists [x00]. split; [apply some_payload|apply prefix_nil]. Qed.
#[export] Hint Resolve wal_junk_nil : xvec.

Lemma WAL_Replay_spec {S} (apply : S -> WALRecord -> result S) w ps s :
  wal_inv w ps -> w_closed w = false -> w_poisoned w = None ->
  WAL_Replay CtxLive apply w s = Some (replay_spec apply 1 ps s).
Proof.
  intros [Hok Hlen (junk & Hc & _ & _) Hsize Hlsn _] Hcl Hpo.
  unfold WAL_Replay, NewReader. rewrite Hcl, Hpo, Hc, Hsize. unfold encode_log.
  rewrite <- app_assoc, read_file_header, validate_encodeWALFileHeader.
  cbn [r_file].
  apply (replay_loop_spec apply ps encodeWALFileHeader 0 junk); [done|lia|lia|].
  rewrite !length_app, length_encodeWALFileHeader.
  pose proof (length_encode_records 1 ps). lia.
Qed.

Lemma wal_inv_set_file_same w ps f :
  f_content f = f_content (w_file w) -> wal_inv w ps -> wal_inv (wal_set_file w f) ps.
Proof. intros Hf [? ? ? ? ? ?]. constructor; try done. simpl. by rewrite Hf. Qed.

Lemma wal_inv_poison w ps e : wal_inv w ps -> wal_inv (wal_set_poisoned w e) ps.
Proof.
  intros [? ? (junk & ? & ? & ?) ? ? ?]. constructor; try done. exists junk.
  split; [done|]. split; [done|]. simpl. done.
Qed.

Lemma wal_inv_clean w ps : wal_inv w ps -> wal_inv (wal_set_dirty w 0) ps.
Proof.
  intros [? ? (junk & ? & ? & ?) ? ? ?]. constructor; try done; [by exists junk|].
  simpl. pose proof (zlen_nonneg ps). lia.
Qed.

(** [file.Sync] keeps the content and, when it succeeds, makes it stable. *)
Lemma wal_syncFile_spec io w w' e :
  wal_syncFile io w = (w', e) ->
  exists f, w' = wal_set_file w f /\ f_content f = f_content (w_file w) /\
    (e = None -> f_stable f = length (f_content (w_file w))) /\ (e <> None -> f = w_file w).
Proof.
  unfold wal_syncFile, file_Sync. destruct (io_sync io) as [err|]; intros [= <- <-];
    eexists; (split; [reflexivity|]); simpl; repeat split; done.
Qed.

Lemma wal_set_file_id w : wal_set_file w (w_file w) = w.
Proof. by destruct w. Qed.

(** A complete write of the next record. *)
Lemma wal_inv_appended w ps p content f :
  wal_inv w ps -> w_poisoned w = None -> w_readOnly w = false -> wal_payload_ok p ->
  zlen ps + 2 < u64_max ->
  content = f_content (w_file w) ++ encodeWALRecord (w_lastLSN w + 1) p ->
  f_content f = content ->
  wal_inv (wal_appended (wal_set_file w f) (zlen (encodeWALRecord (w_lastLSN w + 1) p)) (w_lastLSN w + 1)) (ps ++ [p]).
Proof.
  intros [Hok Hlen (junk & Hc & _ & Hj) Hsize Hlsn Hd] Hpo Hro Hp Hmax -> Hf.
  rewrite (Hj Hpo Hro), app_nil_r in Hc.
  assert (zlen (ps ++ [p]) = zlen ps + 1) as Hz by (by rewrite zlen_app).
  constructor; simpl; rewrite ?Hz, ?Hlsn, ?Hsize; try lia.
  - apply Forall_app; split; [done|by constructor].
  - exists []. rewrite app_nil_r, Hf, Hc, Hlsn. split; [by rewrite encode_log_snoc|].
    split; [|done]. apply wal_junk_nil.
  - by rewrite encode_log_snoc, zlen_app.
  - rewrite wrap64_id by (unfold is_u64; lia). lia.
Qed.

(** [Append] either leaves the log's records alone and reports an error, or
    appends exactly the payload under the next number. *)
Lemma WAL_Append_spec ctx io p w ps w' lsn err :
  wal_inv w ps -> zlen ps + 2 < u64_max ->
  WAL_Append ctx io p w = (w', (lsn, err)) ->
  w_readOnly w' = w_readOnly w /\ w_closed w' = w_closed w /\ w_SyncEvery w' = w_SyncEvery w /\
  ((lsn = 0 /\ err <> None /\ wal_inv w' ps /\
      (w' = w \/ (w_poisoned w = None /\ w_poisoned w' <> None /\ w_dirtyRecords w' = w_dirtyRecords w /\
                  f_stable (w_file w') = f_stable (w_file w) /\ wal_payload_ok p /\
                  exists junk, f_content (w_file w') = encode_log ps ++ junk /\
                    junk `prefix_of` encodeWALRecord (zlen ps + 1) p))) \/
   (lsn = zlen ps + 1 /\ wal_payload_ok p /\ w_poisoned w = None /\ w_readOnly w = false /\
      w_closed w = false /\ wal_inv w' (ps ++ [p]) /\ (w_poisoned w' = None <-> err = None) /\
      f_content (w_file w') = encode_log (ps ++ [p]) /\
      (if (0 <? w_SyncEvery w) && (w_SyncEvery w <=? w_dirtyRecords w + 1)
       then (err = None -> w_dirtyRecords w' = 0 /\ f_stable (w_file w') = length (f_content (w_file w')))
            /\ (err <> None -> w_dirtyRecords w' = w_dirtyRecords w + 1 /\ f_stable (w_file w') = f_stable (w_file w))
       else err = None /\ w_dirtyRecords w' = w_dirtyRecords w + 1 /\ f_stable (w_file w') = f_stable (w_file w)))).
Proof.
  intros Hinv Hmax H. unfold WAL_Append in H.
  destruct (ctx_guard _ ctx) as [e|]; [simplify_eq; naive_solver|].
  case_in H; [simplify_eq; naive_solver|]. case_in H; [simplify_eq; naive_solver|].
  destruct (w_closed w) eqn:Hcl; [simplify_eq; naive_solver|].
  destruct (w_readOnly w) eqn:Hro; [simplify_eq; naive_solver|].
  destruct (w_poisoned w) as [e|] eqn:Hpo; [simplify_eq; naive_solver|].
  case_in H; [simplify_eq; naive_solver|]. to_prop. cbv zeta in H.
  assert (wal_payload_ok p) as Hp by (unfold wal_payload_ok; pose proof (zlen_nonneg p); lia).
  pose proof Hinv as [Hok Hlen (junk & Hc & _ & Hj) Hsize Hlsn Hd].
  assert (encodeWALRecord (w_lastLSN w + 1) p <> []) as Hne.
  { intros He. pose proof (length_encodeWALRecord (w_lastLSN w + 1) p) as Hl. rewrite He in Hl. simpl in Hl. lia. }
  rewrite (Hj Hpo Hro), app_nil_r in Hc.
  assert (0 <= w_size w) as Hsz by (rewrite Hsize; apply zlen_nonneg).
  assert (Z.to_nat (w_size w) = length (f_content (w_file w))) as Hend by (rewrite Hsize, Hc; apply zlen_to_nat).
  destruct (WriteFullAt _ _ _ _) as [content [e|]] eqn:Ew.
  - injection H as <- <- <-. cbn. split; [done|]. split; [done|]. split; [done|]. left.
    assert (exists junk, content = encode_log ps ++ junk /\ junk `prefix_of` encodeWALRecord (zlen ps + 1) p)
      as (junk' & Hjc & Hjp).
    { apply WriteFullAt_spec in Ew as (k & [[Hk ->]|[[-> _] _]]); [| |done|done].
      - rewrite Hend, write_at_end, Hc, Hlsn. eexists. split; [done|]. exists (drop k (encodeWALRecord (zlen ps + 1) p)).
        by rewrite take_drop.
      - exists []. rewrite app_nil_r. split; [done|]. apply prefix_nil. }
    split; [done|]. split; [done|]. split; [|right; do 5 (split; [done|]); eauto].
    constructor; cbn; try done. exists junk'. split; [done|]. split; [|done]. by exists p.
  - apply WriteFullAt_ok in Ew; [|done|done]. rewrite Hend, write_at_end in Ew.
    set (f1 := {| f_content := content; f_stable := _ |}) in H.
    pose proof (wal_inv_appended w ps p content f1 Hinv Hpo Hro Hp Hmax Ew eq_refl) as Hinv1.
    set (w1 := wal_appended _ _ _) in *.
    assert (w_dirtyRecords w1 = w_dirtyRecords w + 1) as Hd1.
    { cbn. apply wrap64_id. unfold is_u64. pose proof (zlen_nonneg ps). lia. }
    assert (f_content (w_file w1) = encode_log (ps ++ [p])) as Hc1 by (cbn; by rewrite Ew, Hc, encode_log_snoc, Hlsn).
    rewrite Hd1 in H. change (w_SyncEvery w1) with (w_SyncEvery w) in H.
    destruct ((0 <? w_SyncEvery w) && (w_SyncEvery w <=? w_dirtyRecords w + 1)) eqn:Esync.
    + destruct (wal_syncFile io w1) as [w2 [e|]] eqn:Es; injection H as <- <- <-;
        apply wal_syncFile_spec in Es as (f & -> & Hf & Hst & Hsame); cbn;
        (split; [done|]); (split; [done|]); (split; [done|]); right; rewrite <- Hlsn;
        (split; [done|]); (split; [done|]); (split; [done|]); (split; [done|]); (split; [done|]).
      * split; [by apply wal_inv_poison, wal_inv_set_file_same|]. split; [done|]. split; [by rewrite Hf|].
        split; [done|]. intros _. rewrite Hsame by done. done.
      * split; [by apply wal_inv_clean, wal_inv_set_file_same|]. split; [by rewrite Hpo|]. split; [by rewrite Hf|].
        split; [|done]. intros _. rewrite Hst, Hf by done. done.
    + injection H as <- <- <-. cbn.
      (split; [done|]); (split; [done|]); (split; [done|]); right; rewrite <- Hlsn;
        (split; [done|]); (split; [done|]); (split; [done|]); (split; [done|]); (split; [done|]).
      split; [done|]. split; [by rewrite Hpo|]. split; [exact Hc1|]. done.
Qed.

(** [Append] keeps the durability bound, and a sync policy of [n] leaves fewer
    than [n] records unsynced. *)
Lemma WAL_Append_durable ctx io p w ps w' lsn err :
  wal_inv w ps -> wal_durable w ps -> zlen ps + 2 < u64_max ->
  WAL_Append ctx io p w = (w', (lsn, err)) ->
  (lsn = 0 -> wal_durable w' ps) /\ (lsn <> 0 -> wal_durable w' (ps ++ [p])).
Proof.
  intros Hinv Hdur Hmax H. pose proof (WAL_Append_spec _ _ _ _ _ _ _ _ Hinv Hmax H) as (_ & _ & _ & Hcase).
  pose proof Hinv as [_ _ _ _ _ Hd]. pose proof (zlen_nonneg ps).
  destruct Hcase as [(-> & _ & _ & [->|(_ & _ & Hd' & Hs' & _)])|(-> & _ & Hpo & Hro & _ & Hinv' & _ & _ & Hcase)].
  - done.
  - split; [|done]. intros _. unfold wal_durable. by rewrite Hd', Hs'.
  - split; [lia|]. intros _. unfold wal_durable in *.
    assert (w_dirtyRecords w' = w_dirtyRecords w + 1 /\ f_stable (w_file w') = f_stable (w_file w) \/
            (w_dirtyRecords w' = 0 /\ f_stable (w_file w') = length (f_content (w_file w')))) as [[Hd' Hs']|[Hd' Hs']].
    { case_match; [destruct (decide (err = None)); naive_solver|naive_solver]. }
    + rewrite Hd', Hs'. rewrite length_app. simpl length.
      replace (length ps + 1 - Z.to_nat (w_dirtyRecords w + 1))%nat
        with (length ps - Z.to_nat (w_dirtyRecords w))%nat by lia.
      rewrite take_app_le by lia. exact Hdur.
    + rewrite Hd', Hs', firstn_all2 by lia.
      pose proof Hinv' as [_ _ (junk & -> & _) _ _ _]. rewrite length_app. unfold zlen. lia.
Qed.

Lemma length_encode_take_mono lsn ps i j :
  (i <= j)%nat ->
  (length (encode_records lsn (take i ps)) <= length (encode_records lsn (take j ps)))%nat.
Proof.
  intros H. replace j with (i + (j - i))%nat by lia.
  rewrite <- take_take_drop, encode_records_app, length_app. lia.
Qed.

Lemma length_encode_take_S lsn ps i p :
  ps !! i = Some p ->
  length (encode_records lsn (take (S i) ps)) =
  (length (encode_records lsn (take i ps)) + 32 + length p)%nat.
Proof.
  intros H. rewrite (take_S_r _ _ _ H), encode_records_app, length_app.
  cbn [encode_records]. rewrite app_nil_r, length_encodeWALRecord. lia.
Qed.

(** A cut of a log lies inside exactly one record. *)
Lemma take_encode_records m ps lsn :
  (m <= length (encode_records lsn ps))%nat ->
  exists i k p, (i <= length ps)%nat /\ (k < length (encodeWALRecord (lsn + Z.of_nat i) p))%nat /\
    (ps !! i = Some p \/ i = length ps /\ p = [x00]) /\
    take m (encode_records lsn ps) =
      encode_records lsn (take i ps) ++ take k (encodeWALRecord (lsn + Z.of_nat i) p) /\
    m = (length (encode_records lsn (take i ps)) + k)%nat.
Proof.
  revert m lsn. induction ps as [|p ps IH]; intros m lsn Hm; cbn [encode_records] in *.
  { simpl in Hm. assert (m = 0%nat) as -> by lia. exists 0%nat, 0%nat, [x00].
    rewrite length_encodeWALRecord. simpl length. cbn [take encode_records app].
    split; [lia|]. split; [lia|]. split; [by right|]. done. }
  destruct (decide (m < length (encodeWALRecord lsn p))%nat) as [Hlt|Hge].
  - exists 0%nat, m, p. rewrite Z.add_0_r, take_0. cbn [encode_records app length].
    rewrite take_app_le by lia. split; [lia|]. split; [lia|]. split; [by left|]. split; [done|lia].
  - rewrite length_app in Hm.
    destruct (IH (m - length (encodeWALRecord lsn p))%nat (lsn + 1) ltac:(lia))
      as (i & k & q & Hi & Hk & Hq & Ht & Hmm).
    exists (S i), k, q. rewrite firstn_cons. cbn [encode_records].
    replace (lsn + Z.of_nat (S i)) with (lsn + 1 + Z.of_nat i) by lia.
    rewrite take_app_ge by lia. rewrite Ht, <- app_assoc, length_app.
    split; [simpl; lia|]. split; [done|]. split; [|split; [done|lia]].
    destruct Hq as [Hq|[-> ->]]; [by left|by right].
Qed.

(** Recovery of any cut of a log at or after its file header: the longest run
    of complete records survives, the rest is reported as a torn tail. *)
Lemma scanWAL_cut ps m :
  Forall wal_payload_ok ps -> zlen ps + 1 < u64_max ->
  (32 <= m <= length (encode_log ps))%nat ->
  exists i, (i <= length ps)%nat /\
    scanWAL CtxLive (take m (encode_log ps)) =
      Some (Ok (rec_at (Z.of_nat i) (zlen (encode_log (take i ps)))
                  (Z.of_nat m - zlen (encode_log (take i ps))))) /\
    encode_log (take i ps) `prefix_of` take m (encode_log ps) /\
    (forall j, (j <= length ps)%nat -> (length (encode_log (take j ps)) <= m)%nat -> (j <= i)%nat).
Proof.
  intros Hps Hmax Hm. unfold encode_log in Hm |- *. rewrite length_app, length_encodeWALFileHeader in Hm.
  rewrite take_app_ge by (rewrite length_encodeWALFileHeader; lia).
  rewrite length_encodeWALFileHeader.
  destruct (take_encode_records (m - 32) ps 1 ltac:(lia)) as (i & k & p & Hi & Hk & Hp & Ht & Hmk).
  assert (wal_payload_ok p) as Hpok.
  { destruct Hp as [Hp|[_ ->]]; [by eapply Forall_lookup_1|apply some_payload]. }
  exists i. split; [done|]. rewrite Ht, app_assoc. fold (encode_log (take i ps)).
  assert (zlen (take i ps) = Z.of_nat i) as Hz by (unfold zlen; rewrite length_take; lia).
  assert (1 + Z.of_nat i = zlen (take i ps) + 1) as Hlsn by lia.
  rewrite Hlsn in *. split; [|split].
  - rewrite scanWAL_torn; [|by apply Forall_take|done|unfold zlen in *; lia|done].
    rewrite Hz. unfold rec_at. do 3 f_equal. unfold encode_log. rewrite zlen_app.
    change (zlen encodeWALFileHeader) with 32. unfold zlen. lia.
  - by eexists.
  - intros j Hj Hlen. destruct (decide (j <= i)%nat); [done|]. exfalso.
    rewrite length_app, length_encodeWALFileHeader in Hlen.
    destruct Hp as [Hp|[-> _]]; [|lia].
    pose proof (length_encode_take_mono 1 ps (S i) j ltac:(lia)) as Hmono.
    rewrite (length_encode_take_S 1 ps i p Hp) in Hmono.
    rewrite length_encodeWALRecord in Hk. lia.
Qed.

Lemma openWAL_repaired slot qs tail se :
  f_content slot = encode_log qs ++ tail -> Forall wal_payload_ok qs -> zlen qs + 1 < u64_max ->
  scanWAL CtxLive (f_content slot) = Some (Ok (rec_at (zlen qs) (zlen (encode_log qs)) (zlen tail))) ->
  exists w, OpenWAL CtxLive (Some slot) io_fine se = Some (Ok w) /\ wal_inv w qs /\
    w_recovery w = rec_at (zlen qs) (zlen (encode_log qs)) (zlen tail) /\
    f_content (w_file w) = encode_log qs /\ w_poisoned w = None /\ w_closed w = false /\
    w_readOnly w = false /\ w_SyncEvery w = se /\ w_dirtyRecords w = 0 /\
    (f_stable slot = length (f_content slot) -> f_stable (w_file w) = length (encode_log qs)).
Proof.
  intros Hc Hok Hlen Hscan. unfold OpenWAL, openWAL. cbn [ctx_guard].
  rewrite Hscan. unfold rec_at at 1 2. cbn [TruncatedBytes ValidBytes LastLSN negb].
  rewrite andb_true_r. pose proof (zlen_nonneg tail). pose proof (zlen_nonneg qs).
  assert (take (length (encode_log qs)) (f_content slot ++ replicate (length (encode_log qs) - length (f_content slot)) x00)
          = encode_log qs) as Htake.
  { rewrite Hc, <- app_assoc. by rewrite take_app_length. }
  destruct (0 <? zlen tail) eqn:E; to_prop.
  - unfold file_Truncate, file_Sync, io_fine. cbn [io_truncate io_sync f_content].
    rewrite zlen_to_nat, Htake.
    eexists. split; [reflexivity|]. cbn. split; [|done].
    constructor; cbn; try done; try lia. exists []. rewrite app_nil_r. auto with xvec.
  - assert (tail = []) as -> by (apply zlen_0_nil; lia). rewrite app_nil_r in Hc.
    eexists. split; [reflexivity|]. cbn. split; [|by rewrite Hc].
    constructor; cbn; try done; try lia. exists []. rewrite app_nil_r. auto with xvec.
Qed.

(** ** Properties *)

(** The crash of a log whose content is the records [ps] and a part of the
    record of [p]: what opening finds, in terms of [p]. *)
Lemma wal_crash_core w ps p junk m st se :
  wal_inv w ps -> wal_durable w ps -> zlen ps + 2 < u64_max ->
  f_content (w_file w) = encode_log ps ++ junk -> wal_payload_ok p -> junk `prefix_of` encodeWALRecord (zlen ps + 1) p ->
  (f_stable (w_file w) <= m <= length (f_content (w_file w)))%nat ->
  exists w' qs,
    OpenWAL CtxLive (Some {| f_content := take m (f_content (w_file w)); f_stable := st |})
      io_fine se = Some (Ok w') /\
    wal_inv w' qs /\ w_poisoned w' = None /\ w_closed w' = false /\ w_readOnly w' = false /\ w_SyncEvery w' = se /\
    w_dirtyRecords w' = 0 /\ (st = m -> f_stable (w_file w') = length (encode_log qs)) /\
    f_content (w_file w') = encode_log qs /\
    take (length ps - Z.to_nat (w_dirtyRecords w)) ps `prefix_of` qs /\
    (qs `prefix_of` ps \/ qs = ps ++ [p] /\ junk <> []).
Proof.
  intros Hinv Hdur Hmax Hc Hp (rest & Hrest) Hcut. destruct Hinv as [Hok Hlen _ Hsize Hlsn Hd].
  assert (f_content (w_file w) = take (length (f_content (w_file w))) (encode_log (ps ++ [p]))) as Hfull.
  { rewrite encode_log_snoc, Hrest, app_assoc, <- Hc. by rewrite take_app_length. }
  rewrite Hfull, take_take, Nat.min_l by lia.
  assert (Forall wal_payload_ok (ps ++ [p])) as Hok' by (apply Forall_app; split; [done|by constructor]).
  assert (zlen (ps ++ [p]) = zlen ps + 1) as Hz by (by rewrite zlen_app).
  assert (length (f_content (w_file w)) <= length (encode_log (ps ++ [p])))%nat as Hlenf.
  { rewrite Hfull, length_take. lia. }
  set (d := (length ps - Z.to_nat (w_dirtyRecords w))%nat) in *.
  unfold wal_durable in Hdur. fold d in Hdur. unfold zlen in Hdur.
  assert (32 <= length (encode_log (take d ps)))%nat as H32.
  { unfold encode_log. rewrite length_app, length_encodeWALFileHeader. lia. }
  destruct (scanWAL_cut (ps ++ [p]) m Hok' ltac:(lia) ltac:(lia)) as (i & Hi & Hscan & (tail & Htail) & Hmaxi).
  set (qs := take i (ps ++ [p])) in *.
  assert (zlen qs = Z.of_nat i) as Hqs by (unfold qs, zlen; rewrite length_take; lia).
  assert (Z.of_nat m - zlen (encode_log qs) = zlen tail) as Ht.
  { apply (f_equal length) in Htail. rewrite length_take, length_app in Htail. unfold zlen. lia. }
  rewrite <- Hqs, Ht in Hscan. rewrite length_app in Hi. simpl in Hi.
  destruct (openWAL_repaired {| f_content := take m (encode_log (ps ++ [p])); f_stable := st |}
              qs tail se) as (w' & Hopen & Hinv' & _ & Hcont & Hpois & Hcl & Hro & Hse & Hdr & Hst);
    [done|by apply Forall_take|unfold zlen in *; lia|done|..].
  exists w', qs. do 7 (split; [done|]).
  split; [intros ->; apply Hst; cbn; rewrite length_take; lia|]. split; [done|].
  assert (d <= length ps)%nat as Hdl by lia.
  assert (d <= i)%nat as Hdi.
  { apply Hmaxi; [rewrite length_app; simpl; lia|]. rewrite (take_app_le ps) by lia. lia. }
  split.
  - unfold qs. destruct (decide (i <= length ps)%nat).
    + rewrite take_app_le by lia. exists (drop d (take i ps)).
      rewrite <- (take_drop d (take i ps)) at 1. rewrite take_take, Nat.min_l by lia. done.
    + rewrite (take_ge (ps ++ [p])) by (rewrite (length_app ps); simpl; lia).
      exists (drop d ps ++ [p]). by rewrite app_assoc, take_drop.
  - unfold qs. destruct (decide (i <= length ps)%nat).
    + left. rewrite take_app_le by lia. exists (drop i ps). by rewrite take_drop.
    + right. split; [apply take_ge; rewrite (length_app ps); simpl; lia|]. intros ->. rewrite app_nil_r in Hc.
      apply (f_equal length) in Htail. rewrite length_take, length_app in Htail.
      assert (qs = ps ++ [p]) as Hq by (apply take_ge; rewrite (length_app ps); simpl; lia).
      rewrite Hc in Hcut. rewrite Hq, encode_log_snoc, length_app, length_encodeWALRecord in Htail. lia.
Qed.

(** [Append] acknowledges exactly what it logs.  A zero sequence number
    means that the log's records are unchanged and the call failed; any other is
    the next number, with the payload added as the last record even when the
    call reports a failed sync - in which case, and only then, the handle is
    poisoned. With a sync policy of one, success means the record is stable. *)
Theorem wal_append_acknowledged (ctx : context) (io : wal_io) (p : bytes) (w w' : WAL) (ps : list bytes)
  (lsn : Z) (err : option gerror)
  (Hinv : wal_inv w ps) (Hmax : zlen ps + 2 < u64_max)
  (H : WAL_Append ctx io p w = (w', (lsn, err))) :
  (lsn = 0 -> err <> None /\ wal_inv w' ps) /\
  (lsn <> 0 -> lsn = zlen ps + 1 /\ wal_inv w' (ps ++ [p]) /\ (err = None <-> w_poisoned w' = None) /\
     (w_SyncEvery w = 1 -> err = None ->
        zlen (encode_log (ps ++ [p])) <= Z.of_nat (f_stable (w_file w')))).
Proof.
  pose proof (WAL_Append_spec _ _ _ _ _ _ _ _ Hinv Hmax H) as (_ & _ & _ & Hcase).
  pose proof Hinv as [_ _ _ _ _ Hd]. pose proof (zlen_nonneg ps).
  destruct Hcase as [(-> & He & Hi & _)|(-> & _ & _ & _ & _ & Hi & Hpo & _ & Hs)]; [naive_solver|].
  split; [lia|]. intros _. split; [done|]. split; [done|]. split; [by rewrite Hpo|].
  intros Hse He. rewrite Hse in Hs.
  destruct (1 <=? w_dirtyRecords w + 1) eqn:E; [|to_prop; lia]. simpl in Hs.
  destruct (proj1 Hs He) as [_ ->]. pose proof Hi as [_ _ (junk & -> & _) _ _ _].
  rewrite length_app. unfold zlen. lia.
Qed.

(** Replay hands the appended payloads to the callback in sequence order,
    with sequence numbers counting from one, stops at the first error, and
    ends: the loop's fuel, one more than the length of the file, always
    suffices. *)
Theorem wal_replay_in_order {S} (apply : S -> WALRecord -> result S) (w : WAL) (ps : list bytes) (s : S)
  (Hinv : wal_inv w ps) (Hopen : w_closed w = false) (Hpois : w_poisoned w = None) :
  WAL_Replay CtxLive apply w s = Some (replay_spec apply 1 ps s).
Proof. by apply WAL_Replay_spec. Qed.

(** C38: the scan always ends.  A file it accepts is a header, well-formed
    records numbered from one, and a tail, and the recovery it reports is that
    decomposition; conversely every log cut anywhere inside its next record is
    accepted, with all complete records and exactly the cut tail reported. *)
Theorem wal_scan_exact (file : bytes) (Hsize : zlen file <= int_max) :
  is_Some (scanWAL CtxLive file) /\
  (forall r, scanWAL CtxLive file = Some (Ok r) ->
     exists ps tail, Forall wal_payload_ok ps /\ file = encode_log ps ++ tail /\
       r = rec_at (zlen ps) (zlen (encode_log ps)) (zlen tail)) /\
  (forall ps p k, Forall wal_payload_ok ps -> wal_payload_ok p ->
     (k < length (encodeWALRecord (zlen ps + 1) p))%nat ->
     file = encode_log ps ++ take k (encodeWALRecord (zlen ps + 1) p) ->
     scanWAL CtxLive file = Some (Ok (rec_at (zlen ps) (zlen (encode_log ps)) (Z.of_nat k)))).
Proof.
  split; [apply scanWAL_total|]. split.
  - intros r H. by apply scanWAL_sound.
  - intros ps p k Hps Hp Hk ->. apply scanWAL_torn; try done.
    unfold encode_log in Hsize. rewrite !zlen_app in Hsize.
    pose proof (length_encode_records 1 ps). pose proof (zlen_nonneg (take k (encodeWALRecord (zlen ps + 1) p))).
    change (zlen encodeWALFileHeader) with 32 in Hsize. unfold zlen, int_max, u64_max in *. lia.
Qed.

(** C39: a record of a log in which a window of up to four bytes of the payload
    was overwritten by other bytes makes the scan fail with [ErrWALCorrupt];
    it is never silently replayed and never mistaken for a torn tail. *)
Theorem wal_corruption_detected (ps : list bytes) (a x y b post : bytes)
  (Hps : Forall wal_payload_ok ps) (Hmax : zlen ps + 1 < u64_max)
  (Hp : wal_payload_ok (a ++ x ++ b)) (Hlen : length y = length x) (H4 : (length x <= 4)%nat)
  (Hne : x <> y) :
  exists e,
    scanWAL CtxLive (encode_log ps ++ wal_header (zlen ps + 1) (zlen (a ++ x ++ b)) (CRC32C (a ++ x ++ b)) ++
                     (a ++ y ++ b) ++ post) = Some (Fail e) /\
    errors_Is e ErrWALCorrupt = true.
Proof.
  set (p := a ++ x ++ b) in *. set (p' := a ++ y ++ b).
  exists (wal_corrupt "record payload checksum"). split; [|reflexivity].
  assert (CRC32C p' <> CRC32C p) as Hcrc.
  { intros Heq. apply Hne. symmetry. by apply (CRC32C_burst a y x b); [|lia|]. }
  assert (length p' = length p) as Hpl by (unfold p, p'; rewrite !length_app; lia).
  set (tail := wal_header _ _ _ ++ p' ++ post).
  unfold scanWAL, encode_log. rewrite <- app_assoc.
  rewrite read_file_header, validate_encodeWALFileHeader.
  rewrite (zlen_app encodeWALFileHeader). change (zlen encodeWALFileHeader) with 32.
  pose proof (zlen_nonneg (encode_records 1 ps ++ tail)).
  destruct (_ <? walFileHeaderSize) eqn:E; [to_prop; unfold walFileHeaderSize in *; lia|].
  change 32 with (zlen encodeWALFileHeader). rewrite <- zlen_app.
  set (fuel := scan_fuel _).
  assert (length ps < fuel)%nat as Hfuel.
  { unfold fuel, scan_fuel. rewrite !length_app, length_encodeWALFileHeader.
    pose proof (length_encode_records 1 ps). lia. }
  etrans.
  { exact (scan_loop_records ps encodeWALFileHeader 0 tail fuel Hps ltac:(lia) ltac:(lia) ltac:(lia)). }
  clearbody fuel. change (0 + 1) with 1. rewrite !Z.add_0_l.
  destruct (fuel - length ps)%nat as [|fuel'] eqn:Ef; [lia|].
  rewrite app_assoc. rewrite scan_loop_S.
  - unfold tail. rewrite scan_step_bad_payload; try done. unfold is_u64. pose proof (zlen_nonneg ps). lia.
  - rewrite (zlen_app _ tail). unfold tail. rewrite !zlen_app.
    change (zlen (wal_header (zlen ps + 1) (zlen p) (CRC32C p))) with 32.
    pose proof (zlen_nonneg p'). pose proof (zlen_nonneg post). lia.
Qed.

(** ** Creation, synchronisation and closing keep the invariant *)
Lemma CreateWAL_inv ctx ex io se w :
  CreateWAL ctx ex io se = Ok w ->
  wal_inv w [] /\ wal_durable w [] /\ w_poisoned w = None /\ w_closed w = false /\
  w_readOnly w = false /\ w_SyncEvery w = se /\ w_dirtyRecords w = 0 /\ ex = false.
Proof.
  unfold CreateWAL. intros H. destruct (ctx_guard _ ctx); [discriminate H|].
  destruct ex; [discriminate H|].
  destruct (WriteFullAt _ _ _ _) as [content [e|]] eqn:Ew; [discriminate H|].
  apply WriteFullAt_ok in Ew; [|lia|by intros He; apply (f_equal length) in He; rewrite length_encodeWALFileHeader in He].
  change (Z.to_nat 0) with (length (@nil byte)) in Ew. rewrite write_at_end in Ew. simpl in Ew. subst content.
  unfold file_Sync in H. destruct (io_sync io); [discriminate H|]. injection H as <-.
  split; [constructor; cbn; try done; try lia|].
  exists []. unfold encode_log. cbn [encode_records]. rewrite !app_nil_r. auto with xvec.
  - split; [|done]. vm_compute. discriminate.
Qed.

Lemma WAL_Sync_spec ctx io w ps w' err :
  wal_inv w ps -> WAL_Sync ctx io w = (w', err) ->
  wal_inv w' ps /\ w_readOnly w' = w_readOnly w /\ w_closed w' = w_closed w /\
  (err = None -> w_dirtyRecords w' = 0 /\ w_poisoned w' = None /\ w_poisoned w = None /\
                 w_closed w = false /\ w_readOnly w = false /\
                 f_stable (w_file w') = length (f_content (w_file w')) /\
                 f_content (w_file w') = f_content (w_file w)).
Proof.
  intros Hinv H. unfold WAL_Sync in H.
  destruct (ctx_guard _ ctx); [injection H as <- <-; done|].
  destruct (w_closed w) eqn:Hcl; [injection H as <- <-; done|].
  destruct (w_readOnly w) eqn:Hro; [injection H as <- <-; done|].
  destruct (w_poisoned w) eqn:Hpo; [injection H as <- <-; done|].
  destruct (wal_syncFile io w) as [w1 [e|]] eqn:Es; injection H as <- <-;
    apply wal_syncFile_spec in Es as (f & -> & Hf & Hst & _).
  - split; [by apply wal_inv_poison, wal_inv_set_file_same|]. by cbn.
  - split; [by apply wal_inv_clean, wal_inv_set_file_same|]. cbn.
    rewrite Hst, Hf by done. naive_solver.
Qed.

Lemma HasRecords_spec w ps : wal_inv w ps -> HasRecords w = true <-> ps <> [].
Proof.
  intros [_ _ _ _ Hlsn _]. unfold HasRecords. rewrite Hlsn.
  destruct (zlen ps =? 0) eqn:E; to_prop; simpl.
  - apply zlen_0_nil in E as ->. done.
  - split; [|done]. intros _ ->. done.
Qed.

(** ** Witnesses *)
Definition demo_payloads : list bytes := [[x01]; [x02; x03]].

(** A handle with two records, the second not yet synced. *)
Definition demo_wal : WAL :=
  {| w_file := {| f_content := encode_log demo_payloads; f_stable := 65 |};
     w_SyncEvery := 1; w_recovery := rec_at 0 32 0;
     w_size := zlen (encode_log demo_payloads); w_lastLSN := 2; w_dirtyRecords := 1;
     w_poisoned := None; w_readOnly := false; w_closed := false |}.

Lemma demo_payloads_ok : Forall wal_payload_ok demo_payloads.
Proof. repeat constructor; vm_compute; congruence. Qed.

Lemma demo_wal_inv : wal_inv demo_wal demo_payloads.
Proof.
  constructor; cbn; [apply demo_payloads_ok|done| |done|done|done].
  exists []. rewrite app_nil_r. auto with xvec.
Qed.

Lemma demo_wal_durable : wal_durable demo_wal demo_payloads.
Proof. vm_compute. discriminate. Qed.

Lemma wal_append_acknowledged_witness :
  snd (snd (WAL_Append CtxLive io_fine [x04] demo_wal)) = None /\
  zlen (encode_log (demo_payloads ++ [[x04]])) <=
    Z.of_nat (f_stable (w_file (fst (WAL_Append CtxLive io_fine [x04] demo_wal)))).
Proof.
  split; [vm_compute; reflexivity|].
  destruct (wal_append_acknowledged CtxLive io_fine [x04] demo_wal
              (fst (WAL_Append CtxLive io_fine [x04] demo_wal)) demo_payloads
              (fst (snd (WAL_Append CtxLive io_fine [x04] demo_wal)))
              (snd (snd (WAL_Append CtxLive io_fine [x04] demo_wal))) demo_wal_inv
              ltac:(vm_compute; reflexivity)
              ltac:(destruct (WAL_Append CtxLive io_fine [x04] demo_wal) as [? [? ?]]; reflexivity)) as [_ H].
  apply H; vm_compute; congruence.
Defined.

Lemma wal_replay_in_order_witness :
  WAL_Replay CtxLive (fun s r => Ok (s ++ [(LSN r, Payload r)])) demo_wal [] =
  Some ([(1, [x01]); (2, [x02; x03])], None).
Proof.
  rewrite (wal_replay_in_order (fun s r => Ok (s ++ [(LSN r, Payload r)])) demo_wal demo_payloads []
             demo_wal_inv eq_refl eq_refl).
  reflexivity.
Defined.

Lemma wal_scan_exact_witness :
  is_Some (scanWAL CtxLive (encode_log demo_payloads)).
Proof.
  exact (proj1 (wal_scan_exact (encode_log demo_payloads) ltac:(vm_compute; discriminate))).
Defined.

Lemma wal_corruption_detected_witness :
  exists e,
    scanWAL CtxLive (encode_log demo_payloads ++
      wal_header 3 (zlen [x01; x02; x03]) (CRC32C [x01; x02; x03]) ++ [x01; x07; x03] ++ []) = Some (Fail e) /\
    errors_Is e ErrWALCorrupt = true.
Proof.
  exact (wal_corruption_detected demo_payloads [x01] [x02] [x07] [x03] [] demo_payloads_ok
           ltac:(vm_compute; reflexivity) ltac:(vm_compute; split; congruence) eq_refl
           ltac:(apply Nat.leb_le; reflexivity) ltac:(discriminate)).
Defined.

(** ** The state of a log under failing appends *)

(** The records of the log, all but the last [w_dirtyRecords] stable, and the
    payload of the append that failed in the middle of its write, if one did:
    the handle is then poisoned, and a part of that record, possibly all of it,
    follows the others in the file. *)
Record log_state (w : WAL) (ps : list bytes) (lost : option bytes) : Prop := {
  ls_inv : wal_inv w ps;
  ls_durable : wal_durable w ps;
  ls_content : match lost with
    | None => f_content (w_file w) = encode_log ps
    | Some p => w_poisoned w <> None /\ wal_payload_ok p /\ exists junk,
        f_content (w_file w) = encode_log ps ++ junk /\ junk `prefix_of` encodeWALRecord (zlen ps + 1) p
    end
}.

Lemma log_state_append ctx io p w ps lost w' lsn err :
  log_state w ps lost -> zlen ps + 2 < u64_max ->
  WAL_Append ctx io p w = (w', (lsn, err)) ->
  w_SyncEvery w' = w_SyncEvery w /\
  ((lsn = 0 /\ err <> None /\
      (w' = w \/ (lost = None /\ w_poisoned w = None /\ w_poisoned w' <> None /\ w_dirtyRecords w' = w_dirtyRecords w /\ log_state w' ps (Some p)))) \/
   (lsn = zlen ps + 1 /\ lost = None /\ w_poisoned w = None /\ log_state w' (ps ++ [p]) None /\ (w_poisoned w' = None <-> err = None) /\
      (w_dirtyRecords w' <= w_dirtyRecords w + 1) /\
      (w_SyncEvery w = 1 -> err = None -> w_dirtyRecords w' = 0))).
Proof.
  intros [Hinv Hdur Hl] Hmax H. pose proof (WAL_Append_durable _ _ _ _ _ _ _ _ Hinv Hdur Hmax H) as [Hd0 Hd1].
  pose proof (WAL_Append_spec _ _ _ _ _ _ _ _ Hinv Hmax H) as (_ & _ & Hse & Hcase). split; [done|].
  pose proof (zlen_nonneg ps). pose proof (wi_dirty w ps Hinv) as Hdw.
  destruct Hcase as [(-> & He & Hi & Hw)|(-> & Hp & Hpo & _ & _ & Hi & Hpe & Hc & Hs)].
  - left. split; [done|]. split; [done|]. destruct Hw as [->|(Hpo & Hpo' & Hd & _ & Hp & Hj)]; [by left|right].
    assert (lost = None) as -> by (destruct lost; [by destruct Hl|done]).
    do 4 (split; [done|]). constructor; [done|by apply Hd0|done].
  - right. split; [done|].
    assert (lost = None) as -> by (destruct lost; [by destruct Hl|done]).
    split; [done|]. split; [done|]. split; [constructor; [done|apply Hd1; lia|done]|]. split; [done|].
    destruct ((0 <? w_SyncEvery w) && (w_SyncEvery w <=? w_dirtyRecords w + 1)) eqn:E.
    + destruct Hs as [Hs1 Hs2]. split; [|naive_solver].
      destruct err; [rewrite (proj1 (Hs2 ltac:(done))); lia|rewrite (proj1 (Hs1 eq_refl)); lia].
    + destruct Hs as (_ & Hd & _). split; [lia|]. intros H1 _. rewrite H1 in E. cbn in E. to_prop. lia.
Qed.

(** What a crash leaves of such a log: [st] bytes of the cut file are stable. *)
Lemma log_state_crash w ps lost m st se :
  log_state w ps lost -> zlen ps + 2 < u64_max ->
  (f_stable (w_file w) <= m <= length (f_content (w_file w)))%nat ->
  exists w' qs,
    OpenWAL CtxLive (Some {| f_content := take m (f_content (w_file w)); f_stable := st |}) io_fine se = Some (Ok w') /\
    wal_inv w' qs /\ w_poisoned w' = None /\ w_closed w' = false /\ w_readOnly w' = false /\ w_SyncEvery w' = se /\
    w_dirtyRecords w' = 0 /\ (st = m -> log_state w' qs None) /\
    take (length ps - Z.to_nat (w_dirtyRecords w)) ps `prefix_of` qs /\
    (qs `prefix_of` ps \/ exists p, lost = Some p /\ qs = ps ++ [p]).
Proof.
  intros [Hinv Hdur Hl] Hmax Hm.
  assert (exists p junk, f_content (w_file w) = encode_log ps ++ junk /\ wal_payload_ok p /\
    junk `prefix_of` encodeWALRecord (zlen ps + 1) p /\ (junk <> [] -> lost = Some p)) as (p & junk & Hc & Hp & Hj & Hlost).
  { destruct lost as [p|].
    - destruct Hl as (_ & Hp & junk & Hc & Hj). by exists p, junk.
    - exists [x00], []. rewrite app_nil_r. split; [done|]. split; [apply some_payload|]. split; [apply prefix_nil|done]. }
  destruct (wal_crash_core w ps p junk m st se Hinv Hdur Hmax Hc Hp Hj Hm)
    as (w' & qs & H1 & H2 & H3 & H4 & H5 & H6 & H7 & H8 & H9 & H10 & H11).
  exists w', qs. do 7 (split; [done|]). split; [|split; [done|]].
  - intros Hst. constructor; [done| |done]. unfold wal_durable. rewrite H7, Nat.sub_0_r, firstn_all, (H8 Hst). unfold zlen. lia.
  - destruct H11 as [H11|[H11 Hne]]; [by left|right; exists p; auto].
Qed.

Lemma WriteFullAt_whole content src off : 0 <= off -> exists c, WriteFullAt [] content src off = (c, None).
Proof.
  intros Hoff. unfold WriteFullAt. destruct (off <? 0) eqn:E; to_prop; [lia|].
  destruct src; cbn; eauto.
Qed.

(** A fault-free append on a healthy handle succeeds. *)
Lemma WAL_Append_fine p w ps :
  wal_inv w ps -> zlen ps + 2 < u64_max -> wal_payload_ok p ->
  w_poisoned w = None -> w_closed w = false -> w_readOnly w = false ->
  exists w', WAL_Append CtxLive io_fine p w = (w', (zlen ps + 1, None)).
Proof.
  intros Hinv Hmax [Hp1 Hp2] Hpo Hcl Hro. unfold WAL_Append. cbn [ctx_guard].
  destruct (zlen p =? 0) eqn:E1; to_prop; [lia|]. destruct (MaxWALRecordSize <? zlen p) eqn:E2; to_prop; [lia|].
  rewrite Hcl, Hro, Hpo. pose proof (wi_lsn w ps Hinv) as ->.
  destruct (zlen ps =? u64_max) eqn:E3; to_prop; [lia|]. cbv zeta.
  destruct (WriteFullAt _ _ _ _) as [content [e|]] eqn:Ew.
  - exfalso. destruct (WriteFullAt_whole (f_content (w_file w)) (encodeWALRecord (zlen ps + 1) p) (w_size w)) as [c Hc].
    { pose proof (wi_size w ps Hinv) as ->. pose proof (zlen_nonneg (encode_log ps)). lia. }
    cbn [io_writes io_fine] in Ew. congruence.
  - case_if; [|eauto]. cbn [wal_syncFile file_Sync io_sync io_fine]. unfold wal_syncFile, file_Sync. cbn [io_sync io_fine]. eauto.
Qed.

(** [Sync] and [Close] keep the log, and a successful [Sync] makes it durable. *)
Lemma log_state_sync ctx io w ps lost w' err :
  log_state w ps lost -> WAL_Sync ctx io w = (w', err) ->
  log_state w' ps lost /\ w_SyncEvery w' = w_SyncEvery w /\
  (err = None -> lost = None /\ w_poisoned w' = None /\ w_dirtyRecords w' = 0 /\ w_closed w' = false /\ w_readOnly w' = false).
Proof.
  intros [Hinv Hdur Hl] H. pose proof (WAL_Sync_spec _ _ _ _ _ _ Hinv H) as (Hi & Hr & Hc & Hok). unfold WAL_Sync in H.
  destruct (ctx_guard _ ctx); [injection H as <- <-; done|].
  destruct (w_closed w) eqn:Hcl; [injection H as <- <-; done|].
  destruct (w_readOnly w) eqn:Hro; [injection H as <- <-; done|].
  destruct (w_poisoned w) eqn:Hpo; [injection H as <- <-; split; [split; [done|done|by rewrite Hpo]|done]|].
  destruct lost as [p|]; [by destruct Hl|].
  destruct (wal_syncFile io w) as [w1 [e|]] eqn:Es; injection H as <- <-;
    apply wal_syncFile_spec in Es as (f & -> & Hf & Hst & Hsame).
  - split; [|done]. rewrite (Hsame ltac:(done)) in Hi |- *. by split.
  - split; [|cbn; rewrite Hpo; done]. split; [done| |cbn; by rewrite Hf].
    unfold wal_durable. cbn. rewrite Nat.sub_0_r, firstn_all, Hst, <- Hl by done. unfold zlen. lia.
Qed.

Lemma WAL_Close_file io w w' err : WAL_Close io w = (w', err) ->
  f_content (w_file w') = f_content (w_file w) /\
  (f_stable (w_file w') = f_stable (w_file w) \/ f_stable (w_file w') = length (f_content (w_file w))).
Proof.
  unfold WAL_Close. destruct (w_closed w); [intros [= <- _]; by split; [|left]|].
  destruct (_ && _).
  - destruct (wal_syncFile io _) as [w1 [e|]] eqn:Es; apply wal_syncFile_spec in Es as (f & -> & Hf & Hst & Hs);
      intros [= <- _]; cbn in *; (split; [done|]); [left; by rewrite Hs|right; by apply Hst].
  - intros [= <- _]. by split; [|left].
Qed.

(** ** Histories of a log *)

(** Calls on an open log, and what they answer: [Sync] has no sequence number. *)
Inductive log_call :=
| LogAppend (ctx : context) (io : wal_io) (payload : bytes)
| LogSync (ctx : context) (io : wal_io).
Notation log_answer := (log_call * (Z * option gerror))%type.
Definition run_log_call (call : log_call) (w : WAL) : WAL * (Z * option gerror) :=
  match call with
  | LogAppend ctx io p => WAL_Append ctx io p w
  | LogSync ctx io => let '(w, err) := WAL_Sync ctx io w in (w, (0, err))
  end.
Fixpoint run_log (calls : list log_call) (w : WAL) : WAL * list log_answer :=
  match calls with
  | [] => (w, [])
  | call :: calls =>
      let '(w, answer) := run_log_call call w in
      let '(w, answers) := run_log calls w in (w, (call, answer) :: answers)
  end.

(** The payloads that were given a sequence number. *)
Definition logged_payload (r : log_answer) : option bytes :=
  match r with (LogAppend _ _ p, (lsn, _)) => if lsn =? 0 then None else Some p | (LogSync _ _, _) => None end.
Definition logged (answers : list log_answer) : list bytes := omap logged_payload answers.
(** The answers that promise that what was logged is on stable storage: of a
    [Sync], and of an [Append] to a log that synchronizes every record. *)
Definition promises (syncEvery : Z) (r : log_answer) : bool :=
  match r with (LogAppend _ _ _, (_, None)) => syncEvery =? 1 | (LogSync _ _, (_, None)) => true | _ => false end.

(** A log that was just created or opened: its records are stable. *)
Definition fresh_log (w : WAL) (syncEvery : Z) (ps : list bytes) : Prop :=
  log_state w ps None /\ w_poisoned w = None /\ w_closed w = false /\ w_readOnly w = false /\
  w_SyncEvery w = syncEvery /\ w_dirtyRecords w = 0.

(** What holds after the calls that gave [done]. *)
Record log_run (se : Z) (ps : list bytes) (done : list log_answer) (w : WAL) (lost : option bytes) : Prop := {
  lr_state : log_state w (ps ++ logged done) lost;
  lr_every : w_SyncEvery w = se;
  lr_lost : forall p, lost = Some p -> exists ctx io e, (LogAppend ctx io p, (0, Some e)) ∈ done;
  lr_stable : forall i r, done !! i = Some r -> promises se r = true ->
    zlen (ps ++ logged (take (S i) done)) <= zlen (ps ++ logged done) - w_dirtyRecords w;
  lr_dirty : 0 < se -> w_poisoned w = None -> w_dirtyRecords w < se
}.

Lemma WAL_Sync_dirty ctx io w w' err :
  WAL_Sync ctx io w = (w', err) -> (w_dirtyRecords w' = w_dirtyRecords w \/ w_dirtyRecords w' = 0) /\
  (w_poisoned w' = None -> w_poisoned w = None).
Proof.
  unfold WAL_Sync. destruct (ctx_guard _ ctx); [intros [= <- <-]; by auto|].
  destruct (w_closed w); [intros [= <- <-]; by auto|]. destruct (w_readOnly w); [intros [= <- <-]; by auto|].
  destruct (w_poisoned w) eqn:Hp; [intros [= <- <-]; rewrite Hp; by auto|].
  unfold wal_syncFile. destruct (file_Sync _ _) as [f [e|]]; intros [= <- <-]; cbn; auto.
Qed.

(** An append that is logged keeps the number of unstable records below the policy. *)
Lemma WAL_Append_below ctx io p w ps w' lsn err :
  wal_inv w ps -> zlen ps + 2 < u64_max -> WAL_Append ctx io p w = (w', (lsn, err)) -> lsn <> 0 ->
  0 < w_SyncEvery w -> w_poisoned w' = None -> w_dirtyRecords w' < w_SyncEvery w.
Proof.
  intros Hinv Hmax H Hl Hse Hp. pose proof (WAL_Append_spec _ _ _ _ _ _ _ _ Hinv Hmax H) as (_ & _ & _ & [(-> & _)|Hcase]); [done|].
  destruct Hcase as (_ & _ & _ & _ & _ & _ & Hpe & _ & Hs).
  destruct ((0 <? w_SyncEvery w) && (w_SyncEvery w <=? w_dirtyRecords w + 1)) eqn:E.
  - destruct Hs as [Hs _]. destruct (Hs (proj1 Hpe Hp)) as [-> _]. lia.
  - destruct Hs as (_ & -> & _). apply andb_false_iff in E as [E|E]; to_prop; lia.
Qed.

Lemma zlen_logged ps done : zlen (ps ++ logged done) <= zlen ps + zlen done.
Proof.
  rewrite zlen_app. unfold zlen, logged. induction done as [|r done IH]; cbn; [lia|]. destruct (logged_payload r); cbn; lia.
Qed.
Lemma logged_snoc done r : logged (done ++ [r]) = logged done ++ option_list (logged_payload r).
Proof. unfold logged. rewrite omap_app. cbn. by destruct (logged_payload r). Qed.

(** The promises after one more answer: the new one, if it is a promise, finds
    no record unstable. *)
Lemma promises_snoc se ps done r d d' :
  (forall i r, done !! i = Some r -> promises se r = true -> zlen (ps ++ logged (take (S i) done)) <= zlen (ps ++ logged done) - d) ->
  zlen (ps ++ logged done) - d <= zlen (ps ++ logged (done ++ [r])) - d' -> (promises se r = true -> d' = 0) ->
  forall i r', (done ++ [r]) !! i = Some r' -> promises se r' = true ->
    zlen (ps ++ logged (take (S i) (done ++ [r]))) <= zlen (ps ++ logged (done ++ [r])) - d'.
Proof.
  intros Hdone Hd Hr i r' Hi Hp. apply lookup_snoc_Some in Hi as [[Hl Hi]|[-> <-]].
  - rewrite take_app_le by lia. specialize (Hdone i r' Hi Hp). lia.
  - rewrite (take_ge (done ++ [r])) by (rewrite length_app; cbn; lia). rewrite (Hr Hp). lia.
Qed.

Lemma log_run_call se ps done w lost call w' answer :
  log_run se ps done w lost -> zlen ps + zlen done + 2 < u64_max -> run_log_call call w = (w', answer) ->
  exists lost', log_run se ps (done ++ [(call, answer)]) w' lost'.
Proof.
  intros [Hs He Hl Hst Hd] Hmax H. pose proof (zlen_logged ps done) as Hz.
  assert (Hlost : forall p, lost = Some p -> exists ctx io e, (LogAppend ctx io p, (0, Some e)) ∈ done ++ [(call, answer)]).
  { intros p Hp. destruct (Hl p Hp) as (c & i & e & Hin). exists c, i, e. apply elem_of_app. by left. }
  destruct call as [ctx io p|ctx io]; cbn [run_log_call] in H.
  - destruct answer as [lsn err].
    destruct (log_state_append ctx io p w _ lost w' lsn err Hs ltac:(lia) H) as (He' & [(-> & Herr & Hw)|(Hlsn & -> & _ & Hs' & Hp' & Hd' & H1)]).
    + destruct err as [e|]; [|done].
      assert (Hlg : logged (done ++ [(LogAppend ctx io p, (0, Some e))]) = logged done) by by rewrite logged_snoc, app_nil_r.
      destruct Hw as [->|(-> & _ & Hpo & Hdd & Hs')].
      * exists lost. split; [by rewrite Hlg|done|done| |done]. eapply promises_snoc; [exact Hst|rewrite Hlg; lia|done].
      * exists (Some p). split; [by rewrite Hlg|congruence| | |by intros].
        -- intros ? [= <-]. exists ctx, io, e. apply elem_of_app. right. by left.
        -- eapply promises_snoc; [exact Hst|rewrite Hlg; lia|done].
    + pose proof (zlen_nonneg (ps ++ logged done)) as Hn.
      assert (Hlg : logged (done ++ [(LogAppend ctx io p, (lsn, err))]) = logged done ++ [p]).
      { rewrite logged_snoc. cbn. destruct (lsn =? 0) eqn:E; [to_prop; lia|done]. }
      exists None. split; [by rewrite Hlg, app_assoc|congruence|done| |].
      * eapply promises_snoc; [exact Hst|rewrite Hlg, app_assoc, (zlen_app _ [p]); change (zlen [p]) with 1; lia|].
        cbn. destruct err; [done|]. intros Hse. to_prop. apply H1; [congruence|done].
      * intros Hse Hpo. rewrite <- He. eapply (WAL_Append_below ctx io p w); [apply Hs|lia|exact H|lia|lia|done].
  - destruct (WAL_Sync ctx io w) as [w1 err] eqn:Es. injection H as <- <-.
    assert (Hlg : logged (done ++ [(LogSync ctx io, (0, err))]) = logged done) by by rewrite logged_snoc, app_nil_r.
    destruct (log_state_sync _ _ _ _ _ _ _ Hs Es) as (Hs' & He' & Hok). destruct (WAL_Sync_dirty _ _ _ _ _ Es) as [Hdd Hpp].
    pose proof (wi_dirty _ _ (ls_inv _ _ _ Hs)) as Hnn. exists lost. split; [by rewrite Hlg|congruence|done| |].
    + eapply promises_snoc; [exact Hst|rewrite Hlg; destruct Hdd as [-> | ->]; lia|]. cbn. destruct err; [done|]. intros _. by apply Hok.
    + intros Hse Hpo. specialize (Hd Hse (Hpp Hpo)). destruct Hdd as [-> | ->]; lia.
Qed.

Lemma run_log_inv se ps done calls w lost w' answers :
  log_run se ps done w lost -> zlen ps + zlen done + zlen calls + 2 < u64_max -> run_log calls w = (w', answers) ->
  exists lost', log_run se ps (done ++ answers) w' lost'.
Proof.
  revert done w lost answers. induction calls as [|call calls IH]; intros done w lost answers Hr Hmax H; cbn [run_log] in H.
  { injection H as <- <-. exists lost. by rewrite app_nil_r. }
  destruct (run_log_call call w) as [w1 answer] eqn:Ec. destruct (run_log calls w1) as [w2 rest] eqn:Er. injection H as <- <-.
  rewrite (zlen_cons call) in Hmax. pose proof (zlen_nonneg calls) as Hn.
  destruct (log_run_call se ps done w lost call w1 answer Hr ltac:(lia) Ec) as [lost1 Hr1].
  destruct (IH _ _ _ _ Hr1 ltac:(rewrite zlen_app; change (zlen [_]) with 1; lia) Er) as [lost2 Hr2]. exists lost2.
  by rewrite <- app_assoc in Hr2.
Qed.

(** A log that opens is the one that opens when its repair meets no failure. *)
Lemma OpenWAL_succeeds ctx slot io se w : OpenWAL ctx slot io se = Some (Ok w) -> OpenWAL ctx slot io_fine se = Some (Ok w).
Proof.
  unfold OpenWAL, openWAL. destruct (ctx_guard _ ctx); [done|]. destruct slot as [file|]; [|done].
  destruct (scanWAL _ _) as [[recovery|e]|]; [|done..]. destruct (_ && _); [|done]. cbn [io_fine io_truncate io_sync].
  unfold file_Truncate, file_Sync. destruct (io_truncate io); [done|]. by destruct (io_sync io).
Qed.

Lemma CreateWAL_fresh ctx ex io se w : CreateWAL ctx ex io se = Ok w -> fresh_log w se [].
Proof.
  intros (Hi & Hd & Hp & Hc & Hr & Hse & Hdirty & _)%CreateWAL_inv. split; [|done]. split; [done|done|].
  destruct (wi_content _ _ Hi) as (junk & Hf & _ & Hj). by rewrite Hf, Hj, app_nil_r.
Qed.

(** C28: crash safety of the log.  On a log that was just created, or opened
    after a crash, make any calls of [Append] and [Sync], under any contexts and
    outcomes of the I/O, and crash: the file is cut anywhere beyond its stable
    part, in the middle of a record as well.  Opening it succeeds and gives a
    fresh log again.  Its records are a prefix of those that were there and
    those that were given a sequence number, or all of these and the payload of
    an [Append] that had reported an error.  Everything logged up to a
    successful [Sync], or up to a successful [Append] under the policy that
    synchronizes every record, is there; and under a policy of [n] fewer than
    [n] records are lost as long as the log was not poisoned. *)
Theorem wal_crash_recovery :
  (forall ctx exists_ io syncEvery w, CreateWAL ctx exists_ io syncEvery = Ok w -> fresh_log w syncEvery []) /\
  forall se w0 ps0 calls w answers (m : nat) se',
    fresh_log w0 se ps0 -> zlen ps0 + zlen calls + 2 < u64_max -> run_log calls w0 = (w, answers) ->
    (f_stable (w_file w) <= m <= length (f_content (w_file w)))%nat ->
    exists w' qs,
      OpenWAL CtxLive (Some {| f_content := take m (f_content (w_file w)); f_stable := m |}) io_fine se' = Some (Ok w') /\
      fresh_log w' se' qs /\
      (qs `prefix_of` ps0 ++ logged answers \/
       exists ctx io p e, (LogAppend ctx io p, (0, Some e)) ∈ answers /\ qs = ps0 ++ logged answers ++ [p]) /\
      (forall i r, answers !! i = Some r -> promises se r = true -> ps0 ++ logged (take (S i) answers) `prefix_of` qs) /\
      (0 < se -> w_poisoned w = None -> zlen (ps0 ++ logged answers) < zlen qs + se).
Proof.
  split; [exact CreateWAL_fresh|].
  intros se w0 ps0 calls w answers m se' (Hs0 & Hp0 & _ & _ & He0 & Hd0) Hmax Hrun Hm.
  assert (log_run se ps0 [] w0 None) as Hr0.
  { split; [by rewrite app_nil_r|done|done|intros i r Hi; by rewrite lookup_nil in Hi|]. intros. lia. }
  destruct (run_log_inv se ps0 [] calls w0 None w answers Hr0 ltac:(change (zlen (@nil (log_call * (Z * option gerror)))) with 0; lia) Hrun) as [lost [Hs He Hl Hst Hd]]. cbn [app] in *.
  assert (length answers = length calls) as Hlen.
  { clear -Hrun. revert w0 answers Hrun. induction calls as [|call calls IH]; intros w0 answers H; cbn [run_log] in H; [by injection H as _ <-|].
    destruct (run_log_call call w0) as [w1 a]. destruct (run_log calls w1) as [w2 rest] eqn:Er. injection H as -> <-. cbn. f_equal. by eapply IH. }
  pose proof (zlen_logged ps0 answers) as Hz.
  destruct (log_state_crash w _ lost m m se' Hs ltac:(unfold zlen in *; lia) Hm) as (w' & qs & Ho & Hi & G1 & G2 & G3 & G4 & G5 & G6 & Hpre & Hqs).
  exists w', qs. split; [done|]. split; [by split; [apply G6|]|]. set (ps := ps0 ++ logged answers) in *.
  pose proof (wi_dirty _ _ (ls_inv _ _ _ Hs)) as Hnn. pose proof (prefix_length _ _ Hpre) as Hpl. rewrite length_take in Hpl.
  split; [|split].
  - destruct Hqs as [Hqs|(p & -> & ->)]; [by left|right]. destruct (Hl p eq_refl) as (ctx & io & e & Hin). exists ctx, io, p, e.
    split; [done|]. unfold ps. by rewrite app_assoc.
  - intros i r Hir Hpr. specialize (Hst i r Hir Hpr). etrans; [|exact Hpre].
    assert (ps0 ++ logged (take (S i) answers) `prefix_of` ps) as [rest Hrest].
    { apply prefix_app. rewrite <- (take_drop (S i) answers) at 2. unfold logged. rewrite omap_app. by eexists. }
    set (P := ps0 ++ logged (take (S i) answers)) in *.
    set (n := (length ps - Z.to_nat (w_dirtyRecords w))%nat). assert (length P <= n)%nat as Hn by (unfold n, zlen in *; lia).
    clearbody n. rewrite Hrest. exists (take (n - length P) rest). by rewrite take_app_ge.
  - intros Hse Hpo. specialize (Hd Hse Hpo). unfold zlen in *. lia.
Qed.

(** Three appends, the last of them cut by a failing write, and a crash. *)
Definition ex_log_calls : list log_call :=
  [LogAppend CtxLive io_fine [x01]; LogAppend CtxLive io_fine [x02; x03];
   LogAppend CtxLive {| io_writes := [(5%nat, Some io_ErrShortWrite)]; io_sync := None; io_truncate := None |} [x04]].
Lemma wal_crash_recovery_witness :
  match CreateWAL CtxLive false io_fine 1 with
  | Ok w0 =>
      let '(w, answers) := run_log ex_log_calls w0 in
      (snd <$> answers).*1 = [1; 2; 0] /\ length (f_content (w_file w)) = (f_stable (w_file w) + 5)%nat /\
      exists w' qs, OpenWAL CtxLive (Some {| f_content := take (f_stable (w_file w) + 3) (f_content (w_file w)); f_stable := f_stable (w_file w) + 3 |}) io_fine 1
        = Some (Ok w') /\ fresh_log w' 1 qs /\ [[x01]; [x02; x03]] `prefix_of` qs
  | Fail _ => False
  end.
Proof.
  destruct (CreateWAL CtxLive false io_fine 1) as [w0|] eqn:E0; [|discriminate E0].
  assert (match CreateWAL CtxLive false io_fine 1 with Ok w0 => let '(w, answers) := run_log ex_log_calls w0 in
    bool_decide ((snd <$> answers).*1 = [1; 2; 0]) && (length (f_content (w_file w)) =? f_stable (w_file w) + 5)%nat &&
    match answers with [_; (LogAppend _ _ _, (_, None)) as r; _] => bool_decide (logged (take 2 answers) = [[x01]; [x02; x03]]) && promises 1 r | _ => false end
    | _ => false end = true) as Hok by (vm_compute; reflexivity).
  rewrite E0 in Hok. destruct (run_log ex_log_calls w0) as [w answers] eqn:Er.
  apply andb_true_iff in Hok as [Hok H3]. apply andb_true_iff in Hok as [H1%bool_decide_eq_true H2%Nat.eqb_eq].
  split; [exact H1|]. split; [exact H2|].
  destruct wal_crash_recovery as [Hcreate Hcrash].
  destruct (Hcrash 1 w0 [] ex_log_calls w answers (f_stable (w_file w) + 3)%nat 1 (Hcreate _ _ _ _ _ E0)) as (w' & qs & Ho & Hf & _ & Hpr & _);
    [vm_compute; reflexivity|exact Er|lia|].
  exists w', qs. split; [exact Ho|]. split; [exact Hf|].
  destruct answers as [|r1 [|r2 rest]]; [discriminate H3|discriminate H3|].
  assert (bool_decide (logged (take 2 (r1 :: r2 :: rest)) = [[x01]; [x02; x03]]) && promises 1 r2 = true) as H4.
  { destruct r2 as [[] [? []]], rest as [|? []]; try discriminate H3; exact H3. }
  apply andb_true_iff in H4 as [H4%bool_decide_eq_true H5]. specialize (Hpr 1%nat r2 eq_refl H5). by rewrite H4 in Hpr.
Defined.
