(* ===== verification/Utf8.v ===== *)
(** * UTF-8

    The parts of [unicode/utf8] that the storage and query layers use:
    [ValidString], decoding to runes and [WriteRune].  Decoding follows the
    accept ranges of the Go package: no overlong forms, no surrogates, nothing
    above U+10FFFF. *)
From S2P Require Import Prelude Bytes.

Definition in_range (lo hi : Z) (b : byte) : bool := (lo <=? Z_of_byte b) && (Z_of_byte b <=? hi).
Definition cont (b : byte) : bool := in_range 128 191 b.
(** Payload bits of a continuation byte. *)
Definition low6 (b : byte) : Z := Z.land (Z_of_byte b) 63.

(** The accept range of the second byte after a lead byte of a three- or
    four-byte sequence. *)
Definition accept3 (b0 b1 : byte) : bool :=
  if Z_of_byte b0 =? 224 then in_range 160 191 b1
  else if Z_of_byte b0 =? 237 then in_range 128 159 b1
  else cont b1.
Definition accept4 (b0 b1 : byte) : bool :=
  if Z_of_byte b0 =? 240 then in_range 144 191 b1
  else if Z_of_byte b0 =? 244 then in_range 128 143 b1
  else cont b1.

(** First rune of a string and the rest; [None] at an invalid sequence. *)
Definition decode_rune (s : bytes) : option (Z * bytes) :=
  match s with
  | [] => None
  | b0 :: s1 =>
      if Z_of_byte b0 <? 128 then Some (Z_of_byte b0, s1)
      else if in_range 194 223 b0 then
        match s1 with
        | b1 :: s2 =>
            if cont b1 then Some (Z.land (Z_of_byte b0) 31 * 64 + low6 b1, s2) else None
        | _ => None
        end
      else if in_range 224 239 b0 then
        match s1 with
        | b1 :: b2 :: s3 =>
            if accept3 b0 b1 && cont b2
            then Some (Z.land (Z_of_byte b0) 15 * 4096 + low6 b1 * 64 + low6 b2, s3) else None
        | _ => None
        end
      else if in_range 240 244 b0 then
        match s1 with
        | b1 :: b2 :: b3 :: s4 =>
            if accept4 b0 b1 && cont b2 && cont b3
            then Some (Z.land (Z_of_byte b0) 7 * 262144 + low6 b1 * 4096 + low6 b2 * 64 + low6 b3, s4)
            else None
        | _ => None
        end
      else None
  end.

Fixpoint decode_runes (fuel : nat) (s : bytes) : option (list Z) :=
  match s, fuel with
  | [], _ => Some []
  | _, O => None
  | _, S fuel =>
      match decode_rune s with
      | None => None
      | Some (r, s) => match decode_runes fuel s with Some rs => Some (r :: rs) | None => None end
      end
  end.

(** [[]rune(s)] of a valid string. *)
Definition runes_of (s : bytes) : option (list Z) := decode_runes (length s) s.

(** [utf8.ValidString] *)
Definition ValidString (s : bytes) : bool :=
  match runes_of s with Some _ => true | None => false end.

(** [strings.Builder.WriteRune] of a valid rune. *)
Definition encode_rune (r : Z) : bytes :=
  if r <? 128 then [byte_of_Z r]
  else if r <? 2048 then [byte_of_Z (192 + r / 64); byte_of_Z (128 + r mod 64)]
  else if r <? 65536 then
    [byte_of_Z (224 + r / 4096); byte_of_Z (128 + r / 64 mod 64); byte_of_Z (128 + r mod 64)]
  else [byte_of_Z (240 + r / 262144); byte_of_Z (128 + r / 4096 mod 64);
        byte_of_Z (128 + r / 64 mod 64); byte_of_Z (128 + r mod 64)].

Definition valid_rune (r : Z) : Prop := 0 <= r < 55296 \/ 57344 <= r <= 1114111.

(** ** Decoding inverts encoding *)
Lemma Z_of_byte_small z : 0 <= z < 256 -> Z_of_byte (byte_of_Z z) = z.
Proof. intros. rewrite Z_of_byte_of_Z. by apply Z.mod_small. Qed.

Lemma cont_byte x : 0 <= x < 64 -> cont (byte_of_Z (128 + x)) = true /\ low6 (byte_of_Z (128 + x)) = x.
Proof.
  intros H. unfold cont, in_range, low6. rewrite Z_of_byte_small by lia. split; [lia|].
  change 63 with (Z.ones 6). rewrite Z.land_ones by lia. change (2 ^ 6) with 64.
  replace (128 + x) with (x + 2 * 64) by lia. rewrite Z.mod_add by lia. apply Z.mod_small. lia.
Qed.

Lemma land_ones_add k base x : 0 <= k -> 0 <= x < 2 ^ k -> base mod 2 ^ k = 0 ->
  Z.land (base + x) (Z.ones k) = x.
Proof.
  intros Hk Hx Hb. rewrite Z.land_ones by lia. rewrite Z.add_mod, Hb by lia.
  rewrite Z.add_0_l, Z.mod_mod by lia. apply Z.mod_small. lia.
Qed.

Lemma decode_encode_rune r rest :
  valid_rune r -> decode_rune (encode_rune r ++ rest) = Some (r, rest).
Proof.
  unfold valid_rune. intros Hr. unfold encode_rune.
  destruct (r <? 128) eqn:E1; to_prop.
  { cbn [app decode_rune]. rewrite Z_of_byte_small by lia.
    by rewrite (proj2 (Z.ltb_lt r 128)) by lia. }
  pose proof (Z.div_mod r 64 ltac:(lia)). pose proof (Z.mod_pos_bound r 64 ltac:(lia)).
  destruct (cont_byte (r mod 64)) as [C0 L0]; [lia|].
  destruct (r <? 2048) eqn:E2; to_prop.
  { assert (2 <= r / 64 < 32) by (split; [apply Z.div_le_lower_bound|apply Z.div_lt_upper_bound]; lia).
    cbn [app decode_rune]. unfold in_range. rewrite !(Z_of_byte_small (192 + r / 64)) by lia.
    rewrite (proj2 (Z.ltb_ge (192 + r / 64) 128)) by lia.
    rewrite (proj2 (Z.leb_le 194 (192 + r / 64))), (proj2 (Z.leb_le (192 + r / 64) 223)) by lia.
    cbn [andb]. rewrite C0, L0. change 31 with (Z.ones 5). rewrite land_ones_add by (done || lia).
    do 2 f_equal. lia. }
  pose proof (Z.div_mod (r / 64) 64 ltac:(lia)) as Hd1. pose proof (Z.mod_pos_bound (r / 64) 64 ltac:(lia)).
  rewrite Z.div_div in Hd1 by lia. change (64 * 64) with 4096 in Hd1.
  destruct (cont_byte (r / 64 mod 64)) as [C1 L1]; [lia|].
  destruct (r <? 65536) eqn:E3; to_prop.
  { assert (0 <= r / 4096 < 16) by (split; [apply Z.div_pos|apply Z.div_lt_upper_bound]; lia).
    cbn [app decode_rune]. unfold in_range at 1 2, accept3, in_range.
    rewrite !(Z_of_byte_small (224 + r / 4096)), !(Z_of_byte_small (128 + r / 64 mod 64)) by lia.
    rewrite (proj2 (Z.ltb_ge (224 + r / 4096) 128)) by lia.
    rewrite (proj2 (Z.leb_gt (224 + r / 4096) 223)) by lia. rewrite andb_false_r.
    rewrite (proj2 (Z.leb_le 224 (224 + r / 4096))), (proj2 (Z.leb_le (224 + r / 4096) 239)) by lia.
    cbn [andb]. rewrite C0, C1, L0, L1. change 15 with (Z.ones 4). rewrite land_ones_add by (done || lia).
    set (A := if 224 + r / 4096 =? 224 then _ else _).
    assert (A = true) as ->; [|cbn [andb]; do 2 f_equal; lia].
    unfold A. destruct (_ =? 224) eqn:F1; to_prop; [lia|]. destruct (_ =? 237) eqn:F2; to_prop; [lia|done]. }
  pose proof (Z.div_mod (r / 4096) 64 ltac:(lia)) as Hd2. pose proof (Z.mod_pos_bound (r / 4096) 64 ltac:(lia)).
  rewrite Z.div_div in Hd2 by lia. change (4096 * 64) with 262144 in Hd2.
  destruct (cont_byte (r / 4096 mod 64)) as [C2 L2]; [lia|].
  assert (0 <= r / 262144 < 5) by (split; [apply Z.div_pos|apply Z.div_lt_upper_bound]; lia).
  cbn [app decode_rune]. unfold in_range at 1 2 3, accept4, in_range.
  rewrite !(Z_of_byte_small (240 + r / 262144)), !(Z_of_byte_small (128 + r / 4096 mod 64)) by lia.
  rewrite (proj2 (Z.ltb_ge (240 + r / 262144) 128)) by lia.
  rewrite (proj2 (Z.leb_gt (240 + r / 262144) 223)), (proj2 (Z.leb_gt (240 + r / 262144) 239)) by lia.
  rewrite !andb_false_r.
  rewrite (proj2 (Z.leb_le 240 (240 + r / 262144))), (proj2 (Z.leb_le (240 + r / 262144) 244)) by lia.
  cbn [andb]. rewrite C0, C1, C2, L0, L1, L2. change 7 with (Z.ones 3). rewrite land_ones_add by (done || lia).
  set (A := if 240 + r / 262144 =? 240 then _ else _).
  assert (A = true) as ->; [|cbn [andb]; do 2 f_equal; lia].
  unfold A. destruct (_ =? 240) eqn:F1; to_prop; [lia|]. destruct (_ =? 244) eqn:F2; to_prop; [lia|done].
Qed.

Lemma encode_rune_nonempty r : encode_rune r <> [].
Proof. unfold encode_rune. repeat case_if; discriminate. Qed.

Lemma decode_runes_encode rs fuel :
  Forall valid_rune rs -> (length rs <= fuel)%nat ->
  decode_runes fuel (rs ≫= encode_rune) = Some rs.
Proof.
  intros Hrs. revert fuel. induction Hrs as [|r rs Hr Hrs IH]; intros fuel Hf; [by destruct fuel|].
  destruct fuel as [|fuel]; [simpl in Hf; lia|].
  change ((r :: rs) ≫= encode_rune) with (encode_rune r ++ (rs ≫= encode_rune)).
  destruct (encode_rune r ++ (rs ≫= encode_rune)) as [|b s] eqn:E.
  { apply app_eq_nil in E as [E _]. by apply encode_rune_nonempty in E. }
  cbn [decode_runes]. rewrite <- E, decode_encode_rune by done.
  rewrite IH; [done|simpl in Hf; lia].
Qed.

Lemma runes_of_encode rs : Forall valid_rune rs -> runes_of (rs ≫= encode_rune) = Some rs.
Proof.
  intros H. apply decode_runes_encode; [done|].
  clear H. induction rs as [|r rs IH]; [done|].
  change ((r :: rs) ≫= encode_rune) with (encode_rune r ++ (rs ≫= encode_rune)).
  rewrite length_app. pose proof (encode_rune_nonempty r).
  destruct (encode_rune r); [done|]. simpl. lia.
Qed.

(** ** Encoding inverts decoding *)
Lemma land_sub k base x : 0 <= k -> base <= x < base + 2 ^ k -> base mod 2 ^ k = 0 -> Z.land x (Z.ones k) = x - base.
Proof. intros Hk Hx Hb. replace x with (base + (x - base)) at 1 by lia. apply land_ones_add; [done|lia|done]. Qed.
Lemma cont_low6 b : cont b = true -> low6 b = Z_of_byte b - 128 /\ 128 <= Z_of_byte b < 192.
Proof.
  unfold cont, in_range, low6. intros H. to_prop. split; [|lia]. change 63 with (Z.ones 6). apply land_sub; [lia|lia|done].
Qed.
Lemma byte_of_cont b : cont b = true -> byte_of_Z (128 + low6 b) = b.
Proof. intros H. destruct (cont_low6 b H) as [-> _]. replace (128 + (Z_of_byte b - 128)) with (Z_of_byte b) by lia. apply byte_of_Z_of_byte. Qed.

Lemma encode_two b0 b1 :
  in_range 194 223 b0 = true -> cont b1 = true -> let r := Z.land (Z_of_byte b0) 31 * 64 + low6 b1 in
  128 <= r < 2048 /\ encode_rune r = [b0; b1].
Proof.
  intros H0 H1 r. pose proof (byte_of_cont b1 H1) as Hb1. destruct (cont_low6 b1 H1) as [L1 R1]. unfold in_range in H0. to_prop.
  assert (Z.land (Z_of_byte b0) 31 = Z_of_byte b0 - 192) as L0 by (change 31 with (Z.ones 5); apply land_sub; [lia|lia|done]).
  assert (r / 64 = Z_of_byte b0 - 192 /\ r mod 64 = low6 b1) as [D M].
  { split; [symmetry; apply Z.div_unique with (low6 b1); lia|symmetry; apply Z.mod_unique with (Z_of_byte b0 - 192); lia]. }
  split; [lia|]. unfold encode_rune. rewrite (proj2 (Z.ltb_ge r 128)), (proj2 (Z.ltb_lt r 2048)), D, M by lia.
  replace (192 + (Z_of_byte b0 - 192)) with (Z_of_byte b0) by lia. by rewrite byte_of_Z_of_byte, Hb1.
Qed.
Lemma encode_three b0 b1 b2 :
  in_range 224 239 b0 = true -> accept3 b0 b1 = true -> cont b2 = true ->
  let r := Z.land (Z_of_byte b0) 15 * 4096 + low6 b1 * 64 + low6 b2 in
  2048 <= r < 65536 /\ valid_rune r /\ encode_rune r = [b0; b1; b2].
Proof.
  intros H0 Ha H2 r. assert (H1 : cont b1 = true /\ (Z_of_byte b0 = 224 -> 160 <= Z_of_byte b1) /\ (Z_of_byte b0 = 237 -> Z_of_byte b1 <= 159)).
  { unfold accept3 in Ha. destruct (_ =? 224) eqn:E1; [|destruct (_ =? 237) eqn:E2]; to_prop; unfold cont, in_range in *; to_prop;
      (split; [apply andb_true_iff; split; apply Z.leb_le; lia|lia]). }
  destruct H1 as (H1 & A1 & A2). pose proof (byte_of_cont b1 H1) as Hb1. pose proof (byte_of_cont b2 H2) as Hb2.
  destruct (cont_low6 b1 H1) as [L1 R1]. destruct (cont_low6 b2 H2) as [L2 R2]. unfold in_range in H0. to_prop.
  assert (Z.land (Z_of_byte b0) 15 = Z_of_byte b0 - 224) as L0 by (change 15 with (Z.ones 4); apply land_sub; [lia|lia|done]).
  assert (r / 64 = (Z_of_byte b0 - 224) * 64 + low6 b1 /\ r mod 64 = low6 b2) as [D M].
  { split; [symmetry; apply Z.div_unique with (low6 b2); lia|symmetry; apply Z.mod_unique with ((Z_of_byte b0 - 224) * 64 + low6 b1); lia]. }
  assert (r / 4096 = Z_of_byte b0 - 224) as D2 by (symmetry; apply Z.div_unique with (low6 b1 * 64 + low6 b2); lia).
  assert (r / 64 mod 64 = low6 b1) as M2 by (rewrite D; symmetry; apply Z.mod_unique with (Z_of_byte b0 - 224); lia).
  assert (2048 <= r) by (destruct (Z.eq_dec (Z_of_byte b0) 224) as [E|]; [specialize (A1 E)|]; lia).
  split; [lia|]. split.
  { unfold valid_rune. destruct (Z.eq_dec (Z_of_byte b0) 237) as [E|]; [specialize (A2 E)|]; lia. }
  unfold encode_rune. rewrite (proj2 (Z.ltb_ge r 128)), (proj2 (Z.ltb_ge r 2048)), (proj2 (Z.ltb_lt r 65536)), D2, M, M2 by lia.
  replace (224 + (Z_of_byte b0 - 224)) with (Z_of_byte b0) by lia. by rewrite byte_of_Z_of_byte, Hb1, Hb2.
Qed.
Lemma encode_four b0 b1 b2 b3 :
  in_range 240 244 b0 = true -> accept4 b0 b1 = true -> cont b2 = true -> cont b3 = true ->
  let r := Z.land (Z_of_byte b0) 7 * 262144 + low6 b1 * 4096 + low6 b2 * 64 + low6 b3 in
  65536 <= r <= 1114111 /\ encode_rune r = [b0; b1; b2; b3].
Proof.
  intros H0 Ha H2 H3 r. assert (H1 : cont b1 = true /\ (Z_of_byte b0 = 240 -> 144 <= Z_of_byte b1) /\ (Z_of_byte b0 = 244 -> Z_of_byte b1 <= 143)).
  { unfold accept4 in Ha. destruct (_ =? 240) eqn:E1; [|destruct (_ =? 244) eqn:E2]; to_prop; unfold cont, in_range in *; to_prop;
      (split; [apply andb_true_iff; split; apply Z.leb_le; lia|lia]). }
  destruct H1 as (H1 & A1 & A2). pose proof (byte_of_cont b1 H1) as Hb1. pose proof (byte_of_cont b2 H2) as Hb2. pose proof (byte_of_cont b3 H3) as Hb3.
  destruct (cont_low6 b1 H1) as [L1 R1]. destruct (cont_low6 b2 H2) as [L2 R2]. destruct (cont_low6 b3 H3) as [L3 R3]. unfold in_range in H0. to_prop.
  assert (Z.land (Z_of_byte b0) 7 = Z_of_byte b0 - 240) as L0 by (change 7 with (Z.ones 3); apply land_sub; [lia|lia|done]).
  set (h := Z_of_byte b0 - 240) in *.
  assert (r / 64 = h * 4096 + low6 b1 * 64 + low6 b2 /\ r mod 64 = low6 b3) as [D M].
  { split; [symmetry; apply Z.div_unique with (low6 b3); lia|symmetry; apply Z.mod_unique with (h * 4096 + low6 b1 * 64 + low6 b2); lia]. }
  assert (r / 4096 = h * 64 + low6 b1) as D2 by (symmetry; apply Z.div_unique with (low6 b2 * 64 + low6 b3); lia).
  assert (r / 262144 = h) as D3 by (symmetry; apply Z.div_unique with (low6 b1 * 4096 + low6 b2 * 64 + low6 b3); lia).
  assert (r / 64 mod 64 = low6 b2) as M2 by (rewrite D; symmetry; apply Z.mod_unique with (h * 64 + low6 b1); lia).
  assert (r / 4096 mod 64 = low6 b1) as M3 by (rewrite D2; symmetry; apply Z.mod_unique with h; lia).
  assert (65536 <= r <= 1114111).
  { split; [destruct (Z.eq_dec (Z_of_byte b0) 240) as [E|]; [specialize (A1 E)|]; lia|].
    destruct (Z.eq_dec (Z_of_byte b0) 244) as [E|]; [specialize (A2 E)|]; lia. }
  split; [done|]. unfold encode_rune. rewrite (proj2 (Z.ltb_ge r 128)), (proj2 (Z.ltb_ge r 2048)), (proj2 (Z.ltb_ge r 65536)), D3, M, M2, M3 by lia.
  replace (240 + h) with (Z_of_byte b0) by lia. by rewrite byte_of_Z_of_byte, Hb1, Hb2, Hb3.
Qed.

Lemma encode_decode_rune s r rest : decode_rune s = Some (r, rest) -> s = encode_rune r ++ rest /\ valid_rune r.
Proof.
  unfold decode_rune. intros H. destruct s as [|b0 s]; [done|]. pose proof (Z_of_byte_range b0) as Hb.
  destruct (_ <? 128) eqn:E; to_prop.
  { injection H as <- <-. unfold encode_rune. rewrite (proj2 (Z.ltb_lt _ 128)), byte_of_Z_of_byte by done. split; [done|]. left. lia. }
  destruct (in_range 194 223 b0) eqn:E2.
  { destruct s as [|b1 s]; [done|]. destruct (cont b1) eqn:C1; [|done]. injection H as <- <-.
    destruct (encode_two b0 b1 E2 C1) as [Hr ->]. split; [done|]. left. lia. }
  destruct (in_range 224 239 b0) eqn:E3.
  { destruct s as [|b1 [|b2 s]]; try done. destruct (accept3 b0 b1 && cont b2) eqn:C; [|done]. apply andb_true_iff in C as [C1 C2].
    injection H as <- <-. destruct (encode_three b0 b1 b2 E3 C1 C2) as (_ & Hv & ->). by split. }
  destruct (in_range 240 244 b0) eqn:E4; [|done].
  destruct s as [|b1 [|b2 [|b3 s]]]; try done. destruct (_ && _ && _) eqn:C; [|done]. apply andb_true_iff in C as [C C3].
  apply andb_true_iff in C as [C1 C2]. injection H as <- <-. destruct (encode_four b0 b1 b2 b3 E4 C1 C2 C3) as [Hr ->]. split; [done|]. right. lia.
Qed.
Lemma decode_runes_inv fuel s rs : decode_runes fuel s = Some rs -> s = rs ≫= encode_rune /\ Forall valid_rune rs.
Proof.
  revert s rs. induction fuel as [|fuel IH]; intros s rs H; destruct s as [|b s]; cbn [decode_runes] in H; try (by injection H as <-); [done|].
  destruct (decode_rune (b :: s)) as [[r rest]|] eqn:E; [|done]. destruct (decode_runes fuel rest) as [rs'|] eqn:E2; [|done]. injection H as <-.
  apply encode_decode_rune in E as [-> Hr]. apply IH in E2 as [-> Hrs]. split; [done|by constructor].
Qed.
(** A string is valid when it encodes runes. *)
Lemma runes_of_inv s rs : runes_of s = Some rs <-> s = rs ≫= encode_rune /\ Forall valid_rune rs.
Proof. split; [apply decode_runes_inv|]. intros [-> H]. by apply runes_of_encode. Qed.
Lemma encode_runes_inj rs rs' : Forall valid_rune rs -> Forall valid_rune rs' -> rs ≫= encode_rune = rs' ≫= encode_rune -> rs = rs'.
Proof. intros H H' E. apply runes_of_encode in H, H'. rewrite E in H. congruence. Qed.

(** ** Boundaries *)
Lemma encode_rune_shape r : valid_rune r -> exists b0 conts, encode_rune r = b0 :: conts /\ cont b0 = false /\ Forall (fun b => cont b = true) conts.
Proof.
  intros Hr. unfold encode_rune, valid_rune in *.
  assert (Hlead : forall z, 0 <= z < 256 -> ~ (128 <= z <= 191) -> cont (byte_of_Z z) = false).
  { intros z Hz Hn. unfold cont, in_range. rewrite Z_of_byte_small by lia. apply not_true_iff_false. intros Ht. to_prop. lia. }
  assert (Hcont : forall z, cont (byte_of_Z (128 + z mod 64)) = true).
  { intros z. pose proof (Z.mod_pos_bound z 64 ltac:(lia)). by apply cont_byte. }
  repeat case_if; to_prop; eexists _, _; (split; [reflexivity|]); (split; [|by repeat constructor]); apply Hlead; try lia.
  - assert (2 <= r / 64 < 32) by (split; [apply Z.div_le_lower_bound|apply Z.div_lt_upper_bound]; lia). lia.
  - assert (2 <= r / 64 < 32) by (split; [apply Z.div_le_lower_bound|apply Z.div_lt_upper_bound]; lia). lia.
  - assert (0 <= r / 4096 < 16) by (split; [apply Z.div_pos|apply Z.div_lt_upper_bound]; lia). lia.
  - assert (0 <= r / 4096 < 16) by (split; [apply Z.div_pos|apply Z.div_lt_upper_bound]; lia). lia.
  - assert (0 <= r / 262144 < 8) by (split; [apply Z.div_pos|apply Z.div_lt_upper_bound]; lia). lia.
  - assert (0 <= r / 262144 < 8) by (split; [apply Z.div_pos|apply Z.div_lt_upper_bound]; lia). lia.
Qed.
(** A split of an encoding whose right part does not start inside a rune is a
    split of the runes. *)
Lemma encode_split rs x y :
  Forall valid_rune rs -> rs ≫= encode_rune = x ++ y -> match y with b :: _ => cont b = false | [] => True end ->
  exists r1 r2, rs = r1 ++ r2 /\ x = r1 ≫= encode_rune /\ y = r2 ≫= encode_rune.
Proof.
  intros Hrs. revert x. induction Hrs as [|r rs Hr Hrs IH]; intros x H Hy.
  { symmetry in H. apply app_eq_nil in H as [-> ->]. by exists [], []. }
  change ((r :: rs) ≫= encode_rune) with (encode_rune r ++ (rs ≫= encode_rune)) in H.
  destruct x as [|b x]; [by exists [], (r :: rs)|]. destruct (encode_rune_shape r Hr) as (b0 & conts & He & Hb0 & Hc).
  assert (Hx : exists x', b :: x = encode_rune r ++ x').
  { rewrite He in H |- *. cbn in H. injection H as <- H. cut (exists x', x = conts ++ x'); [intros [x' ->]; by exists x'|].
    clear -H Hc Hy. revert x H. induction Hc as [|k conts Hk Hc IH]; intros x H; [by exists x|]. destruct x as [|k' x]; cbn in H.
    - rewrite <- H in Hy. congruence.
    - injection H as <- H. destruct (IH x H) as [x' ->]. by exists x'. }
  destruct Hx as [x' Hx]. rewrite Hx, <- app_assoc in H. apply app_inv_head in H. destruct (IH x' H Hy) as (r1 & r2 & -> & -> & ->).
  exists (r :: r1), r2. split; [done|]. split; [|done]. by rewrite Hx.
Qed.
