(* ===== verification/KeyStore.v ===== *)
(** * The ordered key-value store under the IDMap

    The collection's IDMap is a Pebble database.  Pebble is not part of the
    repository: the development depends only on the interface below, a type
    class of operations with the documented behaviour of a single-writer
    ordered key-value store as its laws.  A store of the standard library's
    finite maps implements the interface, and instantiates the witnesses. *)
From S2P Require Import Prelude Bytes.
From stdpp Require Import sorting.

(** The operations of [*pebble.DB] that the code calls.  An iteration returns
    the entries it yields and the error it ends with, if any. *)
Class KVStore (DB : Type) := {
  kv_Get : DB -> bytes -> result (option bytes);
  kv_Set : DB -> bytes -> bytes -> result DB;
  kv_Delete : DB -> bytes -> result DB;
  kv_Iter : DB -> list (bytes * bytes) * option gerror;
  (** [Flush] and [Checkpoint], and opening a copy of the checkpoint *)
  kv_Checkpoint : DB -> result DB;
  kv_Open : DB -> result DB;
  (** a fresh, empty database *)
  kv_Empty : DB;
  (** the contents that the laws speak about *)
  kv_view : DB -> gmap bytes bytes
}.

(** Entries in strictly ascending key order. *)
Definition klt {V} (a b : bytes * V) : Prop := bytes_lt (a.1) (b.1).

Class KVStoreLaws (DB : Type) `{KVStore DB} := {
  kv_get_view db k v : kv_Get db k = Ok v -> v = kv_view db !! k;
  kv_set_view db k v db' : kv_Set db k v = Ok db' -> kv_view db' = <[k:=v]> (kv_view db);
  kv_delete_view db k db' : kv_Delete db k = Ok db' -> kv_view db' = delete k (kv_view db);
  kv_iter_view db l : kv_Iter db = (l, None) ->
    StronglySorted klt l /\ list_to_map l = kv_view db;
  kv_checkpoint_view db db' : kv_Checkpoint db = Ok db' -> kv_view db' = kv_view db;
  kv_open_view db db' : kv_Open db = Ok db' -> kv_view db' = kv_view db;
  kv_empty_view : kv_view kv_Empty = ∅
}.

(** ** Strictly sorted association lists *)
Section sorted_keys.
Context {V : Type}.
Implicit Types l : list (bytes * V).

Lemma klt_NoDup l : StronglySorted klt l -> NoDup l.*1.
Proof.
  induction 1 as [|x l Hs IH Hx]; [constructor|]. simpl. constructor; [|done].
  intros Hin. apply list_elem_of_fmap in Hin as (y & Hy & Hin).
  rewrite Forall_forall in Hx. specialize (Hx y Hin). unfold klt in Hx.
  rewrite Hy in Hx. by eapply bytes_lt_irrefl.
Qed.

(** A map has one strictly sorted enumeration. *)
Lemma klt_unique l1 l2 :
  StronglySorted klt l1 -> StronglySorted klt l2 ->
  (list_to_map l1 : gmap bytes V) = list_to_map l2 -> l1 = l2.
Proof.
  intros H1 H2 Heq.
  assert (l1 ≡ₚ l2) as Hp.
  { by apply list_to_map_inj; [apply klt_NoDup..|]. }
  clear Heq. revert l2 H2 Hp. induction H1 as [|x l1 Hs1 IH Hx]; intros l2 H2 Hp.
  { by apply Permutation_nil in Hp. }
  destruct H2 as [|y l2 Hs2 Hy].
  { symmetry in Hp. by apply Permutation_nil in Hp. }
  assert (x = y) as ->.
  { assert (x ∈ y :: l2) as Hxin by (rewrite <- Hp; left).
    assert (y ∈ x :: l1) as Hyin by (rewrite Hp; left).
    apply elem_of_cons in Hxin as [->|Hxin]; [done|].
    apply elem_of_cons in Hyin as [->|Hyin]; [done|]. exfalso.
    rewrite Forall_forall in Hx, Hy. specialize (Hx y Hyin). specialize (Hy x Hxin).
    unfold klt in *. eapply bytes_lt_irrefl, bytes_lt_trans; eauto. }
  f_equal. apply IH; [done|]. by apply Permutation_cons_inv in Hp.
Qed.

Definition kle (a b : bytes * V) : Prop := ~ bytes_lt (b.1) (a.1).

#[global] Instance kle_total : Total kle.
Proof.
  intros a b. unfold kle. destruct (bytes_lt_total a.1 b.1) as [H|[H|H]].
  - left. intros H2. eapply bytes_lt_irrefl, bytes_lt_trans; eauto.
  - left. rewrite H. apply bytes_lt_irrefl.
  - right. intros H2. eapply bytes_lt_irrefl, bytes_lt_trans; eauto.
Qed.

#[global] Instance kle_trans : Transitive kle.
Proof.
  intros a b c Hab Hbc H. unfold kle in *.
  destruct (bytes_lt_total a.1 b.1) as [Hlt|[Heq|Hlt]]; [|by rewrite Heq in H|done].
  apply Hbc. eapply bytes_lt_trans; eauto.
Qed.

#[global] Instance kle_dec a b : Decision (kle a b).
Proof. unfold kle. apply _. Defined.

Lemma kle_klt_sorted l : NoDup l.*1 -> StronglySorted kle l -> StronglySorted klt l.
Proof.
  intros Hnd Hs. induction Hs as [|x l Hs IH Hx]; [constructor|].
  simpl in Hnd. apply NoDup_cons in Hnd as [Hni Hnd]. constructor; [by apply IH|].
  rewrite Forall_forall in *. intros y Hy. specialize (Hx y Hy). unfold klt, kle in *.
  destruct (bytes_lt_total x.1 y.1) as [H|[H|H]]; [done| |done].
  exfalso. apply Hni. rewrite H. apply list_elem_of_fmap. eauto.
Qed.

(** [sort.Strings] over the keys of a map, with their values. *)
Definition sorted_entries (m : gmap bytes V) : list (bytes * V) := merge_sort kle (map_to_list m).

Lemma sorted_entries_sorted m : StronglySorted klt (sorted_entries m).
Proof.
  unfold sorted_entries. apply kle_klt_sorted.
  - rewrite (merge_sort_Permutation kle (map_to_list m)). apply NoDup_fst_map_to_list.
  - by apply (StronglySorted_merge_sort kle).
Qed.

Lemma sorted_entries_map m : list_to_map (sorted_entries m) = m.
Proof.
  rewrite <- (list_to_map_to_list m) at 2. apply list_to_map_proper.
  - apply klt_NoDup, sorted_entries_sorted.
  - apply merge_sort_Permutation.
Qed.

Lemma sorted_entries_unique m l :
  StronglySorted klt l -> list_to_map l = m -> l = sorted_entries m.
Proof.
  intros Hs Hm. apply klt_unique; [done|apply sorted_entries_sorted|].
  by rewrite Hm, sorted_entries_map.
Qed.

Lemma sorted_entries_perm m : sorted_entries m ≡ₚ map_to_list m.
Proof. apply merge_sort_Permutation. Qed.
End sorted_keys.

(** ** The in-memory instance *)
#[global] Instance mem_store : KVStore (gmap bytes bytes) := {|
  kv_Get db k := Ok (db !! k);
  kv_Set db k v := Ok (<[k:=v]> db);
  kv_Delete db k := Ok (delete k db);
  kv_Iter db := (sorted_entries db, None);
  kv_Checkpoint db := Ok db;
  kv_Open db := Ok db;
  kv_Empty := ∅;
  kv_view db := db
|}.

#[global] Instance mem_store_laws : KVStoreLaws (gmap bytes bytes).
Proof.
  constructor; simpl; try (intros; simplify_eq; done).
  intros db l [= <-]. split; [apply sorted_entries_sorted|apply sorted_entries_map].
Qed.
