(* ===== verification/IdMap.v ===== *)
(** * The IDMap: [internal/db/index/common/id_map.go]

    A [PrimaryKeyMap] maps primary keys to global document IDs.  A writable map
    filters lookups through the set of known keys before it reads the store; a
    read-only map keeps replayed changes in an overlay.  [idmap_view] is the
    finite map that both represent. *)
From S2P Require Import Prelude Bytes Utf8 KeyStore.
From stdpp Require Import sorting.
#[local] Open Scope Z_scope.

Definition MaxPrimaryKeyBytes : Z := 65536.

Definition ErrIDMapCorrupt : gerror := errors_New "db: corrupt IDMap".
Definition ErrReadOnly : gerror := errors_New "db: collection is read-only".
Definition idmap_corrupt (detail : string) : gerror := GErr detail [ErrIDMapCorrupt].
Definition err_closed_idmap : gerror := errors_New "db: closed IDMap".

Definition ValidatePrimaryKey (key : bytes) : result unit :=
  if zlen key =? 0 then Fail (errors_New "db: primary key is empty")
  else if MaxPrimaryKeyBytes <? zlen key then Fail (errors_New "db: primary key is too long")
  else if negb (ValidString key) then Fail (errors_New "db: primary key is not valid UTF-8")
  else Ok tt.

Definition valid_key (key : bytes) : Prop := ValidatePrimaryKey key = Ok tt.

Record primaryKeyDelta := { d_docID : Z; d_deleted : bool }.

(** [db] is nil once closed; [known] is non-nil for writable maps and
    [overlay] for read-only ones. *)
Record PrimaryKeyMap (DB : Type) := {
  pk_db : option DB;
  pk_count : Z;
  pk_known : option (gset bytes);
  pk_overlay : option (gmap bytes primaryKeyDelta)
}.
Arguments pk_db {DB} _.
Arguments pk_count {DB} _.
Arguments pk_known {DB} _.
Arguments pk_overlay {DB} _.
Arguments Build_PrimaryKeyMap {DB} _ _ _ _.

Section idmap.
Context {DB : Type} `{KVStore DB}.
Implicit Types (m : PrimaryKeyMap DB) (key : bytes) (docID : Z).

(** [getPrimaryDocID] *)
Definition getPrimaryDocID (db : DB) (key : bytes) : result (Z * bool) :=
  match kv_Get db key with
  | Fail e => Fail (errorf "db: read IDMap point" e)
  | Ok None => Ok (0, false)
  | Ok (Some value) =>
      if negb (zlen value =? 8) then Fail (idmap_corrupt "document ID value length")
      else Ok (be_get value, true)
  end.

(** [getLocked]; the caller has checked that [db] is not nil. *)
Definition getLocked (db : DB) (m : PrimaryKeyMap DB) (key : bytes) : result (Z * bool) :=
  let unknown := match pk_known m with
                 | Some known => negb (bool_decide (key ∈ known))
                 | None => false
                 end in
  if unknown then Ok (0, false)
  else match pk_overlay m ≫= lookup key with
  | Some delta => Ok (d_docID delta, negb (d_deleted delta))
  | None => getPrimaryDocID db key
  end.

Definition idmap_Get (m : PrimaryKeyMap DB) (key : bytes) : result (Z * bool) :=
  match pk_db m with
  | None => Fail err_closed_idmap
  | Some db => getLocked db m key
  end.

(** The store of one mapping, shared by [Put] and [PutNew]: in the overlay of a
    read-only map, otherwise in the database and the set of known keys. *)
Definition idmap_store (db : DB) (m : PrimaryKeyMap DB) (key : bytes) (docID : Z) (text : string)
    : result (PrimaryKeyMap DB) :=
  match pk_overlay m with
  | Some overlay =>
      Ok {| pk_db := pk_db m; pk_count := pk_count m; pk_known := pk_known m;
            pk_overlay := Some (<[key := {| d_docID := docID; d_deleted := false |}]> overlay) |}
  | None =>
      match kv_Set db key (be_put 8 docID) with
      | Fail e => Fail (errorf text e)
      | Ok db' =>
          Ok {| pk_db := Some db'; pk_count := pk_count m;
                pk_known := (fun known => {[key]} ∪ known) <$> pk_known m; pk_overlay := None |}
      end
  end.

Definition idmap_set_count (m : PrimaryKeyMap DB) (n : Z) : PrimaryKeyMap DB :=
  {| pk_db := pk_db m; pk_count := n; pk_known := pk_known m; pk_overlay := pk_overlay m |}.

Definition idmap_Put (ctx : context) (key : bytes) (docID : Z) (m : PrimaryKeyMap DB)
    : PrimaryKeyMap DB * result (Z * bool) :=
  match ctx_guard "db: nil IDMap write context" ctx with
  | Some e => (m, Fail e)
  | None =>
  match ValidatePrimaryKey key with
  | Fail e => (m, Fail e)
  | Ok _ =>
  match pk_db m with
  | None => (m, Fail err_closed_idmap)
  | Some db =>
  match getLocked db m key with
  | Fail e => (m, Fail e)
  | Ok (previous, found) =>
  match idmap_store db m key docID "db: write IDMap point" with
  | Fail e => (m, Fail e)
  | Ok m' =>
      (if found then m' else idmap_set_count m' (pk_count m' + 1), Ok (previous, found))
  end end end end end.

Definition idmap_PutNew (ctx : context) (key : bytes) (docID : Z) (m : PrimaryKeyMap DB)
    : PrimaryKeyMap DB * option gerror :=
  match ctx_guard "db: nil IDMap write context" ctx with
  | Some e => (m, Some e)
  | None =>
  match ValidatePrimaryKey key with
  | Fail e => (m, Some e)
  | Ok _ =>
  match pk_db m with
  | None => (m, Some err_closed_idmap)
  | Some db =>
  match idmap_store db m key docID "db: write new IDMap point" with
  | Fail e => (m, Some e)
  | Ok m' => (idmap_set_count m' (pk_count m' + 1), None)
  end end end end.

Definition idmap_Delete (ctx : context) (key : bytes) (m : PrimaryKeyMap DB)
    : PrimaryKeyMap DB * result (Z * bool) :=
  match ctx_guard "db: nil IDMap delete context" ctx with
  | Some e => (m, Fail e)
  | None =>
  match ValidatePrimaryKey key with
  | Fail e => (m, Fail e)
  | Ok _ =>
  match pk_db m with
  | None => (m, Fail err_closed_idmap)
  | Some db =>
  match getLocked db m key with
  | Fail e => (m, Fail e)
  | Ok (previous, false) => (m, Ok (previous, false))
  | Ok (previous, true) =>
      match pk_overlay m with
      | Some overlay =>
          ({| pk_db := pk_db m; pk_count := pk_count m - 1; pk_known := pk_known m;
              pk_overlay := Some (<[key := {| d_docID := 0; d_deleted := true |}]> overlay) |},
           Ok (previous, true))
      | None =>
          match kv_Delete db key with
          | Fail e => (m, Fail (errorf "db: delete IDMap point" e))
          | Ok db' =>
              ({| pk_db := Some db'; pk_count := pk_count m - 1;
                  pk_known := (fun known => known ∖ {[key]}) <$> pk_known m; pk_overlay := None |},
               Ok (previous, true))
          end
      end
  end end end end.

(** [MultiGet] *)
Fixpoint idmap_MultiGet (m : PrimaryKeyMap DB) (keys : list bytes) : result (list (Z * bool)) :=
  match keys with
  | [] => Ok []
  | key :: keys =>
      match idmap_Get m key with
      | Fail e => Fail e
      | Ok r => match idmap_MultiGet m keys with Fail e => Fail e | Ok rs => Ok (r :: rs) end
      end
  end.

Definition idmap_Count (m : PrimaryKeyMap DB) : Z := pk_count m.

(** [Close] *)
Definition idmap_Close (m : PrimaryKeyMap DB) : PrimaryKeyMap DB :=
  match pk_db m with
  | None => m
  | Some _ => {| pk_db := None; pk_count := pk_count m; pk_known := None; pk_overlay := None |}
  end.

(** The check of one stored entry, shared by [scanCount], [ForEach] and the
    snapshot iterator. *)
Definition check_entry (key value : bytes) : result Z :=
  match ValidatePrimaryKey key with
  | Fail e => Fail (idmap_corrupt "invalid primary key")
  | Ok _ =>
      if negb (zlen value =? 8) then Fail (idmap_corrupt "document ID value length")
      else Ok (be_get value)
  end.

(** [scanCount]: the number of entries, all of them well-formed, recorded as
    known in a writable map. *)
Fixpoint scan_entries (ctx : context) (entries : list (bytes * bytes)) (count : Z)
    (known : option (gset bytes)) : result (Z * option (gset bytes)) :=
  match entries with
  | [] => Ok (count, known)
  | (key, value) :: entries =>
      match ctx_Err ctx with
      | Some e => Fail e
      | None =>
          match check_entry key value with
          | Fail e => Fail e
          | Ok _ => scan_entries ctx entries (count + 1) ((fun k => {[key]} ∪ k) <$> known)
          end
      end
  end.

Definition scanCount (ctx : context) (db : DB) (known : option (gset bytes))
    : result (Z * option (gset bytes)) :=
  match kv_Iter db with
  | (entries, iterErr) =>
      match scan_entries ctx entries 0 known with
      | Fail e => Fail e
      | Ok r => match iterErr with Some e => Fail (errorf "db: scan IDMap" e) | None => Ok r end
      end
  end.

(** [CreatePrimaryKeyMap] once its directory exists. *)
Definition CreatePrimaryKeyMap : PrimaryKeyMap DB :=
  {| pk_db := Some kv_Empty; pk_count := 0; pk_known := Some ∅; pk_overlay := None |}.

(** [OpenPrimaryKeyMap] and [OpenPrimaryKeyMapReadOnly] of a checkpoint. *)
Definition OpenPrimaryKeyMap (ctx : context) (checkpoint : DB) : result (PrimaryKeyMap DB) :=
  match ctx_guard "db: nil IDMap open context" ctx with
  | Some e => Fail e
  | None =>
  match kv_Open checkpoint with
  | Fail e => Fail (errorf "db: open IDMap working copy" e)
  | Ok db =>
      match scanCount ctx db (Some ∅) with
      | Fail e => Fail e
      | Ok (count, known) =>
          Ok {| pk_db := Some db; pk_count := count; pk_known := known; pk_overlay := None |}
      end
  end end.

Definition OpenPrimaryKeyMapReadOnly (ctx : context) (checkpoint : DB) : result (PrimaryKeyMap DB) :=
  match ctx_guard "db: nil read-only IDMap open context" ctx with
  | Some e => Fail e
  | None =>
  match kv_Open checkpoint with
  | Fail e => Fail (errorf "db: open read-only IDMap" e)
  | Ok db =>
      match scanCount ctx db None with
      | Fail e => Fail e
      | Ok (count, known) =>
          Ok {| pk_db := Some db; pk_count := count; pk_known := None; pk_overlay := Some ∅ |}
      end
  end end.

(** [Checkpoint]: the database that the checkpoint directory holds. *)
Definition idmap_Checkpoint (ctx : context) (m : PrimaryKeyMap DB) : result DB :=
  match ctx_guard "db: nil IDMap checkpoint context" ctx with
  | Some e => Fail e
  | None =>
  match pk_db m with
  | None => Fail err_closed_idmap
  | Some db =>
      match pk_overlay m with
      | Some _ => Fail ErrReadOnly
      | None =>
          match kv_Checkpoint db with
          | Fail e => Fail (errorf "db: checkpoint IDMap" e)
          | Ok db' => Ok db'
          end
      end
  end end.

(** [ForEach] with a visitor that threads a state.  The overlay's keys come in
    the order [overlayOrder] of a Go map iteration. *)
Fixpoint foreach_base {S : Type} (ctx : context) (overlay : gmap bytes primaryKeyDelta)
    (entries : list (bytes * bytes)) (visit : S -> bytes -> Z -> result S) (seen : gset bytes) (s : S)
    : result (gset bytes * S) :=
  match entries with
  | [] => Ok (seen, s)
  | (key, value) :: entries =>
      match ctx_Err ctx with
      | Some e => Fail e
      | None =>
      match check_entry key value with
      | Fail e => Fail e
      | Ok docID =>
      match overlay !! key with
      | Some delta =>
          if d_deleted delta then foreach_base ctx overlay entries visit ({[key]} ∪ seen) s
          else match visit s key (d_docID delta) with
               | Fail e => Fail e
               | Ok s => foreach_base ctx overlay entries visit ({[key]} ∪ seen) s
               end
      | None =>
          match visit s key docID with
          | Fail e => Fail e
          | Ok s => foreach_base ctx overlay entries visit seen s
          end
      end end end
  end.

Fixpoint foreach_overlay {S : Type} (overlayOrder : list (bytes * primaryKeyDelta))
    (visit : S -> bytes -> Z -> result S) (seen : gset bytes) (s : S) : result S :=
  match overlayOrder with
  | [] => Ok s
  | (key, delta) :: rest =>
      if bool_decide (key ∈ seen) || d_deleted delta then foreach_overlay rest visit seen s
      else match visit s key (d_docID delta) with
           | Fail e => Fail e
           | Ok s => foreach_overlay rest visit seen s
           end
  end.

Definition idmap_overlay (m : PrimaryKeyMap DB) : gmap bytes primaryKeyDelta := default ∅ (pk_overlay m).

Definition idmap_ForEach {S : Type} (ctx : context) (overlayOrder : list (bytes * primaryKeyDelta))
    (m : PrimaryKeyMap DB) (visit : S -> bytes -> Z -> result S) (s : S) : result S :=
  match ctx with
  | CtxNil => Fail (errors_New "db: nil IDMap iteration context")
  | _ =>
  match pk_db m with
  | None => Fail err_closed_idmap
  | Some db =>
  match kv_Iter db with
  | (entries, iterErr) =>
      match foreach_base ctx (idmap_overlay m) entries visit ∅ s with
      | Fail e => Fail e
      | Ok (seen, s) =>
          match iterErr with
          | Some e => Fail (errorf "db: iterate IDMap" e)
          | None => foreach_overlay overlayOrder visit seen s
          end
      end
  end end end.

(** ** Snapshot iteration

    The iterator merges the store's entries, in key order, with the sorted
    overlay keys. [si_base] holds the entries not yet passed. *)
Record PrimaryKeySnapshotIterator := {
  si_base : list (bytes * bytes);
  si_baseErr : option gerror;
  si_overlay : gmap bytes primaryKeyDelta;
  si_overlayKeys : list bytes;
  si_closed : bool
}.

Definition NewSnapshotIterator (m : PrimaryKeyMap DB) : result PrimaryKeySnapshotIterator :=
  match pk_db m with
  | None => Fail err_closed_idmap
  | Some db =>
      match kv_Iter db with
      | ([], Some e) => Fail (errorf "db: position IDMap snapshot iterator" e)
      | (entries, err) =>
          Ok {| si_base := entries; si_baseErr := err; si_overlay := idmap_overlay m;
                si_overlayKeys := (sorted_entries (idmap_overlay m)).*1; si_closed := false |}
      end
  end.

(** [advanceBase]: past the first entry; the store's error shows at the end. *)
Definition advanceBase (base : list (bytes * bytes)) (err : option gerror)
    : result (list (bytes * bytes)) :=
  match base with
  | _ :: (_ :: _) as rest => Ok (tail base)
  | _ => match err with Some e => Fail (errorf "db: iterate IDMap snapshot" e) | None => Ok [] end
  end.

(** The loop of [Next] on the entries [base] and overlay keys [okeys] that
    remain: the mapping found, and what remains after it.  A deleted overlay
    key makes the loop continue with one overlay key fewer. *)
Fixpoint snapshot_next (overlay : gmap bytes primaryKeyDelta) (err : option gerror)
    (okeys : list bytes) (base : list (bytes * bytes))
    : result (option (bytes * Z * list (bytes * bytes) * list bytes)) :=
  let use_base :=
    match base with
    | [] => Ok None
    | (baseKey, value) :: _ =>
        match check_entry baseKey value with
        | Fail e => Fail e
        | Ok docID =>
            match advanceBase base err with
            | Fail e => Fail e
            | Ok base' => Ok (Some (baseKey, docID, base', okeys))
            end
        end
    end in
  match okeys with
  | [] => use_base
  | overlayKey :: okeys' =>
      let useBase := match base with
                     | (baseKey, _) :: _ => bytes_ltb baseKey overlayKey
                     | [] => false
                     end in
      let useOverlay := match base with
                        | (baseKey, _) :: _ => bytes_ltb overlayKey baseKey
                        | [] => true
                        end in
      if useBase then use_base
      else
        match (if useOverlay then Ok base else advanceBase base err) with
        | Fail e => Fail e
        | Ok base' =>
            let delta := default {| d_docID := 0; d_deleted := false |} (overlay !! overlayKey) in
            if d_deleted delta then snapshot_next overlay err okeys' base'
            else match ValidatePrimaryKey overlayKey with
                 | Fail e => Fail (idmap_corrupt "invalid primary key")
                 | Ok _ => Ok (Some (overlayKey, d_docID delta, base', okeys'))
                 end
        end
  end.

Definition iterator_Next (i : PrimaryKeySnapshotIterator)
    : PrimaryKeySnapshotIterator * result (option (bytes * Z)) :=
  if si_closed i then (i, Ok None)
  else match snapshot_next (si_overlay i) (si_baseErr i) (si_overlayKeys i) (si_base i) with
  | Fail e => (i, Fail e)
  | Ok None =>
      ({| si_base := []; si_baseErr := si_baseErr i; si_overlay := si_overlay i;
          si_overlayKeys := []; si_closed := false |}, Ok None)
  | Ok (Some (key, docID, base, okeys)) =>
      ({| si_base := base; si_baseErr := si_baseErr i; si_overlay := si_overlay i;
          si_overlayKeys := okeys; si_closed := false |}, Ok (Some (key, docID)))
  end.

(** Repeated [Next] until exhaustion. *)
Fixpoint iterator_collect (fuel : nat) (i : PrimaryKeySnapshotIterator)
    : option (result (list (bytes * Z))) :=
  match fuel with
  | O => None
  | Datatypes.S fuel =>
      match iterator_Next i with
      | (_, Fail e) => Some (Fail e)
      | (_, Ok None) => Some (Ok [])
      | (i, Ok (Some kv)) =>
          match iterator_collect fuel i with
          | Some (Ok l) => Some (Ok (kv :: l))
          | r => r
          end
      end
  end.

Definition iterator_Close (i : PrimaryKeySnapshotIterator) : PrimaryKeySnapshotIterator :=
  if si_closed i then i
  else {| si_base := []; si_baseErr := None; si_overlay := ∅; si_overlayKeys := []; si_closed := true |}.

(** ** The represented mapping *)
Definition decode_value (value : bytes) : option Z :=
  if zlen value =? 8 then Some (be_get value) else None.
Definition base_view (db : DB) : gmap bytes Z := omap decode_value (kv_view db).

(** Overlay entries override the base, deletions hide it. *)
Definition apply_delta (b : option Z) (d : option primaryKeyDelta) : option Z :=
  match d with
  | Some delta => if d_deleted delta then None else Some (d_docID delta)
  | None => b
  end.
Definition idmap_view (m : PrimaryKeyMap DB) : gmap bytes Z :=
  match pk_db m with
  | None => ∅
  | Some db => merge apply_delta (base_view db) (idmap_overlay m)
  end.

(** Well-formed stored entries. *)
Definition entries_ok (db : DB) : Prop :=
  forall k v, kv_view db !! k = Some v -> valid_key k /\ zlen v = 8.

Record idmap_inv (m : PrimaryKeyMap DB) : Prop := {
  ii_mode : match pk_known m, pk_overlay m with
            | Some known, None => forall db, pk_db m = Some db -> known = dom (kv_view db)
            | None, Some overlay => forall k d, overlay !! k = Some d ->
                valid_key k /\ is_u64 (d_docID d) /\ (d_deleted d = true -> d_docID d = 0)
            | _, _ => False
            end;
  ii_entries : exists db, pk_db m = Some db /\ entries_ok db;
  ii_count : pk_count m = Z.of_nat (size (idmap_view m))
}.
End idmap.

Arguments PrimaryKeySnapshotIterator : clear implicits.

(** ** Lookup in the represented mapping *)
Definition lookup_result (v : option Z) : Z * bool :=
  match v with Some d => (d, true) | None => (0, false) end.

Lemma apply_delta_None : apply_delta None None = None.
Proof. done. Qed.

Section idmap_proofs.
Context {DB : Type} `{Hkv : KVStore DB} {Hlaws : KVStoreLaws DB}.
Implicit Types (m : PrimaryKeyMap DB) (db : DB).

Lemma idmap_view_lookup m db key :
  pk_db m = Some db ->
  idmap_view m !! key = apply_delta (base_view db !! key) (idmap_overlay m !! key).
Proof.
  intros Hdb. unfold idmap_view. rewrite Hdb, lookup_merge.
  by destruct (base_view db !! key), (idmap_overlay m !! key).
Qed.

Lemma base_view_lookup db key : base_view db !! key = kv_view db !! key ≫= decode_value.
Proof. apply lookup_omap. Qed.

Lemma base_view_None db key : entries_ok db -> base_view db !! key = None <-> kv_view db !! key = None.
Proof.
  intros Hok. rewrite base_view_lookup. destruct (kv_view db !! key) as [v|] eqn:E; simpl; [|done].
  apply Hok in E as [_ E]. unfold decode_value. rewrite E. done.
Qed.

Lemma getLocked_spec m db key r :
  idmap_inv m -> pk_db m = Some db -> getLocked db m key = Ok r ->
  r = lookup_result (idmap_view m !! key).
Proof.
  intros [Hmode (db' & Hdb' & Hent) _] Hdb Hget. rewrite Hdb in Hdb'. simplify_eq.
  rewrite (idmap_view_lookup m db' key Hdb). unfold getLocked, idmap_overlay in *.
  destruct (pk_known m) as [known|], (pk_overlay m) as [ov|]; try done; simpl in *.
  - specialize (Hmode _ Hdb) as ->. rewrite lookup_empty. simpl.
    case_bool_decide as Hin; simpl in Hget.
    + unfold getPrimaryDocID in Hget. apply elem_of_dom in Hin as [v Hv].
      destruct (kv_Get db' key) as [o|] eqn:E; [|done]. apply kv_get_view in E as ->.
      rewrite Hv in Hget. rewrite base_view_lookup, Hv. simpl. unfold decode_value.
      destruct (zlen v =? 8); simpl in *; [by simplify_eq|done].
    + simplify_eq. apply not_elem_of_dom in Hin. by rewrite (proj2 (base_view_None db' key Hent) Hin).
  - destruct (ov !! key) as [d|] eqn:Eo.
    + specialize (Hmode key d Eo) as (_ & _ & Hzero). simplify_eq. simpl.
      destruct (d_deleted d) eqn:Ed; simpl; [by rewrite Hzero|done].
    + unfold getPrimaryDocID in Hget.
      destruct (kv_Get db' key) as [o|] eqn:E; [|done]. apply kv_get_view in E as ->.
      rewrite base_view_lookup. destruct (kv_view db' !! key) as [v|] eqn:Ev; simplify_eq/=; [|done].
      unfold decode_value. destruct (zlen v =? 8); simpl in *; [by simplify_eq|done].
Qed.

Lemma decode_put8 d : is_u64 d -> decode_value (be_put 8 d) = Some d.
Proof. intros H. unfold decode_value. change (zlen (be_put 8 d)) with 8. simpl. by rewrite be_get_put8. Qed.

Lemma base_view_set db k d db' :
  is_u64 d -> kv_Set db k (be_put 8 d) = Ok db' -> base_view db' = <[k:=d]> (base_view db).
Proof.
  intros Hd Hset. unfold base_view. rewrite (kv_set_view _ _ _ _ Hset).
  by apply omap_insert_Some, decode_put8.
Qed.

Lemma entries_ok_set db k d db' :
  valid_key k -> kv_Set db k (be_put 8 d) = Ok db' -> entries_ok db -> entries_ok db'.
Proof.
  intros Hk Hset Hok k' v Hl. rewrite (kv_set_view _ _ _ _ Hset) in Hl.
  apply lookup_insert_Some in Hl as [[<- <-]|[_ Hl]]; [|by apply Hok]. split; [done|reflexivity].
Qed.

Lemma merge_overlay_empty db : merge apply_delta (base_view db) ∅ = base_view db.
Proof.
  apply map_eq. intros i. rewrite lookup_merge, lookup_empty. by destruct (base_view db !! i).
Qed.

(** Storing a mapping updates the represented map, whatever the mode. *)
Lemma idmap_store_spec db m key docID text m' :
  idmap_inv m -> pk_db m = Some db -> valid_key key -> is_u64 docID ->
  idmap_store db m key docID text = Ok m' ->
  idmap_view m' = <[key:=docID]> (idmap_view m) /\ pk_count m' = pk_count m /\
  (forall n, n = Z.of_nat (size (idmap_view m')) -> idmap_inv (idmap_set_count m' n)).
Proof.
  intros [Hmode (db' & Hdb' & Hent) Hcount] Hdb Hkey Hdoc Hst. rewrite Hdb in Hdb'. simplify_eq.
  unfold idmap_store in Hst. unfold idmap_view. rewrite Hdb.
  destruct (pk_known m) as [known|] eqn:Ek, (pk_overlay m) as [ov|] eqn:Eo; try done; simpl in *.
  - destruct (kv_Set db' key (be_put 8 docID)) as [db1|e] eqn:Es; simplify_eq. simpl.
    unfold idmap_overlay. rewrite Eo. simpl. rewrite !merge_overlay_empty.
    split; [by apply base_view_set|]. split; [done|]. intros n ->. constructor; simpl.
    + intros ? [= <-]. rewrite (kv_set_view _ _ _ _ Es), dom_insert_L. by rewrite (Hmode _ Hdb).
    + exists db1. split; [done|]. by eapply entries_ok_set.
    + unfold idmap_view, idmap_overlay. simpl. by rewrite merge_overlay_empty.
  - simplify_eq. simpl. rewrite Hdb. simpl.
    assert (merge apply_delta (base_view db')
      (<[key:={| d_docID := docID; d_deleted := false |}]> ov) =
      <[key:=docID]> (merge apply_delta (base_view db') ov)) as Hm.
    { apply map_eq. intros i. rewrite lookup_merge. destruct (decide (i = key)) as [->|Hne].
      - rewrite !lookup_insert_eq. by destruct (base_view db' !! key).
      - rewrite !lookup_insert_ne, lookup_merge by done. done. }
    unfold idmap_overlay. simpl. rewrite Eo. simpl. split; [done|]. split; [done|].
    intros n ->. constructor; simpl.
    + intros k d Hl. apply lookup_insert_Some in Hl as [[<- <-]|[_ Hl]]; [done|]. by apply Hmode.
    + by exists db'.
    + done.
Qed.

(** [Put]: a failure leaves the map as it was; a success reports the previous
    mapping and installs the new one. *)
Lemma idmap_Put_spec ctx key docID m m' r :
  idmap_inv m -> is_u64 docID -> idmap_Put ctx key docID m = (m', r) ->
  match r with
  | Fail _ => m' = m
  | Ok prev => valid_key key /\ prev = lookup_result (idmap_view m !! key) /\
               idmap_view m' = <[key:=docID]> (idmap_view m) /\ idmap_inv m'
  end.
Proof.
  intros Hinv Hdoc Hput. unfold idmap_Put in Hput.
  destruct (ctx_guard _ ctx); [by simplify_eq|].
  destruct (ValidatePrimaryKey key) as [[]|] eqn:Hkey; [|by simplify_eq].
  destruct (pk_db m) as [db|] eqn:Hdb; [|by simplify_eq].
  destruct (getLocked db m key) as [[prev found]|] eqn:Hget; [|by simplify_eq].
  destruct (idmap_store db m key docID _) as [m1|] eqn:Hst; [|by simplify_eq].
  apply (getLocked_spec m db key) in Hget; [|done..].
  apply (idmap_store_spec db m key docID _ m1) in Hst as (Hv & Hc & Hi); [|done..].
  pose proof (ii_count _ Hinv) as Hcount.
  injection Hput as <- <-. split; [done|]. split; [done|].
  destruct (idmap_view m !! key) as [d|] eqn:El; injection Hget as -> ->.
  - split; [done|]. replace m1 with (idmap_set_count m1 (pk_count m1)) by by destruct m1.
    apply Hi. rewrite Hc, Hcount, Hv, map_size_insert, El. done.
  - split; [done|]. apply Hi. rewrite Hc, Hcount, Hv, map_size_insert, El. lia.
Qed.

Lemma idmap_PutNew_spec ctx key docID m m' r :
  idmap_inv m -> is_u64 docID -> idmap_view m !! key = None ->
  idmap_PutNew ctx key docID m = (m', r) ->
  match r with
  | Some _ => m' = m
  | None => valid_key key /\ idmap_view m' = <[key:=docID]> (idmap_view m) /\ idmap_inv m'
  end.
Proof.
  intros Hinv Hdoc Hnew Hput. unfold idmap_PutNew in Hput.
  destruct (ctx_guard _ ctx); [by simplify_eq|].
  destruct (ValidatePrimaryKey key) as [[]|] eqn:Hkey; [|by simplify_eq].
  destruct (pk_db m) as [db|] eqn:Hdb; [|by simplify_eq].
  destruct (idmap_store db m key docID _) as [m1|] eqn:Hst; [|by simplify_eq].
  apply (idmap_store_spec db m key docID _ m1) in Hst as (Hv & Hc & Hi); [|done..].
  pose proof (ii_count _ Hinv) as Hcount. injection Hput as <- <-. split; [done|]. split; [done|].
  apply Hi. rewrite Hc, Hcount, Hv, map_size_insert, Hnew. lia.
Qed.

Lemma idmap_Delete_spec ctx key m m' r :
  idmap_inv m -> idmap_Delete ctx key m = (m', r) ->
  match r with
  | Fail _ => m' = m
  | Ok prev => valid_key key /\ prev = lookup_result (idmap_view m !! key) /\
               idmap_view m' = delete key (idmap_view m) /\ idmap_inv m'
  end.
Proof.
  intros Hinv Hdel. unfold idmap_Delete in Hdel.
  destruct (ctx_guard _ ctx); [by simplify_eq|].
  destruct (ValidatePrimaryKey key) as [[]|] eqn:Hkey; [|by simplify_eq].
  destruct (pk_db m) as [db|] eqn:Hdb; [|by simplify_eq].
  destruct (getLocked db m key) as [[prev found]|] eqn:Hget; [|by simplify_eq].
  apply (getLocked_spec m db key) in Hget; [|done..].
  destruct (idmap_view m !! key) as [d|] eqn:El; simplify_eq/=.
  2:{ split; [done|]. split; [done|]. by rewrite delete_id. }
  pose proof Hinv as [Hmode (db' & Hdb' & Hent) Hcount]. rewrite Hdb in Hdb'. simplify_eq.
  assert (Hsize : forall v, v = delete key (idmap_view m) ->
            pk_count m - 1 = Z.of_nat (size v)).
  { intros v ->. rewrite Hcount, map_size_delete, El.
    assert (size (idmap_view m) <> 0%nat); [|lia].
    intros E%map_size_empty_iff. by rewrite E in El. }
  destruct (pk_known m) as [known|] eqn:Ek, (pk_overlay m) as [ov|] eqn:Eo; try done; simpl in *.
  - destruct (kv_Delete db' key) as [db1|e] eqn:Es; simplify_eq; [|done].
    assert (idmap_view {| pk_db := Some db1; pk_count := pk_count m - 1;
              pk_known := Some (known ∖ {[key]}); pk_overlay := None |} = delete key (idmap_view m)) as Hv.
    { unfold idmap_view, idmap_overlay. simpl. rewrite Hdb, Eo. simpl. rewrite !merge_overlay_empty.
      unfold base_view. rewrite (kv_delete_view _ _ _ Es). apply omap_delete. }
    split; [done|]. split; [done|]. split; [done|]. constructor; simpl.
    + intros ? [= <-]. rewrite (kv_delete_view _ _ _ Es), dom_delete_L. by rewrite (Hmode _ Hdb).
    + exists db1. split; [done|]. intros k v Hl. rewrite (kv_delete_view _ _ _ Es) in Hl.
      apply lookup_delete_Some in Hl as [_ Hl]. by apply Hent.
    + by apply Hsize.
  - simplify_eq.
    assert (idmap_view {| pk_db := Some db'; pk_count := pk_count m - 1; pk_known := None;
              pk_overlay := Some (<[key:={| d_docID := 0; d_deleted := true |}]> ov) |}
            = delete key (idmap_view m)) as Hv.
    { unfold idmap_view, idmap_overlay. rewrite Hdb, Eo. simpl.
      apply map_eq. intros i. rewrite lookup_merge. destruct (decide (i = key)) as [->|Hne].
      - rewrite lookup_insert_eq, lookup_delete_eq. by destruct (base_view db' !! key).
      - rewrite lookup_insert_ne by done. rewrite lookup_delete_ne by done.
        by rewrite lookup_merge. }
    split; [done|]. split; [done|]. split; [done|]. constructor; simpl.
    + intros k d' Hl. apply lookup_insert_Some in Hl as [[<- <-]|[_ Hl]]; [|by apply Hmode].
      split; [done|]. unfold is_u64, u64_max. simpl. repeat split; try done; lia.
    + by exists db'.
    + by apply Hsize.
Qed.

Lemma idmap_Get_spec key m r :
  idmap_inv m -> idmap_Get m key = Ok r -> r = lookup_result (idmap_view m !! key).
Proof.
  intros Hinv Hget. pose proof (ii_entries _ Hinv) as (db & Hdb & _).
  unfold idmap_Get in Hget. rewrite Hdb in Hget. by eapply getLocked_spec.
Qed.
End idmap_proofs.

(** ** The snapshot iterator *)
Lemma apply_delta_base b : apply_delta b None = b.
Proof. done. Qed.

(** The mapping that remaining entries [base] and overlay keys [okeys] stand for. *)
Definition rem_view (overlay : gmap bytes primaryKeyDelta) (base : list (bytes * bytes))
    (okeys : list bytes) (i : bytes) : option Z :=
  apply_delta ((list_to_map base : gmap bytes bytes) !! i ≫= decode_value)
    (if decide (i ∈ okeys) then overlay !! i else None).

Definition entry_ok (e : bytes * bytes) : Prop := valid_key e.1 /\ zlen e.2 = 8.

Record iter_wf (overlay : gmap bytes primaryKeyDelta) (base : list (bytes * bytes))
    (okeys : list bytes) : Prop := {
  iw_base : StronglySorted klt base;
  iw_okeys : StronglySorted bytes_lt okeys;
  iw_entries : Forall entry_ok base;
  iw_overlay : Forall (fun k => valid_key k /\ is_Some (overlay !! k)) okeys
}.

Lemma check_entry_ok k v : valid_key k -> zlen v = 8 -> check_entry k v = Ok (be_get v).
Proof. intros Hk Hv. unfold check_entry. by rewrite Hk, Hv. Qed.

Lemma check_entry_Ok k v d : check_entry k v = Ok d -> entry_ok (k, v) /\ d = be_get v.
Proof.
  unfold check_entry. intros Hc. destruct (ValidatePrimaryKey k) as [[]|] eqn:Hk; [|done].
  destruct (zlen v =? 8) eqn:Hv; simplify_eq/=. split; [|done]. split; [done|]. simpl. by apply Z.eqb_eq.
Qed.

Lemma decode_value_8 v : zlen v = 8 -> decode_value v = Some (be_get v).
Proof. intros Hv. unfold decode_value. by rewrite Hv. Qed.

Lemma iter_wf_tail_base ov e base okeys : iter_wf ov (e :: base) okeys -> iter_wf ov base okeys.
Proof.
  intros [Hb Ho He Hv]. apply StronglySorted_inv in Hb as [Hb _]. apply Forall_cons in He as [_ He].
  by constructor.
Qed.

Lemma iter_wf_tail_okeys ov k base okeys : iter_wf ov base (k :: okeys) -> iter_wf ov base okeys.
Proof.
  intros [Hb Ho He Hv]. apply StronglySorted_inv in Ho as [Ho _]. apply Forall_cons in Hv as [_ Hv].
  by constructor.
Qed.

(** A key below the head of a sorted list is not in the list. *)
Lemma base_lookup_below (base : list (bytes * bytes)) k :
  Forall (fun e => bytes_lt k e.1) base -> (list_to_map base : gmap bytes bytes) !! k = None.
Proof.
  intros Hb. apply not_elem_of_list_to_map_1. intros (e & -> & Hin)%list_elem_of_fmap.
  rewrite Forall_forall in Hb. by apply (bytes_lt_irrefl e.1), Hb.
Qed.

Lemma okeys_below (okeys : list bytes) k : Forall (bytes_lt k) okeys -> k ∉ okeys.
Proof. intros Ho Hin. rewrite Forall_forall in Ho. by apply (bytes_lt_irrefl k), Ho. Qed.

Lemma Forall_lt_trans (okeys : list bytes) k k' :
  bytes_lt k k' -> Forall (bytes_lt k') okeys -> Forall (bytes_lt k) okeys.
Proof. intros Hlt HF. eapply Forall_impl; [exact HF|]. intros x. by apply bytes_lt_trans. Qed.

Lemma Forall_lt_trans_base {V} (base : list (bytes * V)) k k' :
  bytes_lt k k' -> Forall (fun e => bytes_lt k' e.1) base -> Forall (fun e => bytes_lt k e.1) base.
Proof. intros Hlt HF. eapply Forall_impl; [exact HF|]. intros x. by apply bytes_lt_trans. Qed.

(** What one step leaves: the key [k] is gone, everything left is above it. *)
Definition above (k : bytes) (base : list (bytes * bytes)) (okeys : list bytes) : Prop :=
  Forall (fun e => bytes_lt k e.1) base /\ Forall (bytes_lt k) okeys.

Lemma rem_view_above ov base okeys k : above k base okeys -> rem_view ov base okeys k = None.
Proof.
  intros [Hb Ho]. unfold rem_view. rewrite base_lookup_below by done.
  rewrite decide_False by by apply okeys_below. done.
Qed.

(** The head of both lists, or of one of them, covers the key [k]; the rest does not. *)
Lemma rem_view_cons_base ov k v base okeys i :
  i <> k -> rem_view ov ((k, v) :: base) okeys i = rem_view ov base okeys i.
Proof. intros Hne. unfold rem_view. simpl. by rewrite lookup_insert_ne by done. Qed.

Lemma rem_view_cons_okeys ov k base okeys i :
  i <> k -> rem_view ov base (k :: okeys) i = rem_view ov base okeys i.
Proof.
  intros Hne. unfold rem_view. f_equal. destruct (decide (i ∈ okeys)) as [Hin|Hin].
  - by rewrite decide_True by by right.
  - rewrite decide_False; [done|]. by intros [->|]%elem_of_cons.
Qed.

Lemma rem_view_head_base ov k v base okeys :
  k ∉ okeys -> zlen v = 8 -> rem_view ov ((k, v) :: base) okeys k = Some (be_get v).
Proof.
  intros Hni Hv. unfold rem_view. simpl. rewrite lookup_insert_eq, decide_False by done.
  simpl. by apply decode_value_8.
Qed.

Lemma rem_view_head_okeys ov k base okeys d :
  ov !! k = Some d ->
  rem_view ov base (k :: okeys) k = if d_deleted d then None else Some (d_docID d).
Proof. intros Hd. unfold rem_view. rewrite decide_True by by left. by rewrite Hd. Qed.

(** The result of one step on the remaining entries. *)
Definition next_ok (ov : gmap bytes primaryKeyDelta) (base : list (bytes * bytes)) (okeys : list bytes)
    (r : result (option (bytes * Z * list (bytes * bytes) * list bytes))) : Prop :=
  match r with
  | Fail _ => False
  | Ok None => forall i, rem_view ov base okeys i = None
  | Ok (Some (k, d, base', okeys')) =>
      rem_view ov base okeys k = Some d /\
      (forall i, i <> k -> rem_view ov base okeys i = rem_view ov base' okeys' i) /\
      iter_wf ov base' okeys' /\ above k base' okeys' /\
      (length base' + length okeys' < length base + length okeys)%nat
  end.

Lemma advanceBase_tail e (base : list (bytes * bytes)) : advanceBase (e :: base) None = Ok base.
Proof. by destruct base. Qed.

Lemma next_ok_base ov k v base okeys :
  iter_wf ov ((k, v) :: base) okeys -> Forall (bytes_lt k) okeys ->
  next_ok ov ((k, v) :: base) okeys (Ok (Some (k, be_get v, base, okeys))).
Proof.
  intros Hwf Hk. pose proof (iw_base _ _ _ Hwf) as [_ Hb]%StronglySorted_inv.
  pose proof (iw_entries _ _ _ Hwf) as [[_ Hv] _]%Forall_cons.
  split; [by apply rem_view_head_base; [apply okeys_below|]|].
  split; [intros i Hi; by apply rem_view_cons_base|].
  split; [by eapply iter_wf_tail_base|]. split; [done|]. simpl. lia.
Qed.

(** Dropping the covered heads: [base'] is [base], or its tail when its head is [k]. *)
Lemma next_ok_overlay ov k base base' okeys d :
  iter_wf ov base (k :: okeys) -> ov !! k = Some d -> d_deleted d = false ->
  (forall i, i <> k -> rem_view ov base (k :: okeys) i = rem_view ov base' okeys i) ->
  iter_wf ov base' okeys -> above k base' okeys -> (length base' <= length base)%nat ->
  next_ok ov base (k :: okeys) (Ok (Some (k, d_docID d, base', okeys))).
Proof.
  intros Hwf Hd Hdel Hrest Hwf' Habove Hlen. split; [by rewrite (rem_view_head_okeys _ _ _ _ d), Hdel|].
  split; [done|]. split; [done|]. split; [done|]. simpl. lia.
Qed.

Lemma next_ok_skip ov k base base' okeys d r :
  ov !! k = Some d -> d_deleted d = true ->
  (forall i, i <> k -> rem_view ov base (k :: okeys) i = rem_view ov base' okeys i) ->
  above k base' okeys -> (length base' <= length base)%nat ->
  next_ok ov base' okeys r -> next_ok ov base (k :: okeys) r.
Proof.
  intros Hd Hdel Hrest Habove Hlen Hr.
  assert (Hall : forall i, rem_view ov base (k :: okeys) i = rem_view ov base' okeys i).
  { intros i. destruct (decide (i = k)) as [->|Hne]; [|by apply Hrest].
    rewrite (rem_view_head_okeys _ _ _ _ d), Hdel by done. by rewrite rem_view_above. }
  destruct r as [[[[[k' d'] b'] o']|]|]; simpl in *; [|by setoid_rewrite Hall|done].
  destruct Hr as (Hk & Hi & Hw & Ha & Hl). rewrite Hall. setoid_rewrite Hall.
  split; [done|]. split; [done|]. split; [done|]. split; [done|]. lia.
Qed.

(** The overlay key comes first, [base'] being what remains of the base. *)
Lemma snapshot_next_overlay ov k base base' okeys :
  iter_wf ov base (k :: okeys) ->
  (forall i, i <> k -> rem_view ov base (k :: okeys) i = rem_view ov base' okeys i) ->
  iter_wf ov base' okeys -> Forall (fun e => bytes_lt k e.1) base' -> (length base' <= length base)%nat ->
  next_ok ov base' okeys (snapshot_next ov None okeys base') ->
  next_ok ov base (k :: okeys)
    (let delta := default {| d_docID := 0; d_deleted := false |} (ov !! k) in
     if d_deleted delta then snapshot_next ov None okeys base'
     else match ValidatePrimaryKey k with
          | Fail e => Fail (idmap_corrupt "invalid primary key")
          | Ok _ => Ok (Some (k, d_docID delta, base', okeys))
          end).
Proof.
  intros Hwf Hrest Hwf' Hb Hlen Hnext. pose proof (iw_overlay _ _ _ Hwf) as [[Hk [d Hd]] _]%Forall_cons.
  pose proof (iw_okeys _ _ _ Hwf) as [_ Ho]%StronglySorted_inv.
  rewrite Hd, Hk. simpl. destruct (d_deleted d) eqn:Hdel.
  - by eapply next_ok_skip.
  - by apply next_ok_overlay.
Qed.

Lemma snapshot_next_spec ov okeys base :
  iter_wf ov base okeys -> next_ok ov base okeys (snapshot_next ov None okeys base).
Proof.
  revert base. induction okeys as [|ok okeys IH]; intros base Hwf.
  { simpl. destruct base as [|[k v] base]; [done|].
    pose proof (iw_entries _ _ _ Hwf) as [[Hk Hv] _]%Forall_cons.
    rewrite check_entry_ok, advanceBase_tail by done. by apply next_ok_base. }
  pose proof (iw_okeys _ _ _ Hwf) as [_ Ho]%StronglySorted_inv.
  cbn [snapshot_next]. destruct base as [|[k v] base].
  { apply snapshot_next_overlay; try done.
    - intros i Hi. by apply rem_view_cons_okeys.
    - by eapply iter_wf_tail_okeys.
    - apply IH. by eapply iter_wf_tail_okeys. }
  pose proof (iw_entries _ _ _ Hwf) as [[Hk Hv] _]%Forall_cons.
  pose proof (iw_base _ _ _ Hwf) as [_ Hb]%StronglySorted_inv.
  destruct (bytes_ltb k ok) eqn:Hlt.
  { rewrite check_entry_ok, advanceBase_tail by done. apply next_ok_base; [done|].
    constructor; [done|]. by eapply Forall_lt_trans. }
  destruct (bytes_ltb ok k) eqn:Hgt.
  - apply snapshot_next_overlay; try done.
    + intros i Hi. by apply rem_view_cons_okeys.
    + by eapply iter_wf_tail_okeys.
    + constructor; [done|]. by eapply Forall_lt_trans_base.
    + apply IH. by eapply iter_wf_tail_okeys.
  - assert (ok = k) as ->.
    { destruct (bytes_lt_total ok k) as [H|[H|H]]; [congruence|done|congruence]. }
    rewrite advanceBase_tail. apply snapshot_next_overlay; try done.
    + intros i Hi. by rewrite rem_view_cons_okeys, rem_view_cons_base.
    + by eapply iter_wf_tail_base, iter_wf_tail_okeys.
    + simpl. lia.
    + apply IH. by eapply iter_wf_tail_base, iter_wf_tail_okeys.
Qed.

(** Repeated [Next] enumerates the remaining mapping in strictly ascending key order. *)
Lemma iterator_collect_spec ov fuel base okeys :
  iter_wf ov base okeys -> (length base + length okeys < fuel)%nat ->
  exists l, iterator_collect fuel {| si_base := base; si_baseErr := None; si_overlay := ov;
                                     si_overlayKeys := okeys; si_closed := false |} = Some (Ok l) /\
    StronglySorted klt l /\ (forall i, (list_to_map l : gmap bytes Z) !! i = rem_view ov base okeys i) /\
    (forall k, above k base okeys -> Forall (fun e => bytes_lt k e.1) l).
Proof.
  revert base okeys. induction fuel as [|fuel IH]; intros base okeys Hwf Hfuel; [lia|].
  pose proof (snapshot_next_spec ov okeys base Hwf) as Hnext.
  cbn [iterator_collect]. unfold iterator_Next. cbn [si_closed si_overlay si_baseErr si_overlayKeys si_base].
  destruct (snapshot_next ov None okeys base) as [[[[[k d] base'] okeys']|]|]; simpl in Hnext; [| |done].
  - destruct Hnext as (Hk & Hrest & Hwf' & Habove & Hlen).
    destruct (IH base' okeys' Hwf') as (l & -> & Hs & Hl & Hab); [lia|].
    exists ((k, d) :: l). split; [done|]. split; [by constructor; [|apply Hab]|]. split.
    + intros i. simpl. destruct (decide (i = k)) as [->|Hne].
      * by rewrite lookup_insert_eq.
      * by rewrite lookup_insert_ne, Hl, Hrest.
    + intros k' Hk'. assert (bytes_lt k' k) as Hlt.
      { destruct Hk' as [Hb' Ho']. destruct (decide (bytes_lt k' k)) as [|Hn]; [done|].
        assert (rem_view ov base okeys k = None) as E; [|congruence]. apply rem_view_above.
        assert (Hge : forall x, bytes_lt k' x -> bytes_lt k x).
        { intros x Hx. destruct (bytes_lt_total k' k) as [?|[->|?]]; [done|done|]. by eapply bytes_lt_trans. }
        split; [by eapply Forall_impl; [exact Hb'|intros; apply Hge]|by eapply Forall_impl]. }
      constructor; [done|]. eapply Forall_lt_trans_base; [exact Hlt|]. by apply Hab.
  - exists []. split; [done|]. split; [constructor|]. split; [|by constructor].
    intros i. by rewrite Hnext.
Qed.

(** ** Opening, visiting, and the abstract map *)
Definition store_fails {DB} `{KVStore DB} : Prop :=
  (exists db k e, kv_Get db k = Fail e) \/ (exists db k v e, kv_Set db k v = Fail e) \/
  (exists db k e, kv_Delete db k = Fail e).

(** What can make an operation on [key] fail. *)
Definition idmap_fault {DB} `{KVStore DB} (ctx : context) (key : bytes) : Prop :=
  ctx <> CtxLive \/ ~ valid_key key \/ store_fails (DB := DB).

Inductive idmap_cmd :=
| IGet (key : bytes)
| IPut (key : bytes) (docID : Z)
| IPutNew (key : bytes) (docID : Z)
| IDelete (key : bytes).

(** One operation, its answer in the shape of [Get]'s. *)
Definition idmap_exec {DB} `{KVStore DB} (ctx : context) (c : idmap_cmd) (m : PrimaryKeyMap DB)
    : PrimaryKeyMap DB * result (Z * bool) :=
  match c with
  | IGet key => (m, idmap_Get m key)
  | IPut key docID => idmap_Put ctx key docID m
  | IPutNew key docID =>
      match idmap_PutNew ctx key docID m with
      | (m', Some e) => (m', Fail e)
      | (m', None) => (m', Ok (0, false))
      end
  | IDelete key => idmap_Delete ctx key m
  end.

(** The same operation on the abstract finite map. *)
Definition map_exec (c : idmap_cmd) (v : gmap bytes Z) : gmap bytes Z * (Z * bool) :=
  match c with
  | IGet key => (v, lookup_result (v !! key))
  | IPut key docID => (<[key:=docID]> v, lookup_result (v !! key))
  | IPutNew key docID => (<[key:=docID]> v, (0, false))
  | IDelete key => (delete key v, lookup_result (v !! key))
  end.

Definition cmd_key (c : idmap_cmd) : bytes :=
  match c with IGet k | IPut k _ | IPutNew k _ | IDelete k => k end.

(** The caller's obligations: document IDs are 64-bit, and a key given to
    [PutNew] is new. *)
Definition cmd_pre (c : idmap_cmd) (v : gmap bytes Z) : Prop :=
  match c with
  | IPut _ d => is_u64 d
  | IPutNew k d => is_u64 d /\ v !! k = None
  | _ => True
  end.

Fixpoint idmap_run {DB} `{KVStore DB} (cs : list idmap_cmd) (m : PrimaryKeyMap DB)
    : PrimaryKeyMap DB * list (result (Z * bool)) :=
  match cs with
  | [] => (m, [])
  | c :: cs =>
      let '(m', r) := idmap_exec CtxLive c m in
      let '(m'', rs) := idmap_run cs m' in (m'', r :: rs)
  end.

Fixpoint map_run (cs : list idmap_cmd) (v : gmap bytes Z) : gmap bytes Z * list (Z * bool) :=
  match cs with
  | [] => (v, [])
  | c :: cs =>
      let '(v', r) := map_exec c v in
      let '(v'', rs) := map_run cs v' in (v'', r :: rs)
  end.

Fixpoint cmds_pre (cs : list idmap_cmd) (v : gmap bytes Z) : Prop :=
  match cs with
  | [] => True
  | c :: cs => valid_key (cmd_key c) /\ cmd_pre c v /\ cmds_pre cs (map_exec c v).1
  end.

Section idmap_refinement.
Context {DB : Type} `{Hkv : KVStore DB} {Hlaws : KVStoreLaws DB}.
Implicit Types (m : PrimaryKeyMap DB) (db : DB).

Lemma getLocked_fault m db key e :
  idmap_inv m -> pk_db m = Some db -> getLocked db m key = Fail e -> store_fails (DB := DB).
Proof.
  intros [Hmode (db' & Hdb' & Hent) _] Hdb Hget. rewrite Hdb in Hdb'. simplify_eq.
  unfold getLocked in Hget. case_in Hget; [done|]. clear E.
  destruct (pk_overlay m ≫= lookup key); [done|]. unfold getPrimaryDocID in Hget.
  destruct (kv_Get db' key) as [o|] eqn:E; [|left; eauto]. apply kv_get_view in E as ->.
  destruct (kv_view db' !! key) as [v|] eqn:Ev; [|done]. apply Hent in Ev as [_ Ev].
  by rewrite Ev in Hget.
Qed.

Lemma ctx_guard_Some text ctx e : ctx_guard text ctx = Some e -> ctx <> CtxLive.
Proof. by intros H ->. Qed.

Lemma idmap_store_fault db m key docID text e :
  idmap_store db m key docID text = Fail e -> store_fails (DB := DB).
Proof.
  unfold idmap_store. intros H. destruct (pk_overlay m); [done|].
  destruct (kv_Set db key _) eqn:E; [done|]. right. left. eauto.
Qed.

Lemma valid_key_dec key : ValidatePrimaryKey key = Ok tt \/ exists e, ValidatePrimaryKey key = Fail e.
Proof. destruct (ValidatePrimaryKey key) as [[]|]; eauto. Qed.

(** Every operation either fails, changing nothing, for one of the faults
    above, or does what it does to the finite map. *)
Lemma idmap_exec_spec ctx c m m' r :
  idmap_inv m -> cmd_pre c (idmap_view m) -> idmap_exec ctx c m = (m', r) ->
  match r with
  | Fail _ => m' = m /\ idmap_fault (DB := DB) ctx (cmd_key c)
  | Ok out => (idmap_view m', out) = map_exec c (idmap_view m) /\ idmap_inv m'
  end.
Proof.
  intros Hinv Hpre Hex. pose proof (ii_entries _ Hinv) as (db & Hdb & _).
  destruct c as [key|key d|key d|key]; simpl in *.
  - injection Hex as <- <-. destruct (idmap_Get m key) as [r|e] eqn:E.
    + apply idmap_Get_spec in E as ->; done.
    + split; [done|]. right. right. unfold idmap_Get in E. rewrite Hdb in E. by eapply getLocked_fault.
  - destruct r as [out|e].
    { apply idmap_Put_spec in Hex as (_ & -> & -> & ?); done. }
    split; [by apply idmap_Put_spec in Hex|]. unfold idmap_Put in Hex.
    destruct (ctx_guard _ ctx) eqn:Ec; [left; by eapply ctx_guard_Some|].
    destruct (valid_key_dec key) as [Hk|[e' Hk]]; [|right; left; unfold valid_key; congruence].
    right; right. rewrite Hk, Hdb in Hex.
    destruct (getLocked db m key) as [[prev found]|] eqn:Eg; [|by eapply getLocked_fault].
    destruct (idmap_store db m key d _) eqn:Es; [|by eapply idmap_store_fault]. by destruct found.
  - destruct Hpre as [Hd Hnew]. destruct (idmap_PutNew ctx key d m) as [m1 [e|]] eqn:E;
      injection Hex as <- <-.
    2:{ apply idmap_PutNew_spec in E as (_ & -> & ?); done. }
    split; [by apply idmap_PutNew_spec in E|]. unfold idmap_PutNew in E.
    destruct (ctx_guard _ ctx) eqn:Ec; [left; by eapply ctx_guard_Some|].
    destruct (valid_key_dec key) as [Hk|[e' Hk]]; [|right; left; unfold valid_key; congruence].
    right; right. rewrite Hk, Hdb in E.
    destruct (idmap_store db m key d _) eqn:Es; [done|by eapply idmap_store_fault].
  - destruct r as [out|e].
    { apply idmap_Delete_spec in Hex as (_ & -> & -> & ?); done. }
    split; [by apply idmap_Delete_spec in Hex|]. unfold idmap_Delete in Hex.
    destruct (ctx_guard _ ctx) eqn:Ec; [left; by eapply ctx_guard_Some|].
    destruct (valid_key_dec key) as [Hk|[e' Hk]]; [|right; left; unfold valid_key; congruence].
    right; right. rewrite Hk, Hdb in Hex.
    destruct (getLocked db m key) as [[prev [|]]|] eqn:Eg; [|done|by eapply getLocked_fault].
    destruct (pk_overlay m); [done|]. destruct (kv_Delete db key) eqn:Es; [done|].
    right. right. eauto.
Qed.

(** *** Opening *)
Lemma scan_entries_spec entries count known r :
  scan_entries CtxLive entries count known = Ok r ->
  Forall entry_ok entries /\ r.1 = count + zlen entries /\
  r.2 = (fun k => list_to_set entries.*1 ∪ k) <$> known.
Proof.
  revert count known. induction entries as [|[k v] entries IH]; intros count known Hs; simpl in Hs.
  { simplify_eq/=. split; [constructor|]. split; [unfold zlen; simpl; lia|].
    destruct known as [s|]; simpl; [|done]. f_equal. set_solver. }
  destruct (check_entry k v) as [d|] eqn:Ec; [|done]. apply check_entry_Ok in Ec as [Hok _].
  apply IH in Hs as (Hall & Hc & Hk). split; [by constructor|].
  split; [rewrite zlen_cons; lia|]. rewrite Hk. destruct known as [s|]; simpl; [|done]. f_equal. set_solver.
Qed.

Lemma scan_entries_total entries count known :
  Forall entry_ok entries -> is_ok (scan_entries CtxLive entries count known).
Proof.
  intros Hall. revert count known. induction Hall as [|[k v] entries [Hk Hv] _ IH]; intros; [done|].
  cbn [scan_entries ctx_Err]. simpl in Hk, Hv. by rewrite check_entry_ok.
Qed.

Lemma entries_ok_Forall db l :
  kv_Iter db = (l, None) -> entries_ok db <-> Forall entry_ok l.
Proof.
  intros [Hs Hm]%kv_iter_view. rewrite Forall_forall. split.
  - intros Hok [k v] Hin. apply (Hok k v). rewrite <- Hm.
    apply elem_of_list_to_map_1; [by apply klt_NoDup|done].
  - intros Hall k v Hl. rewrite <- Hm in Hl. apply elem_of_list_to_map_2 in Hl. by apply (Hall (k, v)).
Qed.

Lemma base_view_size db l :
  kv_Iter db = (l, None) -> entries_ok db -> zlen l = Z.of_nat (size (base_view db)).
Proof.
  intros Hit Hok. pose proof (kv_iter_view _ _ Hit) as [Hs Hm].
  assert (dom (base_view db) = list_to_set l.*1) as Hdom.
  { rewrite <- (dom_list_to_map_L (M := gmap bytes) l), Hm. apply set_eq. intros k.
    rewrite !elem_of_dom, base_view_lookup. destruct (kv_view db !! k) as [v|] eqn:E; simpl; [|done].
    apply Hok in E as [_ Hv]. by rewrite decode_value_8. }
  rewrite <- size_dom, Hdom, size_list_to_set by by apply klt_NoDup.
  by rewrite length_fmap.
Qed.

Lemma entries_dom db l : kv_Iter db = (l, None) -> (list_to_set l.*1 : gset bytes) = dom (kv_view db).
Proof. intros [_ Hm]%kv_iter_view. by rewrite <- Hm, dom_list_to_map_L. Qed.

(** A writable open represents the checkpoint's entries. *)
Lemma OpenPrimaryKeyMap_spec ck m :
  OpenPrimaryKeyMap CtxLive ck = Ok m -> idmap_inv m /\ idmap_view m = base_view ck.
Proof.
  unfold OpenPrimaryKeyMap. simpl. intros Ho. destruct (kv_Open ck) as [db|] eqn:Eo; [|done].
  unfold scanCount in Ho. destruct (kv_Iter db) as [l err] eqn:Ei.
  destruct (scan_entries CtxLive l 0 (Some ∅)) as [[c kn]|] eqn:Es; [|done].
  destruct err; simplify_eq/=. apply scan_entries_spec in Es as (Hall & Hc & Hk); simpl in *.
  pose proof (proj2 (entries_ok_Forall db l Ei) Hall) as Hok. subst kn.
  assert (idmap_view {| pk_db := Some db; pk_count := c; pk_known := Some (list_to_set l.*1 ∪ ∅);
                        pk_overlay := None |} = base_view db) as Hv by apply merge_overlay_empty.
  split.
  - constructor; simpl; [| |rewrite Hv, <- (base_view_size db l) by done; lia].
    + intros ? [= <-]. rewrite <- (entries_dom db l Ei). set_solver.
    + by exists db.
  - rewrite Hv. unfold base_view. by rewrite (kv_open_view _ _ Eo).
Qed.

Lemma OpenPrimaryKeyMapReadOnly_spec ck m :
  OpenPrimaryKeyMapReadOnly CtxLive ck = Ok m -> idmap_inv m /\ idmap_view m = base_view ck.
Proof.
  unfold OpenPrimaryKeyMapReadOnly. simpl. intros Ho. destruct (kv_Open ck) as [db|] eqn:Eo; [|done].
  unfold scanCount in Ho. destruct (kv_Iter db) as [l err] eqn:Ei.
  destruct (scan_entries CtxLive l 0 None) as [[c kn]|] eqn:Es; [|done].
  destruct err; simplify_eq/=. apply scan_entries_spec in Es as (Hall & Hc & Hk); simpl in *.
  pose proof (proj2 (entries_ok_Forall db l Ei) Hall) as Hok.
  assert (idmap_view {| pk_db := Some db; pk_count := c; pk_known := None;
                        pk_overlay := Some ∅ |} = base_view db) as Hv by apply merge_overlay_empty.
  split.
  - constructor; simpl; [| |rewrite Hv, <- (base_view_size db l) by done; lia].
    + intros k d. by rewrite lookup_empty.
    + by exists db.
  - rewrite Hv. unfold base_view. by rewrite (kv_open_view _ _ Eo).
Qed.

Lemma CreatePrimaryKeyMap_spec :
  idmap_inv (CreatePrimaryKeyMap (DB := DB)) /\ idmap_view (CreatePrimaryKeyMap (DB := DB)) = ∅.
Proof.
  assert (idmap_view (CreatePrimaryKeyMap (DB := DB)) = ∅) as Hv.
  { unfold idmap_view, CreatePrimaryKeyMap, idmap_overlay. cbn. rewrite merge_overlay_empty.
    unfold base_view. rewrite kv_empty_view. apply omap_empty. }
  split; [|done]. constructor; simpl.
  - intros ? [= <-]. by rewrite kv_empty_view, dom_empty_L.
  - eexists. split; [done|]. intros k v. by rewrite kv_empty_view, lookup_empty.
  - by rewrite Hv, map_size_empty.
Qed.
End idmap_refinement.

(** ** Visiting every entry *)
Section idmap_foreach.
Context {DB : Type} `{Hkv : KVStore DB} {Hlaws : KVStoreLaws DB}.
Implicit Types (m : PrimaryKeyMap DB) (db : DB) (ov : gmap bytes primaryKeyDelta).

(** The calls of the visitor, for the entries of the store and then for the overlay. *)
Definition base_visit ov (e : bytes * bytes) : option (bytes * Z) :=
  match ov !! e.1 with
  | Some delta => if d_deleted delta then None else Some (e.1, d_docID delta)
  | None => Some (e.1, be_get e.2)
  end.
Definition overlay_visit (seen : gset bytes) (e : bytes * primaryKeyDelta) : option (bytes * Z) :=
  if bool_decide (e.1 ∈ seen) || d_deleted e.2 then None else Some (e.1, d_docID e.2).

Definition visit_pair {S : Type} (visit : S -> bytes -> Z -> result S) (s : S) (e : bytes * Z) : result S :=
  visit s e.1 e.2.

Lemma foreach_base_spec {S : Type} ov entries (visit : S -> bytes -> Z -> result S) seen s :
  Forall entry_ok entries ->
  exists seen', (forall k, k ∈ seen' <-> k ∈ seen \/ (k ∈ entries.*1 /\ is_Some (ov !! k))) /\
  foreach_base CtxLive ov entries visit seen s =
    match foldM (visit_pair visit) (omap (base_visit ov) entries) s with
    | Ok s' => Ok (seen', s')
    | Fail e => Fail e
    end.
Proof.
  intros Hall. revert seen s. induction Hall as [|[k v] entries [Hk Hv] _ IH]; intros seen s.
  { exists seen. split; [|done]. intros k. split; [tauto|]. intros [|[H _]]; [done|by apply elem_of_nil in H]. }
  cbn [foreach_base ctx_Err]. simpl in Hk, Hv. rewrite check_entry_ok by done.
  cbn [omap list_omap]. unfold base_visit at 1. cbn [fst snd].
  destruct (ov !! k) as [delta|] eqn:Eo.
  - assert (Hset : forall seen' : gset bytes,
      (forall k', k' ∈ seen' <-> k' ∈ {[k]} ∪ seen \/ (k' ∈ entries.*1 /\ is_Some (ov !! k'))) ->
      forall k', k' ∈ seen' <-> k' ∈ seen \/ (k' ∈ ((k, v) :: entries).*1 /\ is_Some (ov !! k'))).
    { intros seen' Hs k'. rewrite Hs. simpl. rewrite elem_of_cons, elem_of_union, elem_of_singleton.
      split; [|tauto]. intros [[->|]|[]]; try tauto. right. split; [by left|by eexists]. }
    destruct (d_deleted delta).
    + destruct (IH ({[k]} ∪ seen) s) as (seen' & Hs & ->). exists seen'. split; [by apply Hset|done].
    + cbn [foldM]. unfold visit_pair at 1. cbn [fst snd].
      destruct (visit s k (d_docID delta)) as [s1|e].
      * destruct (IH ({[k]} ∪ seen) s1) as (seen' & Hs & ->). exists seen'. split; [by apply Hset|done].
      * destruct (IH ({[k]} ∪ seen) s) as (seen' & Hs & _). exists seen'. split; [by apply Hset|done].
  - assert (Hset : forall seen' : gset bytes,
      (forall k', k' ∈ seen' <-> k' ∈ seen \/ (k' ∈ entries.*1 /\ is_Some (ov !! k'))) ->
      forall k', k' ∈ seen' <-> k' ∈ seen \/ (k' ∈ ((k, v) :: entries).*1 /\ is_Some (ov !! k'))).
    { intros seen' Hs k'. rewrite Hs. simpl. rewrite elem_of_cons.
      split; [tauto|]. intros [|[[->|] Hsome]]; try tauto. rewrite Eo in Hsome. by destruct Hsome. }
    cbn [foldM]. unfold visit_pair at 1. cbn [fst snd]. destruct (visit s k (be_get v)) as [s1|e].
    + destruct (IH seen s1) as (seen' & Hs & ->). exists seen'. split; [by apply Hset|done].
    + destruct (IH seen s) as (seen' & Hs & _). exists seen'. split; [by apply Hset|done].
Qed.

Lemma foreach_overlay_spec {S : Type} order (visit : S -> bytes -> Z -> result S) seen s :
  foreach_overlay order visit seen s = foldM (visit_pair visit) (omap (overlay_visit seen) order) s.
Proof.
  revert s. induction order as [|[k d] order IH]; intros s; [done|].
  cbn [foreach_overlay omap list_omap]. unfold overlay_visit at 1. cbn [fst snd].
  destruct (bool_decide (k ∈ seen) || d_deleted d); [apply IH|]. cbn [foldM].
  unfold visit_pair at 1. cbn [fst snd]. destruct (visit s k (d_docID d)); [apply IH|done].
Qed.

(** Choosing entries by a function that keeps the key keeps keys distinct. *)
Lemma NoDup_omap_keys {A B} (f : bytes * A -> option (bytes * B)) l :
  (forall x y, f x = Some y -> y.1 = x.1) -> NoDup l.*1 -> NoDup (omap f l).*1.
Proof.
  intros Hf. induction l as [|x l IH]; intros Hnd; [constructor|].
  cbn [fmap list_fmap] in Hnd. apply NoDup_cons in Hnd as [Hni Hnd]. cbn [omap list_omap].
  destruct (f x) as [y|] eqn:E; [|by apply IH]. cbn [fmap list_fmap]. apply NoDup_cons. split; [|by apply IH].
  rewrite (Hf _ _ E). intros (z & Hz & Hin)%list_elem_of_fmap. apply Hni.
  apply list_elem_of_omap in Hin as (w & Hw & Hfw). rewrite Hz, (Hf _ _ Hfw). apply list_elem_of_fmap. eauto.
Qed.

Lemma base_visit_key ov e y : base_visit ov e = Some y -> y.1 = e.1.
Proof. unfold base_visit. intros H. repeat case_in H; by simplify_eq. Qed.

Lemma overlay_visit_key seen e y : overlay_visit seen e = Some y -> y.1 = e.1.
Proof. unfold overlay_visit. intros H. repeat case_in H; by simplify_eq. Qed.

(** The visits are the entries of the represented mapping, each once. *)
Lemma visits_view m db l seen' order :
  idmap_inv m -> pk_db m = Some db -> kv_Iter db = (l, None) ->
  (forall k, k ∈ seen' <-> k ∈ (∅ : gset bytes) \/ (k ∈ l.*1 /\ is_Some (idmap_overlay m !! k))) ->
  order ≡ₚ map_to_list (idmap_overlay m) ->
  omap (base_visit (idmap_overlay m)) l ++ omap (overlay_visit seen') order ≡ₚ map_to_list (idmap_view m).
Proof.
  intros Hinv Hdb Hit Hseen Horder. pose proof (kv_iter_view _ _ Hit) as [Hsort Hmap].
  pose proof (ii_entries _ Hinv) as (db' & Hdb' & Hok). rewrite Hdb in Hdb'. injection Hdb' as <-.
  pose proof (klt_NoDup _ Hsort) as Hnd.
  assert (Hndo : NoDup order.*1) by (rewrite Horder; apply NoDup_fst_map_to_list).
  assert (Hl : forall k v, (k, v) ∈ l <-> kv_view db !! k = Some v).
  { intros k v. rewrite <- Hmap. apply elem_of_list_to_map. done. }
  apply NoDup_Permutation; [|apply NoDup_map_to_list|].
  - apply (NoDup_fmap_1 fst). rewrite fmap_app. apply NoDup_app. split.
    { eapply NoDup_omap_keys; [apply base_visit_key|done]. } split.
    2:{ eapply NoDup_omap_keys; [apply overlay_visit_key|done]. }
    intros k (y & -> & Hy)%list_elem_of_fmap (z & Hz & Hin)%list_elem_of_fmap.
    apply list_elem_of_omap in Hy as (e & He & Hye). apply base_visit_key in Hye.
    apply list_elem_of_omap in Hin as ([k d] & Hd & Hzd). pose proof (overlay_visit_key _ _ _ Hzd) as Hk.
    unfold overlay_visit in Hzd. rewrite Horder in Hd. apply elem_of_map_to_list in Hd. simpl in *.
    destruct (bool_decide (k ∈ seen')) eqn:Eb; [done|]. apply bool_decide_eq_false in Eb. apply Eb, Hseen.
    right. split; [|by eexists]. apply list_elem_of_fmap. exists e. split; [congruence|done].
  - intros [k d]. rewrite elem_of_app, elem_of_map_to_list, (idmap_view_lookup m db), base_view_lookup by done.
    rewrite !list_elem_of_omap. split.
    + intros [([k' v] & Hin & Hb)|([k' delta] & Hin & Hb)].
      * pose proof (base_visit_key _ _ _ Hb) as Hk. simpl in Hk. subst k'. apply Hl in Hin. rewrite Hin.
        pose proof (Hok _ _ Hin) as [_ Hlen]. unfold base_visit in Hb. simpl in *. rewrite decode_value_8 by done.
        destruct (idmap_overlay m !! k) as [delta|]; simpl; [destruct (d_deleted delta)|]; by simplify_eq.
      * pose proof (overlay_visit_key _ _ _ Hb) as Hk. simpl in Hk. subst k'. rewrite Horder in Hin.
        apply elem_of_map_to_list in Hin. rewrite Hin. unfold overlay_visit in Hb. simpl in *.
        destruct (d_deleted delta); [by rewrite orb_true_r in Hb|]. case_in Hb; by simplify_eq.
    + intros Hv. destruct (kv_view db !! k) as [v|] eqn:Ek; simpl in Hv.
      * left. exists (k, v). split; [by apply Hl|]. unfold base_visit. simpl.
        pose proof (Hok _ _ Ek) as [_ Hlen]. rewrite decode_value_8 in Hv by done.
        destruct (idmap_overlay m !! k) as [delta|]; simpl in Hv; [destruct (d_deleted delta)|]; by simplify_eq.
      * right. destruct (idmap_overlay m !! k) as [delta|] eqn:Ed; [|done]. exists (k, delta).
        split; [rewrite Horder; by apply elem_of_map_to_list|]. unfold overlay_visit. simpl in *.
        rewrite bool_decide_eq_false_2; [destruct (d_deleted delta); by simplify_eq|].
        rewrite Hseen. intros [H|[(e & -> & He)%list_elem_of_fmap _]]; [set_solver|].
        destruct e as [k' v']. apply Hl in He. simpl in *. congruence.
Qed.
End idmap_foreach.

(** ** Properties *)
Lemma klt_keys {V} (l : list (bytes * V)) : StronglySorted klt l -> StronglySorted bytes_lt l.*1.
Proof.
  induction 1 as [|x l Hs IH Hx]; constructor; [done|].
  apply Forall_forall. intros k (e & -> & He)%list_elem_of_fmap. rewrite Forall_forall in Hx. by apply Hx.
Qed.

Section idmap_properties.
Context {DB : Type} `{Hkv : KVStore DB} {Hlaws : KVStoreLaws DB}.

Lemma idmap_run_spec cs (m m' : PrimaryKeyMap DB) rs :
  ~ store_fails (DB := DB) -> idmap_inv m -> cmds_pre cs (idmap_view m) ->
  idmap_run cs m = (m', rs) ->
  exists outs, rs = Ok <$> outs /\ (idmap_view m', outs) = map_run cs (idmap_view m) /\ idmap_inv m'.
Proof.
  intros Hstore. revert m rs. induction cs as [|c cs IH]; intros m rs Hinv Hpre Hrun.
  { simplify_eq/=. by exists []. }
  cbn [idmap_run] in Hrun. destruct (idmap_exec CtxLive c m) as [m1 r] eqn:Ex.
  destruct (idmap_run cs m1) as [m2 rs2] eqn:Er. injection Hrun as <- <-.
  destruct Hpre as (Hk & Hc & Hpre).
  apply (idmap_exec_spec CtxLive c m m1 r Hinv Hc) in Ex. destruct r as [out|e].
  2:{ destruct Ex as [_ [|[|]]]; congruence. }
  destruct Ex as [Hexec Hinv1]. rewrite <- Hexec in Hpre.
  destruct (IH _ _ Hinv1 Hpre Er) as (outs & -> & Hout & Hinv2).
  exists (out :: outs). split; [done|]. split; [|done].
  cbn [map_run]. rewrite <- Hexec, <- Hout. done.
Qed.
End idmap_properties.

(** C30: On a store whose calls do not fail, every sequence of [Get], [Put],
    [PutNew] and [Delete] with valid keys on a well-formed map (writable or
    read-only) succeeds and answers exactly what the same sequence answers on
    the abstract finite map; the resulting map represents the resulting finite
    map, and its cached count is that map's size. *)
Theorem idmap_refines_map {DB} `{Hkv : KVStore DB} {Hlaws : KVStoreLaws DB} cs (m m' : PrimaryKeyMap DB) rs :
  ~ store_fails (DB := DB) -> idmap_inv m -> cmds_pre cs (idmap_view m) ->
  idmap_run cs m = (m', rs) ->
  exists outs, rs = Ok <$> outs /\ map_run cs (idmap_view m) = (idmap_view m', outs) /\
    idmap_Count m' = Z.of_nat (size (idmap_view m')) /\ idmap_inv m'.
Proof.
  intros Hs Hinv Hpre Hrun. destruct (idmap_run_spec _ _ _ _ Hs Hinv Hpre Hrun) as (outs & Hr & Ho & Hi).
  exists outs. split; [done|]. split; [done|]. split; [apply Hi|done].
Qed.

Lemma mem_store_reliable : ~ store_fails (DB := gmap bytes bytes).
Proof. intros [(db & k & e & H)|[(db & k & v & e & H)|(db & k & e & H)]]; discriminate H. Qed.

Definition ex_key (b : byte) : bytes := [b].
Definition ex_cmds : list idmap_cmd :=
  [IPut (ex_key x61) 7; IPutNew (ex_key x62) 8; IPut (ex_key x61) 9; IGet (ex_key x61);
   IDelete (ex_key x62); IGet (ex_key x62)].
Definition ex_idmap : PrimaryKeyMap (gmap bytes bytes) := CreatePrimaryKeyMap.

Lemma ex_idmap_inv : idmap_inv ex_idmap.
Proof. apply CreatePrimaryKeyMap_spec. Qed.

Lemma ex_idmap_view : idmap_view ex_idmap = ∅.
Proof. apply CreatePrimaryKeyMap_spec. Qed.

Lemma idmap_refines_map_witness :
  exists outs, (idmap_run ex_cmds ex_idmap).2 = Ok <$> outs /\
    outs = [(0, false); (0, false); (7, true); (9, true); (8, true); (0, false)].
Proof.
  destruct (idmap_refines_map ex_cmds ex_idmap _ _ mem_store_reliable ex_idmap_inv
    ltac:(rewrite ex_idmap_view; vm_compute; intuition congruence)
    (surjective_pairing _)) as (outs & H1 & H2 & _ & _).
  exists outs. split; [exact H1|].
  rewrite ex_idmap_view in H2. apply (f_equal snd) in H2. simpl in H2. rewrite <- H2. vm_compute. reflexivity.
Defined.

(** An IDMap operation that reports an error has changed nothing, and it
    reports one only for a missing or cancelled context, an invalid primary
    key, or a failed store call; otherwise it does what it does on the finite
    map. *)
Theorem idmap_error_atomic {DB} `{Hkv : KVStore DB} {Hlaws : KVStoreLaws DB} ctx c (m m' : PrimaryKeyMap DB) r :
  idmap_inv m -> cmd_pre c (idmap_view m) -> idmap_exec ctx c m = (m', r) ->
  match r with
  | Fail _ => m' = m /\ (ctx <> CtxLive \/ ~ valid_key (cmd_key c) \/ store_fails (DB := DB))
  | Ok out => map_exec c (idmap_view m) = (idmap_view m', out) /\ idmap_inv m'
  end.
Proof.
  intros Hinv Hpre Hex. pose proof (idmap_exec_spec ctx c m m' r Hinv Hpre Hex) as Hs.
  destruct r; [|done]. by destruct Hs as [<- ?].
Qed.

Lemma idmap_error_atomic_witness :
  (idmap_exec CtxLive (IPut [] 3) ex_idmap).1 = ex_idmap.
Proof.
  exact (proj1 (idmap_error_atomic CtxLive (IPut [] 3) ex_idmap _
    (Fail (errors_New "db: primary key is empty")) ex_idmap_inv
    ltac:(unfold cmd_pre, is_u64, u64_max; lia) eq_refl)).
Defined.

Lemma scan_entries_Ok entries count known :
  Forall entry_ok entries -> exists r, scan_entries CtxLive entries count known = Ok r.
Proof.
  intros Hall. pose proof (scan_entries_total entries count known Hall) as Ht.
  destruct (scan_entries CtxLive entries count known); [eauto|done].
Qed.

Lemma idmap_Checkpoint_view {DB} `{Hkv : KVStore DB} {Hlaws : KVStoreLaws DB} (m : PrimaryKeyMap DB) ck :
  idmap_inv m -> idmap_Checkpoint CtxLive m = Ok ck -> entries_ok ck /\ base_view ck = idmap_view m.
Proof.
  intros Hinv Hck. pose proof (ii_entries _ Hinv) as (db0 & Hdb & Hok).
  unfold idmap_Checkpoint in Hck. simpl in Hck. unfold idmap_view, idmap_overlay, entries_ok. rewrite Hdb in *.
  destruct (pk_overlay m); [done|]. destruct (kv_Checkpoint db0) eqn:E; simplify_eq.
  apply kv_checkpoint_view in E. simpl. rewrite merge_overlay_empty. unfold base_view. by rewrite E.
Qed.

(** A store of well-formed entries opens, for writing and read-only. *)
Lemma idmap_open_entries {DB} `{Hkv : KVStore DB} {Hlaws : KVStoreLaws DB} (ck db : DB) l :
  entries_ok ck -> kv_Open ck = Ok db -> kv_Iter db = (l, None) ->
  exists m1 m2, OpenPrimaryKeyMap CtxLive ck = Ok m1 /\ OpenPrimaryKeyMapReadOnly CtxLive ck = Ok m2.
Proof.
  intros Hok Hopen Hit. assert (Forall entry_ok l) as Hall.
  { apply (entries_ok_Forall db l Hit). unfold entries_ok. by rewrite (kv_open_view _ _ Hopen). }
  destruct (scan_entries_Ok l 0 (Some ∅) Hall) as [[c1 k1] E1]. destruct (scan_entries_Ok l 0 None Hall) as [[c2 k2] E2].
  unfold OpenPrimaryKeyMap, OpenPrimaryKeyMapReadOnly, scanCount. simpl. rewrite Hopen, Hit, E1, E2. eauto.
Qed.

(** C40: A checkpoint of a map can be opened again, for writing and read-only,
    whenever the store opens and iterates without error; either map represents
    the same finite map as the original, with the same count, and satisfies the
    invariant. *)
Theorem idmap_checkpoint_open {DB} `{Hkv : KVStore DB} {Hlaws : KVStoreLaws DB} (m : PrimaryKeyMap DB) ck db l :
  idmap_inv m -> idmap_Checkpoint CtxLive m = Ok ck -> kv_Open ck = Ok db -> kv_Iter db = (l, None) ->
  exists m1 m2, OpenPrimaryKeyMap CtxLive ck = Ok m1 /\ OpenPrimaryKeyMapReadOnly CtxLive ck = Ok m2 /\
    Forall (fun m' => idmap_view m' = idmap_view m /\ idmap_Count m' = idmap_Count m /\ idmap_inv m') [m1; m2].
Proof.
  intros Hinv Hck Hopen Hit. destruct (idmap_Checkpoint_view m ck Hinv Hck) as [Hok Hv].
  destruct (idmap_open_entries ck db l Hok Hopen Hit) as (m1 & m2 & H1 & H2). exists m1, m2. split; [done|]. split; [done|].
  assert (Hm' : forall m', idmap_inv m' /\ idmap_view m' = base_view ck ->
            idmap_view m' = idmap_view m /\ idmap_Count m' = idmap_Count m /\ idmap_inv m').
  { intros m' [Hi Hv']. split; [by rewrite Hv', Hv|]. split; [|done]. unfold idmap_Count.
    by rewrite (ii_count _ Hi), (ii_count _ Hinv), Hv', Hv. }
  constructor; [by apply Hm', OpenPrimaryKeyMap_spec|].
  constructor; [by apply Hm', OpenPrimaryKeyMapReadOnly_spec|constructor].
Qed.

Definition ex_idmap2 : PrimaryKeyMap (gmap bytes bytes) := (idmap_Put CtxLive (ex_key x61) 7 ex_idmap).1.
Lemma ex_idmap2_inv : idmap_inv ex_idmap2.
Proof.
  pose proof (idmap_Put_spec CtxLive (ex_key x61) 7 ex_idmap _ _ ex_idmap_inv
    ltac:(unfold is_u64, u64_max; lia) (surjective_pairing _)) as H.
  change ((idmap_Put CtxLive (ex_key x61) 7 ex_idmap).2) with (Ok (0, false) : result (Z * bool)) in H. apply H.
Qed.

Definition ex_ck : gmap bytes bytes := default ∅ (pk_db ex_idmap2).

Lemma idmap_checkpoint_open_witness :
  exists m1, OpenPrimaryKeyMap CtxLive ex_ck = Ok m1 /\ idmap_view m1 = idmap_view ex_idmap2.
Proof.
  destruct (idmap_checkpoint_open ex_idmap2 ex_ck ex_ck _ ex_idmap2_inv eq_refl eq_refl eq_refl)
    as (m1 & m2 & H1 & _ & Hall).
  exists m1. split; [exact H1|]. by apply Forall_inv in Hall as [? _].
Defined.

(** A snapshot iterator over a well-formed map yields, by repeated [Next],
    exactly the entries of the represented finite map in strictly ascending key
    order, overlay entries and deletions merged in, and then reports the end. *)
Theorem snapshot_iterator_sorted {DB} `{Hkv : KVStore DB} {Hlaws : KVStoreLaws DB} (m : PrimaryKeyMap DB) i :
  idmap_inv m -> NewSnapshotIterator m = Ok i -> si_baseErr i = None ->
  exists fuel, iterator_collect fuel i = Some (Ok (sorted_entries (idmap_view m))).
Proof.
  intros Hinv Hnew Herr. pose proof (ii_entries _ Hinv) as (db & Hdb & Hok).
  unfold NewSnapshotIterator in Hnew. rewrite Hdb in Hnew. destruct (kv_Iter db) as [l err] eqn:Hit.
  assert (i = {| si_base := l; si_baseErr := None; si_overlay := idmap_overlay m;
                 si_overlayKeys := (sorted_entries (idmap_overlay m)).*1; si_closed := false |} /\ err = None)
    as [-> ->].
  { destruct l, err; simplify_eq/=; done. }
  pose proof (kv_iter_view _ _ Hit) as [Hs Hm].
  destruct (iterator_collect_spec (idmap_overlay m) (S (length l + length (sorted_entries (idmap_overlay m)).*1))
    l (sorted_entries (idmap_overlay m)).*1) as (out & Hcol & Hso & Hlo & _); [|lia|].
  - constructor.
    + done.
    + apply klt_keys, sorted_entries_sorted.
    + by eapply entries_ok_Forall.
    + apply Forall_forall. intros k (e & -> & He)%list_elem_of_fmap. destruct e as [k d].
      rewrite sorted_entries_perm in He. apply elem_of_map_to_list in He. simpl. split; [|by eexists].
      pose proof (ii_mode _ Hinv) as Hmode. unfold idmap_overlay in He.
      destruct (pk_known m), (pk_overlay m) as [ov|]; try done; simpl in He.
      by apply Hmode in He as [? _].
  - eexists. rewrite Hcol. do 2 f_equal. apply sorted_entries_unique; [done|].
    apply map_eq. intros k. rewrite Hlo, (idmap_view_lookup m db), base_view_lookup by done.
    unfold rem_view. rewrite Hm. f_equal. destruct (decide _) as [Hin|Hni]; [done|].
    destruct (idmap_overlay m !! k) as [d|] eqn:E; [|done]. exfalso. apply Hni.
    apply list_elem_of_fmap. exists (k, d). split; [done|]. rewrite sorted_entries_perm.
    by apply elem_of_map_to_list.
Qed.

Lemma snapshot_iterator_sorted_witness :
  exists i fuel, NewSnapshotIterator ex_idmap2 = Ok i /\
    iterator_collect fuel i = Some (Ok (sorted_entries (idmap_view ex_idmap2))).
Proof.
  eexists. destruct (snapshot_iterator_sorted ex_idmap2 _ ex_idmap2_inv eq_refl eq_refl) as [fuel H].
  exists fuel. split; [reflexivity|exact H].
Defined.

Lemma foreach_visits {DB} `{Hkv : KVStore DB} {Hlaws : KVStoreLaws DB} {S : Type}
    (m : PrimaryKeyMap DB) db l order (visit : S -> bytes -> Z -> result S) s :
  idmap_inv m -> pk_db m = Some db -> kv_Iter db = (l, None) ->
  order ≡ₚ map_to_list (idmap_overlay m) ->
  exists visits, visits ≡ₚ map_to_list (idmap_view m) /\
    idmap_ForEach CtxLive order m visit s = foldM (visit_pair visit) visits s.
Proof.
  intros Hinv Hdb Hit Horder. pose proof (ii_entries _ Hinv) as (db' & Hdb' & Hok).
  rewrite Hdb in Hdb'. injection Hdb' as <-.
  destruct (foreach_base_spec (idmap_overlay m) l visit ∅ s) as (seen & Hseen & Hbase);
    [by eapply entries_ok_Forall|].
  exists (omap (base_visit (idmap_overlay m)) l ++ omap (overlay_visit seen) order).
  split; [by eapply visits_view|].
  unfold idmap_ForEach. rewrite Hdb, Hit, Hbase, foldM_app.
  destruct (foldM (visit_pair visit) (omap _ l) s) as [s1|]; [|done]. apply foreach_overlay_spec.
Qed.

(** [ForEach], over a store whose iteration ends without error, calls the
    visitor on exactly the entries of the represented finite map, each once,
    and stops at the visitor's first error. *)
Theorem idmap_foreach_visits {DB} `{Hkv : KVStore DB} {Hlaws : KVStoreLaws DB} {S : Type}
    (m : PrimaryKeyMap DB) db l order (visit : S -> bytes -> Z -> result S) s :
  idmap_inv m -> pk_db m = Some db -> kv_Iter db = (l, None) ->
  order ≡ₚ map_to_list (idmap_overlay m) ->
  exists visits, visits ≡ₚ map_to_list (idmap_view m) /\
    idmap_ForEach CtxLive order m visit s = foldM (visit_pair visit) visits s.
Proof. apply foreach_visits. Qed.

Lemma idmap_foreach_visits_witness :
  exists visits, visits ≡ₚ map_to_list (idmap_view ex_idmap2) /\
    idmap_ForEach CtxLive [] ex_idmap2 (fun n _ d => Ok (n + d)) 0 =
      foldM (visit_pair (fun n _ d => Ok (n + d))) visits 0.
Proof.
  refine (idmap_foreach_visits (S := Z) ex_idmap2 _ _ [] (fun n _ d => Ok (n + d)) 0 ex_idmap2_inv
    eq_refl eq_refl _).
  vm_compute. reflexivity.
Defined.
