(* ===== verification/Paths.v ===== *)
(** * Portable relative paths: [ValidatePortableRelativePath] of
    [internal/db/index/common/snapshot.go]

    Manifests name files by slash-separated paths relative to the collection
    directory.  [path.Clean] of the standard library is modelled by its
    documented algorithm on path components. *)
From S2P Require Import Prelude.
From Stdlib Require Import Ascii.
#[local] Open Scope Z_scope.

Definition slash : ascii := "/"%char.
Definition backslash : ascii := "\"%char.

(** The components between slashes; a path has at least one. *)
Fixpoint path_split (name : string) : list string :=
  match name with
  | EmptyString => [EmptyString]
  | String c rest =>
      if Ascii.eqb c slash then EmptyString :: path_split rest
      else match path_split rest with
           | x :: xs => String c x :: xs
           | [] => [String c EmptyString]
           end
  end.

Fixpoint path_join (components : list string) : string :=
  match components with
  | [] => EmptyString
  | [c] => c
  | c :: components => String.append c (String slash (path_join components))
  end.

Definition path_IsAbs (name : string) : bool :=
  match name with String c _ => Ascii.eqb c slash | EmptyString => false end.

(** [path.Clean]: drop empty and [.] components, let [..] cancel the component
    before it; a leading [..] stays in a relative path and vanishes at a root.
    The stack holds the components kept, the last one first. *)
Definition clean_step (rooted : bool) (stack : list string) (c : string) : list string :=
  if String.eqb c "" || String.eqb c "." then stack
  else if String.eqb c ".." then
    match stack with
    | top :: rest => if String.eqb top ".." then c :: stack else rest
    | [] => if rooted then [] else [c]
    end
  else c :: stack.

Definition path_Clean (name : string) : string :=
  let rooted := path_IsAbs name in
  let stack := fold_left (clean_step rooted) (path_split name) [] in
  let body := path_join (reverse stack) in
  if rooted then String slash body
  else if String.eqb body "" then "." else body.

Fixpoint string_contains (c : ascii) (s : string) : bool :=
  match s with
  | EmptyString => false
  | String d s => Ascii.eqb d c || string_contains c s
  end.

Definition err_path_not_portable : gerror := errors_New "file is not a clean portable relative path".

Definition ValidatePortableRelativePath (name : string) : result unit :=
  if String.eqb name "" || path_IsAbs name || negb (String.eqb (path_Clean name) name)
     || String.eqb name "." || String.prefix "../" name || string_contains backslash name
  then Fail err_path_not_portable else Ok tt.

(** A component that names a file or directory below its parent. *)
Definition plain_component (c : string) : Prop := c <> "" /\ c <> "." /\ c <> "..".

(** ** Splitting and joining *)
Lemma path_split_nonempty name : path_split name <> [].
Proof. destruct name as [|c s]; simpl; [done|]. case_if; [done|]. by destruct (path_split s). Qed.

Lemma path_join_split name : path_join (path_split name) = name.
Proof.
  induction name as [|c s IH]; [done|]. simpl. case_if.
  - apply Ascii.eqb_eq in E as ->. pose proof (path_split_nonempty s).
    destruct (path_split s) as [|x xs]; [done|]. by rewrite <- IH.
  - pose proof (path_split_nonempty s). destruct (path_split s) as [|x xs]; [done|].
    destruct xs; simpl in *; by rewrite <- IH.
Qed.

Lemma path_split_no_slash name c : c ∈ path_split name -> string_contains slash c = false.
Proof.
  revert c. induction name as [|a s IH]; intros c; simpl.
  { intros [->|H]%elem_of_cons; [done|by apply elem_of_nil in H]. }
  case_if.
  - intros [->|H]%elem_of_cons; [done|by apply IH].
  - destruct (path_split s) as [|x xs].
    + intros [->|H]%elem_of_cons; [simpl; by rewrite E|by apply elem_of_nil in H].
    + intros [->|H]%elem_of_cons; [|apply IH; by right]. simpl. rewrite E. apply IH. by left.
Qed.

Lemma path_split_no_slash_single c : string_contains slash c = false -> path_split c = [c].
Proof.
  induction c as [|a s IH]; simpl; [done|]. intros [H1 H2]%orb_false_iff. by rewrite H1, IH.
Qed.

Lemma path_split_append c s :
  string_contains slash c = false ->
  path_split (String.append c (String slash s)) = c :: path_split s.
Proof.
  induction c as [|a c IH]; [done|]. cbn [string_contains].
  intros [H1 H2]%orb_false_iff. simpl. rewrite H1. by rewrite IH.
Qed.

Lemma path_split_join cs :
  cs <> [] -> Forall (fun c => string_contains slash c = false) cs -> path_split (path_join cs) = cs.
Proof.
  intros Hne Hall. induction Hall as [|c cs Hc Hcs IH]; [done|]. destruct cs as [|d cs].
  - by apply path_split_no_slash_single.
  - change (path_join (c :: d :: cs)) with (String.append c (String slash (path_join (d :: cs)))).
    rewrite path_split_append by done. f_equal. by apply IH.
Qed.

(** ** Cleaning *)
Lemma clean_step_plain rooted stack c : plain_component c -> clean_step rooted stack c = c :: stack.
Proof.
  intros (H1 & H2 & H3). unfold clean_step.
  apply String.eqb_neq in H1, H2, H3. by rewrite H1, H2, H3.
Qed.

Lemma clean_plain rooted cs stack :
  Forall plain_component cs -> fold_left (clean_step rooted) cs stack = reverse cs ++ stack.
Proof.
  intros Hall. revert stack. induction Hall as [|c cs Hc Hcs IH]; intros stack; [done|].
  simpl. rewrite clean_step_plain, IH, reverse_cons, <- app_assoc by done. done.
Qed.

(** The stack of a relative path: plain components above leading [..]s. *)
Definition clean_stack (stack : list string) : Prop :=
  exists plain k, stack = plain ++ replicate k ".."%string /\
    Forall plain_component plain.

Lemma clean_step_stack stack c : clean_stack stack -> clean_stack (clean_step false stack c).
Proof.
  intros (plain & k & -> & Hp). unfold clean_step.
  destruct (String.eqb c "") eqn:E1; [by exists plain, k|].
  destruct (String.eqb c ".") eqn:E2; [by exists plain, k|]. cbn [orb].
  apply String.eqb_neq in E1, E2. destruct (String.eqb c "..") eqn:E3.
  - apply String.eqb_eq in E3 as ->. destruct plain as [|p plain]; simpl.
    + exists [], (S k). destruct k; done.
    + apply Forall_cons in Hp as [(H1 & H2 & H3) Hp]. apply String.eqb_neq in H3. rewrite H3.
      by exists plain, k.
  - apply String.eqb_neq in E3. exists (c :: plain), k. split; [done|]. by constructor.
Qed.

Lemma clean_fold_stack cs stack : clean_stack stack -> clean_stack (fold_left (clean_step false) cs stack).
Proof. revert stack. induction cs as [|c cs IH]; intros stack Hs; [done|]. by apply IH, clean_step_stack. Qed.

Lemma clean_step_no_slash cs stack :
  Forall (fun c => string_contains slash c = false) cs ->
  Forall (fun c => string_contains slash c = false) stack ->
  Forall (fun c => string_contains slash c = false) (fold_left (clean_step false) cs stack).
Proof.
  intros Hcs. revert stack. induction Hcs as [|c cs Hc Hcs IH]; intros stack Hs; [done|].
  apply IH. unfold clean_step. repeat case_if; try done; [|by constructor].
  destruct stack as [|x xs]; [by repeat constructor|]. apply Forall_cons in Hs as [Hx Hxs].
  case_if; [by repeat constructor|done].
Qed.

Lemma reverse_replicate {A} (x : A) k : reverse (replicate k x) = replicate k x.
Proof.
  induction k as [|k IH]; [done|]. cbn [replicate]. rewrite reverse_cons, IH.
  rewrite <- replicate_cons_app. done.
Qed.

(** [ValidatePortableRelativePath] accepts exactly the slash-separated
    sequences of plain components (none empty, [.] or [..]) without a
    backslash, and besides them the one path [..] itself. *)
Theorem portable_path_exact (name : string) :
  ValidatePortableRelativePath name = Ok tt <->
  string_contains backslash name = false /\
  (name = ".."%string \/ Forall plain_component (path_split name)).
Proof.
  unfold ValidatePortableRelativePath. split.
  - intros H. case_in H; [done|]. clear H. rename E into H. rewrite !orb_false_iff in H.
    destruct H as (((((H1 & H3) & H2) & H4) & H5) & H6).
    apply negb_false_iff, String.eqb_eq in H2. unfold path_Clean in H2. rewrite H3 in H2. cbv zeta in H2.
    set (stack := fold_left (clean_step false) (path_split name) []) in H2.
    destruct (clean_fold_stack (path_split name) []) as (plain & k & Hst & Hp); [by exists [], 0%nat|].
    fold stack in Hst. split; [done|].
    case_in H2; [by subst name|]. apply String.eqb_neq in E.
    assert (path_split name = reverse stack) as Hsplit.
    { rewrite <- H2 at 1. apply path_split_join.
      - intros Hnil. by rewrite Hnil in E.
      - apply Forall_reverse. apply clean_step_no_slash; [|constructor].
        apply Forall_forall. intros c. apply path_split_no_slash. }
    rewrite Hst, reverse_app, reverse_replicate in Hsplit.
    destruct k as [|k].
    { right. rewrite Hsplit. simpl. by apply Forall_reverse. }
    left. pose proof (path_join_split name) as Hj. rewrite Hsplit in Hj. cbn [replicate app] in Hj.
    destruct (replicate k ".."%string ++ reverse plain) as [|d ds]; [done|].
    change (path_join (".."%string :: d :: ds)) with
      (String.append "../" (path_join (d :: ds))) in Hj.
    rewrite <- Hj in H5. exfalso. clear - H5. destruct (path_join (d :: ds)); vm_compute in H5; discriminate.
  - intros [Hb [->|Hall]]; [done|].
    assert (path_IsAbs name = false) as Habs.
    { destruct name as [|c s]; [done|]. simpl in *. destruct (Ascii.eqb c slash) eqn:E; [|done].
      apply Forall_cons in Hall as [[] _]. done. }
    assert (path_Clean name = name) as Hc.
    { unfold path_Clean. rewrite Habs, clean_plain, app_nil_r, reverse_involutive, path_join_split by done.
      destruct (String.eqb name "") eqn:E; [|done]. apply String.eqb_eq in E as ->.
      apply Forall_cons in Hall as [[] _]. done. }
    rewrite Hc, String.eqb_refl, Habs, Hb. cbn [negb orb].
    destruct (String.eqb name "") eqn:E1.
    { apply String.eqb_eq in E1 as ->. apply Forall_cons in Hall as [[] _]. done. }
    destruct (String.eqb name ".") eqn:E2.
    { apply String.eqb_eq in E2 as ->. apply Forall_cons in Hall as [(_ & [] & _) _]. done. }
    destruct (String.prefix "../" name) eqn:E3; [|done]. exfalso.
    apply String.prefix_correct in E3. destruct name as [|a [|b [|c rest]]]; try done.
    simpl in E3. destruct rest; simplify_eq; simpl in Hall; apply Forall_cons in Hall as [(_ & _ & []) _]; done.
Qed.
