(* ===== verification/Snapshot.v ===== *)
(** * Snapshot files and the delete store

    [internal/db/index/common/snapshot.go] (the checksummed envelope of a
    snapshot file) and [delete_store.go] (the set of logically deleted document
    IDs and its snapshot). *)
From S2P Require Import Prelude Bytes Crc32c.
From stdpp Require Import sorting.
#[local] Open Scope Z_scope.

(** ** The envelope *)
Definition snapshotCodecVersion : Z := 1.
Definition snapshotHeaderSize : Z := 40.
Definition maxSnapshotPayload : Z := 268435456.
Definition ErrSnapshotCorrupt : gerror := errors_New "db: corrupt snapshot".
Definition snapshot_corrupt (detail : string) : gerror := GErr detail [ErrSnapshotCorrupt].

Definition encodeSnapshot (magic : bytes) (count : Z) (payload : bytes) : result bytes :=
  if maxSnapshotPayload <? zlen payload then Fail (errors_New "db: snapshot payload is too large")
  else
    let encoded := make_bytes (40 + length payload) in
    let encoded := splice 0 magic encoded in
    let encoded := splice 8 (le_put 2 snapshotCodecVersion) encoded in
    let encoded := splice 10 (le_put 2 snapshotHeaderSize) encoded in
    let encoded := splice 16 (le_put 8 count) encoded in
    let encoded := splice 24 (le_put 8 (zlen payload)) encoded in
    let encoded := splice 32 (le_put 4 (CRC32C payload)) encoded in
    let encoded := splice 36 (le_put 4 (CRC32C (slice 0 36 encoded))) encoded in
    Ok (splice 40 payload encoded).

Definition decodeSnapshot (encoded magic : bytes) : result (Z * bytes) :=
  if zlen encoded <? snapshotHeaderSize then Fail (snapshot_corrupt "file is shorter than its header")
  else if negb (bytes_eqb (slice 0 8 encoded) magic) then Fail (snapshot_corrupt "invalid magic")
  else if negb (le_get (slice 8 10 encoded) =? snapshotCodecVersion)
  then Fail (errorf "snapshot version" ErrUnsupportedFormatVersion)
  else if negb (le_get (slice 10 12 encoded) =? snapshotHeaderSize)
  then Fail (snapshot_corrupt "invalid header size")
  else if negb (le_get (slice 12 16 encoded) =? 0) then Fail (snapshot_corrupt "nonzero reserved bytes")
  else if negb (CRC32C (slice 0 36 encoded) =? le_get (slice 36 40 encoded))
  then Fail (snapshot_corrupt "header checksum")
  else let payloadLength := le_get (slice 24 32 encoded) in
  if (maxSnapshotPayload <? payloadLength) || negb (payloadLength =? zlen encoded - snapshotHeaderSize)
  then Fail (snapshot_corrupt "invalid payload length")
  else let payload := drop 40 encoded in
  if negb (CRC32C payload =? le_get (slice 32 36 encoded)) then Fail (snapshot_corrupt "payload checksum")
  else Ok (le_get (slice 16 24 encoded), payload).

(** [readSnapshotFile] of a file with the given content: its size check comes first. *)
Definition readSnapshotFile (ctx : context) (file : option bytes) (open_err : gerror) : result bytes :=
  match ctx_guard "db: nil snapshot read context" ctx with
  | Some e => Fail e
  | None =>
  match file with
  | None => Fail open_err
  | Some content =>
      if (zlen content <? snapshotHeaderSize) || (snapshotHeaderSize + maxSnapshotPayload <? zlen content)
      then Fail (snapshot_corrupt "invalid file size")
      else Ok content
  end end.

(** *** Layout *)
Definition snapshot_prefix (magic : bytes) (count len crc : Z) : bytes :=
  magic ++ le_put 2 snapshotCodecVersion ++ le_put 2 snapshotHeaderSize ++ make_bytes 4 ++
  le_put 8 count ++ le_put 8 len ++ le_put 4 crc.
Definition snapshot_header (magic : bytes) (count len crc : Z) : bytes :=
  snapshot_prefix magic count len crc ++ le_put 4 (CRC32C (snapshot_prefix magic count len crc)).

Ltac split_magic H magic :=
  destruct magic as [|?m0 [|?m1 [|?m2 [|?m3 [|?m4 [|?m5 [|?m6 [|?m7 [|? ?]]]]]]]]]; try discriminate H.

Lemma encodeSnapshot_layout magic count payload :
  length magic = 8%nat -> zlen payload <= maxSnapshotPayload ->
  encodeSnapshot magic count payload =
  Ok (snapshot_header magic count (zlen payload) (CRC32C payload) ++ payload).
Proof.
  intros Hm Hp. unfold encodeSnapshot. destruct (maxSnapshotPayload <? zlen payload) eqn:E; [to_prop; lia|].
  clear E Hp. rewrite make_bytes_add. split_magic Hm magic. f_equal.
  repeat (rewrite splice_app_l by (apply Nat.leb_le; reflexivity)).
  rewrite slice_app_l by (apply Nat.leb_le; reflexivity).
  set (h := splice 36 _ _).
  assert (h = snapshot_header [m0; m1; m2; m3; m4; m5; m6; m7] count (zlen payload) (CRC32C payload)) as ->
    by reflexivity.
  by apply (splice_tail (snapshot_header [m0; m1; m2; m3; m4; m5; m6; m7] count (zlen payload) (CRC32C payload))).
Qed.

Lemma snapshot_fields magic count len crc payload :
  length magic = 8%nat ->
  let e := snapshot_header magic count len crc ++ payload in
  slice 0 8 e = magic /\ slice 8 10 e = le_put 2 snapshotCodecVersion /\
  slice 10 12 e = le_put 2 snapshotHeaderSize /\ slice 12 16 e = make_bytes 4 /\
  slice 16 24 e = le_put 8 count /\ slice 24 32 e = le_put 8 len /\ slice 32 36 e = le_put 4 crc /\
  slice 36 40 e = le_put 4 (CRC32C (snapshot_prefix magic count len crc)) /\
  slice 0 36 e = snapshot_prefix magic count len crc /\ drop 40 e = payload /\ zlen e = 40 + zlen payload.
Proof.
  intros Hm e. split_magic Hm magic. unfold e.
  rewrite !slice_app_l by (apply Nat.leb_le; reflexivity).
  repeat (split; [reflexivity|]). rewrite zlen_app. reflexivity.
Qed.

Lemma decode_snapshot_layout magic count payload :
  length magic = 8%nat -> is_u64 count -> zlen payload <= maxSnapshotPayload ->
  decodeSnapshot (snapshot_header magic count (zlen payload) (CRC32C payload) ++ payload) magic =
  Ok (count, payload).
Proof.
  intros Hm Hc Hp. unfold decodeSnapshot.
  destruct (snapshot_fields magic count (zlen payload) (CRC32C payload) payload Hm)
    as (-> & -> & -> & -> & -> & -> & -> & -> & -> & -> & ->).
  assert (is_u64 (zlen payload)) as Hlen.
  { pose proof (zlen_nonneg payload). unfold is_u64, u64_max, maxSnapshotPayload in *. lia. }
  rewrite (le_get_put2 snapshotCodecVersion), (le_get_put2 snapshotHeaderSize) by (vm_compute; split; discriminate).
  rewrite !le_get_put8, !le_get_put4 by (done || apply CRC32C_range).
  change (le_get (make_bytes 4)) with 0. rewrite bytes_eqb_refl, !Z.eqb_refl. unfold snapshotHeaderSize.
  replace (40 + zlen payload - 40) with (zlen payload) by lia. rewrite Z.eqb_refl.
  destruct (40 + zlen payload <? 40) eqn:E1; [to_prop; pose proof (zlen_nonneg payload); lia|].
  destruct (maxSnapshotPayload <? zlen payload) eqn:E2; [to_prop; lia|]. done.
Qed.

(** A snapshot that decodes has the layout of an encoding. *)
Lemma decodeSnapshot_inv magic encoded count payload :
  length magic = 8%nat -> decodeSnapshot encoded magic = Ok (count, payload) ->
  encoded = snapshot_header magic count (zlen payload) (CRC32C payload) ++ payload /\
  is_u64 count /\ zlen payload <= maxSnapshotPayload.
Proof.
  intros Hm. unfold decodeSnapshot. intros H.
  repeat (case_in H; [discriminate H|]). injection H as <- <-. to_prop.
  assert (40 <= length encoded)%nat as Hlen by (unfold zlen, snapshotHeaderSize in *; lia).
  assert (zlen (drop 40 encoded) = zlen encoded - 40) as Hd.
  { unfold zlen. rewrite length_drop. lia. }
  assert (slice 0 36 encoded = snapshot_prefix magic (le_get (slice 16 24 encoded))
            (zlen (drop 40 encoded)) (CRC32C (drop 40 encoded))) as Hp.
  { rewrite (slice_split 0 8 36), (slice_split 8 10 36), (slice_split 10 12 36), (slice_split 12 16 36),
      (slice_split 16 24 36), (slice_split 24 32 36) by lia.
    unfold snapshot_prefix. f_equal; [by apply bytes_eqb_eq|].
    f_equal; [by apply (slice_le_get 8 10); [lia|]|].
    f_equal; [by apply (slice_le_get 10 12); [lia|]|].
    f_equal; [rewrite (slice_le_get 12 16 encoded 0) by (lia || done); done|].
    f_equal; [by apply (slice_le_put 16 24); lia|].
    f_equal; [apply (slice_le_get 24 32); [lia|rewrite Hd; unfold snapshotHeaderSize in *; lia]|].
    by apply (slice_le_get 32 36); [lia|]. }
  split; [|split].
  - rewrite <- (take_drop 40 encoded) at 1. f_equal. rewrite take_slice, (slice_split 0 36 40) by lia.
    unfold snapshot_header. rewrite <- Hp. f_equal. by apply (slice_le_get 36 40); [lia|].
  - apply le_get_u64. by rewrite length_slice by lia.
  - rewrite Hd. unfold snapshotHeaderSize in *. lia.
Qed.

(** ** The delete store *)
Definition deleteSnapshotMagic : bytes := byte_of_Z <$> [90; 86; 69; 67; 68; 69; 76; 0].

(** [deleted], a Go map with empty values. *)
Definition DeleteStore : Type := gset Z.
Definition NewDeleteStore : DeleteStore := ∅.

Definition MarkDeleted (ctx : context) (docID : Z) (s : DeleteStore) : DeleteStore * result bool :=
  match ctx_guard "db: nil delete context" ctx with
  | Some e => (s, Fail e)
  | None => ({[docID]} ∪ s, Ok (negb (bool_decide (docID ∈ s))))
  end.

Definition DeleteStore_Restore (ctx : context) (docID : Z) (s : DeleteStore) : DeleteStore * result bool :=
  match ctx_guard "db: nil restore context" ctx with
  | Some e => (s, Fail e)
  | None => (s ∖ {[docID]}, Ok (bool_decide (docID ∈ s)))
  end.

Definition IsDeleted (s : DeleteStore) (docID : Z) : bool := bool_decide (docID ∈ s).
Definition DeleteStore_Count (s : DeleteStore) : Z := Z.of_nat (size s).
Definition RangeCount (s : DeleteStore) (minDocID maxDocID : Z) : Z :=
  if maxDocID <? minDocID then 0
  else Z.of_nat (size (filter (fun d => minDocID <= d <= maxDocID) s)).
Definition DeleteStore_Clone (s : DeleteStore) : DeleteStore := s.

(** [slices.Sort] over the IDs of the map. *)
Definition sorted_ids (s : DeleteStore) : list Z := merge_sort Z.le (elements s).

(** [Range]: the visitor says whether to go on. *)
Fixpoint range_ids {S : Type} (ids : list Z) (yield : S -> Z -> S * bool) (st : S) : S :=
  match ids with
  | [] => st
  | docID :: ids =>
      match yield st docID with
      | (st, true) => range_ids ids yield st
      | (st, false) => st
      end
  end.
Definition DeleteStore_Range {S : Type} (s : DeleteStore) (yield : S -> Z -> S * bool) (st : S) : S :=
  range_ids (sorted_ids s) yield st.

(** The loop that fills the payload of a delete snapshot. *)
Fixpoint put_ids (index : nat) (ids : list Z) (payload : bytes) : bytes :=
  match ids with
  | [] => payload
  | docID :: ids => put_ids (S index) ids (splice (index * 8) (le_put 8 docID) payload)
  end.

(** [WriteSnapshot] up to the publication of the file it builds. *)
Definition DeleteStore_WriteSnapshot (s : DeleteStore) : result bytes :=
  let ids := sorted_ids s in
  if maxSnapshotPayload / 8 <? zlen ids then Fail (errors_New "db: delete snapshot is too large")
  else encodeSnapshot deleteSnapshotMagic (zlen ids) (put_ids 0 ids (make_bytes (length ids * 8))).

(** The loop of [LoadDeleteStore]; [todo] iterations remain. *)
Fixpoint load_ids (todo index : nat) (payload : bytes) (previous : Z) (deleted : DeleteStore)
    : result DeleteStore :=
  match todo with
  | O => Ok deleted
  | S todo =>
      let docID := le_get (slice (index * 8) (index * 8 + 8) payload) in
      if (0 <? Z.of_nat index) && (docID <=? previous)
      then Fail (snapshot_corrupt "deleted IDs are not strictly sorted")
      else load_ids todo (S index) payload docID ({[docID]} ∪ deleted)
  end.

Definition LoadDeleteStore (ctx : context) (file : option bytes) (open_err : gerror) : result DeleteStore :=
  match readSnapshotFile ctx file open_err with
  | Fail e => Fail e
  | Ok encoded =>
  match decodeSnapshot encoded deleteSnapshotMagic with
  | Fail e => Fail e
  | Ok (count, payload) =>
      if (int_max / 8 <? count) || negb (wrap64 (count * 8) =? zlen payload)
      then Fail (snapshot_corrupt "delete count does not match payload")
      else load_ids (Z.to_nat count) 0 payload 0 NewDeleteStore
  end end.

(** *** Sorted IDs *)
Definition ids_bytes (ids : list Z) : bytes := mjoin (le_put 8 <$> ids).

Lemma ids_bytes_cons d ids : ids_bytes (d :: ids) = le_put 8 d ++ ids_bytes ids.
Proof. done. Qed.

Lemma length_ids_bytes ids : length (ids_bytes ids) = (length ids * 8)%nat.
Proof.
  induction ids as [|d ids IH]; [done|]. by rewrite ids_bytes_cons, length_app, IH, length_le_put.
Qed.

Lemma ids_bytes_app a b : ids_bytes (a ++ b) = ids_bytes a ++ ids_bytes b.
Proof. unfold ids_bytes. by rewrite fmap_app, join_app. Qed.

Lemma put_ids_spec done_ids ids :
  put_ids (length done_ids) ids (ids_bytes done_ids ++ make_bytes (length ids * 8)) =
  ids_bytes (done_ids ++ ids).
Proof.
  revert done_ids. induction ids as [|d ids IH]; intros ds.
  { simpl. by rewrite !app_nil_r. }
  cbn [put_ids length Nat.mul].
  replace (ids_bytes ds ++ make_bytes (8 + length ids * 8)) with
    (ids_bytes ds ++ make_bytes 8 ++ make_bytes (length ids * 8)) by (by rewrite <- make_bytes_add).
  rewrite (splice_field (length ds * 8) (le_put 8 d) (ids_bytes ds) (make_bytes 8)) by
    (apply length_ids_bytes || reflexivity).
  replace (ids_bytes ds ++ le_put 8 d ++ make_bytes (length ids * 8)) with
    (ids_bytes (ds ++ [d]) ++ make_bytes (length ids * 8)).
  2:{ rewrite ids_bytes_app, ids_bytes_cons. cbn. by rewrite app_nil_r, <- app_assoc. }
  replace (S (length ds)) with (length (ds ++ [d])) by (rewrite length_app; simpl; lia).
  rewrite IH, <- app_assoc. done.
Qed.

Lemma sorted_ids_perm s : sorted_ids s ≡ₚ elements s.
Proof. apply merge_sort_Permutation. Qed.

Lemma elem_of_sorted_ids s d : d ∈ sorted_ids s <-> d ∈ s.
Proof. by rewrite sorted_ids_perm, elem_of_elements. Qed.

#[export] Instance Zle_total : Total Z.le.
Proof. intros a b. lia. Qed.

Lemma sorted_ids_lt s : StronglySorted Z.lt (sorted_ids s).
Proof.
  assert (StronglySorted Z.le (sorted_ids s)) as Hs by (apply (StronglySorted_merge_sort Z.le)).
  assert (NoDup (sorted_ids s)) as Hnd by (rewrite sorted_ids_perm; apply NoDup_elements).
  induction Hs as [|x l Hs IH Hx]; [constructor|]. apply NoDup_cons in Hnd as [Hni Hnd].
  constructor; [by apply IH|]. apply Forall_forall. intros y Hy. rewrite Forall_forall in Hx.
  specialize (Hx y Hy). destruct (decide (x = y)) as [->|]; [done|lia].
Qed.

(** Strictly sorted lists with the same elements are equal. *)
Lemma sorted_lt_unique l1 l2 :
  StronglySorted Z.lt l1 -> StronglySorted Z.lt l2 -> (forall x, x ∈ l1 <-> x ∈ l2) -> l1 = l2.
Proof.
  intros H1. revert l2. induction H1 as [|x l1 Hs1 IH Hx]; intros l2 H2 Heq.
  { destruct l2 as [|y l2]; [done|]. specialize (Heq y) as [_ Heq].
    by apply elem_of_nil in Heq; [|left]. }
  destruct H2 as [|y l2 Hs2 Hy].
  { specialize (Heq x) as [Heq _]. by apply elem_of_nil in Heq; [|left]. }
  rewrite Forall_forall in Hx, Hy.
  assert (x = y) as ->.
  { pose proof (proj1 (Heq x) ltac:(left)) as [->|Hxin]%elem_of_cons; [done|].
    pose proof (proj2 (Heq y) ltac:(left)) as [->|Hyin]%elem_of_cons; [done|].
    specialize (Hx y Hyin). specialize (Hy x Hxin). lia. }
  f_equal. apply IH; [done|]. intros z. specialize (Heq z). rewrite !elem_of_cons in Heq.
  split; intros Hz.
  - destruct (proj1 Heq (or_intror Hz)) as [->|]; [|done]. specialize (Hx y Hz). lia.
  - destruct (proj2 Heq (or_intror Hz)) as [->|]; [|done]. specialize (Hy y Hz). lia.
Qed.

(** *** Loading *)
Lemma load_ids_spec ids pre previous deleted :
  Forall is_u64 ids -> StronglySorted Z.lt ids ->
  (length pre = 0%nat \/ Forall (Z.lt previous) ids) ->
  load_ids (length ids) (length pre) (ids_bytes (pre ++ ids)) previous deleted =
  Ok (list_to_set ids ∪ deleted).
Proof.
  revert pre previous deleted. induction ids as [|d ids IH]; intros pre prev del Hu Hs Hp.
  { simpl. f_equal. set_solver. }
  apply Forall_cons in Hu as [Hd Hu]. apply StronglySorted_inv in Hs as [Hs Hlt].
  cbn [load_ids length].
  assert (le_get (slice (length pre * 8) (length pre * 8 + 8) (ids_bytes (pre ++ d :: ids))) = d) as ->.
  { rewrite ids_bytes_app, ids_bytes_cons.
    rewrite slice_field by (rewrite ?length_ids_bytes, ?length_le_put; lia). by apply le_get_put8. }
  assert ((0 <? Z.of_nat (length pre)) && (d <=? prev) = false) as ->.
  { destruct Hp as [->|Hp]; [done|]. apply Forall_cons in Hp as [Hp _].
    apply andb_false_iff. right. apply Z.leb_gt. lia. }
  replace (S (length pre)) with (length (pre ++ [d])) by (rewrite length_app; simpl; lia).
  replace (pre ++ d :: ids) with ((pre ++ [d]) ++ ids) by by rewrite <- app_assoc.
  rewrite IH; [f_equal; set_solver|done|done|by right].
Qed.

(** Every accepted payload is the encoding of its strictly sorted IDs. *)
Lemma load_ids_inv todo index payload previous deleted s :
  length payload = ((index + todo) * 8)%nat ->
  load_ids todo index payload previous deleted = Ok s ->
  exists ids, length ids = todo /\ drop (index * 8) payload = ids_bytes ids /\ Forall is_u64 ids /\
    StronglySorted Z.lt ids /\ (index = 0%nat \/ Forall (Z.lt previous) ids) /\
    s = list_to_set ids ∪ deleted.
Proof.
  revert index previous deleted. induction todo as [|todo IH]; intros index prev del Hlen Hl.
  { simpl in Hl. injection Hl as <-. exists []. split; [done|].
    split; [by rewrite drop_ge by lia|]. split; [constructor|]. split; [constructor|].
    split; [right; constructor|]. by rewrite list_to_set_nil, union_empty_l_L. }
  cbn [load_ids] in Hl. set (d := le_get (slice (index * 8) (index * 8 + 8) payload)) in *.
  case_in Hl; [done|]. apply IH in Hl as (ids & Hi & Hdrop & Hu & Hs & Hlt & ->); [|lia].
  destruct Hlt as [|Hlt]; [done|].
  exists (d :: ids). split; [simpl; lia|]. split; [|split; [|split; [|split]]].
  - rewrite ids_bytes_cons, <- Hdrop.
    pose proof (slice_le_put (index * 8) (index * 8 + 8) payload ltac:(lia)) as Hsl.
    replace (index * 8 + 8 - index * 8)%nat with 8%nat in Hsl by lia. fold d in Hsl. rewrite <- Hsl.
    unfold slice. replace (index * 8 + 8 - index * 8)%nat with 8%nat by lia.
    replace (S index * 8)%nat with (index * 8 + 8)%nat by lia.
    rewrite <- drop_drop. by rewrite take_drop.
  - constructor; [|done]. apply le_get_u64. rewrite length_slice by lia. lia.
  - by constructor.
  - destruct index as [|index]; [by left|]. right. apply andb_false_iff in E as [E|E]; to_prop; [lia|].
    constructor; [lia|]. eapply Forall_impl; [exact Hlt|]. simpl. lia.
  - set_solver.
Qed.

Lemma delete_snapshot_spec (s : DeleteStore) :
  (forall d, d ∈ s -> is_u64 d) ->
  if maxSnapshotPayload / 8 <? Z.of_nat (size s)
  then is_ok (DeleteStore_WriteSnapshot s) = false
  else exists file, DeleteStore_WriteSnapshot s = Ok file /\
         forall err, LoadDeleteStore CtxLive (Some file) err = Ok s.
Proof.
  intros Hu. assert (zlen (sorted_ids s) = Z.of_nat (size s)) as Hsz.
  { unfold zlen, size, set_size. by rewrite sorted_ids_perm. }
  unfold DeleteStore_WriteSnapshot. rewrite Hsz. case_if; [done|]. to_prop.
  assert (maxSnapshotPayload / 8 = 33554432) as Hmax by reflexivity. rewrite Hmax in *.
  pose proof (put_ids_spec [] (sorted_ids s)) as Hput. cbn [length app] in Hput.
  change (ids_bytes [] ++ make_bytes (length (sorted_ids s) * 8)) with
    (make_bytes (length (sorted_ids s) * 8)) in Hput. rewrite Hput.
  assert (zlen (ids_bytes (sorted_ids s)) = 8 * Z.of_nat (size s)) as Hlen.
  { unfold zlen in *. rewrite length_ids_bytes. lia. }
  assert (zlen (ids_bytes (sorted_ids s)) <= maxSnapshotPayload) as Hle.
  { rewrite Hlen. unfold maxSnapshotPayload. lia. }
  eexists. split; [apply encodeSnapshot_layout; [done|exact Hle]|]. intros err.
  unfold LoadDeleteStore, readSnapshotFile. cbn [ctx_guard].
  rewrite zlen_app. change (zlen (snapshot_header _ _ _ _)) with 40 at 1 2.
  unfold snapshotHeaderSize.
  destruct (40 + zlen (ids_bytes (sorted_ids s)) <? 40) eqn:E1; [to_prop; pose proof (zlen_nonneg (ids_bytes (sorted_ids s))); lia|].
  destruct (40 + maxSnapshotPayload <? 40 + zlen (ids_bytes (sorted_ids s))) eqn:E2; [to_prop; lia|].
  cbn [orb]. rewrite decode_snapshot_layout; [|done|unfold is_u64, u64_max; lia|done].
  rewrite Hlen. unfold wrap64. rewrite Z.mod_small by lia.
  replace (Z.of_nat (size s) * 8 =? 8 * Z.of_nat (size s)) with true by (symmetry; apply Z.eqb_eq; lia).
  destruct (int_max / 8 <? Z.of_nat (size s)) eqn:E3.
  { to_prop. change (int_max / 8) with 1152921504606846975 in E3. lia. }
  cbn [orb negb]. rewrite <- Hsz at 1. rewrite zlen_to_nat.
  rewrite (load_ids_spec (sorted_ids s) []); [| |apply sorted_ids_lt|by left].
  - f_equal. apply set_eq. intros d. rewrite elem_of_union, elem_of_list_to_set, elem_of_sorted_ids. set_solver.
  - apply Forall_forall. intros d Hd. by apply Hu, elem_of_sorted_ids.
Qed.

(** A delete set written as a snapshot is read back exactly, as long as it
    fits the snapshot size limit; writing fails only above that limit. *)
Theorem delete_snapshot_roundtrip (s : DeleteStore) :
  (forall d, d ∈ s -> is_u64 d) ->
  if maxSnapshotPayload / 8 <? Z.of_nat (size s)
  then is_ok (DeleteStore_WriteSnapshot s) = false
  else exists file, DeleteStore_WriteSnapshot s = Ok file /\
         forall err, LoadDeleteStore CtxLive (Some file) err = Ok s.
Proof. apply delete_snapshot_spec. Qed.

Lemma delete_snapshot_roundtrip_witness :
  exists file, DeleteStore_WriteSnapshot {[5; 3; 9]} = Ok file /\
    LoadDeleteStore CtxLive (Some file) (errors_New "open") = Ok {[5; 3; 9]}.
Proof.
  destruct (delete_snapshot_roundtrip {[5; 3; 9]}) as (file & H1 & H2);
    [intros d Hd; unfold is_u64, u64_max; set_solver by lia|].
  exists file. split; [exact H1|apply H2].
Defined.

(** A file is accepted as a delete snapshot only if it is, byte for byte,
    the snapshot that the loaded set would be written as. *)
Theorem delete_snapshot_canonical (file : bytes) (err : gerror) (s : DeleteStore) :
  LoadDeleteStore CtxLive (Some file) err = Ok s -> DeleteStore_WriteSnapshot s = Ok file.
Proof.
  unfold LoadDeleteStore. intros H. destruct (readSnapshotFile _ _ _) as [encoded|] eqn:Er; [|done].
  assert (encoded = file) as ->.
  { unfold readSnapshotFile in Er. cbn [ctx_guard] in Er. case_in Er; by simplify_eq. }
  destruct (decodeSnapshot file deleteSnapshotMagic) as [[count payload]|] eqn:Ed; [|done].
  case_in H; [done|]. apply orb_false_iff in E as [E1 E2]. to_prop.
  apply decodeSnapshot_inv in Ed as (Hfile & Hc & Hp); [|done].
  change (int_max / 8) with 1152921504606846975 in E1.
  unfold is_u64, u64_max in Hc. unfold wrap64 in E2. rewrite Z.mod_small in E2 by lia.
  apply load_ids_inv in H as (ids & Hlen & Hdrop & Hu & Hs & _ & ->); [|unfold zlen in *; lia].
  change (0 * 8)%nat with 0%nat in Hdrop. rewrite drop_0 in Hdrop.
  assert (sorted_ids (list_to_set ids ∪ NewDeleteStore) = ids) as Hids.
  { apply sorted_lt_unique; [apply sorted_ids_lt|done|]. intros x.
    rewrite elem_of_sorted_ids, elem_of_union, elem_of_list_to_set. set_solver. }
  unfold DeleteStore_WriteSnapshot. rewrite Hids.
  assert (zlen ids = count) as -> by (unfold zlen; lia).
  assert (maxSnapshotPayload / 8 = 33554432) as -> by reflexivity.
  unfold maxSnapshotPayload in *.
  destruct (33554432 <? count) eqn:E3; [to_prop; lia|].
  pose proof (put_ids_spec [] ids) as Hput. cbn [length app] in Hput.
  change (ids_bytes [] ++ make_bytes (length ids * 8)) with (make_bytes (length ids * 8)) in Hput.
  rewrite Hput, <- Hdrop, encodeSnapshot_layout by done. by rewrite <- Hfile.
Qed.

Definition ex_deleted : DeleteStore := {[3; 5; 9]}.
Definition ex_delete_file : bytes :=
  match DeleteStore_WriteSnapshot ex_deleted with Ok f => f | Fail _ => [] end.

Lemma delete_snapshot_canonical_witness :
  DeleteStore_WriteSnapshot ex_deleted = Ok ex_delete_file.
Proof.
  apply (delete_snapshot_canonical ex_delete_file (errors_New "open") ex_deleted).
  vm_compute. reflexivity.
Defined.
