(* ===== verification/Json.v ===== *)
(** * JSON validity

    What [manifest.go] and [collection.go] use of [encoding/json] on schemas:
    [json.Valid], and whether the value is an object ([json.Unmarshal] into a
    [map[string]json.RawMessage] that must not stay nil).  The scanner follows
    the Go package: no check of UTF-8 inside strings, control characters
    rejected, nesting limited to 10000. *)
From S2P Require Import Prelude Bytes.
#[local] Open Scope Z_scope.

Definition maxNestingDepth : Z := 10000.

Definition is_byte (n : Z) (b : byte) : bool := Z_of_byte b =? n.
Definition json_space (b : byte) : bool := is_byte 32 b || is_byte 9 b || is_byte 13 b || is_byte 10 b.
Definition json_digit (b : byte) : bool := (48 <=? Z_of_byte b) && (Z_of_byte b <=? 57).
Definition json_hex (b : byte) : bool :=
  json_digit b || ((97 <=? Z_of_byte b) && (Z_of_byte b <=? 102)) || ((65 <=? Z_of_byte b) && (Z_of_byte b <=? 70)).
(** b f n r t \ / and the quote *)
Definition json_escape (b : byte) : bool :=
  existsb (fun n => is_byte n b) [98; 102; 110; 114; 116; 92; 47; 34].

Fixpoint skip_space (s : bytes) : bytes :=
  match s with b :: r => if json_space b then skip_space r else s | [] => [] end.
Fixpoint skip_digits (s : bytes) : bytes :=
  match s with b :: r => if json_digit b then skip_digits r else s | [] => [] end.

(** A string after its opening quote: the rest after the closing one. *)
Fixpoint scan_string (s : bytes) : option bytes :=
  match s with
  | [] => None
  | b :: r =>
      if is_byte 34 b then Some r
      else if is_byte 92 b then
        match r with
        | c :: r =>
            if json_escape c then scan_string r
            else if is_byte 117 c then
              match r with
              | h1 :: h2 :: h3 :: h4 :: r =>
                  if json_hex h1 && json_hex h2 && json_hex h3 && json_hex h4 then scan_string r else None
              | _ => None
              end
            else None
        | [] => None
        end
      else if Z_of_byte b <? 32 then None
      else scan_string r
  end.

(** At least one digit. *)
Definition scan_digits1 (s : bytes) : option bytes :=
  match s with b :: r => if json_digit b then Some (skip_digits r) else None | [] => None end.
Definition scan_exponent (s : bytes) : option bytes :=
  match s with
  | b :: r =>
      if is_byte 101 b || is_byte 69 b then
        match r with
        | c :: r' => if is_byte 43 c || is_byte 45 c then scan_digits1 r' else scan_digits1 r
        | [] => None
        end
      else Some s
  | [] => Some s
  end.
Definition scan_fraction (s : bytes) : option bytes :=
  match s with
  | b :: r => if is_byte 46 b then scan_digits1 r ≫= scan_exponent else scan_exponent s
  | [] => Some s
  end.
Definition scan_number (s : bytes) : option bytes :=
  let s := match s with b :: r => if is_byte 45 b then r else s | [] => s end in
  match s with
  | b :: r => if is_byte 48 b then scan_fraction r
              else if json_digit b then scan_fraction (skip_digits r) else None
  | [] => None
  end.

Fixpoint scan_literal (lit : list Z) (s : bytes) : option bytes :=
  match lit, s with
  | [], _ => Some s
  | n :: lit, b :: s => if is_byte n b then scan_literal lit s else None
  | _ :: _, [] => None
  end.

(** A value, the elements of an array up to its bracket, the members of an
    object up to its brace.  The outer option is the fuel. *)
Fixpoint scan_value (fuel : nat) (depth : Z) (s : bytes) : option (option bytes) :=
  match fuel with
  | O => None
  | S fuel =>
      match skip_space s with
      | [] => Some None
      | b :: r =>
          if is_byte 123 b then
            if maxNestingDepth <=? depth then Some None
            else match skip_space r with
            | c :: r' => if is_byte 125 c then Some (Some r') else scan_members fuel (depth + 1) r
            | [] => Some None
            end
          else if is_byte 91 b then
            if maxNestingDepth <=? depth then Some None
            else match skip_space r with
            | c :: r' => if is_byte 93 c then Some (Some r') else scan_elements fuel (depth + 1) r
            | [] => Some None
            end
          else if is_byte 34 b then Some (scan_string r)
          else if is_byte 116 b then Some (scan_literal [114; 117; 101] r)
          else if is_byte 102 b then Some (scan_literal [97; 108; 115; 101] r)
          else if is_byte 110 b then Some (scan_literal [117; 108; 108] r)
          else Some (scan_number (b :: r))
      end
  end
with scan_elements (fuel : nat) (depth : Z) (s : bytes) : option (option bytes) :=
  match fuel with
  | O => None
  | S fuel =>
      match scan_value fuel depth s with
      | None => None
      | Some None => Some None
      | Some (Some r) =>
          match skip_space r with
          | c :: r => if is_byte 44 c then scan_elements fuel depth r
                      else if is_byte 93 c then Some (Some r) else Some None
          | [] => Some None
          end
      end
  end
with scan_members (fuel : nat) (depth : Z) (s : bytes) : option (option bytes) :=
  match fuel with
  | O => None
  | S fuel =>
      match skip_space s with
      | q :: r =>
          if is_byte 34 q then
            match scan_string r with
            | None => Some None
            | Some r =>
                match skip_space r with
                | c :: r =>
                    if is_byte 58 c then
                      match scan_value fuel depth r with
                      | None => None
                      | Some None => Some None
                      | Some (Some r) =>
                          match skip_space r with
                          | c :: r => if is_byte 44 c then scan_members fuel depth r
                                      else if is_byte 125 c then Some (Some r) else Some None
                          | [] => Some None
                          end
                      end
                    else Some None
                | [] => Some None
                end
            end
          else Some None
      | [] => Some None
      end
  end.

(** Every recursive call of a scan consumes a byte at least every second time. *)
Definition json_fuel (s : bytes) : nat := S (S (2 * length s)).

Definition json_Valid (s : bytes) : bool :=
  match scan_value (json_fuel s) 0 s with
  | Some (Some rest) => bool_decide (skip_space rest = [])
  | _ => false
  end.

(** Decoding a valid value into a [map[string]json.RawMessage]: only an object
    gives a map; [null] leaves it nil and anything else is an error. *)
Definition json_object (s : bytes) : bool :=
  match skip_space s with b :: _ => is_byte 123 b | [] => false end.

(** ** The fuel is enough *)
Lemma skip_space_length s : (length (skip_space s) <= length s)%nat.
Proof. induction s as [|b s IH]; cbn; [lia|]. case_if; cbn; lia. Qed.
Lemma skip_digits_length s : (length (skip_digits s) <= length s)%nat.
Proof. induction s as [|b s IH]; cbn; [lia|]. case_if; cbn; lia. Qed.

Lemma scan_string_length s r : scan_string s = Some r -> (length r < length s)%nat.
Proof.
  assert (forall n s r, (length s <= n)%nat -> scan_string s = Some r -> (length r < length s)%nat) as Hg; [|by apply (Hg (length s))].
  clear. induction n as [|n IH]; intros s r Hn H; destruct s as [|b s]; cbn [length] in *; [done|lia|done|].
  cbn [scan_string] in H. case_in H; [by injection H as ->; lia|]. case_in H.
  - destruct s as [|c s]; [done|]. cbn [length] in *. case_in H; [apply IH in H; lia|]. case_in H; [|done].
    destruct s as [|h1 [|h2 [|h3 [|h4 s]]]]; try done. case_in H; [|done]. cbn [length] in *. apply IH in H; lia.
  - case_in H; [done|]. apply IH in H; lia.
Qed.

Lemma scan_digits1_length s r : scan_digits1 s = Some r -> (length r < length s)%nat.
Proof.
  destruct s as [|b s]; [done|]. cbn. case_if; [|done]. intros [= <-]. pose proof (skip_digits_length s). lia.
Qed.
Lemma scan_exponent_length s r : scan_exponent s = Some r -> (length r <= length s)%nat.
Proof.
  destruct s as [|b s]; cbn; [by intros [= <-]|]. case_if; [|by intros [= <-]].
  destruct s as [|c s]; [done|]. case_if; intros H%scan_digits1_length; cbn in *; lia.
Qed.
Lemma scan_fraction_length s r : scan_fraction s = Some r -> (length r <= length s)%nat.
Proof.
  destruct s as [|b s]; cbn [scan_fraction]; [by intros [= <-]|]. case_if; [|apply scan_exponent_length].
  intros (t & Ht%scan_digits1_length & Hr%scan_exponent_length)%bind_Some. cbn. lia.
Qed.
Lemma scan_number_length s r : scan_number s = Some r -> (length r < length s)%nat.
Proof.
  unfold scan_number. intros H.
  assert (forall t, (length t <= length s)%nat ->
    match t with b :: r => if is_byte 48 b then scan_fraction r
      else if json_digit b then scan_fraction (skip_digits r) else None | [] => None end = Some r -> (length r < length s)%nat) as Hg.
  { clear H. intros [|b t] Hl H; [done|]. cbn in Hl. pose proof (skip_digits_length t).
    case_in H; [apply scan_fraction_length in H; lia|]. case_in H; [|done]. apply scan_fraction_length in H. lia. }
  destruct s as [|b s]; [done|]. case_in H; [apply (Hg s)|apply (Hg (b :: s))]; try done; cbn; lia.
Qed.
Lemma scan_literal_length lit s r : scan_literal lit s = Some r -> (length r <= length s)%nat.
Proof.
  revert s. induction lit as [|n lit IH]; intros [|b s] H; cbn in *; try done; try (injection H as <-; done).
  case_in H; [|done]. apply IH in H. lia.
Qed.

Lemma scan_total fuel :
  (forall depth s, (2 * length s + 1 <= fuel)%nat ->
     exists o, scan_value fuel depth s = Some o /\ (forall r, o = Some r -> (length r < length s)%nat)) /\
  (forall depth s, (2 * length s + 2 <= fuel)%nat ->
     exists o, scan_elements fuel depth s = Some o /\ (forall r, o = Some r -> (length r < length s)%nat)) /\
  (forall depth s, (2 * length s + 2 <= fuel)%nat ->
     exists o, scan_members fuel depth s = Some o /\ (forall r, o = Some r -> (length r < length s)%nat)).
Proof.
  induction fuel as [|fuel (IHv & IHe & IHm)]; [split; [|split]; intros; lia|].
  split; [|split]; intros depth s Hf.
  - cbn [scan_value]. pose proof (skip_space_length s) as Hs. destruct (skip_space s) as [|b r]; [by exists None|].
    cbn [length] in Hs. case_if.
    { case_if; [by exists None|]. pose proof (skip_space_length r) as Hr. destruct (skip_space r) as [|c r']; [by exists None|].
      cbn [length] in Hr. case_if; [exists (Some r'); split; [done|]; intros ? [= <-]; lia|].
      destruct (IHm (depth + 1) r ltac:(lia)) as (o & Ho & Hl). exists o. split; [done|]. intros x Hx. apply Hl in Hx. lia. }
    case_if.
    { case_if; [by exists None|]. pose proof (skip_space_length r) as Hr. destruct (skip_space r) as [|c r']; [by exists None|].
      cbn [length] in Hr. case_if; [exists (Some r'); split; [done|]; intros ? [= <-]; lia|].
      destruct (IHe (depth + 1) r ltac:(lia)) as (o & Ho & Hl). exists o. split; [done|]. intros x Hx. apply Hl in Hx. lia. }
    repeat (case_if; [eexists; split; [reflexivity|]; intros x Hx;
      first [apply scan_string_length in Hx | apply scan_literal_length in Hx]; lia|]).
    eexists; split; [reflexivity|]. intros x Hx%scan_number_length. cbn in Hx. lia.
  - cbn [scan_elements]. destruct (IHv depth s ltac:(lia)) as (o & -> & Hl). destruct o as [r|]; [|by exists None].
    specialize (Hl r eq_refl). pose proof (skip_space_length r) as Hr. destruct (skip_space r) as [|c r']; [by exists None|].
    cbn [length] in Hr. case_if.
    { destruct (IHe depth r' ltac:(lia)) as (o & Ho & Hl'). exists o. split; [done|]. intros x Hx. apply Hl' in Hx. lia. }
    case_if; [|by exists None]. exists (Some r'). split; [done|]. intros x [= <-]. lia.
  - cbn [scan_members]. pose proof (skip_space_length s) as Hs. destruct (skip_space s) as [|q r]; [by exists None|].
    cbn [length] in Hs. case_if; [|by exists None].
    destruct (scan_string r) as [r1|] eqn:E1; [|by exists None]. apply scan_string_length in E1.
    pose proof (skip_space_length r1) as Hr1. destruct (skip_space r1) as [|c r2]; [by exists None|]. cbn [length] in Hr1.
    case_if; [|by exists None]. destruct (IHv depth r2 ltac:(lia)) as (o & -> & Hl). destruct o as [r3|]; [|by exists None].
    specialize (Hl r3 eq_refl). pose proof (skip_space_length r3) as Hr3. destruct (skip_space r3) as [|d r4]; [by exists None|].
    cbn [length] in Hr3. case_if.
    { destruct (IHm depth r4 ltac:(lia)) as (o & Ho & Hl'). exists o. split; [done|]. intros x Hx. apply Hl' in Hx. lia. }
    case_if; [|by exists None]. exists (Some r4). split; [done|]. intros x [= <-]. lia.
Qed.

Lemma json_Valid_total s : is_Some (scan_value (json_fuel s) 0 s).
Proof. destruct (proj1 (scan_total (json_fuel s)) 0 s) as (o & -> & _); [unfold json_fuel; lia|done]. Qed.
