(* ===== verification/Names.v ===== *)
(** * File names: [internal/db/index/common/file_helper.go] and the names of
    [version_manager.go] and [collection.go]

    Artifacts are named by generation and segment ID in twenty decimal digits,
    the width of the largest [uint64]. *)
From S2P Require Import Prelude Bytes Paths.
From Stdlib Require Import Ascii.
#[local] Open Scope string_scope.
#[local] Open Scope Z_scope.

(** ** Decimal numbers *)
Definition digit (d : Z) : ascii := ascii_of_N (Z.to_N (48 + d)).
Definition digit_value (c : ascii) : option Z :=
  let d := Z.of_N (N_of_ascii c) - 48 in if (0 <=? d) && (d <=? 9) then Some d else None.

(** [fmt.Sprintf("%0*d", width, n)] of a number with at most [width] digits *)
Fixpoint dec_digits (width : nat) (n : Z) (acc : string) : string :=
  match width with
  | O => acc
  | S width => dec_digits width (n / 10) (String (digit (n mod 10)) acc)
  end.
Definition pad20 (n : Z) : string := dec_digits 20 n "".

(** [strconv.ParseUint(s, 10, 64)] *)
Fixpoint parse_digits (s : string) (acc : Z) : option Z :=
  match s with
  | EmptyString => Some acc
  | String c s =>
      match digit_value c with
      | None => None
      | Some d => if u64_max <? acc * 10 + d then None else parse_digits s (acc * 10 + d)
      end
  end.
Definition ParseUint (s : string) : option Z :=
  match s with EmptyString => None | _ => parse_digits s 0 end.

(** ** Names *)
Fixpoint has_prefix (prefix s : string) : bool :=
  match prefix, s with
  | EmptyString, _ => true
  | String a prefix, String b s => Ascii.eqb a b && has_prefix prefix s
  | String _ _, EmptyString => false
  end.
(** [s[n:]] and [s[:n]] *)
Fixpoint str_drop (n : nat) (s : string) : string :=
  match n, s with
  | O, _ => s
  | S n, String _ s => str_drop n s
  | S _, EmptyString => EmptyString
  end.
Fixpoint str_take (n : nat) (s : string) : string :=
  match n, s with
  | S n, String c s => String c (str_take n s)
  | _, _ => EmptyString
  end.
Definition has_suffix (suffix s : string) : bool :=
  (String.length suffix <=? String.length s)%nat && String.eqb (str_drop (String.length s - String.length suffix) s) suffix.
Definition trim_prefix (prefix s : string) : string :=
  if has_prefix prefix s then str_drop (String.length prefix) s else s.
Definition trim_suffix (suffix s : string) : string :=
  if has_suffix suffix s then str_take (String.length s - String.length suffix) s else s.
(** [strings.Split(s, sep)] for a separator of one byte *)
Fixpoint split_on (sep : ascii) (s : string) : list string :=
  match s with
  | EmptyString => [EmptyString]
  | String c rest =>
      if Ascii.eqb c sep then EmptyString :: split_on sep rest
      else match split_on sep rest with x :: xs => String c x :: xs | [] => [String c EmptyString] end
  end.

Definition IDMapCheckpointName (generation : Z) : string := "idmap/idmap-" ++ pad20 generation ++ ".pebble".
Definition DeleteSnapshotName (generation : Z) : string := "snapshots/delete-" ++ pad20 generation ++ ".snap".
Definition segmentFileName (segmentID generation : Z) : string :=
  "segments/" ++ pad20 segmentID ++ "/data-" ++ pad20 generation ++ ".seg".
Definition walFileName (segmentID generation : Z) : string :=
  "wal/" ++ pad20 segmentID ++ "-" ++ pad20 generation ++ ".wal".

Definition IsOwnedIDMapName (name : string) : bool :=
  if has_prefix "idmap-" name && has_suffix ".pebble" name then
    let digits := trim_suffix ".pebble" (trim_prefix "idmap-" name) in
    if (String.length digits =? 20)%nat then
      match ParseUint digits with Some generation => 0 <? generation | None => false end
    else false
  else if negb (has_prefix ".working-" name) || negb (has_suffix ".pebble" name) then false
  else
    match split_on "-"%char (trim_suffix ".pebble" (trim_prefix ".working-" name)) with
    | [first; second] =>
        if String.eqb first "" || String.eqb second "" then false
        else match ParseUint first, ParseUint second with Some _, Some _ => true | _, _ => false end
    | _ => false
    end.

Definition manifestPrefix : string := "MANIFEST-".
Definition manifestDigits : nat := 20.
Definition manifestFileName (generation : Z) : string := manifestPrefix ++ dec_digits manifestDigits generation "".

Definition parseManifestFileName (name : string) : option Z :=
  if negb (String.length name =? String.length manifestPrefix + manifestDigits)%nat || negb (has_prefix manifestPrefix name)
  then None
  else match ParseUint (str_drop (String.length manifestPrefix) name) with
  | Some generation => if 0 <? generation then Some generation else None
  | None => None
  end.

(** ** Strings *)
Lemma str_app_assoc (a b c : string) : a ++ (b ++ c) = (a ++ b) ++ c.
Proof. induction a as [|x a IH]; [done|]. exact (f_equal (String x) IH). Qed.

Lemma str_length_app (a b : string) : String.length (a ++ b) = (String.length a + String.length b)%nat.
Proof. induction a as [|x a IH]; [done|]. exact (f_equal S IH). Qed.

Lemma str_app_inj (a b c d : string) : String.length a = String.length b -> a ++ c = b ++ d -> a = b /\ c = d.
Proof.
  revert b. induction a as [|x a IH]; intros [|y b] Hl H; try done. injection Hl as Hl.
  change (String x (a ++ c) = String y (b ++ d)) in H. injection H as -> H.
  by destruct (IH b Hl H) as [-> ->].
Qed.

Lemma has_prefix_spec p s : has_prefix p s = true <-> exists t, s = p ++ t.
Proof.
  revert s. induction p as [|c p IH]; intros s; [by split; [exists s|destruct s]|].
  destruct s as [|d s]; [by split; [|intros [t ?]]|]. cbn [has_prefix]. rewrite andb_true_iff, Ascii.eqb_eq, IH. split.
  - intros [-> [t ->]]. by exists t.
  - intros [t H]. change (String d s = String c (p ++ t)) in H. injection H as -> ->. by eauto.
Qed.

Lemma str_drop_app (a b : string) : str_drop (String.length a) (a ++ b) = b.
Proof. induction a as [|c a IH]; [by destruct b|done]. Qed.

Lemma str_take_app (a b : string) : str_take (String.length a) (a ++ b) = a.
Proof. induction a as [|c a IH]; [by destruct b|]. exact (f_equal (String c) IH). Qed.

(** ** Digits *)
Lemma digit_digit_value d : 0 <= d <= 9 -> digit_value (digit d) = Some d.
Proof.
  intros Hd. unfold digit_value, digit. rewrite N_ascii_embedding by lia. rewrite Z2N.id by lia.
  replace (48 + d - 48) with d by lia. destruct (0 <=? d) eqn:E1; destruct (d <=? 9) eqn:E2; try done; lia.
Qed.

Lemma digit_value_range c d : digit_value c = Some d -> 0 <= d <= 9 /\ c = digit d.
Proof.
  unfold digit_value. intros H. case_match eqn:E; [|done]. injection H as <-.
  apply andb_true_iff in E as [E1 E2]. split; [lia|]. unfold digit.
  replace (48 + (Z.of_N (N_of_ascii c) - 48)) with (Z.of_N (N_of_ascii c)) by lia.
  by rewrite N2Z.id, ascii_N_embedding.
Qed.

Lemma dec_digits_app w n acc : dec_digits w n acc = dec_digits w n "" ++ acc.
Proof.
  revert n acc. induction w as [|w IH]; intros n acc; cbn [dec_digits]; [done|].
  rewrite IH, (IH _ (String _ "")). by rewrite <- str_app_assoc.
Qed.

Lemma length_dec_digits w n : String.length (dec_digits w n "") = w.
Proof.
  revert n. induction w as [|w IH]; intros n; cbn [dec_digits]; [done|].
  rewrite dec_digits_app, str_length_app, IH. simpl. lia.
Qed.

Lemma parse_digits_app s t acc :
  parse_digits (s ++ t) acc = match parse_digits s acc with Some a => parse_digits t a | None => None end.
Proof.
  revert acc. induction s as [|c s IH]; intros acc; [done|]. change (String c s ++ t) with (String c (s ++ t)).
  cbn [parse_digits]. destruct (digit_value c); [|done]. by case_if.
Qed.

Lemma parse_dec_digits w n : 0 <= n < 10 ^ Z.of_nat w -> n <= u64_max -> parse_digits (dec_digits w n "") 0 = Some n.
Proof.
  revert n. induction w as [|w IH]; intros n Hn Hmax; cbn [dec_digits].
  { cbn in *. f_equal. lia. }
  rewrite dec_digits_app, parse_digits_app.
  replace (Z.of_nat (S w)) with (Z.of_nat w + 1) in Hn by lia. rewrite Z.pow_add_r in Hn by lia.
  pose proof (Z.mod_pos_bound n 10 ltac:(lia)). pose proof (Z_div_mod_eq_full n 10).
  assert (0 <= n / 10) by (apply Z.div_pos; lia).
  rewrite IH; [|split; [done|apply Z.div_lt_upper_bound; lia]|lia].
  cbn [parse_digits]. rewrite digit_digit_value by lia.
  replace (n / 10 * 10 + n mod 10) with n by lia. destruct (u64_max <? n) eqn:E; to_prop; [lia|done].
Qed.

(** A string of digits is the canonical numeral of its value, at its length. *)
Lemma parse_digits_canonical s acc n :
  parse_digits s acc = Some n -> 0 <= acc ->
  exists k, n = acc * 10 ^ Z.of_nat (String.length s) + k /\ 0 <= k < 10 ^ Z.of_nat (String.length s) /\
    s = dec_digits (String.length s) n "".
Proof.
  revert acc. induction s as [|c s IH]; intros acc H Hacc; cbn [parse_digits String.length] in *.
  { injection H as <-. exists 0. cbn. split; [lia|]. by split; [lia|]. }
  destruct (digit_value c) as [d|] eqn:Ed; [|done]. apply digit_value_range in Ed as [Hd ->].
  case_in H; [done|]. destruct (IH _ H ltac:(lia)) as (k & Hn & Hk & Hs). clear IH H.
  set (w := String.length s) in *. set (p := 10 ^ Z.of_nat w) in *.
  assert (10 ^ Z.of_nat (S w) = p * 10) as Hp.
  { replace (Z.of_nat (S w)) with (Z.of_nat w + 1) by lia. rewrite Z.pow_add_r by lia. done. }
  exists (d * p + k). rewrite Hp. split; [lia|]. split; [nia|].
  assert (forall v m a, 0 <= a <= 9 -> 0 <= m -> dec_digits (S v) (a * 10 ^ Z.of_nat v + m mod 10 ^ Z.of_nat v) "" =
    String (digit a) (dec_digits v m "")) as Hgen.
  { clear. induction v as [|v IH]; intros m a Ha Hm.
    - cbn [dec_digits Z.of_nat]. rewrite Z.mod_1_r, Z.mul_1_r, Z.add_0_r. by rewrite Z.mod_small by lia.
    - assert (10 ^ Z.of_nat (S v) = 10 ^ Z.of_nat v * 10) as Hq.
      { replace (Z.of_nat (S v)) with (Z.of_nat v + 1) by lia. rewrite Z.pow_add_r by lia. done. }
      assert (0 < 10 ^ Z.of_nat v) as Hpos by (apply Z.pow_pos_nonneg; lia).
      set (q := 10 ^ Z.of_nat v) in *. change (dec_digits (S (S v)) ?x "") with
        (dec_digits (S v) (x / 10) (String (digit (x mod 10)) "")).
      rewrite (dec_digits_app (S v)), Hq.
      assert (m mod (q * 10) = (m / 10) mod q * 10 + m mod 10) as Hm10.
      { rewrite (Z.mul_comm q), Z.rem_mul_r by lia. lia. }
      rewrite Hm10. pose proof (Z.mod_pos_bound m 10 ltac:(lia)).
      replace (a * (q * 10) + ((m / 10) mod q * 10 + m mod 10)) with (m mod 10 + (a * q + (m / 10) mod q) * 10) by lia.
      rewrite Z_mod_plus_full, Z.div_add, Z.mod_mod, (Z.div_small (m mod 10)), Z.add_0_l by lia.
      rewrite IH by (try lia; apply Z.div_pos; lia). cbn [dec_digits String.append].
      by rewrite (dec_digits_app v (m / 10) (String _ "")). }
  assert (forall v x y, dec_digits v (x * 10 ^ Z.of_nat v + y) "" = dec_digits v y "") as Hmod.
  { clear. induction v as [|v IH]; intros x y; cbn [dec_digits]; [done|].
    replace (Z.of_nat (S v)) with (Z.of_nat v + 1) by lia. rewrite Z.pow_add_r by lia. change (10 ^ 1) with 10.
    replace (x * (10 ^ Z.of_nat v * 10) + y) with (y + (x * 10 ^ Z.of_nat v) * 10) by lia.
    rewrite Z_mod_plus_full, Z.div_add by lia. rewrite dec_digits_app, (Z.add_comm (y / 10)), IH.
    by rewrite <- dec_digits_app. }
  assert (0 < p) as Hpp by (apply Z.pow_pos_nonneg; lia).
  assert (n = acc * 10 ^ Z.of_nat (S w) + (d * p + n mod p)) as Hn'.
  { rewrite Hp, Hn. rewrite Z.add_comm, Z_mod_plus_full, Z.mod_small by lia. lia. }
  rewrite Hn', Hmod. unfold p. rewrite Hgen by lia. by rewrite <- Hs.
Qed.

Lemma length_pad20 n : String.length (pad20 n) = 20%nat.
Proof. apply length_dec_digits. Qed.

Lemma ParseUint_pad20 n : is_u64 n -> ParseUint (pad20 n) = Some n.
Proof.
  intros [H0 H1]. assert (parse_digits (pad20 n) 0 = Some n) as <-.
  { apply parse_dec_digits; [|lia]. unfold u64_max in *. cbn. lia. }
  unfold ParseUint. pose proof (length_pad20 n). by destruct (pad20 n).
Qed.

Lemma ParseUint_canonical s n :
  ParseUint s = Some n -> String.length s = 20%nat -> s = pad20 n /\ is_u64 n.
Proof.
  intros H Hl. unfold ParseUint in H. destruct s as [|c s]; [done|].
  assert (n <= u64_max) as Hmax.
  { remember (String c s) as t. assert (forall t acc, acc <= u64_max -> parse_digits t acc = Some n -> n <= u64_max) as Hg.
    { clear. induction t as [|c t IH]; intros acc Ha H; cbn in H; [by injection H as <-|].
      destruct (digit_value c); [|done]. case_in H; [done|]. to_prop. eauto. }
    apply (Hg t 0); [vm_compute; discriminate|done]. }
  destruct (parse_digits_canonical _ _ _ H ltac:(lia)) as (k & Hn & Hk & Hs). rewrite Hl in Hs.
  split; [exact Hs|]. unfold is_u64. lia.
Qed.

Lemma pad20_inj a b : is_u64 a -> is_u64 b -> pad20 a = pad20 b -> a = b.
Proof. intros Ha Hb H. apply ParseUint_pad20 in Ha, Hb. congruence. Qed.

Lemma parseManifestFileName_exact (name : string) (generation : Z) :
  parseManifestFileName name = Some generation <->
  0 < generation <= u64_max /\ name = manifestFileName generation.
Proof.
  unfold parseManifestFileName, manifestFileName, manifestDigits. split.
  - intros H. case_in H; [done|]. apply orb_false_iff in E as [E1 E2].
    apply negb_false_iff in E1, E2. apply Nat.eqb_eq in E1. apply has_prefix_spec in E2 as [t ->].
    rewrite str_length_app in E1. rewrite str_drop_app in H.
    destruct (ParseUint t) as [g|] eqn:Ep; [|done]. case_in H; [|done]. injection H as <-. to_prop.
    apply ParseUint_canonical in Ep as [Ht [_ Hu]]; [|lia]. split; [lia|]. by rewrite Ht.
  - intros [Hg ->]. fold (pad20 generation). rewrite str_length_app, length_pad20.
    change (negb (String.length manifestPrefix + 20 =? String.length manifestPrefix + 20)%nat) with false.
    assert (has_prefix manifestPrefix (manifestPrefix ++ pad20 generation) = true) as -> by (apply has_prefix_spec; eauto).
    cbn [negb orb]. rewrite str_drop_app, ParseUint_pad20 by (unfold is_u64; lia).
    destruct (0 <? generation) eqn:E; to_prop; [done|lia].
Qed.

(** Manifest file names are exact: [parseManifestFileName] accepts a name
    precisely when it is the name that [manifestFileName] gives to a positive
    64-bit generation, and answers that generation. *)
Theorem manifest_name_exact (name : string) (generation : Z) :
  parseManifestFileName name = Some generation <->
  0 < generation <= u64_max /\ name = manifestFileName generation.
Proof. apply parseManifestFileName_exact. Qed.

(** Artifact names identify what they name: the names of segment files, of
    logs, of IDMap checkpoints and of delete snapshots are injective in the
    64-bit segment ID and generation, names of different kinds never coincide,
    and the checkpoint of a positive generation is a name the package owns. *)
Theorem artifact_names_injective (id1 g1 id2 g2 : Z) :
  is_u64 id1 -> is_u64 g1 -> is_u64 id2 -> is_u64 g2 ->
  (segmentFileName id1 g1 = segmentFileName id2 g2 -> id1 = id2 /\ g1 = g2) /\
  (walFileName id1 g1 = walFileName id2 g2 -> id1 = id2 /\ g1 = g2) /\
  (IDMapCheckpointName g1 = IDMapCheckpointName g2 -> g1 = g2) /\
  (DeleteSnapshotName g1 = DeleteSnapshotName g2 -> g1 = g2) /\
  NoDup [segmentFileName id1 g1; walFileName id1 g1; IDMapCheckpointName g1; DeleteSnapshotName g1] /\
  (0 < g1 -> IsOwnedIDMapName ("idmap-" ++ pad20 g1 ++ ".pebble") = true).
Proof.
  intros H1 H2 H3 H4.
  assert (Hpad : forall a b c d, pad20 a ++ c = pad20 b ++ d -> pad20 a = pad20 b /\ c = d).
  { intros a b c d. apply str_app_inj. by rewrite !length_pad20. }
  assert (Hpre : forall p a b : string, p ++ a = p ++ b -> a = b) by (intros p a b Hx; by apply str_app_inj in Hx as [_ ?]).
  unfold segmentFileName, walFileName, IDMapCheckpointName, DeleteSnapshotName.
  split; [|split; [|split; [|split; [|split]]]].
  - intros [Ha Hx%Hpre]%Hpre%Hpad. apply Hpad in Hx as [Hb _]. split; by apply pad20_inj.
  - intros [Ha Hx%Hpre]%Hpre%Hpad. apply Hpad in Hx as [Hb _]. split; by apply pad20_inj.
  - intros [Ha _]%Hpre%Hpad. by apply pad20_inj.
  - intros [Ha _]%Hpre%Hpad. by apply pad20_inj.
  - repeat (apply NoDup_cons; split); [| | | |constructor];
      rewrite ?elem_of_cons, ?elem_of_nil; intros Hx; repeat destruct Hx as [Hx|Hx]; try done; discriminate Hx.
  - intros Hg. unfold IsOwnedIDMapName.
    assert (has_prefix "idmap-" ("idmap-" ++ pad20 g1 ++ ".pebble") = true) as Hp1 by (apply has_prefix_spec; eauto).
    assert (forall a, has_suffix ".pebble" (a ++ ".pebble") = true /\ trim_suffix ".pebble" (a ++ ".pebble") = a) as Hsuf.
    { intros a. assert (has_suffix ".pebble" (a ++ ".pebble") = true) as Hs.
      { unfold has_suffix. rewrite str_length_app. apply andb_true_iff. split; [apply Nat.leb_le; lia|].
        replace (String.length a + String.length ".pebble" - String.length ".pebble")%nat with (String.length a) by lia.
        by rewrite str_drop_app, String.eqb_refl. }
      split; [done|]. unfold trim_suffix. rewrite Hs, str_length_app.
      replace (String.length a + String.length ".pebble" - String.length ".pebble")%nat with (String.length a) by lia.
      apply str_take_app. }
    rewrite Hp1, str_app_assoc. rewrite (proj1 (Hsuf _)). cbn [andb]. rewrite <- str_app_assoc.
    assert (trim_prefix "idmap-" ("idmap-" ++ pad20 g1 ++ ".pebble") = pad20 g1 ++ ".pebble") as ->.
    { unfold trim_prefix. rewrite Hp1. apply str_drop_app. }
    rewrite (proj2 (Hsuf _)), length_pad20, ParseUint_pad20 by done. cbn. by apply Z.ltb_lt.
Qed.

Lemma artifact_names_injective_witness :
  segmentFileName 3 7 = segmentFileName 3 7 /\ NoDup [segmentFileName 3 7; walFileName 3 7; IDMapCheckpointName 7; DeleteSnapshotName 7].
Proof.
  split; [reflexivity|].
  exact (proj1 (proj2 (proj2 (proj2 (proj2 (artifact_names_injective 3 7 3 7 ltac:(vm_compute; split; discriminate)
    ltac:(vm_compute; split; discriminate) ltac:(vm_compute; split; discriminate) ltac:(vm_compute; split; discriminate))))))).
Defined.
(** ** Names outside [.pebble] directories

    A name without "e/" lies in no directory whose name ends with [.pebble]; the
    names that the collection makes are such. *)
Fixpoint e_slash (s : string) : bool :=
  match s with
  | EmptyString => false
  | String c s => (Ascii.eqb c "e" && has_prefix "/" s) || e_slash s
  end.
Definition pebble_free (n : string) : Prop := e_slash n = false.

Lemma e_slash_app a b : e_slash b = true -> e_slash (a ++ b) = true.
Proof.
  intros Hb. induction a as [|c a IH]; [done|]. change (String c a ++ b) with (String c (a ++ b)). cbn [e_slash].
  rewrite IH. apply orb_true_r.
Qed.
Lemma plain_below name p rest : name = p ++ ".pebble" -> ~ pebble_free (name ++ "/" ++ rest).
Proof.
  intros -> Hp. unfold pebble_free in Hp. rewrite <- str_app_assoc, e_slash_app in Hp; [done|]. reflexivity.
Qed.
Lemma digit_not_e d : 0 <= d < 10 -> Ascii.eqb (digit d) "e" = false.
Proof.
  intros Hd. assert (d = 0 \/ d = 1 \/ d = 2 \/ d = 3 \/ d = 4 \/ d = 5 \/ d = 6 \/ d = 7 \/ d = 8 \/ d = 9) as H by lia.
  repeat destruct H as [->|H]; try reflexivity. by subst.
Qed.
Lemma e_slash_digits w n acc b : e_slash (dec_digits w n acc ++ b) = e_slash (acc ++ b).
Proof.
  revert n acc. induction w as [|w IH]; intros n acc; [done|]. cbn [dec_digits]. rewrite IH.
  change (String (digit (n mod 10)) acc ++ b) with (String (digit (n mod 10)) (acc ++ b)). cbn [e_slash].
  by rewrite digit_not_e by (apply Z.mod_pos_bound; lia).
Qed.
Lemma e_slash_pad20 n b : e_slash (pad20 n ++ b) = e_slash b.
Proof. unfold pad20. by rewrite e_slash_digits. Qed.

Lemma plain_idmap g : pebble_free (IDMapCheckpointName g).
Proof. change (e_slash (pad20 g ++ ".pebble") = false). by rewrite e_slash_pad20. Qed.
Lemma plain_deletes g : pebble_free (DeleteSnapshotName g).
Proof. change (e_slash (pad20 g ++ ".snap") = false). by rewrite e_slash_pad20. Qed.
Lemma plain_segment id g : pebble_free (segmentFileName id g).
Proof.
  change (e_slash (pad20 id ++ "/data-" ++ pad20 g ++ ".seg") = false). rewrite e_slash_pad20.
  change (e_slash (pad20 g ++ ".seg") = false). by rewrite e_slash_pad20.
Qed.
Lemma plain_log id g : pebble_free (walFileName id g).
Proof.
  change (e_slash (pad20 id ++ "-" ++ pad20 g ++ ".wal") = false). rewrite e_slash_pad20.
  change (e_slash (pad20 g ++ ".wal") = false). by rewrite e_slash_pad20.
Qed.
