(* ===== verification/Manifest.v ===== *)
(** * Manifests: [internal/db/index/common/manifest.go]

    The metadata of segments, shared by the segment files and the manifests, and
    the manifest with its validation.  Deep copies ([Clone]) are the identity on
    values.  The JSON payload codec ([MarshalManifest], [UnmarshalManifest]) is
    not modelled. *)
From S2P Require Import Prelude Bytes Json Paths Names.
From Stdlib Require Import Ascii Sorting.Sorted.
#[local] Open Scope string_scope.
#[local] Open Scope Z_scope.

Record SegmentMetadata := {
  sm_ID : Z;
  sm_MinDocID : Z;
  sm_MaxDocID : Z;
  sm_DocCount : Z;
  sm_Files : list string
}.

#[export] Instance SegmentMetadata_eq_dec : EqDecision SegmentMetadata.
Proof. solve_decision. Defined.

(** The loop over the files, [seen] being the set built so far. *)
Fixpoint validate_files (seen : gset string) (files : list string) : result unit :=
  match files with
  | [] => Ok tt
  | name :: files =>
      match ValidatePortableRelativePath name with
      | Fail e => Fail e
      | Ok _ =>
          if bool_decide (name ∈ seen) then Fail (errors_New "duplicate file")
          else validate_files ({[name]} ∪ seen) files
      end
  end.

Definition ValidateSegment (segment : SegmentMetadata) : result unit :=
  let range :=
    if sm_DocCount segment =? 0 then
      if negb (sm_MinDocID segment =? 0) || negb (sm_MaxDocID segment =? 0)
      then Fail (errors_New "empty segment has a document range") else Ok tt
    else if sm_MaxDocID segment <? sm_MinDocID segment
    then Fail (errors_New "maximum document ID is below minimum")
    else if sm_MaxDocID segment - sm_MinDocID segment <? sm_DocCount segment - 1
    then Fail (errors_New "document count exceeds the document ID range")
    else Ok tt in
  match range with
  | Fail e => Fail e
  | Ok _ => validate_files ∅ (sm_Files segment)
  end.

Lemma validate_files_Ok seen files :
  validate_files seen files = Ok tt <->
  Forall (fun name => ValidatePortableRelativePath name = Ok tt) files /\ NoDup files /\
  (forall name, name ∈ files -> name ∉ seen).
Proof.
  revert seen. induction files as [|name files IH]; intros seen; simpl.
  { split; [|done]. intros _. split; [constructor|]. split; [constructor|]. intros name H.
    by apply elem_of_nil in H. }
  rewrite Forall_cons, NoDup_cons. destruct (ValidatePortableRelativePath name) as [[]|] eqn:E; [|naive_solver].
  case_bool_decide as Hin.
  - split; [done|]. intros (_ & _ & H). exfalso. apply (H name); [by left|done].
  - rewrite IH. split.
    + intros (Hp & Hn & Hs). split; [done|]. split.
      * split; [|done]. intros Hm. apply (Hs name Hm). set_solver.
      * intros n [->|Hm]%elem_of_cons; [done|]. specialize (Hs n Hm). set_solver.
    + intros ([_ Hp] & [Hni Hn] & Hs). split; [done|]. split; [done|]. intros n Hm Hc.
      apply elem_of_union in Hc as [->%elem_of_singleton|Hc]; [done|]. apply (Hs n); [by right|done].
Qed.

(** ** Manifests *)
Definition DiskFormatVersion : Z := 3.

Definition ErrManifestNotFound : gerror := errors_New "db: manifest not found".
Definition ErrManifestCorrupt : gerror := errors_New "db: corrupt manifest".
Definition ErrManifestConflict : gerror := errors_New "db: manifest version conflict".
Definition ErrManifestExists : gerror := errors_New "db: collection manifest already exists".
Definition manifest_corrupt (detail : string) : gerror := GErr detail [ErrManifestCorrupt].

Record IndexArtifactMetadata := { ia_Field : string; ia_Kind : string; ia_File : string }.

Record SegmentIndexSnapshotMetadata := {
  si_SegmentID : Z;
  si_SchemaSHA256 : string;
  si_DocumentCount : Z;
  si_MinDocumentID : Z;
  si_MaxDocumentID : Z;
  si_Artifacts : list IndexArtifactMetadata
}.

Record Manifest := {
  mf_FormatVersion : Z;
  mf_Generation : Z;
  mf_Schema : bytes;
  mf_EnableMmap : bool;
  mf_SegmentMaxDocuments : Z;
  mf_PersistedSegments : list SegmentMetadata;
  mf_WritingSegment : option SegmentMetadata;
  mf_WritingSegmentStartDocID : Z;
  mf_IDMap : string;
  mf_DeleteSnapshotGeneration : Z;
  mf_NextSegmentID : Z;
  mf_SegmentIndexSnapshots : list SegmentIndexSnapshotMetadata
}.

#[export] Instance IndexArtifactMetadata_eq_dec : EqDecision IndexArtifactMetadata.
Proof. solve_decision. Defined.
#[export] Instance SegmentIndexSnapshotMetadata_eq_dec : EqDecision SegmentIndexSnapshotMetadata.
Proof. solve_decision. Defined.

(** *** [path.Dir], [path.Base] and [path.Ext] *)
Definition path_Dir (name : string) : string :=
  match reverse (path_split name) with
  | _ :: d :: dirs => path_Clean (path_join (reverse (d :: dirs)) ++ "/")
  | _ => path_Clean ""
  end.
Definition path_Base (name : string) : string :=
  if String.eqb name "" then "."
  else match filter (fun c => c <> "") (reverse (path_split name)) with
  | c :: _ => c
  | [] => "/"
  end.
(** The text from the last dot on. *)
Fixpoint ext_of (component : string) : string :=
  match component with
  | EmptyString => ""
  | String c rest =>
      let e := ext_of rest in
      if String.eqb e "" then (if Ascii.eqb c "."%char then component else "") else e
  end.
Definition path_Ext (name : string) : string :=
  match reverse (path_split name) with c :: _ => ext_of c | [] => "" end.

(** [hex.DecodeString] succeeds. *)
Fixpoint hex_string (s : string) : bool :=
  match s with
  | EmptyString => true
  | String a (String b s) => json_hex (byte_of_Z (Z.of_N (N_of_ascii a))) && json_hex (byte_of_Z (Z.of_N (N_of_ascii b))) && hex_string s
  | String _ EmptyString => false
  end.

(** *** [Validate] *)

(** The files of a segment against the resources named so far. *)
Fixpoint claim_files (files : list string) (resources : gset string) : result (gset string) :=
  match files with
  | [] => Ok resources
  | name :: files =>
      if bool_decide (name ∈ resources) then Fail (manifest_corrupt "artifact conflicts")
      else claim_files files ({[name]} ∪ resources)
  end.

Fixpoint validate_persisted (previous : option SegmentMetadata) (segments : list SegmentMetadata)
    (ids : gset Z) (resources : gset string) (maxSegmentID : Z) : result (gset Z * gset string * Z) :=
  match segments with
  | [] => Ok (ids, resources, maxSegmentID)
  | segment :: segments =>
      match ValidateSegment segment with
      | Fail _ => Fail (manifest_corrupt "persisted segment")
      | Ok _ =>
      if sm_DocCount segment =? 0 then Fail (manifest_corrupt "persisted segment is empty")
      else if bool_decide (sm_ID segment ∈ ids) then Fail (manifest_corrupt "duplicate segment ID")
      else if match previous with
              | Some previous => (0 <? sm_DocCount previous) && (0 <? sm_DocCount segment)
                                 && (sm_MinDocID segment <=? sm_MaxDocID previous)
              | None => false
              end
      then Fail (manifest_corrupt "persisted segments are not sorted")
      else match claim_files (sm_Files segment) resources with
      | Fail e => Fail e
      | Ok resources =>
          validate_persisted (Some segment) segments ({[sm_ID segment]} ∪ ids) resources
            (Z.max maxSegmentID (sm_ID segment))
      end end
  end.

Definition artifact_key (a : IndexArtifactMetadata) : string := ia_Field a ++ String Ascii.zero (ia_Kind a).

Fixpoint validate_artifacts (artifacts : list IndexArtifactMetadata) (seenArtifacts seenSegmentFiles resources : gset string)
    : result (gset string * gset string) :=
  match artifacts with
  | [] => Ok (seenSegmentFiles, resources)
  | artifact :: artifacts =>
      if String.eqb (ia_Field artifact) "" || String.eqb (ia_Kind artifact) ""
      then Fail (manifest_corrupt "index artifact has an empty field or kind")
      else match ValidatePortableRelativePath (ia_File artifact) with
      | Fail _ => Fail (manifest_corrupt "index artifact")
      | Ok _ =>
      if (String.eqb (ia_Kind artifact) "fts" || String.eqb (ia_Kind artifact) "invert")
         && negb (String.eqb (path_Ext (ia_File artifact)) ".pebble")
      then Fail (manifest_corrupt "index artifact must be a Pebble directory")
      else if bool_decide (artifact_key artifact ∈ seenArtifacts)
      then Fail (manifest_corrupt "duplicate index artifact")
      else if bool_decide (ia_File artifact ∈ seenSegmentFiles)
      then Fail (manifest_corrupt "duplicate segment index artifact file")
      else if bool_decide (ia_File artifact ∈ resources)
      then Fail (manifest_corrupt "segment index artifact conflicts")
      else validate_artifacts artifacts ({[artifact_key artifact]} ∪ seenArtifacts)
             ({[ia_File artifact]} ∪ seenSegmentFiles) ({[ia_File artifact]} ∪ resources)
      end
  end.

(** [segmentByID], a map in which the last segment of an ID wins. *)
Fixpoint segment_by_id (segments : list SegmentMetadata) (byID : gmap Z SegmentMetadata) : gmap Z SegmentMetadata :=
  match segments with
  | [] => byID
  | segment :: segments => segment_by_id segments (<[sm_ID segment := segment]> byID)
  end.

Fixpoint validate_indexes (byID : gmap Z SegmentMetadata) (snapshots : list SegmentIndexSnapshotMetadata)
    (seenSegmentIndexes : gset Z) (seenSegmentFiles resources : gset string) : result unit :=
  match snapshots with
  | [] => Ok tt
  | snapshot :: snapshots =>
      match byID !! si_SegmentID snapshot with
      | None => Fail (manifest_corrupt "segment index snapshot references missing segment")
      | Some segment =>
      if bool_decide (si_SegmentID snapshot ∈ seenSegmentIndexes)
      then Fail (manifest_corrupt "duplicate index snapshot")
      else if negb (si_DocumentCount snapshot =? sm_DocCount segment) || negb (si_MinDocumentID snapshot =? sm_MinDocID segment)
              || negb (si_MaxDocumentID snapshot =? sm_MaxDocID segment)
      then Fail (manifest_corrupt "index snapshot has mismatched document bounds")
      else if negb (String.length (si_SchemaSHA256 snapshot) =? 64)%nat || negb (hex_string (si_SchemaSHA256 snapshot))
      then Fail (manifest_corrupt "invalid segment index schema hash")
      else match validate_artifacts (si_Artifacts snapshot) ∅ seenSegmentFiles resources with
      | Fail e => Fail e
      | Ok (seenSegmentFiles, resources) =>
          validate_indexes byID snapshots ({[si_SegmentID snapshot]} ∪ seenSegmentIndexes) seenSegmentFiles resources
      end end
  end.

(** The writing segment, if there is one, after the persisted ones. *)
Definition validate_writing (writing : option SegmentMetadata) (ids : gset Z) (resources : gset string)
    (maxSegmentID : Z) : result (gset string * Z) :=
  match writing with
  | None => Ok (resources, maxSegmentID)
  | Some w =>
      match ValidateSegment w with
      | Fail _ => Fail (manifest_corrupt "writing segment")
      | Ok _ =>
          if bool_decide (sm_ID w ∈ ids) then Fail (manifest_corrupt "writing segment ID is already persisted")
          else match claim_files (sm_Files w) resources with
          | Fail e => Fail e
          | Ok resources => Ok (resources, Z.max maxSegmentID (sm_ID w))
          end
      end
  end.

(** [Validate] from the table of claimed files on. *)
Definition validate_contents (m : Manifest) : result unit :=
  let resources := {[ mf_IDMap m; DeleteSnapshotName (mf_DeleteSnapshotGeneration m) ]} in
  match validate_persisted None (mf_PersistedSegments m) ∅ resources 0 with
  | Fail e => Fail e
  | Ok (ids, resources, maxSegmentID) =>
      match validate_writing (mf_WritingSegment m) ids resources maxSegmentID with
      | Fail e => Fail e
      | Ok (resources, maxSegmentID) =>
          if (negb (bool_decide (mf_PersistedSegments m = [])) || bool_decide (is_Some (mf_WritingSegment m)))
             && (mf_NextSegmentID m <=? maxSegmentID)
          then Fail (manifest_corrupt "next segment ID must exceed")
          else validate_indexes (segment_by_id (mf_PersistedSegments m) ∅) (mf_SegmentIndexSnapshots m) ∅ ∅ resources
      end
  end.

Definition Manifest_Validate (m : Manifest) : result unit :=
  if negb (mf_FormatVersion m =? DiskFormatVersion) then Fail (errorf "format version" ErrUnsupportedFormatVersion)
  else if mf_Generation m =? 0 then Fail (manifest_corrupt "generation must be positive")
  else if negb (json_Valid (mf_Schema m)) then Fail (manifest_corrupt "schema is not valid JSON")
  else if mf_SegmentMaxDocuments m =? 0 then Fail (manifest_corrupt "segment capacity must be positive")
  else match ValidatePortableRelativePath (mf_IDMap m) with
  | Fail _ => Fail (manifest_corrupt "invalid IDMap path")
  | Ok _ =>
  if negb (String.eqb (path_Dir (mf_IDMap m)) "idmap") || negb (IsOwnedIDMapName (path_Base (mf_IDMap m)))
     || has_prefix ".working-" (path_Base (mf_IDMap m))
  then Fail (manifest_corrupt "IDMap must name an immutable package-owned Pebble checkpoint")
  else if mf_DeleteSnapshotGeneration m =? 0 then Fail (manifest_corrupt "delete snapshot generation must be positive")
  else if negb (json_object (mf_Schema m)) then Fail (manifest_corrupt "schema must be a JSON object")
  else validate_contents m
  end.

(** [prepareManifest] of [version_manager.go] *)
Definition prepareManifest (m : Manifest) (generation : Z) : Manifest :=
  {| mf_FormatVersion := if mf_FormatVersion m =? 0 then DiskFormatVersion else mf_FormatVersion m;
     mf_Generation := generation; mf_Schema := mf_Schema m; mf_EnableMmap := mf_EnableMmap m;
     mf_SegmentMaxDocuments := mf_SegmentMaxDocuments m; mf_PersistedSegments := mf_PersistedSegments m;
     mf_WritingSegment := mf_WritingSegment m; mf_WritingSegmentStartDocID := mf_WritingSegmentStartDocID m;
     mf_IDMap := mf_IDMap m; mf_DeleteSnapshotGeneration := mf_DeleteSnapshotGeneration m;
     mf_NextSegmentID := mf_NextSegmentID m; mf_SegmentIndexSnapshots := mf_SegmentIndexSnapshots m |}.

(** ** What [Validate] accepts *)
Lemma claim_files_Ok files R R' :
  claim_files files R = Ok R' <-> NoDup files /\ (forall n, n ∈ files -> n ∉ R) /\ R' = list_to_set files ∪ R.
Proof.
  revert R. induction files as [|n files IH]; intros R; cbn [claim_files list_to_set].
  { rewrite (union_empty_l_L R). split; [intros [= <-]; split; [constructor|]; split; [by intros ? ?%elem_of_nil|done]|by intros (_ & _ & ->)]. }
  rewrite NoDup_cons. case_bool_decide as Hin.
  - split; [done|]. intros (_ & H & _). exfalso. apply (H n); [by left|done].
  - rewrite IH. split.
    + intros (Hnd & Hd & ->). split; [split; [|done]|split].
      * intros Hn. apply (Hd n Hn). set_solver.
      * intros x [->|Hx]%elem_of_cons; [done|]. specialize (Hd x Hx). set_solver.
      * set_solver.
    + intros ([Hni Hnd] & Hd & ->). split; [done|]. split; [|set_solver].
      intros x Hx. specialize (Hd x ltac:(by right)). set_solver.
Qed.

Definition files_of (segments : list SegmentMetadata) : list string := mjoin (sm_Files <$> segments).

Definition segment_before (a b : SegmentMetadata) : Prop := sm_MaxDocID a < sm_MinDocID b.

Lemma validate_persisted_Ok segments previous ids R top ids' R' top' :
  Forall (fun s => 0 <= sm_DocCount s) segments ->
  (forall p, previous = Some p -> 0 < sm_DocCount p) ->
  validate_persisted previous segments ids R top = Ok (ids', R', top') <->
    Forall (fun s => ValidateSegment s = Ok tt /\ sm_DocCount s <> 0) segments /\
    NoDup (sm_ID <$> segments) /\ (forall s, s ∈ segments -> sm_ID s ∉ ids) /\
    Sorted segment_before (option_list previous ++ segments) /\
    NoDup (files_of segments) /\ (forall n, n ∈ files_of segments -> n ∉ R) /\
    ids' = list_to_set (sm_ID <$> segments) ∪ ids /\ R' = list_to_set (files_of segments) ∪ R /\
    top' = foldl Z.max top (sm_ID <$> segments).
Proof.
  intros Hpos. revert previous ids R top. induction Hpos as [|s segments Hs Hpos IH]; intros previous ids R top Hprev;
    cbn [validate_persisted].
  { unfold files_of. cbn. rewrite (union_empty_l_L ids), (union_empty_l_L R). split.
    - intros [= <- <- <-]. split; [constructor|]. split; [constructor|]. split; [by intros ? ?%elem_of_nil|].
      split; [destruct previous; repeat constructor|]. split; [constructor|]. split; [by intros ? ?%elem_of_nil|done].
    - by intros (_ & _ & _ & _ & _ & _ & -> & -> & ->). }
  rewrite Forall_cons, fmap_cons, NoDup_cons. cbn [foldl].
  change (files_of (s :: segments)) with (sm_Files s ++ files_of segments)%list.
  destruct (ValidateSegment s) as [[]|] eqn:Ev; [|by split; [|intros [[[? ?] ?] ?]]].
  destruct (sm_DocCount s =? 0) eqn:E0; to_prop; [by split; [|intros [[[? ?] ?] ?]]|].
  case_bool_decide as Hid.
  { split; [done|]. intros (_ & _ & H & _). exfalso. apply (H s); [by left|done]. }
  assert (Hsorted : Sorted segment_before (option_list previous ++ s :: segments) <->
    match previous with Some p => segment_before p s | None => True end /\ Sorted segment_before (s :: segments)).
  { destruct previous as [p|]; [|by split; [|intros [_ ?]]].
    change (option_list (Some p) ++ s :: segments)%list with (p :: s :: segments). split.
    - intros [Hx Hh]%Sorted_inv. apply HdRel_inv in Hh. done.
    - intros [H1 H2]. by constructor; [|constructor]. }
  rewrite Hsorted.
  match goal with |- (if ?b then _ else _) = _ <-> _ => destruct b eqn:Eord end.
  { split; [done|]. intros (_ & _ & _ & [Hb _] & _). destruct previous as [p|]; [|done]. unfold segment_before in Hb.
    apply andb_true_iff in Eord as [_ Eord]. to_prop. lia. }
  assert (match previous with Some p => segment_before p s | None => True end) as Hb.
  { destruct previous as [p|]; [|done]. specialize (Hprev p eq_refl). unfold segment_before.
    destruct (0 <? sm_DocCount p) eqn:E1; destruct (0 <? sm_DocCount s) eqn:E2; cbn in Eord; to_prop; lia. }
  destruct (claim_files (sm_Files s) R) as [R1|err] eqn:Ec.
  - apply claim_files_Ok in Ec as (Hnd & Hd & ->). rewrite IH by (intros p [= <-]; lia). rewrite NoDup_app.
    change (option_list (Some s) ++ segments)%list with (s :: segments). split.
    + intros (H1 & H2 & H3 & H4 & H5 & H6 & -> & -> & ->). split; [done|]. split.
      { split; [|done]. intros (t & Ht & Htin)%list_elem_of_fmap. apply (H3 t Htin). rewrite Ht. apply elem_of_union_l, elem_of_singleton. done. }
      split. { intros t [->|Ht]%elem_of_cons; [done|]. specialize (H3 t Ht). clear -H3. set_solver. }
      split; [done|]. split.
      { split; [done|]. split; [|done]. intros n Hn Hn'. apply (H6 n Hn'). clear -Hn. set_solver. }
      split. { intros n [Hn|Hn]%elem_of_app; [by apply Hd|]. specialize (H6 n Hn). clear -H6. set_solver. }
      split; [clear; set_solver|]. split; [clear; set_solver|done].
    + intros (H1 & [H2 H2'] & H3 & H4 & (H5 & H5' & H5'') & H6 & -> & -> & ->). split; [by destruct H1|]. split; [done|].
      split. { intros t Ht Hin. apply elem_of_union in Hin as [Hin%elem_of_singleton|Hin]; [|by apply (H3 t); [right|]].
        apply H2. rewrite <- Hin. by apply list_elem_of_fmap_2. }
      split; [by destruct H4|]. split; [done|].
      split. { intros n Hn Hin. apply elem_of_union in Hin as [Hin%elem_of_list_to_set|Hin]; [by apply (H5' n)|].
        apply (H6 n); [by apply elem_of_app; right|done]. }
      split; [clear; set_solver|]. split; [clear; set_solver|done].
  - split; [done|]. intros (_ & _ & _ & _ & Hnd & Hd & _). exfalso. apply NoDup_app in Hnd as (Hnd & _ & _).
    assert (claim_files (sm_Files s) R = Ok (list_to_set (sm_Files s) ∪ R)) as Hc; [|congruence].
    apply claim_files_Ok. split; [done|]. split; [|done]. intros n Hn. apply Hd. apply elem_of_app. by left.
Qed.

Record artifact_ok (a : IndexArtifactMetadata) : Prop := {
  ao_field : ia_Field a <> "";
  ao_kind : ia_Kind a <> "";
  ao_file : ValidatePortableRelativePath (ia_File a) = Ok tt;
  ao_pebble : ia_Kind a = "fts" \/ ia_Kind a = "invert" -> path_Ext (ia_File a) = ".pebble"
}.

Lemma validate_artifacts_Ok artifacts A F R F' R' :
  validate_artifacts artifacts A F R = Ok (F', R') <->
    Forall artifact_ok artifacts /\ NoDup (artifact_key <$> artifacts) /\
    (forall a, a ∈ artifacts -> artifact_key a ∉ A) /\ NoDup (ia_File <$> artifacts) /\
    (forall a, a ∈ artifacts -> ia_File a ∉ F /\ ia_File a ∉ R) /\
    F' = list_to_set (ia_File <$> artifacts) ∪ F /\ R' = list_to_set (ia_File <$> artifacts) ∪ R.
Proof.
  revert A F R. induction artifacts as [|a artifacts IH]; intros A F R; cbn [validate_artifacts].
  { cbn. rewrite (union_empty_l_L F), (union_empty_l_L R). split.
    - intros [= <- <-]. do 2 (split; [constructor|]). split; [by intros ? ?%elem_of_nil|]. split; [constructor|].
      split; [by intros ? ?%elem_of_nil|done].
    - by intros (_ & _ & _ & _ & _ & -> & ->). }
  rewrite Forall_cons, !fmap_cons, !NoDup_cons.
  assert (Hneg : forall X : Prop, (artifact_ok a -> artifact_key a ∉ A -> ia_File a ∉ F -> ia_File a ∉ R -> X) ->
    (artifact_ok a /\ Forall artifact_ok artifacts) /\
    (artifact_key a ∉ artifact_key <$> artifacts /\ NoDup (artifact_key <$> artifacts)) /\
    (forall b, b ∈ a :: artifacts -> artifact_key b ∉ A) /\
    (ia_File a ∉ ia_File <$> artifacts /\ NoDup (ia_File <$> artifacts)) /\
    (forall b, b ∈ a :: artifacts -> ia_File b ∉ F /\ ia_File b ∉ R) /\
    F' = list_to_set (ia_File a :: (ia_File <$> artifacts)) ∪ F /\
    R' = list_to_set (ia_File a :: (ia_File <$> artifacts)) ∪ R -> X).
  { intros X HX ([H1 _] & _ & H3 & _ & H5 & _). destruct (H5 a ltac:(by left)). apply HX; auto. apply H3. by left. }
  destruct (String.eqb (ia_Field a) "" || String.eqb (ia_Kind a) "") eqn:E1.
  { split; [done|]. apply Hneg. intros [Hf Hk _ _] _ _ _. apply orb_true_iff in E1 as [E1|E1]; by apply String.eqb_eq in E1. }
  destruct (ValidatePortableRelativePath (ia_File a)) as [[]|err] eqn:E2.
  2:{ split; [done|]. apply Hneg. intros [_ _ Hp _] _ _ _. congruence. }
  match goal with |- (if ?b then _ else _) = _ <-> _ => destruct b eqn:E3 end.
  { split; [done|]. apply Hneg. intros [_ _ _ Hpe] _ _ _. apply andb_true_iff in E3 as [E3 E3'].
    apply negb_true_iff, String.eqb_neq in E3'. exfalso. apply E3', Hpe. apply orb_true_iff in E3 as [E3|E3]; apply String.eqb_eq in E3; auto. }
  case_bool_decide as E4; [split; [done|]; apply Hneg; intros; done|].
  case_bool_decide as E5; [split; [done|]; apply Hneg; intros; done|].
  case_bool_decide as E6; [split; [done|]; apply Hneg; intros; done|].
  assert (artifact_ok a) as Hok.
  { apply orb_false_iff in E1 as [E1 E1']. apply String.eqb_neq in E1, E1'. constructor; [done|done|done|].
    intros Hk. apply andb_false_iff in E3 as [E3|E3].
    - apply orb_false_iff in E3 as [E3 E3']. apply String.eqb_neq in E3, E3'. by destruct Hk.
    - by apply negb_false_iff, String.eqb_eq in E3. }
  rewrite IH. clear Hneg IH E1 E2 E3. cbn [list_to_set]. split.
  - intros (H1 & H2 & H3 & H4 & H5 & -> & ->). split; [done|]. split.
    { split; [|done]. intros (b & Hb & Hin)%list_elem_of_fmap. apply (H3 b Hin). rewrite Hb. clear. set_solver. }
    split. { intros b [->|Hin]%elem_of_cons; [done|]. specialize (H3 b Hin). clear -H3. set_solver. }
    split. { split; [|done]. intros (b & Hb & Hin)%list_elem_of_fmap. destruct (H5 b Hin) as [H6 _]. apply H6. rewrite Hb. clear. set_solver. }
    split. { intros b [->|Hin]%elem_of_cons; [done|]. specialize (H5 b Hin). clear -H5. set_solver. }
    split; clear; set_solver.
  - intros ([_ H1] & [H2 H2'] & H3 & [H4 H4'] & H5 & -> & ->). split; [done|]. split; [done|]. split.
    { intros b Hin Hk. apply elem_of_union in Hk as [Hk%elem_of_singleton|Hk].
      - apply H2. rewrite <- Hk. by apply list_elem_of_fmap_2.
      - by apply (H3 b); [right|]. }
    split; [done|]. split.
    { intros b Hin. destruct (H5 b ltac:(by right)) as [H6 H7].
      assert (ia_File b <> ia_File a) as Hne.
      { intros Hk. apply H4. rewrite <- Hk. by apply list_elem_of_fmap_2. }
      clear -H6 H7 Hne. set_solver. }
    split; clear; set_solver.
Qed.

Record index_ok (byID : gmap Z SegmentMetadata) (s : SegmentIndexSnapshotMetadata) : Prop := {
  xo_segment : exists segment, byID !! si_SegmentID s = Some segment /\ si_DocumentCount s = sm_DocCount segment /\
    si_MinDocumentID s = sm_MinDocID segment /\ si_MaxDocumentID s = sm_MaxDocID segment;
  xo_hash : String.length (si_SchemaSHA256 s) = 64%nat /\ hex_string (si_SchemaSHA256 s) = true;
  xo_artifacts : Forall artifact_ok (si_Artifacts s);
  xo_keys : NoDup (artifact_key <$> si_Artifacts s)
}.

Definition artifact_files (snapshots : list SegmentIndexSnapshotMetadata) : list string :=
  mjoin ((fun s => ia_File <$> si_Artifacts s) <$> snapshots).

Lemma validate_indexes_Ok byID snapshots I F R :
  validate_indexes byID snapshots I F R = Ok tt <->
    Forall (index_ok byID) snapshots /\ NoDup (si_SegmentID <$> snapshots) /\
    (forall s, s ∈ snapshots -> si_SegmentID s ∉ I) /\ NoDup (artifact_files snapshots) /\
    (forall n, n ∈ artifact_files snapshots -> n ∉ F /\ n ∉ R).
Proof.
  revert I F R. induction snapshots as [|s snapshots IH]; intros I F R; cbn [validate_indexes].
  { split; [intros _|done]. do 2 (split; [constructor|]). split; [by intros ? ?%elem_of_nil|]. split; [constructor|].
    by intros ? ?%elem_of_nil. }
  rewrite Forall_cons, fmap_cons, NoDup_cons.
  change (artifact_files (s :: snapshots)) with ((ia_File <$> si_Artifacts s) ++ artifact_files snapshots)%list.
  rewrite NoDup_app.
  destruct (byID !! si_SegmentID s) as [segment|] eqn:Eb.
  2:{ split; [done|]. intros [[[(x & Hx & _) _ _ _] _] _]. congruence. }
  case_bool_decide as E1.
  { split; [done|]. intros (_ & _ & H & _). exfalso. apply (H s); [by left|done]. }
  match goal with |- (if ?b then _ else _) = _ <-> _ => destruct b eqn:E2 end.
  { split; [done|]. intros [[[(x & Hx & H1 & H2 & H3) _ _ _] _] _]. rewrite Eb in Hx. injection Hx as <-.
    rewrite H1, H2, H3, !Z.eqb_refl in E2. done. }
  match goal with |- (if ?b then _ else _) = _ <-> _ => destruct b eqn:E3 end.
  { split; [done|]. intros [[[_ [H1 H2] _ _] _] _]. rewrite H1, H2 in E3. done. }
  apply orb_false_iff in E2 as [E2 E2c]. apply orb_false_iff in E2 as [E2a E2b]. apply orb_false_iff in E3 as [E3a E3b].
  apply negb_false_iff in E2a, E2b, E2c, E3a, E3b. to_prop. apply Nat.eqb_eq in E3a.
  destruct (validate_artifacts (si_Artifacts s) ∅ F R) as [[F' R']|err] eqn:Ea.
  - apply validate_artifacts_Ok in Ea as (H1 & H2 & _ & H4 & H5 & -> & ->). rewrite IH. split.
    + intros (G1 & G2 & G3 & G4 & G5). split.
      { split; [|done]. constructor; [by exists segment|done|done|done]. }
      split. { split; [|done]. intros (t & Ht & Hin)%list_elem_of_fmap. apply (G3 t Hin). rewrite Ht. clear. set_solver. }
      split. { intros t [->|Hin]%elem_of_cons; [done|]. specialize (G3 t Hin). clear -G3. set_solver. }
      split. { split; [done|]. split; [|done]. intros n Hn Hn'. destruct (G5 n Hn') as [G6 _]. clear -Hn G6. set_solver. }
      intros n [Hn|Hn]%elem_of_app; [|specialize (G5 n Hn); clear -G5; set_solver].
      apply list_elem_of_fmap in Hn as (a & -> & Ha). by apply H5.
    + intros ([_ G1] & [G2 G2'] & G3 & (_ & G4 & G4') & G5). split; [done|]. split; [done|]. split.
      { intros t Hin Hk. apply elem_of_union in Hk as [Hk%elem_of_singleton|Hk].
        - apply G2. rewrite <- Hk. by apply list_elem_of_fmap_2.
        - by apply (G3 t); [right|]. }
      split; [done|]. intros n Hn. destruct (G5 n) as [G6 G7]; [apply elem_of_app; by right|].
      assert (n ∉ ia_File <$> si_Artifacts s) as G8 by (intros Hn'; by apply (G4 n)). clear -G6 G7 G8. set_solver.
  - split; [done|]. intros ([[_ _ G1 G2] _] & _ & _ & (G3 & _) & G5). exfalso.
    assert (validate_artifacts (si_Artifacts s) ∅ F R =
      Ok (list_to_set (ia_File <$> si_Artifacts s) ∪ F, list_to_set (ia_File <$> si_Artifacts s) ∪ R)) as Hc; [|congruence].
    apply validate_artifacts_Ok. split; [done|]. split; [done|]. split; [intros a _; apply not_elem_of_empty|].
    split; [done|]. split; [|done]. intros a Ha. apply G5, elem_of_app. left. by apply list_elem_of_fmap_2.
Qed.

Lemma segment_by_id_lookup segments byID id s :
  NoDup (sm_ID <$> segments) ->
  segment_by_id segments byID !! id = Some s <->
    (s ∈ segments /\ sm_ID s = id) \/ (byID !! id = Some s /\ id ∉ sm_ID <$> segments).
Proof.
  revert byID. induction segments as [|t segments IH]; intros byID Hnd; cbn [segment_by_id].
  { split; [intros H; right; split; [done|apply not_elem_of_nil]|]. intros [[?%elem_of_nil _]|[? _]]; done. }
  rewrite fmap_cons in *. apply NoDup_cons in Hnd as [Hni Hnd]. rewrite IH by done. split.
  - intros [[Hin Hid]|[Hl Hn]]; [left; split; [by right|done]|].
    apply lookup_insert_Some in Hl as [[<- ->]|[Hne Hl]]; [left; split; [by left|done]|].
    right. split; [done|]. intros [?|?]%elem_of_cons; congruence.
  - intros [[[->|Hin]%elem_of_cons Hid]|[Hl Hn]].
    + right. subst id. split; [apply lookup_insert_eq|done].
    + by left.
    + right. apply not_elem_of_cons in Hn as [Hne Hn]. by rewrite lookup_insert_ne by done.
Qed.

Lemma foldl_max_lt ids top next : foldl Z.max top ids < next <-> top < next /\ forall id, id ∈ ids -> id < next.
Proof.
  revert top. induction ids as [|id ids IH]; intros top; cbn [foldl].
  { split; [intros H; split; [done|]; by intros ? ?%elem_of_nil|by intros [? _]]. }
  rewrite IH. split.
  - intros [H1 H2]. split; [lia|]. intros x [->|Hx]%elem_of_cons; [lia|auto].
  - intros [H1 H2]. split; [|intros x Hx; apply H2; by right]. pose proof (H2 id ltac:(by left)). lia.
Qed.

(** The segments of a manifest, the writing one last. *)
Definition all_segments (m : Manifest) : list SegmentMetadata := (mf_PersistedSegments m ++ option_list (mf_WritingSegment m))%list.

(** Format-level well-formedness, as properties of the whole manifest. *)
Record manifest_wf (m : Manifest) : Prop := {
  mw_version : mf_FormatVersion m = DiskFormatVersion;
  mw_generation : mf_Generation m <> 0;
  mw_schema : json_Valid (mf_Schema m) = true /\ json_object (mf_Schema m) = true;
  mw_capacity : mf_SegmentMaxDocuments m <> 0;
  mw_idmap : ValidatePortableRelativePath (mf_IDMap m) = Ok tt /\ path_Dir (mf_IDMap m) = "idmap" /\
    IsOwnedIDMapName (path_Base (mf_IDMap m)) = true /\ has_prefix ".working-" (path_Base (mf_IDMap m)) = false;
  mw_deletes : mf_DeleteSnapshotGeneration m <> 0;
  mw_valid : Forall (fun s => ValidateSegment s = Ok tt) (all_segments m);
  mw_nonempty : Forall (fun s => sm_DocCount s <> 0) (mf_PersistedSegments m);
  mw_ids : NoDup (sm_ID <$> all_segments m);
  mw_next : forall s, s ∈ all_segments m -> sm_ID s < mf_NextSegmentID m;
  mw_sorted : Sorted segment_before (mf_PersistedSegments m);
  mw_indexes : Forall (fun x => (exists segment, segment ∈ mf_PersistedSegments m /\ sm_ID segment = si_SegmentID x /\
      si_DocumentCount x = sm_DocCount segment /\ si_MinDocumentID x = sm_MinDocID segment /\
      si_MaxDocumentID x = sm_MaxDocID segment) /\
    String.length (si_SchemaSHA256 x) = 64%nat /\ hex_string (si_SchemaSHA256 x) = true /\
    Forall artifact_ok (si_Artifacts x) /\ NoDup (artifact_key <$> si_Artifacts x)) (mf_SegmentIndexSnapshots m);
  mw_index_ids : NoDup (si_SegmentID <$> mf_SegmentIndexSnapshots m);
  mw_files : NoDup (files_of (all_segments m) ++ artifact_files (mf_SegmentIndexSnapshots m))%list /\
    forall n, n ∈ (files_of (all_segments m) ++ artifact_files (mf_SegmentIndexSnapshots m))%list ->
      n <> mf_IDMap m /\ n <> DeleteSnapshotName (mf_DeleteSnapshotGeneration m)
}.

Lemma files_of_app a b : files_of (a ++ b)%list = (files_of a ++ files_of b)%list.
Proof. unfold files_of. by rewrite fmap_app, join_app. Qed.

(** The same conditions in the order in which [Validate] meets them. *)
Lemma manifest_wf_parts (m : Manifest) :
  let ps := mf_PersistedSegments m in
  let ws := option_list (mf_WritingSegment m) in
  let xs := mf_SegmentIndexSnapshots m in
  let taken n := n <> mf_IDMap m /\ n <> DeleteSnapshotName (mf_DeleteSnapshotGeneration m) in
  NoDup (sm_ID <$> ps) ->
  (Forall (fun s => ValidateSegment s = Ok tt) (ps ++ ws)%list /\ Forall (fun s => sm_DocCount s <> 0) ps /\
   NoDup (sm_ID <$> (ps ++ ws)%list) /\ NoDup (files_of (ps ++ ws) ++ artifact_files xs)%list /\
   (forall n, n ∈ (files_of (ps ++ ws) ++ artifact_files xs)%list -> taken n) /\
   Forall (fun x => (exists segment, segment ∈ ps /\ sm_ID segment = si_SegmentID x /\
      si_DocumentCount x = sm_DocCount segment /\ si_MinDocumentID x = sm_MinDocID segment /\
      si_MaxDocumentID x = sm_MaxDocID segment) /\
    String.length (si_SchemaSHA256 x) = 64%nat /\ hex_string (si_SchemaSHA256 x) = true /\
    Forall artifact_ok (si_Artifacts x) /\ NoDup (artifact_key <$> si_Artifacts x)) xs) <->
  (Forall (fun s => ValidateSegment s = Ok tt /\ sm_DocCount s <> 0) ps /\ NoDup (files_of ps) /\
   (forall n, n ∈ files_of ps -> taken n)) /\
  (Forall (fun s => ValidateSegment s = Ok tt) ws /\ (forall w, w ∈ ws -> sm_ID w ∉ sm_ID <$> ps) /\
   NoDup (files_of ws) /\ (forall n, n ∈ files_of ws -> taken n /\ n ∉ files_of ps)) /\
  (Forall (index_ok (segment_by_id ps ∅)) xs /\ NoDup (artifact_files xs) /\
   (forall n, n ∈ artifact_files xs -> taken n /\ n ∉ files_of (ps ++ ws)%list)).
Proof.
  intros ps ws xs taken Hnd.
  assert (Hx : forall x, index_ok (segment_by_id ps ∅) x <->
    (exists segment, segment ∈ ps /\ sm_ID segment = si_SegmentID x /\
      si_DocumentCount x = sm_DocCount segment /\ si_MinDocumentID x = sm_MinDocID segment /\
      si_MaxDocumentID x = sm_MaxDocID segment) /\
    String.length (si_SchemaSHA256 x) = 64%nat /\ hex_string (si_SchemaSHA256 x) = true /\
    Forall artifact_ok (si_Artifacts x) /\ NoDup (artifact_key <$> si_Artifacts x)).
  { intros x. split.
    - intros [(g & Hg & H1) [H2 H3] H4 H5]. split; [|done]. exists g.
      apply segment_by_id_lookup in Hg as [Hg|[Hg _]]; [tauto|by rewrite lookup_empty in Hg|done].
    - intros [(g & Hg & Hid & H1) (H2 & H3 & H4 & H5)]. constructor; [|done|done|done]. exists g. split; [|done].
      apply segment_by_id_lookup; [done|]. by left. }
  assert (NoDup (sm_ID <$> (ps ++ ws)%list) <-> forall w, w ∈ ws -> sm_ID w ∉ sm_ID <$> ps) as ->.
  { rewrite fmap_app, NoDup_app. split.
    - intros (_ & H & _) w Hw Hin. apply (H _ Hin). by apply list_elem_of_fmap_2.
    - intros H. split; [done|]. split; [|unfold ws; destruct (mf_WritingSegment m); cbn; [apply NoDup_singleton|constructor]].
      intros i Hi (w & -> & Hw)%list_elem_of_fmap. by apply (H w). }
  rewrite Forall_app, files_of_app, <- app_assoc, !NoDup_app.
  assert (Forall (fun s => ValidateSegment s = Ok tt /\ sm_DocCount s <> 0) ps <->
    Forall (fun s => ValidateSegment s = Ok tt) ps /\ Forall (fun s => sm_DocCount s <> 0) ps) as ->.
  { rewrite !Forall_forall. split; [intros H; split; intros s Hs; by apply H|intros [H1 H2] s Hs; auto]. }
  assert (Forall (index_ok (segment_by_id ps ∅)) xs <-> Forall (fun x => (exists segment, segment ∈ ps /\ sm_ID segment = si_SegmentID x /\
      si_DocumentCount x = sm_DocCount segment /\ si_MinDocumentID x = sm_MinDocID segment /\
      si_MaxDocumentID x = sm_MaxDocID segment) /\
    String.length (si_SchemaSHA256 x) = 64%nat /\ hex_string (si_SchemaSHA256 x) = true /\
    Forall artifact_ok (si_Artifacts x) /\ NoDup (artifact_key <$> si_Artifacts x)) xs) as ->.
  { rewrite !Forall_forall. split; intros H x Hxs; apply Hx; auto. }
  repeat setoid_rewrite elem_of_app. clear Hx Hnd. split.
  - intros ((H1 & H2) & H3 & H4 & (H5 & H6 & H7 & H8 & H9) & H10 & H11).
    split; [split; [done|split; [done|intros n Hn; apply H10; by left]]|].
    split; [split; [done|split; [done|split; [done|]]]|].
    + intros n Hn. split; [apply H10; right; by left|]. intros Hn'. apply (H6 n Hn'). by left.
    + split; [done|]. split; [done|]. intros n Hn. split; [apply H10; right; by right|].
      intros [Hn'|Hn']; [apply (H6 n Hn'); by right|by apply (H8 n Hn')].
  - intros (((H1 & H1') & H2 & H3) & (H4 & H5 & H6 & H7) & H8 & H9 & H10).
    split; [done|]. split; [done|]. split; [done|]. split; [split; [done|split; [|split; [done|split; [|done]]]]|split; [|done]].
    + intros n Hn [Hn'|Hn']; [by destruct (H7 n Hn')|]. destruct (H10 n Hn') as [_ Hc]. apply Hc. by left.
    + intros n Hn Hn'. destruct (H10 n Hn') as [_ Hc]. apply Hc. by right.
    + intros n [Hn|[Hn|Hn]]; [by apply H3|by apply H7|by apply H10].
Qed.

(** *** The parts of [Validate] *)
Lemma validate_writing_Ok w ids R top R' top' :
  validate_writing w ids R top = Ok (R', top') <->
    Forall (fun s => ValidateSegment s = Ok tt) (option_list w) /\
    (forall s, s ∈ option_list w -> sm_ID s ∉ ids) /\ NoDup (files_of (option_list w)) /\
    (forall n, n ∈ files_of (option_list w) -> n ∉ R) /\
    R' = list_to_set (files_of (option_list w)) ∪ R /\ top' = foldl Z.max top (sm_ID <$> option_list w).
Proof.
  destruct w as [w|]; cbn [validate_writing].
  2:{ change (option_list (@None SegmentMetadata)) with (@nil SegmentMetadata). cbn. rewrite (union_empty_l_L R). split.
    - intros [= <- <-]. split; [constructor|]. split; [by intros ? ?%elem_of_nil|]. split; [constructor|].
      by split; [intros ? ?%elem_of_nil|].
    - by intros (_ & _ & _ & _ & -> & ->). }
  change (option_list (Some w)) with [w]. rewrite Forall_singleton.
  assert (files_of [w] = sm_Files w) as -> by (unfold files_of; cbn; by rewrite app_nil_r).
  change (foldl Z.max top (sm_ID <$> [w])) with (Z.max top (sm_ID w)).
  destruct (ValidateSegment w) as [[]|err]; [|split; [done|by intros [? _]]].
  case_bool_decide as Hid; [split; [done|]; intros (_ & H & _); exfalso; by apply (H w); [left|]|].
  pose proof (claim_files_Ok (sm_Files w) R) as Hc. destruct (claim_files (sm_Files w) R) as [R2|err].
  - destruct (proj1 (Hc R2) eq_refl) as (H1 & H2 & H3). split; [|by intros (_ & _ & _ & _ & -> & ->); rewrite H3].
    intros [= <- <-]. split; [done|]. split; [by intros ? ->%list_elem_of_singleton|done].
  - split; [done|]. intros (_ & _ & H1 & H2 & H3 & _). by assert (Fail err = Ok R') by (by apply Hc).
Qed.

(** The bound on the next segment ID. *)
Lemma next_segment_bound segments next :
  Forall (fun s => 0 <= sm_ID s /\ 0 <= sm_DocCount s) segments ->
  negb (bool_decide (segments = [])) && (next <=? foldl Z.max 0 (sm_ID <$> segments)) = false <->
    forall s, s ∈ segments -> sm_ID s < next.
Proof.
  intros Hs. case_bool_decide as Hne; cbn [negb andb].
  { subst. split; [by intros _ ? ?%elem_of_nil|done]. }
  rewrite Z.leb_gt, foldl_max_lt. setoid_rewrite list_elem_of_fmap. split.
  - intros [_ H] s Hin. apply H. eauto.
  - intros H. split; [|intros id (s & -> & Hin); auto]. destruct segments as [|s l]; [done|].
    apply Forall_cons in Hs as [[? _] _]. specialize (H s ltac:(by left)). lia.
Qed.

(** The conditions of [validate_contents] in its order. *)
Definition contents_wf (m : Manifest) (taken : string -> Prop) : Prop :=
  let ps := mf_PersistedSegments m in
  let ws := option_list (mf_WritingSegment m) in
  let xs := mf_SegmentIndexSnapshots m in
  (Forall (fun s => ValidateSegment s = Ok tt /\ sm_DocCount s <> 0) ps /\ NoDup (files_of ps) /\
   (forall n, n ∈ files_of ps -> taken n)) /\
  (Forall (fun s => ValidateSegment s = Ok tt) ws /\ (forall w, w ∈ ws -> sm_ID w ∉ sm_ID <$> ps) /\
   NoDup (files_of ws) /\ (forall n, n ∈ files_of ws -> taken n /\ n ∉ files_of ps)) /\
  (Forall (index_ok (segment_by_id ps ∅)) xs /\ NoDup (artifact_files xs) /\
   (forall n, n ∈ artifact_files xs -> taken n /\ n ∉ files_of (ps ++ ws)%list)).

Lemma match_Ok {A B} (r : result A) (f : A -> result B) b :
  match r with Fail e => Fail e | Ok a => f a end = Ok b <-> exists a, r = Ok a /\ f a = Ok b.
Proof. destruct r; naive_solver. Qed.

Lemma validate_contents_Ok (m : Manifest) :
  Forall (fun s => 0 <= sm_ID s /\ 0 <= sm_DocCount s) (all_segments m) ->
  validate_contents m = Ok tt <->
    NoDup (sm_ID <$> mf_PersistedSegments m) /\ Sorted segment_before (mf_PersistedSegments m) /\
    NoDup (si_SegmentID <$> mf_SegmentIndexSnapshots m) /\
    (forall s, s ∈ all_segments m -> sm_ID s < mf_NextSegmentID m) /\
    contents_wf m (fun n => n <> mf_IDMap m /\ n <> DeleteSnapshotName (mf_DeleteSnapshotGeneration m)).
Proof.
  intros Hall. pose proof Hall as [Hp _]%Forall_app. unfold validate_contents, contents_wf.
  rewrite <- (next_segment_bound (all_segments m) (mf_NextSegmentID m) Hall).
  set (R0 := {[mf_IDMap m; DeleteSnapshotName (mf_DeleteSnapshotGeneration m)]} : gset string).
  assert (HR0 : forall n, (n <> mf_IDMap m /\ n <> DeleteSnapshotName (mf_DeleteSnapshotGeneration m)) <-> n ∉ R0).
  { intros n. unfold R0. rewrite elem_of_union, !elem_of_singleton. tauto. }
  setoid_rewrite HR0. clear HR0. clearbody R0. unfold all_segments in *.
  set (ps := mf_PersistedSegments m) in *. set (w := mf_WritingSegment m) in *. set (xs := mf_SegmentIndexSnapshots m).
  assert (Hb : negb (bool_decide (ps = [])) || bool_decide (is_Some w) =
    negb (bool_decide ((ps ++ option_list w)%list = []))) by (by destruct ps, w).
  rewrite (match_Ok (validate_persisted None ps ∅ R0 0)). split.
  - intros ([[ids R1] top] & H1 & H2). apply validate_persisted_Ok in H1 as (G1 & G2 & _ & G4 & G5 & G6 & -> & -> & ->);
      [|by eapply Forall_impl; [exact Hp|intros ? []]|done].
    apply match_Ok in H2 as ([R2 top] & H2 & H3). apply validate_writing_Ok in H2 as (K1 & K2 & K3 & K4 & -> & ->).
    rewrite Hb, <- foldl_app, <- fmap_app in H3. rewrite (union_empty_r_L (list_to_set _)) in K2.
    setoid_rewrite elem_of_list_to_set in K2.
    destruct (negb _ && _) eqn:En; [done|]. apply validate_indexes_Ok in H3 as (J1 & J2 & _ & J4 & J5).
    split; [done|]. split; [done|]. split; [done|]. split; [done|]. split; [done|]. split.
    + split; [done|]. split; [done|]. split; [done|]. intros n Hn. specialize (K4 n Hn). clear -K4. set_solver.
    + split; [done|]. split; [done|]. intros n Hn. rewrite files_of_app. specialize (J5 n Hn). clear -J5. set_solver.
  - intros (G2 & G4 & J2 & En & (G1 & G5 & G6) & (K1 & K2 & K3 & K4) & J1 & J4 & J5).
    eexists (_, _, _). split.
    { apply validate_persisted_Ok; [by eapply Forall_impl; [exact Hp|intros ? []]|done|].
      split; [done|]. split; [done|]. split; [intros; apply not_elem_of_empty|]. done. }
    cbn beta iota. apply match_Ok. eexists (_, _). split.
    { apply validate_writing_Ok. rewrite (union_empty_r_L (list_to_set _)). setoid_rewrite elem_of_list_to_set.
      split; [done|]. split; [done|]. split; [done|]. split; [|done].
      intros n Hn. specialize (K4 n Hn). clear -K4. set_solver. }
    cbn beta iota. rewrite Hb, <- foldl_app, <- fmap_app, En. apply validate_indexes_Ok.
    split; [done|]. split; [done|]. split; [intros; apply not_elem_of_empty|]. split; [done|].
    intros n Hn. specialize (J5 n Hn). rewrite files_of_app in J5. clear -J5. set_solver.
Qed.

Lemma Manifest_Validate_wf (m : Manifest) :
  Forall (fun s => 0 <= sm_ID s /\ 0 <= sm_DocCount s) (all_segments m) ->
  Manifest_Validate m = Ok tt <-> manifest_wf m.
Proof.
  intros Hall. unfold Manifest_Validate.
  destruct (mf_FormatVersion m =? DiskFormatVersion) eqn:E1; to_prop; cbn [negb]; [|by split; [|intros []]].
  destruct (mf_Generation m =? 0) eqn:E2; to_prop; [by split; [|intros []]|].
  destruct (json_Valid (mf_Schema m)) eqn:E3; cbn [negb]; [|split; [done|]; intros [? ? [? ?]]; congruence].
  destruct (mf_SegmentMaxDocuments m =? 0) eqn:E4; to_prop; [by split; [|intros []]|].
  destruct (ValidatePortableRelativePath (mf_IDMap m)) as [[]|] eqn:E5; [|split; [done|]; intros [? ? ? ? [? ?]]; congruence].
  match goal with |- (if ?b then _ else _) = _ <-> _ => destruct b eqn:E6 end.
  { split; [done|]. intros [? ? ? ? (_ & H1 & H2 & H3)]. rewrite H1, H2, H3 in E6. done. }
  apply orb_false_iff in E6 as [E6 E6c]. apply orb_false_iff in E6 as [E6a E6b]. apply negb_false_iff in E6a, E6b.
  apply String.eqb_eq in E6a.
  destruct (mf_DeleteSnapshotGeneration m =? 0) eqn:E7; to_prop; [by split; [|intros []]|].
  destruct (json_object (mf_Schema m)) eqn:E8; cbn [negb]; [|split; [done|]; intros [? ? [? ?]]; congruence].
  rewrite (validate_contents_Ok m Hall). pose proof (manifest_wf_parts m) as Hparts. cbv zeta in Hparts. split.
  - intros (Hnd & H1 & H2 & H3 & Hrest). apply Hparts in Hrest as (G1 & G2 & G3 & G4 & G5 & G6); [|done].
    constructor; try done; by rewrite E3.
  - intros [? ? ? ? ? ? H1 H2 H3 H4 H5 H6 H7 [H8 H9]].
    assert (NoDup (sm_ID <$> mf_PersistedSegments m)) as Hnd.
    { unfold all_segments in H3. rewrite fmap_app in H3. by apply NoDup_app in H3 as (? & _ & _). }
    do 4 (split; [done|]). apply Hparts; [done|]. done.
Qed.

(** C32: manifest validation is exact.  For manifests whose counts and IDs are
    unsigned, [Validate] succeeds precisely on the well-formed ones: current
    format, positive generations, a schema that is a JSON object, an immutable
    IDMap checkpoint, valid segments with distinct IDs below the next one, the
    persisted ones non-empty and in ascending disjoint document ranges, index
    snapshots that match a persisted segment, and no file named twice, by
    segments, indexes, the IDMap or the delete snapshot. *)
Theorem manifest_validate_exact (m : Manifest) :
  Forall (fun s => 0 <= sm_ID s /\ 0 <= sm_DocCount s) (all_segments m) ->
  Manifest_Validate m = Ok tt <-> manifest_wf m.
Proof. apply Manifest_Validate_wf. Qed.

Definition ex_artifact : IndexArtifactMetadata :=
  {| ia_Field := "title"; ia_Kind := "fts"; ia_File := "indexes/title.pebble" |}.
Definition ex_manifest : Manifest :=
  {| mf_FormatVersion := 3; mf_Generation := 2; mf_Schema := [x7b; x7d]; mf_EnableMmap := false;
     mf_SegmentMaxDocuments := 100;
     mf_PersistedSegments := [{| sm_ID := 0; sm_MinDocID := 0; sm_MaxDocID := 9; sm_DocCount := 10;
                                 sm_Files := [segmentFileName 0 2] |}];
     mf_WritingSegment := Some {| sm_ID := 1; sm_MinDocID := 0; sm_MaxDocID := 0; sm_DocCount := 0;
                                  sm_Files := [walFileName 1 2] |};
     mf_WritingSegmentStartDocID := 10; mf_IDMap := IDMapCheckpointName 2; mf_DeleteSnapshotGeneration := 2;
     mf_NextSegmentID := 2;
     mf_SegmentIndexSnapshots := [{| si_SegmentID := 0;
       si_SchemaSHA256 := "44136fa355b3678a1146ad16f7e8649e94fb4fc21fe77e8310c060f61caaff8a";
       si_DocumentCount := 10; si_MinDocumentID := 0; si_MaxDocumentID := 9; si_Artifacts := [ex_artifact] |}] |}.

Lemma manifest_validate_exact_witness : Manifest_Validate ex_manifest = Ok tt /\ manifest_wf ex_manifest.
Proof.
  assert (Manifest_Validate ex_manifest = Ok tt) as H by (vm_compute; reflexivity).
  split; [exact H|].
  refine (proj1 (manifest_validate_exact ex_manifest _) H).
  repeat constructor; vm_compute; discriminate.
Defined.
