(* ===== verification/ManifestFile.v ===== *)
(** * Manifest files: [MarshalManifest] and [UnmarshalManifest] of
    [internal/db/index/common/manifest.go]

    A manifest file is a 32-byte header (magic, format version, header size,
    generation, payload length, checksum) and a JSON payload.  The framing is
    modelled here; what the code asks of [encoding/json] is the interface
    [ManifestJSON], implemented in [ManifestJson.v]. *)
From S2P Require Import Prelude Bytes Crc32c Json Paths Names Manifest.
#[local] Open Scope Z_scope.

Definition manifestHeaderSize : Z := 32.
Definition maxManifestSize : Z := 67108864.
Definition manifestMagic : bytes := byte_of_Z <$> [90; 86; 69; 67; 77; 65; 78; 0].

(** ** The interface to [encoding/json] *)
Class ManifestJSON := {
  (** what [json.Marshal] makes of a [json.RawMessage] *)
  mj_Compact : bytes -> bytes;
  mj_Marshal : Manifest -> result bytes;
  (** [json.Unmarshal] into a map of raw messages, then whether
      ["writing_segment_start_doc_id"] is there and not [null] *)
  mj_StartField : bytes -> result bool;
  (** [Decode] with [DisallowUnknownFields], then [ensureJSONEOF] *)
  mj_Decode : bytes -> result Manifest;
  (** manifests whose text [encoding/json] can carry without loss *)
  mj_Encodable : Manifest -> Prop
}.

Definition mf_set_schema (m : Manifest) (schema : bytes) : Manifest :=
  {| mf_FormatVersion := mf_FormatVersion m; mf_Generation := mf_Generation m; mf_Schema := schema;
     mf_EnableMmap := mf_EnableMmap m; mf_SegmentMaxDocuments := mf_SegmentMaxDocuments m;
     mf_PersistedSegments := mf_PersistedSegments m; mf_WritingSegment := mf_WritingSegment m;
     mf_WritingSegmentStartDocID := mf_WritingSegmentStartDocID m; mf_IDMap := mf_IDMap m;
     mf_DeleteSnapshotGeneration := mf_DeleteSnapshotGeneration m; mf_NextSegmentID := mf_NextSegmentID m;
     mf_SegmentIndexSnapshots := mf_SegmentIndexSnapshots m |}.

(** A manifest as it is read back: the schema text is compacted. *)
Definition manifest_normal `{ManifestJSON} (m : Manifest) : Manifest := mf_set_schema m (mj_Compact (mf_Schema m)).

Class ManifestJSONLaws `{ManifestJSON} := {
  mj_total m : Manifest_Validate m = Ok tt -> exists payload, mj_Marshal m = Ok payload;
  mj_roundtrip m payload : mj_Encodable m -> Manifest_Validate m = Ok tt -> mj_Marshal m = Ok payload ->
    mj_StartField payload = Ok true /\ mj_Decode payload = Ok (manifest_normal m);
  mj_compact_object s : json_Valid s = true -> json_object s = true ->
    json_Valid (mj_Compact s) = true /\ json_object (mj_Compact s) = true;
  mj_compact_idempotent s : mj_Compact (mj_Compact s) = mj_Compact s
}.

(** ** The codec *)
Section manifest_file.
Context `{ManifestJSON}.

Definition MarshalManifest (m : Manifest) : result bytes :=
  match Manifest_Validate m with
  | Fail e => Fail e
  | Ok _ =>
  match mj_Marshal m with
  | Fail e => Fail (errorf "db: marshal manifest payload" e)
  | Ok payload =>
      if maxManifestSize <? zlen payload then Fail (manifest_corrupt "payload size")
      else
        let encoded := make_bytes (32 + length payload) in
        let encoded := splice 0 manifestMagic encoded in
        let encoded := splice 8 (le_put 2 (wrap16 DiskFormatVersion)) encoded in
        let encoded := splice 10 (le_put 2 manifestHeaderSize) encoded in
        let encoded := splice 12 (le_put 8 (mf_Generation m)) encoded in
        let encoded := splice 20 (le_put 8 (zlen payload)) encoded in
        let encoded := splice 28 (le_put 4 (CRC32C payload)) encoded in
        Ok (splice 32 payload encoded)
  end end.

Definition UnmarshalManifest (encoded : bytes) : result Manifest :=
  if zlen encoded <? manifestHeaderSize then Fail (manifest_corrupt "file is shorter than the header")
  else if negb (bytes_eqb (slice 0 8 encoded) manifestMagic) then Fail (manifest_corrupt "invalid magic")
  else
  let formatVersion := le_get (slice 8 10 encoded) in
  if negb (formatVersion =? DiskFormatVersion) then Fail (errorf "manifest version" ErrUnsupportedFormatVersion)
  else if negb (le_get (slice 10 12 encoded) =? manifestHeaderSize) then Fail (manifest_corrupt "invalid header size")
  else
  let generation := le_get (slice 12 20 encoded) in
  let payloadLength := le_get (slice 20 28 encoded) in
  if (maxManifestSize <? payloadLength) || (zlen encoded - manifestHeaderSize <? payloadLength)
  then Fail (manifest_corrupt "invalid payload length")
  else if negb (zlen encoded - manifestHeaderSize =? payloadLength)
  then Fail (manifest_corrupt "trailing or truncated payload")
  else
  let payload := drop 32 encoded in
  if negb (CRC32C payload =? le_get (slice 28 32 encoded)) then Fail (manifest_corrupt "checksum")
  else match mj_StartField payload with
  | Fail _ => Fail (manifest_corrupt "decode payload")
  | Ok false => Fail (manifest_corrupt "missing writing_segment_start_doc_id")
  | Ok true =>
  match mj_Decode payload with
  | Fail _ => Fail (manifest_corrupt "decode payload")
  | Ok manifest =>
      if negb (mf_Generation manifest =? generation)
      then Fail (manifest_corrupt "header generation differs from payload")
      else match Manifest_Validate manifest with
      | Fail e => Fail e
      | Ok _ => Ok manifest
      end
  end end.

(** ** Layout *)
Definition manifest_header (generation len crc : Z) : bytes :=
  manifestMagic ++ le_put 2 (wrap16 DiskFormatVersion) ++ le_put 2 manifestHeaderSize ++ le_put 8 generation ++
  le_put 8 len ++ le_put 4 crc.

Lemma MarshalManifest_layout m encoded :
  MarshalManifest m = Ok encoded <->
  Manifest_Validate m = Ok tt /\ exists payload, mj_Marshal m = Ok payload /\ zlen payload <= maxManifestSize /\
    encoded = manifest_header (mf_Generation m) (zlen payload) (CRC32C payload) ++ payload.
Proof.
  unfold MarshalManifest. destruct (Manifest_Validate m) as [[]|e]; [|split; [done|by intros [? _]]].
  destruct (mj_Marshal m) as [payload|e]; [|split; [done|by intros (_ & ? & ? & _)]].
  destruct (maxManifestSize <? zlen payload) eqn:E; to_prop.
  { split; [done|]. intros (_ & p & [= <-] & ? & _). lia. }
  assert (splice 32 payload (splice 28 (le_put 4 (CRC32C payload)) (splice 20 (le_put 8 (zlen payload))
    (splice 12 (le_put 8 (mf_Generation m)) (splice 10 (le_put 2 manifestHeaderSize)
    (splice 8 (le_put 2 (wrap16 DiskFormatVersion)) (splice 0 manifestMagic (make_bytes (32 + length payload)))))))) =
    manifest_header (mf_Generation m) (zlen payload) (CRC32C payload) ++ payload) as ->.
  { rewrite make_bytes_add. repeat (rewrite splice_app_l by (apply Nat.leb_le; reflexivity)).
    set (h := splice 28 _ _).
    assert (h = manifest_header (mf_Generation m) (zlen payload) (CRC32C payload)) as -> by reflexivity.
    by apply (splice_tail (manifest_header (mf_Generation m) (zlen payload) (CRC32C payload))). }
  split; [intros [= <-]; eauto|]. by intros (_ & p & [= <-] & _ & ->).
Qed.

Lemma manifest_header_fields generation len crc payload :
  let e := manifest_header generation len crc ++ payload in
  slice 0 8 e = manifestMagic /\ slice 8 10 e = le_put 2 (wrap16 DiskFormatVersion) /\
  slice 10 12 e = le_put 2 manifestHeaderSize /\ slice 12 20 e = le_put 8 generation /\
  slice 20 28 e = le_put 8 len /\ slice 28 32 e = le_put 4 crc /\ drop 32 e = payload /\ zlen e = 32 + zlen payload.
Proof.
  intros e. unfold e. rewrite !slice_app_l by (apply Nat.leb_le; reflexivity).
  repeat (split; [reflexivity|]). rewrite zlen_app. reflexivity.
Qed.

(** Compaction of the schema keeps a manifest valid. *)
Lemma manifest_normal_valid {Hlaws : ManifestJSONLaws} m :
  Manifest_Validate m = Ok tt -> Manifest_Validate (manifest_normal m) = Ok tt.
Proof.
  unfold Manifest_Validate. intros Hv.
  change (validate_contents (manifest_normal m)) with (validate_contents m).
  cbn [manifest_normal mf_set_schema mf_FormatVersion mf_Generation mf_Schema mf_SegmentMaxDocuments mf_IDMap
    mf_DeleteSnapshotGeneration] in *.
  destruct (json_Valid (mf_Schema m)) eqn:E1; cbn [negb] in Hv; [|by repeat case_in Hv].
  destruct (json_object (mf_Schema m)) eqn:E2; cbn [negb] in Hv; [|by repeat case_in Hv].
  destruct (mj_compact_object _ E1 E2) as [-> ->]. exact Hv.
Qed.

Lemma UnmarshalManifest_marshalled {Hlaws : ManifestJSONLaws} m encoded :
  mj_Encodable m -> is_u64 (mf_Generation m) -> MarshalManifest m = Ok encoded ->
  UnmarshalManifest encoded = Ok (manifest_normal m).
Proof.
  intros He Hg (Hv & payload & Hp & Hlen & ->)%MarshalManifest_layout.
  destruct (mj_roundtrip m payload He Hv Hp) as [H1 H2]. unfold UnmarshalManifest.
  destruct (manifest_header_fields (mf_Generation m) (zlen payload) (CRC32C payload) payload)
    as (-> & -> & -> & -> & -> & -> & -> & ->).
  rewrite (le_get_put2 (wrap16 _)), (le_get_put2 manifestHeaderSize) by (vm_compute; split; discriminate).
  rewrite !le_get_put8 by (done || (pose proof (zlen_nonneg payload); unfold is_u64, u64_max, maxManifestSize in *; lia)).
  rewrite le_get_put4 by apply CRC32C_range. rewrite bytes_eqb_refl, Z.eqb_refl. unfold manifestHeaderSize.
  replace (32 + zlen payload - 32) with (zlen payload) by lia.
  destruct (32 + zlen payload <? 32) eqn:E1; [to_prop; pose proof (zlen_nonneg payload); lia|].
  destruct (maxManifestSize <? zlen payload) eqn:E2; [to_prop; lia|]. rewrite Z.ltb_irrefl, Z.eqb_refl, H1, H2.
  change (mf_Generation (manifest_normal m)) with (mf_Generation m). rewrite Z.eqb_refl. cbn [negb].
  rewrite !Z.eqb_refl. cbn [negb orb]. rewrite (manifest_normal_valid m Hv). reflexivity.
Qed.

Lemma manifest_normal_idempotent {Hlaws : ManifestJSONLaws} m : manifest_normal (manifest_normal m) = manifest_normal m.
Proof. unfold manifest_normal, mf_set_schema. cbn. by rewrite mj_compact_idempotent. Qed.

(** What is read back is valid and carries the generation of its header. *)
Lemma UnmarshalManifest_inv encoded m :
  UnmarshalManifest encoded = Ok m ->
  Manifest_Validate m = Ok tt /\ mf_Generation m = le_get (slice 12 20 encoded) /\
  manifestHeaderSize <= zlen encoded <= manifestHeaderSize + maxManifestSize /\
  encoded = manifest_header (mf_Generation m) (zlen (drop 32 encoded)) (CRC32C (drop 32 encoded)) ++ drop 32 encoded.
Proof.
  unfold UnmarshalManifest. intros Hu. repeat (case_in Hu; [done|]).
  destruct (mj_StartField _) as [[]|]; try done. destruct (mj_Decode _) as [m'|]; [|done].
  case_in Hu; [done|]. destruct (Manifest_Validate m') as [[]|] eqn:Ev; [|done]. injection Hu as ->.
  repeat match goal with H : negb _ = false |- _ => apply negb_false_iff in H end.
  match goal with H : _ || _ = false |- _ => apply orb_false_iff in H as [? ?] end.
  apply bytes_eqb_eq in E0. to_prop. split; [done|]. split; [done|]. split; [lia|].
  assert (32 <= length encoded)%nat as Hlen by (unfold zlen, manifestHeaderSize in *; lia).
  rewrite <- (take_drop 32 encoded) at 1. f_equal. rewrite take_slice.
  rewrite (slice_split 0 8 32), (slice_split 8 10 32), (slice_split 10 12 32), (slice_split 12 20 32),
    (slice_split 20 28 32) by lia.
  unfold manifest_header. f_equal; [done|]. f_equal; [by apply (slice_le_get 8 10); [lia|]|].
  f_equal; [by apply (slice_le_get 10 12); [lia|]|]. f_equal; [by apply (slice_le_get 12 20); [lia|]|].
  f_equal; [apply (slice_le_get 20 28); [lia|]|by apply (slice_le_get 28 32); [lia|]].
  unfold zlen in *. rewrite length_drop. unfold manifestHeaderSize in *. lia.
Qed.
End manifest_file.
