(* ===== verification/JsonText.v ===== *)
(** * JSON text: encoding and reading of values

    The parts of [encoding/json] below the structures: string literals with
    their escapes, unsigned numbers, arrays and objects from the text of their
    parts, compaction of raw messages; and reading the members of an object and
    the elements of an array back as raw text. *)
From S2P Require Import Prelude Bytes Utf8 Json Paths Names.
From Stdlib Require Import Ascii.
#[local] Open Scope string_scope.
#[local] Open Scope list_scope.
#[local] Open Scope Z_scope.

Definition bs (s : string) : bytes := String.list_byte_of_string s.
Definition quote : byte := x22.

(** ** Encoding *)

(** [\u] and four hexadecimal digits, of a code below 2^16. *)
Definition hex_digit (d : Z) : byte := if d <? 10 then byte_of_Z (48 + d) else byte_of_Z (87 + d).
Definition u_escape (r : Z) : bytes :=
  bs "\u" ++ [hex_digit (r / 4096); hex_digit (r / 256 mod 16); hex_digit (r / 16 mod 16); hex_digit (r mod 16)].

Definition html_byte (b : byte) : bool := existsb (fun n => is_byte n b) [60; 62; 38].

(** One byte below 128 inside a string, with HTML escaping on. *)
Definition escape_ascii (b : byte) : bytes :=
  if is_byte 34 b || is_byte 92 b then [x5c; b]
  else if is_byte 8 b then bs "\b" else if is_byte 12 b then bs "\f"
  else if is_byte 10 b then bs "\n" else if is_byte 13 b then bs "\r" else if is_byte 9 b then bs "\t"
  else if (Z_of_byte b <? 32) || html_byte b then u_escape (Z_of_byte b)
  else [b].

Fixpoint escape_string (fuel : nat) (s : bytes) : bytes :=
  match s, fuel with
  | [], _ | _, O => []
  | b :: r, S fuel =>
      if Z_of_byte b <? 128 then escape_ascii b ++ escape_string fuel r
      else match decode_rune s with
      | None => u_escape 65533 ++ escape_string fuel r
      | Some (rune, rest) =>
          (if (rune =? 8232) || (rune =? 8233) then u_escape rune else take (length s - length rest) s)
          ++ escape_string fuel rest
      end
  end.
Definition json_string (s : string) : bytes := [quote] ++ escape_string (length (bs s)) (bs s) ++ [quote].

(** [strconv.AppendUint] in base ten *)
Fixpoint digit_count (fuel : nat) (n : Z) : nat :=
  match fuel with O => 1%nat | S fuel => if n <? 10 then 1%nat else S (digit_count fuel (n / 10)) end.
Definition json_uint (n : Z) : bytes := bs (dec_digits (digit_count 19 n) n "").
Definition json_bool (b : bool) : bytes := if b then bs "true" else bs "false".

(** What [json.Marshal] keeps of a raw message: white space outside strings
    goes, the characters special in HTML and the line separators U+2028 and
    U+2029 are escaped. *)
Fixpoint json_compact (in_string : bool) (s : bytes) : bytes :=
  match s with
  | [] => []
  | b :: r =>
      if in_string then
        if is_byte 92 b then match r with c :: r => b :: c :: json_compact true r | [] => [b] end
        else if is_byte 34 b then b :: json_compact false r
        else if html_byte b then u_escape (Z_of_byte b) ++ json_compact true r
        else if is_byte 226 b then
          match r with
          | c :: d :: r' =>
              if is_byte 128 c && (is_byte 168 d || is_byte 169 d)
              then u_escape (8232 + (Z_of_byte d - 168)) ++ json_compact true r'
              else b :: json_compact true r
          | _ => b :: json_compact true r
          end
        else b :: json_compact true r
      else if json_space b then json_compact false r
      else b :: json_compact (is_byte 34 b) r
  end.

Fixpoint json_join (l : list bytes) : bytes :=
  match l with
  | [] => []
  | [v] => v
  | v :: l => v ++ [x2c] ++ json_join l
  end.
Definition json_array (l : list bytes) : bytes := [x5b] ++ json_join l ++ [x5d].
Definition json_member (f : string * bytes) : bytes := [quote] ++ bs f.1 ++ [quote; x3a] ++ f.2.
Definition json_struct (fields : list (string * bytes)) : bytes := [x7b] ++ json_join (json_member <$> fields) ++ [x7d].
(** ** Decoding *)

(** The members of an object after its brace, and the elements of an array
    after its bracket, as raw text.  They are read from text already checked
    by the scanner. *)
Fixpoint read_members (fuel : nat) (s : bytes) : option (list (bytes * bytes)) :=
  match fuel with
  | O => None
  | S fuel =>
      match skip_space s with
      | q :: r =>
          match scan_string r with
          | Some r1 =>
              match skip_space r1 with
              | _ :: r2 =>
                  let v := skip_space r2 in
                  match scan_value (json_fuel v) 0 v with
                  | Some (Some r3) =>
                      let member := (take (length r - S (length r1)) r, take (length v - length r3) v) in
                      match skip_space r3 with
                      | c :: r4 =>
                          if is_byte 44 c then cons member <$> read_members fuel r4 else Some [member]
                      | [] => None
                      end
                  | _ => None
                  end
              | [] => None
              end
          | None => None
          end
      | [] => None
      end
  end.
Fixpoint read_elements (fuel : nat) (s : bytes) : option (list bytes) :=
  match fuel with
  | O => None
  | S fuel =>
      let v := skip_space s in
      match scan_value (json_fuel v) 0 v with
      | Some (Some r) =>
          let element := take (length v - length r) v in
          match skip_space r with
          | c :: r => if is_byte 44 c then cons element <$> read_elements fuel r else Some [element]
          | [] => None
          end
      | _ => None
      end
  end.
Definition first_byte (n : Z) (s : bytes) : bool := match s with b :: _ => is_byte n b | [] => false end.
Definition object_members (raw : bytes) : option (list (bytes * bytes)) :=
  if first_byte 123 raw then
    if first_byte 125 (skip_space (drop 1 raw)) then Some [] else read_members (length raw) (drop 1 raw)
  else None.
Definition array_elements (raw : bytes) : option (list bytes) :=
  if first_byte 91 raw then
    if first_byte 93 (skip_space (drop 1 raw)) then Some [] else read_elements (length raw) (drop 1 raw)
  else None.

(** Content of a string literal. *)
Definition hex_value (b : byte) : Z :=
  let z := Z_of_byte b in if z <=? 57 then z - 48 else if z <=? 70 then z - 55 else z - 87.
Definition hex4 (s : bytes) : option (Z * bytes) :=
  match s with
  | a :: b :: c :: d :: r =>
      if forallb json_hex [a; b; c; d]
      then Some (((hex_value a * 16 + hex_value b) * 16 + hex_value c) * 16 + hex_value d, r) else None
  | _ => None
  end.
Definition surrogate (lo hi r : Z) : bool := (lo <=? r) && (r <? hi).
Fixpoint unquote (fuel : nat) (s : bytes) : bytes :=
  match s, fuel with
  | [], _ | _, O => []
  | b :: r, S fuel =>
      if is_byte 92 b then
        match r with
        | c :: r =>
            if is_byte 117 c then
              match hex4 r with
              | Some (rune, r) =>
                  if surrogate 55296 57344 rune then
                    match (if surrogate 55296 56320 rune then
                             match r with
                             | e :: u :: r => if is_byte 92 e && is_byte 117 u then hex4 r else None
                             | _ => None
                             end
                           else None) with
                    | Some (low, r') =>
                        if surrogate 56320 57344 low
                        then encode_rune ((rune - 55296) * 1024 + (low - 56320) + 65536) ++ unquote fuel r'
                        else encode_rune 65533 ++ unquote fuel r
                    | None => encode_rune 65533 ++ unquote fuel r
                    end
                  else encode_rune rune ++ unquote fuel r
              | None => []
              end
            else
              (if is_byte 98 c then x08 else if is_byte 102 c then x0c else if is_byte 110 c then x0a
               else if is_byte 114 c then x0d else if is_byte 116 c then x09 else c) :: unquote fuel r
        | [] => []
        end
      else if Z_of_byte b <? 128 then b :: unquote fuel r
      else match decode_rune s with
      | Some (rune, rest) => encode_rune rune ++ unquote fuel rest
      | None => encode_rune 65533 ++ unquote fuel r
      end
  end.

(** ** The scanner with more fuel and at a smaller depth *)
Lemma scan_fuel_S fuel :
  (forall depth s o, scan_value fuel depth s = Some o -> scan_value (S fuel) depth s = Some o) /\
  (forall depth s o, scan_elements fuel depth s = Some o -> scan_elements (S fuel) depth s = Some o) /\
  (forall depth s o, scan_members fuel depth s = Some o -> scan_members (S fuel) depth s = Some o).
Proof.
  induction fuel as [|fuel (IHv & IHe & IHm)]; [done|].
  split; [|split]; intros depth s o.
  - cbn [scan_value]. destruct (skip_space s) as [|b r]; [done|].
    repeat (case_if; [try done|]); try done.
    + destruct (skip_space r); [done|]. case_if; [done|]. apply IHm.
    + destruct (skip_space r); [done|]. case_if; [done|]. apply IHe.
  - intros H. cbn [scan_elements] in H. destruct (scan_value fuel depth s) as [v|] eqn:Ev; [|done].
    apply IHv in Ev. remember (S fuel) as f. cbn [scan_elements]. rewrite Ev. destruct v as [r|]; [|done].
    destruct (skip_space r); [done|]. repeat case_in H; try done. subst. by apply IHe.
  - intros H. cbn [scan_members] in H. remember (S fuel) as f. cbn [scan_members].
    destruct (skip_space s) as [|q r]; [done|]. destruct (is_byte 34 q); [|done].
    destruct (scan_string r) as [r1|]; [|done]. destruct (skip_space r1) as [|c r2]; [done|].
    destruct (is_byte 58 c); [|done]. destruct (scan_value fuel depth r2) as [v|] eqn:Ev; [|done].
    apply IHv in Ev. rewrite Ev. destruct v as [r3|]; [|done].
    destruct (skip_space r3); [done|]. destruct (is_byte 44 b); [|done]. subst. by apply IHm.
Qed.

Lemma scan_value_fuel f f' depth s o : (f <= f')%nat -> scan_value f depth s = Some o -> scan_value f' depth s = Some o.
Proof. induction 1 as [|f' Hf IH]; [done|]. intros Hs. by apply scan_fuel_S, IH. Qed.
Lemma scan_elements_fuel f f' depth s o : (f <= f')%nat -> scan_elements f depth s = Some o -> scan_elements f' depth s = Some o.
Proof. induction 1 as [|f' Hf IH]; [done|]. intros Hs. by apply scan_fuel_S, IH. Qed.
Lemma scan_members_fuel f f' depth s o : (f <= f')%nat -> scan_members f depth s = Some o -> scan_members f' depth s = Some o.
Proof. induction 1 as [|f' Hf IH]; [done|]. intros Hs. by apply scan_fuel_S, IH. Qed.

(** ** Texts of one value *)

(** What may follow a number. *)
Definition stops (t : bytes) : Prop :=
  match t with
  | [] => True
  | b :: _ => json_digit b = false /\ is_byte 46 b = false /\ is_byte 101 b = false /\ is_byte 69 b = false
  end.

(** [v] is a value without space around it, and remains one at depth [D] and
    above, whatever follows. *)
Record json_text (D : Z) (v : bytes) : Prop := {
  jt_head : exists b r, v = b :: r /\ json_space b = false /\ is_byte 93 b = false /\ is_byte 125 b = false;
  jt_scan : forall d f t, d <= D -> stops t -> (2 * length (v ++ t) + 1 <= f)%nat ->
              scan_value f d (v ++ t) = Some (Some t)
}.

Lemma json_text_fuel D v d t : json_text D v -> d <= D -> stops t -> scan_value (json_fuel (v ++ t)) d (v ++ t) = Some (Some t).
Proof. intros Hv Hd Ht. apply (jt_scan _ _ Hv); [done|done|]. unfold json_fuel. lia. Qed.

Lemma skip_space_text D v t : json_text D v -> skip_space (v ++ t) = v ++ t.
Proof. intros [(b & r & -> & Hb & _) _]. cbn. by rewrite Hb. Qed.

Lemma json_text_weaken D D' v : D' <= D -> json_text D v -> json_text D' v.
Proof. intros HD [Hh Hs]. constructor; [done|]. intros d f t Hd. apply Hs. lia. Qed.

Lemma stops_comma t : stops (x2c :: t). Proof. repeat split. Qed.
Lemma stops_bracket t : stops (x5d :: t). Proof. repeat split. Qed.
Lemma stops_brace t : stops (x7d :: t). Proof. repeat split. Qed.
#[local] Hint Resolve stops_comma stops_bracket stops_brace : core.

(** *** Arrays *)
Lemma scan_elements_join D l t d f :
  Forall (json_text D) l -> l <> [] -> d <= D -> (2 * length (json_join l ++ x5d :: t) + 2 <= f)%nat ->
  scan_elements f d (json_join l ++ x5d :: t) = Some (Some t).
Proof.
  intros Hl Hne Hd. revert f. induction Hl as [|v l Hv Hl IH]; intros f Hf; [done|].
  destruct f as [|f]; [lia|]. cbn [scan_elements]. destruct l as [|w l].
  - cbn [json_join] in *. rewrite (jt_scan _ _ Hv) by (done || lia). done.
  - change (json_join (v :: w :: l)) with (v ++ [x2c] ++ json_join (w :: l)) in *. rewrite <- !app_assoc in *.
    rewrite (jt_scan _ _ Hv) by (done || lia). cbn [app skip_space]. change (json_space x2c) with false.
    change (is_byte 44 x2c) with true. cbn iota. apply IH; [done|].
    rewrite !length_app in Hf |- *. cbn [app length] in *. rewrite length_app in Hf. cbn [length] in Hf. lia.
Qed.

Lemma json_text_array D l : 0 <= D < maxNestingDepth -> Forall (json_text (D + 1)) l -> json_text D (json_array l).
Proof.
  intros HD Hl. unfold json_array. constructor; [by exists x5b, (json_join l ++ [x5d])|]. intros d f t Hd Ht Hf.
  destruct f as [|f]; [lia|]. rewrite <- app_assoc. cbn [app scan_value skip_space].
  change (json_space x5b) with false. change (is_byte 123 x5b) with false. change (is_byte 91 x5b) with true. cbn iota.
  destruct (maxNestingDepth <=? d) eqn:E; [to_prop; lia|]. rewrite <- app_assoc. cbn [app].
  destruct l as [|v l]; [done|]. pose proof Hl as Hl'. apply Forall_cons in Hl' as [Hv _].
  assert (Hsk : skip_space (json_join (v :: l) ++ x5d :: t) = json_join (v :: l) ++ x5d :: t /\
    exists b r, json_join (v :: l) ++ x5d :: t = b :: r /\ is_byte 93 b = false).
  { destruct (jt_head _ _ Hv) as (b & r & -> & Hb & Hb2 & _).
    assert (exists r', json_join ((b :: r) :: l) = b :: r') as [r' ->] by (destruct l; cbn; eauto).
    cbn. rewrite Hb. split; [done|]. eauto. }
  destruct Hsk as [Hsk (b & r & Heq & Hb)]. rewrite Hsk.
  transitivity (scan_elements f (d + 1) (json_join (v :: l) ++ x5d :: t)); [rewrite Heq; cbn iota; by rewrite Hb|].
  apply (scan_elements_join (D + 1)); [done|done|lia|]. rewrite <- !app_assoc in Hf. cbn [app length] in *. lia.
Qed.

(** *** Objects *)

(** A member name that needs no escape. *)
Definition plain_name (n : string) : Prop := forall t, scan_string (bs n ++ quote :: t) = Some t.

Lemma scan_members_join D fields t d f :
  Forall (fun f => plain_name f.1 /\ json_text D f.2) fields -> fields <> [] -> d <= D ->
  (2 * length (json_join (json_member <$> fields) ++ x7d :: t) + 2 <= f)%nat ->
  scan_members f d (json_join (json_member <$> fields) ++ x7d :: t) = Some (Some t).
Proof.
  intros Hl Hne Hd. revert f. induction Hl as [|[n v] l [Hn Hv] Hl IH]; intros f Hf; [done|]. cbn [fst snd] in *.
  destruct f as [|f]; [lia|].
  assert (Hgo : forall tail, stops tail -> (2 * length (json_member (n, v) ++ tail) + 2 <= S f)%nat ->
    scan_members (S f) d (json_member (n, v) ++ tail) =
    match skip_space tail with
    | c :: r => if is_byte 44 c then scan_members f d r else if is_byte 125 c then Some (Some r) else Some None
    | [] => Some None
    end).
  { intros tail Ht Hlen. unfold json_member in *. cbn [fst snd] in *. rewrite <- !app_assoc in *.
    cbn [app scan_members skip_space] in *. change (json_space quote) with false. change (is_byte 34 quote) with true. cbn iota.
    rewrite Hn. cbn [skip_space]. change (json_space x3a) with false. change (is_byte 58 x3a) with true. cbn iota.
    rewrite (jt_scan _ _ Hv); [done|done|done|]. cbn [length] in Hlen. rewrite length_app in Hlen. cbn [length] in Hlen. lia. }
  destruct l as [|w l].
  - cbn [fmap list_fmap json_join] in *. by rewrite (Hgo (x7d :: t)) by (done || lia).
  - change (json_join (json_member <$> (n, v) :: w :: l)) with (json_member (n, v) ++ [x2c] ++ json_join (json_member <$> w :: l)) in *.
    rewrite <- !app_assoc in *.
    change ([x2c] ++ json_join (json_member <$> w :: l) ++ x7d :: t) with (x2c :: json_join (json_member <$> w :: l) ++ x7d :: t) in *.
    rewrite (Hgo (x2c :: json_join (json_member <$> w :: l) ++ x7d :: t)) by (done || lia).
    cbn [skip_space]. change (json_space x2c) with false. change (is_byte 44 x2c) with true. cbn iota. apply IH; [done|].
    rewrite length_app in Hf. cbn [app length] in *. lia.
Qed.

Lemma json_text_struct D fields :
  0 <= D < maxNestingDepth -> Forall (fun f => plain_name f.1 /\ json_text (D + 1) f.2) fields ->
  json_text D (json_struct fields).
Proof.
  intros HD Hl. unfold json_struct. constructor; [by exists x7b, (json_join (json_member <$> fields) ++ [x7d])|].
  intros d f t Hd Ht Hf. destruct f as [|f]; [lia|]. rewrite <- app_assoc. cbn [app scan_value skip_space].
  change (json_space x7b) with false. change (is_byte 123 x7b) with true. cbn iota.
  destruct (maxNestingDepth <=? d) eqn:E; [to_prop; lia|]. rewrite <- app_assoc. cbn [app].
  destruct fields as [|[n v] l]; [done|].
  assert (Hsk : exists r, json_join (json_member <$> (n, v) :: l) ++ x7d :: t = quote :: r) by (destruct l; cbn; eauto).
  destruct Hsk as [r Hr].
  transitivity (scan_members f (d + 1) (json_join (json_member <$> (n, v) :: l) ++ x7d :: t)); [by rewrite Hr|].
  apply (scan_members_join (D + 1)); [done|done|lia|]. rewrite <- !app_assoc in Hf. cbn [app length] in *. lia.
Qed.

(** *** Numbers *)
Lemma bs_app a b : bs (String.append a b) = bs a ++ bs b.
Proof. induction a as [|c a IH]; [done|]. exact (f_equal (cons (Ascii.byte_of_ascii c)) IH). Qed.
Lemma bs_cons c s : bs (String c s) = Ascii.byte_of_ascii c :: bs s.
Proof. done. Qed.

Lemma digit_byte d : 0 <= d <= 9 -> Z_of_byte (Ascii.byte_of_ascii (digit d)) = 48 + d.
Proof.
  intros Hd. assert (d = 0 \/ d = 1 \/ d = 2 \/ d = 3 \/ d = 4 \/ d = 5 \/ d = 6 \/ d = 7 \/ d = 8 \/ d = 9) as H by lia.
  repeat destruct H as [->|H]; [reflexivity..|subst; reflexivity].
Qed.

Lemma dec_digits_head k n :
  dec_digits (S k) n "" = String (digit (n / 10 ^ Z.of_nat k mod 10)) (dec_digits k n "").
Proof.
  revert n. induction k as [|k IH]; intros n; [cbn [dec_digits]; by rewrite Z.div_1_r|].
  change (dec_digits (S (S k)) n "") with (dec_digits (S k) (n / 10) (String (digit (n mod 10)) "")).
  rewrite dec_digits_app, IH. rewrite Z.div_div by lia. rewrite <- Z.pow_succ_r, <- Nat2Z.inj_succ by lia.
  change (dec_digits (S k) n "") with (dec_digits k (n / 10) (String (digit (n mod 10)) "")).
  by rewrite (dec_digits_app k (n / 10) (String _ _)).
Qed.

Lemma dec_digits_digits k n : Forall (fun b => json_digit b = true) (bs (dec_digits k n "")).
Proof.
  induction k as [|k IH]; [constructor|]. rewrite dec_digits_head, bs_cons. constructor; [|done].
  unfold json_digit. rewrite digit_byte by (pose proof (Z.mod_pos_bound (n / 10 ^ Z.of_nat k) 10); lia).
  pose proof (Z.mod_pos_bound (n / 10 ^ Z.of_nat k) 10 ltac:(lia)). lia.
Qed.

Lemma digit_count_spec fuel n :
  0 <= n < 10 ^ (Z.of_nat fuel + 1) ->
  exists k, digit_count fuel n = S k /\ (k <= fuel)%nat /\ n < 10 ^ (Z.of_nat k + 1) /\ (k <> 0%nat -> 10 ^ Z.of_nat k <= n).
Proof.
  revert n. induction fuel as [|fuel IH]; intros n Hn; cbn [digit_count].
  { exists 0%nat. split; [done|]. split; [lia|]. split; [lia|done]. }
  destruct (n <? 10) eqn:E; to_prop. { exists 0%nat. split; [done|]. split; [lia|]. split; [cbn; lia|done]. }
  replace (Z.of_nat (S fuel) + 1) with (Z.of_nat fuel + 1 + 1) in Hn by lia. rewrite Z.pow_add_r in Hn by lia.
  pose proof (Z_div_mod_eq_full n 10). pose proof (Z.mod_pos_bound n 10 ltac:(lia)).
  destruct (IH (n / 10)) as (k & -> & Hk & Hlt & Hge). { split; [apply Z.div_pos; lia|apply Z.div_lt_upper_bound; lia]. }
  exists (S k). split; [done|]. split; [lia|]. replace (Z.of_nat (S k)) with (Z.of_nat k + 1) by lia.
  rewrite (Z.pow_add_r 10 (Z.of_nat k + 1)), (Z.pow_add_r 10 (Z.of_nat k)) by lia.
  rewrite Z.pow_add_r in Hlt by lia. split; [lia|]. intros _.
  destruct (decide (k = 0%nat)) as [->|Hne]; [cbn; lia|]. specialize (Hge Hne). lia.
Qed.

Lemma json_uint_digits n : is_u64 n ->
  exists b r, json_uint n = b :: r /\ json_digit b = true /\ Forall (fun b => json_digit b = true) r /\
    (is_byte 48 b = true -> r = []) /\ ParseUint (String.string_of_list_byte (json_uint n)) = Some n.
Proof.
  intros [H0 H1]. unfold json_uint. destruct (digit_count_spec 19 n) as (k & -> & Hk & Hlt & Hge).
  { unfold u64_max in *. cbn. lia. }
  pose proof (dec_digits_digits (S k) n) as Hd. unfold bs. rewrite String.string_of_list_byte_of_string. fold (bs (dec_digits (S k) n "")).
  assert (ParseUint (dec_digits (S k) n "") = Some n) as Hp.
  { assert (parse_digits (dec_digits (S k) n "") 0 = Some n) as <-.
    { apply parse_dec_digits; [|lia]. rewrite Nat2Z.inj_succ, <- Z.add_1_r. lia. }
    unfold ParseUint. pose proof (length_dec_digits (S k) n). by destruct (dec_digits (S k) n ""). }
  rewrite dec_digits_head in *. rewrite bs_cons in *. apply Forall_cons in Hd as [Hd1 Hd2].
  eexists _, _. split; [done|]. split; [done|]. split; [done|]. split; [|done].
  unfold is_byte. rewrite digit_byte by (pose proof (Z.mod_pos_bound (n / 10 ^ Z.of_nat k) 10); lia).
  intros Hz. to_prop. destruct (decide (k = 0%nat)) as [->|Hne]; [done|]. exfalso. specialize (Hge Hne).
  assert (1 <= n / 10 ^ Z.of_nat k < 10); [|rewrite Z.mod_small in Hz by lia; lia].
  rewrite Z.pow_add_r in Hlt by lia. split; [apply Z.div_le_lower_bound; lia|apply Z.div_lt_upper_bound; lia].
Qed.

Lemma skip_digits_all v t : Forall (fun b => json_digit b = true) v -> stops t -> skip_digits (v ++ t) = t.
Proof.
  intros Hv Ht. induction Hv as [|b v Hb Hv IH]; cbn; [|by rewrite Hb].
  destruct t as [|b t]; [done|]. destruct Ht as [Hb _]. cbn. by rewrite Hb.
Qed.

Lemma scan_fraction_stops t : stops t -> scan_fraction t = Some t.
Proof. destruct t as [|b t]; [done|]. intros (_ & H1 & H2 & H3). cbn. by rewrite H1, H2, H3. Qed.

Lemma digit_not b n : json_digit b = true -> (n < 48 \/ 57 < n) -> is_byte n b = false.
Proof. unfold json_digit, is_byte. intros H1 H2. destruct (Z_of_byte b =? n) eqn:E; to_prop; [lia|done]. Qed.

Lemma digit_not_space b : json_digit b = true -> json_space b = false.
Proof. intros Hb. unfold json_space. by rewrite !(digit_not b) by (done || lia). Qed.

Lemma json_text_uint D n : is_u64 n -> json_text D (json_uint n).
Proof.
  intros (b & r & Heq & Hb & Hr & Hz & _)%json_uint_digits. constructor.
  { exists b, r. split; [done|]. split; [by apply digit_not_space|]. split; apply digit_not; done || lia. }
  intros d f t _ Ht Hf. destruct f as [|f]; [lia|]. rewrite Heq. cbn [app scan_value skip_space].
  rewrite (digit_not_space b Hb), !(digit_not b) by (done || lia). unfold scan_number.
  rewrite (digit_not b 45) by (done || lia). rewrite Hb. destruct (is_byte 48 b) eqn:E0.
  - rewrite (Hz eq_refl). cbn [app]. by rewrite scan_fraction_stops.
  - rewrite skip_digits_all by done. by rewrite scan_fraction_stops.
Qed.

Lemma json_text_bool D b : json_text D (json_bool b).
Proof.
  constructor. { destruct b; eexists _, _; (split; [reflexivity|]); split; [|split| |split]; reflexivity. }
  intros d f t _ _ Hf. destruct f as [|f]; [lia|]. destruct b; reflexivity.
Qed.

(** *** Strings *)
Definition ascii_bytes (s : bytes) : Prop := Forall (fun b => Z_of_byte b < 128) s.

(** What escaping makes of a byte is read back as that byte, and is no quote. *)
Definition escape_ok (b : byte) : bool :=
  negb (Z_of_byte b <? 128) ||
  (let e := escape_ascii b in
   bool_decide (scan_string (e ++ [quote]) = Some []) &&
   match e with
   | [c] => bool_decide (c = b) && negb (is_byte 92 b) && negb (is_byte 34 b) && negb (Z_of_byte b <? 32)
   | [x; c] => bool_decide (x = x5c) && json_escape c && negb (is_byte 117 c) &&
       bool_decide (unquote 1 e = [b])
   | [x; u; h1; h2; h3; h4] => bool_decide (x = x5c) && bool_decide (u = x75) && forallb json_hex [h1; h2; h3; h4] &&
       match hex4 [h1; h2; h3; h4] with Some (r, _) => (r =? Z_of_byte b) && bool_decide (encode_rune r = [b]) | None => false end
   | _ => false
   end).
Lemma escape_ok_all b : escape_ok b = true.
Proof. destruct b; vm_compute; reflexivity. Qed.

(** The shapes of an escaped byte. *)
Lemma escape_shape b : Z_of_byte b < 128 ->
  (escape_ascii b = [b] /\ is_byte 92 b = false /\ is_byte 34 b = false /\ 32 <= Z_of_byte b) \/
  (exists c, escape_ascii b = [x5c; c] /\ json_escape c = true /\ is_byte 117 c = false /\ unquote 1 [x5c; c] = [b]) \/
  (exists h1 h2 h3 h4, escape_ascii b = [x5c; x75; h1; h2; h3; h4] /\
     forallb json_hex [h1; h2; h3; h4] = true /\ hex4 [h1; h2; h3; h4] = Some (Z_of_byte b, []) /\ encode_rune (Z_of_byte b) = [b]).
Proof.
  intros Hb. pose proof (escape_ok_all b) as H. unfold escape_ok in H.
  apply Z.ltb_lt in Hb. rewrite Hb in H. cbn [negb orb] in H. apply andb_true_iff in H as [_ H].
  destruct (escape_ascii b) as [|x [|c [|h1 [|h2 [|h3 [|h4 [|? ?]]]]]]]; try done.
  - left. apply andb_true_iff in H as [H H3]. apply andb_true_iff in H as [H H2]. apply andb_true_iff in H as [H H1].
    apply bool_decide_eq_true in H as ->. apply negb_true_iff in H1, H2, H3. to_prop. done.
  - right; left. exists c. apply andb_true_iff in H as [H H3]. apply andb_true_iff in H as [H H2].
    apply andb_true_iff in H as [H H1]. apply bool_decide_eq_true in H as ->. apply negb_true_iff in H2.
    apply bool_decide_eq_true in H3. done.
  - right; right. exists h1, h2, h3, h4. apply andb_true_iff in H as [H H3]. apply andb_true_iff in H as [H H2].
    apply andb_true_iff in H as [H H1]. apply bool_decide_eq_true in H as ->. apply bool_decide_eq_true in H1 as ->.
    split; [done|]. split; [done|]. unfold hex4 in *. rewrite H2 in *. apply andb_true_iff in H3 as [H3 H4].
    to_prop. apply bool_decide_eq_true in H4. rewrite H3 in *. done.
Qed.

Lemma scan_escape b tail : Z_of_byte b < 128 -> scan_string (escape_ascii b ++ tail) = scan_string tail.
Proof.
  intros Hb. destruct (escape_shape b Hb) as [(-> & H1 & H2 & H3)|[(c & -> & H1 & H2 & _)|(h1 & h2 & h3 & h4 & -> & H1 & _)]].
  - cbn [app scan_string]. rewrite H1, H2. destruct (Z_of_byte b <? 32) eqn:E; to_prop; [lia|done].
  - cbn [app scan_string]. change (is_byte 34 x5c) with false. change (is_byte 92 x5c) with true. by rewrite H1.
  - cbn [app scan_string]. change (is_byte 34 x5c) with false. change (is_byte 92 x5c) with true.
    change (json_escape x75) with false. change (is_byte 117 x75) with true. cbn [forallb] in H1. rewrite andb_true_r, !andb_assoc in H1.
    by rewrite H1.
Qed.

Lemma unquote_escape fuel b tail :
  Z_of_byte b < 128 -> unquote (S fuel) (escape_ascii b ++ tail) = b :: unquote fuel tail.
Proof.
  intros Hb. destruct (escape_shape b Hb) as [(-> & H1 & H2 & H3)|[(c & -> & H1 & H2 & H3)|(h1 & h2 & h3 & h4 & -> & H1 & H2 & H3)]].
  - cbn [app unquote]. rewrite H1. by apply Z.ltb_lt in Hb as ->.
  - cbn [app unquote] in *. change (is_byte 92 x5c) with true in *. cbn iota in *. rewrite H2 in *. injection H3 as H3. by rewrite H3.
  - cbn [app unquote]. change (is_byte 92 x5c) with true. change (is_byte 117 x75) with true. cbn iota.
    unfold hex4 in *. rewrite H1 in *. injection H2 as H2. rewrite H2. unfold surrogate.
    destruct ((55296 <=? Z_of_byte b) && (Z_of_byte b <? 57344)) eqn:E; to_prop; [lia|]. by rewrite H3.
Qed.

Lemma escape_string_cons fuel b s :
  Z_of_byte b < 128 -> escape_string (S fuel) (b :: s) = escape_ascii b ++ escape_string fuel s.
Proof. intros Hb. cbn [escape_string]. by apply Z.ltb_lt in Hb as ->. Qed.

Lemma scan_escape_string s tail :
  ascii_bytes s -> scan_string (escape_string (length s) s ++ tail) = scan_string tail.
Proof.
  intros Hs. induction Hs as [|b s Hb Hs IH]; [done|]. cbn [length].
  rewrite escape_string_cons, <- app_assoc, scan_escape by done. exact IH.
Qed.

Lemma unquote_escape_string s fuel : ascii_bytes s -> (length s <= fuel)%nat -> unquote fuel (escape_string (length s) s) = s.
Proof.
  intros Hs. revert fuel. induction Hs as [|b s Hb Hs IH]; intros fuel Hf; [by destruct fuel|]. cbn [length] in *.
  destruct fuel as [|fuel]; [lia|]. rewrite escape_string_cons, unquote_escape by done. f_equal. apply IH. lia.
Qed.

Lemma json_text_string D s : ascii_bytes (bs s) -> json_text D (json_string s).
Proof.
  intros Hs. unfold json_string. constructor. { eexists quote, _. split; [reflexivity|]. done. }
  intros d f t _ _ Hf. destruct f as [|f]; [lia|]. rewrite <- !app_assoc. cbn [app scan_value skip_space].
  change (json_space quote) with false. change (is_byte 123 quote) with false. change (is_byte 91 quote) with false.
  change (is_byte 34 quote) with true. cbn iota. by rewrite scan_escape_string.
Qed.

(** ** Reading back what was printed *)
Lemma read_text D v tail : 0 <= D -> json_text D v -> stops tail ->
  let w := skip_space (v ++ tail) in
  scan_value (json_fuel w) 0 w = Some (Some tail) /\ take (length w - length tail) w = v.
Proof.
  intros HD Hv Ht w. unfold w. rewrite (skip_space_text D) by done. split; [by apply (json_text_fuel D)|].
  rewrite length_app. replace (length v + length tail - length tail)%nat with (length v) by lia. by apply take_app_exact.
Qed.

Lemma read_elements_join D l tail fuel :
  0 <= D -> Forall (json_text D) l -> l <> [] -> (length l <= fuel)%nat ->
  read_elements fuel (json_join l ++ x5d :: tail) = Some l.
Proof.
  intros HD Hl Hne. revert fuel. induction Hl as [|v l Hv Hl IH]; intros fuel Hf; [done|].
  destruct fuel as [|fuel]; [cbn in Hf; lia|]. cbn [read_elements]. destruct l as [|w l].
  - cbn [json_join]. destruct (read_text D v (x5d :: tail) HD Hv (stops_bracket _)) as [-> ->]. done.
  - change (json_join (v :: w :: l)) with (v ++ [x2c] ++ json_join (w :: l)). rewrite <- !app_assoc.
    destruct (read_text D v ([x2c] ++ json_join (w :: l) ++ x5d :: tail) HD Hv (stops_comma _)) as [-> ->].
    cbn [app skip_space]. change (json_space x2c) with false. change (is_byte 44 x2c) with true. cbn iota.
    rewrite IH; [done|done|]. cbn [length] in *. lia.
Qed.

Lemma json_join_head D l : Forall (json_text D) l -> l <> [] ->
  exists c r, json_join l = c :: r /\ json_space c = false /\ is_byte 93 c = false /\ is_byte 125 c = false.
Proof.
  intros Hl Hne. destruct Hl as [|v l Hv Hl]; [done|]. destruct (jt_head _ _ Hv) as (c & r & -> & Hc).
  destruct l; cbn; eexists _, _; (split; [reflexivity|done]).
Qed.

Lemma length_json_join D l : Forall (json_text D) l -> (length l <= length (json_join l))%nat.
Proof.
  induction 1 as [|v l Hv Hl IH]; [done|]. destruct (jt_head _ _ Hv) as (c & r & -> & _).
  destruct l as [|w l]; cbn [length json_join app] in *; [lia|]. rewrite length_app. cbn [length]. lia.
Qed.

Lemma array_elements_json D l : 0 <= D -> Forall (json_text D) l -> array_elements (json_array l) = Some l.
Proof.
  intros HD Hl. unfold array_elements, json_array. cbn [app first_byte drop]. rewrite drop_0. change (is_byte 91 x5b) with true. cbn iota.
  destruct l as [|v l]; [done|]. destruct (json_join_head D (v :: l) Hl ltac:(done)) as (c & r & Hj & H1 & H2 & _).
  assert (first_byte 93 (skip_space (json_join (v :: l) ++ [x5d])) = false) as ->.
  { rewrite Hj. cbn [app skip_space]. rewrite H1. exact H2. }
  apply (read_elements_join D); [done|done|done|]. cbn [length]. rewrite length_app. pose proof (length_json_join D _ Hl). cbn [length] in *. lia.
Qed.

Lemma read_members_join D fields tail fuel :
  0 <= D -> Forall (fun f => plain_name f.1 /\ json_text D f.2) fields -> fields <> [] -> (length fields <= fuel)%nat ->
  read_members fuel (json_join (json_member <$> fields) ++ x7d :: tail) = Some ((fun f => (bs f.1, f.2)) <$> fields).
Proof.
  intros HD Hl Hne. revert fuel. induction Hl as [|[n v] l [Hn Hv] Hl IH]; intros fuel Hf; [done|]. cbn [fst snd] in *.
  destruct fuel as [|fuel]; [cbn in Hf; lia|].
  assert (Hgo : forall rest, stops rest ->
    read_members (S fuel) (json_member (n, v) ++ rest) =
    match skip_space rest with
    | c :: r => if is_byte 44 c then cons (bs n, v) <$> read_members fuel r else Some [(bs n, v)]
    | [] => None
    end).
  { intros rest Hr. unfold json_member. cbn [fst snd]. rewrite <- !app_assoc.
    cbn [app read_members skip_space]. change (json_space quote) with false. cbn iota. rewrite (Hn (x3a :: v ++ rest)).
    cbn [skip_space]. change (json_space x3a) with false. cbn iota.
    destruct (read_text D v rest HD Hv Hr) as [-> ->].
    assert (take (length (bs n ++ quote :: x3a :: v ++ rest) - S (length (x3a :: v ++ rest))) (bs n ++ quote :: x3a :: v ++ rest) = bs n) as ->.
    { apply take_app_exact. rewrite length_app. cbn [length]. lia. }
    done. }
  destruct l as [|w l].
  - cbn [fmap list_fmap json_join]. rewrite Hgo by done. done.
  - change (json_join (json_member <$> (n, v) :: w :: l)) with (json_member (n, v) ++ [x2c] ++ json_join (json_member <$> w :: l)).
    rewrite <- !app_assoc. rewrite (Hgo ([x2c] ++ json_join (json_member <$> w :: l) ++ x7d :: tail)) by done.
    cbn [app skip_space]. change (json_space x2c) with false. change (is_byte 44 x2c) with true. cbn iota.
    rewrite IH; [done|done|]. cbn [length] in *. lia.
Qed.

Lemma length_json_members fields : (length fields <= length (json_join (json_member <$> fields)))%nat.
Proof.
  induction fields as [|f l IH]; [done|].
  assert (1 <= length (json_member f))%nat by (unfold json_member; rewrite !length_app; cbn; lia).
  destruct l as [|w l]; [cbn [fmap list_fmap json_join length]; lia|].
  change (json_join (json_member <$> f :: w :: l)) with (json_member f ++ [x2c] ++ json_join (json_member <$> w :: l)).
  rewrite !length_app. cbn [length] in *. lia.
Qed.

Lemma object_members_json D fields :
  0 <= D -> Forall (fun f => plain_name f.1 /\ json_text D f.2) fields ->
  object_members (json_struct fields) = Some ((fun f => (bs f.1, f.2)) <$> fields).
Proof.
  intros HD Hl. unfold object_members, json_struct. cbn [app first_byte drop]. rewrite drop_0. change (is_byte 123 x7b) with true. cbn iota.
  destruct fields as [|f l]; [done|].
  assert (first_byte 125 (skip_space (json_join (json_member <$> f :: l) ++ [x7d])) = false) as ->.
  { destruct l; reflexivity. }
  apply (read_members_join D); [done|done|done|]. cbn [length]. rewrite length_app. pose proof (length_json_members (f :: l)).
  cbn [length] in *. lia.
Qed.

(** ** Compaction keeps a value a value *)

(** [c] ends outside strings and compacts to [c']. *)
Definition cpt (c c' : bytes) : Prop := forall t, json_compact false (c ++ t) = c' ++ json_compact false t.

Lemma cpt_nil : cpt [] []. Proof. done. Qed.
Lemma cpt_app a a' b b' : cpt a a' -> cpt b b' -> cpt (a ++ b) (a' ++ b').
Proof. intros Ha Hb t. by rewrite <- !app_assoc, Ha, Hb. Qed.
Lemma cpt_byte b : json_space b = false -> is_byte 34 b = false -> cpt [b] [b].
Proof. intros H1 H2 t. cbn [app json_compact]. by rewrite H1, H2. Qed.
Lemma cpt_plain c : Forall (fun b => json_space b = false /\ is_byte 34 b = false) c -> cpt c c.
Proof. induction 1 as [|b c [H1 H2] Hc IH]; [apply cpt_nil|]. by apply (cpt_app [b] [b] c c); [apply cpt_byte|]. Qed.

Lemma skip_space_split s : exists c, s = c ++ skip_space s /\ cpt c [].
Proof.
  induction s as [|b s (c & Hs & Hc)]; [by exists []|]. cbn [skip_space]. destruct (json_space b) eqn:E; [|by exists []].
  exists (b :: c). split; [cbn; congruence|]. intros t. cbn [app json_compact]. rewrite E. apply Hc.
Qed.

Lemma string_byte b t :
  is_byte 34 b = false -> is_byte 92 b = false -> html_byte b = false -> is_byte 226 b = false ->
  json_compact true (b :: t) = b :: json_compact true t.
Proof. intros H1 H2 H3 H4. cbn [json_compact]. by rewrite H2, H1, H3, H4. Qed.

Lemma escape_pair b c t : is_byte 92 b = true -> json_compact true (b :: c :: t) = b :: c :: json_compact true t.
Proof. intros H. cbn [json_compact]. by rewrite H. Qed.

Lemma hex_byte h t : json_hex h = true -> json_compact true (h :: t) = h :: json_compact true t.
Proof.
  intros Hh. assert (48 <= Z_of_byte h <= 102 /\ Z_of_byte h <> 60 /\ Z_of_byte h <> 62 /\ Z_of_byte h <> 92).
  { unfold json_hex, json_digit in Hh. lia. }
  apply string_byte; unfold is_byte, html_byte, existsb; unfold is_byte; lia.
Qed.

Lemma u_escape_scan b t : html_byte b = true -> scan_string (u_escape (Z_of_byte b) ++ t) = scan_string t.
Proof.
  intros Hb. unfold html_byte, is_byte in Hb. cbn [existsb] in Hb. rewrite orb_false_r in Hb.
  apply orb_true_iff in Hb as [Hb|Hb]; [|apply orb_true_iff in Hb as [Hb|Hb]]; to_prop; rewrite Hb; reflexivity.
Qed.

Lemma scan_string_compact n s r :
  (length s <= n)%nat -> scan_string s = Some r ->
  exists c c', s = (c ++ [quote]) ++ r /\
    (forall t, json_compact true ((c ++ [quote]) ++ t) = c' ++ json_compact false t) /\
    forall t, scan_string (c' ++ t) = Some t.
Proof.
  revert s r. induction n as [|n IH]; intros s r Hn H; destruct s as [|b s]; cbn [length] in Hn; [done|lia|done|].
  cbn [scan_string] in H. destruct (is_byte 34 b) eqn:E34.
  { injection H as <-. assert (b = quote) as -> by (unfold is_byte in E34; to_prop; apply (inj Z_of_byte); exact E34).
    exists [], [quote]. done. }
  destruct (is_byte 92 b) eqn:E92.
  { destruct s as [|c s]; [done|]. destruct (json_escape c) eqn:Ec.
    - destruct (IH s r ltac:(cbn in Hn; lia) H) as (c0 & c' & -> & Hc & Ht). exists (b :: c :: c0), (b :: c :: c').
      split; [done|]. split; [intros t; cbn [app]; rewrite escape_pair by done; cbn [app]; do 2 f_equal; apply Hc|].
      intros t. cbn [app scan_string]. rewrite E34, E92, Ec. apply Ht.
    - destruct (is_byte 117 c) eqn:Eu; [|done]. destruct s as [|h1 [|h2 [|h3 [|h4 s]]]]; try done.
      destruct (json_hex h1 && json_hex h2 && json_hex h3 && json_hex h4) eqn:Eh; [|done]. pose proof Eh as Eh'.
      apply andb_true_iff in Eh' as [Eh' H4]. apply andb_true_iff in Eh' as [Eh' H3]. apply andb_true_iff in Eh' as [H1 H2].
      destruct (IH s r ltac:(cbn in Hn; lia) H) as (c0 & c' & -> & Hc & Ht).
      exists (b :: c :: h1 :: h2 :: h3 :: h4 :: c0), (b :: c :: h1 :: h2 :: h3 :: h4 :: c'). split; [done|]. split.
      + intros t. change ((b :: c :: h1 :: h2 :: h3 :: h4 :: c0) ++ [quote]) with (b :: c :: h1 :: h2 :: h3 :: h4 :: c0 ++ [quote]).
        cbn [app]. rewrite escape_pair, !hex_byte by done.
        cbn [app]. do 6 f_equal. apply Hc.
      + intros t. cbn [app scan_string]. rewrite E34, E92, Ec, Eu, Eh. apply Ht. }
  destruct (Z_of_byte b <? 32) eqn:E32; [done|].
  assert (Hpass : forall t, scan_string (b :: t) = scan_string t) by (intros t; cbn [scan_string]; by rewrite E34, E92, E32).
  destruct (html_byte b) eqn:Eh.
  { destruct (IH s r ltac:(lia) H) as (c0 & c' & -> & Hc & Ht). exists (b :: c0), (u_escape (Z_of_byte b) ++ c').
    split; [done|]. split.
    - intros t. cbn [app json_compact]. rewrite E92, E34, Eh, Hc. by rewrite app_assoc.
    - intros t. rewrite <- app_assoc, u_escape_scan by done. apply Ht. }
  destruct (is_byte 226 b) eqn:E226.
  2:{ destruct (IH s r ltac:(lia) H) as (c0 & c' & -> & Hc & Ht). exists (b :: c0), (b :: c'). split; [done|]. split.
    - intros t. cbn [app]. rewrite string_byte by done. cbn [app]. f_equal. apply Hc.
    - intros t. cbn [app]. rewrite Hpass. apply Ht. }
  assert (Hsep : (exists x y s', s = x :: y :: s' /\ is_byte 128 x && (is_byte 168 y || is_byte 169 y) = true) \/
    forall t, match s ++ t with x :: y :: _ => is_byte 128 x && (is_byte 168 y || is_byte 169 y) = false | _ => True end \/ length s = 1%nat).
  { destruct s as [|x [|y s]]; [by right; left|by right; right|].
    destruct (is_byte 128 x && (is_byte 168 y || is_byte 169 y)) eqn:Es; [left; eauto 10|right; by left]. }
  destruct Hsep as [(x & y & s' & -> & Hxy)|Hsep].
  - assert (scan_string s' = Some r) as H'.
    { apply andb_true_iff in Hxy as [Hx Hy]. unfold is_byte in Hx, Hy.
      assert (Z_of_byte x = 128) by lia. assert (168 <= Z_of_byte y <= 169) by lia.
      cbn [scan_string] in H. unfold is_byte in H.
      repeat match type of H with context [Z_of_byte ?z =? ?k] => destruct (Z_of_byte z =? k) eqn:?; [lia|] end.
      destruct (Z_of_byte x <? 32) eqn:?; [lia|]. destruct (Z_of_byte y <? 32) eqn:?; [lia|]. exact H. }
    destruct (IH s' r ltac:(cbn in Hn; lia) H') as (c0 & c' & -> & Hc & Ht).
    exists (b :: x :: y :: c0), (u_escape (8232 + (Z_of_byte y - 168)) ++ c'). split; [done|]. split.
    + intros t. cbn [app json_compact]. rewrite E92, E34, Eh, E226, Hxy, Hc. by rewrite app_assoc.
    + intros t. rewrite <- app_assoc. apply andb_true_iff in Hxy as [_ Hy]. unfold is_byte in Hy.
      assert (Z_of_byte y = 168 \/ Z_of_byte y = 169) as [->| ->] by lia; apply Ht.
  - destruct (IH s r ltac:(lia) H) as (c0 & c' & Hs & Hc & Ht). exists (b :: c0), (b :: c'). split; [by rewrite Hs|]. split.
    + intros t. cbn [app json_compact]. rewrite E92, E34, Eh, E226. rewrite <- Hc.
      destruct ((c0 ++ [quote]) ++ t) as [|x [|y s']] eqn:Eq; [done|done|].
      assert (is_byte 128 x && (is_byte 168 y || is_byte 169 y) = false) as ->; [|done].
      destruct c0 as [|c1 c0]; [by injection Eq as <- _|]. destruct c0 as [|c2 c0]; cbn in Eq; injection Eq as <- <- _.
      { cbn in Hs. subst s. destruct (Hsep []) as [Hx|Hx]; [cbn in Hx; exact Hx|by cbn in Hx]. }
      cbn in Hs. subst s. destruct (Hsep []) as [Hx|Hx]; [cbn in Hx; exact Hx|by cbn in Hx].
    + intros t. cbn [app]. rewrite Hpass. apply Ht.
Qed.

(** A scanner that reads the same token whatever follows it. *)
Definition plain_byte (b : byte) : bool := negb (json_space b) && negb (is_byte 34 b).
Definition token (P : bytes -> Prop) (scan : bytes -> option bytes) (s r : bytes) : Prop :=
  exists c, s = c ++ r /\ Forall (fun b => plain_byte b = true) c /\ forall t, P t -> scan (c ++ t) = Some t.
Definition nodigit (t : bytes) : Prop := match t with [] => True | b :: _ => json_digit b = false end.
Lemma stops_nodigit t : stops t -> nodigit t.
Proof. by destruct t as [|b t]; [|intros [? _]]. Qed.
Lemma skip_digits_nodigit s : nodigit (skip_digits s).
Proof. induction s as [|b s IH]; [done|]. cbn. destruct (json_digit b) eqn:E; [done|]. exact E. Qed.

Lemma plain_ne b n : is_byte n b = true -> (n < 9 \/ 34 < n) -> plain_byte b = true.
Proof. unfold plain_byte, json_space, is_byte. intros H Hn. to_prop. lia. Qed.
Lemma plain_digit b : json_digit b = true -> plain_byte b = true.
Proof. unfold plain_byte, json_space, is_byte, json_digit. lia. Qed.

Lemma skip_digits_split s : exists c, s = c ++ skip_digits s /\ Forall (fun b => json_digit b = true) c.
Proof.
  induction s as [|b s (c & Hs & Hc)]; [by exists []|]. cbn [skip_digits]. destruct (json_digit b) eqn:E; [|by exists []].
  exists (b :: c). split; [cbn; congruence|]. by constructor.
Qed.

Lemma digits_plain c : Forall (fun b => json_digit b = true) c -> Forall (fun b => plain_byte b = true) c.
Proof. intros Hc. eapply Forall_impl; [exact Hc|]. exact plain_digit. Qed.

Lemma skip_digits_nodigits v t : Forall (fun b => json_digit b = true) v -> nodigit t -> skip_digits (v ++ t) = t.
Proof.
  intros Hv Ht. induction Hv as [|b v Hb Hv IH]; cbn; [|by rewrite Hb]. destruct t as [|b t]; [done|]. cbn in *. by rewrite Ht.
Qed.

Lemma scan_digits1_token s r : scan_digits1 s = Some r -> token nodigit scan_digits1 s r /\ nodigit r.
Proof.
  destruct s as [|b s]; [done|]. cbn [scan_digits1]. destruct (json_digit b) eqn:E; [|done]. intros [= <-].
  split; [|apply skip_digits_nodigit].
  destruct (skip_digits_split s) as (c & Hs & Hc). exists (b :: c). split; [cbn; congruence|].
  split; [constructor; [by apply plain_digit|by apply digits_plain]|]. intros t Ht. cbn. by rewrite E, skip_digits_nodigits.
Qed.

Lemma scan_exponent_token s r : scan_exponent s = Some r -> token stops scan_exponent s r.
Proof.
  assert (Hnil : forall s, token stops scan_exponent s s).
  { intros s0. exists []. split; [done|]. split; [done|]. intros t Ht. destruct t as [|b t]; [done|].
    destruct Ht as (_ & _ & H1 & H2). cbn. by rewrite H1, H2. }
  destruct s as [|b s]; [intros [= <-]; apply Hnil|]. cbn [scan_exponent].
  destruct (is_byte 101 b || is_byte 69 b) eqn:E; [|intros [= <-]; apply Hnil].
  assert (plain_byte b = true) by (apply orb_true_iff in E as [E|E]; by apply (plain_ne b _ E); lia).
  destruct s as [|c s]; [done|]. destruct (is_byte 43 c || is_byte 45 c) eqn:E2; intros [Ht _]%scan_digits1_token.
  - assert (plain_byte c = true) by (apply orb_true_iff in E2 as [E2|E2]; by apply (plain_ne c _ E2); lia).
    destruct Ht as (k & -> & Hk & Ht). exists (b :: c :: k). split; [done|]. split; [by repeat constructor|].
    intros t Hst. cbn. rewrite E, E2. by apply Ht, stops_nodigit.
  - destruct Ht as (k & Hs & Hk & Ht). exists (b :: k). split; [cbn; congruence|]. split; [by constructor|].
    intros t Hst. cbn [app scan_exponent]. rewrite E. specialize (Ht t (stops_nodigit t Hst)).
    destruct k as [|c' k]; cbn [app] in *.
    + destruct t as [|x t]; [done|]. destruct Hst as (Hx & _). cbn in Ht. by rewrite Hx in Ht.
    + injection Hs as <- _. rewrite E2. exact Ht.
Qed.

Lemma scan_fraction_token s r : scan_fraction s = Some r -> token stops scan_fraction s r.
Proof.
  destruct s as [|b s]; cbn [scan_fraction].
  { intros [= <-]. exists []. split; [done|]. split; [done|]. intros t Ht. by apply scan_fraction_stops. }
  destruct (is_byte 46 b) eqn:E.
  - intros (m & [Hm Hnd]%scan_digits1_token & Hr%scan_exponent_token)%bind_Some.
    destruct Hm as (c1 & -> & H1 & T1), Hr as (c2 & -> & H2 & T2). exists (b :: c1 ++ c2).
    split; [cbn; by rewrite <- app_assoc|]. split.
    { constructor; [apply (plain_ne b 46 E); lia|]. by apply Forall_app. }
    intros t Ht. cbn [app scan_fraction]. rewrite E, <- app_assoc. rewrite T1; [cbn; by apply T2|].
    destruct c2 as [|x c2]; [by apply stops_nodigit|exact Hnd].
  - intros He%scan_exponent_token. destruct He as (c & Hs & Hc & T). exists c. split; [done|]. split; [done|].
    intros t Ht. specialize (T t Ht). destruct c as [|x c]; [by apply scan_fraction_stops|]. cbn [app] in *.
    injection Hs as <- _. cbn [scan_fraction]. by rewrite E.
Qed.

Lemma scan_number_token s r : scan_number s = Some r -> token stops scan_number s r.
Proof.
  set (unsigned := fun s => match s with
    | b :: r => if is_byte 48 b then scan_fraction r else if json_digit b then scan_fraction (skip_digits r) else None
    | [] => None end).
  assert (Hu : forall s r, unsigned s = Some r -> token stops unsigned s r).
  { clear s r. intros [|b s] r; [done|]. cbn [unsigned]. destruct (is_byte 48 b) eqn:E0.
    - intros (c & -> & Hc & T)%scan_fraction_token. exists (b :: c). split; [done|].
      split; [constructor; [apply (plain_ne b 48 E0); lia|done]|]. intros t Ht. cbn. rewrite E0. by apply T.
    - destruct (json_digit b) eqn:Eb; [|done]. destruct (skip_digits_split s) as (c1 & Hs & H1).
      pose proof (skip_digits_nodigit s) as Hnd. intros (c2 & Hs2 & H2 & T)%scan_fraction_token.
      exists (b :: c1 ++ c2). split; [cbn; rewrite <- app_assoc, <- Hs2; congruence|].
      split; [constructor; [by apply plain_digit|]; apply Forall_app; by split; [apply digits_plain|]|].
      intros t Ht. cbn. rewrite E0, Eb, <- app_assoc, skip_digits_nodigits; [by apply T|done|].
      destruct c2 as [|x c2]; [by apply stops_nodigit|]. rewrite Hs2 in Hnd. exact Hnd. }
  change (scan_number s) with (unsigned (match s with b :: r => if is_byte 45 b then r else s | [] => s end)).
  destruct s as [|b s]; [done|]. destruct (is_byte 45 b) eqn:E.
  - intros (c & -> & Hc & T)%Hu. exists (b :: c). split; [done|].
    split; [constructor; [apply (plain_ne b 45 E); lia|done]|]. intros t Ht.
    unfold scan_number. cbn [app]. rewrite E. by apply T.
  - intros (c & Hs & Hc & T)%Hu. exists c. split; [done|]. split; [done|]. intros t Ht. specialize (T t Ht).
    destruct c as [|x c]; cbn [app] in *.
    + unfold scan_number. destruct t as [|y t]; [done|]. destruct Ht as (Hy & _). cbn in T.
      rewrite Hy in T. destruct (is_byte 48 y) eqn:E1; [|done]. unfold is_byte, json_digit in *. lia.
    + injection Hs as <- _. unfold scan_number. rewrite E. exact T.
Qed.

Lemma scan_literal_token lit s r :
  Forall (fun n => 34 < n) lit -> scan_literal lit s = Some r -> token (fun _ => True) (scan_literal lit) s r.
Proof.
  intros Hl. revert s. induction Hl as [|n lit Hn Hl IH]; intros s H; cbn [scan_literal] in H.
  { injection H as <-. by exists []. }
  destruct s as [|b s]; [done|]. destruct (is_byte n b) eqn:E; [|done]. destruct (IH s H) as (c & -> & Hc & T).
  exists (b :: c). split; [done|]. split; [constructor; [by apply (plain_ne b n E); right|done]|].
  intros t Ht. cbn. rewrite E. by apply T.
Qed.

(** Elements up to the bracket, members up to the brace, after compaction. *)
Record elements_text (D : Z) (v : bytes) : Prop := {
  et_head : exists b r, v = b :: r /\ json_space b = false /\ is_byte 93 b = false;
  et_scan : forall d f t, d <= D -> (2 * length (v ++ t) + 2 <= f)%nat -> scan_elements f d (v ++ t) = Some (Some t)
}.
Record members_text (D : Z) (v : bytes) : Prop := {
  mt_head : exists r, v = quote :: r;
  mt_scan : forall d f t, d <= D -> (2 * length (v ++ t) + 2 <= f)%nat -> scan_members f d (v ++ t) = Some (Some t)
}.

Lemma plain_cpt c : Forall (fun b => plain_byte b = true) c -> cpt c c.
Proof.
  intros Hc. apply cpt_plain. eapply Forall_impl; [exact Hc|]. intros b Hb. unfold plain_byte in Hb.
  apply andb_true_iff in Hb as [H1 H2]. by apply negb_true_iff in H1, H2.
Qed.

Definition compacts (P : bytes -> Prop) (s r : bytes) : Prop :=
  exists c c', s = c ++ r /\ cpt c c' /\ P c'.

Lemma compacts_space (P : bytes -> Prop) s r v v' : skip_space s = v ++ r -> cpt v v' -> P v' -> compacts P s r.
Proof.
  intros Hs Hv HP. destruct (skip_space_split s) as (sp & Hsp & Hc). exists (sp ++ v), v'.
  split; [by rewrite <- app_assoc, <- Hs|]. split; [|done]. apply (cpt_app sp [] v v' Hc Hv).
Qed.

Lemma is_byte_eq n b c : is_byte n b = true -> is_byte n c = true -> b = c.
Proof. unfold is_byte. intros H1 H2. to_prop. apply (inj Z_of_byte). congruence. Qed.

Ltac byte_is H x := match type of H with is_byte ?n ?b = true => assert (b = x) as -> by (apply (is_byte_eq n); [exact H|reflexivity]) end.

(** A literal or a number as a value. *)
Lemma json_text_token D b s r :
  json_space b = false -> is_byte 123 b = false -> is_byte 91 b = false -> is_byte 34 b = false ->
  (if is_byte 116 b then scan_literal [114; 117; 101] s else if is_byte 102 b then scan_literal [97; 108; 115; 101] s
   else if is_byte 110 b then scan_literal [117; 108; 108] s else scan_number (b :: s)) = Some r ->
  exists c, b :: s = c ++ r /\ cpt c c /\ json_text D c.
Proof.
  intros H1 H2 H3 H4 H.
  assert (Hlit : forall lit, Forall (fun n => 34 < n) lit -> scan_literal lit s = Some r -> plain_byte b = true ->
    (forall d f t, scan_value (S f) d (b :: t) = Some (scan_literal lit t)) -> is_byte 93 b = false -> is_byte 125 b = false ->
    exists c, b :: s = c ++ r /\ cpt c c /\ json_text D c).
  { intros lit Hl (c & -> & Hc & T)%scan_literal_token Hb Hscan Hb1 Hb2; [|done]. exists (b :: c). split; [done|].
    split; [by apply plain_cpt; constructor|]. constructor; [by exists b, c|].
    intros d f t _ Ht Hf. destruct f as [|f]; [lia|]. cbn [app]. rewrite Hscan. by rewrite T. }
  assert (Hplain : plain_byte b = true) by (unfold plain_byte; by rewrite H1, H4).
  destruct (is_byte 116 b) eqn:E1; [byte_is E1 x74; apply (Hlit [114; 117; 101]); try done; repeat constructor|].
  destruct (is_byte 102 b) eqn:E2; [byte_is E2 x66; apply (Hlit [97; 108; 115; 101]); try done; repeat constructor|].
  destruct (is_byte 110 b) eqn:E3; [byte_is E3 x6e; apply (Hlit [117; 108; 108]); try done; repeat constructor|].
  assert (is_byte 93 b = false /\ is_byte 125 b = false) as [Hb1 Hb2].
  { unfold scan_number in H. destruct (is_byte 45 b) eqn:E; [byte_is E x2d; done|].
    destruct (is_byte 48 b) eqn:E'; [byte_is E' x30; done|]. destruct (json_digit b) eqn:Ed; [|done].
    unfold json_digit, is_byte in *. lia. }
  pose proof (scan_number_length _ _ H) as Hlen.
  apply scan_number_token in H as (c & Hs & Hc & T). exists c. split; [done|]. split; [by apply plain_cpt|].
  destruct c as [|x c]; [cbn in Hs; subst r; lia|]. injection Hs as <- Hs.
  constructor; [by exists b, c|]. intros d f t _ Ht Hf. destruct f as [|f]; [lia|]. specialize (T t Ht).
  cbn [app scan_value skip_space] in *. by rewrite H1, H2, H3, H4, E1, E2, E3, T.
Qed.

Lemma json_text_scan_string D s r : scan_string s = Some r ->
  exists c c', quote :: s = c ++ r /\ cpt c c' /\ json_text D c'.
Proof.
  intros H. destruct (scan_string_compact (length s) s r ltac:(lia) H) as (c & c' & -> & Hc & Ht).
  exists (quote :: c ++ [quote]), (quote :: c'). split; [done|].
  split; [intros t; cbn [app json_compact]; change (json_space quote) with false; change (is_byte 34 quote) with true; cbn iota; f_equal; apply Hc|].
  constructor; [by eexists quote, _|]. intros d f t _ _ Hf. destruct f as [|f]; [lia|].
  cbn [app scan_value skip_space]. change (json_space quote) with false. change (is_byte 123 quote) with false.
  change (is_byte 91 quote) with false. change (is_byte 34 quote) with true. cbn iota. by rewrite Ht.
Qed.

Lemma members_object D v : 0 <= D < maxNestingDepth -> members_text (D + 1) v -> json_text D (x7b :: v).
Proof.
  intros HD [(r & Hr) Hs]. constructor; [by eexists x7b, _|]. intros d f t Hd _ Hf. destruct f as [|f]; [lia|].
  cbn [app scan_value skip_space]. change (json_space x7b) with false. change (is_byte 123 x7b) with true. cbn iota.
  destruct (maxNestingDepth <=? d) eqn:E; [to_prop; lia|].
  transitivity (scan_members f (d + 1) (v ++ t)); [by rewrite Hr|]. apply Hs; [lia|]. cbn [app length] in Hf. lia.
Qed.

Lemma elements_array D v : 0 <= D < maxNestingDepth -> elements_text (D + 1) v -> json_text D (x5b :: v).
Proof.
  intros HD [(b & r & Hr & Hb1 & Hb2) Hs]. constructor; [by eexists x5b, _|]. intros d f t Hd _ Hf. destruct f as [|f]; [lia|].
  cbn [app scan_value skip_space]. change (json_space x5b) with false. change (is_byte 123 x5b) with false.
  change (is_byte 91 x5b) with true. cbn iota. destruct (maxNestingDepth <=? d) eqn:E; [to_prop; lia|].
  transitivity (scan_elements f (d + 1) (v ++ t)); [rewrite Hr; cbn [app skip_space]; by rewrite Hb1, Hb2|].
  apply Hs; [lia|]. cbn [app length] in Hf. lia.
Qed.

(** The empty object and the empty array. *)
Lemma json_text_empty D o c : D < maxNestingDepth -> (o = x7b /\ c = x7d) \/ (o = x5b /\ c = x5d) -> json_text D [o; c].
Proof.
  intros HD Hoc. constructor; [by destruct Hoc as [[-> ->]|[-> ->]]; eexists _, _|].
  intros d f t Hd _ Hf. destruct f as [|f]; [lia|].
  assert (maxNestingDepth <=? d = false) as E by (apply Z.leb_gt; lia).
  destruct Hoc as [[-> ->]|[-> ->]]; cbn [app scan_value skip_space];
    [change (json_space x7b) with false; change (is_byte 123 x7b) with true
    |change (json_space x5b) with false; change (is_byte 123 x5b) with false; change (is_byte 91 x5b) with true];
    cbn iota; rewrite E; reflexivity.
Qed.

Lemma elements_one D v : json_text D v -> elements_text D (v ++ [x5d]).
Proof.
  intros Hv. constructor.
  - destruct (jt_head _ _ Hv) as (b & r & -> & H1 & H2 & _). by exists b, (r ++ [x5d]).
  - intros d f t Hd Hf. destruct f as [|f]; [lia|]. cbn [scan_elements]. rewrite <- app_assoc in *. cbn [app] in *.
    rewrite (jt_scan _ _ Hv); [done|done|done|lia].
Qed.
Lemma elements_cons D v w : json_text D v -> elements_text D w -> elements_text D (v ++ [x2c] ++ w).
Proof.
  intros Hv Hw. constructor.
  - destruct (jt_head _ _ Hv) as (b & r & -> & H1 & H2 & _). by eexists b, _.
  - intros d f t Hd Hf. destruct f as [|f]; [lia|]. cbn [scan_elements]. rewrite <- !app_assoc in *. cbn [app] in *.
    rewrite (jt_scan _ _ Hv); [|done|done|lia]. cbn [skip_space]. change (json_space x2c) with false.
    change (is_byte 44 x2c) with true. cbn iota. apply (et_scan _ _ Hw); [done|]. rewrite length_app in Hf. cbn [length] in Hf. lia.
Qed.
Lemma members_one D k v close :
  (forall t, scan_string (k ++ t) = Some t) -> json_text D v ->
  (close = [x7d] \/ exists w, close = x2c :: w /\ members_text D w) ->
  members_text D ([quote] ++ k ++ [x3a] ++ v ++ close).
Proof.
  intros Hk Hv Hc. constructor; [by eexists|]. intros d f t Hd Hf. destruct f as [|f]; [lia|].
  rewrite <- !app_assoc in *. cbn [app scan_members skip_space] in *. change (json_space quote) with false.
  change (is_byte 34 quote) with true. cbn iota. rewrite Hk. cbn [skip_space]. change (json_space x3a) with false.
  change (is_byte 58 x3a) with true. cbn iota. cbn [length] in Hf. rewrite !length_app in Hf. cbn [length] in Hf.
  rewrite length_app in Hf.
  destruct Hc as [->|(w & -> & Hw)]; cbn [app length] in *.
  - rewrite (jt_scan _ _ Hv); [done|done|done|]. rewrite length_app. cbn [length]. lia.
  - rewrite length_app in Hf. rewrite (jt_scan _ _ Hv); [|done|done|rewrite length_app; cbn [length]; rewrite length_app; lia].
    cbn [skip_space]. change (json_space x2c) with false. change (is_byte 44 x2c) with true. cbn iota.
    apply (mt_scan _ _ Hw); [done|]. rewrite length_app. lia.
Qed.

Lemma cpt_cons b c c' : json_space b = false -> is_byte 34 b = false -> cpt c c' -> cpt (b :: c) (b :: c').
Proof. intros H1 H2 Hc. apply (cpt_app [b] [b] c c'); [by apply cpt_byte|done]. Qed.

Lemma compacts_empty D s o c s0 r : D < maxNestingDepth -> (o = x7b /\ c = x7d) \/ (o = x5b /\ c = x5d) ->
  skip_space s = o :: s0 -> skip_space s0 = c :: r -> compacts (json_text D) s r.
Proof.
  intros HD Hoc Hs Hs0. destruct (skip_space_split s0) as (sp & Hsp & Hc). rewrite Hs0 in Hsp. subst s0.
  apply (compacts_space _ s r (o :: sp ++ [c]) [o; c]); [rewrite Hs; cbn; by rewrite <- app_assoc| |by apply json_text_empty].
  assert (json_space o = false /\ is_byte 34 o = false /\ json_space c = false /\ is_byte 34 c = false) as (H1 & H2 & H3 & H4)
    by (by destruct Hoc as [[-> ->]|[-> ->]]).
  apply cpt_cons; [done|done|]. apply (cpt_app sp [] [c] [c] Hc). by apply cpt_byte.
Qed.

Lemma compacts_after (P : bytes -> Prop) s m r v v' w w' s0 :
  s = v ++ m -> cpt v v' -> skip_space m = s0 -> s0 = w ++ r -> cpt w w' -> P (v' ++ w') -> compacts P s r.
Proof.
  intros -> Hv <- Hm Hw HP. destruct (skip_space_split m) as (sp & Hsp & Hc). exists (v ++ sp ++ w), (v' ++ w').
  split; [rewrite <- !app_assoc, <- Hm; congruence|]. split; [|done].
  apply (cpt_app v v' (sp ++ w) w' Hv). apply (cpt_app sp [] w w' Hc Hw).
Qed.

Lemma compact_scan fuel :
  (forall D s r, 0 <= D -> scan_value fuel D s = Some (Some r) -> compacts (json_text D) s r) /\
  (forall D s r, 0 <= D -> scan_elements fuel D s = Some (Some r) -> compacts (elements_text D) s r) /\
  (forall D s r, 0 <= D -> scan_members fuel D s = Some (Some r) -> compacts (members_text D) s r).
Proof.
  induction fuel as [|fuel (IHv & IHe & IHm)]; [done|]. split; [|split]; intros D s r HD H.
  - cbn [scan_value] in H. destruct (skip_space s) as [|b s0] eqn:Es; [done|].
    assert (Hb : json_space b = false).
    { clear -Es. induction s as [|x s IH]; [done|]. cbn in Es. destruct (json_space x) eqn:E; [auto|congruence]. }
    destruct (is_byte 123 b) eqn:E1; [byte_is E1 x7b|destruct (is_byte 91 b) eqn:E2; [byte_is E2 x5b|destruct (is_byte 34 b) eqn:E3]].
    + destruct (maxNestingDepth <=? D) eqn:Ed; [done|]. to_prop. destruct (skip_space s0) as [|c s1] eqn:Es0; [done|].
      destruct (is_byte 125 c) eqn:Ec.
      { injection H as <-. byte_is Ec x7d. eapply (compacts_empty D s x7b x7d); [lia|by left|done|done]. }
      apply IHm in H as (v & v' & -> & Hc & Hv); [|lia]. apply (compacts_space _ s r (x7b :: v) (x7b :: v')); [done|by apply cpt_cons|].
      apply members_object; [lia|done].
    + destruct (maxNestingDepth <=? D) eqn:Ed; [done|]. to_prop. destruct (skip_space s0) as [|c s1] eqn:Es0; [done|].
      destruct (is_byte 93 c) eqn:Ec.
      { injection H as <-. byte_is Ec x5d. eapply (compacts_empty D s x5b x5d); [lia|by right|done|done]. }
      apply IHe in H as (v & v' & -> & Hc & Hv); [|lia]. apply (compacts_space _ s r (x5b :: v) (x5b :: v')); [done|by apply cpt_cons|].
      apply elements_array; [lia|done].
    + injection H as H. byte_is E3 quote. apply (json_text_scan_string D) in H as (v & v' & Hs & Hc & Hv).
      apply (compacts_space _ s r v v'); [congruence|done|done].
    + assert (Some r = if is_byte 116 b then scan_literal [114; 117; 101] s0 else if is_byte 102 b then scan_literal [97; 108; 115; 101] s0
        else if is_byte 110 b then scan_literal [117; 108; 108] s0 else scan_number (b :: s0)) as H'
        by (destruct (is_byte 116 b), (is_byte 102 b), (is_byte 110 b); apply (inj Some) in H; exact (eq_sym H)).
      symmetry in H'. apply (json_text_token D) in H' as (c & Hs & Hc & Hv); [|done..].
      apply (compacts_space _ s r c c); [congruence|done|done].
  - cbn [scan_elements] in H. destruct (scan_value fuel D s) as [[m|]|] eqn:Ev; [|done..].
    apply IHv in Ev as (v & v' & -> & Hc & Hv); [|done]. destruct (skip_space m) as [|c m1] eqn:Em; [done|].
    destruct (is_byte 44 c) eqn:E1; [byte_is E1 x2c|destruct (is_byte 93 c) eqn:E2; [byte_is E2 x5d|done]].
    + apply IHe in H as (w & w' & -> & Hcw & Hw); [|done].
      eapply (compacts_after _ _ m r v v' (x2c :: w) (x2c :: w')); [done|done|exact Em|done|by apply cpt_cons|].
      by apply (elements_cons D v' w').
    + injection H as <-. eapply (compacts_after _ _ m m1 v v' [x5d] [x5d]); [done|done|exact Em|done|by apply cpt_byte|].
      by apply elements_one.
  - cbn [scan_members] in H. destruct (skip_space s) as [|q s0] eqn:Es; [done|].
    destruct (is_byte 34 q) eqn:E; [byte_is E quote|done]. destruct (scan_string s0) as [s1|] eqn:Ek; [|done].
    destruct (skip_space s1) as [|c s2] eqn:Es1; [done|]. destruct (is_byte 58 c) eqn:Ec; [byte_is Ec x3a|done].
    destruct (scan_value fuel D s2) as [[m|]|] eqn:Ev; [|done..].
    apply IHv in Ev as (v & v' & -> & Hcv & Hv); [|done]. destruct (skip_space m) as [|x m1] eqn:Em; [done|].
    destruct (scan_string_compact (length s0) s0 s1 ltac:(lia) Ek) as (k & k' & -> & Hck & Hk).
    assert (Hq : cpt (quote :: k ++ [quote]) (quote :: k')).
    { intros t. cbn [app json_compact]. change (json_space quote) with false. change (is_byte 34 quote) with true. cbn iota. f_equal. apply Hck. }
    destruct (skip_space_split s1) as (sp & Hsp & Hcsp). rewrite Es1 in Hsp. subst s1.
    assert (Hpre : exists c c', s = c ++ m /\ cpt c c' /\ c' = [quote] ++ k' ++ [x3a] ++ v').
    { destruct (skip_space_split s) as (sp0 & Hsp0 & Hc0). rewrite Es in Hsp0.
      exists (sp0 ++ (quote :: k ++ [quote]) ++ sp ++ (x3a :: v)), ([] ++ (quote :: k') ++ [] ++ (x3a :: v')).
      split; [rewrite Hsp0; cbn [app]; rewrite <- ?app_assoc; do 3 (cbn [app]; rewrite <- ?app_assoc); reflexivity|]. split; [|done].
      apply (cpt_app sp0 [] _ _ Hc0), (cpt_app _ _ _ _ Hq), (cpt_app sp [] _ _ Hcsp). by apply cpt_cons. }
    destruct Hpre as (p & p' & -> & Hcp & ->). clear Es.
    destruct (is_byte 44 x) eqn:E1; [byte_is E1 x2c|destruct (is_byte 125 x) eqn:E2; [byte_is E2 x7d|done]].
    + apply IHm in H as (w & w' & -> & Hcw & Hw); [|done].
      eapply (compacts_after _ _ m r p _ (x2c :: w) (x2c :: w')); [done|exact Hcp|exact Em|done|by apply cpt_cons|].
      rewrite <- !app_assoc. apply members_one; [done|done|]. right. by exists w'.
    + injection H as <-. eapply (compacts_after _ _ m m1 p _ [x7d] [x7d]); [done|exact Hcp|exact Em|done|by apply cpt_byte|].
      rewrite <- !app_assoc. apply members_one; [done|done|]. by left.
Qed.

Lemma json_compact_space s : skip_space s = [] -> json_compact false s = [].
Proof. induction s as [|b s IH]; [done|]. cbn. destruct (json_space b); [exact IH|done]. Qed.

(** A value with space around it compacts to a value, of the same kind. *)
Lemma json_compact_text D s rest :
  0 <= D -> scan_value (json_fuel s) D s = Some (Some rest) -> skip_space rest = [] ->
  json_text D (json_compact false s) /\ json_object (json_compact false s) = json_object s.
Proof.
  intros HD H Hrest. destruct (proj1 (compact_scan _) D s rest HD H) as (c & c' & Hs & Hc & Ht).
  assert (json_compact false s = c') as Hcomp by (rewrite Hs, Hc, json_compact_space by done; by rewrite app_nil_r).
  rewrite Hcomp. split; [done|]. destruct (skip_space_split s) as (sp & Hsp & Hcsp).
  unfold json_object. destruct (jt_head _ _ Ht) as (b & r & -> & Hb & _). cbn [skip_space]. rewrite Hb.
  rewrite Hsp in Hcomp. rewrite Hcsp in Hcomp. cbn [app] in Hcomp. destruct (skip_space s) as [|x t] eqn:Es; [done|].
  cbn [json_compact] in Hcomp. destruct (json_space x) eqn:Ex.
  { exfalso. clear -Es Ex. induction s as [|y s IH]; [done|]. cbn in Es. destruct (json_space y) eqn:E; [auto|congruence]. }
  by injection Hcomp as -> _.
Qed.

Lemma json_text_Valid D v : 0 <= D -> json_text D v -> json_Valid v = true.
Proof.
  intros HD Hv. unfold json_Valid. pose proof (json_text_fuel D v 0 [] Hv HD I) as H. rewrite app_nil_r in H. rewrite H. done.
Qed.

(** ** Compaction is idempotent *)
Lemma u_escape_compact r t : 0 <= r < 65536 -> json_compact true (u_escape r ++ t) = u_escape r ++ json_compact true t.
Proof.
  intros Hr. assert (forall d, 0 <= d < 16 -> json_hex (hex_digit d) = true) as Hhex.
  { intros d Hd. assert (forallb (fun k => json_hex (hex_digit (Z.of_nat k))) (seq 0 16) = true) as Hall by reflexivity.
    rewrite forallb_forall in Hall. specialize (Hall (Z.to_nat d)). rewrite Z2Nat.id in Hall by lia.
    apply Hall, in_seq. lia. }
  unfold u_escape. change (bs "\u") with [x5c; x75]. cbn [app]. rewrite escape_pair by done.
  rewrite !hex_byte; [done|apply Hhex..]; try (split; [apply Z.div_pos; lia|apply Z.div_lt_upper_bound; lia]);
    apply Z.mod_pos_bound; lia.
Qed.

(** The two bytes after an incomplete separator do not complete it. *)
Definition separator_tail (s : bytes) : bool :=
  match s with c :: d :: _ => is_byte 128 c && (is_byte 168 d || is_byte 169 d) | _ => false end.

Lemma compact_226 b r : is_byte 226 b = true ->
  json_compact true (b :: r) =
    if separator_tail r then u_escape (8232 + (Z_of_byte (nth 1 r x00) - 168)) ++ json_compact true (drop 2 r)
    else b :: json_compact true r.
Proof.
  intros Hb. assert (is_byte 92 b = false /\ is_byte 34 b = false /\ html_byte b = false) as (H1 & H2 & H3).
  { unfold html_byte, existsb, is_byte in *. lia. }
  cbn [json_compact]. rewrite H1, H2, H3, Hb. destruct r as [|c [|d r]]; cbn [separator_tail nth drop]; try done.
Qed.

Lemma plain_high b r : 128 <= Z_of_byte b -> is_byte 226 b = false -> json_compact true (b :: r) = b :: json_compact true r.
Proof. intros Hb H. apply string_byte; unfold html_byte, existsb, is_byte in *; lia. Qed.

(** The first byte of what a byte compacts to. *)
Lemma compact_head d r x t :
  json_compact true (d :: r) = x :: t -> 128 <= Z_of_byte x -> d = x.
Proof.
  intros H Hx. destruct (decide (Z_of_byte d < 128)) as [Hd|Hd].
  - exfalso. cbn [json_compact] in H. assert (is_byte 226 d = false) as E by (unfold is_byte; lia). rewrite E in H.
    destruct (is_byte 92 d) eqn:E1; [destruct r; injection H as <- _; lia|].
    destruct (is_byte 34 d); [injection H as <- _; lia|]. destruct (html_byte d).
    + unfold u_escape in H. change (bs "\u") with [x5c; x75] in H. cbn [app] in H. injection H as <- _. vm_compute in Hx. by apply Hx.
    + injection H as <- _. lia.
  - destruct (is_byte 226 d) eqn:E; [|rewrite plain_high in H by (done || lia); congruence].
    rewrite compact_226 in H by done. destruct (separator_tail r); [|congruence].
    exfalso. unfold u_escape in H. change (bs "\u") with [x5c; x75] in H. cbn [app] in H. injection H as <- _. vm_compute in Hx. by apply Hx.
Qed.

Lemma separator_tail_compact r : separator_tail r = false -> separator_tail (json_compact true r) = false.
Proof.
  intros Hr. destruct (json_compact true r) as [|c [|d t]] eqn:E; try done. cbn [separator_tail].
  destruct (is_byte 128 c && (is_byte 168 d || is_byte 169 d)) eqn:Es; [|done]. exfalso.
  assert (Z_of_byte c = 128 /\ (Z_of_byte d = 168 \/ Z_of_byte d = 169)) as [Hc Hd] by (unfold is_byte in Es; lia).
  destruct r as [|c' r]; [done|]. assert (c' = c) as -> by (apply (compact_head c' r c (d :: t)); [done|lia]).
  rewrite plain_high in E by (unfold is_byte; lia). injection E as E. destruct r as [|d' r]; [done|].
  assert (d' = d) as -> by (apply (compact_head d' r d t); [done|lia]). cbn [separator_tail] in Hr. congruence.
Qed.

Lemma json_compact_idempotent b s : json_compact b (json_compact b s) = json_compact b s.
Proof.
  assert (forall n b s, (length s <= n)%nat -> json_compact b (json_compact b s) = json_compact b s) as Hg; [|by apply (Hg (length s))].
  clear. induction n as [|n IH]; intros b s Hn; destruct s as [|x r]; cbn [length] in Hn; try done; [lia|].
  destruct b.
  2:{ cbn [json_compact]. destruct (json_space x) eqn:E; [apply IH; lia|]. cbn [json_compact]. rewrite E. f_equal. apply IH. lia. }
  destruct (is_byte 226 x) eqn:E226.
  { rewrite compact_226 by done. destruct (separator_tail r) eqn:Es.
    - rewrite u_escape_compact.
      + f_equal. apply IH. rewrite length_drop. lia.
      + destruct r as [|c [|d r]]; try done. cbn [separator_tail nth] in *. unfold is_byte in Es. lia.
    - rewrite compact_226 by done. rewrite separator_tail_compact by done. f_equal. apply IH. lia. }
  cbn [json_compact]. rewrite E226. destruct (is_byte 92 x) eqn:E92.
  { destruct r as [|c r]; cbn [json_compact]; rewrite E92; [done|]. do 2 f_equal. apply IH. cbn in Hn. lia. }
  destruct (is_byte 34 x) eqn:E34; [cbn [json_compact]; rewrite E92, E34; f_equal; apply IH; lia|].
  destruct (html_byte x) eqn:Eh.
  - rewrite u_escape_compact; [f_equal; apply IH; lia|]. unfold html_byte, existsb, is_byte in Eh. lia.
  - rewrite string_byte by done. f_equal. apply IH. lia.
Qed.
