(* ===== verification/ManifestJson.v ===== *)
(** * The JSON text of manifests: what [manifest.go] uses of [encoding/json]

    [json.Marshal] of the [Manifest] structure, [json.Unmarshal] into a map of
    raw messages, and [Decode] with [DisallowUnknownFields].  Field names match
    exactly or by case folding, [null] leaves a field as it is, a raw message
    keeps its text, numbers must fit their field.  What the package does with a
    member repeated inside one object (it merges into the earlier value) is not
    modelled: it is an arbitrary function [repeated]. *)
From S2P Require Import Prelude Bytes Utf8 Json JsonText Paths Names Manifest ManifestFile.
From Stdlib Require Import Ascii.
#[local] Open Scope string_scope.
#[local] Open Scope list_scope.
#[local] Open Scope Z_scope.

(** ** Encoding *)

(** A field with [omitempty] *)
Definition omit_empty {A} (name : string) (l : list A) (encode : list A -> bytes) : list (string * bytes) :=
  match l with [] => [] | _ => [(name, encode l)] end.

Definition json_segment (s : SegmentMetadata) : bytes :=
  json_struct ([("id", json_uint (sm_ID s)); ("min_doc_id", json_uint (sm_MinDocID s));
    ("max_doc_id", json_uint (sm_MaxDocID s)); ("doc_count", json_uint (sm_DocCount s))] ++
    omit_empty "files" (sm_Files s) (fun l => json_array (json_string <$> l))).
Definition json_artifact (a : IndexArtifactMetadata) : bytes :=
  json_struct [("field", json_string (ia_Field a)); ("kind", json_string (ia_Kind a)); ("file", json_string (ia_File a))].
Definition json_index (s : SegmentIndexSnapshotMetadata) : bytes :=
  json_struct ([("segment_id", json_uint (si_SegmentID s)); ("schema_sha256", json_string (si_SchemaSHA256 s));
    ("document_count", json_uint (si_DocumentCount s)); ("min_document_id", json_uint (si_MinDocumentID s));
    ("max_document_id", json_uint (si_MaxDocumentID s))] ++
    omit_empty "artifacts" (si_Artifacts s) (fun l => json_array (json_artifact <$> l))).

(** [json.Marshal] of a manifest; it fails only on a schema that is not JSON. *)
Definition json_Marshal (m : Manifest) : result bytes :=
  if negb (json_Valid (mf_Schema m)) then Fail (errors_New "json: error calling MarshalJSON")
  else Ok (json_struct (
    [("format_version", json_uint (mf_FormatVersion m)); ("generation", json_uint (mf_Generation m));
     ("schema", json_compact false (mf_Schema m)); ("enable_mmap", json_bool (mf_EnableMmap m));
     ("segment_max_documents", json_uint (mf_SegmentMaxDocuments m))] ++
    omit_empty "persisted_segments" (mf_PersistedSegments m) (fun l => json_array (json_segment <$> l)) ++
    omit_empty "writing_segment" (option_list (mf_WritingSegment m)) (fun l => json_join (json_segment <$> l)) ++
    [("writing_segment_start_doc_id", json_uint (mf_WritingSegmentStartDocID m)); ("id_map", json_string (mf_IDMap m));
     ("delete_snapshot_generation", json_uint (mf_DeleteSnapshotGeneration m));
     ("next_segment_id", json_uint (mf_NextSegmentID m))] ++
    omit_empty "segment_index_snapshots" (mf_SegmentIndexSnapshots m) (fun l => json_array (json_index <$> l)))).

(** ** Decoding into fields *)

(** A document that decodes, one that does not, one with a repeated member. *)
Inductive decoded (A : Type) : Type :=
| Decoded (a : A)
| Undecodable
| Repeated.
Arguments Decoded {A} a.
Arguments Undecodable {A}.
Arguments Repeated {A}.
#[global] Instance decoded_ret : MRet decoded := fun A a => Decoded a.
#[global] Instance decoded_bind : MBind decoded := fun A B f m =>
  match m with Decoded a => f a | Undecodable => Undecodable | Repeated => Repeated end.

Fixpoint decode_all {A} (decode : bytes -> decoded A) (l : list bytes) : decoded (list A) :=
  match l with
  | [] => Decoded []
  | raw :: l => x ← decode raw; xs ← decode_all decode l; Decoded (x :: xs)
  end.

Definition is_null (raw : bytes) : bool := first_byte 110 raw.

Definition decode_uint (maximum : Z) (raw : bytes) : decoded Z :=
  if is_null raw then Decoded 0
  else match raw with
  | b :: _ =>
      if json_digit b then
        match ParseUint (String.string_of_list_byte raw) with
        | Some n => if maximum <? n then Undecodable else Decoded n
        | None => Undecodable
        end
      else Undecodable
  | [] => Undecodable
  end.
Definition decode_bool (raw : bytes) : decoded bool :=
  if is_null raw then Decoded false else if first_byte 116 raw then Decoded true
  else if first_byte 102 raw then Decoded false else Undecodable.
Definition decode_string (raw : bytes) : decoded string :=
  if is_null raw then Decoded ""
  else if first_byte 34 raw
  then Decoded (String.string_of_list_byte (unquote (length raw) (take (length raw - 2) (drop 1 raw))))
  else Undecodable.
Definition decode_slice {A} (decode : bytes -> decoded A) (raw : bytes) : decoded (list A) :=
  if is_null raw then Decoded [] else match array_elements raw with Some l => decode_all decode l | None => Undecodable end.

(** Names that match under [bytes.EqualFold]: ASCII case, the long s and the
    Kelvin sign. *)
Definition fold_byte (b : byte) : byte :=
  if (65 <=? Z_of_byte b) && (Z_of_byte b <=? 90) then byte_of_Z (Z_of_byte b + 32) else b.
Fixpoint fold_name (s : bytes) : bytes :=
  match s with
  | [] => []
  | b :: r =>
      match r with
      | c :: r' =>
          if is_byte 197 b && is_byte 191 c then x73 :: fold_name r'
          else if is_byte 226 b && is_byte 132 c then
            match r' with
            | d :: r'' => if is_byte 170 d then x6b :: fold_name r'' else b :: fold_name r
            | [] => b :: fold_name r
            end
          else fold_byte b :: fold_name r
      | [] => [fold_byte b]
      end
  end.
Definition find_field (names : list string) (key : bytes) : option string :=
  match list_find (fun n => bs n = key) names with
  | Some (_, n) => Some n
  | None => snd <$> list_find (fun n => fold_name (bs n) = fold_name key) names
  end.

(** The raw text of each known field that is present. *)
Fixpoint match_fields (names : list string) (members : list (bytes * bytes)) (seen : list (string * bytes))
    : decoded (list (string * bytes)) :=
  match members with
  | [] => Decoded seen
  | (key, raw) :: members =>
      match find_field names (unquote (length key) key) with
      | None => Undecodable
      | Some n => if bool_decide (n ∈ seen.*1) then Repeated else match_fields names members ((n, raw) :: seen)
      end
  end.
Definition decode_fields (names : list string) (raw : bytes) : decoded (list (string * bytes)) :=
  if is_null raw then Decoded []
  else match object_members raw with Some l => match_fields names l [] | None => Undecodable end.
(** A field, the zero value when it is absent. *)
Definition field {A} (fields : list (string * bytes)) (name : string) (zero : A) (decode : bytes -> decoded A) : decoded A :=
  match list_find (fun f => f.1 = name) fields with Some (_, f) => decode f.2 | None => Decoded zero end.

Definition segment_names : list string := ["id"; "min_doc_id"; "max_doc_id"; "doc_count"; "files"].
Definition artifact_names : list string := ["field"; "kind"; "file"].
Definition index_names : list string :=
  ["segment_id"; "schema_sha256"; "document_count"; "min_document_id"; "max_document_id"; "artifacts"].

Definition decode_segment (raw : bytes) : decoded SegmentMetadata :=
  f ← decode_fields segment_names raw;
  id ← field f "id" 0 (decode_uint u64_max);
  minDoc ← field f "min_doc_id" 0 (decode_uint u64_max);
  maxDoc ← field f "max_doc_id" 0 (decode_uint u64_max);
  count ← field f "doc_count" 0 (decode_uint u64_max);
  files ← field f "files" [] (decode_slice decode_string);
  Decoded {| sm_ID := id; sm_MinDocID := minDoc; sm_MaxDocID := maxDoc; sm_DocCount := count; sm_Files := files |}.
Definition decode_artifact (raw : bytes) : decoded IndexArtifactMetadata :=
  f ← decode_fields artifact_names raw;
  fld ← field f "field" "" decode_string;
  kind ← field f "kind" "" decode_string;
  file ← field f "file" "" decode_string;
  Decoded {| ia_Field := fld; ia_Kind := kind; ia_File := file |}.
Definition decode_index (raw : bytes) : decoded SegmentIndexSnapshotMetadata :=
  f ← decode_fields index_names raw;
  id ← field f "segment_id" 0 (decode_uint u64_max);
  hash ← field f "schema_sha256" "" decode_string;
  count ← field f "document_count" 0 (decode_uint u64_max);
  minDoc ← field f "min_document_id" 0 (decode_uint u64_max);
  maxDoc ← field f "max_document_id" 0 (decode_uint u64_max);
  artifacts ← field f "artifacts" [] (decode_slice decode_artifact);
  Decoded {| si_SegmentID := id; si_SchemaSHA256 := hash; si_DocumentCount := count; si_MinDocumentID := minDoc;
             si_MaxDocumentID := maxDoc; si_Artifacts := artifacts |}.

Definition manifest_fields : list string :=
  ["format_version"; "generation"; "schema"; "enable_mmap"; "segment_max_documents"; "persisted_segments";
   "writing_segment"; "writing_segment_start_doc_id"; "id_map"; "delete_snapshot_generation"; "next_segment_id";
   "segment_index_snapshots"].
Definition decode_manifest (raw : bytes) : decoded Manifest :=
  f ← decode_fields manifest_fields raw;
  version ← field f "format_version" 0 (decode_uint u32_max);
  generation ← field f "generation" 0 (decode_uint u64_max);
  schema ← field f "schema" [] Decoded;
  mmap ← field f "enable_mmap" false decode_bool;
  capacity ← field f "segment_max_documents" 0 (decode_uint u64_max);
  persisted ← field f "persisted_segments" [] (decode_slice decode_segment);
  writing ← field f "writing_segment" None (fun raw => if is_null raw then Decoded None else s ← decode_segment raw; Decoded (Some s));
  start ← field f "writing_segment_start_doc_id" 0 (decode_uint u64_max);
  idMap ← field f "id_map" "" decode_string;
  deletes ← field f "delete_snapshot_generation" 0 (decode_uint u64_max);
  next ← field f "next_segment_id" 0 (decode_uint u64_max);
  indexes ← field f "segment_index_snapshots" [] (decode_slice decode_index);
  Decoded {| mf_FormatVersion := version; mf_Generation := generation; mf_Schema := schema; mf_EnableMmap := mmap;
             mf_SegmentMaxDocuments := capacity; mf_PersistedSegments := persisted; mf_WritingSegment := writing;
             mf_WritingSegmentStartDocID := start; mf_IDMap := idMap; mf_DeleteSnapshotGeneration := deletes;
             mf_NextSegmentID := next; mf_SegmentIndexSnapshots := indexes |}.

(** The text of the value in a valid document. *)
Definition json_body (payload : bytes) : bytes := skip_space payload.

Definition json_Decode (repeated : bytes -> result Manifest) (payload : bytes) : result Manifest :=
  if negb (json_Valid payload) then Fail (errors_New "invalid character")
  else match decode_manifest (json_body payload) with
  | Decoded m => Ok m
  | Undecodable => Fail (errors_New "json: cannot unmarshal")
  | Repeated => repeated payload
  end.

(** [json.Unmarshal] into a map, where a later member replaces an earlier one,
    and the test for the start document ID. *)
Definition json_StartField (payload : bytes) : result bool :=
  if negb (json_Valid payload) then Fail (errors_New "invalid character")
  else
    let body := json_body payload in
    if is_null body then Ok false
    else match object_members body with
    | None => Fail (errors_New "json: cannot unmarshal into map")
    | Some members =>
        match list_find (fun m => unquote (length m.1) m.1 = bs "writing_segment_start_doc_id") (reverse members) with
        | Some (_, m) => Ok (negb (is_null m.2))
        | None => Ok false
        end
    end.

(** Manifests that survive the text: ASCII strings (others too, but this is
    what the package writes), unsigned fields in range, and a schema that is
    still within the nesting limit one level down. *)
Definition ascii_string (s : string) : Prop := Forall (fun b => Z_of_byte b < 128) (bs s).
Definition segment_encodable (s : SegmentMetadata) : Prop :=
  is_u64 (sm_ID s) /\ is_u64 (sm_MinDocID s) /\ is_u64 (sm_MaxDocID s) /\ is_u64 (sm_DocCount s) /\ Forall ascii_string (sm_Files s).
Definition artifact_encodable (a : IndexArtifactMetadata) : Prop :=
  ascii_string (ia_Field a) /\ ascii_string (ia_Kind a) /\ ascii_string (ia_File a).
Definition index_encodable (s : SegmentIndexSnapshotMetadata) : Prop :=
  is_u64 (si_SegmentID s) /\ ascii_string (si_SchemaSHA256 s) /\ is_u64 (si_DocumentCount s) /\
  is_u64 (si_MinDocumentID s) /\ is_u64 (si_MaxDocumentID s) /\ Forall artifact_encodable (si_Artifacts s).
Definition schema_nested (s : bytes) : Prop :=
  exists rest, scan_value (json_fuel s) 1 s = Some (Some rest) /\ skip_space rest = [].
Record manifest_encodable (m : Manifest) : Prop := {
  me_version : is_u32 (mf_FormatVersion m);
  me_generation : is_u64 (mf_Generation m);
  me_schema : schema_nested (mf_Schema m);
  me_capacity : is_u64 (mf_SegmentMaxDocuments m);
  me_segments : Forall segment_encodable (all_segments m);
  me_start : is_u64 (mf_WritingSegmentStartDocID m);
  me_idmap : ascii_string (mf_IDMap m);
  me_deletes : is_u64 (mf_DeleteSnapshotGeneration m);
  me_next : is_u64 (mf_NextSegmentID m);
  me_indexes : Forall index_encodable (mf_SegmentIndexSnapshots m)
}.

Definition go_json (repeated : bytes -> result Manifest) : ManifestJSON := {|
  mj_Compact := json_compact false;
  mj_Marshal := json_Marshal;
  mj_StartField := json_StartField;
  mj_Decode := json_Decode repeated;
  mj_Encodable := manifest_encodable
|}.

(** ** A check on a concrete manifest *)
Definition no_repeats : bytes -> result Manifest := fun _ => Fail (errors_New "repeated member").
(** the object with spaces and a key that is escaped *)
Definition ex_schema : bytes := [x7b; x20; x22; x3c; x22; x20; x3a; x20; x31; x20; x7d].
Example ex_manifest_json :
  match json_Marshal (mf_set_schema ex_manifest ex_schema) with
  | Ok payload => json_Decode no_repeats payload = Ok (mf_set_schema ex_manifest (json_compact false ex_schema)) /\
                  json_StartField payload = Ok true /\
                  String.string_of_list_byte (json_compact false ex_schema) = String.string_of_list_byte ([x7b; x22] ++ u_escape 60 ++ [x22; x3a; x31; x7d])
  | Fail _ => False
  end.
Proof. vm_compute. repeat split. Qed.

(** ** Decoding inverts encoding *)
Lemma length_escape_string s : ascii_bytes s -> (length s <= length (escape_string (length s) s))%nat.
Proof.
  intros Hs. induction Hs as [|b s Hb Hs IH]; [done|]. cbn [length]. rewrite escape_string_cons, length_app by done.
  destruct (escape_shape b Hb) as [(-> & _)|[(c & -> & _)|(h1 & h2 & h3 & h4 & -> & _)]]; cbn [length]; lia.
Qed.

Lemma decode_uint_json maximum n : is_u64 n -> n <= maximum -> decode_uint maximum (json_uint n) = Decoded n.
Proof.
  intros Hn Hm. destruct (json_uint_digits n Hn) as (b & r & Heq & Hb & _ & _ & Hp).
  unfold decode_uint, is_null. rewrite Hp, Heq. cbn [first_byte]. rewrite (digit_not b 110) by (done || lia). rewrite Hb.
  destruct (maximum <? n) eqn:E; to_prop; [lia|done].
Qed.

Lemma decode_bool_json b : decode_bool (json_bool b) = Decoded b.
Proof. by destruct b. Qed.

Lemma decode_string_json s : ascii_string s -> decode_string (json_string s) = Decoded s.
Proof.
  intros Hs. unfold decode_string, json_string. pose proof (length_escape_string _ Hs) as Hlen.
  set (e := escape_string (length (bs s)) (bs s)) in *. cbn [app is_null first_byte drop].
  change (is_byte 110 quote) with false. change (is_byte 34 quote) with true. cbn iota. rewrite drop_0.
  assert (take (length (quote :: e ++ [quote]) - 2) (e ++ [quote]) = e) as ->.
  { apply take_app_exact. cbn [length]. rewrite length_app. cbn [length]. lia. }
  unfold e at 2. rewrite unquote_escape_string; [|done|cbn [length]; rewrite length_app; cbn [length]; lia].
  unfold bs. by rewrite String.string_of_list_byte_of_string.
Qed.

Lemma decode_all_map {A} (encode : A -> bytes) decode l :
  (forall x, x ∈ l -> decode (encode x) = Decoded x) -> decode_all decode (encode <$> l) = Decoded l.
Proof.
  induction l as [|x l IH]; intros H; [done|]. cbn [fmap list_fmap decode_all]. rewrite H by by left. cbn.
  change (map encode l) with (encode <$> l). rewrite IH; [done|]. intros y Hy. apply H. by right.
Qed.

Lemma decode_slice_json {A} (encode : A -> bytes) decode l :
  Forall (json_text 0) (encode <$> l) -> (forall x, x ∈ l -> decode (encode x) = Decoded x) ->
  decode_slice decode (json_array (encode <$> l)) = Decoded l.
Proof.
  intros Ht Hd. unfold decode_slice. change (is_null (json_array (encode <$> l))) with false. cbn iota.
  rewrite (array_elements_json 0) by done. by apply decode_all_map.
Qed.

(** *** Fields *)
Definition plain_fields (names : list string) : Prop :=
  Forall (fun n => plain_name n /\ find_field names (unquote (length (bs n)) (bs n)) = Some n) names.

Lemma match_fields_ok names fields seen :
  plain_fields names -> Forall (fun f => f.1 ∈ names) fields -> NoDup (fields.*1 ++ seen.*1) ->
  match_fields names ((fun f => (bs f.1, f.2)) <$> fields) seen = Decoded (reverse fields ++ seen).
Proof.
  intros Hn. revert seen. induction fields as [|[n v] fields IH]; intros seen Hf Hnd; [done|].
  apply Forall_cons in Hf as [Hin Hf]. cbn [fmap list_fmap match_fields fst snd] in *.
  assert (find_field names (unquote (length (bs n)) (bs n)) = Some n) as ->.
  { unfold plain_fields in Hn. rewrite Forall_forall in Hn. by apply Hn. }
  cbn [app] in Hnd. apply NoDup_cons in Hnd as [Hni Hnd]. rewrite not_elem_of_app in Hni. destruct Hni as [Hni1 Hni2].
  rewrite bool_decide_eq_false_2 by done. change (map ?f ?l) with (f <$> l). rewrite IH; [|done|].
  - rewrite reverse_cons, <- app_assoc. done.
  - cbn [fmap list_fmap fst]. rewrite <- Permutation_middle. constructor; [by rewrite not_elem_of_app|done].
Qed.

Lemma decode_fields_json D names fields :
  0 <= D -> plain_fields names -> Forall (fun f => f.1 ∈ names /\ json_text D f.2) fields -> NoDup (fields.*1) ->
  decode_fields names (json_struct fields) = Decoded (reverse fields).
Proof.
  intros HD Hn Hf Hnd. unfold decode_fields. change (is_null (json_struct fields)) with false. cbn iota.
  rewrite (object_members_json D); [|done|].
  - rewrite match_fields_ok; [by rewrite app_nil_r|done| |by rewrite app_nil_r].
    eapply Forall_impl; [exact Hf|]. by intros ? [? _].
  - eapply Forall_impl; [exact Hf|]. intros f [Hin Ht]. split; [|done]. unfold plain_fields in Hn. rewrite Forall_forall in Hn. by apply Hn.
Qed.

Lemma field_in {A} fields n v (zero : A) decode :
  NoDup (fields.*1) -> (n, v) ∈ fields -> field (reverse fields) n zero decode = decode v.
Proof.
  intros Hnd Hin. unfold field. destruct (list_find _ (reverse fields)) as [[i [k w]]|] eqn:E.
  - apply list_find_Some in E as (Hl & Hk & _). cbn in *. subst k. apply list_elem_of_lookup_2 in Hl. rewrite elem_of_reverse in Hl.
    f_equal. apply list_elem_of_lookup in Hin as [a Ha], Hl as [b Hb].
    assert (a = b) as ->; [|congruence].
    apply (NoDup_lookup fields.*1 a b n Hnd); by rewrite list_lookup_fmap, ?Ha, ?Hb.
  - apply list_find_None in E. rewrite Forall_forall in E. destruct (E (n, v)); [by apply elem_of_reverse|done].
Qed.
Lemma field_absent {A} fields n (zero : A) decode : n ∉ fields.*1 -> field (reverse fields) n zero decode = Decoded zero.
Proof.
  intros Hn. unfold field. destruct (list_find _ (reverse fields)) as [[i [k w]]|] eqn:E; [|done]. exfalso.
  apply list_find_Some in E as (Hl & Hk & _). cbn in *. subst k. apply Hn. apply list_elem_of_fmap. exists (n, w).
  split; [done|]. apply list_elem_of_lookup_2 in Hl. by rewrite elem_of_reverse in Hl.
Qed.

Lemma omit_empty_Forall {A} (P : string * bytes -> Prop) name (l : list A) encode :
  (l <> [] -> P (name, encode l)) -> Forall P (omit_empty name l encode).
Proof. destruct l; intros H; [constructor|]. constructor; [by apply H|constructor]. Qed.

Lemma field_omit {A} (pre post : list (string * bytes)) name (l : list A) encode decode :
  NoDup ((pre ++ omit_empty name l encode ++ post).*1) -> name ∉ pre.*1 -> name ∉ post.*1 ->
  (l <> [] -> decode (encode l) = Decoded l) ->
  field (reverse (pre ++ omit_empty name l encode ++ post)) name [] decode = Decoded l.
Proof.
  intros Hnd Hpre Hpost Hd. destruct l as [|x l].
  - apply field_absent. cbn [omit_empty app]. rewrite fmap_app, not_elem_of_app. done.
  - rewrite (field_in _ _ (encode (x :: l)) _ _ Hnd); [by apply Hd|]. apply elem_of_app. right. by left.
Qed.

(** Goals on concrete lists of fields. *)
Ltac plain_tac := repeat (constructor; [split; [intros ?; reflexivity|vm_compute; reflexivity]|]); constructor.
Ltac in_fields := repeat first [apply list_elem_of_here | apply list_elem_of_further | apply elem_of_app; right].
Ltac names_nodup := rewrite ?fmap_app; cbn [fmap list_fmap fst omit_empty app];
  apply (bool_decide_unpack _); vm_compute; exact I.
Ltac not_in_names := rewrite ?fmap_app; cbn [fmap list_fmap fst omit_empty app]; apply (bool_decide_unpack _); vm_compute; exact I.
Ltac in_names := apply (bool_decide_unpack _); vm_compute; exact I.

Ltac present Hnd n := erewrite (field_in _ n _ _ _ Hnd); [|solve [in_fields]].

Lemma artifact_names_plain : plain_fields artifact_names. Proof. plain_tac. Qed.
Lemma segment_names_plain : plain_fields segment_names. Proof. plain_tac. Qed.
Lemma index_names_plain : plain_fields index_names. Proof. plain_tac. Qed.
Lemma manifest_fields_plain : plain_fields manifest_fields. Proof. plain_tac. Qed.

Lemma fields_text names D fields : 0 <= D < maxNestingDepth -> plain_fields names ->
  Forall (fun f => f.1 ∈ names /\ json_text (D + 1) f.2) fields -> json_text D (json_struct fields).
Proof.
  intros HD Hp Hf. apply json_text_struct; [done|]. eapply Forall_impl; [exact Hf|]. intros f [Hin Ht]. split; [|exact Ht].
  unfold plain_fields in Hp. rewrite Forall_forall in Hp. by apply Hp.
Qed.

Lemma artifact_json a : artifact_encodable a ->
  (forall D, 0 <= D < maxNestingDepth -> json_text D (json_artifact a)) /\ decode_artifact (json_artifact a) = Decoded a.
Proof.
  intros (H1 & H2 & H3). unfold json_artifact. set (fields := [("field", _); _; _]).
  assert (Ht : forall D, Forall (fun f => f.1 ∈ artifact_names /\ json_text D f.2) fields).
  { intros D. repeat (constructor; [split; [in_names|by apply json_text_string]|]). constructor. }
  assert (Hnd : NoDup (fields.*1)) by names_nodup.
  split; [intros D HD; apply (fields_text artifact_names); [done|apply artifact_names_plain|apply Ht]|].
  unfold decode_artifact. rewrite (decode_fields_json 0 artifact_names fields) by (done || apply artifact_names_plain).
  cbn [mbind decoded_bind]. present Hnd "field". present Hnd "kind". present Hnd "file".
  rewrite !decode_string_json by done. by destruct a.
Qed.

Lemma segment_json s : segment_encodable s ->
  (forall D, 0 <= D -> D + 1 < maxNestingDepth -> json_text D (json_segment s)) /\ decode_segment (json_segment s) = Decoded s.
Proof.
  intros (H1 & H2 & H3 & H4 & H5). unfold json_segment.
  set (base := [("id", _); _; _; _]). set (omit := omit_empty _ _ _).
  assert (Hfiles : forall D, Forall (json_text D) (json_string <$> sm_Files s)).
  { intros D. apply Forall_fmap. eapply Forall_impl; [exact H5|]. intros f Hf. by apply json_text_string. }
  assert (Ht : forall D, 0 <= D < maxNestingDepth -> Forall (fun f => f.1 ∈ segment_names /\ json_text D f.2) (base ++ omit)).
  { intros D HD. apply Forall_app. split.
    - repeat (constructor; [split; [in_names|by apply json_text_uint]|]). constructor.
    - apply omit_empty_Forall. intros _. split; [in_names|]. apply json_text_array; [lia|apply Hfiles]. }
  assert (Hnd : NoDup ((base ++ omit).*1)) by (unfold omit; destruct (sm_Files s); names_nodup).
  split; [intros D HD HD'; apply (fields_text segment_names); [lia|apply segment_names_plain|apply Ht; lia]|].
  unfold decode_segment. rewrite (decode_fields_json 0 segment_names (base ++ omit));
    [|done|apply segment_names_plain|apply Ht; vm_compute; split; [discriminate|reflexivity]|done].
  cbn [mbind decoded_bind]. present Hnd "id". present Hnd "min_doc_id". present Hnd "max_doc_id". present Hnd "doc_count".
  rewrite !decode_uint_json by (done || by apply H1 || by apply H2 || by apply H3 || by apply H4). cbn [mbind decoded_bind].
  rewrite <- (app_nil_r omit) in Hnd |- *. unfold omit. rewrite field_omit; [by destruct s|done|not_in_names|not_in_names|].
  intros _. apply decode_slice_json; [apply Hfiles|]. intros x Hx. apply decode_string_json.
  rewrite Forall_forall in H5. by apply H5.
Qed.

Lemma index_json s : index_encodable s ->
  (forall D, 0 <= D -> D + 2 < maxNestingDepth -> json_text D (json_index s)) /\ decode_index (json_index s) = Decoded s.
Proof.
  intros (H1 & H2 & H3 & H4 & H5 & H6). unfold json_index.
  set (base := [("segment_id", _); _; _; _; _]). set (omit := omit_empty _ _ _).
  assert (Harts : forall D, 0 <= D < maxNestingDepth -> Forall (json_text D) (json_artifact <$> si_Artifacts s)).
  { intros D HD. apply Forall_fmap. eapply Forall_impl; [exact H6|]. intros a Ha. by apply artifact_json. }
  assert (Ht : forall D, 0 <= D -> D + 1 < maxNestingDepth -> Forall (fun f => f.1 ∈ index_names /\ json_text D f.2) (base ++ omit)).
  { intros D HD HD'. apply Forall_app. split.
    - repeat (constructor; [split; [in_names|first [by apply json_text_uint|by apply json_text_string]]|]). constructor.
    - apply omit_empty_Forall. intros _. split; [in_names|]. apply json_text_array; [lia|apply Harts; lia]. }
  assert (Hnd : NoDup ((base ++ omit).*1)) by (unfold omit; destruct (si_Artifacts s); names_nodup).
  split; [intros D HD HD'; apply (fields_text index_names); [lia|apply index_names_plain|apply Ht; lia]|].
  unfold decode_index. rewrite (decode_fields_json 0 index_names (base ++ omit));
    [|done|apply index_names_plain|apply Ht; [done|reflexivity]|done].
  cbn [mbind decoded_bind]. present Hnd "segment_id". present Hnd "schema_sha256". present Hnd "document_count".
  present Hnd "min_document_id". present Hnd "max_document_id".
  rewrite decode_string_json by done.
  rewrite !decode_uint_json by (done || by apply H1 || by apply H3 || by apply H4 || by apply H5). cbn [mbind decoded_bind].
  rewrite <- (app_nil_r omit) in Hnd |- *. unfold omit. rewrite field_omit; [by destruct s|done|not_in_names|not_in_names|].
  intros _. apply decode_slice_json; [apply Harts; split; [done|reflexivity]|]. intros a Ha.
  rewrite Forall_forall in H6. by apply artifact_json, H6.
Qed.

Lemma field_list {A} fields name (l : list A) encode decode :
  NoDup (fields.*1) -> (l = [] -> name ∉ fields.*1) -> (l <> [] -> (name, encode l) ∈ fields) ->
  (l <> [] -> decode (encode l) = Decoded l) -> field (reverse fields) name [] decode = Decoded l.
Proof.
  intros Hnd H1 H2 H3. destruct (decide (l = [])) as [->|Hne]; [by apply field_absent, H1|].
  rewrite (field_in _ _ (encode l) _ _ Hnd) by by apply H2. by apply H3.
Qed.

(** The fields of a manifest, with the compacted schema. *)
Definition json_manifest_fields (m : Manifest) : list (string * bytes) :=
  [("format_version", json_uint (mf_FormatVersion m)); ("generation", json_uint (mf_Generation m));
   ("schema", json_compact false (mf_Schema m)); ("enable_mmap", json_bool (mf_EnableMmap m));
   ("segment_max_documents", json_uint (mf_SegmentMaxDocuments m))] ++
  omit_empty "persisted_segments" (mf_PersistedSegments m) (fun l => json_array (json_segment <$> l)) ++
  omit_empty "writing_segment" (option_list (mf_WritingSegment m)) (fun l => json_join (json_segment <$> l)) ++
  [("writing_segment_start_doc_id", json_uint (mf_WritingSegmentStartDocID m)); ("id_map", json_string (mf_IDMap m));
   ("delete_snapshot_generation", json_uint (mf_DeleteSnapshotGeneration m));
   ("next_segment_id", json_uint (mf_NextSegmentID m))] ++
  omit_empty "segment_index_snapshots" (mf_SegmentIndexSnapshots m) (fun l => json_array (json_index <$> l)).

Ltac split_lists m :=
  destruct (mf_PersistedSegments m), (mf_WritingSegment m), (mf_SegmentIndexSnapshots m).

Lemma json_manifest_names m : NoDup ((json_manifest_fields m).*1).
Proof.
  unfold json_manifest_fields. split_lists m; try change (option_list (Some s)) with [s]; try change (option_list (Some s0)) with [s0];
    try change (option_list (@None SegmentMetadata)) with (@nil SegmentMetadata); names_nodup.
Qed.

Lemma json_manifest_texts m : manifest_encodable m ->
  Forall (fun f => f.1 ∈ manifest_fields /\ json_text 1 f.2) (json_manifest_fields m).
Proof.
  intros [E1 E2 (rest & E3 & E3') E4 E5 E6 E7 E8 E9 E10]. unfold all_segments in E5. apply Forall_app in E5 as [E5 E5'].
  assert (Hu : forall n, n ∈ manifest_fields -> forall z, is_u64 z -> n ∈ manifest_fields /\ json_text 1 (json_uint z)).
  { intros n Hn z Hz. split; [done|by apply json_text_uint]. }
  assert (Hseg : forall l D, 0 <= D -> D + 1 < maxNestingDepth -> Forall segment_encodable l -> Forall (json_text D) (json_segment <$> l)).
  { intros l D HD HD' Hl. apply Forall_fmap. eapply Forall_impl; [exact Hl|]. intros s Hs. by apply segment_json. }
  unfold json_manifest_fields. repeat (apply Forall_app; split).
  - constructor; [apply Hu; [in_names|]; unfold is_u32, is_u64, u32_max, u64_max in *; lia|].
    constructor; [apply Hu; [in_names|done]|].
    constructor; [split; [in_names|]; by apply (json_compact_text 1 _ rest)|].
    constructor; [split; [in_names|apply json_text_bool]|]. constructor; [apply Hu; [in_names|done]|constructor].
  - apply omit_empty_Forall. intros _. split; [in_names|]. apply json_text_array; [vm_compute; split; [discriminate|reflexivity]|].
    apply Hseg; [done|reflexivity|done].
  - apply omit_empty_Forall. intros Hne. split; [in_names|]. destruct (mf_WritingSegment m) as [w|]; [|done].
    change (option_list (Some w)) with [w] in *. apply Forall_cons in E5' as [Hw _]. cbn.
    apply segment_json; [done|done|reflexivity].
  - repeat (constructor; [first [apply Hu; [in_names|done]|split; [in_names|by apply json_text_string]]|]). constructor.
  - apply omit_empty_Forall. intros _. split; [in_names|]. apply json_text_array; [vm_compute; split; [discriminate|reflexivity]|].
    apply Forall_fmap. eapply Forall_impl; [exact E10|]. intros s Hs. apply index_json; [done|done|reflexivity].
Qed.

Lemma decode_manifest_json m : manifest_encodable m ->
  decode_manifest (json_struct (json_manifest_fields m)) = Decoded (mf_set_schema m (json_compact false (mf_Schema m))).
Proof.
  intros He. pose proof (json_manifest_names m) as Hnd. pose proof (json_manifest_texts m He) as Ht.
  destruct He as [E1 E2 _ E4 E5 E6 E7 E8 E9 E10]. unfold all_segments in E5. apply Forall_app in E5 as [E5 E5'].
  unfold decode_manifest. rewrite (decode_fields_json 1 manifest_fields _ ltac:(done) manifest_fields_plain Ht Hnd).
  cbn [mbind decoded_bind]. present Hnd "format_version". present Hnd "generation". present Hnd "schema". present Hnd "enable_mmap".
  present Hnd "segment_max_documents". present Hnd "writing_segment_start_doc_id". present Hnd "id_map".
  present Hnd "delete_snapshot_generation". present Hnd "next_segment_id".
  rewrite decode_bool_json, decode_string_json by done.
  rewrite (decode_uint_json u32_max) by (unfold is_u32, is_u64, u32_max, u64_max in *; lia).
  rewrite !decode_uint_json by (done || by apply E2 || by apply E4 || by apply E6 || by apply E8 || by apply E9).
  cbn [mbind decoded_bind].
  rewrite (field_list _ "persisted_segments" (mf_PersistedSegments m) (fun l => json_array (json_segment <$> l))); [|exact Hnd| | |].
  2:{ intros Hl. unfold json_manifest_fields. rewrite Hl. clear.
      destruct (mf_WritingSegment m), (mf_SegmentIndexSnapshots m); try change (option_list (Some s)) with [s];
        try change (option_list (@None SegmentMetadata)) with (@nil SegmentMetadata); not_in_names. }
  2:{ intros Hl. unfold json_manifest_fields. destruct (mf_PersistedSegments m); [done|in_fields]. }
  2:{ intros _. apply decode_slice_json.
      - apply Forall_fmap. eapply Forall_impl; [exact E5|]. intros s Hs. apply segment_json; [done|done|reflexivity].
      - intros s Hs. rewrite Forall_forall in E5. by apply segment_json, E5. }
  cbn [mbind decoded_bind].
  rewrite (field_list _ "segment_index_snapshots" (mf_SegmentIndexSnapshots m) (fun l => json_array (json_index <$> l))); [|exact Hnd| | |].
  2:{ intros Hl. unfold json_manifest_fields. rewrite Hl. clear.
      destruct (mf_WritingSegment m), (mf_PersistedSegments m); try change (option_list (Some s)) with [s];
        try change (option_list (@None SegmentMetadata)) with (@nil SegmentMetadata); not_in_names. }
  2:{ intros Hl. unfold json_manifest_fields. destruct (mf_SegmentIndexSnapshots m); [done|in_fields]. }
  2:{ intros _. apply decode_slice_json.
      - apply Forall_fmap. eapply Forall_impl; [exact E10|]. intros s Hs. apply index_json; [done|done|reflexivity].
      - intros s Hs. rewrite Forall_forall in E10. by apply index_json, E10. }
  assert (field (reverse (json_manifest_fields m)) "writing_segment" None
    (fun raw => if is_null raw then Decoded None else s ← decode_segment raw; Decoded (Some s)) = Decoded (mf_WritingSegment m)) as ->; [|by destruct m].
  destruct (mf_WritingSegment m) as [w|] eqn:Ew.
  - change (option_list (Some w)) with [w] in E5'. apply Forall_cons in E5' as [Hw _].
    rewrite (field_in _ _ (json_segment w) _ _ Hnd).
    + change (is_null (json_segment w)) with false. cbn iota. by rewrite (proj2 (segment_json w Hw)).
    + unfold json_manifest_fields. rewrite Ew. change (option_list (Some w)) with [w]. in_fields.
  - apply field_absent. unfold json_manifest_fields. rewrite Ew. clear.
    change (option_list (@None SegmentMetadata)) with (@nil SegmentMetadata).
    destruct (mf_PersistedSegments m), (mf_SegmentIndexSnapshots m); not_in_names.
Qed.

(** ** The interface of manifest files *)
Lemma bs_inj a b : bs a = bs b -> a = b.
Proof.
  intros H. rewrite <- (String.string_of_list_byte_of_string a), <- (String.string_of_list_byte_of_string b).
  unfold bs in H. by rewrite H.
Qed.

Lemma manifest_fields_unquoted : Forall (fun n => unquote (length (bs n)) (bs n) = bs n) manifest_fields.
Proof. repeat (constructor; [vm_compute; reflexivity|]). constructor. Qed.

Lemma json_manifest_text m : manifest_encodable m -> json_text 0 (json_struct (json_manifest_fields m)).
Proof.
  intros He. apply (fields_text manifest_fields); [by vm_compute|apply manifest_fields_plain|by apply json_manifest_texts].
Qed.

Lemma start_field_json m : manifest_encodable m -> json_StartField (json_struct (json_manifest_fields m)) = Ok true.
Proof.
  intros He. pose proof (json_manifest_texts m He) as Ht. pose proof (json_manifest_names m) as Hnd.
  unfold json_StartField. rewrite (json_text_Valid 0) by (done || by apply json_manifest_text). cbn [negb].
  change (json_body (json_struct (json_manifest_fields m))) with (json_struct (json_manifest_fields m)).
  change (is_null (json_struct (json_manifest_fields m))) with false. cbn iota.
  rewrite (object_members_json 1); [|done|].
  2:{ eapply Forall_impl; [exact Ht|]. intros f [Hin Hf]. split; [|done].
      pose proof manifest_fields_plain as Hp. unfold plain_fields in Hp. rewrite Forall_forall in Hp. by apply Hp. }
  assert (("writing_segment_start_doc_id", json_uint (mf_WritingSegmentStartDocID m)) ∈ json_manifest_fields m) as Hin.
  { unfold json_manifest_fields. in_fields. }
  destruct (list_find _ _) as [[i [k v]]|] eqn:E.
  - apply list_find_Some in E as (Hl & Hk & _). apply list_elem_of_lookup_2, elem_of_reverse, list_elem_of_fmap in Hl.
    destruct Hl as ([n w] & [= -> ->] & Hf). cbn [fst snd] in Hk |- *.
    rewrite Forall_forall in Ht. pose proof manifest_fields_unquoted as Hu. rewrite Forall_forall in Hu.
    rewrite Hu in Hk by by apply (Ht _ Hf). apply bs_inj in Hk as ->.
    assert (w = json_uint (mf_WritingSegmentStartDocID m)) as ->.
    { apply list_elem_of_lookup in Hin as [a Ha], Hf as [b Hb].
      assert (a = b) as ->; [|congruence].
      apply (NoDup_lookup (json_manifest_fields m).*1 a b "writing_segment_start_doc_id" Hnd);
        by rewrite list_lookup_fmap, ?Ha, ?Hb. }
    destruct (json_uint_digits _ (me_start _ He)) as (b & r & -> & Hb & _). unfold is_null. cbn [first_byte].
    by rewrite (digit_not b 110) by (done || lia).
  - apply list_find_None in E. rewrite Forall_forall in E.
    exfalso. eapply (E (bs "writing_segment_start_doc_id", json_uint (mf_WritingSegmentStartDocID m))).
    + apply elem_of_reverse, list_elem_of_fmap. by eexists (_, _).
    + cbn [fst]. vm_compute. reflexivity.
Qed.

Lemma json_Marshal_Ok m payload :
  json_Marshal m = Ok payload <-> json_Valid (mf_Schema m) = true /\ payload = json_struct (json_manifest_fields m).
Proof.
  unfold json_Marshal. destruct (json_Valid (mf_Schema m)); cbn [negb]; [|by split; [|intros [? _]]].
  fold (json_manifest_fields m). split; [by intros [= <-]|]. by intros [_ ->].
Qed.

Lemma validate_schema m : Manifest_Validate m = Ok tt -> json_Valid (mf_Schema m) = true.
Proof.
  unfold Manifest_Validate. intros Hv. destruct (json_Valid (mf_Schema m)); [done|]. cbn [negb] in Hv. by repeat case_in Hv.
Qed.

Section laws.
Variable repeated : bytes -> result Manifest.

#[local] Instance the_json : ManifestJSON := go_json repeated.

#[export] Instance go_json_laws : ManifestJSONLaws.
Proof.
  split.
  - intros m Hv. exists (json_struct (json_manifest_fields m)). apply json_Marshal_Ok. by apply validate_schema in Hv.
  - intros m payload He Hv [_ ->]%json_Marshal_Ok. split; [by apply start_field_json|].
    cbn [mj_Decode the_json go_json]. unfold json_Decode.
    rewrite (json_text_Valid 0) by (done || by apply json_manifest_text). cbn [negb].
    change (json_body (json_struct (json_manifest_fields m))) with (json_struct (json_manifest_fields m)).
    by rewrite decode_manifest_json.
  - intros s Hv Ho. cbn [mj_Compact the_json go_json]. unfold json_Valid in Hv.
    destruct (scan_value (json_fuel s) 0 s) as [[rest|]|] eqn:E; try done. apply bool_decide_eq_true in Hv.
    destruct (json_compact_text 0 s rest ltac:(done) E Hv) as [Ht Hc]. split; [by apply (json_text_Valid 0)|congruence].
  - intros s. apply json_compact_idempotent.
Qed.
End laws.

(** A manifest that is read back can be written again. *)
Lemma manifest_encodable_compact m :
  manifest_encodable m -> manifest_encodable (mf_set_schema m (json_compact false (mf_Schema m))).
Proof.
  intros [E1 E2 (rest & E3 & E3') E4 E5 E6 E7 E8 E9 E10]. split; try done. exists []. split; [|done].
  destruct (json_compact_text 1 _ rest ltac:(done) E3 E3') as [Ht _]. cbn [mf_Schema mf_set_schema].
  pose proof (json_text_fuel 1 _ 1 [] Ht ltac:(lia) I) as Hf. by rewrite app_nil_r in Hf.
Qed.

(** ** Manifest files are read back as they were written *)

(** C36: A manifest file that [MarshalManifest] writes is read back by
    [UnmarshalManifest] as the same manifest with its schema compacted: for
    manifests with ASCII names, fields in their machine ranges and a schema
    that is within JSON's nesting limit one level down.  Marshalling such a
    manifest fails only when it is not valid or its text exceeds 64 MiB. *)
Theorem manifest_roundtrip repeated m :
  manifest_encodable m ->
  let _ := go_json repeated in
  match MarshalManifest m with
  | Ok encoded => UnmarshalManifest encoded = Ok (mf_set_schema m (json_compact false (mf_Schema m)))
  | Fail _ => Manifest_Validate m <> Ok tt \/ maxManifestSize < zlen (json_struct (json_manifest_fields m))
  end.
Proof.
  intros He J. pose proof (go_json_laws repeated) as L. destruct (MarshalManifest m) as [encoded|e] eqn:Em.
  - apply (UnmarshalManifest_marshalled (Hlaws := L)); [done|apply (me_generation _ He)|done].
  - destruct (Manifest_Validate m) as [[]|] eqn:Ev; [right|by left]. pose proof (validate_schema m Ev) as Hs.
    apply Z.nle_gt. intros Hl. assert (exists encoded, MarshalManifest m = Ok encoded) as [? ?]; [|congruence].
    eexists. apply MarshalManifest_layout. split; [done|]. eexists. split; [by apply json_Marshal_Ok|done].
Qed.

Lemma schema_nested_intro s rest :
  scan_value (json_fuel s) 1 s = Some (Some rest) -> skip_space rest = [] -> schema_nested s.
Proof. intros H1 H2. by exists rest. Qed.

Definition ex_manifest_spaced : Manifest := mf_set_schema ex_manifest ex_schema.
Lemma ex_manifest_encodable : manifest_encodable ex_manifest_spaced.
Proof.
  assert (schema_nested (mf_Schema ex_manifest_spaced)) as Hs by exact (schema_nested_intro ex_schema [] eq_refl eq_refl).
  assert (forall n, (0 <=? n) && (n <=? u64_max) = true -> is_u64 n) as Hu by (intros n Hn; unfold is_u64; lia).
  split; [by vm_compute|by apply Hu|exact Hs|by apply Hu| |by apply Hu| |by apply Hu|by apply Hu|];
    repeat first [constructor | by apply Hu | by vm_compute].
Qed.

Lemma manifest_roundtrip_witness :
  let _ := go_json no_repeats in
  is_ok (MarshalManifest ex_manifest_spaced) = true /\
  match MarshalManifest ex_manifest_spaced with
  | Ok encoded => UnmarshalManifest encoded = Ok (mf_set_schema ex_manifest_spaced (json_compact false ex_schema))
  | Fail _ => Manifest_Validate ex_manifest_spaced <> Ok tt \/
              maxManifestSize < zlen (json_struct (json_manifest_fields ex_manifest_spaced))
  end.
Proof.
  split; [vm_compute; reflexivity|].
  exact (manifest_roundtrip no_repeats ex_manifest_spaced ex_manifest_encodable).
Defined.
