(* ===== verification/VersionManager.v ===== *)
(** * Manifest publication: [internal/db/index/common/version_manager.go]

    The collection directory is a map from file names to contents, once as the
    running process sees it and once as far as [fsync] has made it durable.  A
    crash leaves, for each name, the durable or the visible entry, and anything
    at all under a name whose content was never synchronized, also when that
    content was given the name by [os.Rename] or [os.Link].  [CURRENT] names
    the published manifest; replacing it is the commit point of every change of
    the collection.  Each operation returns, besides its result, the directories
    it passes through, so that a crash can strike between any two system calls. *)
From S2P Require Import Prelude Bytes Crc32c FileIO Json JsonText Paths Names Manifest ManifestFile ManifestJson.
From Stdlib Require Import Ascii.
#[local] Open Scope string_scope.
#[local] Open Scope Z_scope.

(** ** The directory *)
Record directory := {
  ds_durable : gmap string bytes;
  ds_now : gmap string bytes;
  ds_torn : gset string
}.

Definition dir_create (n : string) (d : directory) : directory :=
  {| ds_durable := ds_durable d; ds_now := <[n := []]> (ds_now d); ds_torn := {[n]} ∪ ds_torn d |}.
Definition dir_write (n : string) (content : bytes) (d : directory) : directory :=
  {| ds_durable := ds_durable d; ds_now := <[n := content]> (ds_now d); ds_torn := ds_torn d |}.
Definition dir_fsync (n : string) (d : directory) : directory :=
  {| ds_durable := ds_durable d; ds_now := ds_now d; ds_torn := ds_torn d ∖ {[n]} |}.
Definition dir_remove (n : string) (d : directory) : directory :=
  {| ds_durable := ds_durable d; ds_now := delete n (ds_now d); ds_torn := ds_torn d |}.
Definition dir_sync (d : directory) : directory :=
  {| ds_durable := ds_now d; ds_now := ds_now d; ds_torn := ds_torn d |}.

(** The directories a crash can leave. *)
Definition ds_crash (d : directory) (m : gmap string bytes) : Prop :=
  forall n, n ∈ ds_torn d \/ m !! n = ds_durable d !! n \/ m !! n = ds_now d !! n.

(** ** System calls whose outcome is an argument *)
Record file_io := {
  fi_create : option gerror;
  fi_writes : list write_outcome;
  fi_sync : option gerror;
  fi_close : option gerror;
  fi_removed : bool       (** whether the removal of the file after an error succeeds *)
}.
Record publish_io := {
  po_lock : option gerror;
  po_current : option gerror;
  po_scan : option gerror;
  po_manifest : file_io;
  po_sync1 : option gerror;
  po_tempName : string;   (** what [os.CreateTemp] puts for the star *)
  po_temp : file_io;
  po_install : option gerror;
  po_tempRemoved : bool;
  po_sync2 : option gerror;
  po_unlock : option gerror
}.

Definition currentFileName : string := "CURRENT".
Definition currentHeaderLen : Z := 16.
Definition maxCurrentSize : Z := 1024.
Definition currentMagic : bytes := byte_of_Z <$> [90; 86; 69; 67; 67; 85; 82; 49].

(** [writeFull]: what was written, and the error. *)
Fixpoint writeFull (outs : list write_outcome) (written contents : bytes) : bytes * option gerror :=
  match contents with
  | [] => (written, None)
  | _ =>
      match outs with
      | [] => ((written ++ contents)%list, None)
      | (n, err) :: outs =>
          let stored := take n contents in
          match err with
          | Some e => ((written ++ stored)%list, Some e)
          | None =>
              if decide (length stored = 0)%nat then (written, Some io_ErrShortWrite)
              else writeFull outs (written ++ stored)%list (drop (length stored) contents)
          end
      end
  end.

(** The common part of [writeExclusiveSynced] and [writeTempSynced] once the
    file exists: write, synchronize, close; remove the file on an error. *)
Definition fill_synced (io : file_io) (name : string) (contents : bytes) (d : directory)
    : list directory * (directory * option gerror) :=
  let undo d := if fi_removed io then dir_remove name d else d in
  let (written, err) := writeFull (fi_writes io) [] contents in
  let d1 := dir_write name written d in
  match err with
  | Some e => ([d1; undo d1], (undo d1, Some e))
  | None =>
  match fi_sync io with
  | Some e => ([d1; undo d1], (undo d1, Some e))
  | None =>
  let d2 := dir_fsync name d1 in
  match fi_close io with
  | Some e => ([d1; d2; undo d2], (undo d2, Some e))
  | None => ([d1; d2], (d2, None))
  end end end.

Definition writeExclusiveSynced (io : file_io) (name : string) (contents : bytes) (d : directory)
    : list directory * (directory * option gerror) :=
  if bool_decide (is_Some (ds_now d !! name)) then ([], (d, Some os_ErrExist))
  else match fi_create io with
  | Some e => ([], (d, Some e))
  | None =>
      let d := dir_create name d in
      let '(tr, r) := fill_synced io name contents d in (d :: tr, r)
  end.

Definition temp_name (star : string) : string := ".current-" ++ star ++ ".tmp".

Definition writeTempSynced (ctx : context) (io : file_io) (star : string) (contents : bytes) (d : directory)
    : list directory * (directory * result string) :=
  let name := temp_name star in
  match ctx_Err ctx with
  | Some e => ([], (d, Fail e))
  | None =>
  if bool_decide (is_Some (ds_now d !! name)) then ([], (d, Fail (errorf "db: create publication temp file" os_ErrExist)))
  else match fi_create io with
  | Some e => ([], (d, Fail (errorf "db: create publication temp file" e)))
  | None =>
      let d := dir_create name d in
      match fill_synced io name contents d with
      | (tr, (d', Some e)) => (d :: tr, (d', Fail (errorf "db: write publication temp file" e)))
      | (tr, (d', None)) => (d :: tr, (d', Ok name))
      end
  end end.

(** [os.Rename] and [os.Link].  The new name has the content of the old one: it
    is torn if that was never synchronized. *)
Definition torn_as (source destination : string) (torn : gset string) : gset string :=
  if bool_decide (source ∈ torn) then {[destination]} ∪ torn else torn.
Definition atomicReplaceFile (outcome : option gerror) (source destination : string) (d : directory)
    : directory * option gerror :=
  match outcome, ds_now d !! source with
  | Some e, _ => (d, Some e)
  | None, None => (d, Some os_ErrNotExist)
  | None, Some c =>
      ({| ds_durable := ds_durable d; ds_now := <[destination := c]> (delete source (ds_now d));
          ds_torn := torn_as source destination (ds_torn d) |}, None)
  end.
Definition installFileNoReplace (outcome : option gerror) (source destination : string) (d : directory)
    : directory * option gerror :=
  if bool_decide (is_Some (ds_now d !! destination)) then (d, Some os_ErrExist)
  else match outcome, ds_now d !! source with
  | Some e, _ => (d, Some e)
  | None, None => (d, Some os_ErrNotExist)
  | None, Some c =>
      ({| ds_durable := ds_durable d; ds_now := <[destination := c]> (ds_now d);
          ds_torn := torn_as source destination (ds_torn d) |}, None)
  end.

(** ** [CURRENT] *)
Definition marshalCurrent (name : string) : result bytes :=
  match parseManifestFileName name with
  | None => Fail (manifest_corrupt "invalid manifest name")
  | Some _ =>
      let payload := String.list_byte_of_string name in
      let encoded := make_bytes (16 + length payload) in
      let encoded := splice 0 currentMagic encoded in
      let encoded := splice 8 (le_put 2 (wrap16 (zlen payload))) encoded in
      let encoded := splice 10 (le_put 2 currentHeaderLen) encoded in
      let encoded := splice 12 (le_put 4 (CRC32C payload)) encoded in
      Ok (splice 16 payload encoded)
  end.

(** [readCurrent] of a file with the given content. *)
Definition parseCurrent (encoded : bytes) : result string :=
  if (zlen encoded <? currentHeaderLen) || (maxCurrentSize <? zlen encoded)
  then Fail (manifest_corrupt "invalid CURRENT size")
  else if negb (bytes_eqb (slice 0 8 encoded) currentMagic) then Fail (manifest_corrupt "invalid CURRENT magic")
  else if negb (le_get (slice 10 12 encoded) =? currentHeaderLen)
  then Fail (manifest_corrupt "invalid CURRENT header size")
  else if negb (le_get (slice 8 10 encoded) =? zlen encoded - currentHeaderLen)
  then Fail (manifest_corrupt "invalid CURRENT payload length")
  else
    let payload := drop 16 encoded in
    if negb (CRC32C payload =? le_get (slice 12 16 encoded)) then Fail (manifest_corrupt "CURRENT checksum")
    else
      let name := String.string_of_list_byte payload in
      match parseManifestFileName name with
      | None => Fail (manifest_corrupt "invalid CURRENT manifest name")
      | Some _ => Ok name
      end.

Definition readCurrent (outcome : option gerror) (files : gmap string bytes) : result string :=
  match outcome with
  | Some e => if errors_Is e os_ErrNotExist then Fail ErrManifestNotFound else Fail (errorf "db: open CURRENT" e)
  | None =>
      match files !! currentFileName with
      | None => Fail ErrManifestNotFound
      | Some encoded => parseCurrent encoded
      end
  end.

Definition nextManifestGeneration (outcome : option gerror) (files : gmap string bytes) : result Z :=
  match outcome with
  | Some e => Fail (errorf "db: scan manifest directory" e)
  | None =>
      let maximum := foldl Z.max 0 (omap parseManifestFileName (map_to_list files).*1) in
      if maximum =? u64_max then Fail (errors_New "db: manifest generation exhausted")
      else Ok (maximum + 1)
  end.

(** ** The version manager *)
Record VersionManager := { vm_current : Manifest; vm_currentName : string }.

Section version_manager.
Context `{ManifestJSON}.

Definition readManifestFile (files : gmap string bytes) (name : string) : result Manifest :=
  match files !! name with
  | None => Fail (errorf "manifest file" ErrManifestNotFound)
  | Some encoded =>
      if (zlen encoded <? manifestHeaderSize) || (manifestHeaderSize + maxManifestSize <? zlen encoded)
      then Fail (manifest_corrupt "invalid file size")
      else UnmarshalManifest encoded
  end.

Definition publishLocked (ctx : context) (io : publish_io) (expectedCurrent : string) (manifest : Manifest)
    (d : directory) : list directory * (directory * (string * bool * option gerror)) :=
  match Manifest_Validate manifest with
  | Fail e => ([], (d, ("", false, Some e)))
  | Ok _ =>
  match ctx_Err ctx with
  | Some e => ([], (d, ("", false, Some e)))
  | None =>
  let name := manifestFileName (mf_Generation manifest) in
  match MarshalManifest manifest with
  | Fail e => ([], (d, ("", false, Some e)))
  | Ok encoded =>
  match writeExclusiveSynced (po_manifest io) name encoded d with
  | (tr, (d, Some e)) =>
      (tr, (d, ("", false, Some (if errors_Is e os_ErrExist then errorf "generation already exists" ErrManifestConflict
                                 else errorf "db: write manifest" e))))
  | (tr, (d, None)) =>
  match po_sync1 io with
  | Some e => (tr, (d, ("", false, Some (errorf "db: sync manifest directory" e))))
  | None =>
  let d := dir_sync d in
  let tr := (tr ++ [d])%list in
  match ctx_Err ctx with
  | Some e => (tr, (d, ("", false, Some e)))
  | None =>
  match marshalCurrent name with
  | Fail e => (tr, (d, ("", false, Some e)))
  | Ok pointer =>
  match writeTempSynced ctx (po_temp io) (po_tempName io) pointer d with
  | (tr', (d, Fail e)) => ((tr ++ tr')%list, (d, ("", false, Some e)))
  | (tr', (d, Ok temp)) =>
  let tr := (tr ++ tr')%list in
  let cleanup d := if po_tempRemoved io then dir_remove temp d else d in
  let install := if String.eqb expectedCurrent "" then installFileNoReplace else atomicReplaceFile in
  match install (po_install io) temp currentFileName d with
  | (d, Some e) =>
      let e := if String.eqb expectedCurrent "" && errors_Is e os_ErrExist then ErrManifestExists
               else errorf "db: publish CURRENT" e in
      ((tr ++ [cleanup d])%list, (cleanup d, ("", false, Some e)))
  | (d, None) =>
  let tr := (tr ++ [d])%list in
  match po_sync2 io with
  | Some e => ((tr ++ [cleanup d])%list, (cleanup d, (name, true, Some (errorf "db: sync published CURRENT" e))))
  | None =>
      let d := dir_sync d in
      ((tr ++ [d; cleanup d])%list, (cleanup d, (name, true, None)))
  end end end end end end end end end end.

(** [OpenVersionManager] of a directory that exists. *)
Definition OpenVersionManager (ctx : context) (outcome : option gerror) (files : gmap string bytes)
    : result VersionManager :=
  match ctx_guard "db: nil open version manager context" ctx with
  | Some e => Fail e
  | None =>
  match readCurrent outcome files with
  | Fail e => Fail e
  | Ok name =>
  match readManifestFile files name with
  | Fail e => Fail e
  | Ok manifest =>
      if negb (String.eqb (manifestFileName (mf_Generation manifest)) name)
      then Fail (manifest_corrupt "CURRENT names another generation than the payload")
      else Ok {| vm_current := manifest; vm_currentName := name |}
  end end end.

(** [CreateVersionManager] once the directory exists. *)
Definition CreateVersionManager (ctx : context) (io : publish_io) (initial : Manifest) (d : directory)
    : list directory * (directory * (option VersionManager * option gerror)) :=
  match ctx_guard "db: nil create version manager context" ctx with
  | Some e => ([], (d, (None, Some e)))
  | None =>
  match po_lock io with
  | Some e => ([], (d, (None, Some (errorf "db: lock manifest creation" e))))
  | None =>
  let unlocked (r : option VersionManager) (err : option gerror) := (r, errors_Join [err; po_unlock io]) in
  match readCurrent (po_current io) (ds_now d) with
  | Ok _ => ([], (d, unlocked None (Some ErrManifestExists)))
  | Fail e =>
  if negb (errors_Is e ErrManifestNotFound) then ([], (d, unlocked None (Some e)))
  else
  match nextManifestGeneration (po_scan io) (ds_now d) with
  | Fail e => ([], (d, unlocked None (Some e)))
  | Ok generation =>
  let initial := prepareManifest initial generation in
  match publishLocked ctx io "" initial d with
  | (tr, (d, (name, true, err))) =>
      (tr, (d, unlocked (Some {| vm_current := initial; vm_currentName := name |}) err))
  | (tr, (d, (_, false, Some e))) => (tr, (d, unlocked None (Some e)))
  | (tr, (d, (_, false, None))) => (tr, (d, unlocked None (Some (errors_New "db: initial manifest was not committed"))))
  end end end end end.

(** [publishManagerLocked]: the manager afterwards, the manifest if it was
    committed, and the error. *)
Definition publishManagerLocked (ctx : context) (io : publish_io) (next : Manifest) (vm : VersionManager) (d : directory)
    : list directory * (directory * (VersionManager * option Manifest * option gerror)) :=
  match po_lock io with
  | Some e => ([], (d, (vm, None, Some (errorf "db: lock manifest publication" e))))
  | None =>
  let unlocked err := errors_Join [err; po_unlock io] in
  match readCurrent (po_current io) (ds_now d) with
  | Fail e => ([], (d, (vm, None, unlocked (Some e))))
  | Ok currentName =>
  if negb (String.eqb currentName (vm_currentName vm))
  then ([], (d, (vm, None, unlocked (Some (errorf "CURRENT moved" ErrManifestConflict)))))
  else
  match nextManifestGeneration (po_scan io) (ds_now d) with
  | Fail e => ([], (d, (vm, None, unlocked (Some e))))
  | Ok generation =>
  let next := prepareManifest next generation in
  match publishLocked ctx io (vm_currentName vm) next d with
  | (tr, (d, (name, true, err))) =>
      (tr, (d, ({| vm_current := next; vm_currentName := name |}, Some next, unlocked err)))
  | (tr, (d, (_, false, err))) => (tr, (d, (vm, None, unlocked err)))
  end end end end.

Definition Publish (ctx : context) (io : publish_io) (next : Manifest) (vm : VersionManager) (d : directory)
    : list directory * (directory * (VersionManager * option Manifest * option gerror)) :=
  match ctx_guard "db: nil publish context" ctx with
  | Some e => ([], (d, (vm, None, Some e)))
  | None => publishManagerLocked ctx io next vm d
  end.

(** [Update]: [base] is what [Current] answered when the update started. *)
Definition Update (ctx : context) (io : publish_io) (mutate : Manifest -> result Manifest) (base : Manifest)
    (vm : VersionManager) (d : directory)
    : list directory * (directory * (VersionManager * option Manifest * option gerror)) :=
  match ctx_guard "db: nil update context" ctx with
  | Some e => ([], (d, (vm, None, Some e)))
  | None =>
  match mutate base with
  | Fail e => ([], (d, (vm, None, Some e)))
  | Ok next =>
  match ctx_Err ctx with
  | Some e => ([], (d, (vm, None, Some e)))
  | None =>
  if negb (mf_Generation (vm_current vm) =? mf_Generation base)
  then ([], (d, (vm, None, Some (errorf "update started at another generation" ErrManifestConflict))))
  else publishManagerLocked ctx io next vm d
  end end end.
End version_manager.

(** ** The codec of [CURRENT] *)
Definition current_header (payload : bytes) : bytes :=
  (currentMagic ++ le_put 2 (wrap16 (zlen payload)) ++ le_put 2 currentHeaderLen ++ le_put 4 (CRC32C payload))%list.

Lemma zlen_manifest_name name g :
  parseManifestFileName name = Some g -> zlen (String.list_byte_of_string name) = 29.
Proof.
  intros [_ ->]%parseManifestFileName_exact. unfold manifestFileName, manifestDigits.
  assert (forall s, zlen (String.list_byte_of_string s) = Z.of_nat (String.length s)) as ->.
  { intros s. unfold zlen. f_equal. induction s as [|c s IH]; [done|]. exact (f_equal S IH). }
  rewrite str_length_app. fold (pad20 g). by rewrite length_pad20.
Qed.

Lemma marshalCurrent_layout name encoded :
  marshalCurrent name = Ok encoded <->
  is_Some (parseManifestFileName name) /\
  encoded = (current_header (String.list_byte_of_string name) ++ String.list_byte_of_string name)%list.
Proof.
  unfold marshalCurrent. destruct (parseManifestFileName name) as [g|]; [|split; [done|by intros [[? ?] _]]].
  set (payload := String.list_byte_of_string name).
  assert (splice 16 payload (splice 12 (le_put 4 (CRC32C payload)) (splice 10 (le_put 2 currentHeaderLen)
    (splice 8 (le_put 2 (wrap16 (zlen payload))) (splice 0 currentMagic (make_bytes (16 + length payload)))))) =
    (current_header payload ++ payload)%list) as ->.
  { rewrite make_bytes_add. repeat (rewrite splice_app_l by (apply Nat.leb_le; reflexivity)).
    set (h := splice 12 _ _). assert (h = current_header payload) as -> by reflexivity.
    by apply (splice_tail (current_header payload)). }
  split; [intros [= <-]; split; [eauto|done]|by intros [_ ->]].
Qed.

Lemma parseCurrent_marshalled name encoded : marshalCurrent name = Ok encoded -> parseCurrent encoded = Ok name.
Proof.
  intros [[g Hg] ->]%marshalCurrent_layout. pose proof (zlen_manifest_name name g Hg) as Hl.
  set (payload := String.list_byte_of_string name) in *. unfold parseCurrent.
  assert (slice 0 8 (current_header payload ++ payload) = currentMagic /\
    slice 8 10 (current_header payload ++ payload) = le_put 2 (wrap16 (zlen payload)) /\
    slice 10 12 (current_header payload ++ payload) = le_put 2 currentHeaderLen /\
    slice 12 16 (current_header payload ++ payload) = le_put 4 (CRC32C payload) /\
    drop 16 (current_header payload ++ payload) = payload /\ zlen (current_header payload ++ payload) = 16 + zlen payload)%list
    as (-> & -> & -> & -> & -> & ->).
  { rewrite !slice_app_l by (apply Nat.leb_le; reflexivity). repeat (split; [reflexivity|]). rewrite zlen_app. reflexivity. }
  rewrite Hl. change (wrap16 29) with 29.
  rewrite (le_get_put2 29), (le_get_put2 currentHeaderLen) by (vm_compute; split; discriminate).
  rewrite le_get_put4 by apply CRC32C_range. rewrite bytes_eqb_refl.
  change (16 + 29 - currentHeaderLen) with 29. change (29 =? 29) with true. rewrite !Z.eqb_refl. cbn [negb].
  change ((16 + 29 <? currentHeaderLen) || (maxCurrentSize <? 16 + 29)) with false. cbn iota.
  unfold payload. rewrite String.string_of_list_byte_of_string. by rewrite Hg.
Qed.

Lemma parseCurrent_inv name encoded : parseCurrent encoded = Ok name -> marshalCurrent name = Ok encoded.
Proof.
  unfold parseCurrent. intros Hp. repeat (case_in Hp; [done|]).
  set (payload := drop 16 encoded) in *.
  destruct (parseManifestFileName (String.string_of_list_byte payload)) as [g|] eqn:Eg; [|done]. injection Hp as <-.
  apply orb_false_iff in E as [E E']. apply negb_false_iff in E0, E1, E2, E3. apply bytes_eqb_eq in E0. to_prop.
  apply marshalCurrent_layout. split; [eauto|]. rewrite String.list_byte_of_string_of_list_byte.
  assert (16 <= length encoded)%nat as Hlen by (unfold zlen, currentHeaderLen in *; lia).
  assert (zlen payload = zlen encoded - 16) as Hpl by (unfold payload, zlen; rewrite length_drop; lia).
  rewrite <- (take_drop 16 encoded) at 1. fold payload. f_equal. rewrite take_slice.
  rewrite (slice_split 0 8 16), (slice_split 8 10 16), (slice_split 10 12 16) by lia.
  unfold current_header. f_equal; [done|]. f_equal; [|f_equal; [by apply (slice_le_get 10 12); [lia|]|by apply (slice_le_get 12 16); [lia|]]].
  apply (slice_le_get 8 10); [lia|]. rewrite E2, Hpl. unfold wrap16, currentHeaderLen, maxCurrentSize in *.
  symmetry. apply Z.mod_small. pose proof (zlen_nonneg payload). lia.
Qed.

(** The codec of [CURRENT] is exact: a byte string reads as the name of a
    manifest precisely when it is what the code writes for that name, and it
    writes only names of manifests. *)
Theorem current_pointer_exact (name : string) (encoded : bytes) :
  (parseCurrent encoded = Ok name <-> marshalCurrent name = Ok encoded) /\
  (is_ok (marshalCurrent name) = true <-> exists g, 0 < g <= u64_max /\ name = manifestFileName g).
Proof.
  split; [split; [apply parseCurrent_inv|apply parseCurrent_marshalled]|].
  unfold marshalCurrent. setoid_rewrite <- parseManifestFileName_exact.
  destruct (parseManifestFileName name) as [g|]; cbn [is_ok]; [split; eauto|split; [done|by intros [? ?]]].
Qed.

(** ** The next generation *)
Lemma nextManifestGeneration_spec files g :
  nextManifestGeneration None files = Ok g ->
  0 < g <= u64_max /\ files !! manifestFileName g = None /\
  forall name x, parseManifestFileName name = Some x -> is_Some (files !! name) -> x < g.
Proof.
  unfold nextManifestGeneration. set (l := omap parseManifestFileName (map_to_list files).*1).
  assert (Hl : forall name x, parseManifestFileName name = Some x -> is_Some (files !! name) -> x ∈ l).
  { intros name x Hp [c Hc]. apply list_elem_of_omap. exists name. split; [|done].
    apply list_elem_of_fmap. exists (name, c). split; [done|]. by apply elem_of_map_to_list. }
  assert (Hpos : Forall (fun x => 0 < x <= u64_max) l).
  { apply Forall_forall. intros x (name & _ & Hp)%list_elem_of_omap. by apply parseManifestFileName_exact in Hp as [? _]. }
  assert (Hmax : forall top, 0 <= top <= u64_max ->
    0 <= foldl Z.max top l <= u64_max /\ top <= foldl Z.max top l /\ forall x, x ∈ l -> x <= foldl Z.max top l).
  { clear Hl. clearbody l. induction Hpos as [|y l Hy Hpos IH]; intros top Ht; cbn [foldl].
    { split; [lia|]. split; [lia|]. by intros ? ?%elem_of_nil. }
    destruct (IH (Z.max top y) ltac:(lia)) as (H1 & H2 & H3). split; [lia|]. split; [lia|].
    intros x [->|Hx]%elem_of_cons; [lia|by apply H3]. }
  destruct (Hmax 0) as (H1 & _ & H3); [unfold u64_max; lia|]. case_if; [done|]. to_prop. intros [= <-].
  split; [lia|]. assert (forall name x, parseManifestFileName name = Some x -> is_Some (files !! name) -> x < foldl Z.max 0 l + 1) as Hg.
  { intros name x Hp Hs. specialize (H3 x (Hl name x Hp Hs)). lia. }
  split; [|done]. destruct (files !! _) as [c|] eqn:Ec; [|done].
  assert (foldl Z.max 0 l + 1 < foldl Z.max 0 l + 1); [|lia].
  apply (Hg (manifestFileName (foldl Z.max 0 l + 1))); [|eauto]. apply parseManifestFileName_exact. split; [lia|done].
Qed.

(** ** What an operation leaves alone *)
Definition same_at (n : string) (d d' : directory) : Prop :=
  (ds_durable d' !! n = ds_durable d !! n \/ ds_durable d' !! n = ds_now d !! n) /\
  ds_now d' !! n = ds_now d !! n /\ (n ∈ ds_torn d' -> n ∈ ds_torn d).
Definition frame (ns : list string) (d d' : directory) : Prop := forall n, n ∉ ns -> same_at n d d'.

Lemma frame_refl ns d : frame ns d d.
Proof. intros n _. split; [by left|done]. Qed.
Lemma frame_trans ns d1 d2 d3 : frame ns d1 d2 -> frame ns d2 d3 -> frame ns d1 d3.
Proof.
  intros H1 H2 n Hn. destruct (H1 n Hn) as (A & B & C), (H2 n Hn) as (A' & B' & C').
  split; [|split; [congruence|auto]]. destruct A' as [A'|A']; [|right; congruence]. rewrite A'. exact A.
Qed.
Lemma frame_weaken ns ns' d d' : (forall n, n ∈ ns -> n ∈ ns') -> frame ns d d' -> frame ns' d d'.
Proof. intros Hs Hf n Hn. apply Hf. auto. Qed.

Lemma frame_change n d d' :
  ds_durable d' = ds_durable d -> (forall k, k <> n -> ds_now d' !! k = ds_now d !! k) ->
  (forall k, k <> n -> k ∈ ds_torn d' -> k ∈ ds_torn d) -> frame [n] d d'.
Proof.
  intros H1 H2 H3 k Hk. apply not_elem_of_cons in Hk as [Hk _].
  split; [left; by rewrite H1|]. split; [by apply H2|by apply H3].
Qed.
Lemma frame_create n d : frame [n] d (dir_create n d).
Proof.
  apply frame_change; [done|intros k Hk; cbn; by rewrite lookup_insert_ne by done|]. intros k Hk. cbn. clear -Hk. set_solver.
Qed.
Lemma frame_write n c d : frame [n] d (dir_write n c d).
Proof. apply frame_change; [done|intros k Hk; cbn; by rewrite lookup_insert_ne by done|done]. Qed.
Lemma frame_fsync n d : frame [n] d (dir_fsync n d).
Proof. apply frame_change; [done|done|]. intros k Hk. cbn. clear. set_solver. Qed.
Lemma frame_remove n d : frame [n] d (dir_remove n d).
Proof. apply frame_change; [done|intros k Hk; cbn; by rewrite lookup_delete_ne by done|done]. Qed.
Lemma frame_sync ns d : frame ns d (dir_sync d).
Proof. intros n _. split; [by right|done]. Qed.
#[local] Hint Resolve frame_refl frame_create frame_write frame_fsync frame_remove frame_sync : core.

Lemma writeFull_ok outs written contents written' :
  writeFull outs written contents = (written', None) -> written' = (written ++ contents)%list.
Proof.
  revert written contents. induction outs as [|[n err] outs IH]; intros written contents Hw.
  { destruct contents; cbn in Hw; injection Hw as <-; [by rewrite app_nil_r|done]. }
  destruct contents as [|b contents]; [cbn in Hw; injection Hw as <-; by rewrite app_nil_r|].
  cbn [writeFull] in Hw. destruct err; [done|]. case_decide; [done|]. apply IH in Hw as ->.
  rewrite <- app_assoc. f_equal. rewrite length_take.
  destruct (decide (n <= length (b :: contents))%nat).
  - rewrite Nat.min_l by lia. apply take_drop.
  - rewrite Nat.min_r by lia. rewrite take_ge by lia. rewrite drop_ge by lia. by rewrite app_nil_r.
Qed.

Definition traced_frame (ns : list string) (d : directory) (tr : list directory) (d' : directory) : Prop :=
  (forall dd, dd ∈ tr -> frame ns d dd) /\ frame ns d d'.

Lemma fill_synced_frame io n c d tr d' err :
  fill_synced io n c d = (tr, (d', err)) ->
  traced_frame [n] d tr d' /\ (err = None -> ds_now d' !! n = Some c /\ n ∉ ds_torn d').
Proof.
  unfold fill_synced. destruct (writeFull (fi_writes io) [] c) as [w we] eqn:Ew.
  set (undo := fun d0 => if fi_removed io then dir_remove n d0 else d0).
  assert (Hu : forall d0, frame [n] d0 (undo d0)) by (intros d0; unfold undo; destruct (fi_removed io); auto).
  assert (H1 : frame [n] d (dir_write n w d)) by auto.
  assert (H2 : frame [n] d (dir_fsync n (dir_write n w d))) by (by eapply frame_trans).
  destruct we as [e|]; [|destruct (fi_sync io) as [e|]; [|destruct (fi_close io) as [e|]]]; intros [= <- <- <-].
  4:{ apply writeFull_ok in Ew as ->. split.
      - split; [|done]. intros dd [->|[->|?%elem_of_nil]%elem_of_cons]%elem_of_cons; done.
      - intros _. cbn. rewrite lookup_insert_eq. split; [done|]. clear. set_solver. }
  all: (split; [|done]); (split; [|eapply frame_trans; [|apply Hu]; done]); intros dd Hdd;
    repeat (apply elem_of_cons in Hdd as [->|Hdd]; [first [done|eapply frame_trans; [|apply Hu]; done]|]); by apply elem_of_nil in Hdd.
Qed.

Lemma writeExclusiveSynced_frame io n c d tr d' err :
  writeExclusiveSynced io n c d = (tr, (d', err)) ->
  traced_frame [n] d tr d' /\ (err = None -> ds_now d' !! n = Some c /\ n ∉ ds_torn d').
Proof.
  unfold writeExclusiveSynced. case_bool_decide.
  { intros [= <- <- <-]. split; [|done]. split; [by intros ? ?%elem_of_nil|done]. }
  destruct (fi_create io).
  { intros [= <- <- <-]. split; [|done]. split; [by intros ? ?%elem_of_nil|done]. }
  destruct (fill_synced _ _ _ _) as [tr0 [d0 err0]] eqn:Ef. intros [= <- <- <-].
  apply fill_synced_frame in Ef as [[Hf1 Hf2] Hok]. split; [|done]. split; [|eapply frame_trans; [apply frame_create|done]].
  intros dd [->|Hdd]%elem_of_cons; [done|]. eapply frame_trans; [apply frame_create|auto].
Qed.

Lemma writeTempSynced_frame ctx io star c d tr d' r :
  writeTempSynced ctx io star c d = (tr, (d', r)) ->
  traced_frame [temp_name star] d tr d' /\
  (forall temp, r = Ok temp -> temp = temp_name star /\ ds_now d' !! temp = Some c /\ temp ∉ ds_torn d').
Proof.
  assert (Htriv : traced_frame [temp_name star] d [] d) by (split; [by intros ? ?%elem_of_nil|done]).
  unfold writeTempSynced. destruct (ctx_Err ctx); [by intros [= <- <- <-]|].
  case_bool_decide; [by intros [= <- <- <-]|]. destruct (fi_create io); [by intros [= <- <- <-]|].
  destruct (fill_synced _ _ _ _) as [tr0 [d0 err0]] eqn:Ef. apply fill_synced_frame in Ef as [[Hf1 Hf2] Hok].
  assert (traced_frame [temp_name star] d (dir_create (temp_name star) d :: tr0) d0).
  { split; [|eapply frame_trans; [apply frame_create|done]]. intros dd [->|Hdd]%elem_of_cons; [done|].
    eapply frame_trans; [apply frame_create|auto]. }
  destruct err0; intros [= <- <- <-]; (split; [done|]); [done|]. intros temp [= <-]. split; [done|]. by apply Hok.
Qed.

(** Names of temporary files and of manifests, and [CURRENT], are all different. *)
Lemma temp_name_not_current star : temp_name star <> currentFileName.
Proof. unfold temp_name, currentFileName. discriminate. Qed.
Lemma temp_name_not_manifest star g : temp_name star <> manifestFileName g.
Proof. unfold temp_name, manifestFileName, manifestPrefix. discriminate. Qed.
Lemma manifest_not_current g : manifestFileName g <> currentFileName.
Proof. unfold manifestFileName, manifestPrefix, currentFileName. discriminate. Qed.
#[local] Hint Resolve temp_name_not_current temp_name_not_manifest manifest_not_current : core.
Lemma manifest_name_inj a b : 0 < a <= u64_max -> 0 < b <= u64_max -> manifestFileName a = manifestFileName b -> a = b.
Proof.
  intros Ha Hb Heq. assert (parseManifestFileName (manifestFileName a) = Some a) as H1 by by apply parseManifestFileName_exact.
  assert (parseManifestFileName (manifestFileName b) = Some b) as H2 by by apply parseManifestFileName_exact. congruence.
Qed.

(** ** The published state *)
Section publication.
Context `{Hjson : ManifestJSON} {Hlaws : ManifestJSONLaws}.
#[local] Hint Resolve frame_refl frame_create frame_write frame_fsync frame_remove frame_sync : core.
#[local] Hint Resolve temp_name_not_current temp_name_not_manifest manifest_not_current : core.

(** [CURRENT] of [files] names [x]; [None] when there is no [CURRENT]. *)
Definition points (files : gmap string bytes) (x : option Manifest) : Prop :=
  match x with
  | None => files !! currentFileName = None
  | Some m => exists pointer, marshalCurrent (manifestFileName (mf_Generation m)) = Ok pointer /\
                files !! currentFileName = Some pointer
  end.
(** The manifest file of [m] is complete. *)
Definition published (files : gmap string bytes) (m : Manifest) : Prop :=
  exists encoded, files !! manifestFileName (mf_Generation m) = Some encoded /\ UnmarshalManifest encoded = Ok m.
(** What opening [files] gives. *)
Definition opens (files : gmap string bytes) (x : option Manifest) : Prop :=
  OpenVersionManager CtxLive None files =
  match x with
  | None => Fail ErrManifestNotFound
  | Some m => Ok {| vm_current := m; vm_currentName := manifestFileName (mf_Generation m) |}
  end.

Lemma published_opens files x :
  points files x -> (forall m, x = Some m -> published files m) -> opens files x.
Proof.
  intros Hp Hm. unfold opens, OpenVersionManager, readCurrent. cbn [ctx_guard]. destruct x as [m|].
  2:{ cbn in Hp. by rewrite Hp. }
  destruct Hp as (pointer & Hp & ->). rewrite (parseCurrent_marshalled _ _ Hp).
  destruct (Hm m eq_refl) as (encoded & Henc & Hu). unfold readManifestFile. rewrite Henc.
  pose proof (UnmarshalManifest_inv _ _ Hu) as (_ & _ & Hsize & _).
  destruct ((zlen encoded <? manifestHeaderSize) || _) eqn:E.
  { exfalso. apply orb_true_iff in E as [E|E]; to_prop; lia. }
  by rewrite Hu, String.eqb_refl.
Qed.

(** The directory of a manager whose current manifest reads back as [x], and
    where a crash can bring back one of [cands]. *)
Record pub_state (d : directory) (x : option Manifest) (cands : list (option Manifest)) : Prop := {
  ps_torn : currentFileName ∉ ds_torn d;
  ps_now : points (ds_now d) x;
  ps_durable : exists y, y ∈ x :: cands /\ points (ds_durable d) y;
  ps_files : forall m, Some m ∈ x :: cands ->
    0 < mf_Generation m <= u64_max /\ manifestFileName (mf_Generation m) ∉ ds_torn d /\
    published (ds_durable d) m /\ published (ds_now d) m
}.

(** The directory after a restart: what is there is durable. *)
Definition settled (files : gmap string bytes) : directory := {| ds_durable := files; ds_now := files; ds_torn := ∅ |}.

(** A crash that leaves a pointer to a candidate leaves its manifest file. *)
Lemma pub_state_found d x cands files y :
  pub_state d x cands -> ds_crash d files -> y ∈ x :: cands -> points files y ->
  opens files y /\ pub_state (settled files) y [].
Proof.
  intros [Ht Hn (z & Hz & Hd) Hf] Hc Hy Hp. assert (forall m, y = Some m -> published files m) as Hpub.
  { intros m ->. destruct (Hf m Hy) as (_ & Hm & (e1 & H1 & U1) & (e2 & H2 & U2)).
    destruct (Hc (manifestFileName (mf_Generation m))) as [?|[Hk|Hk]]; [done| |]; unfold published; rewrite Hk; eauto. }
  split; [by apply published_opens|]. split; cbn; [by apply not_elem_of_empty|done|eexists; split; [by left|done]|].
  intros m <-%list_elem_of_singleton. destruct (Hf m Hy) as (Hg & _). split; [done|]. split; [by apply not_elem_of_empty|].
  by split; apply Hpub.
Qed.

Lemma pub_state_settled d x cands files :
  pub_state d x cands -> ds_crash d files ->
  exists y, y ∈ x :: cands /\ opens files y /\ pub_state (settled files) y [].
Proof.
  intros Hs Hc. assert (exists y, y ∈ x :: cands /\ points files y) as (y & Hy & Hp).
  { pose proof Hs as [Ht Hn (z & Hz & Hd) _]. destruct (Hc currentFileName) as [?|[Hk|Hk]]; [done|exists z|exists x; split; [by left|]].
    - split; [done|]. unfold points in *. by rewrite Hk.
    - unfold points in *. by rewrite Hk. }
  exists y. split; [done|]. by apply (pub_state_found d x cands).
Qed.

Lemma pub_state_crash d x cands files :
  pub_state d x cands -> ds_crash d files -> exists y, y ∈ x :: cands /\ opens files y.
Proof. intros Hs Hc. destruct (pub_state_settled _ _ _ _ Hs Hc) as (y & ? & ? & _). eauto. Qed.

Lemma pub_state_frame ns d d' x cands :
  pub_state d x cands -> frame ns d d' -> currentFileName ∉ ns ->
  (forall m, Some m ∈ x :: cands -> manifestFileName (mf_Generation m) ∉ ns) -> pub_state d' x cands.
Proof.
  intros [Ht Hn (z & Hz & Hd) Hf] Hfr Hc Hns. destruct (Hfr _ Hc) as (A & B & C). constructor.
  - auto.
  - unfold points in *. by rewrite B.
  - destruct A as [A|A]; [exists z; split; [done|]; unfold points in *; by rewrite A|].
    exists x. split; [by left|]. unfold points in *. by rewrite A.
  - intros m Hm. destruct (Hf m Hm) as (Hg & Hm1 & Hm2 & Hm3). destruct (Hfr _ (Hns m Hm)) as (A' & B' & C').
    split; [done|]. split; [auto|]. unfold published in *. rewrite B'. split; [|done].
    destruct A' as [A'|A']; by rewrite A'.
Qed.

Lemma pub_state_sync d x cands cands' :
  pub_state d x cands -> (forall y, y ∈ cands' -> y ∈ x :: cands) -> pub_state (dir_sync d) x cands'.
Proof.
  intros [Ht Hn _ Hf] Hc. constructor; cbn; [done|done|exists x; split; [by left|done]|].
  intros m Hm. destruct (Hf m) as (? & ? & _ & ?); [|done].
  apply elem_of_cons in Hm as [Hm|Hm]; [rewrite Hm; by left|auto].
Qed.

(** [CURRENT] moves to a manifest whose file is durable. *)
Lemma pub_state_install ns d d' x cands m :
  pub_state d x cands -> frame ns d d' -> (forall m, Some m ∈ x :: cands -> manifestFileName (mf_Generation m) ∉ ns) ->
  ds_durable d' = ds_durable d -> currentFileName ∉ ds_torn d' -> points (ds_now d') (Some m) ->
  0 < mf_Generation m <= u64_max -> manifestFileName (mf_Generation m) ∉ ds_torn d' ->
  published (ds_durable d') m -> published (ds_now d') m ->
  pub_state d' (Some m) (x :: cands).
Proof.
  intros Hs Hfr Hns Hdur Ht Hp Hg Hm1 Hm2 Hm3. destruct Hs as [_ _ (z & Hz & Hd) Hf]. constructor; [done|done| |].
  - exists z. split; [by right|]. by rewrite Hdur.
  - intros y Hy. apply elem_of_cons in Hy as [Hy|Hy]; [injection Hy as ->; done|]. destruct (Hf y Hy) as (G1 & G2 & G3 & G4).
    destruct (Hfr _ (Hns y Hy)) as (A & B & C). split; [done|]. split; [auto|].
    unfold published in *. rewrite B, Hdur. done.
Qed.

Lemma install_spec (replace : bool) outcome temp c d d' err :
  ds_now d !! temp = Some c -> temp ∉ ds_torn d -> temp <> currentFileName ->
  (if replace then installFileNoReplace else atomicReplaceFile) outcome temp currentFileName d = (d', err) ->
  match err with
  | Some _ => d' = d
  | None => frame [temp; currentFileName] d d' /\ ds_durable d' = ds_durable d /\ ds_torn d' = ds_torn d /\
            ds_now d' !! currentFileName = Some c
  end.
Proof.
  intros Hc Ht Hne.
  assert (torn_as temp currentFileName (ds_torn d) = ds_torn d) as Hta by (unfold torn_as; by rewrite bool_decide_false).
  assert (forall now', (forall k, k ∉ [temp; currentFileName] -> now' !! k = ds_now d !! k) ->
    frame [temp; currentFileName] d {| ds_durable := ds_durable d; ds_now := now'; ds_torn := ds_torn d |}) as Hfr.
  { intros now' Hn k Hk. split; [by left|]. split; [by apply Hn|done]. }
  destruct replace; unfold installFileNoReplace, atomicReplaceFile; [case_bool_decide; [by intros [= <- <-]|]|]; rewrite Hc, ?Hta; (destruct outcome; [by intros [= <- <-]|]);
    intros [= <- <-]; cbn; rewrite lookup_insert_eq; (split; [|done]); apply Hfr; intros k Hk;
    apply not_elem_of_cons in Hk as [Hk1 Hk2]; apply not_elem_of_cons in Hk2 as [Hk2 _];
    rewrite ?lookup_insert_ne, ?lookup_delete_ne by done; done.
Qed.

(** After the manifest file and the temporary one, [CURRENT] is replaced. *)
Lemma published_install d3 d4 x cands m encoded pointer temp :
  pub_state d3 x cands -> UnmarshalManifest encoded = Ok (manifest_normal m) -> 0 < mf_Generation m <= u64_max ->
  marshalCurrent (manifestFileName (mf_Generation m)) = Ok pointer ->
  (forall g, temp <> manifestFileName g) ->
  ds_durable d3 !! manifestFileName (mf_Generation m) = Some encoded ->
  ds_now d3 !! manifestFileName (mf_Generation m) = Some encoded ->
  manifestFileName (mf_Generation m) ∉ ds_torn d3 ->
  frame [temp; currentFileName] d3 d4 -> ds_durable d4 = ds_durable d3 -> ds_torn d4 = ds_torn d3 ->
  ds_now d4 !! currentFileName = Some pointer ->
  pub_state d4 (Some (manifest_normal m)) (x :: cands).
Proof.
  intros Hs Hu Hg Hp Htemp Hdur Hnow Htorn Hfr Hdur4 Htorn4 Hcur4.
  assert (Hns : forall g, manifestFileName g ∉ [temp; currentFileName]).
  { intros g. rewrite !not_elem_of_cons. split; [intros Hk; by eapply Htemp|].
    split; [apply manifest_not_current|apply not_elem_of_nil]. }
  destruct (Hfr _ (Hns (mf_Generation m))) as (_ & B & _).
  eapply pub_state_install; [exact Hs|exact Hfr|auto|done| | |done| | |].
  - rewrite Htorn4. apply Hs.
  - by exists pointer.
  - by rewrite Htorn4.
  - exists encoded. by rewrite Hdur4.
  - exists encoded. change (mf_Generation (manifest_normal m)) with (mf_Generation m). by rewrite B.
Qed.

#[local] Ltac in_trace :=
  let dd := fresh "dd" in let Hdd := fresh "Hdd" in
  intros dd Hdd; rewrite ?elem_of_app, ?elem_of_cons, ?elem_of_nil in Hdd;
  repeat match type of Hdd with _ \/ _ => destruct Hdd as [Hdd|Hdd] end; subst; try done; solve [eauto].

Lemma publishLocked_spec ctx io expected x m d tr d' name committed err cands :
  pub_state d x cands -> (expected = "" <-> x = None) ->
  ds_now d !! manifestFileName (mf_Generation m) = None -> 0 < mf_Generation m <= u64_max -> mj_Encodable m ->
  publishLocked ctx io expected m d = (tr, (d', (name, committed, err))) ->
  let y := Some (manifest_normal m) in
  (forall dd, dd ∈ tr -> pub_state dd x cands \/ pub_state dd y (x :: cands)) /\
  if committed
  then name = manifestFileName (mf_Generation m) /\ pub_state d' y (x :: cands) /\
       (po_sync2 io = None -> err = None /\ pub_state d' y [])
  else err <> None /\ pub_state d' x cands.
Proof.
  intros Hs Hexp Hfresh Hg Henc H y. unfold publishLocked in H.
  set (P := fun dd => pub_state dd x cands \/ pub_state dd y (x :: cands)).
  change (forall dd, dd ∈ tr -> pub_state dd x cands \/ pub_state dd y (x :: cands)) with (forall dd, dd ∈ tr -> P dd).
  assert (HP : forall dd, pub_state dd x cands -> P dd) by (by left).
  assert (HP' : forall dd, pub_state dd y (x :: cands) -> P dd) by (by right). clearbody P.
  destruct (Manifest_Validate m); [|injection H as <- <- <- <- <-; split; [in_trace|done]].
  destruct (ctx_Err ctx) eqn:Ectx; [injection H as <- <- <- <- <-; split; [in_trace|done]|].
  destruct (MarshalManifest m) as [encoded|e] eqn:Em; [|injection H as <- <- <- <- <-; split; [in_trace|done]].
  assert (Hu : UnmarshalManifest encoded = Ok (manifest_normal m)).
  { apply UnmarshalManifest_marshalled; [done|unfold is_u64; lia|done]. }
  set (n1 := manifestFileName (mf_Generation m)) in *.
  assert (Hn1 : forall k, Some k ∈ x :: cands -> manifestFileName (mf_Generation k) <> n1).
  { intros k Hk. destruct (ps_files _ _ _ Hs k Hk) as (_ & _ & _ & (c & Hc & _)). congruence. }
  assert (Hkeep : forall ns dd, (forall n, n ∈ ns -> n = n1 \/ exists s, n = temp_name s) -> frame ns d dd -> pub_state dd x cands).
  { intros ns dd Hns Hfr. eapply pub_state_frame; [exact Hs|exact Hfr| |].
    - intros Hin. destruct (Hns _ Hin) as [Hk|[s Hk]]; [by eapply manifest_not_current|by eapply temp_name_not_current].
    - intros k Hk Hin. destruct (Hns _ Hin) as [Hk'|[s Hk']]; [by apply (Hn1 k)|by eapply temp_name_not_manifest]. }
  destruct (writeExclusiveSynced _ n1 encoded d) as [tr1 [d1 e1]] eqn:Ew.
  apply writeExclusiveSynced_frame in Ew as [[Htr1 Hd1] Hok1].
  assert (Hkeep1 : forall dd, frame [n1] d dd -> pub_state dd x cands).
  { intros dd. apply Hkeep. intros n ->%list_elem_of_singleton. by left. }
  destruct e1 as [e1|]; [injection H as <- <- <- <- <-; split; [in_trace|eauto]|].
  destruct (po_sync1 io); [injection H as <- <- <- <- <-; split; [in_trace|eauto]|].
  destruct (Hok1 eq_refl) as [Hnow1 Htorn1]. set (d2 := dir_sync d1) in *.
  assert (Hd2 : frame [n1] d d2) by (eapply frame_trans; [exact Hd1|apply frame_sync]).
  destruct (marshalCurrent n1) as [pointer|e] eqn:Ep; [|injection H as <- <- <- <- <-; split; [in_trace|eauto]].
  destruct (writeTempSynced _ _ _ pointer d2) as [tr2 [d3 r]] eqn:Et.
  set (temp := temp_name (po_tempName io)) in *.
  apply writeTempSynced_frame in Et as [[Htr2 Hd3] Hok2]. fold temp in Htr2, Hd3.
  assert (Hkeep2 : forall dd, frame [temp] d2 dd -> pub_state dd x cands).
  { intros dd Hdd. apply (Hkeep [n1; temp]).
    - intros n [-> | ->%list_elem_of_singleton]%elem_of_cons; [by left|right; by eexists].
    - eapply frame_trans; eapply frame_weaken; [|exact Hd2| |exact Hdd]; intros n ->%list_elem_of_singleton; [left|right; left]. }
  destruct r as [temp'|e]; [|injection H as <- <- <- <- <-; split; [in_trace|split; [done|eauto]]].
  destruct (Hok2 temp' eq_refl) as (-> & Hnow3 & Htorn3). fold temp in H, Hnow3, Htorn3.
  set (cleanup := fun d => if po_tempRemoved io then dir_remove temp d else d) in *.
  assert (Hclean : forall dd, frame [temp] dd (cleanup dd)) by (intros dd; unfold cleanup; destruct (po_tempRemoved io); auto).
  destruct ((if String.eqb expected "" then installFileNoReplace else atomicReplaceFile) _ temp currentFileName d3)
    as [d4 e4] eqn:Ei.
  apply (install_spec _ _ _ pointer) in Ei; [|done|done|unfold temp; done]. destruct e4 as [e4|].
  { subst d4. injection H as <- <- <- <- <-.
    assert (pub_state (cleanup d3) x cands) by (apply Hkeep2; eapply frame_trans; [exact Hd3|apply Hclean]).
    split; [in_trace|done]. }
  destruct Ei as (Hd4 & Hdur4 & Htorn4 & Hcur4). assert (Hs4 : pub_state d4 y (x :: cands)).
  { assert (n1 ∉ [temp]) as Hn1t.
    { intros Hk%list_elem_of_singleton. by apply (temp_name_not_manifest (po_tempName io) (mf_Generation m)). }
    destruct (Hd3 n1 Hn1t) as (A & B & C).
    apply (published_install d3 d4 x cands m encoded pointer temp); auto.
    - fold n1. destruct A as [A|A]; rewrite A; exact Hnow1.
    - fold n1. rewrite B. exact Hnow1. }
  assert (Hcl : forall dd cs, pub_state dd y cs -> pub_state (cleanup dd) y cs).
  { intros dd cs Hdd. eapply pub_state_frame; [exact Hdd|apply Hclean| |].
    - intros Hk%list_elem_of_singleton. by eapply temp_name_not_current.
    - intros k _ Hk%list_elem_of_singleton. by eapply temp_name_not_manifest. }
  destruct (po_sync2 io) as [e|]; injection H as <- <- <- <- <-; [split; [in_trace|]; split; [done|]; by split; [apply Hcl|]|].
  pose proof (pub_state_sync _ _ _ (x :: cands) Hs4 ltac:(by right)) as Hs5.
  pose proof (pub_state_sync _ _ _ [] Hs4 ltac:(by intros ? ?%elem_of_nil)) as Hs6.
  split; [in_trace|]. split; [done|]. split; [by apply Hcl|]. intros _. split; [done|by apply Hcl].
Qed.

(** When the last synchronization of the directory fails, the new [CURRENT] is
    not durable: stable storage still has the one that was visible before. *)
Lemma publishLocked_unsynced ctx io expected m d tr d' name err :
  publishLocked ctx io expected m d = (tr, (d', (name, true, err))) -> po_sync2 io <> None ->
  ds_durable d' !! currentFileName = ds_now d !! currentFileName.
Proof.
  intros H Hs. unfold publishLocked in H. destruct (Manifest_Validate m); [|done]. destruct (ctx_Err ctx); [done|].
  destruct (MarshalManifest m) as [encoded|e]; [|done]. set (n1 := manifestFileName (mf_Generation m)) in *.
  destruct (writeExclusiveSynced _ n1 encoded d) as [tr1 [d1 [e1|]]] eqn:Ew; [done|].
  apply writeExclusiveSynced_frame in Ew as [[_ Hd1] _]. destruct (po_sync1 io); [done|].
  destruct (marshalCurrent n1) as [pointer|e]; [|done].
  destruct (writeTempSynced _ _ _ pointer (dir_sync d1)) as [tr2 [d3 [temp|e]]] eqn:Et; [|done].
  apply writeTempSynced_frame in Et as [[_ Hd3] Hok]. destruct (Hok temp eq_refl) as (-> & Hnow & Htorn).
  destruct ((if String.eqb expected "" then _ else _) _ _ currentFileName d3) as [d4 [e4|]] eqn:Ei; [done|].
  apply (install_spec _ _ _ pointer) in Ei as (_ & Hdur & _); [|done|done|done].
  destruct (po_sync2 io); [|done]. injection H as <- <- <- <-.
  assert (ds_durable d3 !! currentFileName = ds_now d !! currentFileName) as Hcur.
  { assert (currentFileName ∉ [n1]) as Hn1 by (intros Hk%list_elem_of_singleton; by eapply manifest_not_current).
    destruct (Hd1 _ Hn1) as (_ & Hnow1 & _).
    assert (currentFileName ∉ [temp_name (po_tempName io)]) as Hn2
      by (intros Hk%list_elem_of_singleton; by eapply temp_name_not_current).
    destruct (Hd3 _ Hn2) as ([A|A] & _); rewrite A; exact Hnow1. }
  destruct (po_tempRemoved io); cbn [dir_remove ds_durable]; by rewrite Hdur.
Qed.

(** ** The manager *)

(** [d] is the directory of [vm]; [cands] are older manifests that a crash may
    still bring back because the directory was not synchronized since. *)
Definition vm_inv (d : directory) (vm : VersionManager) (cands : list (option Manifest)) : Prop :=
  vm_currentName vm = manifestFileName (mf_Generation (vm_current vm)) /\
  pub_state d (Some (manifest_normal (vm_current vm))) cands.

Lemma vm_inv_crash d vm cands files :
  vm_inv d vm cands -> ds_crash d files ->
  exists y, y ∈ Some (manifest_normal (vm_current vm)) :: cands /\ opens files y.
Proof. intros [_ Hs] Hc. by eapply pub_state_crash. Qed.

Lemma errors_Join_Some e l : errors_Join (Some e :: l) <> None.
Proof. done. Qed.

Lemma Publish_spec ctx io next vm d tr d' vm' res err cands :
  vm_inv d vm cands -> (forall g, 0 < g <= u64_max -> mj_Encodable (prepareManifest next g)) ->
  Publish ctx io next vm d = (tr, (d', (vm', res, err))) ->
  let x := Some (manifest_normal (vm_current vm)) in
  match res with
  | None => vm' = vm /\ err <> None /\ vm_inv d' vm cands
  | Some p => exists g, nextManifestGeneration None (ds_now d) = Ok g /\ p = prepareManifest next g /\
      vm_current vm' = p /\ vm_inv d' vm' (x :: cands) /\
      (po_sync2 io = None -> vm_inv d' vm' [] /\ err = errors_Join [po_unlock io])
  end /\
  forall dd, dd ∈ tr -> pub_state dd x cands \/
    exists g, pub_state dd (Some (manifest_normal (prepareManifest next g))) (x :: cands).
Proof.
  intros [Hname Hs] Henc H x. unfold Publish, publishManagerLocked in H.
  assert (Hnil : forall dd : directory, dd ∈ [] -> pub_state dd x cands \/
    exists g, pub_state dd (Some (manifest_normal (prepareManifest next g))) (x :: cands)) by (by intros ? ?%elem_of_nil).
  destruct (ctx_guard _ ctx); [by injection H as <- <- <- <- <-|].
  destruct (po_lock io); [by injection H as <- <- <- <- <-|].
  destruct (readCurrent _ _); [|by injection H as <- <- <- <- <-].
  case_in H; [by injection H as <- <- <- <- <-|].
  destruct (nextManifestGeneration (po_scan io) (ds_now d)) as [g|] eqn:Eg; [|by injection H as <- <- <- <- <-].
  assert (Eg' : nextManifestGeneration None (ds_now d) = Ok g) by (destruct (po_scan io); [done|exact Eg]).
  destruct (nextManifestGeneration_spec _ _ Eg') as (Hg & Hfresh & _).
  destruct (publishLocked _ _ _ _ _) as [tr1 [d1 [[name committed] err1]]] eqn:Ep.
  apply (publishLocked_spec _ _ _ x _ _ _ _ _ _ _ cands) in Ep as [Htr Hres]; [|done| |done|done|apply Henc; exact Hg].
  2:{ split; [|done]. rewrite Hname. unfold manifestFileName, manifestPrefix. discriminate. }
  destruct committed; injection H as <- <- <- <- <-; (split; [|intros dd Hdd; destruct (Htr dd Hdd); eauto]).
  - destruct Hres as (-> & Hs1 & Hsync). exists g. split; [done|]. split; [done|]. split; [done|].
    split; [done|]. intros Hpo. destruct (Hsync Hpo) as [-> Hs2]. done.
  - destruct Hres as [He Hs1]. split; [done|]. split; [|done]. by destruct err1.
Qed.

Lemma Publish_unsynced ctx io next vm d tr d' vm' p err x :
  Publish ctx io next vm d = (tr, (d', (vm', Some p, err))) -> po_sync2 io <> None ->
  points (ds_now d) x -> points (ds_durable d') x.
Proof.
  intros H Hs Hp. unfold Publish, publishManagerLocked in H. destruct (ctx_guard _ ctx); [done|].
  destruct (po_lock io); [done|]. destruct (readCurrent _ _); [|done]. case_in H; [done|].
  destruct (nextManifestGeneration _ _); [|done].
  destruct (publishLocked _ _ _ _ _) as [tr1 [d1 [[name []] err1]]] eqn:Ep; [|done]. injection H as <- <- <- _ _.
  apply publishLocked_unsynced in Ep; [|done]. unfold points in *. by rewrite Ep.
Qed.

(** C34: publication is atomic.  Whatever the system calls answer and wherever a
    crash strikes while a manifest is published, the directory that is left
    opens to the manifest that was current, to the new one, or to one that an
    earlier unsynchronized publication had replaced; it never fails to open.
    An uncommitted publication reports an error and changes nothing; a
    committed one has a generation above all others in the directory, and once
    its directory is synchronized every crash opens it. *)
Theorem publish_crash_atomic ctx io next vm d tr d' vm' res err cands :
  vm_inv d vm cands -> (forall g, 0 < g <= u64_max -> mj_Encodable (prepareManifest next g)) ->
  Publish ctx io next vm d = (tr, (d', (vm', res, err))) ->
  (forall dd files, dd ∈ d :: tr ++ [d'] -> ds_crash dd files -> exists y, opens files y /\
     (y = Some (manifest_normal (vm_current vm)) \/ y ∈ cands \/
      exists g, y = Some (manifest_normal (prepareManifest next g))))%list /\
  (res = None -> vm' = vm /\ err <> None /\ vm_inv d' vm cands) /\
  (forall p, res = Some p -> vm_current vm' = p /\ p = prepareManifest next (mf_Generation p) /\
     (forall name g, parseManifestFileName name = Some g -> is_Some (ds_now d !! name) -> g < mf_Generation p) /\
     (po_sync2 io = None -> vm_inv d' vm' [] /\
        forall files, ds_crash d' files -> opens files (Some (manifest_normal p)))).
Proof.
  intros Hvm Henc H. destruct (Publish_spec _ _ _ _ _ _ _ _ _ _ _ Hvm Henc H) as [Hres Htr]. split; [|split].
  - assert (Hd' : (exists cs, pub_state d' (Some (manifest_normal (vm_current vm))) cs /\ cs = cands) \/
      exists g, pub_state d' (Some (manifest_normal (prepareManifest next g))) (Some (manifest_normal (vm_current vm)) :: cands)).
    { destruct res as [p|]; [|left; exists cands; split; [|done]; apply Hres].
      destruct Hres as (g & _ & -> & Hcur & [_ Hs] & _). right. exists g. by rewrite Hcur in Hs. }
    intros dd files Hdd Hc.
    assert (pub_state dd (Some (manifest_normal (vm_current vm))) cands \/
      exists g, pub_state dd (Some (manifest_normal (prepareManifest next g))) (Some (manifest_normal (vm_current vm)) :: cands)) as Hs.
    { apply elem_of_cons in Hdd as [->|[Hdd| ->%list_elem_of_singleton]%elem_of_app]; [left; apply Hvm|auto|].
      destruct Hd' as [(cs & ? & ->)|?]; auto. }
    destruct Hs as [Hs|[g Hs]]; destruct (pub_state_crash _ _ _ _ Hs Hc) as (y & Hy & Ho); exists y; (split; [done|]);
      rewrite ?elem_of_cons in Hy; naive_solver.
  - by intros ->.
  - intros p ->. destruct Hres as (g & Hg & -> & Hcur & _ & Hsync).
    change (mf_Generation (prepareManifest next g)) with g. split; [done|]. split; [done|].
    split; [by apply nextManifestGeneration_spec|]. intros Hpo. destruct (Hsync Hpo) as [Hvm' _]. split; [done|].
    intros files Hc. destruct (vm_inv_crash _ _ _ _ Hvm' Hc) as (y & ->%list_elem_of_singleton & Ho). by rewrite Hcur in Ho.
Qed.
End publication.

Section creation.
Context `{Hjson : ManifestJSON} {Hlaws : ManifestJSONLaws}.

Lemma CreateVersionManager_spec ctx io initial d tr d' vm err cands :
  (forall g, 0 < g <= u64_max -> mj_Encodable (prepareManifest initial g)) ->
  CreateVersionManager ctx io initial d = (tr, (d', (vm, err))) -> pub_state d None cands ->
  (forall dd, dd ∈ tr -> pub_state dd None cands \/
     exists g, pub_state dd (Some (manifest_normal (prepareManifest initial g))) (None :: cands)) /\
  match vm with
  | None => err <> None /\ pub_state d' None cands
  | Some vm => (exists g, vm_current vm = prepareManifest initial g) /\ vm_inv d' vm (None :: cands) /\
               (po_sync2 io = None -> vm_inv d' vm [])
  end.
Proof.
  intros Henc H Hs. unfold CreateVersionManager in H.
  set (P := fun dd : directory => pub_state dd None cands \/
     exists g, pub_state dd (Some (manifest_normal (prepareManifest initial g))) (None :: cands)).
  assert (Hnil : forall dd : directory, dd ∈ [] -> P dd) by (by intros ? ?%elem_of_nil).
  destruct (ctx_guard _ ctx); [by injection H as <- <- <- <-|].
  destruct (po_lock io); [by injection H as <- <- <- <-|].
  destruct (readCurrent _ _); [by injection H as <- <- <- <-|].
  case_in H; [by injection H as <- <- <- <-|].
  destruct (nextManifestGeneration (po_scan io) (ds_now d)) as [g|] eqn:Eg; [|by injection H as <- <- <- <-].
  assert (Eg' : nextManifestGeneration None (ds_now d) = Ok g) by (destruct (po_scan io); [done|exact Eg]).
  destruct (nextManifestGeneration_spec _ _ Eg') as (Hg & Hfresh & _).
  destruct (publishLocked _ _ _ _ _) as [tr1 [d1 [[name committed] err1]]] eqn:Ep.
  apply (publishLocked_spec _ _ _ None _ _ _ _ _ _ _ cands) in Ep as [Htr Hres]; [|done|done|done|done|apply Henc; exact Hg].
  assert (Htr' : forall dd, dd ∈ tr1 -> P dd) by (intros dd Hdd; destruct (Htr dd Hdd); [by left|right; by exists g]).
  destruct committed.
  - injection H as <- <- <- <-. split; [done|]. destruct Hres as (-> & Hs1 & Hsync). split; [by exists g|]. split; [done|].
    intros Hpo. destruct (Hsync Hpo) as [_ Hs2]. done.
  - destruct Hres as [He Hs1]. destruct err1 as [e1|]; [|done]. by injection H as <- <- <- <-.
Qed.

(** Creation is atomic.  In a directory without [CURRENT], a crash while the
    version manager is created leaves either no collection at all or the whole
    initial manifest; an error without a manager means there is none, and a
    manager whose directory was synchronized survives every crash.  A directory
    that already has a manifest is refused and left as it is. *)
Theorem create_crash_atomic ctx io initial d tr d' vm err :
  (forall g, 0 < g <= u64_max -> mj_Encodable (prepareManifest initial g)) ->
  CreateVersionManager ctx io initial d = (tr, (d', (vm, err))) ->
  (forall cands, pub_state d None cands ->
    (forall dd files, dd ∈ tr -> ds_crash dd files -> exists y, opens files y /\
       (y = None \/ y ∈ cands \/ exists g, y = Some (manifest_normal (prepareManifest initial g)))) /\
    match vm with
    | None => err <> None /\ pub_state d' None cands
    | Some vm => vm_inv d' vm (None :: cands) /\ (po_sync2 io = None -> vm_inv d' vm [])
    end) /\
  (forall x cands, pub_state d (Some x) cands -> published (ds_now d) x -> po_current io = None ->
    tr = [] /\ d' = d /\ vm = None /\ err <> None).
Proof.
  intros Henc H. split.
  - intros cands Hs. destruct (CreateVersionManager_spec _ _ _ _ _ _ _ _ cands Henc H Hs) as [Htr Hres].
    split; [|destruct vm; tauto]. intros dd files Hdd Hc. destruct (Htr dd Hdd) as [Hp|[g Hp]];
      destruct (pub_state_crash _ _ _ _ Hp Hc) as (y & Hy & Ho); exists y; (split; [done|]);
      rewrite ?elem_of_cons in Hy; naive_solver.
  - unfold CreateVersionManager in H. intros x cands Hs Hp Hpo. destruct (ps_now _ _ _ Hs) as (pointer & Hptr & Hcur).
    destruct (ctx_guard _ ctx); [by injection H as <- <- <- <-|].
    destruct (po_lock io); [by injection H as <- <- <- <-|].
    rewrite Hpo in H. unfold readCurrent in H. rewrite Hcur, (parseCurrent_marshalled _ _ Hptr) in H.
    by injection H as <- <- <- <-.
Qed.

(** An update is optimistic.  It fails without touching memory or disk when
    its mutation fails, or when another publication moved the manager past the
    generation it started from; otherwise it publishes the mutated manifest. *)
Theorem update_optimistic ctx io mutate base vm d :
  ctx_guard "db: nil update context" ctx = None ->
  match mutate base with
  | Fail e => Update ctx io mutate base vm d = ([], (d, (vm, None, Some e)))
  | Ok next =>
      if mf_Generation (vm_current vm) =? mf_Generation base
      then Update ctx io mutate base vm d = Publish ctx io next vm d
      else exists e, Update ctx io mutate base vm d = ([], (d, (vm, None, Some e))) /\
                     errors_Is e ErrManifestConflict = true
  end.
Proof.
  intros Hctx. destruct ctx; try done. unfold Update, Publish. cbn [ctx_guard ctx_Err].
  destruct (mutate base) as [next|e]; [|done].
  destruct (mf_Generation (vm_current vm) =? mf_Generation base); cbn [negb]; [done|]. by eexists.
Qed.

End creation.


(** ** Concrete publications *)
Section installed.
Context `{Hjson : ManifestJSON} {Hlaws : ManifestJSONLaws}.

(** The synchronized directory that holds just [CURRENT] and the manifest of [m]. *)
Definition installed (m : Manifest) : directory :=
  let name := manifestFileName (mf_Generation m) in
  match MarshalManifest m, marshalCurrent name with
  | Ok encoded, Ok pointer =>
      let files := <[currentFileName := pointer]> {[name := encoded]} in
      {| ds_durable := files; ds_now := files; ds_torn := ∅ |}
  | _, _ => {| ds_durable := ∅; ds_now := ∅; ds_torn := ∅ |}
  end.
Definition manager (m : Manifest) : VersionManager :=
  {| vm_current := m; vm_currentName := manifestFileName (mf_Generation m) |}.

Lemma installed_inv m encoded :
  MarshalManifest m = Ok encoded -> mj_Encodable m -> 0 < mf_Generation m <= u64_max ->
  vm_inv (installed m) (manager m) [].
Proof.
  intros Hm He Hg. split; [done|]. unfold installed. rewrite Hm.
  destruct (marshalCurrent (manifestFileName (mf_Generation m))) as [pointer|e] eqn:Ep.
  2:{ exfalso. unfold marshalCurrent in Ep. by rewrite (proj2 (parseManifestFileName_exact _ (mf_Generation m))) in Ep. }
  set (files := <[currentFileName := pointer]> _).
  assert (points files (Some (manifest_normal m))) as Hp.
  { exists pointer. split; [done|]. apply lookup_insert_eq. }
  split; cbn [ds_torn ds_now ds_durable]; [by apply not_elem_of_empty|done|eexists; split; [by left|done]|].
  intros k [= ->]%list_elem_of_singleton. change (mf_Generation (manifest_normal m)) with (mf_Generation m).
  assert (published files (manifest_normal m)); [|split; [done|]; by split; [apply not_elem_of_empty|]].
  exists encoded. split; [|apply UnmarshalManifest_marshalled; [done|unfold is_u64; lia|done]].
  unfold files. rewrite lookup_insert_ne; [apply lookup_singleton_eq|].
  intros Hc. symmetry in Hc. by apply manifest_not_current in Hc.
Qed.

Lemma pub_state_empty : pub_state {| ds_durable := ∅; ds_now := ∅; ds_torn := ∅ |} None [].
Proof.
  split; cbn; [by apply not_elem_of_empty|by apply lookup_empty| |].
  - exists None. split; [by left|by apply lookup_empty].
  - by intros m Hm%list_elem_of_singleton.
Qed.
End installed.

Definition ex_file_io : file_io :=
  {| fi_create := None; fi_writes := [(7%nat, None)]; fi_sync := None; fi_close := None; fi_removed := true |}.
Definition ex_io : publish_io :=
  {| po_lock := None; po_current := None; po_scan := None; po_manifest := ex_file_io; po_sync1 := None;
     po_tempName := "42"; po_temp := ex_file_io; po_install := None; po_tempRemoved := true; po_sync2 := None;
     po_unlock := None |}.

Lemma encodable_prepare m g :
  manifest_encodable m -> 0 < g <= u64_max -> manifest_encodable (prepareManifest m g).
Proof.
  intros [E1 E2 E3 E4 E5 E6 E7 E8 E9 E10] Hg. split; try done.
  - cbn [prepareManifest mf_FormatVersion]. by destruct (mf_FormatVersion m =? 0).
  - cbn [prepareManifest mf_Generation]. unfold is_u64. lia.
Qed.

Lemma ex_generation : 0 < mf_Generation ex_manifest_spaced <= u64_max.
Proof. by vm_compute. Qed.

#[local] Instance ex_json : ManifestJSON := go_json no_repeats.
#[local] Instance ex_laws : @ManifestJSONLaws ex_json := go_json_laws no_repeats.

Definition ex_directory : directory := installed ex_manifest_spaced.
Definition ex_published := Publish CtxLive ex_io ex_manifest_spaced (manager ex_manifest_spaced) ex_directory.

Lemma publish_crash_atomic_witness :
  match ex_published with
  | (_, (d', (_, Some p, None))) =>
      mf_Generation p = 3 /\ forall files, ds_crash d' files -> opens files (Some (manifest_normal p))
  | _ => False
  end.
Proof.
  assert (match ex_published with (_, (_, (_, Some p, None))) => mf_Generation p =? 3 | _ => false end = true) as Hok
    by (vm_compute; reflexivity).
  destruct ex_published as [tr [d' [[vm' res] err]]] eqn:E. unfold ex_published in E. destruct res as [p|]; [|discriminate].
  destruct err; [discriminate|]. split; [lia|].
  assert (exists encoded, MarshalManifest ex_manifest_spaced = Ok encoded) as [encoded Hm].
  { assert (is_ok (MarshalManifest ex_manifest_spaced) = true) as H by (vm_compute; reflexivity).
    destruct (MarshalManifest ex_manifest_spaced); [by eexists|discriminate]. }
  refine (proj2 (proj2 (proj2 (proj2 (proj2 (proj2 (publish_crash_atomic (Hjson := ex_json) (Hlaws := ex_laws)
    CtxLive ex_io ex_manifest_spaced _ ex_directory tr d' vm' _ None [] _ _ E)) p eq_refl))) eq_refl)).
  - exact (installed_inv (Hjson := ex_json) (Hlaws := ex_laws) _ encoded Hm ex_manifest_encodable ex_generation).
  - intros g Hg. apply (encodable_prepare _ g ex_manifest_encodable Hg).
Defined.

Definition ex_created := CreateVersionManager CtxLive ex_io ex_manifest_spaced {| ds_durable := ∅; ds_now := ∅; ds_torn := ∅ |}.
Lemma create_crash_atomic_witness :
  match ex_created with
  | (_, (d', (Some vm, None))) => mf_Generation (vm_current vm) = 1 /\ vm_inv d' vm []
  | _ => False
  end.
Proof.
  assert (match ex_created with (_, (_, (Some vm, None))) => mf_Generation (vm_current vm) =? 1 | _ => false end = true) as Hok
    by (vm_compute; reflexivity).
  destruct ex_created as [tr [d' [[vm|] err]]] eqn:E; [|discriminate]. unfold ex_created in E. destruct err; [discriminate|]. split; [lia|].
  refine (proj2 (proj2 (proj1 (create_crash_atomic (Hjson := ex_json) (Hlaws := ex_laws) CtxLive ex_io ex_manifest_spaced
    _ tr d' _ None _ E) [] pub_state_empty)) eq_refl).
  intros g Hg. apply (encodable_prepare _ g ex_manifest_encodable Hg).
Defined.

Lemma update_optimistic_witness :
  Update CtxLive ex_io (fun m => Ok m) ex_manifest_spaced (manager ex_manifest_spaced) ex_directory = ex_published.
Proof. exact (update_optimistic CtxLive ex_io (fun m => Ok m) ex_manifest_spaced (manager ex_manifest_spaced) ex_directory eq_refl). Defined.
