(* ===== verification/Segment.v ===== *)
(** * Segments: [internal/db/index/segment/segment.go]

    A [WriteSegment] accepts documents with consecutive IDs; an
    [ImmutableSegment] is a verified read-only snapshot of one.  The file codec
    is modelled to the byte, in the buffered form [encodeSegment] and in the
    streaming form that writes the files. *)
From S2P Require Import Prelude Bytes Crc32c Utf8 KeyStore IdMap Paths Manifest.
#[local] Open Scope Z_scope.

Definition segmentCodecVersion : Z := 1.
Definition segmentHeaderSize : Z := 64.
Definition segmentRecordHeaderSize : Z := 24.
Definition MaxDocumentPayloadSize : Z := 67108864.
Definition maxSegmentPayloadSize : Z := 4294967296.
Definition segmentMagic : bytes := byte_of_Z <$> [90; 86; 69; 67; 83; 69; 71; 0].

Definition ErrSegmentCorrupt : gerror := errors_New "db: corrupt segment".
Definition ErrSegmentSealed : gerror := errors_New "db: write segment is sealed".
Definition ErrSegmentFull : gerror := errors_New "db: write segment is full".
Definition ErrSegmentNotFound : gerror := errors_New "db: segment not found".
Definition segment_corrupt (detail : string) : gerror := GErr detail [ErrSegmentCorrupt].

Record StoredDocument := {
  DocID : Z;
  PrimaryKey : bytes;
  doc_Payload : bytes
}.

#[export] Instance StoredDocument_eq_dec : EqDecision StoredDocument.
Proof. solve_decision. Defined.

(** ** Memory accounting *)
Definition storedDocumentMemoryBytes (document : StoredDocument) : Z :=
  segmentRecordHeaderSize + zlen (PrimaryKey document) + zlen (doc_Payload document).

Definition saturatingAdd (left right : Z) : Z :=
  if u64_max - left <? right then u64_max else wrap64 (left + right).

(** The loop of [storedDocumentsMemoryBytes]. *)
Fixpoint stored_memory_loop (documents : list StoredDocument) (total : Z) : Z :=
  match documents with
  | [] => total
  | document :: documents =>
      let size := storedDocumentMemoryBytes document in
      if u64_max - total <? size then u64_max
      else stored_memory_loop documents (wrap64 (total + size))
  end.
Definition storedDocumentsMemoryBytes (documents : list StoredDocument) : Z :=
  stored_memory_loop documents 0.

(** ** Write segments *)
Record WriteSegment := {
  ws_id : Z;
  ws_minDocID : Z;
  ws_maxDocs : Z;
  ws_docs : list StoredDocument;
  ws_sealed : bool;
  ws_memoryBytes : Z
}.

Definition NewWriteSegment (id minDocID maxDocs : Z) : result WriteSegment :=
  if maxDocs =? 0 then Fail (errors_New "db: write segment capacity must be positive")
  else if u64_max - minDocID <? maxDocs - 1
  then Fail (errors_New "db: write segment document ID range overflows")
  else Ok {| ws_id := id; ws_minDocID := minDocID; ws_maxDocs := maxDocs; ws_docs := [];
             ws_sealed := false; ws_memoryBytes := 0 |}.

Definition ReservedRange (s : WriteSegment) : Z * Z :=
  (ws_minDocID s, wrap64 (ws_minDocID s + ws_maxDocs s - 1)).

Definition NextDocumentID (s : WriteSegment) : result Z :=
  if ws_sealed s then Fail ErrSegmentSealed
  else if ws_maxDocs s <=? zlen (ws_docs s) then Fail ErrSegmentFull
  else Ok (wrap64 (ws_minDocID s + zlen (ws_docs s))).

(** [append]: the shared path of [Append], [AppendExpected] and [ApplyExpected]. *)
Definition ws_append (ctx : context) (expectedDocID : option Z) (primaryKey payload : bytes)
    (s : WriteSegment) : WriteSegment * result StoredDocument :=
  match ctx_guard "db: nil segment append context" ctx with
  | Some e => (s, Fail e)
  | None =>
  match ValidatePrimaryKey primaryKey with
  | Fail e => (s, Fail e)
  | Ok _ =>
  if MaxDocumentPayloadSize <? zlen payload then (s, Fail (errors_New "db: document payload is too large"))
  else if ws_sealed s then (s, Fail ErrSegmentSealed)
  else if ws_maxDocs s <=? zlen (ws_docs s) then (s, Fail ErrSegmentFull)
  else
    let nextDocID := wrap64 (ws_minDocID s + zlen (ws_docs s)) in
    if match expectedDocID with Some e => negb (e =? nextDocID) | None => false end
    then (s, Fail (errors_New "db: next document ID differs from the expected one"))
    else
      let doc := {| DocID := nextDocID; PrimaryKey := primaryKey; doc_Payload := payload |} in
      ({| ws_id := ws_id s; ws_minDocID := ws_minDocID s; ws_maxDocs := ws_maxDocs s;
          ws_docs := ws_docs s ++ [doc]; ws_sealed := ws_sealed s;
          ws_memoryBytes := saturatingAdd (ws_memoryBytes s) (storedDocumentMemoryBytes doc) |}, Ok doc)
  end end.

Definition ws_Append ctx primaryKey payload s := ws_append ctx None primaryKey payload s.
Definition AppendExpected ctx expectedDocID primaryKey payload s :=
  ws_append ctx (Some expectedDocID) primaryKey payload s.
Definition ApplyExpected ctx expectedDocID primaryKey payload s : WriteSegment * option gerror :=
  match ws_append ctx (Some expectedDocID) primaryKey payload s with
  | (s, Ok _) => (s, None)
  | (s, Fail e) => (s, Some e)
  end.

(** [Document]: the subtraction is safe because the first test comes first. *)
Definition ws_Document (s : WriteSegment) (docID : Z) : option StoredDocument :=
  if (docID <? ws_minDocID s) || (zlen (ws_docs s) <=? docID - ws_minDocID s) then None
  else ws_docs s !! Z.to_nat (docID - ws_minDocID s).

Definition segmentMetadata (id : Z) (docs : list StoredDocument) (files : list string) : SegmentMetadata :=
  {| sm_ID := id;
     sm_MinDocID := match docs with [] => 0 | d :: _ => DocID d end;
     sm_MaxDocID := match last docs with None => 0 | Some d => DocID d end;
     sm_DocCount := zlen docs; sm_Files := files |}.

Definition ws_Metadata (s : WriteSegment) : SegmentMetadata := segmentMetadata (ws_id s) (ws_docs s) [].

(** ** The file codec *)
Definition validateStoredDocument (doc : StoredDocument) (expectedDocID : Z) : result unit :=
  if negb (DocID doc =? expectedDocID) then Fail (errors_New "db: document ID differs")
  else match ValidatePrimaryKey (PrimaryKey doc) with
  | Fail e => Fail e
  | Ok _ =>
      if MaxDocumentPayloadSize <? zlen (doc_Payload doc)
      then Fail (errors_New "db: document payload is too large") else Ok tt
  end.

(** The loop of [segmentPayloadLength] over the documents from [index] on. *)
Fixpoint payload_length_loop (metadata : SegmentMetadata) (docs : list StoredDocument)
    (index payloadLength : Z) : result Z :=
  match docs with
  | [] => Ok payloadLength
  | doc :: docs =>
      match validateStoredDocument doc (wrap64 (sm_MinDocID metadata + index)) with
      | Fail e => Fail e
      | Ok _ =>
          let payloadLength := wrap64 (payloadLength + segmentRecordHeaderSize +
                                       zlen (PrimaryKey doc) + zlen (doc_Payload doc)) in
          if (maxSegmentPayloadSize <? payloadLength) || (int_max <? payloadLength)
          then Fail (errors_New "db: segment payload is too large")
          else payload_length_loop metadata docs (index + 1) payloadLength
      end
  end.

Definition segmentPayloadLength (metadata : SegmentMetadata) (docs : list StoredDocument) : result Z :=
  if (zlen docs =? 0) || negb (sm_DocCount metadata =? zlen docs)
  then Fail (errors_New "db: invalid segment document count")
  else payload_length_loop metadata docs 0 0.

Definition encodeSegmentRecordHeader (doc : StoredDocument) : bytes :=
  let header := make_bytes 24 in
  let header := splice 0 (le_put 8 (DocID doc)) header in
  let header := splice 8 (le_put 4 (wrap32 (zlen (PrimaryKey doc)))) header in
  let header := splice 12 (le_put 4 (wrap32 (zlen (doc_Payload doc)))) header in
  let crc := CRC32C (PrimaryKey doc) in
  let crc := UpdateCRC32C crc (doc_Payload doc) in
  splice 16 (le_put 4 crc) header.

Definition encodeSegmentHeader (metadata : SegmentMetadata) (payloadLength payloadCRC : Z) : bytes :=
  let header := make_bytes 64 in
  let header := splice 0 segmentMagic header in
  let header := splice 8 (le_put 2 segmentCodecVersion) header in
  let header := splice 10 (le_put 2 segmentHeaderSize) header in
  let header := splice 16 (le_put 8 (sm_ID metadata)) header in
  let header := splice 24 (le_put 8 (sm_MinDocID metadata)) header in
  let header := splice 32 (le_put 8 (sm_MaxDocID metadata)) header in
  let header := splice 40 (le_put 8 (sm_DocCount metadata)) header in
  let header := splice 48 (le_put 8 payloadLength) header in
  let header := splice 56 (le_put 4 payloadCRC) header in
  splice 60 (le_put 4 (CRC32C (slice 0 60 header))) header.

(** The loop of [encodeSegment] that appends the records. *)
Fixpoint append_records (docs : list StoredDocument) (payload : bytes) : bytes :=
  match docs with
  | [] => payload
  | doc :: docs =>
      let payload := payload ++ encodeSegmentRecordHeader doc in
      let payload := payload ++ PrimaryKey doc in
      append_records docs (payload ++ doc_Payload doc)
  end.

Definition encodeSegment (metadata : SegmentMetadata) (docs : list StoredDocument) : result bytes :=
  match segmentPayloadLength metadata docs with
  | Fail e => Fail e
  | Ok _ =>
      let payload := append_records docs [] in
      Ok (encodeSegmentHeader metadata (zlen payload) (CRC32C payload) ++ payload)
  end.

(** [writeSegmentSnapshot] of a file that accepts every write: a placeholder
    header, the records with a running checksum (the context is polled every
    256 documents), then the header written over the placeholder. *)
Fixpoint stream_parts (parts : list bytes) (file : bytes) (payloadCRC : Z) : bytes * Z :=
  match parts with
  | [] => (file, payloadCRC)
  | part :: parts => stream_parts parts (file ++ part) (UpdateCRC32C payloadCRC part)
  end.

Fixpoint stream_records (ctx : context) (docs : list StoredDocument) (index : Z) (file : bytes)
    (payloadCRC : Z) : result (bytes * Z) :=
  match docs with
  | [] => Ok (file, payloadCRC)
  | doc :: docs =>
      match (if Z.land index 255 =? 0 then ctx_Err ctx else None) with
      | Some e => Fail e
      | None =>
          let '(file, payloadCRC) :=
            stream_parts [encodeSegmentRecordHeader doc; PrimaryKey doc; doc_Payload doc] file payloadCRC in
          stream_records ctx docs (index + 1) file payloadCRC
      end
  end.

Definition writeSegmentSnapshot (ctx : context) (metadata : SegmentMetadata) (docs : list StoredDocument)
    : result bytes :=
  match segmentPayloadLength metadata docs with
  | Fail e => Fail e
  | Ok payloadLength =>
  match stream_records ctx docs 0 (make_bytes 64) 0 with
  | Fail e => Fail e
  | Ok (file, payloadCRC) =>
  match ctx_Err ctx with
  | Some e => Fail e
  | None => Ok (splice 0 (encodeSegmentHeader metadata payloadLength payloadCRC) file)
  end end end.

(** One iteration of the decoding loop: the record at [offset] and the offset after it. *)
Definition decode_record (payload : bytes) (offset : nat) (expectedDocID : Z)
    : result (StoredDocument * nat) :=
  if zlen payload - Z.of_nat offset <? segmentRecordHeaderSize then Fail (segment_corrupt "truncated record")
  else
    let recordHeader := slice offset (offset + 24) payload in
    let docID := le_get (slice 0 8 recordHeader) in
    let keyLength := le_get (slice 8 12 recordHeader) in
    let documentLength := le_get (slice 12 16 recordHeader) in
    let expectedCRC := le_get (slice 16 20 recordHeader) in
    if negb (le_get (slice 20 24 recordHeader) =? 0) then Fail (segment_corrupt "record reserved bytes")
    else
      let offset := (offset + 24)%nat in
      let remaining := zlen payload - Z.of_nat offset in
      if (keyLength =? 0) || (MaxPrimaryKeyBytes <? keyLength) || (MaxDocumentPayloadSize <? documentLength)
         || (remaining <? keyLength + documentLength)
      then Fail (segment_corrupt "invalid record lengths")
      else
        let key := slice offset (offset + Z.to_nat keyLength) payload in
        let offset := (offset + Z.to_nat keyLength)%nat in
        let documentPayload := slice offset (offset + Z.to_nat documentLength) payload in
        let offset := (offset + Z.to_nat documentLength)%nat in
        let crc := UpdateCRC32C (CRC32C key) documentPayload in
        if negb (crc =? expectedCRC) then Fail (segment_corrupt "record checksum")
        else
          let doc := {| DocID := docID; PrimaryKey := key; doc_Payload := documentPayload |} in
          match validateStoredDocument doc expectedDocID with
          | Fail e => Fail (segment_corrupt "record")
          | Ok _ => Ok (doc, offset)
          end.

(** The decoding loop; [todo] documents remain. *)
Fixpoint decode_records (ctx : context) (todo : nat) (payload : bytes) (minDocID index : Z) (offset : nat)
    (docs : list StoredDocument) : result (list StoredDocument) :=
  match todo with
  | O => if negb (Z.of_nat offset =? zlen payload) then Fail (segment_corrupt "trailing segment payload")
         else Ok docs
  | S todo =>
      match ctx_Err ctx with
      | Some e => Fail e
      | None =>
      match decode_record payload offset (wrap64 (minDocID + index)) with
      | Fail e => Fail e
      | Ok (doc, offset) => decode_records ctx todo payload minDocID (index + 1) offset (docs ++ [doc])
      end end
  end.

Definition decodeSegment (ctx : context) (encoded : bytes) : result (SegmentMetadata * list StoredDocument) :=
  if zlen encoded <? segmentHeaderSize then Fail (segment_corrupt "file is shorter than header")
  else
  let header := slice 0 64 encoded in
  if negb (bytes_eqb (slice 0 8 header) segmentMagic) then Fail (segment_corrupt "invalid magic")
  else if negb (le_get (slice 8 10 header) =? segmentCodecVersion)
  then Fail (errorf "segment version" ErrUnsupportedFormatVersion)
  else if negb (le_get (slice 10 12 header) =? segmentHeaderSize)
  then Fail (segment_corrupt "invalid header size")
  else if negb (le_get (slice 12 16 header) =? 0) then Fail (segment_corrupt "nonzero reserved bytes")
  else if negb (CRC32C (slice 0 60 header) =? le_get (slice 60 64 header))
  then Fail (segment_corrupt "header checksum")
  else let payloadLength := le_get (slice 48 56 header) in
  if (maxSegmentPayloadSize <? payloadLength) || negb (payloadLength =? zlen encoded - segmentHeaderSize)
  then Fail (segment_corrupt "invalid payload length")
  else let payload := drop 64 encoded in
  if negb (CRC32C payload =? le_get (slice 56 60 header)) then Fail (segment_corrupt "payload checksum")
  else
  let metadata := {| sm_ID := le_get (slice 16 24 header); sm_MinDocID := le_get (slice 24 32 header);
                     sm_MaxDocID := le_get (slice 32 40 header); sm_DocCount := le_get (slice 40 48 header);
                     sm_Files := [] |} in
  if (sm_DocCount metadata =? 0) || (int_max <? sm_DocCount metadata)
     || (zlen payload / (segmentRecordHeaderSize + 1) <? sm_DocCount metadata)
  then Fail (segment_corrupt "invalid document count")
  else if (sm_MaxDocID metadata <? sm_MinDocID metadata)
          || negb (sm_DocCount metadata - 1 =? sm_MaxDocID metadata - sm_MinDocID metadata)
  then Fail (segment_corrupt "non-contiguous document range")
  else match decode_records ctx (Z.to_nat (sm_DocCount metadata)) payload (sm_MinDocID metadata) 0 0 [] with
  | Fail e => Fail e
  | Ok docs => Ok (metadata, docs)
  end.

(** ** Immutable segments *)
Record ImmutableSegment := {
  im_mapped : bool;
  im_closed : bool;
  im_metadata : SegmentMetadata;
  im_docs : list StoredDocument;
  im_memoryBytes : Z
}.

Definition newImmutableSegment (metadata : SegmentMetadata) (docs : list StoredDocument) : ImmutableSegment :=
  {| im_mapped := false; im_closed := false; im_metadata := metadata; im_docs := docs;
     im_memoryBytes := storedDocumentsMemoryBytes docs |}.

Definition segmentMetadataEqual (left right : SegmentMetadata) : bool := bool_decide (left = right).

Definition sm_set_files (m : SegmentMetadata) (files : list string) : SegmentMetadata :=
  {| sm_ID := sm_ID m; sm_MinDocID := sm_MinDocID m; sm_MaxDocID := sm_MaxDocID m;
     sm_DocCount := sm_DocCount m; sm_Files := files |}.

(** [OpenImmutableSegmentWithMmap] of a file with the given content, or of a missing file. *)
Definition OpenImmutableSegment (ctx : context) (collectionDir : string) (metadata : SegmentMetadata)
    (file : option bytes) (open_err : gerror) (useMmap : bool) : result ImmutableSegment :=
  match ctx with
  | CtxNil => Fail (errors_New "db: nil segment open context")
  | _ =>
  if String.eqb collectionDir "" then Fail (errors_New "db: empty segment collection directory")
  else match ctx_Err ctx with
  | Some e => Fail e
  | None =>
  match ValidateSegment metadata with
  | Fail e => Fail (segment_corrupt "metadata")
  | Ok _ =>
  if bool_decide (sm_Files metadata = []) then Fail (segment_corrupt "segment has no data file")
  else match file with
  | None => Fail open_err
  | Some encoded =>
  if (zlen encoded <? segmentHeaderSize) || (int_max <? zlen encoded)
     || (maxSegmentPayloadSize <? zlen encoded - segmentHeaderSize)
  then Fail (segment_corrupt "invalid file size")
  else match decodeSegment ctx encoded with
  | Fail e => Fail e
  | Ok (decodedMetadata, docs) =>
      if negb (segmentMetadataEqual (sm_set_files decodedMetadata (sm_Files metadata)) metadata)
      then Fail (segment_corrupt "manifest metadata differs from data file")
      else Ok {| im_mapped := useMmap; im_closed := false; im_metadata := metadata; im_docs := docs;
                 im_memoryBytes := storedDocumentsMemoryBytes docs |}
  end end end end end.

Definition im_Document (s : ImmutableSegment) (docID : Z) : option StoredDocument :=
  if (docID <? sm_MinDocID (im_metadata s)) || (sm_MaxDocID (im_metadata s) <? docID) then None
  else
    match im_docs s !! Z.to_nat (docID - sm_MinDocID (im_metadata s)) with
    | Some d => if DocID d =? docID then Some d else None
    | None => None
    end.

(** [Close]; [unmap] is the outcome of unmapping the file. *)
Definition im_Close (unmap : option gerror) (s : ImmutableSegment) : ImmutableSegment * option gerror :=
  if im_closed s then (s, None)
  else match (if im_mapped s then unmap else None) with
  | Some e => (s, Some e)
  | None => ({| im_mapped := false; im_closed := true; im_metadata := im_metadata s; im_docs := [];
                im_memoryBytes := im_memoryBytes s |}, None)
  end.

(** [writeImmutable]: the shared path of [Seal], [Snapshot] and
    [SnapshotWithMmap].  The file published is part of the result. *)
Definition writeImmutable (ctx : context) (collectionDir relativeName : string) (seal useMmap : bool)
    (s : WriteSegment) : WriteSegment * result (ImmutableSegment * bytes) :=
  match ctx with
  | CtxNil => (s, Fail (errors_New "db: nil segment seal context"))
  | _ =>
  if String.eqb collectionDir "" then (s, Fail (errors_New "db: empty segment collection directory"))
  else match ValidatePortableRelativePath relativeName with
  | Fail e => (s, Fail e)
  | Ok _ =>
  match ctx_Err ctx with
  | Some e => (s, Fail e)
  | None =>
  if ws_sealed s then (s, Fail ErrSegmentSealed)
  else if bool_decide (ws_docs s = []) then (s, Fail (errors_New "db: cannot seal an empty segment"))
  else
    let metadata := segmentMetadata (ws_id s) (ws_docs s) [relativeName] in
    match writeSegmentSnapshot ctx metadata (ws_docs s) with
    | Fail e => (s, Fail e)
    | Ok file =>
        let s' := if seal
                  then {| ws_id := ws_id s; ws_minDocID := ws_minDocID s; ws_maxDocs := ws_maxDocs s;
                          ws_docs := ws_docs s; ws_sealed := true; ws_memoryBytes := ws_memoryBytes s |}
                  else s in
        if useMmap then
          match OpenImmutableSegment ctx collectionDir metadata (Some file) (errors_New "open") true with
          | Fail e => (s', Fail e)
          | Ok im => (s', Ok (im, file))
          end
        else (s', Ok (newImmutableSegment metadata (ws_docs s), file))
    end
  end end end.

Definition Seal ctx dir name s := writeImmutable ctx dir name true false s.
Definition ws_Snapshot ctx dir name s := writeImmutable ctx dir name false false s.
Definition SnapshotWithMmap ctx dir name useMmap s := writeImmutable ctx dir name false useMmap s.

(** ** Layout *)
Definition record_crc (doc : StoredDocument) : Z := UpdateCRC32C (CRC32C (PrimaryKey doc)) (doc_Payload doc).
Definition record_header (doc : StoredDocument) : bytes :=
  le_put 8 (DocID doc) ++ le_put 4 (wrap32 (zlen (PrimaryKey doc))) ++
  le_put 4 (wrap32 (zlen (doc_Payload doc))) ++ le_put 4 (record_crc doc) ++ make_bytes 4.
Definition record_bytes (doc : StoredDocument) : bytes := record_header doc ++ PrimaryKey doc ++ doc_Payload doc.
Definition records_bytes (docs : list StoredDocument) : bytes := mjoin (record_bytes <$> docs).
Arguments record_bytes : simpl never.
Arguments records_bytes : simpl never.

Lemma encodeSegmentRecordHeader_layout doc : encodeSegmentRecordHeader doc = record_header doc.
Proof. reflexivity. Qed.

Lemma length_record_header doc : length (record_header doc) = 24%nat.
Proof. reflexivity. Qed.

Lemma records_bytes_cons d ds : records_bytes (d :: ds) = record_bytes d ++ records_bytes ds.
Proof. done. Qed.

Lemma zlen_record_bytes d : zlen (record_bytes d) = storedDocumentMemoryBytes d.
Proof. unfold record_bytes. rewrite !zlen_app. change (zlen (record_header d)) with 24.
  unfold storedDocumentMemoryBytes, segmentRecordHeaderSize. lia. Qed.

Lemma append_records_layout docs p : append_records docs p = p ++ records_bytes docs.
Proof.
  revert p. induction docs as [|d docs IH]; intros p; cbn [append_records].
  - by rewrite app_nil_r.
  - rewrite IH, encodeSegmentRecordHeader_layout, records_bytes_cons. unfold record_bytes. by rewrite <- !app_assoc.
Qed.

(** Documents with consecutive IDs from [n] on, each of them valid. *)
Fixpoint docs_ok (n : Z) (docs : list StoredDocument) : Prop :=
  match docs with
  | [] => True
  | d :: docs => DocID d = n /\ valid_key (PrimaryKey d) /\ zlen (doc_Payload d) <= MaxDocumentPayloadSize /\
                 docs_ok (n + 1) docs
  end.

Lemma docs_ok_app n a b : docs_ok n (a ++ b) <-> docs_ok n a /\ docs_ok (n + zlen a) b.
Proof.
  revert n. induction a as [|d a IH]; intros n; cbn [docs_ok app].
  { rewrite zlen_nil, Z.add_0_r. tauto. }
  rewrite IH, zlen_cons. replace (n + 1 + zlen a) with (n + (zlen a + 1)) by lia. tauto.
Qed.

Lemma docs_ok_lookup n docs i d : docs_ok n docs -> docs !! i = Some d -> DocID d = n + Z.of_nat i.
Proof.
  revert n i. induction docs as [|e docs IH]; intros n i Hok Hi; [done|]. destruct Hok as (Hd & _ & _ & Hok).
  destruct i as [|i]; simpl in Hi; [simplify_eq; lia|]. apply (IH _ _ Hok) in Hi. lia.
Qed.

Lemma valid_key_length k : valid_key k -> 0 < zlen k <= MaxPrimaryKeyBytes.
Proof.
  unfold valid_key, ValidatePrimaryKey. intros H. pose proof (zlen_nonneg k).
  repeat (case_in H; [discriminate H|]). to_prop. lia.
Qed.

Lemma validateStoredDocument_Ok d n :
  validateStoredDocument d n = Ok tt <->
  DocID d = n /\ valid_key (PrimaryKey d) /\ zlen (doc_Payload d) <= MaxDocumentPayloadSize.
Proof.
  unfold validateStoredDocument, valid_key.
  destruct (DocID d =? n) eqn:E1; to_prop; cbn [negb]; [|naive_solver].
  destruct (ValidatePrimaryKey (PrimaryKey d)) as [[]|] eqn:E2; [|naive_solver].
  destruct (MaxDocumentPayloadSize <? zlen (doc_Payload d)) eqn:E3; to_prop; [|naive_solver].
  split; [done|]. intros (_ & _ & ?). lia.
Qed.

Lemma validateStoredDocument_cases d n :
  validateStoredDocument d n = Ok tt \/ exists e, validateStoredDocument d n = Fail e.
Proof. destruct (validateStoredDocument d n) as [[]|]; eauto. Qed.

(** The checked sum of the record sizes. *)
Lemma payload_length_loop_spec md docs index total n :
  sm_MinDocID md + index + zlen docs <= u64_max + 1 -> 0 <= sm_MinDocID md -> 0 <= index ->
  0 <= total <= maxSegmentPayloadSize ->
  payload_length_loop md docs index total = Ok n <->
  docs_ok (sm_MinDocID md + index) docs /\ n = total + zlen (records_bytes docs) /\ n <= maxSegmentPayloadSize.
Proof.
  unfold u64_max. revert index total. induction docs as [|d docs IH]; intros index total Hid Hm Hi Ht; cbn [payload_length_loop docs_ok].
  { change (records_bytes []) with (@nil byte). rewrite zlen_nil. split; [intros [= <-]; lia|].
    intros (_ & -> & _). f_equal. lia. }
  rewrite zlen_cons in Hid. pose proof (zlen_nonneg docs).
  assert (wrap64 (sm_MinDocID md + index) = sm_MinDocID md + index) as ->
    by (apply wrap64_id; unfold is_u64, u64_max; lia).
  rewrite records_bytes_cons, zlen_app, zlen_record_bytes.
  pose proof (zlen_nonneg (records_bytes docs)).
  destruct (validateStoredDocument_cases d (sm_MinDocID md + index)) as [Hv|[e Hv]]; rewrite Hv.
  2:{ split; [done|]. intros ((? & ? & ? & _) & _).
      rewrite (proj2 (validateStoredDocument_Ok d _)) in Hv; [done|tauto]. }
  apply validateStoredDocument_Ok in Hv as (H1 & H2 & H3). pose proof (valid_key_length _ H2).
  pose proof (zlen_nonneg (doc_Payload d)). unfold MaxDocumentPayloadSize, MaxPrimaryKeyBytes in *.
  assert (wrap64 (total + segmentRecordHeaderSize + zlen (PrimaryKey d) + zlen (doc_Payload d)) =
    total + storedDocumentMemoryBytes d) as ->.
  { unfold storedDocumentMemoryBytes, segmentRecordHeaderSize, maxSegmentPayloadSize in *.
    rewrite wrap64_id; unfold is_u64, u64_max; lia. }
  assert (0 <= storedDocumentMemoryBytes d) by (unfold storedDocumentMemoryBytes, segmentRecordHeaderSize; lia).
  destruct (maxSegmentPayloadSize <? total + storedDocumentMemoryBytes d) eqn:E; to_prop.
  { cbn [orb]. split; [done|]. intros (_ & -> & ?). lia. }
  destruct (int_max <? total + storedDocumentMemoryBytes d) eqn:E2; to_prop.
  { unfold int_max, maxSegmentPayloadSize in *. lia. }
  cbn [orb]. rewrite IH by lia.
  replace (sm_MinDocID md + index + 1) with (sm_MinDocID md + (index + 1)) by lia.
  split; intros [Hok [-> Hle]].
  - split; [tauto|]. lia.
  - split; [tauto|]. lia.
Qed.

(** ** Decoding one record *)
Lemma decode_record_ok pre d post :
  is_u64 (DocID d) -> valid_key (PrimaryKey d) -> zlen (doc_Payload d) <= MaxDocumentPayloadSize ->
  decode_record (pre ++ record_bytes d ++ post) (length pre) (DocID d) =
  Ok (d, (length pre + length (record_bytes d))%nat).
Proof.
  intros Hu Hk Hp. pose proof (valid_key_length _ Hk) as Hkl. unfold decode_record.
  pose proof (zlen_nonneg (doc_Payload d)) as Hp0. unfold MaxPrimaryKeyBytes, MaxDocumentPayloadSize in *.
  assert (wrap32 (zlen (PrimaryKey d)) = zlen (PrimaryKey d)) as Hw1 by (unfold wrap32; apply Z.mod_small; lia).
  assert (wrap32 (zlen (doc_Payload d)) = zlen (doc_Payload d)) as Hw2 by (unfold wrap32; apply Z.mod_small; lia).
  rewrite !zlen_app, zlen_record_bytes. unfold storedDocumentMemoryBytes, segmentRecordHeaderSize.
  pose proof (zlen_nonneg post) as Hpost.
  assert (Z.of_nat (length pre) = zlen pre) as Hpre by done.
  case_if; [to_prop; lia|]. clear E.
  assert (slice (length pre) (length pre + 24) (pre ++ record_bytes d ++ post) = record_header d) as ->.
  { unfold record_bytes. rewrite <- app_assoc. apply slice_field; [done|]. rewrite length_record_header. lia. }
  change (slice 0 8 (record_header d)) with (le_put 8 (DocID d)).
  change (slice 8 12 (record_header d)) with (le_put 4 (wrap32 (zlen (PrimaryKey d)))).
  change (slice 12 16 (record_header d)) with (le_put 4 (wrap32 (zlen (doc_Payload d)))).
  change (slice 16 20 (record_header d)) with (le_put 4 (record_crc d)).
  change (slice 20 24 (record_header d)) with (make_bytes 4).
  change (le_get (make_bytes 4)) with 0. rewrite Hw1, Hw2.
  rewrite le_get_put8 by done. rewrite !le_get_put4; [|apply UpdateCRC32C_range, CRC32C_range| |];
    [|unfold is_u32, u32_max; lia..].
  cbn [negb Z.eqb]. unfold MaxPrimaryKeyBytes, MaxDocumentPayloadSize.
  destruct (zlen (PrimaryKey d) =? 0) eqn:E1; [to_prop; lia|].
  destruct (65536 <? zlen (PrimaryKey d)) eqn:E2; [to_prop; lia|].
  destruct (67108864 <? zlen (doc_Payload d)) eqn:E3; [to_prop; lia|].
  match goal with |- context [?a <? zlen (PrimaryKey d) + zlen (doc_Payload d)] =>
    destruct (a <? zlen (PrimaryKey d) + zlen (doc_Payload d)) eqn:E4; [to_prop; lia|] end.
  cbn [orb]. rewrite !zlen_to_nat.
  assert (pre ++ record_bytes d ++ post = (pre ++ record_header d) ++ PrimaryKey d ++ (doc_Payload d ++ post)) as Hl.
  { unfold record_bytes. by rewrite <- !app_assoc. }
  assert (slice (length pre + 24) (length pre + 24 + length (PrimaryKey d)) (pre ++ record_bytes d ++ post) = PrimaryKey d) as ->.
  { rewrite Hl. apply slice_field; [by rewrite length_app|lia]. }
  assert (slice (length pre + 24 + length (PrimaryKey d))
    (length pre + 24 + length (PrimaryKey d) + length (doc_Payload d)) (pre ++ record_bytes d ++ post) = doc_Payload d) as ->.
  { rewrite Hl, (app_assoc (pre ++ record_header d)). apply slice_field; [by rewrite !length_app|lia]. }
  change (UpdateCRC32C (CRC32C (PrimaryKey d)) (doc_Payload d)) with (record_crc d). rewrite Z.eqb_refl. cbn [negb].
  assert ({| DocID := DocID d; PrimaryKey := PrimaryKey d; doc_Payload := doc_Payload d |} = d) as -> by by destruct d.
  rewrite (proj2 (validateStoredDocument_Ok d (DocID d))) by done. do 2 f_equal.
  unfold record_bytes. rewrite !length_app, length_record_header. lia.
Qed.

Lemma le_get_u32 bs : length bs = 4%nat -> 0 <= le_get bs < 4294967296.
Proof. intros H. pose proof (le_get_bound bs) as Hb. unfold zlen in Hb. rewrite H in Hb. simpl in Hb. lia. Qed.

Lemma decode_record_inv payload offset n d offset' :
  (offset <= length payload)%nat -> decode_record payload offset n = Ok (d, offset') ->
  (offset' <= length payload)%nat /\ (offset < offset')%nat /\
  drop offset payload = record_bytes d ++ drop offset' payload /\
  DocID d = n /\ valid_key (PrimaryKey d) /\ zlen (doc_Payload d) <= MaxDocumentPayloadSize.
Proof.
  intros Hoff H. unfold decode_record in H. case_in H; [done|].
  set (rh := slice offset (offset + 24) payload) in *.
  assert (offset + 24 <= length payload)%nat as Hrem by (to_prop; unfold zlen, segmentRecordHeaderSize in *; lia).
  assert (length rh = 24%nat) as Hrh by (unfold rh; rewrite length_slice by lia; lia).
  case_in H; [done|]. case_in H; [done|].
  set (kl := Z.to_nat (le_get (slice 8 12 rh))) in *. set (pl := Z.to_nat (le_get (slice 12 16 rh))) in *.
  set (key := slice (offset + 24) (offset + 24 + kl) payload) in *.
  set (pay := slice (offset + 24 + kl) (offset + 24 + kl + pl) payload) in *.
  case_in H; [done|].
  destruct (validateStoredDocument_cases {| DocID := le_get (slice 0 8 rh); PrimaryKey := key; doc_Payload := pay |} n)
    as [Hv|[e Hv]]; rewrite Hv in H; [|done]. injection H as <- <-.
  apply validateStoredDocument_Ok in Hv as (Hid & Hk & Hp). cbn [DocID PrimaryKey doc_Payload] in *.
  to_prop. pose proof (le_get_u32 (slice 8 12 rh)) as B1. pose proof (le_get_u32 (slice 12 16 rh)) as B2.
  rewrite length_slice in B1 by lia. rewrite length_slice in B2 by lia.
  specialize (B1 eq_refl). specialize (B2 eq_refl).
  assert (offset + 24 + kl + pl <= length payload)%nat as Hall by (unfold zlen in *; lia).
  split; [done|]. split; [lia|]. split; [|done].
  assert (zlen key = le_get (slice 8 12 rh)) as Hzk by (unfold key, zlen; rewrite length_slice by lia; lia).
  assert (zlen pay = le_get (slice 12 16 rh)) as Hzp by (unfold pay, zlen; rewrite length_slice by lia; lia).
  assert (rh = record_header {| DocID := le_get (slice 0 8 rh); PrimaryKey := key; doc_Payload := pay |}) as Hh.
  { unfold record_header. cbn [DocID PrimaryKey doc_Payload].
    rewrite <- (slice_full rh) at 1. rewrite Hrh.
    rewrite (slice_split 0 8 24), (slice_split 8 12 24), (slice_split 12 16 24), (slice_split 16 20 24) by lia.
    unfold wrap32. rewrite Hzk, Hzp, !Z.mod_small by lia.
    f_equal; [by apply (slice_le_put 0 8); lia|]. f_equal; [by apply (slice_le_put 8 12); lia|].
    f_equal; [by apply (slice_le_put 12 16); lia|].
    f_equal; [apply (slice_le_get 16 20); [lia|by symmetry]|].
    rewrite (slice_le_get 20 24 rh 0) by (lia || done). done. }
  unfold record_bytes. rewrite <- Hh. cbn [PrimaryKey doc_Payload].
  unfold rh, key, pay, slice.
  replace (offset + 24 - offset)%nat with 24%nat by lia.
  replace (offset + 24 + kl - (offset + 24))%nat with kl by lia.
  replace (offset + 24 + kl + pl - (offset + 24 + kl))%nat with pl by lia.
  rewrite <- !app_assoc, <- !(drop_drop payload). by rewrite !take_drop.
Qed.

(** ** Decoding all records *)
Lemma decode_records_ok docs pre minDocID index acc :
  docs_ok (minDocID + index) docs -> 0 <= minDocID -> 0 <= index ->
  minDocID + index + zlen docs <= u64_max + 1 ->
  decode_records CtxLive (length docs) (pre ++ records_bytes docs) minDocID index (length pre) acc =
  Ok (acc ++ docs).
Proof.
  unfold u64_max. revert pre index acc.
  induction docs as [|d docs IH]; intros pre index acc Hok Hm Hi Hb; cbn [decode_records length ctx_Err].
  { change (records_bytes []) with (@nil byte). rewrite !app_nil_r. unfold zlen. by rewrite Z.eqb_refl. }
  destruct Hok as (Hd & Hk & Hp & Hok). rewrite zlen_cons in Hb. pose proof (zlen_nonneg docs).
  assert (is_u64 (minDocID + index)) as Hu by (unfold is_u64, u64_max; lia).
  rewrite wrap64_id, <- Hd by done. rewrite records_bytes_cons.
  rewrite decode_record_ok by (rewrite ?Hd; done).
  replace (length pre + length (record_bytes d))%nat with (length (pre ++ record_bytes d)) by apply length_app.
  rewrite (app_assoc pre). rewrite IH.
  - by rewrite <- app_assoc.
  - by replace (minDocID + (index + 1)) with (minDocID + index + 1) by lia.
  - lia.
  - lia.
  - lia.
Qed.

Lemma decode_records_inv todo payload minDocID index offset acc docs :
  (offset <= length payload)%nat -> 0 <= minDocID -> 0 <= index ->
  minDocID + index + Z.of_nat todo <= u64_max + 1 ->
  decode_records CtxLive todo payload minDocID index offset acc = Ok docs ->
  exists ds, docs = acc ++ ds /\ length ds = todo /\ docs_ok (minDocID + index) ds /\
    drop offset payload = records_bytes ds.
Proof.
  unfold u64_max. revert index offset acc.
  induction todo as [|todo IH]; intros index offset acc Hoff Hm Hi Hb H; cbn [decode_records ctx_Err] in H.
  { case_in H; [done|]. injection H as <-. to_prop. exists []. rewrite app_nil_r. split; [done|]. split; [done|].
    split; [done|]. rewrite drop_ge; [done|]. unfold zlen in *. lia. }
  destruct (decode_record payload offset _) as [[d offset']|] eqn:Ed; [|done].
  rewrite wrap64_id in Ed by (unfold is_u64, u64_max; lia).
  apply decode_record_inv in Ed as (Hoff' & Hlt & Hdrop & Hid & Hk & Hp); [|done].
  apply IH in H as (ds & -> & Hl & Hok & Hds); [|done|done|lia|lia].
  exists (d :: ds). rewrite <- app_assoc. split; [done|]. split; [simpl; lia|]. split.
  - cbn [docs_ok]. replace (minDocID + index + 1) with (minDocID + (index + 1)) by lia. done.
  - rewrite records_bytes_cons, Hdrop, Hds. done.
Qed.

(** ** The file header *)
Definition segment_prefix (md : SegmentMetadata) (len crc : Z) : bytes :=
  segmentMagic ++ le_put 2 segmentCodecVersion ++ le_put 2 segmentHeaderSize ++ make_bytes 4 ++
  le_put 8 (sm_ID md) ++ le_put 8 (sm_MinDocID md) ++ le_put 8 (sm_MaxDocID md) ++
  le_put 8 (sm_DocCount md) ++ le_put 8 len ++ le_put 4 crc.
Definition segment_header (md : SegmentMetadata) (len crc : Z) : bytes :=
  segment_prefix md len crc ++ le_put 4 (CRC32C (segment_prefix md len crc)).

Lemma encodeSegmentHeader_layout md len crc : encodeSegmentHeader md len crc = segment_header md len crc.
Proof. reflexivity. Qed.

Lemma length_segment_header md len crc : length (segment_header md len crc) = 64%nat.
Proof. reflexivity. Qed.

(** Metadata of a contiguous segment file, with machine-width fields. *)
Definition segment_metadata_ok (md : SegmentMetadata) (docs : list StoredDocument) : Prop :=
  is_u64 (sm_ID md) /\ is_u64 (sm_MinDocID md) /\ is_u64 (sm_MaxDocID md) /\
  sm_MaxDocID md = sm_MinDocID md + zlen docs - 1.

Lemma record_bytes_pos d : valid_key (PrimaryKey d) -> 25 <= zlen (record_bytes d).
Proof.
  intros Hk. apply valid_key_length in Hk. rewrite zlen_record_bytes.
  unfold storedDocumentMemoryBytes, segmentRecordHeaderSize. pose proof (zlen_nonneg (doc_Payload d)). lia.
Qed.

Lemma records_bytes_lower n docs : docs_ok n docs -> 25 * zlen docs <= zlen (records_bytes docs).
Proof.
  revert n. induction docs as [|d docs IH]; intros n Hok.
  { change (0 <= 0). lia. }
  destruct Hok as (_ & Hk & _ & Hok). apply IH in Hok. apply record_bytes_pos in Hk.
  rewrite records_bytes_cons, zlen_app, zlen_cons. lia.
Qed.

(** What [encodeSegment] accepts and produces. *)
Lemma encodeSegment_Ok md docs encoded :
  segment_metadata_ok md docs ->
  encodeSegment md docs = Ok encoded <->
  docs <> [] /\ sm_DocCount md = zlen docs /\ docs_ok (sm_MinDocID md) docs /\
  zlen (records_bytes docs) <= maxSegmentPayloadSize /\
  encoded = segment_header md (zlen (records_bytes docs)) (CRC32C (records_bytes docs)) ++ records_bytes docs.
Proof.
  intros (H1 & H2 & H3 & H4). unfold encodeSegment, segmentPayloadLength. unfold is_u64, u64_max in *.
  rewrite append_records_layout, encodeSegmentHeader_layout. cbn [app].
  destruct (zlen docs =? 0) eqn:E1; to_prop; cbn [orb].
  { split; [done|]. intros (Hne & _). by apply zlen_0_nil in E1. }
  destruct (sm_DocCount md =? zlen docs) eqn:E2; to_prop; cbn [negb].
  2:{ split; [done|]. naive_solver. }
  pose proof (zlen_nonneg docs).
  assert (Hspec : forall n, payload_length_loop md docs 0 0 = Ok n <->
    docs_ok (sm_MinDocID md + 0) docs /\ n = 0 + zlen (records_bytes docs) /\ n <= maxSegmentPayloadSize).
  { intros n. apply payload_length_loop_spec; unfold u64_max, maxSegmentPayloadSize; lia. }
  rewrite Z.add_0_r in Hspec. cbn [Z.add] in Hspec.
  destruct (payload_length_loop md docs 0 0) as [n|e] eqn:El.
  - pose proof (proj1 (Hspec n) eq_refl) as (Hok & -> & Hle). split.
    + intros [= <-]. split; [by intros ->|]. done.
    + by intros (_ & _ & _ & _ & ->).
  - split; [done|]. intros (_ & _ & Hok & Hle & _).
    specialize (Hspec (zlen (records_bytes docs))) as [_ Hspec]. by specialize (Hspec (conj Hok (conj eq_refl Hle))).
Qed.

Lemma segment_header_fields md len crc payload :
  let e := segment_header md len crc ++ payload in
  let h := segment_header md len crc in
  slice 0 64 e = h /\
  slice 0 8 h = segmentMagic /\ slice 8 10 h = le_put 2 segmentCodecVersion /\
  slice 10 12 h = le_put 2 segmentHeaderSize /\ slice 12 16 h = make_bytes 4 /\
  slice 16 24 h = le_put 8 (sm_ID md) /\ slice 24 32 h = le_put 8 (sm_MinDocID md) /\
  slice 32 40 h = le_put 8 (sm_MaxDocID md) /\ slice 40 48 h = le_put 8 (sm_DocCount md) /\
  slice 48 56 h = le_put 8 len /\ slice 56 60 h = le_put 4 crc /\
  slice 60 64 h = le_put 4 (CRC32C (segment_prefix md len crc)) /\
  slice 0 60 h = segment_prefix md len crc /\ drop 64 e = payload /\ zlen e = 64 + zlen payload.
Proof.
  intros e h. split. { unfold e. by apply (slice_field 0 64 [] h payload). }
  repeat (split; [reflexivity|]). unfold e. rewrite zlen_app. reflexivity.
Qed.

#[global] Opaque segment_header.

Lemma decodeSegment_encoded md docs :
  segment_metadata_ok md docs -> docs <> [] -> sm_DocCount md = zlen docs ->
  docs_ok (sm_MinDocID md) docs -> zlen (records_bytes docs) <= maxSegmentPayloadSize ->
  decodeSegment CtxLive
    (segment_header md (zlen (records_bytes docs)) (CRC32C (records_bytes docs)) ++ records_bytes docs) =
  Ok (sm_set_files md [], docs).
Proof.
  intros (H1 & H2 & H3 & H4) Hne Hcount Hok Hlen. unfold decodeSegment.
  destruct (segment_header_fields md (zlen (records_bytes docs)) (CRC32C (records_bytes docs)) (records_bytes docs))
    as (-> & -> & -> & -> & -> & -> & -> & -> & -> & -> & -> & -> & -> & -> & ->).
  pose proof (zlen_nonneg (records_bytes docs)). pose proof (records_bytes_lower _ _ Hok) as Hlow.
  assert (zlen docs <> 0) as Hz by (intros E; by apply zlen_0_nil in E). pose proof (zlen_nonneg docs).
  assert (is_u64 (zlen (records_bytes docs))) as Hul by (unfold is_u64, u64_max, maxSegmentPayloadSize in *; lia).
  assert (is_u64 (zlen docs)) as Hud by (unfold is_u64, u64_max, maxSegmentPayloadSize in *; lia).
  rewrite (le_get_put2 segmentCodecVersion), (le_get_put2 segmentHeaderSize) by (vm_compute; split; discriminate).
  rewrite Hcount. rewrite (le_get_put8 _ H1), (le_get_put8 _ H2), (le_get_put8 _ H3), (le_get_put8 _ Hud),
    (le_get_put8 _ Hul), !(le_get_put4 _ (CRC32C_range _)).
  change (le_get (make_bytes 4)) with 0. rewrite bytes_eqb_refl.
  rewrite (Z.eqb_refl segmentCodecVersion), (Z.eqb_refl segmentHeaderSize),
    (Z.eqb_refl (CRC32C (segment_prefix _ _ _))), (Z.eqb_refl (CRC32C (records_bytes docs))).
  change (0 =? 0) with true. cbn [negb].
  unfold segmentHeaderSize, segmentRecordHeaderSize. cbn [sm_DocCount sm_MaxDocID sm_MinDocID].
  replace (64 + zlen (records_bytes docs) - 64) with (zlen (records_bytes docs)) by lia.
  rewrite (Z.eqb_refl (zlen (records_bytes docs))).
  case_if; [to_prop; lia|]. clear E.
  destruct (maxSegmentPayloadSize <? zlen (records_bytes docs)) eqn:E; [to_prop; lia|]. cbn [orb negb].
  destruct (zlen docs =? 0) eqn:E1; [to_prop; lia|].
  destruct (int_max <? zlen docs) eqn:E2; [unfold int_max, maxSegmentPayloadSize in *; to_prop; lia|].
  destruct (zlen (records_bytes docs) / (24 + 1) <? zlen docs) eqn:E3.
  { to_prop. assert (zlen docs <= zlen (records_bytes docs) / (24 + 1)); [|lia].
    apply Z.div_le_lower_bound; lia. }
  cbn [orb]. unfold is_u64, u64_max in *.
  destruct (sm_MaxDocID md <? sm_MinDocID md) eqn:E4; [to_prop; lia|].
  destruct (zlen docs - 1 =? sm_MaxDocID md - sm_MinDocID md) eqn:E5; [|to_prop; lia]. cbn [orb negb].
  rewrite zlen_to_nat.
  pose proof (decode_records_ok docs [] (sm_MinDocID md) 0 []) as Hdec. cbn [app length] in Hdec.
  rewrite Hdec; [by unfold sm_set_files; rewrite Hcount| |lia|lia|unfold u64_max; lia].
  by rewrite Z.add_0_r.
Qed.

Lemma decodeSegment_inv encoded md docs :
  decodeSegment CtxLive encoded = Ok (md, docs) ->
  segment_metadata_ok md docs /\ sm_Files md = [] /\ docs <> [] /\ sm_DocCount md = zlen docs /\
  docs_ok (sm_MinDocID md) docs /\ zlen (records_bytes docs) <= maxSegmentPayloadSize /\
  encoded = segment_header md (zlen (records_bytes docs)) (CRC32C (records_bytes docs)) ++ records_bytes docs.
Proof.
  intros H. unfold decodeSegment in H. case_in H; [done|].
  set (h := slice 0 64 encoded) in *.
  assert (64 <= length encoded)%nat as Hlen by (to_prop; unfold zlen, segmentHeaderSize in *; lia).
  assert (length h = 64%nat) as Hh by (unfold h; rewrite length_slice by lia; lia).
  repeat (case_in H; [discriminate H|]).
  set (md' := {| sm_ID := le_get (slice 16 24 h); sm_MinDocID := le_get (slice 24 32 h);
                 sm_MaxDocID := le_get (slice 32 40 h); sm_DocCount := le_get (slice 40 48 h);
                 sm_Files := [] |}) in *.
  destruct (decode_records _ _ _ _ _ _ _) as [ds|] eqn:Ed; [|done]. injection H as <- <-.
  assert (Hu : forall lo, (lo + 8 <= 64)%nat -> is_u64 (le_get (slice lo (lo + 8) h))).
  { intros lo Hlo. apply le_get_u64. rewrite length_slice; lia. }
  pose proof (Hu 16%nat ltac:(lia)) as U1. pose proof (Hu 24%nat ltac:(lia)) as U2.
  pose proof (Hu 32%nat ltac:(lia)) as U3. pose proof (Hu 40%nat ltac:(lia)) as U4. cbn [Nat.add] in *.
  to_prop. unfold is_u64, u64_max in U1, U2, U3, U4. cbn [sm_DocCount sm_MaxDocID sm_MinDocID md'] in *.
  apply decode_records_inv in Ed as (ds' & -> & Hl & Hok & Hdrop); [|lia|lia|lia|unfold u64_max; lia].
  cbn [app]. rewrite drop_0 in Hdrop. rewrite Z.add_0_r in Hok.
  assert (zlen ds' = le_get (slice 40 48 h)) as Hzl by (unfold zlen; lia).
  assert (zlen encoded - 64 = zlen (records_bytes ds')) as Hzr.
  { rewrite <- Hdrop. unfold zlen. rewrite length_drop. lia. }
  unfold segmentHeaderSize in *.
  split. { unfold segment_metadata_ok, is_u64, u64_max. cbn [md' sm_ID sm_MinDocID sm_MaxDocID]. lia. }
  split; [done|]. split; [intros ->; unfold zlen in Hzl; simpl in *; lia|].
  split; [by rewrite Hzl|]. split; [done|]. split; [lia|].
  rewrite <- (take_drop 64 encoded) at 1. rewrite Hdrop. f_equal. rewrite take_slice. fold h.
  assert (slice 0 60 h = segment_prefix md' (zlen (records_bytes ds')) (CRC32C (records_bytes ds'))) as Hp.
  { rewrite (slice_split 0 8 60), (slice_split 8 10 60), (slice_split 10 12 60), (slice_split 12 16 60),
      (slice_split 16 24 60), (slice_split 24 32 60), (slice_split 32 40 60), (slice_split 40 48 60),
      (slice_split 48 56 60) by lia.
    unfold segment_prefix. cbn [md' sm_ID sm_MinDocID sm_MaxDocID sm_DocCount].
    f_equal; [by apply bytes_eqb_eq|].
    f_equal; [by apply (slice_le_get 8 10); [lia|]|].
    f_equal; [by apply (slice_le_get 10 12); [lia|]|].
    f_equal; [rewrite (slice_le_get 12 16 h 0) by (lia || done); done|].
    f_equal; [by apply (slice_le_put 16 24); lia|].
    f_equal; [by apply (slice_le_put 24 32); lia|].
    f_equal; [by apply (slice_le_put 32 40); lia|].
    f_equal; [by apply (slice_le_put 40 48); lia|].
    f_equal; [apply (slice_le_get 48 56); lia|].
    rewrite <- Hdrop. apply (slice_le_get 56 60); [lia|by symmetry]. }
  rewrite <- (slice_full h), Hh, (slice_split 0 60 64) by lia.
  Transparent segment_header. unfold segment_header. Opaque segment_header.
  rewrite <- Hp. f_equal. by apply (slice_le_get 60 64); [lia|].
Qed.

(** ** Streaming *)
Lemma stream_records_spec docs index file crc :
  stream_records CtxLive docs index file crc = Ok (file ++ records_bytes docs, UpdateCRC32C crc (records_bytes docs)).
Proof.
  revert index file crc. induction docs as [|d docs IH]; intros index file crc; cbn [stream_records].
  { change (records_bytes []) with (@nil byte). by rewrite app_nil_r, UpdateCRC32C_nil. }
  replace (if Z.land index 255 =? 0 then ctx_Err CtxLive else None) with (@None gerror) by by case_if.
  cbn [stream_parts]. rewrite IH, encodeSegmentRecordHeader_layout, records_bytes_cons, !UpdateCRC32C_app.
  unfold record_bytes. by rewrite <- !app_assoc.
Qed.

(** The streamed file is the buffered encoding. *)
Lemma writeSegmentSnapshot_encode md docs :
  segment_metadata_ok md docs -> writeSegmentSnapshot CtxLive md docs = encodeSegment md docs.
Proof.
  intros Hmd. unfold writeSegmentSnapshot, encodeSegment.
  destruct (segmentPayloadLength md docs) as [n|e] eqn:El; [|done].
  rewrite stream_records_spec, append_records_layout. cbn [ctx_Err app]. apply (f_equal Ok).
  unfold segmentPayloadLength in El. destruct (_ || _) eqn:E; [discriminate El|]. apply orb_false_iff in E as [E1 E2].
  apply negb_false_iff, Z.eqb_eq in E2. apply Z.eqb_neq in E1.
  destruct Hmd as (H1 & H2 & H3 & H4). unfold is_u64, u64_max in *. pose proof (zlen_nonneg docs).
  apply payload_length_loop_spec in El as (_ & -> & _); [|unfold u64_max, maxSegmentPayloadSize in *; lia..].
  rewrite Z.add_0_l, !encodeSegmentHeader_layout, CRC32C_update.
  apply (splice_field 0 _ [] (make_bytes 64)); reflexivity.
Qed.

(** ** Memory accounting *)
Lemma storedDocumentMemoryBytes_nonneg d : 0 <= storedDocumentMemoryBytes d.
Proof.
  unfold storedDocumentMemoryBytes, segmentRecordHeaderSize.
  pose proof (zlen_nonneg (PrimaryKey d)). pose proof (zlen_nonneg (doc_Payload d)). lia.
Qed.

Lemma saturatingAdd_spec a b : is_u64 a -> 0 <= b -> saturatingAdd a b = Z.min u64_max (a + b).
Proof.
  unfold saturatingAdd, is_u64, u64_max. intros Ha Hb. case_if; to_prop; [lia|].
  rewrite wrap64_id; unfold is_u64, u64_max; lia.
Qed.

Lemma stored_memory_loop_spec docs total :
  is_u64 total -> stored_memory_loop docs total = Z.min u64_max (total + zlen (records_bytes docs)).
Proof.
  unfold is_u64, u64_max. revert total. induction docs as [|d docs IH]; intros total Ht; cbn [stored_memory_loop].
  { change (zlen (records_bytes [])) with 0. unfold u64_max. lia. }
  rewrite records_bytes_cons, zlen_app, zlen_record_bytes. pose proof (storedDocumentMemoryBytes_nonneg d).
  pose proof (zlen_nonneg (records_bytes docs)). unfold u64_max in *.
  case_if; to_prop; [lia|]. rewrite wrap64_id by (unfold is_u64, u64_max; lia). rewrite IH; lia.
Qed.

Lemma storedDocumentsMemoryBytes_spec docs :
  storedDocumentsMemoryBytes docs = Z.min u64_max (zlen (records_bytes docs)).
Proof.
  unfold storedDocumentsMemoryBytes. rewrite stored_memory_loop_spec; [done|]. unfold is_u64, u64_max. lia.
Qed.

Lemma records_bytes_app a b : records_bytes (a ++ b) = records_bytes a ++ records_bytes b.
Proof. unfold records_bytes. by rewrite fmap_app, join_app. Qed.

(** ** The write-segment invariant *)
Record ws_inv (s : WriteSegment) : Prop := {
  wi_id : is_u64 (ws_id s);
  wi_range : 0 <= ws_minDocID s /\ 0 < ws_maxDocs s /\ ws_minDocID s + ws_maxDocs s - 1 <= u64_max;
  wi_docs : docs_ok (ws_minDocID s) (ws_docs s);
  wi_capacity : zlen (ws_docs s) <= ws_maxDocs s;
  wi_memory : ws_memoryBytes s = Z.min u64_max (zlen (records_bytes (ws_docs s)))
}.

Lemma NewWriteSegment_inv id minDocID maxDocs s :
  is_u64 id -> is_u64 minDocID -> is_u64 maxDocs ->
  NewWriteSegment id minDocID maxDocs = Ok s -> ws_inv s /\ ws_docs s = [] /\ ws_sealed s = false /\ ws_id s = id /\
    ws_minDocID s = minDocID /\ ws_maxDocs s = maxDocs.
Proof.
  unfold is_u64, u64_max. intros Hi Hm Hx H. unfold NewWriteSegment, u64_max in H.
  repeat (case_in H; [discriminate H|]). injection H as <-. to_prop. cbn.
  split; [|done]. constructor; cbn; unfold is_u64, u64_max; rewrite ?zlen_nil; try lia; done.
Qed.

Lemma ReservedRange_spec s : ws_inv s -> ReservedRange s = (ws_minDocID s, ws_minDocID s + ws_maxDocs s - 1).
Proof.
  intros Hs. destruct (wi_range _ Hs) as (H1 & H2 & H3). unfold ReservedRange. f_equal.
  apply wrap64_id. unfold is_u64. lia.
Qed.

Lemma ws_next_id s : ws_inv s -> zlen (ws_docs s) < ws_maxDocs s ->
  wrap64 (ws_minDocID s + zlen (ws_docs s)) = ws_minDocID s + zlen (ws_docs s).
Proof.
  intros Hs Hlt. destruct (wi_range _ Hs) as (H1 & H2 & H3). apply wrap64_id. unfold is_u64.
  pose proof (zlen_nonneg (ws_docs s)). lia.
Qed.

Lemma NextDocumentID_spec s id : ws_inv s -> NextDocumentID s = Ok id ->
  id = ws_minDocID s + zlen (ws_docs s) /\ ws_sealed s = false /\ zlen (ws_docs s) < ws_maxDocs s.
Proof.
  intros Hs H. unfold NextDocumentID in H. repeat (case_in H; [discriminate H|]). injection H as <-. to_prop.
  by rewrite ws_next_id.
Qed.

Lemma ws_Document_lookup s id :
  ws_Document s id = if id <? ws_minDocID s then None else ws_docs s !! Z.to_nat (id - ws_minDocID s).
Proof.
  unfold ws_Document. destruct (id <? ws_minDocID s) eqn:E1; [done|]. cbn [orb]. case_if; [|done]. to_prop. symmetry.
  unfold zlen in *. assert (length (ws_docs s) <= Z.to_nat (id - ws_minDocID s))%nat by lia.
  by apply lookup_ge_None.
Qed.

Lemma ws_Document_DocID s id d : ws_inv s -> ws_Document s id = Some d -> DocID d = id.
Proof.
  intros Hs H. rewrite ws_Document_lookup in H. case_in H; [done|]. to_prop.
  apply (docs_ok_lookup _ _ _ _ (wi_docs _ Hs)) in H. lia.
Qed.

(** Why an append is refused. *)
Definition append_refused (ctx : context) (expected : option Z) (key payload : bytes) (s : WriteSegment) : Prop :=
  ctx <> CtxLive \/ ~ valid_key key \/ MaxDocumentPayloadSize < zlen payload \/ ws_sealed s = true \/
  ws_maxDocs s <= zlen (ws_docs s) \/ exists e, expected = Some e /\ e <> ws_minDocID s + zlen (ws_docs s).

Lemma ws_append_spec ctx expected key payload s s' r :
  ws_inv s -> ws_append ctx expected key payload s = (s', r) ->
  match r with
  | Ok d => DocID d = ws_minDocID s + zlen (ws_docs s) /\ PrimaryKey d = key /\ doc_Payload d = payload /\
      valid_key key /\ zlen payload <= MaxDocumentPayloadSize /\
      ws_docs s' = ws_docs s ++ [d] /\ ws_sealed s' = false /\ ws_sealed s = false /\ ws_id s' = ws_id s /\
      ws_minDocID s' = ws_minDocID s /\ ws_maxDocs s' = ws_maxDocs s /\ ws_inv s'
  | Fail e => s' = s /\ append_refused ctx expected key payload s
  end.
Proof.
  intros Hs H. unfold ws_append in H. unfold append_refused.
  destruct (ctx_guard _ ctx) eqn:Ec; [injection H as <- <-; split; [done|]; left; by intros ->|].
  destruct (ValidatePrimaryKey key) as [[]|] eqn:Hk.
  2:{ injection H as <- <-. split; [done|]. right; left. unfold valid_key. congruence. }
  destruct (MaxDocumentPayloadSize <? zlen payload) eqn:Ep; to_prop.
  { injection H as <- <-. split; [done|]. tauto. }
  destruct (ws_sealed s) eqn:Es; [injection H as <- <-; split; [done|]; tauto|].
  destruct (ws_maxDocs s <=? zlen (ws_docs s)) eqn:Ef; to_prop.
  { injection H as <- <-. split; [done|]. tauto. }
  rewrite ws_next_id in H by done. case_in H.
  { injection H as <- <-. split; [done|]. repeat right. destruct expected as [e|]; [|done]. to_prop. eauto. }
  injection H as <- <-. cbn. do 5 (split; [done|]). repeat (split; [done|]).
  destruct Hs as [Hi Hr Hd Hc Hm]. constructor; cbn; [done|done| | |].
  - apply docs_ok_app. split; [done|]. by cbn.
  - rewrite zlen_app. change (zlen [_]) with 1. lia.
  - rewrite Hm, saturatingAdd_spec, records_bytes_app, zlen_app.
    + rewrite records_bytes_cons, app_nil_r, zlen_record_bytes.
      pose proof (zlen_nonneg (records_bytes (ws_docs s))).
      pose proof (storedDocumentMemoryBytes_nonneg {| DocID := ws_minDocID s + zlen (ws_docs s);
                     PrimaryKey := key; doc_Payload := payload |}). lia.
    + unfold is_u64, u64_max. pose proof (zlen_nonneg (records_bytes (ws_docs s))). lia.
    + apply storedDocumentMemoryBytes_nonneg.
Qed.

(** ** Snapshots of a write segment *)
Lemma last_docs_ok n docs d : docs_ok n docs -> last docs = Some d -> DocID d = n + zlen docs - 1.
Proof.
  intros Hok Hl. rewrite last_lookup in Hl. pose proof (docs_ok_lookup _ _ _ _ Hok Hl) as ->.
  unfold zlen. destruct docs; [done|]. simpl length. lia.
Qed.

Lemma segmentMetadata_ok id n docs files :
  is_u64 id -> 0 <= n -> n + zlen docs - 1 <= u64_max -> docs_ok n docs -> docs <> [] ->
  let md := segmentMetadata id docs files in
  segment_metadata_ok md docs /\ sm_MinDocID md = n /\ sm_DocCount md = zlen docs /\ sm_ID md = id /\
  sm_Files md = files.
Proof.
  intros Hid Hn Hmax Hok Hne md. unfold md, segmentMetadata, segment_metadata_ok. cbn.
  destruct docs as [|d docs]; [done|]. destruct (last (d :: docs)) as [e|] eqn:El.
  2:{ by apply last_None in El. }
  pose proof (last_docs_ok _ _ _ Hok El) as ->. destruct Hok as (-> & _). unfold is_u64, u64_max in *.
  pose proof (zlen_nonneg docs). rewrite zlen_cons in *. repeat split; lia.
Qed.

Lemma ValidateSegment_snapshot md docs name :
  segment_metadata_ok md docs -> docs <> [] -> sm_DocCount md = zlen docs -> sm_Files md = [name] ->
  ValidatePortableRelativePath name = Ok tt -> ValidateSegment md = Ok tt.
Proof.
  intros (H1 & H2 & H3 & H4) Hne Hc Hf Hv. unfold ValidateSegment. rewrite Hc, Hf, H4.
  assert (zlen docs <> 0) by (intros E; by apply zlen_0_nil in E). pose proof (zlen_nonneg docs).
  destruct (zlen docs =? 0) eqn:E1; to_prop; [done|].
  destruct (sm_MinDocID md + zlen docs - 1 <? sm_MinDocID md) eqn:E2; to_prop; [lia|].
  case_if; to_prop; [lia|]. apply validate_files_Ok.
  split; [by constructor|]. split; [apply NoDup_singleton|set_solver].
Qed.

(** A segment built from contiguous documents looks documents up like the write segment. *)
Lemma im_Document_contiguous im n :
  sm_MinDocID (im_metadata im) = n -> sm_MaxDocID (im_metadata im) = n + zlen (im_docs im) - 1 ->
  docs_ok n (im_docs im) ->
  forall id, im_Document im id = if id <? n then None else im_docs im !! Z.to_nat (id - n).
Proof.
  intros Hmin Hmax Hok id. unfold im_Document. rewrite Hmin, Hmax. destruct (id <? n) eqn:E1; cbn [orb]; [done|].
  case_if; to_prop.
  { symmetry. apply lookup_ge_None. unfold zlen in *. lia. }
  destruct (im_docs im !! Z.to_nat (id - n)) as [d|] eqn:El; [|done].
  pose proof (docs_ok_lookup _ _ _ _ Hok El) as Hd. replace (DocID d =? id) with true; [done|].
  symmetry. apply Z.eqb_eq. lia.
Qed.

(** Opening the encoding of contiguous documents. *)
Lemma OpenImmutableSegment_encoded dir md docs name file err useMmap :
  dir <> ""%string -> segment_metadata_ok md docs -> sm_Files md = [name] ->
  ValidatePortableRelativePath name = Ok tt -> encodeSegment md docs = Ok file ->
  OpenImmutableSegment CtxLive dir md (Some file) err useMmap =
  Ok {| im_mapped := useMmap; im_closed := false; im_metadata := md; im_docs := docs;
        im_memoryBytes := storedDocumentsMemoryBytes docs |}.
Proof.
  intros Hdir Hmd Hf Hv Henc. apply (encodeSegment_Ok _ _ _ Hmd) in Henc as (Hne & Hc & Hok & Hle & ->).
  unfold OpenImmutableSegment. apply String.eqb_neq in Hdir. rewrite Hdir. cbn [ctx_Err].
  rewrite (ValidateSegment_snapshot md docs name) by done. rewrite Hf. cbn [bool_decide].
  rewrite bool_decide_eq_false_2 by done.
  assert (zlen (segment_header md (zlen (records_bytes docs)) (CRC32C (records_bytes docs)) ++ records_bytes docs)
    = 64 + zlen (records_bytes docs)) as Hz by by rewrite zlen_app.
  rewrite Hz. pose proof (zlen_nonneg (records_bytes docs)). unfold segmentHeaderSize, maxSegmentPayloadSize, int_max in *.
  case_if; [rewrite !orb_true_iff in E; destruct E as [[E|E]|E]; to_prop; lia|].
  rewrite decodeSegment_encoded by done. unfold segmentMetadataEqual.
  assert (sm_set_files (sm_set_files md []) [name] = md) as -> by (destruct md; cbn in *; by subst).
  rewrite bool_decide_eq_true_2 by done. done.
Qed.

(** ** Properties *)

(** C29: The segment codec is exact.  A byte string decodes to metadata and
    documents if and only if it is what they encode to and the metadata is that
    of the contiguous range of the documents; decoding accepts no other bytes. *)
Theorem segment_codec_exact (encoded : bytes) (md : SegmentMetadata) (docs : list StoredDocument) :
  decodeSegment CtxLive encoded = Ok (md, docs) <->
  sm_Files md = [] /\ is_u64 (sm_ID md) /\ is_u64 (sm_MinDocID md) /\ is_u64 (sm_MaxDocID md) /\
  sm_MaxDocID md = sm_MinDocID md + zlen docs - 1 /\ encodeSegment md docs = Ok encoded.
Proof.
  split.
  - intros H. apply decodeSegment_inv in H as (Hmd & Hf & Hne & Hc & Hok & Hle & ->).
    pose proof Hmd as (H1 & H2 & H3 & H4). do 5 (split; [done|]). by apply (encodeSegment_Ok _ _ _ Hmd).
  - intros (Hf & H1 & H2 & H3 & H4 & Henc). assert (segment_metadata_ok md docs) as Hmd by done.
    apply (encodeSegment_Ok _ _ _ Hmd) in Henc as (Hne & Hc & Hok & Hle & ->).
    rewrite decodeSegment_encoded by done. destruct md; cbn in *; by subst.
Qed.

(** [append] refuses only for a dead context, an invalid key, an oversized
    payload, a sealed or full segment or a wrong expected ID, and then changes
    nothing; otherwise it stores the document under the next consecutive ID,
    returns it, keeps every other document, and preserves the invariant
    (consecutive IDs, capacity, exact saturating memory accounting). *)
Theorem write_segment_append ctx expected key payload s s' r :
  ws_inv s -> ws_append ctx expected key payload s = (s', r) ->
  match r with
  | Fail _ => s' = s /\ append_refused ctx expected key payload s
  | Ok d => PrimaryKey d = key /\ doc_Payload d = payload /\ DocID d = ws_minDocID s + zlen (ws_docs s) /\
      (forall id, ws_Document s' id = if decide (id = DocID d) then Some d else ws_Document s id) /\ ws_inv s'
  end.
Proof.
  intros Hs Ha. pose proof (ws_append_spec _ _ _ _ _ _ _ Hs Ha) as H. destruct r as [d|e]; [|done].
  destruct H as (Hid & Hk & Hp & _ & _ & Hdocs & _ & _ & _ & Hmin & _ & Hinv).
  do 3 (split; [done|]). split; [|done]. intros id. rewrite !ws_Document_lookup, Hmin, Hdocs.
  pose proof (zlen_nonneg (ws_docs s)). destruct (decide (id = DocID d)) as [->|Hne].
  - rewrite Hid. case_if; to_prop; [lia|].
    replace (Z.to_nat _) with (length (ws_docs s)) by (unfold zlen; lia). by apply list_lookup_middle.
  - case_if; [done|]. to_prop. destruct (decide (Z.to_nat (id - ws_minDocID s) < length (ws_docs s))%nat) as [Hlt|Hge].
    + by apply lookup_app_l.
    + rewrite (lookup_ge_None_2 (ws_docs s)) by lia. apply lookup_ge_None_2. rewrite length_app. cbn.
      unfold zlen in *. lia.
Qed.

Definition ex_segment : WriteSegment :=
  {| ws_id := 4; ws_minDocID := 10; ws_maxDocs := 100; ws_docs := []; ws_sealed := false; ws_memoryBytes := 0 |}.

Lemma ex_segment_inv : ws_inv ex_segment.
Proof.
  apply (NewWriteSegment_inv 4 10 100); [unfold is_u64, u64_max; lia..|]. reflexivity.
Qed.

Lemma write_segment_append_witness :
  exists s', ws_append CtxLive (Some 10) [x61] [x01; x02] ex_segment =
    (s', Ok {| DocID := 10; PrimaryKey := [x61]; doc_Payload := [x01; x02] |}) /\ ws_inv s'.
Proof.
  eexists. split; [reflexivity|].
  apply (write_segment_append CtxLive (Some 10) [x61] [x01; x02] ex_segment _
    (Ok {| DocID := 10; PrimaryKey := [x61]; doc_Payload := [x01; x02] |}) ex_segment_inv eq_refl).
Defined.

Lemma writeImmutable_spec dir name seal useMmap s :
  ws_inv s -> ws_sealed s = false -> ws_docs s <> [] -> dir <> ""%string ->
  ValidatePortableRelativePath name = Ok tt ->
  let md := segmentMetadata (ws_id s) (ws_docs s) [name] in
  match writeImmutable CtxLive dir name seal useMmap s with
  | (s', Fail _) => s' = s /\ maxSegmentPayloadSize < zlen (records_bytes (ws_docs s))
  | (s', Ok (im, file)) =>
      encodeSegment md (ws_docs s) = Ok file /\ ws_docs s' = ws_docs s /\ ws_sealed s' = seal /\
      im_metadata im = md /\ (forall id, im_Document im id = ws_Document s id) /\
      exists im', OpenImmutableSegment CtxLive dir md (Some file) (errors_New "open") useMmap = Ok im' /\
        im_docs im' = im_docs im /\ im_memoryBytes im' = im_memoryBytes im
  end.
Proof.
  intros Hs Hseal Hne Hdir Hname md. destruct (wi_range _ Hs) as (R1 & R2 & R3).
  destruct (segmentMetadata_ok (ws_id s) (ws_minDocID s) (ws_docs s) [name]) as (Hmd & Hmin & Hc & _ & Hf);
    [apply Hs|lia|pose proof (wi_capacity _ Hs); lia|apply Hs|done|].
  fold md in Hmd, Hmin, Hc, Hf.
  assert (Hdoc : forall im, im_metadata im = md -> im_docs im = ws_docs s ->
            forall id, im_Document im id = ws_Document s id).
  { intros im H1 H2 id. rewrite ws_Document_lookup, <- H2. apply im_Document_contiguous; rewrite ?H1, ?H2; [done| |apply Hs].
    destruct Hmd as (_ & _ & _ & ->). by rewrite Hmin. }
  unfold writeImmutable. apply String.eqb_neq in Hdir as Hdir'. rewrite Hdir', Hname, Hseal. cbn [ctx_Err].
  rewrite bool_decide_eq_false_2 by done. fold md. rewrite writeSegmentSnapshot_encode by done.
  destruct (encodeSegment md (ws_docs s)) as [file|e] eqn:Henc.
  - pose proof (OpenImmutableSegment_encoded dir md (ws_docs s) name file (errors_New "open") useMmap
      Hdir Hmd Hf Hname Henc) as Hopen.
    destruct useMmap; [rewrite Hopen|]; (split; [done|]); (split; [by destruct seal|]);
      (split; [by destruct seal|]); (split; [done|]); (split; [by apply Hdoc|]); eexists; by split.
  - split; [done|]. apply Z.nle_gt. intros Hle.
    assert (encodeSegment md (ws_docs s) = Ok (segment_header md (zlen (records_bytes (ws_docs s)))
      (CRC32C (records_bytes (ws_docs s))) ++ records_bytes (ws_docs s))) as Hcontra; [|congruence].
    apply (encodeSegment_Ok _ _ _ Hmd). rewrite Hmin. split; [done|]. split; [done|]. split; [apply Hs|done].
Qed.

(** Writing a non-empty segment as an immutable file, streamed or mapped,
    either reports that the payload exceeds the format limit and changes
    nothing, or publishes a file that is the encoding of the documents, that
    reopens under its metadata, and through which every document ID resolves as
    it did in the write segment; only [Seal] stops further appends. *)
Theorem segment_snapshot_reopen dir name seal useMmap s :
  ws_inv s -> ws_sealed s = false -> ws_docs s <> [] -> dir <> ""%string ->
  ValidatePortableRelativePath name = Ok tt ->
  let md := segmentMetadata (ws_id s) (ws_docs s) [name] in
  match writeImmutable CtxLive dir name seal useMmap s with
  | (s', Fail _) => s' = s /\ maxSegmentPayloadSize < zlen (records_bytes (ws_docs s))
  | (s', Ok (im, file)) =>
      encodeSegment md (ws_docs s) = Ok file /\ ws_docs s' = ws_docs s /\ ws_sealed s' = seal /\
      im_metadata im = md /\ (forall id, im_Document im id = ws_Document s id) /\
      exists im', OpenImmutableSegment CtxLive dir md (Some file) (errors_New "open") useMmap = Ok im' /\
        im_docs im' = im_docs im /\ im_memoryBytes im' = im_memoryBytes im
  end.
Proof. apply writeImmutable_spec. Qed.

Definition ex_segment1 : WriteSegment := (ws_append CtxLive None [x61] [x01; x02] ex_segment).1.
Lemma ex_segment1_inv : ws_inv ex_segment1.
Proof.
  apply (ws_append_spec CtxLive None [x61] [x01; x02] ex_segment _
    (Ok {| DocID := 10; PrimaryKey := [x61]; doc_Payload := [x01; x02] |}) ex_segment_inv eq_refl).
Qed.

Lemma segment_snapshot_reopen_witness :
  exists s' im file, writeImmutable CtxLive "db" "segments/4" false true ex_segment1 = (s', Ok (im, file)) /\
    im_Document im 10 = ws_Document ex_segment1 10.
Proof.
  pose proof (segment_snapshot_reopen "db" "segments/4" false true ex_segment1 ex_segment1_inv eq_refl
    ltac:(discriminate) ltac:(discriminate) eq_refl) as H. cbv zeta in H.
  destruct (writeImmutable CtxLive "db" "segments/4" false true ex_segment1) as [s' [[im file]|e]].
  - destruct H as (_ & _ & _ & _ & H & _). exists s', im, file. split; [reflexivity|apply H].
  - destruct H as [_ H]. exfalso. change (4294967296 < 27) in H. lia.
Defined.
