(* ===== verification/SegmentManager.v ===== *)
(** * The segment manager: [internal/db/index/segment/segment_manager.go]

    The manager owns the immutable segments (a map by ID and a slice ordered by
    document range), the write segment, the IDMap and the delete store.  The
    segments of the map and of the slice are the same objects in the code; they
    never change except in [Close], which is modelled on both. *)
From S2P Require Import Prelude GoSort Bytes Utf8 KeyStore IdMap Paths Snapshot Manifest Segment.
From stdpp Require Import sorting.
#[local] Open Scope Z_scope.

(** ** State *)
Record SegmentManager (DB : Type) := {
  sg_immutable : gmap Z ImmutableSegment;
  sg_ordered : list ImmutableSegment;
  sg_writing : option WriteSegment;
  sg_primaryKey : PrimaryKeyMap DB;
  sg_deletes : DeleteStore
}.
Arguments sg_immutable {DB} _.
Arguments sg_ordered {DB} _.
Arguments sg_writing {DB} _.
Arguments sg_primaryKey {DB} _.
Arguments sg_deletes {DB} _.
Arguments Build_SegmentManager {DB} _ _ _ _ _.

Record FetchResult := {
  fr_PrimaryKey : bytes;
  fr_Document : option StoredDocument;
  fr_Err : option gerror
}.

Record StorageStats := {
  ImmutableSegmentCount : Z;
  MutableDocumentCount : Z;
  DeletedDocumentCount : Z;
  MemoryUsageBytes : Z
}.

Definition im_ID (s : ImmutableSegment) : Z := sm_ID (im_metadata s).
Definition im_min (s : ImmutableSegment) : Z := sm_MinDocID (im_metadata s).
Definition im_max (s : ImmutableSegment) : Z := sm_MaxDocID (im_metadata s).

Definition rangesOverlap (left right : SegmentMetadata) : bool :=
  if (sm_DocCount left =? 0) || (sm_DocCount right =? 0) then false
  else (sm_MinDocID left <=? sm_MaxDocID right) && (sm_MinDocID right <=? sm_MaxDocID left).

(** A non-empty segment against a reserved range. *)
Definition reservedOverlap (reservedMin reservedMax : Z) (metadata : SegmentMetadata) : bool :=
  (0 <? sm_DocCount metadata) && (reservedMin <=? sm_MaxDocID metadata) && (sm_MinDocID metadata <=? reservedMax).

Definition err_segment_exists : gerror := errors_New "db: segment ID already exists".
Definition err_segment_overlap : gerror := errors_New "db: segment document range overlaps".

Section segment_manager.
Context {DB : Type} `{KVStore DB}.
Implicit Types (m : SegmentManager DB).

(** Does some entry of the map of segments satisfy the test?  The code stops at
    the first one in an unspecified order, with the same error for each. *)
Definition exists_immutable (test : Z -> ImmutableSegment -> bool) m : bool :=
  existsb (fun e => test e.1 e.2) (map_to_list (sg_immutable m)).

Definition checkRangeLocked (candidate : SegmentMetadata) (candidateID : Z) m : option gerror :=
  if sm_DocCount candidate =? 0 then None
  else if exists_immutable (fun id s => negb (id =? candidateID) && rangesOverlap candidate (im_metadata s)) m
  then Some err_segment_overlap
  else match sg_writing m with
  | Some w =>
      if negb (ws_id w =? candidateID) then
        let '(reservedMin, reservedMax) := ReservedRange w in
        if (sm_MinDocID candidate <=? reservedMax) && (reservedMin <=? sm_MaxDocID candidate)
        then Some err_segment_overlap else None
      else None
  | None => None
  end.

Definition checkRangeAgainstImmutableLocked (candidate : SegmentMetadata) (candidateID : Z) m : option gerror :=
  if sm_DocCount candidate =? 0 then None
  else if exists_immutable (fun id s => negb (id =? candidateID) && rangesOverlap candidate (im_metadata s)) m
  then Some err_segment_overlap else None.

(** [insertOrderedLocked]: [slices.BinarySearchFunc] on the minimum IDs, then the shift and the store. *)
Definition insert_index (ordered : list ImmutableSegment) (minDocID : Z) : nat :=
  sort_Search (length ordered)
    (fun i => match ordered !! i with Some c => negb (im_min c <? minDocID) | None => true end).
Definition insertOrdered (segment : ImmutableSegment) (ordered : list ImmutableSegment)
    : list ImmutableSegment :=
  let index := insert_index ordered (im_min segment) in
  take index ordered ++ segment :: drop index ordered.

Definition locateImmutableSegment (segments : list ImmutableSegment) (docID : Z) : nat * bool :=
  let index := sort_Search (length segments)
    (fun i => match segments !! i with Some s => docID <=? im_max s | None => true end) in
  match segments !! index with
  | None => (0%nat, false)
  | Some s => (index, (0 <? sm_DocCount (im_metadata s)) && (im_min s <=? docID))
  end.

Definition sg_set_writing m (w : option WriteSegment) : SegmentManager DB :=
  {| sg_immutable := sg_immutable m; sg_ordered := sg_ordered m; sg_writing := w;
     sg_primaryKey := sg_primaryKey m; sg_deletes := sg_deletes m |}.
Definition sg_set_stores m (p : PrimaryKeyMap DB) (d : DeleteStore) : SegmentManager DB :=
  {| sg_immutable := sg_immutable m; sg_ordered := sg_ordered m; sg_writing := sg_writing m;
     sg_primaryKey := p; sg_deletes := d |}.
Definition sg_install m (segment : ImmutableSegment) : SegmentManager DB :=
  {| sg_immutable := <[im_ID segment := segment]> (sg_immutable m);
     sg_ordered := insertOrdered segment (sg_ordered m); sg_writing := sg_writing m;
     sg_primaryKey := sg_primaryKey m; sg_deletes := sg_deletes m |}.

Definition NewSegmentManager (primaryKey : PrimaryKeyMap DB) (deletes : DeleteStore) : SegmentManager DB :=
  {| sg_immutable := ∅; sg_ordered := []; sg_writing := None; sg_primaryKey := primaryKey;
     sg_deletes := deletes |}.

Definition ReplacePrimaryKeys (primaryKey : PrimaryKeyMap DB) m : SegmentManager DB :=
  sg_set_stores m primaryKey (sg_deletes m).

Definition SetWriting (segment : WriteSegment) m : SegmentManager DB * option gerror :=
  match sg_writing m with
  | Some _ => (m, Some (errors_New "db: writing segment already exists"))
  | None =>
      if bool_decide (is_Some (sg_immutable m !! ws_id segment)) then (m, Some err_segment_exists)
      else
        let '(reservedMin, reservedMax) := ReservedRange segment in
        if exists_immutable (fun _ s => reservedOverlap reservedMin reservedMax (im_metadata s)) m
        then (m, Some err_segment_overlap)
        else (sg_set_writing m (Some segment), None)
  end.

Definition ClearWriting m : SegmentManager DB * option WriteSegment := (sg_set_writing m None, sg_writing m).

Definition RotateWriting (currentID : Z) (immutable : ImmutableSegment) (next : WriteSegment) m
    : SegmentManager DB * option gerror :=
  let changed := (m, Some (errors_New "db: writing segment changed during rotation")) in
  match sg_writing m with
  | None => changed
  | Some w =>
  if negb (ws_id w =? currentID) then changed
  else if negb (im_ID immutable =? currentID)
  then (m, Some (errors_New "db: immutable segment ID does not match writing segment"))
  else if ws_id next =? currentID then (m, Some (errors_New "db: next writing segment reuses ID"))
  else if bool_decide (is_Some (sg_immutable m !! currentID)) then (m, Some err_segment_exists)
  else if bool_decide (is_Some (sg_immutable m !! ws_id next)) then (m, Some err_segment_exists)
  else
    let metadata := im_metadata immutable in
    if sm_DocCount metadata =? 0 then (m, Some (errors_New "db: cannot rotate an empty immutable segment"))
    else match checkRangeAgainstImmutableLocked metadata currentID m with
    | Some e => (m, Some e)
    | None =>
        let '(nextMin, nextMax) := ReservedRange next in
        if reservedOverlap nextMin nextMax metadata then (m, Some err_segment_overlap)
        else if exists_immutable (fun _ s => reservedOverlap nextMin nextMax (im_metadata s)) m
        then (m, Some err_segment_overlap)
        else (sg_set_writing (sg_install m immutable) (Some next), None)
    end
  end.

Definition AddImmutable (segment : ImmutableSegment) m : SegmentManager DB * option gerror :=
  if sm_DocCount (im_metadata segment) =? 0 then (m, Some (errors_New "db: empty immutable segment"))
  else if bool_decide (is_Some (sg_immutable m !! im_ID segment))
          || match sg_writing m with Some w => ws_id w =? im_ID segment | None => false end
  then (m, Some err_segment_exists)
  else match checkRangeLocked (im_metadata segment) (im_ID segment) m with
  | Some e => (m, Some e)
  | None => (sg_install m segment, None)
  end.

(** The loop that removes the first ordered segment with the ID. *)
Fixpoint remove_ordered (segmentID : Z) (ordered : list ImmutableSegment) : list ImmutableSegment :=
  match ordered with
  | [] => []
  | s :: rest => if im_ID s =? segmentID then rest else s :: remove_ordered segmentID rest
  end.

Definition RemoveImmutable (segmentID : Z) m : SegmentManager DB * result ImmutableSegment :=
  match sg_immutable m !! segmentID with
  | None => (m, Fail ErrSegmentNotFound)
  | Some segment =>
      ({| sg_immutable := delete segmentID (sg_immutable m);
          sg_ordered := remove_ordered segmentID (sg_ordered m); sg_writing := sg_writing m;
          sg_primaryKey := sg_primaryKey m; sg_deletes := sg_deletes m |}, Ok segment)
  end.

Definition ImmutableMetadata m : list SegmentMetadata := im_metadata <$> sg_ordered m.

Definition RetainedDocument m (docID : Z) : option StoredDocument :=
  match sg_writing m ≫= (fun w => ws_Document w docID) with
  | Some doc => Some doc
  | None =>
      let '(index, found) := locateImmutableSegment (sg_ordered m) docID in
      if found then sg_ordered m !! index ≫= (fun s => im_Document s docID) else None
  end.

Definition sg_Document m (docID : Z) : option StoredDocument :=
  if IsDeleted (sg_deletes m) docID then None else RetainedDocument m docID.

Definition DocumentByPrimaryKey m (key : bytes) : result (option StoredDocument) :=
  match idmap_Get (sg_primaryKey m) key with
  | Fail e => Fail e
  | Ok (docID, found) =>
      if negb found || IsDeleted (sg_deletes m) docID then Ok None
      else match sg_Document m docID with
      | Some document => Ok (if bool_decide (PrimaryKey document = key) then Some document else None)
      | None => Ok None
      end
  end.

(** [Fetch]: the results and the error of the batch.  The context is polled
    once per key. *)
Fixpoint fetch_loop (polls : nat -> option gerror) m (index : nat) (primaryKeys : list bytes)
    : list FetchResult * option gerror :=
  match primaryKeys with
  | [] => ([], None)
  | key :: rest =>
      let failed e := ((fun k => {| fr_PrimaryKey := k; fr_Document := None; fr_Err := Some e |}) <$> primaryKeys, Some e) in
      match polls index with
      | Some e => failed e
      | None =>
      match DocumentByPrimaryKey m key with
      | Fail e => failed e
      | Ok document =>
          let '(results, err) := fetch_loop polls m (S index) rest in
          ({| fr_PrimaryKey := key; fr_Document := document; fr_Err := None |} :: results, err)
      end end
  end.

Definition sg_Fetch (ctx_nil : bool) (polls : nat -> option gerror) m (primaryKeys : list bytes)
    : list FetchResult * option gerror :=
  if ctx_nil then ([], Some (errors_New "db: nil fetch context")) else fetch_loop polls m 0 primaryKeys.

(** [appendLive] over one segment's documents. *)
Fixpoint appendLive (ctx : context) m (documents result : list StoredDocument) : Prelude.result (list StoredDocument) :=
  match documents with
  | [] => Ok result
  | document :: documents =>
      match ctx_Err ctx with
      | Some e => Fail e
      | None =>
      if IsDeleted (sg_deletes m) (DocID document) then appendLive ctx m documents result
      else match idmap_Get (sg_primaryKey m) (PrimaryKey document) with
      | Fail e => Fail e
      | Ok (docID, found) =>
          if negb found || negb (docID =? DocID document) then appendLive ctx m documents result
          else appendLive ctx m documents (result ++ [document])
      end end
  end.

Definition os_ErrClosed : gerror := errors_New "file already closed".

Definition LiveDocuments (ctx : context) m : result (list StoredDocument) :=
  match ctx_guard "db: nil live-document context" ctx with
  | Some e => Fail e
  | None =>
  match foldM (fun docs s => if im_closed s then Fail os_ErrClosed else appendLive ctx m (im_docs s) docs)
              (sg_ordered m) [] with
  | Fail e => Fail e
  | Ok docs =>
      match sg_writing m with
      | Some w => appendLive ctx m (ws_docs w) docs
      | None => Ok docs
      end
  end end.

(** [LiveDocumentPrimaryKeys]; [overlayOrder] as in [ForEach]. *)
Definition LiveDocumentPrimaryKeys (ctx : context) (overlayOrder : list (bytes * primaryKeyDelta)) m
    : result (gmap Z bytes) :=
  match ctx_guard "db: nil live-document context" ctx with
  | Some e => Fail e
  | None =>
      idmap_ForEach ctx overlayOrder (sg_primaryKey m)
        (fun (result : gmap Z bytes) primaryKey docID =>
           match result !! docID with
           | Some _ => Fail (errors_New "db: document ID is assigned to two primary keys")
           | None => Ok (<[docID := primaryKey]> result)
           end) ∅
  end.

Definition saturatingMultiplyByEight (value : Z) : Z :=
  if u64_max / 8 <? value then u64_max else wrap64 (value * 8).

Definition sg_StorageStats m : StorageStats :=
  let segments := (map_to_list (sg_immutable m)).*2 in
  let deleted := DeleteStore_Count (sg_deletes m) in
  let bytes := foldl (fun acc s => saturatingAdd acc (im_memoryBytes s)) (saturatingMultiplyByEight deleted) segments in
  {| ImmutableSegmentCount := zlen segments; DeletedDocumentCount := deleted;
     MutableDocumentCount := match sg_writing m with Some w => sm_DocCount (ws_Metadata w) | None => 0 end;
     MemoryUsageBytes := match sg_writing m with
                         | Some w => saturatingAdd bytes (ws_memoryBytes w)
                         | None => bytes
                         end |}.

(** [Close]: every ordered segment, the errors joined. *)
Definition sg_Close (unmap : nat -> option gerror) m : SegmentManager DB * option gerror :=
  let closed := imap (fun i s => im_Close (unmap i) s) (sg_ordered m) in
  ({| sg_immutable := list_to_map ((fun s => (im_ID s, s)) <$> closed.*1); sg_ordered := closed.*1;
      sg_writing := sg_writing m; sg_primaryKey := sg_primaryKey m; sg_deletes := sg_deletes m |},
   errors_Join closed.*2).
End segment_manager.

(** ** The invariant *)

(** An open segment whose metadata is that of its contiguous documents. *)
Record im_ok (s : ImmutableSegment) : Prop := {
  io_open : im_closed s = false;
  io_docs : docs_ok (im_min s) (im_docs s);
  io_count : sm_DocCount (im_metadata s) = zlen (im_docs s);
  io_nonempty : im_docs s <> [];
  io_max : im_max s = im_min s + zlen (im_docs s) - 1;
  io_min : 0 <= im_min s;
  io_memory : im_memoryBytes s = Z.min u64_max (zlen (records_bytes (im_docs s)))
}.

Definition im_before (a b : ImmutableSegment) : Prop := im_max a < im_min b.

(** The reserved range of a write segment is apart from a segment's range. *)
Definition ws_apart (w : WriteSegment) (s : ImmutableSegment) : Prop :=
  im_max s < ws_minDocID w \/ ws_minDocID w + ws_maxDocs w - 1 < im_min s.

Record sg_inv {DB} (m : SegmentManager DB) : Prop := {
  si_ordered : StronglySorted im_before (sg_ordered m);
  si_ok : Forall im_ok (sg_ordered m);
  si_map : forall id s, sg_immutable m !! id = Some s <-> s ∈ sg_ordered m /\ im_ID s = id;
  si_writing : forall w, sg_writing m = Some w ->
    ws_inv w /\ sg_immutable m !! ws_id w = None /\ Forall (ws_apart w) (sg_ordered m)
}.

Lemma im_ok_range s : im_ok s -> im_min s <= im_max s.
Proof.
  intros Hs. rewrite (io_max s Hs). destruct (im_docs s) eqn:E; [by destruct (io_nonempty s Hs)|].
  rewrite zlen_cons. pose proof (zlen_nonneg l). lia.
Qed.

Lemma im_ok_count s : im_ok s -> 0 < sm_DocCount (im_metadata s).
Proof.
  intros Hs. rewrite (io_count s Hs). destruct (im_docs s) eqn:E; [by destruct (io_nonempty s Hs)|].
  rewrite zlen_cons. pose proof (zlen_nonneg l). lia.
Qed.

Lemma rangesOverlap_false a b :
  im_ok a -> im_ok b -> rangesOverlap (im_metadata a) (im_metadata b) = false ->
  im_max a < im_min b \/ im_max b < im_min a.
Proof.
  intros Ha Hb. pose proof (im_ok_count a Ha). pose proof (im_ok_count b Hb). unfold rangesOverlap.
  destruct (sm_DocCount (im_metadata a) =? 0) eqn:E1; to_prop; [lia|].
  destruct (sm_DocCount (im_metadata b) =? 0) eqn:E2; to_prop; [lia|]. cbn [orb].
  intros Hf. to_prop. unfold im_min, im_max. destruct Hf as [Hf|Hf]; to_prop; lia.
Qed.

Lemma reservedOverlap_false w s :
  ws_inv w -> im_ok s ->
  reservedOverlap (ws_minDocID w) (ws_minDocID w + ws_maxDocs w - 1) (im_metadata s) = false -> ws_apart w s.
Proof.
  intros Hw Hs. pose proof (im_ok_count s Hs) as Hc. unfold reservedOverlap, ws_apart, im_min, im_max.
  apply Z.ltb_lt in Hc. rewrite Hc. cbn [andb]. intros Hf. to_prop. destruct Hf as [Hf|Hf]; to_prop; lia.
Qed.

(** ** Insertion into the ordered slice *)
Lemma StronglySorted_lookup {A} (R : A -> A -> Prop) l i j x y :
  StronglySorted R l -> (i < j)%nat -> l !! i = Some x -> l !! j = Some y -> R x y.
Proof.
  intros Hs. revert i j. induction Hs as [|z l Hs IH Hz]; intros i j Hij Hi Hj; [done|].
  destruct j as [|j]; [lia|]. destruct i as [|i]; simpl in *.
  - simplify_eq. rewrite Forall_forall in Hz. apply Hz. by eapply list_elem_of_lookup_2.
  - apply (IH i j); [lia|done|done].
Qed.

Lemma StronglySorted_insert {A} (R : A -> A -> Prop) l k x :
  StronglySorted R l -> Forall (fun y => R y x) (take k l) -> Forall (R x) (drop k l) ->
  StronglySorted R (take k l ++ x :: drop k l).
Proof.
  intros Hs. revert k. induction Hs as [|z l Hs IH Hz]; intros k Hbefore Hafter.
  { rewrite take_nil, drop_nil. by repeat constructor. }
  destruct k as [|k]; cbn [take drop app] in *.
  - constructor; [by constructor|done].
  - apply Forall_cons in Hbefore as [Hzx Hbefore]. constructor; [by apply IH|].
    rewrite Forall_app, Forall_cons. split; [by apply Forall_take|]. split; [done|]. by apply Forall_drop.
Qed.

Lemma im_before_min a b : im_ok a -> im_before a b -> im_min a < im_min b.
Proof. intros Ha Hab. pose proof (im_ok_range a Ha). unfold im_before in Hab. lia. Qed.

Lemma insert_index_spec ordered minDocID :
  StronglySorted im_before ordered -> Forall im_ok ordered ->
  let k := insert_index ordered minDocID in
  (k <= length ordered)%nat /\ Forall (fun s => im_min s < minDocID) (take k ordered) /\
  Forall (fun s => minDocID <= im_min s) (drop k ordered).
Proof.
  intros Hs Hok k. rewrite Forall_forall in Hok.
  set (f := fun i => match ordered !! i with Some c => negb (im_min c <? minDocID) | None => true end).
  destruct (sort_Search_spec (length ordered) f) as (Hk & Hlo & Hhi).
  { intros a b Hab Hb Ha. unfold f in *. destruct (ordered !! b) as [y|] eqn:Eb; [|done].
    destruct (ordered !! a) as [x|] eqn:Ea; [|apply lookup_ge_None in Ea; lia].
    destruct (decide (a = b)) as [->|]; [by simplify_eq|].
    assert (im_before x y) as Hxy by (apply (StronglySorted_lookup _ ordered a b); [done|lia|done|done]).
    apply im_before_min in Hxy; [|apply Hok; by eapply list_elem_of_lookup_2]. to_prop.
    apply negb_true_iff, Z.ltb_ge. lia. }
  fold f in k. change (sort_Search (length ordered) f) with k in *. split; [done|]. split.
  - apply Forall_lookup. intros i x Hx. apply lookup_take_Some in Hx as [Hx Hi].
    specialize (Hlo i Hi). unfold f in Hlo. rewrite Hx in Hlo. to_prop. done.
  - apply Forall_lookup. intros i x Hx. rewrite lookup_drop in Hx.
    pose proof (lookup_lt_Some _ _ _ Hx). specialize (Hhi (k + i)%nat ltac:(lia) ltac:(lia)).
    unfold f in Hhi. rewrite Hx in Hhi. to_prop. done.
Qed.

Lemma insertOrdered_perm s ordered : insertOrdered s ordered ≡ₚ s :: ordered.
Proof.
  unfold insertOrdered. set (k := insert_index _ _).
  rewrite <- (take_drop k ordered) at 3. by rewrite Permutation_middle.
Qed.

Lemma insertOrdered_sorted s ordered :
  StronglySorted im_before ordered -> Forall im_ok ordered -> im_ok s ->
  Forall (fun t => im_max s < im_min t \/ im_max t < im_min s) ordered ->
  StronglySorted im_before (insertOrdered s ordered).
Proof.
  intros Hs Hok Hok_s Hapart. unfold insertOrdered.
  destruct (insert_index_spec ordered (im_min s) Hs Hok) as (Hk & Hlo & Hhi).
  set (k := insert_index _ _) in *. pose proof (im_ok_range s Hok_s) as Hr.
  rewrite Forall_forall in Hok, Hapart.
  apply StronglySorted_insert; [done| |]; apply Forall_forall; intros t Ht.
  - rewrite Forall_forall in Hlo. specialize (Hlo t Ht). assert (t ∈ ordered) as Hin by (rewrite <- (take_drop k ordered), elem_of_app; by left).
   
    pose proof (im_ok_range t (Hok t Hin)). specialize (Hapart t Hin). unfold im_before. lia.
  - rewrite Forall_forall in Hhi. specialize (Hhi t Ht). assert (t ∈ ordered) as Hin by (rewrite <- (take_drop k ordered), elem_of_app; by right).
   
    pose proof (im_ok_range t (Hok t Hin)). specialize (Hapart t Hin). unfold im_before. lia.
Qed.

(** ** Operations *)
Section manager_proofs.
Context {DB : Type} `{Hkv : KVStore DB} {Hlaws : KVStoreLaws DB}.
Implicit Types (m : SegmentManager DB).

Lemma exists_immutable_false test m :
  sg_inv m -> exists_immutable test m = false -> Forall (fun s => test (im_ID s) s = false) (sg_ordered m).
Proof.
  intros Hm He. apply Forall_forall. intros s Hs. unfold exists_immutable in He.
  destruct (test (im_ID s) s) eqn:E; [|done]. exfalso.
  apply not_true_iff_false in He. apply He. apply existsb_exists. exists (im_ID s, s). split; [|done].
  apply list_elem_of_In, elem_of_map_to_list. by apply (si_map m Hm).
Qed.

Lemma sg_ordered_unique m s t : sg_inv m -> s ∈ sg_ordered m -> t ∈ sg_ordered m -> im_ID s = im_ID t -> s = t.
Proof.
  intros Hm Hs Ht Heq. assert (sg_immutable m !! im_ID s = Some s) as H1 by by apply (si_map m Hm).
  assert (sg_immutable m !! im_ID s = Some t) as H2 by (apply (si_map m Hm); by rewrite Heq). congruence.
Qed.

(** Installing a segment that is apart from everything the manager holds. *)
Lemma sg_install_inv m s :
  sg_inv m -> im_ok s -> sg_immutable m !! im_ID s = None ->
  Forall (fun t => im_max s < im_min t \/ im_max t < im_min s) (sg_ordered m) ->
  (forall w, sg_writing m = Some w -> ws_id w <> im_ID s /\ ws_apart w s) ->
  sg_inv (sg_install m s).
Proof.
  intros Hm Hs Hnew Hapart Hw. constructor; cbn.
  - apply insertOrdered_sorted; [apply Hm|apply Hm|done|done].
  - rewrite insertOrdered_perm. constructor; [done|apply Hm].
  - intros id t. rewrite insertOrdered_perm, elem_of_cons, lookup_insert_Some, (si_map m Hm). split.
    + intros [[<- <-]|[Hne [Hin Hid]]]; [by split; [left|]|]. split; [by right|done].
    + intros [[->|Hin] Hid]; [by left|]. right. split; [|done]. intros <-.
      assert (sg_immutable m !! im_ID s = Some t) by by apply (si_map m Hm). congruence.
  - intros w Hwr. destruct (si_writing m Hm w Hwr) as (H1 & H2 & H3). destruct (Hw w Hwr) as [H4 H5].
    split; [done|]. split; [by rewrite lookup_insert_ne|]. rewrite insertOrdered_perm. by constructor.
Qed.

Lemma checkRangeAgainst_None m s :
  sg_inv m -> im_ok s -> sg_immutable m !! im_ID s = None ->
  checkRangeAgainstImmutableLocked (im_metadata s) (im_ID s) m = None ->
  Forall (fun t => im_max s < im_min t \/ im_max t < im_min s) (sg_ordered m).
Proof.
  intros Hm Hs Hnew Hc. unfold checkRangeAgainstImmutableLocked in Hc. pose proof (im_ok_count s Hs).
  destruct (sm_DocCount (im_metadata s) =? 0) eqn:E; to_prop; [lia|]. case_in Hc; [done|].
  apply (exists_immutable_false _ m Hm) in E0. rewrite Forall_forall in *. intros t Ht.
  specialize (E0 t Ht). cbn in E0. apply andb_false_iff in E0 as [E0|E0].
  - to_prop. assert (sg_immutable m !! im_ID t = Some t) by by apply (si_map m Hm). congruence.
  - apply rangesOverlap_false; [done| |done]. pose proof (si_ok m Hm) as Hok.
    rewrite Forall_forall in Hok. by apply Hok.
Qed.

Lemma reserved_apart m w :
  sg_inv m -> ws_inv w ->
  exists_immutable (fun _ s => reservedOverlap (ws_minDocID w) (ws_minDocID w + ws_maxDocs w - 1) (im_metadata s)) m
    = false -> Forall (ws_apart w) (sg_ordered m).
Proof.
  intros Hm Hw He. apply (exists_immutable_false _ m Hm) in He. pose proof (si_ok m Hm) as Hok.
  rewrite Forall_forall in *. intros s Hs. apply reservedOverlap_false; [done|by apply Hok|by apply He].
Qed.

Lemma bool_decide_is_Some_false {A} (o : option A) : bool_decide (is_Some o) = false -> o = None.
Proof. rewrite bool_decide_eq_false. destruct o; [intros []; eauto|done]. Qed.

Lemma SetWriting_inv m w m' :
  sg_inv m -> ws_inv w -> SetWriting w m = (m', None) ->
  sg_inv m' /\ sg_writing m = None /\ sg_writing m' = Some w /\ sg_ordered m' = sg_ordered m.
Proof.
  intros Hm Hw H. unfold SetWriting in H. destruct (sg_writing m) eqn:Ew; [done|].
  destruct (bool_decide _) eqn:Eb; [done|]. apply bool_decide_is_Some_false in Eb.
  rewrite ReservedRange_spec in H by done. case_in H; [done|]. injection H as <-.
  split; [|done]. constructor; cbn; try apply Hm. intros w' [= <-].
  split; [done|]. split; [done|]. by apply reserved_apart.
Qed.

Lemma RotateWriting_inv m id im next m' :
  sg_inv m -> im_ok im -> ws_inv next -> RotateWriting id im next m = (m', None) ->
  sg_inv m' /\ sg_writing m' = Some next /\ sg_ordered m' = insertOrdered im (sg_ordered m) /\
  exists w, sg_writing m = Some w /\ ws_id w = id /\ im_ID im = id.
Proof.
  intros Hm Him Hn H. unfold RotateWriting in H. destruct (sg_writing m) as [w|] eqn:Ew; [|done].
  destruct (negb (ws_id w =? id)) eqn:E1; [done|]. destruct (negb (im_ID im =? id)) eqn:E2; [done|].
  destruct (ws_id next =? id) eqn:E3; [done|]. to_prop.
  destruct (bool_decide (is_Some (sg_immutable m !! id))) eqn:E4; [done|].
  destruct (bool_decide (is_Some (sg_immutable m !! ws_id next))) eqn:E5; [done|].
  apply bool_decide_is_Some_false in E4, E5. case_in H; [done|].
  destruct (checkRangeAgainstImmutableLocked _ _ m) eqn:E6; [done|].
  rewrite ReservedRange_spec in H by done.
  destruct (reservedOverlap _ _ (im_metadata im)) eqn:E7; [done|]. case_in H; [done|]. injection H as <-.
  subst id. rewrite E2 in *.
  assert (sg_inv (sg_set_writing m None)) as Hm0.
  { constructor; cbn; try apply Hm. done. }
  assert (sg_inv (sg_install (sg_set_writing m None) im)) as Hm1.
  { apply sg_install_inv; [done|done|cbn; by rewrite E2| |done].
    apply (checkRangeAgainst_None m); [done|done|by rewrite E2|]. by rewrite E2. }
  split; [|split; [done|split; [done|by exists w]]].
  constructor; try apply Hm1. cbn. intros w' [= <-]. split; [done|].
  split; [rewrite lookup_insert_ne by (rewrite E2; done); done|].
  rewrite insertOrdered_perm. constructor; [by apply reservedOverlap_false|]. by apply reserved_apart.
Qed.

Lemma AddImmutable_inv m s m' :
  sg_inv m -> im_ok s -> AddImmutable s m = (m', None) ->
  sg_inv m' /\ sg_writing m' = sg_writing m /\ sg_ordered m' = insertOrdered s (sg_ordered m).
Proof.
  intros Hm Hs H. unfold AddImmutable in H. case_in H; [done|].
  destruct (bool_decide (is_Some (sg_immutable m !! im_ID s))) eqn:E1; [done|].
  apply bool_decide_is_Some_false in E1. cbn [orb] in H.
  destruct (match sg_writing m with Some w => ws_id w =? im_ID s | None => false end) eqn:E2; [done|].
  destruct (checkRangeLocked _ _ m) eqn:E3; [done|]. injection H as <-. split; [|done].
  assert (checkRangeAgainstImmutableLocked (im_metadata s) (im_ID s) m = None) as Hra.
  { unfold checkRangeLocked in E3. unfold checkRangeAgainstImmutableLocked. case_if; [done|]. by case_if. }
  apply sg_install_inv; [done|done|done|by apply checkRangeAgainst_None|].
  intros w Hw. rewrite Hw in E2. split; [by apply Z.eqb_neq|]. unfold checkRangeLocked in E3. rewrite Hw in E3.
  rewrite E in E3. destruct (exists_immutable _ m); [done|]. rewrite E2 in E3. cbn [negb] in E3.
  rewrite ReservedRange_spec in E3 by by apply (si_writing m Hm). destruct (_ && _) eqn:E4 in E3; [done|].
  apply andb_false_iff in E4. unfold ws_apart, im_min, im_max. destruct E4 as [E4|E4]; to_prop; lia.
Qed.

Lemma remove_ordered_spec id ordered s :
  NoDup (im_ID <$> ordered) -> s ∈ remove_ordered id ordered <-> s ∈ ordered /\ im_ID s <> id.
Proof.
  induction ordered as [|t ordered IH]; intros Hnd; cbn [remove_ordered].
  { split; [by intros ?%elem_of_nil|intros [?%elem_of_nil _]; done]. }
  rewrite fmap_cons in Hnd. apply NoDup_cons in Hnd as [Hni Hnd]. destruct (im_ID t =? id) eqn:E; to_prop.
  - rewrite elem_of_cons. split; [|naive_solver]. intros Hin. split; [by right|]. intros <-. apply Hni.
    rewrite E. by apply list_elem_of_fmap_2.
  - rewrite !elem_of_cons, IH by done. naive_solver.
Qed.

Lemma remove_ordered_sorted id ordered :
  StronglySorted im_before ordered -> StronglySorted im_before (remove_ordered id ordered).
Proof.
  induction 1 as [|t ordered Hs IH Ht]; cbn [remove_ordered]; [constructor|]. case_if; [done|].
  constructor; [done|]. rewrite Forall_forall in *. intros s Hin. apply Ht.
  clear -Hin. induction ordered as [|u ordered IH]; cbn in Hin; [done|]. case_in Hin; [by right|].
  apply elem_of_cons in Hin as [->|Hin]; [by left|right; auto].
Qed.

Lemma sg_ids_NoDup m : sg_inv m -> NoDup (im_ID <$> sg_ordered m).
Proof.
  intros Hm. apply NoDup_fmap_2_strong.
  - intros s t Hs Ht. by apply (sg_ordered_unique m).
  - pose proof (si_ordered m Hm) as Hs. pose proof (si_ok m Hm) as Hok. clear -Hs Hok.
    induction Hs as [|x l Hs IH Hx]; [constructor|]. apply Forall_cons in Hok as [Hxo Hok].
    constructor; [|by apply IH]. intros Hin. rewrite Forall_forall in Hx. specialize (Hx x Hin).
    pose proof (im_ok_range x Hxo). unfold im_before in Hx. lia.
Qed.

Lemma RemoveImmutable_inv m id m' r :
  sg_inv m -> RemoveImmutable id m = (m', r) ->
  sg_inv m' /\ sg_writing m' = sg_writing m /\
  match r with
  | Ok s => im_ID s = id /\ s ∈ sg_ordered m /\ (forall t, t ∈ sg_ordered m' <-> t ∈ sg_ordered m /\ t <> s)
  | Fail _ => m' = m
  end.
Proof.
  intros Hm H. unfold RemoveImmutable in H. destruct (sg_immutable m !! id) as [s|] eqn:E; [|by simplify_eq].
  injection H as <- <-. cbn. apply (si_map m Hm) in E as [Hin Hid]. pose proof (sg_ids_NoDup m Hm) as Hnd.
  assert (Hspec : forall t, t ∈ remove_ordered id (sg_ordered m) <-> t ∈ sg_ordered m /\ t <> s).
  { intros t. rewrite remove_ordered_spec by done. split; intros [Ht Hne]; (split; [done|]).
    - by intros ->.
    - intros Heq. apply Hne. apply (sg_ordered_unique m); [done|done|done|congruence]. }
  split; [|done]. constructor; cbn.
  - apply remove_ordered_sorted, Hm.
  - pose proof (si_ok m Hm) as Hok. rewrite Forall_forall in *. intros t Ht. apply Hok. by apply Hspec.
  - intros id' t. rewrite lookup_delete_Some, (si_map m Hm), remove_ordered_spec by done. naive_solver.
  - intros w Hw. destruct (si_writing m Hm w Hw) as (H1 & H2 & H3). split; [done|].
    split; [by rewrite lookup_delete_None; right|]. rewrite Forall_forall in *. intros t Ht. apply H3. by apply Hspec.
Qed.
End manager_proofs.

(** ** Reading *)

(** Every document version the manager retains, in the order of [LiveDocuments]. *)
Definition sg_stored {DB} (m : SegmentManager DB) : list StoredDocument :=
  mjoin (im_docs <$> sg_ordered m) ++ match sg_writing m with Some w => ws_docs w | None => [] end.

Lemma docs_ok_elem n docs d :
  docs_ok n docs -> d ∈ docs <-> n <= DocID d /\ docs !! Z.to_nat (DocID d - n) = Some d.
Proof.
  intros Hok. split.
  - intros [i Hi]%list_elem_of_lookup. pose proof (docs_ok_lookup _ _ _ _ Hok Hi) as Hd.
    split; [lia|]. by replace (Z.to_nat (DocID d - n)) with i by lia.
  - intros [_ H]. by eapply list_elem_of_lookup_2.
Qed.

Lemma docs_ok_bound n docs d : docs_ok n docs -> d ∈ docs -> n <= DocID d <= n + zlen docs - 1.
Proof.
  intros Hok [i Hi]%list_elem_of_lookup. pose proof (docs_ok_lookup _ _ _ _ Hok Hi) as Hd.
  apply lookup_lt_Some in Hi. unfold zlen. lia.
Qed.

Lemma im_Document_spec s id d : im_ok s -> im_Document s id = Some d <-> d ∈ im_docs s /\ DocID d = id.
Proof.
  intros Hs. rewrite (im_Document_contiguous s (im_min s)) by (done || apply Hs).
  rewrite (docs_ok_elem _ _ _ (io_docs s Hs)). case_if; to_prop.
  - split; [done|]. intros [[? ?] ?]. lia.
  - split.
    + intros H. pose proof (docs_ok_lookup _ _ _ _ (io_docs s Hs) H) as Hd.
      assert (DocID d = id) as <- by lia. done.
    + intros [[_ H] <-]. done.
Qed.

Lemma ws_Document_spec w id d : ws_inv w -> ws_Document w id = Some d <-> d ∈ ws_docs w /\ DocID d = id.
Proof.
  intros Hw. rewrite ws_Document_lookup, (docs_ok_elem _ _ _ (wi_docs w Hw)). case_if; to_prop.
  - split; [done|]. intros [[? ?] ?]. lia.
  - split.
    + intros H. pose proof (docs_ok_lookup _ _ _ _ (wi_docs w Hw) H) as Hd.
      assert (DocID d = id) as <- by lia. done.
    + intros [[_ H] <-]. done.
Qed.

(** The binary search finds the segment that covers an ID, and no other. *)
Lemma locate_spec ordered id :
  StronglySorted im_before ordered -> Forall im_ok ordered ->
  match locateImmutableSegment ordered id with
  | (index, true) => exists s, ordered !! index = Some s /\ im_min s <= id <= im_max s
  | (_, false) => forall s, s ∈ ordered -> ~ im_min s <= id <= im_max s
  end.
Proof.
  intros Hs Hok. unfold locateImmutableSegment. rewrite Forall_forall in Hok.
  set (f := fun i => match ordered !! i with Some s => id <=? im_max s | None => true end).
  assert (Hlt : forall i j x y, (i < j)%nat -> ordered !! i = Some x -> ordered !! j = Some y -> im_max x < im_min y).
  { intros i j x y Hij Hx Hy. by apply (StronglySorted_lookup im_before ordered i j). }
  destruct (sort_Search_spec (length ordered) f) as (Hk & Hlo & Hhi).
  { intros a b Hab Hb Ha. unfold f in *. destruct (ordered !! b) as [y|] eqn:Eb; [|done].
    destruct (ordered !! a) as [x|] eqn:Ea; [|apply lookup_ge_None in Ea; lia].
    destruct (decide (a = b)) as [->|]; [by simplify_eq|].
    pose proof (Hlt a b x y ltac:(lia) Ea Eb). pose proof (im_ok_range y (Hok y ltac:(by eapply list_elem_of_lookup_2))).
    to_prop. apply Z.leb_le. lia. }
  set (k := sort_Search (length ordered) f) in *.
  assert (Hbelow : forall i s, (i < k)%nat -> ordered !! i = Some s -> im_max s < id).
  { intros i s Hi He. specialize (Hlo i Hi). unfold f in Hlo. rewrite He in Hlo. by to_prop. }
  destruct (ordered !! k) as [s|] eqn:Ek.
  2:{ intros s [i Hi]%list_elem_of_lookup. apply lookup_ge_None in Ek.
      pose proof (lookup_lt_Some _ _ _ Hi). specialize (Hbelow i s ltac:(lia) Hi). lia. }
  assert (Hin : s ∈ ordered) by by eapply list_elem_of_lookup_2.
  assert (id <= im_max s) as Hmax.
  { pose proof (lookup_lt_Some _ _ _ Ek). specialize (Hhi k ltac:(lia) ltac:(lia)). unfold f in Hhi.
    rewrite Ek in Hhi. by to_prop. }
  pose proof (im_ok_count s (Hok s Hin)) as Hc. apply Z.ltb_lt in Hc. rewrite Hc. cbn [andb].
  destruct (im_min s <=? id) eqn:El; to_prop.
  - exists s. split; [done|lia].
  - intros t [i Hi]%list_elem_of_lookup Hr. destruct (decide (i < k)%nat) as [Hik|Hik].
    + specialize (Hbelow i t Hik Hi). lia.
    + destruct (decide (i = k)) as [->|]; [simplify_eq; lia|].
      pose proof (Hlt k i s t ltac:(lia) Ek Hi). pose proof (im_ok_range s (Hok s Hin)). lia.
Qed.

Section manager_reads.
Context {DB : Type} `{Hkv : KVStore DB} {Hlaws : KVStoreLaws DB}.
Implicit Types (m : SegmentManager DB).

Lemma RetainedDocument_spec m id d :
  sg_inv m -> RetainedDocument m id = Some d <-> d ∈ sg_stored m /\ DocID d = id.
Proof.
  intros Hm. unfold RetainedDocument, sg_stored. rewrite elem_of_app, list_elem_of_join.
  pose proof (si_ok m Hm) as Hok. rewrite Forall_forall in Hok.
  assert (Him : (let '(index, found) := locateImmutableSegment (sg_ordered m) id in
            if found then sg_ordered m !! index ≫= (fun s => im_Document s id) else None) = Some d <->
          (exists l, d ∈ l /\ l ∈ im_docs <$> sg_ordered m) /\ DocID d = id).
  { pose proof (locate_spec (sg_ordered m) id (si_ordered m Hm) (si_ok m Hm)) as Hl.
    destruct (locateImmutableSegment (sg_ordered m) id) as [index [|]].
    - destruct Hl as (s & Es & Hr). rewrite Es. cbn [mbind option_bind].
      assert (s ∈ sg_ordered m) as Hin by by eapply list_elem_of_lookup_2.
      rewrite im_Document_spec by by apply Hok. split.
      + intros [Hd <-]. split; [|done]. exists (im_docs s). split; [done|]. by apply list_elem_of_fmap_2.
      + intros [(l & Hd & (t & -> & Ht)%list_elem_of_fmap) <-]. split; [|done].
        pose proof (docs_ok_bound _ _ _ (io_docs t (Hok t Ht)) Hd) as Hb.
        rewrite <- (io_max t (Hok t Ht)) in Hb.
        assert (s = t) as ->; [|done].
        apply list_elem_of_lookup in Ht as [j Hj]. destruct (decide (index = j)) as [->|Hne]; [by simplify_eq|].
        exfalso. destruct (decide (index < j)%nat).
        * pose proof (StronglySorted_lookup im_before _ index j s t (si_ordered m Hm) ltac:(lia) Es Hj) as Hlt.
          unfold im_before in Hlt. lia.
        * pose proof (StronglySorted_lookup im_before _ j index t s (si_ordered m Hm) ltac:(lia) Hj Es) as Hlt.
          unfold im_before in Hlt. lia.
    - split; [done|]. intros [(l & Hd & (t & -> & Ht)%list_elem_of_fmap) <-]. exfalso. apply (Hl t Ht).
      pose proof (docs_ok_bound _ _ _ (io_docs t (Hok t Ht)) Hd) as Hb. rewrite (io_max t (Hok t Ht)). lia. }
  destruct (sg_writing m) as [w|] eqn:Ew; cbn [mbind option_bind].
  - destruct (si_writing m Hm w Ew) as (Hw & _ & Hap). rewrite Forall_forall in Hap.
    destruct (ws_Document w id) as [e|] eqn:Ed.
    + apply (ws_Document_spec w id e Hw) in Ed as [Hin <-]. split.
      * intros [= ->]. split; [by right|done].
      * intros [[Hd|Hd] Heq].
        -- exfalso. destruct Hd as (l & Hd & (t & -> & Ht)%list_elem_of_fmap).
           pose proof (docs_ok_bound _ _ _ (io_docs t (Hok t Ht)) Hd) as Hb.
           rewrite <- (io_max t (Hok t Ht)) in Hb.
           pose proof (docs_ok_bound _ _ _ (wi_docs w Hw) Hin). pose proof (wi_capacity w Hw).
           specialize (Hap t Ht). unfold ws_apart in Hap. lia.
        -- apply (docs_ok_elem _ _ _ (wi_docs w Hw)) in Hd, Hin. rewrite Heq in Hd. destruct Hd, Hin. congruence.
    + rewrite Him. split; [naive_solver|]. intros [[Hd|Hd] Heq]; [done|].
      assert (ws_Document w id = Some d) by by apply ws_Document_spec. congruence.
  - rewrite Him. split; [naive_solver|]. intros [[Hd|Hd] Heq]; [done|by apply elem_of_nil in Hd].
Qed.

(** A stored version is live when it is not deleted and its key maps to it. *)
Definition live m (d : StoredDocument) : Prop :=
  DocID d ∉ sg_deletes m /\ idmap_view (sg_primaryKey m) !! PrimaryKey d = Some (DocID d).
#[global] Instance live_dec m d : Decision (live m d).
Proof. unfold live. apply _. Defined.

Lemma idmap_Get_total (pk : PrimaryKeyMap DB) key :
  ~ store_fails (DB := DB) -> idmap_inv pk -> idmap_Get pk key = Ok (lookup_result (idmap_view pk !! key)).
Proof.
  intros Hst Hi. destruct (idmap_Get pk key) as [r|e] eqn:E.
  - f_equal. by apply idmap_Get_spec.
  - exfalso. apply Hst. destruct (ii_entries pk Hi) as (db & Hdb & _). unfold idmap_Get in E.
    rewrite Hdb in E. by eapply getLocked_fault.
Qed.

Lemma appendLive_spec m docs acc :
  ~ store_fails (DB := DB) -> idmap_inv (sg_primaryKey m) ->
  appendLive CtxLive m docs acc = Ok (acc ++ filter (live m) docs).
Proof.
  intros Hst Hi. revert acc. induction docs as [|d docs IH]; intros acc; cbn [appendLive ctx_Err].
  { by rewrite app_nil_r. }
  unfold IsDeleted. rewrite filter_cons. case_bool_decide as Hdel.
  { rewrite decide_False by by intros []. apply IH. }
  rewrite idmap_Get_total by done. destruct (idmap_view (sg_primaryKey m) !! PrimaryKey d) as [id|] eqn:Ev; cbn [lookup_result negb orb].
  - destruct (id =? DocID d) eqn:E; to_prop; cbn [negb].
    + rewrite decide_True by (split; [done|congruence]). rewrite IH, <- app_assoc. done.
    + rewrite decide_False by (intros [_ Hc]; congruence). apply IH.
  - rewrite decide_False by (intros [_ Hc]; congruence). apply IH.
Qed.

Lemma LiveDocuments_spec m :
  ~ store_fails (DB := DB) -> idmap_inv (sg_primaryKey m) -> sg_inv m ->
  LiveDocuments CtxLive m = Ok (filter (live m) (sg_stored m)).
Proof.
  intros Hst Hi Hm. unfold LiveDocuments. cbn [ctx_guard].
  assert (Hfold : forall l acc, Forall im_ok l ->
    foldM (fun docs s => if im_closed s then Fail os_ErrClosed else appendLive CtxLive m (im_docs s) docs) l acc =
    Ok (acc ++ filter (live m) (mjoin (im_docs <$> l)))).
  { intros l. induction l as [|s l IH]; intros acc Hok; cbn [foldM].
    - cbn. by rewrite app_nil_r.
    - apply Forall_cons in Hok as [Hs Hok]. rewrite (io_open s Hs), appendLive_spec, IH by done.
      cbn [fmap list_fmap mjoin list_join]. change (list_join (im_docs <$> l)) with (mjoin (im_docs <$> l)).
      by rewrite filter_app, <- app_assoc. }
  rewrite Hfold by apply Hm. unfold sg_stored. rewrite filter_app. cbn [app].
  destruct (sg_writing m) as [w|]; [by rewrite appendLive_spec|]. cbn. by rewrite app_nil_r.
Qed.

Lemma DocumentByPrimaryKey_spec m key :
  ~ store_fails (DB := DB) -> idmap_inv (sg_primaryKey m) -> sg_inv m ->
  exists o, DocumentByPrimaryKey m key = Ok o /\
    forall d, o = Some d <-> d ∈ sg_stored m /\ PrimaryKey d = key /\ live m d.
Proof.
  intros Hst Hi Hm. unfold DocumentByPrimaryKey. rewrite idmap_Get_total by done. unfold live.
  destruct (idmap_view (sg_primaryKey m) !! key) as [id|] eqn:Ev; cbn [lookup_result negb orb].
  2:{ eexists. split; [done|]. intros d. split; [done|]. intros (_ & <- & _ & Hc). congruence. }
  unfold IsDeleted. case_bool_decide as Hdel.
  { eexists. split; [done|]. intros d. split; [done|]. intros (_ & <- & Hd & Hc). congruence. }
  unfold sg_Document, IsDeleted. rewrite bool_decide_eq_false_2 by done.
  destruct (RetainedDocument m id) as [e|] eqn:Er.
  - apply (RetainedDocument_spec m id e Hm) in Er as [Hin <-]. eexists. split; [done|]. intros d.
    case_bool_decide as Hk.
    + split; [intros [= <-]; by rewrite Hk|]. intros (Hd & Hkd & _ & Hv).
      rewrite Hkd in Hv. f_equal. assert (RetainedDocument m (DocID e) = Some e) as H1 by by apply RetainedDocument_spec.
      assert (RetainedDocument m (DocID e) = Some d) as H2 by (apply RetainedDocument_spec; [done|split; congruence]).
      congruence.
    + split; [done|]. intros (Hd & Hkd & _ & Hv). rewrite Hkd in Hv.
      assert (RetainedDocument m (DocID e) = Some e) as H1 by by apply RetainedDocument_spec.
      assert (RetainedDocument m (DocID e) = Some d) as H2 by (apply RetainedDocument_spec; [done|split; congruence]).
      congruence.
  - eexists. split; [done|]. intros d. split; [done|]. intros (Hd & <- & _ & Hv).
    assert (RetainedDocument m id = Some d) as H2 by (apply RetainedDocument_spec; [done|split; congruence]).
    congruence.
Qed.

Lemma fetch_loop_spec m keys index :
  ~ store_fails (DB := DB) -> idmap_inv (sg_primaryKey m) -> sg_inv m ->
  exists results, fetch_loop (fun _ => None) m index keys = (results, None) /\
    Forall2 (fun key r => fr_PrimaryKey r = key /\ fr_Err r = None /\
               forall d, fr_Document r = Some d <-> d ∈ sg_stored m /\ PrimaryKey d = key /\ live m d) keys results.
Proof.
  intros Hst Hi Hm. revert index. induction keys as [|key keys IH]; intros index; cbn [fetch_loop].
  { eexists. split; [done|]. constructor. }
  destruct (DocumentByPrimaryKey_spec m key Hst Hi Hm) as (o & -> & Ho).
  destruct (IH (S index)) as (rs & -> & Hrs). eexists. split; [done|]. by constructor.
Qed.
End manager_reads.

Lemma im_ok_snapshot s name im :
  ws_inv s -> ws_docs s <> [] -> im_closed im = false ->
  im_metadata im = segmentMetadata (ws_id s) (ws_docs s) [name] -> im_docs im = ws_docs s ->
  im_memoryBytes im = storedDocumentsMemoryBytes (ws_docs s) -> im_ok im.
Proof.
  intros Hs Hne Hcl Hmd Hdocs Hmem. destruct (wi_range _ Hs) as (R1 & R2 & R3).
  destruct (segmentMetadata_ok (ws_id s) (ws_minDocID s) (ws_docs s) [name]) as ((M1 & M2 & M3 & M4) & Hmin & Hc & _ & _);
    [apply Hs|lia|pose proof (wi_capacity _ Hs); lia|apply Hs|done|].
  rewrite <- Hmd, <- Hdocs in *. unfold im_min, im_max in *. constructor; unfold im_min, im_max; try done.
  - rewrite Hmin, Hdocs. apply Hs.
  - by rewrite Hmin.
  - by rewrite Hmem, storedDocumentsMemoryBytes_spec, Hdocs.
Qed.

(** ** Properties *)

(** The operations that change which segments the manager owns. *)
Inductive sg_op :=
| OpSetWriting (w : WriteSegment)
| OpRotate (currentID : Z) (im : ImmutableSegment) (next : WriteSegment)
| OpAdd (im : ImmutableSegment)
| OpRemove (segmentID : Z).

Definition sg_exec {DB} (op : sg_op) (m : SegmentManager DB) : SegmentManager DB * option gerror :=
  match op with
  | OpSetWriting w => SetWriting w m
  | OpRotate id im next => RotateWriting id im next m
  | OpAdd im => AddImmutable im m
  | OpRemove id => match RemoveImmutable id m with (m', Ok _) => (m', None) | (m', Fail e) => (m', Some e) end
  end.

(** The caller hands over well-formed segments; the immutable segment of a
    rotation is the snapshot of the write segment. *)
Definition sg_op_ok {DB} (op : sg_op) (m : SegmentManager DB) : Prop :=
  match op with
  | OpSetWriting w => ws_inv w /\ ws_docs w = []
  | OpRotate _ im next => im_ok im /\ ws_inv next /\ ws_docs next = [] /\
      forall w, sg_writing m = Some w -> im_docs im = ws_docs w
  | OpAdd im => im_ok im
  | OpRemove _ => True
  end.

Lemma sg_stored_install {DB} (m : SegmentManager DB) s :
  mjoin (im_docs <$> insertOrdered s (sg_ordered m)) ≡ₚ im_docs s ++ mjoin (im_docs <$> sg_ordered m).
Proof. by rewrite (insertOrdered_perm s (sg_ordered m)). Qed.

Lemma sg_exec_error {DB} (op : sg_op) (m m' : SegmentManager DB) e : sg_exec op m = (m', Some e) -> m' = m.
Proof.
  destruct op as [w|id im next|im|id]; cbn [sg_exec]; intros H.
  - unfold SetWriting in H. by repeat (case_in H; simplify_eq; try done).
  - unfold RotateWriting in H. by repeat (case_in H; simplify_eq; try done).
  - unfold AddImmutable in H. by repeat (case_in H; simplify_eq; try done).
  - unfold RemoveImmutable in H. destruct (sg_immutable m !! id); by simplify_eq.
Qed.

(** C31: Every operation that changes the manager's segments either reports an
    error and changes nothing, or preserves the invariant (one object per ID in
    map and slice, the slice ordered by pairwise disjoint document ranges, the
    write segment's reserved range apart from all of them) and has the intended
    effect on the retained documents: adding contributes exactly the segment's
    documents, removing takes away exactly those of one segment, and rotating
    the write segment into its snapshot keeps every document. *)
Theorem segment_manager_operations {DB} (op : sg_op) (m m' : SegmentManager DB) err :
  sg_inv m -> sg_op_ok op m -> sg_exec op m = (m', err) ->
  match err with
  | Some _ => m' = m
  | None => sg_inv m' /\
      match op with
      | OpSetWriting _ | OpRotate _ _ _ => sg_stored m' ≡ₚ sg_stored m
      | OpAdd im => sg_stored m' ≡ₚ im_docs im ++ sg_stored m
      | OpRemove id => exists s, im_ID s = id /\ sg_stored m ≡ₚ im_docs s ++ sg_stored m'
      end
  end.
Proof.
  intros Hm Hok H. destruct err as [e|]; [by eapply sg_exec_error|].
  unfold sg_stored. destruct op as [w|id im next|im|id]; cbn [sg_exec sg_op_ok] in *.
  - destruct Hok as [Hw Hdocs]. apply SetWriting_inv in H as (Hi & Hn & Hs & Ho); [|done|done].
    split; [done|]. by rewrite Hs, Ho, Hn, Hdocs.
  - destruct Hok as (Him & Hn & Hdocs & Hsame).
    apply RotateWriting_inv in H as (Hi & Hw' & Ho & w & Hw & _ & _); [|done..].
    split; [done|]. rewrite Hw', Ho, Hw, Hdocs, sg_stored_install, app_nil_r, (Hsame w Hw). apply Permutation_app_comm.
  - apply AddImmutable_inv in H as (Hi & Hw & Ho); [|done|done]. split; [done|].
    by rewrite Hw, Ho, sg_stored_install, app_assoc.
  - destruct (RemoveImmutable id m) as [m1 [s|]] eqn:E; [|done]. injection H as <-.
    pose proof (RemoveImmutable_inv _ _ _ _ Hm E) as (Hi & Hw & Hid & Hin & Hmem). split; [done|].
    exists s. split; [done|]. rewrite Hw, app_assoc. f_equiv.
    assert (sg_ordered m ≡ₚ s :: sg_ordered m1) as ->; [|done].
    assert (Hnd : forall x : SegmentManager DB, sg_inv x -> NoDup (sg_ordered x)).
    { intros x Hx. apply (NoDup_fmap_1 im_ID). by apply sg_ids_NoDup. }
    apply NoDup_Permutation; [by apply Hnd| |].
    + constructor; [|by apply Hnd]. intros Hs. by apply Hmem in Hs as [_ []].
    + intros t. rewrite elem_of_cons, Hmem. split; [|naive_solver].
      intros Ht. destruct (decide (im_ID t = im_ID s)) as [Heq|Hne].
      * left. by apply (sg_ordered_unique m).
      * right. split; [done|]. by intros ->.
Qed.

Definition ex_im : ImmutableSegment :=
  newImmutableSegment (segmentMetadata 4 (ws_docs ex_segment1) ["segments/4"%string]) (ws_docs ex_segment1).
Lemma ex_im_ok : im_ok ex_im.
Proof. by apply (im_ok_snapshot ex_segment1 "segments/4"); [apply ex_segment1_inv|..]. Qed.

Definition ex_next : WriteSegment :=
  {| ws_id := 5; ws_minDocID := 110; ws_maxDocs := 100; ws_docs := []; ws_sealed := false; ws_memoryBytes := 0 |}.
Lemma ex_next_inv : ws_inv ex_next.
Proof. apply (NewWriteSegment_inv 5 110 100); [unfold is_u64, u64_max; lia..|]. reflexivity. Qed.

Definition ex_idmap10 : PrimaryKeyMap (gmap bytes bytes) := (idmap_Put CtxLive [x61] 10 ex_idmap).1.
Lemma ex_idmap10_spec : idmap_view ex_idmap10 = {[ [x61] := 10 ]} /\ idmap_inv ex_idmap10.
Proof.
  pose proof (idmap_Put_spec CtxLive [x61] 10 ex_idmap _ _ ex_idmap_inv
    ltac:(unfold is_u64, u64_max; lia) (surjective_pairing _)) as H.
  change ((idmap_Put CtxLive [x61] 10 ex_idmap).2) with (Ok (0, false) : result (Z * bool)) in H.
  destruct H as (_ & _ & Hv & Hi). split; [|done]. rewrite ex_idmap_view in Hv. exact Hv.
Qed.

Definition ex_manager : SegmentManager (gmap bytes bytes) :=
  {| sg_immutable := ∅; sg_ordered := []; sg_writing := Some ex_segment1; sg_primaryKey := ex_idmap10;
     sg_deletes := NewDeleteStore |}.
Lemma ex_manager_inv : sg_inv ex_manager.
Proof.
  constructor; cbn; [constructor|constructor| |].
  - intros id s. rewrite lookup_empty. split; [done|]. by intros [?%elem_of_nil _].
  - intros w [= <-]. split; [apply ex_segment1_inv|]. split; [apply lookup_empty|constructor].
Qed.

Definition ex_rotated : SegmentManager (gmap bytes bytes) := (RotateWriting 4 ex_im ex_next ex_manager).1.

Lemma segment_manager_operations_witness :
  sg_exec (OpRotate 4 ex_im ex_next) ex_manager = (ex_rotated, None) /\ sg_inv ex_rotated /\
  sg_stored ex_rotated ≡ₚ sg_stored ex_manager.
Proof.
  assert (sg_exec (OpRotate 4 ex_im ex_next) ex_manager = (ex_rotated, None)) as H by reflexivity.
  split; [exact H|].
  refine (segment_manager_operations (OpRotate 4 ex_im ex_next) ex_manager ex_rotated None ex_manager_inv _ H).
  split; [exact ex_im_ok|]. split; [exact ex_next_inv|]. split; [reflexivity|].
  intros w [= <-]. reflexivity.
Defined.

(** The lookup by document ID (the write segment first, then a binary
    search over the ordered segments) finds a version exactly when the manager
    retains one with that ID, and returns that version. *)
Theorem retained_document_exact {DB} `{Hkv : KVStore DB} {Hlaws : KVStoreLaws DB} (m : SegmentManager DB) id d :
  sg_inv m -> RetainedDocument m id = Some d <-> d ∈ sg_stored m /\ DocID d = id.
Proof. apply RetainedDocument_spec. Qed.

Lemma ex_rotated_inv : sg_inv ex_rotated.
Proof.
  refine (proj1 (RotateWriting_inv ex_manager 4 ex_im ex_next ex_rotated ex_manager_inv ex_im_ok ex_next_inv eq_refl)).
Qed.

Lemma retained_document_exact_witness :
  exists d, RetainedDocument ex_rotated 10 = Some d /\ d ∈ sg_stored ex_rotated.
Proof.
  exists {| DocID := 10; PrimaryKey := [x61]; doc_Payload := [x01; x02] |}. split; [reflexivity|].
  apply (retained_document_exact ex_rotated 10 _ ex_rotated_inv). reflexivity.
Defined.

(** On a store that does not fail, [Fetch] answers every key in request
    order without error, each with the live retained version of that key (the
    version is not deleted and the IDMap maps its key to it) and with nothing
    when there is none; [LiveDocuments] lists exactly those versions. *)
Theorem fetch_live_documents {DB} `{Hkv : KVStore DB} {Hlaws : KVStoreLaws DB} (m : SegmentManager DB) keys :
  ~ store_fails (DB := DB) -> idmap_inv (sg_primaryKey m) -> sg_inv m ->
  exists docs results, LiveDocuments CtxLive m = Ok docs /\
    (forall d, d ∈ docs <-> d ∈ sg_stored m /\ live m d) /\
    sg_Fetch false (fun _ => None) m keys = (results, None) /\
    Forall2 (fun key r => fr_PrimaryKey r = key /\ fr_Err r = None /\
               forall d, fr_Document r = Some d <-> d ∈ docs /\ PrimaryKey d = key) keys results.
Proof.
  intros Hst Hi Hm. destruct (fetch_loop_spec m keys 0 Hst Hi Hm) as (rs & Hf & Hrs).
  exists (filter (live m) (sg_stored m)), rs. split; [by apply LiveDocuments_spec|].
  assert (Hmem : forall d, d ∈ filter (live m) (sg_stored m) <-> d ∈ sg_stored m /\ live m d).
  { intros d. rewrite list_elem_of_filter. tauto. }
  split; [done|]. split; [done|]. eapply Forall2_impl; [exact Hrs|]. intros key r (H1 & H2 & H3).
  split; [done|]. split; [done|]. intros d. rewrite H3, Hmem. tauto.
Qed.

Lemma fetch_live_documents_witness :
  exists docs results, LiveDocuments CtxLive ex_rotated = Ok docs /\
    sg_Fetch false (fun _ => None) ex_rotated [[x61]; [x62]] = (results, None) /\ length results = 2%nat.
Proof.
  destruct (fetch_live_documents ex_rotated [[x61]; [x62]] mem_store_reliable
    (proj2 ex_idmap10_spec) ex_rotated_inv) as (docs & results & H1 & _ & H2 & H3).
  exists docs, results. split; [exact H1|]. split; [exact H2|]. by apply Forall2_length in H3.
Defined.

(** ** When the operations succeed *)
Section registry.
Context {DB : Type} `{KVStore DB}.
Implicit Types (m : SegmentManager DB) (s t : ImmutableSegment).

Lemma sg_NoDup m : sg_inv m -> NoDup (sg_ordered m).
Proof.
  intros Hm. apply (NoDup_fmap_1 im_ID). by apply sg_ids_NoDup.
Qed.

Lemma sg_apart m s t :
  sg_inv m -> s ∈ sg_ordered m -> t ∈ sg_ordered m -> s <> t -> im_max s < im_min t \/ im_max t < im_min s.
Proof.
  intros Hm Hs Ht Hne. pose proof (si_ordered m Hm) as Ho. revert Hs Ht. induction Ho as [|x l Hl IH Hx]; intros Hs Ht.
  { by apply elem_of_nil in Hs. }
  rewrite Forall_forall in Hx. apply elem_of_cons in Hs as [->|Hs], Ht as [->|Ht]; [done|left; by apply Hx|right; by apply Hx|auto].
Qed.

Lemma exists_immutable_none test m :
  sg_inv m -> Forall (fun s => test (im_ID s) s = false) (sg_ordered m) -> exists_immutable test m = false.
Proof.
  intros Hm Hall. unfold exists_immutable. apply not_true_iff_false. intros ([id s] & Hin & Ht)%existsb_exists.
  apply list_elem_of_In, elem_of_map_to_list, (si_map m Hm) in Hin as [Hs <-]. rewrite Forall_forall in Hall.
  cbn in Ht. by rewrite Hall in Ht.
Qed.

Lemma rangesOverlap_apart s t :
  im_max s < im_min t \/ im_max t < im_min s -> rangesOverlap (im_metadata s) (im_metadata t) = false.
Proof. unfold rangesOverlap, im_min, im_max. case_if; [done|]. lia. Qed.
Lemma reservedOverlap_apart w s :
  ws_apart w s -> reservedOverlap (ws_minDocID w) (ws_minDocID w + ws_maxDocs w - 1) (im_metadata s) = false.
Proof. unfold ws_apart, reservedOverlap, im_min, im_max. lia. Qed.

Lemma checkRangeAgainst_ok m s :
  sg_inv m -> Forall (fun t => im_max s < im_min t \/ im_max t < im_min s) (sg_ordered m) ->
  checkRangeAgainstImmutableLocked (im_metadata s) (im_ID s) m = None.
Proof.
  intros Hm Hall. unfold checkRangeAgainstImmutableLocked. case_if; [done|].
  rewrite exists_immutable_none; [done|done|]. eapply Forall_impl; [exact Hall|]. cbn. intros t Ht.
  apply andb_false_iff. right. by apply rangesOverlap_apart.
Qed.

Lemma fresh_id m id : sg_inv m -> Forall (fun t => im_ID t <> id) (sg_ordered m) -> sg_immutable m !! id = None.
Proof.
  intros Hm Hall. destruct (sg_immutable m !! id) as [t|] eqn:E; [|done]. apply (si_map m Hm) in E as [Hin Hid].
  rewrite Forall_forall in Hall. by apply Hall in Hin.
Qed.

Lemma AddImmutable_ok m s :
  sg_inv m -> im_ok s -> Forall (fun t => im_ID t <> im_ID s) (sg_ordered m) ->
  Forall (fun t => im_max s < im_min t \/ im_max t < im_min s) (sg_ordered m) ->
  (forall w, sg_writing m = Some w -> ws_id w <> im_ID s /\ ws_apart w s) ->
  AddImmutable s m = (sg_install m s, None).
Proof.
  intros Hm Hs Hid Hap Hw. unfold AddImmutable. pose proof (im_ok_count s Hs).
  destruct (sm_DocCount (im_metadata s) =? 0) eqn:E0; to_prop; [lia|].
  rewrite (fresh_id m (im_ID s) Hm Hid), bool_decide_eq_false_2 by (by intros [? ?]). cbn [orb].
  pose proof (checkRangeAgainst_ok m s Hm Hap) as Hr. unfold checkRangeAgainstImmutableLocked in Hr. unfold checkRangeLocked.
  destruct (sm_DocCount (im_metadata s) =? 0) eqn:E0'; to_prop; [lia|]. destruct (exists_immutable _ m); [done|].
  destruct (sg_writing m) as [w|] eqn:Ew; [|done]. destruct (Hw w eq_refl) as [Hne Hws].
  destruct (ws_id w =? im_ID s) eqn:E1; to_prop; [done|]. cbn [negb].
  rewrite ReservedRange_spec by by apply (si_writing m Hm). unfold ws_apart in Hws.
  destruct (_ && _) eqn:E2; [|done]. unfold im_min, im_max in Hws. lia.
Qed.

Lemma SetWriting_ok m w :
  sg_inv m -> ws_inv w -> sg_writing m = None -> Forall (fun t => im_ID t <> ws_id w /\ ws_apart w t) (sg_ordered m) ->
  SetWriting w m = (sg_set_writing m (Some w), None).
Proof.
  intros Hm Hw Hn Hall. apply Forall_and in Hall as [Hid Hap]. unfold SetWriting.
  rewrite Hn, (fresh_id m (ws_id w) Hm Hid), bool_decide_eq_false_2 by (by intros [? ?]).
  rewrite ReservedRange_spec by done. rewrite exists_immutable_none; [done|done|].
  eapply Forall_impl; [exact Hap|]. intros t Ht. by apply reservedOverlap_apart.
Qed.

Lemma RotateWriting_ok m w im next :
  sg_inv m -> im_ok im -> ws_inv next -> sg_writing m = Some w -> im_ID im = ws_id w ->
  Forall (fun t => im_max im < im_min t \/ im_max t < im_min im) (sg_ordered m) -> ws_apart next im ->
  ws_id next <> ws_id w -> Forall (fun t => im_ID t <> ws_id next /\ ws_apart next t) (sg_ordered m) ->
  RotateWriting (ws_id w) im next m = (sg_set_writing (sg_install m im) (Some next), None).
Proof.
  intros Hm Him Hn Hw Hid Hap Hni Hne Hall. apply Forall_and in Hall as [Hid' Hap']. unfold RotateWriting.
  rewrite Hw, Hid, Z.eqb_refl. cbn [negb]. destruct (ws_id next =? ws_id w) eqn:E; to_prop; [done|].
  destruct (si_writing m Hm w Hw) as (_ & Hwf & _).
  rewrite Hwf, (fresh_id m (ws_id next) Hm Hid'), !bool_decide_eq_false_2 by (by intros [? ?]).
  pose proof (im_ok_count im Him). destruct (sm_DocCount (im_metadata im) =? 0) eqn:E0; to_prop; [lia|].
  rewrite <- Hid, (checkRangeAgainst_ok m im Hm Hap), ReservedRange_spec by done.
  rewrite (reservedOverlap_apart next im Hni), exists_immutable_none; [done|done|].
  eapply Forall_impl; [exact Hap'|]. intros t Ht. by apply reservedOverlap_apart.
Qed.

(** Segments in the order of their documents are determined as a set. *)
Lemma ordered_unique l l' :
  Forall im_ok l -> StronglySorted im_before l -> StronglySorted im_before l' -> l ≡ₚ l' -> l = l'.
Proof.
  intros Hok Hl Hl' Hp. apply (StronglySorted_unique_strong im_before); try done.
  intros x y Hx Hy H1 H2. exfalso. rewrite Forall_forall in Hok. assert (y ∈ l) as Hy' by by rewrite Hp.
  pose proof (im_ok_range x (Hok x Hx)). pose proof (im_ok_range y (Hok y Hy')). unfold im_before in *. lia.
Qed.
End registry.
