(* ===== verification/WriteEngine.v ===== *)
(** * The write engine: [internal/db/write_engine.go]

    Every mutation is encoded, appended to the write-ahead log and then applied
    to the segment manager.  The log is the interface [writeAheadLog] of the
    code, here the class [AppendLog]; [Wal.WAL] implements it.

    A batch sees its context once per input and once more inside [Append]; the
    answers are [polls (2*i)] and [polls (2*i+1)].  [context.WithoutCancel]
    never reports an error, so the applications run under [CtxLive]. *)
From S2P Require Import Prelude Bytes Crc32c Utf8 KeyStore IdMap FileIO Wal Paths Snapshot Manifest Segment SegmentManager.
#[local] Open Scope Z_scope.

Definition writeOperationVersion : Z := 3.
Definition writeOperationHeaderSize : Z := 24.
Definition writeOperationMagic : bytes := byte_of_Z <$> [90; 79; 80; 49].

Definition ErrPrimaryKeyExists : gerror := errors_New "db: primary key already exists".
Definition ErrPrimaryKeyNotFound : gerror := errors_New "db: primary key not found".
Definition ErrWriteEnginePoisoned : gerror := errors_New "db: write engine requires reopen".

(** [writeOperationType], a [uint8] *)
Definition writeOperationInsert : Z := 1.
Definition writeOperationUpsert : Z := 2.
Definition writeOperationUpdate : Z := 3.
Definition writeOperationDelete : Z := 4.

Record writeOperation := {
  op_Type : Z;
  op_DocID : Z;
  op_PrimaryKey : bytes;
  op_Payload : bytes
}.

Record WriteInput := { in_PrimaryKey : bytes; in_Payload : bytes }.
Record WriteResult := { wr_PrimaryKey : bytes; wr_DocID : Z; wr_Err : option gerror }.

(** ** The operation codec *)
Definition encodeWriteOperation (operation : writeOperation) : result bytes :=
  if (op_Type operation <? writeOperationInsert) || (writeOperationDelete <? op_Type operation)
  then Fail (errors_New "db: invalid write operation type")
  else match ValidatePrimaryKey (op_PrimaryKey operation) with
  | Fail e => Fail e
  | Ok _ =>
  if MaxDocumentPayloadSize <? zlen (op_Payload operation)
  then Fail (errors_New "db: write operation payload is too large")
  else
    let key := op_PrimaryKey operation in
    let payload := op_Payload operation in
    let encoded := make_bytes (28 + (length key + length payload)) in
    let encoded := splice 0 writeOperationMagic encoded in
    let encoded := splice 4 (le_put 2 writeOperationVersion) encoded in
    let encoded := splice 6 [byte_of_Z (op_Type operation)] encoded in
    let encoded := splice 8 (le_put 8 (op_DocID operation)) encoded in
    let encoded := splice 16 (le_put 4 (wrap32 (zlen key))) encoded in
    let encoded := splice 20 (le_put 4 (wrap32 (zlen payload))) encoded in
    let encoded := splice 28 key encoded in
    let encoded := splice (28 + length key) payload encoded in
    let crc := CRC32C (slice 0 24 encoded) in
    let crc := UpdateCRC32C crc (drop 28 encoded) in
    Ok (splice 24 (le_put 4 crc) encoded)
  end.

Definition decodeWriteOperation (encoded : bytes) : result writeOperation :=
  if zlen encoded <? writeOperationHeaderSize + 4 then Fail (errors_New "db: truncated write operation")
  else if negb (bytes_eqb (slice 0 4 encoded) writeOperationMagic)
  then Fail (errors_New "db: invalid write operation magic")
  else if negb (le_get (slice 4 6 encoded) =? writeOperationVersion)
  then Fail (errorf "write operation version" ErrUnsupportedFormatVersion)
  else
    let operationType := le_get (slice 6 7 encoded) in
    if (operationType <? writeOperationInsert) || (writeOperationDelete <? operationType)
       || negb (le_get (slice 7 8 encoded) =? 0)
    then Fail (errors_New "db: invalid write operation type or flags")
    else
    let keyLength := le_get (slice 16 20 encoded) in
    let payloadLength := le_get (slice 20 24 encoded) in
    if (keyLength =? 0) || (MaxPrimaryKeyBytes <? keyLength) || (MaxDocumentPayloadSize <? payloadLength)
       || negb (keyLength + payloadLength =? zlen encoded - writeOperationHeaderSize - 4)
    then Fail (errors_New "db: invalid write operation lengths")
    else
    let expectedCRC := le_get (slice 24 28 encoded) in
    let crc := CRC32C (slice 0 24 encoded) in
    let crc := UpdateCRC32C crc (drop 28 encoded) in
    if negb (crc =? expectedCRC) then Fail (errors_New "db: write operation checksum mismatch")
    else
    let key := slice 28 (28 + Z.to_nat keyLength) encoded in
    match ValidatePrimaryKey key with
    | Fail e => Fail e
    | Ok _ => Ok {| op_Type := operationType; op_DocID := le_get (slice 8 16 encoded);
                    op_PrimaryKey := key; op_Payload := drop (28 + Z.to_nat keyLength) encoded |}
    end.

(** ** The engine *)

(** [writeAheadLog]: [Append] under the outcomes [IO] of the operating system. *)
Class AppendLog (W IO : Type) := {
  al_Append : context -> IO -> bytes -> W -> W * (Z * option gerror)
}.
#[export] Instance wal_AppendLog : AppendLog WAL wal_io := {| al_Append := WAL_Append |}.

Record WriteEngine (DB W : Type) := {
  e_manager : SegmentManager DB;
  e_wal : W;
  e_poisoned : option gerror
}.
Arguments e_manager {DB W} _.
Arguments e_wal {DB W} _.
Arguments e_poisoned {DB W} _.
Arguments Build_WriteEngine {DB W} _ _ _.

Section engine.
Context {DB W IO : Type} `{KVStore DB} `{AppendLog W IO}.
Implicit Types (e : WriteEngine DB W) (m : SegmentManager DB).

Definition NewWriteEngine m (wal : W) : result (WriteEngine DB W) :=
  match sg_writing m with
  | None => Fail (errors_New "db: segment manager has no writing segment")
  | Some _ => Ok {| e_manager := m; e_wal := wal; e_poisoned := None |}
  end.

Definition e_set_manager e m : WriteEngine DB W :=
  {| e_manager := m; e_wal := e_wal e; e_poisoned := e_poisoned e |}.
Definition e_set_wal e (w : W) : WriteEngine DB W :=
  {| e_manager := e_manager e; e_wal := w; e_poisoned := e_poisoned e |}.
Definition m_set_pk m (pk : PrimaryKeyMap DB) : SegmentManager DB := sg_set_stores m pk (sg_deletes m).
Definition m_set_deletes m (d : DeleteStore) : SegmentManager DB := sg_set_stores m (sg_primaryKey m) d.

(** [poisonLocked]; the cause is nil only if [errors.Join] was. *)
Definition poisonLocked (cause : option gerror) e : WriteEngine DB W * option gerror :=
  match cause with
  | None => (e, None)
  | Some c =>
      match e_poisoned e with
      | Some p => (e, Some p)
      | None =>
          let p := errors_Join [Some ErrWriteEnginePoisoned; Some c] in
          ({| e_manager := e_manager e; e_wal := e_wal e; e_poisoned := p |}, p)
      end
  end.

(** [return 0, e.poisonLocked(errors.Join(syncErr, fmt.Errorf(text, err)))] *)
Definition poison_apply (syncErr : option gerror) (text : string) (err : gerror) e
    : WriteEngine DB W * (Z * option gerror) :=
  let '(e, p) := poisonLocked (errors_Join [syncErr; Some (errorf text err)]) e in (e, (0, p)).

(** The common ending: a failed synchronization poisons the engine. *)
Definition finish (docID : Z) (syncErr : option gerror) e : WriteEngine DB W * (Z * option gerror) :=
  match syncErr with
  | Some _ => let '(e, p) := poisonLocked syncErr e in (e, (docID, p))
  | None => (e, (docID, None))
  end.

Definition err_payload_too_large : gerror := errors_New "db: document payload is too large".
Definition err_no_writing : gerror := errors_New "db: no writing segment".

Definition insertOneLocked (ctx : context) (io : IO) (input : WriteInput) e
    : WriteEngine DB W * (Z * option gerror) :=
  match e_poisoned e with
  | Some p => (e, (0, Some p))
  | None =>
  match ValidatePrimaryKey (in_PrimaryKey input) with
  | Fail err => (e, (0, Some err))
  | Ok _ =>
  if MaxDocumentPayloadSize <? zlen (in_Payload input) then (e, (0, Some err_payload_too_large))
  else match idmap_Get (sg_primaryKey (e_manager e)) (in_PrimaryKey input) with
  | Fail err => (e, (0, Some err))
  | Ok (_, true) => (e, (0, Some (errorf "" ErrPrimaryKeyExists)))
  | Ok (_, false) =>
  match sg_writing (e_manager e) with
  | None => (e, (0, Some err_no_writing))
  | Some writing =>
  match NextDocumentID writing with
  | Fail err => (e, (0, Some err))
  | Ok docID =>
  match encodeWriteOperation {| op_Type := writeOperationInsert; op_DocID := docID;
          op_PrimaryKey := in_PrimaryKey input; op_Payload := in_Payload input |} with
  | Fail err => (e, (0, Some err))
  | Ok encoded =>
  let '(w, (lsn, syncErr)) := al_Append ctx io encoded (e_wal e) in
  let e := e_set_wal e w in
  if match syncErr with Some _ => lsn =? 0 | None => false end then (e, (0, syncErr))
  else match ApplyExpected CtxLive docID (in_PrimaryKey input) (in_Payload input) writing with
  | (writing, Some err) => poison_apply syncErr "db: apply WAL insert" err e
  | (writing, None) =>
  let e := e_set_manager e (sg_set_writing (e_manager e) (Some writing)) in
  match idmap_PutNew CtxLive (in_PrimaryKey input) docID (sg_primaryKey (e_manager e)) with
  | (pk, Some err) => poison_apply syncErr "db: index WAL insert" err (e_set_manager e (m_set_pk (e_manager e) pk))
  | (pk, None) => finish docID syncErr (e_set_manager e (m_set_pk (e_manager e) pk))
  end end end end end end end end.

Definition upsertOneLocked (ctx : context) (io : IO) (input : WriteInput) e
    : WriteEngine DB W * (Z * option gerror) :=
  match e_poisoned e with
  | Some p => (e, (0, Some p))
  | None =>
  match ValidatePrimaryKey (in_PrimaryKey input) with
  | Fail err => (e, (0, Some err))
  | Ok _ =>
  if MaxDocumentPayloadSize <? zlen (in_Payload input) then (e, (0, Some err_payload_too_large))
  else match idmap_Get (sg_primaryKey (e_manager e)) (in_PrimaryKey input) with
  | Fail err => (e, (0, Some err))
  | Ok (previous, existed) =>
  match sg_writing (e_manager e) with
  | None => (e, (0, Some err_no_writing))
  | Some writing =>
  match NextDocumentID writing with
  | Fail err => (e, (0, Some err))
  | Ok docID =>
  match encodeWriteOperation {| op_Type := writeOperationUpsert; op_DocID := docID;
          op_PrimaryKey := in_PrimaryKey input; op_Payload := in_Payload input |} with
  | Fail err => (e, (0, Some err))
  | Ok encoded =>
  let '(w, (lsn, syncErr)) := al_Append ctx io encoded (e_wal e) in
  let e := e_set_wal e w in
  if match syncErr with Some _ => lsn =? 0 | None => false end then (e, (0, syncErr))
  else match ApplyExpected CtxLive docID (in_PrimaryKey input) (in_Payload input) writing with
  | (writing, Some err) => poison_apply syncErr "db: apply WAL upsert" err e
  | (writing, None) =>
  let e := e_set_manager e (sg_set_writing (e_manager e) (Some writing)) in
  match (if existed then MarkDeleted CtxLive previous (sg_deletes (e_manager e))
         else (sg_deletes (e_manager e), Ok false)) with
  | (deletes, Fail err) => poison_apply syncErr "db: delete prior upsert version" err
                             (e_set_manager e (m_set_deletes (e_manager e) deletes))
  | (deletes, Ok _) =>
  let e := e_set_manager e (m_set_deletes (e_manager e) deletes) in
  match idmap_Put CtxLive (in_PrimaryKey input) docID (sg_primaryKey (e_manager e)) with
  | (pk, Fail err) => poison_apply syncErr "db: index WAL upsert" err (e_set_manager e (m_set_pk (e_manager e) pk))
  | (pk, Ok _) => finish docID syncErr (e_set_manager e (m_set_pk (e_manager e) pk))
  end end end end end end end end end.

Definition updateOneLocked (ctx : context) (io : IO) (input : WriteInput) e
    : WriteEngine DB W * (Z * option gerror) :=
  match e_poisoned e with
  | Some p => (e, (0, Some p))
  | None =>
  match ValidatePrimaryKey (in_PrimaryKey input) with
  | Fail err => (e, (0, Some err))
  | Ok _ =>
  if MaxDocumentPayloadSize <? zlen (in_Payload input) then (e, (0, Some err_payload_too_large))
  else match idmap_Get (sg_primaryKey (e_manager e)) (in_PrimaryKey input) with
  | Fail err => (e, (0, Some err))
  | Ok (_, false) => (e, (0, Some (errorf "" ErrPrimaryKeyNotFound)))
  | Ok (previous, true) =>
  match sg_writing (e_manager e) with
  | None => (e, (0, Some err_no_writing))
  | Some writing =>
  match NextDocumentID writing with
  | Fail err => (e, (0, Some err))
  | Ok docID =>
  match encodeWriteOperation {| op_Type := writeOperationUpdate; op_DocID := docID;
          op_PrimaryKey := in_PrimaryKey input; op_Payload := in_Payload input |} with
  | Fail err => (e, (0, Some err))
  | Ok encoded =>
  let '(w, (lsn, syncErr)) := al_Append ctx io encoded (e_wal e) in
  let e := e_set_wal e w in
  if match syncErr with Some _ => lsn =? 0 | None => false end then (e, (0, syncErr))
  else match ApplyExpected CtxLive docID (in_PrimaryKey input) (in_Payload input) writing with
  | (writing, Some err) => poison_apply syncErr "db: apply WAL update" err e
  | (writing, None) =>
  let e := e_set_manager e (sg_set_writing (e_manager e) (Some writing)) in
  match MarkDeleted CtxLive previous (sg_deletes (e_manager e)) with
  | (deletes, Fail err) => poison_apply syncErr "db: delete prior update version" err
                             (e_set_manager e (m_set_deletes (e_manager e) deletes))
  | (deletes, Ok _) =>
  let e := e_set_manager e (m_set_deletes (e_manager e) deletes) in
  match idmap_Put CtxLive (in_PrimaryKey input) docID (sg_primaryKey (e_manager e)) with
  | (pk, Fail err) => poison_apply syncErr "db: index WAL update" err (e_set_manager e (m_set_pk (e_manager e) pk))
  | (pk, Ok _) => finish docID syncErr (e_set_manager e (m_set_pk (e_manager e) pk))
  end end end end end end end end end.

Definition deleteOneLocked (ctx : context) (io : IO) (primaryKey : bytes) e
    : WriteEngine DB W * (Z * option gerror) :=
  match e_poisoned e with
  | Some p => (e, (0, Some p))
  | None =>
  match ValidatePrimaryKey primaryKey with
  | Fail err => (e, (0, Some err))
  | Ok _ =>
  match idmap_Get (sg_primaryKey (e_manager e)) primaryKey with
  | Fail err => (e, (0, Some err))
  | Ok (_, false) => (e, (0, Some (errorf "" ErrPrimaryKeyNotFound)))
  | Ok (docID, true) =>
  match encodeWriteOperation {| op_Type := writeOperationDelete; op_DocID := docID;
          op_PrimaryKey := primaryKey; op_Payload := [] |} with
  | Fail err => (e, (0, Some err))
  | Ok encoded =>
  let '(w, (lsn, syncErr)) := al_Append ctx io encoded (e_wal e) in
  let e := e_set_wal e w in
  if match syncErr with Some _ => lsn =? 0 | None => false end then (e, (0, syncErr))
  else match MarkDeleted CtxLive docID (sg_deletes (e_manager e)) with
  | (deletes, Fail err) => poison_apply syncErr "db: apply WAL delete" err
                             (e_set_manager e (m_set_deletes (e_manager e) deletes))
  | (deletes, Ok _) =>
  let e := e_set_manager e (m_set_deletes (e_manager e) deletes) in
  match idmap_Delete CtxLive primaryKey (sg_primaryKey (e_manager e)) with
  | (pk, Fail err) => poison_apply syncErr "db: remove deleted primary key" err
                        (e_set_manager e (m_set_pk (e_manager e) pk))
  | (pk, Ok (removed, found)) =>
      let e := e_set_manager e (m_set_pk (e_manager e) pk) in
      if negb found || negb (removed =? docID)
      then let '(e, p) := poisonLocked (errors_Join [syncErr; Some (errors_New "db: IDMap changed while applying delete")]) e in (e, (0, p))
      else finish docID syncErr e
  end end end end end end.

(** The loop that [Insert], [Upsert], [Update] and [Delete] share: results, and
    the causes collected by the [BatchWriteError]. *)
Fixpoint batch_loop {A : Type} (one : context -> IO -> A -> WriteEngine DB W -> WriteEngine DB W * (Z * option gerror))
    (key : A -> bytes) (polls : nat -> context) (ios : nat -> IO) (index : nat) (inputs : list A) e
    : WriteEngine DB W * (list WriteResult * list gerror) :=
  match inputs with
  | [] => (e, ([], []))
  | input :: rest =>
      match ctx_Err (polls (2 * index)%nat) with
      | Some err =>
          (e, ((fun i => {| wr_PrimaryKey := key i; wr_DocID := 0; wr_Err := Some err |}) <$> inputs,
               (fun _ => err) <$> inputs))
      | None =>
          let '(e, (docID, err)) := one (polls (2 * index + 1)%nat) (ios index) input e in
          let '(e, (results, causes)) := batch_loop one key polls ios (S index) rest e in
          (e, ({| wr_PrimaryKey := key input; wr_DocID := docID; wr_Err := err |} :: results,
               match err with Some c => c :: causes | None => causes end))
      end
  end.

(** The returned error: nil, or a [BatchWriteError] over the causes. *)
Definition batch_error (causes : list gerror) : option gerror :=
  match causes with [] => None | _ => Some (GErr "db: document writes failed" causes) end.

Definition batch {A : Type} one (key : A -> bytes) (text_nil text_empty : string) (isnil : bool)
    (polls : nat -> context) (ios : nat -> IO) (inputs : list A) e
    : WriteEngine DB W * (list WriteResult * option gerror) :=
  if isnil then (e, ([], Some (errors_New text_nil)))
  else match inputs with
  | [] => (e, ([], Some (errors_New text_empty)))
  | _ =>
      let '(e, (results, causes)) := batch_loop one key polls ios 0 inputs e in
      (e, (results, batch_error causes))
  end.

Definition engine_Insert := batch insertOneLocked in_PrimaryKey "db: nil insert context" "db: insert batch is empty".
Definition engine_Upsert := batch upsertOneLocked in_PrimaryKey "db: nil upsert context" "db: upsert batch is empty".
Definition engine_Update := batch updateOneLocked in_PrimaryKey "db: nil update context" "db: update batch is empty".
Definition engine_Delete := batch deleteOneLocked (fun k : bytes => k) "db: nil delete context" "db: delete batch is empty".

(** [Err] *)
Definition engine_Err e : option gerror := e_poisoned e.
End engine.

(** ** Layout of the operation codec *)
Definition op_prefix (op : writeOperation) : bytes :=
  writeOperationMagic ++ le_put 2 writeOperationVersion ++ [byte_of_Z (op_Type op)] ++ [x00] ++
  le_put 8 (op_DocID op) ++ le_put 4 (wrap32 (zlen (op_PrimaryKey op))) ++ le_put 4 (wrap32 (zlen (op_Payload op))).
Definition op_body (op : writeOperation) : bytes := op_PrimaryKey op ++ op_Payload op.
Definition op_crc (op : writeOperation) : Z := UpdateCRC32C (CRC32C (op_prefix op)) (op_body op).
Definition op_bytes (op : writeOperation) : bytes := (op_prefix op ++ le_put 4 (op_crc op)) ++ op_body op.

(** The operations that the codec represents. *)
Record op_ok (op : writeOperation) : Prop := {
  oo_type : 1 <= op_Type op <= 4;
  oo_docID : is_u64 (op_DocID op);
  oo_key : valid_key (op_PrimaryKey op);
  oo_payload : zlen (op_Payload op) <= MaxDocumentPayloadSize
}.

Lemma encodeWriteOperation_ok op :
  1 <= op_Type op <= 4 -> valid_key (op_PrimaryKey op) -> zlen (op_Payload op) <= MaxDocumentPayloadSize ->
  encodeWriteOperation op = Ok (op_bytes op).
Proof.
  intros Ht Hk Hp. unfold encodeWriteOperation, writeOperationInsert, writeOperationDelete.
  destruct (op_Type op <? 1) eqn:E1; to_prop; [lia|]. destruct (4 <? op_Type op) eqn:E2; to_prop; [lia|].
  cbn [orb]. unfold valid_key in Hk. rewrite Hk.
  destruct (MaxDocumentPayloadSize <? zlen (op_Payload op)) eqn:E3; to_prop; [lia|].
  rewrite make_bytes_add. rewrite !(splice_app_l _ _ (make_bytes 28)) by (apply Nat.leb_le; reflexivity).
  rewrite !splice_app_l by (apply Nat.leb_le; reflexivity).
  set (h := splice 20 _ _).
  assert (h = op_prefix op ++ make_bytes 4) as -> by reflexivity.
  assert (length (op_prefix op ++ make_bytes 4) = 28%nat) as Hl by reflexivity.
  rewrite (make_bytes_add (length (op_PrimaryKey op))).
  rewrite (splice_field 28 _ _ (make_bytes (length (op_PrimaryKey op)))) by
    (done || by unfold make_bytes; rewrite length_replicate).
  rewrite app_assoc.
  replace (28 + length (op_PrimaryKey op))%nat with (length ((op_prefix op ++ make_bytes 4) ++ op_PrimaryKey op))
    by (rewrite (length_app (op_prefix op ++ make_bytes 4)), Hl; lia).
  rewrite splice_tail by done. rewrite <- (app_assoc _ (op_PrimaryKey op)). fold (op_body op).
  assert (slice 0 24 ((op_prefix op ++ make_bytes 4) ++ op_body op) = op_prefix op) as ->.
  { rewrite <- app_assoc. by apply (slice_field 0 24 []). }
  rewrite drop_app_exact by done. fold (op_crc op). apply (f_equal Ok).
  rewrite <- app_assoc. rewrite (splice_field 24 _ (op_prefix op) (make_bytes 4)) by done.
  unfold op_bytes. by rewrite <- app_assoc.
Qed.

Lemma encodeWriteOperation_inv op encoded :
  encodeWriteOperation op = Ok encoded ->
  1 <= op_Type op <= 4 /\ valid_key (op_PrimaryKey op) /\ zlen (op_Payload op) <= MaxDocumentPayloadSize /\
  encoded = op_bytes op.
Proof.
  intros H. assert (1 <= op_Type op <= 4 /\ valid_key (op_PrimaryKey op) /\ zlen (op_Payload op) <= MaxDocumentPayloadSize)
    as (H1 & H2 & H3).
  { unfold encodeWriteOperation, writeOperationInsert, writeOperationDelete in H.
    destruct (op_Type op <? 1) eqn:E1; [discriminate H|]. destruct (4 <? op_Type op) eqn:E2; [discriminate H|].
    cbn [orb] in H. unfold valid_key. destruct (ValidatePrimaryKey (op_PrimaryKey op)) as [[]|]; [|discriminate H].
    destruct (MaxDocumentPayloadSize <? zlen (op_Payload op)) eqn:E3; [discriminate H|]. to_prop. split; [lia|done]. }
  rewrite encodeWriteOperation_ok in H by done. by injection H as <-.
Qed.

Lemma zlen_op_bytes op : zlen (op_bytes op) = 28 + zlen (op_PrimaryKey op) + zlen (op_Payload op).
Proof.
  unfold op_bytes, op_body. rewrite (zlen_app (op_prefix op ++ le_put 4 (op_crc op))), (zlen_app (op_PrimaryKey op)).
  change (zlen (op_prefix op ++ le_put 4 (op_crc op))) with 28. lia.
Qed.

Lemma le_get_single b : le_get [b] = Z_of_byte b.
Proof. cbn [le_get]. lia. Qed.

Lemma decodeWriteOperation_bytes op : op_ok op -> decodeWriteOperation (op_bytes op) = Ok op.
Proof.
  intros [Ht Hd Hk Hp]. pose proof (valid_key_length _ Hk) as Hkl. pose proof (zlen_nonneg (op_Payload op)) as Hp0.
  unfold MaxPrimaryKeyBytes, MaxDocumentPayloadSize in *. unfold decodeWriteOperation.
  rewrite zlen_op_bytes. unfold writeOperationHeaderSize.
  case_if; [to_prop; lia|]. clear E.
  assert (Hs : forall lo hi, (hi <= 28)%nat -> slice lo hi (op_bytes op) = slice lo hi (op_prefix op ++ le_put 4 (op_crc op))).
  { intros lo hi Hhi. unfold op_bytes. apply slice_app_l. exact Hhi. }
  rewrite (Hs 0%nat 4%nat), (Hs 4%nat 6%nat), (Hs 6%nat 7%nat), (Hs 7%nat 8%nat), (Hs 8%nat 16%nat),
    (Hs 16%nat 20%nat), (Hs 20%nat 24%nat), (Hs 24%nat 28%nat), (Hs 0%nat 24%nat) by (apply Nat.leb_le; reflexivity).
  set (h := op_prefix op ++ le_put 4 (op_crc op)).
  change (slice 0 4 h) with writeOperationMagic. change (slice 4 6 h) with (le_put 2 writeOperationVersion).
  change (slice 6 7 h) with [byte_of_Z (op_Type op)]. change (slice 7 8 h) with [x00].
  change (slice 8 16 h) with (le_put 8 (op_DocID op)).
  change (slice 16 20 h) with (le_put 4 (wrap32 (zlen (op_PrimaryKey op)))).
  change (slice 20 24 h) with (le_put 4 (wrap32 (zlen (op_Payload op)))).
  change (slice 24 28 h) with (le_put 4 (op_crc op)). change (slice 0 24 h) with (op_prefix op).
  assert (drop 28 (op_bytes op) = op_body op) as -> by by apply drop_app_exact.
  assert (wrap32 (zlen (op_PrimaryKey op)) = zlen (op_PrimaryKey op)) as -> by (unfold wrap32; apply Z.mod_small; lia).
  assert (wrap32 (zlen (op_Payload op)) = zlen (op_Payload op)) as -> by (unfold wrap32; apply Z.mod_small; lia).
  rewrite bytes_eqb_refl, !le_get_single, Z_of_byte_of_Z, Z.mod_small by lia.
  change (le_get (le_put 2 writeOperationVersion) =? writeOperationVersion) with true.
  change (Z_of_byte x00 =? 0) with true. cbn [negb].
  unfold writeOperationInsert, writeOperationDelete.
  destruct (op_Type op <? 1) eqn:E1; to_prop; [lia|]. destruct (4 <? op_Type op) eqn:E2; to_prop; [lia|].
  rewrite (le_get_put8 _ Hd). rewrite !le_get_put4;
    [|apply UpdateCRC32C_range, CRC32C_range|unfold is_u32, u32_max; lia|unfold is_u32, u32_max; lia].
  unfold MaxPrimaryKeyBytes, MaxDocumentPayloadSize.
  destruct (zlen (op_PrimaryKey op) =? 0) eqn:E3; to_prop; [lia|].
  destruct (65536 <? zlen (op_PrimaryKey op)) eqn:E4; to_prop; [lia|].
  destruct (67108864 <? zlen (op_Payload op)) eqn:E5; to_prop; [lia|].
  match goal with |- context [?a =? 28 + ?b + ?c - 24 - 4] => destruct (a =? 28 + b + c - 24 - 4) eqn:E6; [|to_prop; lia] end.
  cbn [orb negb]. fold (op_crc op). rewrite (Z.eqb_refl (op_crc op)). cbn [negb]. rewrite zlen_to_nat.
  assert (slice 28 (28 + length (op_PrimaryKey op)) (op_bytes op) = op_PrimaryKey op) as ->.
  { unfold op_bytes, op_body. apply slice_field; [reflexivity|lia]. }
  unfold valid_key in Hk. rewrite Hk.
  assert (drop (28 + length (op_PrimaryKey op)) (op_bytes op) = op_Payload op) as ->.
  { unfold op_bytes, op_body. rewrite app_assoc. apply drop_app_exact. rewrite length_app. reflexivity. }
  by destruct op.
Qed.

Lemma decodeWriteOperation_inv encoded op :
  decodeWriteOperation encoded = Ok op -> encoded = op_bytes op /\ op_ok op.
Proof.
  intros H. unfold decodeWriteOperation in H. unfold writeOperationInsert, writeOperationDelete, writeOperationHeaderSize in H.
  repeat (case_in H; [discriminate H|]).
  destruct (ValidatePrimaryKey _) as [[]|] eqn:Hk; [|discriminate H]. injection H as <-.
  apply orb_false_iff in E2 as [E2 E2c]. apply orb_false_iff in E2 as [E2a E2b].
  apply orb_false_iff in E3 as [E3 E3d]. apply orb_false_iff in E3 as [E3 E3c]. apply orb_false_iff in E3 as [E3a E3b].
  to_prop.
  assert (28 <= length encoded)%nat as Hlen by (unfold zlen in *; lia).
  pose proof (le_get_u32 (slice 16 20 encoded)) as B1. pose proof (le_get_u32 (slice 20 24 encoded)) as B2.
  rewrite length_slice in B1, B2 by lia. specialize (B1 eq_refl). specialize (B2 eq_refl).
  set (kl := Z.to_nat (le_get (slice 16 20 encoded))) in *.
  set (key := slice 28 (28 + kl) encoded) in *. set (pay := drop (28 + kl) encoded).
  assert (zlen key = le_get (slice 16 20 encoded)) as Hzk.
  { unfold key, zlen. rewrite length_slice by (unfold zlen in *; lia). lia. }
  assert (zlen pay = le_get (slice 20 24 encoded)) as Hzp.
  { unfold pay, zlen. rewrite length_drop. unfold zlen in *. lia. }
  set (op := {| op_Type := le_get (slice 6 7 encoded); op_DocID := le_get (slice 8 16 encoded); op_PrimaryKey := key; op_Payload := pay |}).
  assert (drop 28 encoded = op_body op) as Hbody.
  { unfold op_body, op, key, pay, slice. cbn [op_PrimaryKey op_Payload].
    replace (28 + kl - 28)%nat with kl by lia. rewrite <- drop_drop. by rewrite take_drop. }
  assert (slice 0 24 encoded = op_prefix op) as Hpre.
  { unfold op_prefix, op. cbn [op_Type op_DocID op_PrimaryKey op_Payload].
    rewrite (slice_split 0 4 24), (slice_split 4 6 24), (slice_split 6 7 24), (slice_split 7 8 24),
      (slice_split 8 16 24), (slice_split 16 20 24) by lia.
    unfold wrap32. rewrite Hzk, Hzp, !Z.mod_small by lia.
    f_equal; [by apply bytes_eqb_eq|].
    f_equal; [by apply (slice_le_get 4 6); [lia|]|].
    f_equal; [rewrite (slice_le_put 6 7 encoded) at 1 by lia; reflexivity|].
    f_equal; [rewrite (slice_le_get 7 8 encoded 0) by (lia || done); reflexivity|].
    f_equal; [by apply (slice_le_put 8 16); lia|].
    f_equal; [by apply (slice_le_put 16 20); lia|by apply (slice_le_put 20 24); lia]. }
  assert (le_get (slice 24 28 encoded) = op_crc op) as Hcrc by by rewrite <- E4, Hpre, Hbody.
  split.
  - rewrite <- (take_drop 28 encoded) at 1. unfold op_bytes. rewrite Hbody. f_equal.
    rewrite take_slice, (slice_split 0 24 28) by lia. rewrite Hpre. f_equal.
    by apply (slice_le_get 24 28); [lia|].
  - constructor; cbn [op_Type op_DocID op_PrimaryKey op_Payload op]; [lia|apply le_get_u64; rewrite length_slice by lia; lia|done|].
    change (zlen pay <= MaxDocumentPayloadSize). lia.
Qed.

#[global] Opaque op_bytes.

(** C37: the codec of logged operations is exact: the decoder accepts precisely
    the strings that the encoder writes, and gives back the operation that was
    encoded, for every operation the encoder accepts. *)
Theorem write_operation_codec (op : writeOperation) (encoded : bytes) :
  decodeWriteOperation encoded = Ok op <-> is_u64 (op_DocID op) /\ encodeWriteOperation op = Ok encoded.
Proof.
  split.
  - intros [-> [Ht Hd Hk Hp]]%decodeWriteOperation_inv. split; [exact Hd|]. by apply encodeWriteOperation_ok.
  - intros [Hd (Ht & Hk & Hp & ->)%encodeWriteOperation_inv]. apply decodeWriteOperation_bytes. by constructor.
Qed.
