(* ===== verification/Recovery.v ===== *)
(** * Recovery: the replay of [internal/db/collection.go]

    [OpenCollection] rebuilds the manager from the checkpoint and replays the
    write-ahead log over it.  This file models the application of a recovered
    operation, the replay and the check of the recovered state, gives the
    manager an abstract state that the write engine and the replay both
    transform, and proves that replay reproduces what the engine had in memory. *)
From S2P Require Import Prelude Bytes Crc32c Utf8 KeyStore IdMap FileIO Wal Paths Snapshot Manifest Segment SegmentManager WriteEngine.
From stdpp Require Import sorting.
#[local] Open Scope Z_scope.

Definition ErrCollectionClosed : gerror := errors_New "db: collection is closed".
Definition ErrCollectionCorrupt : gerror := errors_New "db: corrupt collection".
Definition collection_corrupt (detail : string) : gerror := GErr detail [ErrCollectionCorrupt].

Section recovery.
Context {DB : Type} `{KVStore DB}.
Implicit Types (m : SegmentManager DB).

(** A failed application makes the open fail, which discards the manager. *)
Definition applyRecoveredOperation (ctx : context) (operation : writeOperation) m : result (SegmentManager DB) :=
  let key := op_PrimaryKey operation in
  let docID := op_DocID operation in
  let type := op_Type operation in
  if negb (type =? writeOperationDelete) && bool_decide (sg_writing m = None)
  then Fail (errors_New "operation requires a writing segment")
  else if type =? writeOperationInsert then
    match idmap_Get (sg_primaryKey m) key with
    | Fail e => Fail e
    | Ok (_, true) => Fail ErrPrimaryKeyExists
    | Ok (_, false) =>
    match sg_writing m with
    | None => Fail (errors_New "operation requires a writing segment")
    | Some writing =>
    match ApplyExpected ctx docID key (op_Payload operation) writing with
    | (_, Some e) => Fail e
    | (writing, None) =>
    match idmap_PutNew ctx key docID (sg_primaryKey m) with
    | (_, Some e) => Fail e
    | (pk, None) => Ok (m_set_pk (sg_set_writing m (Some writing)) pk)
    end end end end
  else if (type =? writeOperationUpsert) || (type =? writeOperationUpdate) then
    match idmap_Get (sg_primaryKey m) key with
    | Fail e => Fail e
    | Ok (previous, existed) =>
    if (type =? writeOperationUpdate) && negb existed then Fail ErrPrimaryKeyNotFound
    else match sg_writing m with
    | None => Fail (errors_New "operation requires a writing segment")
    | Some writing =>
    match ApplyExpected ctx docID key (op_Payload operation) writing with
    | (_, Some e) => Fail e
    | (writing, None) =>
    match (if existed then MarkDeleted ctx previous (sg_deletes m) else (sg_deletes m, Ok false)) with
    | (_, Fail e) => Fail e
    | (deletes, Ok _) =>
    match idmap_Put ctx key docID (sg_primaryKey m) with
    | (_, Fail e) => Fail e
    | (pk, Ok _) => Ok (sg_set_stores (sg_set_writing m (Some writing)) pk deletes)
    end end end end end
  else if type =? writeOperationDelete then
    if negb (zlen (op_Payload operation) =? 0) then Fail (errors_New "delete operation contains a payload")
    else match idmap_Get (sg_primaryKey m) key with
    | Fail e => Fail e
    | Ok (id, existed) =>
    if negb existed || negb (id =? docID) then Fail ErrPrimaryKeyNotFound
    else match MarkDeleted ctx docID (sg_deletes m) with
    | (_, Fail e) => Fail e
    | (deletes, Ok _) =>
    match idmap_Delete ctx key (sg_primaryKey m) with
    | (_, Fail e) => Fail (GErr "" [e; ErrPrimaryKeyNotFound])
    | (_, Ok (_, false)) => Fail (GErr "" [ErrPrimaryKeyNotFound])
    | (pk, Ok (_, true)) => Ok (sg_set_stores m pk deletes)
    end end end
  else Fail (errors_New "unknown write operation").

(** The callback of [replayWriteWAL]. *)
Definition replay_record (ctx : context) m (record : WALRecord) : result (SegmentManager DB) :=
  match decodeWriteOperation (Payload record) with
  | Fail e => Fail (wal_corrupt "decode operation")
  | Ok operation =>
      match applyRecoveredOperation ctx operation m with
      | Fail e => Fail (wal_corrupt "apply operation")
      | Ok m => Ok m
      end
  end.

Definition replayWriteWAL (ctx : context) (wal : WAL) m : option (SegmentManager DB * option gerror) :=
  WAL_Replay ctx (replay_record ctx) wal m.

(** [validateCollectionState]: the documents seen by [collect], the deletions,
    the count and the IDMap's entries.  [overlayOrder] as in [ForEach]. *)
Definition collect_known (documents : list StoredDocument) : gset Z := list_to_set (DocID <$> documents).
Fixpoint collect_live (deletes : DeleteStore) (documents : list StoredDocument) (live : gmap Z bytes) : gmap Z bytes :=
  match documents with
  | [] => live
  | d :: documents =>
      collect_live deletes documents (if IsDeleted deletes (DocID d) then live else <[DocID d := PrimaryKey d]> live)
  end.

Definition visited_documents m : result (list StoredDocument) :=
  match foldM (fun docs s => if im_closed s then Fail os_ErrClosed else Ok (docs ++ im_docs s)) (sg_ordered m) [] with
  | Fail e => Fail e
  | Ok docs => Ok (docs ++ match sg_writing m with Some w => ws_docs w | None => [] end)
  end.

Definition check_live (live : gmap Z bytes) (u : unit) (key : bytes) (docID : Z) : result unit :=
  if bool_decide (live !! docID = Some key) then Ok tt
  else Fail (collection_corrupt "primary key has invalid document ID").

Definition validateCollectionState (overlayOrder : list (bytes * primaryKeyDelta)) m : option gerror :=
  match visited_documents m with
  | Fail e => Some e
  | Ok documents =>
      let live := collect_live (sg_deletes m) documents ∅ in
      let missing := DeleteStore_Range (sg_deletes m)
        (fun (err : option gerror) docID =>
           if bool_decide (docID ∈ collect_known documents) then (err, true)
           else (Some (collection_corrupt "deletion references missing document"), false)) None in
      match missing with
      | Some e => Some e
      | None =>
          if negb (idmap_Count (sg_primaryKey m) =? Z.of_nat (size live))
          then Some (collection_corrupt "IDMap count differs from live document count")
          else match idmap_ForEach CtxLive overlayOrder (sg_primaryKey m) (check_live live) tt with
          | Ok _ => None
          | Fail e => if errors_Is e ErrCollectionCorrupt then Some e
                      else Some (collection_corrupt "validate IDMap")
          end
      end
  end.
End recovery.

(** [validateLifecycleManifest] belongs to the manifest checks, see [Collection]. *)

(** ** The abstract state *)
Record AbsState := {
  a_immutable : gmap Z ImmutableSegment;
  a_ordered : list ImmutableSegment;
  a_writing : option WriteSegment;
  a_deletes : gset Z;
  a_view : gmap bytes Z
}.

Definition abs {DB} `{KVStore DB} (m : SegmentManager DB) : AbsState :=
  {| a_immutable := sg_immutable m; a_ordered := sg_ordered m; a_writing := sg_writing m;
     a_deletes := sg_deletes m; a_view := idmap_view (sg_primaryKey m) |}.

(** What one logged operation does, on finite maps and sets. *)
Definition a_update (a : AbsState) (w : option WriteSegment) (deletes : gset Z) (view : gmap bytes Z) : AbsState :=
  {| a_immutable := a_immutable a; a_ordered := a_ordered a; a_writing := w; a_deletes := deletes; a_view := view |}.

(** The write part of an operation: the document appended under its ID. *)
Definition a_append (op : writeOperation) (a : AbsState) : option WriteSegment :=
  match a_writing a with
  | None => None
  | Some w =>
      match ApplyExpected CtxLive (op_DocID op) (op_PrimaryKey op) (op_Payload op) w with
      | (w', None) => Some w'
      | (_, Some _) => None
      end
  end.

Definition abs_apply (op : writeOperation) (a : AbsState) : option AbsState :=
  let key := op_PrimaryKey op in
  let old := a_view a !! key in
  let hidden := match old with Some id => {[id]} ∪ a_deletes a | None => a_deletes a end in
  if op_Type op =? writeOperationInsert then
    match old with
    | Some _ => None
    | None => (fun w => a_update a (Some w) (a_deletes a) (<[key := op_DocID op]> (a_view a))) <$> a_append op a
    end
  else if op_Type op =? writeOperationUpsert then
    (fun w => a_update a (Some w) hidden (<[key := op_DocID op]> (a_view a))) <$> a_append op a
  else if op_Type op =? writeOperationUpdate then
    match old with
    | None => None
    | Some _ => (fun w => a_update a (Some w) hidden (<[key := op_DocID op]> (a_view a))) <$> a_append op a
    end
  else if op_Type op =? writeOperationDelete then
    if bool_decide (op_Payload op = []) && bool_decide (old = Some (op_DocID op))
    then Some (a_update a (a_writing a) hidden (delete key (a_view a))) else None
  else None.

Fixpoint abs_replay (ops : list writeOperation) (a : AbsState) : option AbsState :=
  match ops with
  | [] => Some a
  | op :: ops => match abs_apply op a with Some a => abs_replay ops a | None => None end
  end.

Lemma abs_replay_app ops1 ops2 a :
  abs_replay (ops1 ++ ops2) a = match abs_replay ops1 a with Some a => abs_replay ops2 a | None => None end.
Proof.
  revert a. induction ops1 as [|op ops1 IH]; intros a; [done|]. cbn. destruct (abs_apply op a); [apply IH|done].
Qed.

(** ** The application of an operation, on the abstract state *)
Section apply_refinement.
Context {DB : Type} `{Hkv : KVStore DB} {Hlaws : KVStoreLaws DB}.
Implicit Types (m : SegmentManager DB).
Hypothesis Hstore : ~ store_fails (DB := DB).

Lemma PutNew_total key docID (pk : PrimaryKeyMap DB) :
  idmap_inv pk -> valid_key key -> is_u64 docID -> idmap_view pk !! key = None ->
  exists pk', idmap_PutNew CtxLive key docID pk = (pk', None) /\ idmap_inv pk' /\
    idmap_view pk' = <[key:=docID]> (idmap_view pk).
Proof.
  intros Hi Hk Hd Hn. destruct (idmap_PutNew CtxLive key docID pk) as [pk' r] eqn:E.
  assert (idmap_exec CtxLive (IPutNew key docID) pk =
          (pk', match r with Some e => Fail e | None => Ok (0, false) end)) as Ex.
  { cbn [idmap_exec]. rewrite E. by destruct r. }
  pose proof (idmap_exec_spec _ _ _ _ _ Hi (conj Hd Hn : cmd_pre (IPutNew key docID) _) Ex) as Hs.
  destruct r as [err|].
  - destruct Hs as [_ [|[|]]]; done.
  - destruct Hs as [Hv Hi']. injection Hv as Hv. eauto.
Qed.

Lemma Put_total key docID (pk : PrimaryKeyMap DB) :
  idmap_inv pk -> valid_key key -> is_u64 docID ->
  exists pk' r, idmap_Put CtxLive key docID pk = (pk', Ok r) /\ idmap_inv pk' /\
    idmap_view pk' = <[key:=docID]> (idmap_view pk).
Proof.
  intros Hi Hk Hd. destruct (idmap_Put CtxLive key docID pk) as [pk' r] eqn:E.
  pose proof (idmap_exec_spec CtxLive (IPut key docID) pk _ _ Hi Hd E) as Hs. cbn in Hs.
  destruct r as [r|err].
  - destruct Hs as [Hv Hi']. injection Hv as Hv ->. eauto.
  - destruct Hs as [_ [|[|]]]; done.
Qed.

Lemma Delete_total key (pk : PrimaryKeyMap DB) :
  idmap_inv pk -> valid_key key ->
  exists pk', idmap_Delete CtxLive key pk = (pk', Ok (lookup_result (idmap_view pk !! key))) /\ idmap_inv pk' /\
    idmap_view pk' = delete key (idmap_view pk).
Proof.
  intros Hi Hk. destruct (idmap_Delete CtxLive key pk) as [pk' r] eqn:E.
  pose proof (idmap_exec_spec CtxLive (IDelete key) pk _ _ Hi I E) as Hs. cbn in Hs.
  destruct r as [r|err].
  - destruct Hs as [Hv Hi']. injection Hv as Hv ->. eauto.
  - destruct Hs as [_ [|[|]]]; done.
Qed.

Lemma ApplyExpected_cases docID key payload w :
  (exists w', ApplyExpected CtxLive docID key payload w = (w', None)) \/
  (exists e, ApplyExpected CtxLive docID key payload w = (w, Some e)).
Proof.
  unfold ApplyExpected, ws_append. repeat case_if; eauto; repeat case_match; simplify_eq; eauto.
Qed.

(** The recovery step and the abstract step succeed together, with the same result. *)
Lemma applyRecovered_refines op m :
  op_ok op -> idmap_inv (sg_primaryKey m) ->
  match applyRecoveredOperation CtxLive op m with
  | Ok m' => abs_apply op (abs m) = Some (abs m') /\ idmap_inv (sg_primaryKey m')
  | Fail _ => abs_apply op (abs m) = None
  end.
Proof.
  intros [Ht Hd Hk Hp] Hi. unfold applyRecoveredOperation, abs_apply, a_append.
  cbn [abs a_view a_deletes a_writing]. rewrite (idmap_Get_total _ _ Hstore Hi).
  set (key := op_PrimaryKey op) in *. set (docID := op_DocID op) in *.
  destruct (Put_total key docID (sg_primaryKey m) Hi Hk Hd) as (pk2 & r2 & E2 & I2 & V2).
  destruct (Delete_total key (sg_primaryKey m) Hi Hk) as (pk3 & E3 & I3 & V3).
  assert (op_Type op = 1 \/ op_Type op = 2 \/ op_Type op = 3 \/ op_Type op = 4) as [->|[->|[->| ->]]] by lia;
    cbn [Z.eqb Pos.eqb negb andb orb writeOperationInsert writeOperationUpsert writeOperationUpdate writeOperationDelete].
  - destruct (idmap_view (sg_primaryKey m) !! key) as [id|] eqn:Ev; cbn [lookup_result].
    { by case_if. }
    destruct (sg_writing m) as [w|] eqn:Ew; [|done]. rewrite bool_decide_eq_false_2 by done.
    destruct (ApplyExpected_cases docID key (op_Payload op) w) as [[w' Ha]|[e Ha]]; rewrite Ha; [|done].
    destruct (PutNew_total key docID (sg_primaryKey m) Hi Hk Hd Ev) as (pk1 & -> & I1 & V1).
    split; [|done]. cbn [fmap option_fmap option_map]. unfold abs, a_update. cbn. by rewrite V1.
  - destruct (sg_writing m) as [w|] eqn:Ew.
    2:{ rewrite bool_decide_eq_true_2 by done. done. }
    rewrite bool_decide_eq_false_2 by done.
    destruct (ApplyExpected_cases docID key (op_Payload op) w) as [[w' Ha]|[e Ha]]; rewrite Ha;
      destruct (idmap_view (sg_primaryKey m) !! key) as [id|] eqn:Ev; cbn [lookup_result]; try done;
      cbn [MarkDeleted ctx_guard]; rewrite E2; (split; [|done]);
      cbn [fmap option_fmap option_map]; unfold abs, a_update; cbn; by rewrite V2.
  - destruct (sg_writing m) as [w|] eqn:Ew.
    2:{ rewrite bool_decide_eq_true_2 by done. by destruct (idmap_view (sg_primaryKey m) !! key). }
    rewrite bool_decide_eq_false_2 by done.
    destruct (ApplyExpected_cases docID key (op_Payload op) w) as [[w' Ha]|[e Ha]]; rewrite Ha;
      destruct (idmap_view (sg_primaryKey m) !! key) as [id|] eqn:Ev; cbn [lookup_result negb]; try done;
      cbn [MarkDeleted ctx_guard]; rewrite E2; (split; [|done]);
      cbn [fmap option_fmap option_map]; unfold abs, a_update; cbn; by rewrite V2.
  - destruct (zlen (op_Payload op) =? 0) eqn:Ez; to_prop; cbn [negb].
    2:{ rewrite bool_decide_eq_false_2; [done|]. intros Hnil. apply Ez. by rewrite Hnil. }
    apply zlen_0_nil in Ez. rewrite (bool_decide_eq_true_2 (op_Payload op = [])) by done. cbn [andb].
    destruct (idmap_view (sg_primaryKey m) !! key) as [id|] eqn:Ev; cbn [lookup_result negb orb].
    2:{ by rewrite bool_decide_eq_false_2. }
    destruct (id =? docID) eqn:Eid; to_prop; cbn [negb].
    2:{ rewrite bool_decide_eq_false_2; [done|]. by intros [= ->]. }
    subst id. rewrite bool_decide_eq_true_2 by done. cbn [MarkDeleted ctx_guard]. rewrite E3. cbn [lookup_result].
    split; [|done]. unfold abs, a_update. cbn. by rewrite V3.
Qed.
End apply_refinement.

(** ** The engine's step *)
Section engine_refinement.
Context {DB W IO : Type} `{Hkv : KVStore DB} {Hlaws : KVStoreLaws DB} `{Hal : AppendLog W IO}.
Implicit Types (e : WriteEngine DB W).
Hypothesis Hstore : ~ store_fails (DB := DB).

(** What one call does: nothing but report an error, having logged nothing -
    not even the operation it attempted to append -; or log one operation and
    apply it, poisoning the engine if and only if the synchronization failed. *)
Definition applicable (kind : Z) (key payload : bytes) e (op : writeOperation) : Prop :=
  op_Type op = kind /\ op_PrimaryKey op = key /\ op_Payload op = payload /\ op_ok op /\
  is_Some (abs_apply op (abs (e_manager e))).

Definition refused (ctx : context) (io : IO) (kind : Z) (key payload : bytes) e e' (docID : Z)
    (err : option gerror) : Prop :=
  e_manager e' = e_manager e /\ e_poisoned e' = e_poisoned e /\ err <> None /\ docID = 0 /\
  (e_wal e' = e_wal e \/ exists op, applicable kind key payload e op /\
     al_Append ctx io (op_bytes op) (e_wal e) = (e_wal e', (0, err))).

Definition logged (ctx : context) (io : IO) (op : writeOperation) e e' (docID : Z) (err : option gerror) : Prop :=
  exists lsn syncErr, op_ok op /\ e_poisoned e = None /\
    al_Append ctx io (op_bytes op) (e_wal e) = (e_wal e', (lsn, syncErr)) /\ (syncErr = None \/ lsn <> 0) /\
    abs_apply op (abs (e_manager e)) = Some (abs (e_manager e')) /\ idmap_inv (sg_primaryKey (e_manager e')) /\
    docID = op_DocID op /\ (err = None <-> syncErr = None) /\ (e_poisoned e' = None <-> syncErr = None).

Definition one_step (ctx : context) (io : IO) (kind : Z) (key payload : bytes) e e' (docID : Z)
    (err : option gerror) : Prop :=
  refused ctx io kind key payload e e' docID err \/
  exists op, op_Type op = kind /\ op_PrimaryKey op = key /\ op_Payload op = payload /\
    logged ctx io op e e' docID err.

Lemma ApplyExpected_total w docID key payload :
  ws_inv w -> NextDocumentID w = Ok docID -> valid_key key -> zlen payload <= MaxDocumentPayloadSize ->
  is_u64 docID /\ exists w', ApplyExpected CtxLive docID key payload w = (w', None).
Proof.
  intros Hw Hn Hk Hp. apply (NextDocumentID_spec w docID Hw) in Hn as (-> & Hs & Hc).
  destruct (wi_range w Hw) as (H1 & H2 & H3). pose proof (zlen_nonneg (ws_docs w)).
  split; [unfold is_u64; lia|].
  destruct (ApplyExpected_cases (ws_minDocID w + zlen (ws_docs w)) key payload w) as [?|[e He]]; [done|exfalso].
  unfold ApplyExpected in He.
  destruct (ws_append CtxLive (Some (ws_minDocID w + zlen (ws_docs w))) key payload w) as [w' r] eqn:Ea.
  apply ws_append_spec in Ea; [|done]. destruct r; [done|].
  destruct Ea as [_ [|[|[|[|[|(e1 & [= <-] & Hne)]]]]]]; try done; try lia. congruence.
Qed.

(** The ending shared by the four operations. *)
Lemma finish_logged ctx io op docID syncErr e e1 w lsn e' err :
  op_ok op -> e_poisoned e = None -> e_poisoned e1 = None -> docID = op_DocID op ->
  al_Append ctx io (op_bytes op) (e_wal e) = (w, (lsn, syncErr)) ->
  match syncErr with Some _ => lsn =? 0 | None => false end = false -> e_wal e1 = w ->
  abs_apply op (abs (e_manager e)) = Some (abs (e_manager e1)) -> idmap_inv (sg_primaryKey (e_manager e1)) ->
  finish docID syncErr e1 = (e', (docID, err)) ->
  logged ctx io op e e' docID err.
Proof.
  intros Hop Hp Hp1 Hd Ha Hl Hw Habs Hi Hf. exists lsn, syncErr. unfold finish, poisonLocked in Hf. rewrite Hp1 in Hf.
  destruct syncErr as [s|]; cbn in Hf; simplify_eq; cbn; to_prop;
    (split; [done|]); (split; [done|]); (split; [done|]); (split; [auto|]); (split; [done|]);
    (split; [done|]); split; done.
Qed.

Lemma finish_docID docID syncErr e e' d err : finish docID syncErr e = (e', (d, err)) -> d = docID.
Proof. unfold finish. destruct syncErr; [|by intros [= _ <- _]]. destruct (poisonLocked _ e). by intros [= _ <- _]. Qed.

Ltac refuse := left; repeat split; try done; by left.

Lemma applicable_intro kind key payload e op a :
  op_ok op -> abs_apply op (abs (e_manager e)) = Some a ->
  op_Type op = kind -> op_PrimaryKey op = key -> op_Payload op = payload -> applicable kind key payload e op.
Proof. intros Hop Ha. unfold applicable. rewrite Ha. eauto. Qed.

(** An append that logged nothing. *)
Lemma refused_append ctx io kind key payload op e w syncErr (lsn : Z) :
  applicable kind key payload e op -> al_Append ctx io (op_bytes op) (e_wal e) = (w, (lsn, syncErr)) ->
  match syncErr with Some _ => lsn =? 0 | None => false end = true ->
  refused ctx io kind key payload e (e_set_wal e w) 0 syncErr.
Proof.
  intros Hop Ha Hl. destruct syncErr as [s|]; [|done]. to_prop. subst lsn. repeat split; try done. right. eauto.
Qed.

Lemma insertOne_step ctx io input e e' docID err :
  idmap_inv (sg_primaryKey (e_manager e)) ->
  (forall w, sg_writing (e_manager e) = Some w -> ws_inv w) ->
  insertOneLocked ctx io input e = (e', (docID, err)) ->
  one_step ctx io writeOperationInsert (in_PrimaryKey input) (in_Payload input) e e' docID err.
Proof.
  intros Hi Hw Hx. unfold insertOneLocked in Hx.
  destruct (e_poisoned e) eqn:Epo; [simplify_eq; refuse|].
  destruct (ValidatePrimaryKey (in_PrimaryKey input)) as [[]|] eqn:Hk; [|simplify_eq; refuse].
  destruct (MaxDocumentPayloadSize <? zlen (in_Payload input)) eqn:Ep; [simplify_eq; refuse|]. to_prop.
  rewrite (idmap_Get_total _ _ Hstore Hi) in Hx.
  destruct (idmap_view _ !! in_PrimaryKey input) as [id|] eqn:Ev; cbn [lookup_result] in Hx; [simplify_eq; refuse|].
  destruct (sg_writing (e_manager e)) as [w|] eqn:Ew; [|simplify_eq; refuse].
  destruct (NextDocumentID w) as [d|] eqn:En; [|simplify_eq; refuse].
  destruct (ApplyExpected_total w d (in_PrimaryKey input) (in_Payload input) (Hw w eq_refl) En Hk Ep) as (Hd & w' & Ha).
  set (op := {| op_Type := writeOperationInsert; op_DocID := d; op_PrimaryKey := in_PrimaryKey input;
                op_Payload := in_Payload input |}) in *.
  assert (op_ok op) as Hop by (constructor; cbn; unfold writeOperationInsert; done).
  rewrite encodeWriteOperation_ok in Hx by apply Hop.
  destruct (PutNew_total Hstore (in_PrimaryKey input) d (sg_primaryKey (e_manager e)) Hi Hk Hd Ev)
    as (pk & E1 & I1 & V1).
  assert (abs_apply op (abs (e_manager e)) = Some (a_update (abs (e_manager e)) (Some w')
    (sg_deletes (e_manager e)) (idmap_view pk))) as Habs.
  { unfold abs_apply, a_append. cbn [abs a_view a_writing op_Type op Z.eqb Pos.eqb writeOperationInsert op_PrimaryKey op_DocID op_Payload].
    rewrite Ev, Ew, Ha. by rewrite V1. }
  destruct (al_Append ctx io (op_bytes op) (e_wal e)) as [w1 [lsn syncErr]] eqn:Eal.
  destruct (match syncErr with Some _ => lsn =? 0 | None => false end) eqn:El.
  { injection Hx as <- <- <-. left. eapply refused_append; [by eapply applicable_intro|done|done]. }
  rewrite Ha in Hx. cbn [e_set_manager e_set_wal e_manager sg_set_writing sg_primaryKey] in Hx.
  rewrite E1 in Hx.
  right. exists op. do 3 (split; [done|]). pose proof (finish_docID _ _ _ _ _ _ Hx) as ->.
  eapply finish_logged; [done|done| |done|exact Eal|done| | | |exact Hx]; try done.
Qed.

Lemma upsertOne_step ctx io input e e' docID err :
  idmap_inv (sg_primaryKey (e_manager e)) ->
  (forall w, sg_writing (e_manager e) = Some w -> ws_inv w) ->
  upsertOneLocked ctx io input e = (e', (docID, err)) ->
  one_step ctx io writeOperationUpsert (in_PrimaryKey input) (in_Payload input) e e' docID err.
Proof.
  intros Hi Hw Hx. unfold upsertOneLocked in Hx.
  destruct (e_poisoned e) eqn:Epo; [simplify_eq; refuse|].
  destruct (ValidatePrimaryKey (in_PrimaryKey input)) as [[]|] eqn:Hk; [|simplify_eq; refuse].
  destruct (MaxDocumentPayloadSize <? zlen (in_Payload input)) eqn:Ep; [simplify_eq; refuse|]. to_prop.
  rewrite (idmap_Get_total _ _ Hstore Hi) in Hx.
  destruct (lookup_result _) as [previous existed] eqn:Elr.
  destruct (sg_writing (e_manager e)) as [w|] eqn:Ew; [|simplify_eq; refuse].
  destruct (NextDocumentID w) as [d|] eqn:En; [|simplify_eq; refuse].
  destruct (ApplyExpected_total w d (in_PrimaryKey input) (in_Payload input) (Hw w eq_refl) En Hk Ep) as (Hd & w' & Ha).
  set (op := {| op_Type := writeOperationUpsert; op_DocID := d; op_PrimaryKey := in_PrimaryKey input;
                op_Payload := in_Payload input |}) in *.
  assert (op_ok op) as Hop by (constructor; cbn; unfold writeOperationUpsert; done).
  rewrite encodeWriteOperation_ok in Hx by apply Hop.
  destruct (Put_total Hstore (in_PrimaryKey input) d (sg_primaryKey (e_manager e)) Hi Hk Hd)
    as (pk & r & E1 & I1 & V1).
  assert (abs_apply op (abs (e_manager e)) = Some (a_update (abs (e_manager e)) (Some w')
    (if existed then {[previous]} ∪ sg_deletes (e_manager e) else sg_deletes (e_manager e)) (idmap_view pk))) as Habs.
  { unfold abs_apply, a_append. cbn [abs a_view a_writing a_deletes op_Type op Z.eqb Pos.eqb writeOperationInsert
      writeOperationUpsert op_PrimaryKey op_DocID op_Payload].
    rewrite Ew, Ha. cbn [fmap option_fmap option_map]. rewrite V1.
    destruct (idmap_view _ !! in_PrimaryKey input); cbn [lookup_result] in Elr; by simplify_eq. }
  destruct (al_Append ctx io (op_bytes op) (e_wal e)) as [w1 [lsn syncErr]] eqn:Eal.
  destruct (match syncErr with Some _ => lsn =? 0 | None => false end) eqn:El.
  { injection Hx as <- <- <-. left. eapply refused_append; [by eapply applicable_intro|done|done]. }
  rewrite Ha in Hx. cbn [e_set_manager e_set_wal e_manager sg_set_writing sg_primaryKey sg_deletes MarkDeleted ctx_guard] in Hx.
  right. exists op. do 3 (split; [done|]).
  destruct existed; cbn [e_set_manager e_set_wal e_manager sg_set_writing sg_primaryKey sg_deletes MarkDeleted
    ctx_guard m_set_deletes sg_set_stores] in Hx; rewrite E1 in Hx;
    pose proof (finish_docID _ _ _ _ _ _ Hx) as ->;
    (eapply finish_logged; [done|done| |done|exact Eal|done| | | |exact Hx]; done).
Qed.

Lemma updateOne_step ctx io input e e' docID err :
  idmap_inv (sg_primaryKey (e_manager e)) ->
  (forall w, sg_writing (e_manager e) = Some w -> ws_inv w) ->
  updateOneLocked ctx io input e = (e', (docID, err)) ->
  one_step ctx io writeOperationUpdate (in_PrimaryKey input) (in_Payload input) e e' docID err.
Proof.
  intros Hi Hw Hx. unfold updateOneLocked in Hx.
  destruct (e_poisoned e) eqn:Epo; [simplify_eq; refuse|].
  destruct (ValidatePrimaryKey (in_PrimaryKey input)) as [[]|] eqn:Hk; [|simplify_eq; refuse].
  destruct (MaxDocumentPayloadSize <? zlen (in_Payload input)) eqn:Ep; [simplify_eq; refuse|]. to_prop.
  rewrite (idmap_Get_total _ _ Hstore Hi) in Hx.
  destruct (idmap_view _ !! in_PrimaryKey input) as [id|] eqn:Ev; cbn [lookup_result] in Hx; [|simplify_eq; refuse].
  destruct (sg_writing (e_manager e)) as [w|] eqn:Ew; [|simplify_eq; refuse].
  destruct (NextDocumentID w) as [d|] eqn:En; [|simplify_eq; refuse].
  destruct (ApplyExpected_total w d (in_PrimaryKey input) (in_Payload input) (Hw w eq_refl) En Hk Ep) as (Hd & w' & Ha).
  set (op := {| op_Type := writeOperationUpdate; op_DocID := d; op_PrimaryKey := in_PrimaryKey input;
                op_Payload := in_Payload input |}) in *.
  assert (op_ok op) as Hop by (constructor; cbn; unfold writeOperationUpdate; done).
  rewrite encodeWriteOperation_ok in Hx by apply Hop.
  destruct (Put_total Hstore (in_PrimaryKey input) d (sg_primaryKey (e_manager e)) Hi Hk Hd)
    as (pk & r & E1 & I1 & V1).
  assert (abs_apply op (abs (e_manager e)) = Some (a_update (abs (e_manager e)) (Some w')
    ({[id]} ∪ sg_deletes (e_manager e)) (idmap_view pk))) as Habs.
  { unfold abs_apply, a_append. cbn [abs a_view a_writing a_deletes op_Type op Z.eqb Pos.eqb writeOperationInsert
    writeOperationUpsert writeOperationUpdate op_PrimaryKey op_DocID op_Payload].
  rewrite Ev, Ew, Ha. by rewrite V1. }
  destruct (al_Append ctx io (op_bytes op) (e_wal e)) as [w1 [lsn syncErr]] eqn:Eal.
  destruct (match syncErr with Some _ => lsn =? 0 | None => false end) eqn:El.
  { injection Hx as <- <- <-. left. eapply refused_append; [by eapply applicable_intro|done|done]. }
  rewrite Ha in Hx. cbn [e_set_manager e_set_wal e_manager sg_set_writing sg_primaryKey sg_deletes MarkDeleted ctx_guard
    m_set_deletes sg_set_stores] in Hx.
  rewrite E1 in Hx.
  right. exists op. do 3 (split; [done|]). pose proof (finish_docID _ _ _ _ _ _ Hx) as ->.
  eapply finish_logged; [done|done| |done|exact Eal|done| | | |exact Hx]; try done.
Qed.

Lemma deleteOne_step ctx io key e e' docID err :
  idmap_inv (sg_primaryKey (e_manager e)) ->
  (forall id, idmap_view (sg_primaryKey (e_manager e)) !! key = Some id -> is_u64 id) ->
  deleteOneLocked ctx io key e = (e', (docID, err)) ->
  one_step ctx io writeOperationDelete key [] e e' docID err.
Proof.
  intros Hi Hu Hx. unfold deleteOneLocked in Hx.
  destruct (e_poisoned e) eqn:Epo; [simplify_eq; refuse|].
  destruct (ValidatePrimaryKey key) as [[]|] eqn:Hk; [|simplify_eq; refuse].
  rewrite (idmap_Get_total _ _ Hstore Hi) in Hx.
  destruct (idmap_view _ !! key) as [id|] eqn:Ev; cbn [lookup_result] in Hx; [|simplify_eq; refuse].
  set (op := {| op_Type := writeOperationDelete; op_DocID := id; op_PrimaryKey := key; op_Payload := [] |}) in *.
  assert (op_ok op) as Hop.
  { constructor; cbn; unfold writeOperationDelete, MaxDocumentPayloadSize; rewrite ?zlen_nil; auto; done. }
  rewrite encodeWriteOperation_ok in Hx by apply Hop.
  destruct (Delete_total Hstore key (sg_primaryKey (e_manager e)) Hi Hk) as (pk & E1 & I1 & V1).
  assert (abs_apply op (abs (e_manager e)) = Some (a_update (abs (e_manager e)) (sg_writing (e_manager e))
    ({[id]} ∪ sg_deletes (e_manager e)) (idmap_view pk))) as Habs.
  { unfold abs_apply. cbn [abs a_view a_writing a_deletes op_Type op Z.eqb Pos.eqb writeOperationInsert
    writeOperationUpsert writeOperationUpdate writeOperationDelete op_PrimaryKey op_DocID op_Payload].
  rewrite Ev, !bool_decide_eq_true_2 by done. by rewrite V1. }
  destruct (al_Append ctx io (op_bytes op) (e_wal e)) as [w1 [lsn syncErr]] eqn:Eal.
  destruct (match syncErr with Some _ => lsn =? 0 | None => false end) eqn:El.
  { injection Hx as <- <- <-. left. eapply refused_append; [by eapply applicable_intro|done|done]. }
  cbn [e_set_manager e_set_wal e_manager sg_primaryKey sg_deletes MarkDeleted ctx_guard m_set_deletes sg_set_stores] in Hx.
  rewrite E1, Ev in Hx. cbn [lookup_result negb] in Hx. rewrite Z.eqb_refl in Hx. cbn [negb orb] in Hx.
  right. exists op. do 3 (split; [done|]). pose proof (finish_docID _ _ _ _ _ _ Hx) as ->.
  eapply finish_logged; [done|done| |done|exact Eal|done| | | |exact Hx]; try done.
Qed.
End engine_refinement.

(** ** The collection invariant and its contents *)

(** The segments of an abstract state, as a manager without an IDMap. *)
Definition a_mgr (a : AbsState) : SegmentManager unit :=
  {| sg_immutable := a_immutable a; sg_ordered := a_ordered a; sg_writing := a_writing a;
     sg_primaryKey := {| pk_db := None; pk_count := 0; pk_known := None; pk_overlay := None |};
     sg_deletes := a_deletes a |}.
Definition a_stored (a : AbsState) : list StoredDocument := sg_stored (a_mgr a).

(** Document IDs grow from the immutable segments to the write segment; the
    IDMap holds exactly the versions that are not deleted; every deletion hides
    a stored version. *)
Record a_inv (a : AbsState) : Prop := {
  ai_sg : sg_inv (a_mgr a);
  ai_order : forall w, a_writing a = Some w -> Forall (fun s => im_max s < ws_minDocID w) (a_ordered a);
  ai_live : forall key id, a_view a !! key = Some id <->
    id ∉ a_deletes a /\ exists d, d ∈ a_stored a /\ DocID d = id /\ PrimaryKey d = key;
  ai_deletes : forall id, id ∈ a_deletes a -> exists d, d ∈ a_stored a /\ DocID d = id
}.

(** The key-value contents: the live version of every key. *)
Definition contents (a : AbsState) : gmap bytes bytes :=
  omap (fun id => doc_Payload <$> RetainedDocument (a_mgr a) id) (a_view a).

(** What an operation means for the contents. *)
Definition contents_apply (op : writeOperation) (c : gmap bytes bytes) : gmap bytes bytes :=
  if op_Type op =? writeOperationDelete then delete (op_PrimaryKey op) c
  else <[op_PrimaryKey op := op_Payload op]> c.

(** When it is allowed. *)
Definition contents_pre (op : writeOperation) (c : gmap bytes bytes) : Prop :=
  if op_Type op =? writeOperationInsert then c !! op_PrimaryKey op = None
  else if op_Type op =? writeOperationUpsert then True
  else is_Some (c !! op_PrimaryKey op).

Lemma sg_inv_a_mgr {DB} `{KVStore DB} (m : SegmentManager DB) : sg_inv m <-> sg_inv (a_mgr (abs m)).
Proof. split; intros [H1 H2 H3 H4]; constructor; done. Qed.

Lemma stored_unique {DB} (m : SegmentManager DB) d1 d2 :
  sg_inv m -> d1 ∈ sg_stored m -> d2 ∈ sg_stored m -> DocID d1 = DocID d2 -> d1 = d2.
Proof.
  intros Hm H1 H2 Heq.
  assert (RetainedDocument m (DocID d1) = Some d1) as R1 by by apply RetainedDocument_spec.
  assert (RetainedDocument m (DocID d1) = Some d2) as R2 by by apply RetainedDocument_spec. congruence.
Qed.

Lemma contents_lookup a key payload :
  a_inv a -> contents a !! key = Some payload <->
    exists d, d ∈ a_stored a /\ PrimaryKey d = key /\ doc_Payload d = payload /\ DocID d ∉ a_deletes a.
Proof.
  intros Ha. unfold contents. rewrite lookup_omap_Some. split.
  - intros (id & Hr & Hv). destruct (RetainedDocument (a_mgr a) id) as [d|] eqn:Er; [|done].
    cbn in Hr. injection Hr as <-. apply (RetainedDocument_spec _ _ _ (ai_sg a Ha)) in Er as [Hin <-].
    apply (ai_live a Ha) in Hv as [Hnd (d' & Hd' & Hid & Hk)].
    assert (d' = d) as -> by by apply (stored_unique (a_mgr a)); [apply Ha|..]. eauto 6.
  - intros (d & Hin & Hk & Hp & Hnd). exists (DocID d).
    assert (RetainedDocument (a_mgr a) (DocID d) = Some d) as ->.
    { apply RetainedDocument_spec; [apply Ha|done]. }
    split; [by cbn; rewrite Hp|]. apply (ai_live a Ha). eauto.
Qed.

Lemma contents_is_Some a key : a_inv a -> is_Some (contents a !! key) <-> is_Some (a_view a !! key).
Proof.
  intros Ha. split.
  - intros [p Hp]. apply (contents_lookup a key p Ha) in Hp as (d & H1 & H2 & _ & H3). exists (DocID d).
    apply (ai_live a Ha). eauto.
  - intros [id Hid]. apply (ai_live a Ha) in Hid as [Hn (d & Hd & <- & Hk)]. exists (doc_Payload d).
    apply (contents_lookup a); [done|]. eauto 6.
Qed.

Lemma contents_None a key : a_inv a -> contents a !! key = None <-> a_view a !! key = None.
Proof.
  intros Ha. pose proof (contents_is_Some a key Ha) as Hs.
  rewrite !eq_None_not_Some. tauto.
Qed.

(** The stored IDs are below the next one. *)
Lemma a_stored_below a w x : a_inv a -> a_writing a = Some w -> x ∈ a_stored a -> 0 <= DocID x < ws_minDocID w + zlen (ws_docs w).
Proof.
  intros Ha Ew Hx. pose proof (si_writing (a_mgr a) (ai_sg a Ha) w Ew) as (Hw & _ & _). destruct (wi_range w Hw) as (R1 & _ & _).
  unfold a_stored, sg_stored in Hx. cbn [sg_ordered sg_writing a_mgr] in Hx. rewrite Ew in Hx.
  apply elem_of_app in Hx as [Hx|Hx].
  - apply list_elem_of_join in Hx as (l & Hx & (s & -> & Hsin)%list_elem_of_fmap).
    pose proof (ai_order a Ha w Ew) as Ho. rewrite Forall_forall in Ho. specialize (Ho s Hsin).
    pose proof (si_ok _ (ai_sg a Ha)) as Hok. rewrite Forall_forall in Hok. specialize (Hok s Hsin).
    pose proof (docs_ok_bound _ _ _ (io_docs s Hok) Hx) as Hb. rewrite <- (io_max s Hok) in Hb.
    pose proof (zlen_nonneg (ws_docs w)). pose proof (io_min s Hok). lia.
  - pose proof (docs_ok_bound _ _ _ (wi_docs w Hw) Hx). lia.
Qed.

(** What [ApplyExpected] appends. *)
Lemma ApplyExpected_appends docID key payload w w' :
  ws_inv w -> ApplyExpected CtxLive docID key payload w = (w', None) ->
  docID = ws_minDocID w + zlen (ws_docs w) /\ valid_key key /\ zlen payload <= MaxDocumentPayloadSize /\
  ws_docs w' = ws_docs w ++ [{| DocID := docID; PrimaryKey := key; doc_Payload := payload |}] /\
  ws_id w' = ws_id w /\ ws_minDocID w' = ws_minDocID w /\ ws_maxDocs w' = ws_maxDocs w /\ ws_inv w'.
Proof.
  intros Hw Happ. unfold ApplyExpected in Happ. destruct (ws_append _ _ _ _ w) as [w1 r] eqn:Ea.
  destruct r as [d|]; [|done]. injection Happ as ->.
  assert (docID = ws_minDocID w + zlen (ws_docs w)) as Hid.
  { unfold ws_append in Ea. cbn [ctx_guard] in Ea. repeat (case_in Ea; [by simplify_eq|]).
    destruct (ValidatePrimaryKey key); [|by simplify_eq].
    repeat (case_in Ea; [by simplify_eq|]). to_prop. rewrite ws_next_id in * by done. done. }
  apply ws_append_spec in Ea as (Hd & Hk & Hp & Hv & Hl & Hdocs & _ & _ & Hwid & Hmin & Hmax & Hw'); [|done].
  do 3 (split; [done|]). split; [|done]. rewrite Hdocs. destruct d as [a b e]. cbn in *. by rewrite Hid, <- Hd, Hk, Hp.
Qed.

(** A fresh version appended to the write segment. *)
Lemma a_append_spec op a w' :
  a_inv a -> a_append op a = Some w' ->
  exists w d, a_writing a = Some w /\ DocID d = op_DocID op /\ PrimaryKey d = op_PrimaryKey op /\
    doc_Payload d = op_Payload op /\ (forall x, x ∈ a_stored a -> DocID x < op_DocID op) /\
    (forall deletes view, let a' := a_update a (Some w') deletes view in
       sg_inv (a_mgr a') /\ (forall v, a_writing a' = Some v -> Forall (fun s => im_max s < ws_minDocID v) (a_ordered a')) /\
       a_stored a' = a_stored a ++ [d]).
Proof.
  intros Ha Happ. unfold a_append in Happ. destruct (a_writing a) as [w|] eqn:Ew; [|done].
  destruct (ApplyExpected _ _ _ _ w) as [w1 [e|]] eqn:Ea; [done|]. injection Happ as ->.
  pose proof (si_writing (a_mgr a) (ai_sg a Ha) w Ew) as (Hw & Hnone & Hap).
  destruct (ApplyExpected_appends _ _ _ w w' Hw Ea) as (Hid & _ & _ & Hdocs & Hwid & Hmin & Hmax & Hw').
  set (d := {| DocID := op_DocID op; PrimaryKey := op_PrimaryKey op; doc_Payload := op_Payload op |}) in *.
  exists w, d. split; [done|]. do 3 (split; [done|]). split.
  - intros x Hx. rewrite Hid. by apply (a_stored_below a w).
  - intros deletes view a'. split; [|split].
    + pose proof (ai_sg a Ha) as [G1 G2 G3 G4]. constructor; cbn in *; try done.
      intros v [= <-]. split; [done|]. rewrite Hwid. split; [done|].
      rewrite Forall_forall in *. intros s Hsin. specialize (Hap s Hsin). unfold ws_apart in *. by rewrite Hmin, Hmax.
    + cbn. intros v [= <-]. rewrite Hmin. by apply (ai_order a Ha).
    + unfold a_stored, sg_stored. cbn. rewrite Ew, Hdocs. by rewrite app_assoc.
Qed.

(** Installing a fresh version for its key, hiding the old one. *)
Lemma a_put_inv op a w' :
  a_inv a -> a_append op a = Some w' ->
  let old := a_view a !! op_PrimaryKey op in
  let hidden := match old with Some id => {[id]} ∪ a_deletes a | None => a_deletes a end in
  let a' := a_update a (Some w') hidden (<[op_PrimaryKey op := op_DocID op]> (a_view a)) in
  a_inv a' /\ contents a' = <[op_PrimaryKey op := op_Payload op]> (contents a).
Proof.
  intros Ha Happ old hidden a'. set (key := op_PrimaryKey op) in *. set (id := op_DocID op) in *.
  destruct (a_append_spec op a w' Ha Happ) as (w & d & Hw & Hd & Hk & Hp & Hfresh & Hrest). fold key in Hk. fold id in Hd.
  destruct (Hrest hidden (<[key:=id]> (a_view a))) as (Hsg & Hord & Hst). fold a' in Hsg, Hord, Hst.
  assert (Hmem : forall x, x ∈ a_stored a' <-> x ∈ a_stored a \/ x = d).
  { intros x. rewrite Hst, elem_of_app, list_elem_of_singleton. done. }
  assert (Hold : forall x, x ∈ a_stored a -> DocID x <> id) by (intros x Hx Heq; specialize (Hfresh x Hx); fold id in Hfresh; lia).
  assert (Holdid : forall i, old = Some i -> i <> id /\ exists x, x ∈ a_stored a /\ DocID x = i /\ PrimaryKey x = key).
  { intros i Hi. apply (ai_live a Ha) in Hi as [_ (x & Hx & <- & Hxk)]. split; [by apply Hold|eauto]. }
  assert (Hidn : id ∉ hidden).
  { assert (id ∉ a_deletes a) as Hn.
    { intros Hin. apply (ai_deletes a Ha) in Hin as (x & Hx & Heq). by apply (Hold x). }
    unfold hidden. destruct old as [i|] eqn:Eo; [|done]. destruct (Holdid i eq_refl) as [Hne _]. set_solver. }
  assert (Hhid : forall x, x ∈ a_stored a -> DocID x ∉ hidden <-> DocID x ∉ a_deletes a /\ PrimaryKey x <> key).
  { intros x Hx. unfold hidden. destruct old as [i|] eqn:Eo.
    - destruct (Holdid i eq_refl) as [_ (y & Hy & Hyi & Hyk)]. split.
      + intros Hn. split; [set_solver|]. intros Hxk.
        assert (a_view a !! key = Some (DocID x)) as Hv by (apply (ai_live a Ha); split; [set_solver|eauto]).
        fold old in Hv. rewrite Eo in Hv. set_solver.
      + intros [Hn Hxk] Hin. apply elem_of_union in Hin as [Hin%elem_of_singleton|Hin]; [|done].
        apply Hxk. rewrite <- Hyk. f_equal. apply (stored_unique (a_mgr a)); [apply Ha|done|done|congruence].
    - split; [|tauto]. intros Hn. split; [done|]. intros Hxk.
      assert (a_view a !! key = Some (DocID x)) as Hv by (apply (ai_live a Ha); eauto). fold old in Hv. congruence. }
  assert (Hinv : a_inv a').
  { constructor; [done|done| |].
    - intros key' id'. cbn [a_view a' a_update]. setoid_rewrite Hmem. cbn [a_deletes a' a_update].
      destruct (decide (key' = key)) as [->|Hne].
      + rewrite lookup_insert_eq. split.
        * intros [= <-]. split; [done|]. exists d. split; [by right|done].
        * intros [Hn (x & [Hx| ->] & <- & Hxk)]; [|by rewrite Hd]. by apply Hhid in Hn as [_ []].
      + rewrite lookup_insert_ne by done. rewrite (ai_live a Ha). split.
        * intros [Hn (x & Hx & <- & Hxk)]. split; [|by eauto].
          apply Hhid; [done|]. split; [done|congruence].
        * intros [Hn (x & [Hx| ->] & <- & Hxk)]; [|congruence]. apply Hhid in Hn as [Hn _]; [|done]. eauto.
    - intros i Hi. cbn [a_deletes a' a_update] in Hi. setoid_rewrite Hmem. unfold hidden in Hi.
      destruct old as [j|] eqn:Eo.
      + apply elem_of_union in Hi as [->%elem_of_singleton|Hi].
        * destruct (Holdid j eq_refl) as [_ (x & Hx & Hxi & _)]. eauto.
        * apply (ai_deletes a Ha) in Hi as (x & Hx & Hxi). eauto.
      + apply (ai_deletes a Ha) in Hi as (x & Hx & Hxi). eauto. }
  split; [done|]. apply map_eq. intros key'. apply option_eq. intros p.
  rewrite (contents_lookup a' key' p Hinv), lookup_insert_Some, (contents_lookup a key' p Ha).
  setoid_rewrite Hmem. cbn [a_deletes a' a_update]. split.
  - intros (x & [Hx| ->] & Hxk & Hxp & Hn).
    + apply Hhid in Hn as [Hn Hne]; [|done]. right. split; [congruence|]. eauto 6.
    + left. split; [congruence|congruence].
  - intros [[<- <-]|[Hne (x & Hx & Hxk & Hxp & Hn)]].
    + exists d. split; [by right|]. split; [done|]. split; [done|]. by rewrite Hd.
    + exists x. split; [by left|]. split; [done|]. split; [done|]. apply Hhid; [done|]. split; [done|congruence].
Qed.

(** Removing a key, hiding its version. *)
Lemma a_remove_inv a key id :
  a_inv a -> a_view a !! key = Some id ->
  let a' := a_update a (a_writing a) ({[id]} ∪ a_deletes a) (delete key (a_view a)) in
  a_inv a' /\ contents a' = delete key (contents a).
Proof.
  intros Ha Hv a'. pose proof Hv as Hv'. apply (ai_live a Ha) in Hv' as [Hnd (y & Hy & Hyi & Hyk)].
  assert (a_stored a' = a_stored a) as Hst by done.
  assert (Hhid : forall x, x ∈ a_stored a -> DocID x ∉ ({[id]} ∪ a_deletes a : gset Z) <-> DocID x ∉ a_deletes a /\ PrimaryKey x <> key).
  { intros x Hx. split.
    - intros Hn. split; [set_solver|]. intros Hxk.
      assert (a_view a !! key = Some (DocID x)) as Hvx by (apply (ai_live a Ha); split; [set_solver|eauto]).
      rewrite Hv in Hvx. set_solver.
    - intros [Hn Hxk] Hin. apply elem_of_union in Hin as [Hin%elem_of_singleton|Hin]; [|done].
      apply Hxk. rewrite <- Hyk. f_equal. apply (stored_unique (a_mgr a)); [apply Ha|done|done|congruence]. }
  assert (Hinv : a_inv a').
  { constructor.
    - pose proof (ai_sg a Ha) as [G1 G2 G3 G4]. by constructor.
    - apply (ai_order a Ha).
    - intros key' id'. rewrite Hst. cbn [a_view a' a_update a_deletes]. rewrite lookup_delete_Some, (ai_live a Ha). split.
      + intros [Hne [Hn (x & Hx & <- & Hxk)]]. split; [|eauto]. apply Hhid; [done|]. split; [done|congruence].
      + intros [Hn (x & Hx & <- & Hxk)]. apply Hhid in Hn as [Hn Hne]; [|done]. split; [congruence|eauto].
    - intros i Hi. rewrite Hst. cbn in Hi. apply elem_of_union in Hi as [->%elem_of_singleton|Hi]; [eauto|].
      by apply (ai_deletes a Ha). }
  split; [done|]. apply map_eq. intros key'. apply option_eq. intros p.
  rewrite (contents_lookup a' key' p Hinv), lookup_delete_Some, (contents_lookup a key' p Ha), Hst.
  cbn [a_deletes a' a_update]. split.
  - intros (x & Hx & Hxk & Hxp & Hn). apply Hhid in Hn as [Hn Hne]; [|done]. split; [congruence|eauto 6].
  - intros [Hne (x & Hx & Hxk & Hxp & Hn)]. exists x. do 3 (split; [done|]). apply Hhid; [done|]. split; [done|congruence].
Qed.

(** One operation: it is applied only where it is allowed, keeps the invariant,
    and does to the contents what it means. *)
Lemma abs_apply_spec op a a' :
  op_ok op -> a_inv a -> abs_apply op a = Some a' ->
  a_inv a' /\ contents_pre op (contents a) /\ contents a' = contents_apply op (contents a).
Proof.
  intros Hop Ha Happ. unfold abs_apply in Happ. unfold contents_pre, contents_apply.
  pose proof (oo_type op Hop) as Ht.
  assert (op_Type op = 1 \/ op_Type op = 2 \/ op_Type op = 3 \/ op_Type op = 4) as [Et|[Et|[Et|Et]]] by lia;
    rewrite Et in *;
    cbn [Z.eqb Pos.eqb writeOperationInsert writeOperationUpsert writeOperationUpdate writeOperationDelete] in *.
  - destruct (a_view a !! op_PrimaryKey op) as [id|] eqn:Ev; [done|].
    destruct (a_append op a) as [w'|] eqn:Ea; [|done]. injection Happ as <-.
    pose proof (a_put_inv op a w' Ha Ea) as Hput. cbv zeta in Hput. rewrite Ev in Hput.
    destruct Hput as [H1 H2]. split; [done|]. split; [by apply contents_None|done].
  - destruct (a_append op a) as [w'|] eqn:Ea; [|done]. injection Happ as <-.
    destruct (a_put_inv op a w' Ha Ea) as [H1 H2]. done.
  - destruct (a_view a !! op_PrimaryKey op) as [id|] eqn:Ev; [|done].
    destruct (a_append op a) as [w'|] eqn:Ea; [|done]. injection Happ as <-.
    pose proof (a_put_inv op a w' Ha Ea) as Hput. cbv zeta in Hput. rewrite Ev in Hput.
    destruct Hput as [H1 H2]. split; [done|]. split; [|done]. apply contents_is_Some; [done|]. by rewrite Ev.
  - case_in Happ; [|done]. injection Happ as <-. apply andb_true_iff in E as [_ E]. apply bool_decide_eq_true in E.
    rewrite E. destruct (a_remove_inv a _ _ Ha E) as [H1 H2]. split; [done|]. split; [|done].
    apply contents_is_Some; [done|]. by rewrite E.
Qed.
