(* ===== verification/Durability.v ===== *)
(** * Durability: the engine, its log and the replay, put together

    A run is a sequence of calls of [insertOneLocked], [upsertOneLocked],
    [updateOneLocked] and [deleteOneLocked] - what the batches of
    [write_engine.go] are made of - under arbitrary context polls and arbitrary
    outcomes of the log's I/O.  The theorems say what the contents are after
    it, and what a crash at any point of it leaves to recover. *)
From S2P Require Import Prelude Bytes Crc32c Utf8 KeyStore IdMap FileIO Wal Paths Snapshot Manifest Segment SegmentManager WriteEngine Recovery.
From stdpp Require Import sorting.
#[local] Open Scope Z_scope.

(** ** Runs *)
Inductive ecall :=
| CallInsert (input : WriteInput)
| CallUpsert (input : WriteInput)
| CallUpdate (input : WriteInput)
| CallDelete (key : bytes).

Definition call_kind (c : ecall) : Z :=
  match c with
  | CallInsert _ => writeOperationInsert
  | CallUpsert _ => writeOperationUpsert
  | CallUpdate _ => writeOperationUpdate
  | CallDelete _ => writeOperationDelete
  end.
Definition call_key (c : ecall) : bytes :=
  match c with CallInsert i | CallUpsert i | CallUpdate i => in_PrimaryKey i | CallDelete k => k end.
Definition call_payload (c : ecall) : bytes :=
  match c with CallInsert i | CallUpsert i | CallUpdate i => in_Payload i | CallDelete _ => [] end.

(** What a call means for the contents, and when it may succeed. *)
Definition call_apply (c : ecall) (m : gmap bytes bytes) : gmap bytes bytes :=
  match c with
  | CallInsert i | CallUpsert i | CallUpdate i => <[in_PrimaryKey i := in_Payload i]> m
  | CallDelete k => delete k m
  end.
Definition calls_apply (cs : list ecall) (m : gmap bytes bytes) : gmap bytes bytes :=
  foldl (fun m c => call_apply c m) m cs.

Section runs.
Context {DB W IO : Type} `{KVStore DB} `{AppendLog W IO}.

Definition run_call (ctx : context) (io : IO) (c : ecall) (e : WriteEngine DB W)
    : WriteEngine DB W * (Z * option gerror) :=
  match c with
  | CallInsert i => insertOneLocked ctx io i e
  | CallUpsert i => upsertOneLocked ctx io i e
  | CallUpdate i => updateOneLocked ctx io i e
  | CallDelete k => deleteOneLocked ctx io k e
  end.

Fixpoint run_calls (calls : list (context * IO * ecall)) (e : WriteEngine DB W)
    : WriteEngine DB W * list (ecall * option gerror) :=
  match calls with
  | [] => (e, [])
  | (ctx, io, c) :: calls =>
      let '(e, (_, err)) := run_call ctx io c e in
      let '(e, results) := run_calls calls e in
      (e, (c, err) :: results)
  end.

(** The calls that returned no error. *)
Definition acknowledged (results : list (ecall * option gerror)) : list ecall :=
  omap (fun r => match r with (c, None) => Some c | (_, Some _) => None end) results.

Lemma run_calls_app a b e :
  run_calls (a ++ b) e =
    let '(e1, r1) := run_calls a e in let '(e2, r2) := run_calls b e1 in (e2, r1 ++ r2).
Proof.
  revert e. induction a as [|[[ctx io] c] a IH]; intros e; cbn [run_calls app].
  { by destruct (run_calls b e). }
  destruct (run_call ctx io c e) as [e1 [id err]]. rewrite IH.
  destruct (run_calls a e1) as [e2 r1]. by destruct (run_calls b e2).
Qed.
Lemma run_calls_length calls e e' results : run_calls calls e = (e', results) -> length results = length calls.
Proof.
  revert e e' results. induction calls as [|[[ctx io] c] calls IH]; intros e e' results Hr; cbn in Hr; [by injection Hr as _ <-|].
  destruct (run_call ctx io c e) as [e1 [id err]]. destruct (run_calls calls e1) as [e2 r2] eqn:E2.
  injection Hr as _ <-. cbn. by rewrite (IH _ _ _ E2).
Qed.
End runs.

Definition op_matches (op : writeOperation) (c : ecall) : Prop :=
  op_Type op = call_kind c /\ op_PrimaryKey op = call_key c /\ op_Payload op = call_payload c.

Lemma op_matches_apply op c m : op_matches op c -> contents_apply op m = call_apply c m.
Proof. intros (H1 & H2 & H3). unfold contents_apply. rewrite H1, H2, H3. by destruct c. Qed.


(** ** Replay of a log *)
Section replay.
Context {DB : Type} `{Hkv : KVStore DB} {Hlaws : KVStoreLaws DB}.
Hypothesis Hstore : ~ store_fails (DB := DB).

Lemma replay_spec_ops ops lsn (m : SegmentManager DB) a :
  Forall op_ok ops -> idmap_inv (sg_primaryKey m) -> abs_replay ops (abs m) = Some a ->
  exists m', replay_spec (replay_record CtxLive) lsn (op_bytes <$> ops) m = (m', None) /\ abs m' = a /\
    idmap_inv (sg_primaryKey m').
Proof.
  intros Hops. revert lsn m. induction Hops as [|op ops Hop Hops IH]; intros lsn m Hi Ha; cbn in *.
  { injection Ha as <-. eauto. }
  unfold replay_record at 1. cbn [Payload]. rewrite decodeWriteOperation_bytes by done.
  pose proof (applyRecovered_refines Hstore op m Hop Hi) as Hr.
  destruct (applyRecoveredOperation CtxLive op m) as [m1|]; [|by rewrite Hr in Ha].
  destruct Hr as [Hr Hi1]. rewrite Hr in Ha. by apply IH.
Qed.

Lemma replayWriteWAL_spec ops w (m : SegmentManager DB) a :
  Forall op_ok ops -> idmap_inv (sg_primaryKey m) -> abs_replay ops (abs m) = Some a ->
  wal_inv w (op_bytes <$> ops) -> w_poisoned w = None -> w_closed w = false ->
  exists m', replayWriteWAL CtxLive w m = Some (m', None) /\ abs m' = a /\ idmap_inv (sg_primaryKey m').
Proof.
  intros Hops Hi Ha Hw Hp Hc. destruct (replay_spec_ops ops 1 m a Hops Hi Ha) as (m' & Hr & Habs & Hi').
  exists m'. split; [|done]. unfold replayWriteWAL. by rewrite (WAL_Replay_spec _ _ _ _ Hw Hc Hp), Hr.
Qed.
End replay.

Lemma abs_replay_inv ops a a' :
  Forall op_ok ops -> a_inv a -> abs_replay ops a = Some a' ->
  a_inv a' /\ contents a' = foldl (fun c op => contents_apply op c) (contents a) ops.
Proof.
  intros Hops. revert a. induction Hops as [|op ops Hop Hops IH]; intros a Ha Hr; cbn in *; [by injection Hr as <-|].
  destruct (abs_apply op a) as [a1|] eqn:Eop; [|done].
  destruct (abs_apply_spec op a a1 Hop Ha Eop) as (Ha1 & _ & Hc). rewrite <- Hc. by apply IH.
Qed.

Lemma matches_contents ops cs m :
  Forall2 op_matches ops cs -> foldl (fun c op => contents_apply op c) m ops = calls_apply cs m.
Proof.
  intros HF. revert m. induction HF as [|op c ops cs Hm HF IH]; intros m; [done|].
  cbn. by rewrite IH, (op_matches_apply op c m Hm).
Qed.

Lemma abs_replay_take ops k a a' :
  abs_replay ops a = Some a' -> is_Some (abs_replay (take k ops) a).
Proof.
  intros Hr. rewrite <- (take_drop k ops), abs_replay_app in Hr. by destruct (abs_replay (take k ops) a).
Qed.

Lemma abs_apply_writing op a a' : abs_apply op a = Some a' -> a_writing a <> None -> a_writing a' <> None.
Proof.
  unfold abs_apply. intros Hx Hw. repeat case_match; simplify_eq; try done;
    destruct (a_append op a) as [w|]; cbn in Hx; by simplify_eq.
Qed.

(** The IDs of stored documents fit a [uint64]. *)
Lemma stored_u64 a d : a_inv a -> a_writing a <> None -> d ∈ a_stored a -> is_u64 (DocID d).
Proof.
  intros Ha Hw Hd. destruct (a_writing a) as [w|] eqn:Ew; [|done].
  pose proof (si_writing (a_mgr a) (ai_sg a Ha) w Ew) as (Hwi & _ & _).
  destruct (wi_range w Hwi) as (H1 & H2 & H3). pose proof (wi_capacity w Hwi) as Hcap.
  pose proof (a_stored_below a w d Ha Ew Hd). unfold is_u64, u64_max in *. lia.
Qed.

Lemma a_view_u64 a key id : a_inv a -> a_writing a <> None -> a_view a !! key = Some id -> is_u64 id.
Proof. intros Ha Hw (_ & d & Hd & <- & _)%(ai_live a Ha). by apply (stored_u64 a). Qed.

(** ** The invariant of a run *)

(** The engine [e] started from the checkpointed state [base], logged [ops], and
    possibly failed in the middle of writing the record of [lost]. *)
Record engine_inv {DB} `{KVStore DB} (base : AbsState) (e : WriteEngine DB WAL) (ops : list writeOperation)
    (lost : option writeOperation) : Prop := {
  ei_idmap : idmap_inv (sg_primaryKey (e_manager e));
  ei_base : a_inv base;
  ei_writing : sg_writing (e_manager e) <> None;
  ei_replay : abs_replay ops base = Some (abs (e_manager e));
  ei_ops : Forall op_ok ops;
  ei_log : log_state (e_wal e) (op_bytes <$> ops) (op_bytes <$> lost);
  ei_lost : forall op, lost = Some op -> op_ok op /\ is_Some (abs_apply op (abs (e_manager e)))
}.

Section engine_run.
Context {DB : Type} `{Hkv : KVStore DB} {Hlaws : KVStoreLaws DB}.
Hypothesis Hstore : ~ store_fails (DB := DB).
Implicit Types (e : WriteEngine DB WAL).

Lemma ei_inv base e ops lost : engine_inv base e ops lost -> a_inv (abs (e_manager e)).
Proof. intros [_ Hb _ Hr Ho _ _]. by apply (abs_replay_inv ops base). Qed.

Lemma run_call_one_step ctx io c e e' id err :
  idmap_inv (sg_primaryKey (e_manager e)) -> a_inv (abs (e_manager e)) -> sg_writing (e_manager e) <> None ->
  run_call ctx io c e = (e', (id, err)) ->
  one_step ctx io (call_kind c) (call_key c) (call_payload c) e e' id err.
Proof.
  intros Hi Ha Hw Hr.
  assert (forall w, sg_writing (e_manager e) = Some w -> ws_inv w) as Hws.
  { intros w Ew. apply (si_writing _ (ai_sg _ Ha) w). done. }
  destruct c as [i|i|i|k]; cbn [run_call call_kind call_key call_payload] in *.
  - by apply insertOne_step.
  - by apply upsertOne_step.
  - by apply updateOne_step.
  - apply deleteOne_step; try done. intros i Hv. by apply (a_view_u64 (abs (e_manager e)) k).
Qed.

(** One call: refused with the log as it was; or its record was cut off by a
    failing write; or it was logged and applied. *)
Inductive call_outcome (base : AbsState) (ops : list writeOperation) (c : ecall) e e' (err : option gerror) : Prop :=
| OutRefused : err <> None -> e_manager e' = e_manager e -> e_wal e' = e_wal e -> e_poisoned e' = e_poisoned e ->
    call_outcome base ops c e e' err
| OutLost op : err <> None -> e_manager e' = e_manager e -> op_matches op c -> w_poisoned (e_wal e) = None ->
    w_poisoned (e_wal e') <> None -> w_dirtyRecords (e_wal e') = w_dirtyRecords (e_wal e) ->
    e_poisoned e' = e_poisoned e -> engine_inv base e' ops (Some op) -> call_outcome base ops c e e' err
| OutLogged op : op_matches op c -> w_poisoned (e_wal e) = None -> (w_poisoned (e_wal e') = None <-> err = None) ->
    w_dirtyRecords (e_wal e') <= w_dirtyRecords (e_wal e) + 1 ->
    (w_SyncEvery (e_wal e) = 1 -> err = None -> w_dirtyRecords (e_wal e') = 0) ->
    e_poisoned e = None -> (err = None <-> e_poisoned e' = None) ->
    abs_apply op (abs (e_manager e)) = Some (abs (e_manager e')) ->
    engine_inv base e' (ops ++ [op]) None -> call_outcome base ops c e e' err.

Lemma run_call_outcome base ctx io c e e' ops lost id err :
  engine_inv base e ops lost -> zlen ops + 2 < u64_max ->
  run_call ctx io c e = (e', (id, err)) ->
  w_SyncEvery (e_wal e') = w_SyncEvery (e_wal e) /\ call_outcome base ops c e e' err.
Proof.
  intros He Hmax Hr. pose proof He as [Hi Hb Hw Hrep Hops Hlog Hlost]. pose proof (ei_inv _ _ _ _ He) as Ha.
  assert (zlen (op_bytes <$> ops) = zlen ops) as Hz by (unfold zlen; by rewrite length_fmap).
  destruct (run_call_one_step ctx io c e e' id err Hi Ha Hw Hr) as [(Hm & Hp & Herr & _ & Hwal)|(op & H1 & H2 & H3 & Hl)].
  - destruct Hwal as [Hwal|(op & (H1 & H2 & H3 & Hop & Happ) & Hal)].
    { split; [by rewrite Hwal|]. by apply OutRefused. }
    destruct (log_state_append ctx io _ _ _ _ _ _ _ Hlog ltac:(by rewrite Hz) Hal) as (Hse & [(_ & _ & [Hwal|Hcut])|(Hlsn & _)]).
    + split; [done|]. by apply OutRefused.
    + destruct Hcut as (Hnl & Hpo & Hpo' & Hd & Hls). split; [done|]. eapply (OutLost _ _ _ _ _ _ op); try done.
      constructor; rewrite ?Hm; try done. intros op' [= <-]. done.
    + pose proof (zlen_nonneg (op_bytes <$> ops)). lia.
  - destruct Hl as (lsn & syncErr & Hop & Hpo & Hal & Hlsn & Happ & Hi' & _ & He1 & He2).
    destruct (log_state_append ctx io _ _ _ _ _ _ _ Hlog ltac:(by rewrite Hz) Hal) as (Hse & [(Hz0 & Hne & _)|Hlg]).
    { destruct Hlsn; [congruence|lia]. }
    destruct Hlg as (_ & Hnl & Hwp & Hls & Hwp' & Hd & Hd1). split; [done|].
    apply (OutLogged _ _ _ _ _ _ op); try done.
    + by rewrite Hwp', He1.
    + intros Hs1 Hn. apply Hd1; [done|]. by apply He1.
    + by rewrite He1, He2.
    + constructor; try done.
      * by apply (abs_apply_writing op (abs (e_manager e)) (abs (e_manager e')) Happ).
      * rewrite abs_replay_app, Hrep. cbn. by rewrite Happ.
      * apply Forall_app. split; [done|by constructor].
      * by rewrite fmap_app.
Qed.
End engine_run.

(** ** Crashes *)
Section crash.
Context {DB : Type} `{Hkv : KVStore DB} {Hlaws : KVStoreLaws DB}.
Hypothesis Hstore : ~ store_fails (DB := DB).
Implicit Types (e : WriteEngine DB WAL).

(** Opening the cut log and replaying it over the reopened checkpoint. *)
Lemma engine_crash base e ops lost m se (m1 : SegmentManager DB) :
  engine_inv base e ops lost -> zlen ops + 2 < u64_max ->
  (f_stable (w_file (e_wal e)) <= m <= length (f_content (w_file (e_wal e))))%nat ->
  abs m1 = base -> idmap_inv (sg_primaryKey m1) -> sg_writing m1 <> None ->
  exists w m2 e2 k,
    OpenWAL CtxLive (Some {| f_content := take m (f_content (w_file (e_wal e))); f_stable := m |}) io_fine se = Some (Ok w) /\
    replayWriteWAL CtxLive w m1 = Some (m2, None) /\ NewWriteEngine m2 w = Ok e2 /\
    engine_inv base e2 (take k (ops ++ option_list lost)) None /\
    e_manager e2 = m2 /\ e_wal e2 = w /\ w_SyncEvery w = se /\ w_dirtyRecords w = 0 /\ w_poisoned w = None /\
    zlen ops - w_dirtyRecords (e_wal e) <= Z.of_nat k.
Proof.
  intros He Hmax Hm Hbase Hi1 Hw1. pose proof He as [Hi Hb Hw Hrep Hops Hlog Hlost].
  assert (zlen (op_bytes <$> ops) = zlen ops) as Hz by (unfold zlen; by rewrite length_fmap).
  destruct (log_state_crash _ _ _ m m se Hlog ltac:(by rewrite Hz) Hm)
    as (w & qs & Hopen & Hwi & Hpo & Hcl & _ & Hse & Hd & Hls & Hpre & Hqs).
  specialize (Hls eq_refl).
  assert (exists a, abs_replay (ops ++ option_list lost) base = Some a) as (aend & Hend).
  { rewrite abs_replay_app, Hrep. destruct lost as [op|]; cbn [option_list abs_replay]; [|eauto].
    destruct (Hlost op eq_refl) as [_ [a Hop]]. exists a. cbn. by rewrite Hop. }
  assert (Forall op_ok (ops ++ option_list lost)) as Hallok.
  { apply Forall_app. split; [done|]. destruct lost as [op|]; [|constructor].
    constructor; [by apply Hlost|constructor]. }
  set (k := length qs).
  assert (qs = op_bytes <$> take k (ops ++ option_list lost)) as Hq.
  { rewrite fmap_take, fmap_app. unfold k. destruct Hqs as [[l Hl]|(p & Hp & ->)].
    - rewrite Hl, <- app_assoc. by rewrite take_app_length.
    - destruct lost as [op|]; [|done]. injection Hp as <-. cbn [option_list]. symmetry. by apply firstn_all. }
  destruct (abs_replay_take _ k _ _ Hend) as [ak Hak].
  rewrite Hq in Hwi, Hls.
  destruct (replayWriteWAL_spec Hstore _ w m1 ak (Forall_take _ k _ Hallok) Hi1 ltac:(by rewrite Hbase) Hwi Hpo Hcl)
    as (m2 & Hr2 & Habs2 & Hi2).
  assert (sg_writing m2 <> None) as Hw2.
  { change (a_writing (abs m2) <> None). rewrite Habs2.
    assert (forall l a a', abs_replay l a = Some a' -> a_writing a <> None -> a_writing a' <> None) as Hgen.
    { intros l. induction l as [|op l IH]; intros a a' Hl Ha; cbn in Hl; [by injection Hl as <-|].
      destruct (abs_apply op a) as [a1|] eqn:E1; [|done]. apply (IH a1 a' Hl). by apply (abs_apply_writing op a). }
    apply (Hgen _ _ _ Hak). by rewrite <- Hbase. }
  exists w, m2, {| e_manager := m2; e_wal := w; e_poisoned := None |}, k.
  split; [done|]. split; [done|]. split.
  { unfold NewWriteEngine. by destruct (sg_writing m2). }
  split.
  { constructor; cbn; try done; [by rewrite Habs2|by apply Forall_take]. }
  do 5 (split; [done|]).
  destruct Hpre as [l Hl]. apply (f_equal length) in Hl. rewrite length_app, length_take, length_fmap in Hl.
  pose proof (wi_dirty _ _ (ls_inv _ _ _ Hlog)) as Hdd. rewrite Hz in Hdd. unfold k, zlen in *. lia.
Qed.

(** With a sync per record, the acknowledged calls are the durable ones. *)
Definition synced_run base ops0 e (results : list (ecall * option gerror)) : Prop :=
  exists ops lost new rest,
    engine_inv base e ops lost /\ ops ++ option_list lost = ops0 ++ new ++ rest /\
    Forall2 op_matches new (acknowledged results) /\ w_SyncEvery (e_wal e) = 1 /\
    zlen (ops0 ++ new) <= zlen ops - w_dirtyRecords (e_wal e) /\
    zlen ops <= zlen ops0 + zlen results /\
    (rest = [] \/ exists op c err, rest = [op] /\ op_matches op c /\ (c, Some err) ∈ results /\
                                   w_poisoned (e_wal e) <> None).

Lemma acknowledged_app r1 r2 : acknowledged (r1 ++ r2) = acknowledged r1 ++ acknowledged r2.
Proof. apply omap_app. Qed.

Lemma synced_run_step base ops0 e results ctx io c e' id err :
  synced_run base ops0 e results -> zlen ops0 + zlen results + 2 < u64_max ->
  run_call ctx io c e = (e', (id, err)) ->
  synced_run base ops0 e' (results ++ [(c, err)]).
Proof.
  intros (ops & lost & new & rest & He & Hall & Hnew & Hse & Hdur & Hlen & Hrest) Hmax Hr.
  destruct (run_call_outcome Hstore base ctx io c e e' ops lost id err He ltac:(lia) Hr) as [Hse' Hout].
  assert (zlen (results ++ [(c, err)]) = zlen results + 1) as Hzr by (rewrite zlen_app; done).
  assert (w_poisoned (e_wal e) = None -> rest = []) as Hrn.
  { intros Hn. destruct Hrest as [|(? & ? & ? & _ & _ & _ & Hp)]; [done|congruence]. }
  unfold synced_run. rewrite Hzr, acknowledged_app. cbn [acknowledged omap list_omap].
  destruct Hout as [Herr Hm Hwal _|op Herr Hm Hop Hpo Hpo' Hd _ He'|op Hop Hpo Hpe Hd Hd1 _ _ Happ He'].
  - destruct err as [x|]; [|done]. rewrite app_nil_r. exists ops, lost, new, rest. rewrite Hwal.
    split; [|split; [done|split; [done|split; [done|split; [done|split; [lia|]]]]]].
    + destruct He as [H1 H2 H3 H4 H5 H6 H7]. constructor; rewrite ?Hm, ?Hwal; done.
    + destruct Hrest as [|(op & c' & e1 & H1 & H2 & H3 & H4)]; [by left|right].
      exists op, c', e1. split; [done|]. split; [done|]. split; [set_solver|done].
  - destruct err as [x|]; [|done]. rewrite app_nil_r. specialize (Hrn Hpo). subst rest.
    assert (lost = None) as -> by (destruct lost as [o|]; [destruct (ls_content _ _ _ (ei_log _ _ _ _ He)); done|done]).
    cbn [option_list] in Hall. rewrite !app_nil_r in Hall.
    exists ops, (Some op), new, [op]. split; [done|]. split; [cbn; by rewrite Hall, app_assoc|]. split; [done|].
    split; [congruence|]. split; [by rewrite Hd|]. split; [lia|]. right. exists op, c, x. set_solver.
  - specialize (Hrn Hpo). subst rest.
    assert (lost = None) as -> by (destruct lost as [o|]; [destruct (ls_content _ _ _ (ei_log _ _ _ _ He)); done|done]).
    cbn [option_list] in Hall. rewrite !app_nil_r in Hall. rewrite Hall in Hdur.
    assert (zlen (ops ++ [op]) = zlen ops + 1) as Hzo by (rewrite zlen_app; done).
    pose proof (wi_dirty _ _ (ls_inv _ _ _ (ei_log _ _ _ _ He))) as Hdw.
    destruct err as [x|].
    + exists (ops ++ [op]), None, new, [op]. split; [done|]. cbn [option_list]. rewrite app_nil_r.
      split; [by rewrite Hall, app_assoc|]. rewrite app_nil_r. split; [done|]. split; [congruence|].
      rewrite Hzo, <- Hall. rewrite <- Hall in Hdur. split; [lia|]. split; [lia|]. right. exists op, c, x.
      split; [done|]. split; [done|]. split; [set_solver|]. by rewrite Hpe.
    + exists (ops ++ [op]), None, (new ++ [op]), []. split; [done|]. cbn [option_list]. rewrite !app_nil_r.
      split; [by rewrite Hall, app_assoc|]. split; [by apply Forall2_app; [|constructor]|]. split; [congruence|].
      rewrite Hzo, (app_assoc ops0), <- Hall, Hzo, (Hd1 Hse eq_refl). split; [lia|]. split; [lia|by left].
Qed.

Lemma synced_run_calls base ops0 calls e results e' results' :
  synced_run base ops0 e results -> zlen ops0 + zlen results + zlen calls + 2 < u64_max ->
  run_calls calls e = (e', results') -> synced_run base ops0 e' (results ++ results').
Proof.
  revert e results results'. induction calls as [|[[ctx io] c] calls IH]; intros e results results' Hs Hmax Hr; cbn in Hr.
  { injection Hr as <- <-. by rewrite app_nil_r. }
  destruct (run_call ctx io c e) as [e1 [id err]] eqn:E1. destruct (run_calls calls e1) as [e2 r2] eqn:E2.
  injection Hr as <- <-. rewrite zlen_cons in Hmax. pose proof (zlen_nonneg calls).
  change ((c, err) :: r2) with ([(c, err)] ++ r2). rewrite (app_assoc results). apply (IH e1); [|rewrite zlen_app; change (zlen [(c, err)]) with 1; lia|done].
  eapply synced_run_step; [done|lia|done].
Qed.
End crash.

(** ** Successful calls *)
Section success.
Context {DB W IO : Type} `{Hkv : KVStore DB} {Hlaws : KVStoreLaws DB} `{Hal : AppendLog W IO}.
Implicit Types (e : WriteEngine DB W).
Hypothesis Hstore : ~ store_fails (DB := DB).


End success.

(** ** Properties *)

(** A healthy engine whose log holds [ops] over the checkpoint [base], all synced. *)
Record engine_start {DB} `{KVStore DB} (base : AbsState) (e : WriteEngine DB WAL) (ops : list writeOperation) : Prop := {
  es_inv : engine_inv base e ops None;
  es_policy : w_SyncEvery (e_wal e) = 1;
  es_synced : w_dirtyRecords (e_wal e) = 0
}.

(** What a run of acknowledged calls and its recovered prefix have in common. *)
Lemma recovered_contents {DB} `{Hkv : KVStore DB} {Hlaws : KVStoreLaws DB} base ops0 (e0 e e2 : WriteEngine DB WAL) ops lost new rest
    (results : list (ecall * option gerror)) k lost0 :
  engine_inv base e0 ops0 lost0 -> engine_inv base e2 (take k (ops ++ option_list lost)) None ->
  ops ++ option_list lost = ops0 ++ new ++ rest -> Forall2 op_matches new (acknowledged results) ->
  zlen (ops0 ++ new) <= zlen ops - w_dirtyRecords (e_wal e) -> zlen ops - w_dirtyRecords (e_wal e) <= Z.of_nat k ->
  (rest = [] \/ exists op c err, rest = [op] /\ op_matches op c /\ (c, Some err) ∈ results /\ w_poisoned (e_wal e) <> None) ->
  let kept := calls_apply (acknowledged results) (contents (abs (e_manager e0))) in
  contents (abs (e_manager e2)) = kept \/
  exists c err, (c, Some err) ∈ results /\ contents (abs (e_manager e2)) = call_apply c kept.
Proof.
  intros He0 He2 Hall Hnew Hdur Hk Hrest kept.
  pose proof (abs_replay_inv _ _ _ (ei_ops _ _ _ _ He0) (ei_base _ _ _ _ He0) (ei_replay _ _ _ _ He0)) as [_ Hc0].
  pose proof (abs_replay_inv _ _ _ (ei_ops _ _ _ _ He2) (ei_base _ _ _ _ He2) (ei_replay _ _ _ _ He2)) as [_ Hc2].
  rewrite Hall in Hc2. assert (length (ops0 ++ new) <= k)%nat as Hk' by (unfold zlen in *; lia).
  assert (foldl (fun c op => contents_apply op c) (contents base) (ops0 ++ new) = kept) as Hkept.
  { unfold kept. rewrite foldl_app, <- Hc0. by apply matches_contents. }
  rewrite app_assoc, take_app_ge in Hc2 by done. rewrite foldl_app, Hkept in Hc2.
  destruct Hrest as [->|(op & c & err & -> & Hop & Hin & _)]; [left; by rewrite take_nil in Hc2|].
  destruct (k - length (ops0 ++ new))%nat as [|n]; [by left|right].
  exists c, err. split; [done|]. rewrite Hc2. cbn. rewrite take_nil. cbn. by apply op_matches_apply.
Qed.

(** C11: Durability of acknowledged writes.  Under the policy of one sync per
    record and a document store that works, run any calls, whatever the contexts
    say and however writes and syncs of the log fail, and crash at any time,
    losing any part of the log file that is not stable.  Opening the log and
    replaying it over the reopened checkpoint succeeds; the recovered contents
    are those that exactly the acknowledged calls produced, or these and one
    more call that had reported an error; and the recovered engine is again in
    a state from which this statement applies. *)
Theorem acknowledged_writes_survive_crash {DB} `{Hkv : KVStore DB} {Hlaws : KVStoreLaws DB}
    base (e0 e : WriteEngine DB WAL) ops0 (calls : list (context * wal_io * ecall)) results m (m1 : SegmentManager DB) :
  ~ store_fails (DB := DB) -> engine_start base e0 ops0 -> zlen ops0 + zlen calls + 3 < u64_max ->
  run_calls calls e0 = (e, results) ->
  (f_stable (w_file (e_wal e)) <= m <= length (f_content (w_file (e_wal e))))%nat ->
  abs m1 = base -> idmap_inv (sg_primaryKey m1) -> sg_writing m1 <> None ->
  exists w m2 e2 ops2,
    OpenWAL CtxLive (Some {| f_content := take m (f_content (w_file (e_wal e))); f_stable := m |}) io_fine 1 = Some (Ok w) /\
    replayWriteWAL CtxLive w m1 = Some (m2, None) /\ NewWriteEngine m2 w = Ok e2 /\ e_manager e2 = m2 /\
    engine_start base e2 ops2 /\
    let kept := calls_apply (acknowledged results) (contents (abs (e_manager e0))) in
    (contents (abs m2) = kept \/
     exists c err, (c, Some err) ∈ results /\ contents (abs m2) = call_apply c kept).
Proof.
  intros Hstore [He0 Hse Hd0] Hmax Hrun Hm Hbase Hi1 Hw1.
  assert (length results = length calls) as Hlr by by eapply run_calls_length.
  assert (synced_run base ops0 e results) as (ops & lost & new & rest & He & Hall & Hnew & Hse' & Hdur & Hlen & Hrest).
  { apply (synced_run_calls Hstore base ops0 calls e0 [] e results); [|rewrite zlen_nil; lia|done].
    exists ops0, None, [], []. cbn [option_list app acknowledged omap list_omap]. rewrite Hd0, !app_nil_r. split; [done|]. split; [done|].
    split; [constructor|]. split; [done|]. change (zlen []) with 0. split; [lia|]. split; [lia|by left]. }
  destruct (engine_crash Hstore base e ops lost m 1 m1 He ltac:(unfold zlen in *; lia) Hm Hbase Hi1 Hw1)
    as (w & m2 & e2 & k & Hopen & Hrep & Hnewe & He2 & Hem & Hew & Hwse & Hwd & _ & Hk).
  exists w, m2, e2, (take k (ops ++ option_list lost)). do 4 (split; [done|]).
  split; [constructor; [done|by rewrite Hew|by rewrite Hew]|]. cbv zeta.
  rewrite <- Hem. by apply (recovered_contents base ops0 e0 e e2 ops lost new rest results k None).
Qed.


(** The log of a run, under any sync policy. *)
Lemma run_calls_inv {DB} `{Hkv : KVStore DB} {Hlaws : KVStoreLaws DB} base calls (e e' : WriteEngine DB WAL) ops lost results :
  ~ store_fails (DB := DB) -> engine_inv base e ops lost -> zlen ops + zlen calls + 2 < u64_max ->
  run_calls calls e = (e', results) ->
  exists more lost', engine_inv base e' (ops ++ more) lost' /\ zlen more <= zlen calls.
Proof.
  intros Hstore. revert e ops lost results. induction calls as [|[[ctx io] c] calls IH]; intros e ops lost results He Hmax Hr; cbn in Hr.
  { injection Hr as <- <-. exists [], lost. by rewrite app_nil_r. }
  destruct (run_call ctx io c e) as [e1 [id err]] eqn:E1. destruct (run_calls calls e1) as [e2 r2] eqn:E2.
  injection Hr as <- _. rewrite zlen_cons in Hmax |- *. pose proof (zlen_nonneg calls).
  destruct (run_call_outcome Hstore base ctx io c e e1 ops lost id err He ltac:(lia) E1) as [_ Hout].
  destruct Hout as [_ Hm Hw _|op _ _ _ _ _ _ _ He'|op _ _ _ _ _ _ _ _ He'].
  - destruct (IH e1 ops lost r2) as (more & lost' & Hi & Hl); [|lia|done|].
    { destruct He as [H1 H2 H3 H4 H5 H6 H7]. constructor; rewrite ?Hm, ?Hw; done. }
    exists more, lost'. split; [done|lia].
  - destruct (IH e1 ops (Some op) r2 He' ltac:(lia) E2) as (more & lost' & Hi & Hl). exists more, lost'. split; [done|lia].
  - assert (zlen (ops ++ [op]) = zlen ops + 1) as Hz by (rewrite zlen_app; done).
    destruct (IH e1 (ops ++ [op]) None r2 He' ltac:(lia) E2) as (more & lost' & Hi & Hl).
    exists (op :: more), lost'. rewrite zlen_cons. rewrite <- (app_assoc ops [op]) in Hi. split; [done|lia].
Qed.

(** Calls that are all acknowledged change the contents as they say, and with a
    sync per record leave a synchronized log. *)
Lemma run_calls_acknowledged {DB} `{Hkv : KVStore DB} {Hlaws : KVStoreLaws DB} base calls (e e' : WriteEngine DB WAL) ops lost results :
  ~ store_fails (DB := DB) -> engine_inv base e ops lost -> zlen ops + zlen calls + 2 < u64_max ->
  run_calls calls e = (e', results) -> Forall (fun r => r.2 = None) results ->
  contents (abs (e_manager e')) = calls_apply (acknowledged results) (contents (abs (e_manager e))) /\
  (w_SyncEvery (e_wal e) = 1 -> w_dirtyRecords (e_wal e) = 0 -> w_dirtyRecords (e_wal e') = 0).
Proof.
  intros Hstore. revert e ops lost results. induction calls as [|[[ctx io] c] calls IH]; intros e ops lost results He Hmax Hr Hall; cbn in Hr.
  { by injection Hr as <- <-. }
  destruct (run_call ctx io c e) as [e1 [id err]] eqn:E1. destruct (run_calls calls e1) as [e2 r2] eqn:E2.
  injection Hr as <- <-. rewrite zlen_cons in Hmax. pose proof (zlen_nonneg calls).
  apply Forall_cons in Hall as [Herr Hall]. cbn in Herr. subst err.
  destruct (run_call_outcome Hstore base ctx io c e e1 ops lost id None He ltac:(lia) E1) as [Hse Hout].
  destruct Hout as [Herr _ _ _|op Herr _ _ _ _ _ _ _|op Hop _ _ _ Hd _ _ Happ He']; [done|done|].
  assert (zlen (ops ++ [op]) = zlen ops + 1) as Hz by (rewrite zlen_app; done).
  destruct (IH e1 (ops ++ [op]) None r2 He' ltac:(lia) E2 Hall) as [HC Hdd]. split.
  - rewrite HC. cbn [acknowledged omap list_omap calls_apply foldl]. unfold calls_apply. cbn [foldl]. f_equal.
    assert (op_ok op) as Hok by exact (proj1 (Forall_singleton _ _) (proj2 (proj1 (Forall_app _ _ _) (ei_ops _ _ _ _ He')))).
    destruct (abs_apply_spec op _ _ Hok (ei_inv _ _ _ _ He) Happ) as (_ & _ & ->). by apply op_matches_apply.
  - intros H1 _. apply Hdd; [by rewrite Hse|by apply Hd].
Qed.

(** C12: Recovery under any sync policy.  Whatever calls ran and whatever part of
    the unstable log a crash loses, the log opens, replay succeeds, and the
    recovered segments, deletions and primary-key map are those of the engine
    after a prefix of the logged operations - or after all of them and the one
    whose record was being written when a write failed -, a prefix that lacks
    at most the records appended since the last sync. *)
Theorem logged_prefix_recovered {DB} `{Hkv : KVStore DB} {Hlaws : KVStoreLaws DB}
    base (e0 e : WriteEngine DB WAL) (calls : list (context * wal_io * ecall)) results m se (m1 : SegmentManager DB) :
  ~ store_fails (DB := DB) -> engine_inv base e0 [] None -> zlen calls + 2 < u64_max ->
  run_calls calls e0 = (e, results) ->
  (f_stable (w_file (e_wal e)) <= m <= length (f_content (w_file (e_wal e))))%nat ->
  abs m1 = base -> idmap_inv (sg_primaryKey m1) -> sg_writing m1 <> None ->
  exists ops lost k w m2,
    abs_replay ops base = Some (abs (e_manager e)) /\
    (forall op, lost = Some op -> is_Some (abs_apply op (abs (e_manager e)))) /\
    OpenWAL CtxLive (Some {| f_content := take m (f_content (w_file (e_wal e))); f_stable := m |}) io_fine se = Some (Ok w) /\
    replayWriteWAL CtxLive w m1 = Some (m2, None) /\
    abs_replay (take k (ops ++ option_list lost)) base = Some (abs m2) /\
    zlen ops - w_dirtyRecords (e_wal e) <= Z.of_nat k /\ a_inv (abs m2) /\ idmap_inv (sg_primaryKey m2).
Proof.
  intros Hstore He0 Hmax Hrun Hm Hbase Hi1 Hw1.
  destruct (run_calls_inv base calls e0 e [] None results Hstore He0 ltac:(rewrite zlen_nil; lia) Hrun)
    as (ops & lost & He & Hl). cbn [app] in He.
  destruct (engine_crash Hstore base e ops lost m se m1 He ltac:(lia) Hm Hbase Hi1 Hw1)
    as (w & m2 & e2 & k & Hopen & Hrep & Hnewe & He2 & Hem & Hew & _ & _ & _ & Hk).
  exists ops, lost, k, w, m2. split; [apply (ei_replay _ _ _ _ He)|].
  split; [intros op Hop; by apply (ei_lost _ _ _ _ He)|]. do 2 (split; [done|]).
  rewrite <- Hem. split; [apply (ei_replay _ _ _ _ He2)|]. split; [done|]. split; [by eapply ei_inv|apply (ei_idmap _ _ _ _ He2)].
Qed.

(** ** Batches *)
Definition failed_results {A} (key : A -> bytes) (err : gerror) (l : list A) : list WriteResult :=
  (fun i => {| wr_PrimaryKey := key i; wr_DocID := 0; wr_Err := Some err |}) <$> l.
Lemma failed_results_spec {A} (key : A -> bytes) err l :
  (wr_PrimaryKey <$> failed_results key err l) = (key <$> l) /\
  omap id (wr_Err <$> failed_results key err l) = ((fun _ => err) <$> l).
Proof. split; (induction l as [|x l IH]; [done|]); apply (f_equal (cons _)); exact IH. Qed.

Lemma failed_results_all {A} (key : A -> bytes) err l :
  Forall (fun r => wr_DocID r = 0 /\ wr_Err r = Some err) (failed_results key err l).
Proof. induction l; by constructor. Qed.

Lemma batch_loop_run {DB W IO A} `{KVStore DB} `{AppendLog W IO} one (key : A -> bytes) (call : A -> ecall)
    (polls : nat -> context) (ios : nat -> IO) index inputs (e e' : WriteEngine DB W) results causes :
  (forall ctx io i e, one ctx io i e = run_call ctx io (call i) e) ->
  batch_loop one key polls ios index inputs e = (e', (results, causes)) ->
  exists n rs, (n <= length inputs)%nat /\
    run_calls (imap (fun j i => (polls (2 * (index + j) + 1)%nat, ios (index + j)%nat, call i)) (take n inputs)) e = (e', rs) /\
    wr_Err <$> take n results = snd <$> rs /\ wr_PrimaryKey <$> results = key <$> inputs /\
    (forall j, (j < n)%nat -> ctx_Err (polls (2 * (index + j))%nat) = None) /\
    (n = length inputs \/ exists err, ctx_Err (polls (2 * (index + n))%nat) = Some err /\
       Forall (fun r => wr_DocID r = 0 /\ wr_Err r = Some err) (drop n results)) /\
    causes = omap id (wr_Err <$> results).
Proof.
  intros Hone. revert index e e' results causes.
  induction inputs as [|i inputs IH]; intros index e e' results causes Hb; cbn [batch_loop] in Hb.
  { injection Hb as <- <- <-. exists 0%nat, []. cbn. split; [lia|]. do 4 (split; [done || lia|]). split; [by left|done]. }
  destruct (ctx_Err (polls (2 * index)%nat)) as [err|] eqn:Ectx.
  - injection Hb as <- <- <-. exists 0%nat, []. rewrite take_0, drop_0, Nat.add_0_r. cbn [imap run_calls].
    destruct (failed_results_spec key err (i :: inputs)) as [F1 F2].
    split; [lia|]. split; [done|]. split; [done|]. split; [exact F1|]. split; [lia|]. split; [right; exists err; split; [done|]|].
    + apply (failed_results_all key err (i :: inputs)).
    + symmetry. exact F2.
  - destruct (one _ _ i e) as [e1 [d err]] eqn:Eone. rewrite Hone in Eone.
    destruct (batch_loop one key polls ios (S index) inputs e1) as [e2 [rs2 cs2]] eqn:Eb. injection Hb as <- <- <-.
    destruct (IH _ _ _ _ _ Eb) as (n & rs & Hn & Hrun & Herr & Hkeys & Hpolls & Hend & Hcs).
    exists (S n), ((call i, err) :: rs). split; [cbn [length]; lia|]. split.
    { rewrite firstn_cons, imap_cons. cbn [run_calls]. rewrite Nat.add_0_r, Eone.
      erewrite imap_ext; [rewrite Hrun; done|]. intros j x _. unfold compose. by replace (index + S j)%nat with (S index + j)%nat by lia. }
    split; [exact (f_equal (cons err) Herr)|]. split; [exact (f_equal (cons (key i)) Hkeys)|]. split.
    { intros [|j] Hj; [by rewrite Nat.add_0_r|]. rewrite Nat.add_succ_r. apply (Hpolls j). lia. }
    split.
    { destruct Hend as [->|(x & Hx & HF)]; [by left|right]. exists x. rewrite Nat.add_succ_r. done. }
    rewrite Hcs. cbn. by destruct err.
Qed.

(** What a batch does, as calls in the order of its inputs. *)
Definition batch_spec {DB W IO A} `{KVStore DB} `{AppendLog W IO} (key : A -> bytes) (call : A -> ecall)
    (api : bool -> (nat -> context) -> (nat -> IO) -> list A -> WriteEngine DB W -> WriteEngine DB W * (list WriteResult * option gerror))
    : Prop :=
  forall isnil polls ios inputs e e' results err,
    api isnil polls ios inputs e = (e', (results, err)) ->
    (isnil = true \/ inputs = [] -> e' = e /\ results = [] /\ err <> None) /\
    (isnil = false -> inputs <> [] -> exists n rs, (n <= length inputs)%nat /\
       run_calls (imap (fun j i => (polls (2 * j + 1)%nat, ios j, call i)) (take n inputs)) e = (e', rs) /\
       wr_Err <$> take n results = snd <$> rs /\ wr_PrimaryKey <$> results = key <$> inputs /\
       (n = length inputs \/ exists cause, ctx_Err (polls (2 * n)%nat) = Some cause /\
          Forall (fun r => wr_DocID r = 0 /\ wr_Err r = Some cause) (drop n results)) /\
       (err = None <-> Forall (fun r => wr_Err r = None) results)).

Lemma no_causes (errs : list (option gerror)) : omap id errs = [] <-> Forall (fun o => o = None) errs.
Proof.
  induction errs as [|o errs IH]; cbn; [by split; [constructor|]|]. rewrite Forall_cons, <- IH.
  destruct o; cbn; split; [done|by intros [? _]| |]; [auto|by intros [_ ?]].
Qed.

Lemma batch_ok {DB W IO A} `{KVStore DB} `{AppendLog W IO} one (key : A -> bytes) call t1 t2 :
  (forall ctx io i (e : WriteEngine DB W), one ctx io i e = run_call ctx io (call i) e) ->
  batch_spec key call (batch one key t1 t2).
Proof.
  intros Hone isnil polls ios inputs e e' results err Hb. unfold batch in Hb. split.
  - intros [->| ->]; [by injection Hb as <- <- <-|]. destruct isnil; by injection Hb as <- <- <-.
  - intros -> Hne. destruct inputs as [|i inputs]; [done|].
    destruct (batch_loop one key polls ios 0 (i :: inputs) e) as [e1 [rs causes]] eqn:Eb.
    injection Hb as <- <- <-.
    destruct (batch_loop_run one key call polls ios 0 (i :: inputs) e e1 rs causes Hone Eb)
      as (n & rs' & Hn & Hrun & Herr & Hkeys & _ & Hend & Hcs).
    exists n, rs'. split; [done|]. split; [exact Hrun|]. split; [done|]. split; [done|]. split; [exact Hend|].
    assert (Forall (fun r => wr_Err r = None) rs <-> causes = []) as ->.
    { rewrite Hcs, no_causes. symmetry. apply (Forall_fmap wr_Err (fun o => o = None)). }
    destruct causes; by split.
Qed.

(** [Insert], [Upsert], [Update] and [Delete] on a batch: without a context or
    without inputs they refuse and change nothing; otherwise they perform the
    single operations on the inputs in order, up to the first input at which the
    context is found done, report one result per input under its key with the
    error of its operation (or, from that input on, the context's error, with
    nothing done), and return an error exactly when some result has one. *)
Theorem batches_are_runs {DB W IO} `{KVStore DB} `{AppendLog W IO} :
  batch_spec in_PrimaryKey CallInsert (engine_Insert (DB := DB) (W := W) (IO := IO)) /\
  batch_spec in_PrimaryKey CallUpsert (engine_Upsert (DB := DB) (W := W) (IO := IO)) /\
  batch_spec in_PrimaryKey CallUpdate (engine_Update (DB := DB) (W := W) (IO := IO)) /\
  batch_spec (fun k => k) CallDelete (engine_Delete (DB := DB) (W := W) (IO := IO)).
Proof. split; [|split; [|split]]; apply batch_ok; done. Qed.

(** ** Witnesses *)
Definition ex_wal : WAL :=
  {| w_file := {| f_content := encodeWALFileHeader; f_stable := 32 |};
     w_SyncEvery := 1; w_recovery := rec_at 0 32 0; w_size := 32; w_lastLSN := 0; w_dirtyRecords := 0;
     w_poisoned := None; w_readOnly := false; w_closed := false |}.

Definition ex_engine : WriteEngine (gmap bytes bytes) WAL :=
  {| e_manager := ex_manager; e_wal := ex_wal; e_poisoned := None |}.

Lemma ex_created : CreateWAL CtxLive false io_fine 1 = Ok ex_wal.
Proof. reflexivity. Qed.

Lemma ex_manager_a_inv : a_inv (abs ex_manager).
Proof.
  destruct ex_idmap10_spec as [Hv _].
  assert (a_stored (abs ex_manager) = [{| DocID := 10; PrimaryKey := [x61]; doc_Payload := [x01; x02] |}]) as Hst by reflexivity.
  constructor.
  - apply (sg_inv_a_mgr ex_manager), ex_manager_inv.
  - intros w _. constructor.
  - intros key id. rewrite Hst. cbn [a_view a_deletes abs]. change (sg_primaryKey ex_manager) with ex_idmap10. rewrite Hv.
    rewrite lookup_singleton_Some. split.
    + intros [<- <-]. split; [apply not_elem_of_empty|]. eexists. split; [by apply list_elem_of_singleton|done].
    + intros [_ (d & ->%list_elem_of_singleton & <- & <-)]. done.
  - intros id Hid. by apply not_elem_of_empty in Hid.
Qed.

Lemma ex_engine_inv : engine_inv (abs ex_manager) ex_engine [] None.
Proof.
  destruct (CreateWAL_inv CtxLive false io_fine 1 ex_wal ex_created) as (Hi & Hd & _).
  constructor; [apply ex_idmap10_spec|apply ex_manager_a_inv|done|done|constructor| |done].
  constructor; [exact Hi|exact Hd|]. reflexivity.
Qed.

(** An update, a delete whose record is cut off by a failing write, an insert. *)
Definition ex_failing_io : wal_io := {| io_writes := [(7%nat, Some (errors_New "disk full"))]; io_sync := None; io_truncate := None |}.
Definition ex_calls : list (context * wal_io * ecall) :=
  [(CtxLive, io_fine, CallUpdate {| in_PrimaryKey := [x61]; in_Payload := [x07] |});
   (CtxLive, ex_failing_io, CallDelete [x61]);
   (CtxLive, io_fine, CallInsert {| in_PrimaryKey := [x62]; in_Payload := [x08] |})].

Lemma acknowledged_writes_survive_crash_witness :
  let '(e, results) := run_calls ex_calls ex_engine in
  acknowledged results = [CallUpdate {| in_PrimaryKey := [x61]; in_Payload := [x07] |}] /\
  exists w m2 e2,
    OpenWAL CtxLive (Some {| f_content := take (length (f_content (w_file (e_wal e)))) (f_content (w_file (e_wal e)));
                             f_stable := length (f_content (w_file (e_wal e))) |}) io_fine 1 = Some (Ok w) /\
    replayWriteWAL CtxLive w ex_manager = Some (m2, None) /\ NewWriteEngine m2 w = Ok e2.
Proof.
  destruct (run_calls ex_calls ex_engine) as [e results] eqn:E.
  assert (length (f_content (w_file (e_wal e))) = length (f_content (w_file (e_wal (run_calls ex_calls ex_engine).1)))) as Hlen by (rewrite E; reflexivity).
  split.
  - assert (acknowledged (run_calls ex_calls ex_engine).2 = acknowledged results) as <- by (rewrite E; reflexivity).
    vm_compute. reflexivity.
  - destruct (acknowledged_writes_survive_crash (abs ex_manager) ex_engine e [] ex_calls results
      (length (f_content (w_file (e_wal e)))) ex_manager mem_store_reliable
      ltac:(constructor; [exact ex_engine_inv|reflexivity|reflexivity]) ltac:(vm_compute; reflexivity) E)
      as (w & m2 & e2 & ops2 & H1 & H2 & H3 & _).
    + split; [|lia]. assert (f_stable (w_file (e_wal e)) = f_stable (w_file (e_wal (run_calls ex_calls ex_engine).1))) as -> by (rewrite E; reflexivity).
      rewrite Hlen. apply Nat.leb_le. vm_compute. reflexivity.
    + reflexivity.
    + apply ex_idmap10_spec.
    + discriminate.
    + exists w, m2, e2. exact (conj H1 (conj H2 H3)).
Defined.




Lemma logged_prefix_recovered_witness :
  let '(e, _) := run_calls ex_calls ex_engine in
  exists ops k w m2,
    abs_replay ops (abs ex_manager) = Some (abs (e_manager e)) /\
    OpenWAL CtxLive (Some {| f_content := f_content (w_file (e_wal e)); f_stable := length (f_content (w_file (e_wal e))) |})
      io_fine 4 = Some (Ok w) /\
    replayWriteWAL CtxLive w ex_manager = Some (m2, None) /\ zlen ops - w_dirtyRecords (e_wal e) <= Z.of_nat k.
Proof.
  destruct (run_calls ex_calls ex_engine) as [e results] eqn:E.
  assert (f_stable (w_file (e_wal (run_calls ex_calls ex_engine).1)) <= length (f_content (w_file (e_wal (run_calls ex_calls ex_engine).1))))%nat as Hle
    by (apply Nat.leb_le; vm_compute; reflexivity).
  rewrite E in Hle. cbn [fst] in Hle.
  destruct (logged_prefix_recovered (abs ex_manager) ex_engine e ex_calls results
      (length (f_content (w_file (e_wal e)))) 4 ex_manager mem_store_reliable
      ex_engine_inv ltac:(vm_compute; reflexivity) E ltac:(split; [exact Hle|lia]) eq_refl
      (proj2 ex_idmap10_spec) ltac:(discriminate)) as (ops & lost & k & w & m2 & H1 & _ & H2 & H3 & _ & H4 & _).
  rewrite firstn_all in H2. exists ops, k, w, m2. exact (conj H1 (conj H2 (conj H3 H4))).
Defined.

(** ** The check of the recovered state *)
Section validation.
Context {DB : Type} `{Hkv : KVStore DB} {Hlaws : KVStoreLaws DB}.
Implicit Types (m : SegmentManager DB).

Lemma visited_documents_spec m : sg_inv m -> visited_documents m = Ok (sg_stored m).
Proof.
  intros Hm. unfold visited_documents, sg_stored.
  assert (forall l acc, Forall im_ok l ->
    foldM (fun docs s => if im_closed s then Fail os_ErrClosed else Ok (docs ++ im_docs s)) l acc =
      Ok (acc ++ mjoin (im_docs <$> l))) as Hfold.
  { induction l as [|s l IH]; intros acc Hl; cbn; [by rewrite app_nil_r|].
    apply Forall_cons in Hl as [Hs Hl]. rewrite (io_open s Hs), IH by done. by rewrite <- app_assoc. }
  by rewrite Hfold by apply Hm.
Qed.

Lemma collect_live_spec deletes documents live id key :
  (forall d1 d2, d1 ∈ documents -> d2 ∈ documents -> DocID d1 = DocID d2 -> d1 = d2) ->
  collect_live deletes documents live !! id = Some key <->
    (exists d, d ∈ documents /\ DocID d = id /\ PrimaryKey d = key /\ id ∉ deletes) \/
    (live !! id = Some key /\ forall d, d ∈ documents -> DocID d = id -> id ∈ deletes).
Proof.
  revert live. induction documents as [|d documents IH]; intros live Hu; cbn [collect_live].
  { split; [intros Hl; right; split; [done|]; by intros d ?%elem_of_nil|].
    intros [(d & ?%elem_of_nil & _)|[? _]]; done. }
  rewrite IH by (intros d1 d2 H1 H2; apply Hu; by right). unfold IsDeleted. case_bool_decide as Hdel.
  - split.
    + intros [(d' & Hin & H1 & H2 & H3)|[Hl Hn]]; [left; exists d'; split; [by right|done]|right].
      split; [done|]. intros d' [->|Hin]%elem_of_cons Heq; [congruence|eauto].
    + intros [(d' & [->|Hin]%elem_of_cons & H1 & H2 & H3)|[Hl Hn]]; [congruence|left; eauto|right].
      split; [done|]. intros d' Hin. apply Hn. by right.
  - split.
    + intros [(d' & Hin & H1 & H2 & H3)|[Hl Hn]]; [left; exists d'; split; [by right|done]|].
      apply lookup_insert_Some in Hl as [[<- <-]|[Hne Hl]]; [left; exists d; split; [by left|done]|right].
      split; [done|]. intros d' [->|Hin]%elem_of_cons Heq; [done|eauto].
    + intros [(d' & [->|Hin]%elem_of_cons & H1 & H2 & H3)|[Hl Hn]]; [|left; eauto|].
      * destruct (decide (Exists (fun d' => DocID d' = id) documents)) as [(d' & Hin & Heq)%Exists_exists|Hno].
        -- left. exists d'. split; [done|]. assert (d' = d) as -> by (apply Hu; [by right|by left|congruence]). done.
        -- right. split; [rewrite <- H1, <- H2; apply lookup_insert_eq|]. intros d' Hin Heq. exfalso. apply Hno, Exists_exists. eauto.
      * right. assert (DocID d <> id) as Hne by (intros Heq; apply Hdel; rewrite Heq; apply (Hn d); [by left|done]).
        rewrite lookup_insert_ne by done. split; [done|]. intros d' Hin. apply Hn. by right.
Qed.

Lemma range_missing (known deletes : gset Z) :
  DeleteStore_Range deletes (fun (err : option gerror) docID =>
    if bool_decide (docID ∈ known) then (err, true)
    else (Some (collection_corrupt "deletion references missing document"), false)) None = None <-> deletes ⊆ known.
Proof.
  unfold DeleteStore_Range. rewrite elem_of_subseteq. setoid_rewrite <- (elem_of_sorted_ids deletes).
  induction (sorted_ids deletes) as [|x l IH]; cbn [range_ids]; [by split; [intros _ x ?%elem_of_nil|]|].
  case_bool_decide as Hx.
  - rewrite IH. split; [intros Hl y [->|Hy]%elem_of_cons; auto|intros Hl y Hy; apply Hl; by right].
  - split; [done|]. intros Hl. exfalso. apply Hx, Hl. by left.
Qed.

(** A finite map and the inverse of another agree when the first is contained in
    the second and they have the same size. *)
Lemma inverse_maps (view : gmap bytes Z) (live : gmap Z bytes) :
  (forall key id, view !! key = Some id -> live !! id = Some key) ->
  size view = size live <-> (forall id key, live !! id = Some key -> view !! key = Some id).
Proof.
  intros Hsub. set (swap := fun e : bytes * Z => (e.2, e.1)).
  assert (NoDup (swap <$> map_to_list view)) as Hnd1.
  { apply NoDup_fmap_2, NoDup_map_to_list. intros [a b] [c d] [=]. by subst. }
  assert (length (swap <$> map_to_list view) = size view) as Hl1 by (by rewrite length_fmap, length_map_to_list).
  assert (length (map_to_list live) = size live) as Hl2 by apply length_map_to_list.
  assert (forall id key, (id, key) ∈ swap <$> map_to_list view <-> view !! key = Some id) as Hin.
  { intros id key. rewrite list_elem_of_fmap. split.
    - intros ([k i] & [= -> ->] & Hk). by apply elem_of_map_to_list in Hk.
    - intros Hk. exists (key, id). split; [done|]. by apply elem_of_map_to_list. }
  assert (swap <$> map_to_list view ⊆+ map_to_list live) as Hsm.
  { apply NoDup_submseteq; [done|]. intros [id key] Hk%Hin. apply elem_of_map_to_list. by apply Hsub. }
  split.
  - intros Hsz id key Hl. apply Hin. rewrite (submseteq_length_Permutation _ _ Hsm) by lia. by apply elem_of_map_to_list.
  - intros Hback. apply submseteq_length in Hsm.
    assert (map_to_list live ⊆+ swap <$> map_to_list view) as Hsm2%submseteq_length; [|lia].
    apply NoDup_submseteq; [apply NoDup_map_to_list|]. intros [id key] Hk. apply Hin, Hback. by apply elem_of_map_to_list.
Qed.

Lemma foldM_check_live live l :
  foldM (visit_pair (check_live live)) l tt = Ok tt <-> (forall key id, (key, id) ∈ l -> live !! id = Some key).
Proof.
  induction l as [|[key id] l IH]; cbn [foldM].
  { split; [by intros _ ? ? ?%elem_of_nil|done]. }
  unfold visit_pair at 1, check_live at 1. cbn [fst snd]. case_bool_decide as Hl.
  - rewrite IH. split; [intros Hr k i [[= -> ->]|Hk]%elem_of_cons; auto|intros Hr k i Hk; apply Hr; by right].
  - split; [done|]. intros Hr. exfalso. apply Hl, Hr. by left.
Qed.
End validation.

Lemma validateCollectionState_spec {DB} `{Hkv : KVStore DB} {Hlaws : KVStoreLaws DB} (m : SegmentManager DB) db l order :
  sg_inv m -> idmap_inv (sg_primaryKey m) ->
  pk_db (sg_primaryKey m) = Some db -> kv_Iter db = (l, None) ->
  order ≡ₚ map_to_list (idmap_overlay (sg_primaryKey m)) ->
  validateCollectionState order m = None <->
    (forall id, id ∈ sg_deletes m -> exists d, d ∈ sg_stored m /\ DocID d = id) /\
    (forall key id, idmap_view (sg_primaryKey m) !! key = Some id <->
       id ∉ sg_deletes m /\ exists d, d ∈ sg_stored m /\ DocID d = id /\ PrimaryKey d = key).
Proof.
  intros Hm Hi Hdb Hit Hord. unfold validateCollectionState. rewrite (visited_documents_spec m Hm).
  set (live := collect_live (sg_deletes m) (sg_stored m) ∅). set (view := idmap_view (sg_primaryKey m)).
  assert (Hlive : forall id key, live !! id = Some key <->
    id ∉ sg_deletes m /\ exists d, d ∈ sg_stored m /\ DocID d = id /\ PrimaryKey d = key).
  { intros id key. unfold live. rewrite collect_live_spec by (intros; by apply (stored_unique m)).
    rewrite lookup_empty. naive_solver. }
  assert (Hknown : sg_deletes m ⊆ collect_known (sg_stored m) <->
    forall id, id ∈ sg_deletes m -> exists d, d ∈ sg_stored m /\ DocID d = id).
  { unfold collect_known. rewrite elem_of_subseteq. setoid_rewrite elem_of_list_to_set. setoid_rewrite list_elem_of_fmap.
    split; intros Hx id Hid; destruct (Hx id Hid) as (d & ? & ?); eauto. }
  rewrite <- Hknown. setoid_rewrite <- Hlive.
  pose proof (range_missing (collect_known (sg_stored m)) (sg_deletes m)) as Hr.
  destruct (DeleteStore_Range _ _ _) as [err|]; [split; [done|]; intros [Hk _]; by apply Hr in Hk|].
  assert (sg_deletes m ⊆ collect_known (sg_stored m)) as Hk by by apply Hr. clear Hr.
  unfold idmap_Count. rewrite (ii_count _ Hi). fold view.
  destruct (foreach_visits (sg_primaryKey m) db l order (check_live live) tt Hi Hdb Hit Hord) as (visits & Hperm & ->).
  fold view in Hperm.
  assert (Hvis : foldM (visit_pair (check_live live)) visits tt = Ok tt <->
    forall key id, view !! key = Some id -> live !! id = Some key).
  { rewrite foldM_check_live. setoid_rewrite Hperm. by setoid_rewrite elem_of_map_to_list. }
  assert (Hiff : size view = size live /\ (forall key id, view !! key = Some id -> live !! id = Some key) <->
    forall key id, view !! key = Some id <-> live !! id = Some key).
  { split.
    - intros [Hsz Hs] key id. split; [apply Hs|]. apply (proj1 (inverse_maps view live Hs) Hsz).
    - intros Hs. assert (forall key id, view !! key = Some id -> live !! id = Some key) as Hs' by (intros; by apply Hs).
      split; [apply (proj2 (inverse_maps view live Hs')); intros; by apply Hs|done]. }
  rewrite <- Hiff, <- Hvis. destruct (Z.of_nat (size view) =? Z.of_nat (size live)) eqn:Esz; to_prop; cbn [negb].
  - destruct (foldM _ visits tt) as [[]|err]; [split; [intros _|done]; split; [done|]; split; [lia|done]|].
    split; [by case_if|by intros (_ & _ & ?)].
  - split; [done|]. intros (_ & ? & _). lia.
Qed.

(** C33: the check of a recovered collection is exact.  On well-formed segments and
    a well-formed primary-key map whose store iterates without error, it reports
    no error precisely when every deleted ID is that of a retained version and
    the map takes each key to the one retained version of it that is not
    deleted, and to nothing if there is none. *)
Theorem validate_collection_exact {DB} `{Hkv : KVStore DB} {Hlaws : KVStoreLaws DB} (m : SegmentManager DB) db l order :
  sg_inv m -> idmap_inv (sg_primaryKey m) ->
  pk_db (sg_primaryKey m) = Some db -> kv_Iter db = (l, None) ->
  order ≡ₚ map_to_list (idmap_overlay (sg_primaryKey m)) ->
  validateCollectionState order m = None <->
    (forall id, id ∈ sg_deletes m -> exists d, d ∈ sg_stored m /\ DocID d = id) /\
    (forall key id, idmap_view (sg_primaryKey m) !! key = Some id <->
       id ∉ sg_deletes m /\ exists d, d ∈ sg_stored m /\ DocID d = id /\ PrimaryKey d = key).
Proof. apply validateCollectionState_spec. Qed.

Lemma validate_collection_exact_witness : validateCollectionState [] ex_manager = None.
Proof.
  destruct ex_idmap10_spec as [_ Hi].
  apply (validate_collection_exact ex_manager _ _ [] ex_manager_inv Hi eq_refl eq_refl ltac:(reflexivity)).
  split; [exact (ai_deletes _ ex_manager_a_inv)|exact (ai_live _ ex_manager_a_inv)].
Defined.
