(* ===== verification/Rotation.v ===== *)
(** * Changing the write segment

    Flushing turns the documents of the write segment into an immutable segment
    and starts an empty one after them; a rewrite replaces all segments.  This
    file shows on the abstract state that the stored documents, the deletions
    and the primary keys, and so the contents, stay the same. *)
From S2P Require Import Prelude Bytes Utf8 KeyStore IdMap FileIO Wal Paths Snapshot Manifest Segment SegmentManager WriteEngine Recovery.
From stdpp Require Import sorting.
#[local] Open Scope Z_scope.

(** Another arrangement of the same documents, with the same live versions. *)
Lemma rearranged_inv a a' :
  a_inv a -> sg_inv (a_mgr a') ->
  (forall w, a_writing a' = Some w -> Forall (fun s => im_max s < ws_minDocID w) (a_ordered a')) ->
  (forall d, d ∈ a_stored a' <-> d ∈ a_stored a) -> a_deletes a' = a_deletes a -> a_view a' = a_view a ->
  a_inv a' /\ contents a' = contents a.
Proof.
  intros Ha Hsg Hord Hst Hdel Hview.
  assert (a_inv a') as Ha'.
  { split; [done|done| |].
    - intros key id. rewrite Hview, Hdel, (ai_live a Ha). by setoid_rewrite Hst.
    - intros id. rewrite Hdel. setoid_rewrite Hst. apply (ai_deletes a Ha). }
  split; [done|]. apply map_eq. intros key. apply option_eq. intros p.
  rewrite (contents_lookup a' key p Ha'), (contents_lookup a key p Ha), Hdel. by setoid_rewrite Hst.
Qed.

(** [w] is to be replaced by [next], its documents by the segment [im] if it has any. *)
Record rotation {DB} (m : SegmentManager DB) (w : WriteSegment) (im : option ImmutableSegment) (next : WriteSegment) : Prop := {
  ro_writing : sg_writing m = Some w;
  ro_docs : match im with
            | Some im => im_ok im /\ im_docs im = ws_docs w /\ im_ID im = ws_id w /\ im_min im = ws_minDocID w
            | None => ws_docs w = []
            end;
  ro_next : ws_inv next /\ ws_docs next = [] /\ ws_minDocID w + zlen (ws_docs w) <= ws_minDocID next;
  ro_fresh : ws_id next <> ws_id w /\ Forall (fun s => im_ID s <> ws_id next) (sg_ordered m);
  ro_before : Forall (fun s => im_max s < ws_minDocID w) (sg_ordered m)
}.

(** The change of write segment of [Flush]. *)
Definition rotate_segments {DB} (m : SegmentManager DB) (w : WriteSegment) (im : option ImmutableSegment) (next : WriteSegment)
    : SegmentManager DB * option gerror :=
  match im with
  | Some immutable => RotateWriting (ws_id w) immutable next m
  | None => SetWriting next (ClearWriting m).1
  end.

Section rotate.
Context {DB : Type} (m : SegmentManager DB) (w next : WriteSegment) (im : option ImmutableSegment).
Hypothesis Hm : sg_inv m.
Hypothesis Hr : rotation m w im next.

(** The segments before the write segment are apart from what follows. *)
Lemma rotation_apart s : s ∈ sg_ordered m -> im_max s < ws_minDocID w /\ im_ID s <> ws_id next /\ ws_apart next s.
Proof.
  intros Hs. destruct Hr as [_ _ (_ & _ & Hle) (_ & Hf) Hb]. rewrite Forall_forall in Hf, Hb.
  specialize (Hf s Hs). specialize (Hb s Hs). cbn in *. pose proof (zlen_nonneg (ws_docs w)).
  split; [done|]. split; [done|]. left. lia.
Qed.

Lemma rotate_ok : exists m', rotate_segments m w im next = (m', None) /\ sg_inv m' /\ sg_writing m' = Some next /\
  sg_primaryKey m' = sg_primaryKey m /\ sg_deletes m' = sg_deletes m /\
  sg_ordered m' ≡ₚ option_list im ++ sg_ordered m /\
  Forall (fun s => im_max s < ws_minDocID next) (sg_ordered m') /\
  forall d, d ∈ sg_stored m' <-> d ∈ sg_stored m.
Proof.
  pose proof rotation_apart as Hap. destruct Hr as [Hw Hdocs (Hni & Hnd & Hle) (Hne & _) _].
  pose proof (zlen_nonneg (ws_docs w)) as Hz. unfold rotate_segments. destruct im as [s|].
  - destruct Hdocs as (Hs & Hsd & Hsid & Hsmin). pose proof (io_max s Hs) as Hmax. rewrite Hsd in Hmax.
    assert (RotateWriting (ws_id w) s next m = (sg_set_writing (sg_install m s) (Some next), None)) as Hrot.
    { apply RotateWriting_ok; try done.
      - apply Forall_forall. intros t Ht. destruct (Hap t Ht). lia.
      - left. lia.
      - apply Forall_forall. intros t Ht. by destruct (Hap t Ht) as (_ & ? & ?). }
    exists (sg_set_writing (sg_install m s) (Some next)). split; [done|].
    destruct (RotateWriting_inv m (ws_id w) s next _ Hm Hs Hni Hrot) as (Hm' & _ & _ & _). split; [done|].
    do 3 (split; [done|]). split; [apply insertOrdered_perm|]. split.
    + cbn. rewrite insertOrdered_perm. constructor; [lia|]. apply Forall_forall. intros t Ht. destruct (Hap t Ht). lia.
    + intros d. unfold sg_stored. cbn. rewrite Hw, Hnd, app_nil_r, (sg_stored_install m s), Hsd, !elem_of_app. tauto.
  - exists (sg_set_writing (sg_set_writing m None) (Some next)). cbn [ClearWriting fst].
    assert (sg_inv (sg_set_writing m None)) as Hm0 by (destruct Hm; by split).
    assert (SetWriting next (sg_set_writing m None) = (sg_set_writing (sg_set_writing m None) (Some next), None)) as Hset.
    { apply SetWriting_ok; [done|done|done|]. apply Forall_forall. intros t Ht. by destruct (Hap t Ht) as (_ & ? & ?). }
    split; [done|]. destruct (SetWriting_inv _ _ _ Hm0 Hni Hset) as (Hm' & _). split; [done|].
    do 3 (split; [done|]). split; [done|]. split.
    + apply Forall_forall. intros t Ht. destruct (Hap t Ht). cbn. lia.
    + intros d. unfold sg_stored. cbn. by rewrite Hw, Hnd, Hdocs.
Qed.
End rotate.

(** The same with an invariant manager and the next IDMap, on the abstract state. *)
Lemma rotate_abs {DB} `{KVStore DB} (m : SegmentManager DB) w im next (pk : PrimaryKeyMap DB) :
  a_inv (abs m) -> rotation m w im next -> idmap_view pk = a_view (abs m) ->
  exists m', rotate_segments m w im next = (m', None) /\
    let m2 := ReplacePrimaryKeys pk m' in
    a_inv (abs m2) /\ contents (abs m2) = contents (abs m) /\ sg_writing m2 = Some next /\ sg_deletes m2 = sg_deletes m /\
    sg_ordered m2 ≡ₚ option_list im ++ sg_ordered m.
Proof.
  intros Ha Hr Hpk. assert (sg_inv m) as Hm by (apply (sg_inv_a_mgr m), Ha).
  destruct (rotate_ok m w next im Hm Hr) as (m' & Hrot & Hm' & Hw' & Hp' & Hd' & Ho' & Hb' & Hst'). exists m'. split; [done|].
  intros m2. destruct (rearranged_inv (abs m) (abs m2) Ha) as [Ha2 Hc2].
  - apply (sg_inv_a_mgr m2). destruct Hm'. by split.
  - cbn. intros v. rewrite Hw'. by intros [= <-].
  - exact Hst'.
  - exact Hd'.
  - exact Hpk.
  - done.
Qed.

(** Replaying operations changes neither the immutable segments nor the place of
    the write segment. *)
Definition same_place (w w' : WriteSegment) : Prop := ws_id w' = ws_id w /\ ws_minDocID w' = ws_minDocID w.

Lemma a_append_place op a w' : a_append op a = Some w' -> exists w, a_writing a = Some w /\ same_place w w'.
Proof.
  unfold a_append. destruct (a_writing a) as [w|]; [|done]. unfold ApplyExpected, ws_append. cbn [ctx_guard].
  intros H. exists w. split; [done|]. repeat case_match; simplify_eq/=; done.
Qed.

Lemma abs_replay_segments ops a a' :
  abs_replay ops a = Some a' -> a_ordered a' = a_ordered a /\ a_immutable a' = a_immutable a /\
    forall w, a_writing a = Some w -> exists w', a_writing a' = Some w' /\ same_place w w'.
Proof.
  revert a. induction ops as [|op ops IH]; intros a Hr; cbn in Hr.
  { injection Hr as <-. do 2 (split; [done|]). intros w Hw. exists w. by split. }
  destruct (abs_apply op a) as [a1|] eqn:E; [|done]. destruct (IH a1 Hr) as (-> & -> & Hw1).
  assert (a_ordered a1 = a_ordered a /\ a_immutable a1 = a_immutable a /\
    (a_writing a1 = a_writing a \/ exists w', a_writing a1 = Some w' /\ a_append op a = Some w')) as (-> & -> & Hw).
  { unfold abs_apply in E. repeat case_match; try done; try (destruct (a_append op a) eqn:?; [|done]); injection E as <-; eauto 6. }
  do 2 (split; [done|]). intros w Hwr. destruct Hw as [Hw|(w' & Hw & Hap)]; [apply Hw1; congruence|].
  destruct (a_append_place op a w' Hap) as (w0 & Hw0 & Hid & Hmin). destruct (Hw1 w' Hw) as (w2 & Hw2 & Hid2 & Hmin2).
  exists w2. split; [done|]. split; congruence.
Qed.

(** ** What a snapshot of the write segment is *)
Lemma zlen_records_le docs : zlen docs <= zlen (records_bytes docs).
Proof.
  induction docs as [|d docs IH]; [done|]. rewrite records_bytes_cons, zlen_cons, zlen_app, zlen_record_bytes.
  unfold storedDocumentMemoryBytes, segmentRecordHeaderSize. pose proof (zlen_nonneg (PrimaryKey d)).
  pose proof (zlen_nonneg (doc_Payload d)). lia.
Qed.

Lemma writeImmutable_file dir name mmap w w' im file :
  dir <> "" -> ws_inv w -> writeImmutable CtxLive dir name false mmap w = (w', Ok (im, file)) ->
  ws_sealed w = false /\ im_ok im /\ im_docs im = ws_docs w /\ im_ID im = ws_id w /\ im_min im = ws_minDocID w /\
  im_metadata im = segmentMetadata (ws_id w) (ws_docs w) [name] /\ zlen (ws_docs w) <= maxSegmentPayloadSize /\
  forall err, OpenImmutableSegment CtxLive dir (im_metadata im) (Some file) err mmap = Ok im.
Proof.
  intros Hdir Hw H. unfold writeImmutable in H. apply String.eqb_neq in Hdir as Hdir'. rewrite Hdir' in H.
  destruct (ValidatePortableRelativePath name) as [[]|] eqn:Hname; [|done]. cbn [ctx_Err] in H.
  destruct (ws_sealed w) eqn:Hseal; [done|]. case_bool_decide as Hne; [done|]. destruct (wi_range _ Hw) as (R1 & R2 & R3).
  set (md := segmentMetadata (ws_id w) (ws_docs w) [name]) in *.
  destruct (segmentMetadata_ok (ws_id w) (ws_minDocID w) (ws_docs w) [name]) as (Hok & Hmin & Hc & Hid & Hf);
    [apply Hw|lia|pose proof (wi_capacity _ Hw); lia|apply Hw|done|]. fold md in Hok, Hmin, Hc, Hid, Hf.
  rewrite writeSegmentSnapshot_encode in H by done.
  destruct (encodeSegment md (ws_docs w)) as [file'|] eqn:Henc; [|done].
  assert (Hopen : forall err, OpenImmutableSegment CtxLive dir md (Some file') err mmap =
    Ok {| im_mapped := mmap; im_closed := false; im_metadata := md; im_docs := ws_docs w;
          im_memoryBytes := storedDocumentsMemoryBytes (ws_docs w) |}).
  { intros err. by apply (OpenImmutableSegment_encoded dir md (ws_docs w) name). }
  assert (im = {| im_mapped := mmap; im_closed := false; im_metadata := md; im_docs := ws_docs w;
                  im_memoryBytes := storedDocumentsMemoryBytes (ws_docs w) |} /\ file = file') as [-> ->].
  { destruct mmap; [rewrite Hopen in H|]; by injection H as _ <- <-. }
  split; [done|]. split; [by eapply (im_ok_snapshot w name)|]. do 4 (split; [done|]). split; [|exact Hopen].
  apply (encodeSegment_Ok _ _ _ Hok) in Henc as (_ & _ & _ & Hle & _). pose proof (zlen_records_le (ws_docs w)). lia.
Qed.
