(* ===== verification/Storage.v ===== *)
(** * The artifacts of a collection: the storage under [internal/db/collection.go]

    Besides the root files of [VersionManager.v], a collection directory holds
    artifacts under relative names: segment files, delete snapshots and logs
    (regular files) and IDMap checkpoints (Pebble directories).  An artifact
    that was created and synchronized is durable; one whose creation was begun
    or that was removed may be found in any state after a crash.  The storage
    monad threads the disk, the list of created names that a failing operation
    cleans up, and the disks between two system calls. *)
From S2P Require Import Prelude Bytes KeyStore FileIO ManifestFile VersionManager.
#[local] Open Scope string_scope.
#[local] Open Scope list_scope.
#[local] Open Scope Z_scope.

(** ** The disk *)
Inductive artifact (DB : Type) :=
| RegularFile (f : osfile)
| PebbleDir (db : DB).
Arguments RegularFile {DB} f.
Arguments PebbleDir {DB} db.

Record disk (DB : Type) := {
  dk_root : directory;
  dk_files : gmap string (artifact DB);
  dk_torn : gset string
}.
Arguments Build_disk {DB} _ _ _.
Arguments dk_root {DB} _.
Arguments dk_files {DB} _.
Arguments dk_torn {DB} _.

(** A file whose whole content is on stable storage. *)
Definition whole_file (content : bytes) : osfile := {| f_content := content; f_stable := length content |}.

Record artifact_io (DB : Type) := {
  ai_stat : option gerror;            (** the answer of [os.Stat] when it is not "no such file" *)
  ai_write : option gerror;
  ai_left : option (artifact DB)      (** what a failing creation leaves behind *)
}.
Arguments ai_stat {DB} _.
Arguments ai_write {DB} _.
Arguments ai_left {DB} _.

Section storage.
Context {DB : Type}.
Implicit Types (d : disk DB) (a : artifact DB).

Definition disk_put (n : string) a (d : disk DB) : disk DB :=
  {| dk_root := dk_root d; dk_files := <[n := a]> (dk_files d); dk_torn := dk_torn d |}.
Definition disk_set_root (root : directory) (d : disk DB) : disk DB :=
  {| dk_root := root; dk_files := dk_files d; dk_torn := dk_torn d |}.
Definition disk_begin (n : string) (d : disk DB) : disk DB :=
  {| dk_root := dk_root d; dk_files := dk_files d; dk_torn := {[n]} ∪ dk_torn d |}.
Definition disk_settle (n : string) (d : disk DB) : disk DB :=
  {| dk_root := dk_root d; dk_files := dk_files d; dk_torn := dk_torn d ∖ {[n]} |}.
Definition disk_remove (n : string) (d : disk DB) : disk DB :=
  {| dk_root := dk_root d; dk_files := delete n (dk_files d); dk_torn := {[n]} ∪ dk_torn d |}.

Definition read_file d (n : string) : option bytes :=
  match dk_files d !! n with Some (RegularFile f) => Some (f_content f) | _ => None end.
Definition read_pebble d (n : string) : option DB :=
  match dk_files d !! n with Some (PebbleDir db) => Some db | _ => None end.

(** What a crash makes of one artifact: a regular file loses a part of what was
    not synchronized. *)
Definition artifact_crash a a' : Prop :=
  match a, a' with
  | RegularFile f, RegularFile f' =>
      exists m, (f_stable f <= m <= length (f_content f))%nat /\
        f' = {| f_content := take m (f_content f); f_stable := m |}
  | PebbleDir db, PebbleDir db' => db' = db
  | _, _ => False
  end.
Definition disk_crash d d' : Prop :=
  (exists files, ds_crash (dk_root d) files /\ dk_root d' = settled files) /\ dk_torn d' = ∅ /\
  forall n, n ∉ dk_torn d ->
    match dk_files d !! n with
    | Some a => exists a', dk_files d' !! n = Some a' /\ artifact_crash a a'
    | None => dk_files d' !! n = None
    end.

(** ** The storage monad *)
Record storage_state := { ss_disk : disk DB; ss_created : list string }.
Definition storage (A : Type) : Type := storage_state -> list (disk DB) * (storage_state * result A).

Definition storage_ret {A} (x : A) : storage A := fun s => ([], (s, Ok x)).
Definition storage_bind {A B} (f : A -> storage B) (m : storage A) : storage B := fun s =>
  let '(tr, (s, r)) := m s in
  match r with
  | Fail e => (tr, (s, Fail e))
  | Ok x => let '(tr', out) := f x s in (tr ++ tr', out)
  end.
Definition lift {A} (r : result A) : storage A := fun s => ([], (s, r)).
Definition check (e : option gerror) : storage unit :=
  lift match e with Some e => Fail e | None => Ok tt end.
Definition creating (n : string) : storage unit := fun s =>
  ([], ({| ss_disk := ss_disk s; ss_created := ss_created s ++ [n] |}, Ok tt)).
Definition on_disk {A} (f : disk DB -> list (disk DB) * (disk DB * result A)) : storage A := fun s =>
  let '(tr, (d, r)) := f (ss_disk s) in (tr, ({| ss_disk := d; ss_created := ss_created s |}, r)).

(** An artifact that is written, synchronized and installed under a new name. *)
Definition create_artifact (io : artifact_io DB) (text : string) (n : string) a : storage unit := on_disk (fun d =>
  if bool_decide (is_Some (dk_files d !! n)) then ([], (d, Fail (wrap_text text os_ErrExist)))
  else
    let d := disk_begin n d in
    match ai_write io with
    | Some e =>
        let d' := match ai_left io with Some a => disk_put n a d | None => d end in
        ([d; d'], (d', Fail (wrap_text text e)))
    | None => let d' := disk_settle n (disk_put n a d) in ([d; d'], (d', Ok tt))
    end).

(** [availableArtifact]: the first generation whose name is free; the fuel is
    one more than the number of artifacts. *)
Fixpoint available_loop (fuel : nat) (files : gmap string (artifact DB)) (name : Z -> string) (generation : Z)
    : option (result string) :=
  match fuel with
  | O => None
  | S fuel =>
      if bool_decide (files !! name generation = None) then Some (Ok (name generation))
      else if generation =? u64_max then Some (Fail (errors_New "db: artifact generation space is exhausted"))
      else available_loop fuel files name (generation + 1)
  end.
Definition out_of_fuel : gerror := errors_New "out of fuel".
Definition availableArtifact (outcome : option gerror) (name : Z -> string) (generation : Z) : storage string := fun s =>
  match outcome with
  | Some e => ([], (s, Fail (errorf "db: inspect artifact" e)))
  | None =>
      let files := dk_files (ss_disk s) in
      ([], (s, default (Fail out_of_fuel) (available_loop (S (size files)) files name generation)))
  end.

(** [nextDeleteSnapshotGeneration] *)
Fixpoint delete_generation_loop (fuel : nat) (files : gmap string (artifact DB)) (name : Z -> string) (generation : Z)
    : option (result Z) :=
  match fuel with
  | O => None
  | S fuel =>
      if generation =? u64_max then Some (Fail (errors_New "db: snapshot generation space is exhausted"))
      else if bool_decide (files !! name (generation + 1) = None) then Some (Ok (generation + 1))
      else delete_generation_loop fuel files name (generation + 1)
  end.
Definition nextDeleteSnapshotGeneration (outcome : option gerror) (name : Z -> string) (generation : Z) : storage Z := fun s =>
  match outcome with
  | Some e => ([], (s, Fail (errorf "db: inspect delete snapshot generation" e)))
  | None =>
      let files := dk_files (ss_disk s) in
      ([], (s, default (Fail out_of_fuel) (delete_generation_loop (S (size files)) files name generation)))
  end.

(** The removal of what a failing operation created; errors are ignored. *)
Definition cleanup (removed : bool) (created : list string) d : disk DB :=
  if removed then foldr disk_remove d created else d.
End storage.
Arguments storage_state DB : clear implicits.
Arguments storage DB A : clear implicits.
#[global] Instance storage_MRet {DB} : MRet (storage DB) := fun A x => storage_ret x.
#[global] Instance storage_MBind {DB} : MBind (storage DB) := fun A B f m => storage_bind f m.

(** ** What the storage operations keep *)
Section storage_lemmas.
Context {DB : Type}.
Implicit Types (d : disk DB) (s : storage_state DB).

(** Every artifact of [d0] that is safe is still there, and the root is the same. *)
Record keeps d0 d : Prop := {
  kp_root : dk_root d = dk_root d0;
  kp_files : forall n a, dk_files d0 !! n = Some a -> dk_files d !! n = Some a /\ (n ∉ dk_torn d0 -> n ∉ dk_torn d)
}.

#[global] Instance keeps_refl : Reflexive keeps.
Proof. intros d. by split. Qed.
#[global] Instance keeps_trans : Transitive keeps.
Proof.
  intros d1 d2 d3 [R1 F1] [R2 F2]. split; [congruence|]. intros n a Hn. destruct (F1 n a Hn) as [Hn2 Ht2].
  destruct (F2 n a Hn2) as [Hn3 Ht3]. auto.
Qed.

(** The created names are new, so that removing them keeps what was there. *)
Record fresh_state d0 s : Prop := {
  fs_keeps : keeps d0 (ss_disk s);
  fs_created : Forall (fun n => dk_files d0 !! n = None) (ss_created s)
}.

Lemma keeps_begin d n : dk_files d !! n = None -> keeps d (disk_begin n d).
Proof. intros Hn. split; [done|]. intros k a Hk. split; [done|]. assert (k <> n) by congruence. cbn. set_solver. Qed.
Lemma keeps_put d n a : dk_files d !! n = None -> keeps d (disk_put n a d).
Proof.
  intros Hn. split; [done|]. intros k b Hk. split; [|done]. cbn. rewrite lookup_insert_ne; [done|congruence].
Qed.
Lemma keeps_settle d n : keeps d (disk_settle n d).
Proof. split; [done|]. intros k a Hk. split; [done|]. cbn. set_solver. Qed.
Lemma keeps_remove d0 d n : keeps d0 d -> dk_files d0 !! n = None -> keeps d0 (disk_remove n d).
Proof.
  intros [R F] Hn. split; [done|]. intros k a Hk. destruct (F k a Hk) as [Hk' Ht']. assert (n <> k) by congruence.
  cbn. split; [by rewrite lookup_delete_ne|set_solver].
Qed.
Lemma keeps_cleanup d0 s removed : fresh_state d0 s -> keeps d0 (cleanup removed (ss_created s) (ss_disk s)).
Proof.
  intros [Hk Hc]. unfold cleanup. destruct removed; [|done]. induction Hc as [|n l Hn Hc IH]; [done|].
  cbn [foldr]. by apply keeps_remove.
Qed.

Lemma keeps_free d0 d n : keeps d0 d -> dk_files d !! n = None -> dk_files d0 !! n = None.
Proof. intros [_ F] Hn. destruct (dk_files d0 !! n) as [a|] eqn:E; [|done]. destruct (F n a E). congruence. Qed.

(** A crash leaves what is kept, up to the unsynchronized ends of files. *)
Lemma disk_crash_kept d d' n a :
  disk_crash d d' -> dk_files d !! n = Some a -> n ∉ dk_torn d ->
  exists a', dk_files d' !! n = Some a' /\ artifact_crash a a' /\ n ∉ dk_torn d'.
Proof.
  intros (_ & Ht & Hf) Hn Hnt. specialize (Hf n Hnt). rewrite Hn in Hf. destruct Hf as (a' & Ha & Hc).
  exists a'. split; [done|]. split; [done|]. rewrite Ht. set_solver.
Qed.
Lemma whole_file_crash content (a' : artifact DB) :
  artifact_crash (RegularFile (whole_file content)) a' -> a' = RegularFile (whole_file content).
Proof.
  destruct a' as [f|]; [|done]. intros (m & Hm & ->). cbn in Hm. assert (m = length content) as -> by lia.
  unfold whole_file. by rewrite firstn_all.
Qed.
Lemma pebble_crash (db : DB) a' : artifact_crash (PebbleDir db) a' -> a' = PebbleDir db.
Proof. destruct a' as [f|db']; [done|]. by intros ->. Qed.

(** ** Weakest preconditions of the storage monad *)

(** Every disk the run passes through keeps [d0], the created names stay new to
    [d0], and a successful result satisfies [Q]. *)
Definition swp {A} (d0 : disk DB) (m : storage DB A) s (Q : A -> storage_state DB -> Prop) : Prop :=
  let '(tr, (s', r)) := m s in
  Forall (keeps d0) tr /\ fresh_state d0 s' /\ match r with Ok x => Q x s' | Fail _ => True end.

Lemma swp_ret {A} d0 (x : A) s Q : fresh_state d0 s -> Q x s -> swp d0 (storage_ret x) s Q.
Proof. intros Hs HQ. split; [constructor|done]. Qed.

Lemma swp_bind {A B} d0 (m : storage DB A) (f : A -> storage DB B) s Q :
  swp d0 m s (fun x s' => fresh_state d0 s' -> swp d0 (f x) s' Q) -> swp d0 (x ← m; f x) s Q.
Proof.
  unfold swp, mbind, storage_MBind, storage_bind.
  destruct (m s) as [tr [s' [x|e]]]; [|tauto]. intros (Htr & Hs & Hf). specialize (Hf Hs).
  destruct (f x s') as [tr' [s2 r]]. destruct Hf as (Htr' & Hs2 & Hr). split; [by apply Forall_app|done].
Qed.

Lemma swp_lift {A} d0 (r : result A) s Q : fresh_state d0 s -> (forall x, r = Ok x -> Q x s) -> swp d0 (lift r) s Q.
Proof. intros Hs HQ. split; [constructor|]. split; [done|]. destruct r; [by apply HQ|done]. Qed.

Lemma swp_check d0 e s Q : fresh_state d0 s -> (e = None -> Q tt s) -> swp d0 (check e) s Q.
Proof. intros Hs HQ. apply swp_lift; [done|]. destruct e; [done|]. intros [] _. by apply HQ. Qed.

Lemma swp_creating d0 n s Q :
  fresh_state d0 s -> dk_files d0 !! n = None ->
  Q tt {| ss_disk := ss_disk s; ss_created := ss_created s ++ [n] |} -> swp d0 (creating n) s Q.
Proof.
  intros [Hk Hc] Hn HQ. split; [constructor|]. split; [|done]. split; [done|]. cbn. apply Forall_app. split; [done|by constructor].
Qed.

Lemma swp_mono {A} d0 (m : storage DB A) s (Q Q' : A -> storage_state DB -> Prop) :
  (forall x s', Q x s' -> Q' x s') -> swp d0 m s Q -> swp d0 m s Q'.
Proof. unfold swp. destruct (m s) as [tr [s' [x|e]]]; intuition. Qed.

(** The artifact is there and durable once it is created. *)
Definition created_artifact (n : string) (a : artifact DB) s s' : Prop :=
  dk_files (ss_disk s) !! n = None /\ ss_created s' = ss_created s /\ keeps (ss_disk s) (ss_disk s') /\
  dk_files (ss_disk s') !! n = Some a /\ n ∉ dk_torn (ss_disk s').

Lemma swp_create_artifact d0 io text n a s Q :
  fresh_state d0 s -> (forall s', created_artifact n a s s' -> Q tt s') -> swp d0 (create_artifact io text n a) s Q.
Proof.
  intros Hs HQ. pose proof Hs as [Hk Hc]. unfold swp, create_artifact, on_disk.
  case_bool_decide as Hex; [split; [constructor|by split]|].
  assert (dk_files (ss_disk s) !! n = None) as Hno by (destruct (dk_files (ss_disk s) !! n); [destruct Hex; eauto|done]).
  assert (keeps d0 (disk_begin n (ss_disk s))) as Hb by (transitivity (ss_disk s); [done|by apply keeps_begin]).
  destruct (ai_write io) as [e|].
  - assert (keeps d0 match ai_left io with Some a => disk_put n a (disk_begin n (ss_disk s)) | None => disk_begin n (ss_disk s) end) as Hl.
    { destruct (ai_left io); [|done]. etrans; [exact Hb|]. by apply keeps_put. }
    split; [by rewrite !Forall_cons|]. split; [by split|done].
  - assert (keeps (ss_disk s) (disk_settle n (disk_put n a (disk_begin n (ss_disk s))))) as Hl.
    { transitivity (disk_begin n (ss_disk s)); [by apply keeps_begin|].
      transitivity (disk_put n a (disk_begin n (ss_disk s))); [by apply keeps_put|apply keeps_settle]. }
    assert (keeps d0 (disk_settle n (disk_put n a (disk_begin n (ss_disk s))))) as Hl' by by transitivity (ss_disk s).
    split; [by rewrite !Forall_cons|]. split; [by split|].
    apply HQ. split; [done|]. split; [done|]. split; [done|]. cbn. rewrite lookup_insert_eq. split; [done|set_solver].
Qed.

(** *** Free names *)
Lemma available_loop_spec fuel (files : gmap string (artifact DB)) name generation r :
  generation <= u64_max -> available_loop fuel files name generation = Some (Ok r) ->
  files !! r = None /\ exists g, generation <= g <= u64_max /\ r = name g.
Proof.
  revert generation. induction fuel as [|fuel IH]; intros g Hg Hl; [done|]. cbn in Hl. case_bool_decide as Hf.
  { injection Hl as <-. split; [done|]. exists g. split; [lia|done]. }
  destruct (g =? u64_max) eqn:E; [done|]. to_prop. destruct (IH (g + 1)) as (H1 & g' & H2 & H3); [lia|done|].
  split; [done|]. exists g'. split; [lia|done].
Qed.
Lemma available_loop_fuel fuel (files : gmap string (artifact DB)) name generation :
  available_loop fuel files name generation = None ->
  Forall (fun i => is_Some (files !! name (generation + Z.of_nat i))) (seq 0 fuel) /\ generation + Z.of_nat fuel - 1 < u64_max \/ u64_max < generation.
Proof.
  revert generation. induction fuel as [|fuel IH]; intros g Hl.
  { destruct (decide (u64_max < g)); [by right|left]. split; [constructor|lia]. }
  cbn in Hl. case_bool_decide as Hf; [done|]. destruct (g =? u64_max) eqn:E; [done|]. to_prop.
  destruct (decide (u64_max < g)); [by right|left]. destruct (IH (g + 1) Hl) as [[Hall Hb]|]; [|lia]. split; [|lia].
  rewrite Forall_seq in Hall |- *. intros i Hi. destruct i as [|i].
  - rewrite Z.add_0_r. destruct (files !! name g); [done|by destruct Hf].
  - replace (g + Z.of_nat (S i)) with (g + 1 + Z.of_nat i) by lia. apply Hall. lia.
Qed.
(** Distinct names: one more than there are artifacts, so one of them is free. *)
Lemma available_loop_total (files : gmap string (artifact DB)) name generation :
  (forall a b, 0 <= a <= u64_max -> 0 <= b <= u64_max -> name a = name b -> a = b) -> 0 <= generation <= u64_max ->
  is_Some (available_loop (S (size files)) files name generation).
Proof.
  intros Hinj Hg. destruct (available_loop _ _ _ _) eqn:E; [done|]. exfalso.
  apply available_loop_fuel in E as [[Hall Hb]|]; [|lia]. rewrite Forall_seq in Hall.
  set (names := (fun i => name (generation + Z.of_nat i)) <$> seq 0 (S (size files))).
  assert (NoDup names) as Hnd.
  { apply NoDup_fmap_2_strong; [|apply NoDup_seq]. intros i j Hi Hj Heq. apply elem_of_seq in Hi, Hj. apply Hinj in Heq; lia. }
  assert (size (list_to_set names : gset string) <= size (dom files))%nat as Hsz.
  { apply subseteq_size. intros n (i & -> & Hi)%elem_of_list_to_set%list_elem_of_fmap. apply elem_of_seq in Hi.
    apply elem_of_dom, Hall. lia. }
  rewrite size_list_to_set, size_dom in Hsz by done. unfold names in Hsz. rewrite length_fmap, length_seq in Hsz. lia.
Qed.

Lemma swp_available d0 outcome name generation s (Q : string -> storage_state DB -> Prop) :
  fresh_state d0 s -> generation <= u64_max ->
  (forall n g, dk_files (ss_disk s) !! n = None -> generation <= g <= u64_max -> n = name g -> Q n s) ->
  swp d0 (availableArtifact outcome name generation) s Q.
Proof.
  intros Hs Hg HQ. unfold availableArtifact, swp. destruct outcome; [split; [constructor|by split]|].
  split; [constructor|]. split; [done|]. destruct (available_loop _ _ _ _) as [[n|e]|] eqn:E; cbn [default]; [|done|done].
  apply available_loop_spec in E as (Hn & g & Hg' & ->); [|done]. by eapply HQ.
Qed.

Lemma delete_loop_spec fuel (files : gmap string (artifact DB)) name generation r :
  0 <= generation <= u64_max -> delete_generation_loop fuel files name generation = Some (Ok r) ->
  files !! name r = None /\ generation < r <= u64_max.
Proof.
  revert generation. induction fuel as [|fuel IH]; intros g Hg Hl; [done|]. cbn in Hl.
  destruct (g =? u64_max) eqn:E; [done|]. to_prop. case_bool_decide as Hf; [injection Hl as <-; split; [done|lia]|].
  apply IH in Hl; [|lia]. split; [apply Hl|lia].
Qed.
Lemma swp_delete_generation d0 outcome name generation s (Q : Z -> storage_state DB -> Prop) :
  fresh_state d0 s -> 0 <= generation <= u64_max ->
  (forall g, dk_files (ss_disk s) !! name g = None -> generation < g <= u64_max -> Q g s) ->
  swp d0 (nextDeleteSnapshotGeneration outcome name generation) s Q.
Proof.
  intros Hs Hg HQ. unfold nextDeleteSnapshotGeneration, swp. destruct outcome; [split; [constructor|by split]|].
  split; [constructor|]. split; [done|]. destruct (delete_generation_loop _ _ _ _) as [[n|e]|] eqn:E; cbn [default]; [|done|done].
  apply delete_loop_spec in E as [Hn Hb]; [|done]. by apply HQ.
Qed.
End storage_lemmas.
