(* ===== verification/Collection.v ===== *)
(** * The collection store: [internal/db/collection.go]

    A [CollectionStore] ties the manifest, the segment manager, the write engine
    and its log together.  The engine of the code shares the manager and the log
    with the store; here the store holds them and [store_engine] is the engine.
    The content of the open log is the one in its handle, [with_log] puts it on
    the disk.  The working copy of the IDMap is disposable and not on the disk
    of the model.  [go_range] is the order in which Go ranges over a map. *)
From S2P Require Import Prelude Bytes Utf8 KeyStore IdMap FileIO Wal Paths Snapshot Json Names Manifest ManifestFile VersionManager Segment SegmentManager WriteEngine Recovery Storage.
#[local] Open Scope string_scope.
#[local] Open Scope list_scope.
#[local] Open Scope Z_scope.

Definition DefaultSegmentMaxDocuments : Z := 65536.
Definition ErrReadOnly : gerror := errors_New "db: collection is read-only".

Record CollectionOptions := {
  opt_ReadOnly : bool;
  opt_EnableMmap : bool;
  opt_SegmentMaxDocuments : Z;
  opt_SyncEvery : Z           (** the field of [WALOptions] *)
}.

Record CollectionStats := {
  st_DocumentCount : Z;
  st_ImmutableSegmentCount : Z;
  st_MutableDocumentCount : Z;
  st_DeletedDocumentCount : Z;
  st_MemoryUsageBytes : Z
}.

(** [c_engine] is nil for a read-only handle, otherwise the engine's own state:
    the error that poisoned it. *)
Record CollectionStore (DB : Type) := {
  c_readOnly : bool;
  c_closed : bool;
  c_poisoned : option gerror;
  c_versions : VersionManager;
  c_manager : SegmentManager DB;
  c_engine : option (option gerror);
  c_wal : WAL;
  c_walPath : string;
  c_reservedNextSegmentID : Z
}.
Arguments c_readOnly {DB} _.
Arguments c_closed {DB} _.
Arguments c_poisoned {DB} _.
Arguments c_versions {DB} _.
Arguments c_manager {DB} _.
Arguments c_engine {DB} _.
Arguments c_wal {DB} _.
Arguments c_walPath {DB} _.
Arguments c_reservedNextSegmentID {DB} _.
Arguments Build_CollectionStore {DB} _ _ _ _ _ _ _ _ _.

Record SegmentSnapshot := {
  sn_Metadata : SegmentMetadata;
  sn_Documents : list StoredDocument;
  sn_Mutable : bool
}.

Definition validateSchemaJSON (schema : bytes) : result unit :=
  if negb (json_Valid schema) then Fail (manifest_corrupt "schema is not valid JSON")
  else if negb (json_object schema) then Fail (manifest_corrupt "schema must be a JSON object")
  else Ok tt.

Definition validateLifecycleManifest (manifest : Manifest) : result unit :=
  if (mf_SegmentMaxDocuments manifest =? 0) || String.eqb (mf_IDMap manifest) ""
     || (mf_DeleteSnapshotGeneration manifest =? 0)
  then Fail (collection_corrupt "invalid lifecycle generations or capacity")
  else match mf_WritingSegment manifest with
  | None => Fail (collection_corrupt "invalid writing segment metadata")
  | Some w =>
      if negb (sm_DocCount w =? 0) || negb (zlen (sm_Files w) =? 1)
      then Fail (collection_corrupt "invalid writing segment metadata")
      else if existsb (fun s => (0 <? sm_DocCount s) && (mf_WritingSegmentStartDocID manifest <=? sm_MaxDocID s))
                (mf_PersistedSegments manifest)
      then Fail (collection_corrupt "writing segment does not start after the persisted documents")
      else Ok tt
  end.

(** The first file of a segment's metadata. *)
Definition first_file (s : SegmentMetadata) : string := match sm_Files s with n :: _ => n | [] => "" end.

Section collection.
Context {DB : Type} `{KVStore DB} `{ManifestJSON}.
Context (dir : string) (go_range : gmap bytes primaryKeyDelta -> list (bytes * primaryKeyDelta)).
Implicit Types (c : CollectionStore DB) (d : disk DB) (m : SegmentManager DB).

Definition c_set_wal c (w : WAL) : CollectionStore DB :=
  {| c_readOnly := c_readOnly c; c_closed := c_closed c; c_poisoned := c_poisoned c; c_versions := c_versions c;
     c_manager := c_manager c; c_engine := c_engine c; c_wal := w; c_walPath := c_walPath c;
     c_reservedNextSegmentID := c_reservedNextSegmentID c |}.
Definition c_set_versions c (v : VersionManager) : CollectionStore DB :=
  {| c_readOnly := c_readOnly c; c_closed := c_closed c; c_poisoned := c_poisoned c; c_versions := v;
     c_manager := c_manager c; c_engine := c_engine c; c_wal := c_wal c; c_walPath := c_walPath c;
     c_reservedNextSegmentID := c_reservedNextSegmentID c |}.
Definition c_poison c (e : gerror) : CollectionStore DB :=
  {| c_readOnly := c_readOnly c; c_closed := c_closed c; c_poisoned := Some e; c_versions := c_versions c;
     c_manager := c_manager c; c_engine := c_engine c; c_wal := c_wal c; c_walPath := c_walPath c;
     c_reservedNextSegmentID := c_reservedNextSegmentID c |}.
(** The engine that shares the store's manager and log, and what it leaves. *)
Definition store_engine c (poisoned : option gerror) : WriteEngine DB WAL :=
  {| e_manager := c_manager c; e_wal := c_wal c; e_poisoned := poisoned |}.
Definition c_set_engine c (e : WriteEngine DB WAL) : CollectionStore DB :=
  {| c_readOnly := c_readOnly c; c_closed := c_closed c; c_poisoned := c_poisoned c; c_versions := c_versions c;
     c_manager := e_manager e; c_engine := Some (e_poisoned e); c_wal := e_wal e; c_walPath := c_walPath c;
     c_reservedNextSegmentID := c_reservedNextSegmentID c |}.
(** The store over a new manager, engine and log. *)
Definition c_install c m (w : WAL) (path : string) : CollectionStore DB :=
  {| c_readOnly := c_readOnly c; c_closed := c_closed c; c_poisoned := c_poisoned c; c_versions := c_versions c;
     c_manager := m; c_engine := Some None; c_wal := w; c_walPath := path;
     c_reservedNextSegmentID := c_reservedNextSegmentID c |}.

(** The disk with the current content of the open log. *)
Definition with_log c d : disk DB := disk_put (c_walPath c) (RegularFile (w_file (c_wal c))) d.

Definition requireWritableLocked c : option gerror :=
  if c_closed c then Some ErrCollectionClosed
  else if c_readOnly c then Some ErrReadOnly
  else match c_poisoned c with
  | Some e => Some e
  | None => match c_engine c with Some p => p | None => None end
  end.

(** ** Delegated operations *)
Definition delegate c (run : WriteEngine DB WAL -> WriteEngine DB WAL * (list WriteResult * option gerror))
    : CollectionStore DB * (list WriteResult * option gerror) :=
  match requireWritableLocked c with
  | Some e => (c, ([], Some e))
  | None =>
      match c_engine c with
      | Some p => let '(e, r) := run (store_engine c p) in (c_set_engine c e, r)
      | None => (c, ([], Some (errors_New "db: nil write engine")))
      end
  end.

Definition store_Insert (isnil : bool) (polls : nat -> context) (ios : nat -> wal_io) (inputs : list WriteInput) c :=
  delegate c (engine_Insert isnil polls ios inputs).
Definition store_Upsert (isnil : bool) (polls : nat -> context) (ios : nat -> wal_io) (inputs : list WriteInput) c :=
  delegate c (engine_Upsert isnil polls ios inputs).
Definition store_Update (isnil : bool) (polls : nat -> context) (ios : nat -> wal_io) (inputs : list WriteInput) c :=
  delegate c (engine_Update isnil polls ios inputs).
Definition store_Delete (isnil : bool) (polls : nat -> context) (ios : nat -> wal_io) (keys : list bytes) c :=
  delegate c (engine_Delete isnil polls ios keys).

Definition store_Fetch (ctx_nil : bool) (polls : nat -> option gerror) (keys : list bytes) c
    : list FetchResult * option gerror :=
  if c_closed c then ([], Some ErrCollectionClosed) else sg_Fetch ctx_nil polls (c_manager c) keys.
Definition store_LiveDocuments (ctx : context) c : result (list StoredDocument) :=
  if c_closed c then Fail ErrCollectionClosed else LiveDocuments ctx (c_manager c).
Definition store_LiveDocumentPrimaryKeys (ctx : context) c : result (gmap Z bytes) :=
  if c_closed c then Fail ErrCollectionClosed
  else LiveDocumentPrimaryKeys ctx (go_range (idmap_overlay (sg_primaryKey (c_manager c)))) (c_manager c).

Definition writing_snapshot m : list SegmentSnapshot :=
  match sg_writing m with
  | Some w => [{| sn_Metadata := ws_Metadata w; sn_Documents := ws_docs w; sn_Mutable := true |}]
  | None => []
  end.
Definition SegmentSnapshots (ctx : context) c : result (list SegmentSnapshot) :=
  match ctx_guard "db: nil segment-snapshot context" ctx with
  | Some e => Fail e
  | None =>
  if c_closed c then Fail ErrCollectionClosed
  else Ok (((fun s => {| sn_Metadata := im_metadata s; sn_Documents := im_docs s; sn_Mutable := false |})
             <$> sg_ordered (c_manager c)) ++ writing_snapshot (c_manager c))
  end.

(** [VisitSelectedSegmentSnapshots]; the visitor is a state transformer. *)
Fixpoint visit_immutable {S} (selectSegment : option (SegmentMetadata -> bool -> bool))
    (visit : S -> SegmentSnapshot -> result S) (segments : list ImmutableSegment) (s : S) : result S :=
  match segments with
  | [] => Ok s
  | segment :: segments =>
      let metadata := im_metadata segment in
      if match selectSegment with Some f => negb (f metadata false) | None => false end
      then visit_immutable selectSegment visit segments s
      else if im_closed segment then Fail os_ErrClosed
      else match visit s {| sn_Metadata := metadata; sn_Documents := im_docs segment; sn_Mutable := false |} with
      | Fail e => Fail e
      | Ok s => visit_immutable selectSegment visit segments s
      end
  end.
Definition VisitSelectedSegmentSnapshots {S} (ctx : context) (selectSegment : option (SegmentMetadata -> bool -> bool))
    (visit : S -> SegmentSnapshot -> result S) c (s : S) : result S :=
  match ctx_guard "db: nil segment-snapshot context" ctx with
  | Some e => Fail e
  | None =>
  if c_closed c then Fail ErrCollectionClosed
  else match visit_immutable selectSegment visit (sg_ordered (c_manager c)) s with
  | Fail e => Fail e
  | Ok s =>
      match sg_writing (c_manager c) with
      | Some w =>
          if match selectSegment with Some f => negb (f (ws_Metadata w) true) | None => false end then Ok s
          else visit s {| sn_Metadata := ws_Metadata w; sn_Documents := ws_docs w; sn_Mutable := true |}
      | None => Ok s
      end
  end end.

Definition store_Stats c : CollectionStats :=
  let storage := sg_StorageStats (c_manager c) in
  {| st_DocumentCount := idmap_Count (sg_primaryKey (c_manager c));
     st_ImmutableSegmentCount := ImmutableSegmentCount storage;
     st_MutableDocumentCount := MutableDocumentCount storage;
     st_DeletedDocumentCount := DeletedDocumentCount storage;
     st_MemoryUsageBytes := MemoryUsageBytes storage |}.
Definition DocumentCount c : Z := st_DocumentCount (store_Stats c).

(** Some segment of the ordered list that is not full continues into the next one. *)
Fixpoint mergeable (maximum : Z) (actual : list SegmentMetadata) : bool :=
  match actual with
  | previous :: (next :: _) as rest =>
      ((sm_DocCount previous <? maximum) && negb (sm_MaxDocID previous =? u64_max)
       && (wrap64 (sm_MaxDocID previous + 1) =? sm_MinDocID next)) || mergeable maximum rest
  | _ => false
  end.
Definition OptimizationNeeded (ctx : context) c : result bool :=
  match ctx_guard "db: nil optimization context" ctx with
  | Some e => Fail e
  | None =>
  if c_closed c then Fail ErrCollectionClosed
  else if match sg_writing (c_manager c) with Some w => negb (sm_DocCount (ws_Metadata w) =? 0) | None => false end
  then Ok true
  else if negb (DeleteStore_Count (sg_deletes (c_manager c)) =? 0) then Ok true
  else Ok (mergeable (mf_SegmentMaxDocuments (vm_current (c_versions c))) (ImmutableMetadata (c_manager c)))
  end.

Definition rewriteNextDocumentID m : result Z :=
  match sg_writing m with
  | None => Fail (collection_corrupt "collection has no writing segment")
  | Some writing =>
      match NextDocumentID writing with
      | Ok next => Ok next
      | Fail err =>
          if negb (errors_Is err ErrSegmentFull) then Fail err
          else
            let maximum := (ReservedRange writing).2 in
            if maximum =? u64_max then Fail (errors_New "db: document ID space is exhausted") else Ok (maximum + 1)
      end
  end.

(** ** Opening *)
Record open_io := {
  oo_lock : option gerror;
  oo_current : option gerror;
  oo_wal : wal_io
}.

(** [manifest.PersistedSegments], opened and registered in order. *)
Fixpoint open_segments (ctx : context) (d : disk DB) (mmap : bool) (segments : list SegmentMetadata) m
    : result (SegmentManager DB) :=
  match segments with
  | [] => Ok m
  | metadata :: segments =>
      match OpenImmutableSegment ctx dir metadata (read_file d (first_file metadata))
              (errorf "db: open segment" os_ErrNotExist) mmap with
      | Fail _ => Fail (collection_corrupt "open segment")
      | Ok segment =>
          match AddImmutable segment m with
          | (_, Some _) => Fail (collection_corrupt "add segment")
          | (m, None) => open_segments ctx d mmap segments m
          end
      end
  end.

(** The manager of a manifest's checkpoint, before the replay. *)
Definition open_checkpoint (ctx : context) (readOnly : bool) (d : disk DB) (manifest : Manifest)
    : result (SegmentManager DB) :=
  match match read_pebble d (mf_IDMap manifest) with
        | None => Fail (errors_New "db: IDMap checkpoint does not exist")
        | Some db => if readOnly then OpenPrimaryKeyMapReadOnly ctx db else OpenPrimaryKeyMap ctx db
        end with
  | Fail _ => Fail (collection_corrupt "open IDMap checkpoint")
  | Ok primary =>
  match LoadDeleteStore ctx (read_file d (DeleteSnapshotName (mf_DeleteSnapshotGeneration manifest))) os_ErrNotExist with
  | Fail _ => Fail (collection_corrupt "load delete snapshot")
  | Ok deletes =>
  match open_segments ctx d (mf_EnableMmap manifest) (mf_PersistedSegments manifest) (NewSegmentManager primary deletes) with
  | Fail e => Fail e
  | Ok m =>
  match mf_WritingSegment manifest with
  | None => Fail (collection_corrupt "create writing segment")
  | Some w =>
  match NewWriteSegment (sm_ID w) (mf_WritingSegmentStartDocID manifest) (mf_SegmentMaxDocuments manifest) with
  | Fail _ => Fail (collection_corrupt "create writing segment")
  | Ok writing =>
  match SetWriting writing m with
  | (_, Some _) => Fail (collection_corrupt "install writing segment")
  | (m, None) => Ok m
  end end end end end end.

Definition read_log d (n : string) : option osfile :=
  match dk_files d !! n with Some (RegularFile f) => Some f | _ => None end.

(** [None] only if a fuelled loop of the log ran out, which its theorems exclude. *)
Definition OpenCollection (ctx : context) (io : open_io) (options : CollectionOptions) d
    : option (result (CollectionStore DB)) :=
  match ctx_guard "db: nil open collection context" ctx with
  | Some e => Some (Fail e)
  | None =>
  if String.eqb dir "" then Some (Fail (errors_New "db: empty collection directory"))
  else match oo_lock io with
  | Some e => Some (Fail (errorf "db: lock collection open" e))
  | None =>
  match OpenVersionManager ctx (oo_current io) (ds_now (dk_root d)) with
  | Fail e => Some (Fail e)
  | Ok versions =>
  let manifest := vm_current versions in
  match validateLifecycleManifest manifest with
  | Fail e => Some (Fail e)
  | Ok _ =>
  match open_checkpoint ctx (opt_ReadOnly options) d manifest with
  | Fail e => Some (Fail e)
  | Ok m =>
  let path := match mf_WritingSegment manifest with Some w => first_file w | None => "" end in
  match (if opt_ReadOnly options then OpenWALReadOnly ctx (read_log d path)
         else OpenWAL ctx (read_log d path) (oo_wal io) (opt_SyncEvery options)) with
  | None => None
  | Some (Fail _) => Some (Fail (collection_corrupt "open writing WAL"))
  | Some (Ok wal) =>
  match replayWriteWAL ctx wal m with
  | None => None
  | Some (_, Some e) => Some (Fail e)
  | Some (m, None) =>
  match validateCollectionState (go_range (idmap_overlay (sg_primaryKey m))) m with
  | Some e => Some (Fail e)
  | None =>
  let store engine :=
    {| c_readOnly := opt_ReadOnly options; c_closed := false; c_poisoned := None; c_versions := versions;
       c_manager := m; c_engine := engine; c_wal := wal; c_walPath := path; c_reservedNextSegmentID := 0 |} in
  if opt_ReadOnly options then Some (Ok (store None))
  else match NewWriteEngine m wal with
  | Fail e => Some (Fail e)
  | Ok engine => Some (Ok (store (Some (e_poisoned engine))))
  end end end end end end end end end.

(** ** Creation *)
Record create_io := {
  co_lock : option gerror;
  co_current : option gerror;
  co_idmap : artifact_io DB;
  co_deletes : artifact_io DB;
  co_walDir : option gerror;
  co_walIO : wal_io;
  co_wal : artifact_io DB;
  co_removed : bool;
  co_publish : publish_io
}.

(** A new log under a free name. *)
Definition create_log (ctx : context) (walIO : wal_io) (io : artifact_io DB) (syncEvery : Z) (text path : string)
    : storage DB WAL := fun s =>
  match CreateWAL ctx false walIO syncEvery with
  | Fail e =>
      let '(tr, (s, _)) := create_artifact {| ai_stat := ai_stat io; ai_write := Some e; ai_left := ai_left io |} text path
                             (RegularFile (whole_file [])) s in
      (tr, (s, Fail (errorf text e)))
  | Ok wal => (_ ← create_artifact io text path (RegularFile (w_file wal)); storage_ret wal) s
  end.

Definition checkpoint_idmap (ctx : context) (io : artifact_io DB) (text : string) (pk : PrimaryKeyMap DB) (n : string)
    : storage DB DB :=
  db ← lift (wrap_err text (idmap_Checkpoint ctx pk));
  _ ← create_artifact io text n (PebbleDir db);
  storage_ret db.
Definition write_deletes (ctx : context) (io : artifact_io DB) (text : string) (deletes : DeleteStore) (n : string)
    : storage DB unit :=
  _ ← check (ctx_guard "db: nil snapshot write context" ctx);
  file ← lift (wrap_err text (DeleteStore_WriteSnapshot deletes));
  create_artifact io text n (RegularFile (whole_file file)).

(** What [Flush], [RewriteDocuments] and creation prepare before they publish. *)
Definition writing_metadata (id : Z) (walRelative : string) : SegmentMetadata :=
  {| sm_ID := id; sm_MinDocID := 0; sm_MaxDocID := 0; sm_DocCount := 0; sm_Files := [walRelative] |}.

Definition create_prepare (ctx : context) (io : create_io) (options : CollectionOptions) (capacity : Z)
    : storage DB (SegmentManager DB * WAL) :=
  let primary := CreatePrimaryKeyMap in
  let idMapPath := IDMapCheckpointName 1 in
  let deletesPath := DeleteSnapshotName 1 in
  let walPath := walFileName 0 1 in
  _ ← checkpoint_idmap ctx (co_idmap io) "db: checkpoint IDMap" primary idMapPath;
  _ ← creating idMapPath;
  _ ← write_deletes ctx (co_deletes io) "db: write delete snapshot" NewDeleteStore deletesPath;
  _ ← creating deletesPath;
  _ ← check (co_walDir io);
  wal ← create_log ctx (co_walIO io) (co_wal io) (opt_SyncEvery options) "db: create WAL" walPath;
  _ ← creating walPath;
  writing ← lift (NewWriteSegment 0 0 capacity);
  let '(m, err) := SetWriting writing (NewSegmentManager primary NewDeleteStore) in
  _ ← check err;
  storage_ret (m, wal).

(** [CreateCollection] once the directory exists.  A publication that failed
    after its commit point yields both the store and the error. *)
Definition CreateCollection (ctx : context) (io : create_io) (schema : bytes) (options : CollectionOptions) d
    : list (disk DB) * (disk DB * (option (CollectionStore DB) * option gerror)) :=
  match ctx with
  | CtxNil => ([], (d, (None, Some (errors_New "db: nil create collection context"))))
  | _ =>
  if String.eqb dir "" then ([], (d, (None, Some (errors_New "db: empty collection directory"))))
  else if opt_ReadOnly options then ([], (d, (None, Some ErrReadOnly)))
  else match ctx_Err ctx with
  | Some e => ([], (d, (None, Some e)))
  | None =>
  let capacity := if opt_SegmentMaxDocuments options =? 0 then DefaultSegmentMaxDocuments
                  else opt_SegmentMaxDocuments options in
  match validateSchemaJSON schema with
  | Fail e => ([], (d, (None, Some e)))
  | Ok _ =>
  match co_lock io with
  | Some e => ([], (d, (None, Some (errorf "db: lock collection creation" e))))
  | None =>
  match OpenVersionManager ctx (co_current io) (ds_now (dk_root d)) with
  | Ok _ => ([], (d, (None, Some ErrManifestExists)))
  | Fail e =>
  if negb (errors_Is e ErrManifestNotFound) then ([], (d, (None, Some e)))
  else match create_prepare ctx io options capacity {| ss_disk := d; ss_created := [] |} with
  | (tr, (s, Fail e)) =>
      let d := cleanup (co_removed io) (ss_created s) (ss_disk s) in (tr ++ [d], (d, (None, Some e)))
  | (tr, (s, Ok (m, wal))) =>
      let d := ss_disk s in
      let manifest :=
        {| mf_FormatVersion := DiskFormatVersion; mf_Generation := 0; mf_Schema := schema;
           mf_EnableMmap := opt_EnableMmap options; mf_SegmentMaxDocuments := capacity; mf_PersistedSegments := [];
           mf_WritingSegment := Some (writing_metadata 0 (walFileName 0 1)); mf_WritingSegmentStartDocID := 0;
           mf_IDMap := IDMapCheckpointName 1; mf_DeleteSnapshotGeneration := 1; mf_NextSegmentID := 1;
           mf_SegmentIndexSnapshots := [] |} in
      let '(ptr, (root, (versions, err))) := CreateVersionManager ctx (co_publish io) manifest (dk_root d) in
      let tr := tr ++ ((fun r => disk_set_root r d) <$> ptr) in
      let d := disk_set_root root d in
      match versions with
      | None => let d := cleanup (co_removed io) (ss_created s) d in (tr ++ [d], (d, (None, err)))
      | Some versions =>
          (tr, (d, (Some {| c_readOnly := false; c_closed := false; c_poisoned := None; c_versions := versions;
                            c_manager := m; c_engine := Some None; c_wal := wal; c_walPath := walFileName 0 1;
                            c_reservedNextSegmentID := 0 |}, err)))
      end
  end end end end end end.

(** ** Flush *)
Record flush_io := {
  fo_sync : wal_io;
  fo_segment : artifact_io DB;
  fo_idmap : artifact_io DB;
  fo_deletes : artifact_io DB;
  fo_walDir : option gerror;
  fo_walIO : wal_io;
  fo_wal : artifact_io DB;
  fo_removed : bool;
  fo_publish : publish_io;
  fo_closeWAL : wal_io;
  fo_closePrimary : option gerror;
  fo_removeWorking : option gerror
}.

Record prepared := {
  pr_nextWriting : WriteSegment;
  pr_immutable : option ImmutableSegment;
  pr_primary : PrimaryKeyMap DB;
  pr_wal : WAL;
  pr_walPath : string;
  pr_manifest : Manifest
}.

Definition checkpoint_manifest (current : Manifest) (schema : bytes) (segments : list SegmentMetadata)
    (indexes : list SegmentIndexSnapshotMetadata) (writingID nextDocID : Z) (walRelative idMap : string)
    (deletes nextSegmentID : Z) : Manifest :=
  {| mf_FormatVersion := mf_FormatVersion current; mf_Generation := mf_Generation current; mf_Schema := schema;
     mf_EnableMmap := mf_EnableMmap current; mf_SegmentMaxDocuments := mf_SegmentMaxDocuments current;
     mf_PersistedSegments := segments; mf_WritingSegment := Some (writing_metadata writingID walRelative);
     mf_WritingSegmentStartDocID := nextDocID; mf_IDMap := idMap; mf_DeleteSnapshotGeneration := deletes;
     mf_NextSegmentID := nextSegmentID; mf_SegmentIndexSnapshots := indexes |}.

(** [current] with the segment ID that background compaction has reserved. *)
Definition reserved_manifest c : Manifest :=
  let current := vm_current (c_versions c) in
  {| mf_FormatVersion := mf_FormatVersion current; mf_Generation := mf_Generation current; mf_Schema := mf_Schema current;
     mf_EnableMmap := mf_EnableMmap current; mf_SegmentMaxDocuments := mf_SegmentMaxDocuments current;
     mf_PersistedSegments := mf_PersistedSegments current; mf_WritingSegment := mf_WritingSegment current;
     mf_WritingSegmentStartDocID := mf_WritingSegmentStartDocID current; mf_IDMap := mf_IDMap current;
     mf_DeleteSnapshotGeneration := mf_DeleteSnapshotGeneration current;
     mf_NextSegmentID := Z.max (mf_NextSegmentID current) (c_reservedNextSegmentID c);
     mf_SegmentIndexSnapshots := mf_SegmentIndexSnapshots current |}.

(** The non-empty write segment as an immutable file. *)
Definition snapshot_writing (ctx : context) (io : artifact_io DB) (text : string) (writing : WriteSegment) (mmap : bool)
    (relative : string) : storage DB ImmutableSegment :=
  '(immutable, file) ← lift (wrap_err text (SnapshotWithMmap ctx dir relative mmap writing).2);
  _ ← create_artifact io text relative (RegularFile (whole_file file));
  storage_ret immutable.

Definition flush_prepare (ctx : context) (io : flush_io) c (writing : WriteSegment) : storage DB prepared :=
  let current := reserved_manifest c in
  let m := c_manager c in
  _ ← check (if mf_NextSegmentID current =? u64_max then Some (errors_New "db: segment ID space is exhausted") else None);
  nextDocID ← lift (rewriteNextDocumentID m);
  nextWriting ← lift (NewWriteSegment (mf_NextSegmentID current) nextDocID (mf_SegmentMaxDocuments current));
  _ ← check (if mf_Generation current =? u64_max then Some (errors_New "db: manifest generation space is exhausted") else None);
  let generation := mf_Generation current + 1 in
  segmentRelative ← availableArtifact (ai_stat (fo_segment io)) (segmentFileName (ws_id writing)) generation;
  immutable ← (if sm_DocCount (ws_Metadata writing) =? 0 then storage_ret None
               else _ ← creating segmentRelative;
                    s ← snapshot_writing ctx (fo_segment io) "db: snapshot writing segment" writing
                          (mf_EnableMmap current) segmentRelative;
                    storage_ret (Some s));
  idMapRelative ← availableArtifact (ai_stat (fo_idmap io)) IDMapCheckpointName generation;
  db ← checkpoint_idmap ctx (fo_idmap io) "db: checkpoint IDMap" (sg_primaryKey m) idMapRelative;
  _ ← creating idMapRelative;
  nextPrimary ← lift (wrap_err "db: open next IDMap working copy" (OpenPrimaryKeyMap ctx db));
  snapshotGeneration ← nextDeleteSnapshotGeneration (ai_stat (fo_deletes io)) DeleteSnapshotName
                         (mf_DeleteSnapshotGeneration current);
  _ ← write_deletes ctx (fo_deletes io) "db: write delete snapshot" (sg_deletes m) (DeleteSnapshotName snapshotGeneration);
  _ ← creating (DeleteSnapshotName snapshotGeneration);
  walRelative ← availableArtifact (ai_stat (fo_wal io)) (walFileName (mf_NextSegmentID current)) generation;
  _ ← check (fo_walDir io);
  nextWAL ← create_log ctx (fo_walIO io) (fo_wal io) (w_SyncEvery (c_wal c)) "db: create next WAL" walRelative;
  _ ← creating walRelative;
  _ ← lift (NewWriteEngine m nextWAL);
  storage_ret
    {| pr_nextWriting := nextWriting; pr_immutable := immutable; pr_primary := nextPrimary; pr_wal := nextWAL;
       pr_walPath := walRelative;
       pr_manifest := checkpoint_manifest current (mf_Schema current)
         (mf_PersistedSegments current ++ option_list (im_metadata <$> immutable)) (mf_SegmentIndexSnapshots current)
         (mf_NextSegmentID current) nextDocID walRelative idMapRelative snapshotGeneration (mf_NextSegmentID current + 1) |}.

(** Publication on the disk: the directories it passes through, and the store
    with the version manager afterwards. *)
Definition store_publish (ctx : context) (io : publish_io) (next : Manifest) c d
    : list (disk DB) * (disk DB * (CollectionStore DB * option gerror)) :=
  let '(tr, (root, (versions, _, err))) := Publish ctx io next (c_versions c) (dk_root d) in
  ((fun r => disk_set_root r d) <$> tr, (disk_set_root root d, (c_set_versions c versions, err))).

Definition committed c c' : bool :=
  negb (mf_Generation (vm_current (c_versions c')) =? mf_Generation (vm_current (c_versions c))).

(** The rotation after the commit: the new segments, log, engine and IDMap, and
    the old log closed.  The IDMap that is closed is the old one, or the new one
    when the rotation fails. *)
Definition flush_rotate (io : flush_io) (p : prepared) (writing : WriteSegment) (publishErr : option gerror) c d
    : disk DB * (CollectionStore DB * option gerror) :=
  let '(m, rotateErr) :=
    match pr_immutable p with
    | Some immutable => RotateWriting (ws_id writing) immutable (pr_nextWriting p) (c_manager c)
    | None => SetWriting (pr_nextWriting p) (ClearWriting (c_manager c)).1
    end in
  match rotateErr with
  | Some e =>
      let poison := errorf "db: reopen required after a committed generation failed to rotate" e in
      let c := c_poison {| c_readOnly := c_readOnly c; c_closed := c_closed c; c_poisoned := c_poisoned c;
        c_versions := c_versions c; c_manager := m; c_engine := c_engine c; c_wal := c_wal c; c_walPath := c_walPath c;
        c_reservedNextSegmentID := c_reservedNextSegmentID c |} poison in
      (d, (c, errors_Join [publishErr; Some poison; fo_closePrimary io]))
  | None =>
      let m := ReplacePrimaryKeys (pr_primary p) m in
      let '(oldWAL, closeErr) := WAL_Close (fo_closeWAL io) (c_wal c) in
      let d := disk_put (c_walPath c) (RegularFile (w_file oldWAL)) d in
      (d, (c_install c m (pr_wal p) (pr_walPath p),
           errors_Join [publishErr; closeErr; fo_closePrimary io; fo_removeWorking io]))
  end.

Definition Flush (ctx : context) (io : flush_io) c d
    : list (disk DB) * (disk DB * (CollectionStore DB * option gerror)) :=
  match ctx_guard "db: nil flush context" ctx with
  | Some e => ([], (d, (c, Some e)))
  | None =>
  match requireWritableLocked c with
  | Some e => ([], (d, (c, Some e)))
  | None =>
  match WAL_Sync ctx (fo_sync io) (c_wal c) with
  | (wal, Some e) => ([], (d, (c_set_wal c wal, Some e)))
  | (wal, None) =>
  let c := c_set_wal c wal in
  match sg_writing (c_manager c) with
  | None => ([], (d, (c, Some err_no_writing)))
  | Some writing =>
  if (sm_DocCount (ws_Metadata writing) =? 0) && negb (HasRecords wal) then ([], (d, (c, None)))
  else
  match flush_prepare ctx io c writing {| ss_disk := with_log c d; ss_created := [] |} with
  | (tr, (s, Fail e)) =>
      let d := cleanup (fo_removed io) (ss_created s) (ss_disk s) in (tr ++ [d], (d, (c, Some e)))
  | (tr, (s, Ok p)) =>
  let '(ptr, (d, (c', publishErr))) := store_publish ctx (fo_publish io) (pr_manifest p) c (ss_disk s) in
  let tr := tr ++ ptr in
  if negb (committed c c') then
    let d := cleanup (fo_removed io) (ss_created s) d in (tr ++ [d], (d, (c', publishErr)))
  else
    let '(d, out) := flush_rotate io p writing publishErr c' d in (tr ++ [d], (d, out))
  end end end end end.

(** ** Schema and index publication *)
Definition with_schema (current : Manifest) (schema : bytes) (indexes : list SegmentIndexSnapshotMetadata) : Manifest :=
  {| mf_FormatVersion := mf_FormatVersion current; mf_Generation := mf_Generation current; mf_Schema := schema;
     mf_EnableMmap := mf_EnableMmap current; mf_SegmentMaxDocuments := mf_SegmentMaxDocuments current;
     mf_PersistedSegments := mf_PersistedSegments current; mf_WritingSegment := mf_WritingSegment current;
     mf_WritingSegmentStartDocID := mf_WritingSegmentStartDocID current; mf_IDMap := mf_IDMap current;
     mf_DeleteSnapshotGeneration := mf_DeleteSnapshotGeneration current; mf_NextSegmentID := mf_NextSegmentID current;
     mf_SegmentIndexSnapshots := indexes |}.

(** [publishSchema]: [snapshots] when the index snapshots are replaced.  [same]
    is the answer of [reflect.DeepEqual] on the index snapshots, which tells a
    nil slice from an empty one. *)
Definition publishSchema (ctx : context) (io : publish_io) (same : bool) (schema : bytes)
    (snapshots : option (list SegmentIndexSnapshotMetadata)) c d
    : list (disk DB) * (disk DB * (CollectionStore DB * (bool * option gerror))) :=
  match ctx_guard "db: nil publish schema context" ctx with
  | Some e => ([], (d, (c, (false, Some e))))
  | None =>
  match validateSchemaJSON schema with
  | Fail e => ([], (d, (c, (false, Some e))))
  | Ok _ =>
  match requireWritableLocked c with
  | Some e => ([], (d, (c, (false, Some e))))
  | None =>
  let current := vm_current (c_versions c) in
  let indexes := default (mf_SegmentIndexSnapshots current) snapshots in
  if bytes_eqb (mf_Schema current) schema && (match snapshots with None => true | Some _ => same end)
  then ([], (d, (c, (false, None))))
  else
    let '(tr, (d, (c', err))) := store_publish ctx io (with_schema current schema indexes) c (with_log c d) in
    (tr, (d, (c', (committed c c', err))))
  end end end.

(** [validateSegmentIndexFiles]: vector artifacts are regular files, full-text
    and inverted ones Pebble directories. *)
Definition index_file_error d (artifact : IndexArtifactMetadata) : option gerror :=
  let pebbleDirectory := String.eqb (ia_Kind artifact) "fts" || String.eqb (ia_Kind artifact) "invert" in
  match dk_files d !! ia_File artifact with
  | None => Some (errorf "db: inspect segment index artifact" os_ErrNotExist)
  | Some (PebbleDir _) =>
      if pebbleDirectory then None else Some (errors_New "db: segment index artifact is not a regular file")
  | Some (RegularFile _) =>
      if pebbleDirectory then Some (errors_New "db: segment index artifact is not a Pebble directory") else None
  end.
Definition validateSegmentIndexFiles d (snapshots : list SegmentIndexSnapshotMetadata) : option gerror :=
  head (omap (index_file_error d) (mjoin (si_Artifacts <$> snapshots))).

Definition PublishSegmentIndexSnapshots (ctx : context) (io : publish_io) (same : bool)
    (snapshots : list SegmentIndexSnapshotMetadata) c d
    : list (disk DB) * (disk DB * (CollectionStore DB * (bool * option gerror))) :=
  match ctx_guard "db: nil publish segment indexes context" ctx with
  | Some e => ([], (d, (c, (false, Some e))))
  | None =>
  match requireWritableLocked c with
  | Some e => ([], (d, (c, (false, Some e))))
  | None =>
  let current := vm_current (c_versions c) in
  if same then ([], (d, (c, (false, None))))
  else
  let next := with_schema current (mf_Schema current) snapshots in
  match Manifest_Validate next with
  | Fail e => ([], (d, (c, (false, Some e))))
  | Ok _ =>
  match validateSegmentIndexFiles d snapshots with
  | Some e => ([], (d, (c, (false, Some e))))
  | None =>
    let '(tr, (d, (c', err))) := store_publish ctx io next c (with_log c d) in
    (tr, (d, (c', (committed c c', err))))
  end end end end.

(** [Close]: the segments, the log, the IDMap and its working copy, the lock. *)
Definition store_Close (unmap : nat -> option gerror) (walIO : wal_io) (closePrimary removeWorking unlock : option gerror)
    c d : disk DB * (CollectionStore DB * option gerror) :=
  let '(m, closeErr) := sg_Close unmap (c_manager c) in
  if c_closed c then
    (d, ({| c_readOnly := c_readOnly c; c_closed := true; c_poisoned := c_poisoned c; c_versions := c_versions c;
            c_manager := m; c_engine := c_engine c; c_wal := c_wal c; c_walPath := c_walPath c;
            c_reservedNextSegmentID := c_reservedNextSegmentID c |}, closeErr))
  else
    let '(wal, walErr) := WAL_Close walIO (c_wal c) in
    let c := {| c_readOnly := c_readOnly c; c_closed := true; c_poisoned := c_poisoned c; c_versions := c_versions c;
                c_manager := ReplacePrimaryKeys (idmap_Close (sg_primaryKey m)) m; c_engine := c_engine c; c_wal := wal;
                c_walPath := c_walPath c; c_reservedNextSegmentID := c_reservedNextSegmentID c |} in
    (with_log c d, (c, errors_Join [closeErr; walErr; closePrimary; removeWorking; unlock])).
End collection.
