(* ===== verification/Rewrite.v ===== *)
(** * Rewriting a collection: [RewriteDocuments] of [internal/db/collection.go]

    A rewrite replaces the payload of every live document together with the
    schema.  The live documents are split into runs of consecutive IDs, each run
    becomes an immutable segment, and a new IDMap, an empty delete set and an
    empty log are published with them; superseded and deleted versions are left
    behind. *)
From S2P Require Import Prelude Bytes Utf8 KeyStore IdMap FileIO Wal Paths Snapshot Json JsonText Names Manifest ManifestFile ManifestJson VersionManager Segment SegmentManager WriteEngine Recovery Storage Collection.
#[local] Open Scope string_scope.
#[local] Open Scope list_scope.
#[local] Open Scope Z_scope.

(** ** Runs *)

(** The inner loop: the documents that continue a run of [count] documents whose
    last ID is [previous], and the rest. *)
Fixpoint extend_run (maximum count previous : Z) (documents : list StoredDocument)
    : list StoredDocument * list StoredDocument :=
  match documents with
  | document :: rest =>
      if (count <? maximum) && (DocID document =? wrap64 (previous + 1)) then
        let '(run, rest) := extend_run maximum (count + 1) (DocID document) rest in (document :: run, rest)
      else ([], documents)
  | [] => ([], [])
  end.

(** The outer loop; each round takes at least one document. *)
Fixpoint runs_loop (fuel : nat) (maximum : Z) (documents : list StoredDocument) : list (list StoredDocument) :=
  match fuel, documents with
  | S fuel, document :: rest =>
      let '(run, rest) := extend_run maximum 1 (DocID document) rest in
      (document :: run) :: runs_loop fuel maximum rest
  | _, _ => []
  end.
Definition rewriteDocumentRuns (documents : list StoredDocument) (maximum : Z) : list (list StoredDocument) :=
  runs_loop (length documents) maximum documents.

(** ** The checks on the documents *)

(** The loop over the documents and the current live ones, which are as many. *)
Fixpoint check_rewrite (documents currentLive : list StoredDocument) (keys : gset bytes) : option gerror :=
  match documents, currentLive with
  | document :: documents, current :: currentLive =>
      if negb (DocID document =? DocID current) || negb (bytes_eqb (PrimaryKey document) (PrimaryKey current))
      then Some (errors_New "db: rewrite document does not match current snapshot")
      else match ValidatePrimaryKey (PrimaryKey document) with
      | Fail e => Some e
      | Ok _ =>
          if MaxDocumentPayloadSize <? zlen (doc_Payload document)
          then Some (errors_New "db: rewrite document payload is too large")
          else if bool_decide (PrimaryKey document ∈ keys)
          then Some (errors_New "db: rewrite contains duplicate primary key")
          else check_rewrite documents currentLive ({[PrimaryKey document]} ∪ keys)
      end
  | _, _ => None
  end.

Section rewrite.
Context {DB : Type} `{KVStore DB} `{ManifestJSON}.
Context (dir : string) (go_range : gmap bytes primaryKeyDelta -> list (bytes * primaryKeyDelta)).
Implicit Types (c : CollectionStore DB) (d : disk DB) (m : SegmentManager DB).

(** ** The segments *)
Fixpoint apply_run (ctx : context) (run : list StoredDocument) (writing : WriteSegment) : result WriteSegment :=
  match run with
  | [] => Ok writing
  | document :: run =>
      match ApplyExpected ctx (DocID document) (PrimaryKey document) (doc_Payload document) writing with
      | (_, Some e) => Fail e
      | (writing, None) => apply_run ctx run writing
      end
  end.

Fixpoint put_run (ctx : context) (run : list StoredDocument) (primary : PrimaryKeyMap DB) : result (PrimaryKeyMap DB) :=
  match run with
  | [] => Ok primary
  | document :: run =>
      match idmap_Put ctx (PrimaryKey document) (DocID document) primary with
      | (_, Fail e) => Fail (errorf "db: build rewritten IDMap" e)
      | (primary, Ok (_, replaced)) =>
          if replaced then Fail (errors_New "db: rewrite contains duplicate primary key")
          else put_run ctx run primary
      end
  end.

Definition first_document (run : list StoredDocument) : Z := match run with document :: _ => DocID document | [] => 0 end.

(** One write segment from a run, as an immutable file under a free name. *)
Definition run_segment (ctx : context) (io : artifact_io DB) (text : string) (segmentID generation : Z) (mmap : bool)
    (run : list StoredDocument) : storage DB ImmutableSegment :=
  writing ← lift (NewWriteSegment segmentID (first_document run) (zlen run));
  writing ← lift (apply_run ctx run writing);
  segmentRelative ← availableArtifact (ai_stat io) (segmentFileName segmentID) generation;
  _ ← creating segmentRelative;
  snapshot_writing dir ctx io text writing mmap segmentRelative.

Fixpoint rewrite_runs (ctx : context) (io : nat -> artifact_io DB) (segmentID generation : Z) (mmap : bool)
    (index : nat) (runs : list (list StoredDocument)) m : storage DB (SegmentManager DB * list SegmentMetadata) :=
  match runs with
  | [] => storage_ret (m, [])
  | run :: runs =>
      immutable ← run_segment ctx (io index) "db: snapshot rewritten segment" segmentID generation mmap run;
      m ← lift (match AddImmutable immutable m with (m, None) => Ok m | (_, Some e) => Fail e end);
      primary ← lift (put_run ctx run (sg_primaryKey m));
      '(m, metadata) ← rewrite_runs ctx io (segmentID + 1) generation mmap (S index) runs (m_set_pk m primary);
      storage_ret (m, im_metadata immutable :: metadata)
  end.

(** ** The next generation *)
Record rewrite_io := {
  rw_sync : wal_io;
  rw_working : option gerror;
  rw_segment : nat -> artifact_io DB;
  rw_idmap : artifact_io DB;
  rw_deletes : artifact_io DB;
  rw_walDir : option gerror;
  rw_walIO : wal_io;
  rw_wal : artifact_io DB;
  rw_removed : bool;
  rw_publish : publish_io;
  rw_closeWAL : wal_io;
  rw_unmap : nat -> option gerror;
  rw_closePrimary : option gerror;
  rw_removeWorking : option gerror
}.

Record rewritten := {
  rp_manager : SegmentManager DB;
  rp_wal : WAL;
  rp_walPath : string;
  rp_manifest : Manifest
}.

Definition rewrite_prepare (ctx : context) (io : rewrite_io) c (schema : bytes) (documents : list StoredDocument)
    (nextDocID : Z) : storage DB rewritten :=
  let current := reserved_manifest c in
  let runs := rewriteDocumentRuns documents (mf_SegmentMaxDocuments current) in
  let exhausted := errors_New "db: segment ID space is exhausted" in
  _ ← check (if u64_max - mf_NextSegmentID current <? zlen runs then Some exhausted else None);
  let writingID := mf_NextSegmentID current + zlen runs in
  _ ← check (if writingID =? u64_max then Some exhausted else None);
  _ ← check (if mf_Generation current =? u64_max then Some (errors_New "db: manifest generation space is exhausted") else None);
  _ ← check (errorf "db: create rewritten IDMap working copy" <$> rw_working io);
  let generation := mf_Generation current + 1 in
  '(m, metadata) ← rewrite_runs ctx (rw_segment io) (mf_NextSegmentID current) generation (mf_EnableMmap current) 0 runs
                     (NewSegmentManager CreatePrimaryKeyMap NewDeleteStore);
  nextWriting ← lift (NewWriteSegment writingID nextDocID (mf_SegmentMaxDocuments current));
  m ← lift (match SetWriting nextWriting m with (m, None) => Ok m | (_, Some e) => Fail e end);
  _ ← check (validateCollectionState (go_range (idmap_overlay (sg_primaryKey m))) m);
  idMapRelative ← availableArtifact (ai_stat (rw_idmap io)) IDMapCheckpointName generation;
  _ ← creating idMapRelative;
  _ ← checkpoint_idmap ctx (rw_idmap io) "db: checkpoint rewritten IDMap" (sg_primaryKey m) idMapRelative;
  snapshotGeneration ← nextDeleteSnapshotGeneration (ai_stat (rw_deletes io)) DeleteSnapshotName
                         (mf_DeleteSnapshotGeneration current);
  _ ← creating (DeleteSnapshotName snapshotGeneration);
  _ ← write_deletes ctx (rw_deletes io) "db: write rewritten delete snapshot" (sg_deletes m) (DeleteSnapshotName snapshotGeneration);
  walRelative ← availableArtifact (ai_stat (rw_wal io)) (walFileName writingID) generation;
  _ ← check (rw_walDir io);
  _ ← creating walRelative;
  nextWAL ← create_log ctx (rw_walIO io) (rw_wal io) (w_SyncEvery (c_wal c)) "db: create rewritten WAL" walRelative;
  _ ← lift (NewWriteEngine m nextWAL);
  storage_ret
    {| rp_manager := m; rp_wal := nextWAL; rp_walPath := walRelative;
       rp_manifest := checkpoint_manifest current schema metadata [] writingID nextDocID walRelative idMapRelative
                        snapshotGeneration (writingID + 1) |}.

(** The store over the new generation, and the old one closed. *)
Definition rewrite_install (io : rewrite_io) (p : rewritten) (publishErr : option gerror) c d
    : disk DB * (CollectionStore DB * option gerror) :=
  let '(oldWAL, walErr) := WAL_Close (rw_closeWAL io) (c_wal c) in
  let '(_, managerErr) := sg_Close (rw_unmap io) (c_manager c) in
  (disk_put (c_walPath c) (RegularFile (w_file oldWAL)) d,
   (c_install c (rp_manager p) (rp_wal p) (rp_walPath p),
    errors_Join [publishErr; walErr; managerErr; rw_closePrimary io; rw_removeWorking io])).

Definition RewriteDocuments (ctx : context) (io : rewrite_io) (schema : bytes) (documents : list StoredDocument) c d
    : list (disk DB) * (disk DB * (CollectionStore DB * (bool * option gerror))) :=
  let stop c e := ([], (d, (c, (false, Some e)))) in
  match ctx_guard "db: nil rewrite context" ctx with
  | Some e => stop c e
  | None =>
  match validateSchemaJSON schema with
  | Fail e => stop c e
  | Ok _ =>
  match requireWritableLocked c with
  | Some e => stop c e
  | None =>
  match LiveDocuments ctx (c_manager c) with
  | Fail e => stop c e
  | Ok currentLive =>
  if negb (zlen documents =? zlen currentLive)
  then stop c (errors_New "db: rewrite has another number of documents than the current snapshot")
  else match check_rewrite documents currentLive ∅ with
  | Some e => stop c e
  | None =>
  match WAL_Sync ctx (rw_sync io) (c_wal c) with
  | (wal, Some e) => stop (c_set_wal c wal) e
  | (wal, None) =>
  let c := c_set_wal c wal in
  match rewriteNextDocumentID (c_manager c) with
  | Fail e => stop c e
  | Ok nextDocID =>
  if match last documents with Some document => nextDocID <=? DocID document | None => false end
  then stop c (collection_corrupt "rewrite document IDs reach or exceed the next writable ID")
  else
  match rewrite_prepare ctx io c schema documents nextDocID {| ss_disk := with_log c d; ss_created := [] |} with
  | (tr, (s, Fail e)) =>
      let d := cleanup (rw_removed io) (ss_created s) (ss_disk s) in (tr ++ [d], (d, (c, (false, Some e))))
  | (tr, (s, Ok p)) =>
  let '(ptr, (d, (c', publishErr))) := store_publish ctx (rw_publish io) (rp_manifest p) c (ss_disk s) in
  let tr := tr ++ ptr in
  if negb (committed c c') then
    let d := cleanup (rw_removed io) (ss_created s) d in (tr ++ [d], (d, (c', (false, publishErr))))
  else
    let '(d, (c', err)) := rewrite_install io p publishErr c' d in (tr ++ [d], (d, (c', (true, err))))
  end end end end end end end end.
End rewrite.
