(* ===== verification/Prune.v ===== *)
(** * Pruning: [PruneObsoleteArtifacts] of [internal/db/collection.go]

    The artifacts that this package owns, recognised by their directories and
    names, are removed unless the current manifest names them.  The disk holds
    artifacts under their relative paths; a directory is there when a path goes
    through it, so the removal of empty segment directories is not seen.  The
    lock files beside the logs and the working copy of the IDMap are not on the
    disk of the model. *)
From S2P Require Import Prelude Bytes KeyStore IdMap FileIO Wal Names Manifest VersionManager Segment SegmentManager WriteEngine Storage Collection.
From stdpp Require Import sorting.
From Stdlib Require Import Ascii String.
#[local] Open Scope string_scope.
#[local] Open Scope list_scope.
#[local] Open Scope Z_scope.

(** ** Paths *)
Definition path_join (directory entry : string) : string := (directory ++ "/" ++ entry)%string.
(** The part of [name] below [directory]. *)
Definition below (directory name : string) : option string :=
  let prefix := (directory ++ "/")%string in
  if has_prefix prefix name then Some (str_drop (String.length prefix) name) else None.
Definition first_component (rest : string) : string := match split_on "/"%char rest with x :: _ => x | [] => "" end.
(** [filepath.Dir] of a path with a directory. *)
Definition path_dir (name : string) : string := String.concat "/" (removelast (split_on "/"%char name)).

(** [filepath.Match] of a pattern [prefix*suffix] against an entry name. *)
Definition glob_match (pattern : string * string) (name : string) : bool :=
  has_prefix pattern.1 name && has_suffix pattern.2 name &&
  (String.length pattern.1 + String.length pattern.2 <=? String.length name)%nat.

(** [os.ReadDir] sorts the entries by name. *)
Definition name_le (a b : string) : Prop := String.leb a b = true.
#[global] Instance name_le_dec a b : Decision (name_le a b).
Proof. unfold name_le. apply _. Defined.

(** What the operating system answers. *)
Record prune_io := {
  pi_list : string -> option gerror;
  pi_lstat : string -> option gerror;
  pi_remove : string -> option gerror;
  pi_left : string -> bool;                  (** whether the artifact is left by a removal that fails *)
  pi_rmdir : string -> option gerror;
  pi_sync : string -> option gerror;
  pi_order : gset string -> list string      (** the order in which Go ranges over the touched directories *)
}.

Section prune.
Context {DB : Type} `{KVStore DB}.
Implicit Types (d : disk DB) (c : CollectionStore DB).

Definition disk_names d : list string := (map_to_list (dk_files d)).*1.

(** [os.Lstat]: whether the path is a directory. *)
Definition lstat d (name : string) : option bool :=
  match dk_files d !! name with
  | Some (RegularFile _) => Some false
  | Some (PebbleDir _) => Some true
  | None => if existsb (fun n => bool_decide (is_Some (below name n))) (disk_names d) then Some true else None
  end.

Definition read_dir d (directory : string) : list string :=
  merge_sort name_le (remove_dups (first_component <$> omap (below directory) (disk_names d))).

Definition ownedDirectoryEntries (io : prune_io) d (directory : string) : result (list string) :=
  match pi_lstat io directory with
  | Some e => Fail (errorf "db: inspect artifact directory" e)
  | None =>
  match lstat d directory with
  | None => Ok []
  | Some false => Fail (errors_New "db: refuse to scan non-directory artifact path")
  | Some true =>
      match pi_list io directory with
      | Some e => Fail (errorf "db: read artifact directory" e)
      | None => Ok (read_dir d directory)
      end
  end end.

Definition fmap_result {A B} (f : A -> B) (r : result A) : result B := match r with Ok x => Ok (f x) | Fail e => Fail e end.

Definition ownedSubdirectories (io : prune_io) d (directory : string) : result (list string) :=
  fmap_result (fun entries => filter (fun name => lstat d name = Some true) (path_join directory <$> entries))
    (ownedDirectoryEntries io d directory).
Definition ownedFiles (io : prune_io) d (directory : string) (patterns : list (string * string)) : result (list string) :=
  fmap_result (fun entries => path_join directory <$> filter (fun e => existsb (fun p => glob_match p e) patterns = true) entries)
    (ownedDirectoryEntries io d directory).
Definition ownedIDMapDirectories (io : prune_io) d (directory : string) : result (list string) :=
  fmap_result (fun entries => path_join directory <$> filter (fun e => IsOwnedIDMapName e = true) entries)
    (ownedDirectoryEntries io d directory).

(** ** What is kept *)
Definition keep_names (manifest : Manifest) : gset string :=
  list_to_set (filter (fun n => n <> "")
    (mjoin (sm_Files <$> mf_PersistedSegments manifest) ++
     match mf_WritingSegment manifest with Some w => sm_Files w ++ ((fun n => (n ++ ".lock")%string) <$> sm_Files w) | None => [] end ++
     mjoin ((fun s => ia_File <$> si_Artifacts s) <$> mf_SegmentIndexSnapshots manifest) ++
     [mf_IDMap manifest; DeleteSnapshotName (mf_DeleteSnapshotGeneration manifest)])).

(** ** The candidates *)
Fixpoint collect_files (io : prune_io) d (specifications : list (string * list (string * string))) : result (list string) :=
  match specifications with
  | [] => Ok []
  | (directory, patterns) :: specifications =>
      match ownedFiles io d directory patterns with
      | Fail e => Fail e
      | Ok matches => fmap_result (fun rest => matches ++ rest) (collect_files io d specifications)
      end
  end.
Definition prune_candidates (io : prune_io) d : result (list string) :=
  match ownedSubdirectories io d "segments" with
  | Fail e => Fail e
  | Ok segmentDirectories =>
  match collect_files io d ((fun directory => (directory, [("data-", ".seg")])) <$> segmentDirectories) with
  | Fail e => Fail e
  | Ok segments =>
  match ownedIDMapDirectories io d "idmap" with
  | Fail e => Fail e
  | Ok idMaps =>
  fmap_result (fun rest => segments ++ idMaps ++ rest)
    (collect_files io d
       [("wal", [("", ".wal.lock"); ("", ".wal")]); ("snapshots", [("delete-", ".snap")]);
        ("indexes", [("", ".zvi"); ("", ".pebble")])])
  end end end.

(** ** The removal *)

(** [os.Remove] unlinks a file, [os.RemoveAll] a directory with what is below
    it; one that fails may leave the artifact.  Until its directory is
    synchronized a crash may undo the removal. *)
Definition removes (name n : string) : bool :=
  bool_decide (n = name) || (has_suffix ".pebble" name && bool_decide (is_Some (below name n))).
Definition remove_artifact (left : bool) (name : string) d : disk DB :=
  {| dk_root := dk_root d; dk_files := if left then dk_files d else filter (fun e => removes name e.1 = false) (dk_files d);
     dk_torn := list_to_set (filter (fun n => removes name n = true) (disk_names d)) ∪ dk_torn d |}.

(** The loop over the candidates: the disks it passes through, the disk it
    leaves and the names it touched. *)
Fixpoint prune_loop (io : prune_io) (keep : gset string) (candidates : list string) (touched : list string) d
    : list (disk DB) * (disk DB * (list string * option gerror)) :=
  match candidates with
  | [] => ([], (d, (touched, None)))
  | name :: candidates =>
      match pi_lstat io name with
      | Some e =>
          if errors_Is e os_ErrNotExist then prune_loop io keep candidates touched d
          else ([], (d, (touched, Some (errorf "db: inspect obsolete artifact" e))))
      | None =>
      match lstat d name with
      | None => prune_loop io keep candidates touched d
      | Some isDir =>
          if negb (Bool.eqb (has_suffix ".pebble" name) isDir)
          then ([], (d, (touched, Some (errors_New "db: refuse to prune invalid artifact"))))
          else if bool_decide (name ∈ keep) then prune_loop io keep candidates touched d
          else
            match pi_remove io name with
            | Some e =>
                let after := remove_artifact (pi_left io name) name d in
                if errors_Is e os_ErrNotExist
                then let '(tr, out) := prune_loop io keep candidates (touched ++ [name]) after in (after :: tr, out)
                else ([after], (after, (touched, Some (errorf "db: remove obsolete artifact" e))))
            | None =>
                let after := remove_artifact false name d in
                let '(tr, out) := prune_loop io keep candidates (touched ++ [name]) after in (after :: tr, out)
            end
      end end
  end.

(** The directory synchronizations make the removals durable. *)
Fixpoint sync_touched (io : prune_io) (removed : list string) (directories : list string) d
    : disk DB * option gerror :=
  match directories with
  | [] => (d, None)
  | directory :: directories =>
      match pi_sync io directory with
      | Some e =>
          if errors_Is e os_ErrNotExist then sync_touched io removed directories d
          else (d, Some (errorf "db: sync pruned artifact directory" e))
      | None =>
          let gone n := bool_decide (path_dir n = directory) in
          let d := {| dk_root := dk_root d; dk_files := dk_files d;
                      dk_torn := dk_torn d ∖ list_to_set (filter (fun n => gone n = true) removed) |} in
          sync_touched io removed directories d
      end
  end.

(** The segment directories that are empty are removed: the disk of the model
    does not show them, only the error of the synchronization is seen. *)
Fixpoint remove_empty (io : prune_io) d (directories : list string) (removedDirectory : bool) : result bool :=
  match directories with
  | [] => Ok removedDirectory
  | directory :: directories =>
      match pi_lstat io directory with
      | Some e =>
          if errors_Is e os_ErrNotExist then remove_empty io d directories removedDirectory
          else Fail (errorf "db: inspect segment directory" e)
      | None =>
          let empty := forallb (fun n => bool_decide (below directory n = None)) (disk_names d) in
          let removedNow := empty && match pi_rmdir io directory with None => true | Some _ => false end in
          remove_empty io d directories (removedDirectory || removedNow)
      end
  end.

Definition PruneObsoleteArtifacts (ctx : context) (io : prune_io) c d : list (disk DB) * (disk DB * option gerror) :=
  match ctx_guard "db: nil artifact prune context" ctx with
  | Some e => ([], (d, Some e))
  | None =>
  match requireWritableLocked c with
  | Some e => ([], (d, Some e))
  | None =>
  let d := with_log c d in
  match prune_candidates io d, ownedSubdirectories io d "segments" with
  | Fail e, _ | _, Fail e => ([], (d, Some e))
  | Ok candidates, Ok segmentDirectories =>
  let '(tr, (d, (touched, err))) := prune_loop io (keep_names (vm_current (c_versions c))) candidates [] d in
  match err with
  | Some e => (tr, (d, Some e))
  | None =>
      let '(d, err) := sync_touched io touched (pi_order io (list_to_set (path_dir <$> touched))) d in
      match err with
      | Some e => (tr ++ [d], (d, Some e))
      | None =>
          match remove_empty io d segmentDirectories false with
          | Fail e => (tr ++ [d], (d, Some e))
          | Ok removedDirectory =>
              let err := if removedDirectory then option_map (errorf "db: sync segment directory") (pi_sync io "segments") else None in
              (tr ++ [d], (d, err))
          end
      end
  end end end end.
End prune.
