(* ===== verification/Compaction.v ===== *)
(** * Compaction of sealed segments: [internal/db/compaction.go]

    A compaction captures the immutable segments and the deletions of a flushed
    collection, copies the documents that are not deleted into replacement
    segments without holding the lock, and at its commit puts these in the place
    of the captured ones, while writes and flushes go on.  A captured segment is
    a value; the code's comparison of pointers is the comparison of values. *)
From S2P Require Import Prelude Bytes Utf8 KeyStore IdMap FileIO Wal Paths Snapshot Json JsonText Names Manifest ManifestFile ManifestJson VersionManager Segment SegmentManager WriteEngine Recovery Storage Collection Rewrite.
#[local] Open Scope string_scope.
#[local] Open Scope list_scope.
#[local] Open Scope Z_scope.

#[export] Instance ImmutableSegment_eq_dec : EqDecision ImmutableSegment.
Proof. solve_decision. Defined.

Record Compaction := {
  p_manifest : Manifest;
  p_inputs : list ImmutableSegment;
  p_deletes : DeleteStore;
  p_outputs : list ImmutableSegment;
  p_created : list string;
  p_purged : list Z;
  p_prepared : bool;
  p_changed : bool;
  p_committed : bool;
  p_closed : bool
}.

Definition p_set_purged (p : Compaction) (purged : list Z) (changed : bool) : Compaction :=
  {| p_manifest := p_manifest p; p_inputs := p_inputs p; p_deletes := p_deletes p; p_outputs := p_outputs p;
     p_created := p_created p; p_purged := purged; p_prepared := p_prepared p; p_changed := changed;
     p_committed := p_committed p; p_closed := p_closed p |}.
Definition p_set_outputs (p : Compaction) (created : list string) (outputs : list ImmutableSegment) : Compaction :=
  {| p_manifest := p_manifest p; p_inputs := p_inputs p; p_deletes := p_deletes p; p_outputs := outputs;
     p_created := created; p_purged := p_purged p; p_prepared := p_prepared p; p_changed := p_changed p;
     p_committed := p_committed p; p_closed := p_closed p |}.
Definition p_set_state (p : Compaction) (prepared committed closed : bool) : Compaction :=
  {| p_manifest := p_manifest p; p_inputs := p_inputs p; p_deletes := p_deletes p; p_outputs := p_outputs p;
     p_created := p_created p; p_purged := p_purged p; p_prepared := prepared; p_changed := p_changed p;
     p_committed := committed; p_closed := closed |}.

(** ** The copy *)

(** The records of a segment: the purged IDs and the documents to keep. *)
Fixpoint visit_records (ctx : context) (deletes : DeleteStore) (records : list StoredDocument)
    (purged : list Z) (documents : list StoredDocument) : list Z * list StoredDocument * option gerror :=
  match records with
  | [] => (purged, documents, None)
  | record :: records =>
      match ctx_Err ctx with
      | Some e => (purged, documents, Some e)
      | None =>
          if IsDeleted deletes (DocID record) then visit_records ctx deletes records (purged ++ [DocID record]) documents
          else visit_records ctx deletes records purged (documents ++ [record])
      end
  end.
Fixpoint visit_inputs (ctx : context) (deletes : DeleteStore) (inputs : list ImmutableSegment)
    (purged : list Z) (documents : list StoredDocument) : list Z * list StoredDocument * option gerror :=
  match inputs with
  | [] => (purged, documents, None)
  | input :: inputs =>
      if im_closed input then (purged, documents, Some os_ErrClosed)
      else match visit_records ctx deletes (im_docs input) purged documents with
      | (purged, documents, Some e) => (purged, documents, Some e)
      | (purged, documents, None) => visit_inputs ctx deletes inputs purged documents
      end
  end.

(** A run that is not laid out as the input in its place. *)
Fixpoint layout_differs (runs : list (list StoredDocument)) (inputs : list ImmutableSegment) : bool :=
  match runs, inputs with
  | run :: runs, input :: inputs =>
      let metadata := im_metadata input in
      negb (sm_MinDocID metadata =? first_document run)
      || negb (sm_MaxDocID metadata =? match last run with Some document => DocID document | None => 0 end)
      || negb (sm_DocCount metadata =? zlen run) || layout_differs runs inputs
  | _, _ => false
  end.
Definition layout_changed (purged : list Z) (runs : list (list StoredDocument)) (inputs : list ImmutableSegment) : bool :=
  negb (zlen purged =? 0) || negb (zlen runs =? zlen inputs) || layout_differs runs inputs.

Section compaction.
Context {DB : Type} `{KVStore DB} `{ManifestJSON}.
Context (dir : string).
Implicit Types (c : CollectionStore DB) (d : disk DB) (m : SegmentManager DB) (p : Compaction).

Definition BeginCompaction (ctx : context) c : result Compaction :=
  match ctx_guard "db: nil compaction collection or context" ctx with
  | Some e => Fail e
  | None =>
  match requireWritableLocked c with
  | Some e => Fail e
  | None =>
  match sg_writing (c_manager c) with
  | None => Fail err_no_writing
  | Some writing =>
  if HasRecords (c_wal c) || negb (sm_DocCount (ws_Metadata writing) =? 0)
  then Fail (errors_New "db: flush before beginning compaction")
  else if mf_Generation (vm_current (c_versions c)) =? u64_max
  then Fail (errors_New "db: manifest generation space is exhausted")
  else Ok {| p_manifest := vm_current (c_versions c); p_inputs := sg_ordered (c_manager c);
             p_deletes := DeleteStore_Clone (sg_deletes (c_manager c)); p_outputs := []; p_created := []; p_purged := [];
             p_prepared := false; p_changed := false; p_committed := false; p_closed := false |}
  end end end.

(** The loop over the runs: each becomes a segment file under a free name. *)
Fixpoint prepare_runs (ctx : context) (io : nat -> artifact_io DB) (index : nat) (id : Z) (runs : list (list StoredDocument))
    p d : list (disk DB) * (disk DB * (Compaction * option gerror)) :=
  match runs with
  | [] => ([], (d, (p, None)))
  | run :: runs =>
      match run_segment dir ctx (io index) "" id (mf_Generation (p_manifest p) + 1) (mf_EnableMmap (p_manifest p)) run
              {| ss_disk := d; ss_created := p_created p |} with
      | (tr, (s, Fail e)) => (tr, (ss_disk s, (p_set_outputs p (ss_created s) (p_outputs p), Some e)))
      | (tr, (s, Ok output)) =>
          let '(tr', out) := prepare_runs ctx io (S index) (id + 1) runs
                               (p_set_outputs p (ss_created s) (p_outputs p ++ [output])) (ss_disk s) in
          (tr ++ tr', out)
      end
  end.

Definition c_reserve c (next : Z) : CollectionStore DB :=
  {| c_readOnly := c_readOnly c; c_closed := c_closed c; c_poisoned := c_poisoned c; c_versions := c_versions c;
     c_manager := c_manager c; c_engine := c_engine c; c_wal := c_wal c; c_walPath := c_walPath c;
     c_reservedNextSegmentID := next |}.

Definition Prepare (ctx : context) (io : nat -> artifact_io DB) p c d
    : list (disk DB) * (disk DB * (CollectionStore DB * (Compaction * option gerror))) :=
  let stop c p e := ([], (d, (c, (p, Some e)))) in
  if p_closed p || p_prepared p || match ctx with CtxNil => true | _ => false end
  then stop c p (errors_New "db: invalid compaction preparation")
  else match visit_inputs ctx (p_deletes p) (p_inputs p) (p_purged p) [] with
  | (purged, _, Some e) => stop c (p_set_purged p purged (p_changed p)) e
  | (purged, documents, None) =>
  let runs := rewriteDocumentRuns documents (mf_SegmentMaxDocuments (p_manifest p)) in
  let p := p_set_purged p purged (layout_changed purged runs (p_inputs p)) in
  if negb (p_changed p) then ([], (d, (c, (p_set_state p true (p_committed p) (p_closed p), ctx_Err ctx))))
  else match requireWritableLocked c with
  | Some e => stop c p e
  | None =>
  let firstID := Z.max (mf_NextSegmentID (vm_current (c_versions c))) (c_reservedNextSegmentID c) in
  if u64_max - firstID <? zlen runs then stop c p (errors_New "db: segment ID space is exhausted")
  else
  let c := c_reserve c (firstID + zlen runs) in
  match prepare_runs ctx io 0 firstID runs p (with_log c d) with
  | (tr, (d, (p, Some e))) => (tr, (d, (c, (p, Some e))))
  | (tr, (d, (p, None))) => (tr, (d, (c, (p_set_state p true (p_committed p) (p_closed p), ctx_Err ctx))))
  end end end.

(** ** The commit *)

(** The captured inputs that are left to find, and the segments that stay. *)
Fixpoint match_inputs (segments : list ImmutableSegment) (inputs : gmap Z ImmutableSegment) (remaining : list ImmutableSegment)
    : result (gmap Z ImmutableSegment * list ImmutableSegment) :=
  match segments with
  | [] => Ok (inputs, remaining)
  | segment :: segments =>
      match inputs !! im_ID segment with
      | Some input =>
          if negb (bool_decide (input = segment)) then Fail (errors_New "db: compaction input changed")
          else match_inputs segments (delete (im_ID segment) inputs) remaining
      | None => match_inputs segments inputs (remaining ++ [segment])
      end
  end.
Fixpoint restore_all (ctx : context) (ids : list Z) (deletes : DeleteStore) : result DeleteStore :=
  match ids with
  | [] => Ok deletes
  | id :: ids =>
      match DeleteStore_Restore ctx id deletes with
      | (_, Fail e) => Fail e
      | (deletes, Ok _) => restore_all ctx ids deletes
      end
  end.
Fixpoint add_all (segments : list ImmutableSegment) m : result (SegmentManager DB) :=
  match segments with
  | [] => Ok m
  | segment :: segments =>
      match AddImmutable segment m with
      | (_, Some e) => Fail e
      | (m, None) => add_all segments m
      end
  end.

(** The manager over the remaining and the replacement segments. *)
Definition compacted_manager (ctx : context) p m : result (SegmentManager DB) :=
  let inputs : gmap Z ImmutableSegment := list_to_map (reverse ((fun input => (im_ID input, input)) <$> p_inputs p)) in
  match match_inputs (sg_ordered m) inputs [] with
  | Fail e => Fail e
  | Ok (inputs, remaining) =>
  if negb (Z.of_nat (size inputs) =? 0) then Fail (errors_New "db: compaction input was removed")
  else match restore_all ctx (p_purged p) (DeleteStore_Clone (sg_deletes m)) with
  | Fail e => Fail e
  | Ok deletes =>
  match add_all (remaining ++ p_outputs p) (NewSegmentManager (sg_primaryKey m) deletes) with
  | Fail e => Fail e
  | Ok nextManager =>
  match sg_writing m with
  | None => Fail err_no_writing
  | Some writing =>
      match SetWriting writing nextManager with
      | (_, Some e) => Fail e
      | (nextManager, None) => Ok nextManager
      end
  end end end end.

(** The index snapshots of the segments that stay, and the given ones. *)
Definition compacted_indexes p (current indexes : list SegmentIndexSnapshotMetadata) : result (list SegmentIndexSnapshotMetadata) :=
  let kept := filter (fun snapshot => si_SegmentID snapshot ∉ im_ID <$> p_inputs p) current in
  if existsb (fun snapshot => negb (bool_decide (si_SegmentID snapshot ∈ im_ID <$> p_outputs p))) indexes
  then Fail (errors_New "db: compaction index references a non-output segment")
  else Ok (kept ++ indexes).

Definition with_segments (current : Manifest) (segments : list SegmentMetadata) (nextSegmentID : Z)
    (indexes : list SegmentIndexSnapshotMetadata) (deletes : Z) : Manifest :=
  {| mf_FormatVersion := mf_FormatVersion current; mf_Generation := mf_Generation current; mf_Schema := mf_Schema current;
     mf_EnableMmap := mf_EnableMmap current; mf_SegmentMaxDocuments := mf_SegmentMaxDocuments current;
     mf_PersistedSegments := segments; mf_WritingSegment := mf_WritingSegment current;
     mf_WritingSegmentStartDocID := mf_WritingSegmentStartDocID current; mf_IDMap := mf_IDMap current;
     mf_DeleteSnapshotGeneration := deletes; mf_NextSegmentID := nextSegmentID; mf_SegmentIndexSnapshots := indexes |}.

Record commit_io := {
  cm_deletes : artifact_io DB;
  cm_removed : bool;
  cm_sync : wal_io;
  cm_publish : publish_io;
  cm_unmap : nat -> option gerror
}.

(** The delete set of the checkpoint without the purged versions, in a new
    snapshot; the current snapshot serves when nothing was purged. *)
Definition compacted_deletes (ctx : context) (io : artifact_io DB) p (current : Manifest) : storage DB Z :=
  let generation := mf_DeleteSnapshotGeneration current in
  if zlen (p_purged p) =? 0 then storage_ret generation
  else
    s ← (fun s => ([], (s, Ok s)) : list (disk DB) * (storage_state DB * result (storage_state DB)));
    checkpoint ← lift (LoadDeleteStore ctx (read_file (ss_disk s) (DeleteSnapshotName generation)) os_ErrNotExist);
    checkpoint ← lift (restore_all ctx (p_purged p) checkpoint);
    next ← nextDeleteSnapshotGeneration (ai_stat io) DeleteSnapshotName generation;
    _ ← creating (DeleteSnapshotName next);
    _ ← write_deletes ctx io "" checkpoint (DeleteSnapshotName next);
    storage_ret next.

Fixpoint close_inputs (unmap : nat -> option gerror) (index : nat) (inputs : list ImmutableSegment) : list (option gerror) :=
  match inputs with
  | [] => []
  | input :: inputs => (im_Close (unmap index) input).2 :: close_inputs unmap (S index) inputs
  end.

(** The store over the compacted segments and a new engine over the same log. *)
Definition c_compacted c m : CollectionStore DB := c_install c m (c_wal c) (c_walPath c).

Definition Commit (ctx : context) (io : commit_io) (indexes : list SegmentIndexSnapshotMetadata) p c d
    : list (disk DB) * (disk DB * (CollectionStore DB * (Compaction * (bool * option gerror)))) :=
  let stop e := ([], (d, (c, (p, (false, Some e))))) in
  if negb (p_prepared p) || negb (p_changed p) || p_closed p || p_committed p || match ctx with CtxNil => true | _ => false end
  then stop (errors_New "db: invalid compaction commit")
  else match ctx_Err ctx with
  | Some e => stop e
  | None =>
  match requireWritableLocked c with
  | Some e => stop e
  | None =>
  let current := vm_current (c_versions c) in
  if negb (bytes_eqb (mf_Schema current) (mf_Schema (p_manifest p))) then stop (errors_New "db: schema changed during compaction")
  else match compacted_manager ctx p (c_manager c) with
  | Fail e => stop e
  | Ok nextManager =>
  match NewWriteEngine nextManager (c_wal c) with
  | Fail e => stop e
  | Ok _ =>
  match compacted_indexes p (mf_SegmentIndexSnapshots current) indexes with
  | Fail e => stop e
  | Ok nextIndexes =>
  let next := with_segments current (ImmutableMetadata nextManager) (Z.max (mf_NextSegmentID current) (c_reservedNextSegmentID c))
                nextIndexes in
  match Manifest_Validate (next (mf_DeleteSnapshotGeneration current)) with
  | Fail e => stop e
  | Ok _ =>
  match validateSegmentIndexFiles d indexes with
  | Some e => stop e
  | None =>
  match compacted_deletes ctx (cm_deletes io) p current {| ss_disk := with_log c d; ss_created := [] |} with
  | (tr, (s, Fail e)) =>
      let d := cleanup (cm_removed io) (ss_created s) (ss_disk s) in (tr ++ [d], (d, (c, (p, (false, Some e)))))
  | (tr, (s, Ok generation)) =>
  match WAL_Sync ctx (cm_sync io) (c_wal c) with
  | (wal, Some e) =>
      let d := cleanup (cm_removed io) (ss_created s) (ss_disk s) in
      (tr ++ [d], (d, (c_set_wal c wal, (p, (false, Some e)))))
  | (wal, None) =>
  let c := c_set_wal c wal in
  let '(ptr, (d, (c', publishErr))) := store_publish ctx (cm_publish io) (next generation) c (with_log c (ss_disk s)) in
  let tr := tr ++ ptr in
  if negb (committed c c') then
    let d := cleanup (cm_removed io) (ss_created s) d in (tr ++ [d], (d, (c', (p, (false, publishErr)))))
  else
    (tr, (d, (c_compacted c' nextManager,
              (p_set_state p (p_prepared p) true (p_closed p),
               (true, errors_Join [publishErr; errors_Join (close_inputs (cm_unmap io) 0 (p_inputs p))])))))
  end end end end end end end end end.

(** [Close]: the files of a compaction that was not committed are removed, one
    after the other; a removal that fails may leave its file. *)
Definition remove_created (remove : string -> option gerror) (left : string -> bool) (n : string) d : disk DB :=
  match remove n with
  | None => disk_remove n d
  | Some _ => if left n then d else disk_remove n d
  end.
Fixpoint remove_all_created (remove : string -> option gerror) (left : string -> bool) (created : list string) d
    : list (disk DB) * (disk DB * list (option gerror)) :=
  match created with
  | [] => ([], (d, []))
  | n :: created =>
      let d := remove_created remove left n d in
      let '(tr, (d', errs)) := remove_all_created remove left created d in (d :: tr, (d', remove n :: errs))
  end.
Definition Compaction_Close (unmap : nat -> option gerror) (remove : string -> option gerror) (left : string -> bool) p d
    : list (disk DB) * (disk DB * (Compaction * option gerror)) :=
  if p_closed p then ([], (d, (p, None)))
  else
    let closed := p_set_state p (p_prepared p) (p_committed p) true in
    if p_committed p then ([], (d, (closed, None)))
    else
      let '(tr, (d', errs)) := remove_all_created remove left (p_created p) d in
      (tr, (d', (closed, errors_Join (close_inputs unmap 0 (p_outputs p) ++ errs)))).
End compaction.
