(* ===== verification/Checkpoint.v ===== *)
(** * Checkpoints on the disk

    A manifest describes a checkpoint: segment files, an IDMap, a delete
    snapshot and the write segment with its log.  This file defines what it
    means for the disk to hold a checkpoint, shows that a crash and the writing
    of other artifacts keep it, and that opening loads it. *)
From S2P Require Import Prelude Bytes Utf8 KeyStore IdMap FileIO Wal Paths Snapshot Json JsonText Names Manifest ManifestFile ManifestJson VersionManager Segment SegmentManager WriteEngine Recovery Durability Rotation Storage Collection.
From stdpp Require Import sorting.
#[local] Open Scope string_scope.
#[local] Open Scope list_scope.
#[local] Open Scope Z_scope.

(** A store that opens its checkpoints and iterates without errors. *)
Definition store_opens (DB : Type) `{KVStore DB} : Prop :=
  (forall ck : DB, exists db, kv_Open ck = Ok db) /\ (forall db : DB, (kv_Iter db).2 = None).

Section on_disk.
Context {DB : Type} `{Hkv : KVStore DB} {Hlaws : KVStoreLaws DB}.
Context (dir : string) (Hdir : dir <> "").
Implicit Types (d : disk DB) (m : SegmentManager DB).

(** An artifact that is there and that a crash leaves. *)
Definition stable d (n : string) (a : artifact DB) : Prop := dk_files d !! n = Some a /\ n ∉ dk_torn d.

Definition segment_on_disk d (mmap : bool) (im : ImmutableSegment) : Prop :=
  im_ok im /\ exists f content, sm_Files (im_metadata im) = [f] /\ stable d f (RegularFile (whole_file content)) /\ pebble_free f /\
    forall err, OpenImmutableSegment CtxLive dir (im_metadata im) (Some content) err mmap = Ok im.

(** The artifacts of a checkpoint, but for the log. *)
Definition checkpoint_files (manifest : Manifest) : list string :=
  mf_IDMap manifest :: DeleteSnapshotName (mf_DeleteSnapshotGeneration manifest) :: mjoin (sm_Files <$> mf_PersistedSegments manifest).

Record checkpoint_on_disk d (manifest : Manifest) (base : AbsState) : Prop := {
  ck_inv : a_inv base;
  ck_lifecycle : validateLifecycleManifest manifest = Ok tt;
  ck_idmap : exists ck, stable d (mf_IDMap manifest) (PebbleDir ck) /\ entries_ok ck /\ base_view ck = a_view base;
  ck_deletes : exists file,
    stable d (DeleteSnapshotName (mf_DeleteSnapshotGeneration manifest)) (RegularFile (whole_file file)) /\
    forall err, LoadDeleteStore CtxLive (Some file) err = Ok (a_deletes base);
  ck_segments : exists ims, mf_PersistedSegments manifest = im_metadata <$> ims /\
    Forall (segment_on_disk d (mf_EnableMmap manifest)) ims /\ ims ≡ₚ a_ordered base;
  ck_writing : exists w writing, mf_WritingSegment manifest = Some w /\
    NewWriteSegment (sm_ID w) (mf_WritingSegmentStartDocID manifest) (mf_SegmentMaxDocuments manifest) = Ok writing /\
    a_writing base = Some writing;
  ck_plain : pebble_free (mf_IDMap manifest)
}.

Lemma stable_keeps d d' n a : keeps d d' -> stable d n a -> stable d' n a.
Proof. intros [_ F] [Hn Ht]. destruct (F n a Hn). split; auto. Qed.

Lemma stable_file_crash d d' n content :
  disk_crash d d' -> stable d n (RegularFile (whole_file content)) -> stable d' n (RegularFile (whole_file content)).
Proof.
  intros Hc [Hn Ht]. destruct (disk_crash_kept d d' n _ Hc Hn Ht) as (a' & Ha & Hac & Ht').
  apply whole_file_crash in Hac as ->. by split.
Qed.
Lemma stable_pebble_crash d d' n db : disk_crash d d' -> stable d n (PebbleDir db) -> stable d' n (PebbleDir db).
Proof.
  intros Hc [Hn Ht]. destruct (disk_crash_kept d d' n _ Hc Hn Ht) as (a' & Ha & Hac & Ht').
  apply pebble_crash in Hac as ->. by split.
Qed.

(** What holds of the artifacts of a checkpoint holds wherever they are found. *)
Lemma checkpoint_transfer d d' manifest base :
  (forall n content, n ∈ checkpoint_files manifest -> stable d n (RegularFile (whole_file content)) -> stable d' n (RegularFile (whole_file content))) ->
  (forall n db, n ∈ checkpoint_files manifest -> stable d n (PebbleDir db) -> stable d' n (PebbleDir db)) ->
  checkpoint_on_disk d manifest base -> checkpoint_on_disk d' manifest base.
Proof.
  intros Hf Hp [C1 C2 (ck & Hck & Hck') (file & Hfile & Hfile') (ims & Hims & Hall & Hperm) C6 C7]. split; try done.
  - exists ck. split; [apply Hp; [by left|done]|done].
  - exists file. split; [apply Hf; [right; by left|done]|done].
  - exists ims. split; [done|]. split; [|done]. rewrite Forall_forall in Hall |- *.
    intros im Hin. destruct (Hall im Hin) as (Hok & f & c & H1 & H2 & H3). split; [done|]. exists f, c. split; [done|].
    split; [|done]. apply Hf; [|done]. do 2 right. rewrite Hims. apply list_elem_of_join. exists (sm_Files (im_metadata im)).
    split; [rewrite H1; by left|]. apply list_elem_of_fmap. exists (im_metadata im). split; [done|]. by apply list_elem_of_fmap_2.
Qed.
Lemma checkpoint_keeps d d' manifest base :
  keeps d d' -> checkpoint_on_disk d manifest base -> checkpoint_on_disk d' manifest base.
Proof. intros Hk. apply checkpoint_transfer; intros; by eapply stable_keeps. Qed.
Lemma checkpoint_crash d d' manifest base :
  disk_crash d d' -> checkpoint_on_disk d manifest base -> checkpoint_on_disk d' manifest base.
Proof. intros Hc. apply checkpoint_transfer; intros; [by eapply stable_file_crash|by eapply stable_pebble_crash]. Qed.
Lemma checkpoint_put d n a manifest base :
  n ∉ checkpoint_files manifest -> checkpoint_on_disk d manifest base -> checkpoint_on_disk (disk_put n a d) manifest base.
Proof.
  intros Hn. apply checkpoint_transfer; intros k x Hk [H1 H2]; (split; [|done]); cbn;
    rewrite lookup_insert_ne; (done || congruence).
Qed.
(** The part of the manifest that describes the checkpoint and its log. *)
Definition checkpoint_part (manifest : Manifest) :=
  (mf_EnableMmap manifest, mf_SegmentMaxDocuments manifest, mf_PersistedSegments manifest, mf_WritingSegment manifest,
   mf_WritingSegmentStartDocID manifest, mf_IDMap manifest, mf_DeleteSnapshotGeneration manifest).

Lemma checkpoint_same d manifest manifest' base :
  checkpoint_part manifest' = checkpoint_part manifest -> checkpoint_on_disk d manifest base -> checkpoint_on_disk d manifest' base.
Proof.
  intros [= H1 H2 H3 H4 H5 H6 H7] [C1 C2 C3 C4 C5 C6 C7]. split; unfold validateLifecycleManifest, checkpoint_files in *;
    rewrite ?H1, ?H2, ?H3, ?H4, ?H5, ?H6, ?H7; done.
Qed.

(** The artifacts of a checkpoint are there. *)
Lemma checkpoint_present d manifest base n :
  checkpoint_on_disk d manifest base -> n ∈ checkpoint_files manifest -> is_Some (dk_files d !! n).
Proof.
  intros [_ _ (ck & [Hck _] & _) (file & [Hfile _] & _) (ims & Hims & Hall & _) _ _] Hn.
  apply elem_of_cons in Hn as [->|Hn]; [by rewrite Hck|]. apply elem_of_cons in Hn as [->|Hn]; [by rewrite Hfile|].
  rewrite Hims in Hn. apply list_elem_of_join in Hn as (l & Hn & (md & -> & (im & -> & Him)%list_elem_of_fmap)%list_elem_of_fmap).
  rewrite Forall_forall in Hall. destruct (Hall im Him) as (_ & f & c & Hf & [Hst _] & _). rewrite Hf in Hn.
  apply list_elem_of_singleton in Hn as ->. by rewrite Hst.
Qed.
(** None of them lies in a [.pebble] directory. *)
Lemma checkpoint_plain d manifest base n : checkpoint_on_disk d manifest base -> n ∈ checkpoint_files manifest -> pebble_free n.
Proof.
  intros [_ _ _ _ (ims & Hims & Hall & _) _ Hp] Hn.
  apply elem_of_cons in Hn as [->|Hn]; [done|]. apply elem_of_cons in Hn as [->|Hn]; [apply plain_deletes|].
  rewrite Hims in Hn. apply list_elem_of_join in Hn as (l & Hn & (md & -> & (im & -> & Him)%list_elem_of_fmap)%list_elem_of_fmap).
  rewrite Forall_forall in Hall. destruct (Hall im Him) as (_ & f & c & Hf & _ & Hpf & _). rewrite Hf in Hn.
  by apply list_elem_of_singleton in Hn as ->.
Qed.

(** ** Opening a checkpoint *)
Lemma read_file_stable d n f : stable d n (RegularFile f) -> read_file d n = Some (f_content f).
Proof. intros [Hn _]. unfold read_file. by rewrite Hn. Qed.

(** The loop that opens the segments, [rest] of those of [M] being left. *)
Lemma open_segments_ok d mmap (M : SegmentManager unit) rest m :
  sg_inv M -> Forall (segment_on_disk d mmap) rest -> sg_inv m -> sg_writing m = None ->
  sg_ordered m ++ rest ≡ₚ sg_ordered M ->
  exists m', open_segments dir CtxLive d mmap (im_metadata <$> rest) m = Ok m' /\ sg_inv m' /\ sg_writing m' = None /\
    sg_ordered m' ≡ₚ sg_ordered M /\ sg_primaryKey m' = sg_primaryKey m /\ sg_deletes m' = sg_deletes m.
Proof.
  intros HM Hall. revert m. induction Hall as [|im rest (Hok & f & c & Hf & Hst & _ & Hopen) Hall IH]; intros m Hm Hw Hp.
  { exists m. rewrite app_nil_r in Hp. done. }
  cbn [fmap list_fmap open_segments]. unfold first_file. rewrite Hf, (read_file_stable d f _ Hst), Hopen.
  assert (NoDup (sg_ordered m ++ im :: rest)) as Hnd by (rewrite Hp; by apply sg_NoDup).
  assert (Hin : forall t, t ∈ sg_ordered m -> t ∈ sg_ordered M /\ t <> im).
  { intros t Ht. split; [rewrite <- Hp; apply elem_of_app; by left|]. intros ->.
    apply NoDup_app in Hnd as (_ & Hnd & _). apply (Hnd im Ht). by left. }
  assert (im ∈ sg_ordered M) as HimM by (rewrite <- Hp; apply elem_of_app; right; by left).
  assert (AddImmutable im m = (sg_install m im, None)) as Hadd.
  { apply AddImmutable_ok; [done|done| | |by rewrite Hw].
    - apply Forall_forall. intros t Ht. destruct (Hin t Ht) as [HtM Hne]. intros Hid. by apply Hne, (sg_ordered_unique M).
    - apply Forall_forall. intros t Ht. destruct (Hin t Ht) as [HtM Hne]. by apply (sg_apart M). }
  rewrite Hadd. destruct (AddImmutable_inv m im _ Hm Hok Hadd) as (Hm1 & Hw1 & Ho1).
  destruct (IH (sg_install m im) Hm1) as (m' & H1 & H2 & H3 & H4 & H5 & H6); [by rewrite Hw1| |by exists m'].
  rewrite Ho1, insertOrdered_perm, <- Hp. cbn [app]. by rewrite Permutation_middle.
Qed.

Lemma same_segments m (M : SegmentManager unit) :
  sg_inv m -> sg_inv M -> sg_ordered m ≡ₚ sg_ordered M ->
  sg_ordered m = sg_ordered M /\ sg_immutable m = sg_immutable M.
Proof.
  intros Hm HM Hp. assert (sg_ordered m = sg_ordered M) as Heq.
  { apply ordered_unique; [apply (si_ok m Hm)|apply (si_ordered m Hm)|apply (si_ordered M HM)|done]. }
  split; [done|]. apply map_eq. intros id. apply option_eq. intros s. by rewrite (si_map m Hm), (si_map M HM), Heq.
Qed.

Hypothesis Hopens : store_opens DB.

Lemma a_writing_fresh base w :
  a_inv base -> a_writing base = Some w -> ws_inv w /\ Forall (fun t => im_ID t <> ws_id w /\ ws_apart w t) (a_ordered base).
Proof.
  intros Ha Hw. destruct (si_writing _ (ai_sg _ Ha) w Hw) as (Hwi & Hid & Hap). split; [done|]. cbn in *.
  rewrite Forall_forall in Hap |- *. intros t Ht. split; [|by apply Hap]. intros Heq.
  assert (a_immutable base !! im_ID t = Some t) as Ht' by (by apply (si_map _ (ai_sg _ Ha))). rewrite Heq in Ht'.
  change (sg_immutable (a_mgr base)) with (a_immutable base) in Hid. congruence.
Qed.

Lemma open_checkpoint_ok d manifest base (readOnly : bool) :
  checkpoint_on_disk d manifest base ->
  exists m, open_checkpoint dir CtxLive readOnly d manifest = Ok m /\ abs m = base /\ idmap_inv (sg_primaryKey m) /\
    sg_writing m <> None.
Proof.
  intros [Hinv _ (ck & [Hck _] & Hents & Hview) (file & Hfile & Hload) (ims & Hims & Hall & Hperm) (w & writing & Hw & Hnew & Hwr) _].
  unfold open_checkpoint, read_pebble. rewrite Hck.
  destruct (proj1 Hopens ck) as (db & Hopen). pose proof (proj2 Hopens db) as Hit.
  destruct (kv_Iter db) as [l err] eqn:Eit. cbn in Hit. subst err. rename Eit into Hit.
  destruct (idmap_open_entries ck db l Hents Hopen Hit) as (m1 & m2 & H1 & H2).
  assert (exists pk, (if readOnly then OpenPrimaryKeyMapReadOnly CtxLive ck else OpenPrimaryKeyMap CtxLive ck) = Ok pk /\
    idmap_inv pk /\ idmap_view pk = a_view base) as (pk & -> & Hpi & Hpv).
  { rewrite <- Hview. destruct readOnly; [exists m2|exists m1]; (split; [done|]);
      [by apply OpenPrimaryKeyMapReadOnly_spec|by apply OpenPrimaryKeyMap_spec]. }
  rewrite (read_file_stable d _ _ Hfile). cbn [f_content whole_file]. rewrite Hload, Hims.
  assert (sg_inv (NewSegmentManager pk (a_deletes base))) as Hm0.
  { split; cbn; [constructor|constructor| |done]. intros id s. rewrite lookup_empty. split; [done|]. by intros [?%elem_of_nil _]. }
  destruct (open_segments_ok d (mf_EnableMmap manifest) (a_mgr base) ims _ (ai_sg _ Hinv) Hall Hm0 eq_refl Hperm)
    as (m & -> & Hm & Hwn & Ho & Hpk & Hd). rewrite Hw, Hnew.
  destruct (same_segments m (a_mgr base) Hm (ai_sg _ Hinv) Ho) as [Hord Himm].
  destruct (a_writing_fresh base writing Hinv Hwr) as [Hwi Hall'].
  rewrite (SetWriting_ok m writing Hm Hwi Hwn) by (rewrite Hord; exact Hall').
  exists (sg_set_writing m (Some writing)). split; [done|]. split; [|split; [|done]].
  - unfold abs. cbn. rewrite Hord, Himm, Hpk, Hd. cbn [sg_primaryKey sg_deletes NewSegmentManager]. rewrite Hpv, <- Hwr.
    by destruct base.
  - cbn. by rewrite Hpk.
Qed.
End on_disk.
