(* ===== verification/Preparation.v ===== *)
(** * What a checkpoint is prepared from

    [Flush], [CreateCollection] and [RewriteDocuments] write the artifacts of
    the next checkpoint under new names before they publish its manifest.  This
    file gives each step its precondition and outcome on the disk, and shows
    that what they prepare is a checkpoint of the rotated segments, while
    everything that was on the disk stays. *)
From S2P Require Import Prelude Bytes Utf8 KeyStore IdMap FileIO Wal Paths Snapshot Json JsonText Names Manifest ManifestFile ManifestJson VersionManager Segment SegmentManager WriteEngine Recovery Durability Rotation Storage Collection Checkpoint.
#[local] Open Scope string_scope.
#[local] Open Scope list_scope.
#[local] Open Scope Z_scope.

(** ** Names are ASCII *)
Lemma ascii_app a b : ascii_string a -> ascii_string b -> ascii_string (a ++ b)%string.
Proof.
  intros Ha Hb. unfold ascii_string in *. induction a as [|c a IH]; [done|]. change (String c a ++ b)%string with (String c (a ++ b)%string).
  rewrite bs_cons in *. apply Forall_cons in Ha as [Hc Ha]. constructor; [done|by apply IH].
Qed.
Lemma ascii_pad20 n : ascii_string (pad20 n).
Proof.
  eapply Forall_impl; [apply (dec_digits_digits 20 n)|]. intros b Hb. unfold json_digit in Hb. lia.
Qed.
Lemma ascii_names id g :
  ascii_string (segmentFileName id g) /\ ascii_string (walFileName id g) /\ ascii_string (IDMapCheckpointName g).
Proof. repeat split; repeat apply ascii_app; try apply ascii_pad20; repeat constructor; vm_compute; reflexivity. Qed.

Section preparation.
Context {DB : Type} `{Hkv : KVStore DB} {Hlaws : KVStoreLaws DB}.
Context (dir : string) (Hdir : dir <> "").
Implicit Types (d : disk DB) (m : SegmentManager DB) (s : storage_state DB).

(** An artifact was created since [s]: it is stable, and what was there is kept. *)
Definition created (n : string) (a : artifact DB) s s' : Prop :=
  dk_files (ss_disk s) !! n = None /\ keeps (ss_disk s) (ss_disk s') /\ stable (ss_disk s') n a /\ ss_created s' = ss_created s.

Lemma created_intro n a s s' : created_artifact n a s s' -> created n a s s'.
Proof. intros (H1 & H2 & H3 & H4 & H5). by split. Qed.

Lemma wrap_err_Ok {A} text (r : result A) x : wrap_err text r = Ok x -> r = Ok x.
Proof. by destruct r. Qed.

Lemma swp_snapshot d0 io text w mmap relative s (Q : ImmutableSegment -> storage_state DB -> Prop) :
  fresh_state d0 s ->
  (forall im file w' s', writeImmutable CtxLive dir relative false mmap w = (w', Ok (im, file)) ->
     created relative (RegularFile (whole_file file)) s s' -> Q im s') ->
  swp d0 (snapshot_writing dir CtxLive io text w mmap relative) s Q.
Proof.
  intros Hs HQ. apply swp_bind, swp_lift; [done|]. intros [im file] Hsnap%wrap_err_Ok Hs1.
  apply swp_bind, swp_create_artifact; [done|]. intros s' Hc Hs'. apply swp_ret; [done|].
  unfold SnapshotWithMmap in Hsnap.
  destruct (writeImmutable CtxLive dir relative false mmap w) as [w' r] eqn:E. cbn in Hsnap. subst r.
  by apply (HQ im file w'); [|apply created_intro].
Qed.

Lemma swp_checkpoint_idmap d0 io text pk n s (Q : DB -> storage_state DB -> Prop) :
  fresh_state d0 s -> idmap_inv pk ->
  (forall db s', entries_ok db -> base_view db = idmap_view pk -> created n (PebbleDir db) s s' -> Q db s') ->
  swp d0 (checkpoint_idmap CtxLive io text pk n) s Q.
Proof.
  intros Hs Hpk HQ. apply swp_bind, swp_lift; [done|]. intros db Hck%wrap_err_Ok Hs1.
  apply swp_bind, swp_create_artifact; [done|]. intros s' Hc Hs'. apply swp_ret; [done|].
  destruct (idmap_Checkpoint_view pk db Hpk Hck). apply HQ; [done|done|by apply created_intro].
Qed.

Lemma swp_write_deletes d0 io text (deletes : DeleteStore) n s (Q : unit -> storage_state DB -> Prop) :
  fresh_state d0 s -> (forall id, id ∈ deletes -> is_u64 id) ->
  (forall file s', (forall err, LoadDeleteStore CtxLive (Some file) err = Ok deletes) ->
     created n (RegularFile (whole_file file)) s s' -> Q tt s') ->
  swp d0 (write_deletes CtxLive io text deletes n) s Q.
Proof.
  intros Hs Hu HQ. apply swp_bind, swp_check; [done|]. intros _ _.
  apply swp_bind, swp_lift; [done|]. intros file Hf%wrap_err_Ok Hs1.
  apply swp_create_artifact; [done|]. intros s' Hc. apply (HQ file); [|by apply created_intro].
  pose proof (delete_snapshot_spec deletes Hu) as Hsp. rewrite Hf in Hsp. destruct (_ <? _); [done|].
  by destruct Hsp as (file' & [= <-] & ?).
Qed.

(** A new log is empty and complete. *)
Definition new_log (w : WAL) (syncEvery : Z) : Prop := fresh_log w syncEvery [].

Lemma swp_create_log d0 walIO io se text path s (Q : WAL -> storage_state DB -> Prop) :
  fresh_state d0 s ->
  (forall w s', new_log w se -> created path (RegularFile (w_file w)) s s' -> Q w s') ->
  swp d0 (create_log CtxLive walIO io se text path) s Q.
Proof.
  intros Hs HQ. unfold swp, create_log. destruct (CreateWAL CtxLive false walIO se) as [w|e] eqn:Ew.
  - apply (swp_bind d0 (create_artifact io text path (RegularFile (w_file w))) (fun _ => storage_ret w) s Q).
    apply swp_create_artifact; [done|]. intros s' Hc Hs'. apply swp_ret; [done|].
    apply HQ; [by eapply CreateWAL_fresh|by apply created_intro].
  - set (io' := {| ai_stat := ai_stat io; ai_write := Some e; ai_left := ai_left io |}).
    pose proof (swp_create_artifact d0 io' text path (RegularFile (whole_file [])) s (fun _ _ => True) Hs ltac:(done)) as Hf.
    unfold swp in Hf. destruct (create_artifact io' _ _ _ _) as [tr [s' r]]. by destruct Hf as (? & ? & _).
Qed.

(** ** The next checkpoint *)
Lemma rewriteNext_spec m w n :
  sg_writing m = Some w -> ws_inv w -> rewriteNextDocumentID m = Ok n ->
  is_u64 n /\ ws_minDocID w + zlen (ws_docs w) <= n.
Proof.
  intros Hw Hi H. unfold rewriteNextDocumentID in H. rewrite Hw in H. destruct (wi_range w Hi) as (R1 & R2 & R3).
  pose proof (zlen_nonneg (ws_docs w)) as Hz. pose proof (wi_capacity w Hi) as Hc. unfold NextDocumentID in H.
  destruct (ws_sealed w); [done|]. destruct (ws_maxDocs w <=? zlen (ws_docs w)) eqn:E; to_prop.
  - change (errors_Is ErrSegmentFull ErrSegmentFull) with true in H. cbn [negb] in H. rewrite ReservedRange_spec in H by done. cbn [snd] in H.
    case_in H; [done|]. to_prop. injection H as <-. unfold is_u64, u64_max in *. lia.
  - injection H as <-. rewrite ws_next_id by done. unfold is_u64, u64_max in *. lia.
Qed.

(** The state that [Flush] starts from: the manifest [current] and the artifacts
    of the checkpoint, with the same immutable segments as [m]. *)
Record prepare_pre d (current : Manifest) m (w : WriteSegment) : Prop := {
  pp_inv : a_inv (abs m);
  pp_idmap : idmap_inv (sg_primaryKey m);
  pp_writing : sg_writing m = Some w;
  pp_segments : exists ims, mf_PersistedSegments current = im_metadata <$> ims /\
    Forall (segment_on_disk dir d (mf_EnableMmap current)) ims /\ ims ≡ₚ sg_ordered m;
  pp_ids : ws_id w < mf_NextSegmentID current /\ Forall (fun t => im_ID t < mf_NextSegmentID current) (sg_ordered m);
  pp_encodable : manifest_encodable current
}.

(** A prepared flush: the rotation, and its checkpoint on the disk. *)
Record next_checkpoint d m (w : WriteSegment) (se : Z) (p : prepared) : Prop := {
  nc_rotation : rotation m w (pr_immutable p) (pr_nextWriting p);
  nc_primary : idmap_inv (pr_primary p) /\ idmap_view (pr_primary p) = a_view (abs m);
  nc_wal : new_log (pr_wal p) se;
  nc_path : mf_WritingSegment (pr_manifest p) = Some (writing_metadata (ws_id (pr_nextWriting p)) (pr_walPath p)) /\
    pr_walPath p ∉ checkpoint_files (pr_manifest p) /\ pebble_free (pr_walPath p);
  nc_log : stable d (pr_walPath p) (RegularFile (w_file (pr_wal p)));
  nc_checkpoint : forall m', rotate_segments m w (pr_immutable p) (pr_nextWriting p) = (m', None) ->
    checkpoint_on_disk dir d (pr_manifest p) (abs (ReplacePrimaryKeys (pr_primary p) m'));
  nc_encodable : manifest_encodable (pr_manifest p)
}.

(** The immutable copy of the write segment, if it has documents. *)
Definition snapshot_of d (w : WriteSegment) (mmap : bool) (relative : string) (im : option ImmutableSegment) : Prop :=
  match im with
  | Some s => segment_on_disk dir d mmap s /\ im_docs s = ws_docs w /\ im_ID s = ws_id w /\ im_min s = ws_minDocID w /\
              im_metadata s = segmentMetadata (ws_id w) (ws_docs w) [relative] /\ zlen (ws_docs w) <= maxSegmentPayloadSize
  | None => ws_docs w = []
  end.

Lemma snapshot_file d w mmap relative im file w' :
  ws_inv w -> writeImmutable CtxLive dir relative false mmap w = (w', Ok (im, file)) -> pebble_free relative ->
  stable d relative (RegularFile (whole_file file)) -> snapshot_of d w mmap relative (Some im).
Proof.
  intros Hw H Hplain Hst. destruct (writeImmutable_file dir relative mmap w w' im file Hdir Hw H) as (_ & H1 & H2 & H3 & H4 & H5 & H6 & H7).
  split; [|done]. split; [done|]. exists relative, file. by rewrite H5 at 1.
Qed.

Lemma segment_on_disk_keeps d d' mmap im : keeps d d' -> segment_on_disk dir d mmap im -> segment_on_disk dir d' mmap im.
Proof.
  intros Hk (H1 & f & c & H2 & H3 & H4). split; [done|]. exists f, c. split; [done|]. split; [by eapply stable_keeps|done].
Qed.

Lemma snapshot_of_keeps d d' w mmap relative im : keeps d d' -> snapshot_of d w mmap relative im -> snapshot_of d' w mmap relative im.
Proof. intros Hk. destruct im as [s|]; [|done]. intros [H1 H2]. split; [by eapply segment_on_disk_keeps|done]. Qed.

Lemma deletes_u64 m id : a_inv (abs m) -> sg_writing m <> None -> id ∈ sg_deletes m -> is_u64 id.
Proof. intros Ha Hw (d & Hd & <-)%(ai_deletes _ Ha). by apply (stored_u64 (abs m)). Qed.

(** The manifest of a checkpoint passes the checks of opening. *)
Lemma checkpoint_lifecycle current schema segments indexes writingID nextDocID walRel idMapRel deletes nextID :
  mf_SegmentMaxDocuments current <> 0 -> idMapRel <> "" -> deletes <> 0 ->
  Forall (fun md => sm_MaxDocID md < nextDocID) segments ->
  validateLifecycleManifest (checkpoint_manifest current schema segments indexes writingID nextDocID walRel idMapRel deletes nextID) = Ok tt.
Proof.
  intros Hcap Hne Hd Hall. unfold validateLifecycleManifest. cbn. apply Z.eqb_neq in Hcap as ->. apply String.eqb_neq in Hne as ->.
  apply Z.eqb_neq in Hd as ->. cbn. change (zlen [walRel] =? 1) with true. cbn.
  match goal with |- context [existsb ?f ?l] => destruct (existsb f l) eqn:E end; [|done].
  exfalso. apply existsb_exists in E as (md & Hin%list_elem_of_In & Hb). rewrite Forall_forall in Hall. specialize (Hall md Hin).
  apply andb_true_iff in Hb as [_ Hb]. to_prop. lia.
Qed.

(** The metadata of a snapshot can be encoded. *)
Lemma snapshot_encodable w t segID segGen :
  ws_inv w -> im_ok t -> im_docs t = ws_docs w -> im_min t = ws_minDocID w ->
  im_metadata t = segmentMetadata (ws_id w) (ws_docs w) [segmentFileName segID segGen] ->
  zlen (ws_docs w) <= maxSegmentPayloadSize -> segment_encodable (im_metadata t).
Proof.
  intros Hw Hok Hd Hmin Hmd Hlen. destruct (wi_range w Hw) as (R1 & R2 & R3).
  pose proof (wi_capacity w Hw). pose proof (wi_id w Hw) as Hid. pose proof (io_max t Hok) as Hmax. pose proof (io_count t Hok) as Hc.
  pose proof (im_ok_range t Hok) as Hr. rewrite Hd in Hmax, Hc. pose proof (zlen_nonneg (ws_docs w)). unfold maxSegmentPayloadSize in Hlen.
  split; [by rewrite Hmd|]. unfold im_min, im_max in *.
  split; [unfold is_u64, u64_max in *; lia|]. split; [unfold is_u64, u64_max in *; lia|].
  split; [unfold is_u64, u64_max in *; lia|]. rewrite Hmd. constructor; [apply ascii_names|constructor].
Qed.

(** The checkpoint that the prepared artifacts make. *)
Lemma prepared_checkpoint d current m w schema indexes nextDocID next im segRel idMapRel db pk deletes file walRel nextID :
  prepare_pre d current m w -> rewriteNextDocumentID m = Ok nextDocID ->
  NewWriteSegment (mf_NextSegmentID current) nextDocID (mf_SegmentMaxDocuments current) = Ok next ->
  snapshot_of d w (mf_EnableMmap current) segRel im ->
  stable d idMapRel (PebbleDir db) -> idMapRel <> "" -> pebble_free idMapRel -> entries_ok db -> base_view db = a_view (abs m) ->
  idmap_view pk = base_view db ->
  stable d (DeleteSnapshotName deletes) (RegularFile (whole_file file)) -> deletes <> 0 ->
  (forall err, LoadDeleteStore CtxLive (Some file) err = Ok (sg_deletes m)) ->
  rotation m w im next /\ forall m', rotate_segments m w im next = (m', None) ->
    checkpoint_on_disk dir d (checkpoint_manifest current schema (mf_PersistedSegments current ++ option_list (im_metadata <$> im))
      indexes (mf_NextSegmentID current) nextDocID walRel idMapRel deletes nextID) (abs (ReplacePrimaryKeys pk m')).
Proof.
  intros [Ha Hi Hw (ims & Hims & Hall & Hperm) [Hidw Hids] Henc] Hnext Hnew Hsnap Hidm Hne Hplain Hents Hview Hpk Hdel Hdne Hload.
  pose proof (si_writing _ (ai_sg _ Ha) w Hw) as (Hwi & _ & _).
  destruct (rewriteNext_spec m w nextDocID Hw Hwi Hnext) as [Hn64 Hle].
  destruct (NewWriteSegment_inv _ _ _ _ (me_next _ Henc) Hn64 (me_capacity _ Henc) Hnew) as (Hni & Hnd & _ & Hnid & Hnmin & Hnmax).
  assert (Hcap : mf_SegmentMaxDocuments current <> 0).
  { intros Hz. unfold NewWriteSegment in Hnew. rewrite Hz in Hnew. done. }
  assert (rotation m w im next) as Hrot.
  { split; [done| |rewrite Hnmin; done| |apply (ai_order _ Ha w Hw)].
    - destruct im as [t|]; [|done]. destruct Hsnap as ([Hok _] & H1 & H2 & H3 & _). done.
    - rewrite Hnid. split; [lia|]. eapply Forall_impl; [exact Hids|]. intros t Ht. cbn in Ht. lia. }
  split; [done|]. intros m' Hm'.
  assert (idmap_view pk = a_view (abs m)) as Hpk' by congruence.
  destruct (rotate_abs m w im next pk Ha Hrot Hpk') as (m2 & Hm2 & Ha2 & _ & Hw2 & Hd2 & Ho2).
  rewrite Hm' in Hm2. injection Hm2 as <-.
  assert (Hims' : Forall (segment_on_disk dir d (mf_EnableMmap current)) (ims ++ option_list im)).
  { apply Forall_app. split; [done|]. destruct im as [t|]; [|constructor]. constructor; [apply Hsnap|constructor]. }
  assert (ims ++ option_list im ≡ₚ sg_ordered m') as Hperm' by (rewrite Ho2, Hperm; apply Permutation_app_comm).
  assert (mf_PersistedSegments current ++ option_list (im_metadata <$> im) = im_metadata <$> (ims ++ option_list im)) as Hpers.
  { rewrite fmap_app, Hims. by destruct im. }
  split; cbn [checkpoint_manifest mf_IDMap mf_DeleteSnapshotGeneration mf_PersistedSegments mf_EnableMmap mf_WritingSegment
    mf_WritingSegmentStartDocID mf_SegmentMaxDocuments].
  - done.
  - apply checkpoint_lifecycle; [done..|]. rewrite Hpers. apply Forall_fmap. rewrite Hperm'.
    rewrite <- Hnmin. exact (ai_order _ Ha2 next Hw2).
  - exists db. split; [done|]. split; [done|]. cbn. by rewrite <- Hpk.
  - exists file. split; [done|]. cbn in Hd2 |- *. by rewrite Hd2.
  - exists (ims ++ option_list im). by split.
  - exists (writing_metadata (mf_NextSegmentID current) walRel), next. done.
  - done.
Qed.

(** Its manifest can be encoded. *)
Lemma prepared_encodable current w schema nextDocID segID segGen gen im wgen g2 :
  manifest_encodable current -> schema_nested schema -> is_u64 nextDocID -> is_u64 g2 ->
  mf_NextSegmentID current <> u64_max ->
  (forall t, im = Some t -> ws_inv w /\ im_ok t /\ im_docs t = ws_docs w /\ im_min t = ws_minDocID w /\ im_metadata t = segmentMetadata (ws_id w) (ws_docs w) [segmentFileName segID segGen] /\
     zlen (ws_docs w) <= maxSegmentPayloadSize) ->
  manifest_encodable (checkpoint_manifest current schema (mf_PersistedSegments current ++ option_list (im_metadata <$> im))
    (mf_SegmentIndexSnapshots current) (mf_NextSegmentID current) nextDocID (walFileName (mf_NextSegmentID current) wgen)
    (IDMapCheckpointName gen) g2 (mf_NextSegmentID current + 1)).
Proof.
  intros [E1 E2 E3 E4 E5 E6 E7 E8 E9 E10] Hs Hn Hg Hne Him.
  unfold all_segments in E5. apply Forall_app in E5 as [E5 _].
  split; cbn [checkpoint_manifest mf_FormatVersion mf_Generation mf_Schema mf_SegmentMaxDocuments mf_WritingSegmentStartDocID
    mf_IDMap mf_DeleteSnapshotGeneration mf_NextSegmentID mf_SegmentIndexSnapshots]; try done.
  - unfold all_segments. cbn [checkpoint_manifest mf_PersistedSegments mf_WritingSegment]. rewrite <- app_assoc.
    apply Forall_app. split; [done|]. apply Forall_app. split.
    + destruct im as [t|]; [|constructor]. constructor; [|constructor].
      destruct (Him t eq_refl) as (Hw & Hok & Hd & Hmin & Hmd & Hlen). by apply (snapshot_encodable w t segID segGen).
    + constructor; [|constructor]. split; [done|]. do 3 (split; [done|]). constructor; [|constructor]. apply (ascii_names _ wgen).
  - apply ascii_names; exact 0.
  - unfold is_u64 in *. lia.
Qed.

(** Stability along the steps that follow. *)
Lemma created_stable n a s s' : created n a s s' -> stable (ss_disk s') n a.
Proof. by intros (_ & _ & ? & _). Qed.
Lemma created_keeps n a s s' : created n a s s' -> keeps (ss_disk s) (ss_disk s').
Proof. by intros (_ & ? & _). Qed.
Lemma created_free n a d0 s s' : created n a s s' -> fresh_state d0 s -> dk_files d0 !! n = None.
Proof. intros (Hn & _ & _) [Hk _]. by eapply keeps_free. Qed.

Lemma prepare_pre_keeps d d' current m w : keeps d d' -> prepare_pre d current m w -> prepare_pre d' current m w.
Proof.
  intros Hk [H1 H2 H3 (ims & H4 & H5 & H6) H7 H8]. split; try done. exists ims. split; [done|]. split; [|done].
  eapply Forall_impl; [exact H5|]. intros im. by apply segment_on_disk_keeps.
Qed.

Lemma swp_flush_segment d0 io text w mmap relative s (Q : option ImmutableSegment -> storage_state DB -> Prop) :
  fresh_state d0 s -> ws_inv w -> dk_files (ss_disk s) !! relative = None -> pebble_free relative ->
  (forall im s', keeps (ss_disk s) (ss_disk s') -> snapshot_of (ss_disk s') w mmap relative im -> Q im s') ->
  swp d0 (if sm_DocCount (ws_Metadata w) =? 0 then storage_ret None
          else _ ← creating relative; im ← snapshot_writing dir CtxLive io text w mmap relative; storage_ret (Some im)) s Q.
Proof.
  intros Hs Hw Hfree Hplain HQ. destruct (sm_DocCount (ws_Metadata w) =? 0) eqn:E; to_prop.
  - apply swp_ret; [done|]. apply HQ; [done|]. by apply zlen_0_nil.
  - assert (dk_files d0 !! relative = None) as Hfree0 by (eapply keeps_free; [apply Hs|done]).
    apply swp_bind, swp_creating; [done|done|]. intros Hs1.
    apply swp_bind, swp_snapshot; [done|]. intros im file w' s' Hwr Hc Hs2. apply swp_ret; [done|].
    apply HQ; [exact (created_keeps _ _ _ _ Hc)|]. apply (snapshot_file _ w mmap relative im file w'); [done|done|done|exact (created_stable _ _ _ _ Hc)].
Qed.

Lemma swp_flush_prepare io c w d :
  let current := reserved_manifest c in
  prepare_pre d current (c_manager c) w ->
  swp d (flush_prepare dir CtxLive io c w) {| ss_disk := d; ss_created := [] |}
    (fun p s => next_checkpoint (ss_disk s) (c_manager c) w (w_SyncEvery (c_wal c)) p /\
       dk_files d !! pr_walPath p = None /\ mf_Schema (pr_manifest p) = mf_Schema current /\
       mf_EnableMmap (pr_manifest p) = mf_EnableMmap current /\
       forall n, n ∈ checkpoint_files (pr_manifest p) -> n ∈ checkpoint_files current \/ dk_files d !! n = None).
Proof.
  intros current Hpre. set (m := c_manager c) in *. pose proof Hpre as [Ha Hi Hw _ _ Henc].
  pose proof (si_writing _ (ai_sg _ Ha) w Hw) as (Hwi & _ & _). pose proof (me_generation _ Henc) as Hg64.
  unfold flush_prepare. fold m current.
  assert (fresh_state d {| ss_disk := d; ss_created := [] |}) as Hs0 by (split; [done|constructor]).
  apply swp_bind, swp_check; [done|]. intros Hnext _.
  apply swp_bind, swp_lift; [done|]. intros nextDocID Hdoc _.
  apply swp_bind, swp_lift; [done|]. intros next Hnew _.
  apply swp_bind, swp_check; [done|]. intros Hgen _.
  set (generation := mf_Generation current + 1).
  destruct (mf_NextSegmentID current =? u64_max) eqn:En; [done|]. destruct (mf_Generation current =? u64_max) eqn:Eg; [done|]. to_prop.
  assert (generation <= u64_max) as Hgle by (unfold generation, is_u64 in *; lia).
  apply swp_bind, swp_available; [done|done|]. intros segRel gs Hsegfree Hgs Hseg Hs1.
  apply swp_bind, swp_flush_segment; [done|done|done|rewrite Hseg; apply plain_segment|]. intros im s2 Hk2 Hsnap Hs2.
  apply swp_bind, swp_available; [done|done|]. intros idmRel gi Hidmfree Hgi Hidm _.
  pose proof (keeps_free _ _ _ (fs_keeps _ _ Hs2) Hidmfree) as Hidm0.
  apply swp_bind, swp_checkpoint_idmap; [done|done|]. intros db s3 Hents Hview Hc3 Hs3.
  apply swp_bind, swp_creating; [done|by eapply created_free|]. intros Hs4. cbn [ss_disk] in *.
  apply swp_bind, swp_lift; [done|]. intros pk Hpk%wrap_err_Ok _.
  apply swp_bind, swp_delete_generation; [done|apply Henc|]. intros g2 Hg2free Hg2 _.
  pose proof (keeps_free _ _ _ (fs_keeps _ _ Hs4) Hg2free) as Hg20.
  apply swp_bind, swp_write_deletes; [done|intros id; by apply deletes_u64; [|rewrite Hw]|]. intros file s5 Hload Hc5 Hs5.
  apply swp_bind, swp_creating; [done|by eapply created_free|]. intros Hs6.
  apply swp_bind, swp_available; [done|done|]. intros walRel gw Hwalfree Hgw Hwal _.
  apply swp_bind, swp_check; [done|]. intros _ _.
  apply swp_bind, swp_create_log; [done|]. intros log s7 Hlog Hc7 Hs7.
  apply swp_bind, swp_creating; [done|by eapply created_free|]. intros Hs8.
  apply swp_bind, swp_lift; [done|]. intros engine _ _. apply swp_ret; [done|]. cbn [ss_disk] in *.
  pose proof (created_stable _ _ _ _ Hc3) as Hst3. pose proof (created_stable _ _ _ _ Hc5) as Hst5.
  pose proof (created_keeps _ _ _ _ Hc3) as Hk3. pose proof (created_keeps _ _ _ _ Hc5) as Hk5.
  pose proof (created_keeps _ _ _ _ Hc7) as Hk7. cbn [ss_disk] in *.
  assert (Hk35 : keeps (ss_disk s2) (ss_disk s5)) by by transitivity (ss_disk s3).
  destruct (OpenPrimaryKeyMap_spec db pk Hpk) as [Hpki Hpkv].
  assert (prepare_pre (ss_disk s5) current m w) as Hpre5.
  { eapply prepare_pre_keeps; [|exact Hpre]. transitivity (ss_disk s2); [apply Hs2|done]. }
  assert (Hsnap5 : snapshot_of (ss_disk s5) w (mf_EnableMmap current) segRel im) by (by eapply snapshot_of_keeps).
  assert (Hst35 : stable (ss_disk s5) idmRel (PebbleDir db)) by exact (stable_keeps _ _ _ _ Hk5 Hst3).
  assert (Hidne : idmRel <> "") by (by rewrite Hidm).
  assert (Hidp : pebble_free idmRel) by (rewrite Hidm; apply plain_idmap).
  assert (Hg2ne : g2 <> 0) by (pose proof (me_deletes _ Henc); unfold is_u64 in *; lia).
  destruct (prepared_checkpoint (ss_disk s5) current m w (mf_Schema current) (mf_SegmentIndexSnapshots current) nextDocID next im
    segRel idmRel db pk g2 file walRel (mf_NextSegmentID current + 1) Hpre5 Hdoc Hnew Hsnap5 Hst35 Hidne Hidp Hents Hview Hpkv Hst5 Hg2ne Hload)
    as [Hrot Hck].
  destruct (rewriteNext_spec m w nextDocID Hw Hwi Hdoc) as [Hn64 _].
  destruct (NewWriteSegment_inv _ _ _ _ (me_next _ Henc) Hn64 (me_capacity _ Henc) Hnew) as (_ & _ & _ & Hnid & _).
  split; [|split; [by eapply created_free|split; [done|split; [done|]]]].
  2:{ intros n Hn. unfold checkpoint_files in Hn. cbn [pr_manifest checkpoint_manifest mf_IDMap mf_DeleteSnapshotGeneration mf_PersistedSegments] in Hn.
      apply elem_of_cons in Hn as [->|Hn]; [by right|]. apply elem_of_cons in Hn as [->|Hn]; [by right|].
      rewrite fmap_app, join_app, elem_of_app in Hn. destruct Hn as [Hn|Hn]; [left; do 2 right; exact Hn|right].
      destruct im as [t|]; [|by apply elem_of_nil in Hn]. destruct Hsnap as (_ & _ & _ & _ & Hmd & _). cbn in Hn. rewrite Hmd, app_nil_r in Hn.
      by apply list_elem_of_singleton in Hn as ->. }
  split; cbn [pr_immutable pr_nextWriting pr_primary pr_wal pr_walPath pr_manifest].
  - done.
  - split; [done|]. by rewrite Hpkv.
  - done.
  - split; [cbn; by rewrite Hnid|]. split; [|rewrite Hwal; apply plain_log]. intros Hin.
    destruct (rotate_abs m w im next pk Ha Hrot ltac:(by rewrite Hpkv)) as (m' & Hm' & _).
    destruct (checkpoint_present dir _ _ _ _ (Hck m' Hm') Hin) as [a Hx]. cbn [ss_disk] in Hwalfree. congruence.
  - exact (created_stable _ _ _ _ Hc7).
  - intros m' Hm'. eapply checkpoint_keeps; [exact Hk7|]. by apply Hck.
  - subst idmRel walRel. apply (prepared_encodable current w _ _ (ws_id w) gs); try done.
    + apply Henc.
    + unfold is_u64. pose proof (me_deletes _ Henc). unfold is_u64 in *. lia.
    + intros t ->. destruct Hsnap as ([Hok _] & H1 & H2 & H3 & H4 & H5). by rewrite <- Hseg.
Qed.

(** ** Creation *)
Lemma create_prepare_manager capacity w :
  is_u64 capacity -> NewWriteSegment 0 0 capacity = Ok w ->
  exists m, SetWriting w (NewSegmentManager CreatePrimaryKeyMap NewDeleteStore) = (m, None) /\
    sg_writing m = Some w /\ sg_primaryKey m = CreatePrimaryKeyMap /\ sg_deletes m = NewDeleteStore /\ sg_ordered m = [] /\
    a_inv (abs m) /\ contents (abs m) = ∅ /\ ws_docs w = [].
Proof.
  intros Hc Hw. destruct (NewWriteSegment_inv 0 0 capacity w) as (Hwi & Hd & _); [done..|exact Hw|].
  set (m0 := NewSegmentManager (DB := DB) CreatePrimaryKeyMap NewDeleteStore).
  assert (sg_inv m0) as Hm0.
  { split; cbn; [constructor|constructor| |done]. intros id t. rewrite lookup_empty. split; [done|]. by intros [?%elem_of_nil _]. }
  exists (sg_set_writing m0 (Some w)). split; [apply SetWriting_ok; try done; constructor|].
  destruct (CreatePrimaryKeyMap_spec (DB := DB)) as [_ Hv].
  do 4 (split; [done|]). assert (a_view (abs (sg_set_writing m0 (Some w))) = ∅) as Hview by exact Hv.
  assert (a_inv (abs (sg_set_writing m0 (Some w)))) as Ha.
  { split.
    - apply (sg_inv_a_mgr (sg_set_writing m0 (Some w))). split; cbn; [constructor|constructor|apply Hm0|].
      intros v [= <-]. split; [done|]. split; [by apply lookup_empty|constructor].
    - intros v _. constructor.
    - intros key id. rewrite Hview, lookup_empty. unfold a_stored, sg_stored. cbn. rewrite Hd. split; [done|].
      by intros (_ & x & ?%elem_of_nil & _).
    - intros id Hid. cbn in Hid. by apply elem_of_empty in Hid. }
  split; [done|]. split; [|done]. apply map_eq. intros key. rewrite lookup_empty. apply (contents_None _ _ Ha). by rewrite Hview, lookup_empty.
Qed.

(** The manifest of a new collection. *)
Definition create_manifest (schema : bytes) (options : CollectionOptions) (capacity : Z) : Manifest :=
  {| mf_FormatVersion := DiskFormatVersion; mf_Generation := 0; mf_Schema := schema;
     mf_EnableMmap := opt_EnableMmap options; mf_SegmentMaxDocuments := capacity; mf_PersistedSegments := [];
     mf_WritingSegment := Some (writing_metadata 0 (walFileName 0 1)); mf_WritingSegmentStartDocID := 0;
     mf_IDMap := IDMapCheckpointName 1; mf_DeleteSnapshotGeneration := 1; mf_NextSegmentID := 1;
     mf_SegmentIndexSnapshots := [] |}.

Lemma swp_create_prepare io schema options capacity d :
  is_u64 capacity ->
  swp d (create_prepare CtxLive io options capacity) {| ss_disk := d; ss_created := [] |} (fun '(m, wal) s =>
    new_log wal (opt_SyncEvery options) /\ stable (ss_disk s) (walFileName 0 1) (RegularFile (w_file wal)) /\
    sg_primaryKey m = CreatePrimaryKeyMap /\ (exists w, sg_writing m = Some w /\ ws_docs w = []) /\ a_inv (abs m) /\ contents (abs m) = ∅ /\
    checkpoint_on_disk dir (ss_disk s) (create_manifest schema options capacity) (abs m)).
Proof.
  intros Hcap. unfold create_prepare. destruct (CreatePrimaryKeyMap_spec (DB := DB)) as [Hpi Hpv].
  assert (fresh_state d {| ss_disk := d; ss_created := [] |}) as Hs0 by (split; [done|constructor]).
  apply swp_bind, swp_checkpoint_idmap; [done|done|]. intros db s1 Hents Hview Hc1 Hs1.
  apply swp_bind, swp_creating; [done|by eapply created_free|]. intros Hs2.
  apply swp_bind, swp_write_deletes; [done|by intros id ?%elem_of_empty|]. intros file s3 Hload Hc3 Hs3.
  apply swp_bind, swp_creating; [done|by eapply created_free|]. intros Hs4.
  apply swp_bind, swp_check; [done|]. intros _ _.
  apply swp_bind, swp_create_log; [done|]. intros wal s5 Hlog Hc5 Hs5.
  apply swp_bind, swp_creating; [done|by eapply created_free|]. intros Hs6.
  apply swp_bind, swp_lift; [done|]. intros w Hw _. cbn [ss_disk] in *.
  destruct (create_prepare_manager capacity w Hcap Hw) as (m & Hset & Hmw & Hmp & Hmd & Hmo & Ha & HC & Hwd). rewrite Hset.
  apply swp_bind, swp_check; [done|]. intros _ _. apply swp_ret; [done|]. cbn [ss_disk].
  pose proof (created_stable _ _ _ _ Hc1) as Hst1. pose proof (created_stable _ _ _ _ Hc3) as Hst3.
  pose proof (created_keeps _ _ _ _ Hc3) as Hk3. pose proof (created_keeps _ _ _ _ Hc5) as Hk5. cbn [ss_disk] in *.
  split; [done|]. split; [exact (created_stable _ _ _ _ Hc5)|]. split; [done|]. split; [by exists w|]. do 2 (split; [done|]).
  split; cbn [create_manifest mf_IDMap mf_DeleteSnapshotGeneration mf_PersistedSegments mf_EnableMmap mf_WritingSegment
    mf_WritingSegmentStartDocID mf_SegmentMaxDocuments].
  - done.
  - unfold validateLifecycleManifest. cbn. unfold NewWriteSegment in Hw. by destruct (capacity =? 0).
  - exists db. split; [by do 2 (eapply stable_keeps; [done|])|]. split; [done|]. cbn. by rewrite Hmp.
  - exists file. split; [by eapply stable_keeps|]. cbn. by rewrite Hmd.
  - exists []. split; [done|]. split; [constructor|]. cbn. by rewrite Hmo.
  - exists (writing_metadata 0 (walFileName 0 1)), w. done.
  - apply plain_idmap.
Qed.

Lemma create_encodable schema options capacity :
  schema_nested schema -> is_u64 capacity -> manifest_encodable (create_manifest schema options capacity).
Proof.
  intros Hs Hc. split; cbn; try done.
  - constructor; [|constructor]. do 4 (split; [done|]). constructor; [apply (ascii_names 0 1)|constructor].
  - apply (ascii_names 0 1).
Qed.
End preparation.
