(* ===== verification/StoreSafety.v ===== *)
(** * The invariant of an open store

    It ties the memory of a store to the checkpoint and the log on its disk.
    Opening after a crash gives such a store; writing keeps it; publishing a
    manifest, at any point of which a crash may strike, is shown to leave a disk
    that opens to the old or to the new checkpoint. *)
From S2P Require Import Prelude Bytes Utf8 KeyStore IdMap FileIO Wal Paths Snapshot Json JsonText Names Manifest ManifestFile ManifestJson VersionManager Segment SegmentManager WriteEngine Recovery Durability Rotation Storage Collection Checkpoint Preparation.
From stdpp Require Import sorting.
#[local] Open Scope string_scope.
#[local] Open Scope list_scope.
#[local] Open Scope Z_scope.

(** ** The setting

    What the theorems assume of the world around a collection: a directory
    name, the reading of repeated JSON members, the order in which Go ranges
    over a map, and a key-value store that does not fail when it is read. *)
Class Setting (DB : Type) `{KVStore DB} := {
  dir : string;
  repeated : bytes -> result Manifest;
  go_range : gmap bytes primaryKeyDelta -> list (bytes * primaryKeyDelta);
  dir_nonempty : dir <> "";
  go_range_perm : forall o, go_range o ≡ₚ map_to_list o;
  store_reliable : ~ store_fails (DB := DB);
  store_opening : store_opens DB
}.
#[export] Instance setting_json {DB} `{KVStore DB} {S : Setting DB} : ManifestJSON := go_json repeated.
#[export] Instance setting_json_laws {DB} `{KVStore DB} {S : Setting DB} : @ManifestJSONLaws setting_json := go_json_laws repeated.

Section store_safety.
Context {DB : Type} `{Hkv : KVStore DB} {Hlaws : KVStoreLaws DB} {S : Setting DB}.
Implicit Types (d : disk DB) (m : SegmentManager DB) (c : CollectionStore DB).

(** The manifest names the log at [path], which is none of its other artifacts
    and lies in no [.pebble] directory. *)
Definition names_log (manifest : Manifest) (path : string) : Prop :=
  (exists w, mf_WritingSegment manifest = Some w /\ sm_Files w = [path]) /\ path ∉ checkpoint_files manifest /\ pebble_free path.

Lemma names_log_same manifest manifest' path :
  checkpoint_part manifest' = checkpoint_part manifest -> names_log manifest path -> names_log manifest' path.
Proof.
  intros [= H1 H2 H3 H4 H5 H6 H7]. unfold names_log, checkpoint_files. by rewrite H3, H4, H6, H7.
Qed.

(** The disk holds a checkpoint for [manifest], and a log: after any crash it
    opens to the checkpoint with a prefix of [ops] applied, at least those on
    stable storage, and possibly the operation [lost] that was being logged. *)
Record held d (manifest : Manifest) (base : AbsState) (e : WriteEngine DB WAL) (ops : list writeOperation)
    (lost : option writeOperation) : Prop := {
  hd_checkpoint : checkpoint_on_disk dir d manifest base;
  hd_log : exists path f, names_log manifest path /\ stable d path (RegularFile f) /\
    f_content f = f_content (w_file (e_wal e)) /\ (f_stable (w_file (e_wal e)) <= f_stable f)%nat;
  hd_engine : engine_inv base e ops lost
}.

Lemma held_same d manifest manifest' base e ops lost :
  checkpoint_part manifest' = checkpoint_part manifest -> held d manifest base e ops lost -> held d manifest' base e ops lost.
Proof.
  intros Hs [H1 (path & f & H2 & H3) H4]. split; [by eapply checkpoint_same| |done]. exists path, f.
  split; [by eapply names_log_same|done].
Qed.
Lemma held_keeps d d' manifest base e ops lost :
  keeps d d' -> held d manifest base e ops lost -> held d' manifest base e ops lost.
Proof.
  intros Hk [H1 (path & f & H2 & H3 & H4) H5]. split; [by eapply checkpoint_keeps| |done]. exists path, f.
  split; [done|]. split; [by eapply stable_keeps|done].
Qed.
Lemma held_root r d manifest base e ops lost : held d manifest base e ops lost -> held (disk_set_root r d) manifest base e ops lost.
Proof.
  intros [H1 H2 H3]. split; [|done|done]. eapply checkpoint_transfer; [..|exact H1]; done.
Qed.

(** A writable store whose current manifest is durable and synchronized. *)
Record store_inv c d (base : AbsState) (ops : list writeOperation) (lost : option writeOperation) : Prop := {
  sv_open : c_closed c = false /\ c_readOnly c = false /\ c_poisoned c = None;
  sv_versions : vm_inv (dk_root d) (c_versions c) [];
  sv_encodable : manifest_encodable (vm_current (c_versions c));
  sv_reserved : 0 <= c_reservedNextSegmentID c <= u64_max;
  sv_path : names_log (vm_current (c_versions c)) (c_walPath c) /\ c_walPath c ∉ dk_torn d;
  sv_engine : exists p, c_engine c = Some p /\
    checkpoint_on_disk dir d (vm_current (c_versions c)) base /\ engine_inv base (store_engine c p) ops lost
}.

Lemma store_held c d base ops lost p :
  store_inv c d base ops lost -> c_engine c = Some p ->
  held (with_log c d) (vm_current (c_versions c)) base (store_engine c p) ops lost.
Proof.
  intros [_ _ _ _ [Hp Ht] (p' & Hp' & Hck & He)] Hpe. assert (p' = p) as -> by congruence. split; [|eexists _, _; split; [exact Hp|]|done].
  - apply checkpoint_put; [apply Hp|done].
  - split; [split; [apply lookup_insert_eq|done]|]. done.
Qed.

(** ** Reopening *)
Definition opened_fine : open_io := {| oo_lock := None; oo_current := None; oo_wal := io_fine |}.

(** What is opened does not depend on the system calls that opening makes, as
    long as it succeeds. *)
Lemma open_succeeds io options d c :
  OpenCollection dir go_range CtxLive io options d = Some (Ok c) ->
  OpenCollection dir go_range CtxLive opened_fine options d = Some (Ok c).
Proof.
  unfold OpenCollection. cbn [ctx_guard opened_fine oo_lock oo_current oo_wal]. destruct (String.eqb dir ""); [done|].
  destruct (oo_lock io); [done|]. destruct (oo_current io) as [e|]; [unfold OpenVersionManager, readCurrent; cbn [ctx_guard]; by destruct (errors_Is e _)|].
  destruct (OpenVersionManager _ _ _); [|done]. destruct (validateLifecycleManifest _); [|done].
  destruct (open_checkpoint _ _ _ _ _); [|done]. destruct (opt_ReadOnly options); [done|].
  destruct (OpenWAL _ _ (oo_wal io) _) as [[w|e]|] eqn:E; [|done..]. by rewrite (OpenWAL_succeeds _ _ _ _ _ E).
Qed.

Lemma engine_validates base e ops lost :
  engine_inv base e ops lost ->
  validateCollectionState (go_range (idmap_overlay (sg_primaryKey (e_manager e)))) (e_manager e) = None.
Proof.
  intros He. pose proof (ei_inv base e ops lost He) as Ha. pose proof (ei_idmap _ _ _ _ He) as Hi.
  destruct (ii_entries _ Hi) as (db & Hdb & _). destruct (kv_Iter db) as [l err] eqn:Hit.
  pose proof (proj2 store_opening db) as Herr. rewrite Hit in Herr. cbn in Herr. subst err.
  apply (validateCollectionState_spec (e_manager e) db l); [destruct (ai_sg _ Ha); by split| done|done|done|apply go_range_perm|].
  split; [exact (ai_deletes _ Ha)|exact (ai_live _ Ha)].
Qed.

(** What opening a held checkpoint gives after a crash. *)
Lemma reopen d manifest base e ops lost d' vm options :
  held d manifest base e ops lost -> zlen ops + 2 < u64_max -> disk_crash d d' ->
  OpenVersionManager CtxLive None (ds_now (dk_root d')) = Ok vm -> checkpoint_part (vm_current vm) = checkpoint_part manifest ->
  vm_inv (dk_root d') vm [] -> manifest_encodable (vm_current vm) -> opt_ReadOnly options = false ->
  exists c k,
    OpenCollection dir go_range CtxLive opened_fine options d' = Some (Ok c) /\
    c_versions c = vm /\ store_inv c d' base (take k (ops ++ option_list lost)) None /\
    w_SyncEvery (c_wal c) = opt_SyncEvery options /\ w_dirtyRecords (c_wal c) = 0 /\ w_poisoned (c_wal c) = None /\
    zlen ops - w_dirtyRecords (e_wal e) <= Z.of_nat k.
Proof.
  intros [Hck (path & f & Hnl & Hst & Hfc & Hfs) He] Hb Hc Hov Hvm Hvi Henc Hro.
  assert (checkpoint_on_disk dir d' (vm_current vm) base) as Hck'.
  { eapply checkpoint_same; [exact Hvm|]. by apply (checkpoint_crash dir d d'). }
  destruct (open_checkpoint_ok dir store_opening d' (vm_current vm) base false Hck') as (m1 & Hm1 & Habs & Hi1 & Hw1).
  destruct Hst as [Hfile Htorn]. destruct (disk_crash_kept d d' path _ Hc Hfile Htorn) as (a' & Hfile' & Hac & Htorn').
  destruct a' as [f'|]; [|done]. destruct Hac as (n & Hn & ->). rewrite Hfc in Hn.
  destruct (engine_crash store_reliable base e ops lost n (opt_SyncEvery options) m1 He Hb ltac:(lia) Habs Hi1 Hw1)
    as (w & m2 & e2 & k & Hopen & Hrep & Hnew & He2 & Hem & Hew & Hse & Hd & Hpo & Hk).
  pose proof (names_log_same _ _ _ Hvm Hnl) as Hnl'. pose proof Hnl' as [(w0 & Hw0 & Hf0) _].
  assert (e_poisoned e2 = None) as Hep by (unfold NewWriteEngine in Hnew; clear -Hnew; destruct (sg_writing m2); [by injection Hnew as <-|done]).
  assert (e2 = {| e_manager := m2; e_wal := w; e_poisoned := None |}) as -> by (destruct e2; cbn in *; congruence).
  set (c := {| c_readOnly := false; c_closed := false; c_poisoned := None; c_versions := vm; c_manager := m2;
               c_engine := Some None; c_wal := w; c_walPath := path; c_reservedNextSegmentID := 0 |}).
  exists c, k. split.
  { unfold OpenCollection. cbn [ctx_guard opened_fine oo_lock oo_current oo_wal].
    destruct (String.eqb_spec dir ""); [by destruct dir_nonempty|]. rewrite Hov, (ck_lifecycle _ _ _ _ Hck'), Hro, Hm1, Hw0.
    unfold first_file. rewrite Hf0. unfold read_log. rewrite Hfile', Hfc, Hopen, Hrep.
    rewrite (engine_validates _ _ _ _ He2 : validateCollectionState (go_range (idmap_overlay (sg_primaryKey m2))) m2 = None).
    by rewrite Hnew. }
  split; [done|]. split; [|done]. split; cbn; [done|done|done|unfold u64_max; lia|done|]. exists None. done.
Qed.

(** ** Candidates *)

(** What is said of a manifest, the checkpoint it names and the engine over it. *)
Definition checkpoint_pred : Type :=
  Manifest -> AbsState -> WriteEngine DB WAL -> list writeOperation -> option writeOperation -> Prop.

(** A manifest that a crash may bring back is held on the disk. *)
Definition candidate d (y : option Manifest) (P : checkpoint_pred) : Prop :=
  exists manifest base e ops lost, y = Some (manifest_normal manifest) /\ manifest_encodable manifest /\
    held d manifest base e ops lost /\ zlen ops + 2 < u64_max /\ P (manifest_normal manifest) base e ops lost.

Lemma candidate_mono d d' y P : (forall manifest base e ops lost, held d manifest base e ops lost -> held d' manifest base e ops lost) ->
  candidate d y P -> candidate d' y P.
Proof. intros Hh (manifest & base & e & ops & lost & H1 & H2 & H3 & H4). exists manifest, base, e, ops, lost. auto. Qed.

(** A crash leaves no collection, if none may be found, or a candidate. *)
Lemma crash_opens d x cands d' options P :
  pub_state (dk_root d) x cands -> (forall y, y ∈ x :: cands -> y = None \/ candidate d y P) ->
  disk_crash d d' -> opt_ReadOnly options = false ->
  (None ∈ x :: cands /\ OpenCollection dir go_range CtxLive opened_fine options d' = Some (Fail ErrManifestNotFound)) \/
  exists base e ops lost c k, P (vm_current (c_versions c)) base e ops lost /\
    OpenCollection dir go_range CtxLive opened_fine options d' = Some (Ok c) /\
    store_inv c d' base (take k (ops ++ option_list lost)) None /\
    w_SyncEvery (c_wal c) = opt_SyncEvery options /\ w_dirtyRecords (c_wal c) = 0 /\ w_poisoned (c_wal c) = None /\
    zlen ops - w_dirtyRecords (e_wal e) <= Z.of_nat k.
Proof.
  intros Hpub Hcand Hc Hro. pose proof Hc as [(files & Hdc & Hroot) _].
  destruct (pub_state_settled (Hjson := setting_json) _ _ _ _ Hpub Hdc) as (y & Hy & Hopen & Hset).
  destruct (Hcand y Hy) as [->|(manifest & base & e & ops & lost & -> & Henc & Hheld & Hb & HP)].
  { left. split; [done|]. unfold OpenCollection. cbn [ctx_guard opened_fine oo_lock oo_current].
    destruct (String.eqb_spec dir ""); [by destruct dir_nonempty|]. rewrite Hroot. unfold opens in Hopen. cbn [ds_now settled]. by rewrite Hopen. }
  right. set (vm := {| vm_current := manifest_normal manifest; vm_currentName := manifestFileName (mf_Generation (manifest_normal manifest)) |}).
  destruct (reopen d manifest base e ops lost d' vm options Hheld Hb Hc) as (c & k & H1 & H2 & H3 & H4); try done.
  - rewrite Hroot. exact Hopen.
  - split; [done|]. rewrite Hroot. cbn [vm_current vm]. by rewrite manifest_normal_idempotent.
  - by apply manifest_encodable_compact.
  - exists base, e, ops, lost, c, k. rewrite H2. done.
Qed.

Lemma crash_reopens d x cands d' options P :
  pub_state (dk_root d) x cands -> (forall y, y ∈ x :: cands -> candidate d y P) ->
  disk_crash d d' -> opt_ReadOnly options = false ->
  exists base e ops lost c k, P (vm_current (c_versions c)) base e ops lost /\
    OpenCollection dir go_range CtxLive opened_fine options d' = Some (Ok c) /\
    store_inv c d' base (take k (ops ++ option_list lost)) None /\
    w_SyncEvery (c_wal c) = opt_SyncEvery options /\ w_dirtyRecords (c_wal c) = 0 /\ w_poisoned (c_wal c) = None /\
    zlen ops - w_dirtyRecords (e_wal e) <= Z.of_nat k.
Proof.
  intros Hpub Hcand Hc Hro. destruct (crash_opens d x cands d' options P Hpub) as [[Hn _]|?]; [by auto|done|done| |done].
  by destruct (Hcand None Hn) as (? & ? & ? & ? & ? & ? & _).
Qed.

(** After any crash the disk opens to contents that satisfy [P]. *)
Definition safe_in d (P : gmap bytes bytes -> Prop) : Prop :=
  forall d' options, disk_crash d d' -> opt_ReadOnly options = false ->
    exists c base ops, OpenCollection dir go_range CtxLive opened_fine options d' = Some (Ok c) /\
      store_inv c d' base ops None /\ P (contents (abs (c_manager c))).
(** Nothing but [C] can be read after a crash. *)
Definition safe d (C : gmap bytes bytes) : Prop := safe_in d (fun X => X = C).

(** The engine of a synchronized log whose contents are [C]. *)
Definition settled_engine (C : gmap bytes bytes) (base : AbsState) (e : WriteEngine DB WAL) (ops : list writeOperation)
    (lost : option writeOperation) : Prop :=
  lost = None /\ w_dirtyRecords (e_wal e) = 0 /\ engine_inv base e ops None /\ contents (abs (e_manager e)) = C.

(** Without a collection, or with the contents [C]. *)
Definition safe_or_absent d (C : gmap bytes bytes) : Prop :=
  forall d' options, disk_crash d d' -> opt_ReadOnly options = false ->
    OpenCollection dir go_range CtxLive opened_fine options d' = Some (Fail ErrManifestNotFound) \/
    exists c base ops, OpenCollection dir go_range CtxLive opened_fine options d' = Some (Ok c) /\
      store_inv c d' base ops None /\ contents (abs (c_manager c)) = C.

Lemma settled_contents C base e ops lost c d' k :
  settled_engine C base e ops lost -> store_inv c d' base (take k (ops ++ option_list lost)) None ->
  zlen ops - w_dirtyRecords (e_wal e) <= Z.of_nat k -> contents (abs (c_manager c)) = C.
Proof.
  intros (-> & Hd & He & HC) Hinv Hk. destruct (sv_engine _ _ _ _ _ Hinv) as (p & Hp & _ & He2).
  pose proof (ei_replay _ _ _ _ He2) as Hr2.
  cbn [option_list] in Hr2. rewrite app_nil_r, firstn_all2 in Hr2 by (unfold zlen in Hk; lia).
  pose proof (ei_replay _ _ _ _ He) as Hr. cbn [e_manager store_engine] in Hr2. congruence.
Qed.

Lemma safe_or_absent_intro d x cands C :
  pub_state (dk_root d) x cands -> (forall y, y ∈ x :: cands -> y = None \/ candidate d y (fun _ => settled_engine C)) -> safe_or_absent d C.
Proof.
  intros Hpub Hcand d' options Hc Hro.
  destruct (crash_opens d x cands d' options _ Hpub Hcand Hc Hro) as [[_ Ho]|(base & e & ops & lost & c & k & Hs & Ho & Hinv & _ & _ & _ & Hk)];
    [by left|right]. exists c, base, (take k (ops ++ option_list lost)). split; [done|]. split; [done|]. by eapply settled_contents.
Qed.

(** Every manifest that a crash may bring back is held with [P]. *)
Definition covered d P : Prop :=
  exists x cands, pub_state (dk_root d) x cands /\ forall y, y ∈ x :: cands -> candidate d y P.

Definition settled_in (P : gmap bytes bytes -> Prop) : checkpoint_pred := fun _ base e ops lost =>
  exists C, P C /\ settled_engine C base e ops lost.

Lemma covered_mono d (P Q : checkpoint_pred) :
  (forall manifest base e ops lost, P manifest base e ops lost -> Q manifest base e ops lost) -> covered d P -> covered d Q.
Proof.
  intros HPQ (x & cands & Hp & Hc). exists x, cands. split; [done|]. intros y Hy.
  destruct (Hc y Hy) as (manifest & base & e & ops & lost & H1 & H2 & H3 & H4 & H5). exists manifest, base, e, ops, lost. auto 6.
Qed.

Lemma covered_safe d P : covered d (settled_in P) -> safe_in d P.
Proof.
  intros (x & cands & Hpub & Hcand) d' options Hc Hro.
  destruct (crash_reopens d x cands d' options _ Hpub Hcand Hc Hro) as (base & e & ops & lost & c & k & (C & HC & Hs) & Ho & Hinv & _ & _ & _ & Hk).
  exists c, base, (take k (ops ++ option_list lost)). split; [done|].
  assert (lost = None) as -> by apply Hs. split; [done|]. by rewrite (settled_contents C base e ops None c d' k Hs Hinv Hk).
Qed.

Lemma safe_intro d x cands C :
  pub_state (dk_root d) x cands -> (forall y, y ∈ x :: cands -> candidate d y (fun _ => settled_engine C)) -> safe d C.
Proof.
  intros Hpub Hcand. apply covered_safe. apply (covered_mono d (fun _ => settled_engine C)); [|by exists x, cands]. intros. by exists C.
Qed.

(** ** Publication *)
Lemma published_generation root cands manifest :
  pub_state root (Some (manifest_normal manifest)) cands ->
  0 < mf_Generation manifest <= u64_max /\ is_Some (ds_now root !! manifestFileName (mf_Generation manifest)).
Proof.
  intros Hs. destruct (ps_files _ _ _ Hs (manifest_normal manifest) ltac:(by left)) as (Hg & _ & _ & (c & Hc & _)).
  split; [exact Hg|]. by exists c.
Qed.

(** The current manifest is valid. *)
Lemma published_valid root cands manifest :
  pub_state root (Some (manifest_normal manifest)) cands -> Manifest_Validate (manifest_normal manifest) = Ok tt.
Proof.
  intros Hs. destruct (ps_files _ _ _ Hs (manifest_normal manifest) ltac:(by left)) as (_ & _ & _ & (c & _ & Hc)).
  by apply UnmarshalManifest_inv in Hc as [? _].
Qed.

Lemma store_publish_spec io next c d tr d' c' err :
  vm_inv (dk_root d) (c_versions c) [] -> manifest_encodable next ->
  store_publish CtxLive io next c d = (tr, (d', (c', err))) ->
  let x := Some (manifest_normal (vm_current (c_versions c))) in
  (exists root vm, d' = disk_set_root root d /\ c' = c_set_versions c vm /\
    if committed c c'
    then (exists g, vm_current vm = prepareManifest next g) /\ manifest_encodable (vm_current vm) /\ vm_inv root vm [x] /\
         (po_sync2 io = None -> vm_inv root vm [] /\ err = errors_Join [po_unlock io])
    else vm = c_versions c /\ err <> None /\ vm_inv root vm []) /\
  forall dd, dd ∈ tr -> exists root, dd = disk_set_root root d /\
    (pub_state root x [] \/ exists g, manifest_encodable (prepareManifest next g) /\
       pub_state root (Some (manifest_normal (prepareManifest next g))) [x]).
Proof.
  intros Hvm Henc H x. unfold store_publish in H.
  destruct (Publish CtxLive io next (c_versions c) (dk_root d)) as [ptr [root [[vm res] perr]]] eqn:Ep.
  injection H as <- <- <- <-.
  apply (Publish_spec (Hjson := setting_json) (Hlaws := setting_json_laws)) with (cands := []) in Ep as [Hres Htr];
    [|exact Hvm|intros g Hg; by apply encodable_prepare].
  split.
  - exists root, vm. split; [done|]. split; [done|]. unfold committed. cbn [c_versions c_set_versions].
    destruct res as [p|].
    + destruct Hres as (g & Hg & -> & Hcur & Hinv & Hsync).
      destruct (nextManifestGeneration_spec _ _ Hg) as (Hg64 & Hfree & _).
      assert (mf_Generation (vm_current vm) =? mf_Generation (vm_current (c_versions c)) = false) as ->.
      { apply Z.eqb_neq. intros Heq. destruct Hvm as [_ Hs]. destruct (published_generation _ _ _ Hs) as [_ Hsome].
        rewrite <- Heq, Hcur in Hsome. cbn [prepareManifest mf_Generation] in Hsome. rewrite Hfree in Hsome. by destruct Hsome. }
      cbn [negb]. split; [by exists g|]. split; [rewrite Hcur; by apply encodable_prepare|]. split; [exact Hinv|exact Hsync].
    + destruct Hres as (-> & He & Hinv). by rewrite Z.eqb_refl.
  - intros dd (r & -> & Hr)%list_elem_of_fmap. exists r. split; [done|]. destruct (Htr r Hr) as [Hp|[g Hp]]; [by left|right].
    exists g. split; [|exact Hp]. apply encodable_prepare; [done|].
    by destruct (published_generation _ _ _ Hp).
Qed.

(** A crash that loses the entries of the directory that were not synchronized
    leaves the contents [C]. *)
Definition reverts_to d (C : gmap bytes bytes) : Prop :=
  forall d2 options, disk_crash d d2 -> dk_root d2 = settled (ds_durable (dk_root d)) -> opt_ReadOnly options = false ->
    exists c base ops, OpenCollection dir go_range CtxLive opened_fine options d2 = Some (Ok c) /\
      store_inv c d2 base ops None /\ contents (abs (c_manager c)) = C.

Lemma reverts_intro d x cands manifest C :
  pub_state (dk_root d) x cands -> Some (manifest_normal manifest) ∈ x :: cands ->
  points (ds_durable (dk_root d)) (Some (manifest_normal manifest)) ->
  candidate d (Some (manifest_normal manifest)) (fun _ => settled_engine C) -> reverts_to d C.
Proof.
  intros Hpub Hin Hp Hcand d2 options [_ Hc] Hroot Hro.
  assert (ds_crash (dk_root d) (ds_durable (dk_root d))) as Hdc by (intros n; auto).
  destruct (pub_state_found _ _ _ _ _ Hpub Hdc Hin Hp) as [_ Hset].
  set (d0 := disk_set_root (settled (ds_durable (dk_root d))) d).
  apply (safe_intro d0 _ [] C Hset); [|split; [|exact Hc]|done].
  - intros y ->%list_elem_of_singleton. eapply candidate_mono; [|exact Hcand]. intros. by apply held_root.
  - exists (ds_durable (dk_root d)). split; [|done]. intros n. auto.
Qed.

(** When the publication goes on although the last synchronization failed, the
    manifest that was current is still the durable one. *)
Lemma store_publish_unsynced io next c d tr d' c' err :
  vm_inv (dk_root d) (c_versions c) [] -> manifest_encodable next ->
  store_publish CtxLive io next c d = (tr, (d', (c', err))) -> committed c c' = true -> po_sync2 io <> None ->
  let x := Some (manifest_normal (vm_current (c_versions c))) in
  pub_state (dk_root d') (Some (manifest_normal (vm_current (c_versions c')))) [x] /\ points (ds_durable (dk_root d')) x.
Proof.
  intros Hvm Henc H Hcom Hs x. pose proof H as Hp.
  apply store_publish_spec in H as [(root & vm & -> & -> & Hres) _]; [|done|done]. rewrite Hcom in Hres.
  destruct Hres as (_ & _ & [_ Hpub] & _). split; [exact Hpub|].
  unfold store_publish in Hp. destruct (Publish _ _ _ _ _) as [ptr [root' [[vm' res] perr]]] eqn:Ep.
  assert (root' = root) as -> by exact (f_equal (fun r => dk_root r.2.1) Hp).
  assert (vm' = vm) as -> by exact (f_equal (fun r => c_versions r.2.2.1) Hp).
  destruct res as [p|].
  - apply (Publish_unsynced _ _ _ _ _ _ _ _ _ _ x) in Ep; [done|done|apply Hvm].
  - apply (Publish_spec (Hjson := setting_json) (Hlaws := setting_json_laws)) with (cands := []) in Ep as [(-> & _) _];
      [|exact Hvm|intros g Hg; by apply encodable_prepare].
    unfold committed in Hcom. by rewrite Z.eqb_refl in Hcom.
Qed.

(** ** Flushing *)
Lemma store_inv_keeps c d base ops lost d1 root :
  store_inv c d base ops lost -> keeps (with_log c d) d1 -> vm_inv root (c_versions c) [] ->
  store_inv c (disk_set_root root d1) base ops lost.
Proof.
  intros Hinv Hk Hvm. destruct (sv_engine _ _ _ _ _ Hinv) as (p & Hp & Hck & He). pose proof (store_held c d base ops lost p Hinv Hp) as Hh.
  destruct Hinv as [H1 _ H3 H4 [H5 H6] _]. split; [done|done|done|done| |].
  - split; [done|]. cbn [dk_torn disk_set_root]. destruct (kp_files _ _ Hk (c_walPath c) (RegularFile (w_file (c_wal c)))) as [_ Ht];
      [apply lookup_insert_eq|by apply Ht].
  - exists p. split; [done|]. split; [|done]. apply (held_keeps _ d1) in Hh; [|done]. apply (held_root root) in Hh. apply Hh.
Qed.

(** The state of a store is in the files that its manifest and its log name. *)
Lemma store_inv_same c d d' base ops lost :
  store_inv c d base ops lost -> dk_root d' = dk_root d ->
  (forall n, n ∈ checkpoint_files (vm_current (c_versions c)) -> n <> c_walPath c -> dk_files d' !! n = dk_files d !! n) ->
  (forall n, n ∈ c_walPath c :: checkpoint_files (vm_current (c_versions c)) -> n ∈ dk_torn d' -> n ∈ dk_torn d) ->
  store_inv c d' base ops lost.
Proof.
  intros [H1 H2 H3 H4 [H5 H6] (p & Hp & Hck & He)] Hroot Hfiles Htorn. split; [done|by rewrite Hroot|done|done| |].
  - split; [done|]. intros Ht. apply H6, Htorn; [by left|done].
  - exists p. split; [done|]. split; [|done].
    assert (Hst : forall n a, n ∈ checkpoint_files (vm_current (c_versions c)) -> stable d n a -> stable d' n a).
    { intros n a Hn [Hf Ht]. split; [|intros ?; apply Ht, Htorn; [by right|done]]. rewrite Hfiles; [done|done|].
      intros ->. by apply (proj2 H5). }
    apply (checkpoint_transfer dir d); [intros n content Hn; by apply Hst|intros n db Hn; by apply Hst|done].
Qed.

Lemma dk_root_cleanup removed created d : dk_root (cleanup removed created d) = dk_root d.
Proof. unfold cleanup. destruct removed; [|done]. by induction created as [|n l IH]. Qed.
Lemma cleanup_set_root removed created r d : cleanup removed created (disk_set_root r d) = disk_set_root r (cleanup removed created d).
Proof. unfold cleanup. destruct removed; [|done]. induction created as [|n l IH]; [done|]. cbn. by rewrite IH. Qed.
Lemma disk_set_root_id d : disk_set_root (dk_root d) d = d.
Proof. by destruct d. Qed.

(** Segment IDs are below the next one. *)
Lemma store_segment_ids root cands manifest d base :
  pub_state root (Some (manifest_normal manifest)) cands -> manifest_encodable manifest -> checkpoint_on_disk dir d manifest base ->
  (forall w, a_writing base = Some w -> ws_id w < mf_NextSegmentID manifest) /\
  Forall (fun t => im_ID t < mf_NextSegmentID manifest) (a_ordered base).
Proof.
  intros Hs Henc Hck. pose proof (published_valid _ _ _ Hs) as Hv.
  assert (Forall (fun t => 0 <= sm_ID t /\ 0 <= sm_DocCount t) (all_segments (manifest_normal manifest))) as Hpos.
  { eapply Forall_impl; [exact (me_segments _ Henc)|]. intros t (H1 & _ & _ & H2 & _). unfold is_u64 in *. lia. }
  pose proof (mw_next _ (proj1 (Manifest_Validate_wf _ Hpos) Hv)) as Hnext.
  change (all_segments (manifest_normal manifest)) with (all_segments manifest) in Hnext.
  change (mf_NextSegmentID (manifest_normal manifest)) with (mf_NextSegmentID manifest) in Hnext. unfold all_segments in Hnext.
  destruct (ck_segments _ _ _ _ Hck) as (ims & Hims & _ & Hperm). destruct (ck_writing _ _ _ _ Hck) as (w & writing & Hw & Hnew & Hwr). split.
  - intros w' Hw'. assert (w' = writing) as -> by congruence. unfold NewWriteSegment in Hnew. repeat (case_in Hnew; [done|]).
    injection Hnew as <-. cbn. apply Hnext. rewrite Hw. apply elem_of_app. right. by left.
  - rewrite <- Hperm. apply Forall_forall. intros t Ht. apply Hnext, elem_of_app. left. rewrite Hims. by apply list_elem_of_fmap_2.
Qed.

Lemma store_prepare_pre c d base ops lost w :
  store_inv c d base ops lost -> sg_writing (c_manager c) = Some w ->
  prepare_pre dir (with_log c d) (reserved_manifest c) (c_manager c) w.
Proof.
  intros Hinv Hw. destruct (sv_engine _ _ _ _ _ Hinv) as (p & Hp & _). pose proof (store_held c d base ops lost p Hinv Hp) as [Hck _ He].
  destruct (sv_versions _ _ _ _ _ Hinv) as [_ Hpub]. pose proof (sv_encodable _ _ _ _ _ Hinv) as Henc.
  destruct (store_segment_ids _ _ _ _ _ Hpub Henc Hck) as [Hidw Hids].
  pose proof (ei_replay _ _ _ _ He) as Hr. cbn [e_manager store_engine] in Hr.
  destruct (abs_replay_segments _ _ _ Hr) as (Ho & _ & Hwr). cbn in Ho.
  destruct (ck_writing _ _ _ _ Hck) as (w0 & writing & Hw0 & Hnew & Hbw). destruct (Hwr writing Hbw) as (w' & Hw' & Hid & _).
  cbn in Hw'. assert (w' = w) as -> by congruence. specialize (Hidw writing Hbw).
  destruct (ck_segments _ _ _ _ Hck) as (ims & Hims & Hall & Hperm).
  split; cbn [reserved_manifest mf_PersistedSegments mf_EnableMmap mf_NextSegmentID].
  - by apply (ei_inv base (store_engine c p) ops lost).
  - apply (ei_idmap _ _ _ _ He).
  - done.
  - exists ims. split; [done|]. split; [done|]. by rewrite Ho.
  - rewrite Ho. split; [rewrite Hid; lia|]. eapply Forall_impl; [exact Hids|]. intros t Ht. cbn in Ht. lia.
  - destruct Henc as [E1 E2 E3 E4 E5 E6 E7 E8 E9 E10]. split; try done. cbn. pose proof (sv_reserved _ _ _ _ _ Hinv). unfold is_u64 in *. lia.
Qed.

(** The current manifest stays a candidate while new artifacts are written. *)
Lemma current_candidate c d base ops d1 r :
  store_inv c d base ops None -> zlen ops + 2 < u64_max -> w_dirtyRecords (c_wal c) = 0 -> keeps (with_log c d) d1 ->
  candidate (disk_set_root r d1) (Some (manifest_normal (vm_current (c_versions c)))) (fun _ => settled_engine (contents (abs (c_manager c)))).
Proof.
  intros Hinv Hb Hd Hk. destruct (sv_engine _ _ _ _ _ Hinv) as (p & Hp & _ & He).
  pose proof (store_held c d base ops None p Hinv Hp) as Hh.
  exists (vm_current (c_versions c)), base, (store_engine c p), ops, None. split; [done|]. split; [apply Hinv|].
  split; [|done]. apply held_root. by apply (held_keeps (with_log c d)).
Qed.

Lemma current_safe c d base ops d1 :
  store_inv c d base ops None -> zlen ops + 2 < u64_max -> w_dirtyRecords (c_wal c) = 0 -> keeps (with_log c d) d1 ->
  safe d1 (contents (abs (c_manager c))).
Proof.
  intros Hinv Hb Hd Hk. destruct (sv_versions _ _ _ _ _ Hinv) as [_ Hpub].
  eapply (safe_intro d1 _ []); [by rewrite (kp_root _ _ Hk)|]. intros y ->%list_elem_of_singleton.
  rewrite <- (disk_set_root_id d1). by eapply current_candidate.
Qed.

(** A new artifact changes nothing of what is held. *)
Lemma held_put d0 d n a manifest base e ops lost :
  dk_files d0 !! n = None -> keeps d0 d -> held d0 manifest base e ops lost -> held (disk_put n a d) manifest base e ops lost.
Proof.
  intros Hn Hk [H1 (path & f & H2 & H3 & H4) H5].
  assert (Hst : forall k b, stable d0 k b -> stable (disk_put n a d) k b).
  { intros k b Hs. assert (k <> n) by (intros ->; destruct Hs; congruence).
    destruct (stable_keeps _ _ _ _ Hk Hs) as [? ?]. split; [|done]. cbn. by rewrite lookup_insert_ne. }
  split; [eapply checkpoint_transfer; [..|exact H1]; auto| |done]. exists path, f. auto.
Qed.

(** A store that goes on after an unsynchronized publication: whatever its new
    log then holds, the directory can fall back to the old checkpoint. *)
Lemma published_reverts c d base ops s io next tr d' c' err n f :
  store_inv c d base ops None -> zlen ops + 2 < u64_max -> w_dirtyRecords (c_wal c) = 0 -> fresh_state (with_log c d) s ->
  dk_files (with_log c d) !! n = None -> manifest_encodable next ->
  store_publish CtxLive io next c (ss_disk s) = (tr, (d', (c', err))) -> committed c c' = true -> po_sync2 io <> None ->
  reverts_to (disk_put n (RegularFile f) d') (contents (abs (c_manager c))).
Proof.
  intros Hinv Hb Hd [Hk _] Hn Henc H Hcom Hs. pose proof (sv_versions _ _ _ _ _ Hinv) as Hvm.
  rewrite <- (kp_root _ _ Hk : dk_root (ss_disk s) = dk_root d) in Hvm.
  destruct (store_publish_unsynced io next c _ _ _ _ _ Hvm Henc H Hcom Hs) as [Hpub Hp].
  apply store_publish_spec in H as [(root & vm & -> & -> & _) _]; [|done|done].
  apply (reverts_intro (disk_put n (RegularFile f) (disk_set_root root (ss_disk s))) _ _ (vm_current (c_versions c)) _ Hpub); [right; by left|exact Hp|].
  destruct (sv_engine _ _ _ _ _ Hinv) as (p & Hpe & _ & He). pose proof (store_held c d base ops None p Hinv Hpe) as Hh.
  exists (vm_current (c_versions c)), base, (store_engine c p), ops, None. split; [done|]. split; [apply Hinv|].
  split; [|done]. apply (held_root root (disk_put n (RegularFile f) (ss_disk s))). by apply (held_put (with_log c d)).
Qed.

(** Nothing is published: the artifacts are removed or left. *)
Lemma abandoned_inv c d base ops s root removed :
  store_inv c d base ops None -> fresh_state (with_log c d) s -> vm_inv root (c_versions c) [] -> zlen ops + 2 < u64_max ->
  w_dirtyRecords (c_wal c) = 0 ->
  let d' := cleanup removed (ss_created s) (disk_set_root root (ss_disk s)) in
  store_inv c d' base ops None /\ safe d' (contents (abs (c_manager c))).
Proof.
  intros Hinv Hs Hvm Hb Hd. rewrite cleanup_set_root. cbv zeta. pose proof (keeps_cleanup _ _ removed Hs) as Hk.
  split; [by eapply store_inv_keeps|]. destruct Hvm as [_ Hpub]. eapply (safe_intro _ _ []); [exact Hpub|].
  intros y ->%list_elem_of_singleton. by apply (current_candidate c d base ops).
Qed.

(** While the next manifest is published, either one may be found. *)
Lemma publishing_covered c d1 io next P tr d' c' err :
  vm_inv (dk_root d1) (c_versions c) [] -> manifest_encodable next ->
  (forall r, candidate (disk_set_root r d1) (Some (manifest_normal (vm_current (c_versions c)))) P) ->
  (forall r g, manifest_encodable (prepareManifest next g) ->
     candidate (disk_set_root r d1) (Some (manifest_normal (prepareManifest next g))) P) ->
  store_publish CtxLive io next c d1 = (tr, (d', (c', err))) ->
  (forall dd, dd ∈ tr -> covered dd P) /\ covered d' P /\
  exists root vm, d' = disk_set_root root d1 /\ c' = c_set_versions c vm /\
    if committed c c' then (exists g, vm_current vm = prepareManifest next g) /\ manifest_encodable (vm_current vm) /\
         (po_sync2 io = None -> vm_inv root vm [] /\ err = errors_Join [po_unlock io])
    else vm = c_versions c /\ err <> None /\ vm_inv root vm [].
Proof.
  intros Hvm Henc Hold Hnew H.
  destruct (store_publish_spec io next c d1 tr d' c' err Hvm Henc H) as [(root & vm & -> & -> & Hres) Htr].
  assert (Hboth : forall r g, manifest_encodable (prepareManifest next g) ->
    pub_state r (Some (manifest_normal (prepareManifest next g))) [Some (manifest_normal (vm_current (c_versions c)))] ->
    covered (disk_set_root r d1) P).
  { intros r g Hm Hp. eexists _, _. split; [exact Hp|].
    intros y [->|[->|[]%elem_of_nil]%elem_of_cons]%elem_of_cons; [by apply Hnew|apply Hold]. }
  split; [|split].
  - intros dd Hdd. destruct (Htr dd Hdd) as (r & -> & [Hp|(g & Hm & Hp)]).
    + eexists _, _. split; [exact Hp|]. by intros y ->%list_elem_of_singleton.
    + by apply (Hboth r g).
  - destruct (committed _ _).
    + destruct Hres as ([g Hg] & Hm & [_ Hp] & _). rewrite Hg in Hm, Hp. by apply (Hboth root g).
    + destruct Hres as (-> & _ & [_ Hp]). eexists _, _. split; [exact Hp|]. by intros y ->%list_elem_of_singleton.
  - exists root, vm. split; [done|]. split; [done|]. destruct (committed _ _); [|done]. by destruct Hres as (H1 & H2 & _ & H3).
Qed.

(** The same when the next manifest holds a settled engine with contents [C']. *)
Lemma publishing_next c d base ops io next d1 base' e' ops' C' tr d' c' err :
  store_inv c d base ops None -> zlen ops + 2 < u64_max -> w_dirtyRecords (c_wal c) = 0 -> keeps (with_log c d) d1 ->
  held d1 next base' e' ops' None -> zlen ops' + 2 < u64_max -> settled_engine C' base' e' ops' None -> manifest_encodable next ->
  store_publish CtxLive io next c d1 = (tr, (d', (c', err))) ->
  let C := contents (abs (c_manager c)) in
  (forall dd, dd ∈ tr -> safe_in dd (fun X => X = C \/ X = C')) /\ safe_in d' (fun X => X = C \/ X = C') /\
  exists root vm, d' = disk_set_root root d1 /\ c' = c_set_versions c vm /\
    if committed c c' then (exists g, vm_current vm = prepareManifest next g) /\ manifest_encodable (vm_current vm) /\
         (po_sync2 io = None -> vm_inv root vm [] /\ err = errors_Join [po_unlock io])
    else vm = c_versions c /\ err <> None /\ vm_inv root vm [].
Proof.
  intros Hinv Hb Hd Hk Hheld Hb' Hset Henc H C. pose proof (sv_versions _ _ _ _ _ Hinv) as Hvm.
  rewrite <- (kp_root _ _ Hk : dk_root d1 = dk_root d) in Hvm.
  destruct (publishing_covered c d1 io next (settled_in (fun X => X = C \/ X = C')) tr d' c' err Hvm Henc) as (Htr & Hd' & Hres); [| |done|].
  - intros r. destruct (current_candidate c d base ops d1 r Hinv Hb Hd Hk) as (manifest & b & e & o & l & H1 & H2 & H3 & H4 & H5).
    exists manifest, b, e, o, l. do 4 (split; [done|]). exists C. split; [by left|done].
  - intros r g Hm. exists (prepareManifest next g), base', e', ops', None. split; [done|]. split; [done|].
    split; [apply held_root; by apply (held_same _ next)|]. split; [done|]. exists C'. split; [by right|done].
  - split; [|split; [by apply covered_safe|done]]. intros dd Hdd. by apply covered_safe, Htr.
Qed.

(** The disk keeps the closed log as it was. *)
Lemma put_same d n a : dk_files d !! n = Some a -> disk_put n a d = d.
Proof. intros H. unfold disk_put. rewrite insert_id by done. by destruct d. Qed.

(** Closing a synchronized log leaves the disk. *)
Lemma close_log_same c d d1 root io old e :
  f_stable (w_file (c_wal c)) = length (f_content (w_file (c_wal c))) -> keeps (with_log c d) d1 ->
  WAL_Close io (c_wal c) = (old, e) -> disk_put (c_walPath c) (RegularFile (w_file old)) (disk_set_root root d1) = disk_set_root root d1.
Proof.
  intros Hstab Hk Hcl. destruct (WAL_Close_file _ _ _ _ Hcl) as [Hfc Hfs].
  assert (w_file old = w_file (c_wal c)) as ->.
  { destruct (w_file old) as [f1 s1], (w_file (c_wal c)) as [f2 s2]. cbn in *. f_equal; [done|]. destruct Hfs; congruence. }
  apply put_same. destruct (kp_files _ _ Hk (c_walPath c) (RegularFile (w_file (c_wal c)))) as [Hf _]; [apply lookup_insert_eq|exact Hf].
Qed.

(** A store over the manager and the empty log of a published checkpoint. *)
Lemma installed_store_inv c d base ops vm root d1 next m w path se :
  store_inv c d base ops None -> vm_inv root vm [] -> manifest_encodable (vm_current vm) ->
  checkpoint_part (vm_current vm) = checkpoint_part next -> names_log next path -> stable d1 path (RegularFile (w_file w)) ->
  held d1 next (abs m) {| e_manager := m; e_wal := w; e_poisoned := None |} [] None -> new_log w se ->
  store_inv (c_install (c_set_versions c vm) m w path) (disk_set_root root d1) (abs m) [] None.
Proof.
  intros [(H1 & H2 & H3) _ _ H4 _ _] Hvm Henc Hpart Hn Hst Hh Hlog.
  split; cbn; [done|done|done|done| |].
  - split; [by apply (names_log_same next)|apply Hst].
  - exists None. split; [done|]. split; [|apply Hh]. eapply checkpoint_same; [exact Hpart|].
    apply (held_root root) in Hh. apply Hh.
Qed.

(** The log and the engine after [Sync]. *)
Lemma store_inv_sync c d base ops lost io wal err :
  store_inv c d base ops lost -> WAL_Sync CtxLive io (c_wal c) = (wal, err) ->
  store_inv (c_set_wal c wal) d base ops lost /\ w_SyncEvery wal = w_SyncEvery (c_wal c) /\
  (err = None -> lost = None /\ w_poisoned wal = None /\ w_dirtyRecords wal = 0 /\ f_stable (w_file wal) = length (f_content (w_file wal))).
Proof.
  intros [H1 H2 H3 H4 H5 (p & Hp & Hck & He)] Hsync.
  destruct (log_state_sync _ _ _ _ _ _ _ (ei_log _ _ _ _ He) Hsync) as (Hls & Hse & Hok).
  destruct (WAL_Sync_spec _ _ _ _ _ _ (ls_inv _ _ _ (ei_log _ _ _ _ He)) Hsync) as (_ & _ & _ & Hok').
  split; [split; try done|split; [done|]].
  - exists p. split; [done|]. split; [done|]. by destruct He as [G1 G2 G3 G4 G5 G6 G7].
  - intros Herr. destruct (Hok Herr) as (Hl & Hpo & Hd & _). destruct (Hok' Herr) as (_ & _ & _ & _ & _ & Hst & Hfc).
    split; [by destruct lost|]. split; [done|]. split; [done|done].
Qed.

(** ** Writing *)
Lemma store_set_engine c d base ops lost ops' lost' (e : WriteEngine DB WAL) :
  store_inv c d base ops lost -> engine_inv base e ops' lost' -> store_inv (c_set_engine c e) d base ops' lost'.
Proof.
  intros [H1 H2 H3 H4 H5 (p & _ & Hck & _)] He. split; try done. exists (e_poisoned e). split; [done|]. split; [done|]. by destruct e.
Qed.

(** A batch keeps the invariant, with what it logged. *)
Lemma store_batch_inv {A} (key : A -> bytes) call api isnil polls ios inputs c d base ops lost c' r :
  batch_spec (DB := DB) (W := WAL) (IO := wal_io) key call api ->
  store_inv c d base ops lost -> zlen ops + zlen inputs + 2 < u64_max ->
  delegate c (api isnil polls ios inputs) = (c', r) ->
  exists more lost', store_inv c' d base (ops ++ more) lost' /\ zlen more <= zlen inputs.
Proof.
  intros Hspec Hinv Hb H. unfold delegate in H. pose proof (zlen_nonneg inputs) as Hn.
  assert (Hsame : exists more lost', store_inv c d base (ops ++ more) lost' /\ zlen more <= zlen inputs).
  { exists [], lost. rewrite app_nil_r. done. }
  destruct (requireWritableLocked c); [by injection H as <- <-|].
  destruct (sv_engine _ _ _ _ _ Hinv) as (p & Hp & _ & He). rewrite Hp in H.
  destruct (api isnil polls ios inputs (store_engine c p)) as [e [results err]] eqn:Ea. injection H as <- <-.
  destruct (Hspec _ _ _ _ _ _ _ _ Ea) as [H1 H2].
  destruct isnil; [destruct (H1 (or_introl eq_refl)) as (-> & _); exists [], lost; rewrite app_nil_r; split; [by apply (store_set_engine c d base ops lost)|done]|].
  destruct inputs as [|i inputs]; [destruct (H1 (or_intror eq_refl)) as (-> & _); exists [], lost; rewrite app_nil_r; split; [by apply (store_set_engine c d base ops lost)|done]|].
  destruct (H2 eq_refl ltac:(done)) as (n & rs & Hle & Hrun & _).
  assert (zlen (imap (fun j i => (polls (2 * j + 1)%nat, ios j, call i)) (take n (i :: inputs))) <= zlen (i :: inputs)) as Hl.
  { unfold zlen. rewrite length_imap, length_take. lia. }
  pose proof (fun H => run_calls_inv base _ _ _ ops lost rs store_reliable He H Hrun) as Hri.
  destruct Hri as (more & lost' & He' & Hm); [lia|].
  exists more, lost'. split; [by apply (store_set_engine c d base ops lost)|lia].
Qed.

Inductive batch_of_writes :=
| BatchInsert (inputs : list WriteInput)
| BatchUpsert (inputs : list WriteInput)
| BatchUpdate (inputs : list WriteInput)
| BatchDelete (keys : list bytes).
Definition batch_size (b : batch_of_writes) : Z :=
  match b with BatchInsert l | BatchUpsert l | BatchUpdate l => zlen l | BatchDelete l => zlen l end.
Definition run_batch (isnil : bool) (polls : nat -> context) (ios : nat -> wal_io) (b : batch_of_writes) c :=
  match b with
  | BatchInsert l => store_Insert isnil polls ios l c
  | BatchUpsert l => store_Upsert isnil polls ios l c
  | BatchUpdate l => store_Update isnil polls ios l c
  | BatchDelete l => store_Delete isnil polls ios l c
  end.

Lemma run_batch_inv isnil polls ios b c d base ops lost c' r :
  store_inv c d base ops lost -> zlen ops + batch_size b + 2 < u64_max -> run_batch isnil polls ios b c = (c', r) ->
  exists more lost', store_inv c' d base (ops ++ more) lost' /\ zlen more <= batch_size b.
Proof.
  intros Hinv Hb H. destruct b as [l|l|l|l]; cbn [run_batch batch_size] in *.
  - by apply (store_batch_inv in_PrimaryKey CallInsert (engine_Insert (DB := DB)) isnil polls ios l c d base ops lost c' r);
      [apply batch_ok|..].
  - by apply (store_batch_inv in_PrimaryKey CallUpsert (engine_Upsert (DB := DB)) isnil polls ios l c d base ops lost c' r);
      [apply batch_ok|..].
  - by apply (store_batch_inv in_PrimaryKey CallUpdate (engine_Update (DB := DB)) isnil polls ios l c d base ops lost c' r);
      [apply batch_ok|..].
  - by apply (store_batch_inv (fun k => k) CallDelete (engine_Delete (DB := DB)) isnil polls ios l c d base ops lost c' r);
      [apply batch_ok|..].
Qed.

Lemma store_lsn c d base ops lost : store_inv c d base ops lost -> w_lastLSN (c_wal c) = zlen ops.
Proof.
  intros [_ _ _ _ _ (p & _ & _ & He)]. rewrite (wi_lsn _ _ (ls_inv _ _ _ (ei_log _ _ _ _ He)) : w_lastLSN (c_wal c) = _).
  unfold zlen. by rewrite length_fmap.
Qed.

(** A store with the invariant opens again after a crash, with a prefix of its log. *)
Lemma store_crash c d base ops lost d' options :
  store_inv c d base ops lost -> zlen ops + 2 < u64_max -> disk_crash (with_log c d) d' -> opt_ReadOnly options = false ->
  exists c2 k, OpenCollection dir go_range CtxLive opened_fine options d' = Some (Ok c2) /\
    store_inv c2 d' base (take k (ops ++ option_list lost)) None /\
    w_SyncEvery (c_wal c2) = opt_SyncEvery options /\ w_dirtyRecords (c_wal c2) = 0 /\ w_poisoned (c_wal c2) = None /\
    zlen ops - w_dirtyRecords (c_wal c) <= Z.of_nat k.
Proof.
  intros Hinv Hb Hc Hro. destruct (sv_engine _ _ _ _ _ Hinv) as (p & Hp & _ & _). destruct (sv_versions _ _ _ _ _ Hinv) as [_ Hpub].
  pose proof (store_held c d base ops lost p Hinv Hp) as Hh.
  destruct (crash_reopens (with_log c d) _ [] d' options
    (fun _ b e o l => b = base /\ e = store_engine c p /\ o = ops /\ l = lost) Hpub) as (b & e & o & l & c2 & k & (-> & -> & -> & ->) & H); [|done|done|].
  - intros y ->%list_elem_of_singleton. exists (vm_current (c_versions c)), base, (store_engine c p), ops, lost.
    split; [done|]. split; [apply Hinv|]. done.
  - by exists c2, k.
Qed.

(** ** Reading and closing *)
Lemma contents_size a : a_inv a -> size (contents a) = size (a_view a).
Proof.
  intros Ha. rewrite <- !(size_dom (D := gset bytes)). f_equal. apply set_eq. intros key.
  rewrite !elem_of_dom. by apply contents_is_Some.
Qed.

Lemma store_a_inv c d base ops lost : store_inv c d base ops lost -> a_inv (abs (c_manager c)) /\ idmap_inv (sg_primaryKey (c_manager c)).
Proof.
  intros [_ _ _ _ _ (p & _ & _ & He)]. split; [by apply (ei_inv base (store_engine c p) ops lost)|apply (ei_idmap _ _ _ _ He)].
Qed.

Lemma store_count c d base ops lost : store_inv c d base ops lost -> DocumentCount c = Z.of_nat (size (contents (abs (c_manager c)))).
Proof.
  intros [Ha Hi]%store_a_inv. rewrite (contents_size _ Ha). exact (ii_count _ Hi).
Qed.

(** A log without a lost record. *)
Lemma store_not_lost c d base ops lost : store_inv c d base ops lost -> w_poisoned (c_wal c) = None -> lost = None.
Proof.
  intros [_ _ _ _ _ (p & _ & _ & He)] Hp. destruct lost as [op|]; [|done]. by destruct (ls_content _ _ _ (ei_log _ _ _ _ He)).
Qed.

(** The same log over the same checkpoint. *)
Lemma same_replay c c2 d d2 base ops k :
  store_inv c d base ops None -> store_inv c2 d2 base (take k (ops ++ option_list None)) None ->
  zlen ops - w_dirtyRecords (c_wal c) <= Z.of_nat k -> w_dirtyRecords (c_wal c) = 0 ->
  take k (ops ++ option_list None) = ops /\ contents (abs (c_manager c2)) = contents (abs (c_manager c)).
Proof.
  intros Hinv Hinv2 Hk Hd. cbn [option_list] in *. rewrite app_nil_r, firstn_all2 in * by (unfold zlen in Hk; lia). split; [done|].
  destruct (sv_engine _ _ _ _ _ Hinv2) as (p2 & _ & _ & He2). destruct (sv_engine _ _ _ _ _ Hinv) as (p & _ & _ & He).
  pose proof (ei_replay _ _ _ _ He2) as H2. pose proof (ei_replay _ _ _ _ He) as H1. cbn in H1, H2. congruence.
Qed.

(** A synchronized log loses nothing. *)
Lemma store_synced_crash c d base ops lost d' options :
  store_inv c d base ops lost -> zlen ops + 2 < u64_max -> disk_crash (with_log c d) d' -> opt_ReadOnly options = false ->
  w_dirtyRecords (c_wal c) = 0 -> w_poisoned (c_wal c) = None ->
  exists c2, OpenCollection dir go_range CtxLive opened_fine options d' = Some (Ok c2) /\ store_inv c2 d' base ops None /\
    contents (abs (c_manager c2)) = contents (abs (c_manager c)).
Proof.
  intros Hinv Hb Hc Hro Hd Hp. assert (lost = None) as -> by by eapply store_not_lost.
  destruct (store_crash c d base ops None d' options Hinv Hb Hc Hro) as (c2 & k & Ho & Hinv2 & _ & _ & _ & Hk).
  destruct (same_replay c c2 d d' base ops k Hinv Hinv2 Hk Hd) as [Heq HC]. exists c2. by rewrite <- Heq at 1.
Qed.

Lemma store_close_log c d base ops walIO wal' e :
  store_inv c d base ops None -> w_poisoned (c_wal c) = None -> c_readOnly c = false -> w_readOnly (c_wal c) = false ->
  io_sync walIO = None -> WAL_Close walIO (c_wal c) = (wal', e) -> w_closed (c_wal c) = false ->
  exists wal1, store_inv (c_set_wal c wal1) d base ops None /\ w_dirtyRecords wal1 = 0 /\ w_poisoned wal1 = None /\ w_file wal1 = w_file wal'.
Proof.
  intros Hinv Hp Hro Hwro Hio Hcl Hopen. destruct (sv_engine _ _ _ _ _ Hinv) as (q & _ & _ & He).
  pose proof (wi_dirty _ _ (ls_inv _ _ _ (ei_log _ _ _ _ He)) : 0 <= w_dirtyRecords (c_wal c) <= _) as Hd.
  unfold WAL_Close in Hcl. rewrite Hopen in Hcl. cbn [w_readOnly w_poisoned w_dirtyRecords wal_set_closed] in Hcl. rewrite Hwro, Hp in Hcl. cbn [negb andb] in Hcl.
  destruct (0 <? w_dirtyRecords (c_wal c)) eqn:E; to_prop.
  - destruct (WAL_Sync CtxLive walIO (c_wal c)) as [wal1 serr] eqn:Es.
    destruct (store_inv_sync c d base ops None _ _ _ Hinv Es) as (Hinv1 & _ & Hok). unfold WAL_Sync in Es. cbn [ctx_guard] in Es.
    rewrite Hopen, Hwro, Hp in Es. unfold wal_syncFile, file_Sync in Es, Hcl. rewrite Hio in Es, Hcl. injection Es as <- <-.
    destruct (Hok eq_refl) as (_ & H1 & H2 & _). eexists. split; [exact Hinv1|]. split; [done|]. split; [done|]. by injection Hcl as <- <-.
  - exists (c_wal c). split; [by destruct c|]. split; [lia|]. split; [done|]. by injection Hcl as <- <-.
Qed.

Lemma store_Close_spec unmap walIO e1 e2 e3 c d base ops lost d' c' err :
  store_inv c d base ops lost -> zlen ops + 2 < u64_max -> w_poisoned (c_wal c) = None -> w_readOnly (c_wal c) = false ->
  w_closed (c_wal c) = false -> io_sync walIO = None ->
  store_Close unmap walIO e1 e2 e3 c d = (d', (c', err)) ->
  c_closed c' = true /\ safe d' (contents (abs (c_manager c))).
Proof.
  intros Hinv Hb Hp Hwro Hwop Hio H. assert (lost = None) as -> by by eapply store_not_lost.
  destruct (sv_open _ _ _ _ _ Hinv) as (Hopen & Hro & _). unfold store_Close in H.
  destruct (sg_Close unmap (c_manager c)) as [m merr]. rewrite Hopen in H.
  destruct (WAL_Close walIO (c_wal c)) as [wal' werr] eqn:Ecl. injection H as <- <- _. split; [done|].
  destruct (store_close_log c d base ops walIO wal' werr Hinv Hp Hro Hwro Hio Ecl Hwop) as (wal1 & Hinv1 & Hd1 & Hp1 & Hfile).
  intros d2 options Hc Hro2. cbn [with_log c_walPath c_wal] in Hc. unfold with_log in Hc. cbn [c_walPath c_wal] in Hc. rewrite <- Hfile in Hc.
  destruct (store_synced_crash (c_set_wal c wal1) d base ops None d2 options Hinv1 Hb Hc Hro2 Hd1 Hp1) as (c2 & Ho & Hinv2 & HC). eauto 6.
Qed.

End store_safety.
