(* ===== verification/FlushSafety.v ===== *)
(** * Flushing is safe

    Whatever the system calls of [Flush] answer and wherever a crash strikes
    once the log is synchronized, the collection opens to the contents it had.
    When the last synchronization of the directory fails, the handle goes on and
    the directory can still fall back to the old checkpoint. *)
From S2P Require Import Prelude Bytes Utf8 KeyStore IdMap FileIO Wal Paths Snapshot Json JsonText Names Manifest ManifestFile ManifestJson VersionManager Segment SegmentManager WriteEngine Recovery Durability Rotation Storage Collection Checkpoint Preparation StoreSafety.
From stdpp Require Import sorting.
#[local] Open Scope string_scope.
#[local] Open Scope list_scope.
#[local] Open Scope Z_scope.

Section flush_safety.
Context {DB : Type} `{Hkv : KVStore DB} {Hlaws : KVStoreLaws DB} {S : Setting DB}.
Implicit Types (d : disk DB) (m : SegmentManager DB) (c : CollectionStore DB).


(** The engine after the rotation. *)
Definition next_engine (p : prepared (DB := DB)) m' : WriteEngine DB WAL :=
  {| e_manager := ReplacePrimaryKeys (pr_primary p) m'; e_wal := pr_wal p; e_poisoned := None |}.

Lemma next_engine_inv d m w se p :
  next_checkpoint dir d m w se p -> a_inv (abs m) -> exists m', rotate_segments m w (pr_immutable p) (pr_nextWriting p) = (m', None) /\
    held d (pr_manifest p) (abs (ReplacePrimaryKeys (pr_primary p) m')) (next_engine p m') [] None /\
    contents (abs (ReplacePrimaryKeys (pr_primary p) m')) = contents (abs m).
Proof.
  intros [Hrot [Hpi Hpv] Hlog [Hw Hpath] Hst Hck Henc] Ha.
  destruct (rotate_abs m w (pr_immutable p) (pr_nextWriting p) (pr_primary p) Ha Hrot Hpv) as (m' & Hm' & Ha' & Hc' & Hw' & _).
  exists m'. split; [done|]. split; [|done]. split; [by apply Hck| |].
  - exists (pr_walPath p), (w_file (pr_wal p)). split; [|done]. split; [|done]. by eexists.
  - split; cbn [next_engine e_manager e_wal]; try done; [by rewrite Hw'|apply Hlog].
Qed.

(** While the next manifest is published, either one may be found. *)
Lemma publishing_safe c d base ops w io p s tr d' c' err :
  store_inv c d base ops None -> zlen ops + 2 < u64_max -> w_dirtyRecords (c_wal c) = 0 ->
  fresh_state (with_log c d) s ->
  next_checkpoint dir (ss_disk s) (c_manager c) w (w_SyncEvery (c_wal c)) p ->
  store_publish CtxLive io (pr_manifest p) c (ss_disk s) = (tr, (d', (c', err))) ->
  (forall dd, dd ∈ d' :: tr -> safe dd (contents (abs (c_manager c)))) /\
  exists root vm, d' = disk_set_root root (ss_disk s) /\ c' = c_set_versions c vm /\
    if committed c c' then checkpoint_part (vm_current vm) = checkpoint_part (pr_manifest p) /\ manifest_encodable (vm_current vm) /\
         (po_sync2 io = None -> vm_inv root vm [] /\ err = errors_Join [po_unlock io])
    else vm = c_versions c /\ err <> None /\ vm_inv root vm [].
Proof.
  intros Hinv Hb Hd [Hk _] Hnc H. destruct (store_a_inv _ _ _ _ _ Hinv) as [Ha _].
  destruct (next_engine_inv _ _ _ _ _ Hnc Ha) as (m' & Hm' & Hh & HC).
  destruct (publishing_next c d base ops io (pr_manifest p) (ss_disk s) _ _ [] (contents (abs (c_manager c))) tr d' c' err Hinv Hb Hd Hk Hh)
    as (Htr & Hd' & root & vm & -> & -> & Hres); [done| |apply Hnc|done|].
  { split; [done|]. split; [apply (nc_wal _ _ _ _ _ _ Hnc)|]. split; [apply Hh|exact HC]. }
  split.
  - intros dd Hdd d2 options Hc Hro.
    assert (safe_in dd (fun X => X = contents (abs (c_manager c)) \/ X = contents (abs (c_manager c)))) as Hs.
    { apply elem_of_cons in Hdd as [->|Hdd]; [done|by apply Htr]. }
    destruct (Hs d2 options Hc Hro) as (c2 & b2 & o2 & H1 & H2 & H3). exists c2, b2, o2. split; [done|]. split; [done|]. by destruct H3.
  - exists root, vm. split; [done|]. split; [done|]. destruct (committed _ _); [|done]. destruct Hres as ([g Hg] & H2 & H3).
    split; [by rewrite Hg|done].
Qed.

Lemma flush_rotate_ok io p w perr c d s base ops vm root d' c' err :
  store_inv c d base ops None -> fresh_state (with_log c d) s ->
  f_stable (w_file (c_wal c)) = length (f_content (w_file (c_wal c))) ->
  next_checkpoint dir (ss_disk s) (c_manager c) w (w_SyncEvery (c_wal c)) p ->
  checkpoint_part (vm_current vm) = checkpoint_part (pr_manifest p) -> manifest_encodable (vm_current vm) ->
  flush_rotate io p w perr (c_set_versions c vm) (disk_set_root root (ss_disk s)) = (d', (c', err)) ->
  d' = disk_set_root root (ss_disk s) /\ c_versions c' = vm /\ contents (abs (c_manager c')) = contents (abs (c_manager c)) /\
  (c_walPath c' = pr_walPath p /\ sg_deletes (c_manager c') = sg_deletes (c_manager c) /\
   requireWritableLocked c' = None /\ c_engine c' = Some None /\ engine_inv (abs (c_manager c')) (store_engine c' None) [] None /\
   w_SyncEvery (c_wal c') = w_SyncEvery (c_wal c) /\ w_dirtyRecords (c_wal c') = 0) /\
  (exists next, sg_writing (c_manager c') = Some next /\ ws_docs next = []) /\ HasRecords (c_wal c') = false /\
  (vm_inv root vm [] -> exists base', store_inv c' d' base' [] None) /\
  (perr = None -> WAL_Close (fo_closeWAL io) (c_wal c) = ((WAL_Close (fo_closeWAL io) (c_wal c)).1, None) ->
     fo_closePrimary io = None -> fo_removeWorking io = None -> err = None).
Proof.
  intros Hinv Hs Hstab Hnc Hpart Henc H. pose proof Hs as [Hk _].
  destruct (store_a_inv _ _ _ _ _ Hinv) as [Ha _]. destruct (next_engine_inv _ _ _ _ _ Hnc Ha) as (m' & Hm' & Hh & HC).
  unfold flush_rotate in H. unfold rotate_segments in Hm'. cbn [c_manager c_set_versions c_wal c_walPath] in H. rewrite Hm' in H.
  destruct (WAL_Close (fo_closeWAL io) (c_wal c)) as [old cerr] eqn:Ecl. injection H as Hd Hc Herr.
  rewrite (close_log_same c d _ root _ _ _ Hstab Hk Ecl) in Hd.
  split; [done|]. rewrite <- Hc. split; [done|]. split; [exact HC|]. split; [|split; [|split; [|split]]].
  - split; [done|]. pose proof (sv_open _ _ _ _ _ Hinv) as (Ho1 & Ho2 & Ho3).
    split; [|unfold requireWritableLocked; cbn; rewrite Ho1, Ho2, Ho3; split; [done|split; [done|split; [apply Hh|split; apply (nc_wal _ _ _ _ _ _ Hnc)]]]].
    destruct (rotate_abs _ _ _ _ (pr_primary p) Ha (nc_rotation _ _ _ _ _ _ Hnc) (proj2 (nc_primary _ _ _ _ _ _ Hnc)))
      as (m2 & Hm2 & _ & _ & _ & Hd2 & _). unfold rotate_segments in Hm2. rewrite Hm' in Hm2. by injection Hm2 as <-.
  - destruct (nc_rotation _ _ _ _ _ _ Hnc) as [_ _ (_ & Hnd & _) _ _]. exists (pr_nextWriting p). split; [|done].
    pose proof (nc_rotation _ _ _ _ _ _ Hnc) as Hrot.
    destruct (rotate_abs _ _ _ _ (pr_primary p) Ha Hrot (proj2 (nc_primary _ _ _ _ _ _ Hnc))) as (m2 & Hm2 & _ & _ & Hw2 & _).
    unfold rotate_segments in Hm2. rewrite Hm' in Hm2. by injection Hm2 as <-.
  - cbn. destruct (nc_wal _ _ _ _ _ _ Hnc) as ([Hwi _ _] & _). destruct (HasRecords (pr_wal p)) eqn:E; [|done].
    by apply (HasRecords_spec _ _ Hwi) in E.
  - intros Hvm. exists (abs (ReplacePrimaryKeys (pr_primary p) m')). rewrite <- Hd. destruct (nc_path _ _ _ _ _ _ Hnc) as [Hw Hpath].
    apply (installed_store_inv c d base ops vm root (ss_disk s) (pr_manifest p) _ _ _ (w_SyncEvery (c_wal c))); try done.
    + split; [by eexists|done].
    + apply (nc_log _ _ _ _ _ _ Hnc).
    + apply (nc_wal _ _ _ _ _ _ Hnc).
  - intros Hp Hcl Hq Hr. injection Hcl as ->. by rewrite <- Herr, Hp, Hq, Hr.
Qed.

(** What a flush leaves alone: the artifacts but for the log, none of which
    becomes the new log, the deletions and the mapping of segments. *)
Record flush_keeps c d c' d' : Prop := {
  fk_disk : forall n a, n <> c_walPath c -> stable d n a -> stable d' n a /\ n <> c_walPath c';
  fk_deletes : sg_deletes (c_manager c') = sg_deletes (c_manager c);
  fk_files : forall n a, n <> c_walPath c -> stable d n a -> n ∉ checkpoint_files (vm_current (c_versions c)) ->
    n ∉ checkpoint_files (vm_current (c_versions c'));
  fk_mmap : mf_EnableMmap (vm_current (c_versions c')) = mf_EnableMmap (vm_current (c_versions c))
}.
Lemma flush_keeps_stable c d d' n a :
  keeps (with_log c d) d' -> n <> c_walPath c -> stable d n a -> stable d' n a.
Proof. intros Hk Hn [Hf Ht]. apply (stable_keeps (with_log c d)); [done|]. split; [|done]. cbn. by rewrite lookup_insert_ne. Qed.

(** What [Flush] may do: every disk it passes through after the log is
    synchronized opens to the same contents [C], the last one being its result;
    the contents in memory stay; and it either moves to the next checkpoint with
    an empty write segment and log, or leaves the checkpoint and the log. *)
Record flush_outcome c d base ops lost (sync2 : option gerror) tr d' c' (err : option gerror) : Prop := {
  fl_crash : forall dd, dd ∈ tr -> safe dd (contents (abs (c_manager c)));
  fl_result : match last tr with Some dd => d' = dd | None => d' = d end;
  fl_contents : contents (abs (c_manager c')) = contents (abs (c_manager c));
  fl_committed : committed c c' = true -> lost = None /\
    (exists next, sg_writing (c_manager c') = Some next /\ ws_docs next = []) /\ HasRecords (c_wal c') = false /\
    (sync2 = None -> exists base', store_inv c' d' base' [] None);
  fl_unsynced : committed c c' = true -> sync2 <> None ->
    requireWritableLocked c' = None /\ c_engine c' = Some None /\ engine_inv (abs (c_manager c')) (store_engine c' None) [] None /\
    w_SyncEvery (c_wal c') = w_SyncEvery (c_wal c) /\ w_dirtyRecords (c_wal c') = 0 /\
    forall f, reverts_to (disk_put (c_walPath c') (RegularFile f) d') (contents (abs (c_manager c)));
  fl_keeps : flush_keeps c d c' d';
  fl_refused : committed c c' = false -> store_inv c' d' base ops lost /\
    (err = None -> tr = [] /\ (exists w, sg_writing (c_manager c) = Some w /\ ws_docs w = []) /\ ops = [])
}.

Lemma flush_stops c d base ops lost sync2 c' err :
  store_inv c' d base ops lost -> c_versions c' = c_versions c -> c_manager c' = c_manager c -> c_walPath c' = c_walPath c ->
  (err = None -> (exists w, sg_writing (c_manager c) = Some w /\ ws_docs w = []) /\ ops = []) ->
  flush_outcome c d base ops lost sync2 [] d c' err.
Proof.
  intros Hinv Hv Hm Hp He. split; [by intros ? ?%elem_of_nil|done|by rewrite Hm| | | |].
  1,2: intros Hc; unfold committed in Hc; by rewrite Hv, Z.eqb_refl in Hc.
  - split; [|by rewrite Hm|by rewrite Hv|by rewrite Hv]. intros n a Hn Hs. by rewrite Hp.
  - intros _. split; [done|]. intros Hn. split; [done|by apply He].
Qed.

(** Nothing was published: the artifacts are removed or left, and the manifest stays. *)
Lemma flush_abandons c d base ops sync2 tr s root removed c1 err :
  store_inv c1 d base ops None -> c_versions c1 = c_versions c -> c_manager c1 = c_manager c -> c_walPath c1 = c_walPath c ->
  fresh_state (with_log c1 d) s -> vm_inv root (c_versions c1) [] ->
  (forall dd, dd ∈ tr -> safe dd (contents (abs (c_manager c)))) -> err <> None -> zlen ops + 2 < u64_max ->
  w_dirtyRecords (c_wal c1) = 0 ->
  let d' := cleanup removed (ss_created s) (disk_set_root root (ss_disk s)) in
  flush_outcome c d base ops None sync2 (tr ++ [d']) d' c1 err.
Proof.
  intros Hinv Hv Hm Hp Hs Hvm Htr Herr Hb Hd d'. destruct (abandoned_inv c1 d base ops s root removed Hinv Hs Hvm Hb Hd) as [Hinv' Hsafe].
  split; [|by rewrite last_snoc|by rewrite Hm| | | |].
  - intros dd [Hdd| ->%list_elem_of_singleton]%elem_of_app; [by apply Htr|]. by rewrite <- Hm.
  - intros Hc. unfold committed in Hc. by rewrite Hv, Z.eqb_refl in Hc.
  - intros Hc. unfold committed in Hc. by rewrite Hv, Z.eqb_refl in Hc.
  - split; [|by rewrite Hm|by rewrite Hv|by rewrite Hv]. intros n a Hn Hst. rewrite Hp. split; [|done]. unfold d'. rewrite cleanup_set_root.
    rewrite <- Hp in Hn. exact (flush_keeps_stable c1 d _ n a (keeps_cleanup _ _ removed Hs) Hn Hst).
  - intros _. split; [done|]. intros Hn. by destruct Herr.
Qed.

Lemma Flush_spec io c d base ops lost tr d' c' err :
  store_inv c d base ops lost -> zlen ops + 2 < u64_max -> Flush dir CtxLive io c d = (tr, (d', (c', err))) ->
  flush_outcome c d base ops lost (po_sync2 (fo_publish io)) tr d' c' err.
Proof.
  intros Hinv Hb H. unfold Flush in H. cbn [ctx_guard] in H.
  destruct (requireWritableLocked c); [injection H as <- <- <- <-; by apply flush_stops|].
  destruct (WAL_Sync CtxLive (fo_sync io) (c_wal c)) as [wal serr] eqn:Es.
  destruct (store_inv_sync c d base ops lost _ _ _ Hinv Es) as (Hinv1 & Hse & Hok).
  destruct serr as [e|]; [injection H as <- <- <- <-; by apply flush_stops|].
  destruct (Hok eq_refl) as (-> & Hpo & Hd & Hstab). clear Hok. set (c1 := c_set_wal c wal) in *.
  change (c_manager c1) with (c_manager c) in H.
  destruct (sg_writing (c_manager c)) as [w|] eqn:Ew; [|injection H as <- <- <- <-; by apply flush_stops].
  destruct ((sm_DocCount (ws_Metadata w) =? 0) && negb (HasRecords wal)) eqn:Enothing.
  { injection H as <- <- <- <-. apply flush_stops; [done|done|done|done|]. intros _.
    apply andb_true_iff in Enothing as [E1 E2]. to_prop. split; [exists w; split; [done|by apply zlen_0_nil]|].
    destruct (sv_engine _ _ _ _ _ Hinv1) as (q & _ & _ & He). pose proof (ls_inv _ _ _ (ei_log _ _ _ _ He)) as Hwi.
    destruct ops as [|op ops]; [done|]. exfalso.
    apply not_true_iff_false in E2. apply E2, (HasRecords_spec _ _ Hwi). done. }
  pose proof (store_prepare_pre c1 d base ops None w Hinv1 Ew) as Hpre.
  pose proof (swp_flush_prepare dir dir_nonempty io c1 w (with_log c1 d) Hpre) as Hswp. unfold swp in Hswp.
  assert (Hkeep : forall d1, keeps (with_log c1 d) d1 -> safe d1 (contents (abs (c_manager c)))) by (intros d1; by apply (current_safe c1 d base ops)).
  destruct (flush_prepare dir CtxLive io c1 w {| ss_disk := with_log c1 d; ss_created := [] |}) as [ptr [s r]].
  destruct Hswp as (Hptr & Hs & Hr). rewrite Forall_forall in Hptr.
  destruct r as [p|e].
  2:{ injection H as <- <- <- <-. rewrite <- (disk_set_root_id (ss_disk s)).
      apply (flush_abandons c d base ops _ ptr s); try done; [|by intros dd Hdd; apply Hkeep, Hptr].
      rewrite (kp_root _ _ (fs_keeps _ _ Hs)). apply Hinv1. }
  destruct Hr as (Hnc & Hfree & _ & Hmmap & Hnames).
  destruct (store_publish CtxLive (fo_publish io) (pr_manifest p) c1 (ss_disk s)) as [qtr [d2 [c2 perr]]] eqn:Epub.
  destruct (publishing_safe c1 d base ops w (fo_publish io) p s qtr d2 c2 perr Hinv1 Hb Hd Hs Hnc Epub)
    as (Hqtr & root & vm & -> & -> & Hres).
  assert (Htr : forall dd, dd ∈ ptr ++ qtr -> safe dd (contents (abs (c_manager c)))).
  { intros dd [Hdd|Hdd]%elem_of_app; [by apply Hkeep, Hptr|apply Hqtr; by right]. }
  destruct (committed c1 (c_set_versions c1 vm)) eqn:Ecom; cbn [negb] in H.
  2:{ destruct Hres as (-> & Hperr & Hvm). injection H as <- <- <- <-.
      apply (flush_abandons c d base ops _ (ptr ++ qtr) s root _ (c_set_versions c1 (c_versions c1))); done. }
  destruct Hres as (Hpart & Henc & Hsync).
  destruct (flush_rotate io p w perr (c_set_versions c1 vm) (disk_set_root root (ss_disk s))) as [d3 [c3 ferr]] eqn:Erot.
  destruct (flush_rotate_ok io p w perr c1 d s base ops vm root d3 c3 ferr Hinv1 Hs Hstab Hnc Hpart Henc Erot)
    as (-> & Hv & HC & (Hpath & Hdel & Hgoes) & Hnext & Hrec & Hst & _). injection H as <- <- <- <-.
  split; [|by rewrite last_snoc|exact HC| | | |].
  - intros dd [Hdd| ->%list_elem_of_singleton]%elem_of_app; [by apply Htr|apply Hqtr; by left].
  - intros _. do 3 (split; [done|]). intros Hpo2. apply Hst. by apply Hsync.
  - intros _ Hs2. do 3 (split; [apply Hgoes|]). split; [by destruct Hgoes as (_ & _ & _ & -> & _)|]. split; [apply Hgoes|]. intros f. rewrite Hpath.
    exact (published_reverts c1 d base ops s _ _ _ _ _ _ _ f Hinv1 Hb Hd Hs Hfree (nc_encodable _ _ _ _ _ _ Hnc) Epub Ecom Hs2).
  - split; [|exact Hdel| |]. 3:{ rewrite Hv. injection Hpart as Hx _ _ _ _ _ _. rewrite Hx. exact Hmmap. }
    2:{ intros n a Hn [Hsn _] Hc Hin. rewrite Hv in Hin. apply Hc.
        assert (checkpoint_files (vm_current vm) = checkpoint_files (pr_manifest p)) as Hcf.
        { injection Hpart as _ _ H3 _ _ H6 H7. unfold checkpoint_files. by rewrite H3, H6, H7. }
        rewrite Hcf in Hin. destruct (Hnames n Hin) as [|Hno]; [done|]. cbn in Hno. apply lookup_insert_None in Hno as [Hno _]. congruence. }
    intros n a Hn Hsn. split; [exact (flush_keeps_stable c1 d _ n a (fs_keeps _ _ Hs) Hn Hsn)|]. rewrite Hpath. intros ->.
    cbn in Hfree. apply lookup_insert_None in Hfree as [Hfree _]. destruct Hsn as [Hsn _]. congruence.
  - unfold committed in *. rewrite Hv. cbn [c_versions c_set_versions] in Ecom. change (c_versions c) with (c_versions c1). congruence.
Qed.

End flush_safety.
