(* ===== verification/CreationSafety.v ===== *)
(** * Creation is atomic

    [CreateCollection] leaves no collection or an empty one, wherever a crash
    strikes. *)
From S2P Require Import Prelude Bytes Utf8 KeyStore IdMap FileIO Wal Paths Snapshot Json JsonText Names Manifest ManifestFile ManifestJson VersionManager Segment SegmentManager WriteEngine Recovery Durability Rotation Storage Collection Checkpoint Preparation StoreSafety.
From stdpp Require Import sorting.
#[local] Open Scope string_scope.
#[local] Open Scope list_scope.
#[local] Open Scope Z_scope.

Section creation_safety.
Context {DB : Type} `{Hkv : KVStore DB} {Hlaws : KVStoreLaws DB} {S : Setting DB}.
Implicit Types (d : disk DB) (m : SegmentManager DB) (c : CollectionStore DB).


(** ** Creation *)
Lemma safe_is_safe d C : safe d C -> safe_or_absent d C.
Proof. intros Hs d' options Hc Hro. right. by apply Hs. Qed.

(** The store over a manager without documents and its new log. *)
Record fresh_store d m (wal : WAL) (manifest : Manifest) : Prop := {
  fr_checkpoint : checkpoint_on_disk dir d manifest (abs m);
  fr_log : names_log manifest (walFileName 0 1) /\ stable d (walFileName 0 1) (RegularFile (w_file wal));
  fr_wal : exists se, new_log wal se;
  fr_engine : idmap_inv (sg_primaryKey m) /\ a_inv (abs m) /\ sg_writing m <> None /\ contents (abs m) = ∅
}.

Lemma fresh_candidate d m wal manifest manifest' r :
  fresh_store d m wal manifest -> checkpoint_part manifest' = checkpoint_part manifest -> manifest_encodable manifest' ->
  candidate (disk_set_root r d) (Some (manifest_normal manifest')) (fun _ => settled_engine ∅) /\
  engine_inv (abs m) {| e_manager := m; e_wal := wal; e_poisoned := None |} [] None.
Proof.
  intros [Hck [Hn Hst] (se & Hls & Hp & _ & _ & _ & Hd) (Hi & Ha & Hw & HC)] Hpart Henc.
  assert (engine_inv (abs m) {| e_manager := m; e_wal := wal; e_poisoned := None |} [] None) as He by (split; done).
  split; [|done]. exists manifest', (abs m), {| e_manager := m; e_wal := wal; e_poisoned := None |}, [], None.
  split; [done|]. split; [done|]. split; [|done]. apply held_root, (held_same d manifest); [done|].
  split; [done| |done]. exists (walFileName 0 1), (w_file wal). done.
Qed.

Lemma names_log_create schema options capacity : names_log (create_manifest schema options capacity) (walFileName 0 1).
Proof.
  split; [by eexists|]. split; [|apply plain_log]. unfold checkpoint_files. cbn [create_manifest mf_IDMap mf_DeleteSnapshotGeneration mf_PersistedSegments fmap list_fmap mjoin list_join].
  rewrite !not_elem_of_cons. split; [vm_compute; discriminate|]. split; [vm_compute; discriminate|apply not_elem_of_nil].
Qed.

Lemma CreateCollection_spec io schema options d tr d' res err :
  pub_state (dk_root d) None [] -> schema_nested schema -> is_u64 (opt_SegmentMaxDocuments options) ->
  CreateCollection dir CtxLive io schema options d = (tr, (d', (res, err))) ->
  (forall dd, dd ∈ d' :: tr -> safe_or_absent dd ∅) /\
  match res with
  | None => err <> None /\ pub_state (dk_root d') None []
  | Some c => contents (abs (c_manager c)) = ∅ /\ w_SyncEvery (c_wal c) = opt_SyncEvery options /\ w_dirtyRecords (c_wal c) = 0 /\
      (po_sync2 (co_publish io) = None -> safe d' ∅ /\ store_inv c d' (abs (c_manager c)) [] None)
  end.
Proof.
  intros Hpub Hschema Hcap0 H. unfold CreateCollection in H.
  assert (Habs : forall dd, pub_state (dk_root dd) None [] -> safe_or_absent dd ∅).
  { intros dd Hp. apply (safe_or_absent_intro dd None []); [done|]. intros y ->%list_elem_of_singleton. by left. }
  assert (Hstop : forall e : gerror, (forall dd, dd ∈ [d] -> safe_or_absent dd ∅) /\ Some e <> None /\ pub_state (dk_root d) None []).
  { intros e. split; [|done]. intros dd ->%list_elem_of_singleton. by apply Habs. }
  destruct (String.eqb_spec dir ""); [by destruct dir_nonempty|].
  destruct (opt_ReadOnly options); [by injection H as <- <- <- <-|]. cbn [ctx_Err] in H.
  set (capacity := if opt_SegmentMaxDocuments options =? 0 then DefaultSegmentMaxDocuments else opt_SegmentMaxDocuments options) in *.
  assert (is_u64 capacity) as Hcap by (unfold capacity; case_if; [done|exact Hcap0]).
  destruct (validateSchemaJSON schema); [|by injection H as <- <- <- <-].
  destruct (co_lock io); [by injection H as <- <- <- <-|].
  destruct (OpenVersionManager _ _ _); [by injection H as <- <- <- <-|].
  destruct (negb _); [by injection H as <- <- <- <-|]. clear Hstop.
  pose proof (swp_create_prepare dir io schema options capacity d Hcap) as Hswp. unfold swp in Hswp.
  destruct (create_prepare CtxLive io options capacity {| ss_disk := d; ss_created := [] |}) as [ptr [s r]].
  destruct Hswp as (Hptr & Hs & Hr). rewrite Forall_forall in Hptr.
  assert (Hptr' : forall dd, dd ∈ ptr -> safe_or_absent dd ∅).
  { intros dd Hdd. apply Habs. by rewrite (kp_root _ _ (Hptr dd Hdd)). }
  pose proof (kp_root _ _ (fs_keeps _ _ Hs)) as Hroot.
  destruct r as [[m wal]|e1].
  2:{ injection H as <- <- <- <-. rewrite dk_root_cleanup, Hroot. split; [|done].
      assert (safe_or_absent (cleanup (co_removed io) (ss_created s) (ss_disk s)) ∅) as Hl by (apply Habs; by rewrite dk_root_cleanup, Hroot).
      intros dd [->|[Hdd| ->%list_elem_of_singleton]%elem_of_app]%elem_of_cons; [done|by apply Hptr'|done]. }
  change {| mf_FormatVersion := DiskFormatVersion; mf_Generation := 0; mf_Schema := schema;
    mf_EnableMmap := opt_EnableMmap options; mf_SegmentMaxDocuments := capacity; mf_PersistedSegments := [];
    mf_WritingSegment := Some (writing_metadata 0 (walFileName 0 1)); mf_WritingSegmentStartDocID := 0;
    mf_IDMap := IDMapCheckpointName 1; mf_DeleteSnapshotGeneration := 1; mf_NextSegmentID := 1;
    mf_SegmentIndexSnapshots := [] |} with (create_manifest schema options capacity) in H.
  set (manifest := create_manifest schema options capacity) in *.
  destruct Hr as (Hlog & Hst & Hpk & (w & Hw & Hwd) & Ha & HC & Hck).
  assert (manifest_encodable manifest) as Henc by by apply create_encodable.
  assert (fresh_store (ss_disk s) m wal manifest) as Hfresh.
  { split; [done|split; [apply names_log_create|done]|by eexists|]. rewrite Hpk. split; [apply CreatePrimaryKeyMap_spec|]. rewrite Hw. done. }
  destruct (CreateVersionManager CtxLive (co_publish io) manifest (dk_root (ss_disk s))) as [qtr [root [vm verr]]] eqn:Ecv.
  apply (CreateVersionManager_spec (Hjson := setting_json) (Hlaws := setting_json_laws)) with (cands := []) in Ecv as [Hqtr Hres];
    [|intros g Hg; by apply encodable_prepare|by rewrite Hroot].
  assert (Htr : forall dd, dd ∈ ptr ++ ((fun r => disk_set_root r (ss_disk s)) <$> qtr) -> safe_or_absent dd ∅).
  { intros dd [Hdd|(r & -> & Hr)%list_elem_of_fmap]%elem_of_app; [by apply Hptr'|].
    destruct (Hqtr r Hr) as [Hp|[g Hp]]; [by apply Habs|]. eapply safe_or_absent_intro; [exact Hp|].
    intros y [->|[->|[]%elem_of_nil]%elem_of_cons]%elem_of_cons; [right|by left].
    apply (fresh_candidate (ss_disk s) m wal manifest); [done|done|]. apply encodable_prepare; [done|exact (proj1 (published_generation _ _ _ Hp))]. }
  destruct vm as [vm|].
  2:{ destruct Hres as [Herr Hp]. injection H as <- <- <- <-. rewrite dk_root_cleanup.
      assert (safe_or_absent (cleanup (co_removed io) (ss_created s) (disk_set_root root (ss_disk s))) ∅) as Hl.
      { apply Habs. by rewrite dk_root_cleanup. }
      split; [|done]. intros dd [->|[Hdd| ->%list_elem_of_singleton]%elem_of_app]%elem_of_cons; [done|by apply Htr|done]. }
  destruct Hres as ([g Hg] & [Hvn Hvp] & Hsync). injection H as <- <- <- <-. cbn [c_manager c_wal].
  assert (manifest_encodable (vm_current vm)) as Henc'.
  { rewrite Hg. apply encodable_prepare; [done|]. rewrite Hg in Hvp. exact (proj1 (published_generation _ _ _ Hvp)). }
  assert (checkpoint_part (vm_current vm) = checkpoint_part manifest) as Hpart by by rewrite Hg.
  assert (Hcand := fun r => proj1 (fresh_candidate (ss_disk s) m wal manifest (vm_current vm) r Hfresh Hpart Henc')).
  split; [|split; [done|]].
  - intros dd [->|Hdd]%elem_of_cons; [|by apply Htr]. eapply safe_or_absent_intro; [exact Hvp|].
    intros y [->|[->|[]%elem_of_nil]%elem_of_cons]%elem_of_cons; [right; apply Hcand|by left].
  - split; [apply Hlog|]. split; [apply Hlog|]. intros Hpo. specialize (Hsync Hpo) as Hvm. split.
    + destruct Hvm as [_ Hp]. eapply safe_intro; [exact Hp|]. intros y ->%list_elem_of_singleton. apply Hcand.
    + split; cbn; [done|exact Hvm|done|unfold u64_max; lia| |].
      * split; [|apply Hst]. by apply (names_log_same manifest), names_log_create.
      * exists None. split; [done|]. split; [|by apply (fresh_candidate (ss_disk s) m wal manifest (vm_current vm) root)].
        eapply checkpoint_same; [exact Hpart|]. eapply checkpoint_transfer; [..|exact Hck]; done.
Qed.

End creation_safety.
