(* ===== verification/RewriteSafety.v ===== *)
(** * Rewriting is safe

    The runs of a rewrite are the maximal ones, the segments built from them
    hold exactly the given documents, and wherever a crash strikes the
    collection opens to the old contents or to the rewritten ones. *)
From S2P Require Import Prelude Bytes Utf8 KeyStore IdMap FileIO Wal Paths Snapshot Json JsonText Names Manifest ManifestFile ManifestJson VersionManager Segment SegmentManager WriteEngine Recovery Durability Rotation Storage Collection Checkpoint Preparation StoreSafety Rewrite.
From stdpp Require Import sorting.
#[local] Open Scope string_scope.
#[local] Open Scope list_scope.
#[local] Open Scope Z_scope.

(** ** Runs *)

(** Documents with consecutive IDs after [previous]. *)
Fixpoint chain (previous : Z) (run : list StoredDocument) : Prop :=
  match run with
  | [] => True
  | document :: run => DocID document = wrap64 (previous + 1) /\ chain (DocID document) run
  end.
Definition last_id (previous : Z) (run : list StoredDocument) : Z := match last run with Some d => DocID d | None => previous end.

Lemma last_id_cons previous d run : last_id previous (d :: run) = last_id (DocID d) run.
Proof. unfold last_id. rewrite last_cons. by destruct (last run). Qed.

Lemma extend_run_spec maximum count previous documents run rest :
  extend_run maximum count previous documents = (run, rest) ->
  documents = run ++ rest /\ chain previous run /\ count + zlen run <= Z.max count maximum /\
  match rest with
  | [] => True
  | d :: _ => maximum <= count + zlen run \/ DocID d <> wrap64 (last_id previous run + 1)
  end.
Proof.
  revert count previous run rest. induction documents as [|d documents IH]; intros count previous run rest H; cbn [extend_run] in H.
  { injection H as <- <-. do 2 (split; [done|]). split; [change (zlen []) with 0; lia|done]. }
  destruct ((count <? maximum) && (DocID d =? wrap64 (previous + 1))) eqn:E.
  - apply andb_true_iff in E as [E1 E2]. to_prop.
    destruct (extend_run maximum (count + 1) (DocID d) documents) as [run' rest'] eqn:Er. injection H as <- <-.
    destruct (IH _ _ _ _ Er) as (H1 & H2 & H3 & H4). rewrite zlen_cons, last_id_cons. split; [by rewrite H1|]. split; [done|].
    split; [lia|]. destruct rest'; [done|]. destruct H4; [left; lia|by right].
  - injection H as <- <-. split; [done|]. split; [done|]. change (zlen []) with 0. split; [lia|].
    apply andb_false_iff in E as [E|E]; to_prop; [left; lia|by right].
Qed.

(** A run is not empty, within the capacity, and consecutive. *)
Definition run_ok (maximum : Z) (run : list StoredDocument) : Prop :=
  match run with d :: rest => chain (DocID d) rest /\ zlen run <= Z.max 1 maximum | [] => False end.
(** Between two runs there is a gap, or the first one is full. *)
Definition run_ends (maximum : Z) (run next : list StoredDocument) : Prop :=
  maximum <= zlen run \/ first_document next <> wrap64 (last_id 0 run + 1).
Fixpoint runs_end (maximum : Z) (runs : list (list StoredDocument)) : Prop :=
  match runs with
  | run :: (next :: _) as rest => run_ends maximum run next /\ runs_end maximum rest
  | _ => True
  end.

Lemma runs_loop_spec fuel maximum documents :
  (length documents <= fuel)%nat ->
  let runs := runs_loop fuel maximum documents in
  mjoin runs = documents /\ Forall (run_ok maximum) runs /\ runs_end maximum runs.
Proof.
  revert documents. induction fuel as [|fuel IH]; intros [|d documents] Hf; cbn [runs_loop]; [done|cbn in Hf; lia|done|].
  destruct (extend_run maximum 1 (DocID d) documents) as [run rest] eqn:E.
  destruct (extend_run_spec _ _ _ _ _ _ E) as (-> & Hc & Hl & Hend). cbn [length] in Hf. rewrite length_app in Hf.
  destruct (IH rest) as (Hj & Hok & He); [lia|]. split; [|split].
  - cbn [mjoin list_join]. cbn. f_equal. f_equal. exact Hj.
  - constructor; [|done]. split; [done|]. rewrite zlen_cons. lia.
  - destruct (runs_loop fuel maximum rest) as [|next runs] eqn:Er; [done|]. split; [|done].
    destruct fuel as [|fuel]; [done|]. destruct rest as [|d2 rest]; [done|]. cbn [runs_loop] in Er.
    destruct (extend_run maximum 1 (DocID d2) rest) as [r2 rest2]. injection Er as <- _. unfold run_ends.
    rewrite zlen_cons, last_id_cons. cbn [first_document]. destruct Hend; [left; lia|by right].
Qed.

Lemma rewriteDocumentRuns_spec documents maximum :
  let runs := rewriteDocumentRuns documents maximum in
  mjoin runs = documents /\ Forall (run_ok maximum) runs /\ runs_end maximum runs.
Proof. by apply runs_loop_spec. Qed.

(** ** The checks *)
Lemma check_rewrite_None documents currentLive keys :
  length documents = length currentLive -> check_rewrite documents currentLive keys = None ->
  Forall2 (fun x y => DocID x = DocID y /\ PrimaryKey x = PrimaryKey y) documents currentLive /\
  Forall (fun x => valid_key (PrimaryKey x) /\ zlen (doc_Payload x) <= MaxDocumentPayloadSize) documents /\
  NoDup (PrimaryKey <$> documents) /\ Forall (fun x => PrimaryKey x ∉ keys) documents.
Proof.
  revert currentLive keys. induction documents as [|x documents IH]; intros [|y currentLive] keys Hl H; try done.
  { split; [constructor|]. split; [constructor|]. split; [constructor|constructor]. }
  cbn [check_rewrite] in H. destruct (DocID x =? DocID y) eqn:E1; [|done]. destruct (bytes_eqb (PrimaryKey x) (PrimaryKey y)) eqn:E2; [|done].
  cbn [negb orb] in H. to_prop. apply bytes_eqb_eq in E2. destruct (ValidatePrimaryKey (PrimaryKey x)) as [[]|] eqn:Ek; [|done].
  destruct (_ <? _) eqn:E3; [done|]. to_prop. case_bool_decide as Hin; [done|]. injection Hl as Hl.
  destruct (IH currentLive _ Hl H) as (H1 & H2 & H3 & H4). split; [by constructor|]. split; [by constructor|].
  cbn [fmap list_fmap]. rewrite Forall_forall in H4. split.
  - constructor; [|done]. intros (z & Hz & Hz')%list_elem_of_fmap. apply (H4 z Hz'). rewrite <- Hz. set_solver.
  - constructor; [done|]. apply Forall_forall. intros z Hz. specialize (H4 z Hz). set_solver.
Qed.

(** ** Building the segments *)
Section rewriting.
Context {DB : Type} `{Hkv : KVStore DB} {Hlaws : KVStoreLaws DB}.
Context (dir : string) (Hdir : dir <> "").
Implicit Types (d : disk DB) (m : SegmentManager DB) (s : storage_state DB).

Lemma apply_run_spec run w w' :
  ws_inv w -> apply_run CtxLive run w = Ok w' ->
  ws_inv w' /\ ws_docs w' = ws_docs w ++ run /\ ws_id w' = ws_id w /\ ws_minDocID w' = ws_minDocID w.
Proof.
  revert w. induction run as [|x run IH]; intros w Hw H; cbn [apply_run] in H.
  { injection H as <-. by rewrite app_nil_r. }
  destruct (ApplyExpected _ _ _ _ w) as [w1 [e|]] eqn:Ea; [done|].
  destruct (ApplyExpected_appends _ _ _ w w1 Hw Ea) as (_ & _ & _ & Hd & Hi & Hm & _ & Hw1).
  destruct (IH w1 Hw1 H) as (H1 & H2 & H3 & H4). split; [done|]. split; [|split; congruence].
  rewrite H2, Hd, <- app_assoc. by destruct x.
Qed.

(** The IDMap maps exactly the keys of the documents to their IDs. *)
Definition view_of (view : gmap bytes Z) (documents : list StoredDocument) : Prop :=
  forall key id, view !! key = Some id <-> exists x, x ∈ documents /\ PrimaryKey x = key /\ DocID x = id.

Lemma view_of_insert view documents x :
  view_of view documents -> view !! PrimaryKey x = None -> view_of (<[PrimaryKey x := DocID x]> view) (documents ++ [x]).
Proof.
  intros Hv Hn key id. setoid_rewrite elem_of_app. setoid_rewrite list_elem_of_singleton. rewrite lookup_insert_Some, (Hv key id). split.
  - intros [[<- <-]|[Hne (y & Hy & H)]]; eauto.
  - intros (y & [Hy| ->] & <- & <-); [|by left]. right. split; [|by exists y].
    intros Heq. assert (is_Some (view !! PrimaryKey x)) as [? Hs]; [|congruence]. exists (DocID y). apply Hv. by exists y.
Qed.

Lemma put_run_spec run (pk pk' : PrimaryKeyMap DB) documents :
  idmap_inv pk -> view_of (idmap_view pk) documents -> Forall (fun x => is_u64 (DocID x)) run ->
  put_run CtxLive run pk = Ok pk' -> idmap_inv pk' /\ view_of (idmap_view pk') (documents ++ run).
Proof.
  intros Hi Hv Hu. revert pk documents Hi Hv. induction Hu as [|x run Hx Hu IH]; intros pk documents Hi Hv H; cbn [put_run] in H.
  { injection H as <-. by rewrite app_nil_r. }
  destruct (idmap_Put CtxLive (PrimaryKey x) (DocID x) pk) as [pk1 [[prev replaced]|]] eqn:Ep; [|done].
  destruct replaced; [done|]. destruct (idmap_Put_spec _ _ _ _ _ _ Hi Hx Ep) as (_ & Hprev & Hview & Hi1).
  assert (idmap_view pk !! PrimaryKey x = None) as Hn by (by destruct (idmap_view pk !! PrimaryKey x)).
  change (x :: run) with ([x] ++ run). rewrite app_assoc. apply (IH pk1); [done| |done].
  rewrite Hview. by apply view_of_insert.
Qed.

Lemma swp_run_segment d0 io text id generation mmap run s (Q : ImmutableSegment -> storage_state DB -> Prop) :
  fresh_state d0 s -> generation <= u64_max -> is_u64 id -> is_u64 (first_document run) -> is_u64 (zlen run) ->
  (forall im s', keeps (ss_disk s) (ss_disk s') -> segment_on_disk dir (ss_disk s') mmap im -> im_docs im = run ->
     im_ID im = id -> segment_encodable (im_metadata im) -> Forall (fun f => dk_files d0 !! f = None) (sm_Files (im_metadata im)) ->
     ss_created s' = ss_created s ++ sm_Files (im_metadata im) -> Q im s') ->
  swp d0 (run_segment dir CtxLive io text id generation mmap run) s Q.
Proof.
  intros Hs Hg Hid Hfirst Hlen HQ. unfold run_segment.
  apply swp_bind, swp_lift; [done|]. intros w Hw _. destruct (NewWriteSegment_inv _ _ _ _ Hid Hfirst Hlen Hw) as (Hwi & Hd & _ & Hwid & Hmin & _).
  apply swp_bind, swp_lift; [done|]. intros w1 Hw1 _. destruct (apply_run_spec run w w1 Hwi Hw1) as (Hwi1 & Hd1 & Hid1 & Hmin1).
  rewrite Hd in Hd1. cbn [app] in Hd1.
  apply swp_bind, swp_available; [done|done|]. intros relative g Hfree _ Hrel _.
  assert (dk_files d0 !! relative = None) as Hfree0 by (eapply keeps_free; [apply Hs|done]).
  apply swp_bind, swp_creating; [done|done|]. intros Hs1.
  apply swp_snapshot; [done|]. intros im file w' s' Hwr Hc.
  assert (snapshot_of dir (ss_disk s') w1 mmap relative (Some im)) as (Hdisk & Hdocs & Himid & Himmin & Hmd & Hsize).
  { apply (snapshot_file dir Hdir _ w1 mmap relative im file w'); [done|done|rewrite Hrel; apply plain_segment|exact (created_stable _ _ _ _ Hc)]. }
  apply HQ.
  - exact (created_keeps _ _ _ _ Hc).
  - done.
  - congruence.
  - congruence.
  - subst relative. apply (snapshot_encodable w1 im id g); [done|apply Hdisk|done|done|done|done].
  - rewrite Hmd. by apply Forall_singleton.
  - rewrite Hmd. by destruct Hc as (_ & _ & _ & ->).
Qed.

(** What the loop has built from the documents [documents]. *)
Record built d (bound : Z) (mmap : bool) (documents : list StoredDocument) m (metadata : list SegmentMetadata) : Prop := {
  bt_inv : sg_inv m;
  bt_empty : sg_writing m = None /\ sg_deletes m = ∅;
  bt_idmap : idmap_inv (sg_primaryKey m) /\ view_of (idmap_view (sg_primaryKey m)) documents;
  bt_docs : mjoin (im_docs <$> sg_ordered m) ≡ₚ documents;
  bt_segments : exists ims, metadata = im_metadata <$> ims /\ Forall (segment_on_disk dir d mmap) ims /\ ims ≡ₚ sg_ordered m /\
    Forall segment_encodable metadata /\ Forall (fun t => im_ID t < bound) ims
}.

Lemma built_keeps d d' bound mmap documents m metadata :
  keeps d d' -> built d bound mmap documents m metadata -> built d' bound mmap documents m metadata.
Proof.
  intros Hk [H1 H2 H3 H4 (ims & H5 & H6 & H7)]. split; try done. exists ims. split; [done|]. split; [|done].
  eapply Forall_impl; [exact H6|]. intros im. by apply segment_on_disk_keeps.
Qed.

Lemma built_add d bound mmap documents m metadata im m' pk :
  built d bound mmap documents m metadata -> segment_on_disk dir d mmap im -> im_ID im = bound -> segment_encodable (im_metadata im) ->
  AddImmutable im m = (m', None) -> Forall (fun x => is_u64 (DocID x)) (im_docs im) ->
  put_run CtxLive (im_docs im) (sg_primaryKey m) = Ok pk ->
  built d (bound + 1) mmap (documents ++ im_docs im) (m_set_pk m' pk) (metadata ++ [im_metadata im]).
Proof.
  intros [Hm [Hw Hd] [Hi Hv] Hdocs (ims & Hims & Hall & Hperm & Henc & Hids)] Hdisk Hid Hie Hadd Hu Hput.
  assert (m' = sg_install m im) as -> by (unfold AddImmutable in Hadd; clear -Hadd; repeat (case_in Hadd; try discriminate Hadd; simplify_eq; try done)).
  destruct (AddImmutable_inv m im _ Hm (proj1 Hdisk) Hadd) as (Hm' & Hw' & Ho').
  destruct (put_run_spec _ _ _ documents Hi Hv Hu Hput) as [Hi' Hv'].
  split; cbn [m_set_pk sg_set_stores sg_install sg_writing sg_deletes sg_primaryKey sg_ordered].
  - destruct Hm'. by split.
  - done.
  - done.
  - rewrite (insertOrdered_perm im (sg_ordered m)). cbn [fmap list_fmap mjoin list_join]. rewrite <- Hdocs. apply Permutation_app_comm.
  - exists (ims ++ [im]). split; [by rewrite fmap_app, Hims|]. split; [apply Forall_app; split; [done|by apply Forall_singleton]|].
    split; [rewrite insertOrdered_perm, <- Hperm; symmetry; apply Permutation_cons_append|].
    split; [apply Forall_app; split; [done|by apply Forall_singleton]|]. apply Forall_app. split; [|constructor; [lia|constructor]].
    eapply Forall_impl; [exact Hids|]. intros t Ht. cbn in Ht. lia.
Qed.

Lemma swp_rewrite_runs d0 io generation mmap runs maximum bound index m metadata documents s
    (Q : SegmentManager DB * list SegmentMetadata -> storage_state DB -> Prop) :
  fresh_state d0 s -> generation <= u64_max -> is_u64 maximum -> 0 <= bound -> bound + zlen runs <= u64_max ->
  Forall (run_ok maximum) runs -> Forall (fun x => is_u64 (DocID x)) (mjoin runs) ->
  built (ss_disk s) bound mmap documents m metadata ->
  (forall m' more s', keeps (ss_disk s) (ss_disk s') ->
     built (ss_disk s') (bound + zlen runs) mmap (documents ++ mjoin runs) m' (metadata ++ more) -> Q (m', more) s') ->
  swp d0 (rewrite_runs dir CtxLive io bound generation mmap index runs m) s Q.
Proof.
  intros Hs Hg Hmax Hb0 Hb Hok. revert bound index m metadata documents s Q Hs Hb0 Hb.
  induction Hok as [|run runs Hrun Hok IH]; intros bound index m metadata documents s Q Hs Hb0 Hb Hu Hbuilt HQ; cbn [rewrite_runs].
  { apply swp_ret; [done|]. apply HQ; [done|]. change (zlen []) with 0. cbn [mjoin list_join]. by rewrite Z.add_0_r, !app_nil_r. }
  rewrite zlen_cons in Hb, HQ. pose proof (zlen_nonneg runs). cbn [mjoin list_join] in Hu. apply Forall_app in Hu as [Hur Hu].
  assert (is_u64 (first_document run) /\ is_u64 (zlen run)) as [Hfirst Hlen].
  { destruct run as [|x run]; [done|]. destruct Hrun as [_ Hl]. apply Forall_cons in Hur as [Hx _]. split; [done|].
    pose proof (zlen_nonneg (x :: run)). unfold is_u64, u64_max in *. lia. }
  apply swp_bind, swp_run_segment; [done|done|unfold is_u64; lia|done|done|].
  intros im s1 Hk1 Hdisk Hdocs Hid Hie _ _ Hs1.
  destruct (AddImmutable im m) as [m1 [e|]] eqn:Eadd; [by apply swp_bind, swp_lift|].
  apply swp_bind, swp_lift; [done|]. intros m1' [= <-] _.
  apply swp_bind, swp_lift; [done|]. intros pk Hput _.
  assert (sg_primaryKey m1 = sg_primaryKey m) as Hpk.
  { unfold AddImmutable in Eadd. clear -Eadd. repeat (case_in Eadd; try discriminate Eadd; simplify_eq; try done). }
  rewrite Hpk, <- Hdocs in Hput.
  pose proof (built_add (ss_disk s1) bound mmap documents m metadata im m1 pk (built_keeps _ _ _ _ _ _ _ Hk1 Hbuilt) Hdisk Hid Hie Eadd
    ltac:(by rewrite Hdocs) Hput) as Hb1.
  apply swp_bind. apply (IH (bound + 1) (S index) _ (metadata ++ [im_metadata im]) (documents ++ im_docs im)); [done|lia|lia|done|done|].
  intros m2 more s2 Hk2 Hb2 Hs2. apply swp_ret; [done|]. apply HQ; [by transitivity (ss_disk s1)|].
  rewrite Hdocs, <- !app_assoc in Hb2. cbn [mjoin list_join app] in Hb2 |- *. by replace (bound + (zlen runs + 1)) with (bound + 1 + zlen runs) by lia.
Qed.

(** ** The next generation *)

(** The contents that the documents stand for. *)
Definition rewritten_contents (documents : list StoredDocument) : gmap bytes bytes :=
  list_to_map ((fun x => (PrimaryKey x, doc_Payload x)) <$> documents).

Lemma rewritten_contents_lookup documents key p :
  NoDup (PrimaryKey <$> documents) ->
  rewritten_contents documents !! key = Some p <-> exists x, x ∈ documents /\ PrimaryKey x = key /\ doc_Payload x = p.
Proof.
  intros Hn. unfold rewritten_contents. rewrite <- elem_of_list_to_map by by rewrite <- list_fmap_compose.
  rewrite list_elem_of_fmap. split.
  - intros (x & [= -> ->] & Hx). by exists x.
  - intros (x & Hx & <- & <-). by exists x.
Qed.

Lemma built_manager d bound mmap documents m metadata writing m' nextDocID :
  built d bound mmap documents m metadata -> ws_inv writing -> ws_docs writing = [] -> ws_minDocID writing = nextDocID ->
  Forall (fun x => DocID x < nextDocID) documents -> NoDup (PrimaryKey <$> documents) ->
  SetWriting writing m = (m', None) ->
  a_inv (abs m') /\ contents (abs m') = rewritten_contents documents /\ sg_writing m' = Some writing /\
  sg_ordered m' = sg_ordered m /\ sg_deletes m' = ∅ /\ sg_primaryKey m' = sg_primaryKey m /\ (forall x, x ∈ sg_stored m' <-> x ∈ documents).
Proof.
  intros [Hm [Hw Hd] [Hi Hv] Hdocs _] Hwi Hwd Hmin Hlt Hnodup Hset.
  assert (m' = sg_set_writing m (Some writing)) as -> by (unfold SetWriting in Hset; clear -Hset; repeat (case_in Hset; try discriminate Hset; simplify_eq; try done)).
  destruct (SetWriting_inv m writing _ Hm Hwi Hset) as (Hm' & _ & _ & _).
  assert (Hst : forall x, x ∈ sg_stored (sg_set_writing m (Some writing)) <-> x ∈ documents).
  { intros x. unfold sg_stored. cbn [sg_set_writing sg_ordered sg_writing]. by rewrite Hwd, app_nil_r, Hdocs. }
  assert (a_inv (abs (sg_set_writing m (Some writing)))) as Ha.
  { split.
    - apply (sg_inv_a_mgr (sg_set_writing m (Some writing))). done.
    - cbn. intros v [= <-]. rewrite Hmin. apply Forall_forall. intros t Ht.
      pose proof (si_ok m Hm) as Hok. rewrite Forall_forall in Hok. specialize (Hok t Ht).
      assert (Hne := io_nonempty t Hok). destruct (last (im_docs t)) as [x|] eqn:El; [|by apply last_None in El].
      pose proof (last_docs_ok _ _ _ (io_docs t Hok) El) as Hx. rewrite (io_max t Hok), <- Hx.
      rewrite Forall_forall in Hlt. apply Hlt. rewrite <- Hdocs. apply list_elem_of_join. exists (im_docs t).
      split; [by apply last_Some_elem_of|by apply list_elem_of_fmap_2].
    - intros key id. cbn [abs a_view a_deletes sg_set_writing sg_primaryKey sg_deletes]. rewrite (Hv key id), Hd.
      setoid_rewrite (Hst : forall x, x ∈ a_stored (abs (sg_set_writing m (Some writing))) <-> x ∈ documents).
      split; [intros (x & H1 & H2 & H3); split; [set_solver|by exists x]|]. intros (_ & x & H1 & H2 & H3). by exists x.
    - cbn. rewrite Hd. intros id ?%elem_of_empty. done. }
  split; [done|]. split; [|done]. apply map_eq. intros key. apply option_eq. intros p.
  rewrite (contents_lookup _ key p Ha), (rewritten_contents_lookup documents key p Hnodup).
  setoid_rewrite (Hst : forall x, x ∈ a_stored (abs (sg_set_writing m (Some writing))) <-> x ∈ documents). cbn. rewrite Hd.
  split; [intros (x & H1 & H2 & H3 & _); by exists x|]. intros (x & H1 & H2 & H3). exists x. split; [done|]. split; [done|]. split; [done|set_solver].
Qed.

(** A prepared rewrite. *)
Record next_rewrite d (se : Z) (documents : list StoredDocument) (p : rewritten) : Prop := {
  nr_idmap : idmap_inv (sg_primaryKey (rp_manager p));
  nr_inv : a_inv (abs (rp_manager p));
  nr_writing : exists w, sg_writing (rp_manager p) = Some w /\ ws_docs w = [];
  nr_deletes : sg_deletes (rp_manager p) = ∅;
  nr_stored : forall x, x ∈ sg_stored (rp_manager p) <-> x ∈ documents;
  nr_contents : contents (abs (rp_manager p)) = rewritten_contents documents;
  nr_wal : new_log (rp_wal p) se;
  nr_path : names_log (rp_manifest p) (rp_walPath p);
  nr_log : stable d (rp_walPath p) (RegularFile (w_file (rp_wal p)));
  nr_checkpoint : checkpoint_on_disk dir d (rp_manifest p) (abs (rp_manager p));
  nr_encodable : manifest_encodable (rp_manifest p)
}.

Lemma built_new d bound mmap : built d bound mmap [] (NewSegmentManager CreatePrimaryKeyMap NewDeleteStore) [].
Proof.
  destruct (CreatePrimaryKeyMap_spec (DB := DB)) as [Hi Hv].
  assert (view_of (idmap_view (CreatePrimaryKeyMap (DB := DB))) []) as Hv'.
  { intros key id. rewrite Hv, lookup_empty. split; [done|]. by intros (x & ?%elem_of_nil & _). }
  split; [|done|done|done|].
  - split; cbn; [constructor|constructor| |done]. intros id t. rewrite lookup_empty. split; [done|]. by intros [?%elem_of_nil _].
  - exists []. repeat (split; [constructor|]). constructor.
Qed.

(** Its manifest can be encoded. *)
Lemma rewrite_encodable current schema metadata writingID nextDocID wgen gen g2 :
  manifest_encodable current -> schema_nested schema -> Forall segment_encodable metadata -> is_u64 nextDocID -> is_u64 g2 ->
  0 <= writingID < u64_max ->
  manifest_encodable (checkpoint_manifest current schema metadata [] writingID nextDocID (walFileName writingID wgen)
    (IDMapCheckpointName gen) g2 (writingID + 1)).
Proof.
  intros [E1 E2 E3 E4 E5 E6 E7 E8 E9 E10] Hs Hm Hn Hg Hw.
  split; cbn [checkpoint_manifest mf_FormatVersion mf_Generation mf_Schema mf_SegmentMaxDocuments mf_WritingSegmentStartDocID
    mf_IDMap mf_DeleteSnapshotGeneration mf_NextSegmentID mf_SegmentIndexSnapshots]; try done.
  - unfold all_segments. cbn [checkpoint_manifest mf_PersistedSegments mf_WritingSegment].
    apply Forall_app. split; [done|]. constructor; [|constructor]. split; [unfold is_u64; cbn; lia|]. do 3 (split; [done|]).
    constructor; [|constructor]. apply (ascii_names _ wgen).
  - apply ascii_names; exact 0.
  - unfold is_u64. lia.
Qed.

(** The checkpoint of a rewrite. *)
Lemma rewrite_checkpoint d current mmap bound documents m metadata writing m' schema nextDocID walRel idMapRel db deletes file nextID :
  built d bound mmap documents m metadata -> mmap = mf_EnableMmap current ->
  NewWriteSegment bound nextDocID (mf_SegmentMaxDocuments current) = Ok writing ->
  is_u64 bound -> is_u64 nextDocID -> is_u64 (mf_SegmentMaxDocuments current) ->
  Forall (fun x => DocID x < nextDocID) documents -> NoDup (PrimaryKey <$> documents) -> SetWriting writing m = (m', None) ->
  stable d idMapRel (PebbleDir db) -> idMapRel <> "" -> pebble_free idMapRel -> entries_ok db -> base_view db = idmap_view (sg_primaryKey m') ->
  stable d (DeleteSnapshotName deletes) (RegularFile (whole_file file)) -> deletes <> 0 ->
  (forall err, LoadDeleteStore CtxLive (Some file) err = Ok (sg_deletes m')) ->
  checkpoint_on_disk dir d (checkpoint_manifest current schema metadata [] bound nextDocID walRel idMapRel deletes nextID) (abs m').
Proof.
  intros Hb -> Hnew Hb64 Hn64 Hc64 Hlt Hnd Hset Hidm Hne Hplain Hents Hview Hdel Hdne Hload.
  destruct (NewWriteSegment_inv _ _ _ _ Hb64 Hn64 Hc64 Hnew) as (Hwi & Hwd & _ & Hwid & Hmin & _).
  destruct (built_manager d bound _ documents m metadata writing m' nextDocID Hb Hwi Hwd Hmin Hlt Hnd Hset) as (Ha & _ & Hw & Ho & _ & _ & _).
  destruct Hb as [_ _ _ _ (ims & Hims & Hall & Hperm & _ & _)].
  split; cbn [checkpoint_manifest mf_IDMap mf_DeleteSnapshotGeneration mf_PersistedSegments mf_EnableMmap mf_WritingSegment
    mf_WritingSegmentStartDocID mf_SegmentMaxDocuments].
  - done.
  - apply checkpoint_lifecycle; [|done|done|].
    + intros Hz. unfold NewWriteSegment in Hnew. by rewrite Hz in Hnew.
    + rewrite Hims. apply Forall_fmap. rewrite Hperm, <- Ho, <- Hmin. exact (ai_order _ Ha writing Hw).
  - by exists db.
  - by exists file.
  - exists ims. split; [done|]. split; [done|]. cbn. by rewrite Ho.
  - exists (writing_metadata bound walRel), writing. done.
  - done.
Qed.

Lemma swp_rewrite_prepare `{!ManifestJSON} go_range io c w d schema documents nextDocID :
  let current := reserved_manifest c in
  prepare_pre dir d current (c_manager c) w -> rewriteNextDocumentID (c_manager c) = Ok nextDocID -> schema_nested schema ->
  Forall (fun x => is_u64 (DocID x) /\ DocID x < nextDocID) documents -> NoDup (PrimaryKey <$> documents) ->
  swp d (rewrite_prepare dir go_range CtxLive io c schema documents nextDocID) {| ss_disk := d; ss_created := [] |}
    (fun p s => next_rewrite (ss_disk s) (w_SyncEvery (c_wal c)) documents p /\ mf_Schema (rp_manifest p) = schema).
Proof.
  intros current Hpre Hnext Hschema [Hu Hlt]%Forall_and Hnodup. pose proof Hpre as [Ha _ Hw _ _ Henc].
  pose proof (si_writing _ (ai_sg _ Ha) w Hw) as (Hwi & _ & _). pose proof (me_generation _ Henc) as Hg64.
  destruct (rewriteNext_spec _ w nextDocID Hw Hwi Hnext) as [Hn64 _].
  pose proof (me_capacity _ Henc) as Hc64. pose proof (me_next _ Henc) as Hx64.
  unfold rewrite_prepare. fold current. destruct (rewriteDocumentRuns_spec documents (mf_SegmentMaxDocuments current)) as (Hjoin & Hruns & _).
  set (runs := rewriteDocumentRuns documents (mf_SegmentMaxDocuments current)) in *.
  set (writingID := mf_NextSegmentID current + zlen runs). pose proof (zlen_nonneg runs) as Hz.
  assert (fresh_state d {| ss_disk := d; ss_created := [] |}) as Hs0 by (split; [done|constructor]).
  apply swp_bind, swp_check; [done|]. intros Hr1 _.
  apply swp_bind, swp_check; [done|]. intros Hr2 _.
  apply swp_bind, swp_check; [done|]. intros Hgen _.
  apply swp_bind, swp_check; [done|]. intros _ _.
  destruct (_ <? zlen runs) eqn:En1; [done|]. destruct (writingID =? u64_max) eqn:En2; [done|].
  destruct (mf_Generation current =? u64_max) eqn:Eg; [done|]. to_prop.
  assert (mf_Generation current + 1 <= u64_max) as Hgle by (unfold is_u64 in *; lia).
  assert (0 <= writingID < u64_max) as Hwid by (unfold is_u64 in *; lia).
  assert (is_u64 writingID) as Hwid64 by (unfold is_u64; lia).
  apply swp_bind, (swp_rewrite_runs _ _ _ _ runs (mf_SegmentMaxDocuments current) _ _ _ [] []);
    [done|done|done|unfold is_u64 in *; lia|lia|done|by rewrite Hjoin|apply built_new|].
  intros m metadata s1 _ Hb1 Hs1. cbn [app] in Hb1. rewrite Hjoin in Hb1. fold writingID in Hb1.
  apply swp_bind, swp_lift; [done|]. intros writing Hnew _.
  destruct (SetWriting writing m) as [m' [e|]] eqn:Eset; [by apply swp_bind, swp_lift|].
  apply swp_bind, swp_lift; [done|]. intros m'' [= <-] _.
  destruct (NewWriteSegment_inv _ _ _ _ Hwid64 Hn64 Hc64 Hnew) as (Hni & Hnd & _ & _ & Hnmin & _).
  destruct (built_manager (ss_disk s1) writingID (mf_EnableMmap current) documents m metadata writing m' nextDocID Hb1 Hni Hnd Hnmin Hlt Hnodup Eset)
    as (Ha' & HC & Hw' & _ & Hd' & Hpk & Hst).
  assert (idmap_inv (sg_primaryKey m')) as Hi' by (rewrite Hpk; apply Hb1).
  apply swp_bind, swp_check; [done|]. intros _ _.
  apply swp_bind, swp_available; [done|done|]. intros idmRel gi Hidmfree _ Hidm _.
  apply swp_bind, swp_creating; [done|eapply keeps_free; [apply Hs1|done]|]. intros Hs2.
  apply swp_bind, swp_checkpoint_idmap; [done|done|]. intros db s3 Hents Hview Hc3 Hs3. cbn [ss_disk] in *.
  apply swp_bind, swp_delete_generation; [done|apply Henc|]. intros g2 Hg2free Hg2 _.
  apply swp_bind, swp_creating; [done|eapply keeps_free; [apply Hs3|done]|]. intros Hs4. cbn [ss_disk] in *.
  apply swp_bind, swp_write_deletes; [done|rewrite Hd'; by intros id ?%elem_of_empty|]. intros file s5 Hload Hc5 Hs5. cbn [ss_disk] in *.
  apply swp_bind, swp_available; [done|done|]. intros walRel gw Hwalfree _ Hwal _.
  apply swp_bind, swp_check; [done|]. intros _ _.
  apply swp_bind, swp_creating; [done|eapply keeps_free; [apply Hs5|done]|]. intros Hs6. cbn [ss_disk] in *.
  apply swp_bind, swp_create_log; [done|]. intros log s7 Hlog Hc7 Hs7. cbn [ss_disk] in *.
  apply swp_bind, swp_lift; [done|]. intros engine _ _. apply swp_ret; [done|].
  pose proof (created_stable _ _ _ _ Hc3) as Hst3. pose proof (created_stable _ _ _ _ Hc5) as Hst5.
  pose proof (created_keeps _ _ _ _ Hc3) as Hk3. pose proof (created_keeps _ _ _ _ Hc5) as Hk5.
  pose proof (created_keeps _ _ _ _ Hc7) as Hk7. cbn [ss_disk] in *.
  assert (keeps (ss_disk s1) (ss_disk s5)) as Hk15 by by transitivity (ss_disk s3).
  assert (checkpoint_on_disk dir (ss_disk s5) (checkpoint_manifest current schema metadata [] writingID nextDocID walRel idmRel g2
    (writingID + 1)) (abs m')) as Hck.
  { apply (rewrite_checkpoint _ current (mf_EnableMmap current) _ documents m metadata writing m' _ _ _ _ db _ file); try done.
    - by apply (built_keeps (ss_disk s1)).
    - exact (stable_keeps _ _ _ _ Hk5 Hst3).
    - by rewrite Hidm.
    - rewrite Hidm. apply plain_idmap.
    - pose proof (me_deletes _ Henc). unfold is_u64 in *. lia. }
  split; [|done]. split; cbn [rp_manager rp_wal rp_walPath rp_manifest]; try done.
  - by exists writing.
  - split; [by eexists|]. split; [|rewrite Hwal; apply plain_log]. intros Hin. destruct (checkpoint_present dir _ _ _ _ Hck Hin) as [a Hx]. congruence.
  - exact (created_stable _ _ _ _ Hc7).
  - by eapply checkpoint_keeps.
  - subst idmRel walRel. apply rewrite_encodable; try done.
    + destruct Hb1 as [_ _ _ _ (ims & _ & _ & _ & ? & _)]. done.
    + unfold is_u64. pose proof (me_deletes _ Henc). unfold is_u64 in *. lia.
Qed.
End rewriting.

(** ** The rewrite of an open store *)
Section rewrite_store.
Context {DB : Type} `{Hkv : KVStore DB} {Hlaws : KVStoreLaws DB} {S : Setting DB}.
Implicit Types (d : disk DB) (m : SegmentManager DB) (c : CollectionStore DB).

(** Documents that pass the checks are below the next document ID. *)
Lemma checked_documents m w documents nextDocID :
  a_inv (abs m) -> idmap_inv (sg_primaryKey m) -> sg_writing m = Some w -> rewriteNextDocumentID m = Ok nextDocID ->
  (exists currentLive, LiveDocuments CtxLive m = Ok currentLive /\ length documents = length currentLive /\
     check_rewrite documents currentLive ∅ = None) ->
  Forall (fun x => is_u64 (DocID x) /\ DocID x < nextDocID) documents /\ NoDup (PrimaryKey <$> documents) /\
  dom (rewritten_contents documents) = dom (contents (abs m)).
Proof.
  intros Ha Hi Hw Hnext (currentLive & Hlive & Hlen & Hcheck). pose proof (si_writing _ (ai_sg _ Ha) w Hw) as (Hwi & _ & _).
  rewrite (LiveDocuments_spec m store_reliable Hi (proj2 (sg_inv_a_mgr m) (ai_sg _ Ha))) in Hlive. injection Hlive as <-.
  destruct (check_rewrite_None _ _ _ Hlen Hcheck) as (Hall & _ & Hnd & _).
  destruct (rewriteNext_spec m w nextDocID Hw Hwi Hnext) as [_ Hle]. split; [|split; [done|]].
  - apply Forall_forall. intros x [i Hx]%list_elem_of_lookup. destruct (Forall2_lookup_l _ _ _ _ _ Hall Hx) as (y & Hy & Hid & _).
    apply list_elem_of_lookup_2, list_elem_of_filter in Hy as [_ Hy]. rewrite Hid. split.
    + apply (stored_u64 (abs m)); [done| |done]. cbn. congruence.
    + pose proof (a_stored_below (abs m) w y Ha Hw Hy). lia.
  - apply set_eq. intros key. rewrite !elem_of_dom. split.
    + intros [p Hp]. apply (rewritten_contents_lookup _ _ _ Hnd) in Hp as (x & [i Hx]%list_elem_of_lookup & <- & _).
      destruct (Forall2_lookup_l _ _ _ _ _ Hall Hx) as (y & Hy & _ & Hk).
      apply list_elem_of_lookup_2, list_elem_of_filter in Hy as [[Hdel _] Hy]. exists (doc_Payload y).
      apply (contents_lookup _ _ _ Ha). exists y. by rewrite Hk.
    + intros [p Hp]. apply (contents_lookup _ _ _ Ha) in Hp as (y & Hy & <- & _ & Hdel).
      assert (y ∈ filter (live m) (sg_stored m)) as [i Hy']%list_elem_of_lookup.
      { apply list_elem_of_filter. split; [|done]. split; [done|]. apply (ai_live _ Ha). split; [done|]. by exists y. }
      destruct (Forall2_lookup_r _ _ _ _ _ Hall Hy') as (x & Hx & _ & Hk). exists (doc_Payload x).
      apply (rewritten_contents_lookup _ _ _ Hnd). exists x. split; [by eapply list_elem_of_lookup_2|done].
Qed.

(** What a rewrite may do: every disk it passes through opens to the old
    contents or the new ones; it either commits, and then holds exactly the
    given documents with an empty log, or reports an error and stays. *)
Record rewrite_outcome c d base ops lost (sync2 : option gerror) (documents : list StoredDocument) tr d' c' (com : bool)
    (err : option gerror) : Prop := {
  rwo_crash : forall dd, dd ∈ tr -> safe_in dd (fun X => X = contents (abs (c_manager c)) \/ X = rewritten_contents documents);
  rwo_result : match last tr with Some dd => d' = dd | None => d' = d end;
  rwo_committed : com = true -> lost = None /\ contents (abs (c_manager c')) = rewritten_contents documents /\
    dom (rewritten_contents documents) = dom (contents (abs (c_manager c))) /\
    (forall x, x ∈ sg_stored (c_manager c') <-> x ∈ documents) /\ sg_deletes (c_manager c') = ∅ /\ HasRecords (c_wal c') = false /\
    (sync2 = None -> exists base', store_inv c' d' base' [] None);
  rwo_refused : com = false -> store_inv c' d' base ops lost /\ c_manager c' = c_manager c /\ err <> None
}.

Lemma rewrite_stops c d base ops lost sync2 documents c' e :
  store_inv c' d base ops lost -> c_manager c' = c_manager c ->
  rewrite_outcome c d base ops lost sync2 documents [] d c' false (Some e).
Proof. intros Hinv Hm. split; [by intros ? ?%elem_of_nil|done|done|done]. Qed.

Lemma rewrite_abandons c d base ops sync2 documents tr s root removed c1 e :
  store_inv c1 d base ops None -> c_manager c1 = c_manager c -> fresh_state (with_log c1 d) s -> vm_inv root (c_versions c1) [] ->
  zlen ops + 2 < u64_max -> w_dirtyRecords (c_wal c1) = 0 -> e <> None ->
  (forall dd, dd ∈ tr -> safe_in dd (fun X => X = contents (abs (c_manager c)) \/ X = rewritten_contents documents)) ->
  let d' := cleanup removed (ss_created s) (disk_set_root root (ss_disk s)) in
  rewrite_outcome c d base ops None sync2 documents (tr ++ [d']) d' c1 false e.
Proof.
  intros Hinv Hm Hs Hvm Hb Hd He Htr d'. destruct (abandoned_inv c1 d base ops s root removed Hinv Hs Hvm Hb Hd) as [Hinv' Hsafe].
  split; [|by rewrite last_snoc|done|done].
  intros dd [Hdd| ->%list_elem_of_singleton]%elem_of_app; [by apply Htr|]. intros d2 options Hc Hro.
  destruct (Hsafe d2 options Hc Hro) as (c2 & b2 & o2 & H1 & H2 & H3). exists c2, b2, o2. split; [done|]. split; [done|]. left. by rewrite <- Hm.
Qed.

Lemma rewrite_held d se documents p :
  next_rewrite dir d se documents p ->
  held d (rp_manifest p) (abs (rp_manager p)) {| e_manager := rp_manager p; e_wal := rp_wal p; e_poisoned := None |} [] None.
Proof.
  intros [Hi Ha (w & Hw & _) _ _ _ [Hls _] Hn Hst Hck _]. split; [done| |].
  - exists (rp_walPath p), (w_file (rp_wal p)). done.
  - split; try done. cbn. congruence.
Qed.

Lemma rewrite_install_ok io p perr c d s base ops vm root documents d' c' err :
  store_inv c d base ops None -> keeps (with_log c d) (ss_disk s) ->
  f_stable (w_file (c_wal c)) = length (f_content (w_file (c_wal c))) ->
  next_rewrite dir (ss_disk s) (w_SyncEvery (c_wal c)) documents p ->
  checkpoint_part (vm_current vm) = checkpoint_part (rp_manifest p) -> manifest_encodable (vm_current vm) ->
  rewrite_install io p perr (c_set_versions c vm) (disk_set_root root (ss_disk s)) = (d', (c', err)) ->
  d' = disk_set_root root (ss_disk s) /\ c_manager c' = rp_manager p /\ HasRecords (c_wal c') = false /\
  (vm_inv root vm [] -> store_inv c' d' (abs (rp_manager p)) [] None).
Proof.
  intros Hinv Hk Hstab Hnr Hpart Henc H. unfold rewrite_install in H. cbn [c_manager c_set_versions c_wal c_walPath] in H.
  destruct (WAL_Close (rw_closeWAL io) (c_wal c)) as [old cerr] eqn:Ecl. destruct (sg_Close (rw_unmap io) (c_manager c)) as [m0 merr].
  rewrite (close_log_same c d _ root _ _ _ Hstab Hk Ecl) in H. injection H as <- <- _. split; [done|]. split; [done|].
  destruct (nr_wal _ _ _ _ _ Hnr) as (Hls & Hlog). split.
  - cbn. destruct (HasRecords (rp_wal p)) eqn:E; [|done]. by apply (HasRecords_spec _ _ (ls_inv _ _ _ Hls)) in E.
  - intros Hvm. apply (installed_store_inv c d base ops vm root (ss_disk s) (rp_manifest p) _ _ _ (w_SyncEvery (c_wal c))); try done.
    + apply Hnr.
    + apply (nr_log _ _ _ _ _ Hnr).
    + by eapply rewrite_held.
Qed.

Lemma RewriteDocuments_spec io schema documents c d base ops lost tr d' c' com err :
  store_inv c d base ops lost -> zlen ops + 2 < u64_max -> schema_nested schema ->
  RewriteDocuments dir go_range CtxLive io schema documents c d = (tr, (d', (c', (com, err)))) ->
  rewrite_outcome c d base ops lost (po_sync2 (rw_publish io)) documents tr d' c' com err /\
  (com = true -> committed c c' = true) /\ (com = false -> c_versions c' = c_versions c).
Proof.
  intros Hinv Hb Hschema H. unfold RewriteDocuments in H. cbn [ctx_guard] in H.
  assert (Hstop : forall c1 e, store_inv c1 d base ops lost -> c_manager c1 = c_manager c -> c_versions c1 = c_versions c ->
    rewrite_outcome c d base ops lost (po_sync2 (rw_publish io)) documents [] d c1 false (Some e) /\
    (false = true -> committed c c1 = true) /\ (false = false -> c_versions c1 = c_versions c)).
  { intros c1 e H1 H2 H3. split; [by apply rewrite_stops|done]. }
  destruct (validateSchemaJSON schema); [|injection H as <- <- <- <- <-; by apply Hstop].
  destruct (requireWritableLocked c); [injection H as <- <- <- <- <-; by apply Hstop|].
  destruct (LiveDocuments CtxLive (c_manager c)) as [currentLive|] eqn:Elive; [|injection H as <- <- <- <- <-; by apply Hstop].
  destruct (zlen documents =? zlen currentLive) eqn:Elen; [|injection H as <- <- <- <- <-; by apply Hstop]. cbn [negb] in H.
  destruct (check_rewrite documents currentLive ∅) eqn:Echeck; [injection H as <- <- <- <- <-; by apply Hstop|].
  destruct (WAL_Sync CtxLive (rw_sync io) (c_wal c)) as [wal serr] eqn:Es.
  destruct (store_inv_sync c d base ops lost _ _ _ Hinv Es) as (Hinv1 & Hse & Hok).
  destruct serr as [e|]; [injection H as <- <- <- <- <-; by apply Hstop|].
  destruct (Hok eq_refl) as (-> & Hpo & Hd & Hstab). clear Hok. set (c1 := c_set_wal c wal) in *.
  change (c_manager c1) with (c_manager c) in H.
  destruct (rewriteNextDocumentID (c_manager c)) as [nextDocID|] eqn:Enext; [|injection H as <- <- <- <- <-; by apply Hstop].
  match type of H with (if ?b then _ else _) = _ => destruct b; [injection H as <- <- <- <- <-; by apply Hstop|] end. clear Hstop.
  destruct (store_a_inv _ _ _ _ _ Hinv) as [Ha Hi].
  destruct (sg_writing (c_manager c)) as [w|] eqn:Ew; [|by unfold rewriteNextDocumentID in Enext; rewrite Ew in Enext].
  destruct (checked_documents (c_manager c) w documents nextDocID Ha Hi Ew Enext) as (Hdocs & Hnodup & Hdom).
  { exists currentLive. split; [done|]. split; [|done]. unfold zlen in Elen. to_prop. lia. }
  pose proof (store_prepare_pre c1 d base ops None w Hinv1 Ew) as Hpre.
  pose proof (swp_rewrite_prepare dir dir_nonempty go_range io c1 w (with_log c1 d) schema documents nextDocID Hpre Enext Hschema Hdocs Hnodup) as Hswp.
  unfold swp in Hswp.
  assert (Hkeep : forall d1, keeps (with_log c1 d) d1 ->
    safe_in d1 (fun X => X = contents (abs (c_manager c)) \/ X = rewritten_contents documents)).
  { intros d1 Hk d2 options Hc Hro. destruct (current_safe c1 d base ops d1 Hinv1 Hb Hd Hk d2 options Hc Hro) as (c2 & b2 & o2 & H1 & H2 & H3).
    exists c2, b2, o2. split; [done|]. split; [done|]. by left. }
  destruct (rewrite_prepare dir go_range CtxLive io c1 schema documents nextDocID {| ss_disk := with_log c1 d; ss_created := [] |})
    as [ptr [s r]].
  destruct Hswp as (Hptr & Hs & Hr). rewrite Forall_forall in Hptr.
  destruct r as [p|e].
  2:{ injection H as <- <- <- <- <-. rewrite <- (disk_set_root_id (ss_disk s)). split; [|done].
      apply (rewrite_abandons c d base ops _ documents ptr s); try done; [|by intros dd Hdd; apply Hkeep, Hptr].
      rewrite (kp_root _ _ (fs_keeps _ _ Hs)). apply Hinv1. }
  destruct Hr as (Hnr & _). pose proof Hs as [Hk _].
  destruct (store_publish CtxLive (rw_publish io) (rp_manifest p) c1 (ss_disk s)) as [qtr [d2 [c2 perr]]] eqn:Epub.
  destruct (publishing_next c1 d base ops (rw_publish io) (rp_manifest p) (ss_disk s) (abs (rp_manager p)) _ []
    (rewritten_contents documents) qtr d2 c2 perr Hinv1 Hb Hd Hk (rewrite_held _ _ _ _ Hnr)) as (Hqtr & Hd2 & root & vm & -> & -> & Hres);
    [done| |apply Hnr|done|].
  { split; [done|]. split; [apply (nr_wal _ _ _ _ _ Hnr)|]. split; [apply (rewrite_held _ _ _ _ Hnr)|apply Hnr]. }
  assert (Htr : forall dd, dd ∈ ptr ++ qtr -> safe_in dd (fun X => X = contents (abs (c_manager c)) \/ X = rewritten_contents documents)).
  { intros dd [Hdd|Hdd]%elem_of_app; [by apply Hkeep, Hptr|by apply Hqtr]. }
  destruct (committed c1 (c_set_versions c1 vm)) eqn:Ecom; cbn [negb] in H.
  2:{ destruct Hres as (-> & Hperr & Hvm). injection H as <- <- <- <- <-. split; [|done].
      apply (rewrite_abandons c d base ops _ documents (ptr ++ qtr) s root _ (c_set_versions c1 (c_versions c1))); done. }
  destruct Hres as ([g Hg] & Henc & Hsync).
  destruct (rewrite_install io p perr (c_set_versions c1 vm) (disk_set_root root (ss_disk s))) as [d3 [c3 ferr]] eqn:Erot.
  assert (checkpoint_part (vm_current vm) = checkpoint_part (rp_manifest p)) as Hpart by by rewrite Hg.
  destruct (rewrite_install_ok io p perr c1 d s base ops vm root documents d3 c3 ferr Hinv1 Hk Hstab Hnr Hpart Henc Erot)
    as (-> & Hm & Hrec & Hst). injection H as <- <- <- <- <-.
  assert (c_versions c3 = vm) as Hv.
  { unfold rewrite_install in Erot. destruct (WAL_Close _ _), (sg_Close _ _). by injection Erot as _ <- _. }
  split; [|split; [intros _; unfold committed in *; by rewrite Hv|done]].
  split; [|by rewrite last_snoc| |done].
  - intros dd [Hdd| ->%list_elem_of_singleton]%elem_of_app; [by apply Htr|exact Hd2].
  - intros _. split; [done|]. rewrite Hm. split; [apply Hnr|]. split; [done|]. split; [apply Hnr|]. split; [apply Hnr|].
    split; [done|]. intros Hpo2. exists (abs (rp_manager p)). apply Hst. by apply Hsync.
Qed.
End rewrite_store.
