(* ===== verification/PublicationSafety.v ===== *)
(** * Publishing a schema or index snapshots is safe

    Neither touches the documents, so the log may hold records that are not
    synchronized: a crash while the manifest is replaced opens to a prefix of
    the log over the same checkpoint, with the old schema and index snapshots or
    the new ones, never a mixture. *)
From S2P Require Import Prelude Bytes Utf8 KeyStore IdMap FileIO Wal Paths Snapshot Json JsonText Names Manifest ManifestFile ManifestJson VersionManager Segment SegmentManager WriteEngine Recovery Durability Rotation Storage Collection Checkpoint Preparation StoreSafety.
#[local] Open Scope string_scope.
#[local] Open Scope list_scope.
#[local] Open Scope Z_scope.

Section publication_safety.
Context {DB : Type} `{Hkv : KVStore DB} {Hlaws : KVStoreLaws DB} {S : Setting DB}.
Implicit Types (d : disk DB) (c : CollectionStore DB).

(** The schema, as it is stored, and the index snapshots of a manifest. *)
Definition published_part (manifest : Manifest) : bytes * list SegmentIndexSnapshotMetadata :=
  (json_compact false (mf_Schema manifest), mf_SegmentIndexSnapshots manifest).

Lemma published_part_normal manifest : published_part (manifest_normal manifest) = published_part manifest.
Proof. unfold published_part. cbn. f_equal. apply json_compact_idempotent. Qed.
Lemma published_part_prepare next g : published_part (prepareManifest next g) = published_part next.
Proof. done. Qed.

(** A crash during the publication of [next] opens to a prefix of the log over
    the same checkpoint, with one of the two published parts. *)
Definition opens_between c base ops lost (next : Manifest) d1 : Prop :=
  forall d2 options, disk_crash d1 d2 -> opt_ReadOnly options = false ->
    exists c2 k, OpenCollection dir go_range CtxLive opened_fine options d2 = Some (Ok c2) /\
      store_inv c2 d2 base (take k (ops ++ option_list lost)) None /\ zlen ops - w_dirtyRecords (c_wal c) <= Z.of_nat k /\
      (published_part (vm_current (c_versions c2)) = published_part (vm_current (c_versions c)) \/
       published_part (vm_current (c_versions c2)) = published_part next).

Record publication_outcome c d base ops lost (sync2 : option gerror) (next : Manifest) (tr : list (disk DB))
    d' c' (com : bool) (err : option gerror)
    : Prop := {
  pu_crash : forall dd, dd ∈ tr -> opens_between c base ops lost next dd;
  pu_manager : c_manager c' = c_manager c /\ c_wal c' = c_wal c;
  pu_checkpoint : c_walPath c' = c_walPath c /\
    checkpoint_part (vm_current (c_versions c')) = checkpoint_part (vm_current (c_versions c)) /\
    forall n a, n <> c_walPath c -> stable d n a -> stable d' n a;
  pu_committed : com = true -> committed c c' = true /\ published_part (vm_current (c_versions c')) = published_part next /\
    (sync2 = None -> store_inv c' d' base ops lost);
  pu_refused : com = false -> c' = c /\ store_inv c d' base ops lost
}.

Lemma publication_stops c d base ops lost sync2 next err :
  store_inv c d base ops lost -> publication_outcome c d base ops lost sync2 next [] d c false err.
Proof. intros Hinv. by split; [intros ? ?%elem_of_nil|..]. Qed.

Lemma publication_spec io next c d base ops lost tr d' c' err :
  store_inv c d base ops lost -> zlen ops + 2 < u64_max -> manifest_encodable next ->
  checkpoint_part next = checkpoint_part (vm_current (c_versions c)) ->
  store_publish CtxLive io next c (with_log c d) = (tr, (d', (c', err))) ->
  publication_outcome c d base ops lost (po_sync2 io) next tr d' c' (committed c c') err.
Proof.
  intros Hinv Hb Henc Hpart H. pose proof (sv_versions _ _ _ _ _ Hinv) as Hvm. destruct (sv_engine _ _ _ _ _ Hinv) as (p & Hp & _).
  pose proof (store_held c d base ops lost p Hinv Hp) as Hh.
  set (P := fun manifest b e o l => b = base /\ e = store_engine c p /\ o = ops /\ l = lost /\
    (published_part manifest = published_part (vm_current (c_versions c)) \/ published_part manifest = published_part next)).
  destruct (publishing_covered c (with_log c d) io next P tr d' c' err Hvm Henc) as (Htr & _ & root & vm & -> & -> & Hres); [| |exact H|].
  - intros r. exists (vm_current (c_versions c)), base, (store_engine c p), ops, lost. split; [done|]. split; [apply Hinv|].
    split; [by apply held_root|]. split; [done|]. do 4 (split; [done|]). left. apply published_part_normal.
  - intros r g Hm. exists (prepareManifest next g), base, (store_engine c p), ops, lost. do 2 (split; [done|]).
    split; [apply held_root; by apply (held_same _ (vm_current (c_versions c)))|]. split; [done|]. do 4 (split; [done|]). right.
    by rewrite published_part_normal.
  - assert (Hnext : vm_inv root vm [] -> checkpoint_part (vm_current vm) = checkpoint_part (vm_current (c_versions c)) ->
      manifest_encodable (vm_current vm) -> store_inv (c_set_versions c vm) (disk_set_root root (with_log c d)) base ops lost).
    { intros Hvm' Hp' Henc'. apply (held_same _ _ (vm_current vm)) in Hh; [|done]. destruct Hinv as [G1 _ _ G2 [G3 G4] (p' & G5 & _ & G6)].
      split; cbn; try done.
      - split; [|exact G4]. by apply (names_log_same (vm_current (c_versions c))).
      - exists p'. split; [done|]. split; [|exact G6]. apply (held_root root) in Hh. apply Hh. }
    split.
    + intros dd Hdd d2 options Hc Hro. destruct (Htr dd Hdd) as (x & cands & Hpub & Hcand).
      destruct (crash_reopens dd x cands d2 options P Hpub Hcand Hc Hro)
        as (b & e & o & l & c2 & k & (-> & -> & -> & -> & Hq) & Ho & Hinv2 & _ & _ & _ & Hk). exists c2, k. done.
    + done.
    + split; [done|]. split.
      * destruct (committed _ _); [destruct Hres as ([g Hg] & _); cbn; by rewrite Hg|by destruct Hres as (-> & _)].
      * intros n a Hn [Hs Ht]. split; [cbn; by rewrite lookup_insert_ne|done].
    + destruct (committed _ _) eqn:Ecom; [|done]. destruct Hres as ([g Hg] & Hm & Hsync). intros _. split; [done|]. split; [cbn; by rewrite Hg|].
      intros Hpo. apply Hnext; [by apply Hsync| |done]. by rewrite Hg.
    + destruct (committed _ _) eqn:Ecom; [done|]. destruct Hres as (-> & _ & Hvm'). intros _.
      assert (c_set_versions c (c_versions c) = c) as Heq by by destruct c. split; [done|].
      rewrite <- Heq at 1. apply Hnext; [done|done|apply Hinv].
Qed.

Lemma with_schema_encodable current schema indexes :
  manifest_encodable current -> schema_nested schema -> Forall index_encodable indexes -> manifest_encodable (with_schema current schema indexes).
Proof. intros [E1 E2 E3 E4 E5 E6 E7 E8 E9 E10] Hs Hi. by split. Qed.

Lemma publishSchema_spec io same schema snapshots c d base ops lost tr d' c' com err :
  store_inv c d base ops lost -> zlen ops + 2 < u64_max -> schema_nested schema ->
  Forall index_encodable (default [] snapshots) ->
  publishSchema CtxLive io same schema snapshots c d = (tr, (d', (c', (com, err)))) ->
  publication_outcome c d base ops lost (po_sync2 io)
    (with_schema (vm_current (c_versions c)) schema (default (mf_SegmentIndexSnapshots (vm_current (c_versions c))) snapshots)) tr d' c' com err.
Proof.
  intros Hinv Hb Hs Hi H. unfold publishSchema in H. cbn [ctx_guard] in H.
  destruct (validateSchemaJSON schema); [|injection H as <- <- <- <- <-; by apply publication_stops].
  destruct (requireWritableLocked c); [injection H as <- <- <- <- <-; by apply publication_stops|].
  destruct (_ && _); [injection H as <- <- <- <- <-; by apply publication_stops|].
  destruct (store_publish _ _ _ _ _) as [ptr [d1 [c1 e]]] eqn:Ep. injection H as <- <- <- <- <-.
  apply publication_spec; [done|done| |done|exact Ep].
  apply with_schema_encodable; [apply Hinv|done|]. destruct snapshots; [done|]. apply (me_indexes _ (sv_encodable _ _ _ _ _ Hinv)).
Qed.

Lemma PublishSegmentIndexSnapshots_spec io same snapshots c d base ops lost tr d' c' com err :
  store_inv c d base ops lost -> zlen ops + 2 < u64_max -> Forall index_encodable snapshots ->
  PublishSegmentIndexSnapshots CtxLive io same snapshots c d = (tr, (d', (c', (com, err)))) ->
  publication_outcome c d base ops lost (po_sync2 io)
    (with_schema (vm_current (c_versions c)) (mf_Schema (vm_current (c_versions c))) snapshots) tr d' c' com err.
Proof.
  intros Hinv Hb Hi H. unfold PublishSegmentIndexSnapshots in H. cbn [ctx_guard] in H.
  destruct (requireWritableLocked c); [injection H as <- <- <- <- <-; by apply publication_stops|].
  destruct same; [injection H as <- <- <- <- <-; by apply publication_stops|].
  destruct (Manifest_Validate _); [|injection H as <- <- <- <- <-; by apply publication_stops].
  destruct (validateSegmentIndexFiles _ _); [injection H as <- <- <- <- <-; by apply publication_stops|].
  destruct (store_publish _ _ _ _ _) as [ptr [d1 [c1 e]]] eqn:Ep. injection H as <- <- <- <- <-.
  apply publication_spec; [done|done| |done|exact Ep].
  apply with_schema_encodable; [apply Hinv|apply (me_schema _ (sv_encodable _ _ _ _ _ Hinv))|done].
Qed.

(** ** Both calls *)
Inductive publication :=
| PublishSchema (same : bool) (schema : bytes) (snapshots : option (list SegmentIndexSnapshotMetadata))
| PublishIndexes (same : bool) (snapshots : list SegmentIndexSnapshotMetadata).
Definition run_publication (io : publish_io) (p : publication) c d :=
  match p with
  | PublishSchema same schema snapshots => publishSchema CtxLive io same schema snapshots c d
  | PublishIndexes same snapshots => PublishSegmentIndexSnapshots CtxLive io same snapshots c d
  end.
(** What is asked of the arguments: a schema that is JSON of bounded depth, and
    index metadata that is JSON. *)
Definition publication_args (p : publication) : Prop :=
  match p with
  | PublishSchema _ schema snapshots => schema_nested schema /\ Forall index_encodable (default [] snapshots)
  | PublishIndexes _ snapshots => Forall index_encodable snapshots
  end.
(** The manifest that is published over [current]. *)
Definition publication_next (p : publication) (current : Manifest) : Manifest :=
  match p with
  | PublishSchema _ schema snapshots => with_schema current schema (default (mf_SegmentIndexSnapshots current) snapshots)
  | PublishIndexes _ snapshots => with_schema current (mf_Schema current) snapshots
  end.

Lemma run_publication_spec io p c d base ops lost tr d' c' com err :
  store_inv c d base ops lost -> zlen ops + 2 < u64_max -> publication_args p ->
  run_publication io p c d = (tr, (d', (c', (com, err)))) ->
  publication_outcome c d base ops lost (po_sync2 io) (publication_next p (vm_current (c_versions c))) tr d' c' com err.
Proof.
  intros Hinv Hb Hargs H. destruct p as [same schema snapshots|same snapshots]; cbn [run_publication publication_args publication_next] in *.
  - destruct Hargs. by apply (publishSchema_spec io same).
  - by apply (PublishSegmentIndexSnapshots_spec io same).
Qed.
End publication_safety.
