(* ===== verification/PruneSafety.v ===== *)
(** * Pruning is safe

    Pruning removes exactly the artifacts that this package owns and the current
    manifest does not name; the store goes on, and the disk opens after a crash
    between any two removals, as before. *)
From S2P Require Import Prelude Bytes Utf8 KeyStore IdMap FileIO Wal Paths Snapshot Json JsonText Names Manifest ManifestFile ManifestJson VersionManager Segment SegmentManager WriteEngine Recovery Durability Rotation Storage Collection Prune Checkpoint Preparation StoreSafety.
From stdpp Require Import sorting.
From Stdlib Require Import Ascii String.
#[local] Open Scope string_scope.
#[local] Open Scope list_scope.
#[local] Open Scope Z_scope.

(** ** Paths *)
Lemma below_inv directory n rest : below directory n = Some rest <-> n = path_join directory rest.
Proof.
  unfold below, path_join. split.
  - destruct (has_prefix _ n) eqn:E; [|done]. apply has_prefix_spec in E as [t ->]. rewrite str_drop_app. intros [= <-].
    by rewrite <- !str_app_assoc.
  - intros ->. rewrite str_app_assoc. assert (has_prefix (directory ++ "/") ((directory ++ "/") ++ rest) = true) as ->
      by (apply has_prefix_spec; eauto). by rewrite str_drop_app.
Qed.

Lemma split_on_first sep s : exists x xs, split_on sep s = x :: xs /\ split_on sep x = [x].
Proof.
  induction s as [|c s (x & xs & H & Hx)]; [by exists EmptyString, []|]. cbn [split_on]. rewrite H. destruct (Ascii.eqb c sep) eqn:E.
  - by exists EmptyString, (x :: xs).
  - exists (String c x), xs. cbn [split_on]. by rewrite E, Hx.
Qed.
Lemma first_component_idemp s : first_component (first_component s) = first_component s.
Proof. unfold first_component. destruct (split_on_first "/" s) as (x & xs & -> & ->). done. Qed.
Lemma split_on_joined s rest x : split_on "/" s = [x] -> exists xs, split_on "/" (path_join s rest) = x :: xs.
Proof.
  unfold path_join. revert x. induction s as [|c s IH]; intros x H.
  - injection H as <-. cbn. by eexists.
  - cbn [split_on] in H. change (String c s ++ "/" ++ rest)%string with (String c (s ++ "/" ++ rest)). cbn [split_on].
    destruct (split_on_first "/" s) as (y & ys & Hs & _). rewrite Hs in H. destruct (Ascii.eqb c "/"); [done|].
    injection H as <- ->. destruct (IH y Hs) as [xs ->]. by eexists.
Qed.
Lemma first_component_join e rest : first_component e = e -> first_component (path_join e rest) = e.
Proof.
  unfold first_component. intros He. destruct (split_on_first "/" e) as (x & xs & H & Hx). rewrite H in He. subst x.
  assert (split_on "/" e = [e]) as H' by exact Hx. destruct (split_on_joined e rest e H') as [ys ->]. done.
Qed.

Lemma str_take_drop n s : s = (str_take n s ++ str_drop n s)%string.
Proof.
  revert s. induction n as [|n IH]; intros s; [done|]. destruct s as [|c s]; [done|]. cbn [str_take str_drop].
  change (String c s = String c (str_take n s ++ str_drop n s)%string). by rewrite <- IH.
Qed.
Lemma has_suffix_spec suffix s : has_suffix suffix s = true <-> exists p, s = (p ++ suffix)%string.
Proof.
  unfold has_suffix. rewrite andb_true_iff, Nat.leb_le, String.eqb_eq. split.
  - intros [_ H]. exists (str_take (String.length s - String.length suffix) s). rewrite <- H at 2. apply str_take_drop.
  - intros [p ->]. rewrite str_length_app. split; [lia|].
    replace (String.length p + String.length suffix - String.length suffix)%nat with (String.length p) by lia. apply str_drop_app.
Qed.
Lemma removes_kept name k : name <> k -> pebble_free k -> removes name k = false.
Proof.
  intros Hne Hk. unfold removes. rewrite bool_decide_eq_false_2 by congruence. cbn [orb]. apply andb_false_iff.
  destruct (has_suffix ".pebble" name) eqn:Es; [right|by left]. apply bool_decide_eq_false_2. intros [rest ->%below_inv].
  apply has_suffix_spec in Es as [p Hp]. by apply (plain_below name p rest).
Qed.

(** ** Owned artifacts *)

(** The entries of a directory that pass a test. *)
Definition owned_in (directory : string) (test : string -> bool) (n : string) : Prop :=
  exists entry, n = path_join directory entry /\ first_component entry = entry /\ test entry = true.
Definition globs (patterns : list (string * string)) (entry : string) : bool := existsb (fun p => glob_match p entry) patterns.
(** The artifacts that this package owns, outside [segments]. *)
Definition owned_files : list (string * list (string * string)) :=
  [("wal", [("", ".wal.lock"); ("", ".wal")]); ("snapshots", [("delete-", ".snap")]); ("indexes", [("", ".zvi"); ("", ".pebble")])].
Definition owned (n : string) : Prop :=
  (exists directory, owned_in "segments" (fun _ => true) directory /\ owned_in directory (globs [("data-", ".seg")]) n) \/
  owned_in "idmap" IsOwnedIDMapName n \/
  Exists (fun specification => owned_in specification.1 (globs specification.2) n) owned_files.

Section prune_safety.
Context {DB : Type} `{Hkv : KVStore DB} {Hlaws : KVStoreLaws DB}.
Implicit Types (d : disk DB).

(** No artifact lies below a file. *)
Definition disk_tree d : Prop :=
  forall a f b, dk_files d !! a = Some (RegularFile f) -> is_Some (dk_files d !! b) -> below a b = None.

Lemma elem_of_disk_names d n : n ∈ disk_names d <-> is_Some (dk_files d !! n).
Proof.
  unfold disk_names. rewrite list_elem_of_fmap. split.
  - intros ([k a] & -> & H%elem_of_map_to_list). eauto.
  - intros [a H]. exists (n, a). split; [done|]. by apply elem_of_map_to_list.
Qed.
Lemma elem_of_read_dir d directory entry :
  entry ∈ read_dir d directory <-> exists rest, path_join directory rest ∈ disk_names d /\ entry = first_component rest.
Proof.
  unfold read_dir. rewrite merge_sort_Permutation, elem_of_remove_dups, list_elem_of_fmap. split.
  - intros (rest & -> & (n & Hn & ->%below_inv)%list_elem_of_omap). eauto.
  - intros (rest & Hn & ->). exists rest. split; [done|]. apply list_elem_of_omap. exists (path_join directory rest).
    split; [done|]. by apply below_inv.
Qed.
Lemma lstat_below d directory n : n ∈ disk_names d -> is_Some (below directory n) -> lstat d directory <> None.
Proof.
  intros Hn Hb. unfold lstat. destruct (dk_files d !! directory) as [[f|db]|]; [done|done|].
  assert (existsb (fun n => bool_decide (is_Some (below directory n))) (disk_names d) = true) as ->; [|done].
  apply existsb_exists. exists n. split; [by apply list_elem_of_In|by apply bool_decide_eq_true_2].
Qed.
Lemma lstat_tree d directory n : disk_tree d -> n ∈ disk_names d -> is_Some (below directory n) -> lstat d directory = Some true.
Proof.
  intros Ht Hn Hb. pose proof (lstat_below d directory n Hn Hb) as Hl. unfold lstat in *.
  destruct (dk_files d !! directory) as [[f|db]|] eqn:E; [|done|by destruct (existsb _ _)].
  rewrite (Ht _ _ n E) in Hb by (by apply elem_of_disk_names). by destruct Hb.
Qed.

(** The entries of an owned directory. *)
Lemma ownedDirectoryEntries_spec io d directory entries :
  ownedDirectoryEntries io d directory = Ok entries ->
  (forall entry, entry ∈ entries -> first_component entry = entry) /\
  (forall entry rest, path_join directory rest ∈ disk_names d -> first_component rest = entry -> entry ∈ entries).
Proof.
  unfold ownedDirectoryEntries. destruct (pi_lstat io directory); [done|]. destruct (lstat d directory) as [[]|] eqn:El.
  - destruct (pi_list io directory); [done|]. intros [= <-]. split.
    + intros entry (rest & _ & ->)%elem_of_read_dir. apply first_component_idemp.
    + intros entry rest Hn <-. apply elem_of_read_dir. eauto.
  - done.
  - intros [= <-]. split; [by intros ? ?%elem_of_nil|]. intros entry rest Hn _.
    destruct (lstat_below d directory _ Hn); [|done]. exists rest. by apply below_inv.
Qed.

(** What a scan finds: owned artifacts, all those that are there. *)
Definition scans d (P : string -> Prop) (l : list string) : Prop :=
  (forall n, n ∈ l -> P n) /\ (forall n, P n -> n ∈ disk_names d -> n ∈ l).

Lemma scans_app d P Q l l' : scans d P l -> scans d Q l' -> scans d (fun n => P n \/ Q n) (l ++ l').
Proof. intros [H1 H2] [H3 H4]. split; intros n; rewrite elem_of_app; naive_solver. Qed.

Lemma owned_entries_scan io d directory test entries :
  ownedDirectoryEntries io d directory = Ok entries ->
  scans d (owned_in directory test) (path_join directory <$> filter (fun e => test e = true) entries).
Proof.
  intros H. destruct (ownedDirectoryEntries_spec _ _ _ _ H) as [H1 H2]. split.
  - intros n (e & -> & [Ht He]%list_elem_of_filter)%list_elem_of_fmap. exists e. auto.
  - intros n (e & -> & He & Ht) Hn. apply list_elem_of_fmap. exists e. split; [done|]. apply list_elem_of_filter. split; [done|].
    by apply (H2 e e).
Qed.
Lemma ownedFiles_scan io d directory patterns l :
  ownedFiles io d directory patterns = Ok l -> scans d (owned_in directory (globs patterns)) l.
Proof.
  unfold ownedFiles. destruct (ownedDirectoryEntries io d directory) as [entries|] eqn:E; [|done]. intros [= <-].
  by apply (owned_entries_scan io d directory (globs patterns)).
Qed.
Lemma ownedIDMapDirectories_scan io d directory l :
  ownedIDMapDirectories io d directory = Ok l -> scans d (owned_in directory IsOwnedIDMapName) l.
Proof.
  unfold ownedIDMapDirectories. destruct (ownedDirectoryEntries io d directory) as [entries|] eqn:E; [|done]. intros [= <-].
  by apply (owned_entries_scan io d directory IsOwnedIDMapName).
Qed.
Lemma collect_files_scan io d specifications l :
  collect_files io d specifications = Ok l ->
  scans d (fun n => Exists (fun s => owned_in s.1 (globs s.2) n) specifications) l.
Proof.
  revert l. induction specifications as [|[directory patterns] specifications IH]; intros l; cbn [collect_files].
  - intros [= <-]. split; [by intros ? ?%elem_of_nil|]. by intros n ?%Exists_nil.
  - destruct (ownedFiles io d directory patterns) as [matches|] eqn:E; [|done]. destruct (collect_files io d specifications) as [rest|]; [|done].
    intros [= <-]. destruct (scans_app d _ _ _ _ (ownedFiles_scan _ _ _ _ _ E) (IH rest eq_refl)) as [H1 H2]. split.
    + intros n Hn. apply Exists_cons. by apply H1.
    + intros n [H|H]%Exists_cons Hn; apply H2; auto.
Qed.

(** The candidates are owned, and they are all the owned artifacts of a disk
    on which nothing lies below a file. *)
Lemma prune_candidates_spec io d candidates :
  prune_candidates io d = Ok candidates ->
  (forall n, n ∈ candidates -> owned n) /\ (disk_tree d -> forall n, owned n -> n ∈ disk_names d -> n ∈ candidates).
Proof.
  unfold prune_candidates. destruct (ownedSubdirectories io d "segments") as [dirs|] eqn:Ed; [|done].
  destruct (collect_files io d (_ <$> dirs)) as [segments|] eqn:Es; [|done]. destruct (ownedIDMapDirectories io d "idmap") as [ids|] eqn:Ei; [|done].
  destruct (collect_files io d [_; _; _]) as [rest|] eqn:Er; [|done]. intros [= <-].
  apply collect_files_scan in Es as [S1 S2]. apply ownedIDMapDirectories_scan in Ei. apply collect_files_scan in Er.
  destruct (scans_app d _ _ _ _ Ei Er) as [R1 R2]. unfold ownedSubdirectories in Ed.
  destruct (ownedDirectoryEntries io d "segments") as [entries|] eqn:Ee; [|done]. injection Ed as <-.
  destruct (ownedDirectoryEntries_spec _ _ _ _ Ee) as [E1 E2]. split.
  - intros n [Hn|Hn]%elem_of_app; [left|right; exact (R1 n Hn)]. apply S1 in Hn.
    apply Exists_exists in Hn as (sp & (directory & -> & [_ (e & -> & He)%list_elem_of_fmap]%list_elem_of_filter)%list_elem_of_fmap & Hn).
    exists (path_join "segments" e). split; [|done]. exists e. auto.
  - intros Ht n Ho Hn. apply elem_of_app. destruct Ho as [(directory & (e & -> & He & _) & Ho)|Ho]; [left|right; by apply R2].
    apply S2; [|done]. apply Exists_exists. exists (path_join "segments" e, [("data-", ".seg")]). split; [|done].
    apply list_elem_of_fmap. exists (path_join "segments" e). split; [done|]. destruct Ho as (e' & -> & _ & _).
    apply list_elem_of_filter. split.
    + apply (lstat_tree d _ _ Ht Hn). exists e'. by apply below_inv.
    + apply list_elem_of_fmap. exists e. split; [done|]. unfold path_join in Hn. rewrite <- str_app_assoc in Hn. rewrite <- str_app_assoc in Hn.
      apply (E2 e (path_join e e')); [exact Hn|]. by apply first_component_join.
Qed.

(** ** The removal *)

(** Only what satisfies [P] is removed, or torn. *)
Definition only (P : string -> Prop) d d' : Prop :=
  dk_root d' = dk_root d /\
  (forall n, dk_files d' !! n = dk_files d !! n \/ dk_files d' !! n = None) /\
  (forall n, ~ P n -> dk_files d' !! n = dk_files d !! n /\ (n ∈ dk_torn d' -> n ∈ dk_torn d)).

Lemma only_refl P d : only P d d.
Proof. split; [done|]. split; [by left|done]. Qed.
Lemma only_trans P d1 d2 d3 : only P d1 d2 -> only P d2 d3 -> only P d1 d3.
Proof.
  intros (H1 & H2 & H3) (G1 & G2 & G3). split; [congruence|]. split.
  - intros n. destruct (G2 n) as [->|]; auto.
  - intros n Hn. destruct (H3 n Hn) as [H4 H5], (G3 n Hn) as [G4 G5]. split; [congruence|auto].
Qed.

(** What pruning may remove. *)
Definition prunable (keep : gset string) (n : string) : Prop :=
  exists name, owned name /\ name ∉ keep /\ removes name n = true.

Lemma only_remove keep left name d : owned name -> name ∉ keep -> only (prunable keep) d (remove_artifact left name d).
Proof.
  intros Ho Hk. split; [done|]. split.
  - intros n. cbn. destruct left; [by left|]. rewrite map_lookup_filter. destruct (dk_files d !! n); [|by left]. cbn.
    destruct (decide (removes name n = false)); [left; by rewrite option_guard_True|right; by rewrite option_guard_False].
  - intros n Hn. assert (removes name n = false) as Hr by (apply not_true_iff_false; intros Hr; apply Hn; by exists name). split.
    + cbn. destruct left; [done|]. rewrite map_lookup_filter. destruct (dk_files d !! n); [|done]. cbn. by rewrite option_guard_True.
    + cbn. rewrite elem_of_union, elem_of_list_to_set, list_elem_of_filter. intros [[Hr' _]|]; [congruence|done].
Qed.

(** No answer claims that what is there is not. *)
Definition prune_honest (io : prune_io) : Prop :=
  (forall n e, pi_lstat io n = Some e -> errors_Is e os_ErrNotExist = false) /\
  forall n e, pi_remove io n = Some e -> errors_Is e os_ErrNotExist = true -> pi_left io n = false.

Definition dropped d (n : string) : Prop := dk_files d !! n = None.
Lemma dropped_remove name d : dropped (remove_artifact false name d) name.
Proof.
  unfold dropped. cbn. apply map_lookup_filter_None. right. intros a _. cbn. unfold removes. by rewrite bool_decide_eq_true_2.
Qed.

(** What the loop over [candidates] keeps and achieves. *)
Record pruned (io : prune_io) (keep : gset string) (candidates : list string) d (tr : list (disk DB)) d'
    (touched : list string) (err : option gerror) : Prop := {
  pd_trace : Forall (only (prunable keep) d) tr;
  pd_disk : only (prunable keep) d d';
  pd_touched : Forall (fun n => owned n /\ n ∉ keep) touched;
  pd_done : err = None -> prune_honest io -> Forall (fun n => n ∈ keep \/ dropped d' n) candidates
}.

Lemma pruned_stop io keep candidates d touched e :
  Forall (fun n => owned n /\ n ∉ keep) touched -> pruned io keep candidates d [] d touched (Some e).
Proof. intros Ht. split; [constructor|apply only_refl|done|done]. Qed.

Lemma only_dropped P d d' n : only P d d' -> dropped d n -> dropped d' n.
Proof. intros (_ & H & _) Hd. unfold dropped in *. destruct (H n); congruence. Qed.

Lemma pruned_skip io keep name candidates d tr d' touched err :
  (prune_honest io -> dropped d name \/ name ∈ keep) -> pruned io keep candidates d tr d' touched err ->
  pruned io keep (name :: candidates) d tr d' touched err.
Proof.
  intros Hd [H1 H2 H3 H4]. split; [done|done|done|]. intros He Hh. constructor; [|by apply H4].
  destruct (Hd Hh); [right; by eapply only_dropped|by left].
Qed.

Lemma pruned_go io keep left name candidates d tr d' touched err :
  owned name -> name ∉ keep -> (prune_honest io -> left = false) ->
  pruned io keep candidates (remove_artifact left name d) tr d' touched err ->
  pruned io keep (name :: candidates) d (remove_artifact left name d :: tr) d' touched err.
Proof.
  intros Hn Hk Hl [H1 H2 H3 H4]. pose proof (only_remove keep left name d Hn Hk) as Hr. split; [|by eapply only_trans|done|].
  - constructor; [done|]. eapply Forall_impl; [exact H1|]. intros x Hx. by eapply only_trans.
  - intros He Hh. constructor; [|by apply H4]. right. eapply only_dropped; [exact H2|]. rewrite (Hl Hh). apply dropped_remove.
Qed.

Lemma prune_loop_spec io keep candidates touched d tr d' touched' err :
  Forall owned candidates -> Forall (fun n => owned n /\ n ∉ keep) touched ->
  prune_loop io keep candidates touched d = (tr, (d', (touched', err))) -> pruned io keep candidates d tr d' touched' err.
Proof.
  intros Hc. revert touched d tr. induction Hc as [|name candidates Hn Hc IH]; intros touched d tr Ht H; cbn [prune_loop] in H.
  { injection H as <- <- <- <-. split; [done|apply only_refl|done|done]. }
  assert (Ht' : name ∉ keep -> Forall (fun n => owned n /\ n ∉ keep) (touched ++ [name]))
    by (intros ?; apply Forall_app; split; [done|by apply Forall_singleton]).
  destruct (pi_lstat io name) as [e|] eqn:El.
  { destruct (errors_Is e os_ErrNotExist) eqn:Ee; [apply pruned_skip; [|by apply (IH touched)]; intros [Hh _]; by rewrite (Hh _ _ El) in Ee|].
    injection H as <- <- <- <-. by apply pruned_stop. }
  destruct (lstat d name) as [isDir|] eqn:Els.
  2:{ apply pruned_skip; [|by apply (IH touched)]. intros _. left. unfold dropped, lstat in *. by destruct (dk_files d !! name) as [[]|]. }
  destruct (negb _); [injection H as <- <- <- <-; by apply pruned_stop|].
  destruct (bool_decide (name ∈ keep)) eqn:Ek.
  { apply bool_decide_eq_true in Ek. apply pruned_skip; [by right|by apply (IH touched)]. }
  apply bool_decide_eq_false in Ek. destruct (pi_remove io name) as [e|] eqn:Er.
  - destruct (errors_Is e os_ErrNotExist) eqn:Ee.
    + destruct (prune_loop _ _ _ _ _) as [tr' out] eqn:E. injection H as <- ->. apply pruned_go; [done|done|intros [_ Hh]; by apply (Hh _ e)|].
      by apply (IH (touched ++ [name])); [apply Ht'|].
    + injection H as <- <- <- <-. pose proof (only_remove keep (pi_left io name) name d Hn Ek) as Ho.
      split; [by apply Forall_singleton|done|done|done].
  - destruct (prune_loop _ _ _ _ _) as [tr' out] eqn:E. injection H as <- ->. apply pruned_go; [done|done|done|].
    by apply (IH (touched ++ [name])); [apply Ht'|].
Qed.

Lemma sync_touched_spec (P : string -> Prop) io touched directories d d' err :
  sync_touched io touched directories d = (d', err) -> only P d d' /\ dk_files d' = dk_files d.
Proof.
  revert d. induction directories as [|directory directories IH]; intros d H; cbn [sync_touched] in H; [injection H as <- _; by split; [apply only_refl|]|].
  destruct (pi_sync io directory) as [e|].
  - destruct (errors_Is e os_ErrNotExist); [by apply IH|]. injection H as <- _. by split; [apply only_refl|].
  - apply IH in H as [(H1 & H2 & H3) H4]. split; [|done]. split; [done|]. split; [by left; rewrite H4|].
    intros n Hn. split; [by rewrite H4|]. intros Hin. apply (H3 n Hn) in Hin. cbn in Hin. set_solver.
Qed.

Lemma PruneObsoleteArtifacts_spec ctx io c d tr d' err :
  PruneObsoleteArtifacts ctx io c d = (tr, (d', err)) ->
  (tr = [] /\ d' = d /\ err <> None) \/
  let P := prunable (keep_names (vm_current (c_versions c))) in
  Forall (only P (with_log c d)) (d' :: tr) /\
  (err = None -> prune_honest io -> disk_tree (with_log c d) ->
     forall n, owned n -> n ∈ disk_names d' -> n ∈ keep_names (vm_current (c_versions c))).
Proof.
  unfold PruneObsoleteArtifacts. destruct (ctx_guard _ ctx); [intros [= <- <- <-]; by left|].
  destruct (requireWritableLocked c); [intros [= <- <- <-]; by left|]. set (d1 := with_log c d). set (keep := keep_names _). cbv zeta.
  intros H. right. assert (Hone : forall e : gerror, (tr, (d', err)) = ([], (d1, Some e)) -> Forall (only (prunable keep) d1) (d' :: tr) /\
    (err = None -> prune_honest io -> disk_tree d1 -> forall n, owned n -> n ∈ disk_names d' -> n ∈ keep)).
  { intros e [= -> -> ->]. split; [|done]. by constructor; [apply only_refl|]. }
  destruct (prune_candidates io d1) as [candidates|e] eqn:Ec; [|by eapply Hone].
  destruct (ownedSubdirectories io d1 "segments") as [dirs|e]; [|by eapply Hone].
  destruct (prune_loop _ _ _ _ _) as [tr0 [d2 [touched e]]] eqn:El. destruct (prune_candidates_spec _ _ _ Ec) as [C1 C2].
  apply prune_loop_spec in El as [L1 L2 L3 L4]; [|by apply Forall_forall|done].
  destruct e as [e|]; [injection H as <- <- <-; split; [by constructor|done]|].
  destruct (sync_touched _ _ _ d2) as [d3 e3] eqn:Es. destruct (sync_touched_spec (prunable keep) _ _ _ _ _ _ Es) as [S1 S2].
  assert (only (prunable keep) d1 d3) as Hd3 by by eapply only_trans.
  assert (Hall : Forall (only (prunable keep) d1) (d3 :: tr0 ++ [d3])) by (constructor; [done|]; apply Forall_app; split; [done|by apply Forall_singleton]).
  assert (Hdone : prune_honest io -> disk_tree d1 -> forall n, owned n -> n ∈ disk_names d3 -> n ∈ keep).
  { intros Hh Ht n Ho Hn. rewrite elem_of_disk_names, S2 in Hn. pose proof (L4 eq_refl Hh) as L5. rewrite Forall_forall in L5.
    destruct (L5 n) as [|Hd]; [|done|unfold dropped in Hd; rewrite Hd in Hn; by destruct Hn]. apply (C2 Ht n Ho). apply elem_of_disk_names.
    destruct (proj1 (proj2 L2) n) as [Heq|Heq]; [by rewrite <- Heq|]. rewrite Heq in Hn. by destruct Hn. }
  destruct e3; [injection H as <- <- <-; by split|]. destruct (remove_empty _ _ _ _); injection H as <- <- <-; by split.
Qed.
End prune_safety.

Lemma owned_nonempty n : owned n -> n <> "".
Proof.
  assert (Hin : forall directory test, owned_in directory test n -> n <> "").
  { intros directory test (e & -> & _). unfold path_join. by destruct directory. }
  intros [(directory & _ & H)|[H|H]]; [by eapply Hin|by eapply Hin|]. apply Exists_exists in H as (sp & _ & H). by eapply Hin.
Qed.

(** ** What a manifest names *)
Inductive named (manifest : Manifest) : string -> Prop :=
| NamedSegment s n : s ∈ mf_PersistedSegments manifest -> n ∈ sm_Files s -> named manifest n
| NamedLog w n : mf_WritingSegment manifest = Some w -> n ∈ sm_Files w -> named manifest n
| NamedLock w n : mf_WritingSegment manifest = Some w -> n ∈ sm_Files w -> named manifest (n ++ ".lock")%string
| NamedIndex snapshot artifact :
    snapshot ∈ mf_SegmentIndexSnapshots manifest -> artifact ∈ si_Artifacts snapshot -> named manifest (ia_File artifact)
| NamedIDMap : named manifest (mf_IDMap manifest)
| NamedDeletes : named manifest (DeleteSnapshotName (mf_DeleteSnapshotGeneration manifest)).

Lemma elem_of_keep_names manifest n : n ∈ keep_names manifest <-> n <> "" /\ named manifest n.
Proof.
  unfold keep_names. rewrite elem_of_list_to_set, list_elem_of_filter. apply and_iff_compat_l.
  rewrite !elem_of_app, !list_elem_of_join. split.
  - intros [(l & Hn & (s & -> & Hs)%list_elem_of_fmap)|[Hn|[(l & Hn & (s & -> & Hs)%list_elem_of_fmap)|Hn]]].
    + by eapply NamedSegment.
    + destruct (mf_WritingSegment manifest) as [w|] eqn:Ew; [|by apply elem_of_nil in Hn].
      apply elem_of_app in Hn as [Hn|(k & -> & Hk)%list_elem_of_fmap]; [by eapply NamedLog|by eapply NamedLock].
    + apply list_elem_of_fmap in Hn as (a & -> & Ha). by eapply NamedIndex.
    + apply elem_of_cons in Hn as [->|Hn]; [apply NamedIDMap|]. apply list_elem_of_singleton in Hn as ->. apply NamedDeletes.
  - destruct 1 as [s n Hs Hn|w n Hw Hn|w n Hw Hn|s a Hs Ha| |].
    + left. exists (sm_Files s). split; [done|]. by apply list_elem_of_fmap_2.
    + right. left. rewrite Hw. apply elem_of_app. by left.
    + right. left. rewrite Hw. apply elem_of_app. right. apply list_elem_of_fmap. by exists n.
    + do 2 right. left. exists (ia_File <$> si_Artifacts s). split; [by apply list_elem_of_fmap_2|].
      apply list_elem_of_fmap. by exists s.
    + do 3 right. by left.
    + do 3 right. right. by left.
Qed.

(** [n] is the artifact [name], or lies in the [.pebble] directory [name]. *)
Definition part_of (name n : string) : Prop :=
  n = name \/ exists p rest, name = (p ++ ".pebble")%string /\ n = path_join name rest.
Lemma removes_part_of name n : removes name n = true <-> part_of name n.
Proof.
  unfold removes, part_of. rewrite orb_true_iff, andb_true_iff, !bool_decide_eq_true, has_suffix_spec. unfold is_Some.
  setoid_rewrite below_inv. naive_solver.
Qed.
(** What pruning may remove, by the manifest. *)
Lemma prunable_named manifest n : prunable (keep_names manifest) n <-> exists name, owned name /\ ~ named manifest name /\ part_of name n.
Proof.
  unfold prunable. setoid_rewrite elem_of_keep_names. setoid_rewrite removes_part_of. split; intros (name & Ho & Hk & Hp); exists name.
  - split; [done|]. split; [|done]. intros Hn. apply Hk. split; [by apply owned_nonempty|done].
  - split; [done|]. split; [|done]. by intros [_ ?].
Qed.

(** ** The store goes on *)
Section prune_store.
Context {DB : Type} `{Hkv : KVStore DB} {Hlaws : KVStoreLaws DB} {S : Setting DB}.
Implicit Types (d : disk DB) (c : CollectionStore DB).

Lemma keep_checkpoint manifest n : n <> "" -> n ∈ checkpoint_files manifest -> n ∈ keep_names manifest.
Proof.
  intros Hne Hn. unfold keep_names. apply elem_of_list_to_set, list_elem_of_filter. split; [done|]. unfold checkpoint_files in Hn.
  rewrite !elem_of_cons in Hn. rewrite !elem_of_app, !elem_of_cons. naive_solver.
Qed.
Lemma keep_log manifest path : path <> "" -> names_log manifest path -> path ∈ keep_names manifest.
Proof.
  intros Hne [(w & Hw & Hf) _]. unfold keep_names. apply elem_of_list_to_set, list_elem_of_filter. split; [done|].
  rewrite Hw, Hf, !elem_of_app. right. left. left. by left.
Qed.

(** What is kept, outside [.pebble] directories, is not prunable. *)
Lemma kept_not_prunable keep n : (n <> "" -> n ∈ keep) -> pebble_free n -> ~ prunable keep n.
Proof.
  intros Hn Hi (name & Ho & Hk & Hr). rewrite removes_kept in Hr; [done| |done]. intros ->. by apply Hk, Hn, owned_nonempty.
Qed.

Lemma only_store_inv c d d' base ops lost :
  store_inv c d base ops lost ->
  only (prunable (keep_names (vm_current (c_versions c)))) (with_log c d) d' -> store_inv c d' base ops lost.
Proof.
  intros Hinv (Hroot & _ & Hkept). destruct (sv_engine _ _ _ _ _ Hinv) as (p & _ & Hck & _). pose proof (sv_path _ _ _ _ _ Hinv) as [Hnl _].
  assert (Hsame : forall n, n ∈ c_walPath c :: checkpoint_files (vm_current (c_versions c)) ->
    dk_files d' !! n = dk_files (with_log c d) !! n /\ (n ∈ dk_torn d' -> n ∈ dk_torn d)).
  { intros n Hn. apply Hkept, kept_not_prunable; apply elem_of_cons in Hn as [->|Hn].
    - intros Hne. by apply keep_log.
    - intros Hne. by apply keep_checkpoint.
    - apply Hnl.
    - by eapply checkpoint_plain. }
  apply (store_inv_same c d); [done|done| |].
  - intros n Hn Hne. destruct (Hsame n) as [-> _]; [by right|]. cbn. by rewrite lookup_insert_ne.
  - intros n Hn. by apply (Hsame n).
Qed.

(** Every disk that pruning passes through, and the one it leaves. *)
Lemma prune_store_inv ctx io c d base ops lost tr d' err :
  store_inv c d base ops lost -> PruneObsoleteArtifacts ctx io c d = (tr, (d', err)) ->
  Forall (fun dd => store_inv c dd base ops lost) (d' :: tr).
Proof.
  intros Hinv H. destruct (PruneObsoleteArtifacts_spec _ _ _ _ _ _ _ H) as [(-> & -> & _)|[Hall _]]; [by apply Forall_singleton|].
  eapply Forall_impl; [exact Hall|]. intros dd Hdd. by eapply only_store_inv.
Qed.
End prune_store.
