(* ===== verification/CompactionSafety.v ===== *)
(** * Compaction is safe

    Dropping the purged versions commutes with the replay of the log: the
    compacted checkpoint, with the log as it is, recovers the contents of the
    original one.  A compaction may overlap writes and flushes, and a crash at
    any point of it leaves the old checkpoint or the compacted one. *)
From S2P Require Import Prelude Bytes Utf8 KeyStore IdMap FileIO Wal Paths Snapshot Json JsonText Names Manifest ManifestFile ManifestJson VersionManager Segment SegmentManager WriteEngine Recovery Durability Rotation Storage Collection Rewrite Compaction Checkpoint Preparation StoreSafety FlushSafety RewriteSafety PublicationSafety.
From stdpp Require Import sorting.
#[local] Open Scope string_scope.
#[local] Open Scope list_scope.
#[local] Open Scope Z_scope.

(** ** Dropping purged versions *)

(** [a'] is [a] over other segments, without the deletions [P]. *)
Record compacts (P : gset Z) (a a' : AbsState) : Prop := {
  cs_writing : a_writing a' = a_writing a;
  cs_view : a_view a' = a_view a;
  cs_deletes : a_deletes a' = a_deletes a ∖ P;
  cs_purged : P ⊆ a_deletes a
}.

Lemma compacts_append P op a a' : compacts P a a' -> a_append op a' = a_append op a.
Proof. intros [Hw _ _ _]. unfold a_append. by rewrite Hw. Qed.

Lemma compacts_apply P op a a' b :
  compacts P a a' -> a_inv a -> abs_apply op a = Some b ->
  exists b', abs_apply op a' = Some b' /\ compacts P b b' /\ a_ordered b' = a_ordered a' /\ a_immutable b' = a_immutable a'.
Proof.
  intros Hc Ha H. pose proof (compacts_append P op a a' Hc) as Happ. destruct Hc as [Hw Hv Hd HP].
  assert (Hhid : forall old, a_view a !! op_PrimaryKey op = old ->
    match old with Some id => {[id]} ∪ a_deletes a' | None => a_deletes a' end =
    match old with Some id => {[id]} ∪ a_deletes a | None => a_deletes a end ∖ P /\
    P ⊆ match old with Some id => {[id]} ∪ a_deletes a | None => a_deletes a end).
  { intros [id|] Ho; rewrite Hd; [|done]. apply (ai_live a Ha) in Ho as [Hn _]. clear -Hn HP. split; [|set_solver].
    apply set_eq. intros x. rewrite elem_of_difference, !elem_of_union, elem_of_difference, elem_of_singleton.
    split; [|tauto]. intros [->|[? ?]]; [|tauto]. split; [by left|]. intros Hx. by apply Hn, HP. }
  unfold abs_apply in *. rewrite Hv, Hw, Happ. specialize (Hhid _ eq_refl). destruct Hhid as [Hh HPh].
  set (old := a_view a !! op_PrimaryKey op) in *.
  repeat case_match; try done; try (destruct (a_append op a) as [w|]; [|done]); injection H as <-;
    (eexists; split; [reflexivity|]; split; [|done]; split; cbn; auto; by rewrite ?Hv).
Qed.

Lemma compacts_replay P ops a a' b :
  Forall op_ok ops -> compacts P a a' -> a_inv a -> abs_replay ops a = Some b ->
  exists b', abs_replay ops a' = Some b' /\ compacts P b b' /\ a_ordered b' = a_ordered a' /\ a_immutable b' = a_immutable a'.
Proof.
  intros Hops. revert a a'. induction Hops as [|op ops Hop Hops IH]; intros a a' Hc Ha H; cbn in *.
  { injection H as <-. by exists a'. }
  destruct (abs_apply op a) as [a1|] eqn:E; [|done]. destruct (compacts_apply P op a a' a1 Hc Ha E) as (a1' & -> & Hc1 & Ho1 & Hi1).
  destruct (abs_apply_spec op a a1 Hop Ha E) as [Ha1 _]. rewrite <- Ho1, <- Hi1. by apply (IH a1).
Qed.

(** The deletions only grow along a log. *)
Lemma abs_apply_deletes op a b : abs_apply op a = Some b -> a_deletes a ⊆ a_deletes b.
Proof.
  unfold abs_apply. intros H. repeat case_match; try done; try (destruct (a_append op a) as [w|]; [|done]); injection H as <-; cbn; set_solver.
Qed.
Lemma abs_replay_deletes ops a b : abs_replay ops a = Some b -> a_deletes a ⊆ a_deletes b.
Proof.
  revert a. induction ops as [|op ops IH]; intros a H; cbn in H; [by injection H as <-|].
  destruct (abs_apply op a) as [a1|] eqn:E; [|done]. etrans; [by eapply abs_apply_deletes|by apply IH].
Qed.

(** The documents of segments, and those of [l'] as those of [l] without [P]. *)
Definition segment_documents (l : list ImmutableSegment) : list StoredDocument := mjoin (im_docs <$> l).
Definition drops (P : gset Z) (l l' : list ImmutableSegment) : Prop :=
  forall x, x ∈ segment_documents l' <-> x ∈ segment_documents l /\ DocID x ∉ P.

Lemma elem_of_segment_documents x l : x ∈ segment_documents l <-> exists s, s ∈ l /\ x ∈ im_docs s.
Proof.
  unfold segment_documents. rewrite list_elem_of_join. split.
  - intros (docs & Hx & (s & -> & Hs)%list_elem_of_fmap). eauto.
  - intros (s & Hs & Hx). exists (im_docs s). split; [done|]. by apply list_elem_of_fmap_2.
Qed.

Lemma a_stored_segments a x :
  x ∈ a_stored a <-> x ∈ segment_documents (a_ordered a) \/ exists w, a_writing a = Some w /\ x ∈ ws_docs w.
Proof.
  unfold a_stored, sg_stored. cbn. rewrite elem_of_app. fold (segment_documents (a_ordered a)).
  destruct (a_writing a) as [w|]; [naive_solver|]. split; [intros [?|?%elem_of_nil]; [by left|done]|naive_solver].
Qed.

(** The ends of the segments that stay below the write segment. *)
Lemma segments_below P l l' bound :
  Forall im_ok l -> Forall im_ok l' -> drops P l l' -> Forall (fun s => im_max s < bound) l -> Forall (fun s => im_max s < bound) l'.
Proof.
  intros Hl Hl' Hd Hb. rewrite Forall_forall in *. intros s Hs. pose proof (Hl' s Hs) as Hok.
  destruct (last (im_docs s)) as [x|] eqn:El; [|apply last_None in El; by destruct (io_nonempty s Hok)].
  pose proof (last_docs_ok _ _ _ (io_docs s Hok) El) as Hx. rewrite (io_max s Hok), <- Hx.
  assert (x ∈ segment_documents l') as Hin by (apply elem_of_segment_documents; exists s; split; [done|by apply last_Some_elem_of]).
  apply Hd in Hin as [(t & Ht & Hxt)%elem_of_segment_documents _].
  pose proof (docs_ok_bound _ _ _ (io_docs t (Hl t Ht)) Hxt). pose proof (io_max t (Hl t Ht)). specialize (Hb t Ht). cbn in Hb. lia.
Qed.

Lemma compacts_inv P a a' :
  compacts P a a' -> a_inv a -> sg_inv (a_mgr a') -> drops P (a_ordered a) (a_ordered a') ->
  (forall w x, a_writing a = Some w -> x ∈ ws_docs w -> DocID x ∉ P) ->
  a_inv a' /\ contents a' = contents a /\ forall x, x ∈ a_stored a' <-> x ∈ a_stored a /\ DocID x ∉ P.
Proof.
  intros [Hw Hv Hd HP] Ha Hsg Hdrop Hwp.
  assert (Hst : forall x, x ∈ a_stored a' <-> x ∈ a_stored a /\ DocID x ∉ P).
  { intros x. rewrite !a_stored_segments, Hw, (Hdrop x). split.
    - intros [[? ?]|(w & Hw' & Hx)]; [split; [by left|done]|]. split; [right; by exists w|by eapply Hwp].
    - intros [[?|(w & Hw' & Hx)] ?]; [by left|right; by exists w]. }
  assert (a_inv a') as Ha'.
  { split; [done| | |].
    - intros w Hw'. rewrite Hw in Hw'. apply (segments_below P (a_ordered a)); [exact (si_ok _ (ai_sg _ Ha))|exact (si_ok _ Hsg)|done|].
      by apply (ai_order a Ha).
    - intros key id. rewrite Hv, Hd, (ai_live a Ha), elem_of_difference. setoid_rewrite Hst. split.
      + intros (Hn & x & Hx & Hid & Hk). split; [tauto|]. exists x. split; [split; [done|]|done]. rewrite Hid. intros Hx'. by apply Hn, HP.
      + intros (Hn & x & [Hx Hxp] & Hid & Hk). rewrite Hid in Hxp. split; [tauto|eauto].
    - intros id Hid. rewrite Hd in Hid. apply elem_of_difference in Hid as [Hid Hp].
      destruct (ai_deletes a Ha id Hid) as (x & Hx & <-). exists x. split; [|done]. by apply Hst. }
  split; [done|]. split; [|done]. apply map_eq. intros key. apply option_eq. intros p.
  rewrite (contents_lookup a' key p Ha'), (contents_lookup a key p Ha), Hd. setoid_rewrite Hst. setoid_rewrite elem_of_difference. split.
  - intros (x & [Hx Hxp] & Hk & Hp & Hn). exists x. tauto.
  - intros (x & Hx & Hk & Hp & Hn). exists x. split; [split; [done|]; intros Hx'; by apply Hn, HP|]. tauto.
Qed.

(** ** The compacted manager *)
Section compacted.
Context {DB : Type} `{KVStore DB}.
Implicit Types (m : SegmentManager DB) (p : Compaction).

Lemma match_inputs_spec segments inputs remaining inputs' remaining' :
  match_inputs segments inputs remaining = Ok (inputs', remaining') -> NoDup (im_ID <$> segments) ->
  exists matched added, remaining' = remaining ++ added /\ segments ≡ₚ matched ++ added /\
    Forall (fun s => inputs !! im_ID s = Some s) matched /\ Forall (fun s => inputs !! im_ID s = None) added /\
    forall id s, inputs !! id = Some s -> inputs' !! id = None -> s ∈ matched.
Proof.
  revert inputs remaining. induction segments as [|s segments IH]; intros inputs remaining Hm Hnd; cbn [match_inputs] in Hm.
  { injection Hm as <- <-. exists [], []. rewrite app_nil_r. do 4 (split; [done|]). intros id t H1 H2. congruence. }
  apply NoDup_cons in Hnd as [Hs Hnd]. destruct (inputs !! im_ID s) as [input|] eqn:Ei.
  - case_bool_decide as Heq; [|done]. subst input. cbn [negb] in Hm.
    destruct (IH _ _ Hm Hnd) as (matched & added & H1 & H2 & H3 & H4 & H5). exists (s :: matched), added.
    split; [done|]. split; [by rewrite H2|]. split; [|split].
    + constructor; [done|]. eapply Forall_impl; [exact H3|]. intros t Ht. by apply lookup_delete_Some in Ht as [_ ?].
    + rewrite Forall_forall in H4 |- *. intros t Ht. specialize (H4 t Ht). apply lookup_delete_None in H4 as [Heq|]; [|done].
      exfalso. apply Hs. rewrite Heq. apply list_elem_of_fmap_2. rewrite H2. apply elem_of_app. by right.
    + intros id t Ht Hn. destruct (decide (id = im_ID s)) as [->|Hne]; [rewrite Ei in Ht; injection Ht as <-; by left|].
      right. apply (H5 id); [|done]. by rewrite lookup_delete_ne.
  - destruct (IH _ _ Hm Hnd) as (matched & added & H1 & H2 & H3 & H4 & H5). exists matched, (s :: added).
    split; [by rewrite H1, <- app_assoc|]. split; [by rewrite H2, Permutation_middle|]. split; [done|]. by split; [constructor|].
Qed.

Lemma restore_all_spec ids (deletes : DeleteStore) : restore_all CtxLive ids deletes = Ok (deletes ∖ list_to_set ids).
Proof.
  revert deletes. induction ids as [|id ids IH]; intros deletes; cbn [restore_all]; [f_equal; set_solver|].
  unfold DeleteStore_Restore. cbn [ctx_guard]. rewrite IH. f_equal. set_solver.
Qed.

Lemma AddImmutable_stores s m m' : AddImmutable s m = (m', None) -> sg_primaryKey m' = sg_primaryKey m /\ sg_deletes m' = sg_deletes m.
Proof. unfold AddImmutable. intros Hx. by repeat (case_in Hx; try discriminate Hx; simplify_eq; try done). Qed.
Lemma SetWriting_stores w m m' : SetWriting w m = (m', None) -> sg_primaryKey m' = sg_primaryKey m /\ sg_deletes m' = sg_deletes m.
Proof. unfold SetWriting. intros Hx. by repeat (case_in Hx; try discriminate Hx; simplify_eq; try done). Qed.

Lemma add_all_spec segments m m' :
  add_all segments m = Ok m' -> sg_inv m -> Forall im_ok segments ->
  sg_inv m' /\ sg_writing m' = sg_writing m /\ sg_ordered m' ≡ₚ sg_ordered m ++ segments /\
  sg_primaryKey m' = sg_primaryKey m /\ sg_deletes m' = sg_deletes m.
Proof.
  intros Ha Hm Hok. revert m Ha Hm. induction Hok as [|s segments Hs Hok IH]; intros m Ha Hm; cbn [add_all] in Ha.
  { injection Ha as <-. by rewrite app_nil_r. }
  destruct (AddImmutable s m) as [m1 [e|]] eqn:E; [done|]. destruct (AddImmutable_inv m s m1 Hm Hs E) as (Hm1 & Hw1 & Ho1).
  destruct (AddImmutable_stores s m m1 E) as [Hp1 Hd1]. destruct (IH m1 Ha Hm1) as (H1 & H2 & H3 & H4 & H5).
  split; [done|]. split; [congruence|]. split; [|split; congruence]. by rewrite H3, Ho1, insertOrdered_perm, <- Permutation_middle.
Qed.

(** What the replacements hold. *)
Record replaces (P : gset Z) (inputs outputs : list ImmutableSegment) : Prop := {
  rl_ids : NoDup (im_ID <$> inputs);
  rl_outputs : Forall im_ok outputs;
  rl_docs : drops P inputs outputs;
  rl_purged : forall id, id ∈ P -> exists x, x ∈ segment_documents inputs /\ DocID x = id
}.

Lemma same_segment m s t x y :
  sg_inv m -> s ∈ sg_ordered m -> t ∈ sg_ordered m -> x ∈ im_docs s -> y ∈ im_docs t -> DocID x = DocID y -> s = t.
Proof.
  intros Hm Hs Ht Hx Hy Heq. destruct (decide (s = t)); [done|]. exfalso.
  pose proof (si_ok m Hm) as Hok. rewrite Forall_forall in Hok.
  pose proof (docs_ok_bound _ _ _ (io_docs s (Hok s Hs)) Hx). pose proof (docs_ok_bound _ _ _ (io_docs t (Hok t Ht)) Hy).
  pose proof (io_max s (Hok s Hs)). pose proof (io_max t (Hok t Ht)). pose proof (sg_apart m s t Hm Hs Ht ltac:(done)). lia.
Qed.

Lemma compacted_manager_spec p m m' :
  let P := list_to_set (p_purged p) in
  compacted_manager CtxLive p m = Ok m' -> sg_inv m -> replaces P (p_inputs p) (p_outputs p) ->
  sg_inv m' /\ sg_writing m' = sg_writing m /\ sg_writing m <> None /\ sg_primaryKey m' = sg_primaryKey m /\
  sg_deletes m' = sg_deletes m ∖ P /\ drops P (sg_ordered m) (sg_ordered m') /\
  Forall (fun s => s ∈ sg_ordered m \/ s ∈ p_outputs p) (sg_ordered m') /\
  forall id, id ∈ P -> exists x, x ∈ segment_documents (sg_ordered m) /\ DocID x = id.
Proof.
  intros P Hc Hm [Hnd Hok Hdrop Hpurged]. unfold compacted_manager in Hc.
  set (inputs := list_to_map _ : gmap Z ImmutableSegment) in Hc.
  assert (Hin : forall id s, inputs !! id = Some s <-> s ∈ p_inputs p /\ im_ID s = id).
  { intros id s. unfold inputs. rewrite <- elem_of_list_to_map.
    - rewrite elem_of_reverse, list_elem_of_fmap. split; [intros (t & [= -> ->] & ?); done|]. intros [? <-]. by exists s.
    - rewrite fmap_reverse, <- list_fmap_compose. by rewrite reverse_Permutation. }
  destruct (match_inputs (sg_ordered m) inputs []) as [[inputs' remaining]|] eqn:Em; [|done].
  destruct (match_inputs_spec _ _ _ _ _ Em (sg_ids_NoDup m Hm)) as (matched & added & -> & Hperm & Hmat & Hadd & Hall).
  cbn [app] in Hc. destruct (Z.of_nat (size inputs') =? 0) eqn:Ez; [|done]. to_prop. cbn [negb] in Hc.
  assert (inputs' = ∅) as -> by (apply map_size_empty_iff; lia).
  rewrite restore_all_spec in Hc. destruct (add_all _ _) as [m1|] eqn:Ea; [|done].
  destruct (sg_writing m) as [w|] eqn:Ew; [|done]. destruct (SetWriting w m1) as [m2 [e|]] eqn:Es; [done|]. injection Hc as <-.
  rewrite Forall_forall in Hmat, Hadd. pose proof (si_ok m Hm) as Hokm.
  assert (Hmi : forall s, s ∈ matched <-> s ∈ p_inputs p).
  { intros s. split; [intros Hs%Hmat; by apply Hin in Hs as [? _]|]. intros Hs. apply (Hall (im_ID s)); [by apply Hin|done]. }
  assert (sg_inv (NewSegmentManager (sg_primaryKey m) (DeleteStore_Clone (sg_deletes m) ∖ list_to_set (p_purged p)))) as Hm0.
  { split; cbn; [constructor|constructor| |done]. intros id s. rewrite lookup_empty. split; [done|]. by intros [?%elem_of_nil _]. }
  assert (Forall im_ok (added ++ p_outputs p)) as Hokl.
  { apply Forall_app. split; [|done]. rewrite Hperm in Hokm. by apply Forall_app in Hokm as [_ ?]. }
  destruct (add_all_spec _ _ _ Ea Hm0 Hokl) as (Hm1 & Hw1 & Ho1 & Hp1 & Hd1). cbn [app sg_ordered NewSegmentManager] in Ho1.
  destruct (SetWriting_inv m1 w m2 Hm1 (proj1 (si_writing m Hm w Ew)) Es) as (Hm2 & _ & Hw2 & Ho2).
  destruct (SetWriting_stores w m1 m2 Es) as [Hp2 Hd2].
  assert (Hord : forall s, s ∈ sg_ordered m <-> s ∈ p_inputs p \/ s ∈ added) by (intros s; by rewrite Hperm, elem_of_app, Hmi).
  split; [done|]. split; [done|]. split; [done|]. split; [by rewrite Hp2, Hp1|]. split; [by rewrite Hd2, Hd1|].
  assert (Hmem : forall s, s ∈ sg_ordered m2 <-> s ∈ added \/ s ∈ p_outputs p) by (intros s; by rewrite Ho2, Ho1, elem_of_app).
  split; [|split].
  - intros x. split.
    + intros (s & [Hs|Hs]%Hmem & Hx)%elem_of_segment_documents.
      * split; [apply elem_of_segment_documents; exists s; split; [apply Hord; by right|done]|]. intros Hpx.
        destruct (Hpurged _ Hpx) as (y & (t & Ht & Hy)%elem_of_segment_documents & Hxy).
        assert (t = s) as ->. { apply (same_segment m t s y x); try done; apply Hord; [by left|by right]. }
        specialize (Hadd s Hs). assert (inputs !! im_ID s = Some s) by by apply Hin. congruence.
      * assert (x ∈ segment_documents (p_outputs p)) as Hxo by (apply elem_of_segment_documents; eauto).
        apply Hdrop in Hxo as [(t & Ht & Hxt)%elem_of_segment_documents Hn]. split; [|done].
        apply elem_of_segment_documents. exists t. split; [apply Hord; by left|done].
    + intros [(s & [Hs|Hs]%Hord & Hx)%elem_of_segment_documents Hn]; apply elem_of_segment_documents.
      * assert (x ∈ segment_documents (p_outputs p)) as (t & Ht & Hxt)%elem_of_segment_documents
          by (apply Hdrop; split; [apply elem_of_segment_documents; eauto|done]).
        exists t. split; [apply Hmem; by right|done].
      * exists s. split; [apply Hmem; by left|done].
  - apply Forall_forall. intros s [Hs|Hs]%Hmem; [left; apply Hord; by right|by right].
  - intros id Hid. destruct (Hpurged id Hid) as (x & (s & Hs & Hx)%elem_of_segment_documents & <-). exists x. split; [|done].
    apply elem_of_segment_documents. exists s. split; [apply Hord; by left|done].
Qed.
End compacted.

(** ** The compacted checkpoint *)
Section compacted_store.
Context {DB : Type} `{Hkv : KVStore DB} {Hlaws : KVStoreLaws DB} {S : Setting DB}.
Implicit Types (d : disk DB) (m : SegmentManager DB) (c : CollectionStore DB) (p : Compaction).

Definition purged_set p : gset Z := list_to_set (p_purged p).

Definition output_files p : list string := mjoin ((fun s => sm_Files (im_metadata s)) <$> p_outputs p).
Lemma elem_of_output_files p f : f ∈ output_files p <-> exists s, s ∈ p_outputs p /\ f ∈ sm_Files (im_metadata s).
Proof.
  unfold output_files. rewrite list_elem_of_join. split.
  - intros (l & Hf & (s & -> & Hs)%list_elem_of_fmap). eauto.
  - intros (s & Hs & Hf). eexists. split; [exact Hf|]. apply list_elem_of_fmap. eauto.
Qed.

(** A compaction that is prepared: its replacements are on the disk under names
    of their own, and what it purges is deleted in the checkpoint. *)
Record ready p c d (base : AbsState) : Prop := {
  rd_deletes : purged_set p ⊆ a_deletes base;
  rd_replaces : replaces (purged_set p) (p_inputs p) (p_outputs p);
  rd_outputs : Forall (fun s => segment_on_disk dir d (mf_EnableMmap (p_manifest p)) s /\ segment_encodable (im_metadata s)) (p_outputs p);
  rd_names : forall f, f ∈ output_files p -> f <> c_walPath c /\ f ∉ checkpoint_files (vm_current (c_versions c));
  rd_created : p_created p = output_files p;
  rd_mmap : mf_EnableMmap (vm_current (c_versions c)) = mf_EnableMmap (p_manifest p)
}.

(** The base of the compacted checkpoint. *)
Definition compacted_base p m' (base : AbsState) : AbsState :=
  {| a_immutable := sg_immutable m'; a_ordered := sg_ordered m'; a_writing := a_writing base;
     a_deletes := a_deletes base ∖ purged_set p; a_view := a_view base |}.

Lemma compacted_base_spec p c d base ops m' wal q :
  ready p c d base -> engine_inv base {| e_manager := c_manager c; e_wal := wal; e_poisoned := q |} ops None ->
  compacted_manager CtxLive p (c_manager c) = Ok m' ->
  a_inv (compacted_base p m' base) /\
  engine_inv (compacted_base p m' base) {| e_manager := m'; e_wal := wal; e_poisoned := None |} ops None /\
  contents (abs m') = contents (abs (c_manager c)) /\
  (forall x, x ∈ sg_stored m' <-> x ∈ sg_stored (c_manager c) /\ DocID x ∉ purged_set p) /\
  sg_deletes m' = sg_deletes (c_manager c) ∖ purged_set p.
Proof.
  intros [Hdel Hrep _ _ _ _] He Hm'. set (m := c_manager c) in *. set (P := purged_set p) in *.
  pose proof (ei_inv _ _ _ _ He) as Ha. destruct He as [Hi Hb Hw Hr Hops Hlog _]. cbn [e_manager e_wal] in *.
  destruct (compacted_manager_spec p m m' Hm' (proj2 (sg_inv_a_mgr m) (ai_sg _ Ha)) Hrep) as (Hsg & Hw' & _ & Hpk & Hd & Hdrop & _ & Hpurged).
  change (list_to_set (p_purged p)) with P in Hd, Hdrop, Hpurged. destruct (abs_replay_segments _ _ _ Hr) as (Ho & Him & Hpl). cbn in Ho, Him.
  pose proof (abs_replay_deletes _ _ _ Hr) as Hgrow. cbn in Hgrow.
  assert (Hc : compacts P base (compacted_base p m' base)) by by split.
  assert (Hcm : compacts P (abs m) (abs m')).
  { split; cbn; [done|by rewrite Hpk|done|]. etrans; [exact Hdel|exact Hgrow]. }
  assert (Hbelow : forall a w x, a_inv a -> a_ordered a = sg_ordered m -> a_writing a = Some w -> x ∈ ws_docs w -> DocID x ∉ P).
  { intros a w x Haa Hoa Hwa Hx Hin. destruct (Hpurged _ Hin) as (y & (t & Ht & Hy)%elem_of_segment_documents & Heq).
    pose proof (si_writing _ (ai_sg a Haa) w Hwa) as (Hwi & _ & _). pose proof (docs_ok_bound _ _ _ (wi_docs w Hwi) Hx).
    pose proof (ai_order a Haa w Hwa) as Hor. rewrite Hoa, Forall_forall in Hor. specialize (Hor t Ht). cbn in Hor.
    pose proof (si_ok _ (ai_sg _ Ha)) as Hok. rewrite Forall_forall in Hok. specialize (Hok t Ht).
    pose proof (docs_ok_bound _ _ _ (io_docs t Hok) Hy). pose proof (io_max t Hok). lia. }
  destruct (compacts_inv P (abs m) (abs m') Hcm Ha) as (_ & HC & Hst); [by apply sg_inv_a_mgr|done|intros w x; by apply (Hbelow (abs m))|].
  assert (sg_inv (a_mgr (compacted_base p m' base))) as Hsgb.
  { destruct Hsg as [G1 G2 G3 G4]. split; cbn; [done|done|done|]. intros w0 Hw0.
    destruct (si_writing _ (ai_sg _ Hb) w0 Hw0) as (Hwi & _ & _). split; [done|]. destruct (Hpl w0 Hw0) as (w & Hwm & Hid & _). cbn in Hwm.
    split; [rewrite <- Hid; apply (G4 w); congruence|].
    pose proof (segments_below P (sg_ordered m) (sg_ordered m') (ws_minDocID w0)) as Hsb.
    eapply Forall_impl; [apply Hsb; [exact (si_ok _ (ai_sg _ Ha))|done|done|rewrite Ho; by apply (ai_order _ Hb)]|].
    intros s Hs. by left. }
  destruct (compacts_inv P base (compacted_base p m' base) Hc Hb Hsgb) as (Hb' & _ & _); [by rewrite <- Ho|intros w x; by apply (Hbelow base)|].
  split; [done|]. split; [|done]. split; cbn [e_manager e_wal]; [by rewrite Hpk|done|by rewrite Hw'| |done|done|done].
  destruct (compacts_replay P ops base _ _ Hops Hc Hb Hr) as (b' & -> & [B1 B2 B3 _] & B4 & B5). f_equal.
  destruct b' as [b1 b2 b3 b4 b5]. unfold abs. cbn in *. by rewrite B1, B2, B3, B4, B5, Hw', Hd, Hpk.
Qed.

Lemma with_segments_checkpoint p c d base ops m' wal q nextID indexes g file :
  ready p c d base -> engine_inv base {| e_manager := c_manager c; e_wal := wal; e_poisoned := q |} ops None ->
  compacted_manager CtxLive p (c_manager c) = Ok m' ->
  checkpoint_on_disk dir d (vm_current (c_versions c)) base ->
  stable d (DeleteSnapshotName g) (RegularFile (whole_file file)) -> g <> 0 ->
  (forall err, LoadDeleteStore CtxLive (Some file) err = Ok (a_deletes base ∖ purged_set p)) ->
  checkpoint_on_disk dir d (with_segments (vm_current (c_versions c)) (ImmutableMetadata m') nextID indexes g) (compacted_base p m' base).
Proof.
  intros Hr He Hm' [C1 C2 C3 _ (ims & Hims & Hall & Hperm) C6 C7] Hst Hg Hload.
  destruct (compacted_base_spec p c d base ops m' wal q Hr He Hm') as (Hb' & _).
  split; cbn [with_segments mf_IDMap mf_DeleteSnapshotGeneration mf_PersistedSegments mf_EnableMmap mf_WritingSegment
    mf_WritingSegmentStartDocID mf_SegmentMaxDocuments]; [done| |exact C3|by exists file| |exact C6|exact C7].
  - destruct C6 as (w & writing & Hw & Hnew & Hbw). unfold validateLifecycleManifest in *.
    cbn [with_segments mf_SegmentMaxDocuments mf_IDMap mf_DeleteSnapshotGeneration mf_WritingSegment mf_PersistedSegments mf_WritingSegmentStartDocID].
    case_in C2; [done|]. apply Z.eqb_neq in Hg. rewrite Hg. apply orb_false_iff in E as [E _]. rewrite E. cbn [orb].
    rewrite Hw in C2 |- *. case_in C2; [done|]. match goal with |- context [existsb ?f ?l] => destruct (existsb f l) eqn:Ex end; [|done].
    exfalso. apply existsb_exists in Ex as (md & Hin%list_elem_of_In & Hb). apply list_elem_of_fmap in Hin as (s & -> & Hs).
    pose proof (ai_order _ Hb' writing Hbw) as Ho. rewrite Forall_forall in Ho. specialize (Ho s Hs).
    unfold NewWriteSegment in Hnew. repeat (case_in Hnew; [done|]). injection Hnew as <-. cbn in Ho. unfold im_max in Ho.
    apply andb_true_iff in Hb as [_ Hb]. to_prop. lia.
  - exists (sg_ordered m'). split; [done|]. split; [|done].
    destruct (compacted_manager_spec p (c_manager c) m' Hm') as (_ & _ & _ & _ & _ & _ & Hsrc & _);
      [apply sg_inv_a_mgr; apply (ei_inv _ _ _ _ He)|apply Hr|].
    destruct (abs_replay_segments _ _ _ (ei_replay _ _ _ _ He)) as (Ho & _ & _). cbn in Ho.
    eapply Forall_impl; [exact Hsrc|]. intros s [Hs|Hs].
    + rewrite Forall_forall in Hall. apply Hall. rewrite Hperm, <- Ho. exact Hs.
    + rewrite (rd_mmap _ _ _ _ Hr). pose proof (rd_outputs _ _ _ _ Hr) as Hout. rewrite Forall_forall in Hout. by apply Hout.
Qed.

(** The delete set of the compacted checkpoint. *)
Lemma swp_compacted_deletes io p d current base :
  checkpoint_on_disk dir d current base -> a_inv base -> is_u64 (mf_DeleteSnapshotGeneration current) ->
  swp d (compacted_deletes CtxLive io p current) {| ss_disk := d; ss_created := [] |} (fun g s =>
    is_u64 g /\ g <> 0 /\ (g = mf_DeleteSnapshotGeneration current \/ dk_files d !! DeleteSnapshotName g = None) /\
    exists file, stable (ss_disk s) (DeleteSnapshotName g) (RegularFile (whole_file file)) /\
      forall err, LoadDeleteStore CtxLive (Some file) err = Ok (a_deletes base ∖ purged_set p)).
Proof.
  intros Hck Ha Hg. pose proof (ck_deletes _ _ _ _ Hck) as (file & Hst & Hload).
  assert (fresh_state d {| ss_disk := d; ss_created := [] |}) as Hs0 by (split; [done|constructor]).
  assert (Hg0 : mf_DeleteSnapshotGeneration current <> 0).
  { intros Hz. pose proof (ck_lifecycle _ _ _ _ Hck) as Hl. unfold validateLifecycleManifest in Hl. rewrite Hz in Hl.
    change (0 =? 0) with true in Hl. by rewrite orb_true_r in Hl. }
  unfold compacted_deletes. destruct (zlen (p_purged p) =? 0) eqn:E; to_prop.
  { apply swp_ret; [done|]. split; [done|]. split; [done|]. split; [by left|]. exists file. split; [done|].
    apply zlen_0_nil in E. unfold purged_set. rewrite E. intros err. rewrite Hload. f_equal. set_solver. }
  apply swp_bind. split; [constructor|]. split; [done|]. intros _.
  apply swp_bind, swp_lift; [done|]. intros checkpoint Hl _. cbn [ss_disk] in Hl.
  rewrite (read_file_stable d _ _ Hst) in Hl. cbn [f_content whole_file] in Hl. rewrite Hload in Hl. injection Hl as <-.
  apply swp_bind, swp_lift; [done|]. intros deletes Hd _. rewrite restore_all_spec in Hd. injection Hd as <-.
  apply swp_bind, swp_delete_generation; [done|done|]. intros g Hfree Hgb _. cbn [ss_disk] in Hfree.
  apply swp_bind, swp_creating; [done|done|]. intros Hs1. cbn [ss_disk ss_created].
  apply swp_bind, swp_write_deletes; [done| |].
  { intros id [Hid _]%elem_of_difference. destruct (ai_deletes _ Ha id Hid) as (x & Hx & <-).
    apply (stored_u64 base); [done| |done]. destruct (ck_writing _ _ _ _ Hck) as (w & wr & _ & _ & ->). done. }
  intros file' s' Hload' Hc Hs'. apply swp_ret; [done|]. unfold is_u64 in *. split; [lia|]. split; [lia|]. split; [by right|].
  exists file'. split; [exact (created_stable _ _ _ _ Hc)|done].
Qed.

(** The log on the disk after its synchronization. *)
Lemma keeps_relog c d d1 wal :
  c_walPath c ∉ dk_torn d -> keeps (with_log c d) d1 -> keeps (with_log (c_set_wal c wal) d) (with_log (c_set_wal c wal) d1).
Proof.
  intros Ht [Hr Hf]. split; [exact Hr|]. intros n a Hn. cbn in Hn |- *. destruct (decide (n = c_walPath c)) as [->|Hne].
  - rewrite lookup_insert_eq in Hn |- *. split; [done|]. intros _.
    destruct (Hf (c_walPath c) (RegularFile (w_file (c_wal c)))) as [_ Hk]; [apply lookup_insert_eq|by apply Hk].
  - rewrite lookup_insert_ne in Hn |- * by done. apply (Hf n a). cbn. by rewrite lookup_insert_ne.
Qed.
Lemma fresh_relog c d s wal :
  c_walPath c ∉ dk_torn d -> fresh_state (with_log c d) s ->
  fresh_state (with_log (c_set_wal c wal) d) {| ss_disk := with_log (c_set_wal c wal) (ss_disk s); ss_created := ss_created s |}.
Proof.
  intros Ht [Hk Hc]. split; [by apply keeps_relog|]. eapply Forall_impl; [exact Hc|]. intros n Hn. cbn in Hn |- *.
  apply lookup_insert_None in Hn as [? ?]. by apply lookup_insert_None.
Qed.

(** A crash while new artifacts are written opens to a prefix of the log. *)
Lemma kept_crash c d base ops lost d1 d' options :
  store_inv c d base ops lost -> zlen ops + 2 < u64_max -> keeps (with_log c d) d1 -> disk_crash d1 d' -> opt_ReadOnly options = false ->
  exists c2 k, OpenCollection dir go_range CtxLive opened_fine options d' = Some (Ok c2) /\
    store_inv c2 d' base (take k (ops ++ option_list lost)) None /\ zlen ops - w_dirtyRecords (c_wal c) <= Z.of_nat k.
Proof.
  intros Hinv Hb Hk Hc Hro. destruct (sv_engine _ _ _ _ _ Hinv) as (q & Hq & _ & _). destruct (sv_versions _ _ _ _ _ Hinv) as [_ Hpub].
  pose proof (store_held c d base ops lost q Hinv Hq) as Hh.
  destruct (crash_reopens d1 (Some (manifest_normal (vm_current (c_versions c)))) [] d' options
    (fun _ b e o l => b = base /\ e = store_engine c q /\ o = ops /\ l = lost))
    as (b & e & o & l & c2 & k & (-> & -> & -> & ->) & Ho & Hinv2 & _ & _ & _ & Hkk); [by rewrite (kp_root _ _ Hk)| |done|done|by exists c2, k].
  intros y ->%list_elem_of_singleton. exists (vm_current (c_versions c)), base, (store_engine c q), ops, lost.
  split; [done|]. split; [apply Hinv|]. split; [by apply (held_keeps (with_log c d))|done].
Qed.

(** A disk that opens, with the same contents if the log of [c] was synchronized. *)
Definition opens_kept c d1 : Prop :=
  forall d2 options, disk_crash d1 d2 -> opt_ReadOnly options = false -> exists c2 base2 ops2,
    OpenCollection dir go_range CtxLive opened_fine options d2 = Some (Ok c2) /\ store_inv c2 d2 base2 ops2 None /\
    (w_dirtyRecords (c_wal c) = 0 -> w_poisoned (c_wal c) = None -> contents (abs (c_manager c2)) = contents (abs (c_manager c))).

Lemma keeps_opens_kept c d base ops lost d1 :
  store_inv c d base ops lost -> zlen ops + 2 < u64_max -> keeps (with_log c d) d1 -> opens_kept c d1.
Proof.
  intros Hinv Hb Hk d2 options Hc Hro. destruct (kept_crash c d base ops lost d1 d2 options Hinv Hb Hk Hc Hro) as (c2 & k & Ho & Hinv2 & Hkk).
  exists c2, base, (take k (ops ++ option_list lost)). split; [done|]. split; [done|]. intros Hd Hp.
  assert (lost = None) as -> by by eapply store_not_lost. by destruct (same_replay c c2 d d2 base ops k Hinv Hinv2 Hkk Hd) as [_ HC].
Qed.
Lemma safe_opens_kept c d1 : safe d1 (contents (abs (c_manager c))) -> opens_kept c d1.
Proof. intros Hs d2 options Hc Hro. destruct (Hs d2 options Hc Hro) as (c2 & b & o & H1 & H2 & H3). exists c2, b, o. auto. Qed.

Lemma with_segments_encodable current segments nextID indexes g :
  manifest_encodable current -> Forall segment_encodable segments -> is_u64 nextID -> Forall index_encodable indexes -> is_u64 g ->
  manifest_encodable (with_segments current segments nextID indexes g).
Proof.
  intros [E1 E2 E3 E4 E5 E6 E7 E8 E9 E10] Hs Hn Hi Hg. split; try done. unfold all_segments in E5 |- *.
  apply Forall_app in E5 as [_ E5]. by apply Forall_app.
Qed.

(** The segments of the compacted manager can be encoded, under names that are
    not the log's. *)
Lemma compacted_metadata p c d base ops wal q m' :
  ready p c d base -> engine_inv base {| e_manager := c_manager c; e_wal := wal; e_poisoned := q |} ops None ->
  checkpoint_on_disk dir d (vm_current (c_versions c)) base -> manifest_encodable (vm_current (c_versions c)) ->
  names_log (vm_current (c_versions c)) (c_walPath c) ->
  compacted_manager CtxLive p (c_manager c) = Ok m' ->
  Forall (fun md => segment_encodable md /\ c_walPath c ∉ sm_Files md) (ImmutableMetadata m').
Proof.
  intros Hr He Hck Henc Hnl Hm'.
  destruct (compacted_manager_spec p (c_manager c) m' Hm') as (_ & _ & _ & _ & _ & _ & Hsrc & _);
    [apply sg_inv_a_mgr; apply (ei_inv _ _ _ _ He)|apply Hr|].
  destruct (abs_replay_segments _ _ _ (ei_replay _ _ _ _ He)) as (Ho & _ & _). cbn in Ho.
  destruct (ck_segments _ _ _ _ Hck) as (ims & Hims & _ & Hperm). pose proof (me_segments _ Henc) as Hseg. unfold all_segments in Hseg.
  apply Forall_app in Hseg as [Hseg _]. unfold ImmutableMetadata. apply Forall_fmap. eapply Forall_impl; [exact Hsrc|].
  intros s [Hs|Hs]; cbn.
  - assert (im_metadata s ∈ mf_PersistedSegments (vm_current (c_versions c))) as Hin.
    { rewrite Hims. apply list_elem_of_fmap_2. rewrite Hperm, <- Ho. exact Hs. }
    rewrite Forall_forall in Hseg. split; [by apply Hseg|]. intros Hf. apply (proj1 (proj2 Hnl)). do 2 right. apply list_elem_of_join.
    exists (sm_Files (im_metadata s)). split; [done|]. by apply list_elem_of_fmap_2.
  - pose proof (rd_outputs _ _ _ _ Hr) as H1. rewrite Forall_forall in H1. split; [by apply H1|]. intros Hf.
    destruct (rd_names _ _ _ _ Hr (c_walPath c)) as [Hne _]; [|done]. apply elem_of_output_files. eauto.
Qed.

Lemma compacted_indexes_encodable p current indexes l :
  compacted_indexes p current indexes = Ok l -> Forall index_encodable current -> Forall index_encodable indexes -> Forall index_encodable l.
Proof.
  unfold compacted_indexes. intros H Hc Hi. case_in H; [done|]. injection H as <-. apply Forall_app. split; [|done].
  rewrite Forall_forall in Hc |- *. intros x [_ Hx]%list_elem_of_filter. by apply Hc.
Qed.

Lemma ready_keeps p c d d' base :
  (forall n a, n <> c_walPath c -> stable d n a -> stable d' n a) -> ready p c d base -> ready p c d' base.
Proof.
  intros Hk [R1 R2 R3 R4 R5 R6]. split; try done. rewrite Forall_forall in R3 |- *. intros s Hs. destruct (R3 s Hs) as [H1 H2].
  split; [|done]. destruct H1 as (Hok & f & content & Hf & Hst & Ho). split; [done|]. exists f, content. split; [done|]. split; [|done].
  apply Hk; [|done]. intros ->. destruct (R4 (c_walPath c)) as [Hne _]; [|done]. apply elem_of_output_files. exists s. split; [done|]. rewrite Hf. by left.
Qed.

(** The compacted checkpoint is held once its delete set is written. *)
Lemma compacted_held p c d base ops q m' nextID indexes g file :
  ready p c d base -> store_inv c d base ops None -> c_engine c = Some q -> compacted_manager CtxLive p (c_manager c) = Ok m' ->
  stable d (DeleteSnapshotName g) (RegularFile (whole_file file)) -> g <> 0 -> DeleteSnapshotName g <> c_walPath c ->
  (forall err, LoadDeleteStore CtxLive (Some file) err = Ok (a_deletes base ∖ purged_set p)) ->
  let next := with_segments (vm_current (c_versions c)) (ImmutableMetadata m') nextID indexes g in
  held (with_log c d) next (compacted_base p m' base) {| e_manager := m'; e_wal := c_wal c; e_poisoned := None |} ops None /\
  names_log next (c_walPath c).
Proof.
  intros Hr Hinv Hq Hm' Hst Hg Hne Hload next. destruct (sv_engine _ _ _ _ _ Hinv) as (q' & Hq' & Hck & He).
  assert (q' = q) as -> by congruence. destruct (sv_path _ _ _ _ _ Hinv) as [Hnl Ht].
  destruct (compacted_base_spec p c d base ops m' (c_wal c) q Hr He Hm') as (_ & He' & _).
  assert (names_log next (c_walPath c)) as Hnl'.
  { split; [exact (proj1 Hnl)|]. split; [|apply Hnl]. intros Hin. unfold checkpoint_files in Hin. cbn in Hin.
    apply elem_of_cons in Hin as [Hin|Hin]; [apply (proj1 (proj2 Hnl)); rewrite Hin; by left|].
    apply elem_of_cons in Hin as [Hin|Hin]; [by symmetry in Hin|].
    pose proof (compacted_metadata p c d base ops _ _ m' Hr He Hck (sv_encodable _ _ _ _ _ Hinv) Hnl Hm') as Hall.
    apply list_elem_of_join in Hin as (l & Hin & (md & -> & Hmd)%list_elem_of_fmap). rewrite Forall_forall in Hall.
    by apply (Hall md Hmd). }
  split; [|done]. split; [|exists (c_walPath c), (w_file (c_wal c)); split; [done|]|done].
  - apply checkpoint_put; [apply Hnl'|]. by apply (with_segments_checkpoint p c d base ops m' (c_wal c) q nextID indexes g file).
  - split; [split; [apply lookup_insert_eq|done]|done].
Qed.

(** ** The commit *)
Record commit_outcome c d base ops lost (sync2 : option gerror) p (tr : list (disk DB)) d' c' (com : bool) (err : option gerror) : Prop := {
  cmo_crash : forall dd, dd ∈ tr -> opens_kept c dd;
  cmo_committed : com = true -> lost = None /\ committed c c' = true /\ safe d' (contents (abs (c_manager c))) /\
    contents (abs (c_manager c')) = contents (abs (c_manager c)) /\
    (forall x, x ∈ sg_stored (c_manager c') <-> x ∈ sg_stored (c_manager c) /\ DocID x ∉ purged_set p) /\
    sg_deletes (c_manager c') = sg_deletes (c_manager c) ∖ purged_set p /\
    (sync2 = None -> exists base', store_inv c' d' base' ops None);
  cmo_refused : com = false -> store_inv c' d' base ops lost /\ c_manager c' = c_manager c /\ c_versions c' = c_versions c /\ err <> None /\
    c_walPath c' = c_walPath c /\ forall n a, n <> c_walPath c -> stable d n a -> stable d' n a
}.

Lemma commit_stops c d base ops lost sync2 p e :
  store_inv c d base ops lost -> commit_outcome c d base ops lost sync2 p [] d c false (Some e).
Proof. intros Hinv. split; [by intros ? ?%elem_of_nil|done|done]. Qed.

(** The publication of the compacted checkpoint, over a synchronized log. *)
Lemma commit_publish io p c d base ops m' nextID indexes g file s ptr d2 c2 perr :
  let next := with_segments (vm_current (c_versions c)) (ImmutableMetadata m') nextID indexes g in
  store_inv c d base ops None -> store_inv c (ss_disk s) base ops None -> zlen ops + 2 < u64_max -> w_dirtyRecords (c_wal c) = 0 ->
  keeps (with_log c d) (with_log c (ss_disk s)) ->
  ready p c (ss_disk s) base -> compacted_manager CtxLive p (c_manager c) = Ok m' -> manifest_encodable next ->
  stable (ss_disk s) (DeleteSnapshotName g) (RegularFile (whole_file file)) -> g <> 0 -> DeleteSnapshotName g <> c_walPath c ->
  (forall err, LoadDeleteStore CtxLive (Some file) err = Ok (a_deletes base ∖ purged_set p)) ->
  store_publish CtxLive io next c (with_log c (ss_disk s)) = (ptr, (d2, (c2, perr))) ->
  let C := contents (abs (c_manager c)) in
  (forall dd, dd ∈ d2 :: ptr -> safe dd C) /\ exists root vm, d2 = disk_set_root root (with_log c (ss_disk s)) /\ c2 = c_set_versions c vm /\
    if committed c c2 then po_sync2 io = None -> store_inv (c_compacted c2 m') d2 (compacted_base p m' base) ops None
    else vm = c_versions c /\ perr <> None /\ vm_inv root vm [].
Proof.
  intros next Hinv HinvS Hb Hd Hk Hr Hm' Henc Hst Hg Hne Hload H C.
  destruct (sv_engine _ _ _ _ _ HinvS) as (q & Hq & Hck & He).
  destruct (compacted_held p c (ss_disk s) base ops q m' nextID indexes g file Hr HinvS Hq Hm' Hst Hg Hne Hload) as [Hh Hnl].
  destruct (compacted_base_spec p c (ss_disk s) base ops m' (c_wal c) q Hr He Hm') as (_ & He' & HC & _).
  destruct (publishing_next c d base ops io next (with_log c (ss_disk s)) _ _ ops C ptr d2 c2 perr Hinv Hb Hd Hk Hh Hb)
    as (Htr & Hd2 & root & vm & -> & -> & Hres); [|done|done|].
  { split; [done|]. split; [done|]. split; [done|exact HC]. }
  split.
  - assert (Hboth : forall dd, safe_in dd (fun X => X = C \/ X = C) -> safe dd C).
    { intros dd Hs d3 options Hc Hro. destruct (Hs d3 options Hc Hro) as (c3 & b3 & o3 & H1 & H2 & H3). exists c3, b3, o3. by destruct H3. }
    intros dd [->|Hdd]%elem_of_cons; apply Hboth; [done|by apply Htr].
  - exists root, vm. split; [done|]. split; [done|]. destruct (committed _ _); [|done].
    destruct Hres as ([gen Hgen] & Hvenc & Hsync). intros Hpo. destruct (Hsync Hpo) as [Hvm _].
    assert (checkpoint_part (vm_current vm) = checkpoint_part next) as Hpart by (by rewrite Hgen).
    destruct HinvS as [H1 _ _ H4 [_ H6] _]. split; [done|done|done|done| |].
    + split; [by apply (names_log_same next)|exact H6].
    + exists None. split; [done|]. split; [|exact He']. apply (checkpoint_same _ _ next); [done|].
      apply (held_root root) in Hh. apply Hh.
Qed.

(** The delete set was written, under a name that is not the log's. *)
Lemma deletes_name_apart c d g :
  names_log (vm_current (c_versions c)) (c_walPath c) ->
  g = mf_DeleteSnapshotGeneration (vm_current (c_versions c)) \/ dk_files (with_log c d) !! DeleteSnapshotName g = None ->
  DeleteSnapshotName g <> c_walPath c.
Proof.
  intros [_ [Hn _]] [->|Hfree] Heq.
  - apply Hn. rewrite <- Heq. right. by left.
  - cbn in Hfree. rewrite Heq, lookup_insert_eq in Hfree. done.
Qed.

Lemma Commit_spec io indexes p c d base ops lost tr d' c' p' com err :
  store_inv c d base ops lost -> zlen ops + 2 < u64_max -> ready p c d base -> Forall index_encodable indexes ->
  Commit CtxLive io indexes p c d = (tr, (d', (c', (p', (com, err))))) ->
  commit_outcome c d base ops lost (po_sync2 (cm_publish io)) p tr d' c' com err.
Proof.
  intros Hinv Hb Hr Hidx H. unfold Commit in H. cbn [ctx_Err] in H.
  assert (Hstop : forall e, ([], (d, (c, (p, (false, Some e))))) = (tr, (d', (c', (p', (com, err))))) ->
    commit_outcome c d base ops lost (po_sync2 (cm_publish io)) p tr d' c' com err).
  { intros e [= <- <- <- <- <- <-]. by apply commit_stops. }
  destruct (_ || false); [by eapply Hstop|]. destruct (requireWritableLocked c); [by eapply Hstop|].
  destruct (negb _); [by eapply Hstop|]. destruct (compacted_manager CtxLive p (c_manager c)) as [m'|] eqn:Em; [|by eapply Hstop].
  destruct (NewWriteEngine m' (c_wal c)); [|by eapply Hstop]. destruct (compacted_indexes _ _ _) as [nidx|] eqn:Ei; [|by eapply Hstop].
  set (nextID := Z.max _ _) in H. destruct (Manifest_Validate _); [|by eapply Hstop]. destruct (validateSegmentIndexFiles d indexes); [by eapply Hstop|].
  clear Hstop. destruct (sv_engine _ _ _ _ _ Hinv) as (q & Hq & Hck & He). destruct (sv_path _ _ _ _ _ Hinv) as [Hnl Ht].
  pose proof (sv_encodable _ _ _ _ _ Hinv) as Henc.
  pose proof (swp_compacted_deletes (cm_deletes io) p (with_log c d) (vm_current (c_versions c)) base
    (hd_checkpoint _ _ _ _ _ _ (store_held c d base ops lost q Hinv Hq)) (ei_base _ _ _ _ He) (me_deletes _ Henc)) as Hswp.
  unfold swp in Hswp. destruct (compacted_deletes CtxLive (cm_deletes io) p (vm_current (c_versions c)) {| ss_disk := with_log c d; ss_created := [] |})
    as [dtr [s r]]. destruct Hswp as (Hdtr & Hs & Hres). pose proof (fs_keeps _ _ Hs) as Hk. rewrite Forall_forall in Hdtr.
  assert (Hroot : vm_inv (dk_root (ss_disk s)) (c_versions c) []) by (rewrite (kp_root _ _ Hk); apply Hinv).
  assert (Hclean : forall removed, let d1 := cleanup removed (ss_created s) (ss_disk s) in
    keeps (with_log c d) d1 /\ store_inv c d1 base ops lost /\ forall n a, n <> c_walPath c -> stable d n a -> stable d1 n a).
  { intros removed d1. pose proof (keeps_cleanup _ _ removed Hs) as Hk1. split; [done|].
    split; [|intros n art; by apply flush_keeps_stable]. rewrite <- (disk_set_root_id d1).
    apply (store_inv_keeps c d); [done|done|]. unfold d1. by rewrite dk_root_cleanup. }
  assert (Htr : forall dd, dd ∈ dtr ++ [cleanup (cm_removed io) (ss_created s) (ss_disk s)] -> opens_kept c dd).
  { intros dd [Hdd| ->%list_elem_of_singleton]%elem_of_app; apply (keeps_opens_kept c d base ops lost); try done; [by apply Hdtr|apply Hclean]. }
  destruct r as [g|e].
  2:{ injection H as <- <- <- <- <- <-. split; [exact Htr|done|]. intros _. split; [apply Hclean|]. do 4 (split; [done|]). apply Hclean. }
  destruct Hres as (Hg & Hg0 & Hfree & file & Hst & Hload).
  destruct (WAL_Sync CtxLive (cm_sync io) (c_wal c)) as [wal serr] eqn:Es.
  destruct serr as [e|].
  { injection H as <- <- <- <- <- <-. split; [exact Htr|done|]. intros _. split; [|do 4 (split; [done|]); apply Hclean].
    by apply (store_inv_sync c _ base ops lost (cm_sync io) wal (Some e)); [apply Hclean|]. }
  destruct (store_inv_sync c d base ops lost _ _ _ Hinv Es) as (Hinv1 & _ & Hok). destruct (Hok eq_refl) as (-> & Hpo & Hd & _). clear Hok.
  assert (store_inv c (ss_disk s) base ops None) as HinvS0.
  { rewrite <- (disk_set_root_id (ss_disk s)). by apply (store_inv_keeps c d). }
  destruct (store_inv_sync c (ss_disk s) base ops None _ _ _ HinvS0 Es) as (HinvS & _). set (c1 := c_set_wal c wal) in *.
  assert (ready p c (ss_disk s) base) as HrS.
  { apply (ready_keeps p c d); [|done]. intros n art Hn [Hf Hnt]. apply (stable_keeps (with_log c d)); [done|]. split; [|done]. cbn.
    by rewrite lookup_insert_ne. }
  assert (ready p c1 (ss_disk s) base) as Hr1 by by destruct HrS.
  pose proof (deletes_name_apart c d g Hnl Hfree) as Hne.
  assert (manifest_encodable (with_segments (vm_current (c_versions c)) (ImmutableMetadata m') nextID nidx g)) as Hnenc.
  { apply with_segments_encodable; [done| | | |done].
    - pose proof (compacted_metadata p c d base ops _ _ m' Hr He Hck Henc Hnl Em) as Hall. eapply Forall_impl; [exact Hall|]. by intros md [? _].
    - pose proof (me_next _ Henc). pose proof (sv_reserved _ _ _ _ _ Hinv). unfold nextID, is_u64 in *. lia.
    - apply (compacted_indexes_encodable p _ _ _ Ei); [apply (me_indexes _ Henc)|done]. }
  destruct (store_publish _ _ _ _ _) as [ptr [d2 [c2 perr]]] eqn:Ep.
  pose proof (fresh_relog c d s wal Ht Hs) as Hs1. fold c1 in Hs1.
  destruct (commit_publish (cm_publish io) p c1 d base ops m' nextID nidx g file s ptr d2 c2 perr Hinv1 HinvS Hb Hd (fs_keeps _ _ Hs1)
    Hr1 Em Hnenc Hst Hg0 Hne Hload Ep) as (Hsafe & root & vm & Hd2 & Hc2 & Hfin).
  assert (Hall : forall dd, dd ∈ dtr ++ ptr -> opens_kept c dd).
  { intros dd [Hdd|Hdd]%elem_of_app; [apply Htr, elem_of_app; by left|]. apply safe_opens_kept, Hsafe. by right. }
  destruct (committed c1 c2) eqn:Ecom; cbn [negb] in H.
  2:{ destruct Hfin as (-> & Hperr & Hvm). injection H as <- <- <- <- <- <-. subst d2 c2.
      destruct (abandoned_inv c1 d base ops _ root (cm_removed io) Hinv1 Hs1 Hvm Hb Hd) as [HinvA HsafeA]. cbn [ss_disk ss_created] in *.
      assert (c_set_versions c1 (c_versions c1) = c1) as Hceq by done. split; [|done|].
      - intros dd [Hdd| ->%list_elem_of_singleton]%elem_of_app; [by apply Hall|]. by apply safe_opens_kept.
      - intros _. rewrite Hceq. split; [done|]. do 4 (split; [done|]). intros n art Hn Hst'. rewrite cleanup_set_root.
        exact (flush_keeps_stable c1 d _ n art (keeps_cleanup _ _ (cm_removed io) Hs1) Hn Hst'). }
  injection H as <- <- <- <- <- <-.
  destruct (compacted_base_spec p c d base ops m' (c_wal c) q Hr He Em) as (_ & _ & HC & Hstored & Hdel).
  split; [exact Hall| |done]. intros _. split; [done|]. split; [|split; [apply Hsafe; by left|split; [exact HC|split; [exact Hstored|split; [exact Hdel|]]]]].
  - exact Ecom.
  - intros Hpo2. eexists. by apply Hfin.
Qed.

(** ** The preparation *)
Lemma visit_records_spec deletes records purged documents :
  visit_records CtxLive deletes records purged documents =
    (purged ++ (DocID <$> filter (fun x => DocID x ∈ deletes) records),
     documents ++ filter (fun x => DocID x ∉ deletes) records, None).
Proof.
  revert purged documents. induction records as [|x records IH]; intros purged documents; cbn [visit_records ctx_Err]; [by rewrite !app_nil_r|].
  unfold IsDeleted. case_bool_decide as Hx; rewrite IH.
  - rewrite filter_cons_True by done. rewrite (filter_cons_False (fun x => DocID x ∉ deletes)) by tauto. cbn. by rewrite <- app_assoc.
  - rewrite filter_cons_False by done. rewrite (filter_cons_True (fun x => DocID x ∉ deletes)) by tauto. by rewrite <- !app_assoc.
Qed.
Lemma visit_inputs_spec deletes inputs purged documents purged' documents' :
  visit_inputs CtxLive deletes inputs purged documents = (purged', documents', None) ->
  purged' = purged ++ (DocID <$> filter (fun x => DocID x ∈ deletes) (segment_documents inputs)) /\
  documents' = documents ++ filter (fun x => DocID x ∉ deletes) (segment_documents inputs).
Proof.
  revert purged documents. induction inputs as [|s inputs IH]; intros purged documents H; cbn [visit_inputs] in H.
  { injection H as <- <-. cbn. by rewrite !app_nil_r. }
  destruct (im_closed s); [done|]. rewrite visit_records_spec in H. destruct (IH _ _ H) as [-> ->].
  unfold segment_documents. cbn [fmap list_fmap mjoin list_join]. by rewrite !filter_app, fmap_app, <- !app_assoc.
Qed.

Lemma run_ok_u64 maximum run :
  run_ok maximum run -> is_u64 maximum -> Forall (fun x => is_u64 (DocID x)) run -> is_u64 (first_document run) /\ is_u64 (zlen run).
Proof.
  intros Hrun Hm Hu. destruct run as [|x run]; [done|]. destruct Hrun as [_ Hl]. apply Forall_cons in Hu as [Hx _]. split; [done|].
  pose proof (zlen_nonneg (x :: run)). unfold is_u64, u64_max in *. lia.
Qed.

Lemma prepare_runs_spec io index id runs maximum p d0 d tr d' p' err :
  prepare_runs dir CtxLive io index id runs p d = (tr, (d', (p', err))) ->
  fresh_state d0 {| ss_disk := d; ss_created := p_created p |} -> mf_Generation (p_manifest p) + 1 <= u64_max ->
  is_u64 maximum -> Forall (run_ok maximum) runs -> Forall (fun x => is_u64 (DocID x)) (mjoin runs) ->
  0 <= id -> id + zlen runs <= u64_max ->
  Forall (keeps d0) tr /\ fresh_state d0 {| ss_disk := d'; ss_created := p_created p' |} /\
  p' = p_set_outputs p (p_created p') (p_outputs p') /\
  (err = None -> keeps d d' /\ exists ims, p_outputs p' = p_outputs p ++ ims /\ im_docs <$> ims = runs /\
     p_created p' = p_created p ++ mjoin ((fun s => sm_Files (im_metadata s)) <$> ims) /\
     Forall (fun s => segment_on_disk dir d' (mf_EnableMmap (p_manifest p)) s /\ segment_encodable (im_metadata s)) ims).
Proof.
  intros H Hs Hg Hmax Hok. revert index id p d tr H Hs Hg.
  induction Hok as [|run runs Hrun Hok IH]; intros index id p d tr H Hs Hg Hu H0 Hb; cbn [prepare_runs] in H.
  { injection H as <- <- <- <-. split; [constructor|]. split; [done|]. split; [by destruct p|]. intros _. split; [done|]. exists []. by rewrite !app_nil_r. }
  rewrite zlen_cons in Hb. pose proof (zlen_nonneg runs). cbn [mjoin list_join] in Hu. apply Forall_app in Hu as [Hur Hu].
  destruct (run_ok_u64 maximum run Hrun Hmax Hur) as [Hfirst Hlen].
  set (Q := fun im s' => keeps d (ss_disk s') /\ segment_on_disk dir (ss_disk s') (mf_EnableMmap (p_manifest p)) im /\ im_docs im = run /\
    segment_encodable (im_metadata im) /\ ss_created s' = p_created p ++ sm_Files (im_metadata im)).
  assert (swp d0 (run_segment dir CtxLive (io index) "" id (mf_Generation (p_manifest p) + 1) (mf_EnableMmap (p_manifest p)) run)
    {| ss_disk := d; ss_created := p_created p |} Q) as Hswp.
  { apply (swp_run_segment dir dir_nonempty); [done|done|unfold is_u64; lia|done|done|]. intros im s' Hk Hd Hdocs _ He _ Hf. by split. }
  unfold swp in Hswp. destruct (run_segment _ _ _ _ _ _ _ _ _) as [tr1 [s1 r]]. destruct Hswp as (Htr1 & Hs1 & HQ).
  destruct r as [output|e].
  2:{ injection H as <- <- <- <-. split; [done|]. split; [by destruct s1|done]. }
  destruct HQ as (Hk & Hdisk & Hdocs & Henc & Hcr).
  destruct (prepare_runs _ _ _ _ _ _ _ _) as [tr2 out] eqn:Er. injection H as <- ->.
  destruct (IH _ _ _ _ _ Er) as (R1 & R2 & R3 & R7); [|done|done|lia|lia|].
  { by destruct Hs1. }
  split; [by apply Forall_app|]. split; [done|]. split; [exact R3|]. intros He. destruct (R7 He) as (Hk2 & ims & Ho & Hd & Hc & Hall).
  split; [by transitivity (ss_disk s1)|]. exists (output :: ims). cbn [p_set_outputs p_outputs p_manifest p_created] in *.
  split; [by rewrite Ho, <- app_assoc|]. split; [cbn; by rewrite Hd, Hdocs|].
  split; [rewrite Hc, Hcr, <- app_assoc; reflexivity|].
  constructor; [|done]. split; [by apply (segment_on_disk_keeps dir (ss_disk s1))|done].
Qed.

Definition unused p : Prop := p_purged p = [] /\ p_outputs p = [] /\ p_created p = [].
(** A compaction that has begun, of the inputs of a flushed store. *)
Record begun p c (base : AbsState) : Prop := {
  bg_deletes : p_deletes p ⊆ a_deletes base;
  bg_ids : NoDup (im_ID <$> p_inputs p);
  bg_documents : Forall (fun x => is_u64 (DocID x)) (segment_documents (p_inputs p));
  bg_mmap : mf_EnableMmap (vm_current (c_versions c)) = mf_EnableMmap (p_manifest p);
  bg_manifest : mf_Generation (p_manifest p) + 1 <= u64_max /\ is_u64 (mf_SegmentMaxDocuments (p_manifest p));
  bg_new : unused p
}.
(** The files that a compaction created are its own. *)
Definition apart p c : Prop :=
  Forall (fun n => n <> c_walPath c /\ n ∉ checkpoint_files (vm_current (c_versions c))) (p_created p).

(** A compaction under way. *)
Record under_way p c d base : Prop := {
  uw_begun : p_prepared p = false -> unused p -> begun p c base;
  uw_ready : p_committed p = false -> p_prepared p = true -> p_changed p = true -> ready p c d base;
  uw_apart : p_committed p = false -> apart p c
}.

Lemma BeginCompaction_spec c d base ops lost p :
  store_inv c d base ops lost -> BeginCompaction CtxLive c = Ok p -> under_way p c d base.
Proof.
  intros Hinv H. unfold BeginCompaction in H. cbn [ctx_guard] in H. destruct (requireWritableLocked c); [done|].
  destruct (sg_writing (c_manager c)) as [w|] eqn:Ew; [|done]. destruct (_ || _) eqn:E; [done|].
  apply orb_false_iff in E as [Er _]. destruct (_ =? u64_max) eqn:Eg; [done|]. injection H as <-. to_prop. destruct (sv_engine _ _ _ _ _ Hinv) as (q & _ & Hck & He).
  assert (ops = []) as ->.
  { pose proof (ls_inv _ _ _ (ei_log _ _ _ _ He)) as Hwi. destruct ops as [|op ops]; [done|]. exfalso.
    apply not_true_iff_false in Er. apply Er, (HasRecords_spec _ _ Hwi). done. }
  pose proof (ei_inv _ _ _ _ He) as Ha. pose proof (ei_replay _ _ _ _ He) as Hr. injection Hr as Hbase. cbn in Ha, Hbase.
  pose proof (sv_encodable _ _ _ _ _ Hinv) as Henc. pose proof (me_generation _ Henc). unfold is_u64 in *.
  split; [intros _ _|done|constructor]. split; cbn; [|by apply sg_ids_NoDup, sg_inv_a_mgr, Ha| |done|split; [lia|apply (me_capacity _ Henc)]|done].
  - by rewrite Hbase.
  - apply Forall_forall. intros x Hx. apply (stored_u64 (abs (c_manager c)) x Ha); [cbn; congruence|].
    apply a_stored_segments. by left.
Qed.

Lemma layout_inputs P deletes inputs outputs documents :
  P = (list_to_set (DocID <$> filter (fun x => DocID x ∈ deletes) (segment_documents inputs)) : gset Z) ->
  documents = filter (fun x => DocID x ∉ deletes) (segment_documents inputs) ->
  NoDup (im_ID <$> inputs) -> Forall im_ok outputs -> segment_documents outputs = documents ->
  replaces P inputs outputs /\ P ⊆ deletes.
Proof.
  intros HP Hdocs Hnd Hok Hout.
  assert (Hin : forall id, id ∈ P <-> exists x, x ∈ segment_documents inputs /\ DocID x = id /\ id ∈ deletes).
  { intros id. rewrite HP, elem_of_list_to_set, list_elem_of_fmap. setoid_rewrite list_elem_of_filter. split.
    - intros (x & -> & ? & ?). eauto.
    - intros (x & ? & <- & ?). eauto. }
  split; [|intros id (x & _ & _ & ?)%Hin; done]. split; [done|done| |].
  - intros x. rewrite Hout, Hdocs, list_elem_of_filter. split; intros [H1 H2].
    + split; [done|]. by intros (y & _ & _ & ?)%Hin.
    + split; [|done]. intros Hd. apply H2, Hin. eauto.
  - intros id (x & Hx & <- & _)%Hin. eauto.
Qed.

Lemma fresh_apart c d base ops lost s p :
  store_inv c d base ops lost -> fresh_state (with_log c d) {| ss_disk := s; ss_created := p_created p |} -> apart p c.
Proof.
  intros Hinv [_ Hf]. eapply Forall_impl; [exact Hf|]. cbn. intros n [Hn Hne]%lookup_insert_None. split; [by intros ->|].
  destruct (sv_engine _ _ _ _ _ Hinv) as (q & _ & Hck & _). intros Hin. destruct (checkpoint_present dir d _ base n Hck Hin) as [a ?]. congruence.
Qed.

(** A compaction is tied to the store by its log and its manifest. *)
Lemma under_way_store p c c' d base :
  c_walPath c' = c_walPath c -> c_versions c' = c_versions c -> under_way p c d base -> under_way p c' d base.
Proof.
  intros Hw Hv [U1 U2 U3]. split.
  - intros H1 H2. destruct (U1 H1 H2) as [B1 B2 B3 B4 B5 B6]. split; try done. by rewrite Hv.
  - intros H1 H2 H3. destruct (U2 H1 H2 H3) as [R1 R2 R3 R4 R5 R6]. by split; rewrite ?Hv, ?Hw.
  - unfold apart. rewrite Hw, Hv. exact U3.
Qed.

(** A compaction that has not been prepared. *)
Lemma stopped_under_way p p1 c d base :
  begun p c base -> p_manifest p1 = p_manifest p -> p_inputs p1 = p_inputs p -> p_deletes p1 = p_deletes p ->
  p_prepared p1 && p_changed p1 = false -> apart p1 c -> under_way p1 c d base.
Proof.
  intros [B1 B2 B3 B4 B5 _] Hm Hi Hd Hp Ha. split; [|intros _ H1 H2; by rewrite H1, H2 in Hp|done].
  intros _ Hu. by split; rewrite ?Hm, ?Hi, ?Hd.
Qed.
(** A compaction whose replacements are written. *)
Lemma written_ready p p1 c d base purged documents ims changed :
  begun p c base -> purged = DocID <$> filter (fun x => DocID x ∈ p_deletes p) (segment_documents (p_inputs p)) ->
  documents = filter (fun x => DocID x ∉ p_deletes p) (segment_documents (p_inputs p)) -> segment_documents ims = documents ->
  Forall (fun s => segment_on_disk dir d (mf_EnableMmap (p_manifest p)) s /\ segment_encodable (im_metadata s)) ims ->
  p1 = p_set_outputs (p_set_purged p purged changed) (mjoin ((fun s => sm_Files (im_metadata s)) <$> ims)) ims -> apart p1 c ->
  ready (p_set_state p1 true (p_committed p1) (p_closed p1)) c d base.
Proof.
  intros [B1 B2 B3 B4 B5 _] Hpu Hdocs Hims Hall -> Hap.
  destruct (layout_inputs (list_to_set purged) (p_deletes p) (p_inputs p) ims documents) as [Hrep Hsub]; [by rewrite Hpu|done|done| |done|].
  { eapply Forall_impl; [exact Hall|]. intros s (Hd & _). apply Hd. }
  split; cbn; [etrans; [exact Hsub|done]|exact Hrep|exact Hall| |done|done].
  unfold apart in Hap. rewrite Forall_forall in Hap. exact Hap.
Qed.

(** What a preparation found: the versions to purge, and the documents to keep
    in runs of at most the capacity of a segment. *)
Definition copied p p' : Prop :=
  let documents := segment_documents (p_inputs p) in
  p_purged p' = (DocID <$> filter (fun x => DocID x ∈ p_deletes p) documents) /\
  (p_changed p' = true -> im_docs <$> p_outputs p' =
     rewriteDocumentRuns (filter (fun x => DocID x ∉ p_deletes p) documents) (mf_SegmentMaxDocuments (p_manifest p))).

Lemma Prepare_spec io p c d base ops lost tr d' c' p' err :
  store_inv c d base ops lost -> zlen ops + 2 < u64_max -> p_prepared p = false -> begun p c base ->
  Prepare dir CtxLive io p c d = (tr, (d', (c', (p', err)))) ->
  (forall dd, dd ∈ tr -> opens_kept c dd) /\ store_inv c' d' base ops lost /\
  c_manager c' = c_manager c /\ c_versions c' = c_versions c /\ c_walPath c' = c_walPath c /\ under_way p' c' d' base /\
  (err = None -> p_prepared p' = true /\ copied p p').
Proof.
  intros Hinv Hb Hprep Hbegun H. pose proof Hbegun as [_ _ Hu Hmmap [Hg Hcap] (Hp0 & Ho0 & Hc0)]. unfold Prepare in H. rewrite Hprep in H.
  assert (Hstop : forall p1 e, p_manifest p1 = p_manifest p -> p_inputs p1 = p_inputs p -> p_deletes p1 = p_deletes p -> p_created p1 = [] ->
    p_prepared p1 && p_changed p1 = false -> (e = None -> p_prepared p1 = true /\ copied p p1) -> ([], (d, (c, (p1, e)))) = (tr, (d', (c', (p', err)))) ->
    (forall dd, dd ∈ tr -> opens_kept c dd) /\ store_inv c' d' base ops lost /\
    c_manager c' = c_manager c /\ c_versions c' = c_versions c /\ c_walPath c' = c_walPath c /\ under_way p' c' d' base /\
    (err = None -> p_prepared p' = true /\ copied p p')).
  { intros p1 e Hm Hi Hd Hcr Hpc He [= <- <- <- <- <-]. split; [by intros ? ?%elem_of_nil|]. do 4 (split; [done|]). split; [|done].
    apply (stopped_under_way p); try done. unfold apart. rewrite Hcr. constructor. }
  destruct (_ || false); [eapply Hstop; [..|exact H]; by rewrite ?Hprep|].
  destruct (visit_inputs _ _ _ _ _) as [[purged documents] [e|]] eqn:Ev; [eapply Hstop; [..|exact H]; cbn; by rewrite ?Hprep|].
  destruct (visit_inputs_spec _ _ _ _ _ _ Ev) as [Hpurged Hdocs]. rewrite Hp0 in Hpurged. cbn [app] in Hpurged, Hdocs.
  set (runs := rewriteDocumentRuns documents (mf_SegmentMaxDocuments (p_manifest p))) in *.
  set (changed := layout_changed purged runs (p_inputs p)) in *. set (p1 := p_set_purged p purged changed) in *.
  destruct (p_changed p1) eqn:Ech; cbn [negb] in H; [|eapply Hstop; [..|exact H]; try done].
  2:{ intros _. split; [done|]. split; [done|]. intros Hx. change (p_changed p1 = true) in Hx. congruence. }
  destruct (requireWritableLocked c); [eapply Hstop; [..|exact H]; cbn; by rewrite ?Hprep|].
  set (firstID := Z.max _ _) in H. destruct (_ <? zlen runs) eqn:Eid; [eapply Hstop; [..|exact H]; cbn; by rewrite ?Hprep|].
  clear Hstop. to_prop. set (c1 := c_reserve c (firstID + zlen runs)) in *.
  pose proof (me_next _ (sv_encodable _ _ _ _ _ Hinv)) as Hn64. pose proof (sv_reserved _ _ _ _ _ Hinv) as Hres. pose proof (zlen_nonneg runs).
  destruct (rewriteDocumentRuns_spec documents (mf_SegmentMaxDocuments (p_manifest p))) as (Hjoin & Hruns & _). fold runs in Hjoin, Hruns.
  destruct (prepare_runs _ _ _ _ _ _ _ _) as [tr1 [d1 [p2 e1]]] eqn:Er.
  change (with_log c1 d) with (with_log c d) in Er.
  destruct (prepare_runs_spec io 0 firstID runs (mf_SegmentMaxDocuments (p_manifest p)) p1 (with_log c d) _ _ _ _ _ Er) as (Htr & Hs & Hp2 & Hout);
    [cbn; rewrite Hc0; by split|done|done|done| |unfold firstID, is_u64 in *; lia|lia|].
  { rewrite Hjoin, Hdocs. rewrite Forall_forall in Hu |- *. intros x [_ Hx]%list_elem_of_filter. by apply Hu. }
  rewrite Forall_forall in Htr. pose proof (fs_keeps _ _ Hs) as Hk. cbn [ss_disk] in Hk.
  pose proof (fresh_apart c d base ops lost d1 p2 Hinv Hs) as Hap.
  assert (Hinv1 : store_inv c1 d1 base ops lost).
  { assert (store_inv c d1 base ops lost) as [G1 G2 G3 _ G5 G6].
    { rewrite <- (disk_set_root_id d1). apply (store_inv_keeps c d); [done|done|]. rewrite (kp_root _ _ Hk). apply Hinv. }
    split; try done. cbn. unfold firstID, is_u64 in *. lia. }
  assert (Hcr : forall dd, dd ∈ tr1 -> opens_kept c dd) by (intros dd Hdd; by apply (keeps_opens_kept c d base ops lost), Htr).
  destruct e1 as [e|]; injection H as <- <- <- <- <-; do 5 (split; [done|]); (split; [apply (under_way_store _ c c1); [done|done|]|]).
  { apply (stopped_under_way p); [done|by rewrite Hp2|by rewrite Hp2|by rewrite Hp2|rewrite Hp2; cbn; by rewrite Hprep|done]. }
  { done. }
  all: destruct (Hout eq_refl) as (_ & ims & Hims & Hsd & Hcr1 & Hall); cbn in Hims, Hcr1, Hall; rewrite Ho0 in Hims; rewrite Hc0 in Hcr1;
    cbn [app] in Hims, Hcr1.
  2:{ intros _. split; [done|]. split; [rewrite Hp2; exact Hpurged|]. intros _. cbn. rewrite Hims, Hsd. unfold runs. by rewrite Hdocs. }
  apply (f_equal mjoin) in Hsd. change (segment_documents ims = mjoin runs) in Hsd. split; [done| |done]. intros _ _ _.
  apply (written_ready p p2 c d1 base purged documents ims changed); try done; [congruence|]. by rewrite Hp2, Hims, Hcr1.
Qed.

(** ** A compaction beside the store *)
Lemma under_way_disk p c d d' base :
  (forall n a, n <> c_walPath c -> stable d n a -> stable d' n a) -> under_way p c d base -> under_way p c d' base.
Proof. intros Hd [U1 U2 U3]. split; [done| |done]. intros H1 H2 H3. by apply (ready_keeps p c d), U2. Qed.

Lemma Commit_under_way io indexes p c d base ops lost tr d' c' p' com err :
  store_inv c d base ops lost -> zlen ops + 2 < u64_max -> under_way p c d base -> Forall index_encodable indexes ->
  Commit CtxLive io indexes p c d = (tr, (d', (c', (p', (com, err))))) ->
  commit_outcome c d base ops lost (po_sync2 (cm_publish io)) p tr d' c' com err /\
  (com = true -> forall base', under_way p' c' d' base') /\ (com = false -> p' = p /\ under_way p c' d' base).
Proof.
  intros Hinv Hb Hu Hidx H.
  assert (commit_outcome c d base ops lost (po_sync2 (cm_publish io)) p tr d' c' com err) as Hout.
  { destruct (negb (p_prepared p) || negb (p_changed p) || p_closed p || p_committed p || false) eqn:E.
    { unfold Commit in H. rewrite E in H. injection H as <- <- <- <- <- <-. by apply commit_stops. }
    repeat (apply orb_false_iff in E as [E ?]). to_prop. eapply Commit_spec; [done|done|by apply (uw_ready _ _ _ _ Hu)|done|done]. }
  split; [done|].
  assert ((com = true -> p' = p_set_state p (p_prepared p) true (p_closed p) /\ p_prepared p = true) /\ (com = false -> p' = p)) as [Hp1 Hp2].
  { clear -H. unfold Commit in H. split; intros ->.
    - repeat (case_in H; try discriminate H); by simplify_eq; to_prop.
    - repeat (case_in H; try discriminate H); by simplify_eq. }
  split.
  - intros Hcom base'. destruct (Hp1 Hcom) as [-> Hpr]. split; [cbn; congruence|done|done].
  - intros Hcom. split; [by apply Hp2|]. destruct (cmo_refused _ _ _ _ _ _ _ _ _ _ _ _ Hout Hcom) as (_ & _ & Hv & _ & Hw & Hd).
    apply (under_way_store p c); [done|done|]. by apply (under_way_disk p c d).
Qed.

(** A commit synchronizes the log and leaves its records. *)
Lemma WAL_Sync_lsn ctx io w w' e : WAL_Sync ctx io w = (w', e) -> w_lastLSN w' = w_lastLSN w.
Proof.
  unfold WAL_Sync. intros H. destruct (ctx_guard _ _); [by injection H as <- _|]. destruct (w_closed w); [by injection H as <- _|].
  destruct (w_readOnly w); [by injection H as <- _|]. destruct (w_poisoned w); [by injection H as <- _|].
  unfold wal_syncFile in H. destruct (file_Sync _ _) as [f [e1|]]; by injection H as <- _.
Qed.
Lemma store_publish_log ctx io next c d tr d' c' err : store_publish ctx io next c d = (tr, (d', (c', err))) -> c_wal c' = c_wal c.
Proof. unfold store_publish. intros H. destruct (Publish _ _ _ _ _) as [? [? [[? ?] ?]]]. by injection H as <- <- <- <-. Qed.
Lemma Commit_log io indexes p c d tr d' c' p' com err :
  Commit CtxLive io indexes p c d = (tr, (d', (c', (p', (com, err))))) -> w_lastLSN (c_wal c') = w_lastLSN (c_wal c).
Proof.
  unfold Commit. intros H.
  assert (Hstop : forall e, ([], (d, (c, (p, (false, Some e))))) = (tr, (d', (c', (p', (com, err))))) -> w_lastLSN (c_wal c') = w_lastLSN (c_wal c)).
  { by intros e [= <- <- <- <- <- <-]. }
  cbn [ctx_Err] in H. destruct (_ || false); [by eapply Hstop|]. destruct (requireWritableLocked c); [by eapply Hstop|].
  destruct (negb _); [by eapply Hstop|]. destruct (compacted_manager _ _ _); [|by eapply Hstop]. destruct (NewWriteEngine _ _); [|by eapply Hstop].
  destruct (compacted_indexes _ _ _); [|by eapply Hstop]. destruct (Manifest_Validate _); [|by eapply Hstop].
  destruct (validateSegmentIndexFiles _ _); [by eapply Hstop|].
  destruct (compacted_deletes _ _ _ _ _) as [dtr [s [g|e]]]; [|by injection H as <- <- <- <- <- <-].
  destruct (WAL_Sync _ _ _) as [wal [e|]] eqn:Es; apply WAL_Sync_lsn in Es; [by injection H as <- <- <- <- <- <-|].
  destruct (store_publish _ _ _ _ _) as [ptr [d2 [c2 perr]]] eqn:Ep. apply store_publish_log in Ep. cbn [c_wal c_set_wal] in Ep.
  case_in H; injection H as <- <- <- <- <- <-; [by rewrite Ep|]. cbn. by rewrite Ep.
Qed.

(** The compaction a flush may run beside: it has no files, or only those of
    its replacements. *)
Definition compaction_settled p : bool := p_committed p || bool_decide (p_created p = []) || (p_prepared p && p_changed p).

Lemma flush_deletes c d base ops lost c' d' base' :
  store_inv c d base ops lost -> store_inv c' d' base' [] None -> sg_deletes (c_manager c') = sg_deletes (c_manager c) ->
  a_deletes base ⊆ a_deletes base'.
Proof.
  intros Hinv Hinv' Hd. destruct (sv_engine _ _ _ _ _ Hinv) as (q & _ & _ & He). destruct (sv_engine _ _ _ _ _ Hinv') as (q' & _ & _ & He').
  pose proof (ei_replay _ _ _ _ He') as Hr'. injection Hr' as ->. cbn. rewrite Hd. exact (abs_replay_deletes _ _ _ (ei_replay _ _ _ _ He)).
Qed.
Lemma keeps_under_way p c d base c' d' base' :
  a_deletes base ⊆ a_deletes base' -> flush_keeps c d c' d' -> compaction_settled p = true -> under_way p c d base -> under_way p c' d' base'.
Proof.
  intros Hsub [K1 K2 K3 K4] Hset [U1 U2 U3].
  assert (Hready : p_committed p = false -> p_prepared p = true -> p_changed p = true -> ready p c' d' base').
  { intros H1 H2 H3. destruct (U2 H1 H2 H3) as [R1 R2 R3 R4 R5 R6].
    assert (Hst : forall s, s ∈ p_outputs p -> exists f content, sm_Files (im_metadata s) = [f] /\ stable d f content /\ f <> c_walPath c /\
      f ∉ checkpoint_files (vm_current (c_versions c))).
    { intros s Hs. rewrite Forall_forall in R3. destruct (R3 s Hs) as [(_ & f & content & Hf & Hst & _) _]. exists f, (RegularFile (whole_file content)).
      split; [done|]. split; [done|]. apply R4, elem_of_output_files. exists s. split; [done|]. rewrite Hf. by left. }
    split; [by etrans|done| | |done|by rewrite K4].
    - rewrite Forall_forall in R3 |- *. intros s Hs. destruct (R3 s Hs) as [(Hok & f & content & Hf & Hfst & Hopen) Henc]. split; [|done].
      split; [done|]. exists f, content. split; [done|]. split; [|done]. apply K1; [|done]. destruct (Hst s Hs) as (f' & ? & Hf' & _ & Hne & _).
      congruence.
    - intros f (s & Hs & Hf)%elem_of_output_files. destruct (Hst s Hs) as (f' & content & Hf' & Hfst & Hne & Hnc).
      rewrite Hf' in Hf. apply list_elem_of_singleton in Hf as ->. split; [by apply (K1 f' content)|by apply (K3 f' content)]. }
  split; [|done|].
  - intros H1 H2. destruct (U1 H1 H2) as [B1 B2 B3 B4 B5 B6]. split; [by etrans|done|done|by rewrite K4|done|done].
  - intros H1. unfold compaction_settled in Hset. rewrite H1 in Hset. cbn [orb] in Hset. apply orb_true_iff in Hset as [Hc|Hp].
    + apply bool_decide_eq_true in Hc. unfold apart. rewrite Hc. constructor.
    + apply andb_true_iff in Hp as [H2 H3]. pose proof (Hready H1 H2 H3) as [_ _ _ R4 R5 _]. unfold apart. rewrite R5. by apply Forall_forall.
Qed.

Lemma flush_under_way io p c d base ops lost tr d' c' err :
  store_inv c d base ops lost -> zlen ops + 2 < u64_max -> Flush dir CtxLive io c d = (tr, (d', (c', err))) ->
  po_sync2 (fo_publish io) = None -> compaction_settled p = true -> under_way p c d base ->
  exists base' ops' lost', store_inv c' d' base' ops' lost' /\ under_way p c' d' base'.
Proof.
  intros Hinv Hb H Hs Hset Hu. destruct (Flush_spec io c d base ops lost tr d' c' err Hinv Hb H) as [_ _ _ Hcom _ Hk Href].
  destruct (committed c c').
  - destruct (Hcom eq_refl) as (_ & _ & _ & Hn). destruct (Hn Hs) as [base' Hinv']. exists base', [], None. split; [done|].
    apply (keeps_under_way p c d base); [|done..]. exact (flush_deletes c d base ops lost c' d' base' Hinv Hinv' (fk_deletes _ _ _ _ Hk)).
  - destruct (Href eq_refl) as [Hinv' _]. exists base, ops, lost. split; [done|]. by apply (keeps_under_way p c d base).
Qed.

(** Writes leave the checkpoint and the log's name. *)
Lemma run_batch_under_way isnil polls ios b p c d base c' r :
  run_batch isnil polls ios b c = (c', r) -> under_way p c d base -> under_way p c' d base.
Proof.
  intros H Hu. assert (c_walPath c' = c_walPath c /\ c_versions c' = c_versions c) as [Hw Hv]; [|by apply (under_way_store p c)].
  assert (Hd : forall run, delegate c run = (c', r) -> c_walPath c' = c_walPath c /\ c_versions c' = c_versions c).
  { intros run Hr. unfold delegate in Hr. destruct (requireWritableLocked c); [by injection Hr as <- <-|].
    destruct (c_engine c); [|by injection Hr as <- <-]. destruct (run _) as [e r0]. by injection Hr as <- <-. }
  destruct b; exact (Hd _ H).
Qed.

(** A publication of a schema or of index snapshots leaves the checkpoint and
    the files. *)
Lemma publication_under_way io pub p c d base ops lost tr d' c' com err :
  store_inv c d base ops lost -> zlen ops + 2 < u64_max -> publication_args pub ->
  run_publication io pub c d = (tr, (d', (c', (com, err)))) -> po_sync2 io = None -> under_way p c d base ->
  store_inv c' d' base ops lost /\ under_way p c' d' base.
Proof.
  intros Hinv Hb Hargs H Hs [U1 U2 U3].
  destruct (run_publication_spec io pub c d base ops lost tr d' c' com err Hinv Hb Hargs H) as [_ _ (Hw & Hpart & Hst) Hcom Href].
  split; [destruct com; [destruct (Hcom eq_refl) as (_ & _ & Hn); auto|destruct (Href eq_refl) as [-> ?]; done]|].
  assert (checkpoint_files (vm_current (c_versions c')) = checkpoint_files (vm_current (c_versions c)) /\
    mf_EnableMmap (vm_current (c_versions c')) = mf_EnableMmap (vm_current (c_versions c))) as [Hf Hm].
  { injection Hpart as H1 _ H3 _ _ H6 H7. split; [|done]. unfold checkpoint_files. by rewrite H3, H6, H7. }
  split.
  - intros H1 H2. destruct (U1 H1 H2) as [B1 B2 B3 B4 B5 B6]. by split; rewrite ?Hm.
  - intros H1 H2 H3. destruct (U2 H1 H2 H3) as [R1 R2 R3 R4 R5 R6]. split; rewrite ?Hw, ?Hf, ?Hm; try done.
    rewrite Forall_forall in R3 |- *. intros s Hin. destruct (R3 s Hin) as [(Hok & f & content & Hsf & Hfst & Hopen) Henc].
    split; [|done]. split; [done|]. exists f, content. split; [done|]. split; [|done]. apply Hst; [|done].
    apply (R4 f), elem_of_output_files. exists s. split; [done|]. rewrite Hsf. by left.
  - unfold apart. rewrite Hw, Hf. exact U3.
Qed.

(** ** The steps of a compaction *)
Inductive compaction_step :=
| CPrepare (io : nat -> artifact_io DB)
| CCommit (io : commit_io (DB := DB)) (indexes : list SegmentIndexSnapshotMetadata).
Definition run_compaction (step : compaction_step) p c d : list (disk DB) * (disk DB * (CollectionStore DB * Compaction)) :=
  match step with
  | CPrepare io => let '(tr, (d', (c', (p', _)))) := Prepare dir CtxLive io p c d in (tr, (d', (c', p')))
  | CCommit io indexes => let '(tr, (d', (c', (p', _)))) := Commit CtxLive io indexes p c d in (tr, (d', (c', p')))
  end.
(** A compaction is prepared once. *)
Definition compaction_args (step : compaction_step) p : Prop :=
  match step with
  | CPrepare _ => p_prepared p = false /\ unused p
  | CCommit _ indexes => Forall index_encodable indexes
  end.
Definition compaction_sync (step : compaction_step) : option gerror :=
  match step with CPrepare _ => None | CCommit io _ => po_sync2 (cm_publish io) end.

Lemma compaction_spec step p c d base ops lost tr d' c' p' :
  store_inv c d base ops lost -> zlen ops + 2 < u64_max -> under_way p c d base -> compaction_args step p ->
  run_compaction step p c d = (tr, (d', (c', p'))) ->
  (forall dd, dd ∈ tr -> opens_kept c dd) /\
  (compaction_sync step = None -> exists base' ops' lost', store_inv c' d' base' ops' lost' /\ under_way p' c' d' base').
Proof.
  intros Hinv Hb Hu Hargs H. destruct step as [io|io indexes]; cbn [run_compaction compaction_args compaction_sync] in *.
  - destruct (Prepare _ _ _ _ _ _) as [tr0 [d0 [c0 [p0 err]]]] eqn:E. injection H as <- <- <- <-. destruct Hargs as [Hp Hn].
    destruct (Prepare_spec io p c d base ops lost tr0 d0 c0 p0 err Hinv Hb Hp (uw_begun _ _ _ _ Hu Hp Hn) E) as (Hcr & Hi & _ & _ & _ & Hu' & _).
    split; [done|]. eauto.
  - destruct (Commit _ _ _ _ _ _) as [tr0 [d0 [c0 [p0 [com err]]]]] eqn:E. injection H as <- <- <- <-.
    destruct (Commit_under_way io indexes p c d base ops lost tr0 d0 c0 p0 com err Hinv Hb Hu Hargs E) as ([Hcr Hcom Href] & Hu1 & Hu2).
    split; [done|]. intros Hs. destruct com.
    + destruct (Hcom eq_refl) as (_ & _ & _ & _ & _ & _ & Hn). destruct (Hn Hs) as [base' Hi]. exists base', ops, None. split; [done|by apply Hu1].
    + destruct (Href eq_refl) as (Hi & _). destruct (Hu2 eq_refl) as [-> Hu']. eauto.
Qed.

(** Removing the files of a compaction leaves those of the store. *)
Lemma close_store_inv unmap remove left p c d base ops lost tr d' p' err :
  store_inv c d base ops lost -> under_way p c d base -> Compaction_Close unmap remove left p d = (tr, (d', (p', err))) ->
  Forall (fun dd => store_inv c dd base ops lost) (d' :: tr).
Proof.
  intros Hinv [_ _ Hap] H. unfold Compaction_Close in H. destruct (p_closed p); [injection H as <- <- _ _; by apply Forall_singleton|].
  destruct (p_committed p) eqn:Ec; [injection H as <- <- _ _; by apply Forall_singleton|].
  destruct (remove_all_created _ _ _ _) as [tr0 [d0 errs]] eqn:Er. injection H as <- <- _ _. specialize (Hap eq_refl). unfold apart in Hap.
  revert d tr0 d0 errs Hinv Er. induction Hap as [|n created [Hn Hk] Hap IH]; intros d tr0 d0 errs Hinv Er; cbn [remove_all_created] in Er.
  { injection Er as <- <- _. by apply Forall_singleton. }
  destruct (remove_all_created _ _ created _) as [tr1 [d1 errs1]] eqn:E1. injection Er as <- <- _.
  assert (store_inv c (remove_created remove left n d) base ops lost) as Hinv1.
  { assert (store_inv c (disk_remove n d) base ops lost) as Hrm.
    { apply (store_inv_same c d); [done|done| |].
      - intros k Hkc _. cbn. rewrite lookup_delete_ne; [done|]. by intros ->.
      - intros k Hkc Ht. cbn in Ht. apply elem_of_union in Ht as [->%elem_of_singleton|?]; [|done]. apply elem_of_cons in Hkc as [->|?]; done. }
    unfold remove_created. destruct (remove n); [destruct (left n)|]; done. }
  destruct (Forall_cons_1 _ _ _ (IH _ _ _ _ Hinv1 E1)) as [H1 H2]. constructor; [done|]. by constructor.
Qed.
End compacted_store.
