(* ===== verification/CollectionSafety.v ===== *)
(** * Crash safety of collections

    The invariant of an open store ties its memory to the checkpoint and the log
    on the disk.  Creating, writing, flushing, rewriting, publishing a schema or
    index snapshots, pruning and closing go from one such state to the next, as
    long as the publications that go on have synchronized the directory of
    [CURRENT]; wherever a crash strikes, the collection opens again.  A flush that
    goes on without this synchronization can lose every later write. *)
From S2P Require Import Prelude Bytes Utf8 KeyStore IdMap FileIO Wal Paths Snapshot Json JsonText Names Manifest ManifestFile ManifestJson VersionManager Segment SegmentManager WriteEngine Recovery Durability Rotation Storage Collection Checkpoint Preparation Rewrite Prune StoreSafety FlushSafety CreationSafety RewriteSafety PublicationSafety Compaction PruneSafety CompactionSafety.
From stdpp Require Import sorting.
#[local] Open Scope string_scope.
#[local] Open Scope list_scope.
#[local] Open Scope Z_scope.

Section safety.
Context {DB : Type} `{Hkv : KVStore DB} {Hlaws : KVStoreLaws DB} {S : Setting DB}.
Implicit Types (d : disk DB) (m : SegmentManager DB) (c : CollectionStore DB).


(** ** Maintenance *)

(** The calls that publish a manifest. *)
Inductive maintenance :=
| MFlush (io : flush_io (DB := DB))
| MRewrite (io : rewrite_io (DB := DB)) (schema : bytes) (documents : list StoredDocument)
| MPublish (io : publish_io) (p : publication).

Definition run_maintenance (op : maintenance) c d : list (disk DB) * (disk DB * CollectionStore DB) :=
  match op with
  | MFlush io => let '(tr, (d', (c', _))) := Flush dir CtxLive io c d in (tr, (d', c'))
  | MRewrite io schema documents =>
      let '(tr, (d', (c', _))) := RewriteDocuments dir go_range CtxLive io schema documents c d in (tr, (d', c'))
  | MPublish io p => let '(tr, (d', (c', _))) := run_publication io p c d in (tr, (d', c'))
  end.

Definition maintenance_args (op : maintenance) : Prop :=
  match op with
  | MFlush _ => True
  | MRewrite _ schema _ => schema_nested schema
  | MPublish _ p => publication_args p
  end.
(** The answer to the last synchronization of the directory of [CURRENT]. *)
Definition maintenance_sync (op : maintenance) : option gerror :=
  match op with
  | MFlush io => po_sync2 (fo_publish io)
  | MRewrite io _ _ => po_sync2 (rw_publish io)
  | MPublish io _ => po_sync2 io
  end.

Definition opens_inv d : Prop :=
  forall d' options, disk_crash d d' -> opt_ReadOnly options = false -> exists c base ops,
    OpenCollection dir go_range CtxLive opened_fine options d' = Some (Ok c) /\ store_inv c d' base ops None.

Lemma safe_opens_inv d P : safe_in d P -> opens_inv d.
Proof. intros H d' options Hc Hro. destruct (H d' options Hc Hro) as (c & base & ops & H1 & H2 & _). eauto. Qed.

Lemma opens_kept_inv c d : opens_kept c d -> opens_inv d.
Proof. intros H d' options Hc Hro. destruct (H d' options Hc Hro) as (c2 & base & ops & H1 & H2 & _). eauto. Qed.

Lemma publication_maintains c d base ops lost sync2 next tr d' c' com err :
  publication_outcome c d base ops lost sync2 next tr d' c' com err ->
  (forall dd, dd ∈ tr -> opens_inv dd) /\ (sync2 = None -> exists base' ops' lost', store_inv c' d' base' ops' lost').
Proof.
  intros [H1 H2 _ H3 H4]. split.
  - intros dd Hdd d2 options Hc Hro. destruct (H1 dd Hdd d2 options Hc Hro) as (c2 & k & Ho & Hinv & _). eauto.
  - intros Hs. destruct com; [destruct (H3 eq_refl) as (_ & _ & H); eauto|destruct (H4 eq_refl) as [-> H]; eauto].
Qed.

Lemma maintenance_spec op c d base ops lost tr d' c' :
  store_inv c d base ops lost -> zlen ops + 2 < u64_max -> maintenance_args op ->
  run_maintenance op c d = (tr, (d', c')) ->
  (forall dd, dd ∈ tr -> opens_inv dd) /\
  (maintenance_sync op = None -> exists base' ops' lost', store_inv c' d' base' ops' lost').
Proof.
  intros Hinv Hb Hargs H. destruct op as [io|io schema documents|io p];
    cbn [run_maintenance maintenance_args maintenance_sync] in *.
  - destruct (Flush _ _ _ _ _) as [tr0 [d0 [c0 err]]] eqn:E. injection H as <- <- <-.
    destruct (Flush_spec io c d base ops lost tr0 d0 c0 err Hinv Hb E) as [Hsafe _ _ Hcom _ _ Href]. split.
    + intros dd Hdd. by eapply safe_opens_inv, Hsafe.
    + intros Hs. destruct (committed c c0); [destruct (Hcom eq_refl) as (_ & _ & _ & Hn); destruct (Hn Hs); eauto|].
      destruct (Href eq_refl). eauto.
  - destruct (RewriteDocuments _ _ _ _ _ _ _ _) as [tr0 [d0 [c0 [com err]]]] eqn:E. injection H as <- <- <-.
    destruct (RewriteDocuments_spec io schema documents c d base ops lost tr0 d0 c0 com err Hinv Hb Hargs E) as [[Hsafe _ Hcom Href] _]. split.
    + intros dd Hdd. by eapply safe_opens_inv, Hsafe.
    + intros Hs. destruct com; [destruct (Hcom eq_refl) as (_ & _ & _ & _ & _ & _ & Hn); destruct (Hn Hs); eauto|].
      destruct (Href eq_refl). eauto.
  - destruct (run_publication _ _ _ _) as [tr0 [d0 [c0 [com err]]]] eqn:E. injection H as <- <- <-.
    eapply publication_maintains, (run_publication_spec io p c d base ops lost tr0 d0 c0 com err Hinv Hb Hargs E).
Qed.

(** ** The states of a collection *)

(** What a process can reach: it creates the collection, writes, maintains,
    compacts and prunes it, and starts again after a crash between any two system
    calls of these.  There is one condition on their answers: a publication that
    goes on must have synchronized the directory of [CURRENT] - creating a
    collection, a flush, a rewrite, a schema or index publication and the commit
    of a compaction end with this synchronization, and go on when it fails
    ([unsynchronized_flush_loses_writes] shows what can then happen).  The first
    argument is the compaction that is open; writes, flushes and schema and index
    publications go on beside it, a rewrite, pruning and a crash put an end to it. *)
Definition log_room c (n : Z) : Prop := w_lastLSN (c_wal c) + n + 2 < u64_max.

Inductive reaches : option Compaction -> CollectionStore DB -> disk DB -> Prop :=
| ReachCreate io schema options d0 tr d c err :
    pub_state (dk_root d0) None [] -> schema_nested schema -> is_u64 (opt_SegmentMaxDocuments options) ->
    CreateCollection dir CtxLive io schema options d0 = (tr, (d, (Some c, err))) ->
    po_sync2 (co_publish io) = None -> reaches None c d
| ReachWrite o isnil polls ios b c d c' r :
    reaches o c d -> log_room c (batch_size b) -> run_batch isnil polls ios b c = (c', r) -> reaches o c' d
| ReachFlush p io c d tr d' c' err :
    reaches (Some p) c d -> log_room c 0 -> compaction_settled p = true -> Flush dir CtxLive io c d = (tr, (d', (c', err))) ->
    po_sync2 (fo_publish io) = None -> reaches (Some p) c' d'
| ReachMaintain o op c d tr d' c' :
    reaches o c d -> log_room c 0 -> maintenance_args op -> run_maintenance op c d = (tr, (d', c')) ->
    maintenance_sync op = None -> reaches None c' d'
| ReachPublish p io pub c d tr d' c' com err :
    reaches (Some p) c d -> log_room c 0 -> publication_args pub -> run_publication io pub c d = (tr, (d', (c', (com, err)))) ->
    po_sync2 io = None -> reaches (Some p) c' d'
| ReachPrune o ctx io c d tr d' err dd :
    reaches o c d -> PruneObsoleteArtifacts ctx io c d = (tr, (d', err)) -> dd ∈ d' :: tr ->
    reaches None c dd
| ReachBegin o c d p :
    reaches o c d -> BeginCompaction CtxLive c = Ok p -> reaches (Some p) c d
| ReachCompact step p c d tr d' c' p' :
    reaches (Some p) c d -> log_room c 0 -> compaction_args step p -> run_compaction step p c d = (tr, (d', (c', p'))) ->
    compaction_sync step = None -> reaches (Some p') c' d'
| ReachClose unmap remove left p c d tr d' p' err dd :
    reaches (Some p) c d -> Compaction_Close unmap remove left p d = (tr, (d', (p', err))) -> dd ∈ d' :: tr -> reaches None c dd
| ReachCrash o io options c d d' c' :
    reaches o c d -> log_room c 0 -> disk_crash (with_log c d) d' -> opt_ReadOnly options = false ->
    OpenCollection dir go_range CtxLive io options d' = Some (Ok c') -> reaches None c' d'
| ReachCrashMaintain o op io options c d tr out dd d' c' :
    reaches o c d -> log_room c 0 -> maintenance_args op -> run_maintenance op c d = (tr, out) -> dd ∈ tr -> disk_crash dd d' ->
    opt_ReadOnly options = false -> OpenCollection dir go_range CtxLive io options d' = Some (Ok c') ->
    reaches None c' d'
| ReachCrashCompact step p io options c d tr out dd d' c' :
    reaches (Some p) c d -> log_room c 0 -> compaction_args step p -> run_compaction step p c d = (tr, out) -> dd ∈ tr ->
    disk_crash dd d' -> opt_ReadOnly options = false ->
    OpenCollection dir go_range CtxLive io options d' = Some (Ok c') -> reaches None c' d'.
Definition reachable_synced c d : Prop := exists o, reaches o c d.

(** A reachable state satisfies the invariant, and so does its compaction. *)
Definition state_inv (o : option Compaction) c d : Prop :=
  exists base ops lost, store_inv c d base ops lost /\ forall p, o = Some p -> under_way p c d base.

Lemma opened_state_inv d io options d' c' :
  opens_inv d -> disk_crash d d' -> opt_ReadOnly options = false ->
  OpenCollection dir go_range CtxLive io options d' = Some (Ok c') -> state_inv None c' d'.
Proof.
  intros Hs Hc Hro Ho%open_succeeds. destruct (Hs d' options Hc Hro) as (c2 & base & ops & Ho2 & Hinv). rewrite Ho in Ho2. injection Ho2 as <-.
  by exists base, ops, None.
Qed.

Lemma reaches_inv o c d : reaches o c d -> state_inv o c d.
Proof.
  induction 1 as [io schema options d0 tr d c err Hp Hs Hm Hc Hpo|o isnil polls ios b c d c' r _ (base & ops & lost & Hinv & Hu) Hroom Hr|
    p io c d tr d' c' err _ (base & ops & lost & Hinv & Hu) Hroom Hset Hf Hpo|
    o op c d tr d' c' _ (base & ops & lost & Hinv & Hu) Hroom Hargs Hf Hpo|
    p io pub c d tr d' c' com err _ (base & ops & lost & Hinv & Hu) Hroom Hargs Hf Hpo|
    o ctx io c d tr d' err dd _ (base & ops & lost & Hinv & Hu) Hf Hdd|
    o c d p _ (base & ops & lost & Hinv & Hu) Hbegin|
    step p c d tr d' c' p' _ (base & ops & lost & Hinv & Hu) Hroom Hargs Hf Hpo|
    unmap remove left p c d tr d' p' err dd _ (base & ops & lost & Hinv & Hu) Hf Hdd|
    o io options c d d' c' _ (base & ops & lost & Hinv & Hu) Hroom Hc Hro Ho|
    o op io options c d tr out dd d' c' _ (base & ops & lost & Hinv & Hu) Hroom Hargs Hf Hdd Hc Hro Ho|
    step p io options c d tr out dd d' c' _ (base & ops & lost & Hinv & Hu) Hroom Hargs Hf Hdd Hc Hro Ho];
    try (unfold log_room in Hroom; rewrite (store_lsn _ _ _ _ _ Hinv) in Hroom).
  - destruct (CreateCollection_spec _ _ _ _ _ _ _ _ Hp Hs Hm Hc) as [_ (_ & _ & _ & Hsync)]. destruct (Hsync Hpo) as [_ Hinv].
    by eexists _, _, _.
  - destruct (run_batch_inv isnil polls ios b c d base ops lost c' r Hinv ltac:(lia) Hr) as (more & lost' & Hinv' & _).
    exists base, (ops ++ more), lost'. split; [done|]. intros p Hp. eapply run_batch_under_way; [exact Hr|by apply Hu].
  - destruct (flush_under_way io p c d base ops lost tr d' c' err Hinv ltac:(lia) Hf Hpo Hset (Hu p eq_refl)) as (b & l & x & H1 & H2).
    exists b, l, x. split; [done|]. by intros ? [= <-].
  - destruct (maintenance_spec op c d base ops lost tr d' c' Hinv ltac:(lia) Hargs Hf) as [_ Hs].
    destruct (Hs Hpo) as (b & l & x & H1). by exists b, l, x.
  - destruct (publication_under_way io pub p c d base ops lost tr d' c' com err Hinv ltac:(lia) Hargs Hf Hpo (Hu p eq_refl)) as [H1 H2].
    exists base, ops, lost. split; [done|]. by intros ? [= <-].
  - pose proof (prune_store_inv ctx io c d base ops lost tr d' err Hinv Hf) as Hall. rewrite Forall_forall in Hall.
    exists base, ops, lost. split; [by apply Hall|done].
  - exists base, ops, lost. split; [done|]. intros ? [= <-]. by eapply BeginCompaction_spec.
  - destruct (compaction_spec step p c d base ops lost tr d' c' p' Hinv ltac:(lia) (Hu p eq_refl) Hargs Hf) as [_ Hs].
    destruct (Hs Hpo) as (b & l & x & H1 & H2). exists b, l, x. split; [done|]. by intros ? [= <-].
  - pose proof (close_store_inv unmap remove left p c d base ops lost tr d' p' err Hinv (Hu p eq_refl) Hf) as Hall.
    rewrite Forall_forall in Hall. exists base, ops, lost. split; [by apply Hall|done].
  - destruct (store_crash c d base ops lost d' options Hinv ltac:(lia) Hc Hro) as (c2 & k & Ho2 & Hinv' & _).
    apply open_succeeds in Ho. rewrite Ho in Ho2. injection Ho2 as <-. by eexists _, _, _.
  - destruct out as [d1 c1]. destruct (maintenance_spec op c d base ops lost tr d1 c1 Hinv ltac:(lia) Hargs Hf) as [Hsafe _].
    exact (opened_state_inv dd io options d' c' (Hsafe dd Hdd) Hc Hro Ho).
  - destruct out as (d1 & c1 & p1). destruct (compaction_spec step p c d base ops lost tr d1 c1 p1 Hinv ltac:(lia) (Hu p eq_refl) Hargs Hf) as [Hsafe _].
    exact (opened_state_inv dd io options d' c' (opens_kept_inv c dd (Hsafe dd Hdd)) Hc Hro Ho).
Qed.
Lemma reachable_inv c d : reachable_synced c d -> exists base ops lost, store_inv c d base ops lost.
Proof. intros [o Hr]. destruct (reaches_inv o c d Hr) as (base & ops & lost & Hinv & _). eauto. Qed.
Lemma reach_create io schema options d0 tr d c err :
  pub_state (dk_root d0) None [] -> schema_nested schema -> is_u64 (opt_SegmentMaxDocuments options) ->
  CreateCollection dir CtxLive io schema options d0 = (tr, (d, (Some c, err))) ->
  po_sync2 (co_publish io) = None -> reachable_synced c d.
Proof. intros. exists None. by eapply ReachCreate. Qed.

(** ** Properties *)

(** What opening a disk gives. *)
Definition opens_to (options : CollectionOptions) d c : Prop :=
  OpenCollection dir go_range CtxLive opened_fine options d = Some (Ok c).

Lemma safe_reopens op c d tr out dd P :
  reachable_synced c d -> log_room c 0 -> maintenance_args op -> run_maintenance op c d = (tr, out) -> dd ∈ tr -> safe_in dd P ->
  forall d2 options, disk_crash dd d2 -> opt_ReadOnly options = false ->
    exists c2, opens_to options d2 c2 /\ reachable_synced c2 d2 /\ P (contents (abs (c_manager c2))).
Proof.
  intros Hr Hroom Hargs H Hdd Hsafe d2 options Hc Hro. destruct (Hsafe d2 options Hc Hro) as (c2 & base2 & ops2 & Ho & _ & HP).
  exists c2. split; [done|]. split; [|done]. destruct Hr as [o Hr]. exists None. by apply (ReachCrashMaintain o op opened_fine options c d tr out dd d2 c2).
Qed.

(** C3: a collection opens again.  Take any state that a process reaches by
    creating a collection, writing batches, flushing, rewriting, publishing
    schemas or index snapshots, compacting, pruning, and restarting after crashes
    at any point of these, provided that every publication that went on had
    synchronized the directory of [CURRENT]; all other system calls may answer
    anything, writes may run under any contexts and maintenance under a live one,
    and an opening that succeeds may have met any outcome of its own.
    There the document count is the number of live keys, and a crash leaves a disk
    that opens, for writing and when the calls of opening succeed, to a state
    that is again such - with the same contents if the log was synchronized. *)
Theorem reachable_collections_reopen c d :
  reachable_synced c d -> log_room c 0 ->
  DocumentCount c = Z.of_nat (size (contents (abs (c_manager c)))) /\
  forall d' options, disk_crash (with_log c d) d' -> opt_ReadOnly options = false ->
    exists c2, opens_to options d' c2 /\ reachable_synced c2 d' /\
      (w_dirtyRecords (c_wal c) = 0 -> w_poisoned (c_wal c) = None ->
         contents (abs (c_manager c2)) = contents (abs (c_manager c))).
Proof.
  intros Hr Hroom. destruct (reachable_inv c d Hr) as (base & ops & lost & Hinv). split; [by eapply store_count|].
  pose proof Hroom as Hb. unfold log_room in Hb. rewrite (store_lsn _ _ _ _ _ Hinv) in Hb. assert (zlen ops + 2 < u64_max) as Hb' by lia.
  intros d' options Hc Hro. destruct (store_crash c d base ops lost d' options Hinv Hb' Hc Hro) as (c2 & k & Ho & _).
  exists c2. split; [done|]. split; [destruct Hr as [o Hr]; exists None; by eapply ReachCrash|]. intros Hd Hp.
  destruct (store_synced_crash c d base ops lost d' options Hinv Hb' Hc Hro Hd Hp) as (c3 & Ho' & _ & HC).
  rewrite Ho in Ho'. by injection Ho' as <-.
Qed.

(** C1: acknowledged writes survive.  Take a collection that was reached with the
    directory of [CURRENT] synchronized by every publication that went on - its
    creation, flushes, rewrites, schema and index publications and compactions;
    without this the statement fails, see [unsynchronized_flush_loses_writes].
    When its log is synchronized after every record, run any calls, under any
    contexts and outcomes of the log's I/O, and crash.  The disk opens to exactly
    the contents that the acknowledged calls produced, or to these changed by one
    more call that had reported an error. *)
Theorem collection_writes_survive_crash c p d (calls : list (context * wal_io * ecall)) e results d' options :
  reachable_synced c d -> log_room c (zlen calls + 1) -> c_engine c = Some p -> w_SyncEvery (c_wal c) = 1 ->
  w_dirtyRecords (c_wal c) = 0 -> w_poisoned (c_wal c) = None ->
  run_calls calls (store_engine c p) = (e, results) ->
  disk_crash (with_log (c_set_engine c e) d) d' -> opt_ReadOnly options = false ->
  exists c2, opens_to options d' c2 /\
    let kept := calls_apply (acknowledged results) (contents (abs (c_manager c))) in
    (contents (abs (c_manager c2)) = kept \/
     exists call err, (call, Some err) ∈ results /\ contents (abs (c_manager c2)) = call_apply call kept).
Proof.
  intros Hr Hroom Hp Hse Hd Hpo Hrun Hc Hro. destruct (reachable_inv c d Hr) as (base & ops0 & lost & Hinv).
  assert (lost = None) as -> by by eapply store_not_lost.
  unfold log_room in Hroom. rewrite (store_lsn _ _ _ _ _ Hinv) in Hroom. pose proof (zlen_nonneg calls) as Hz.
  destruct (sv_engine _ _ _ _ _ Hinv) as (p' & Hp' & _ & He0). assert (p' = p) as -> by congruence.
  assert (synced_run base ops0 e results) as (ops & lost & new & rest & He & Hall & Hnew & Hse' & Hdur & Hlen & Hrest).
  { apply (synced_run_calls store_reliable base ops0 calls (store_engine c p) [] e results); [|rewrite zlen_nil; lia|done].
    exists ops0, None, [], []. cbn [option_list app acknowledged omap list_omap store_engine e_wal]. rewrite Hd, !app_nil_r.
    split; [done|]. split; [done|]. split; [constructor|]. split; [done|]. change (zlen []) with 0. split; [lia|]. split; [lia|by left]. }
  assert (length results = length calls) as Hlr by by eapply run_calls_length.
  assert (zlen ops + 2 < u64_max) as Hb by (unfold zlen in *; lia).
  pose proof (store_set_engine c d base ops0 None ops lost e Hinv He) as Hinv1.
  destruct (store_crash (c_set_engine c e) d base ops lost d' options Hinv1 Hb Hc Hro) as (c2 & k & Ho & Hinv2 & _ & _ & _ & Hk).
  exists c2. split; [done|]. destruct (sv_engine _ _ _ _ _ Hinv2) as (p2 & _ & _ & He2).
  by apply (recovered_contents base ops0 (store_engine c p) e (store_engine c2 p2) ops lost new rest results k None).
Qed.

(** C2: a flush loses nothing.  On a collection whose earlier publications were
    synchronized, whatever the system calls of [Flush] answer and
    wherever a crash strikes once it has synchronized the log, the disk opens to
    the contents the collection had, and the contents in memory stay.  When it
    commits it leaves an empty write segment and an empty log; when it does not,
    and reports no error, there was nothing to flush. *)
Theorem flush_crash_safe io c d tr d' c' err :
  reachable_synced c d -> log_room c 0 -> Flush dir CtxLive io c d = (tr, (d', (c', err))) ->
  let C := contents (abs (c_manager c)) in
  (forall dd d2 options, dd ∈ tr -> disk_crash dd d2 -> opt_ReadOnly options = false ->
     exists c2, opens_to options d2 c2 /\ reachable_synced c2 d2 /\ contents (abs (c_manager c2)) = C) /\
  match last tr with Some dd => d' = dd | None => d' = d end /\
  contents (abs (c_manager c')) = C /\
  if committed c c'
  then (exists next, sg_writing (c_manager c') = Some next /\ ws_docs next = []) /\ HasRecords (c_wal c') = false
  else err = None -> tr = [] /\ (exists w, sg_writing (c_manager c) = Some w /\ ws_docs w = []) /\ HasRecords (c_wal c) = false.
Proof.
  intros Hr Hroom H C. destruct (reachable_inv c d Hr) as (base & ops & lost & Hinv).
  pose proof Hroom as Hb. unfold log_room in Hb. rewrite (store_lsn _ _ _ _ _ Hinv) in Hb. assert (zlen ops + 2 < u64_max) as Hb' by lia.
  destruct (Flush_spec io c d base ops lost tr d' c' err Hinv Hb' H) as [Hsafe Hlast HC Hcom _ _ Href].
  split; [|split; [done|split; [done|]]].
  - intros dd d2 options Hdd. apply (safe_reopens (MFlush io) c d tr (d', c') dd (fun X => X = C)); [done|done|done| |done|by apply Hsafe].
    cbn [run_maintenance]. by rewrite H.
  - destruct (committed c c'); [destruct (Hcom eq_refl) as (_ & ? & ? & _); done|]. intros He.
    destruct (Href eq_refl) as [_ Hn]. destruct (Hn He) as (? & ? & ->). split; [done|]. split; [done|].
    unfold HasRecords. rewrite (store_lsn _ _ _ _ _ Hinv). done.
Qed.

(** C35: the condition on publications is needed.  When the directory of [CURRENT]
    could not be synchronized after a flush has replaced it, the handle is not
    poisoned and goes on: later writes are acknowledged, seen in memory and, with
    a sync per record, synchronized - in the new log.  A crash in which the
    directory falls back to its durable entries opens the old checkpoint with the
    old log: to the contents before the flush, with every later write lost. *)
Theorem unsynchronized_flush_loses_writes io c d tr d' c' err :
  reachable_synced c d -> log_room c 0 -> Flush dir CtxLive io c d = (tr, (d', (c', err))) ->
  committed c c' = true -> po_sync2 (fo_publish io) <> None ->
  let C := contents (abs (c_manager c)) in
  requireWritableLocked c' = None /\ c_engine c' = Some None /\
  forall calls e results, zlen calls + 2 < u64_max -> run_calls calls (store_engine c' None) = (e, results) ->
    Forall (fun r => r.2 = None) results ->
    contents (abs (e_manager e)) = calls_apply (acknowledged results) C /\
    (w_SyncEvery (c_wal c) = 1 -> w_dirtyRecords (e_wal e) = 0) /\
    forall d2 options, disk_crash (with_log (c_set_engine c' e) d') d2 -> dk_root d2 = settled (ds_durable (dk_root d')) ->
      opt_ReadOnly options = false -> exists c2, opens_to options d2 c2 /\ contents (abs (c_manager c2)) = C.
Proof.
  intros Hr Hroom H Hc Hs C. destruct (reachable_inv c d Hr) as (base & ops & lost & Hinv).
  unfold log_room in Hroom. rewrite (store_lsn _ _ _ _ _ Hinv) in Hroom.
  destruct (Flush_spec io c d base ops lost tr d' c' err Hinv ltac:(lia) H) as [_ _ HC _ Hun _ _].
  destruct (Hun Hc Hs) as (H1 & H2 & He & Hse & Hd & Hrev). split; [done|]. split; [done|]. intros calls e results Hn Hrun Hall.
  destruct (run_calls_acknowledged _ calls _ _ [] None results store_reliable He Hn Hrun Hall) as [Hmem Hdirty].
  cbn [store_engine e_manager e_wal] in Hmem, Hdirty. rewrite HC, Hse, Hd in *. split; [done|]. split; [auto|].
  intros d2 options Hcr Hroot Hro. destruct (Hrev (w_file (e_wal e)) d2 options Hcr Hroot Hro) as (c2 & _ & _ & Ho & _ & HC2).
  by exists c2.
Qed.

(** C4: creation is atomic.  In a directory without a collection, whatever the
    system calls answer and wherever a crash strikes, there is afterwards either
    no collection or an empty one that opens; an error without a store means
    there is none, and a store whose [CURRENT] was synchronized is empty and
    opens after every crash. *)
Theorem create_collection_crash_safe io schema options d tr d' res err :
  pub_state (dk_root d) None [] -> schema_nested schema -> is_u64 (opt_SegmentMaxDocuments options) ->
  CreateCollection dir CtxLive io schema options d = (tr, (d', (res, err))) ->
  (forall dd, dd ∈ d' :: tr -> safe_or_absent dd ∅) /\
  match res with
  | None => err <> None /\ pub_state (dk_root d') None []
  | Some c => contents (abs (c_manager c)) = ∅ /\ w_SyncEvery (c_wal c) = opt_SyncEvery options /\ w_dirtyRecords (c_wal c) = 0 /\
      (po_sync2 (co_publish io) = None -> reachable_synced c d' /\ safe d' ∅)
  end.
Proof.
  intros Hp Hs Hm H. destruct (CreateCollection_spec io schema options d tr d' res err Hp Hs Hm H) as [H1 H2].
  split; [done|]. destruct res as [c|]; [|done]. destruct H2 as (H2 & H3 & H4 & H5). do 3 (split; [done|]). intros Hpo.
  split; [by eapply reach_create|by apply H5].
Qed.

(** What a closed handle refuses: every write, the maintenance calls and a new
    compaction or its commit, which change nothing, and every reading of
    documents. *)
Record refuses c : Prop := {
  rf_writes : forall isnil polls ios b, run_batch isnil polls ios b c = (c, ([], Some ErrCollectionClosed));
  rf_flush : forall io d, Flush dir CtxLive io c d = ([], (d, (c, Some ErrCollectionClosed)));
  rf_rewrite : forall io schema documents d, exists e,
    RewriteDocuments dir go_range CtxLive io schema documents c d = ([], (d, (c, (false, Some e))));
  rf_publish : forall io p d, exists e, run_publication io p c d = ([], (d, (c, (false, Some e))));
  rf_prune : forall io d, PruneObsoleteArtifacts CtxLive io c d = ([], (d, Some ErrCollectionClosed));
  rf_begin : BeginCompaction CtxLive c = Fail ErrCollectionClosed;
  rf_commit : forall io indexes p d, exists e, Commit CtxLive io indexes p c d = ([], (d, (c, (p, (false, Some e)))));
  rf_fetch : forall isnil polls keys, store_Fetch isnil polls keys c = ([], Some ErrCollectionClosed);
  rf_live : forall ctx, store_LiveDocuments ctx c = Fail ErrCollectionClosed;
  rf_keys : forall ctx, store_LiveDocumentPrimaryKeys go_range ctx c = Fail ErrCollectionClosed;
  rf_snapshots : SegmentSnapshots CtxLive c = Fail ErrCollectionClosed;
  rf_visit : forall (X : Type) select visit (x : X), VisitSelectedSegmentSnapshots CtxLive select visit c x = Fail ErrCollectionClosed;
  rf_optimize : OptimizationNeeded CtxLive c = Fail ErrCollectionClosed
}.

Lemma closed_refuses c : c_closed c = true -> refuses c.
Proof.
  intros Hc. assert (requireWritableLocked c = Some ErrCollectionClosed) as Hr by (unfold requireWritableLocked; by rewrite Hc).
  split.
  - intros isnil polls ios b. destruct b; cbn [run_batch]; unfold store_Insert, store_Upsert, store_Update, store_Delete, delegate; by rewrite Hr.
  - intros io d. unfold Flush. cbn [ctx_guard]. by rewrite Hr.
  - intros io schema documents d. unfold RewriteDocuments. cbn [ctx_guard]. destruct (validateSchemaJSON schema); [rewrite Hr|]; by eexists.
  - intros io [same schema snapshots|same snapshots] d; cbn [run_publication];
      [unfold publishSchema; cbn [ctx_guard]; destruct (validateSchemaJSON schema); [rewrite Hr|]|
       unfold PublishSegmentIndexSnapshots; cbn [ctx_guard]; rewrite Hr]; by eexists.
  - intros io d. unfold PruneObsoleteArtifacts. cbn [ctx_guard]. by rewrite Hr.
  - unfold BeginCompaction. cbn [ctx_guard]. by rewrite Hr.
  - intros io indexes p d. unfold Commit. destruct (_ || _); [by eexists|]. cbn [ctx_Err]. rewrite Hr. by eexists.
  - intros. unfold store_Fetch. by rewrite Hc.
  - intros. unfold store_LiveDocuments. by rewrite Hc.
  - intros. unfold store_LiveDocumentPrimaryKeys. by rewrite Hc.
  - unfold SegmentSnapshots. cbn [ctx_guard]. by rewrite Hc.
  - intros. unfold VisitSelectedSegmentSnapshots. cbn [ctx_guard]. by rewrite Hc.
  - unfold OptimizationNeeded. cbn [ctx_guard]. by rewrite Hc.
Qed.

(** C5: closing keeps everything.  When the log of a collection whose publications
    were synchronized is open and its own synchronization succeeds, the disk after [Close] opens, after any
    crash, to the contents the collection had.  The closed handle refuses writes,
    flushes, rewrites, publications, pruning, beginning and committing
    compactions, and every reading of documents; its manifest and its document
    count stay what they were and can still be asked for. *)
Theorem close_keeps_contents unmap walIO e1 e2 e3 c d d' c' err :
  reachable_synced c d -> log_room c 0 -> w_poisoned (c_wal c) = None -> w_readOnly (c_wal c) = false -> w_closed (c_wal c) = false ->
  io_sync walIO = None -> store_Close unmap walIO e1 e2 e3 c d = (d', (c', err)) ->
  safe d' (contents (abs (c_manager c))) /\ refuses c' /\
  c_versions c' = c_versions c /\ DocumentCount c' = Z.of_nat (size (contents (abs (c_manager c)))).
Proof.
  intros Hr Hroom Hp Hro Hcl Hio H. destruct (reachable_inv c d Hr) as (base & ops & lost & Hinv).
  unfold log_room in Hroom. rewrite (store_lsn _ _ _ _ _ Hinv) in Hroom.
  destruct (store_Close_spec unmap walIO e1 e2 e3 c d base ops lost d' c' err Hinv ltac:(lia) Hp Hro Hcl Hio H) as [Hc Hs].
  split; [done|]. split; [by apply closed_refuses|]. rewrite <- (store_count c d base ops lost Hinv).
  unfold store_Close in H. destruct (sg_Close unmap (c_manager c)) as [m merr] eqn:Em.
  assert (sg_primaryKey m = sg_primaryKey (c_manager c)) as Hm by by injection Em as <- _.
  rewrite (proj1 (sv_open _ _ _ _ _ Hinv)) in H. destruct (WAL_Close walIO (c_wal c)) as [w werr]. injection H as _ <- _.
  split; [done|]. unfold DocumentCount, store_Stats, idmap_Count, idmap_Close. cbn. rewrite Hm.
  by destruct (pk_db (sg_primaryKey (c_manager c))).
Qed.
End safety.

(** ** Witnesses *)
Definition mem_range : gmap bytes primaryKeyDelta -> list (bytes * primaryKeyDelta) := map_to_list.
Lemma mem_opens : store_opens (gmap bytes bytes).
Proof. split; [by intros ck; eexists|done]. Qed.

#[local] Instance ex_setting : Setting (gmap bytes bytes) :=
  {| dir := "db"; repeated := no_repeats; go_range := mem_range; dir_nonempty := ltac:(discriminate);
     go_range_perm := fun _ => reflexivity _; store_reliable := mem_store_reliable; store_opening := mem_opens |}.

Definition ex_artifact_io : artifact_io (gmap bytes bytes) := {| ai_stat := None; ai_write := None; ai_left := None |}.
Definition ex_options : CollectionOptions :=
  {| opt_ReadOnly := false; opt_EnableMmap := true; opt_SegmentMaxDocuments := 100; opt_SyncEvery := 1 |}.
Definition ex_create_io : create_io :=
  {| co_lock := None; co_current := None; co_idmap := ex_artifact_io; co_deletes := ex_artifact_io; co_walDir := None;
     co_walIO := io_fine; co_wal := ex_artifact_io; co_removed := true; co_publish := ex_io |}.
Definition ex_flush_io : flush_io :=
  {| fo_sync := io_fine; fo_segment := ex_artifact_io; fo_idmap := ex_artifact_io; fo_deletes := ex_artifact_io;
     fo_walDir := None; fo_walIO := io_fine; fo_wal := ex_artifact_io; fo_removed := true; fo_publish := ex_io;
     fo_closeWAL := io_fine; fo_closePrimary := None; fo_removeWorking := None |}.
Definition ex_disk : disk (gmap bytes bytes) :=
  {| dk_root := {| ds_durable := ∅; ds_now := ∅; ds_torn := ∅ |}; dk_files := ∅; dk_torn := ∅ |}.
Definition ex_creation := CreateCollection dir CtxLive ex_create_io (bs "{}") ex_options ex_disk.
Definition ex_writes (c : CollectionStore (gmap bytes bytes)) :=
  store_Insert false (fun _ => CtxLive) (fun _ => io_fine)
    [{| in_PrimaryKey := [x61]; in_Payload := [x01; x02] |}; {| in_PrimaryKey := [x62]; in_Payload := [x03] |};
     {| in_PrimaryKey := [x61]; in_Payload := [x04] |}] c.

(** A new collection and what it holds after a batch with a rejected input. *)
Lemma ex_created_reachable :
  match ex_creation with
  | (_, (d, (Some c, None))) => reachable_synced c d /\ w_lastLSN (c_wal c) = 0
  | _ => False
  end.
Proof.
  assert (match ex_creation with (_, (_, (Some c, None))) => w_lastLSN (c_wal c) =? 0 | _ => false end = true) as Hok
    by (vm_compute; reflexivity).
  destruct ex_creation as [tr [d [[c|] err]]] eqn:E; [|discriminate]. destruct err; [discriminate|]. to_prop. split; [|done].
  unfold ex_creation in E. refine (reach_create ex_create_io (bs "{}") ex_options ex_disk tr d c None _ _ _ E eq_refl).
  - exact pub_state_empty.
  - exists []. split; vm_compute; reflexivity.
  - vm_compute. split; discriminate.
Qed.
Lemma ex_written_reachable :
  match ex_creation with
  | (_, (d, (Some c, None))) => let c1 := (ex_writes c).1 in reachable_synced c1 d /\
      log_room c1 0 /\ DocumentCount c1 = 2
  | _ => False
  end.
Proof.
  pose proof ex_created_reachable as Hr.
  assert (match ex_creation with (_, (_, (Some c, None))) =>
    (w_lastLSN (c_wal (ex_writes c).1) =? 2) && (DocumentCount (ex_writes c).1 =? 2) | _ => false end = true) as Hok
    by (vm_compute; reflexivity).
  destruct ex_creation as [tr [d [[c|] err]]]; [|done]. destruct err; [done|]. destruct Hr as [Hr Hl]. cbv zeta. to_prop.
  split; [|split; [unfold log_room, u64_max; lia|done]].
  destruct (ex_writes c) as [c1 r] eqn:Ew. unfold ex_writes in Ew.
  destruct Hr as [o Hr]. exists o. refine (ReachWrite o false (fun _ => CtxLive) (fun _ => io_fine)
    (BatchInsert _) c d c1 r Hr _ Ew). unfold log_room. rewrite Hl. vm_compute. reflexivity.
Qed.

Lemma reachable_collections_reopen_witness :
  match ex_creation with
  | (_, (d, (Some c, None))) => let c1 := (ex_writes c).1 in
      forall d', disk_crash (with_log c1 d) d' -> exists c2, opens_to ex_options d' c2 /\
        reachable_synced c2 d'
  | _ => False
  end.
Proof.
  pose proof ex_written_reachable as Hw. destruct ex_creation as [tr [d [[c|] err]]]; [|done]. destruct err; [done|].
  destruct Hw as (Hr & Hroom & _). intros c1 d' Hc.
  destruct (reachable_collections_reopen c1 d Hr Hroom) as [_ Hopen].
  destruct (Hopen d' ex_options Hc eq_refl) as (c2 & H1 & H2 & _). exists c2. split; [exact H1|exact H2].
Defined.

Definition ex_durable_calls : list (context * wal_io * ecall) :=
  [(CtxLive, io_fine, CallInsert {| in_PrimaryKey := [x61]; in_Payload := [x01; x02] |}); (CtxLive, io_fine, CallDelete [x61])].
Lemma collection_writes_survive_crash_witness :
  match ex_creation with
  | (_, (d, (Some c, None))) =>
      let e := (run_calls ex_durable_calls (store_engine c None)).1 in
      forall d', disk_crash (with_log (c_set_engine c e) d) d' -> exists c2, opens_to ex_options d' c2 /\
        contents (abs (c_manager c2)) = calls_apply (snd <$> ex_durable_calls) (contents (abs (c_manager c)))
  | _ => False
  end.
Proof.
  pose proof ex_created_reachable as Hw.
  assert (match ex_creation with (_, (_, (Some c, None))) =>
    match c_engine c, w_poisoned (c_wal c), (run_calls ex_durable_calls (store_engine c None)).2 with
    | Some None, None, [(CallInsert i, None); (CallDelete k, None)] =>
        (w_SyncEvery (c_wal c) =? 1) && (w_dirtyRecords (c_wal c) =? 0) && bytes_eqb (in_PrimaryKey i) [x61] && bytes_eqb (in_Payload i) [x01; x02] && bytes_eqb k [x61]
    | _, _, _ => false end | _ => false end = true) as Hok by (vm_compute; reflexivity).
  destruct ex_creation as [tr [d [[c|] err]]]; [|done]. destruct err; [done|]. destruct Hw as (Hr & Hl).
  destruct (c_engine c) as [[?|]|] eqn:Ee; [done| |done]. destruct (w_poisoned (c_wal c)) eqn:Ep; [done|].
  destruct (run_calls ex_durable_calls (store_engine c None)) as [e results] eqn:Erun. cbn [fst snd] in *.
  destruct results as [|[[i| | |] [?|]] [|[[| | |k] [?|]] [|]]]; try done. apply andb_true_iff in Hok as [Hok Hk]. apply andb_true_iff in Hok as [Hok Hpl].
  apply andb_true_iff in Hok as [Hok Hpk]. apply bytes_eqb_eq in Hk, Hpl, Hpk. to_prop. intros d' Hc.
  destruct (collection_writes_survive_crash c None d ex_durable_calls e [(CallInsert i, None); (CallDelete k, None)] d' ex_options Hr) as (c2 & Ho & HC); [|done|done|done|done|exact Erun|exact Hc|done|].
  { unfold log_room. rewrite Hl. vm_compute. reflexivity. }
  exists c2. split; [exact Ho|]. destruct HC as [HC|(call & x & Hin & _)].
  - rewrite HC. cbn [acknowledged omap list_omap]. destruct i as [ik ip]. cbn in Hpk, Hpl. by subst.
  - exfalso. rewrite !elem_of_cons in Hin. destruct Hin as [?|[?|?%elem_of_nil]]; done.
Defined.

Lemma flush_crash_safe_witness :
  match ex_creation with
  | (_, (d, (Some c, None))) =>
      match Flush dir CtxLive ex_flush_io (ex_writes c).1 d with
      | (tr, (d', (c', err))) => length tr = 19%nat /\ err = None /\ HasRecords (c_wal c') = false /\
          forall dd d2, dd ∈ tr -> disk_crash dd d2 -> exists c2, opens_to ex_options d2 c2 /\
            contents (abs (c_manager c2)) = contents (abs (c_manager c'))
      end
  | _ => False
  end.
Proof.
  pose proof ex_written_reachable as Hw.
  assert (match ex_creation with (_, (d, (Some c, None))) =>
    match Flush dir CtxLive ex_flush_io (ex_writes c).1 d with
    | (tr, (_, (c', None))) => (length tr =? 19)%nat && committed (ex_writes c).1 c' | _ => false end | _ => false end = true) as Hok
    by (vm_compute; reflexivity).
  destruct ex_creation as [tr [d [[c|] err]]]; [|done]. destruct err; [done|]. destruct Hw as (Hr & Hroom & _).
  destruct (Flush dir CtxLive ex_flush_io (ex_writes c).1 d) as [tr' [d' [c' err]]] eqn:Ef. destruct err; [done|].
  apply andb_true_iff in Hok as [Hlen Hcom]. apply Nat.eqb_eq in Hlen.
  pose proof (flush_crash_safe ex_flush_io (ex_writes c).1 d tr' d' c' None Hr Hroom Ef) as (Hcr & _ & HC & Hcm).
  rewrite Hcom in Hcm. split; [done|]. split; [done|]. split; [apply Hcm|]. intros dd d2 Hdd Hc.
  destruct (Hcr dd d2 ex_options Hdd Hc eq_refl) as (c2 & Ho & _ & HC2). exists c2. split; [exact Ho|]. by rewrite HC2, HC.
Defined.

(** A flush whose last synchronization fails, then an acknowledged insertion,
    then a crash in which the directory falls back. *)
Definition ex_unsynced_io : flush_io :=
  {| fo_sync := io_fine; fo_segment := ex_artifact_io; fo_idmap := ex_artifact_io; fo_deletes := ex_artifact_io;
     fo_walDir := None; fo_walIO := io_fine; fo_wal := ex_artifact_io; fo_removed := true;
     fo_publish := {| po_lock := None; po_current := None; po_scan := None; po_manifest := ex_file_io; po_sync1 := None;
       po_tempName := "43"; po_temp := ex_file_io; po_install := None; po_tempRemoved := true;
       po_sync2 := Some (errors_New "input/output error"); po_unlock := None |};
     fo_closeWAL := io_fine; fo_closePrimary := None; fo_removeWorking := None |}.
Definition ex_later_calls : list (context * wal_io * ecall) :=
  [(CtxLive, io_fine, CallInsert {| in_PrimaryKey := [x63]; in_Payload := [x09] |})].
Definition whole_artifact {DB} (a : artifact DB) : artifact DB :=
  match a with RegularFile f => RegularFile (whole_file (f_content f)) | PebbleDir db => PebbleDir db end.
Definition well_formed {DB} (a : artifact DB) : bool :=
  match a with RegularFile f => (f_stable f <=? length (f_content f))%nat | PebbleDir _ => true end.
Definition fall_back {DB} (d : disk DB) : disk DB :=
  {| dk_root := settled (ds_durable (dk_root d)); dk_files := whole_artifact <$> dk_files d; dk_torn := ∅ |}.
Lemma fall_back_crash {DB} (d : disk DB) : forallb (fun x => well_formed x.2) (map_to_list (dk_files d)) = true -> disk_crash d (fall_back d).
Proof.
  intros H. split; [exists (ds_durable (dk_root d)); split; [intros n; auto|done]|]. split; [done|]. intros n _. cbn. rewrite lookup_fmap.
  destruct (dk_files d !! n) as [a|] eqn:E; [|done]. cbn. eexists. split; [done|].
  rewrite forallb_forall in H. specialize (H (n, a)). cbn in H. rewrite <- list_elem_of_In, elem_of_map_to_list in H. specialize (H E).
  destruct a as [f|db]; [|done]. cbn in *. apply Nat.leb_le in H. exists (length (f_content f)). split; [lia|]. by rewrite firstn_all.
Qed.

Lemma unsynchronized_flush_loses_writes_witness :
  match ex_creation with
  | (_, (d, (Some c, None))) =>
      match Flush dir CtxLive ex_unsynced_io (ex_writes c).1 d with
      | (_, (d', (c', _))) =>
          let e := (run_calls ex_later_calls (store_engine c' None)).1 in
          size (contents (abs (e_manager e))) = 3%nat /\ w_dirtyRecords (e_wal e) = 0 /\
          let d2 := fall_back (with_log (c_set_engine c' e) d') in
          disk_crash (with_log (c_set_engine c' e) d') d2 /\
          exists c2, opens_to ex_options d2 c2 /\ size (contents (abs (c_manager c2))) = 2%nat
      end
  | _ => False
  end.
Proof.
  pose proof ex_written_reachable as Hw.
  assert (match ex_creation with (_, (d, (Some c, None))) =>
    match Flush dir CtxLive ex_unsynced_io (ex_writes c).1 d with
    | (_, (d', (c', _))) => let r := run_calls ex_later_calls (store_engine c' None) in
        forallb (fun r => match r.2 with None => true | Some _ => false end) r.2 && (w_dirtyRecords (e_wal r.1) =? 0) &&
        (size (contents (abs (e_manager r.1))) =? 3)%nat && (size (contents (abs (c_manager (ex_writes c).1))) =? 2)%nat &&
        (w_SyncEvery (c_wal (ex_writes c).1) =? 1) && committed (ex_writes c).1 c' &&
        forallb (fun x => well_formed x.2) (map_to_list (dk_files (with_log (c_set_engine c' r.1) d')))
    end | _ => false end = true) as Hok by (vm_compute; reflexivity).
  destruct ex_creation as [tr [d [[c|] err]]]; [|done]. destruct err; [done|]. destruct Hw as (Hr & Hroom & _).
  destruct (Flush dir CtxLive ex_unsynced_io (ex_writes c).1 d) as [tr' [d' [c' err]]] eqn:Ef. cbv zeta in Hok |- *.
  destruct (run_calls ex_later_calls (store_engine c' None)) as [e results] eqn:Erun. cbn [fst snd] in Hok |- *.
  rewrite !andb_true_iff in Hok. destruct Hok as [[[[[[Hall _] Hsize] Hsize1] Hse] Hcom] Hwf]. apply Nat.eqb_eq in Hsize, Hsize1. to_prop.
  destruct (unsynchronized_flush_loses_writes ex_unsynced_io (ex_writes c).1 d tr' d' c' err Hr Hroom Ef Hcom) as (_ & _ & Hloss); [done|].
  destruct (Hloss ex_later_calls e results) as (_ & Hd & Hlost); [vm_compute; reflexivity|exact Erun| |].
  { apply Forall_forall. intros r Hin%list_elem_of_In. rewrite forallb_forall in Hall. specialize (Hall r Hin). by destruct (r.2). }
  split; [exact Hsize|]. split; [by apply Hd|]. pose proof (fall_back_crash _ Hwf) as Hcr. split; [exact Hcr|].
  destruct (Hlost _ ex_options Hcr eq_refl eq_refl) as (c2 & Ho & HC). exists c2. split; [exact Ho|]. by rewrite HC.
Defined.

Lemma create_collection_crash_safe_witness :
  match ex_creation with
  | (tr, (d, (Some c, None))) => length tr = 16%nat /\ safe d ∅ /\
      forall dd, dd ∈ tr -> safe_or_absent dd ∅
  | _ => False
  end.
Proof.
  assert (match ex_creation with (tr, (_, (Some _, None))) => (length tr =? 16)%nat | _ => false end = true) as Hok
    by (vm_compute; reflexivity).
  destruct ex_creation as [tr [d [[c|] err]]] eqn:E; [|done]. destruct err; [done|]. apply Nat.eqb_eq in Hok. unfold ex_creation in E.
  destruct (create_collection_crash_safe ex_create_io (bs "{}") ex_options ex_disk tr d (Some c) None) as (Hsafe & _ & _ & _ & Hs).
  - exact pub_state_empty.
  - exists []. split; vm_compute; reflexivity.
  - vm_compute. split; discriminate.
  - exact E.
  - split; [done|]. split; [by apply Hs|]. intros dd Hdd. apply Hsafe. by right.
Defined.

Lemma close_keeps_contents_witness :
  match ex_creation with
  | (_, (d, (Some c, None))) =>
      match store_Close (fun _ => None) io_fine None None None (ex_writes c).1 d with
      | (d', (c', None)) => safe d' (contents (abs (c_manager (ex_writes c).1)))
      | _ => False
      end
  | _ => False
  end.
Proof.
  pose proof ex_written_reachable as Hw.
  assert (match ex_creation with (_, (d, (Some c, None))) =>
    match w_poisoned (c_wal (ex_writes c).1), store_Close (fun _ => None) io_fine None None None (ex_writes c).1 d with
    | None, (_, (_, None)) => negb (w_readOnly (c_wal (ex_writes c).1)) && negb (w_closed (c_wal (ex_writes c).1))
    | _, _ => false end | _ => false end = true) as Hok by (vm_compute; reflexivity).
  destruct ex_creation as [tr [d [[c|] err]]]; [|done]. destruct err; [done|]. destruct Hw as (Hr & Hroom & _).
  destruct (w_poisoned (c_wal (ex_writes c).1)) eqn:Ep; [done|].
  destruct (store_Close (fun _ => None) io_fine None None None (ex_writes c).1 d) as [d' [c' err]] eqn:Ec. destruct err; [done|].
  apply andb_true_iff in Hok as [H1%negb_true_iff H2%negb_true_iff].
  exact (proj1 (close_keeps_contents (fun _ => None) io_fine None None None (ex_writes c).1 d d' c' None Hr Hroom Ep H1 H2 eq_refl Ec)).
Defined.
