(* ===== verification/MaintenanceSafety.v ===== *)
(** * Rewriting, publishing, pruning and compacting a collection

    What these calls do to the contents of a reachable collection, and what a
    crash at any point of them leaves. *)
From S2P Require Import Prelude Bytes Utf8 KeyStore IdMap FileIO Wal Paths Snapshot Json JsonText Names Manifest ManifestFile ManifestJson VersionManager Segment SegmentManager WriteEngine Recovery Durability Rotation Storage Collection Checkpoint Preparation Rewrite Prune StoreSafety FlushSafety CreationSafety RewriteSafety PublicationSafety Compaction PruneSafety CompactionSafety CollectionSafety.
From stdpp Require Import sorting.
#[local] Open Scope string_scope.
#[local] Open Scope list_scope.
#[local] Open Scope Z_scope.

Section maintenance_safety.
Context {DB : Type} `{Hkv : KVStore DB} {Hlaws : KVStoreLaws DB} {S : Setting DB}.
Implicit Types (d : disk DB) (c : CollectionStore DB).

Lemma kept_reopens step p c d tr out dd d2 options :
  reaches (Some p) c d -> log_room c 0 -> compaction_args step p -> run_compaction step p c d = (tr, out) -> dd ∈ tr ->
  opens_kept c dd -> disk_crash dd d2 -> opt_ReadOnly options = false ->
  exists c2, opens_to options d2 c2 /\ reachable_synced c2 d2 /\
    (w_dirtyRecords (c_wal c) = 0 -> w_poisoned (c_wal c) = None -> contents (abs (c_manager c2)) = contents (abs (c_manager c))).
Proof.
  intros Hr Hroom Hargs H Hdd Hk Hc Hro. destruct (Hk d2 options Hc Hro) as (c2 & base2 & ops2 & Ho & _ & HC).
  exists c2. split; [done|]. split; [|done]. exists None. by apply (ReachCrashCompact step p opened_fine options c d tr out dd d2 c2).
Qed.

(** C6: a rewrite is all or nothing.  On a collection whose earlier publications
    were synchronized, wherever a crash strikes, the disk opens to
    the contents the collection had or to exactly the given documents.  When it
    commits, the collection holds the given documents and nothing else: the same
    live keys, no superseded version, no deletion and an empty log; when it does
    not, it reports an error and the contents stay. *)
Theorem rewrite_crash_safe io schema documents c d tr d' c' com err :
  reachable_synced c d -> log_room c 0 -> schema_nested schema ->
  RewriteDocuments dir go_range CtxLive io schema documents c d = (tr, (d', (c', (com, err)))) ->
  let C := contents (abs (c_manager c)) in let N := rewritten_contents documents in
  (forall dd d2 options, dd ∈ tr -> disk_crash dd d2 -> opt_ReadOnly options = false ->
     exists c2, opens_to options d2 c2 /\ reachable_synced c2 d2 /\
       (contents (abs (c_manager c2)) = C \/ contents (abs (c_manager c2)) = N)) /\
  match last tr with Some dd => d' = dd | None => d' = d end /\
  if com
  then committed c c' = true /\ contents (abs (c_manager c')) = N /\ dom N = dom C /\
       (forall x, x ∈ sg_stored (c_manager c') <-> x ∈ documents) /\ sg_deletes (c_manager c') = ∅ /\ HasRecords (c_wal c') = false
  else err <> None /\ c_versions c' = c_versions c /\ contents (abs (c_manager c')) = C.
Proof.
  intros Hr Hroom Hs H C N. destruct (reachable_inv c d Hr) as (base & ops & lost & Hinv).
  pose proof Hroom as Hb. unfold log_room in Hb. rewrite (store_lsn _ _ _ _ _ Hinv) in Hb. assert (zlen ops + 2 < u64_max) as Hb' by lia.
  destruct (RewriteDocuments_spec io schema documents c d base ops lost tr d' c' com err Hinv Hb' Hs H) as [[Hsafe Hlast Hcom Href] [Hv1 Hv2]].
  split; [|split; [done|]].
  - intros dd d2 options Hdd.
    apply (safe_reopens (MRewrite io schema documents) c d tr (d', c') dd (fun X => X = C \/ X = N)); [done|done|done| |done|by apply Hsafe].
    cbn [run_maintenance]. by rewrite H.
  - destruct com; [destruct (Hcom eq_refl) as (_ & H1 & H2 & H3 & H4 & H5 & _); by auto 10|].
    destruct (Href eq_refl) as (_ & Hm & He). split; [done|]. split; [by apply Hv2|]. by rewrite Hm.
Qed.

(** C7: publishing a schema or index snapshots never mixes generations.  On a
    collection whose earlier publications were synchronized, wherever
    a crash strikes, the disk opens with the old schema and index snapshots or
    with both new ones, and with all documents when the log was synchronized; the
    documents and the log in memory are not touched, and a call that does not
    commit changes nothing. *)
Theorem publication_crash_safe io p c d tr d' c' com err :
  reachable_synced c d -> log_room c 0 -> publication_args p ->
  run_publication io p c d = (tr, (d', (c', (com, err)))) ->
  let current := vm_current (c_versions c) in let next := publication_next p current in
  (forall dd d2 options, dd ∈ tr -> disk_crash dd d2 -> opt_ReadOnly options = false ->
     exists c2, opens_to options d2 c2 /\ reachable_synced c2 d2 /\
       (published_part (vm_current (c_versions c2)) = published_part current \/
        published_part (vm_current (c_versions c2)) = published_part next) /\
       (w_dirtyRecords (c_wal c) = 0 -> w_poisoned (c_wal c) = None ->
          contents (abs (c_manager c2)) = contents (abs (c_manager c)))) /\
  c_manager c' = c_manager c /\ c_wal c' = c_wal c /\
  if com then committed c c' = true /\ published_part (vm_current (c_versions c')) = published_part next else c' = c.
Proof.
  intros Hr Hroom Hargs H current next. destruct (reachable_inv c d Hr) as (base & ops & lost & Hinv).
  pose proof Hroom as Hb. unfold log_room in Hb. rewrite (store_lsn _ _ _ _ _ Hinv) in Hb. assert (zlen ops + 2 < u64_max) as Hb' by lia.
  destruct (run_publication_spec io p c d base ops lost tr d' c' com err Hinv Hb' Hargs H) as [Hcrash [Hm Hw] _ Hcom Href].
  split; [|split; [done|split; [done|]]].
  - intros dd d2 options Hdd Hc Hro. destruct (Hcrash dd Hdd d2 options Hc Hro) as (c2 & k & Ho & Hinv2 & Hk & Hpart).
    exists c2. split; [done|]. split; [|split; [done|]].
    + destruct Hr as [o Hr]. exists None. apply (ReachCrashMaintain o (MPublish io p) opened_fine options c d tr (d', c') dd d2 c2); try done. cbn [run_maintenance]. by rewrite H.
    + intros Hd Hp. assert (lost = None) as -> by by eapply store_not_lost.
      by destruct (same_replay c c2 d d2 base ops k Hinv Hinv2 Hk Hd) as [_ HC].
  - destruct com; [by destruct (Hcom eq_refl) as (? & ? & _)|by destruct (Href eq_refl)].
Qed.

(** C8: pruning removes garbage and only garbage.  On a collection whose
    publications were synchronized, after every removal, and at
    the end, a crash leaves a disk that opens, with the contents the collection
    has in memory if the log was synchronized.  Every artifact, the log included,
    stays as it was unless it is part of an artifact that this package owns and that the
    current manifest does not name as a segment file, log, lock, index artifact,
    IDMap or delete snapshot; and when the call succeeds every owned artifact that is left
    is one that the manifest names. *)
Theorem prune_exact ctx io c d tr d' err :
  reachable_synced c d -> log_room c 0 -> PruneObsoleteArtifacts ctx io c d = (tr, (d', err)) ->
  let manifest := vm_current (c_versions c) in
  (forall dd, dd ∈ d' :: tr ->
     (forall d2 options, disk_crash (with_log c dd) d2 -> opt_ReadOnly options = false ->
        exists c2, opens_to options d2 c2 /\
          (w_dirtyRecords (c_wal c) = 0 -> w_poisoned (c_wal c) = None -> contents (abs (c_manager c2)) = contents (abs (c_manager c)))) /\
     (dd = d \/ forall n, (forall name, owned name -> part_of name n -> named manifest name) ->
        dk_files dd !! n = dk_files (with_log c d) !! n)) /\
  (err = None -> prune_honest io -> disk_tree (with_log c d) -> forall n, owned n -> n ∈ disk_names d' -> named manifest n).
Proof.
  intros Hr Hroom H manifest. destruct (reachable_inv c d Hr) as (base & ops & lost & Hinv).
  unfold log_room in Hroom. rewrite (store_lsn _ _ _ _ _ Hinv) in Hroom.
  pose proof (PruneObsoleteArtifacts_spec ctx io c d tr d' err H) as Hspec.
  pose proof (prune_store_inv ctx io c d base ops lost tr d' err Hinv H) as Hall. rewrite Forall_forall in Hall. split.
  - intros dd Hdd. specialize (Hall dd Hdd). split.
    + intros d2 options Hc Hro. destruct (store_crash c dd base ops lost d2 options Hall ltac:(lia) Hc Hro) as (c2 & k & Ho & _).
      exists c2. split; [done|]. intros Hd Hp.
      destruct (store_synced_crash c dd base ops lost d2 options Hall ltac:(lia) Hc Hro Hd Hp) as (c3 & Ho' & _ & HC).
      rewrite Ho in Ho'. by injection Ho' as <-.
    + destruct Hspec as [(-> & -> & _)|[Hkept _]]; [left; by apply list_elem_of_singleton in Hdd as ->|right]. intros n Hnamed.
      rewrite Forall_forall in Hkept. destruct (Hkept dd Hdd) as (_ & _ & Hk). destruct (Hk n) as [-> _].
      * intros (name & Ho & Hno & Hp)%prunable_named. by apply Hno, Hnamed.
      * done.
  - intros He Hh Ht n Ho Hn. destruct Hspec as [(_ & _ & ?)|[_ Hdone]]; [done|]. by apply elem_of_keep_names, Hdone.
Qed.

(** C10: preparing a compaction copies the live documents.  It may overlap writes,
    flushes and publications, and touches neither the collection in memory nor what is
    published: a crash at any point leaves a disk that opens to the same
    contents when the log was synchronized.  When it reports no error, the
    purged versions are exactly those that were deleted when the compaction
    began, and the replacements hold the other documents of the inputs, in
    order, cut into runs that fit a segment. *)
Theorem compaction_prepares_copies io p c d tr d' c' p' err :
  reaches (Some p) c d -> log_room c 0 -> p_prepared p = false -> unused p ->
  Prepare dir CtxLive io p c d = (tr, (d', (c', (p', err)))) ->
  (forall dd d2 options, dd ∈ tr -> disk_crash dd d2 -> opt_ReadOnly options = false ->
     exists c2, opens_to options d2 c2 /\ reachable_synced c2 d2 /\
       (w_dirtyRecords (c_wal c) = 0 -> w_poisoned (c_wal c) = None -> contents (abs (c_manager c2)) = contents (abs (c_manager c)))) /\
  reaches (Some p') c' d' /\ c_manager c' = c_manager c /\ c_versions c' = c_versions c /\
  let documents := segment_documents (p_inputs p) in
  (err = None -> p_prepared p' = true /\ p_purged p' = (DocID <$> filter (fun x => DocID x ∈ p_deletes p) documents) /\
     (p_changed p' = true -> im_docs <$> p_outputs p' =
        rewriteDocumentRuns (filter (fun x => DocID x ∉ p_deletes p) documents) (mf_SegmentMaxDocuments (p_manifest p)))).
Proof.
  intros Hr Hroom Hp Hn H. destruct (reaches_inv _ c d Hr) as (base & ops & lost & Hinv & Hu). specialize (Hu p eq_refl).
  pose proof Hroom as Hb. unfold log_room in Hb. rewrite (store_lsn _ _ _ _ _ Hinv) in Hb. assert (zlen ops + 2 < u64_max) as Hb' by lia.
  destruct (Prepare_spec io p c d base ops lost tr d' c' p' err Hinv Hb' Hp (uw_begun _ _ _ _ Hu Hp Hn) H) as (Hcr & _ & Hm & Hv & _ & _ & Hc).
  split; [|split; [|done]].
  - intros dd d2 options Hdd. apply (kept_reopens (CPrepare io) p c d tr (d', (c', p')) dd); try done; [|by apply Hcr].
    cbn [run_compaction]. by rewrite H.
  - apply (ReachCompact (CPrepare io) p c d tr d' c' p' Hr Hroom); [done| |done]. cbn [run_compaction]. by rewrite H.
Qed.

(** C9: committing a compaction keeps every live document.  Since the compaction
    was begun the collection may have been written to, flushed and given new
    schemas and index snapshots, in any order, each publication synchronizing the
    directory of [CURRENT] (and a flush only beside a compaction that has no files
    but its replacements).  Whatever the system calls of the commit answer and
    wherever a crash strikes, the disk opens, to the same contents when the log
    was synchronized.  A commit changes neither the contents nor the log: it drops
    exactly the purged versions and their deletions.  One that fails reports an
    error and leaves the collection and the compaction. *)
Theorem compaction_crash_safe io indexes p c d tr d' c' p' com err :
  reaches (Some p) c d -> log_room c 0 -> Forall index_encodable indexes ->
  Commit CtxLive io indexes p c d = (tr, (d', (c', (p', (com, err))))) ->
  let P : gset Z := list_to_set (p_purged p) in
  (forall dd d2 options, dd ∈ tr -> disk_crash dd d2 -> opt_ReadOnly options = false ->
     exists c2, opens_to options d2 c2 /\ reachable_synced c2 d2 /\
       (w_dirtyRecords (c_wal c) = 0 -> w_poisoned (c_wal c) = None -> contents (abs (c_manager c2)) = contents (abs (c_manager c)))) /\
  if com
  then committed c c' = true /\ safe d' (contents (abs (c_manager c))) /\
       contents (abs (c_manager c')) = contents (abs (c_manager c)) /\ w_lastLSN (c_wal c') = w_lastLSN (c_wal c) /\
       (forall x, x ∈ sg_stored (c_manager c') <-> x ∈ sg_stored (c_manager c) /\ DocID x ∉ P) /\
       sg_deletes (c_manager c') = sg_deletes (c_manager c) ∖ P
  else err <> None /\ p' = p /\ c_manager c' = c_manager c /\ c_versions c' = c_versions c.
Proof.
  intros Hr Hroom Hidx H P. destruct (reaches_inv _ c d Hr) as (base & ops & lost & Hinv & Hu). specialize (Hu p eq_refl).
  pose proof Hroom as Hb. unfold log_room in Hb. rewrite (store_lsn _ _ _ _ _ Hinv) in Hb. assert (zlen ops + 2 < u64_max) as Hb' by lia.
  destruct (Commit_under_way io indexes p c d base ops lost tr d' c' p' com err Hinv Hb' Hu Hidx H) as ([Hcr Hcom Href] & _ & Hp').
  split.
  - intros dd d2 options Hdd. apply (kept_reopens (CCommit io indexes) p c d tr (d', (c', p')) dd); try done; [|by apply Hcr].
    cbn [run_compaction]. by rewrite H.
  - destruct com; [|destruct (Href eq_refl) as (_ & Hm & Hv & He & _); destruct (Hp' eq_refl); done].
    destruct (Hcom eq_refl) as (_ & H1 & H2 & H3 & H4 & H5 & _). split; [done|]. split; [done|]. split; [done|]. split; [|done].
    exact (Commit_log io indexes p c d tr d' c' p' true err H).
Qed.
End maintenance_safety.

(** ** Witnesses *)
#[local] Existing Instance ex_setting.

Definition ex_rewrite_io : rewrite_io (DB := gmap bytes bytes) :=
  {| rw_sync := io_fine; rw_working := None; rw_segment := fun _ => ex_artifact_io; rw_idmap := ex_artifact_io;
     rw_deletes := ex_artifact_io; rw_walDir := None; rw_walIO := io_fine; rw_wal := ex_artifact_io; rw_removed := true;
     rw_publish := ex_io; rw_closeWAL := io_fine; rw_unmap := fun _ => None; rw_closePrimary := None; rw_removeWorking := None |}.
Definition ex_documents : list StoredDocument :=
  [{| DocID := 0; PrimaryKey := [x61]; doc_Payload := [x07] |}; {| DocID := 1; PrimaryKey := [x62]; doc_Payload := [] |}].
Definition ex_rewrite (c : CollectionStore (gmap bytes bytes)) d :=
  RewriteDocuments dir go_range CtxLive ex_rewrite_io (bs "{}") ex_documents c d.

Lemma ex_schema_nested : schema_nested (bs "{}").
Proof. exists []. split; vm_compute; reflexivity. Qed.

Lemma rewrite_crash_safe_witness :
  match ex_creation with
  | (_, (d, (Some c, None))) =>
      match ex_rewrite (ex_writes c).1 d with
      | (tr, (d', (c', (com, err)))) => length tr = 19%nat /\ com = true /\
          contents (abs (c_manager c')) = rewritten_contents ex_documents /\
          forall dd d2, dd ∈ tr -> disk_crash dd d2 -> exists c2, opens_to ex_options d2 c2
      end
  | _ => False
  end.
Proof.
  pose proof ex_written_reachable as Hw.
  assert (match ex_creation with (_, (d, (Some c, None))) =>
    match ex_rewrite (ex_writes c).1 d with (tr, (_, (_, (com, _)))) => (length tr =? 19)%nat && com end | _ => false end = true) as Hok
    by (vm_compute; reflexivity).
  destruct ex_creation as [tr [d [[c|] err]]]; [|done]. destruct err; [done|]. destruct Hw as (Hr & Hroom & _). unfold ex_rewrite in *.
  destruct (RewriteDocuments _ _ _ _ _ _ _ d) as [tr' [d' [c' [com err]]]] eqn:Ef.
  apply andb_true_iff in Hok as [Hlen Hcom]. apply Nat.eqb_eq in Hlen. subst com.
  destruct (rewrite_crash_safe ex_rewrite_io (bs "{}") ex_documents (ex_writes c).1 d tr' d' c' true err Hr Hroom ex_schema_nested Ef)
    as (Hcr & _ & _ & HC & _).
  split; [done|]. split; [done|]. split; [exact HC|]. intros dd d2 Hdd Hc.
  destruct (Hcr dd d2 ex_options Hdd Hc eq_refl) as (c2 & Ho & _). by exists c2.
Defined.

Definition ex_schema : bytes := bs "{" ++ [x22] ++ bs "a" ++ [x22] ++ bs ":1}".
Definition ex_publication : publication := PublishSchema false ex_schema None.
Lemma publication_crash_safe_witness :
  match ex_creation with
  | (_, (d, (Some c, None))) =>
      match run_publication ex_io ex_publication (ex_writes c).1 d with
      | (tr, (d', (c', (com, err)))) => tr <> [] /\ com = true /\ mf_Schema (vm_current (c_versions c')) = ex_schema /\
          forall dd d2, dd ∈ tr -> disk_crash dd d2 -> exists c2, opens_to ex_options d2 c2
      end
  | _ => False
  end.
Proof.
  pose proof ex_written_reachable as Hw.
  assert (match ex_creation with (_, (d, (Some c, None))) =>
    match run_publication ex_io ex_publication (ex_writes c).1 d with
    | (_ :: _, (_, (c', (com, _)))) => bytes_eqb (mf_Schema (vm_current (c_versions c'))) (ex_schema) && com | _ => false end | _ => false end = true) as Hok
    by (vm_compute; reflexivity).
  destruct ex_creation as [tr [d [[c|] err]]]; [|done]. destruct err; [done|]. destruct Hw as (Hr & Hroom & _).
  destruct (run_publication _ _ _ d) as [tr' [d' [c' [com err]]]] eqn:Ef. destruct tr' as [|d0 tr']; [done|].
  apply andb_true_iff in Hok as [Hs%bytes_eqb_eq Hcom]. subst com.
  destruct (publication_crash_safe ex_io ex_publication (ex_writes c).1 d (d0 :: tr') d' c' true err Hr Hroom) as (Hcr & _);
    [|exact Ef|].
  - split; [exists []; split; vm_compute; reflexivity|constructor].
  - split; [done|]. split; [done|]. split; [done|]. intros dd d2 Hdd Hc.
    destruct (Hcr dd d2 ex_options Hdd Hc eq_refl) as (c2 & Ho & _). by exists c2.
Defined.

(** A flush leaves the old checkpoint and its log behind. *)
Definition ex_prune_io : prune_io :=
  {| pi_list := fun _ => None; pi_lstat := fun _ => None; pi_remove := fun _ => None; pi_left := fun _ => false;
     pi_sync := fun _ => None; pi_rmdir := fun _ => None; pi_order := elements |}.
Definition ex_flushed (c : CollectionStore (gmap bytes bytes)) d := Flush dir CtxLive ex_flush_io (ex_writes c).1 d.
Definition ex_tree (d : disk (gmap bytes bytes)) : bool :=
  forallb (fun a => forallb (fun b => bool_decide (below a b = None)) (disk_names d)) (disk_names d).
Lemma ex_tree_ok d : ex_tree d = true -> disk_tree d.
Proof.
  intros H a f b Ha Hb. unfold ex_tree in H. rewrite forallb_forall in H. specialize (H a). rewrite forallb_forall in H.
  specialize (H (proj1 (list_elem_of_In _ _) (proj2 (elem_of_disk_names d a) (ex_intro _ _ Ha))) b
    (proj1 (list_elem_of_In _ _) (proj2 (elem_of_disk_names d b) Hb))). by apply bool_decide_eq_true in H.
Qed.
Lemma prune_exact_witness :
  match ex_creation with
  | (_, (d, (Some c, None))) =>
      match ex_flushed c d with
      | (_, (d1, (c1, None))) =>
          match PruneObsoleteArtifacts CtxLive ex_prune_io c1 d1 with
          | (tr, (d2, err)) => err = None /\ (length (disk_names d1) = 7 /\ length (disk_names d2) = 4)%nat /\ 
              (forall n, owned n -> n ∈ disk_names d2 -> named (vm_current (c_versions c1)) n) /\
              forall d3, disk_crash (with_log c1 d2) d3 -> exists c2, opens_to ex_options d3 c2
          end
      | _ => False
      end
  | _ => False
  end.
Proof.
  pose proof ex_written_reachable as Hw.
  assert (match ex_creation with (_, (d, (Some c, None))) => match ex_flushed c d with (_, (d1, (c1, None))) =>
    match PruneObsoleteArtifacts CtxLive ex_prune_io c1 d1 with
    | (tr, (d2, None)) => (length (disk_names d1) =? 7)%nat && ((length (disk_names d2) =? 4)%nat && ((w_lastLSN (c_wal c1) =? 0) && ex_tree (with_log c1 d1)))
    | _ => false end | _ => false end | _ => false end = true) as Hok by (vm_compute; reflexivity).
  destruct ex_creation as [tr [d [[c|] err]]]; [|done]. destruct err; [done|]. destruct Hw as (Hr & Hroom & _). unfold ex_flushed in *.
  destruct (Flush _ _ _ _ d) as [tr' [d1 [c1 err]]] eqn:Ef. destruct err; [done|].
  destruct (PruneObsoleteArtifacts CtxLive ex_prune_io c1 d1) as [ptr [d2 err]] eqn:Ep. destruct err; [done|].
  apply andb_true_iff in Hok as [H1%Nat.eqb_eq [H2%Nat.eqb_eq [H3 H4%ex_tree_ok]%andb_true_iff]%andb_true_iff].
  assert (reachable_synced c1 d1) as Hr1.
  { destruct Hr as [o Hr]. exists None. apply (ReachMaintain o (MFlush ex_flush_io) (ex_writes c).1 d tr' d1 c1 Hr Hroom I); [|done]. cbn [run_maintenance]. by rewrite Ef. }
  apply Z.eqb_eq in H3. assert (log_room c1 0) as Hroom1 by (unfold log_room; rewrite H3; vm_compute; reflexivity).
  destruct (prune_exact CtxLive ex_prune_io c1 d1 ptr d2 None Hr1 Hroom1 Ep) as [Hall Hdone].
  split; [done|]. split; [done|]. split; [apply Hdone; [done|by split|done]|]. intros d3 Hc.
  destruct (proj1 (Hall d2 ltac:(by left)) d3 ex_options Hc eq_refl) as (c2 & Ho & _). by exists c2.
Defined.

(** Two documents, one of them deleted, both flushed: a compaction begins. *)
Definition ex_delete (c : CollectionStore (gmap bytes bytes)) := store_Delete false (fun _ => CtxLive) (fun _ => io_fine) [[x61]] c.
Definition ex_begun : option (Compaction * CollectionStore (gmap bytes bytes) * disk (gmap bytes bytes)) :=
  match ex_creation with
  | (_, (d, (Some c, None))) =>
      match ex_flushed c d with
      | (_, (d1, (c1, None))) =>
          match Flush dir CtxLive ex_flush_io (ex_delete c1).1 d1 with
          | (_, (d2, (c2, None))) => match BeginCompaction CtxLive c2 with Ok p => Some (p, c2, d2) | Fail _ => None end
          | _ => None
          end
      | _ => None
      end
  | _ => None
  end.
Lemma flush_reachable (c c' : CollectionStore (gmap bytes bytes)) d d' tr err :
  reachable_synced c d -> log_room c 0 -> Flush dir CtxLive ex_flush_io c d = (tr, (d', (c', err))) -> reachable_synced c' d'.
Proof.
  intros [o Hr] Hroom H. exists None. apply (ReachMaintain o (MFlush ex_flush_io) c d tr d' c' Hr Hroom I); [|done].
  cbn [run_maintenance]. by rewrite H.
Qed.
Lemma ex_begun_reaches :
  match ex_begun with
  | Some (p, c, d) => reaches (Some p) c d /\ w_lastLSN (c_wal c) = 0 /\ p_prepared p = false /\ unused p
  | None => False
  end.
Proof.
  pose proof ex_written_reachable as Hw. unfold ex_begun.
  assert (match ex_creation with (_, (d, (Some c, None))) => match ex_flushed c d with (_, (d1, (c1, None))) =>
    (w_lastLSN (c_wal c1) =? 0) && ((w_lastLSN (c_wal (ex_delete c1).1) =? 1) &&
    match Flush dir CtxLive ex_flush_io (ex_delete c1).1 d1 with
    | (_, (d2, (c2, None))) => (w_lastLSN (c_wal c2) =? 0) && match BeginCompaction CtxLive c2 with Ok _ => true | Fail _ => false end
    | _ => false end) | _ => false end | _ => false end = true) as Hok by (vm_compute; reflexivity).
  destruct ex_creation as [tr [d [[c|] err]]]; [|done]. destruct err; [done|]. destruct Hw as (Hr & Hroom & _). unfold ex_flushed in *.
  destruct (Flush _ _ _ _ d) as [tr1 [d1 [c1 err]]] eqn:E1. destruct err; [done|].
  destruct (ex_delete c1) as [cd r] eqn:Ed. cbn [fst] in *. apply andb_true_iff in Hok as [Hl1 Hok]. apply andb_true_iff in Hok as [Hl2 Hok].
  destruct (Flush _ _ _ cd d1) as [tr2 [d2 [c2 err]]] eqn:E2. destruct err; [done|].
  destruct (BeginCompaction CtxLive c2) as [p|] eqn:Eb; [|by rewrite andb_false_r in Hok]. apply andb_true_iff in Hok as [Hl3 _]. to_prop.
  pose proof (flush_reachable _ _ _ _ _ _ Hr Hroom E1) as [o Hr1].
  assert (reachable_synced cd d1) as Hrd.
  { exists o. apply (ReachWrite o false (fun _ => CtxLive) (fun _ => io_fine) (BatchDelete [[x61]]) c1 d1 cd r Hr1); [|done].
    unfold log_room. rewrite Hl1. vm_compute. reflexivity. }
  assert (reachable_synced c2 d2) as [o2 Hr2].
  { apply (flush_reachable cd c2 d1 d2 tr2 None Hrd); [|done]. unfold log_room. rewrite Hl2. vm_compute. reflexivity. }
  split; [by apply (ReachBegin o2)|]. split; [done|]. unfold BeginCompaction in Eb. cbn [ctx_guard] in Eb.
  repeat (case_in Eb; try discriminate Eb); by injection Eb as <-.
Qed.

Definition ex_copies (p : Compaction) (c : CollectionStore (gmap bytes bytes)) d := Prepare dir CtxLive (fun _ => ex_artifact_io) p c d.
Lemma compaction_prepares_copies_witness :
  match ex_begun with
  | Some (p, c, d) =>
      match ex_copies p c d with
      | (tr, (d', (c', (p', err)))) => tr <> [] /\ err = None /\ reaches (Some p') c' d' /\
          p_purged p' = (DocID <$> filter (fun x => DocID x ∈ p_deletes p) (segment_documents (p_inputs p))) /\ p_purged p' = [0]
      end
  | None => False
  end.
Proof.
  pose proof ex_begun_reaches as Hb.
  assert (match ex_begun with Some (p, c, d) => match ex_copies p c d with
    | (_ :: _, (_, (_, (p', None)))) => bool_decide (p_purged p' = [0]) | _ => false end | None => false end = true) as Hok by (vm_compute; reflexivity).
  destruct ex_begun as [[[p c] d]|]; [|done]. destruct Hb as (Hr & Hl & Hp & Hn). unfold ex_copies in *.
  destruct (Prepare _ _ _ p c d) as [tr [d' [c' [p' err]]]] eqn:E. destruct tr as [|d0 tr]; [done|]. destruct err; [done|].
  apply bool_decide_eq_true in Hok.
  destruct (compaction_prepares_copies (fun _ => ex_artifact_io) p c d (d0 :: tr) d' c' p' None Hr) as (_ & Hr' & _ & _ & Hc); [|done|done|exact E|].
  { unfold log_room. rewrite Hl. vm_compute. reflexivity. }
  destruct (Hc eq_refl) as (_ & Hpu & _). split; [done|]. split; [done|]. split; [exact Hr'|]. split; [exact Hpu|exact Hok].
Defined.

(** A document is inserted while the compaction is open, which then commits. *)
Definition ex_commit_io : commit_io (DB := gmap bytes bytes) :=
  {| cm_deletes := ex_artifact_io; cm_removed := true; cm_sync := io_fine; cm_publish := ex_io; cm_unmap := fun _ => None |}.
Definition ex_insert (c : CollectionStore (gmap bytes bytes)) :=
  store_Insert false (fun _ => CtxLive) (fun _ => io_fine) [{| in_PrimaryKey := [x63]; in_Payload := [x09] |}] c.
Lemma compaction_crash_safe_witness :
  match ex_begun with
  | Some (p, c, d) =>
      match ex_copies p c d with
      | (_, (d1, (c1, (p1, None)))) =>
          let c2 := (ex_insert c1).1 in
          match Commit CtxLive ex_commit_io [] p1 c2 d1 with
          | (tr, (d', (c', (p', (com, err))))) => length tr = 12%nat /\ com = true /\
              contents (abs (c_manager c')) = contents (abs (c_manager c2)) /\ sg_deletes (c_manager c') = sg_deletes (c_manager c2) ∖ {[0]} /\
              forall dd d2, dd ∈ tr -> disk_crash dd d2 -> exists c3, opens_to ex_options d2 c3
          end
      | _ => False
      end
  | None => False
  end.
Proof.
  pose proof ex_begun_reaches as Hb.
  assert (match ex_begun with Some (p, c, d) => match ex_copies p c d with
    | (_, (d1, (c1, (p1, None)))) => bool_decide (p_purged p1 = [0]) && ((w_lastLSN (c_wal c1) =? 0) && ((w_lastLSN (c_wal (ex_insert c1).1) =? 1) &&
        match Commit CtxLive ex_commit_io [] p1 (ex_insert c1).1 d1 with (tr, (_, (_, (_, (com, _))))) => (length tr =? 12)%nat && com end))
    | _ => false end | None => false end = true) as Hok by (vm_compute; reflexivity).
  destruct ex_begun as [[[p c] d]|]; [|done]. destruct Hb as (Hr & Hl & Hp & Hn). unfold ex_copies in *.
  destruct (Prepare _ _ _ p c d) as [tr [d1 [c1 [p1 err]]]] eqn:E. destruct err; [done|]. cbv zeta.
  destruct (ex_insert c1) as [c2 r] eqn:Ei. cbn [fst] in *. apply andb_true_iff in Hok as [Hpu Hok]. apply andb_true_iff in Hok as [Hl1 Hok].
  apply andb_true_iff in Hok as [Hl2 Hok]. to_prop. apply bool_decide_eq_true in Hpu.
  destruct (Commit _ _ _ p1 c2 d1) as [tr' [d' [c' [p' [com err]]]]] eqn:Ec.
  apply andb_true_iff in Hok as [Hlen Hcom]. apply Nat.eqb_eq in Hlen. subst com.
  assert (reaches (Some p1) c1 d1) as Hr1.
  { apply (ReachCompact (CPrepare (fun _ => ex_artifact_io)) p c d tr d1 c1 p1 Hr); [unfold log_room; rewrite Hl; vm_compute; reflexivity|by split| |done].
    cbn [run_compaction]. by rewrite E. }
  assert (reaches (Some p1) c2 d1) as Hr2.
  { apply (ReachWrite (Some p1) false (fun _ => CtxLive) (fun _ => io_fine) (BatchInsert [{| in_PrimaryKey := [x63]; in_Payload := [x09] |}])
      c1 d1 c2 r Hr1); [|exact Ei].
    unfold log_room. rewrite Hl1. vm_compute. reflexivity. }
  destruct (compaction_crash_safe ex_commit_io [] p1 c2 d1 tr' d' c' p' true err Hr2) as (Hcr & _ & _ & HC & _ & _ & Hd); [|constructor|exact Ec|].
  { unfold log_room. rewrite Hl2. vm_compute. reflexivity. }
  split; [done|]. split; [done|]. split; [exact HC|]. split; [rewrite Hd, Hpu; set_solver|]. intros dd d2 Hdd Hc.
  destruct (Hcr dd d2 ex_options Hdd Hc eq_refl) as (c3 & Ho & _). by exists c3.
Defined.
