(* ===== verification/Bitmap.v ===== *)
(** * Compressed bitmaps: [internal/ailego/container/bitmap.go]

    A set of row numbers: up to two in line, more in a Roaring bitmap, and the
    length of its dense form in words.  Roaring is a package of its own: the
    class [Roaring] has the operations that the code calls, [RoaringLaws] what
    its documentation promises, and finite sets are an instance.

    A bit is a [uint64]; on a 64-bit platform the index of its word is below
    2^58 ([bitmapWordIndex_bound]), so that the overflow panics of
    [bitmapWordIndex] and [wordsForBits] are unreachable and not modelled. *)
From S2P Require Import Prelude.
From stdpp Require Import sorting.
#[local] Open Scope Z_scope.

(** ** Roaring bitmaps *)
Class Roaring (R : Type) := {
  ro_NewBitmap : R;
  ro_Contains : R -> Z -> bool;
  ro_CheckedAdd : R -> Z -> R * bool;
  ro_CheckedRemove : R -> Z -> R * bool;
  ro_AddMany : R -> list Z -> R;
  ro_GetCardinality : R -> Z;
  ro_IsEmpty : R -> bool;
  ro_Maximum : R -> Z;
  ro_Or : R -> R -> R;
  ro_And : R -> R -> R;
  ro_AndNot : R -> R -> R;
  ro_Iterator : R -> list Z
}.
Class RoaringLaws (R : Type) `{Roaring R} := {
  ro_set : R -> gset Z;
  ro_new : ro_set ro_NewBitmap = ∅;
  ro_contains r bit : ro_Contains r bit = bool_decide (bit ∈ ro_set r);
  ro_add r bit : ro_set (ro_CheckedAdd r bit).1 = {[bit]} ∪ ro_set r /\ (ro_CheckedAdd r bit).2 = bool_decide (bit ∉ ro_set r);
  ro_remove r bit : ro_set (ro_CheckedRemove r bit).1 = ro_set r ∖ {[bit]} /\ (ro_CheckedRemove r bit).2 = bool_decide (bit ∈ ro_set r);
  ro_addMany r l : ro_set (ro_AddMany r l) = list_to_set l ∪ ro_set r;
  ro_cardinality r : ro_GetCardinality r = Z.of_nat (size (ro_set r));
  ro_isEmpty r : ro_IsEmpty r = bool_decide (ro_set r = ∅);
  ro_maximum r : ro_set r <> ∅ -> ro_Maximum r ∈ ro_set r /\ forall x, x ∈ ro_set r -> x <= ro_Maximum r;
  ro_or r s : ro_set (ro_Or r s) = ro_set r ∪ ro_set s;
  ro_and r s : ro_set (ro_And r s) = ro_set r ∩ ro_set s;
  ro_andNot r s : ro_set (ro_AndNot r s) = ro_set r ∖ ro_set s;
  ro_iterator r : StronglySorted Z.lt (ro_Iterator r) /\ list_to_set (ro_Iterator r) = ro_set r
}.

Section bitmap.
Context {R : Type} `{Roaring R}.

(** ** Contents *)
Record bitmapContents := { bc_large : option R; bc_small : list Z; bc_size : nat }.
Definition no_contents : bitmapContents := {| bc_large := None; bc_small := [0; 0]; bc_size := 0 |}.
Implicit Types c o : bitmapContents.

Definition bc_live c : list Z := take (bc_size c) (bc_small c).
Definition small_at (small : list Z) (pos : nat) : Z := default 0 (small !! pos).

Definition bc_contains c (bit : Z) : bool :=
  match bc_large c with
  | Some large => ro_Contains large bit
  | None => existsb (fun v => v =? bit) (bc_live c)
  end.
Definition bc_count c : Z :=
  match bc_large c with
  | Some large => ro_GetCardinality large
  | None => Z.of_nat (bc_size c)
  end.
Definition bc_within c (bitCount : Z) : bool :=
  match bc_large c with
  | Some large => ro_IsEmpty large || ((0 <? bitCount) && (ro_Maximum large <? bitCount))
  | None => Nat.eqb (bc_size c) 0 || (small_at (bc_small c) (bc_size c - 1) <? bitCount)
  end.
Definition bc_promote c : bitmapContents :=
  match bc_large c with
  | None => {| bc_large := Some (ro_AddMany ro_NewBitmap (bc_live c)); bc_small := [0; 0]; bc_size := 0 |}
  | Some _ => c
  end.

(** The loop that makes room for [bit] among the ordered ones before [pos]. *)
Fixpoint shift_small (small : list Z) (pos : nat) (bit : Z) : list Z * nat :=
  match pos with
  | O => (small, O)
  | S before =>
      if bit <? small_at small before
      then shift_small (<[pos := small_at small before]> small) before bit
      else (small, pos)
  end.
Definition add_large c (bit : Z) : bitmapContents * bool :=
  match bc_large c with
  | Some large =>
      let '(large, added) := ro_CheckedAdd large bit in
      ({| bc_large := Some large; bc_small := bc_small c; bc_size := bc_size c |}, added)
  | None => (c, false)
  end.
Definition bc_add c (bit : Z) : bitmapContents * bool :=
  match bc_large c with
  | Some _ => add_large c bit
  | None =>
      if bc_contains c bit then (c, false)
      else if Nat.eqb (bc_size c) (length (bc_small c)) then add_large (bc_promote c) bit
      else
        let '(small, pos) := shift_small (bc_small c) (bc_size c) bit in
        ({| bc_large := None; bc_small := <[pos := bit]> small; bc_size := S (bc_size c) |}, true)
  end.

Fixpoint position (l : list Z) (bit : Z) (pos : nat) : option nat :=
  match l with
  | [] => None
  | v :: l => if v =? bit then Some pos else position l bit (S pos)
  end.
(** [copy(small[pos:], small[pos+1:size])]. *)
Definition copy_down (small : list Z) (pos size : nat) : list Z :=
  let source := drop (S pos) (take size small) in
  take pos small ++ source ++ drop (pos + length source) small.
Definition bc_remove c (bit : Z) : bitmapContents * bool :=
  match bc_large c with
  | Some large =>
      let '(large, removed) := ro_CheckedRemove large bit in
      ({| bc_large := Some large; bc_small := bc_small c; bc_size := bc_size c |}, removed)
  | None =>
      match position (bc_live c) bit 0 with
      | Some pos =>
          let size := (bc_size c - 1)%nat in
          ({| bc_large := None; bc_small := <[size := 0]> (copy_down (bc_small c) pos (bc_size c)); bc_size := size |}, true)
      | None => (c, false)
      end
  end.

(** What [rangeBits] offers its callback, which can stop it. *)
Definition bc_bits c : list Z := match bc_large c with Some large => ro_Iterator large | None => bc_live c end.
Fixpoint range_bits {S} (yield : Z -> S -> S * bool) (l : list Z) (s : S) : S :=
  match l with
  | [] => s
  | v :: l => let '(s, more) := yield v s in if more then range_bits yield l s else s
  end.
Definition bc_rangeBits {S} (yield : Z -> S -> S * bool) c (s : S) : S := range_bits yield (bc_bits c) s.

Definition add_all_bits (l : list Z) c : bitmapContents := foldl (fun c v => (bc_add c v).1) c l.
Definition remove_all_bits (l : list Z) c : bitmapContents := foldl (fun c v => (bc_remove c v).1) c l.

Definition bc_or c o : bitmapContents :=
  match bc_large o with
  | None => add_all_bits (bc_live o) c
  | Some large =>
      if ro_IsEmpty large then c
      else match bc_large (bc_promote c) with
      | Some mine => {| bc_large := Some (ro_Or mine large); bc_small := bc_small (bc_promote c); bc_size := bc_size (bc_promote c) |}
      | None => bc_promote c
      end
  end.
Definition bc_and c o : bitmapContents :=
  match bc_large c, bc_large o with
  | Some mine, Some large => {| bc_large := Some (ro_And mine large); bc_small := bc_small c; bc_size := bc_size c |}
  | None, _ => add_all_bits (filter (fun v => bc_contains o v = true) (bc_live c)) no_contents
  | Some _, None => add_all_bits (filter (fun v => bc_contains c v = true) (bc_live o)) no_contents
  end.
Definition bc_andNot c o : bitmapContents :=
  match bc_large c, bc_large o with
  | Some mine, Some large => {| bc_large := Some (ro_AndNot mine large); bc_small := bc_small c; bc_size := bc_size c |}
  | _, None => remove_all_bits (bc_live o) c
  | None, Some _ => add_all_bits (filter (fun v => bc_contains o v = false) (bc_live c)) no_contents
  end.

(** ** Bitmaps *)
Record Bitmap := { bm_contents : bitmapContents; bm_logicalWords : Z }.
Implicit Types b : Bitmap.

Definition bitmapWordIndex (bit : Z) : Z := Z.shiftr bit 6.
Definition wordsForBits (bitCount : Z) : Z := if bitCount =? 0 then 0 else (bitCount - 1) / 64 + 1.

Definition NewBitmap (bitCount : Z) : Bitmap := {| bm_contents := no_contents; bm_logicalWords := wordsForBits bitCount |}.
Definition bm_Set (bit : Z) b : Bitmap * bool :=
  let word := bitmapWordIndex bit in
  let '(contents, added) := bc_add (bm_contents b) bit in
  ({| bm_contents := contents; bm_logicalWords := Z.max (bm_logicalWords b) (word + 1) |}, added).
Definition bm_Clear (bit : Z) b : Bitmap * bool :=
  let '(contents, removed) := bc_remove (bm_contents b) bit in
  ({| bm_contents := contents; bm_logicalWords := bm_logicalWords b |}, removed).
Definition bm_Contains (bit : Z) b : bool := bc_contains (bm_contents b) bit.
Definition bm_Count b : Z := bc_count (bm_contents b).

(** The other bitmap of a binary operation, which may be the receiver. *)
Inductive operand := OperandNil | OperandSelf | OperandOther (other : Bitmap).
Definition bm_Or (other : operand) b : Bitmap :=
  match other with
  | OperandOther o =>
      {| bm_contents := bc_or (bm_contents b) (bm_contents o); bm_logicalWords := Z.max (bm_logicalWords b) (bm_logicalWords o) |}
  | _ => b
  end.
Definition bm_And (other : operand) b : Bitmap :=
  match other with
  | OperandSelf => b
  | OperandNil => {| bm_contents := bc_and (bm_contents b) no_contents; bm_logicalWords := bm_logicalWords b |}
  | OperandOther o => {| bm_contents := bc_and (bm_contents b) (bm_contents o); bm_logicalWords := bm_logicalWords b |}
  end.
Definition bm_AndNot (other : operand) b : Bitmap :=
  match other with
  | OperandNil => b
  | OperandSelf => {| bm_contents := no_contents; bm_logicalWords := bm_logicalWords b |}
  | OperandOther o => {| bm_contents := bc_andNot (bm_contents b) (bm_contents o); bm_logicalWords := bm_logicalWords b |}
  end.

(** Frozen bitmaps are independent copies; merging one is [Or] of its contents. *)
Definition bm_Freeze b : Bitmap := b.
Definition bm_OrFrozen (other : option Bitmap) b : Bitmap :=
  match other with
  | None => b
  | Some o =>
      {| bm_contents := bc_or (bm_contents b) (bm_contents o); bm_logicalWords := Z.max (bm_logicalWords b) (bm_logicalWords o) |}
  end.

(** The dense form. *)
Definition mark_bit (bit : Z) (words : list Z) : list Z * bool :=
  (alter (fun word => Z.lor word (Z.shiftl 1 (Z.land bit 63))) (Z.to_nat (bitmapWordIndex bit)) words, true).
Definition snapshotWords (wordCount : Z) b : list Z :=
  if wordCount =? 0 then [] else bc_rangeBits mark_bit (bm_contents b) (replicate (Z.to_nat wordCount) 0).
(** [Range], whose callback may stop the loop. *)
Definition bm_Range {S} (yield : Z -> S -> S * bool) b (s : S) : S := bc_rangeBits yield (bm_contents b) s.
Definition bm_Snapshot b : list Z := snapshotWords (bm_logicalWords b) b.
Definition bm_SnapshotWithin (bitCount : Z) b : option (list Z) :=
  if negb (bc_within (bm_contents b) bitCount) then None
  else Some (snapshotWords (Z.min (bm_logicalWords b) (wordsForBits bitCount)) b).

(** [bits.TrailingZeros64] and the loop over the set bits of a word. *)
Fixpoint trailing_zeros (fuel : nat) (word : Z) : Z :=
  match fuel with
  | O => 0
  | S fuel => if Z.odd word then 0 else 1 + trailing_zeros fuel (Z.shiftr word 1)
  end.
Definition TrailingZeros64 (word : Z) : Z := trailing_zeros 64 word.
Fixpoint append_word_loop (fuel : nat) (base word : Z) c : bitmapContents :=
  match fuel with
  | O => c
  | S fuel =>
      if word =? 0 then c
      else append_word_loop fuel base (Z.land word (word - 1)) (bc_add c (base + TrailingZeros64 word)).1
  end.
Definition append_word (base word : Z) c : bitmapContents := append_word_loop 64 base word c.
Fixpoint append_words (base : Z) (words : list Z) c : bitmapContents :=
  match words with
  | [] => c
  | word :: words => append_words (base + 64) words (append_word base word c)
  end.
Definition maxInt : Z := 9223372036854775807.
Definition bm_AppendWords (words : list Z) b : option Bitmap :=
  if (maxInt - bm_logicalWords b <? zlen words) || (Z.shiftr u64_max 6 + 1 <? bm_logicalWords b + zlen words) then None
  else Some {| bm_contents := append_words (bm_logicalWords b * 64) words (bm_contents b);
               bm_logicalWords := bm_logicalWords b + zlen words |}.
End bitmap.
Arguments bitmapContents R : clear implicits.
Arguments Bitmap R : clear implicits.
Arguments operand R : clear implicits.

(** ** The set of a bitmap *)
Section bitmap_sets.
Context {R : Type} `{Hroaring : Roaring R} {Hlaws : RoaringLaws R}.
Implicit Types (c o : bitmapContents R) (b : Bitmap R).

Definition bc_set c : gset Z :=
  match bc_large c with Some large => ro_set large | None => list_to_set (bc_live c) end.
Record bc_inv c : Prop := {
  bi_length : length (bc_small c) = 2%nat;
  bi_size : (bc_size c <= 2)%nat;
  bi_sorted : StronglySorted Z.lt (bc_live c)
}.

(** Contents in line are none, one or two ordered numbers. *)
Lemma small_cases c :
  bc_inv c -> exists x y, bc_small c = [x; y] /\
    (bc_size c = 0%nat \/ bc_size c = 1%nat \/ (bc_size c = 2%nat /\ x < y)).
Proof.
  intros [Hl Hs Hsort]. unfold bc_live in Hsort. destruct (bc_small c) as [|x [|y [|]]]; try done. exists x, y. split; [done|].
  destruct (bc_size c) as [|[|[|n]]]; [by auto|by auto| |lia]. right. right. split; [done|].
  cbn in Hsort. apply StronglySorted_inv in Hsort as [_ Hf]. by apply Forall_cons in Hf as [? _].
Qed.
Ltac small_contents c Hc :=
  let x := fresh "x" in let y := fresh "y" in let Hs := fresh "Hs" in let Hn := fresh "Hn" in
  destruct (small_cases c Hc) as (x & y & Hs & Hn); destruct c as [large small size]; cbn in Hs, Hn; subst small;
  destruct Hn as [->|[->|[-> Hn]]].

Lemma no_contents_inv : bc_inv no_contents.
Proof. split; cbn; [done|lia|constructor]. Qed.
Lemma sorted_1 (x : Z) : StronglySorted Z.lt [x].
Proof. repeat constructor. Qed.
Lemma sorted_2 (x y : Z) : x < y -> StronglySorted Z.lt [x; y].
Proof. intros. by repeat constructor. Qed.

Lemma bc_contains_spec c bit : bc_contains c bit = bool_decide (bit ∈ bc_set c).
Proof.
  unfold bc_contains, bc_set. destruct (bc_large c) as [large|]; [apply ro_contains|]. apply eq_bool_prop_intro.
  rewrite bool_decide_spec, elem_of_list_to_set. rewrite Is_true_true, existsb_exists. split.
  - intros (v & Hv%list_elem_of_In & Heq). to_prop. by subst.
  - intros Hv%list_elem_of_In. exists bit. split; [done|]. apply Z.eqb_refl.
Qed.

Lemma bc_promote_spec c : bc_inv c -> bc_inv (bc_promote c) /\ bc_set (bc_promote c) = bc_set c /\ bc_large (bc_promote c) <> None.
Proof.
  intros Hc. unfold bc_promote, bc_set. destruct (bc_large c) as [large|] eqn:E; cbn.
  - rewrite E. by split.
  - split; [split; cbn; [done|lia|constructor]|]. rewrite ro_addMany, ro_new. split; [set_solver|done].
Qed.

Lemma add_large_spec c bit :
  bc_inv c -> bc_large c <> None -> let r := add_large c bit in
  bc_inv r.1 /\ bc_set r.1 = {[bit]} ∪ bc_set c /\ r.2 = bool_decide (bit ∉ bc_set c).
Proof.
  intros [H1 H2 H3] Hl. unfold add_large, bc_set. destruct (bc_large c) as [large|]; [|done].
  destruct (ro_add large bit) as [Ha Hb]. destruct (ro_CheckedAdd large bit) as [l a]. cbn in *. by split; [split|].
Qed.

Lemma bc_add_spec c bit :
  bc_inv c -> let r := bc_add c bit in
  bc_inv r.1 /\ bc_set r.1 = {[bit]} ∪ bc_set c /\ r.2 = bool_decide (bit ∉ bc_set c).
Proof.
  intros Hc. unfold bc_add. pose proof (bc_contains_spec c bit) as Hin. destruct (bc_large c) as [large|] eqn:E.
  { apply add_large_spec; [done|congruence]. }
  rewrite Hin. case_bool_decide as Hb; cbn; [split; [done|]; split; [set_solver|by rewrite bool_decide_false by tauto]|].
  destruct (Nat.eqb _ _) eqn:En.
  { destruct (bc_promote_spec c Hc) as (Hp & Hs & Hl). destruct (add_large_spec _ bit Hp Hl) as (H1 & H2 & H3). by rewrite Hs in H2, H3. }
  destruct (shift_small _ _ _) as [small pos] eqn:Es. cbn [fst snd]. rewrite bool_decide_true by done.
  destruct (shift_small (bc_small c) (bc_size c) bit) as [small' pos'] eqn:Es'. injection Es as <- <-.
  unfold bc_set, bc_live in Hb |- *. rewrite E in Hb |- *. clear Hin. small_contents c Hc; cbn in *; subst; cbn in *.
  - injection Es' as <- <-. cbn. split; [split; cbn; [done|lia|apply sorted_1]|]. split; [set_solver|done].
  - destruct (bit <? x) eqn:El; injection Es' as <- <-; cbn; to_prop; (split; [split; cbn; [done|lia|apply sorted_2; set_solver by lia]|split; [set_solver|done]]).
  - done.
Qed.

Lemma bc_remove_spec c bit :
  bc_inv c -> let r := bc_remove c bit in
  bc_inv r.1 /\ bc_set r.1 = bc_set c ∖ {[bit]} /\ r.2 = bool_decide (bit ∈ bc_set c).
Proof.
  intros Hc. unfold bc_remove, bc_set, bc_live. destruct (bc_large c) as [large|] eqn:E.
  { destruct (ro_remove large bit) as [Ha Hb]. destruct (ro_CheckedRemove large bit) as [l a]. destruct Hc as [H1 H2 H3].
    cbn in *. by split; [split|]. }
  small_contents c Hc; cbn in *; subst; cbn.
  - split; [done|]. split; [set_solver|done].
  - destruct (x =? bit) eqn:E1; to_prop; cbn.
    + split; [split; cbn; [done|lia|constructor]|]. split; [set_solver|by rewrite bool_decide_true by set_solver].
    + split; [done|]. split; [set_solver|by rewrite bool_decide_false by set_solver].
  - destruct (x =? bit) eqn:E1; to_prop; cbn; [|destruct (y =? bit) eqn:E2; to_prop; cbn].
    + split; [split; cbn; [done|lia|apply sorted_1]|]. split; [|by rewrite bool_decide_true by set_solver]. apply set_eq. set_solver by lia.
    + split; [split; cbn; [done|lia|apply sorted_1]|]. split; [|by rewrite bool_decide_true by set_solver]. apply set_eq. set_solver by lia.
    + split; [done|]. split; [set_solver|by rewrite bool_decide_false by set_solver].
Qed.

Lemma bc_bits_spec c : bc_inv c -> StronglySorted Z.lt (bc_bits c) /\ list_to_set (bc_bits c) = bc_set c.
Proof.
  intros Hc. unfold bc_bits, bc_set. destruct (bc_large c) as [large|] eqn:E; [apply ro_iterator|]. split; [apply Hc|done].
Qed.
Lemma sorted_lt_NoDup (l : list Z) : StronglySorted Z.lt l -> NoDup l.
Proof.
  induction 1 as [|x l Hl IH Hx]; [constructor|]. constructor; [|done]. intros Hin. rewrite Forall_forall in Hx.
  specialize (Hx x Hin). lia.
Qed.

Lemma bc_count_spec c : bc_inv c -> bc_count c = Z.of_nat (size (bc_set c)).
Proof.
  intros Hc. unfold bc_count. destruct (bc_large c) as [large|] eqn:E; [unfold bc_set; rewrite E; apply ro_cardinality|].
  unfold bc_set. rewrite E. rewrite size_list_to_set by apply sorted_lt_NoDup, Hc. unfold bc_live. rewrite length_take.
  destruct Hc as [Hl Hs _]. f_equal. rewrite Hl. lia.
Qed.

Lemma bc_within_spec c bitCount :
  bc_inv c -> 0 <= bitCount -> (forall x, x ∈ bc_set c -> 0 <= x) ->
  bc_within c bitCount = bool_decide (forall x, x ∈ bc_set c -> x < bitCount).
Proof.
  intros Hc Hn Hpos. unfold bc_within. unfold bc_set in *. destruct (bc_large c) as [large|] eqn:E.
  - rewrite ro_isEmpty. destruct (decide (ro_set large = ∅)) as [He|He].
    + rewrite He, bool_decide_true by done. cbn. symmetry. apply bool_decide_true. set_solver.
    + rewrite bool_decide_false by done. cbn. destruct (ro_maximum large He) as [Hin Hmax]. specialize (Hpos _ Hin).
      destruct (0 <? bitCount) eqn:E0; to_prop; cbn; [|symmetry; apply bool_decide_false; intros Hall; specialize (Hall _ Hin); lia].
      destruct (_ <? bitCount) eqn:E1; to_prop; symmetry.
      * apply bool_decide_true. intros x Hx. specialize (Hmax x Hx). lia.
      * apply bool_decide_false. intros Hall. specialize (Hall _ Hin). lia.
  - unfold bc_live in *. small_contents c Hc; cbn in *; subst; cbn; symmetry.
    + apply bool_decide_true. set_solver.
    + destruct (x <? bitCount) eqn:E1; to_prop; [apply bool_decide_true; set_solver|apply bool_decide_false]. intros Hall.
      specialize (Hall x). set_solver by lia.
    + destruct (y <? bitCount) eqn:E1; to_prop; [apply bool_decide_true; set_solver by lia|apply bool_decide_false]. intros Hall.
      specialize (Hall y). set_solver by lia.
Qed.

Lemma add_all_bits_spec l c :
  bc_inv c -> bc_inv (add_all_bits l c) /\ bc_set (add_all_bits l c) = list_to_set l ∪ bc_set c.
Proof.
  revert c. induction l as [|v l IH]; intros c Hc; [split; [done|set_solver]|]. cbn.
  destruct (bc_add_spec c v Hc) as (H1 & H2 & _). destruct (IH _ H1) as [H3 H4]. split; [done|]. unfold add_all_bits in H4. rewrite H4, H2. set_solver.
Qed.
Lemma remove_all_bits_spec l c :
  bc_inv c -> bc_inv (remove_all_bits l c) /\ bc_set (remove_all_bits l c) = bc_set c ∖ list_to_set l.
Proof.
  revert c. induction l as [|v l IH]; intros c Hc; [split; [done|set_solver]|]. cbn.
  destruct (bc_remove_spec c v Hc) as (H1 & H2 & _). destruct (IH _ H1) as [H3 H4]. split; [done|]. unfold remove_all_bits in H4. rewrite H4, H2. set_solver.
Qed.
Lemma bc_set_live c : bc_large c = None -> bc_set c = list_to_set (bc_live c).
Proof. intros E. unfold bc_set. by rewrite E. Qed.
Lemma no_contents_set : bc_set no_contents = ∅.
Proof. done. Qed.
Lemma filter_contains l o (keep : bool) :
  list_to_set (C := gset Z) (filter (fun v => bc_contains o v = keep) l) = list_to_set l ∩ (if keep then bc_set o else list_to_set l ∖ bc_set o).
Proof.
  apply set_eq. intros x. rewrite elem_of_list_to_set, list_elem_of_filter, elem_of_intersection, elem_of_list_to_set.
  rewrite bc_contains_spec. destruct keep; [rewrite bool_decide_eq_true; tauto|]. rewrite bool_decide_eq_false, elem_of_difference, elem_of_list_to_set. tauto.
Qed.

Lemma bc_or_spec c o : bc_inv c -> bc_inv o -> bc_inv (bc_or c o) /\ bc_set (bc_or c o) = bc_set c ∪ bc_set o.
Proof.
  intros Hc Ho. unfold bc_or. destruct (bc_large o) as [large|] eqn:E.
  2:{ destruct (add_all_bits_spec (bc_live o) c Hc) as [H1 H2]. split; [done|]. rewrite H2, (bc_set_live o E). set_solver. }
  assert (bc_set o = ro_set large) as -> by (unfold bc_set; by rewrite E). rewrite ro_isEmpty. case_bool_decide as He; [split; [done|set_solver]|].
  destruct (bc_promote_spec c Hc) as ([P1 P2 P3] & Hs & Hl). rewrite <- Hs. unfold bc_set.
  destruct (bc_large (bc_promote c)) as [mine|]; [|done]. cbn. split; [by split|]. by rewrite ro_or.
Qed.
Lemma bc_and_spec c o : bc_inv c -> bc_inv o -> bc_inv (bc_and c o) /\ bc_set (bc_and c o) = bc_set c ∩ bc_set o.
Proof.
  intros Hc Ho. unfold bc_and. destruct (bc_large c) as [mine|] eqn:Ec; [destruct (bc_large o) as [large|] eqn:Eo|].
  - unfold bc_set. cbn. rewrite Ec, Eo, ro_and. destruct Hc. by split.
  - destruct (add_all_bits_spec (filter (fun v => bc_contains c v = true) (bc_live o)) no_contents no_contents_inv) as [H1 H2].
    split; [done|]. rewrite H2, no_contents_set, filter_contains, <- (bc_set_live o Eo). set_solver.
  - destruct (add_all_bits_spec (filter (fun v => bc_contains o v = true) (bc_live c)) no_contents no_contents_inv) as [H1 H2].
    assert (bc_set c = list_to_set (bc_live c)) as Hs by by apply bc_set_live.
    split; [done|]. rewrite H2, no_contents_set, filter_contains, <- Hs. set_solver.
Qed.
Lemma bc_andNot_spec c o : bc_inv c -> bc_inv o -> bc_inv (bc_andNot c o) /\ bc_set (bc_andNot c o) = bc_set c ∖ bc_set o.
Proof.
  intros Hc Ho. unfold bc_andNot. destruct (bc_large o) as [large|] eqn:Eo.
  - destruct (bc_large c) as [mine|] eqn:Ec.
    + unfold bc_set. cbn. rewrite Ec, Eo, ro_andNot. destruct Hc. by split.
    + destruct (add_all_bits_spec (filter (fun v => bc_contains o v = false) (bc_live c)) no_contents no_contents_inv) as [H1 H2].
      split; [done|]. rewrite H2, no_contents_set, filter_contains, <- (bc_set_live c Ec). set_solver.
  - destruct (remove_all_bits_spec (bc_live o) c Hc) as [H1 H2]. rewrite <- (bc_set_live o Eo) in H2. by destruct (bc_large c).
Qed.

(** ** Words *)
Lemma trailing_zeros_spec fuel word :
  0 < word < 2 ^ Z.of_nat fuel -> let t := trailing_zeros fuel word in
  0 <= t < Z.of_nat fuel /\ Z.testbit word t = true /\ forall i, i < t -> Z.testbit word i = false.
Proof.
  revert word. induction fuel as [|fuel IH]; intros word Hw; [cbn in Hw; lia|]. cbn [trailing_zeros].
  destruct (Z.odd word) eqn:Eo.
  { cbv zeta. split; [lia|]. split; [by rewrite Z.bit0_odd|]. intros i Hi. by apply Z.testbit_neg_r. }
  assert (Z.even word = true) as Ev by (by rewrite <- Z.negb_odd, Eo). apply Z.even_spec in Ev as [q ->].
  assert (Z.shiftr (2 * q) 1 = q) as ->.
  { rewrite Z.shiftr_div_pow2 by lia. change (2 ^ 1) with 2. rewrite Z.mul_comm. apply Z.div_mul. lia. }
  destruct (IH q) as (H1 & H2 & H3); [split; [lia|]; rewrite Nat2Z.inj_succ, Z.pow_succ_r in Hw by lia; lia|].
  set (t := trailing_zeros fuel q) in *. cbv zeta. split; [lia|]. split.
  - rewrite Z.double_bits. by replace (Z.pred (1 + t)) with t by lia.
  - intros i Hi. rewrite Z.double_bits. apply H3. lia.
Qed.

Lemma lowest_bit_split word t :
  0 <= word -> 0 <= t -> Z.testbit word t = true -> (forall i, i < t -> Z.testbit word i = false) ->
  word = 2 ^ (t + 1) * (word / 2 ^ (t + 1)) + 2 ^ t.
Proof.
  intros Hw Ht Hbit Hlow. pose proof (Z.pow_pos_nonneg 2 (t + 1) ltac:(lia) ltac:(lia)).
  rewrite (Z.div_mod word (2 ^ (t + 1))) at 1 by lia. f_equal. apply Z.bits_inj'. intros i Hi.
  rewrite Z.pow2_bits_eqb by lia. destruct (Z.ltb_spec i (t + 1)).
  - rewrite Z.mod_pow2_bits_low by lia. destruct (Z.eqb_spec t i) as [->|Hne]; [done|]. apply Hlow. lia.
  - rewrite Z.mod_pow2_bits_high by lia. symmetry. apply Z.eqb_neq. lia.
Qed.
(** [word & (word - 1)] clears the lowest bit. *)
Lemma clear_lowest word t i :
  0 <= word -> 0 <= t -> Z.testbit word t = true -> (forall i, i < t -> Z.testbit word i = false) -> 0 <= i ->
  Z.testbit (Z.land word (word - 1)) i = Z.testbit word i && negb (i =? t).
Proof.
  intros Hw Ht Hbit Hlow Hi. rewrite Z.land_spec. pose proof (lowest_bit_split word t Hw Ht Hbit Hlow) as Hs.
  set (q := word / 2 ^ (t + 1)) in *. pose proof (Z.pow_pos_nonneg 2 t ltac:(lia) ltac:(lia)) as Hp.
  rewrite Z.pow_add_r in Hs by lia. change (2 ^ 1) with 2 in Hs.
  destruct (Z.lt_trichotomy i t) as [Hlt|[->|Hgt]].
  - by rewrite Hlow.
  - rewrite Z.eqb_refl, Hbit. cbn. rewrite Z.testbit_odd, Z.shiftr_div_pow2 by lia.
    replace ((word - 1) / 2 ^ t) with (2 * q); [by rewrite Z.odd_mul|]. apply Z.div_unique_pos with (2 ^ t - 1); lia.
  - rewrite (proj2 (Z.eqb_neq i t)) by lia. rewrite andb_true_r.
    replace i with ((i - (t + 1)) + (t + 1)) by lia. rewrite <- !Z.shiftr_spec by lia.
    assert (Z.shiftr (word - 1) (t + 1) = Z.shiftr word (t + 1)) as ->; [|apply andb_diag].
    rewrite !Z.shiftr_div_pow2, Z.pow_add_r by lia. change (2 ^ 1) with 2.
    transitivity q; [symmetry; apply Z.div_unique_pos with (2 ^ t - 1); lia|].
    apply Z.div_unique_pos with (2 ^ t); lia.
Qed.

Lemma land_upper (a e : Z) : 0 <= a -> 0 <= e -> Z.land a e <= a.
Proof.
  intros Ha Hb. pose proof (Z.ldiff_nonneg a (Z.land a e)) as Hn.
  pose proof (Z.sub_nocarry_ldiff a (Z.land a e)) as Hs.
  assert (Z.ldiff (Z.land a e) a = 0) as Hz.
  { apply Z.bits_inj'. intros i Hi. rewrite Z.ldiff_spec, Z.land_spec, Z.bits_0. by destruct (Z.testbit a i), (Z.testbit e i). }
  specialize (Hs Hz). assert (0 <= Z.ldiff a (Z.land a e)) by (apply Hn; by left). lia.
Qed.

Lemma append_word_loop_spec fuel base word low c :
  bc_inv c -> 0 <= word < 2 ^ 64 -> 0 <= low -> 64 <= Z.of_nat fuel + low -> (forall i, i < low -> Z.testbit word i = false) ->
  let c' := append_word_loop fuel base word c in
  bc_inv c' /\ forall x, x ∈ bc_set c' <-> x ∈ bc_set c \/ exists j, 0 <= j /\ Z.testbit word j = true /\ x = base + j.
Proof.
  revert word low c. induction fuel as [|fuel IH]; intros word low c Hc Hw Hl Hf Hlow; cbn [append_word_loop]; cbv zeta.
  { split; [done|]. intros x. split; [by left|]. intros [?|(j & Hj & Hbit & ->)]; [done|]. exfalso.
    destruct (Z.lt_ge_cases j low); [by rewrite Hlow in Hbit|].
    assert (Z.testbit word j = false); [|congruence]. destruct (Z.eq_dec word 0) as [->|]; [apply Z.bits_0|].
    apply Z.bits_above_log2; [lia|]. apply Z.log2_lt_pow2; [lia|]. eapply Z.lt_le_trans; [apply Hw|]. apply Z.pow_le_mono_r; lia. }
  destruct (word =? 0) eqn:E0; to_prop.
  { split; [done|]. intros x. split; [by left|]. intros [?|(j & _ & Hbit & _)]; [done|]. subst. by rewrite Z.bits_0 in Hbit. }
  destruct (trailing_zeros_spec 64 word) as (Ht & Hbit & Hbelow); [change (Z.of_nat 64) with 64; lia|]. unfold TrailingZeros64.
  set (t := trailing_zeros 64 word) in *. change (Z.of_nat 64) with 64 in Ht.
  assert (Hclear : forall i, 0 <= i -> Z.testbit (Z.land word (word - 1)) i = Z.testbit word i && negb (i =? t))
    by (intros i; apply clear_lowest; [lia|lia|done|done]).
  destruct (bc_add_spec c (base + t) Hc) as (Hc1 & Hs1 & _).
  destruct (IH (Z.land word (word - 1)) (t + 1) (bc_add c (base + t)).1) as [H1 H2]; [done| |lia| | |].
  - split; [apply Z.land_nonneg; lia|]. pose proof (land_upper word (word - 1)). lia.
  - assert (low <= t); [|lia]. destruct (Z.lt_ge_cases t low) as [Hlt|]; [|done]. by rewrite Hlow in Hbit.
  - intros i Hi. destruct (Z.ltb_spec i 0); [by apply Z.testbit_neg_r|]. rewrite Hclear by done.
    destruct (Z.eqb_spec i t) as [->|]; [by rewrite andb_false_r|]. rewrite Hbelow by lia. done.
  - split; [done|]. intros x. rewrite H2, Hs1, elem_of_union, elem_of_singleton. split.
    + intros [[->|?]|(j & Hj & Hb & ->)]; [right; exists t; split; [lia|done]|by left|]. rewrite Hclear in Hb by done.
      apply andb_true_iff in Hb as [Hb _]. right. by exists j.
    + intros [?|(j & Hj & Hb & ->)]; [left; by right|]. destruct (Z.eqb_spec j t) as [->|Hne]; [left; by left|].
      right. exists j. split; [done|]. rewrite Hclear, Hb by done. split; [|done]. cbn. by apply negb_true_iff, Z.eqb_neq.
Qed.
Lemma append_word_spec base word c :
  bc_inv c -> 0 <= word < 2 ^ 64 -> let c' := append_word base word c in
  bc_inv c' /\ forall x, x ∈ bc_set c' <-> x ∈ bc_set c \/ exists j, 0 <= j /\ Z.testbit word j = true /\ x = base + j.
Proof.
  intros Hc Hw. apply (append_word_loop_spec 64 base word 0 c Hc Hw); [lia|lia|]. intros i Hi. by apply Z.testbit_neg_r.
Qed.
#[local] Opaque append_word.

(** A bit of dense words. *)
Definition words_bit (words : list Z) (x : Z) : Prop :=
  0 <= x /\ exists word, words !! Z.to_nat (x / 64) = Some word /\ Z.testbit word (x mod 64) = true.
Definition word_ok (word : Z) : Prop := 0 <= word < 2 ^ 64.

Lemma word_bits_high word j : word_ok word -> 64 <= j -> Z.testbit word j = false.
Proof.
  intros Hw Hj. destruct (Z.eq_dec word 0) as [->|]; [apply Z.bits_0|]. apply Z.bits_above_log2; [unfold word_ok in Hw; lia|].
  apply Z.log2_lt_pow2; [unfold word_ok in Hw; lia|]. eapply Z.lt_le_trans; [apply Hw|]. by apply Z.pow_le_mono_r.
Qed.
Lemma words_bit_cons word words x :
  word_ok word -> words_bit (word :: words) x <-> (exists j, 0 <= j /\ Z.testbit word j = true /\ x = j) \/ words_bit words (x - 64).
Proof.
  intros Hw. unfold words_bit. split.
  - intros (Hx & w & Hl & Hb). destruct (Z.lt_ge_cases x 64) as [Hlt|Hge].
    + rewrite Z.div_small in Hl by lia. injection Hl as <-. rewrite Z.mod_small in Hb by lia. left. by exists x.
    + right. split; [lia|]. exists w. replace (x - 64) with (x + (-1) * 64) by lia. rewrite Z.div_add, Z.mod_add by lia. split; [|done].
      replace (Z.to_nat (x / 64)) with (S (Z.to_nat (x / 64 + -1))) in Hl; [done|].
      assert (1 <= x / 64) by (apply Z.div_le_lower_bound; lia). lia.
  - intros [(j & Hj & Hb & ->)|(Hx & w & Hl & Hb)].
    + assert (j < 64) by (destruct (Z.lt_ge_cases j 64); [done|]; by rewrite word_bits_high in Hb). split; [done|]. exists word.
      by rewrite Z.div_small, Z.mod_small by lia.
    + split; [lia|]. exists w. replace x with ((x - 64) + 1 * 64) by lia. rewrite Z.div_add, Z.mod_add by lia. split; [|done].
      rewrite Z2Nat.inj_add, Nat.add_comm; [exact Hl|apply Z.div_pos; lia|lia].
Qed.

Lemma words_bit_nil x : ~ words_bit [] x.
Proof. by intros (_ & w & Hl & _). Qed.
Lemma append_words_cons base word words c :
  append_words base (word :: words) c = append_words (base + 64) words (append_word base word c).
Proof. lazy beta delta [append_words] iota fix. reflexivity. Qed.
Lemma append_words_spec base words c :
  bc_inv c -> Forall word_ok words ->
  bc_inv (append_words base words c) /\ forall x, x ∈ bc_set (append_words base words c) <-> x ∈ bc_set c \/ words_bit words (x - base).
Proof.
  intros Hc Hok. revert base c Hc. induction Hok as [|word words Hw Hok IH]; intros base c Hc.
  { split; [exact Hc|]. intros x. split; [by left|]. intros [?|Hx]; [done|by apply words_bit_nil in Hx]. }
  rewrite append_words_cons.
  destruct (append_word_spec base word c Hc Hw) as [H1 H2]. generalize dependent (append_word base word c). intros c1 H1 H2.
  destruct (IH (base + 64) c1 H1) as [H3 H4]. split; [exact H3|]. intros x. rewrite (H4 x), (H2 x), (words_bit_cons word words (x - base) Hw).
  replace (x - (base + 64)) with (x - base - 64) by lia. clear. split.
  - intros [[?|(j & Hj & Hb & ->)]|?]; [by left| |by auto]. right. left. exists j. split; [done|]. split; [done|lia].
  - intros [?|[(j & Hj & Hb & Heq)|?]]; [by auto| |by auto]. left. right. exists j. split; [done|]. split; [done|lia].
Qed.

Lemma mark_word_ok word x : word_ok word -> 0 <= x -> word_ok (Z.lor word (Z.shiftl 1 (Z.land x 63))).
Proof.
  unfold word_ok. intros Hw Hx. change 63 with (Z.ones 6). rewrite Z.land_ones by lia. change (2 ^ 6) with 64.
  pose proof (Z.mod_pos_bound x 64 ltac:(lia)). rewrite Z.shiftl_1_l. split; [apply Z.lor_nonneg; split; [lia|apply Z.pow_nonneg; lia]|].
  assert (word mod 2 ^ 64 = word) as Hm by (apply Z.mod_small; lia).
  assert (Z.lor word (2 ^ (x mod 64)) mod 2 ^ 64 = Z.lor word (2 ^ (x mod 64))) as <-; [|apply Z.mod_pos_bound; lia].
  apply Z.bits_inj'. intros i Hi. destruct (Z.lt_ge_cases i 64); [by rewrite Z.mod_pow2_bits_low|].
  rewrite Z.mod_pow2_bits_high, Z.lor_spec, word_bits_high by (exact Hw || lia). symmetry. cbn. rewrite Z.pow2_bits_eqb by lia. apply Z.eqb_neq. lia.
Qed.

Lemma mark_bits_spec l words :
  Forall word_ok words -> Forall (fun x => 0 <= x < 64 * zlen words) l ->
  let words' := range_bits mark_bit l words in
  length words' = length words /\ Forall word_ok words' /\ forall x, words_bit words' x <-> words_bit words x \/ x ∈ l.
Proof.
  intros Hok Hl. revert words Hok Hl. induction l as [|v l IH]; intros words Hok Hl; cbv zeta.
  { cbn [range_bits]. split; [done|]. split; [done|]. intros x. split; [by left|]. by intros [?|?%elem_of_nil]. }
  apply Forall_cons in Hl as [Hv Hl].
  set (words1 := alter (fun word => Z.lor word (Z.shiftl 1 (Z.land v 63))) (Z.to_nat (bitmapWordIndex v)) words).
  change (range_bits mark_bit (v :: l) words) with (range_bits mark_bit l words1). assert (length words1 = length words) as Hlen by apply length_alter.
  assert (bitmapWordIndex v = v / 64) as Hi by (unfold bitmapWordIndex; by rewrite Z.shiftr_div_pow2).
  assert (Hok1 : Forall word_ok words1).
  { apply Forall_lookup_2. intros i w Hw. unfold words1 in Hw. rewrite list_lookup_alter in Hw. case_decide as Hd.
    - apply fmap_Some in Hw as (w0 & Hw0 & ->). apply mark_word_ok; [|lia]. by eapply Forall_lookup_1.
    - by eapply Forall_lookup_1. }
  destruct (IH words1 Hok1) as (H1 & H2 & H3).
  { eapply Forall_impl; [exact Hl|]. intros x Hx. unfold zlen in *. by rewrite Hlen. }
  split; [by rewrite H1|]. split; [done|]. intros x. rewrite H3, elem_of_cons.
  assert (words_bit words1 x <-> words_bit words x \/ x = v) as ->; [|tauto].
  unfold words_bit, words1. rewrite Hi. split.
  - intros (Hx & w & Hw & Hb). rewrite list_lookup_alter in Hw. case_decide as Hd; [|left; eauto].
    apply fmap_Some in Hw as (w0 & Hw0 & ->). rewrite Z.lor_spec in Hb.
    apply orb_true_iff in Hb as [Hb|Hb]; [left; split; [done|]; exists w0; split; [congruence|done]|]. right. change 63 with (Z.ones 6) in Hb. rewrite Z.land_ones, Z.shiftl_1_l in Hb by lia.
    change (2 ^ 6) with 64 in Hb. pose proof (Z.mod_pos_bound x 64 ltac:(lia)). pose proof (Z.mod_pos_bound v 64 ltac:(lia)).
    rewrite Z.pow2_bits_eqb in Hb by lia. to_prop. pose proof (Z.div_mod x 64 ltac:(lia)). pose proof (Z.div_mod v 64 ltac:(lia)).
    assert (x / 64 = v / 64); [|lia]. apply Z2Nat.inj; [apply Z.div_pos; lia|apply Z.div_pos; lia|done].
  - intros [(Hx & w & Hw & Hb)| ->].
    + split; [done|]. rewrite list_lookup_alter. case_decide as Hd; [|by exists w]. rewrite Hd, Hw. eexists. split; [done|].
      by rewrite Z.lor_spec, Hb.
    + split; [lia|]. rewrite list_lookup_alter. rewrite decide_True by done.
      destruct (lookup_lt_is_Some_2 words (Z.to_nat (v / 64))) as [w Hw].
      { unfold zlen in Hv. assert (v / 64 < Z.of_nat (length words)) by (apply Z.div_lt_upper_bound; lia). pose proof (Z.div_pos v 64). lia. }
      rewrite Hw. eexists. split; [done|]. rewrite Z.lor_spec. change 63 with (Z.ones 6). rewrite Z.land_ones, Z.shiftl_1_l by lia.
      change (2 ^ 6) with 64. pose proof (Z.mod_pos_bound v 64 ltac:(lia)). rewrite Z.pow2_bits_true by lia. apply orb_true_r.
Qed.

(** ** Bitmaps as finite sets *)
Definition bm_set b : gset Z := bc_set (bm_contents b).
(** Every bit lies in the logical words, which a [uint64] can address. *)
Record bm_inv b : Prop := {
  bmi_contents : bc_inv (bm_contents b);
  bmi_bits : forall x, x ∈ bm_set b -> 0 <= x < 64 * bm_logicalWords b;
  bmi_words : 0 <= bm_logicalWords b <= 2 ^ 58
}.

Lemma bitmapWordIndex_bound bit : is_u64 bit -> 0 <= bitmapWordIndex bit < 2 ^ 58.
Proof.
  unfold is_u64, u64_max, bitmapWordIndex. intros H. rewrite Z.shiftr_div_pow2 by lia. change (2 ^ 6) with 64.
  split; [apply Z.div_pos; lia|apply Z.div_lt_upper_bound; lia].
Qed.
Lemma wordsForBits_bound n : is_u64 n -> 0 <= wordsForBits n <= 2 ^ 58 /\ n <= 64 * wordsForBits n.
Proof.
  unfold is_u64, u64_max, wordsForBits. intros H. destruct (n =? 0) eqn:E; to_prop; [lia|].
  pose proof (Z.div_mod (n - 1) 64 ltac:(lia)). pose proof (Z.mod_pos_bound (n - 1) 64 ltac:(lia)).
  assert (0 <= (n - 1) / 64 < 2 ^ 58) by (split; [apply Z.div_pos; lia|apply Z.div_lt_upper_bound; lia]). lia.
Qed.
Lemma NewBitmap_inv n : is_u64 n -> bm_inv (NewBitmap n) /\ bm_set (NewBitmap n) = ∅.
Proof. intros H. split; [|done]. split; cbn; [apply no_contents_inv|done|by apply wordsForBits_bound]. Qed.

Definition operand_set (o : operand R) b : gset Z :=
  match o with OperandNil => ∅ | OperandSelf => bm_set b | OperandOther o => bm_set o end.
Definition operand_inv (o : operand R) : Prop := match o with OperandOther o => bm_inv o | _ => True end.

Lemma bm_Set_spec bit b :
  bm_inv b -> is_u64 bit ->
  bm_inv (bm_Set bit b).1 /\ bm_set (bm_Set bit b).1 = {[bit]} ∪ bm_set b /\ (bm_Set bit b).2 = bool_decide (bit ∉ bm_set b).
Proof.
  intros [H1 H2 H3] Hb. unfold bm_Set. pose proof (bitmapWordIndex_bound bit Hb) as Hw. destruct (bc_add_spec (bm_contents b) bit H1) as (G1 & G2 & G3).
  destruct (bc_add (bm_contents b) bit) as [contents added]. cbn in *. split; [|by split]. split; cbn; [done| |lia].
  intros x Hx. unfold bm_set in Hx. cbn in Hx. rewrite G2 in Hx. apply elem_of_union in Hx as [->%elem_of_singleton|Hx]; [|specialize (H2 x Hx); lia].
  unfold is_u64, bitmapWordIndex in *. rewrite Z.shiftr_div_pow2 in * by lia. change (2 ^ 6) with 64 in *.
  pose proof (Z.div_mod bit 64 ltac:(lia)). pose proof (Z.mod_pos_bound bit 64 ltac:(lia)). lia.
Qed.
Lemma bm_Clear_spec bit b :
  bm_inv b -> bm_inv (bm_Clear bit b).1 /\ bm_set (bm_Clear bit b).1 = bm_set b ∖ {[bit]} /\ (bm_Clear bit b).2 = bool_decide (bit ∈ bm_set b).
Proof.
  intros [H1 H2 H3]. unfold bm_Clear. destruct (bc_remove_spec (bm_contents b) bit H1) as (G1 & G2 & G3).
  destruct (bc_remove (bm_contents b) bit) as [contents removed]. cbn in *. split; [|by split]. split; cbn; [done| |done].
  intros x Hx. unfold bm_set in Hx. cbn in Hx. rewrite G2 in Hx. apply H2. set_solver.
Qed.
Lemma bm_Or_spec (o : operand R) b :
  bm_inv b -> operand_inv o -> bm_inv (bm_Or o b) /\ bm_set (bm_Or o b) = bm_set b ∪ operand_set o b.
Proof.
  intros Hb Ho. destruct o as [| |o]; cbn; [split; [done|set_solver]|split; [done|set_solver]|].
  destruct Hb as [H1 H2 H3], Ho as [O1 O2 O3]. destruct (bc_or_spec _ _ H1 O1) as [G1 G2]. split; [|done]. split; cbn; [done| |lia].
  intros x Hx. unfold bm_set in Hx. cbn in Hx. rewrite G2 in Hx. apply elem_of_union in Hx as [Hx|Hx]; [specialize (H2 x Hx)|specialize (O2 x Hx)]; lia.
Qed.
Lemma bm_And_spec (o : operand R) b :
  bm_inv b -> operand_inv o -> bm_inv (bm_And o b) /\ bm_set (bm_And o b) = bm_set b ∩ operand_set o b.
Proof.
  intros Hb Ho. destruct o as [| |o]; cbn; [|split; [done|set_solver]|].
  - destruct Hb as [H1 H2 H3]. destruct (bc_and_spec _ _ H1 no_contents_inv) as [G1 G2]. rewrite no_contents_set in G2.
    split; [|unfold bm_set; cbn; by rewrite G2]. split; cbn; [done| |done]. unfold bm_set. cbn. rewrite G2. set_solver.
  - destruct Hb as [H1 H2 H3], Ho as [O1 O2 O3]. destruct (bc_and_spec _ _ H1 O1) as [G1 G2]. split; [|done]. split; cbn; [done| |done].
    intros x Hx. unfold bm_set in Hx. cbn in Hx. rewrite G2 in Hx. apply H2. set_solver.
Qed.
Lemma bm_AndNot_spec (o : operand R) b :
  bm_inv b -> operand_inv o -> bm_inv (bm_AndNot o b) /\ bm_set (bm_AndNot o b) = bm_set b ∖ operand_set o b.
Proof.
  intros Hb Ho. destruct o as [| |o]; cbn; [split; [done|set_solver]| |].
  - destruct Hb as [H1 H2 H3]. split; [split; cbn; [apply no_contents_inv|done|done]|]. unfold bm_set. cbn. set_solver.
  - destruct Hb as [H1 H2 H3], Ho as [O1 O2 O3]. destruct (bc_andNot_spec _ _ H1 O1) as [G1 G2]. split; [|done]. split; cbn; [done| |done].
    intros x Hx. unfold bm_set in Hx. cbn in Hx. rewrite G2 in Hx. apply H2. set_solver.
Qed.

(** Calls on a bitmap, and on the set it stands for. *)
Inductive bitmap_call :=
| CallSet (bit : Z) | CallClear (bit : Z) | CallContains (bit : Z) | CallCount
| CallOr (o : operand R) | CallAnd (o : operand R) | CallAndNot (o : operand R).
Definition run_bitmap_call (call : bitmap_call) b : Bitmap R * Z :=
  match call with
  | CallSet bit => let '(b, r) := bm_Set bit b in (b, Z.b2z r)
  | CallClear bit => let '(b, r) := bm_Clear bit b in (b, Z.b2z r)
  | CallContains bit => (b, Z.b2z (bm_Contains bit b))
  | CallCount => (b, bm_Count b)
  | CallOr o => (bm_Or o b, 0)
  | CallAnd o => (bm_And o b, 0)
  | CallAndNot o => (bm_AndNot o b, 0)
  end.
Definition call_operand (o : operand R) (s : gset Z) : gset Z :=
  match o with OperandNil => ∅ | OperandSelf => s | OperandOther o => bm_set o end.
Definition set_call (call : bitmap_call) (s : gset Z) : gset Z * Z :=
  match call with
  | CallSet bit => ({[bit]} ∪ s, Z.b2z (bool_decide (bit ∉ s)))
  | CallClear bit => (s ∖ {[bit]}, Z.b2z (bool_decide (bit ∈ s)))
  | CallContains bit => (s, Z.b2z (bool_decide (bit ∈ s)))
  | CallCount => (s, Z.of_nat (size s))
  | CallOr o => (s ∪ call_operand o s, 0)
  | CallAnd o => (s ∩ call_operand o s, 0)
  | CallAndNot o => (s ∖ call_operand o s, 0)
  end.
Definition call_ok (call : bitmap_call) : Prop :=
  match call with
  | CallSet bit => is_u64 bit
  | CallOr o | CallAnd o | CallAndNot o => operand_inv o
  | _ => True
  end.
Fixpoint run_all {S} (step : bitmap_call -> S -> S * Z) (calls : list bitmap_call) (s : S) : S * list Z :=
  match calls with
  | [] => (s, [])
  | call :: calls => let '(s, r) := step call s in let '(s, rs) := run_all step calls s in (s, r :: rs)
  end.

Lemma run_bitmap_call_spec call b :
  bm_inv b -> call_ok call ->
  bm_inv (run_bitmap_call call b).1 /\ (bm_set (run_bitmap_call call b).1, (run_bitmap_call call b).2) = set_call call (bm_set b).
Proof.
  intros Hb Hok. destruct call as [bit|bit|bit| |o|o|o]; cbn [run_bitmap_call set_call call_ok] in *.
  - destruct (bm_Set_spec bit b Hb Hok) as (H1 & H2 & H3). destruct (bm_Set bit b). cbn in *. by rewrite H2, H3.
  - destruct (bm_Clear_spec bit b Hb) as (H1 & H2 & H3). destruct (bm_Clear bit b). cbn in *. by rewrite H2, H3.
  - split; [done|]. cbn. unfold bm_Contains. by rewrite bc_contains_spec.
  - split; [done|]. cbn. unfold bm_Count. by rewrite bc_count_spec by apply Hb.
  - destruct (bm_Or_spec o b Hb Hok) as [H1 H2]. split; [done|]. cbn. rewrite H2. by destruct o.
  - destruct (bm_And_spec o b Hb Hok) as [H1 H2]. split; [done|]. cbn. rewrite H2. by destruct o.
  - destruct (bm_AndNot_spec o b Hb Hok) as [H1 H2]. split; [done|]. cbn. rewrite H2. by destruct o.
Qed.

(** ** Properties *)

(** C26: a bitmap behaves as a finite set.  Whatever sequence of calls runs on it,
    with up to two bits in line or with many in a Roaring bitmap, with nil, other
    or the same bitmap as the operand, every answer is the answer of the set
    operation, the bitmap stands for the resulting set, and its bits, in order,
    are that set. *)
Theorem bitmap_refines_set calls b :
  bm_inv b -> Forall call_ok calls ->
  let r := run_all run_bitmap_call calls b in
  bm_inv r.1 /\ (bm_set r.1, r.2) = run_all set_call calls (bm_set b) /\
  StronglySorted Z.lt (bc_bits (bm_contents r.1)) /\ list_to_set (bc_bits (bm_contents r.1)) = bm_set r.1.
Proof.
  intros Hb Hok. cbv zeta. cut (bm_inv (run_all run_bitmap_call calls b).1 /\
    (bm_set (run_all run_bitmap_call calls b).1, (run_all run_bitmap_call calls b).2) = run_all set_call calls (bm_set b)).
  { intros [H1 H2]. split; [done|]. split; [done|]. apply bc_bits_spec, H1. }
  revert b Hb. induction Hok as [|call calls Hc Hok IH]; intros b Hb; [done|]. cbn [run_all].
  destruct (run_bitmap_call_spec call b Hb Hc) as [H1 H2]. destruct (run_bitmap_call call b) as [b1 r1]. cbn [fst snd] in *. rewrite <- H2.
  destruct (IH b1 H1) as [H3 H4]. destruct (run_all run_bitmap_call calls b1) as [b2 rs]. cbn [fst snd] in *. by rewrite <- H4.
Qed.

(** The dense form, and appending words to any bitmap. *)
Lemma bm_Snapshot_spec b :
  bm_inv b -> zlen (bm_Snapshot b) = bm_logicalWords b /\ Forall word_ok (bm_Snapshot b) /\ forall x, words_bit (bm_Snapshot b) x <-> x ∈ bm_set b.
Proof.
  intros [H1 H2 H3]. destruct (bc_bits_spec _ H1) as [_ Hbits]. fold (bm_set b) in Hbits.
  unfold bm_Snapshot, snapshotWords. destruct (bm_logicalWords b =? 0) eqn:E; to_prop.
  - rewrite E in *. split; [done|]. split; [constructor|]. intros x. split; [by intros ?%words_bit_nil|]. intros Hx. specialize (H2 x Hx). lia.
  - unfold bc_rangeBits. destruct (mark_bits_spec (bc_bits (bm_contents b)) (replicate (Z.to_nat (bm_logicalWords b)) 0)) as (G1 & G2 & G3).
    + apply Forall_replicate. unfold word_ok. lia.
    + apply Forall_forall. intros x Hx. assert (x ∈ bm_set b) as Hin by (rewrite <- Hbits; by apply elem_of_list_to_set).
      specialize (H2 x Hin). unfold zlen. rewrite length_replicate. lia.
    + split; [unfold zlen; rewrite G1, length_replicate; lia|]. split; [done|]. intros x. rewrite G3, <- Hbits, elem_of_list_to_set.
      split; [|by right]. intros [(_ & w & Hw & Hb)|?]; [|done]. apply lookup_replicate in Hw as [-> _]. by rewrite Z.bits_0 in Hb.
Qed.
Lemma words_bit_bound words x : words_bit words x -> 0 <= x < 64 * zlen words.
Proof.
  intros (Hx & w & Hl & _). apply lookup_lt_Some in Hl. unfold zlen. split; [done|].
  pose proof (Z.div_mod x 64 ltac:(lia)). pose proof (Z.mod_pos_bound x 64 ltac:(lia)). pose proof (Z.div_pos x 64 Hx ltac:(lia)). lia.
Qed.
Lemma bm_AppendWords_spec words b :
  bm_inv b -> Forall word_ok words -> bm_logicalWords b + zlen words <= 2 ^ 58 ->
  exists b', bm_AppendWords words b = Some b' /\ bm_inv b' /\ bm_logicalWords b' = bm_logicalWords b + zlen words /\
    forall x, x ∈ bm_set b' <-> x ∈ bm_set b \/ words_bit words (x - bm_logicalWords b * 64).
Proof.
  intros [H1 H2 H3] Hok Hlen. unfold bm_AppendWords, maxInt, u64_max. change (Z.shiftr 18446744073709551615 6) with (2 ^ 58 - 1).
  destruct (append_words_spec (bm_logicalWords b * 64) words (bm_contents b) H1 Hok) as [G1 G2].
  destruct (_ || _) eqn:E.
  { exfalso. apply orb_true_iff in E as [E|E]; to_prop; lia. }
  eexists. split; [reflexivity|]. unfold bm_set at 1 2. cbn [bm_contents bm_logicalWords]. split; [|split; [done|exact G2]].
  assert (0 <= zlen words) by apply Zle_0_nat. split; cbn [bm_contents bm_logicalWords]; [done| |lia].
  intros x Hx. unfold bm_set in Hx. cbn [bm_contents] in Hx. apply G2 in Hx as [Hx|Hx]; [specialize (H2 x Hx); lia|apply words_bit_bound in Hx; lia].
Qed.

(** C27: the dense form is exact.  [Snapshot] has a bit for every member and no
    other, in as many words as the bitmap has, and appending these words to an
    empty bitmap gives a bitmap with the same members and as many words. *)
Theorem bitmap_words_roundtrip b :
  bm_inv b ->
  let words := bm_Snapshot b in
  zlen words = bm_logicalWords b /\ (forall x, words_bit words x <-> x ∈ bm_set b) /\
  exists b', bm_AppendWords words (NewBitmap 0) = Some b' /\ bm_inv b' /\ bm_set b' = bm_set b /\ bm_logicalWords b' = bm_logicalWords b.
Proof.
  intros Hb. cbv zeta. destruct (bm_Snapshot_spec b Hb) as (Hlen & Hok & Hmem). split; [done|]. split; [done|].
  destruct (NewBitmap_inv 0) as [Hnew Hempty]; [done|]. pose proof (bmi_words _ Hb) as Hw.
  destruct (bm_AppendWords_spec (bm_Snapshot b) (NewBitmap 0) Hnew Hok) as (b' & H1 & H2 & H3 & H4); [change (bm_logicalWords (NewBitmap 0)) with 0; lia|].
  exists b'. split; [done|]. split; [done|]. change (bm_logicalWords (NewBitmap 0)) with 0 in *. split; [|lia].
  apply set_eq. intros x. rewrite H4, Hempty, <- Hmem. replace (x - 0 * 64) with x by lia. set_solver.
Qed.
End bitmap_sets.

(** ** Finite sets as Roaring bitmaps *)
#[export] Instance gset_roaring : Roaring (gset Z) := {|
  ro_NewBitmap := ∅;
  ro_Contains s bit := bool_decide (bit ∈ s);
  ro_CheckedAdd s bit := ({[bit]} ∪ s, bool_decide (bit ∉ s));
  ro_CheckedRemove s bit := (s ∖ {[bit]}, bool_decide (bit ∈ s));
  ro_AddMany s l := list_to_set l ∪ s;
  ro_GetCardinality s := Z.of_nat (size s);
  ro_IsEmpty s := bool_decide (s = ∅);
  ro_Maximum s := match last (merge_sort Z.le (elements s)) with Some x => x | None => 0 end;
  ro_Or s t := s ∪ t;
  ro_And s t := s ∩ t;
  ro_AndNot s t := s ∖ t;
  ro_Iterator s := merge_sort Z.le (elements s)
|}.
Lemma sorted_set_elements (s : gset Z) :
  StronglySorted Z.lt (merge_sort Z.le (elements s)) /\ list_to_set (merge_sort Z.le (elements s)) = s.
Proof.
  assert (merge_sort Z.le (elements s) ≡ₚ elements s) as Hp by apply merge_sort_Permutation.
  split; [|rewrite Hp; apply list_to_set_elements_L]. assert (NoDup (merge_sort Z.le (elements s))) as Hnd by (rewrite Hp; apply NoDup_elements).
  pose proof (StronglySorted_merge_sort Z.le (elements s)) as Hs. clear Hp. induction Hs as [|x l Hl IH Hx]; [constructor|].
  apply NoDup_cons in Hnd as [Hn Hnd]. constructor; [by apply IH|]. rewrite Forall_forall in Hx |- *. intros y Hy.
  specialize (Hx y Hy). assert (x <> y) by (by intros ->). lia.
Qed.
#[export] Instance gset_roaring_laws : RoaringLaws (gset Z).
Proof.
  refine {| ro_set := fun s => s |}; cbn; try done.
  - intros s Hs. destruct (sorted_set_elements s) as [Hsort Hset]. destruct (last _) as [x|] eqn:E.
    + apply last_Some in E as [l E]. rewrite E in Hsort, Hset. split; [rewrite <- Hset, elem_of_list_to_set, elem_of_app; right; by left|]. intros y Hy.
      rewrite <- Hset, elem_of_list_to_set, elem_of_app, list_elem_of_singleton in Hy. destruct Hy as [Hy| ->]; [|done].
      clear -Hsort Hy. induction l as [|z l IH]; [by apply elem_of_nil in Hy|]. cbn in Hsort. apply StronglySorted_inv in Hsort as [Hsort Hz].
      apply elem_of_cons in Hy as [->|Hy]; [|by apply IH]. rewrite Forall_forall in Hz. assert (z < x); [|lia]. apply Hz. set_solver.
    + apply last_None in E. rewrite E in Hset. cbn in Hset. by rewrite <- Hset in Hs.
  - apply sorted_set_elements.
Qed.

(** ** Witnesses *)
Definition ex_calls : list (bitmap_call (R := gset Z)) :=
  [CallSet 70; CallSet 3; CallSet 70; CallSet 5; CallCount; CallClear 3; CallOr OperandSelf; CallContains 3; CallAnd OperandNil; CallCount].
Lemma bitmap_refines_set_witness :
  (run_all run_bitmap_call ex_calls (NewBitmap 0)).2 = [1; 1; 0; 1; 3; 1; 0; 0; 0; 0] /\
  bm_set (run_all run_bitmap_call ex_calls (NewBitmap 0)).1 = (run_all set_call ex_calls (∅ : gset Z)).1.
Proof.
  destruct (bitmap_refines_set ex_calls (NewBitmap 0)) as (_ & H & _).
  - apply NewBitmap_inv. unfold is_u64, u64_max. lia.
  - unfold ex_calls, is_u64, u64_max. repeat (apply Forall_cons; split; [cbn; unfold is_u64, u64_max; try done; lia|]). constructor.
  - split; [vm_compute; reflexivity|]. exact (f_equal fst H).
Defined.
Definition ex_bitmap : Bitmap (gset Z) := (bm_Set 64 (bm_Set 3 (bm_Set 70 (NewBitmap 0)).1).1).1.
Lemma bitmap_words_roundtrip_witness :
  bm_Snapshot ex_bitmap = [8; 65] /\ exists b', bm_AppendWords [8; 65] (NewBitmap 0) = Some b' /\ bm_set b' = bm_set ex_bitmap.
Proof.
  assert (bm_inv ex_bitmap) as Hb.
  { apply bm_Set_spec; [|unfold is_u64, u64_max; lia]. apply bm_Set_spec; [|unfold is_u64, u64_max; lia].
    apply bm_Set_spec; [|unfold is_u64, u64_max; lia]. apply NewBitmap_inv. unfold is_u64, u64_max. lia. }
  assert (bm_Snapshot ex_bitmap = [8; 65]) as Hs by (vm_compute; reflexivity). split; [exact Hs|].
  destruct (bitmap_words_roundtrip ex_bitmap Hb) as (_ & _ & b' & H1 & _ & H2 & _). rewrite Hs in H1. by exists b'.
Defined.


