(* ===== verification/SqlValue.v ===== *)
(** * Typed values of filters: [internal/db/sqlengine/value.go], [schema.go]

    A [float64] is its 64 bits and a [float32] its 32 bits; comparison and the
    conversions between them are those of IEEE 754, with rounding to the nearest
    even.  An [int64] and a [uint64] are integers in range. *)
From S2P Require Import Prelude Bytes.
#[local] Open Scope string_scope.
#[local] Open Scope list_scope.
#[local] Open Scope Z_scope.

(** ** Floating-point numbers *)
Definition f64_infinity : Z := Z.shiftl 2047 52.
Definition f64_negative (bits : Z) : bool := Z.testbit bits 63.
Definition f64_magnitude (bits : Z) : Z := Z.land bits (Z.ones 63).
Definition f64_IsNaN (bits : Z) : bool := f64_infinity <? f64_magnitude bits.
Definition f64_IsInf (bits : Z) : bool := f64_magnitude bits =? f64_infinity.
(** The place of a number that is not NaN in the order; both zeros are at 0. *)
Definition f64_order (bits : Z) : Z := if f64_negative bits then - f64_magnitude bits else f64_magnitude bits.
Definition f64_ltb (a b : Z) : bool := negb (f64_IsNaN a) && negb (f64_IsNaN b) && (f64_order a <? f64_order b).
Definition f64_eqb (a b : Z) : bool := negb (f64_IsNaN a) && negb (f64_IsNaN b) && (f64_order a =? f64_order b).

(** [float64(value)] of a [float32]. *)
Definition f32_widen (bits : Z) : Z :=
  let sign := Z.shiftl (Z.shiftr bits 31) 63 in
  let exponent := Z.land (Z.shiftr bits 23) 255 in
  let fraction := Z.land bits (Z.ones 23) in
  if exponent =? 255 then sign + f64_infinity + Z.shiftl fraction 29
  else if exponent =? 0 then
    if fraction =? 0 then sign
    else
      let high := Z.log2 fraction in
      sign + Z.shiftl (high + 874) 52 + Z.shiftl (fraction - Z.shiftl 1 high) (52 - high)
  else sign + Z.shiftl (exponent + 896) 52 + Z.shiftl fraction 29.

(** [mantissa / 2^shift], to the nearest, ties to even. *)
Definition round_even (mantissa shift : Z) : Z :=
  let quotient := Z.shiftr mantissa shift in
  let rest := Z.land mantissa (Z.ones shift) in
  let half := Z.shiftl 1 (shift - 1) in
  if (half <? rest) || ((rest =? half) && Z.odd quotient) then quotient + 1 else quotient.
(** [float32(value)] of a [float64]. *)
Definition f64_narrow (bits : Z) : Z :=
  let sign := Z.shiftl (Z.shiftr bits 63) 31 in
  let exponent := Z.shiftr (f64_magnitude bits) 52 in
  let fraction := Z.land bits (Z.ones 52) in
  if exponent =? 2047 then sign + Z.shiftl 255 23 + (if fraction =? 0 then 0 else Z.lor (Z.shiftr fraction 29) (Z.shiftl 1 22))
  else if 896 <? exponent then
    sign + Z.min (Z.shiftl 255 23) (round_even (f64_magnitude bits - Z.shiftl 896 52) 29)
  else if exponent =? 0 then sign
  else sign + round_even (Z.shiftl 1 52 + fraction) (29 + (897 - exponent)).

(** [int32(value)] and [uint32(value)]. *)
Definition to_int32 (z : Z) : Z := (z + 2147483648) mod 4294967296 - 2147483648.
Definition to_uint32 (z : Z) : Z := z mod 4294967296.
Definition is_i32 (z : Z) : Prop := -2147483648 <= z <= 2147483647.
Definition is_i64 (z : Z) : Prop := -9223372036854775808 <= z <= 9223372036854775807.

(** ** Values *)
Inductive ValueKind :=
| ValueBinary | ValueString | ValueBool | ValueInt32 | ValueInt64 | ValueUint32 | ValueUint64 | ValueFloat32 | ValueFloat64
| ValueInvalid (code : Z).
#[export] Instance ValueKind_eq_dec : EqDecision ValueKind.
Proof. solve_decision. Defined.
Definition kind_valid (k : ValueKind) : bool := match k with ValueInvalid _ => false | _ => true end.

Inductive Value := MkValue {
  v_kind : ValueKind;
  v_null : bool;
  v_array : bool;
  v_binary : bytes;
  v_text : bytes;
  v_boolean : bool;
  v_signed : Z;
  v_unsigned : Z;
  v_number : Z;
  v_elements : list Value
}.
Definition no_value : Value := MkValue (ValueInvalid 0) false false [] [] false 0 0 0 [].

Definition NullValue (kind : ValueKind) (array : bool) : result Value :=
  if negb (kind_valid kind) then Fail (errors_New "sql: invalid NULL value kind")
  else Ok (MkValue kind true array [] [] false 0 0 0 []).
Definition BinaryValue (value : bytes) : Value := MkValue ValueBinary false false value [] false 0 0 0 [].
Definition StringValue (value : bytes) : Value := MkValue ValueString false false [] value false 0 0 0 [].
Definition BoolValue (value : bool) : Value := MkValue ValueBool false false [] [] value 0 0 0 [].
Definition Int32Value (value : Z) : Value := MkValue ValueInt32 false false [] [] false value 0 0 [].
Definition Int64Value (value : Z) : Value := MkValue ValueInt64 false false [] [] false value 0 0 [].
Definition Uint32Value (value : Z) : Value := MkValue ValueUint32 false false [] [] false 0 value 0 [].
Definition Uint64Value (value : Z) : Value := MkValue ValueUint64 false false [] [] false 0 value 0 [].
Definition Float32Value (value : Z) : result Value :=
  if f64_IsNaN (f32_widen value) || f64_IsInf (f32_widen value) then Fail (errors_New "sql: FLOAT value must be finite")
  else Ok (MkValue ValueFloat32 false false [] [] false 0 0 (f32_widen value) []).
Definition Float64Value (value : Z) : result Value :=
  if f64_IsNaN value || f64_IsInf value then Fail (errors_New "sql: DOUBLE value must be finite")
  else Ok (MkValue ValueFloat64 false false [] [] false 0 0 value []).
Definition ArrayValue (kind : ValueKind) (elements : list Value) : result Value :=
  if negb (kind_valid kind) then Fail (errors_New "sql: invalid array element kind")
  else if existsb (fun element => v_null element || v_array element || negb (bool_decide (v_kind element = kind))) elements
  then Fail (errors_New "sql: array element is not a non-null scalar of the kind")
  else Ok (MkValue kind false true [] [] false 0 0 0 elements).

Definition Value_Len (v : Value) : option Z :=
  if v_null v || negb (v_array v) then None else Some (zlen (v_elements v)).

(** The three-way comparisons of [compareValues]. *)
Definition compare_by {A} (ltb : A -> A -> bool) (left right : A) : Z :=
  if ltb left right then -1 else if ltb right left then 1 else 0.
Definition bytes_Compare (left right : bytes) : Z :=
  match bytes_compare left right with Lt => -1 | Eq => 0 | Gt => 1 end.
Definition compareValues (left right : Value) : result Z :=
  if v_null left || v_null right then Fail (errors_New "sql: cannot compare NULL values directly")
  else if v_array left || v_array right then Fail (errors_New "sql: comparison requires scalar values")
  else if negb (bool_decide (v_kind left = v_kind right)) || negb (kind_valid (v_kind left))
  then Fail (errors_New "sql: cannot compare")
  else match v_kind left with
  | ValueBinary => Ok (bytes_Compare (v_binary left) (v_binary right))
  | ValueString => Ok (compare_by bytes_ltb (v_text left) (v_text right))
  | ValueBool =>
      Ok (if negb (Bool.eqb (v_boolean left) (v_boolean right)) then if negb (v_boolean left) then -1 else 1 else 0)
  | ValueInt32 | ValueInt64 => Ok (compare_by Z.ltb (v_signed left) (v_signed right))
  | ValueUint32 | ValueUint64 => Ok (compare_by Z.ltb (v_unsigned left) (v_unsigned right))
  | ValueFloat32 | ValueFloat64 => Ok (compare_by f64_ltb (v_number left) (v_number right))
  | ValueInvalid _ => Fail (errors_New "sql: invalid scalar kind")
  end.

(** ** Schemas *)
Record Field := {
  fd_Name : bytes;
  fd_Kind : ValueKind;
  fd_Array : bool;
  fd_Nullable : bool;
  fd_Filterable : bool;
  fd_Indexed : bool;
  fd_RangeOptimized : bool;
  fd_ExtendedWildcard : bool
}.
Record Schema := { sc_fields : gmap bytes Field; sc_order : list bytes }.
Definition no_schema : Schema := {| sc_fields := ∅; sc_order := [] |}.

Definition add_field (schema : Schema) (field : Field) : result Schema :=
  if bool_decide (fd_Name field = []) then Fail (errors_New "sql: field has an empty name")
  else match sc_fields schema !! fd_Name field with
  | Some _ => Fail (errors_New "sql: duplicate field")
  | None =>
      if fd_Filterable field && negb (kind_valid (fd_Kind field)) then Fail (errors_New "sql: filterable field has invalid kind")
      else if fd_Indexed field && negb (fd_Filterable field) then Fail (errors_New "sql: indexed field is not filterable")
      else Ok {| sc_fields := <[fd_Name field := field]> (sc_fields schema); sc_order := sc_order schema ++ [fd_Name field] |}
  end.
Definition NewSchema (fields : list Field) : result Schema := foldM add_field fields no_schema.
Definition Schema_Field (schema : Schema) (name : bytes) : option Field := sc_fields schema !! name.
Definition Schema_Fields (schema : Schema) : list Field := omap (fun name => sc_fields schema !! name) (sc_order schema).

(** ** Widening and narrowing *)
Lemma round_even_exact n shift : 0 <= n -> 0 < shift -> round_even (Z.shiftl n shift) shift = n.
Proof.
  intros Hn Hs. unfold round_even. rewrite Z.shiftr_shiftl_l, Z.sub_diag, Z.shiftl_0_r by lia.
  assert (Z.land (Z.shiftl n shift) (Z.ones shift) = 0) as ->.
  { rewrite Z.land_ones, Z.shiftl_mul_pow2 by lia. apply Z.mod_mul. apply Z.pow_nonzero; lia. }
  rewrite Z.shiftl_1_l. pose proof (Z.pow_pos_nonneg 2 (shift - 1) ltac:(lia) ltac:(lia)).
  rewrite (proj2 (Z.ltb_ge (2 ^ (shift - 1)) 0)), (proj2 (Z.eqb_neq 0 (2 ^ (shift - 1)))) by lia. done.
Qed.

(** A [float32] by its parts. *)
Definition f32_bits (sign exponent fraction : Z) : Z := sign * 2 ^ 31 + exponent * 2 ^ 23 + fraction.
Lemma f32_parts b :
  0 <= b < 2 ^ 32 -> exists s e f, 0 <= s <= 1 /\ 0 <= e <= 255 /\ 0 <= f < 2 ^ 23 /\ b = f32_bits s e f /\
    Z.shiftr b 31 = s /\ Z.land (Z.shiftr b 23) 255 = e /\ Z.land b (Z.ones 23) = f.
Proof.
  intros Hb. exists (b / 2 ^ 31), (b / 2 ^ 23 mod 2 ^ 8), (b mod 2 ^ 23). unfold f32_bits. change 255 with (Z.ones 8).
  rewrite !Z.land_ones, !Z.shiftr_div_pow2 by lia. change (Z.ones 8) with 255.
  pose proof (Z.div_mod b (2 ^ 31) ltac:(lia)). pose proof (Z.mod_pos_bound b (2 ^ 31) ltac:(lia)).
  pose proof (Z.div_mod b (2 ^ 23) ltac:(lia)). pose proof (Z.mod_pos_bound b (2 ^ 23) ltac:(lia)).
  pose proof (Z.div_mod (b / 2 ^ 23) (2 ^ 8) ltac:(lia)) as Hd. pose proof (Z.mod_pos_bound (b / 2 ^ 23) (2 ^ 8) ltac:(lia)).
  rewrite Z.div_div in Hd by lia. change (2 ^ 23 * 2 ^ 8) with (2 ^ 31) in Hd.
  assert (0 <= b / 2 ^ 31 < 2) by (split; [apply Z.div_pos; lia|apply Z.div_lt_upper_bound; lia]). lia.
Qed.

(** The parts of a [float64]. *)
Lemma f64_parts s e f :
  0 <= s <= 1 -> 0 <= e <= 2047 -> 0 <= f < 2 ^ 52 -> let b := s * 2 ^ 63 + e * 2 ^ 52 + f in
  f64_magnitude b = e * 2 ^ 52 + f /\ Z.shiftr b 63 = s /\ Z.shiftr (f64_magnitude b) 52 = e /\ Z.land b (Z.ones 52) = f /\
  f64_negative b = (s =? 1) /\ 0 <= b < 2 ^ 64.
Proof.
  intros Hs He Hf b. assert (b = s * 2 ^ 63 + e * 2 ^ 52 + f) as Heq by done. clearbody b. assert (f64_magnitude b = e * 2 ^ 52 + f) as Hm.
  { unfold f64_magnitude. rewrite Z.land_ones by lia. symmetry. apply (Z.mod_unique _ (2 ^ 63) s); [left; change (2 ^ 63) with 9223372036854775808; change (2 ^ 52) with 4503599627370496 in *; lia|]. rewrite Heq. ring. }
  split; [done|]. rewrite Hm, Z.land_ones, !Z.shiftr_div_pow2 by lia.
  assert (b / 2 ^ 63 = s) as Hb by (symmetry; apply Z.div_unique with (e * 2 ^ 52 + f); lia).
  split; [done|]. split; [symmetry; apply Z.div_unique with f; lia|].
  split; [symmetry; apply Z.mod_unique with (s * 2 ^ 11 + e); lia|]. split; [|lia].
  unfold f64_negative. rewrite Z.testbit_odd, Z.shiftr_div_pow2, Hb by lia. assert (s = 0 \/ s = 1) as [-> | ->] by lia; done.
Qed.

Lemma f32_widen_parts s e f :
  0 <= s <= 1 -> 0 <= e < 255 -> 0 <= f < 2 ^ 23 -> let b := f32_bits s e f in
  0 <= b < 2 ^ 32 -> exists e' f', 0 <= e' < 2047 /\ 0 <= f' < 2 ^ 52 /\ f32_widen b = s * 2 ^ 63 + e' * 2 ^ 52 + f' /\
    f64_narrow (f32_widen b) = b.
Proof.
  intros Hs He Hf b Hb. destruct (f32_parts b Hb) as (s' & e0 & f0 & Hs' & He' & Hf' & Heq & P1 & P2 & P3).
  assert (s' = s /\ e0 = e /\ f0 = f) as (-> & -> & ->) by (unfold f32_bits in *; subst b; lia).
  assert (Hw : exists e' f', 0 <= e' < 2047 /\ 0 <= f' < 2 ^ 52 /\ f32_widen b = s * 2 ^ 63 + e' * 2 ^ 52 + f' /\
    ((e = 0 /\ f = 0 /\ e' = 0 /\ f' = 0) \/
     (e = 0 /\ f <> 0 /\ exists h, 0 <= h < 23 /\ e' = h + 874 /\ 2 ^ 52 + f' = Z.shiftl f (52 - h)) \/
     (e <> 0 /\ e' = e + 896 /\ f' = Z.shiftl f 29))).
  { unfold f32_widen. rewrite P1, P2, P3. rewrite (proj2 (Z.eqb_neq e 255)) by lia. rewrite !Z.shiftl_mul_pow2 by lia.
    destruct (Z.eqb_spec e 0) as [->|]; [destruct (Z.eqb_spec f 0) as [->|]|].
    - exists 0, 0. split; [lia|]. split; [lia|]. split; [lia|]. by left.
    - pose proof (Z.log2_spec f ltac:(lia)) as Hl. pose proof (Z.log2_nonneg f). set (h := Z.log2 f) in *.
      assert (h < 23) by (apply Z.log2_lt_pow2; lia). rewrite Z.pow_succ_r in Hl by lia.
      assert (2 ^ 52 = 2 ^ h * 2 ^ (52 - h)) as Hp by (rewrite <- Z.pow_add_r by lia; f_equal; lia).
      pose proof (Z.pow_pos_nonneg 2 (52 - h) ltac:(lia) ltac:(lia)). rewrite !Z.shiftl_mul_pow2 by lia.
      exists (h + 874), ((f - 1 * 2 ^ h) * 2 ^ (52 - h)). split; [lia|]. split; [nia|]. split; [lia|]. right. left. split; [done|]. split; [done|].
      exists h. split; [lia|]. split; [lia|]. rewrite Z.shiftl_mul_pow2 by lia. nia.
    - exists (e + 896), (f * 2 ^ 29). split; [lia|]. split; [lia|]. split; [rewrite !Z.shiftl_mul_pow2 by lia; lia|]. right. right. split; [done|]. split; [done|].
      by rewrite Z.shiftl_mul_pow2. }
  destruct Hw as (e' & f' & He2 & Hf2 & Hw & Hcase). exists e', f'. do 3 (split; [done|]). rewrite Hw.
  destruct (f64_parts s e' f' Hs ltac:(lia) Hf2) as (Q1 & Q2 & Q3 & Q4 & _). unfold f64_narrow. rewrite Q2, Q3, Q4, Q1.
  rewrite (proj2 (Z.eqb_neq e' 2047)) by lia. rewrite Heq. unfold f32_bits. rewrite (Z.shiftl_mul_pow2 s) by lia.
  destruct Hcase as [(-> & -> & -> & ->)|[(-> & Hnf & h & Hh & -> & Hm)|(Hne & -> & ->)]].
  - cbn [Z.ltb Z.compare Z.eqb]. lia.
  - rewrite (proj2 (Z.ltb_ge 896 (h + 874))), (proj2 (Z.eqb_neq (h + 874) 0)) by lia.
    replace (Z.shiftl 1 52 + f') with (Z.shiftl f (52 - h)) by (rewrite <- Hm; change (Z.shiftl 1 52) with (2 ^ 52); lia).
    replace (29 + (897 - (h + 874))) with (52 - h) by lia. rewrite round_even_exact by lia. lia.
  - rewrite (proj2 (Z.ltb_lt 896 (e + 896))) by lia.
    replace ((e + 896) * 2 ^ 52 + Z.shiftl f 29 - Z.shiftl 896 52) with (Z.shiftl (e * 2 ^ 23 + f) 29).
    2:{ rewrite !Z.shiftl_mul_pow2 by lia. lia. }
    rewrite round_even_exact by lia. change (Z.shiftl 255 23) with (255 * 2 ^ 23). lia.
Qed.

(** A finite [float32] is a finite [float64], and the conversion back is exact. *)
Lemma f32_roundtrip b :
  0 <= b < 2 ^ 32 -> f64_IsNaN (f32_widen b) || f64_IsInf (f32_widen b) = false ->
  0 <= f32_widen b < 2 ^ 64 /\ f64_narrow (f32_widen b) = b.
Proof.
  intros Hb Hfin. destruct (f32_parts b Hb) as (s & e & f & Hs & He & Hf & Heq & P1 & P2 & P3). destruct (Z.eq_dec e 255) as [->|Hne].
  - exfalso. unfold f32_widen in Hfin. rewrite P1, P2, P3 in Hfin. cbn [Z.eqb Pos.eqb] in Hfin.
    assert (Z.shiftl s 63 + f64_infinity + Z.shiftl f 29 = s * 2 ^ 63 + 2047 * 2 ^ 52 + f * 2 ^ 29) as Hx.
    { rewrite !Z.shiftl_mul_pow2 by lia. unfold f64_infinity. rewrite Z.shiftl_mul_pow2 by lia. lia. }
    rewrite Hx in Hfin. destruct (f64_parts s 2047 (f * 2 ^ 29) Hs) as (Q1 & _); [lia|lia|]. unfold f64_IsNaN, f64_IsInf in Hfin. rewrite Q1 in Hfin.
    apply orb_false_iff in Hfin as [H1 H2]. to_prop. unfold f64_infinity in *. rewrite Z.shiftl_mul_pow2 in * by lia. lia.
  - subst b. destruct (f32_widen_parts s e f Hs ltac:(lia) Hf Hb) as (e' & f' & He' & Hf' & Hw & Hn). split; [|done]. rewrite Hw.
    by apply (f64_parts s e' f' Hs ltac:(lia) Hf').
Qed.

(** ** Values that the constructors make *)
Inductive scalar_value : Value -> Prop :=
| ScalarBinary b : scalar_value (BinaryValue b)
| ScalarString t : scalar_value (StringValue t)
| ScalarBool b : scalar_value (BoolValue b)
| ScalarInt32 z : is_i32 z -> scalar_value (Int32Value z)
| ScalarInt64 z : is_i64 z -> scalar_value (Int64Value z)
| ScalarUint32 z : is_u32 z -> scalar_value (Uint32Value z)
| ScalarUint64 z : is_u64 z -> scalar_value (Uint64Value z)
| ScalarFloat32 b v : 0 <= b < 2 ^ 32 -> Float32Value b = Ok v -> scalar_value v
| ScalarFloat64 b v : 0 <= b < 2 ^ 64 -> Float64Value b = Ok v -> scalar_value v.
Inductive built_value : Value -> Prop :=
| BuiltNull kind array v : NullValue kind array = Ok v -> built_value v
| BuiltScalar v : scalar_value v -> built_value v
| BuiltArray kind elements v : Forall scalar_value elements -> ArrayValue kind elements = Ok v -> built_value v.

Lemma scalar_plain v : scalar_value v -> v_null v = false /\ v_array v = false /\ v_elements v = [] /\ kind_valid (v_kind v) = true.
Proof. destruct 1; try done; unfold Float32Value, Float64Value in *; case_in H0; try done; by injection H0 as <-. Qed.
Lemma built_kind v : built_value v -> kind_valid (v_kind v) = true.
Proof.
  destruct 1 as [kind array v H|v H|kind elements v Hf H].
  - unfold NullValue in H. destruct (kind_valid kind) eqn:E; [|done]. by injection H as <-.
  - by apply scalar_plain in H as (_ & _ & _ & ?).
  - unfold ArrayValue in H. destruct (kind_valid kind) eqn:E; [|done]. cbn in H. case_in H; [done|]. by injection H as <-.
Qed.
(** A value that is neither NULL nor an array is a scalar; the elements of an
    array are scalars of its kind. *)
Lemma built_scalar v : built_value v -> v_null v = false -> v_array v = false -> scalar_value v.
Proof.
  destruct 1 as [kind array v H|v H|kind elements v Hf H]; intros Hn Ha; [|done|].
  - unfold NullValue in H. case_in H; [done|]. by injection H as <-.
  - unfold ArrayValue in H. case_in H; [done|]. case_in H; [done|]. by injection H as <-.
Qed.
Lemma built_array v :
  built_value v -> v_null v = false -> v_array v = true -> Forall (fun e => scalar_value e /\ v_kind e = v_kind v) (v_elements v).
Proof.
  destruct 1 as [kind array v H|v H|kind elements v Hf H]; intros Hn Ha.
  - unfold NullValue in H. case_in H; [done|]. by injection H as <-.
  - apply scalar_plain in H as (_ & H & _). congruence.
  - unfold ArrayValue in H. case_in H; [done|]. destruct (existsb _ elements) eqn:Ex; [done|]. injection H as <-. cbn.
    rewrite Forall_forall in Hf |- *. intros e He. split; [by apply Hf|].
    destruct (decide (v_kind e = kind)) as [|Hne]; [done|]. exfalso. apply not_true_iff_false in Ex. apply Ex, existsb_exists. exists e.
    split; [by apply list_elem_of_In|]. rewrite bool_decide_false by done. by rewrite !orb_true_r.
Qed.

(** ** The order of scalars *)
Definition value_rank (v : Value) : bytes + Z :=
  match v_kind v with
  | ValueBinary => inl (v_binary v)
  | ValueString => inl (v_text v)
  | ValueBool => inr (Z.b2z (v_boolean v))
  | ValueInt32 | ValueInt64 => inr (v_signed v)
  | ValueUint32 | ValueUint64 => inr (v_unsigned v)
  | _ => inr (f64_order (v_number v))
  end.
Definition rank_compare (a b : bytes + Z) : Z :=
  match a, b with
  | inl a, inl b => bytes_Compare a b
  | inr a, inr b => compare_by Z.ltb a b
  | inl _, inr _ => -1
  | inr _, inl _ => 1
  end.

Lemma compare_by_bytes a b : compare_by bytes_ltb a b = bytes_Compare a b.
Proof.
  unfold compare_by, bytes_Compare, bytes_ltb. rewrite (bytes_compare_antisym a b). by destruct (bytes_compare a b).
Qed.
Lemma scalar_finite v : scalar_value v -> (v_kind v = ValueFloat32 \/ v_kind v = ValueFloat64) -> f64_IsNaN (v_number v) = false.
Proof.
  destruct 1 as [| | | | | | |b v Hb H|b v Hb H]; try (by intros [|]); intros _;
    (unfold Float32Value, Float64Value in H; destruct (_ || _) eqn:E; [done|]; injection H as <-; cbn; by apply orb_false_iff in E as [? _]).
Qed.

Lemma compareValues_rank a b :
  scalar_value a -> scalar_value b -> v_kind a = v_kind b -> compareValues a b = Ok (rank_compare (value_rank a) (value_rank b)).
Proof.
  intros Ha Hb Hk. destruct (scalar_plain a Ha) as (Na & Aa & _ & Ka). destruct (scalar_plain b Hb) as (Nb & Ab & _ & _).
  unfold compareValues, value_rank. rewrite Na, Nb, Aa, Ab, <- Hk, bool_decide_true, Ka by done. cbn [orb negb].
  destruct (v_kind a) eqn:E; try done; cbn [rank_compare].
  - by rewrite compare_by_bytes.
  - by destruct (v_boolean a), (v_boolean b).
  - unfold compare_by, f64_ltb. rewrite (scalar_finite a), (scalar_finite b) by (auto; left; congruence). done.
  - unfold compare_by, f64_ltb. rewrite (scalar_finite a), (scalar_finite b) by (auto; right; congruence). done.
Qed.

Definition rank_lt (a b : bytes + Z) : Prop := rank_compare a b < 0.
#[export] Instance rank_lt_dec a b : Decision (rank_lt a b).
Proof. unfold rank_lt. apply _. Defined.
Lemma bytes_Compare_lt a b : bytes_Compare a b < 0 <-> bytes_lt a b.
Proof. unfold bytes_Compare, bytes_lt, bytes_ltb. destruct (bytes_compare a b); split; (lia || done). Qed.
Lemma rank_compare_antisym a b : rank_compare b a = - rank_compare a b.
Proof.
  destruct a as [a|a], b as [b|b]; cbn; try done.
  - unfold bytes_Compare. rewrite (bytes_compare_antisym a b). by destruct (bytes_compare a b).
  - unfold compare_by. destruct (a <? b) eqn:E1, (b <? a) eqn:E2; to_prop; lia.
Qed.
Lemma rank_compare_0 a b : rank_compare a b = 0 <-> a = b.
Proof.
  destruct a as [a|a], b as [b|b]; cbn; try (split; done).
  - unfold bytes_Compare. destruct (bytes_compare a b) eqn:E; [apply bytes_compare_eq in E as ->; done| |];
      (split; [done|]; intros [= ->]; by rewrite (proj2 (bytes_compare_eq b b) eq_refl) in E).
  - unfold compare_by. destruct (a <? b) eqn:E1, (b <? a) eqn:E2; to_prop; (split; [intros; (lia || f_equal; lia)|intros [= ->]; lia]).
Qed.
Lemma rank_lt_trans a b c : rank_lt a b -> rank_lt b c -> rank_lt a c.
Proof.
  unfold rank_lt. destruct a as [a|a], b as [b|b], c as [c|c]; cbn; try lia.
  - rewrite !bytes_Compare_lt. apply bytes_lt_trans.
  - unfold compare_by. destruct (a <? b) eqn:E1, (b <? a) eqn:E2, (b <? c) eqn:E3, (c <? b) eqn:E4, (a <? c) eqn:E5, (c <? a) eqn:E6; to_prop; lia.
Qed.
Lemma rank_trichotomy a b : rank_lt a b \/ a = b \/ rank_lt b a.
Proof. unfold rank_lt. rewrite (rank_compare_antisym a b), <- rank_compare_0. lia. Qed.
