(* ===== verification/Like.v ===== *)
(** * LIKE patterns: [internal/db/sqlengine/like.go]

    A pattern is compiled to a regular expression of Go's [regexp]: runes, [.]
    and [.*] between [\A] and [\z], with [.] matching every rune.  Its meaning
    is [regexp_match]; that such an expression compiles is taken for granted. *)
From S2P Require Import Prelude Bytes Utf8.
#[local] Open Scope string_scope.
#[local] Open Scope list_scope.
#[local] Open Scope Z_scope.

Definition MaxFilterBytes : Z := 1048576.

Inductive LikeMode := LikeExact | LikeAny | LikePrefix | LikeSuffix | LikeContains | LikeGeneral.
Inductive likeToken := likeLiteral (rune : Z) | likeAnySequence | likeAnyRune.
#[export] Instance LikeMode_eq_dec : EqDecision LikeMode.
Proof. solve_decision. Defined.
#[export] Instance likeToken_eq_dec : EqDecision likeToken.
Proof. solve_decision. Defined.

(** ** The regular expressions *)
Inductive regexp_item := ReRune (rune : Z) | ReAnyRune | ReAnySequence.
Fixpoint regexp_match (items : list regexp_item) (runes : list Z) : bool :=
  match items with
  | [] => match runes with [] => true | _ => false end
  | ReRune rune :: items => match runes with r :: runes => (r =? rune) && regexp_match items runes | [] => false end
  | ReAnyRune :: items => match runes with _ :: runes => regexp_match items runes | [] => false end
  | ReAnySequence :: items =>
      (fix any (runes : list Z) : bool :=
         regexp_match items runes || match runes with [] => false | _ :: runes => any runes end) runes
  end.
Definition like_item (token : likeToken) : regexp_item :=
  match token with likeLiteral rune => ReRune rune | likeAnySequence => ReAnySequence | likeAnyRune => ReAnyRune end.

(** ** Compilation *)
Record LikePattern := { lk_raw : bytes; lk_mode : LikeMode; lk_literal : bytes; lk_regexp : list regexp_item }.

Definition backslash : Z := 92.
Definition percent : Z := 37.
Definition underscore : Z := 95.

(** The loop of [tokenizeLike], over the remaining runes. *)
Fixpoint tokenize_loop (runes : list Z) (tokens : list likeToken) : list likeToken :=
  match runes with
  | [] => tokens
  | current :: rest =>
      let plain :=
        if current =? percent then
          if bool_decide (last tokens = Some likeAnySequence) then tokens else tokens ++ [likeAnySequence]
        else if current =? underscore then tokens ++ [likeAnyRune]
        else tokens ++ [likeLiteral current] in
      match rest with
      | next :: rest' => if current =? backslash then tokenize_loop rest' (tokens ++ [likeLiteral next]) else tokenize_loop rest plain
      | [] => tokenize_loop rest plain
      end
  end.
Definition tokenizeLike (runes : list Z) : list likeToken := tokenize_loop runes [].

(** [literalBetween] on a slice of the tokens. *)
Fixpoint literal_of (tokens : list likeToken) : option bytes :=
  match tokens with
  | [] => Some []
  | likeLiteral rune :: tokens => match literal_of tokens with Some value => Some (encode_rune rune ++ value) | None => None end
  | _ :: _ => None
  end.
Definition is_wildcard (token : likeToken) : bool := match token with likeLiteral _ => false | _ => true end.
Definition classifyLike (tokens : list likeToken) : LikeMode * bytes :=
  let count := length tokens in
  let between (start stop : nat) := literal_of (take (stop - start) (drop start tokens)) in
  if Nat.eqb (length (filter (fun token => is_wildcard token = true) tokens)) 0 then (LikeExact, default [] (between 0%nat count))
  else if Nat.eqb count 1 && bool_decide (head tokens = Some likeAnySequence) then (LikeAny, [])
  else
    let suffix_percent := bool_decide (last tokens = Some likeAnySequence) in
    let prefix_percent := bool_decide (head tokens = Some likeAnySequence) in
    match (if suffix_percent then between 0%nat (count - 1)%nat else None) with
    | Some literal => (LikePrefix, literal)
    | None =>
    match (if prefix_percent then between 1%nat count else None) with
    | Some literal => (LikeSuffix, literal)
    | None =>
    match (if (2 <=? count)%nat && prefix_percent && suffix_percent then between 1%nat (count - 1)%nat else None) with
    | Some literal => (LikeContains, literal)
    | None => (LikeGeneral, [])
    end end end.

Definition CompileLike (pattern : bytes) : result LikePattern :=
  if MaxFilterBytes <? zlen pattern then Fail (errors_New "LIKE pattern is too long")
  else match runes_of pattern with
  | None => Fail (errors_New "LIKE pattern is not valid UTF-8")
  | Some runes =>
      let tokens := tokenizeLike runes in
      let '(mode, literal) := classifyLike tokens in
      Ok {| lk_raw := pattern; lk_mode := mode; lk_literal := literal; lk_regexp := like_item <$> tokens |}
  end.
Definition like_Match (p : LikePattern) (value : bytes) : bool :=
  match runes_of value with Some runes => regexp_match (lk_regexp p) runes | None => false end.

(** ** The meaning of a pattern *)

(** Percent stands for any runes, underscore for one, and a backslash makes the
    next rune stand for itself. *)
Inductive like_matches : list Z -> list Z -> Prop :=
| LikeMatchEnd : like_matches [] []
| LikeMatchEscape c p v : like_matches p v -> like_matches (backslash :: c :: p) (c :: v)
| LikeMatchSkip p v : like_matches p v -> like_matches (percent :: p) v
| LikeMatchMore p c v : like_matches (percent :: p) v -> like_matches (percent :: p) (c :: v)
| LikeMatchOne p c v : like_matches p v -> like_matches (underscore :: p) (c :: v)
| LikeMatchRune c p v :
    c <> percent -> c <> underscore -> (c = backslash -> p = []) -> like_matches p v -> like_matches (c :: p) (c :: v).

Lemma regexp_any items runes :
  regexp_match (ReAnySequence :: items) runes = true <-> exists v1 v2, runes = v1 ++ v2 /\ regexp_match items v2 = true.
Proof.
  cbn [regexp_match]. induction runes as [|r runes IH].
  - rewrite orb_false_r. split; [intros H; by exists [], []|]. intros (v1 & v2 & Hv & H). symmetry in Hv. apply app_eq_nil in Hv as [-> ->]. done.
  - rewrite orb_true_iff, IH. split.
    + intros [H|(v1 & v2 & -> & H)]; [by exists [], (r :: runes)|by exists (r :: v1), v2].
    + intros ([|c v1] & v2 & Hv & H); cbn in Hv; [left; by rewrite Hv|injection Hv as <- ->; right; by exists v1, v2].
Qed.
Lemma regexp_app a b runes :
  regexp_match (a ++ b) runes = true <-> exists v1 v2, runes = v1 ++ v2 /\ regexp_match a v1 = true /\ regexp_match b v2 = true.
Proof.
  revert runes. induction a as [|item a IH]; intros runes.
  { split; [intros H; by exists [], runes|]. intros ([|] & v2 & -> & H & Hb); done. }
  destruct item as [rune| |]; rewrite <- app_comm_cons.
  - cbn [regexp_match]. destruct runes as [|r runes].
    + split; [done|]. intros ([|] & v2 & Hv & H & _); done.
    + rewrite andb_true_iff, IH. split.
      * intros (Hr & v1 & v2 & -> & H1 & H2). exists (r :: v1), v2. by rewrite Hr, H1.
      * intros ([|c v1] & v2 & Hv & H1 & H2); [done|]. injection Hv as <- ->. apply andb_true_iff in H1 as [Hr H1]. split; [done|by exists v1, v2].
  - cbn [regexp_match]. destruct runes as [|r runes].
    + split; [done|]. intros ([|] & v2 & Hv & H & _); done.
    + rewrite IH. split.
      * intros (v1 & v2 & -> & H1 & H2). by exists (r :: v1), v2.
      * intros ([|c v1] & v2 & Hv & H1 & H2); [done|]. injection Hv as <- ->. by exists v1, v2.
  - rewrite regexp_any. setoid_rewrite IH. split.
    + intros (u & w & -> & v1 & v2 & -> & H1 & H2). exists (u ++ v1), v2. rewrite app_assoc. split; [done|]. split; [|done].
      apply regexp_any. by exists u, v1.
    + intros (v1 & v2 & -> & H1 & H2). apply regexp_any in H1 as (u & w & -> & H1). exists u, (w ++ v2).
      rewrite app_assoc. split; [done|]. by exists w, v2.
Qed.

(** The tokens mean what the runes mean. *)
Lemma like_percent p v : like_matches (percent :: p) v <-> exists v1 v2, v = v1 ++ v2 /\ like_matches p v2.
Proof.
  split.
  - intros H. remember (percent :: p) as q eqn:Eq. induction H as [|c q v H IH|q v H IH|q c v H IH|q c v H IH|c q v Hc Hu Hb H IH]; try done.
    + injection Eq as ->. by exists [], v.
    + destruct (IH Eq) as (v1 & v2 & -> & H2). by exists (c :: v1), v2.
    + by injection Eq.
  - intros (v1 & v2 & -> & H). induction v1 as [|c v1 IH]; [by apply LikeMatchSkip|by apply LikeMatchMore].
Qed.
Lemma tokenize_loop_spec runes tokens v :
  regexp_match (like_item <$> tokenize_loop runes tokens) v = true <->
  exists v1 v2, v = v1 ++ v2 /\ regexp_match (like_item <$> tokens) v1 = true /\ like_matches runes v2.
Proof.
  remember (length runes) as n eqn:Hn. revert runes tokens v Hn. induction (lt_wf n) as [n _ IH]. intros runes tokens v ->.
  destruct runes as [|current rest].
  { cbn. split; [intros H; exists v, []; rewrite app_nil_r; split; [done|split; [done|constructor]]|].
    intros (v1 & v2 & -> & H & Hm). inversion Hm. by rewrite app_nil_r. }
  assert (Hsnoc : forall token v, regexp_match (like_item <$> (tokens ++ [token])) v = true <->
    exists v1 v2, v = v1 ++ v2 /\ regexp_match (like_item <$> tokens) v1 = true /\ regexp_match [like_item token] v2 = true)
    by (intros token w; by rewrite fmap_app, regexp_app).
  assert (Hone : forall rune v, regexp_match [ReRune rune] v = true <-> v = [rune]).
  { intros rune [|r [|]]; cbn; rewrite ?andb_false_r, ?andb_true_r; split; try done; [intros; to_prop; by subst|intros [= ->]; apply Z.eqb_refl]. }
  set (plain := if current =? percent then
          if bool_decide (last tokens = Some likeAnySequence) then tokens else tokens ++ [likeAnySequence]
        else if current =? underscore then tokens ++ [likeAnyRune] else tokens ++ [likeLiteral current]).
  assert (Hplain : (current = backslash -> rest = []) ->
    regexp_match (like_item <$> tokenize_loop rest plain) v = true <->
    exists v1 v2, v = v1 ++ v2 /\ regexp_match (like_item <$> tokens) v1 = true /\ like_matches (current :: rest) v2).
  { intros Hb. rewrite (IH (length rest)) by (done || (cbn; lia)). unfold plain. destruct (Z.eqb_spec current percent) as [->|Hp].
    - assert (Hany : forall w, regexp_match (like_item <$> (if bool_decide (last tokens = Some likeAnySequence) then tokens else tokens ++ [likeAnySequence])) w = true <->
        exists v1 v2, w = v1 ++ v2 /\ regexp_match (like_item <$> tokens) v1 = true).
      { intros w. case_bool_decide as Hl.
        - apply last_Some in Hl as [l ->]. split; [intros H; exists w, []; by rewrite app_nil_r|].
          intros (v1 & v2 & -> & H). rewrite fmap_app, regexp_app in H |- *. destruct H as (u1 & u2 & -> & H1 & H2).
          exists u1, (u2 ++ v2). rewrite app_assoc. split; [done|]. split; [done|]. apply regexp_any. exists (u2 ++ v2), []. by rewrite app_nil_r.
        - rewrite Hsnoc. split; [intros (v1 & v2 & -> & H & _); by exists v1, v2|]. intros (v1 & v2 & -> & H). exists v1, v2. split; [done|].
          split; [done|]. apply regexp_any. exists v2, []. by rewrite app_nil_r. }
      setoid_rewrite Hany. setoid_rewrite like_percent. split.
      + intros (v1 & v2 & -> & (u1 & u2 & -> & H1) & H2). exists u1, (u2 ++ v2). rewrite app_assoc. split; [done|]. split; [done|]. by exists u2, v2.
      + intros (v1 & v2 & -> & H1 & u1 & u2 & -> & H2). exists (v1 ++ u1), u2. rewrite app_assoc. split; [done|]. split; [|done]. by exists v1, u1.
    - destruct (Z.eqb_spec current underscore) as [->|Hu].
      + setoid_rewrite Hsnoc. split.
        * intros (v1 & v2 & -> & (u1 & [|r [|]] & -> & H1 & Hr) & H2); try done. exists u1, (r :: v2). rewrite <- app_assoc. split; [done|].
          split; [done|]. by apply LikeMatchOne.
        * intros (v1 & v2 & -> & H1 & H2). inversion H2 as [| | | |p c w Hm|]; subst; [|done]. exists (v1 ++ [c]), w. rewrite <- app_assoc.
          split; [done|]. split; [|done]. by exists v1, [c].
      + setoid_rewrite Hsnoc. setoid_rewrite Hone. split.
        * intros (v1 & v2 & -> & (u1 & ? & -> & H1 & ->) & H2). exists u1, (current :: v2). rewrite <- app_assoc. split; [done|].
          split; [done|]. by apply LikeMatchRune.
        * intros (v1 & v2 & -> & H1 & H2). exists (v1 ++ [current]). inversion H2; subst; try done; [by specialize (Hb eq_refl)|].
          eexists. rewrite <- app_assoc. split; [done|]. split; [|done]. by exists v1, [current]. }
  cbn [tokenize_loop]. fold plain. destruct rest as [|next rest']; [by apply Hplain|]. destruct (Z.eqb_spec current backslash) as [->|Hne]; [|by apply Hplain].
  rewrite (IH (length rest')) by (done || (cbn; lia)). setoid_rewrite Hsnoc. setoid_rewrite Hone. split.
  - intros (v1 & v2 & -> & (u1 & ? & -> & H1 & ->) & H2). exists u1, (next :: v2). rewrite <- app_assoc. split; [done|]. split; [done|]. by apply LikeMatchEscape.
  - intros (v1 & v2 & -> & H1 & H2). inversion H2 as [|c p w Hm| | | |c p w H3 H4 H5 Hm]; subst; [|by specialize (H5 eq_refl)].
    exists (v1 ++ [next]), w. rewrite <- app_assoc. split; [done|]. split; [|done]. by exists v1, [next].
Qed.

Lemma tokenizeLike_spec runes v : regexp_match (like_item <$> tokenizeLike runes) v = true <-> like_matches runes v.
Proof.
  unfold tokenizeLike. rewrite tokenize_loop_spec. split; [|intros H; by exists [], v]. intros (v1 & v2 & -> & H1 & H2). by destruct v1.
Qed.

(** The literal runes of a token list are runes of the pattern. *)
Lemma tokenize_loop_valid (P : Z -> Prop) runes tokens :
  Forall P runes -> Forall (fun token => forall rune, token = likeLiteral rune -> P rune) tokens ->
  Forall (fun token => forall rune, token = likeLiteral rune -> P rune) (tokenize_loop runes tokens).
Proof.
  remember (length runes) as n eqn:Hn. revert runes tokens Hn. induction (lt_wf n) as [n _ IH]. intros runes tokens -> Hr Ht.
  destruct runes as [|current rest]; [done|]. cbn [tokenize_loop]. set (plain := if current =? percent then _ else _).
  apply Forall_cons in Hr as [Hc Hr].
  assert (Hplain : Forall (fun token => forall rune, token = likeLiteral rune -> P rune) plain).
  { unfold plain. repeat case_if; try done; (apply Forall_app; split; [done|]); constructor; try done. by intros rune [= ->]. }
  destruct rest as [|next rest']; [done|]. case_if; [|apply (IH (length (next :: rest'))); [cbn; lia|done..]].
  apply Forall_cons in Hr as [Hn Hr]. apply (IH (length rest')); [cbn; lia|done|done|]. apply Forall_app. split; [done|]. constructor; [|done]. by intros rune [= ->].
Qed.

(** ** The classification *)
Definition runes_bytes (runes : list Z) : bytes := runes ≫= encode_rune.
Lemma literal_of_inv tokens literal :
  literal_of tokens = Some literal -> exists runes, tokens = likeLiteral <$> runes /\ literal = runes_bytes runes.
Proof.
  revert literal. induction tokens as [|[rune| |] tokens IH]; intros literal H; try done.
  - injection H as <-. by exists [].
  - cbn in H. destruct (literal_of tokens) as [value|]; [|done]. injection H as <-. destruct (IH value eq_refl) as (runes & -> & ->). by exists (rune :: runes).
Qed.
Lemma literal_of_literals runes : literal_of (likeLiteral <$> runes) = Some (runes_bytes runes).
Proof. induction runes as [|r runes IH]; [done|]. rewrite fmap_cons. cbn [literal_of]. by rewrite IH. Qed.
Lemma regexp_literals runes v : regexp_match (like_item <$> (likeLiteral <$> runes)) v = true <-> v = runes.
Proof.
  revert v. induction runes as [|r runes IH]; intros v; [by destruct v|]. destruct v as [|c v]; [done|]. cbn. rewrite andb_true_iff, IH, Z.eqb_eq.
  split; [by intros [-> ->]|by intros [= -> ->]].
Qed.
Lemma regexp_any_end v : regexp_match [ReAnySequence] v = true.
Proof. apply regexp_any. exists v, []. by rewrite app_nil_r. Qed.

(** What a mode and its literal say of a value. *)
Definition mode_matches (mode : LikeMode) (literal value : bytes) : Prop :=
  match mode with
  | LikeExact => value = literal
  | LikeAny => True
  | LikePrefix => literal `prefix_of` value
  | LikeSuffix => literal `suffix_of` value
  | LikeContains => exists before after, value = before ++ literal ++ after
  | LikeGeneral => False
  end.
Inductive class_shape : LikeMode -> bytes -> list likeToken -> Prop :=
| ShapeExact runes : class_shape LikeExact (runes_bytes runes) (likeLiteral <$> runes)
| ShapeAny : class_shape LikeAny [] [likeAnySequence]
| ShapePrefix runes : class_shape LikePrefix (runes_bytes runes) ((likeLiteral <$> runes) ++ [likeAnySequence])
| ShapeSuffix runes : class_shape LikeSuffix (runes_bytes runes) (likeAnySequence :: (likeLiteral <$> runes))
| ShapeContains runes : class_shape LikeContains (runes_bytes runes) (likeAnySequence :: (likeLiteral <$> runes) ++ [likeAnySequence])
| ShapeGeneral tokens : class_shape LikeGeneral [] tokens.

Lemma no_wildcards tokens :
  length (filter (fun token => is_wildcard token = true) tokens) = 0%nat -> exists runes, tokens = likeLiteral <$> runes.
Proof.
  induction tokens as [|token tokens IH]; [by exists []|]. rewrite filter_cons. case_decide as Hd; [done|]. intros H.
  destruct (IH H) as [runes ->]. destruct token as [rune| |]; try done. by exists (rune :: runes).
Qed.
Lemma classify_shape tokens mode literal : classifyLike tokens = (mode, literal) -> class_shape mode literal tokens.
Proof.
  unfold classifyLike. destruct (Nat.eqb (length (filter _ tokens)) 0) eqn:Hw.
  { intros [= <- <-]. apply Nat.eqb_eq in Hw. apply no_wildcards in Hw as [runes ->]. rewrite drop_0, Nat.sub_0_r, firstn_all, literal_of_literals.
    apply ShapeExact. }
  clear Hw. destruct (Nat.eqb (length tokens) 1 && _) eqn:Ha.
  { intros [= <- <-]. apply andb_true_iff in Ha as [Hn Ha]. apply bool_decide_eq_true in Ha. to_prop. destruct tokens as [|token [|]]; try done. injection Ha as ->. apply ShapeAny. }
  clear Ha. destruct (if bool_decide (last tokens = Some likeAnySequence) then _ else None) as [l|] eqn:H1.
  { intros [= <- <-]. case_bool_decide as Hl; [|done]. apply last_Some in Hl as [rest ->].
    rewrite drop_0, length_app, Nat.add_sub, Nat.sub_0_r, take_app_length in H1. apply literal_of_inv in H1 as (runes & -> & ->). apply ShapePrefix. }
  clear H1. destruct (if bool_decide (head tokens = Some likeAnySequence) then _ else None) as [l|] eqn:H1.
  { intros [= <- <-]. case_bool_decide as Hl; [|done]. destruct tokens as [|token rest]; [done|]. injection Hl as ->.
    change (drop 1 (likeAnySequence :: rest)) with rest in H1.
    rewrite firstn_all2 in H1 by (cbn; lia). apply literal_of_inv in H1 as (runes & -> & ->). apply ShapeSuffix. }
  clear H1. destruct (if _ && _ && _ then _ else None) as [l|] eqn:H1; [|intros [= <- <-]; apply ShapeGeneral].
  intros [= <- <-]. case_in H1; [|done]. apply andb_true_iff in E as [E Hl]. apply andb_true_iff in E as [Hc Hh]. apply bool_decide_eq_true in Hh, Hl. to_prop.
  destruct tokens as [|token rest]; [done|]. injection Hh as ->. destruct rest as [|token rest] using rev_ind; [cbn in *; lia|].
  rewrite app_comm_cons in Hl. rewrite last_snoc in Hl. injection Hl as ->.
  change (drop 1 (likeAnySequence :: rest ++ [likeAnySequence])) with (rest ++ [likeAnySequence]) in H1.
  replace (length (likeAnySequence :: rest ++ [likeAnySequence]) - 1 - 1)%nat with (length rest) in H1 by (cbn; rewrite length_app; cbn; lia).
  rewrite take_app_length in H1. apply literal_of_inv in H1 as (runes & -> & ->). apply ShapeContains.
Qed.

Lemma runes_start runes : Forall valid_rune runes -> match runes_bytes runes with b :: _ => cont b = false | [] => True end.
Proof.
  unfold runes_bytes. destruct 1 as [|r runes Hr _]; [done|]. destruct (encode_rune_shape r Hr) as (b0 & conts & He & Hb & _).
  cbn [mbind list_bind]. by rewrite He.
Qed.
Lemma runes_bytes_app a b : runes_bytes (a ++ b) = runes_bytes a ++ runes_bytes b.
Proof. unfold runes_bytes. apply bind_app. Qed.
Lemma runes_bytes_inj a b : Forall valid_rune a -> Forall valid_rune b -> runes_bytes a = runes_bytes b -> a = b.
Proof. apply encode_runes_inj. Qed.

(** Bytes of valid text that follow each other begin with whole runes. *)
Lemma runes_prefix literal runes :
  Forall valid_rune literal -> Forall valid_rune runes -> runes_bytes literal `prefix_of` runes_bytes runes -> exists rest, runes = literal ++ rest.
Proof.
  unfold runes_bytes. intros Hl. revert runes. induction Hl as [|r literal Hr Hl IH]; intros runes Hv Hp; [by exists runes|].
  destruct Hv as [|c runes Hc Hv].
  { apply prefix_nil_inv in Hp. destruct (encode_rune_shape r Hr) as (b0 & conts & He & _). cbn [mbind list_bind] in Hp. by rewrite He in Hp. }
  destruct Hp as [k Hk]. change ((r :: literal) ≫= encode_rune) with (encode_rune r ++ (literal ≫= encode_rune)) in Hk.
  change ((c :: runes) ≫= encode_rune) with (encode_rune c ++ (runes ≫= encode_rune)) in Hk. rewrite <- app_assoc in Hk.
  pose proof (decode_encode_rune c (runes ≫= encode_rune) Hc) as D1. pose proof (decode_encode_rune r ((literal ≫= encode_rune) ++ k) Hr) as D2.
  rewrite Hk, D2 in D1. injection D1 as -> Hk'. destruct (IH runes Hv) as [rest ->]; [by exists k|]. by exists rest.
Qed.
Lemma runes_suffix before literal runes :
  Forall valid_rune literal -> Forall valid_rune runes -> runes_bytes runes = before ++ runes_bytes literal ->
  exists rest, runes = rest ++ literal /\ before = runes_bytes rest.
Proof.
  intros Hl Hv H. destruct (encode_split runes before (runes_bytes literal) Hv H) as (r1 & r2 & -> & -> & H2); [by apply runes_start|].
  apply Forall_app in Hv as [_ Hv]. apply runes_bytes_inj in H2 as ->; [by exists r1|done..].
Qed.
Lemma runes_infix before literal after runes :
  Forall valid_rune literal -> Forall valid_rune runes -> runes_bytes runes = before ++ runes_bytes literal ++ after ->
  exists r1 r2, runes = r1 ++ literal ++ r2.
Proof.
  intros Hl Hv H. destruct Hl as [|r literal Hr Hl]; [by exists [], runes|].
  assert (Hs : match runes_bytes (r :: literal) ++ after with b :: _ => cont b = false | [] => True end).
  { pose proof (runes_start (r :: literal) ltac:(by constructor)) as Hs. destruct (encode_rune_shape r Hr) as (b0 & conts & He & _).
    unfold runes_bytes in *. cbn [mbind list_bind] in *. by rewrite He in *. }
  destruct (encode_split runes before _ Hv H Hs) as (r1 & r2 & -> & _ & H2). apply Forall_app in Hv as [_ Hv].
  destruct (runes_prefix (r :: literal) r2) as [rest ->]; [by constructor|done|by exists after|]. by exists r1, rest.
Qed.

Lemma shape_matches mode literal tokens value runes :
  class_shape mode literal tokens -> mode <> LikeGeneral ->
  Forall (fun token => forall rune, token = likeLiteral rune -> valid_rune rune) tokens -> runes_of value = Some runes ->
  regexp_match (like_item <$> tokens) runes = true <-> mode_matches mode literal value.
Proof.
  intros Hs Hm Ht Hv. apply runes_of_inv in Hv as [-> Hv]. fold (runes_bytes runes).
  assert (Hlit : forall l, Forall (fun token => forall rune, token = likeLiteral rune -> valid_rune rune) (likeLiteral <$> l) -> Forall valid_rune l).
  { intros l. rewrite Forall_fmap, !Forall_forall. intros H r Hr. by apply (H r Hr). }
  destruct Hs as [l| |l|l|l|tokens]; [| | | | |done]; cbn [mode_matches].
  - rewrite regexp_literals. split; [by intros ->|]. intros H. apply runes_bytes_inj in H; auto.
  - rewrite regexp_any_end. done.
  - apply Forall_app in Ht as [Ht _]. rewrite fmap_app, regexp_app. setoid_rewrite regexp_literals. split.
    + intros (v1 & v2 & -> & -> & _). rewrite runes_bytes_app. by apply prefix_app_r.
    + intros H. apply runes_prefix in H as [rest ->]; [|by apply Hlit|done]. exists l, rest. split; [done|]. split; [done|apply regexp_any_end].
  - apply Forall_cons in Ht as [_ Ht]. rewrite fmap_cons. cbn [like_item]. rewrite regexp_any. setoid_rewrite regexp_literals. split.
    + intros (v1 & v2 & -> & ->). rewrite runes_bytes_app. by apply suffix_app_r.
    + intros [k Hk]. apply runes_suffix in Hk as (rest & -> & _); [|by apply Hlit|done]. by exists rest, l.
  - apply Forall_cons in Ht as [_ Ht]. apply Forall_app in Ht as [Ht _]. rewrite fmap_cons, fmap_app. cbn [like_item]. rewrite regexp_any.
    setoid_rewrite regexp_app. setoid_rewrite regexp_literals. split.
    + intros (v1 & v2 & -> & w1 & w2 & -> & -> & _). exists (runes_bytes v1), (runes_bytes w2). by rewrite !runes_bytes_app.
    + intros (before & after & Hk). apply runes_infix in Hk as (r1 & r2 & ->); [|by apply Hlit|done]. exists r1, (l ++ r2). split; [done|].
      exists l, r2. split; [done|]. split; [done|apply regexp_any_end].
Qed.

Lemma CompileLike_parts pattern k :
  CompileLike pattern = Ok k -> exists runes, runes_of pattern = Some runes /\ lk_regexp k = like_item <$> tokenizeLike runes /\
    class_shape (lk_mode k) (lk_literal k) (tokenizeLike runes) /\
    Forall (fun token => forall rune, token = likeLiteral rune -> valid_rune rune) (tokenizeLike runes).
Proof.
  unfold CompileLike. intros H. case_in H; [done|]. destruct (runes_of pattern) as [runes|] eqn:Er; [|done].
  destruct (classifyLike (tokenizeLike runes)) as [mode literal] eqn:Ec. injection H as <-. exists runes. split; [done|]. split; [done|].
  split; [by apply classify_shape|]. apply tokenize_loop_valid; [by apply runes_of_inv in Er as [_ ?]|done].
Qed.
(** What the mode of a compiled pattern lets an index do. *)
Lemma like_mode_spec pattern k value runes :
  CompileLike pattern = Ok k -> lk_mode k <> LikeGeneral -> runes_of value = Some runes ->
  like_Match k value = true <-> mode_matches (lk_mode k) (lk_literal k) value.
Proof.
  intros H Hm Hv. apply CompileLike_parts in H as (ps & _ & Hr & Hs & Ht). unfold like_Match. rewrite Hv, Hr. by apply shape_matches.
Qed.
Lemma like_Match_spec pattern k value :
  CompileLike pattern = Ok k ->
  like_Match k value = true <-> exists ps vs, runes_of pattern = Some ps /\ runes_of value = Some vs /\ like_matches ps vs.
Proof.
  intros H. apply CompileLike_parts in H as (ps & Hp & Hr & _). unfold like_Match. rewrite Hr. destruct (runes_of value) as [vs|].
  - rewrite tokenizeLike_spec. split; [intros Hl; by exists ps, vs|]. intros (ps' & vs' & H1 & H2 & H3). rewrite Hp in H1. by simplify_eq.
  - split; [done|]. by intros (? & ? & _ & ? & _).
Qed.

(** C24: A compiled pattern matches exactly the valid texts that its runes describe,
    where percent stands for any runes, underscore for one rune and a backslash for
    the rune after it; and where the mode of the pattern is not GENERAL, a valid text
    is matched exactly when its bytes are the literal, or begin with it, end with it
    or contain it. *)
Theorem like_match_exact pattern k value :
  CompileLike pattern = Ok k ->
  (like_Match k value = true <-> exists ps vs, runes_of pattern = Some ps /\ runes_of value = Some vs /\ like_matches ps vs) /\
  (lk_mode k <> LikeGeneral ->
   like_Match k value = true <-> (exists vs, runes_of value = Some vs) /\ mode_matches (lk_mode k) (lk_literal k) value).
Proof.
  intros H. split; [by apply like_Match_spec|]. intros Hm. split.
  - intros Hl. destruct (runes_of value) as [vs|] eqn:Hv; [|by unfold like_Match in Hl; rewrite Hv in Hl].
    split; [by exists vs|]. by apply (like_mode_spec pattern k value vs H Hm Hv).
  - intros [[vs Hv] Hl]. by apply (like_mode_spec pattern k value vs H Hm Hv).
Qed.
(** The pattern [a\%b%] and the value [a%bc]. *)
Lemma like_match_exact_witness :
  exists k, CompileLike [byte_of_Z 97; byte_of_Z 92; byte_of_Z 37; byte_of_Z 98; byte_of_Z 37] = Ok k /\ lk_mode k = LikePrefix /\
    (exists vs, runes_of [byte_of_Z 97; byte_of_Z 37; byte_of_Z 98; byte_of_Z 99] = Some vs) /\
    mode_matches (lk_mode k) (lk_literal k) [byte_of_Z 97; byte_of_Z 37; byte_of_Z 98; byte_of_Z 99].
Proof.
  eexists. split; [vm_compute; reflexivity|]. split; [reflexivity|].
  apply (like_match_exact [byte_of_Z 97; byte_of_Z 92; byte_of_Z 37; byte_of_Z 98; byte_of_Z 37]); [vm_compute; reflexivity|discriminate|vm_compute; reflexivity].
Defined.
