(* ===== verification/Predicate.v ===== *)
(** * Predicates on a field value: [internal/db/sqlengine/predicate.go]

    Three-valued truth, the predicate kernels that the analyzer builds, and
    their evaluation on one value.  [predicate_meaning] is what SQL says a
    predicate means; [Evaluate_meaning] that the kernel says the same. *)
From S2P Require Import Prelude Bytes Utf8 SqlValue Like.
#[local] Open Scope string_scope.
#[local] Open Scope list_scope.
#[local] Open Scope Z_scope.

Definition MaxContainValues : Z := 32.

(** ** Truth *)
Inductive Truth := TruthUnknown | TruthFalse | TruthTrue.
#[export] Instance Truth_eq_dec : EqDecision Truth.
Proof. solve_decision. Defined.
Definition truth_Match (t : Truth) : bool := bool_decide (t = TruthTrue).
Definition truth_Not (t : Truth) : Truth :=
  match t with TruthTrue => TruthFalse | TruthFalse => TruthTrue | TruthUnknown => TruthUnknown end.
Definition truth_And (t other : Truth) : Truth :=
  if bool_decide (t = TruthFalse) || bool_decide (other = TruthFalse) then TruthFalse
  else if bool_decide (t = TruthTrue) && bool_decide (other = TruthTrue) then TruthTrue
  else TruthUnknown.
Definition truth_Or (t other : Truth) : Truth :=
  if bool_decide (t = TruthTrue) || bool_decide (other = TruthTrue) then TruthTrue
  else if bool_decide (t = TruthFalse) && bool_decide (other = TruthFalse) then TruthFalse
  else TruthUnknown.
Definition truthFromBool (value : bool) : Truth := if value then TruthTrue else TruthFalse.

(** ** Predicates *)
Inductive PredicateOperator :=
| PredicateEQ | PredicateNE | PredicateLT | PredicateLE | PredicateGT | PredicateGE
| PredicateLike | PredicateIn | PredicateContainAll | PredicateContainAny | PredicateIsNull
| PredicateInvalid (code : Z).
#[export] Instance PredicateOperator_eq_dec : EqDecision PredicateOperator.
Proof. solve_decision. Defined.
(** [PredicateEQ <= operator && operator <= PredicateGE]. *)
Definition is_comparison (operator : PredicateOperator) : bool :=
  match operator with
  | PredicateEQ | PredicateNE | PredicateLT | PredicateLE | PredicateGT | PredicateGE => true
  | _ => false
  end.

Record BoundPredicate := {
  bp_operator : PredicateOperator;
  bp_negated : bool;
  bp_right : Value;
  bp_set : list Value;
  bp_like : option LikePattern
}.

Definition NewComparisonPredicate (operator : PredicateOperator) (right : Value) : result BoundPredicate :=
  if negb (is_comparison operator) then Fail (errors_New "sql: not a comparison operator")
  else if v_null right || v_array right || negb (kind_valid (v_kind right))
  then Fail (errors_New "sql: comparison right operand must be a non-null scalar")
  else Ok {| bp_operator := operator; bp_negated := false; bp_right := right; bp_set := []; bp_like := None |}.
Definition NewLikePredicate (pattern : bytes) : result BoundPredicate :=
  match CompileLike pattern with
  | Fail e => Fail e
  | Ok compiled => Ok {| bp_operator := PredicateLike; bp_negated := false; bp_right := no_value; bp_set := []; bp_like := Some compiled |}
  end.
(** The loop over the values of a set: all are scalars of the first one's kind. *)
Definition set_value_ok (kind : option ValueKind) (value : Value) : result (option ValueKind) :=
  if v_null value || v_array value || negb (kind_valid (v_kind value)) then Fail (errors_New "sql: set value must be a non-null scalar")
  else match kind with
  | None => Ok (Some (v_kind value))
  | Some kind =>
      if bool_decide (v_kind value = kind) then Ok (Some kind) else Fail (errors_New "sql: set value kind")
  end.
Definition NewSetPredicate (operator : PredicateOperator) (negated : bool) (values : list Value) : result BoundPredicate :=
  let is_in := bool_decide (operator = PredicateIn) in
  if negb is_in && negb (bool_decide (operator = PredicateContainAll)) && negb (bool_decide (operator = PredicateContainAny))
  then Fail (errors_New "sql: not a set predicate")
  else if is_in && (zlen values =? 0) then Fail (errors_New "sql: IN requires at least one value")
  else if negb is_in && (MaxContainValues <? zlen values) then Fail (errors_New "sql: too many values")
  else match foldM set_value_ok values None with
  | Fail e => Fail e
  | Ok _ => Ok {| bp_operator := operator; bp_negated := negated; bp_right := no_value; bp_set := values; bp_like := None |}
  end.
Definition NewNullPredicate (negated : bool) : BoundPredicate :=
  {| bp_operator := PredicateIsNull; bp_negated := negated; bp_right := no_value; bp_set := []; bp_like := None |}.

(** ** Evaluation *)
Definition negate_if (negated : bool) (t : Truth) : Truth := if negated then truth_Not t else t.

(** The loop over candidates that stops at the first one equal to [value]. *)
Fixpoint any_equal (left : Value) (candidates : list Value) : result bool :=
  match candidates with
  | [] => Ok false
  | candidate :: candidates =>
      match compareValues left candidate with
      | Fail e => Fail e
      | Ok comparison => if comparison =? 0 then Ok true else any_equal left candidates
      end
  end.
Definition evaluateIn (p : BoundPredicate) (left : Value) : result Truth :=
  if v_null left then Ok TruthUnknown
  else if v_array left then Fail (errors_New "sql: IN requires a scalar field")
  else match any_equal left (bp_set p) with
  | Fail e => Fail e
  | Ok matched => Ok (negate_if (bp_negated p) (truthFromBool matched))
  end.

Fixpoint containsValue (values : list Value) (needle : Value) : result bool :=
  match values with
  | [] => Ok false
  | value :: values =>
      match compareValues value needle with
      | Fail e => Fail e
      | Ok comparison => if comparison =? 0 then Ok true else containsValue values needle
      end
  end.
(** The loop over the needles: it stops at the first one whose presence is not [all]. *)
Fixpoint scan_needles (all : bool) (elements needles : list Value) : result bool :=
  match needles with
  | [] => Ok all
  | needle :: needles =>
      match containsValue elements needle with
      | Fail e => Fail e
      | Ok found => if Bool.eqb found all then scan_needles all elements needles else Ok found
      end
  end.
Definition evaluateContain (p : BoundPredicate) (left : Value) : result Truth :=
  if v_null left then Ok TruthUnknown
  else if negb (v_array left) then Fail (errors_New "sql: requires an array field")
  else if match bp_set p with first :: _ => negb (bool_decide (v_kind left = v_kind first)) | [] => false end
  then Fail (errors_New "sql: array element kind does not match set kind")
  else match scan_needles (bool_decide (bp_operator p = PredicateContainAll)) (v_elements left) (bp_set p) with
  | Fail e => Fail e
  | Ok matched => Ok (negate_if (bp_negated p) (truthFromBool matched))
  end.

Definition Evaluate (p : BoundPredicate) (left : Value) : result Truth :=
  if negb (kind_valid (v_kind left)) then Fail (errors_New "sql: predicate input has invalid value kind")
  else match bp_operator p with
  | PredicateIsNull => Ok (negate_if (bp_negated p) (if v_null left then TruthTrue else TruthFalse))
  | PredicateLike =>
      if v_null left then Ok TruthUnknown
      else match bp_like p with
      | Some like =>
          if v_array left || negb (bool_decide (v_kind left = ValueString)) then Fail (errors_New "sql: LIKE requires a STRING scalar and compiled pattern")
          else Ok (if like_Match like (v_text left) then TruthTrue else TruthFalse)
      | None => Fail (errors_New "sql: LIKE requires a STRING scalar and compiled pattern")
      end
  | PredicateIn => evaluateIn p left
  | PredicateContainAll | PredicateContainAny => evaluateContain p left
  | PredicateInvalid _ => Fail (errors_New "sql: invalid bound predicate operator")
  | _ =>
      if v_null left then Ok TruthUnknown
      else if bool_decide (v_kind left = ValueBool) && negb (bool_decide (bp_operator p = PredicateEQ)) && negb (bool_decide (bp_operator p = PredicateNE))
      then Fail (errors_New "sql: BOOL supports only = and !=")
      else match compareValues left (bp_right p) with
      | Fail e => Fail e
      | Ok comparison =>
          let matched :=
            match bp_operator p with
            | PredicateEQ => comparison =? 0
            | PredicateNE => negb (comparison =? 0)
            | PredicateLT => comparison <? 0
            | PredicateLE => comparison <=? 0
            | PredicateGT => 0 <? comparison
            | PredicateGE => 0 <=? comparison
            | _ => false
            end in
          Ok (truthFromBool matched)
      end
  end.

(** ** Well-typed predicates and their meaning *)

(** A value that a field of a kind can hold. *)
Record field_value (kind : ValueKind) (array : bool) (v : Value) : Prop := {
  fv_built : built_value v;
  fv_kind : v_kind v = kind;
  fv_array : v_array v = array
}.
Definition scalar_of (kind : ValueKind) (v : Value) : Prop := scalar_value v /\ v_kind v = kind.

(** A predicate that fits a field of a kind. *)
Definition predicate_ok (kind : ValueKind) (array : bool) (p : BoundPredicate) : Prop :=
  match bp_operator p with
  | PredicateIsNull => True
  | PredicateLike => kind = ValueString /\ array = false /\ exists pattern like, bp_like p = Some like /\ CompileLike pattern = Ok like
  | PredicateIn => array = false /\ bp_set p <> [] /\ Forall (scalar_of kind) (bp_set p)
  | PredicateContainAll | PredicateContainAny => array = true /\ Forall (scalar_of kind) (bp_set p)
  | PredicateInvalid _ => False
  | operator =>
      array = false /\ scalar_of kind (bp_right p) /\ bp_set p = [] /\ (kind = ValueBool -> operator = PredicateEQ \/ operator = PredicateNE)
  end.

Definition same_rank (a b : Value) : bool := bool_decide (value_rank a = value_rank b).
Definition contains_rank (elements : list Value) (needle : Value) : bool := existsb (fun value => same_rank value needle) elements.
(** What the comparison operators say of the order of two scalars. *)
Definition comparison_holds (operator : PredicateOperator) (a b : bytes + Z) : bool :=
  match operator with
  | PredicateEQ => bool_decide (a = b)
  | PredicateNE => bool_decide (a <> b)
  | PredicateLT => bool_decide (rank_lt a b)
  | PredicateLE => bool_decide (rank_lt a b \/ a = b)
  | PredicateGT => bool_decide (rank_lt b a)
  | PredicateGE => bool_decide (rank_lt b a \/ a = b)
  | _ => false
  end.
(** What holds of a value that is not NULL. *)
Definition predicate_holds (p : BoundPredicate) (v : Value) : bool :=
  match bp_operator p with
  | PredicateIsNull => bp_negated p
  | PredicateLike => match bp_like p with Some like => like_Match like (v_text v) | None => false end
  | PredicateIn => xorb (bp_negated p) (existsb (same_rank v) (bp_set p))
  | PredicateContainAll => xorb (bp_negated p) (forallb (contains_rank (v_elements v)) (bp_set p))
  | PredicateContainAny => xorb (bp_negated p) (existsb (contains_rank (v_elements v)) (bp_set p))
  | operator => comparison_holds operator (value_rank v) (value_rank (bp_right p))
  end.
Definition predicate_meaning (p : BoundPredicate) (v : Value) : Truth :=
  if v_null v then
    if bool_decide (bp_operator p = PredicateIsNull) then truthFromBool (negb (bp_negated p)) else TruthUnknown
  else truthFromBool (predicate_holds p v).

(** The operators on the sign of a comparison. *)
Lemma comparison_sign operator a b :
  comparison_holds operator a b =
  let comparison := rank_compare a b in
  match operator with
  | PredicateEQ => comparison =? 0
  | PredicateNE => negb (comparison =? 0)
  | PredicateLT => comparison <? 0
  | PredicateLE => comparison <=? 0
  | PredicateGT => 0 <? comparison
  | PredicateGE => 0 <=? comparison
  | _ => false
  end.
Proof.
  pose proof (rank_compare_antisym a b) as Hanti. pose proof (rank_compare_0 a b) as H0.
  destruct operator; try done; cbn; unfold rank_lt; apply eq_true_iff_eq;
    rewrite ?negb_true_iff, ?Z.eqb_eq, ?Z.eqb_neq, ?Z.ltb_lt, ?Z.leb_le, bool_decide_eq_true, <- ?H0; lia.
Qed.

Lemma compareValues_scalar kind a b :
  scalar_of kind a -> scalar_of kind b -> compareValues a b = Ok (rank_compare (value_rank a) (value_rank b)).
Proof. intros [Ha Ka] [Hb Kb]. apply compareValues_rank; [done..|congruence]. Qed.
Lemma same_rank_compare a b : (rank_compare (value_rank a) (value_rank b) =? 0) = same_rank a b.
Proof.
  unfold same_rank. destruct (Z.eqb_spec (rank_compare (value_rank a) (value_rank b)) 0) as [H|H].
  - apply rank_compare_0 in H. by rewrite bool_decide_true.
  - rewrite bool_decide_false; [done|]. by rewrite <- rank_compare_0.
Qed.
Lemma any_equal_spec kind left set : scalar_of kind left -> Forall (scalar_of kind) set -> any_equal left set = Ok (existsb (same_rank left) set).
Proof.
  intros Hl. induction 1 as [|x set Hx Hs IH]; [done|]. cbn [any_equal existsb]. rewrite (compareValues_scalar kind), same_rank_compare by done.
  by destruct (same_rank left x).
Qed.
Lemma containsValue_spec kind elements needle :
  Forall (scalar_of kind) elements -> scalar_of kind needle -> containsValue elements needle = Ok (contains_rank elements needle).
Proof.
  intros He Hn. unfold contains_rank. induction He as [|x elements Hx He IH]; [done|]. cbn [containsValue existsb].
  rewrite (compareValues_scalar kind), same_rank_compare by done. by destruct (same_rank x needle).
Qed.
Lemma scan_needles_spec kind (all : bool) elements needles :
  Forall (scalar_of kind) elements -> Forall (scalar_of kind) needles ->
  scan_needles all elements needles =
  Ok (if all then forallb (contains_rank elements) needles else existsb (contains_rank elements) needles).
Proof.
  intros He. induction 1 as [|x needles Hx Hn IH]; [by destruct all|]. cbn [scan_needles]. rewrite (containsValue_spec kind) by done.
  cbn [forallb existsb]. by destruct (contains_rank elements x), all.
Qed.
Lemma negate_if_xorb negated matched : negate_if negated (truthFromBool matched) = truthFromBool (xorb negated matched).
Proof. by destruct negated, matched. Qed.
Lemma field_value_scalar kind v : field_value kind false v -> v_null v = false -> scalar_of kind v.
Proof. intros [H1 H2 H3] Hn. split; [by apply built_scalar|done]. Qed.
Lemma field_value_elements kind v : field_value kind true v -> v_null v = false -> Forall (scalar_of kind) (v_elements v).
Proof. intros [H1 H2 H3] Hn. eapply Forall_impl; [by apply built_array|]. intros e [He Hk]. split; [done|congruence]. Qed.

(** The evaluation of a predicate that fits is its meaning, and never an error. *)
Lemma Evaluate_meaning kind array p v :
  predicate_ok kind array p -> field_value kind array v -> Evaluate p v = Ok (predicate_meaning p v).
Proof.
  intros Hp Hv. unfold Evaluate, predicate_meaning, predicate_holds. rewrite (built_kind v) by apply Hv. cbn [negb].
  unfold predicate_ok in Hp. destruct (bp_operator p) eqn:Eo; try done;
    try (destruct Hp as (-> & Hr & Hs & Hb); destruct (v_null v) eqn:Hn; [done|]; pose proof (field_value_scalar kind v Hv Hn) as Hl;
      rewrite (compareValues_scalar kind), comparison_sign by done; destruct (decide (kind = ValueBool)) as [Hk|Hk];
      [destruct (Hb Hk); try done; by rewrite andb_false_r|rewrite (bool_decide_false (v_kind v = _)) by (rewrite (fv_kind _ _ _ Hv); done); done]).
  - destruct Hp as (-> & -> & pattern & like & -> & _). destruct (v_null v); [done|].
    by rewrite (fv_array _ _ _ Hv), (fv_kind _ _ _ Hv), bool_decide_true.
  - unfold evaluateIn. destruct Hp as (-> & _ & Hs). destruct (v_null v) eqn:Hn; [done|]. rewrite (fv_array _ _ _ Hv).
    rewrite (any_equal_spec kind) by (done || by apply field_value_scalar). by rewrite negate_if_xorb.
  - unfold evaluateContain. destruct Hp as (-> & Hs). destruct (v_null v) eqn:Hn; [done|]. rewrite (fv_array _ _ _ Hv). cbn [negb].
    destruct (match bp_set p with [] => _ | _ => _ end) eqn:Em.
    { destruct Hs as [|x set [_ Hx] Hs]; [done|]. rewrite (fv_kind _ _ _ Hv), Hx, bool_decide_true in Em by done. done. }
    rewrite (scan_needles_spec kind) by (done || by apply field_value_elements). by rewrite Eo, negate_if_xorb.
  - unfold evaluateContain. destruct Hp as (-> & Hs). destruct (v_null v) eqn:Hn; [done|]. rewrite (fv_array _ _ _ Hv). cbn [negb].
    destruct (match bp_set p with [] => _ | _ => _ end) eqn:Em.
    { destruct Hs as [|x set [_ Hx] Hs]; [done|]. rewrite (fv_kind _ _ _ Hv), Hx, bool_decide_true in Em by done. done. }
    rewrite (scan_needles_spec kind) by (done || by apply field_value_elements). by rewrite Eo, negate_if_xorb.
  - destruct (v_null v), (bp_negated p); done.
Qed.

(** ** What the constructors build *)
Lemma NewComparisonPredicate_ok kind operator right p :
  scalar_of kind right -> (kind = ValueBool -> operator = PredicateEQ \/ operator = PredicateNE) ->
  NewComparisonPredicate operator right = Ok p -> predicate_ok kind false p.
Proof.
  unfold NewComparisonPredicate. intros Hr Hb H. case_in H; [done|]. case_in H; [done|]. injection H as <-.
  unfold predicate_ok. cbn. by destruct operator.
Qed.
Lemma NewLikePredicate_ok pattern p : NewLikePredicate pattern = Ok p -> predicate_ok ValueString false p.
Proof.
  unfold NewLikePredicate. intros H. destruct (CompileLike pattern) as [like|] eqn:El; [|done]. injection H as <-.
  split; [done|]. split; [done|]. by exists pattern, like.
Qed.
Lemma NewSetPredicate_ok kind array operator negated values p :
  Forall (scalar_of kind) values -> (operator = PredicateIn <-> array = false) ->
  NewSetPredicate operator negated values = Ok p -> predicate_ok kind array p.
Proof.
  unfold NewSetPredicate. intros Hv Ha H. case_in H; [done|]. case_in H; [done|]. case_in H; [done|].
  destruct (foldM set_value_ok values None); [|done]. injection H as <-. unfold predicate_ok. cbn.
  destruct operator; try done; destruct Ha as [Ha1 Ha2].
  - split; [by apply Ha1|]. split; [|done]. intros ->. done.
  - split; [|done]. destruct array; [done|]. by specialize (Ha2 eq_refl).
  - split; [|done]. destruct array; [done|]. by specialize (Ha2 eq_refl).
Qed.
Lemma NewNullPredicate_ok kind array negated : predicate_ok kind array (NewNullPredicate negated).
Proof. done. Qed.

(** A set of scalars of one kind is rejected for its size alone. *)
Lemma set_values_accepted kind values :
  Forall (scalar_of kind) values -> is_ok (foldM set_value_ok values None) = true.
Proof.
  intros Hv. assert (H : forall k, k = None \/ k = Some kind -> is_ok (foldM set_value_ok values k) = true); [|by apply H; left].
  induction Hv as [|v values [Hs Hk] Hv IH]; intros k Hkind; [done|]. cbn [foldM]. unfold set_value_ok at 1.
  destruct (scalar_plain v Hs) as (-> & -> & _ & ->). cbn [orb negb]. destruct Hkind as [-> | ->].
  - rewrite Hk. apply IH. by right.
  - rewrite bool_decide_true by done. apply IH. by right.
Qed.

(** ** Three-valued logic *)
Definition truth_rank (t : Truth) : Z := match t with TruthFalse => 0 | TruthUnknown => 1 | TruthTrue => 2 end.
Lemma truth_And_min a b : truth_rank (truth_And a b) = Z.min (truth_rank a) (truth_rank b).
Proof. by destruct a, b. Qed.
Lemma truth_Or_max a b : truth_rank (truth_Or a b) = Z.max (truth_rank a) (truth_rank b).
Proof. by destruct a, b. Qed.
Lemma truth_Not_rank a : truth_rank (truth_Not a) = 2 - truth_rank a.
Proof. by destruct a. Qed.

(** The predicates that the constructors make for a field. *)
Inductive made_for (kind : ValueKind) (array : bool) (p : BoundPredicate) : Prop :=
| MadeComparison operator right :
    array = false -> scalar_of kind right -> (kind = ValueBool -> operator = PredicateEQ \/ operator = PredicateNE) ->
    NewComparisonPredicate operator right = Ok p -> made_for kind array p
| MadeLike pattern : kind = ValueString -> array = false -> NewLikePredicate pattern = Ok p -> made_for kind array p
| MadeSet operator negated values :
    Forall (scalar_of kind) values -> (operator = PredicateIn <-> array = false) ->
    NewSetPredicate operator negated values = Ok p -> made_for kind array p
| MadeNull negated : p = NewNullPredicate negated -> made_for kind array p.
Lemma made_for_ok kind array p : made_for kind array p -> predicate_ok kind array p.
Proof.
  destruct 1 as [operator right -> Hr Hb H|pattern -> -> H|operator negated values Hs Ha H|negated ->].
  - by apply (NewComparisonPredicate_ok kind operator right).
  - by apply (NewLikePredicate_ok pattern).
  - by apply (NewSetPredicate_ok kind array operator negated values).
  - done.
Qed.

(** C23: a predicate that the constructors make for a field evaluates, on every value
    the field can hold, to what SQL means by it and never to an error: IS NULL looks
    at NULL alone, everything else is UNKNOWN on NULL, comparisons order values by
    their kind, IN and the contain predicates search by equality, and NOT exchanges
    TRUE and FALSE only. *)
Theorem predicate_evaluate_exact kind array p v :
  made_for kind array p -> field_value kind array v ->
  Evaluate p v = Ok match v_null v, bp_operator p with
    | true, PredicateIsNull => truthFromBool (negb (bp_negated p))
    | true, _ => TruthUnknown
    | false, _ => truthFromBool (predicate_holds p v)
    end.
Proof.
  intros Hp Hv. rewrite (Evaluate_meaning kind array) by (done || by apply made_for_ok). f_equal.
  unfold predicate_meaning. destruct (v_null v); [|done]. by destruct (bp_operator p).
Qed.
Definition ex_array : Value := MkValue ValueInt32 false true [] [] false 0 0 0 [Int32Value 5; Int32Value 3].
Lemma predicate_evaluate_exact_witness :
  exists p, NewSetPredicate PredicateContainAll true [Int32Value 3; Int32Value 5] = Ok p /\ Evaluate p ex_array = Ok TruthFalse.
Proof.
  eexists. split; [reflexivity|]. rewrite (predicate_evaluate_exact ValueInt32 true); [reflexivity| |].
  - apply (MadeSet _ _ _ PredicateContainAll true [Int32Value 3; Int32Value 5]); [|done|reflexivity].
    repeat constructor; unfold is_i32; lia.
  - split; [|done..]. apply (BuiltArray ValueInt32 [Int32Value 5; Int32Value 3]); [|reflexivity]. repeat constructor; unfold is_i32; lia.
Defined.
