(* ===== verification/Inverted.v ===== *)
(** * Inverted indexes: [internal/db/sqlengine/inverted.go], [inverted_range.go]

    The postings of one field, a bitmap per distinct value, and the searches
    that a sealed index answers.  The maps of the code are finite maps; a loop
    over one runs in the order of [map_to_list], which nothing depends on.  A
    posting that a search returns is a copy, so that bitmaps are values here. *)
From S2P Require Import Prelude GoSort Bytes Utf8 Bitmap SqlValue Like Predicate.
From stdpp Require Import sorting.
#[local] Open Scope string_scope.
#[local] Open Scope list_scope.
#[local] Open Scope Z_scope.

(** ** Keys *)
Record scalarKey := {
  sk_kind : ValueKind;
  sk_text : bytes;
  sk_boolean : bool;
  sk_signed : Z;
  sk_unsigned : Z;
  sk_bits : Z
}.
#[export] Instance scalarKey_eq_dec : EqDecision scalarKey.
Proof. solve_decision. Defined.
Definition kind_code (kind : ValueKind) : Z + Z :=
  match kind with
  | ValueBinary => inl 0 | ValueString => inl 1 | ValueBool => inl 2 | ValueInt32 => inl 3 | ValueInt64 => inl 4
  | ValueUint32 => inl 5 | ValueUint64 => inl 6 | ValueFloat32 => inl 7 | ValueFloat64 => inl 8 | ValueInvalid code => inr code
  end.
Definition kind_decode (code : Z + Z) : option ValueKind :=
  match code with
  | inl 0 => Some ValueBinary | inl 1 => Some ValueString | inl 2 => Some ValueBool | inl 3 => Some ValueInt32
  | inl 4 => Some ValueInt64 | inl 5 => Some ValueUint32 | inl 6 => Some ValueUint64 | inl 7 => Some ValueFloat32
  | inl 8 => Some ValueFloat64 | inl _ => None | inr code => Some (ValueInvalid code)
  end.
#[export] Instance ValueKind_countable : Countable ValueKind.
Proof. apply (inj_countable kind_code kind_decode). by intros []. Defined.
#[export] Instance scalarKey_countable : Countable scalarKey.
Proof.
  apply (inj_countable' (fun k => (sk_kind k, sk_text k, sk_boolean k, sk_signed k, sk_unsigned k, sk_bits k))
    (fun '(kind, text, boolean, signed, unsigned, bits) => Build_scalarKey kind text boolean signed unsigned bits)).
  by intros [].
Defined.

Definition keyFromValue (value : Value) : scalarKey :=
  let key text boolean signed unsigned bits :=
    {| sk_kind := v_kind value; sk_text := text; sk_boolean := boolean; sk_signed := signed; sk_unsigned := unsigned; sk_bits := bits |} in
  match v_kind value with
  | ValueBinary => key (v_binary value) false 0 0 0
  | ValueString => key (v_text value) false 0 0 0
  | ValueBool => key [] (v_boolean value) 0 0 0
  | ValueInt32 | ValueInt64 => key [] false (v_signed value) 0 0
  | ValueUint32 | ValueUint64 => key [] false 0 (v_unsigned value) 0
  | ValueFloat32 | ValueFloat64 => key [] false 0 0 (if f64_eqb (v_number value) 0 then 0 else v_number value)
  | ValueInvalid _ => key [] false 0 0 0
  end.
Definition key_value (k : scalarKey) : Value :=
  match sk_kind k with
  | ValueBinary => BinaryValue (sk_text k)
  | ValueString => StringValue (sk_text k)
  | ValueBool => BoolValue (sk_boolean k)
  | ValueInt32 => Int32Value (to_int32 (sk_signed k))
  | ValueInt64 => Int64Value (sk_signed k)
  | ValueUint32 => Uint32Value (to_uint32 (sk_unsigned k))
  | ValueUint64 => Uint64Value (sk_unsigned k)
  | ValueFloat32 => match Float32Value (f64_narrow (sk_bits k)) with Ok value => value | Fail _ => no_value end
  | ValueFloat64 => match Float64Value (sk_bits k) with Ok value => value | Fail _ => no_value end
  | ValueInvalid _ => no_value
  end.
(** The order in which [Seal] sorts the keys. *)
Definition key_less (left right : scalarKey) : bool :=
  match compareValues (key_value left) (key_value right) with Ok comparison => comparison <? 0 | Fail _ => false end.
Definition key_le (left right : scalarKey) : Prop := key_less right left = false.
#[export] Instance key_le_dec : RelDecision key_le.
Proof. intros left right. unfold key_le. apply _. Defined.

(** ** Wildcards of a pattern *)

(** The runes of a compiled pattern, which is valid. *)
Definition like_runes (pattern : LikePattern) : list Z := default [] (runes_of (lk_raw pattern)).
Fixpoint unescapedWildcardCounts (runes : list Z) : Z * Z :=
  match runes with
  | [] => (0, 0)
  | current :: rest =>
      let plain :=
        let '(percents, underscores) := unescapedWildcardCounts rest in
        if current =? percent then (percents + 1, underscores)
        else if current =? underscore then (percents, underscores + 1)
        else (percents, underscores) in
      match rest with
      | _ :: rest' => if current =? backslash then unescapedWildcardCounts rest' else plain
      | [] => plain
      end
  end.
(** The loop of [singlePercentTerms]: both sides of the only wildcard. *)
Fixpoint single_percent_loop (runes : list Z) (prefix suffix : bytes) (seenPercent : bool) : bytes * bytes * bool :=
  let write rune := if seenPercent then (prefix, suffix ++ encode_rune rune) else (prefix ++ encode_rune rune, suffix) in
  match runes with
  | [] => (prefix, suffix, seenPercent && (0 <? zlen prefix) && (0 <? zlen suffix))
  | current :: rest =>
      let plain :=
        if (current =? underscore) || ((current =? percent) && seenPercent) then ([], [], false)
        else if current =? percent then single_percent_loop rest prefix suffix true
        else single_percent_loop rest (write current).1 (write current).2 seenPercent in
      match rest with
      | next :: rest' =>
          if current =? backslash then single_percent_loop rest' (write next).1 (write next).2 seenPercent else plain
      | [] => plain
      end
  end.
Definition singlePercentTerms (runes : list Z) : bytes * bytes * bool := single_percent_loop runes [] [] false.

Definition invertedRangeBlockSize : nat := 256.

Inductive InvertedStrategy :=
| InvertedExact | InvertedPostingUnion | InvertedSortedRange | InvertedTermScan | InvertedPrefix
| InvertedSuffix | InvertedPrefixSuffix | InvertedNull | InvertedArrayLength.

(** ** Bounds among the sorted keys *)

(** The bounds of an operator from those of the equal keys. *)
Definition operator_bounds (operator : PredicateOperator) (lower upper count : nat) : option (nat * nat) :=
  match operator with
  | PredicateEQ => Some (lower, upper)
  | PredicateLT => Some (0, lower)%nat
  | PredicateLE => Some (0, upper)%nat
  | PredicateGT => Some (upper, count)
  | PredicateGE => Some (lower, count)
  | _ => None
  end.
Definition orderedUint32Bounds (values : list Z) (target : Z) (operator : PredicateOperator) : nat * nat :=
  let lower := sort_Search (length values) (fun index => target <=? default 0 (values !! index)) in
  let upper := sort_Search (length values) (fun index => target <? default 0 (values !! index)) in
  default (0, 0)%nat (operator_bounds operator lower upper (length values)).
(** A comparison in a search; an error counts as true and is reported afterwards. *)
Definition search_test (ordered : list scalarKey) (target : Value) (test : Z -> bool) (index : nat) : bool :=
  match compareValues (default no_value (key_value <$> ordered !! index)) target with Ok comparison => test comparison | Fail _ => true end.
(** The error that the tests of a search met last, if any: the last index it
    looked at is where it fails. *)
Fixpoint search_error (fuel : nat) (ordered : list scalarKey) (target : Value) (test : Z -> bool) (i j : nat) : option gerror :=
  match fuel with
  | O => None
  | S fuel =>
      if (i <? j)%nat then
        let h := ((i + j) / 2)%nat in
        let later :=
          if negb (search_test ordered target test h) then search_error fuel ordered target test (S h) j
          else search_error fuel ordered target test i h in
        match later with
        | Some e => Some e
        | None =>
            match compareValues (default no_value (key_value <$> ordered !! h)) target with Ok _ => None | Fail e => Some e end
        end
      else None
  end.
Definition orderedBounds (ordered : list scalarKey) (target : Value) (operator : PredicateOperator) : result (nat * nat) :=
  let count := length ordered in
  match search_error count ordered target (fun comparison => 0 <=? comparison) 0 count with
  | Some e => Fail e
  | None =>
      match search_error count ordered target (fun comparison => 0 <? comparison) 0 count with
      | Some e => Fail e
      | None =>
          let lower := sort_Search count (search_test ordered target (fun comparison => 0 <=? comparison)) in
          let upper := sort_Search count (search_test ordered target (fun comparison => 0 <? comparison)) in
          match operator_bounds operator lower upper count with
          | Some bounds => Ok bounds
          | None => Fail (errors_New "sql: invalid comparison operator")
          end
      end
  end.

(** ** The index *)
Section index.
Context {R : Type} `{Roaring R}.

Record InvertedIndex := {
  iv_field : Field;
  iv_sealed : bool;
  iv_rows : Bitmap R;
  iv_nulls : Bitmap R;
  iv_nonNull : Bitmap R;
  iv_postings : gmap scalarKey (Bitmap R);
  iv_ordered : list scalarKey;
  iv_rangeBlocks : list (Bitmap R);
  iv_arrayLength : gmap Z (Bitmap R);
  iv_lengths : list Z
}.
Record InvertedResult := {
  ir_Bitmap : option (Bitmap R);
  ir_Supported : bool;
  ir_Strategy : option InvertedStrategy;
  ir_Terms : Z
}.
Implicit Types (i : InvertedIndex) (postings : gmap scalarKey (Bitmap R)).

Definition NewInvertedIndex (field : Field) : result InvertedIndex :=
  if negb (fd_Filterable field) || negb (fd_Indexed field) || negb (kind_valid (fd_Kind field))
  then Fail (errors_New "sql: field is not a valid inverted-index field")
  else Ok {| iv_field := field; iv_sealed := false; iv_rows := NewBitmap 0; iv_nulls := NewBitmap 0; iv_nonNull := NewBitmap 0;
             iv_postings := ∅; iv_ordered := []; iv_rangeBlocks := []; iv_arrayLength := ∅; iv_lengths := [] |}.

(** Set a row in the bitmap of a key, which is made when there is none. *)
Definition set_row (row : Z) (bitmap : Bitmap R) : Bitmap R := (bm_Set row bitmap).1.
Definition addPosting {K} `{Countable K} (key : K) (row : Z) (postings : gmap K (Bitmap R)) : gmap K (Bitmap R) :=
  <[key := set_row row (default (NewBitmap 0) (postings !! key))]> postings.
(** The loop over the elements of an array, each key once. *)
Fixpoint add_elements (row : Z) (elements : list Value) (seen : gset scalarKey) postings : gmap scalarKey (Bitmap R) :=
  match elements with
  | [] => postings
  | element :: elements =>
      let key := keyFromValue element in
      if decide (key ∈ seen) then add_elements row elements seen postings
      else add_elements row elements ({[key]} ∪ seen) (addPosting key row postings)
  end.
Definition invalid_text (value : Value) : bool :=
  bool_decide (v_kind value = ValueString) && negb (v_null value) &&
  ((negb (v_array value) && negb (ValidString (v_text value))) || existsb (fun element => negb (ValidString (v_text element))) (v_elements value)).
Definition InvertedIndex_Add (row : Z) (value : Value) i : result InvertedIndex :=
  let field := iv_field i in
  if iv_sealed i then Fail (errors_New "sql: inverted index is sealed")
  else if bm_Contains row (iv_rows i) then Fail (errors_New "sql: inverted index row already exists")
  else if negb (bool_decide (v_kind value = fd_Kind field)) || negb (Bool.eqb (v_array value) (fd_Array field)) || negb (kind_valid (v_kind value))
  then Fail (errors_New "sql: inverted index received a value of another type")
  else if invalid_text value then Fail (errors_New "sql: inverted index received invalid UTF-8")
  else
    let index nulls nonNull postings arrayLength :=
      {| iv_field := field; iv_sealed := false; iv_rows := set_row row (iv_rows i); iv_nulls := nulls; iv_nonNull := nonNull;
         iv_postings := postings; iv_ordered := iv_ordered i; iv_rangeBlocks := iv_rangeBlocks i; iv_arrayLength := arrayLength;
         iv_lengths := iv_lengths i |} in
    if v_null value then Ok (index (set_row row (iv_nulls i)) (iv_nonNull i) (iv_postings i) (iv_arrayLength i))
    else
      let nonNull := set_row row (iv_nonNull i) in
      if v_array value then
        let length := wrap32 (zlen (v_elements value)) in
        Ok (index (iv_nulls i) nonNull (add_elements row (v_elements value) ∅ (iv_postings i)) (addPosting length row (iv_arrayLength i)))
      else Ok (index (iv_nulls i) nonNull (addPosting (keyFromValue value) row (iv_postings i)) (iv_arrayLength i)).

(** ** Sealing *)

(** A posting as an operand: a nil one when the key has none. *)
Definition operand_of (bitmap : option (Bitmap R)) : operand R :=
  match bitmap with Some bitmap => OperandOther bitmap | None => OperandNil end.
Definition union_keys postings (keys : list scalarKey) (bitmap : Bitmap R) : Bitmap R :=
  foldl (fun bitmap key => bm_Or (operand_of (postings !! key)) bitmap) bitmap keys.
Definition is_integer (kind : ValueKind) : bool :=
  match kind with ValueInt32 | ValueInt64 | ValueUint32 | ValueUint64 => true | _ => false end.
Definition buildRangeBlocks (field : Field) postings (ordered : list scalarKey) : list (Bitmap R) :=
  if negb (fd_RangeOptimized field) || fd_Array field || (length ordered <? invertedRangeBlockSize)%nat || negb (is_integer (fd_Kind field)) then []
  else (fun block => bm_Freeze (union_keys postings (take invertedRangeBlockSize (drop (block * invertedRangeBlockSize) ordered)) (NewBitmap 0)))
       <$> seq 0 (length ordered / invertedRangeBlockSize).
Definition Seal i : InvertedIndex :=
  if iv_sealed i then i
  else
    let ordered := merge_sort key_le (map_to_list (iv_postings i)).*1 in
    let lengths := merge_sort Z.le (map_to_list (iv_arrayLength i)).*1 in
    {| iv_field := iv_field i; iv_sealed := true; iv_rows := iv_rows i; iv_nulls := iv_nulls i; iv_nonNull := iv_nonNull i;
       iv_postings := iv_postings i; iv_ordered := ordered; iv_rangeBlocks := buildRangeBlocks (iv_field i) (iv_postings i) ordered;
       iv_arrayLength := iv_arrayLength i; iv_lengths := lengths |}.

(** ** Searches *)
Definition supportedBitmap (bitmap : Bitmap R) (strategy : InvertedStrategy) (terms : Z) : InvertedResult :=
  {| ir_Bitmap := Some bitmap; ir_Supported := true; ir_Strategy := Some strategy; ir_Terms := terms |}.
Definition unsupported : InvertedResult := {| ir_Bitmap := None; ir_Supported := false; ir_Strategy := None; ir_Terms := 0 |}.
Definition without i (bitmap : Bitmap R) : Bitmap R := bm_AndNot (OperandOther bitmap) (iv_nonNull i).

Definition posting i (value : Value) : Bitmap R := default (NewBitmap 0) (iv_postings i !! keyFromValue value).
Definition unionValues i (values : list Value) : Bitmap R :=
  foldl (fun bitmap value => bm_Or (operand_of (iv_postings i !! keyFromValue value)) bitmap) (NewBitmap 0) values.
(** The loop of CONTAIN_ALL, which ends at a value without a posting. *)
Fixpoint intersect_values i (values : list Value) (bitmap : Bitmap R) : Bitmap R :=
  match values with
  | [] => bitmap
  | value :: values =>
      match iv_postings i !! keyFromValue value with
      | None => bm_And OperandNil bitmap
      | Some posting => intersect_values i values (bm_And (OperandOther posting) bitmap)
      end
  end.
Definition searchContain i (predicate : BoundPredicate) : Bitmap R :=
  let bitmap :=
    if bool_decide (bp_operator predicate = PredicateContainAll) then intersect_values i (bp_set predicate) (iv_nonNull i)
    else unionValues i (bp_set predicate) in
  if bp_negated predicate then without i bitmap else bitmap.

(** The loop of [unionOrderedRange]; its indices are in range by [orderedBounds]. *)
Fixpoint union_range (fuel : nat) i (bitmap : Bitmap R) (start stop : nat) : Bitmap R :=
  match fuel with
  | O => bitmap
  | S fuel =>
      if (start <? stop)%nat then
        if negb (Nat.eqb (length (iv_rangeBlocks i)) 0) && Nat.eqb (start mod invertedRangeBlockSize) 0 &&
           (invertedRangeBlockSize <=? stop - start)%nat
        then union_range fuel i (bm_OrFrozen (iv_rangeBlocks i !! (start / invertedRangeBlockSize)%nat) bitmap) (start + invertedRangeBlockSize) stop
        else union_range fuel i (bm_Or (operand_of (iv_ordered i !! start ≫= fun key => iv_postings i !! key)) bitmap) (S start) stop
      else bitmap
  end.
Definition unionOrderedRange i (bitmap : Bitmap R) (start stop : nat) : Bitmap R := union_range (stop - start) i bitmap start stop.

(** A loop over the postings that merges the chosen ones and counts them. *)
Definition comparisonMatches (operator : PredicateOperator) (comparison : Z) : bool :=
  match operator with
  | PredicateEQ => comparison =? 0
  | PredicateNE => negb (comparison =? 0)
  | PredicateLT => comparison <? 0
  | PredicateLE => comparison <=? 0
  | PredicateGT => 0 <? comparison
  | PredicateGE => 0 <=? comparison
  | _ => false
  end.
Definition scan_terms (chosen : scalarKey -> result bool) postings : result (Bitmap R * Z) :=
  foldM (fun '(bitmap, terms) '(key, posting) =>
    match chosen key with
    | Fail e => Fail e
    | Ok true => Ok (bm_Or (OperandOther posting) bitmap, terms + 1)
    | Ok false => Ok (bitmap, terms)
    end) (map_to_list postings) (NewBitmap 0, 0).
Definition searchRange i (predicate : BoundPredicate) : result InvertedResult :=
  if fd_RangeOptimized (iv_field i) then
    match orderedBounds (iv_ordered i) (bp_right predicate) (bp_operator predicate) with
    | Fail e => Fail e
    | Ok (start, stop) =>
        Ok (supportedBitmap (unionOrderedRange i (NewBitmap 0) start stop) InvertedSortedRange (Z.of_nat stop - Z.of_nat start))
    end
  else
    match scan_terms (fun key =>
      match compareValues (key_value key) (bp_right predicate) with
      | Fail e => Fail e
      | Ok comparison => Ok (comparisonMatches (bp_operator predicate) comparison)
      end) (iv_postings i) with
    | Fail e => Fail e
    | Ok (bitmap, terms) => Ok (supportedBitmap bitmap InvertedTermScan terms)
    end.

(** [strings.HasPrefix] and [strings.HasSuffix]. *)
Definition HasPrefix (s prefix : bytes) : bool := bool_decide (take (length prefix) s = prefix).
Definition HasSuffix (s suffix : bytes) : bool := bool_decide (length suffix <= length s)%nat && bool_decide (drop (length s - length suffix) s = suffix).
Definition scan_texts (chosen : bytes -> bool) (strategy : InvertedStrategy) i : result InvertedResult :=
  match scan_terms (fun key => Ok (chosen (sk_text key))) (iv_postings i) with
  | Fail e => Fail e
  | Ok (bitmap, terms) => Ok (supportedBitmap bitmap strategy terms)
  end.
Definition scanLikeTerms i (pattern : LikePattern) (strategy : InvertedStrategy) : result InvertedResult :=
  scan_texts (like_Match pattern) strategy i.
Definition scanStringTerms i (prefix suffix : bytes) (strategy : InvertedStrategy) : result InvertedResult :=
  scan_texts (fun text => HasPrefix text prefix && HasSuffix text suffix) strategy i.
Definition searchLike i (pattern : option LikePattern) : result InvertedResult :=
  match pattern with
  | None => Fail (errors_New "sql: LIKE index search requires a STRING scalar")
  | Some pattern =>
      if fd_Array (iv_field i) || negb (bool_decide (fd_Kind (iv_field i) = ValueString))
      then Fail (errors_New "sql: LIKE index search requires a STRING scalar")
      else
        let '(percents, underscores) := unescapedWildcardCounts (like_runes pattern) in
        if (1 <? percents) || (0 <? underscores) then Ok unsupported
        else match lk_mode pattern with
        | LikeExact => Ok (supportedBitmap (posting i (StringValue (lk_literal pattern))) InvertedExact 1)
        | LikeAny => Ok (supportedBitmap (iv_nonNull i) InvertedPrefix (Z.of_nat (size (iv_postings i))))
        | LikePrefix => scanStringTerms i (lk_literal pattern) [] InvertedPrefix
        | LikeSuffix =>
            if negb (fd_ExtendedWildcard (iv_field i)) then Ok unsupported
            else scanStringTerms i [] (lk_literal pattern) InvertedSuffix
        | LikeGeneral =>
            let '(_, _, ok) := singlePercentTerms (like_runes pattern) in
            if negb ok || negb (fd_ExtendedWildcard (iv_field i)) then Ok unsupported
            else scanLikeTerms i pattern InvertedPrefixSuffix
        | LikeContains => Ok unsupported
        end
  end.

Definition validatePredicate i (predicate : BoundPredicate) : option gerror :=
  let field := iv_field i in
  let kinds :=
    if match bp_set predicate with first :: _ => negb (bool_decide (v_kind first = fd_Kind field)) | [] => false end
    then Some (errors_New "sql: inverted index predicate kind")
    else if is_comparison (bp_operator predicate) && negb (bool_decide (v_kind (bp_right predicate) = fd_Kind field))
    then Some (errors_New "sql: inverted index predicate kind")
    else None in
  match bp_operator predicate with
  | PredicateIsNull => None
  | PredicateLike =>
      if fd_Array field || negb (bool_decide (fd_Kind field = ValueString)) || match bp_like predicate with None => true | Some _ => false end
      then Some (errors_New "sql: LIKE index search requires a STRING scalar") else None
  | PredicateIn =>
      if fd_Array field || (zlen (bp_set predicate) =? 0)
      then Some (errors_New "sql: IN index search requires a non-empty scalar set") else kinds
  | PredicateContainAll | PredicateContainAny =>
      if negb (fd_Array field) then Some (errors_New "sql: contain index search requires an array field") else kinds
  | PredicateInvalid _ => None
  | _ =>
      if fd_Array field || v_null (bp_right predicate) || v_array (bp_right predicate)
      then Some (errors_New "sql: comparison index search requires a scalar field and value") else kinds
  end.
Definition Search (predicate : BoundPredicate) i : result InvertedResult :=
  if negb (iv_sealed i) then Fail (errors_New "sql: inverted index is not sealed")
  else match validatePredicate i predicate with
  | Some e => Fail e
  | None =>
      match bp_operator predicate with
      | PredicateIsNull => Ok (supportedBitmap (if bp_negated predicate then iv_nonNull i else iv_nulls i) InvertedNull 1)
      | PredicateLike => searchLike i (bp_like predicate)
      | PredicateIn =>
          if fd_Array (iv_field i) then Fail (errors_New "sql: IN index search requires a scalar field")
          else
            let bitmap := unionValues i (bp_set predicate) in
            Ok (supportedBitmap (if bp_negated predicate then without i bitmap else bitmap) InvertedPostingUnion (zlen (bp_set predicate)))
      | PredicateContainAll | PredicateContainAny =>
          if negb (fd_Array (iv_field i)) then Fail (errors_New "sql: contain index search requires an array field")
          else Ok (supportedBitmap (searchContain i predicate) InvertedPostingUnion (zlen (bp_set predicate)))
      | PredicateEQ | PredicateNE =>
          if fd_Array (iv_field i) then Fail (errors_New "sql: scalar comparison index search received an array field")
          else
            let bitmap := posting i (bp_right predicate) in
            Ok (supportedBitmap (if bool_decide (bp_operator predicate = PredicateNE) then without i bitmap else bitmap) InvertedExact 1)
      | PredicateLT | PredicateLE | PredicateGT | PredicateGE =>
          if fd_Array (iv_field i) then Fail (errors_New "sql: range index search received an array field")
          else searchRange i predicate
      | PredicateInvalid _ => Ok unsupported
      end
  end.
Definition SearchArrayLength (predicate : BoundPredicate) i : result InvertedResult :=
  let right := bp_right predicate in
  if negb (iv_sealed i) || negb (fd_Array (iv_field i)) then Fail (errors_New "sql: array-length search requires a sealed array index")
  else if negb (bool_decide (v_kind right = ValueUint32)) || v_null right || v_array right
  then Fail (errors_New "sql: array-length predicate requires UINT32")
  else if negb (is_comparison (bp_operator predicate)) then Fail (errors_New "sql: array-length search requires a comparison predicate")
  else
    let target := to_uint32 (v_unsigned right) in
    if bool_decide (bp_operator predicate = PredicateNE) then
      Ok (supportedBitmap (bm_AndNot (operand_of (iv_arrayLength i !! target)) (iv_nonNull i)) InvertedArrayLength 1)
    else
      let '(start, stop) := orderedUint32Bounds (iv_lengths i) target (bp_operator predicate) in
      let bitmap := foldl (fun bitmap length => bm_Or (operand_of (iv_arrayLength i !! length)) bitmap) (NewBitmap 0)
                      (take (stop - start) (drop start (iv_lengths i))) in
      Ok (supportedBitmap bitmap InvertedArrayLength (Z.of_nat stop - Z.of_nat start)).
End index.
Arguments InvertedIndex R : clear implicits.
Arguments InvertedResult R : clear implicits.

(** ** Keys stand for values *)
Lemma f64_split b : 0 <= b < 2 ^ 64 -> b = 2 ^ 63 * Z.b2z (f64_negative b) + f64_magnitude b /\ 0 <= f64_magnitude b.
Proof.
  intros Hb. unfold f64_negative, f64_magnitude. rewrite Z.land_ones, Z.testbit_spec' by lia.
  pose proof (Z.div_mod b (2 ^ 63) ltac:(lia)). pose proof (Z.mod_pos_bound b (2 ^ 63) ltac:(lia)).
  assert (0 <= b / 2 ^ 63 < 2) by (split; [apply Z.div_pos; lia|apply Z.div_lt_upper_bound; lia]). rewrite (Z.mod_small (b / 2 ^ 63)) by lia. lia.
Qed.
Lemma f64_order_inj a b : 0 <= a < 2 ^ 64 -> 0 <= b < 2 ^ 64 -> f64_order a = f64_order b -> f64_order a <> 0 -> a = b.
Proof.
  intros Ha Hb. destruct (f64_split a Ha) as [Ea Na], (f64_split b Hb) as [Eb Nb]. unfold f64_order.
  destruct (f64_negative a), (f64_negative b); cbn [Z.b2z] in *; intros; lia.
Qed.
Lemma f64_eqb_zero b : f64_IsNaN b = false -> f64_eqb b 0 = (f64_order b =? 0).
Proof. intros H. unfold f64_eqb. rewrite H. by change (f64_IsNaN 0) with false. Qed.

(** The number of a scalar of a floating kind. *)
Lemma scalar_number v :
  scalar_value v -> (v_kind v = ValueFloat32 \/ v_kind v = ValueFloat64) -> 0 <= v_number v < 2 ^ 64 /\ f64_IsNaN (v_number v) = false.
Proof.
  intros Hs Hk. split; [|by apply scalar_finite]. destruct Hs as [| | | | | | |b v Hb H|b v Hb H]; try (by destruct Hk).
  - unfold Float32Value in H. destruct (_ || _) eqn:E; [done|]. injection H as <-. cbn. by apply f32_roundtrip.
  - unfold Float64Value in H. destruct (_ || _) eqn:E; [done|]. by injection H as <-.
Qed.
Definition canonical (number : Z) : Z := if f64_eqb number 0 then 0 else number.
Lemma canonical_order number : f64_IsNaN number = false -> f64_order (canonical number) = f64_order number.
Proof. intros H. unfold canonical. rewrite f64_eqb_zero by done. destruct (f64_order number =? 0) eqn:E; [to_prop; by rewrite E|done]. Qed.
Lemma canonical_inj a b :
  0 <= a < 2 ^ 64 -> 0 <= b < 2 ^ 64 -> f64_IsNaN a = false -> f64_IsNaN b = false ->
  canonical a = canonical b <-> f64_order a = f64_order b.
Proof.
  intros Ha Hb Na Nb. split; [intros H; rewrite <- canonical_order, <- (canonical_order b) by done; by rewrite H|].
  intros H. unfold canonical. rewrite !f64_eqb_zero, H by done. destruct (f64_order b =? 0) eqn:E; [done|]. to_prop. apply f64_order_inj; (done || congruence).
Qed.

Lemma key_rank kind v w : scalar_of kind v -> scalar_of kind w -> keyFromValue v = keyFromValue w <-> value_rank v = value_rank w.
Proof.
  intros [Hv Kv] [Hw Kw]. unfold keyFromValue, value_rank. rewrite Kv, Kw. destruct kind; try (split; intros H; simplify_eq; congruence).
  - split; intros H; [simplify_eq; congruence|]. injection H as H. by destruct (v_boolean v), (v_boolean w).
  - destruct (scalar_number v) as [Bv Nv], (scalar_number w) as [Bw Nw]; auto. pose proof (canonical_inj _ _ Bv Bw Nv Nw) as Hc. unfold canonical in Hc.
    split; intros H; [injection H as H; f_equal; by apply Hc|injection H as H; f_equal; by apply Hc].
  - destruct (scalar_number v) as [Bv Nv], (scalar_number w) as [Bw Nw]; auto. pose proof (canonical_inj _ _ Bv Bw Nv Nw) as Hc. unfold canonical in Hc.
    split; intros H; [injection H as H; f_equal; by apply Hc|injection H as H; f_equal; by apply Hc].
  - destruct (scalar_plain v Hv) as (_ & _ & _ & H). by rewrite Kv in H.
Qed.

Lemma to_int32_id z : is_i32 z -> to_int32 z = z.
Proof. unfold is_i32, to_int32. intros H. rewrite Z.mod_small by lia. lia. Qed.
Lemma to_uint32_id z : is_u32 z -> to_uint32 z = z.
Proof. unfold is_u32, u32_max, to_uint32. intros H. apply Z.mod_small. lia. Qed.
Lemma key_value_spec kind v :
  scalar_of kind v -> scalar_of kind (key_value (keyFromValue v)) /\ value_rank (key_value (keyFromValue v)) = value_rank v.
Proof.
  intros [Hv <-]. destruct Hv as [b|t|b|z Hz|z Hz|z Hz|z Hz|b v Hb H|b v Hb H]; [by split; [split; [apply ScalarBinary|]|]|by split; [split; [apply ScalarString|]|]|by split; [split; [apply ScalarBool|]|]|..].
  - unfold key_value, keyFromValue. cbn. rewrite to_int32_id by done. by split; [split; [by apply ScalarInt32|]|].
  - by split; [split; [by apply ScalarInt64|]|].
  - unfold key_value, keyFromValue. cbn. rewrite to_uint32_id by done. by split; [split; [by apply ScalarUint32|]|].
  - by split; [split; [by apply ScalarUint64|]|].
  - assert (Hf := H). unfold Float32Value in Hf. destruct (_ || _) eqn:Ef in Hf; [done|]. injection Hf as <-.
    destruct (f32_roundtrip b Hb Ef) as [Hr Hn]. apply orb_false_iff in Ef as [Hnan _].
    unfold key_value, keyFromValue. cbn. rewrite f64_eqb_zero by done. destruct (f64_order (f32_widen b) =? 0) eqn:E.
    + to_prop. cbn. split; [split; [by apply (ScalarFloat32 0)|done]|]. unfold value_rank. cbn. by rewrite E.
    + rewrite Hn, H. split; [split; [by apply (ScalarFloat32 b)|done]|done].
  - assert (Hf := H). unfold Float64Value in Hf. destruct (_ || _) eqn:Ef in Hf; [done|]. injection Hf as <-.
    apply orb_false_iff in Ef as [Hnan _].
    unfold key_value, keyFromValue. cbn. rewrite f64_eqb_zero by done. destruct (f64_order b =? 0) eqn:E.
    + to_prop. cbn. split; [split; [by apply (ScalarFloat64 0)|done]|]. unfold value_rank. cbn. by rewrite E.
    + rewrite H. split; [split; [by apply (ScalarFloat64 b)|done]|done].
Qed.

(** ** The order of the keys *)
Lemma compareValues_antisym a b c : compareValues a b = Ok c -> compareValues b a = Ok (- c).
Proof.
  unfold compareValues. rewrite (orb_comm (v_null b)), (orb_comm (v_array b)). destruct (v_null a || v_null b); [done|].
  destruct (v_array a || v_array b); [done|]. intros H. case_bool_decide as Hk; [|done]. rewrite bool_decide_true, <- Hk by done.
  cbn [negb orb] in *. destruct (kind_valid (v_kind a)); [|done]. cbn [negb] in *.
  assert (Hby : forall (A : Type) (ltb : A -> A -> bool) x y, (ltb x y = true -> ltb y x = false) -> compare_by ltb y x = - compare_by ltb x y).
  { intros A ltb x y Hxy. unfold compare_by. destruct (ltb x y) eqn:E1; [by rewrite Hxy|]. by destruct (ltb y x). }
  assert (Hz : forall x y, compare_by Z.ltb y x = - compare_by Z.ltb x y) by (intros; apply Hby; intros; to_prop; apply Z.ltb_ge; lia).
  assert (Hb : forall x y, bytes_Compare y x = - bytes_Compare x y) by (intros x y; apply (rank_compare_antisym (inl x) (inl y))).
  assert (Hf : forall x y, compare_by f64_ltb y x = - compare_by f64_ltb x y).
  { intros. apply Hby. unfold f64_ltb. intros Hl. apply andb_true_iff in Hl as [Hl1 Hl]. apply andb_true_iff in Hl1 as [-> ->]. to_prop. cbn. apply Z.ltb_ge. lia. }
  destruct (v_kind a); try discriminate H; apply (f_equal (fun r => match r with Ok z => z | Fail _ => 0 end)) in H; cbn beta iota in H; subst c; f_equal;
    [apply Hb|rewrite !compare_by_bytes; apply Hb| |apply Hz..|apply Hf|apply Hf]. by destruct (v_boolean a), (v_boolean b).
Qed.
#[export] Instance key_le_total : Total key_le.
Proof.
  intros x y. unfold key_le, key_less. destruct (compareValues (key_value y) (key_value x)) as [c|] eqn:E; [|by left].
  rewrite (compareValues_antisym _ _ _ E). destruct (c <? 0) eqn:El; [right|by left]. to_prop. apply Z.ltb_ge. lia.
Qed.

(** The keys of an index are those of scalars of its kind. *)
Definition key_of (kind : ValueKind) (k : scalarKey) : Prop := exists v, scalar_of kind v /\ k = keyFromValue v.
Definition rank_of (k : scalarKey) : bytes + Z := value_rank (key_value k).
Lemma key_of_scalar kind k : key_of kind k -> scalar_of kind (key_value k).
Proof. intros (v & Hv & ->). by apply key_value_spec. Qed.
Lemma rank_of_key kind v : scalar_of kind v -> rank_of (keyFromValue v) = value_rank v.
Proof. intros Hv. by apply (key_value_spec kind). Qed.
Lemma rank_of_inj kind k l : key_of kind k -> key_of kind l -> rank_of k = rank_of l -> k = l.
Proof. intros (v & Hv & ->) (w & Hw & ->). rewrite !(rank_of_key kind) by done. by apply (key_rank kind). Qed.
Lemma key_le_rank kind k l : key_of kind k -> key_of kind l -> key_le k l -> k <> l -> rank_lt (rank_of k) (rank_of l).
Proof.
  intros Hk Hl. unfold key_le, key_less. rewrite (compareValues_scalar kind) by (by apply key_of_scalar). fold (rank_of k) (rank_of l).
  intros H Hne. to_prop. destruct (rank_trichotomy (rank_of k) (rank_of l)) as [?|[?|Hr]]; [done|by apply (rank_of_inj kind) in H0|].
  unfold rank_lt in Hr. lia.
Qed.

Definition keys_sorted : list scalarKey -> Prop := StronglySorted (fun k l => rank_lt (rank_of k) (rank_of l)).
Lemma sorted_keys kind (l : list scalarKey) : NoDup l -> Forall (key_of kind) l -> keys_sorted (merge_sort key_le l).
Proof.
  intros Hnd Hk. assert (merge_sort key_le l ≡ₚ l) as Hp by apply merge_sort_Permutation. rewrite <- Hp in Hnd, Hk.
  pose proof (Sorted_merge_sort key_le l) as Hs. clear Hp. unfold keys_sorted. induction Hs as [|x k Hs IH Hx]; [constructor|].
  apply NoDup_cons in Hnd as [Hn Hnd]. apply Forall_cons in Hk as [Hkx Hk]. specialize (IH Hnd Hk). constructor; [done|].
  destruct Hx as [|y k Hxy]; [done|]. assert (rank_lt (rank_of x) (rank_of y)) as Hr.
  { apply Forall_cons in Hk as [Hky _]. apply (key_le_rank kind); [done..|]. intros ->. apply Hn. left. }
  apply StronglySorted_inv in IH as [_ Hf]. constructor; [done|]. eapply Forall_impl; [exact Hf|]. intros z Hz. by apply rank_lt_trans with (rank_of y).
Qed.
Lemma keys_sorted_lookup l (a b : nat) k m :
  keys_sorted l -> l !! a = Some k -> l !! b = Some m -> (a < b)%nat -> rank_lt (rank_of k) (rank_of m).
Proof.
  intros Hs. revert a b. induction Hs as [|x l Hs IH Hx]; intros a b Ha Hb Hab; [done|].
  destruct b as [|b]; [lia|]. destruct a as [|a]; cbn in Ha, Hb.
  - injection Ha as ->. rewrite Forall_forall in Hx. apply Hx. by apply list_elem_of_lookup_2 in Hb.
  - apply (IH a b); [done..|lia].
Qed.
Lemma keys_sorted_le l (a b : nat) k m :
  keys_sorted l -> l !! a = Some k -> l !! b = Some m -> (a <= b)%nat -> rank_lt (rank_of k) (rank_of m) \/ k = m.
Proof.
  intros Hs Ha Hb Hab. destruct (decide (a = b)) as [->|]; [right; congruence|left]. apply (keys_sorted_lookup l a b); (done || lia).
Qed.

(** What the binary searches over sorted keys find. *)
Lemma search_test_ok kind ordered target test index k :
  Forall (key_of kind) ordered -> scalar_of kind target -> ordered !! index = Some k ->
  search_test ordered target test index = test (rank_compare (rank_of k) (value_rank target)).
Proof.
  intros Hk Ht Hl. unfold search_test. rewrite Hl. cbn. rewrite (compareValues_scalar kind); [done| |done].
  rewrite Forall_forall in Hk. apply key_of_scalar, Hk. by apply list_elem_of_lookup_2 in Hl.
Qed.
Lemma search_error_None kind ordered target test fuel i j :
  Forall (key_of kind) ordered -> scalar_of kind target -> (j <= length ordered)%nat -> search_error fuel ordered target test i j = None.
Proof.
  intros Hk Ht. revert i j. induction fuel as [|fuel IH]; intros i j Hj; [done|]. cbn [search_error].
  destruct (i <? j)%nat eqn:E; [|done]. apply Nat.ltb_lt in E.
  assert ((i + j) / 2 < j)%nat as Hh by (apply Nat.Div0.div_lt_upper_bound; lia).
  assert ((if negb (search_test ordered target test ((i + j) / 2)) then search_error fuel ordered target test (S ((i + j) / 2)) j
    else search_error fuel ordered target test i ((i + j) / 2)) = None) as -> by (destruct (negb _); apply IH; lia).
  destruct (lookup_lt_is_Some_2 ordered ((i + j) / 2)) as [k Hl]; [lia|]. rewrite Hl. cbn. rewrite (compareValues_scalar kind); [done| |done].
  rewrite Forall_forall in Hk. apply key_of_scalar, Hk. by apply list_elem_of_lookup_2 in Hl.
Qed.
(** The first index where a test that is monotone in the comparison holds. *)
Lemma search_keys kind ordered target (test : Z -> bool) :
  Forall (key_of kind) ordered -> keys_sorted ordered -> scalar_of kind target ->
  (forall k l, rank_lt (rank_of k) (rank_of l) -> test (rank_compare (rank_of k) (value_rank target)) = true ->
     test (rank_compare (rank_of l) (value_rank target)) = true) ->
  let n := sort_Search (length ordered) (search_test ordered target test) in
  (n <= length ordered)%nat /\
  forall a k, ordered !! a = Some k -> ((n <= a)%nat <-> test (rank_compare (rank_of k) (value_rank target)) = true).
Proof.
  intros Hk Hs Ht Hmono. cbv zeta.
  destruct (sort_Search_spec (length ordered) (search_test ordered target test)) as (H1 & H2 & H3).
  { intros a b Hab Hb Ha. destruct (lookup_lt_is_Some_2 ordered b) as [m Hm]; [lia|]. destruct (lookup_lt_is_Some_2 ordered a) as [k Hl]; [lia|].
    rewrite (search_test_ok kind _ _ _ _ k) in Ha by done. rewrite (search_test_ok kind _ _ _ _ m) by done.
    destruct (keys_sorted_le ordered a b k m Hs Hl Hm Hab) as [Hlt| ->]; [by apply (Hmono k m)|done]. }
  split; [done|]. intros a k Hl. rewrite <- (search_test_ok kind ordered target test a k) by done. split.
  - intros Ha. apply H3; [done|]. by apply lookup_lt_Some in Hl.
  - intros Ha. destruct (decide (sort_Search (length ordered) (search_test ordered target test) <= a)%nat); [done|]. rewrite H2 in Ha by lia. done.
Qed.

Lemma comparisonMatches_holds operator a b : comparisonMatches operator (rank_compare a b) = comparison_holds operator a b.
Proof. rewrite comparison_sign. by destruct operator. Qed.
Lemma operator_bounds_spec (n : nat) (cmp : nat -> Z) (lower upper : nat) operator :
  (lower <= n)%nat -> (upper <= n)%nat ->
  (forall a, (a < n)%nat -> (lower <= a)%nat <-> 0 <= cmp a) -> (forall a, (a < n)%nat -> (upper <= a)%nat <-> 0 < cmp a) ->
  is_comparison operator = true -> operator <> PredicateNE ->
  exists s t : nat, operator_bounds operator lower upper n = Some (s, t) /\ (s <= t <= n)%nat /\
    forall a, (a < n)%nat -> (s <= a < t)%nat <-> comparisonMatches operator (cmp a) = true.
Proof.
  intros Hl Hu Hlow Hup Hop Hne. assert (lower <= upper)%nat as Hlu.
  { destruct (decide (upper < n)%nat) as [Hn|]; [|lia]. apply Hlow; [done|]. pose proof (proj1 (Hup upper Hn) ltac:(lia)). lia. }
  destruct operator; try done; eexists _, _; (split; [reflexivity|]); (split; [lia|]); intros a Ha; specialize (Hlow a Ha); specialize (Hup a Ha); cbn;
    rewrite ?Z.eqb_eq, ?Z.ltb_lt, ?Z.leb_le; lia.
Qed.
Lemma orderedBounds_spec kind ordered target operator :
  Forall (key_of kind) ordered -> keys_sorted ordered -> scalar_of kind target -> is_comparison operator = true -> operator <> PredicateNE ->
  exists s t : nat, orderedBounds ordered target operator = Ok (s, t) /\ (s <= t <= length ordered)%nat /\
    forall a k, ordered !! a = Some k -> (s <= a < t)%nat <-> comparison_holds operator (rank_of k) (value_rank target) = true.
Proof.
  intros Hk Hs Ht Hop Hne. unfold orderedBounds. rewrite !(search_error_None kind) by done.
  assert (Hmono : forall k l, rank_lt (rank_of k) (rank_of l) ->
    0 <= rank_compare (rank_of k) (value_rank target) -> 0 < rank_compare (rank_of l) (value_rank target)).
  { intros k l Hkl H. assert (rank_lt (value_rank target) (rank_of l)) as Hr.
    { destruct (rank_trichotomy (value_rank target) (rank_of k)) as [H1|[->|H1]]; [by apply rank_lt_trans with (rank_of k)|done|].
      unfold rank_lt in H1. lia. }
    unfold rank_lt in Hr. rewrite rank_compare_antisym. lia. }
  destruct (search_keys kind ordered target (fun c => 0 <=? c)) as [L1 L2]; [done..| |].
  { intros k l Hkl H. to_prop. apply Z.leb_le. specialize (Hmono k l Hkl). lia. }
  destruct (search_keys kind ordered target (fun c => 0 <? c)) as [U1 U2]; [done..| |].
  { intros k l Hkl H. to_prop. apply Z.ltb_lt. specialize (Hmono k l Hkl). lia. }
  set (lower := sort_Search _ (search_test ordered target (fun c => 0 <=? c))) in *.
  set (upper := sort_Search _ (search_test ordered target (fun c => 0 <? c))) in *.
  set (cmp := fun a => match ordered !! a with Some k => rank_compare (rank_of k) (value_rank target) | None => 0 end).
  destruct (operator_bounds_spec (length ordered) cmp lower upper operator) as (s & t & Hb & Hst & Hm); try done.
  - intros a Ha. unfold cmp. destruct (lookup_lt_is_Some_2 ordered a Ha) as [k Hka]. rewrite Hka. rewrite <- Z.leb_le. by apply L2.
  - intros a Ha. unfold cmp. destruct (lookup_lt_is_Some_2 ordered a Ha) as [k Hka]. rewrite Hka. rewrite <- Z.ltb_lt. by apply U2.
  - exists s, t. rewrite Hb. split; [done|]. split; [done|]. intros a k Hka. rewrite (Hm a) by by apply lookup_lt_Some in Hka. unfold cmp. by rewrite Hka, comparisonMatches_holds.
Qed.
Lemma orderedUint32Bounds_spec values target operator :
  StronglySorted Z.le values -> is_comparison operator = true -> operator <> PredicateNE ->
  exists s t : nat, orderedUint32Bounds values target operator = (s, t) /\ (s <= t <= length values)%nat /\
    forall a x, values !! a = Some x -> (s <= a < t)%nat <-> comparisonMatches operator (compare_by Z.ltb x target) = true.
Proof.
  intros Hs Hop Hne. unfold orderedUint32Bounds.
  assert (Hle : forall a b, (a <= b)%nat -> (b < length values)%nat -> default 0 (values !! a) <= default 0 (values !! b)).
  { induction Hs as [|x values Hs IH Hx]; intros a b Hab Hb; [cbn in Hb; lia|]. destruct a as [|a], b as [|b]; try lia; cbn [length] in Hb; rewrite !lookup_cons.
    - destruct (lookup_lt_is_Some_2 values b) as [y Hy]; [lia|]. rewrite Hy. cbn. rewrite Forall_forall in Hx. apply Hx. by apply list_elem_of_lookup_2 in Hy.
    - apply IH; lia. }
  destruct (sort_Search_spec (length values) (fun index => target <=? default 0 (values !! index))) as (L1 & L2 & L3).
  { intros a b Hab Hb H. to_prop. apply Z.leb_le. specialize (Hle a b Hab Hb). lia. }
  destruct (sort_Search_spec (length values) (fun index => target <? default 0 (values !! index))) as (U1 & U2 & U3).
  { intros a b Hab Hb H. to_prop. apply Z.ltb_lt. specialize (Hle a b Hab Hb). lia. }
  set (lower := sort_Search _ (fun index => target <=? _)) in *. set (upper := sort_Search _ (fun index => target <? _)) in *.
  assert (Hcmp : forall x y, (0 <= compare_by Z.ltb x y <-> y <= x) /\ (0 < compare_by Z.ltb x y <-> y < x)).
  { intros x y. unfold compare_by. destruct (x <? y) eqn:E1, (y <? x) eqn:E2; to_prop; lia. }
  destruct (operator_bounds_spec (length values) (fun a => compare_by Z.ltb (default 0 (values !! a)) target) lower upper operator)
    as (s & t & Hb & Hst & Hm); try done.
  - intros a Ha. rewrite (proj1 (Hcmp _ _)), <- Z.leb_le. destruct (decide (lower <= a)%nat); [rewrite L3 by done; tauto|]. rewrite L2 by lia. split; [lia|done].
  - intros a Ha. rewrite (proj2 (Hcmp _ _)), <- Z.ltb_lt. destruct (decide (upper <= a)%nat); [rewrite U3 by done; tauto|]. rewrite U2 by lia. split; [lia|done].
  - exists s, t. rewrite Hb. split; [done|]. split; [done|]. intros a x Hx. rewrite (Hm a) by by apply lookup_lt_Some in Hx. by rewrite Hx.
Qed.
