(* ===== verification/IndexRows.v ===== *)
(** * The searches of an inverted index are exact

    The invariant of an index against the rows that were added to it, its
    preservation by [InvertedIndex_Add] and [Seal], and the bitmap of every search as the rows
    on which the predicate is TRUE. *)
From stdpp Require Import sorting.
From S2P Require Import Prelude GoSort Bytes Utf8 Bitmap SqlValue Like Predicate Inverted.
#[local] Open Scope string_scope.
#[local] Open Scope list_scope.
#[local] Open Scope Z_scope.

(** ** The rows of an index *)
Section index_rows.
Context {R : Type} `{Hroaring : Roaring R} {Hlaws : RoaringLaws R}.
Implicit Types (b : Bitmap R) (i : InvertedIndex R) (rows : gmap Z Value).

(** A bitmap of the rows with a property. *)
Definition bitmap_of b (P : Z -> Prop) : Prop := bm_inv b /\ forall row, row ∈ bm_set b <-> P row.
(** Bitmaps for the keys that have rows, and for no other. *)
Definition postings_ok {K} `{Countable K} (m : gmap K (Bitmap R)) (P : K -> Z -> Prop) : Prop :=
  forall key, match m !! key with
  | Some b => bitmap_of b (P key) /\ exists row, P key row
  | None => forall row, ~ P key row
  end.

Lemma bitmap_of_iff b (P Q : Z -> Prop) : (forall row, P row <-> Q row) -> bitmap_of b P -> bitmap_of b Q.
Proof. intros HPQ [H1 H2]. split; [done|]. intros row. by rewrite H2. Qed.
Lemma bitmap_of_new : bitmap_of (NewBitmap 0) (fun _ => False).
Proof. destruct (NewBitmap_inv (R := R) 0) as [H1 H2]; [done|]. split; [done|]. intros row. rewrite H2. set_solver. Qed.
Lemma bitmap_of_set b (P : Z -> Prop) row : is_u64 row -> bitmap_of b P -> bitmap_of (set_row row b) (fun r => P r \/ r = row).
Proof.
  intros Hr [H1 H2]. destruct (bm_Set_spec row b H1 Hr) as (H3 & H4 & _). split; [done|]. intros r. unfold set_row. rewrite H4, <- H2. set_solver.
Qed.
Lemma bitmap_of_or b c (P Q : Z -> Prop) : bitmap_of b P -> bitmap_of c Q -> bitmap_of (bm_Or (OperandOther c) b) (fun r => P r \/ Q r).
Proof.
  intros [H1 H2] [H3 H4]. destruct (bm_Or_spec (OperandOther c) b H1 H3) as [H5 H6]. split; [done|]. intros r. rewrite H6, <- H2, <- H4. set_solver.
Qed.
Lemma bitmap_of_and b c (P Q : Z -> Prop) : bitmap_of b P -> bitmap_of c Q -> bitmap_of (bm_And (OperandOther c) b) (fun r => P r /\ Q r).
Proof.
  intros [H1 H2] [H3 H4]. destruct (bm_And_spec (OperandOther c) b H1 H3) as [H5 H6]. split; [done|]. intros r. rewrite H6, <- H2, <- H4. set_solver.
Qed.
Lemma bitmap_of_and_nil b (P : Z -> Prop) : bitmap_of b P -> bitmap_of (bm_And OperandNil b) (fun _ => False).
Proof.
  intros [H1 H2]. destruct (bm_And_spec OperandNil b H1 I) as [H5 H6]. split; [done|]. intros r. rewrite H6. set_solver.
Qed.
Lemma bitmap_of_andnot b c (P Q : Z -> Prop) : bitmap_of b P -> bitmap_of c Q -> bitmap_of (bm_AndNot (OperandOther c) b) (fun r => P r /\ ~ Q r).
Proof.
  intros [H1 H2] [H3 H4]. destruct (bm_AndNot_spec (OperandOther c) b H1 H3) as [H5 H6]. split; [done|]. intros r. rewrite H6, <- H2, <- H4. set_solver.
Qed.

Section postings.
Context {K : Type} `{Countable K}.
Implicit Types (m : gmap K (Bitmap R)) (P : K -> Z -> Prop).

Lemma postings_iff m P Q : (forall key row, P key row <-> Q key row) -> postings_ok m P -> postings_ok m Q.
Proof.
  intros HPQ Hm key. specialize (Hm key). destruct (m !! key) as [b|].
  - destruct Hm as [Hb [row Hrow]]. split; [by apply (bitmap_of_iff b (P key))|]. exists row. by apply HPQ.
  - intros row Hrow. by apply (Hm row), HPQ.
Qed.
Lemma postings_default m P key : postings_ok m P -> bitmap_of (default (NewBitmap 0) (m !! key)) (P key).
Proof.
  intros Hm. specialize (Hm key). destruct (m !! key) as [b|]; [apply Hm|]. eapply bitmap_of_iff; [|apply bitmap_of_new].
  intros row. split; [done|]. apply Hm.
Qed.
Lemma addPosting_ok m P key row :
  is_u64 row -> postings_ok m P -> postings_ok (addPosting key row m) (fun k r => P k r \/ (k = key /\ r = row)).
Proof.
  intros Hr Hm k. unfold addPosting. destruct (decide (k = key)) as [->|Hne].
  - rewrite lookup_insert_eq. split; [|exists row; by right]. eapply bitmap_of_iff; [|by apply bitmap_of_set, (postings_default m P)]. naive_solver.
  - rewrite lookup_insert_ne by done. specialize (Hm k). destruct (m !! k) as [b|].
    + destruct Hm as [Hb [r Hrow]]. split; [eapply bitmap_of_iff; [|exact Hb]; naive_solver|]. exists r. by left.
    + intros r [?|[? _]]; [by apply (Hm r)|done].
Qed.
Lemma bitmap_of_or_operand m P key b (Q : Z -> Prop) :
  postings_ok m P -> bitmap_of b Q -> bitmap_of (bm_Or (operand_of (m !! key)) b) (fun r => Q r \/ P key r).
Proof.
  intros Hm Hb. specialize (Hm key). destruct (m !! key) as [c|]; cbn [operand_of].
  - apply bitmap_of_or; [done|apply Hm].
  - cbn [bm_Or]. eapply bitmap_of_iff; [|exact Hb]. intros row. split; [by left|]. intros [?|Hp]; [done|by apply Hm in Hp].
Qed.
(** A loop that merges the postings of the keys in a list. *)
Lemma union_ok {A} (key_at : A -> K) (l : list A) m P b (Q : Z -> Prop) :
  postings_ok m P -> bitmap_of b Q ->
  bitmap_of (foldl (fun bitmap x => bm_Or (operand_of (m !! key_at x)) bitmap) b l) (fun r => Q r \/ exists x, x ∈ l /\ P (key_at x) r).
Proof.
  intros Hm. revert b Q. induction l as [|x l IH]; intros b Q Hb.
  - eapply bitmap_of_iff; [|exact Hb]. intros r. split; [by left|]. intros [?|(x & Hx & _)]; [done|by apply elem_of_nil in Hx].
  - cbn [foldl]. eapply bitmap_of_iff; [|by apply IH, (bitmap_of_or_operand m P)]. intros r. setoid_rewrite elem_of_cons. naive_solver.
Qed.
Lemma postings_empty : postings_ok (∅ : gmap K (Bitmap R)) (fun _ _ => False).
Proof. intros key. rewrite lookup_empty. by intros row []. Qed.
End postings.

Definition element_keys (elements : list Value) : list scalarKey := keyFromValue <$> elements.
Lemma add_elements_ok row elements seen m (P : scalarKey -> Z -> Prop) :
  is_u64 row -> postings_ok m P ->
  postings_ok (add_elements row elements seen m) (fun k r => P k r \/ (r = row /\ k ∈ element_keys elements /\ k ∉ seen)).
Proof.
  intros Hr. revert seen m P. induction elements as [|element elements IH]; intros seen m P Hm.
  - eapply postings_iff; [|exact Hm]. intros k r. split; [by left|]. intros [?|(_ & Hk & _)]; [done|by apply elem_of_nil in Hk].
  - cbn [add_elements]. change (element_keys (element :: elements)) with (keyFromValue element :: element_keys elements).
    set (key := keyFromValue element). destruct (decide (key ∈ seen)) as [Hin|Hin].
    + eapply postings_iff; [|by apply IH]. intros k r. cbn. rewrite elem_of_cons. naive_solver.
    + eapply postings_iff; [|by apply IH, addPosting_ok]. intros k r. cbn. rewrite elem_of_cons, elem_of_union, elem_of_singleton.
      destruct (decide (k = key)) as [->|]; naive_solver.
Qed.

(** ** The invariant: an index holds some rows with their values *)
Definition row_value (field : Field) (v : Value) : Prop :=
  field_value (fd_Kind field) (fd_Array field) v /\ invalid_text v = false /\ is_u32 (zlen (v_elements v)).
Definition value_keys (v : Value) : list scalarKey := if v_array v then element_keys (v_elements v) else [keyFromValue v].
Definition row_with rows (P : Value -> Prop) (row : Z) : Prop := exists v, rows !! row = Some v /\ P v.
Definition has_key rows (key : scalarKey) (row : Z) : Prop := row_with rows (fun v => v_null v = false /\ key ∈ value_keys v) row.
Definition has_length rows (length row : Z) : Prop :=
  row_with rows (fun v => v_null v = false /\ v_array v = true /\ zlen (v_elements v) = length) row.

Record sealed_ok i rows : Prop := {
  so_keys : iv_ordered i ≡ₚ (map_to_list (iv_postings i)).*1;
  so_sorted : keys_sorted (iv_ordered i);
  so_blocks : iv_rangeBlocks i = buildRangeBlocks (iv_field i) (iv_postings i) (iv_ordered i);
  so_lengths : iv_lengths i ≡ₚ (map_to_list (iv_arrayLength i)).*1;
  so_sorted_lengths : StronglySorted Z.le (iv_lengths i)
}.
Record iv_inv i rows : Prop := {
  ii_values : map_Forall (fun row v => is_u64 row /\ row_value (iv_field i) v) rows;
  ii_rows : bitmap_of (iv_rows i) (row_with rows (fun _ => True));
  ii_nulls : bitmap_of (iv_nulls i) (row_with rows (fun v => v_null v = true));
  ii_nonNull : bitmap_of (iv_nonNull i) (row_with rows (fun v => v_null v = false));
  ii_postings : postings_ok (iv_postings i) (has_key rows);
  ii_arrayLength : postings_ok (iv_arrayLength i) (has_length rows);
  ii_sealed : iv_sealed i = true -> sealed_ok i rows
}.

Lemma NewInvertedIndex_inv field i : NewInvertedIndex field = Ok i -> iv_inv i ∅ /\ iv_field i = field /\ iv_sealed i = false.
Proof.
  unfold NewInvertedIndex. intros H. case_in H; [done|]. injection H as <-. split; [|done].
  assert (Hno : forall P row, ~ row_with ∅ P row) by (intros P row (v & Hv & _); by rewrite lookup_empty in Hv).
  split; cbn; try done; try (eapply bitmap_of_iff; [|apply bitmap_of_new]; intros row; split; [done|apply Hno]).
  - eapply postings_iff; [|apply postings_empty]. intros key row. split; [done|apply Hno].
  - eapply postings_iff; [|apply postings_empty]. intros key row. split; [done|apply Hno].
Qed.
Lemma row_with_insert rows row v P r :
  rows !! row = None -> row_with (<[row := v]> rows) P r <-> row_with rows P r \/ (r = row /\ P v).
Proof.
  intros Hn. unfold row_with. destruct (decide (r = row)) as [->|Hne]; [setoid_rewrite lookup_insert_eq|setoid_rewrite lookup_insert_ne; [|done..]]; naive_solver.
Qed.

Lemma Add_inv row value i rows i' :
  iv_inv i rows -> is_u64 row -> built_value value -> is_u32 (zlen (v_elements value)) -> InvertedIndex_Add row value i = Ok i' ->
  rows !! row = None /\ iv_inv i' (<[row := value]> rows) /\ iv_field i' = iv_field i /\ iv_sealed i' = false.
Proof.
  intros [H1 H2 H3 H4 H5 H6 H7] Hr Hb Hlen. unfold InvertedIndex_Add. destruct (iv_sealed i); [done|]. unfold bm_Contains. rewrite bc_contains_spec. fold (bm_set (iv_rows i)).
  case_bool_decide as Hin; [done|]. destruct (negb (bool_decide (v_kind value = _)) || _ || _) eqn:Et; [done|]. destruct (invalid_text value) eqn:Ei; [done|].
  apply orb_false_iff in Et as [Et _]. apply orb_false_iff in Et as [Ek Ea]. apply negb_false_iff in Ek, Ea. apply bool_decide_eq_true in Ek. apply eqb_prop in Ea.
  assert (Hn : rows !! row = None).
  { destruct (rows !! row) as [v|] eqn:Hv; [|done]. exfalso. apply Hin, H2. by exists v. }
  assert (Hval : map_Forall (fun row v => is_u64 row /\ row_value (iv_field i) v) (<[row := value]> rows))
    by (apply map_Forall_insert_2; [by split; [|split; [split|]]|done]).
  assert (Hset : forall b P, bitmap_of b (row_with rows P) -> P value -> bitmap_of (set_row row b) (row_with (<[row := value]> rows) P)).
  { intros b P Hbm HP. eapply bitmap_of_iff; [|by apply bitmap_of_set]. intros r. rewrite row_with_insert by done. naive_solver. }
  assert (Hkeep : forall b P, bitmap_of b (row_with rows P) -> ~ P value -> bitmap_of b (row_with (<[row := value]> rows) P)).
  { intros b P Hbm HP. eapply bitmap_of_iff; [|exact Hbm]. intros r. rewrite row_with_insert by done. naive_solver. }
  intros H. destruct (v_null value) eqn:Enull; [|destruct (v_array value) eqn:Earr]; injection H as <-; (split; [done|]); (split; [|done]); split; cbn; try done; auto.
  - apply Hkeep; [done|]. by rewrite Enull.
  - eapply postings_iff; [|exact H5]. intros key r. unfold has_key. rewrite row_with_insert by done. naive_solver congruence.
  - eapply postings_iff; [|exact H6]. intros key r. unfold has_length. rewrite row_with_insert by done. naive_solver congruence.
  - apply Hkeep; [done|]. by rewrite Enull.
  - eapply postings_iff; [|by apply add_elements_ok]. intros key r. unfold has_key. rewrite row_with_insert by done. unfold value_keys at 3. rewrite Earr. set_solver.
  - eapply postings_iff; [|by apply addPosting_ok]. intros key r. unfold has_length. rewrite row_with_insert by done.
    assert (wrap32 (zlen (v_elements value)) = zlen (v_elements value)) as -> by (unfold wrap32, is_u32, u32_max in *; apply Z.mod_small; lia). naive_solver.
  - apply Hkeep; [done|]. by rewrite Enull.
  - eapply postings_iff; [|by apply addPosting_ok]. intros key r. unfold has_key. rewrite row_with_insert by done. unfold value_keys at 3. rewrite Earr. set_solver.
  - eapply postings_iff; [|exact H6]. intros key r. unfold has_length. rewrite row_with_insert by done. naive_solver congruence.
Qed.

(** The keys that have postings are those of scalars. *)
Lemma value_keys_of i rows row v key :
  iv_inv i rows -> rows !! row = Some v -> v_null v = false -> key ∈ value_keys v -> key_of (fd_Kind (iv_field i)) key.
Proof.
  intros Hi Hv Hn Hk. destruct (ii_values i rows Hi row v Hv) as (_ & Hf & _). unfold value_keys in Hk. destruct (v_array v) eqn:Ea.
  - apply list_elem_of_fmap in Hk as (e & -> & He). exists e. split; [|done]. destruct Hf as [F1 F2 F3].
    pose proof (field_value_elements _ v (Build_field_value _ true v F1 F2 Ea) Hn) as Hall. rewrite Forall_forall in Hall. by apply Hall.
  - apply list_elem_of_singleton in Hk as ->. exists v. split; [|done]. destruct Hf as [F1 F2 F3]. apply field_value_scalar; [split; [done..|]|done]. congruence.
Qed.
Lemma posting_keys i rows key b : iv_inv i rows -> iv_postings i !! key = Some b -> key_of (fd_Kind (iv_field i)) key.
Proof.
  intros Hi Hb. pose proof (ii_postings i rows Hi key) as Hp. rewrite Hb in Hp. destruct Hp as [_ (row & v & Hv & Hn & Hk)]. by apply (value_keys_of i rows row v).
Qed.
Lemma map_keys_of i rows : iv_inv i rows -> Forall (key_of (fd_Kind (iv_field i))) (map_to_list (iv_postings i)).*1.
Proof.
  intros Hi. apply Forall_fmap, Forall_forall. intros [key b] Hin. apply elem_of_map_to_list in Hin. by apply (posting_keys i rows key b).
Qed.

Lemma Seal_inv i rows : iv_inv i rows -> iv_inv (Seal i) rows /\ iv_field (Seal i) = iv_field i /\ iv_sealed (Seal i) = true.
Proof.
  intros Hi. unfold Seal. destruct (iv_sealed i) eqn:Es; [by split|]. split; [|done]. pose proof (map_keys_of i rows Hi) as Hk.
  destruct Hi as [H1 H2 H3 H4 H5 H6 H7]. split; cbn; try done. intros _. split; cbn; try done.
  - apply merge_sort_Permutation.
  - apply (sorted_keys (fd_Kind (iv_field i))); [apply NoDup_fst_map_to_list|done].
  - apply merge_sort_Permutation.
  - apply (StronglySorted_merge_sort Z.le).
Qed.

(** ** Loops over postings *)
Lemma elem_of_slice {A} (l : list A) (s n : nat) x : x ∈ take n (drop s l) <-> exists a, (s <= a < s + n)%nat /\ l !! a = Some x.
Proof.
  rewrite list_elem_of_lookup. setoid_rewrite lookup_take_Some. setoid_rewrite lookup_drop. split.
  - intros (a & H & Ha). exists (s + a)%nat. split; [lia|done].
  - intros (a & Ha & H). exists (a - s)%nat. replace (s + (a - s))%nat with a by lia. split; [done|lia].
Qed.
Lemma scan_terms_ok (chosen : scalarKey -> result bool) (f : scalarKey -> bool) m P :
  postings_ok m P -> (forall key b, m !! key = Some b -> chosen key = Ok (f key)) ->
  exists b terms, scan_terms chosen m = Ok (b, terms) /\ bitmap_of b (fun r => exists key, f key = true /\ P key r).
Proof.
  intros Hm Hc. unfold scan_terms. match goal with |- context [foldM ?g _ _] => set (step := g) end.
  assert (Hloop : forall l b terms Q, bitmap_of b Q -> (forall kp, kp ∈ l -> bitmap_of kp.2 (P kp.1) /\ chosen kp.1 = Ok (f kp.1)) ->
    exists b' terms', foldM step l (b, terms) = Ok (b', terms') /\
      bitmap_of b' (fun r => Q r \/ exists kp, kp ∈ l /\ f kp.1 = true /\ P kp.1 r)).
  { induction l as [|[key posting] l IH]; intros b terms Q Hb Hl.
    - exists b, terms. split; [done|]. eapply bitmap_of_iff; [|exact Hb]. intros r. split; [by left|]. intros [?|(kp & Hkp & _)]; [done|by apply elem_of_nil in Hkp].
    - cbn [foldM]. unfold step at 1. destruct (Hl (key, posting)) as [Hp Hf]; [by left|]. cbn [fst snd] in *. rewrite Hf.
      destruct (f key) eqn:Ef; [destruct (IH (bm_Or (OperandOther posting) b) (terms + 1) (fun r => Q r \/ P key r)) as (b' & t' & H1 & H2)|
        destruct (IH b terms Q) as (b' & t' & H1 & H2)]; try done; try (by apply bitmap_of_or); try (intros kp Hkp; apply Hl; by right);
        exists b', t'; (split; [done|]); (eapply bitmap_of_iff; [|exact H2]); intros r; setoid_rewrite elem_of_cons; (split; [|intros [?|(kp & [->|Hkp] & Hkf & Hkr)]]).
      + intros [[?|?]|(kp & ? & ?)]; [by left|right; exists (key, posting); auto|right; exists kp; auto].
      + by left; left.
      + by left; right.
      + right. by exists kp.
      + intros [?|(kp & ? & ?)]; [by left|right; exists kp; auto].
      + by left.
      + cbn in Hkf. congruence.
      + right. by exists kp. }
  destruct (Hloop (map_to_list m) (NewBitmap 0) 0 (fun _ => False)) as (b & terms & H1 & H2).
  - apply bitmap_of_new.
  - intros [key b] Hin. apply elem_of_map_to_list in Hin. cbn. split; [|by apply (Hc key b)]. pose proof (Hm key) as Hk. rewrite Hin in Hk. apply Hk.
  - exists b, terms. split; [done|]. eapply bitmap_of_iff; [|exact H2]. intros r. split.
    + intros [[]|([key c] & _ & Hf & Hp)]. by exists key.
    + intros (key & Hf & Hp). right. pose proof (Hm key) as Hk. destruct (m !! key) as [c|] eqn:E; [|by apply Hk in Hp].
      exists (key, c). split; [by apply elem_of_map_to_list|done].
Qed.

(** A block holds the rows of its keys, and merging blocks is merging their keys. *)
Definition range_rows (ordered : list scalarKey) (P : scalarKey -> Z -> Prop) (start stop : nat) (r : Z) : Prop :=
  exists a key, (start <= a < stop)%nat /\ ordered !! a = Some key /\ P key r.
Lemma block_ok field m ordered P (n : nat) block :
  postings_ok m P -> buildRangeBlocks field m ordered !! n = Some block ->
  bitmap_of block (range_rows ordered P (n * invertedRangeBlockSize) (n * invertedRangeBlockSize + invertedRangeBlockSize)).
Proof.
  intros Hm. unfold buildRangeBlocks. case_if; [done|]. rewrite list_lookup_fmap, fmap_Some. intros (x & Hx & ->). apply lookup_seq in Hx as [-> _]. cbn [Nat.add].
  unfold bm_Freeze, union_keys. eapply bitmap_of_iff; [|apply (union_ok (fun k => k)); [exact Hm|apply bitmap_of_new]].
  intros r. setoid_rewrite elem_of_slice. unfold range_rows. naive_solver.
Qed.
Lemma buildRangeBlocks_length field m ordered :
  buildRangeBlocks field m ordered = [] \/ length (buildRangeBlocks field m ordered) = (length ordered / invertedRangeBlockSize)%nat.
Proof. unfold buildRangeBlocks. case_if; [by left|right]. by rewrite length_fmap, length_seq. Qed.
Lemma union_range_ok fuel i P b Q (start stop : nat) :
  postings_ok (iv_postings i) P -> iv_rangeBlocks i = buildRangeBlocks (iv_field i) (iv_postings i) (iv_ordered i) ->
  (stop <= length (iv_ordered i))%nat -> (stop - start <= fuel)%nat -> bitmap_of b Q ->
  bitmap_of (union_range fuel i b start stop) (fun r => Q r \/ range_rows (iv_ordered i) P start stop r).
Proof.
  intros Hm Hb Hstop. revert b Q start. induction fuel as [|fuel IH]; intros b Q start Hf HQ.
  { eapply bitmap_of_iff; [|exact HQ]. intros r. split; [by left|]. intros [?|(a & key & Ha & _)]; [done|lia]. }
  cbn [union_range]. destruct (start <? stop)%nat eqn:E; [apply Nat.ltb_lt in E|apply Nat.ltb_ge in E].
  2:{ eapply bitmap_of_iff; [|exact HQ]. intros r. split; [by left|]. intros [?|(a & key & Ha & _)]; [done|lia]. }
  destruct (negb _ && _ && _) eqn:Eb.
  - apply andb_true_iff in Eb as [Eb E3]. apply andb_true_iff in Eb as [E1 E2]. apply Nat.leb_le in E3. apply Nat.eqb_eq in E2.
    pose proof (Nat.div_mod_eq start invertedRangeBlockSize) as Hd. rewrite E2, Nat.add_0_r in Hd.
    assert (invertedRangeBlockSize = 256%nat) as Hsize by done.
    destruct (buildRangeBlocks_length (iv_field i) (iv_postings i) (iv_ordered i)) as [Hl|Hl]; rewrite <- Hb in Hl; [by rewrite Hl in E1|].
    destruct (lookup_lt_is_Some_2 (iv_rangeBlocks i) (start / invertedRangeBlockSize)) as [block Hblock].
    { rewrite Hl. apply Nat.lt_le_trans with (S (start / invertedRangeBlockSize)); [lia|]. apply Nat.div_le_lower_bound; [by rewrite Hsize|]. lia. }
    rewrite Hblock. rewrite Hb in Hblock. pose proof (block_ok _ _ _ P _ _ Hm Hblock) as Hbl.
    change (bm_OrFrozen (Some block) b) with (bm_Or (OperandOther block) b).
    eapply bitmap_of_iff; [|apply IH; [lia|apply bitmap_of_or; [exact HQ|exact Hbl]]]. intros r.
    replace (start / invertedRangeBlockSize * invertedRangeBlockSize)%nat with start by lia. unfold range_rows. split.
    + intros [[?|(a & key & Ha & ?)]|(a & key & Ha & ?)]; [by left|right; exists a, key; split; [lia|done]..].
    + intros [?|(a & key & Ha & ?)]; [by left; left|]. destruct (decide (a < start + invertedRangeBlockSize)%nat); [left; right|right]; exists a, key; (split; [lia|done]).
  - destruct (lookup_lt_is_Some_2 (iv_ordered i) start) as [key Hkey]; [lia|]. rewrite Hkey. cbn [mbind option_bind].
    eapply bitmap_of_iff; [|apply IH; [lia|apply (bitmap_of_or_operand _ P); [exact Hm|exact HQ]]]. intros r. unfold range_rows. split.
    + intros [[?|?]|(a & k & Ha & ?)]; [by left|right; exists start, key; split; [lia|done]|right; exists a, k; split; [lia|done]].
    + intros [?|(a & k & Ha & Hk & ?)]; [by left; left|]. destruct (decide (a = start)) as [->|]; [left; right; congruence|right; exists a, k; split; [lia|done]].
Qed.

(** ** The rows of a predicate *)

(** The rows whose value is not NULL and has a property. *)
Definition holds_rows rows (f : Value -> bool) : Z -> Prop := row_with rows (fun v => v_null v = false /\ f v = true).
Lemma holds_iff rows f g :
  (forall r v, rows !! r = Some v -> v_null v = false -> f v = g v) -> forall r, holds_rows rows f r <-> holds_rows rows g r.
Proof. intros Hfg r. unfold holds_rows, row_with. split; intros (v & Hv & Hn & Hf); exists v; (split; [done|]); (split; [done|]); specialize (Hfg r v Hv Hn); congruence. Qed.
Lemma complement_ok i rows b f :
  iv_inv i rows -> bitmap_of b (holds_rows rows f) -> bitmap_of (without i b) (holds_rows rows (fun v => negb (f v))).
Proof.
  intros Hi Hb. unfold without. eapply bitmap_of_iff; [|apply bitmap_of_andnot; [apply (ii_nonNull i rows Hi)|exact Hb]].
  intros r. unfold holds_rows, row_with. split.
  - intros [(v & Hv & Hn) Hno]. exists v. split; [done|]. split; [done|]. destruct (f v) eqn:E; [|done]. exfalso. apply Hno. by exists v.
  - intros (v & Hv & Hn & Hf). split; [by exists v|]. intros (w & Hw & _ & Hfw). rewrite Hv in Hw. injection Hw as <-. by rewrite Hfw in Hf.
Qed.
Lemma negated_ok i rows b f (negated : bool) :
  iv_inv i rows -> bitmap_of b (holds_rows rows f) ->
  bitmap_of (if negated then without i b else b) (holds_rows rows (fun v => xorb negated (f v))).
Proof.
  intros Hi Hb. destruct negated; [|eapply bitmap_of_iff; [|exact Hb]; apply holds_iff; intros; by destruct (f v)].
  eapply bitmap_of_iff; [|by apply (complement_ok i rows b f)]. apply holds_iff. intros. by destruct (f v).
Qed.

Definition value_has (v needle : Value) : bool := if v_array v then contains_rank (v_elements v) needle else same_rank v needle.
Lemma row_scalar i rows r v :
  iv_inv i rows -> fd_Array (iv_field i) = false -> rows !! r = Some v -> v_null v = false ->
  v_array v = false /\ scalar_of (fd_Kind (iv_field i)) v.
Proof.
  intros Hi Ha Hv Hn. destruct (ii_values i rows Hi r v Hv) as (_ & [F1 F2 F3] & _). split; [congruence|].
  apply field_value_scalar; [split; [done..|congruence]|done].
Qed.
Lemma row_elements i rows r v :
  iv_inv i rows -> fd_Array (iv_field i) = true -> rows !! r = Some v -> v_null v = false ->
  v_array v = true /\ Forall (scalar_of (fd_Kind (iv_field i))) (v_elements v).
Proof.
  intros Hi Ha Hv Hn. destruct (ii_values i rows Hi r v Hv) as (_ & [F1 F2 F3] & _). split; [congruence|].
  apply field_value_elements; [split; [done..|congruence]|done].
Qed.
Lemma has_key_holds i rows w r :
  iv_inv i rows -> scalar_of (fd_Kind (iv_field i)) w ->
  has_key rows (keyFromValue w) r <-> holds_rows rows (fun v => value_has v w) r.
Proof.
  intros Hi Hw. unfold has_key, holds_rows, row_with.
  cut (forall v, rows !! r = Some v -> v_null v = false -> keyFromValue w ∈ value_keys v <-> value_has v w = true); [naive_solver|].
  intros v Hv Hn. unfold value_keys, value_has. destruct (fd_Array (iv_field i)) eqn:Ea.
  - destruct (row_elements i rows r v Hi Ea Hv Hn) as [-> He]. rewrite Forall_forall in He. unfold element_keys, contains_rank.
    rewrite list_elem_of_fmap, existsb_exists. split.
    + intros (e & Hk & Hin). exists e. split; [by apply list_elem_of_In|]. unfold same_rank. apply bool_decide_eq_true.
      apply (key_rank (fd_Kind (iv_field i))); [by apply He|done|done].
    + intros (e & Hin & Hk). apply list_elem_of_In in Hin. exists e. split; [|done]. unfold same_rank in Hk. apply bool_decide_eq_true in Hk.
      symmetry. apply (key_rank (fd_Kind (iv_field i))); [by apply He|done|done].
  - destruct (row_scalar i rows r v Hi Ea Hv Hn) as [-> Hs]. rewrite list_elem_of_singleton. unfold same_rank. rewrite bool_decide_eq_true.
    rewrite <- (key_rank (fd_Kind (iv_field i))) by done. split; congruence.
Qed.
Lemma posting_ok i rows w :
  iv_inv i rows -> scalar_of (fd_Kind (iv_field i)) w -> bitmap_of (posting i w) (holds_rows rows (fun v => value_has v w)).
Proof.
  intros Hi Hw. eapply bitmap_of_iff; [|apply postings_default, (ii_postings i rows Hi)]. intros r. by apply (has_key_holds i).
Qed.
Lemma holds_exists rows (fs : Value -> Value -> bool) (l : list Value) r :
  (exists w, w ∈ l /\ holds_rows rows (fun v => fs v w) r) <-> holds_rows rows (fun v => existsb (fs v) l) r.
Proof.
  unfold holds_rows, row_with. setoid_rewrite existsb_exists. setoid_rewrite list_elem_of_In. naive_solver.
Qed.
Lemma unionValues_ok i rows set :
  iv_inv i rows -> Forall (scalar_of (fd_Kind (iv_field i))) set ->
  bitmap_of (unionValues i set) (holds_rows rows (fun v => existsb (value_has v) set)).
Proof.
  intros Hi Hs. unfold unionValues. eapply bitmap_of_iff; [|apply union_ok; [apply (ii_postings i rows Hi)|apply bitmap_of_new]].
  intros r. rewrite <- (holds_exists rows value_has). rewrite Forall_forall in Hs. split.
  - intros [[]|(w & Hw & Hk)]. exists w. split; [done|]. apply (has_key_holds i); auto.
  - intros (w & Hw & Hk). right. exists w. split; [done|]. apply (has_key_holds i); auto.
Qed.
Lemma intersect_values_ok i rows set b f :
  iv_inv i rows -> Forall (scalar_of (fd_Kind (iv_field i))) set -> bitmap_of b (holds_rows rows f) ->
  bitmap_of (intersect_values i set b) (holds_rows rows (fun v => f v && forallb (value_has v) set)).
Proof.
  intros Hi Hs. revert b f. induction Hs as [|w set Hw Hs IH]; intros b f Hb; cbn [intersect_values forallb].
  - eapply bitmap_of_iff; [|exact Hb]. apply holds_iff. intros. by rewrite andb_true_r.
  - pose proof (ii_postings i rows Hi (keyFromValue w)) as Hp. destruct (iv_postings i !! keyFromValue w) as [c|].
    + destruct Hp as [Hc _]. eapply bitmap_of_iff; [|apply (IH _ (fun v => f v && value_has v w))].
      * apply holds_iff. intros. by rewrite andb_assoc.
      * eapply bitmap_of_iff; [|apply bitmap_of_and; [exact Hb|exact Hc]]. intros r. pose proof (has_key_holds i rows w r Hi Hw) as Hh. cbn beta in Hh |- *. rewrite Hh.
        unfold holds_rows, row_with. setoid_rewrite andb_true_iff. naive_solver.
    + eapply bitmap_of_iff; [|by apply (bitmap_of_and_nil b (holds_rows rows f))]. intros r. split; [done|]. intros (v & Hv & Hn & Hf).
      apply andb_true_iff in Hf as [_ Hf]. apply andb_true_iff in Hf as [Hf _]. apply (Hp r). apply (has_key_holds i); [done..|]. by exists v.
Qed.
(** Keys chosen by their rank or by their text, in an index of scalars. *)
Lemma chosen_rank i rows (f : bytes + Z -> bool) r :
  iv_inv i rows -> fd_Array (iv_field i) = false ->
  (exists key, f (rank_of key) = true /\ has_key rows key r) <-> holds_rows rows (fun v => f (value_rank v)) r.
Proof.
  intros Hi Ha. unfold has_key, holds_rows, row_with, value_keys. split.
  - intros (key & Hf & v & Hv & Hn & Hk). exists v. split; [done|]. split; [done|]. destruct (row_scalar i rows r v Hi Ha Hv Hn) as [Hva Hs]. rewrite Hva in Hk.
    apply list_elem_of_singleton in Hk as ->. by rewrite (rank_of_key (fd_Kind (iv_field i))) in Hf.
  - intros (v & Hv & Hn & Hf). destruct (row_scalar i rows r v Hi Ha Hv Hn) as [Hva Hs]. exists (keyFromValue v).
    rewrite (rank_of_key (fd_Kind (iv_field i))) by done. split; [done|]. exists v. split; [done|]. split; [done|]. rewrite Hva. by apply list_elem_of_singleton.
Qed.
Lemma chosen_text i rows (f : bytes -> bool) r :
  iv_inv i rows -> fd_Array (iv_field i) = false -> fd_Kind (iv_field i) = ValueString ->
  (exists key, f (sk_text key) = true /\ has_key rows key r) <-> holds_rows rows (fun v => f (v_text v)) r.
Proof.
  intros Hi Ha Hk. unfold has_key, holds_rows, row_with, value_keys.
  assert (Ht : forall v, rows !! r = Some v -> v_null v = false -> v_array v = false /\ sk_text (keyFromValue v) = v_text v).
  { intros v Hv Hn. destruct (row_scalar i rows r v Hi Ha Hv Hn) as [Hva [_ Hs]]. split; [done|]. unfold keyFromValue. by rewrite Hs, Hk. }
  split.
  - intros (key & Hf & v & Hv & Hn & Hin). exists v. split; [done|]. split; [done|]. destruct (Ht v Hv Hn) as [Hva Htx]. rewrite Hva in Hin.
    apply list_elem_of_singleton in Hin as ->. by rewrite Htx in Hf.
  - intros (v & Hv & Hn & Hf). destruct (Ht v Hv Hn) as [Hva Htx]. exists (keyFromValue v). rewrite Htx. split; [done|]. exists v.
    split; [done|]. split; [done|]. rewrite Hva. by apply list_elem_of_singleton.
Qed.

(** ** Searches are exact *)
Lemma HasPrefix_spec s prefix : HasPrefix s prefix = true <-> prefix `prefix_of` s.
Proof.
  unfold HasPrefix. rewrite bool_decide_eq_true. split.
  - intros H1. exists (drop (length prefix) s). rewrite <- H1 at 1. by rewrite take_drop.
  - intros [k ->]. by rewrite take_app_length.
Qed.
Lemma HasSuffix_spec s suffix : HasSuffix s suffix = true <-> suffix `suffix_of` s.
Proof.
  unfold HasSuffix. rewrite andb_true_iff, !bool_decide_eq_true. split.
  - intros [_ H1]. exists (take (length s - length suffix) s). rewrite <- H1 at 2. by rewrite take_drop.
  - intros [k ->]. rewrite length_app. split; [lia|]. replace (length k + length suffix - length suffix)%nat with (length k) by lia. apply drop_app_length.
Qed.
Lemma row_text i rows r v :
  iv_inv i rows -> fd_Array (iv_field i) = false -> fd_Kind (iv_field i) = ValueString -> rows !! r = Some v -> v_null v = false ->
  exists runes, runes_of (v_text v) = Some runes.
Proof.
  intros Hi Ha Hk Hv Hn. destruct (ii_values i rows Hi r v Hv) as (_ & [F1 F2 F3] & Ht & _). unfold invalid_text in Ht.
  rewrite F2, Hk, F3, Ha, Hn, bool_decide_true in Ht by done. cbn in Ht. apply orb_false_iff in Ht as [Ht _]. apply negb_false_iff in Ht.
  unfold ValidString in Ht. destruct (runes_of (v_text v)) as [runes|]; [by exists runes|done].
Qed.

(** What a search result says of the rows. *)
Definition result_ok rows (f : Value -> bool) (r : InvertedResult R) : Prop :=
  if ir_Supported r then exists b, ir_Bitmap r = Some b /\ bitmap_of b (holds_rows rows f) else True.
Lemma supported_ok rows f b strategy terms : bitmap_of b (holds_rows rows f) -> result_ok rows f (supportedBitmap b strategy terms).
Proof. intros Hb. by exists b. Qed.
Lemma scan_texts_ok i rows chosen f strategy :
  iv_inv i rows -> fd_Array (iv_field i) = false -> fd_Kind (iv_field i) = ValueString ->
  (forall r v, rows !! r = Some v -> v_null v = false -> chosen (v_text v) = f v) ->
  exists r, scan_texts chosen strategy i = Ok r /\ result_ok rows f r.
Proof.
  intros Hi Ha Hk Hf. unfold scan_texts.
  destruct (scan_terms_ok (fun key => Ok (chosen (sk_text key))) (fun key => chosen (sk_text key)) _ _ (ii_postings i rows Hi)) as (b & terms & -> & Hb); [done|].
  eexists. split; [done|]. apply supported_ok. eapply bitmap_of_iff; [|exact Hb]. intros r. rewrite (chosen_text i) by done. by apply holds_iff.
Qed.
Lemma searchLike_ok i rows pattern like :
  iv_inv i rows -> fd_Array (iv_field i) = false -> fd_Kind (iv_field i) = ValueString -> CompileLike pattern = Ok like ->
  exists r, searchLike i (Some like) = Ok r /\ result_ok rows (fun v => like_Match like (v_text v)) r.
Proof.
  intros Hi Ha Hk Hl. unfold searchLike. rewrite Ha, Hk, bool_decide_true by done. cbn [orb negb].
  destruct (unescapedWildcardCounts _) as [percents underscores]. case_if; [by exists unsupported|].
  assert (Hm : lk_mode like <> LikeGeneral -> forall r v, rows !! r = Some v -> v_null v = false ->
    like_Match like (v_text v) = true <-> mode_matches (lk_mode like) (lk_literal like) (v_text v)).
  { intros Hne r v Hv Hn. destruct (row_text i rows r v Hi Ha Hk Hv Hn) as [runes Hr]. by apply (like_mode_spec pattern like (v_text v) runes). }
  assert (Hbool : forall a b : bool, (a = true <-> b = true) -> a = b) by (intros [] [] Hab; naive_solver).
  destruct (lk_mode like); try (by exists unsupported).
  - eexists. split; [done|]. apply supported_ok. eapply bitmap_of_iff; [|apply (posting_ok i rows (StringValue (lk_literal like)) Hi)].
    2:{ split; [apply ScalarString|done]. }
    apply holds_iff. intros r v Hv Hn. apply Hbool. rewrite (Hm ltac:(done) r v Hv Hn). destruct (row_scalar i rows r v Hi Ha Hv Hn) as [Hva [_ Hs]].
    unfold value_has, same_rank, value_rank. rewrite Hva, Hs, Hk, bool_decide_eq_true. cbn. split; [by intros [= ->]|by intros ->].
  - eexists. split; [done|]. apply supported_ok. eapply bitmap_of_iff; [|apply (ii_nonNull i rows Hi)]. intros r. unfold holds_rows, row_with. split.
    + intros (v & Hv & Hn). exists v. split; [done|]. split; [done|]. by apply (Hm ltac:(done) r v).
    + intros (v & Hv & Hn & _). by exists v.
  - apply scan_texts_ok; [done..|]. intros r v Hv Hn. apply Hbool. rewrite (Hm ltac:(done) r v Hv Hn), andb_true_iff, HasPrefix_spec, HasSuffix_spec. cbn.
    split; [by intros [? _]|]. intros Hp. split; [done|]. apply suffix_nil.
  - case_if; [by exists unsupported|]. apply scan_texts_ok; [done..|]. intros r v Hv Hn. apply Hbool.
    rewrite (Hm ltac:(done) r v Hv Hn), andb_true_iff, HasPrefix_spec, HasSuffix_spec. cbn. split; [by intros [_ ?]|]. intros Hp. split; [apply prefix_nil|done].
  - destruct (singlePercentTerms _) as [[prefix suffix] ok]. case_if; [by exists unsupported|]. by apply scan_texts_ok.
Qed.
Lemma searchRange_ok i rows p :
  iv_inv i rows -> iv_sealed i = true -> fd_Array (iv_field i) = false -> scalar_of (fd_Kind (iv_field i)) (bp_right p) ->
  is_comparison (bp_operator p) = true -> bp_operator p <> PredicateNE ->
  exists r, searchRange i p = Ok r /\ ir_Supported r = true /\
    result_ok rows (fun v => comparison_holds (bp_operator p) (value_rank v) (value_rank (bp_right p))) r.
Proof.
  intros Hi Hs Ha Hr Hop Hne. pose proof (ii_sealed i rows Hi Hs) as [S1 S2 S3 _ _]. unfold searchRange.
  pose proof (map_keys_of i rows Hi) as Hk. set (f := fun rank => comparison_holds (bp_operator p) rank (value_rank (bp_right p))).
  destruct (fd_RangeOptimized (iv_field i)).
  - rewrite <- S1 in Hk. destruct (orderedBounds_spec (fd_Kind (iv_field i)) (iv_ordered i) (bp_right p) (bp_operator p) Hk S2 Hr Hop Hne) as (s & t & -> & Hst & Hm).
    eexists. split; [done|]. split; [done|]. apply supported_ok. unfold unionOrderedRange. eapply bitmap_of_iff.
    2:{ apply union_range_ok; [apply (ii_postings i rows Hi)|done|apply Hst|lia|apply bitmap_of_new]. }
    intros r. change (holds_rows rows _ r) with (holds_rows rows (fun v => f (value_rank v)) r). rewrite <- (chosen_rank i rows f r Hi Ha). split.
    + intros [[]|(a & key & Hab & Hkey & Hp)]. exists key. split; [by apply (Hm a key)|done].
    + intros (key & Hf & Hp). right. assert (key ∈ iv_ordered i) as Hin.
      { rewrite S1. apply list_elem_of_fmap. pose proof (ii_postings i rows Hi key) as Hpk. destruct (iv_postings i !! key) as [c|] eqn:Ec; [|by apply Hpk in Hp].
        exists (key, c). split; [done|]. by apply elem_of_map_to_list. }
      apply list_elem_of_lookup in Hin as [a Hl]. exists a, key. split; [by apply (Hm a key)|done].
  - destruct (scan_terms_ok (fun key => match compareValues (key_value key) (bp_right p) with
      | Ok comparison => Ok (comparisonMatches (bp_operator p) comparison) | Fail e => Fail e end) (fun key => f (rank_of key)) _ _ (ii_postings i rows Hi))
      as (b & terms & -> & Hb).
    { intros key b Hb. rewrite (compareValues_scalar (fd_Kind (iv_field i))), comparisonMatches_holds; [done| |done]. by apply key_of_scalar, (posting_keys i rows key b). }
    eexists. split; [done|]. split; [done|]. apply supported_ok. eapply bitmap_of_iff; [|exact Hb]. intros r. by apply (chosen_rank i rows f r).
Qed.

(** Every well-typed search succeeds, LIKE patterns apart with a bitmap, and the
    bitmap is exact. *)
Lemma Search_holds i rows p :
  iv_inv i rows -> iv_sealed i = true -> predicate_ok (fd_Kind (iv_field i)) (fd_Array (iv_field i)) p -> bp_operator p <> PredicateIsNull ->
  exists r, Search p i = Ok r /\ (ir_Supported r = true \/ bp_operator p = PredicateLike) /\ result_ok rows (predicate_holds p) r.
Proof.
  intros Hi Hs Hp Hnn. unfold Search, validatePredicate. rewrite Hs. cbn [negb]. unfold predicate_ok in Hp. unfold predicate_holds.
  assert (Hset : Forall (scalar_of (fd_Kind (iv_field i))) (bp_set p) ->
    match bp_set p with first :: _ => negb (bool_decide (v_kind first = fd_Kind (iv_field i))) | [] => false end = false).
  { destruct 1 as [|w set [_ Hw] _]; [done|]. by rewrite bool_decide_true. }
  assert (Hright : scalar_of (fd_Kind (iv_field i)) (bp_right p) -> v_null (bp_right p) = false /\ v_array (bp_right p) = false /\
    negb (bool_decide (v_kind (bp_right p) = fd_Kind (iv_field i))) = false).
  { intros [Hr Hk]. destruct (scalar_plain _ Hr) as (H1 & H2 & _). by rewrite bool_decide_true. }
  destruct (bp_operator p) eqn:Eo; try done; cbn [is_comparison andb].
  1,2: destruct Hp as (Ha & Hr & Hes & _); destruct (Hright Hr) as (R1 & R2 & R3); rewrite Ha, R1, R2, R3, Hes; cbn [orb].
  1,2: eexists; split; [done|]; split; [by left|]; apply supported_ok.
  3-6: destruct Hp as (Ha & Hr & Hes & _); destruct (Hright Hr) as (R1 & R2 & R3); rewrite Ha, R1, R2, R3, Hes; cbn [orb].
  3-6: destruct (searchRange_ok i rows p Hi Hs Ha Hr) as (r & -> & H1 & H2); [by rewrite Eo..|]; rewrite Eo in H2; exists r; by auto.
  - rewrite bool_decide_false by done. eapply bitmap_of_iff; [|by apply (posting_ok i rows (bp_right p))]. apply holds_iff. intros r v Hv Hn.
    destruct (row_scalar i rows r v Hi Ha Hv Hn) as [Hva _]. unfold value_has. rewrite Hva, comparison_sign. cbn. by rewrite same_rank_compare.
  - rewrite bool_decide_true by done. eapply bitmap_of_iff; [|by apply (complement_ok i rows); [|by apply (posting_ok i rows (bp_right p))]].
    apply holds_iff. intros r v Hv Hn. destruct (row_scalar i rows r v Hi Ha Hv Hn) as [Hva _]. unfold value_has. rewrite Hva, comparison_sign. cbn. by rewrite same_rank_compare.
  - destruct Hp as (Hk & Ha & pattern & like & Hl & Hc). rewrite Ha, Hk, Hl, bool_decide_true by done. cbn [orb negb].
    destruct (searchLike_ok i rows pattern like Hi Ha Hk Hc) as (r & -> & Hres). exists r. auto.
  - destruct Hp as (Ha & Hne & Hf). rewrite Ha, (Hset Hf). destruct (zlen (bp_set p) =? 0) eqn:Ez; [to_prop; by apply zlen_0_nil in Ez|]. cbn [orb].
    eexists. split; [done|]. split; [by left|]. apply supported_ok.
    eapply bitmap_of_iff; [|apply negated_ok; [done|by apply (unionValues_ok i rows)]]. apply holds_iff. intros r v Hv Hn.
    destruct (row_scalar i rows r v Hi Ha Hv Hn) as [Hva _]. f_equal. unfold value_has. by rewrite Hva.
  - destruct Hp as (Ha & Hf). rewrite Ha, (Hset Hf). cbn [negb]. eexists. split; [done|]. split; [by left|]. apply supported_ok.
    unfold searchContain. rewrite Eo, bool_decide_true by done. eapply bitmap_of_iff; [|apply negated_ok; [done|apply (intersect_values_ok i rows _ _ (fun _ => true)); try done]].
    + apply holds_iff. intros r v Hv Hn. destruct (row_elements i rows r v Hi Ha Hv Hn) as [Hva _]. f_equal. cbn. unfold value_has. by rewrite Hva.
    + eapply bitmap_of_iff; [|apply (ii_nonNull i rows Hi)]. intros r. unfold holds_rows, row_with. naive_solver.
  - destruct Hp as (Ha & Hf). rewrite Ha, (Hset Hf). cbn [negb]. eexists. split; [done|]. split; [by left|]. apply supported_ok.
    unfold searchContain. rewrite Eo, bool_decide_false by done. eapply bitmap_of_iff; [|apply negated_ok; [done|by apply (unionValues_ok i rows)]].
    apply holds_iff. intros r v Hv Hn. destruct (row_elements i rows r v Hi Ha Hv Hn) as [Hva _]. f_equal. unfold value_has. by rewrite Hva.
Qed.

(** The rows on which a predicate is TRUE. *)
Definition true_rows rows (p : BoundPredicate) : Z -> Prop := row_with rows (fun v => predicate_meaning p v = TruthTrue).
Definition search_ok (P : Z -> Prop) (r : InvertedResult R) : Prop :=
  if ir_Supported r then exists b, ir_Bitmap r = Some b /\ bitmap_of b P else True.
Lemma true_rows_holds rows p r : bp_operator p <> PredicateIsNull -> true_rows rows p r <-> holds_rows rows (predicate_holds p) r.
Proof.
  intros Hne. unfold true_rows, holds_rows, row_with, predicate_meaning. rewrite bool_decide_false by done. split; intros (v & Hv & H1); exists v; (split; [done|]).
  - destruct (v_null v); [done|]. by destruct (predicate_holds p v).
  - destruct H1 as [-> ->]. done.
Qed.
Lemma Search_exact i rows p :
  iv_inv i rows -> iv_sealed i = true -> predicate_ok (fd_Kind (iv_field i)) (fd_Array (iv_field i)) p ->
  exists r, Search p i = Ok r /\ (ir_Supported r = true \/ bp_operator p = PredicateLike) /\ search_ok (true_rows rows p) r.
Proof.
  intros Hi Hs Hp. destruct (decide (bp_operator p = PredicateIsNull)) as [Ho|Ho].
  - unfold Search, validatePredicate. rewrite Hs, Ho. cbn [negb]. eexists. split; [done|]. split; [by left|]. eexists. split; [done|].
    unfold true_rows, predicate_meaning. rewrite Ho, bool_decide_true by done. destruct (bp_negated p) eqn:En.
    + eapply bitmap_of_iff; [|apply (ii_nonNull i rows Hi)]. intros r. unfold row_with, predicate_holds. rewrite Ho, En. cbn.
      split; intros (v & Hv & Hn); exists v; (split; [done|]); [by rewrite Hn|by destruct (v_null v)].
    + eapply bitmap_of_iff; [|apply (ii_nulls i rows Hi)]. intros r. unfold row_with, predicate_holds. rewrite Ho, En. cbn.
      split; intros (v & Hv & Hn); exists v; (split; [done|]); [by rewrite Hn|by destruct (v_null v)].
  - destruct (Search_holds i rows p Hi Hs Hp Ho) as (r & H1 & H2 & H3). exists r. split; [done|]. split; [done|].
    unfold result_ok in H3. unfold search_ok. destruct (ir_Supported r); [|done]. destruct H3 as (b & Hb & H3). exists b. split; [done|].
    eapply bitmap_of_iff; [|exact H3]. intros row. by rewrite true_rows_holds.
Qed.

(** Searches among the array lengths. *)
Lemma uint32_scalar v : scalar_of ValueUint32 v -> exists z, is_u32 z /\ v = Uint32Value z.
Proof.
  intros [Hv Hk]. destruct Hv as [| | | | |z Hz| |b v Hb Hf|b v Hb Hf]; try done; [by exists z|..];
    (unfold Float32Value, Float64Value in Hf; destruct (_ || _); [done|]; by injection Hf as <-).
Qed.
Definition length_holds (p : BoundPredicate) (v : Value) : bool := predicate_holds p (Uint32Value (zlen (v_elements v))).
Lemma SearchArrayLength_exact i rows p :
  iv_inv i rows -> iv_sealed i = true -> fd_Array (iv_field i) = true -> predicate_ok ValueUint32 false p -> is_comparison (bp_operator p) = true ->
  exists r, SearchArrayLength p i = Ok r /\ ir_Supported r = true /\ result_ok rows (length_holds p) r.
Proof.
  intros Hi Hs Ha Hp Hop. pose proof (ii_sealed i rows Hi Hs) as [_ _ _ S4 S5].
  assert (scalar_of ValueUint32 (bp_right p)) as Hright by (unfold predicate_ok in Hp; destruct (bp_operator p); naive_solver).
  destruct (uint32_scalar _ Hright) as (z & Hz & Hr). unfold SearchArrayLength. rewrite Hs, Ha, Hr, Hop. cbn. rewrite to_uint32_id, (bool_decide_true (ValueUint32 = _)) by done. cbn [orb negb].
  assert (Hmeaning : forall v, length_holds p v = comparisonMatches (bp_operator p) (compare_by Z.ltb (zlen (v_elements v)) z)).
  { intros v. unfold length_holds, predicate_holds. rewrite Hr.
    rewrite (comparisonMatches_holds _ (inr (zlen (v_elements v))) (inr z) : comparisonMatches _ (compare_by _ _ _) = _). by destruct (bp_operator p). }
  assert (Harr : forall r v, rows !! r = Some v -> v_null v = false -> v_array v = true) by (intros; by apply (row_elements i rows r)).
  pose proof (ii_arrayLength i rows Hi) as Hlen. case_bool_decide as Hne.
  - eexists. split; [done|]. split; [done|]. apply supported_ok. pose proof (Hlen z) as Hl. unfold operand_of.
    assert (Hcount : forall r, row_with rows (fun v => v_null v = false) r /\ ~ has_length rows z r <-> holds_rows rows (length_holds p) r).
    { intros r. unfold has_length, holds_rows, row_with. split.
      - intros [(v & Hv & Hn) Hno]. exists v. split; [done|]. split; [done|]. rewrite Hmeaning, Hne. cbn. apply negb_true_iff, Z.eqb_neq.
        intros H0. apply (rank_compare_0 (inr _) (inr _)) in H0. injection H0 as H0. apply Hno. exists v. by rewrite (Harr r v Hv Hn).
      - intros (v & Hv & Hn & Hf). split; [by exists v|]. intros (w & Hw & _ & _ & Hl'). rewrite Hv in Hw. injection Hw as <-.
        rewrite Hmeaning, Hne, Hl' in Hf. cbn in Hf. apply negb_true_iff, Z.eqb_neq in Hf. by apply Hf, (rank_compare_0 (inr _) (inr _)). }
    destruct (iv_arrayLength i !! z) as [c|].
    + eapply bitmap_of_iff; [exact Hcount|]. apply bitmap_of_andnot; [apply (ii_nonNull i rows Hi)|apply Hl].
    + cbn [bm_AndNot]. eapply bitmap_of_iff; [|apply (ii_nonNull i rows Hi)]. intros r. rewrite <- Hcount. split; [|by intros [? _]]. intros H1. split; [done|apply Hl].
  - destruct (orderedUint32Bounds_spec (iv_lengths i) z (bp_operator p) S5 Hop Hne) as (s & t & -> & Hst & Hm).
    eexists. split; [done|]. split; [done|]. apply supported_ok.
    eapply bitmap_of_iff; [|apply (union_ok (fun length => length)); [exact Hlen|apply bitmap_of_new]]. intros r. setoid_rewrite elem_of_slice. split.
    + intros [[]|(len & (a & Ha' & Hl) & v & Hv & Hn & _ & Hlv)]. exists v. split; [done|]. split; [done|]. rewrite Hmeaning, Hlv. apply (Hm a); [done|lia].
    + intros (v & Hv & Hn & Hf). right. exists (zlen (v_elements v)). assert (has_length rows (zlen (v_elements v)) r) as Hhl
        by (exists v; by rewrite (Harr r v Hv Hn)). split; [|done].
      assert (zlen (v_elements v) ∈ iv_lengths i) as Hin.
      { rewrite S4. apply list_elem_of_fmap. pose proof (Hlen (zlen (v_elements v))) as Hpk. destruct (iv_arrayLength i !! zlen (v_elements v)) as [c|] eqn:Ec; [|by apply Hpk in Hhl].
        exists (zlen (v_elements v), c). split; [done|]. by apply elem_of_map_to_list. }
      apply list_elem_of_lookup in Hin as [a Hl]. exists a. split; [|done]. rewrite Hmeaning in Hf. rewrite <- (Hm a _ Hl) in Hf. lia.
Qed.

(** The rows that are added, one after the other. *)
Definition add_rows (entries : list (Z * Value)) i : result (InvertedIndex R) := foldM (fun i '(row, value) => InvertedIndex_Add row value i) entries i.
Definition entry_ok (entry : Z * Value) : Prop := is_u64 entry.1 /\ built_value entry.2 /\ is_u32 (zlen (v_elements entry.2)).
Lemma add_rows_inv entries i rows i' :
  iv_inv i rows -> Forall entry_ok entries -> add_rows entries i = Ok i' ->
  iv_inv i' (list_to_map (reverse entries) ∪ rows) /\ iv_field i' = iv_field i /\ NoDup entries.*1 /\ (forall row, row ∈ entries.*1 -> rows !! row = None).
Proof.
  unfold add_rows. intros Hi Hok. revert i rows Hi. induction Hok as [|[row value] entries (H1 & H2 & H3) Hok IH]; intros i rows Hi H.
  - injection H as <-. cbn. rewrite (left_id_L ∅ (∪)). split; [done|]. split; [done|]. split; [constructor|]. by intros row ?%elem_of_nil.
  - cbn [foldM] in H. destruct (InvertedIndex_Add row value i) as [i1|] eqn:Ea; [|done]. destruct (Add_inv row value i rows i1 Hi H1 H2 H3 Ea) as (Hn & Hi1 & Hf & _).
    destruct (IH i1 _ Hi1 H) as (G1 & G2 & G3 & G4). assert (row ∉ entries.*1) as Hnin.
    { intros Hin. specialize (G4 row Hin). by rewrite lookup_insert_eq in G4. }
    rewrite reverse_cons, list_to_map_app. cbn [list_to_map foldr]. rewrite insert_empty, <- (assoc_L (∪)), <- insert_union_singleton_l.
    split; [done|]. split; [congruence|]. split; [by constructor|]. intros r Hr. cbn in Hr. apply elem_of_cons in Hr as [->|Hr]; [done|].
    specialize (G4 r Hr). by apply lookup_insert_None in G4 as [? _].
Qed.

Lemma added_rows field entries i0 i :
  NewInvertedIndex field = Ok i0 -> Forall entry_ok entries -> add_rows entries i0 = Ok i ->
  exists rows, iv_inv (Seal i) rows /\ iv_sealed (Seal i) = true /\ iv_field (Seal i) = field /\
    (forall row v, rows !! row = Some v <-> (row, v) ∈ entries).
Proof.
  intros Hn Hok Ha. destruct (NewInvertedIndex_inv field i0 Hn) as (H0 & Hf0 & _).
  destruct (add_rows_inv entries i0 ∅ i H0 Hok Ha) as (Hi & Hf & Hnd & _). rewrite (right_id_L ∅ (∪)) in Hi.
  destruct (Seal_inv i _ Hi) as (Hs & Hfs & Hsealed). exists (list_to_map (reverse entries)). split; [done|]. split; [done|]. split; [congruence|].
  assert ((reverse entries).*1 ≡ₚ entries.*1) as Hp by (by rewrite reverse_Permutation).
  intros row v. rewrite <- elem_of_list_to_map by by rewrite Hp. by rewrite elem_of_reverse.
Qed.

(** What a search of a sealed index answers of its rows. *)
Lemma Search_evaluates i rows p :
  iv_inv i rows -> iv_sealed i = true -> made_for (fd_Kind (iv_field i)) (fd_Array (iv_field i)) p ->
  exists r, Search p i = Ok r /\ (ir_Supported r = true \/ bp_operator p = PredicateLike) /\
    (ir_Supported r = true -> exists b, ir_Bitmap r = Some b /\ bm_inv b /\
       forall row, row ∈ bm_set b <-> exists v, rows !! row = Some v /\ Evaluate p v = Ok TruthTrue).
Proof.
  intros Hi Hs Hp. apply made_for_ok in Hp. destruct (Search_exact i rows p Hi Hs Hp) as (r & H1 & H2 & H3). exists r. split; [done|]. split; [done|].
  intros Hsup. unfold search_ok in H3. rewrite Hsup in H3. destruct H3 as (b & Hb & Hinv & Hset). exists b. split; [done|]. split; [done|].
  intros row. rewrite Hset. unfold true_rows, row_with.
  split; intros (v & Hv & Hm); exists v; (split; [done|]); destruct (ii_values _ _ Hi row v Hv) as (_ & Hfv & _);
    rewrite (Evaluate_meaning _ _ p v Hp Hfv) in *; congruence.
Qed.

(** C19: a search answers what a scan of the rows answers.  Whatever rows were added
    to an index, once it is sealed the search of any predicate made for the field
    succeeds; only LIKE patterns are ever handed back unsupported; and the bitmap of
    every other search has exactly the rows on whose value the predicate evaluates to
    TRUE, through postings, through the sorted keys with their blocks or through the
    term scans, negated or not. *)
Theorem inverted_search_exact field entries i0 i p :
  NewInvertedIndex field = Ok i0 -> Forall entry_ok entries -> add_rows entries i0 = Ok i ->
  made_for (fd_Kind field) (fd_Array field) p ->
  exists r, Search p (Seal i) = Ok r /\ (ir_Supported r = true \/ bp_operator p = PredicateLike) /\
    (ir_Supported r = true -> exists b, ir_Bitmap r = Some b /\ bm_inv b /\
       forall row, row ∈ bm_set b <-> exists v, (row, v) ∈ entries /\ Evaluate p v = Ok TruthTrue).
Proof.
  intros Hn Hok Ha Hp. destruct (added_rows field entries i0 i Hn Hok Ha) as (rows & Hi & Hs & <- & Hrows).
  destruct (Search_evaluates (Seal i) rows p Hi Hs Hp) as (r & H1 & H2 & H3). exists r. split; [done|]. split; [done|].
  intros Hsup. destruct (H3 Hsup) as (b & Hb & Hinv & Hset). exists b. split; [done|]. split; [done|]. intros row. rewrite Hset. by setoid_rewrite Hrows.
Qed.
(** Searches among the array lengths are exact: a comparison with a UINT32 finds
    the rows whose array is not NULL and whose length it holds of. *)
Theorem inverted_length_exact field entries i0 i p :
  NewInvertedIndex field = Ok i0 -> Forall entry_ok entries -> add_rows entries i0 = Ok i -> fd_Array field = true ->
  made_for ValueUint32 false p -> is_comparison (bp_operator p) = true ->
  exists r b, SearchArrayLength p (Seal i) = Ok r /\ ir_Supported r = true /\ ir_Bitmap r = Some b /\ bm_inv b /\
    forall row, row ∈ bm_set b <-> exists v, (row, v) ∈ entries /\ v_null v = false /\ Evaluate p (Uint32Value (zlen (v_elements v))) = Ok TruthTrue.
Proof.
  intros Hn Hok Ha Harr Hp Hop. destruct (added_rows field entries i0 i Hn Hok Ha) as (rows & Hi & Hs & Hf & Hrows). apply made_for_ok in Hp.
  rewrite <- Hf in Harr. destruct (SearchArrayLength_exact (Seal i) rows p Hi Hs Harr Hp Hop) as (r & H1 & H2 & H3).
  unfold result_ok in H3. rewrite H2 in H3. destruct H3 as (b & Hb & Hinv & Hset). exists r, b. do 4 (split; [done|]).
  intros row. rewrite Hset. unfold holds_rows, row_with, length_holds. setoid_rewrite Hrows.
  split; intros (v & Hv & Hnull & Hm); exists v; (split; [done|]); (split; [done|]); apply Hrows in Hv; destruct (ii_values _ _ Hi row v Hv) as (_ & Hfv & _ & Hlen);
    rewrite (Evaluate_meaning ValueUint32 false p) in * by (done || (split; [apply BuiltScalar|..]; try done; by apply ScalarUint32));
    unfold predicate_meaning in *; cbn [v_null Uint32Value] in *; [by rewrite Hm|by destruct (predicate_holds p _)].
Qed.
End index_rows.

(** ** Witnesses *)
Definition ex_field : Field :=
  {| fd_Name := [byte_of_Z 97]; fd_Kind := ValueInt32; fd_Array := false; fd_Nullable := true; fd_Filterable := true; fd_Indexed := true;
     fd_RangeOptimized := true; fd_ExtendedWildcard := false |}.
Definition ex_entries : list (Z * Value) :=
  [(7, Int32Value 5); (2, Int32Value (-3)); (9, MkValue ValueInt32 true false [] [] false 0 0 0 []); (4, Int32Value 5); (0, Int32Value 11)].
Lemma ex_entries_ok : Forall entry_ok ex_entries.
Proof.
  assert (Hi : forall row z, is_u64 row -> is_i32 z -> entry_ok (row, Int32Value z)).
  { intros row z H1 H2. split; [done|]. split; [by apply BuiltScalar, ScalarInt32|done]. }
  assert (Hn : entry_ok (9, MkValue ValueInt32 true false [] [] false 0 0 0 [])) by (split; [done|]; split; [by apply (BuiltNull ValueInt32 false)|done]).
  unfold ex_entries. repeat (apply Forall_cons_2; [first [exact Hn|apply Hi; unfold is_u64, is_i32, u64_max; lia]|]). apply Forall_nil_2.
Qed.
(** [field >= 5]. *)
Lemma inverted_search_exact_witness :
  exists i0 i p r b, NewInvertedIndex (R := gset Z) ex_field = Ok i0 /\ add_rows ex_entries i0 = Ok i /\
    NewComparisonPredicate PredicateGE (Int32Value 5) = Ok p /\ Search p (Seal i) = Ok r /\ ir_Bitmap r = Some b /\ 4 ∈ bm_set b.
Proof.
  destruct (NewInvertedIndex (R := gset Z) ex_field) as [i0|] eqn:E0; [|done]. destruct (add_rows ex_entries i0) as [i|] eqn:E1.
  2:{ exfalso. assert (is_ok (add_rows ex_entries i0) = true) as H; [|by rewrite E1 in H]. clear E1. injection E0 as <-. vm_compute. reflexivity. }
  destruct (NewComparisonPredicate PredicateGE (Int32Value 5)) as [p|] eqn:Ep; [|done].
  destruct (inverted_search_exact ex_field ex_entries i0 i p E0 ex_entries_ok E1) as (r & H1 & H2 & H3).
  { apply (MadeComparison _ _ _ PredicateGE (Int32Value 5)); try done. split; [|done]. apply ScalarInt32. unfold is_i32. lia. }
  destruct H3 as (b & Hb & _ & Hset). { destruct H2 as [H2|H2]; [done|]. injection Ep as <-. discriminate H2. }
  exists i0, i, p, r, b. do 5 (split; [done|]). apply Hset. exists (Int32Value 5). split; [unfold ex_entries; set_solver|]. injection Ep as <-. reflexivity.
Defined.
Definition ex_array_field : Field :=
  {| fd_Name := [byte_of_Z 98]; fd_Kind := ValueInt32; fd_Array := true; fd_Nullable := true; fd_Filterable := true; fd_Indexed := true;
     fd_RangeOptimized := false; fd_ExtendedWildcard := false |}.
Definition ex_array_entries : list (Z * Value) := [(3, ex_array); (1, MkValue ValueInt32 false true [] [] false 0 0 0 [])].
Lemma ex_array_entries_ok : Forall entry_ok ex_array_entries.
Proof.
  unfold ex_array_entries. apply Forall_cons_2; [|apply Forall_cons_2; [|apply Forall_nil_2]]; (split; [done|]; split; [|done]).
  - apply (BuiltArray ValueInt32 [Int32Value 5; Int32Value 3]); [|reflexivity]. repeat constructor; unfold is_i32; lia.
  - by apply (BuiltArray ValueInt32 []).
Qed.
Lemma inverted_length_exact_witness :
  exists i0 i p r b, NewInvertedIndex (R := gset Z) ex_array_field = Ok i0 /\ add_rows ex_array_entries i0 = Ok i /\
    NewComparisonPredicate PredicateNE (Uint32Value 0) = Ok p /\ SearchArrayLength p (Seal i) = Ok r /\ ir_Bitmap r = Some b /\ 3 ∈ bm_set b.
Proof.
  destruct (NewInvertedIndex (R := gset Z) ex_array_field) as [i0|] eqn:E0; [|done]. destruct (add_rows ex_array_entries i0) as [i|] eqn:E1.
  2:{ exfalso. assert (is_ok (add_rows ex_array_entries i0) = true) as H; [|by rewrite E1 in H]. clear E1. injection E0 as <-. vm_compute. reflexivity. }
  destruct (NewComparisonPredicate PredicateNE (Uint32Value 0)) as [p|] eqn:Ep; [|done].
  destruct (inverted_length_exact ex_array_field ex_array_entries i0 i p E0 ex_array_entries_ok E1 eq_refl) as (r & b & H1 & _ & H2 & _ & Hset).
  { apply (MadeComparison _ _ _ PredicateNE (Uint32Value 0)); try done. split; [|done]. apply ScalarUint32. done. }
  { by injection Ep as <-. }
  exists i0, i, p, r, b. do 5 (split; [done|]). apply Hset. exists ex_array. split; [unfold ex_array_entries; set_solver|]. split; [done|].
  injection Ep as <-. reflexivity.
Defined.
