(* ===== verification/IndexStore.v ===== *)
(** * The index store: [internal/db/common/pebble_context.go]

    The small surface of Pebble under the immutable index artifacts: a store
    with its closed state and its read-only mode, write batches, iterators over
    a range or a prefix of the keys, and the marker file of its directory.
    Pebble itself is the class [KVStore] extended by batches and ranges; the
    answers of the file system are arguments. *)
From S2P Require Import Prelude Bytes KeyStore.
From stdpp Require Import sorting.
#[local] Open Scope string_scope.
#[local] Open Scope list_scope.
#[local] Open Scope Z_scope.

(** ** What the code uses of Pebble *)
Inductive mutation := PutKey (key value : bytes) | DropKey (key : bytes).
Definition apply_mutation (view : gmap bytes bytes) (m : mutation) : gmap bytes bytes :=
  match m with PutKey key value => <[key := value]> view | DropKey key => delete key view end.
(** The keys between two bounds; an empty bound is none. *)
Definition in_range (lower upper : bytes) (e : bytes * bytes) : bool :=
  negb (bytes_ltb e.1 lower) && (bool_decide (upper = []) || bytes_ltb e.1 upper).

Class PebbleStore (DB : Type) `{KVStore DB} := {
  kv_Stage : list mutation -> mutation -> result (list mutation);
  kv_Commit : DB -> list mutation -> result DB;
  kv_Flush : DB -> result DB;
  kv_Compact : DB -> bytes -> bytes -> result DB;
  kv_Range : DB -> bytes -> bytes -> result (list (bytes * bytes) * option gerror);
  (** what stays in the directory, and the error *)
  kv_Close : DB -> DB * option gerror
}.
Class PebbleLaws (DB : Type) `{PebbleStore DB} := {
  kv_stage_view ms m ms' : kv_Stage ms m = Ok ms' -> ms' = ms ++ [m];
  kv_commit_view db ms db' : kv_Commit db ms = Ok db' -> kv_view db' = foldl apply_mutation (kv_view db) ms;
  kv_flush_view db db' : kv_Flush db = Ok db' -> kv_view db' = kv_view db;
  kv_compact_view db lower upper db' : kv_Compact db lower upper = Ok db' -> kv_view db' = kv_view db;
  kv_range_view db lower upper l :
    kv_Range db lower upper = Ok (l, None) -> l = base.filter (fun e => in_range lower upper e = true) (sorted_entries (kv_view db));
  kv_close_view db : kv_view (kv_Close db).1 = kv_view db
}.

#[global] Instance mem_pebble : PebbleStore (gmap bytes bytes) := {|
  kv_Stage ms m := Ok (ms ++ [m]);
  kv_Commit db ms := Ok (foldl apply_mutation db ms);
  kv_Flush db := Ok db;
  kv_Compact db _ _ := Ok db;
  kv_Range db lower upper := Ok (base.filter (fun e => in_range lower upper e = true) (sorted_entries db), None);
  kv_Close db := (db, None)
|}.
#[global] Instance mem_pebble_laws : PebbleLaws (gmap bytes bytes).
Proof. constructor; cbn; try (intros; simplify_eq; done). Qed.

(** ** Errors *)
Definition pebble_ErrClosed : gerror := errors_New "pebble: closed".
Definition ErrNotFound : gerror := errors_New "pebble: not found".
Definition ErrClosed : gerror := errors_New "indexstore: closed".
Definition ErrReadOnly : gerror := errors_New "indexstore: read-only".
Definition translateError (e : gerror) : gerror :=
  if errors_Is e ErrNotFound then ErrNotFound else if errors_Is e pebble_ErrClosed then ErrClosed else e.
Definition translated {A} (r : result A) : result A := match r with Ok a => Ok a | Fail e => Fail (translateError e) end.
Definition indexstoreMarkerContents : bytes := String.list_byte_of_string "zvec-indexstore-v1" ++ [byte_of_Z 10].

(** ** Prefixes as ranges *)

(** The loop from the last byte on. *)
Fixpoint successor_loop (reversed : bytes) : bytes :=
  match reversed with
  | [] => []
  | b :: rest => if Z_of_byte b =? 255 then successor_loop rest else byte_of_Z (Z_of_byte b + 1) :: rest
  end.
Definition prefixSuccessor (prefix : bytes) : bytes := reverse (successor_loop (reverse prefix)).

Section store.
Context {DB : Type} `{PebbleStore DB}.

(** ** Stores *)
(** An open store has its database. *)
Record Store := { ss_db : option DB; ss_readOnly : bool }.
Implicit Types s : Store.

Definition Store_Get s (key : bytes) : result bytes :=
  match ss_db s with
  | None => Fail ErrClosed
  | Some db =>
      match kv_Get db key with
      | Fail e => Fail (translateError e)
      | Ok None => Fail (translateError ErrNotFound)
      | Ok (Some value) => Ok value
      end
  end.
Definition requireWritableLocked s : result DB :=
  match ss_db s with None => Fail ErrClosed | Some db => if ss_readOnly s then Fail ErrReadOnly else Ok db end.
Definition with_db s (r : result DB) : result Store :=
  match r with Fail e => Fail (translateError e) | Ok db => Ok {| ss_db := Some db; ss_readOnly := ss_readOnly s |} end.
Definition Store_Set s (key value : bytes) : result Store :=
  match requireWritableLocked s with Fail e => Fail e | Ok db => with_db s (kv_Set db key value) end.
Definition Store_Delete s (key : bytes) : result Store :=
  match requireWritableLocked s with Fail e => Fail e | Ok db => with_db s (kv_Delete db key) end.
Definition Store_Flush s : result Store :=
  match requireWritableLocked s with Fail e => Fail e | Ok db => with_db s (kv_Flush db) end.
Definition Store_Compact s (lower upper : bytes) : result Store :=
  match requireWritableLocked s with Fail e => Fail e | Ok db => with_db s (kv_Compact db lower upper) end.

(** ** Batches *)
(** The mutations while the batch is open; [None] once it is closed. *)
Record Batch := { bt_pending : option (list mutation); bt_committed : bool }.
Definition NewBatch s : Batch := {| bt_pending := (fun _ => []) <$> ss_db s; bt_committed := false |}.
Definition requireOpenLocked (b : Batch) : result (list mutation) :=
  match bt_pending b with None => Fail ErrClosed | Some ms => if bt_committed b then Fail ErrClosed else Ok ms end.
Definition stage (b : Batch) (m : mutation) : result Batch :=
  match requireOpenLocked b with
  | Fail e => Fail e
  | Ok ms => match kv_Stage ms m with Fail e => Fail (translateError e) | Ok ms => Ok {| bt_pending := Some ms; bt_committed := false |} end
  end.
Definition Batch_Set (b : Batch) (key value : bytes) : result Batch := stage b (PutKey key value).
Definition Batch_Delete (b : Batch) (key : bytes) : result Batch := stage b (DropKey key).
Definition Batch_Commit s (b : Batch) : result (Store * Batch) :=
  match requireOpenLocked b with
  | Fail e => Fail e
  | Ok ms =>
      match requireWritableLocked s with
      | Fail e => Fail e
      | Ok db =>
          match with_db s (kv_Commit db ms) with
          | Fail e => Fail e
          | Ok s => Ok (s, {| bt_pending := bt_pending b; bt_committed := true |})
          end
      end
  end.
Definition Batch_Close (b : Batch) : Batch := {| bt_pending := None; bt_committed := bt_committed b |}.

(** ** Iterators *)
(** The entries in the range, what is left of them once it is positioned, and
    the error that the iteration ends with; [None] once it is closed. *)
Record iteration := { it_entries : list (bytes * bytes); it_error : option gerror; it_left : option (list (bytes * bytes)) }.
Definition Iterator := option iteration.
Definition NewRangeIterator s (lower upper : bytes) : result Iterator :=
  match ss_db s with
  | None => Fail ErrClosed
  | Some db =>
      match kv_Range db lower upper with
      | Fail e => Fail (translateError e)
      | Ok (entries, e) => Ok (Some {| it_entries := entries; it_error := e; it_left := None |})
      end
  end.
Definition NewPrefixIterator s (prefix : bytes) : result Iterator := NewRangeIterator s prefix (prefixSuccessor prefix).
Definition position_at (n : iteration) (left_ : list (bytes * bytes)) : Iterator * bool :=
  (Some {| it_entries := it_entries n; it_error := it_error n; it_left := Some left_ |}, match left_ with [] => false | _ => true end).
Definition Iterator_First (i : Iterator) : Iterator * bool :=
  match i with None => (None, false) | Some n => position_at n (it_entries n) end.
Definition Iterator_Next (i : Iterator) : Iterator * bool :=
  match i with
  | None => (None, false)
  | Some n => position_at n (match it_left n with None => it_entries n | Some l => tail l end)
  end.
Definition current (i : Iterator) : option (bytes * bytes) :=
  match i with Some {| it_left := Some (e :: _) |} => Some e | _ => None end.
Definition Iterator_Key (i : Iterator) : bytes := from_option fst [] (current i).
Definition Iterator_Value (i : Iterator) : bytes := from_option snd [] (current i).
Definition Iterator_Error (i : Iterator) : option gerror :=
  match i with Some {| it_left := Some []; it_error := e |} => translateError <$> e | _ => None end.
Definition Iterator_Close (i : Iterator) : Iterator := None.

(** ** Directories *)
(** A directory that is not empty: its marker file, if it has one, and the database. *)
Record Directory := { dy_marker : option bytes; dy_db : DB }.
(** The file system, when [Open] asks it. *)
Record open_io := {
  oi_resolve : option gerror; (** [filepath.Abs] *)
  oi_inspect : option gerror; (** [os.Lstat], a symbolic link or not a directory, [os.ReadDir] *)
  oi_read : option gerror;    (** reading the marker *)
  oi_write : option gerror    (** writing the marker, renaming it and synchronizing *)
}.
Definition validateIndexstoreMarker (io : open_io) (d : Directory) : option gerror :=
  match dy_marker d with
  | None => Some (errors_New "indexstore: inspect zvec marker")
  | Some contents =>
      if negb (zlen contents =? zlen indexstoreMarkerContents) then Some (errors_New "indexstore: invalid zvec marker")
      else match oi_read io with
      | Some e => Some (errorf "indexstore: read zvec marker" e)
      | None => if bytes_eqb contents indexstoreMarkerContents then None else Some (errors_New "indexstore: corrupt zvec marker")
      end
  end.
(** [Open]: the store and what it leaves in the directory.  A missing directory
    and an empty one are [None]. *)
Definition Open (io : open_io) (path : string) (readOnly : bool) (d : option Directory) : result Store * option Directory :=
  if String.eqb path "" then (Fail (errors_New "indexstore: empty path"), d)
  else match oi_resolve io with
  | Some e => (Fail (errorf "indexstore: resolve path" e), d)
  | None =>
  match oi_inspect io with
  | Some e => (Fail (errorf "indexstore: inspect path" e), d)
  | None =>
  match d with
  | Some dir =>
      match validateIndexstoreMarker io dir with
      | Some e => (Fail e, d)
      | None =>
          match kv_Open (dy_db dir) with
          | Fail e => (Fail (errorf "indexstore: open" e), d)
          | Ok db => (Ok {| ss_db := Some db; ss_readOnly := readOnly |}, d)
          end
      end
  | None =>
      (* [ErrorIfNotExists] makes Pebble refuse in read-only mode *)
      if readOnly then (Fail (errors_New "indexstore: open"), None)
      else match kv_Open kv_Empty with
      | Fail e => (Fail (errorf "indexstore: open" e), None)
      | Ok db =>
          match oi_write io with
          | Some e => (Fail e, Some {| dy_marker := None; dy_db := (kv_Close db).1 |})
          | None =>
              (Ok {| ss_db := Some db; ss_readOnly := false |}, Some {| dy_marker := Some indexstoreMarkerContents; dy_db := db |})
          end
      end
  end end end.
(** [Checkpoint]: the directory that it makes. *)
Definition Store_Checkpoint (inspect write : option gerror) s (path : string) : result Directory :=
  match ss_db s with
  | None => Fail ErrClosed
  | Some db =>
      if String.eqb path "" then Fail (errors_New "indexstore: empty checkpoint path")
      else match inspect with
      | Some e => Fail (errorf "indexstore: inspect checkpoint path" e)
      | None =>
          match kv_Checkpoint db with
          | Fail e => Fail (translateError e)
          | Ok copy => match write with Some e => Fail e | None => Ok {| dy_marker := Some indexstoreMarkerContents; dy_db := copy |} end
          end
      end
  end.
(** [Close], and what the directory holds afterwards. *)
Definition Store_Close s (d : option Directory) : Store * option Directory * option gerror :=
  match ss_db s with
  | None => (s, d, None)
  | Some db =>
      let '(db, e) := kv_Close db in
      ({| ss_db := None; ss_readOnly := ss_readOnly s |},
       (fun dir => {| dy_marker := dy_marker dir; dy_db := if ss_readOnly s then dy_db dir else db |}) <$> d, translateError <$> e)
  end.
(** [Destroy]; [remove] is the error of [os.RemoveAll] and what it left behind, if it failed. *)
Definition Store_Destroy (remove : option (gerror * option Directory)) (safe : bool) s (d : option Directory) : Store * option Directory * option gerror :=
  match ss_db s with
  | None => (s, d, Some ErrClosed)
  | Some db =>
      if ss_readOnly s then (s, d, Some ErrReadOnly)
      else if negb safe then (s, d, Some (errors_New "indexstore: refuse to destroy unsafe path"))
      else
        let '(db, e) := kv_Close db in
        ({| ss_db := None; ss_readOnly := ss_readOnly s |}, remove ≫= snd,
         errors_Join [translateError <$> e; fst <$> remove])
  end.
End store.
Arguments Store DB : clear implicits.
Arguments Directory DB : clear implicits.

(** ** A prefix is the range up to its successor *)
Lemma bytes_ltb_cons a b k l :
  bytes_ltb (a :: k) (b :: l) = (Z_of_byte a <? Z_of_byte b) || ((Z_of_byte a =? Z_of_byte b) && bytes_ltb k l).
Proof.
  unfold bytes_ltb. cbn [bytes_compare]. destruct (Z.compare_spec (Z_of_byte a) (Z_of_byte b)) as [E|E|E].
  - rewrite E, Z.ltb_irrefl, Z.eqb_refl. done.
  - rewrite (proj2 (Z.ltb_lt _ _) E). done.
  - rewrite (proj2 (Z.ltb_ge _ _)), (proj2 (Z.eqb_neq _ _)) by lia. done.
Qed.
Lemma successor_loop_snoc l b :
  successor_loop (l ++ [b]) = match successor_loop l with [] => successor_loop [b] | s => s ++ [b] end.
Proof. induction l as [|x l IH]; [done|]. cbn [app successor_loop]. by destruct (Z_of_byte x =? 255). Qed.
Lemma prefixSuccessor_cons b p :
  prefixSuccessor (b :: p) = match prefixSuccessor p with [] => prefixSuccessor [b] | s => b :: s end.
Proof.
  unfold prefixSuccessor. rewrite reverse_cons, successor_loop_snoc. destruct (successor_loop (reverse p)) as [|x s] eqn:E; [done|].
  rewrite reverse_snoc. destruct (reverse (x :: s)) eqn:Er; [|done]. apply (f_equal length) in Er. rewrite length_reverse in Er. done.
Qed.
Lemma prefixSuccessor_one b : prefixSuccessor [b] = if Z_of_byte b =? 255 then [] else [byte_of_Z (Z_of_byte b + 1)].
Proof. unfold prefixSuccessor. change (reverse [b]) with [b]. cbn [successor_loop]. by destruct (Z_of_byte b =? 255). Qed.
Lemma prefixSuccessor_spec p : forall k,
  negb (bytes_ltb k p) && (bool_decide (prefixSuccessor p = []) || bytes_ltb k (prefixSuccessor p)) = bool_decide (p `prefix_of` k).
Proof.
  induction p as [|b p IH]; intros k.
  { change (prefixSuccessor []) with (@nil byte). rewrite (bool_decide_eq_true_2 ([] `prefix_of` k)) by apply prefix_nil. by destruct k. }
  destruct k as [|a k].
  { rewrite (bool_decide_eq_false_2 (b :: p `prefix_of` [])) by (intros [? [=]]). done. }
  specialize (IH k). pose proof (Z_of_byte_range a) as Ha. pose proof (Z_of_byte_range b) as Hb. rewrite prefixSuccessor_cons, bytes_ltb_cons.
  destruct (decide (a = b)) as [->|Hne].
  - rewrite Z.ltb_irrefl, Z.eqb_refl. cbn [orb andb]. transitivity (bool_decide (p `prefix_of` k)); [|apply bool_decide_ext; split; [apply prefix_cons|apply prefix_cons_inv_2]].
    rewrite <- IH. f_equal. destruct (prefixSuccessor p) as [|x s].
    + rewrite prefixSuccessor_one. destruct (Z_of_byte b =? 255) eqn:E; [done|]. apply Z.eqb_neq in E.
      rewrite bytes_ltb_cons, Z_of_byte_of_Z, Z.mod_small by lia. rewrite (proj2 (Z.ltb_lt _ _)) by lia. done.
    + rewrite bytes_ltb_cons, Z.ltb_irrefl, Z.eqb_refl. done.
  - assert (Z_of_byte a <> Z_of_byte b) as Hz by (intros Hz; by apply Z_of_byte_inj in Hz).
    rewrite (bool_decide_eq_false_2 (b :: p `prefix_of` a :: k)) by (intros Hp; apply prefix_cons_inv_1 in Hp; congruence).
    rewrite (proj2 (Z.eqb_neq _ _) Hz). cbn [andb]. rewrite orb_false_r. destruct (Z.ltb_spec (Z_of_byte a) (Z_of_byte b)); [done|]. cbn [negb andb].
    destruct (prefixSuccessor p) as [|x s].
    + rewrite prefixSuccessor_one. destruct (Z_of_byte b =? 255) eqn:E; to_prop; [lia|].
      rewrite bytes_ltb_cons, Z_of_byte_of_Z, Z.mod_small by lia. rewrite (proj2 (Z.ltb_ge _ _)) by lia.
      destruct (Z.eqb_spec (Z_of_byte a) (Z_of_byte b + 1)); [|done]. by destruct k.
    + rewrite bytes_ltb_cons, (proj2 (Z.ltb_ge _ _)), (proj2 (Z.eqb_neq _ _)) by lia. done.
Qed.
Lemma in_range_prefix prefix e : in_range prefix (prefixSuccessor prefix) e = bool_decide (prefix `prefix_of` e.1).
Proof. apply prefixSuccessor_spec. Qed.

(** The entries of a prefix are those whose key begins with it, in order. *)
Definition prefixed (prefix : bytes) (view : gmap bytes bytes) : list (bytes * bytes) :=
  base.filter (fun e => prefix `prefix_of` e.1) (sorted_entries view).
Lemma range_prefixed `{PebbleLaws DB} (db : DB) prefix l :
  kv_Range db prefix (prefixSuccessor prefix) = Ok (l, None) -> l = prefixed prefix (kv_view db).
Proof.
  intros Hr. rewrite (kv_range_view _ _ _ _ Hr). unfold prefixed. apply list_filter_iff. intros e. rewrite in_range_prefix. apply bool_decide_eq_true.
Qed.
