(* ===== verification/InvertedStore.v ===== *)
(** * Inverted indexes on disk: [internal/db/sqlengine/inverted_pebble.go]

    [Save] writes a sealed index into a new directory of the index store and
    [OpenInvertedIndex] reads it back with all its checks.  A bitmap is cut into
    chunks of 512 words, a key each; terms and array lengths have keys that order
    them.  The panic of [AppendWords] on more than 2^58 words is the error
    [panicked], which nothing catches. *)
From S2P Require Import Prelude Bytes Utf8 Json JsonText KeyStore ManifestJson IndexStore Bitmap SqlValue Predicate Inverted.
#[local] Open Scope string_scope.
#[local] Open Scope list_scope.
#[local] Open Scope Z_scope.

Definition invertedPebbleFormat : bytes := bs "zvec-invert-pebble/1".
Definition invertedPebbleChunkBytes : nat := 4096.
Definition invertedPebbleBatchBytes : Z := 4194304.
Definition invertedFormatKey : bytes := bs "m/format".
Definition invertedFieldKey : bytes := bs "m/field".
Definition ErrCorruptInvertedIndex : gerror := errors_New "sql: corrupt inverted index".
Definition invertedCorruption (message : string) : gerror := GErr message [ErrCorruptInvertedIndex].
Definition panicked : gerror := errors_New "panic: ailego: bitmap exceeds addressable memory".

(** ** The field as JSON *)
Definition kind_number (kind : ValueKind) : Z :=
  match kind with
  | ValueBinary => 1 | ValueString => 2 | ValueBool => 3 | ValueInt32 => 4 | ValueInt64 => 5 | ValueUint32 => 6 | ValueUint64 => 7
  | ValueFloat32 => 8 | ValueFloat64 => 9 | ValueInvalid code => code
  end.
Definition kind_of_number (number : Z) : ValueKind :=
  match number with
  | 1 => ValueBinary | 2 => ValueString | 3 => ValueBool | 4 => ValueInt32 | 5 => ValueInt64 | 6 => ValueUint32 | 7 => ValueUint64
  | 8 => ValueFloat32 | 9 => ValueFloat64 | _ => ValueInvalid number
  end.
Definition json_field_members (field : Field) : list (string * bytes) :=
  [("Name", json_string (String.string_of_list_byte (fd_Name field))); ("Kind", json_uint (kind_number (fd_Kind field)));
   ("Array", json_bool (fd_Array field)); ("Nullable", json_bool (fd_Nullable field)); ("Filterable", json_bool (fd_Filterable field));
   ("Indexed", json_bool (fd_Indexed field)); ("RangeOptimized", json_bool (fd_RangeOptimized field));
   ("ExtendedWildcard", json_bool (fd_ExtendedWildcard field))].
(** [json.Marshal] of a [Field]. *)
Definition json_field (field : Field) : bytes := json_struct (json_field_members field).
Definition field_names : list string :=
  ["Name"; "Kind"; "Array"; "Nullable"; "Filterable"; "Indexed"; "RangeOptimized"; "ExtendedWildcard"].
Definition decode_field (raw : bytes) : decoded Field :=
  f ← decode_fields field_names raw;
  name ← ManifestJson.field f "Name" "" decode_string;
  kind ← ManifestJson.field f "Kind" 0 (decode_uint 255);
  array ← ManifestJson.field f "Array" false decode_bool;
  nullable ← ManifestJson.field f "Nullable" false decode_bool;
  filterable ← ManifestJson.field f "Filterable" false decode_bool;
  indexed ← ManifestJson.field f "Indexed" false decode_bool;
  optimized ← ManifestJson.field f "RangeOptimized" false decode_bool;
  wildcard ← ManifestJson.field f "ExtendedWildcard" false decode_bool;
  Decoded {| fd_Name := bs name; fd_Kind := kind_of_number kind; fd_Array := array; fd_Nullable := nullable; fd_Filterable := filterable;
             fd_Indexed := indexed; fd_RangeOptimized := optimized; fd_ExtendedWildcard := wildcard |}.
(** Decoding with [DisallowUnknownFields] and then the end of the text; what
    [encoding/json] makes of a repeated member is an argument. *)
Definition field_of_json (repeated : bytes -> result Field) (payload : bytes) : result Field :=
  if negb (json_Valid payload) then Fail (errors_New "invalid character")
  else match decode_field (json_body payload) with
  | Decoded field => Ok field
  | Undecodable => Fail (errors_New "json: cannot unmarshal")
  | Repeated => repeated payload
  end.

(** ** Keys of the terms *)
Definition encodeInvertedScalarKey (key : scalarKey) : bytes :=
  [byte_of_Z (kind_number (sk_kind key))] ++
  match sk_kind key with
  | ValueBinary | ValueString => sk_text key
  | ValueBool => [byte_of_Z (if sk_boolean key then 1 else 0)]
  | ValueInt32 | ValueInt64 => le_put 8 (sk_signed key)
  | ValueUint32 | ValueUint64 => le_put 8 (sk_unsigned key)
  | ValueFloat32 | ValueFloat64 => le_put 8 (sk_bits key)
  | ValueInvalid _ => []
  end.
Definition to_int64 (z : Z) : Z := (z + 9223372036854775808) mod 18446744073709551616 - 9223372036854775808.
Definition validPersistedScalarKey (key : scalarKey) : bool :=
  let finite := negb (f64_IsNaN (sk_bits key)) && negb (f64_IsInf (sk_bits key)) in
  kind_valid (sk_kind key) &&
  match sk_kind key with
  | ValueString => ValidString (sk_text key)
  | ValueInt32 => (-2147483648 <=? sk_signed key) && (sk_signed key <=? 2147483647)
  | ValueUint32 => sk_unsigned key <=? 4294967295
  | ValueFloat32 => finite && f64_eqb (f32_widen (f64_narrow (sk_bits key))) (sk_bits key)
  | ValueFloat64 => finite
  | _ => true
  end.
Definition decodeInvertedScalarKey (encoded : bytes) (kind : ValueKind) : result scalarKey :=
  match encoded with
  | [] => Fail (errors_New "kind mismatch")
  | b :: rest =>
      if negb (Z_of_byte b =? kind_number kind) then Fail (errors_New "kind mismatch")
      else
        let key text boolean signed unsigned bits :=
          {| sk_kind := kind; sk_text := text; sk_boolean := boolean; sk_signed := signed; sk_unsigned := unsigned; sk_bits := bits |} in
        let checked key := if validPersistedScalarKey key then Ok key else Fail (errors_New "invalid scalar value") in
        match kind with
        | ValueBinary | ValueString => checked (key rest false 0 0 0)
        | ValueBool =>
            match rest with
            | [b] => if 1 <? Z_of_byte b then Fail (errors_New "invalid boolean") else checked (key [] (Z_of_byte b =? 1) 0 0 0)
            | _ => Fail (errors_New "invalid boolean")
            end
        | ValueInt32 | ValueInt64 =>
            if negb (zlen rest =? 8) then Fail (errors_New "invalid signed integer") else checked (key [] false (to_int64 (le_get rest)) 0 0)
        | ValueUint32 | ValueUint64 =>
            if negb (zlen rest =? 8) then Fail (errors_New "invalid unsigned integer") else checked (key [] false 0 (le_get rest) 0)
        | ValueFloat32 | ValueFloat64 =>
            if negb (zlen rest =? 8) then Fail (errors_New "invalid floating point value") else checked (key [] false 0 0 (le_get rest))
        | ValueInvalid _ => Fail (errors_New "invalid value kind")
        end
  end.

Section inverted_store.
Context {R : Type} `{Roaring R} {DB : Type} `{PebbleStore DB}.
Implicit Types (i : InvertedIndex R) (bitmap : Bitmap R).

(** ** Writing *)
Record invertedStoreWriter := { iw_store : Store DB; iw_batch : option Batch; iw_size : Z }.
Implicit Types w : invertedStoreWriter.
Definition newInvertedStoreWriter (store : Store DB) : invertedStoreWriter :=
  {| iw_store := store; iw_batch := Some (NewBatch store); iw_size := 0 |}.
(** [errors.Join] of committing and closing the batch. *)
Definition commit (store : Store DB) (batch : Batch) : result (Store DB) :=
  match Batch_Commit store batch with Ok (store, _) => Ok store | Fail e => Fail (GErr EmptyString [e]) end.
(** A writer that was closed has no batch; [set] on it would panic and is not called. *)
Definition writer_set w (key value : bytes) : result invertedStoreWriter :=
  match iw_batch w with
  | None => Fail ErrClosed
  | Some batch =>
      batch ← Batch_Set batch key value;
      let size := iw_size w + (zlen key + zlen value) in
      if size <? invertedPebbleBatchBytes then Ok {| iw_store := iw_store w; iw_batch := Some batch; iw_size := size |}
      else
        store ← commit (iw_store w) batch;
        Ok {| iw_store := store; iw_batch := Some (NewBatch store); iw_size := 0 |}
  end.
Definition writer_close w : result invertedStoreWriter :=
  match iw_batch w with
  | None => Ok w
  | Some batch =>
      store ← commit (iw_store w) batch;
      Ok {| iw_store := store; iw_batch := None; iw_size := iw_size w |}
  end.
(** The words of a chunk as bytes, and back. *)
Definition words_bytes (words : list Z) : bytes := words ≫= le_put 8.
Fixpoint bytes_words (count : nat) (value : bytes) : list Z :=
  match count with O => [] | S count => le_get (take 8 value) :: bytes_words count (drop 8 value) end.
Definition chunk_words : nat := (invertedPebbleChunkBytes / 8)%nat.
(** The loop of [writeInvertedBitmap]; every round but the first takes a word. *)
Fixpoint write_chunks (fuel : nat) (ctx : context) w (prefix : bytes) (words : list Z) (chunk : Z) : result invertedStoreWriter :=
  match fuel with
  | O => Ok w
  | S fuel =>
      if negb (bool_decide (words = [])) || (chunk =? 0) then
        match ctx_Err ctx with
        | Some e => Fail e
        | None =>
            w ← writer_set w (prefix ++ be_put 4 chunk) (words_bytes (take chunk_words words));
            write_chunks fuel ctx w prefix (drop chunk_words words) (wrap32 (chunk + 1))
        end
      else Ok w
  end.
Definition writeInvertedBitmap (ctx : context) w (prefix : bytes) bitmap : result invertedStoreWriter :=
  let words := bm_Snapshot bitmap in write_chunks (S (S (length words))) ctx w prefix words 0.

Definition tag_bitmap : byte := "b"%byte.
Definition tag_term : byte := "t"%byte.
Definition tag_posting : byte := "p"%byte.
Definition tag_length : byte := "l"%byte.
Definition bitmap_prefix (kind : Z) : bytes := [tag_bitmap; byte_of_Z kind].
Definition invertedPostingPrefix (ordinal : Z) : bytes := tag_posting :: be_put 4 ordinal.
Definition term_key (ordinal : Z) : bytes := tag_term :: be_put 4 ordinal.
Definition length_prefix (length : Z) : bytes := tag_length :: be_put 4 length.

(** The loops over the bitmaps, the terms and the array lengths. *)
Definition write_bitmaps (ctx : context) w (bitmaps : list (Z * Bitmap R)) : result invertedStoreWriter :=
  foldM (fun w '(kind, bitmap) => writeInvertedBitmap ctx w (bitmap_prefix kind) bitmap) bitmaps w.
Definition write_term (ctx : context) i w (entry : Z * scalarKey) : result invertedStoreWriter :=
  let '(ordinal, key) := entry in
  match (if Z.land ordinal 1023 =? 0 then ctx_Err ctx else None) with
  | Some e => Fail e
  | None =>
      w ← writer_set w (term_key (wrap32 ordinal)) (encodeInvertedScalarKey key);
      writeInvertedBitmap ctx w (invertedPostingPrefix (wrap32 ordinal)) (default (NewBitmap 0) (iv_postings i !! key))
  end.
Definition ordinals {A} (l : list A) : list (Z * A) := zip (Z.of_nat <$> seq 0 (length l)) l.
Definition write_length (ctx : context) i w (length : Z) : result invertedStoreWriter :=
  match ctx_Err ctx with
  | Some e => Fail e
  | None => writeInvertedBitmap ctx w (length_prefix length) (default (NewBitmap 0) (iv_arrayLength i !! length))
  end.
Definition write_index (ctx : context) i w : result invertedStoreWriter :=
  w ← writer_set w invertedFormatKey invertedPebbleFormat;
  w ← writer_set w invertedFieldKey (json_field (iv_field i));
  w ← write_bitmaps ctx w [(0, iv_rows i); (1, iv_nulls i); (2, iv_nonNull i)];
  w ← foldM (write_term ctx i) (ordinals (iv_ordered i)) w;
  w ← foldM (write_length ctx i) (iv_lengths i) w;
  writer_close w.

(** The file system, when [Save] asks it. *)
Record save_io := {
  sv_list : option gerror; (** [os.ReadDir] of the new directory *)
  sv_open : open_io;
  sv_remove : option (gerror * option (Directory DB)); (** [os.RemoveAll] after a failure *)
  sv_safe : bool (** the directory may be removed *)
}.
Definition requireEmptyInvertedDirectory (io : save_io) (path : string) (d : option (Directory DB)) : option gerror :=
  if String.eqb path "" then Some (errors_New "sql: empty inverted-index path")
  else match sv_list io, d with
  | Some e, _ => Some (errorf "sql: inspect inverted-index directory" e)
  | None, None => None
  | None, Some _ => Some (errors_New "sql: inverted-index directory is not empty")
  end.
(** [Save]: its error, and the directory that it leaves.  After a failure the
    directory is destroyed, whatever the store had taken by then. *)
Definition Save (io : save_io) (ctx : context) (path : string) i (d : option (Directory DB)) : option gerror * option (Directory DB) :=
  match ctx_guard "sql: nil inverted-index save context" ctx with
  | Some e => (Some e, d)
  | None =>
  match requireEmptyInvertedDirectory io path d with
  | Some e => (Some e, d)
  | None =>
  if negb (iv_sealed i) then (Some (errors_New "sql: inverted index is not sealed"), d)
  else match Open (sv_open io) path false d with
  | (Fail e, d) => (Some (errorf "sql: create inverted index store" e), d)
  | (Ok store, d) =>
      let destroy e := (Some e, (Store_Destroy (sv_remove io) (sv_safe io) store d).1.2) in
      match write_index ctx i (newInvertedStoreWriter store) with
      | Fail e => destroy e
      | Ok w =>
          match Store_Flush (iw_store w) with
          | Fail e => destroy (errorf "sql: flush inverted index store" e)
          | Ok store =>
              match Store_Close store d with
              | (_, d, Some e) => (Some (errorf "sql: close inverted index store" e), d)
              | (_, d, None) => (None, d)
              end
          end
      end
  end end end.

(** ** Reading *)
Definition corrupt {A} (message : string) : result A := Fail (invertedCorruption message).
Definition or_corrupt {A} (message : string) (r : result A) : result A := match r with Ok a => Ok a | Fail _ => corrupt message end.
(** An iterator and whether it is at an entry. *)
Definition cursor : Type := Iterator * bool.
Definition entries_left (c : cursor) : nat :=
  match c.1 with Some n => length (default (it_entries n) (it_left n)) | None => O end.
(** A chunk of a bitmap: the checks on its key and its value, and its words. *)
Definition read_chunk (key value prefix : bytes) (chunk : Z) : option (list Z) :=
  if negb (zlen key =? zlen prefix + 4) || negb (be_get (drop (length prefix) key) =? chunk) || negb (zlen value mod 8 =? 0) ||
     (Z.of_nat invertedPebbleChunkBytes <? zlen value) || ((zlen value =? 0) && negb (chunk =? 0))
  then None
  else Some (bytes_words (length value / 8) value).
(** The loop, which takes an entry in every round. *)
Fixpoint read_chunks (fuel : nat) (ctx : context) (prefix : bytes) (c : cursor) bitmap (chunk : Z) : result (Bitmap R * cursor * Z) :=
  match fuel with
  | O => Ok (bitmap, c, chunk)
  | S fuel =>
      if c.2 && HasPrefix (Iterator_Key c.1) prefix then
        match ctx_Err ctx with
        | Some e => Fail e
        | None =>
            match read_chunk (Iterator_Key c.1) (Iterator_Value c.1) prefix chunk with
            | None => corrupt "invalid bitmap chunk"
            | Some words =>
                match bm_AppendWords words bitmap with
                | None => Fail panicked
                | Some bitmap => read_chunks fuel ctx prefix (Iterator_Next c.1) bitmap (wrap32 (chunk + 1))
                end
            end
        end
      else Ok (bitmap, c, chunk)
  end.
Definition readInvertedBitmapChunks (ctx : context) (prefix : bytes) (c : cursor) : result (Bitmap R * cursor) :=
  '(bitmap, c, chunk) ← read_chunks (S (entries_left c)) ctx prefix c (NewBitmap 0) 0;
  match Iterator_Error c.1 with
  | Some _ => corrupt "iterate bitmap chunks"
  | None => if chunk =? 0 then corrupt "missing bitmap chunks" else Ok (bitmap, c)
  end.
Definition readInvertedBitmap (ctx : context) (store : Store DB) (prefix : bytes) : result (Bitmap R) :=
  i ← or_corrupt "open bitmap iterator" (NewPrefixIterator store prefix);
  '(bitmap, c) ← readInvertedBitmapChunks ctx prefix (Iterator_First i);
  match Iterator_Error c.1 with Some _ => corrupt "iterate bitmap chunks" | None => Ok bitmap end.

Definition bitmapSubset (left_ right_ : Bitmap R) : bool :=
  bm_Range (fun row _ => let found := bm_Contains row right_ in (found, found)) left_ true.
(** The loop of [bitmapPartition] over the words; the shorter ones end in zeros. *)
Definition partition_words (rows nulls present : list Z) : bool :=
  forallb (fun index =>
    let word l := default 0 (l !! index) in
    (Z.land (word nulls) (word present) =? 0) && (Z.lor (word nulls) (word present) =? word rows))
    (seq 0 (Nat.max (length rows) (Nat.max (length nulls) (length present)))).
Definition bitmapPartition (rows nulls nonNull : Bitmap R) : bool := partition_words (bm_Snapshot rows) (bm_Snapshot nulls) (bm_Snapshot nonNull).

(** The state of the loop over the terms: the postings and the terms so far. *)
Definition term_state : Type := gmap scalarKey (Bitmap R) * list scalarKey.
(** One term with its posting; [nonNull] is the row domain. *)
Definition read_term (ctx : context) (kind : ValueKind) (nonNull : Bitmap R) (key value : bytes) (ordinal : Z) (postings : cursor) (state : term_state)
    : result (cursor * term_state) :=
  match (if Z.land ordinal 1023 =? 0 then ctx_Err ctx else None) with
  | Some e => Fail e
  | None =>
      if negb (zlen key =? 5) || negb (HasPrefix key [tag_term]) || negb (be_get (drop 1 key) =? ordinal) then corrupt "non-contiguous term keys"
      else
        scalar ← or_corrupt "invalid term key" (decodeInvertedScalarKey value kind);
        let ordered := match last state.2 with
          | None => true
          | Some previous => match compareValues (key_value previous) (key_value scalar) with Ok comparison => comparison <? 0 | Fail _ => false end
          end in
        if negb ordered then corrupt "terms are not strictly ordered"
        else
          '(posting, postings) ← readInvertedBitmapChunks ctx (invertedPostingPrefix ordinal) postings;
          if (bm_Count posting =? 0) || negb (bitmapSubset posting nonNull) then corrupt "posting is empty or outside the non-NULL row domain"
          else Ok (postings, (<[scalar := posting]> state.1, state.2 ++ [scalar]))
  end.
Fixpoint read_terms (fuel : nat) (ctx : context) (kind : ValueKind) (nonNull : Bitmap R) (terms : cursor) (ordinal : Z) (postings : cursor) (state : term_state)
    : result (cursor * cursor * term_state) :=
  match fuel with
  | O => Ok (terms, postings, state)
  | S fuel =>
      if terms.2 then
        '(postings, state) ← read_term ctx kind nonNull (Iterator_Key terms.1) (Iterator_Value terms.1) ordinal postings state;
        read_terms fuel ctx kind nonNull (Iterator_Next terms.1) (wrap32 (ordinal + 1)) postings state
      else Ok (terms, postings, state)
  end.
(** The loop over the array lengths, which reads a bitmap in every round. *)
Definition length_state : Type := gmap Z (Bitmap R) * list Z.
Fixpoint read_lengths (fuel : nat) (ctx : context) (array : bool) (nonNull : Bitmap R) (c : cursor) (state : length_state)
    : result (cursor * length_state) :=
  match fuel with
  | O => Ok (c, state)
  | S fuel =>
      if c.2 then
        let key := Iterator_Key c.1 in
        if negb (zlen key =? 9) || negb (HasPrefix key [tag_length]) then corrupt "invalid array-length key"
        else
          let length := be_get (take 4 (drop 1 key)) in
          if match last state.2 with Some previous => length <=? previous | None => false end then corrupt "array lengths are not ordered"
          else
            '(posting, c) ← readInvertedBitmapChunks ctx (take 5 key) c;
            if negb array || (bm_Count posting =? 0) || negb (bitmapSubset posting nonNull) then corrupt "invalid array-length posting"
            else read_lengths fuel ctx array nonNull c (<[length := posting]> state.1, state.2 ++ [length])
      else Ok (c, state)
  end.

Definition read_field (repeated : bytes -> result Field) (store : Store DB) : result (InvertedIndex R) :=
  format ← or_corrupt "invalid format marker" (Store_Get store invertedFormatKey);
  if negb (bytes_eqb format invertedPebbleFormat) then corrupt "invalid format marker"
  else
    fieldBytes ← or_corrupt "read field metadata" (Store_Get store invertedFieldKey);
    field ← or_corrupt "decode field metadata" (field_of_json repeated fieldBytes);
    or_corrupt "invalid field metadata" (NewInvertedIndex field).
Definition iteration_error (message : string) (c : cursor) : result () :=
  match Iterator_Error c.1 with Some _ => corrupt message | None => Ok () end.
Definition read_index (repeated : bytes -> result Field) (ctx : context) (store : Store DB) : result (InvertedIndex R) :=
  index ← read_field repeated store;
  let field := iv_field index in
  rows ← readInvertedBitmap ctx store (bitmap_prefix 0);
  nulls ← readInvertedBitmap ctx store (bitmap_prefix 1);
  nonNull ← readInvertedBitmap ctx store (bitmap_prefix 2);
  if negb (bitmapPartition rows nulls nonNull) then corrupt "NULL bitmaps do not partition rows"
  else
    terms ← or_corrupt "open term iterator" (NewPrefixIterator store [tag_term]);
    postings ← or_corrupt "open posting iterator" (NewPrefixIterator store [tag_posting]);
    let postings := Iterator_First postings in
    let terms := Iterator_First terms in
    '(terms, postings, terms_read) ← read_terms (S (entries_left terms)) ctx (fd_Kind field) nonNull terms 0 postings (∅, []);
    _ ← iteration_error "iterate terms" terms;
    _ ← iteration_error "iterate postings" postings;
    if (postings : cursor).2 then corrupt "postings have no corresponding term"
    else
      lengths ← or_corrupt "open array-length iterator" (NewPrefixIterator store [tag_length]);
      let lengths := Iterator_First lengths in
      '(lengths, lengths_read) ← read_lengths (S (entries_left lengths)) ctx (fd_Array field) nonNull lengths (∅, []);
      _ ← iteration_error "iterate array lengths" lengths;
      Ok {| iv_field := field; iv_sealed := true; iv_rows := rows; iv_nulls := nulls; iv_nonNull := nonNull; iv_postings := terms_read.1;
            iv_ordered := terms_read.2; iv_rangeBlocks := buildRangeBlocks field terms_read.1 terms_read.2; iv_arrayLength := lengths_read.1; iv_lengths := lengths_read.2 |}.
(** [OpenInvertedIndex]; the store is closed at the end, in every case. *)
Definition OpenInvertedIndex (repeated : bytes -> result Field) (io : open_io) (ctx : context) (path : string) (d : option (Directory DB))
    : result (InvertedIndex R) :=
  match ctx_guard "sql: nil inverted-index open context" ctx with
  | Some e => Fail e
  | None =>
      match (Open io path true d).1 with
      | Fail _ => corrupt "open Pebble store"
      | Ok store => read_index repeated ctx store
      end
  end.
End inverted_store.
