(* ===== verification/InvertedReopen.v ===== *)
(** * A saved inverted index reads back

    The entries that [Save] writes, their order in the store, and that
    [OpenInvertedIndex] finds in them an index over the same rows. *)
From stdpp Require Import sorting.
From S2P Require Import Prelude Bytes Utf8 Json JsonText KeyStore ManifestJson IndexStore Bitmap SqlValue Predicate Inverted IndexRows InvertedStore.
#[local] Open Scope string_scope.
#[local] Open Scope list_scope.
#[local] Open Scope Z_scope.

(** ** The order of big-endian keys *)
Lemma bytes_lt_app_same p x y : bytes_lt x y -> bytes_lt (p ++ x) (p ++ y).
Proof. intros Hlt. induction p as [|b p IH]; [done|]. unfold bytes_lt. cbn [app]. rewrite bytes_ltb_cons, Z.ltb_irrefl, Z.eqb_refl. exact IH. Qed.
Lemma bytes_lt_app x y p q : length x = length y -> bytes_lt x y -> bytes_lt (x ++ p) (y ++ q).
Proof.
  revert y. induction x as [|a x IH]; intros [|b y] Hl Hlt; try done. unfold bytes_lt in *. cbn [app]. rewrite bytes_ltb_cons in *.
  apply orb_true_iff in Hlt as [Hlt|Hlt]; [by rewrite Hlt|]. apply andb_true_iff in Hlt as [He Hlt]. rewrite He.
  rewrite (IH y) by (done || injection Hl; done). by rewrite orb_true_r.
Qed.
Lemma be_put_S n z : be_put (S n) z = be_put n (z / 256) ++ [byte_of_Z z].
Proof. exact (reverse_cons (le_put n (z / 256)) (byte_of_Z z)). Qed.
Lemma be_put_lt n a b : 0 <= a < b -> b < 256 ^ Z.of_nat n -> bytes_lt (be_put n a) (be_put n b).
Proof.
  revert a b. induction n as [|n IH]; intros a b Hab Hb; [cbn in Hb; lia|]. rewrite !be_put_S.
  rewrite Nat2Z.inj_succ, Z.pow_succ_r in Hb by lia. pose proof (Z.div_mod a 256 ltac:(lia)). pose proof (Z.div_mod b 256 ltac:(lia)).
  pose proof (Z.mod_pos_bound a 256 ltac:(lia)). pose proof (Z.mod_pos_bound b 256 ltac:(lia)).
  assert (0 <= a / 256) by (apply Z.div_pos; lia). destruct (Z.eq_dec (a / 256) (b / 256)) as [He|Hne].
  - rewrite He. apply bytes_lt_app_same. unfold bytes_lt. rewrite bytes_ltb_cons, !Z_of_byte_of_Z. rewrite (proj2 (Z.ltb_lt _ _)) by lia. done.
  - apply bytes_lt_app; [by rewrite !length_be_put|]. apply IH; [lia|]. apply Z.div_lt_upper_bound; lia.
Qed.
Lemma be_get_put4 z : is_u32 z -> be_get (be_put 4 z) = z.
Proof. intros Hz. rewrite be_get_put. apply Z.mod_small. unfold is_u32, u32_max in Hz. change (256 ^ Z.of_nat 4) with 4294967296. lia. Qed.

(** ** Sorted entries *)
Lemma klt_sorted_app {V} (l k : list (bytes * V)) :
  StronglySorted klt l -> StronglySorted klt k -> (forall x y, x ∈ l -> y ∈ k -> klt x y) -> StronglySorted klt (l ++ k).
Proof.
  intros Hl Hk Hlk. induction Hl as [|x l Hl IH Hx]; [done|]. cbn [app]. constructor.
  - apply IH. intros y z Hy Hz. apply Hlk; [by right|done].
  - apply Forall_app. split; [done|]. apply Forall_forall. intros y Hy. apply Hlk; [by left|done].
Qed.
Lemma klt_sorted_bind {A V} (f : A -> list (bytes * V)) (l : list A) (before : A -> A -> Prop) :
  StronglySorted before l -> (forall x, x ∈ l -> StronglySorted klt (f x)) ->
  (forall x y e g, x ∈ l -> y ∈ l -> before x y -> e ∈ f x -> g ∈ f y -> klt e g) -> StronglySorted klt (l ≫= f).
Proof.
  intros Hl Hf Hlt. induction Hl as [|x l Hl IH Hx]; [constructor|]. cbn. apply klt_sorted_app.
  - apply Hf. by left.
  - apply IH; [intros y Hy; apply Hf; by right|]. intros y z e g Hy Hz. apply Hlt; by right.
  - intros e g He Hg. apply list_elem_of_bind in Hg as (y & Hg & Hy). rewrite Forall_forall in Hx. apply (Hlt x y); [by left|by right|by apply Hx|done..].
Qed.
Lemma bind_cons_perm {A B} (f : A -> B) (g : A -> list B) l : (l ≫= fun x => f x :: g x) ≡ₚ (l ≫= g) ++ (f <$> l).
Proof.
  induction l as [|x l IH]; [done|]. cbn. rewrite IH. rewrite <- app_assoc, !Permutation_middle. rewrite app_assoc. done.
Qed.
Lemma filter_all {A} (P : A -> Prop) `{forall x, Decision (P x)} l : Forall P l -> base.filter P l = l.
Proof. induction 1 as [|x l Hx Hl IH]; [done|]. rewrite filter_cons_True by done. by rewrite IH. Qed.
Lemma filter_none {A} (P : A -> Prop) `{forall x, Decision (P x)} l : Forall (fun x => ~ P x) l -> base.filter P l = [].
Proof. induction 1 as [|x l Hx Hl IH]; [done|]. by rewrite filter_cons_False. Qed.

Lemma sorted_lookup {A} (before : A -> A -> Prop) l :
  (forall (n m : nat) x y, (n < m)%nat -> l !! n = Some x -> l !! m = Some y -> before x y) -> StronglySorted before l.
Proof.
  induction l as [|x l IH]; intros Hl; [constructor|]. constructor.
  - apply IH. intros n m y z Hnm Hy Hz. by apply (Hl (S n) (S m)); [lia|..].
  - apply Forall_forall. intros y Hy. apply list_elem_of_lookup in Hy as [n Hn]. by apply (Hl O (S n)); [lia|..].
Qed.

Lemma StronglySorted_lookup_lt (l : list Z) (n m : nat) x y :
  StronglySorted Z.lt l -> l !! n = Some x -> l !! m = Some y -> (n < m)%nat -> x < y.
Proof.
  intros Hl. revert n m. induction Hl as [|z l Hl IH Hz]; intros n m Hn Hm Hnm; [done|]. destruct m as [|m]; [lia|]. destruct n as [|n].
  - injection Hn as ->. rewrite Forall_forall in Hz. apply Hz. by apply (list_elem_of_lookup_2 l m).
  - apply (IH n m); (done || lia).
Qed.

(** Entries written in any order are found in the order of their keys. *)
Lemma prefixed_sorted es sorted prefix :
  es ≡ₚ sorted -> StronglySorted klt sorted -> prefixed prefix (list_to_map es) = base.filter (fun e => prefix `prefix_of` e.1) sorted.
Proof.
  intros Hp Hs. unfold prefixed. assert (NoDup sorted.*1) as Hnd by by apply klt_NoDup.
  rewrite (list_to_map_proper es sorted) by (done || by rewrite Hp). by rewrite <- (sorted_entries_unique (list_to_map sorted) sorted).
Qed.

Section reopen.
Context {R : Type} `{Hroaring : Roaring R} {Hlaws : RoaringLaws R} {DB : Type} `{Hpebble : PebbleStore DB} {Hstore : KVStoreLaws DB} {Hplaws : PebbleLaws DB}.
Implicit Types (i : InvertedIndex R) (b : Bitmap R) (w : invertedStoreWriter (DB := DB)) (es : list (bytes * bytes)).

(** ** The writer keeps what it is given *)
Definition writer_open w (view : gmap bytes bytes) : Prop := exists db ms,
  iw_store w = {| ss_db := Some db; ss_readOnly := false |} /\ iw_batch w = Some {| bt_pending := Some ms; bt_committed := false |} /\
  foldl apply_mutation (kv_view db) ms = view.
Definition set_entry w (e : bytes * bytes) : result (invertedStoreWriter (DB := DB)) := writer_set w e.1 e.2.
Definition insert_entry (view : gmap bytes bytes) (e : bytes * bytes) : gmap bytes bytes := <[e.1 := e.2]> view.

Lemma commit_open w db ms view store batch :
  iw_store w = {| ss_db := Some db; ss_readOnly := false |} -> foldl apply_mutation (kv_view db) ms = view ->
  Batch_Commit (iw_store w) {| bt_pending := Some ms; bt_committed := false |} = Ok (store, batch) ->
  exists db', store = {| ss_db := Some db'; ss_readOnly := false |} /\ kv_view db' = view.
Proof.
  intros -> Hv Hc. unfold Batch_Commit in Hc. cbn in Hc. destruct (kv_Commit db ms) as [db'|] eqn:E; [|done]. cbn in Hc. injection Hc as <- <-.
  exists db'. split; [done|]. by rewrite (kv_commit_view _ _ _ E).
Qed.
Lemma writer_set_open w view e w' : writer_open w view -> set_entry w e = Ok w' -> writer_open w' (insert_entry view e).
Proof.
  intros (db & ms & Hs & Hb & Hv). unfold set_entry, writer_set, Batch_Set, stage. rewrite Hb. cbn [bt_pending bt_committed requireOpenLocked mbind result_bind].
  destruct (kv_Stage ms _) as [ms'|] eqn:E; [|done]. cbn [mbind result_bind]. apply kv_stage_view in E as ->.
  assert (Hview : foldl apply_mutation (kv_view db) (ms ++ [PutKey e.1 e.2]) = insert_entry view e) by (rewrite foldl_app; cbn; by rewrite Hv).
  case_if; [intros [= <-]; by exists db, (ms ++ [PutKey e.1 e.2])|]. unfold commit. destruct (Batch_Commit _ _) as [[store batch]|] eqn:Ec; [|done]. intros [= <-].
  destruct (commit_open w db _ _ store batch Hs Hview Ec) as (db' & -> & Hdb). by exists db', [].
Qed.
Lemma writer_sets_open es w view w' : writer_open w view -> foldM set_entry es w = Ok w' -> writer_open w' (foldl insert_entry view es).
Proof.
  revert w view. induction es as [|e es IH]; intros w view Hw; [by intros [= <-]|]. cbn [foldM foldl].
  destruct (set_entry w e) as [w1|] eqn:E; [|done]. apply IH. by apply (writer_set_open w).
Qed.
Lemma writer_close_open w view w' :
  writer_open w view -> writer_close w = Ok w' -> exists db, iw_store w' = {| ss_db := Some db; ss_readOnly := false |} /\ kv_view db = view.
Proof.
  intros (db & ms & Hs & Hb & Hv). unfold writer_close, commit. rewrite Hb. destruct (Batch_Commit _ _) as [[store batch]|] eqn:Ec; [|done]. intros [= <-].
  by apply (commit_open w db ms view store batch).
Qed.
Lemma foldl_insert_NoDup es view : NoDup es.*1 -> foldl insert_entry view es = list_to_map es ∪ view.
Proof.
  revert view. induction es as [|[k v] es IH]; intros view Hnd; [cbn; by rewrite (left_id_L ∅ (∪))|]. cbn in Hnd. apply NoDup_cons in Hnd as [Hni Hnd].
  cbn [foldl list_to_map foldr]. rewrite IH by done. unfold insert_entry. cbn. rewrite <- insert_union_l, insert_union_r; [done|]. by apply not_elem_of_list_to_map_1.
Qed.

(** ** The entries of a bitmap *)
Fixpoint chunk_entries (fuel : nat) (prefix : bytes) (words : list Z) (chunk : Z) : list (bytes * bytes) :=
  match fuel with
  | O => []
  | S fuel =>
      if negb (bool_decide (words = [])) || (chunk =? 0)
      then (prefix ++ be_put 4 chunk, words_bytes (take chunk_words words)) :: chunk_entries fuel prefix (drop chunk_words words) (wrap32 (chunk + 1))
      else []
  end.
Definition bitmap_entries (prefix : bytes) b : list (bytes * bytes) :=
  chunk_entries (S (S (length (bm_Snapshot b)))) prefix (bm_Snapshot b) 0.
Definition term_entries i (entry : Z * scalarKey) : list (bytes * bytes) :=
  (term_key (wrap32 entry.1), encodeInvertedScalarKey entry.2) ::
  bitmap_entries (invertedPostingPrefix (wrap32 entry.1)) (default (NewBitmap 0) (iv_postings i !! entry.2)).
Definition length_entries i (length : Z) : list (bytes * bytes) :=
  bitmap_entries (length_prefix length) (default (NewBitmap 0) (iv_arrayLength i !! length)).
Definition index_entries i : list (bytes * bytes) :=
  [(invertedFormatKey, invertedPebbleFormat); (invertedFieldKey, json_field (iv_field i))] ++
  (bitmap_entries (bitmap_prefix 0) (iv_rows i) ++ bitmap_entries (bitmap_prefix 1) (iv_nulls i) ++ bitmap_entries (bitmap_prefix 2) (iv_nonNull i)) ++
  (ordinals (iv_ordered i) ≫= term_entries i) ++ (iv_lengths i ≫= length_entries i).

Section live.
Context (ctx : context) (Hlive : ctx_Err ctx = None).

Lemma foldM_app_ok {A S} (f : S -> A -> result S) l k s s' : foldM f l s = Ok s' -> foldM f (l ++ k) s = foldM f k s'.
Proof. intros Hl. by rewrite foldM_app, Hl. Qed.
Lemma write_chunks_entries fuel w prefix words chunk :
  write_chunks fuel ctx w prefix words chunk = foldM set_entry (chunk_entries fuel prefix words chunk) w.
Proof.
  revert w words chunk. induction fuel as [|fuel IH]; intros w words chunk; [done|]. cbn [write_chunks chunk_entries]. rewrite Hlive.
  case_if; [|done]. cbn [foldM]. unfold set_entry at 1. cbn [fst snd]. destruct (writer_set w _ _) as [w1|]; [|done]. apply IH.
Qed.
Lemma foldM_bind {A} (f : A -> list (bytes * bytes)) (step : invertedStoreWriter -> A -> result invertedStoreWriter) l w :
  (forall w x, x ∈ l -> step w x = foldM set_entry (f x) w) -> foldM step l w = foldM set_entry (l ≫= f) w.
Proof.
  revert w. induction l as [|x l IH]; intros w Hs; [done|]. cbn [foldM mbind list_bind]. rewrite Hs by left. rewrite foldM_app.
  destruct (foldM set_entry (f x) w) as [w1|]; [|done]. apply IH. intros w2 y Hy. apply Hs. by right.
Qed.
Lemma write_term_entries i w entry : write_term ctx i w entry = foldM set_entry (term_entries i entry) w.
Proof.
  destruct entry as [ordinal key]. unfold write_term. rewrite Hlive. assert ((if Z.land ordinal 1023 =? 0 then None else None) = (None : option gerror)) as -> by by destruct (_ =? 0).
  unfold term_entries. cbn [foldM fst snd]. unfold set_entry at 1. cbn [fst snd]. destruct (writer_set w _ _) as [w1|]; [|done]. apply write_chunks_entries.
Qed.
Lemma write_index_entries i w w' :
  write_index ctx i w = Ok w' -> exists w1, foldM set_entry (index_entries i) w = Ok w1 /\ writer_close w1 = Ok w'.
Proof.
  unfold write_index, write_bitmaps, writeInvertedBitmap. destruct (writer_set w _ _) as [w1|] eqn:E1; [|done]. cbn [mbind result_bind].
  destruct (writer_set w1 _ _) as [w2|] eqn:E2; [|done]. cbn [mbind result_bind foldM].
  rewrite write_chunks_entries. fold (bitmap_entries (bitmap_prefix 0) (iv_rows i)). destruct (foldM set_entry (bitmap_entries _ (iv_rows i)) w2) as [w3|] eqn:E3; [|done].
  rewrite write_chunks_entries. fold (bitmap_entries (bitmap_prefix 1) (iv_nulls i)). destruct (foldM set_entry (bitmap_entries _ (iv_nulls i)) w3) as [w4|] eqn:E4; [|done].
  rewrite write_chunks_entries. fold (bitmap_entries (bitmap_prefix 2) (iv_nonNull i)). destruct (foldM set_entry (bitmap_entries _ (iv_nonNull i)) w4) as [w5|] eqn:E5; [|done].
  cbn [mbind result_bind]. rewrite (foldM_bind (term_entries i)) by (intros; apply write_term_entries).
  destruct (foldM set_entry (ordinals _ ≫= _) w5) as [w6|] eqn:E6; [|done]. cbn [mbind result_bind].
  rewrite (foldM_bind (length_entries i)) by (intros w7 x _; unfold write_length; rewrite Hlive; apply write_chunks_entries).
  destruct (foldM set_entry (iv_lengths i ≫= _) w6) as [w7|] eqn:E7; [|done]. cbn [mbind result_bind]. intros Hc. exists w7. split; [|done].
  unfold index_entries. rewrite <- !app_assoc. rewrite (foldM_app_ok _ _ _ w w2) by (cbn [foldM]; unfold set_entry; cbn [fst snd]; by rewrite E1, E2).
  by rewrite (foldM_app_ok _ _ _ w2 w3 E3), (foldM_app_ok _ _ _ w3 w4 E4), (foldM_app_ok _ _ _ w4 w5 E5), (foldM_app_ok _ _ _ w5 w6 E6).
Qed.
End live.

(** ** Reading chunks *)
Lemma length_words_bytes words : length (words_bytes words) = (8 * length words)%nat.
Proof. induction words as [|word words IH]; [done|]. unfold words_bytes in *. cbn [mbind list_bind]. rewrite length_app, length_le_put, IH. cbn [length]. lia. Qed.
Lemma bytes_words_bytes words : Forall word_ok words -> bytes_words (length words) (words_bytes words) = words.
Proof.
  induction 1 as [|word words Hw Hok IH]; [done|]. cbn [length bytes_words]. unfold words_bytes in *. cbn [mbind list_bind].
  rewrite take_app_length', drop_app_length' by by rewrite length_le_put. rewrite IH, le_get_put8; [done|]. unfold word_ok, is_u64, u64_max in *. lia.
Qed.
Lemma HasPrefix_app prefix s : HasPrefix (prefix ++ s) prefix = true.
Proof. apply bool_decide_eq_true, take_app_length. Qed.
Lemma read_chunk_entry prefix chunk words :
  is_u32 chunk -> (length words <= chunk_words)%nat -> Forall word_ok words -> (words <> [] \/ chunk = 0) ->
  read_chunk (prefix ++ be_put 4 chunk) (words_bytes words) prefix chunk = Some words.
Proof.
  intros Hc Hl Hok Hne. unfold read_chunk. rewrite drop_app_length, be_get_put4 by done. unfold zlen. rewrite length_app, length_be_put, length_words_bytes.
  assert (length words <= 512)%nat as Hl' by done. unfold invertedPebbleChunkBytes.
  destruct (_ || _) eqn:E.
  - exfalso. repeat (apply orb_true_iff in E as [E|E]).
    + apply negb_true_iff, Z.eqb_neq in E. lia.
    + by rewrite Z.eqb_refl in E.
    + apply negb_true_iff, Z.eqb_neq in E. rewrite Nat2Z.inj_mul, Z.mul_comm, Z.mod_mul in E; lia.
    + apply Z.ltb_lt in E. lia.
    + apply andb_true_iff in E as [E1 E2]. apply Z.eqb_eq in E1. apply negb_true_iff, Z.eqb_neq in E2. destruct Hne as [Hne|]; [|done].
      destruct words; [done|]. cbn in E1. lia.
  - rewrite Nat.mul_comm, Nat.div_mul by done. by rewrite bytes_words_bytes.
Qed.
Lemma words_bit_app l k x : Forall word_ok l -> words_bit (l ++ k) x <-> words_bit l x \/ words_bit k (x - zlen l * 64).
Proof.
  intros Hl. revert x. induction Hl as [|word l Hw Hl IH]; intros x.
  - cbn [app]. change (zlen (@nil Z)) with 0. replace (x - 0 * 64) with x by lia. split; [by right|]. intros [Hx|?]; [by apply words_bit_nil in Hx|done].
  - cbn [app]. rewrite !words_bit_cons, IH by done. replace (x - zlen (word :: l) * 64) with (x - 64 - zlen l * 64) by (unfold zlen; cbn [length]; lia). tauto.
Qed.

(** A cursor in front of the entries that are left, in an iteration without an error. *)
Definition cursor_at (c : cursor) es : Prop :=
  exists all, c = (Some {| it_entries := all; it_error := None; it_left := Some es |}, match es with [] => false | _ => true end).
Lemma cursor_next c e es : cursor_at c (e :: es) -> c.2 = true /\ Iterator_Key c.1 = e.1 /\ Iterator_Value c.1 = e.2 /\ cursor_at (Iterator_Next c.1) es.
Proof. intros [all ->]. do 3 (split; [done|]). by exists all. Qed.
Lemma cursor_error c es : cursor_at c es -> Iterator_Error c.1 = None.
Proof. intros [all ->]. by destruct es. Qed.
Lemma cursor_left c es : cursor_at c es -> entries_left c = length es.
Proof. by intros [all ->]. Qed.
(** No entry of the list begins with the prefix. *)
Definition stops_at (prefix : bytes) es : Prop := match es with e :: _ => HasPrefix e.1 prefix = false | [] => True end.

Section read.
Context (ctx : context) (Hlive : ctx_Err ctx = None).

Lemma read_chunks_stop fuel prefix c rest b chunk :
  cursor_at c rest -> stops_at prefix rest -> read_chunks (S fuel) ctx prefix c b chunk = Ok (b, c, chunk).
Proof.
  intros Hc Hs. cbn [read_chunks]. destruct rest as [|e rest]; [by destruct Hc as [all ->]|]. destruct (cursor_next c e rest Hc) as (-> & -> & _). by rewrite Hs.
Qed.
Lemma read_chunks_spec fuel fuel' prefix words chunk rest b c :
  cursor_at c (chunk_entries fuel' prefix words chunk ++ rest) -> stops_at prefix rest -> Forall word_ok words -> 0 <= chunk ->
  512 * chunk + zlen words <= 512 * 4294967295 -> bm_inv b -> bm_logicalWords b + zlen words <= 2 ^ 58 ->
  (length (chunk_entries fuel' prefix words chunk) < fuel)%nat -> (length words <= fuel')%nat -> (chunk = 0 -> (1 <= fuel')%nat) ->
  exists b' c' chunk', read_chunks fuel ctx prefix c b chunk = Ok (b', c', chunk') /\ cursor_at c' rest /\ 0 < chunk' /\ bm_inv b' /\
    bm_logicalWords b' = bm_logicalWords b + zlen words /\ forall x, x ∈ bm_set b' <-> x ∈ bm_set b \/ words_bit words (x - bm_logicalWords b * 64).
Proof.
  revert fuel words chunk b c. induction fuel' as [|fuel' IH]; intros fuel words chunk b c Hc Hs Hok Hch Hbound Hb Hlen Hfuel Hf1 Hf2.
  { assert (words = []) as -> by (destruct words; [done|cbn in Hf1; lia]). destruct fuel as [|fuel]; [cbn in Hfuel; lia|].
    rewrite (read_chunks_stop fuel prefix c rest b chunk Hc Hs). exists b, c, chunk. change (zlen (@nil Z)) with 0. split; [done|]. split; [done|].
    split; [destruct (Z.eq_dec chunk 0) as [->|]; [specialize (Hf2 eq_refl); lia|lia]|]. split; [done|]. split; [lia|]. intros x. split; [by left|].
    intros [?|Hx]; [done|by apply words_bit_nil in Hx]. }
  cbn [chunk_entries] in Hc, Hfuel. destruct (negb (bool_decide (words = [])) || (chunk =? 0)) eqn:E.
  - destruct fuel as [|fuel]; [cbn in Hfuel; lia|]. cbn [app] in Hc. apply cursor_next in Hc as (H1 & H2 & H3 & H4). cbn [fst snd] in *.
    cbn [read_chunks]. rewrite H1, H2, H3, HasPrefix_app, Hlive. cbn [andb].
    assert (Hlw : zlen words = zlen (take chunk_words words) + zlen (drop chunk_words words))
      by (rewrite <- (take_drop chunk_words words) at 1; unfold zlen; rewrite length_app; lia).
    assert (Hpos : 0 <= zlen (drop chunk_words words) /\ 0 <= zlen (take chunk_words words)) by (unfold zlen; lia).
    assert (Hwords : words <> [] -> (1 <= length words)%nat) by (destruct words; [done|cbn; lia]).
    assert (Hchunk : chunk < 4294967295).
    { destruct words as [|word words']; [|unfold zlen in Hbound; cbn [length] in Hbound; lia]. cbn [bool_decide negb orb] in E.
      rewrite bool_decide_true in E by done. apply Z.eqb_eq in E. lia. }
    assert (wrap32 (chunk + 1) = chunk + 1) as Hwrap by (unfold wrap32; apply Z.mod_small; lia).
    rewrite read_chunk_entry; [|unfold is_u32, u32_max; lia|rewrite length_take; lia|by apply Forall_take|].
    2: { apply orb_true_iff in E as [E|E]; [left|right; by apply Z.eqb_eq]. apply negb_true_iff, bool_decide_eq_false in E. by destruct words. }
    destruct (bm_AppendWords_spec (take chunk_words words) b Hb) as (b1 & -> & Hb1 & Hl1 & Hm1); [by apply Forall_take|lia|].
    rewrite Hwrap in *. cbn [length] in Hfuel.
    assert (Hd : (length (drop chunk_words words) = length words - 512)%nat) by apply length_drop.
    assert (Ht : zlen (take chunk_words words) = 512 \/ zlen (drop chunk_words words) = 0).
    { unfold zlen. rewrite length_take, Hd. change chunk_words with 512%nat. lia. }
    destruct (IH fuel (drop chunk_words words) (chunk + 1) b1 (Iterator_Next c.1) H4 Hs) as (b' & c' & chunk' & G1 & G2 & G3 & G4 & G5 & G6);
      [by apply Forall_drop|lia|lia|done|lia|lia|lia|lia|].
    exists b', c', chunk'. split; [done|]. split; [done|]. split; [done|]. split; [done|]. split; [lia|]. intros x. rewrite G6, Hm1, Hl1.
    pose proof (words_bit_app (take chunk_words words) (drop chunk_words words) (x - bm_logicalWords b * 64) ltac:(by apply Forall_take)) as Hsplit.
    rewrite take_drop in Hsplit. rewrite Hsplit.
    replace (x - (bm_logicalWords b + zlen (take chunk_words words)) * 64) with (x - bm_logicalWords b * 64 - zlen (take chunk_words words) * 64) by lia. tauto.
  - apply orb_false_iff in E as [E1 E2]. apply negb_false_iff, bool_decide_eq_true in E1 as ->. apply Z.eqb_neq in E2.
    destruct fuel as [|fuel]; [cbn in Hfuel; lia|]. rewrite (read_chunks_stop fuel prefix c rest b chunk Hc Hs). exists b, c, chunk.
    change (zlen (@nil Z)) with 0. split; [done|]. split; [done|]. split; [lia|]. split; [done|]. split; [lia|]. intros x. split; [by left|].
    intros [?|Hx]; [done|by apply words_bit_nil in Hx].
Qed.

(** ** Reading bitmaps *)
(** A bitmap whose chunks have numbers of 32 bits. *)
Definition storable b : Prop := bm_inv b /\ bm_logicalWords b <= 512 * 4294967295.
Definition same_bitmap b b' : Prop := bm_inv b' /\ bm_set b' = bm_set b /\ bm_logicalWords b' = bm_logicalWords b.

Lemma read_bitmap_entries prefix b c rest :
  storable b -> cursor_at c (bitmap_entries prefix b ++ rest) -> stops_at prefix rest ->
  exists b' c', readInvertedBitmapChunks ctx prefix c = Ok (b', c') /\ cursor_at c' rest /\ same_bitmap b b'.
Proof.
  intros [Hb Hsmall] Hc Hs. destruct (bm_Snapshot_spec b Hb) as (Hlen & Hok & Hmem). destruct (NewBitmap_inv (R := R) 0) as [Hnew Hempty]; [done|].
  unfold bitmap_entries in Hc. pose proof (bmi_words _ Hb) as Hw.
  destruct (read_chunks_spec (S (entries_left c)) (S (S (length (bm_Snapshot b)))) prefix (bm_Snapshot b) 0 rest (NewBitmap 0) c Hc Hs Hok)
    as (b' & c' & chunk & H1 & H2 & H3 & H4 & H5 & H6); [lia|lia|done|change (bm_logicalWords (NewBitmap 0)) with 0; lia| |lia|lia|].
  { rewrite (cursor_left _ _ Hc), length_app. lia. }
  exists b', c'. unfold readInvertedBitmapChunks. rewrite H1. cbn [mbind result_bind]. rewrite (cursor_error _ _ H2), (proj2 (Z.eqb_neq _ _)) by lia.
  split; [done|]. split; [done|]. split; [done|]. change (bm_logicalWords (NewBitmap 0)) with 0 in *. split; [|lia]. apply set_eq. intros x.
  rewrite H6, Hempty, <- Hmem. replace (x - 0 * 64) with x by lia.
  split; [intros [Hx|Hx]; [by apply not_elem_of_empty in Hx|done]|by right].
Qed.

(** A store whose reads do not fail. *)
Definition reads_ok (db : DB) : Prop :=
  (forall key value, kv_view db !! key = Some value -> kv_Get db key = Ok (Some value)) /\
  (forall lower upper, exists l, kv_Range db lower upper = Ok (l, None)).
Definition read_only (db : DB) : Store DB := {| ss_db := Some db; ss_readOnly := true |}.

Lemma prefix_cursor db prefix : reads_ok db ->
  exists n, NewPrefixIterator (read_only db) prefix = Ok n /\ cursor_at (Iterator_First n) (prefixed prefix (kv_view db)).
Proof.
  intros [_ Hr]. unfold NewPrefixIterator, NewRangeIterator. cbn [ss_db read_only]. destruct (Hr prefix (prefixSuccessor prefix)) as [l Hl]. rewrite Hl.
  eexists. split; [done|]. cbn. apply range_prefixed in Hl as ->. by eexists.
Qed.
Lemma readInvertedBitmap_ok db prefix b :
  reads_ok db -> storable b -> prefixed prefix (kv_view db) = bitmap_entries prefix b ->
  exists b', readInvertedBitmap ctx (read_only db) prefix = Ok b' /\ same_bitmap b b'.
Proof.
  intros Hr Hb Hp. destruct (prefix_cursor db prefix Hr) as (n & Hn & Hc). rewrite Hp in Hc. rewrite <- (app_nil_r (bitmap_entries prefix b)) in Hc.
  destruct (read_bitmap_entries prefix b (Iterator_First n) [] Hb Hc I) as (b' & c' & H1 & H2 & H3). exists b'. unfold readInvertedBitmap. rewrite Hn.
  cbn [or_corrupt mbind result_bind]. rewrite H1. cbn [mbind result_bind]. by rewrite (cursor_error _ _ H2).
Qed.
End read.

(** ** The checks on bitmaps *)
Lemma range_bits_subset l (f : Z -> bool) : (forall x, x ∈ l -> f x = true) -> range_bits (fun row _ => (f row, f row)) l true = true.
Proof.
  induction l as [|x l IH]; intros Hl; [done|]. cbn [range_bits]. rewrite (Hl x) by left. apply IH. intros y Hy. apply Hl. by right.
Qed.
Lemma bitmapSubset_ok b b' : bm_inv b -> bm_inv b' -> bm_set b ⊆ bm_set b' -> bitmapSubset b b' = true.
Proof.
  intros Hb Hb' Hsub. unfold bitmapSubset, bm_Range, bc_rangeBits. apply (range_bits_subset _ (fun row => bm_Contains row b')). intros x Hx.
  unfold bm_Contains. rewrite bc_contains_spec. apply bool_decide_eq_true, Hsub. unfold bm_set.
  rewrite <- (proj2 (bc_bits_spec _ (bmi_contents _ Hb))). by apply elem_of_list_to_set.
Qed.
Lemma words_testbit words index j :
  Forall word_ok words -> 0 <= j < 64 -> Z.testbit (default 0 (words !! index)) j = true <-> words_bit words (Z.of_nat index * 64 + j).
Proof.
  intros Hok Hj. unfold words_bit. replace ((Z.of_nat index * 64 + j) / 64) with (Z.of_nat index) by (rewrite Z.div_add_l, Z.div_small; lia).
  replace ((Z.of_nat index * 64 + j) mod 64) with j by (rewrite Z.add_comm, Z.mod_add, Z.mod_small; lia). rewrite Nat2Z.id. split.
  - intros Ht. split; [lia|]. destruct (words !! index) as [word|]; [by exists word|]. cbn in Ht. by rewrite Z.bits_0 in Ht.
  - intros (_ & word & -> & Ht). done.
Qed.
Lemma default_word_ok words index : Forall word_ok words -> word_ok (default 0 (words !! index)).
Proof. intros Hok. destruct (words !! index) as [word|] eqn:E; [|unfold word_ok; cbn; lia]. by apply (Forall_lookup_1 _ _ _ _ Hok E). Qed.
Lemma bitmapPartition_ok rows nulls present :
  bm_inv rows -> bm_inv nulls -> bm_inv present -> bm_set rows = bm_set nulls ∪ bm_set present -> bm_set nulls ## bm_set present ->
  bitmapPartition rows nulls present = true.
Proof.
  intros Hr Hn Hp Hunion Hdisj. destruct (bm_Snapshot_spec _ Hr) as (_ & R1 & R2), (bm_Snapshot_spec _ Hn) as (_ & N1 & N2), (bm_Snapshot_spec _ Hp) as (_ & P1 & P2).
  unfold bitmapPartition, partition_words. apply forallb_forall. intros index _.
  pose proof (default_word_ok _ index R1) as Wr. pose proof (default_word_ok _ index N1) as Wn. pose proof (default_word_ok _ index P1) as Wp.
  assert (Hbits : forall j, 0 <= j < 64 -> let x := Z.of_nat index * 64 + j in
    (Z.testbit (default 0 (bm_Snapshot rows !! index)) j = true <-> x ∈ bm_set rows) /\
    (Z.testbit (default 0 (bm_Snapshot nulls !! index)) j = true <-> x ∈ bm_set nulls) /\
    (Z.testbit (default 0 (bm_Snapshot present !! index)) j = true <-> x ∈ bm_set present)).
  { intros j Hj x. rewrite !words_testbit by done. by rewrite <- R2, <- N2, <- P2. }
  set (r := default 0 (bm_Snapshot rows !! index)) in *. set (n := default 0 (bm_Snapshot nulls !! index)) in *. set (p := default 0 (bm_Snapshot present !! index)) in *.
  apply andb_true_iff. split; apply Z.eqb_eq; apply Z.bits_inj'; intros j Hj; destruct (Z.lt_ge_cases j 64) as [Hlt|Hge].
  - rewrite Z.land_spec, Z.bits_0. apply andb_false_iff. destruct (Hbits j ltac:(lia)) as (_ & H1 & H2).
    destruct (Z.testbit n j) eqn:En; [right|by left]. destruct (Z.testbit p j) eqn:Ep; [|done]. exfalso. apply (Hdisj (Z.of_nat index * 64 + j)); [by apply H1|by apply H2].
  - by rewrite Z.land_spec, Z.bits_0, (word_bits_high n), (word_bits_high p) by done.
  - rewrite Z.lor_spec. destruct (Hbits j ltac:(lia)) as (H0 & H1 & H2). apply eq_true_iff_eq. rewrite orb_true_iff, H0, H1, H2, Hunion. set_solver.
  - by rewrite Z.lor_spec, (word_bits_high n), (word_bits_high p), (word_bits_high r) by done.
Qed.

(** ** The field and the terms read back *)
Definition field_ok (field : Field) : Prop :=
  Forall (fun x => Z_of_byte x < 128) (fd_Name field) /\ fd_Filterable field = true /\ fd_Indexed field = true /\ kind_valid (fd_Kind field) = true.
Lemma bs_of_bytes (s : bytes) : bs (String.string_of_list_byte s) = s.
Proof. apply String.list_byte_of_string_of_list_byte. Qed.
Lemma field_names_plain : plain_fields field_names. Proof. plain_tac. Qed.
Lemma kind_of_number_ok kind : kind_valid kind = true -> kind_of_number (kind_number kind) = kind /\ 0 <= kind_number kind <= 9.
Proof. destruct kind; done || (split; [done|cbn; lia]). Qed.
Lemma field_of_json_ok repeated field : field_ok field -> field_of_json repeated (json_field field) = Ok field.
Proof.
  intros (Hname & _ & _ & Hk). apply kind_of_number_ok in Hk as [Hk Hkb]. unfold json_field. set (fields := json_field_members field).
  assert (Ht : forall D, Forall (fun f => f.1 ∈ field_names /\ json_text D f.2) fields).
  { intros D. constructor; [split; [in_names|apply json_text_string; unfold ascii_bytes; by rewrite bs_of_bytes]|].
    constructor; [split; [in_names|apply json_text_uint; unfold is_u64, u64_max; cbn [snd]; lia]|].
    repeat (constructor; [split; [in_names|by apply json_text_bool]|]). constructor. }
  assert (Hnd : NoDup (fields.*1)) by names_nodup.
  assert (Hv : json_text 0 (json_struct fields)) by (apply (fields_text field_names); [by vm_compute|apply field_names_plain|apply Ht]).
  unfold field_of_json. rewrite (json_text_Valid 0) by done. cbn [negb]. change (json_body (json_struct fields)) with (json_struct fields).
  unfold decode_field. rewrite (decode_fields_json 0 field_names fields) by (done || apply field_names_plain).
  cbn [mbind decoded_bind]. present Hnd "Name". present Hnd "Kind". present Hnd "Array". present Hnd "Nullable". present Hnd "Filterable".
  present Hnd "Indexed". present Hnd "RangeOptimized". present Hnd "ExtendedWildcard".
  rewrite decode_string_json by (unfold ascii_string; by rewrite bs_of_bytes). rewrite decode_uint_json by (unfold is_u64, u64_max; lia).
  rewrite !decode_bool_json. cbn [mbind decoded_bind]. rewrite Hk, bs_of_bytes. by destruct field.
Qed.

Definition stored_key (kind : ValueKind) (k : scalarKey) : Prop := key_of kind k /\ (kind = ValueString -> ValidString (sk_text k) = true).
Lemma to_int64_id z : is_i64 z -> to_int64 (le_get (le_put 8 z)) = z.
Proof.
  intros Hz. unfold is_i64 in Hz. rewrite le_get_put. change (256 ^ Z.of_nat 8) with 18446744073709551616. unfold to_int64.
  rewrite Z.add_mod_idemp_l by lia. rewrite Z.mod_small by lia. lia.
Qed.
Lemma le_put_8 z : is_u64 z -> le_get (le_put 8 z) = z.
Proof. apply le_get_put8. Qed.
Lemma f64_eqb_refl bits : f64_IsNaN bits = false -> f64_eqb bits bits = true.
Proof. intros Hn. unfold f64_eqb. by rewrite Hn, Z.eqb_refl. Qed.
Lemma float_key bits : 0 <= bits < 2 ^ 64 -> f64_IsNaN bits || f64_IsInf bits = false ->
  let key := if f64_eqb bits 0 then 0 else bits in
  is_u64 key /\ negb (f64_IsNaN key) && negb (f64_IsInf key) = true.
Proof.
  intros Hb Hf. apply orb_false_iff in Hf as [H1 H2]. cbv zeta. destruct (f64_eqb bits 0); [by vm_compute|].
  rewrite H1, H2. split; [unfold is_u64, u64_max; lia|done].
Qed.
Lemma decode_encode_key kind k : stored_key kind k -> decodeInvertedScalarKey (encodeInvertedScalarKey k) kind = Ok k.
Proof.
  intros [(v & [Hv Hk] & ->) Htext]. unfold encodeInvertedScalarKey.
  assert (sk_kind (keyFromValue v) = kind) as Hkind by (rewrite <- Hk; unfold keyFromValue; by destruct (v_kind v)). rewrite Hkind. clear Hkind.
  assert (Hnum : kind_valid kind = true -> Z_of_byte (byte_of_Z (kind_number kind)) =? kind_number kind = true).
  { intros Hval. apply Z.eqb_eq. apply kind_of_number_ok in Hval. rewrite Z_of_byte_of_Z, Z.mod_small; lia. }
  cbn [app decodeInvertedScalarKey]. rewrite Hnum by (rewrite <- Hk; by apply scalar_plain in Hv as (_ & _ & _ & ?)). cbn [negb]. clear Hnum.
  destruct Hv as [t|t|x|z Hz|z Hz|z Hz|z Hz|bits v Hb Hv|bits v Hb Hv]; cbn [v_kind BinaryValue StringValue BoolValue Int32Value Int64Value Uint32Value Uint64Value] in Hk.
  - by subst kind.
  - subst kind. cbn. unfold validPersistedScalarKey. cbn in *. by rewrite Htext.
  - subst kind. cbn. destruct x; rewrite Z_of_byte_of_Z; done.
  - subst kind. cbn [keyFromValue v_kind Int32Value sk_signed v_signed]. unfold zlen. rewrite length_le_put, to_int64_id by (unfold is_i64, is_i32 in *; lia).
    cbn -[Z.leb]. unfold validPersistedScalarKey. cbn -[Z.leb]. unfold is_i32 in Hz. by rewrite !(proj2 (Z.leb_le _ _)) by lia.
  - subst kind. cbn [keyFromValue v_kind Int64Value sk_signed v_signed]. unfold zlen. by rewrite length_le_put, to_int64_id.
  - subst kind. cbn [keyFromValue v_kind Uint32Value sk_unsigned v_unsigned]. unfold zlen. rewrite length_le_put, le_put_8 by (unfold is_u64, u64_max, is_u32, u32_max in *; lia).
    cbn -[Z.leb]. unfold validPersistedScalarKey. cbn -[Z.leb]. unfold is_u32, u32_max in Hz. by rewrite !(proj2 (Z.leb_le _ _)) by lia.
  - subst kind. cbn [keyFromValue v_kind Uint64Value sk_unsigned v_unsigned]. unfold zlen. by rewrite length_le_put, le_put_8.
  - unfold Float32Value in Hv. destruct (_ || _) eqn:Ef in Hv; [done|]. injection Hv as <-. cbn in Hk. subst kind.
    destruct (f32_roundtrip bits Hb Ef) as [Hw Hn]. destruct (float_key _ Hw Ef) as [Hu Hfin].
    cbn [keyFromValue v_kind sk_bits v_number]. unfold zlen. rewrite length_le_put, le_put_8 by done. cbn [Z.of_nat Pos.of_succ_nat Pos.succ Z.eqb Pos.eqb negb].
    unfold validPersistedScalarKey. cbn [sk_kind sk_bits kind_valid andb]. rewrite Hfin. cbn [andb].
    destruct (f64_eqb (f32_widen bits) 0); [done|]. rewrite Hn, f64_eqb_refl; [done|]. by apply orb_false_iff in Ef as [? _].
  - unfold Float64Value in Hv. destruct (_ || _) eqn:Ef in Hv; [done|]. injection Hv as <-. cbn in Hk. subst kind.
    destruct (float_key _ Hb Ef) as [Hu Hfin].
    cbn [keyFromValue v_kind sk_bits v_number]. unfold zlen. rewrite length_le_put, le_put_8 by done. cbn [Z.of_nat Pos.of_succ_nat Pos.succ Z.eqb Pos.eqb negb].
    unfold validPersistedScalarKey. cbn [sk_kind sk_bits kind_valid andb]. by rewrite Hfin.
Qed.

(** ** The order of the entries in the store *)
Definition tagged (tag : byte) es : Prop := Forall (fun e => head e.1 = Some tag) es.
Lemma tagged_app tag es fs : tagged tag es -> tagged tag fs -> tagged tag (es ++ fs).
Proof. intros H1 H2. by apply Forall_app. Qed.
Lemma tagged_bind {A} tag (f : A -> list (bytes * bytes)) l : (forall x, x ∈ l -> tagged tag (f x)) -> tagged tag (l ≫= f).
Proof. intros Hf. unfold tagged. rewrite Forall_forall. intros e He. apply list_elem_of_bind in He as (x & He & Hx). specialize (Hf x Hx). unfold tagged in Hf. rewrite Forall_forall in Hf. by apply Hf. Qed.
Lemma tagged_klt a c es fs : Z_of_byte a < Z_of_byte c -> tagged a es -> tagged c fs -> forall x y, x ∈ es -> y ∈ fs -> klt x y.
Proof.
  unfold tagged. rewrite !Forall_forall. intros Hlt He Hf x y Hx Hy. specialize (He x Hx). specialize (Hf y Hy). unfold klt, bytes_lt.
  destruct (x.1) as [|p r], (y.1) as [|q s]; try done. cbn in He, Hf. injection He as ->. injection Hf as ->. rewrite bytes_ltb_cons.
  by rewrite (proj2 (Z.ltb_lt _ _) Hlt).
Qed.
Lemma filter_tagged tag es : tagged tag es -> base.filter (fun e => [tag] `prefix_of` e.1) es = es.
Proof.
  intros Ht. apply filter_all. eapply Forall_impl; [exact Ht|]. intros [[|x r] v] He; [done|]. injection He as ->. by exists r.
Qed.
Lemma filter_other_tag tag other prefix es : tag <> other -> tagged tag es -> base.filter (fun e => (other :: prefix) `prefix_of` e.1) es = [].
Proof.
  intros Hne Ht. apply filter_none. eapply Forall_impl; [exact Ht|]. intros [[|x r] v] He Hp; [done|]. injection He as ->.
  by apply prefix_cons_inv_1 in Hp.
Qed.

Lemma chunk_entries_sorted fuel prefix words chunk :
  0 <= chunk -> 512 * chunk + zlen words <= 512 * 4294967295 ->
  StronglySorted klt (chunk_entries fuel prefix words chunk) /\
  forall e, e ∈ chunk_entries fuel prefix words chunk -> exists n, chunk <= n < 4294967296 /\ e.1 = prefix ++ be_put 4 n.
Proof.
  revert words chunk. induction fuel as [|fuel IH]; intros words chunk Hch Hb; [split; [constructor|by intros e ?%elem_of_nil]|]. cbn [chunk_entries].
  destruct (negb (bool_decide (words = [])) || (chunk =? 0)) eqn:E; [|split; [constructor|by intros e ?%elem_of_nil]].
  assert (Hchunk : chunk < 4294967295).
  { destruct words as [|word words']; [|unfold zlen in Hb; cbn [length] in Hb; lia]. rewrite bool_decide_true in E by done. cbn in E. apply Z.eqb_eq in E. lia. }
  assert (wrap32 (chunk + 1) = chunk + 1) as -> by (unfold wrap32; apply Z.mod_small; lia).
  assert (Hd : zlen (drop chunk_words words) = Z.max 0 (zlen words - 512)) by (unfold zlen; rewrite length_drop; change chunk_words with 512%nat; lia).
  assert (Hnext : zlen (drop chunk_words words) <> 0 \/ zlen (drop chunk_words words) = 0) by lia.
  destruct (IH (drop chunk_words words) (chunk + 1)) as [Hs Hk]; [lia|lia|]. split.
  - constructor; [done|]. apply Forall_forall. intros e He. destruct (Hk e He) as (n & Hn & Hen). unfold klt. cbn [fst]. rewrite Hen. apply bytes_lt_app_same, be_put_lt; [lia|].
    change (256 ^ Z.of_nat 4) with 4294967296. lia.
  - intros e He. apply elem_of_cons in He as [->|He]; [exists chunk; split; [lia|done]|]. destruct (Hk e He) as (n & Hn & Hen). exists n. split; [lia|done].
Qed.
Lemma bitmap_entries_sorted prefix b : storable b ->
  StronglySorted klt (bitmap_entries prefix b) /\ forall e, e ∈ bitmap_entries prefix b -> exists n, e.1 = prefix ++ be_put 4 n.
Proof.
  intros [Hb Hs]. destruct (bm_Snapshot_spec b Hb) as (Hlen & _). unfold bitmap_entries.
  destruct (chunk_entries_sorted (S (S (length (bm_Snapshot b)))) prefix (bm_Snapshot b) 0) as [H1 H2]; [done|lia|]. split; [done|].
  intros e He. destruct (H2 e He) as (n & _ & Hn). by exists n.
Qed.
Lemma bitmap_entries_tagged tag prefix b : storable b -> tagged tag (bitmap_entries (tag :: prefix) b).
Proof. intros Hb. apply Forall_forall. intros e He. apply (bitmap_entries_sorted _ b Hb) in He as (n & Hen). by rewrite Hen. Qed.
Lemma bitmap_entries_stops tag prefix prefix' b rest :
  storable b -> length prefix = length prefix' -> prefix <> prefix' -> stops_at (tag :: prefix) (bitmap_entries (tag :: prefix') b ++ rest).
Proof.
  intros Hb Hl Hne. unfold bitmap_entries. cbn [chunk_entries]. rewrite orb_true_r. cbn [app stops_at fst]. unfold HasPrefix. apply bool_decide_eq_false.
  intros He. cbn [app length take] in He. injection He as He. rewrite Hl, take_app_length in He. congruence.
Qed.
(** Bitmaps under ascending numbers. *)
Lemma numbered_sorted {A} tag (f : A -> Z) (g : A -> Bitmap R) (l : list A) :
  StronglySorted (fun x y => f x < f y) l -> Forall (fun x => 0 <= f x < 4294967296 /\ storable (g x)) l ->
  StronglySorted klt (l ≫= fun x => bitmap_entries (tag :: be_put 4 (f x)) (g x)) /\
  tagged tag (l ≫= fun x => bitmap_entries (tag :: be_put 4 (f x)) (g x)).
Proof.
  rewrite Forall_forall. intros Hs Hg. split.
  - eapply klt_sorted_bind; [exact Hs|intros x Hx; by apply bitmap_entries_sorted, Hg|]. intros x y e e' Hx Hy Hxy He He'. cbn beta in *.
    apply bitmap_entries_sorted in He as (n & Hn); [|by apply Hg]. apply bitmap_entries_sorted in He' as (n' & Hn'); [|by apply Hg].
    unfold klt. rewrite Hn, Hn'. apply bytes_lt_app; [cbn; by rewrite !length_be_put|]. apply (bytes_lt_app_same [tag]), be_put_lt; [by split; [apply Hg|]|by apply Hg].
  - apply tagged_bind. intros x Hx. by apply bitmap_entries_tagged, Hg.
Qed.
Lemma ordinals_lookup {A} (l : list A) (n : nat) : ordinals l !! n = (fun x => (Z.of_nat n, x)) <$> l !! n.
Proof.
  unfold ordinals. rewrite lookup_zip_with, list_lookup_fmap. destruct (l !! n) as [x|] eqn:E.
  - rewrite lookup_seq_lt by by apply lookup_lt_Some in E. done.
  - cbn. by destruct (Z.of_nat <$> seq 0 (length l) !! n).
Qed.

(** ** The store of an index *)
Record storable_index i : Prop := {
  sx_rows : storable (iv_rows i);
  sx_nulls : storable (iv_nulls i);
  sx_nonNull : storable (iv_nonNull i);
  sx_postings : map_Forall (fun _ b => storable b) (iv_postings i);
  sx_arrayLength : map_Forall (fun _ b => storable b) (iv_arrayLength i);
  sx_terms : zlen (iv_ordered i) <= 4294967296;
  sx_lengths : StronglySorted Z.lt (iv_lengths i);
  sx_u32 : Forall is_u32 (iv_lengths i)
}.
Definition term_number (entry : Z * scalarKey) : Z := wrap32 entry.1.
Definition term_posting i (entry : Z * scalarKey) : Bitmap R := default (NewBitmap 0) (iv_postings i !! entry.2).
Definition posting_entries i (l : list (Z * scalarKey)) : list (bytes * bytes) :=
  l ≫= fun entry => bitmap_entries (tag_posting :: be_put 4 (term_number entry)) (term_posting i entry).
Definition term_pairs (l : list (Z * scalarKey)) : list (bytes * bytes) :=
  (fun entry => (term_key (term_number entry), encodeInvertedScalarKey entry.2)) <$> l.
Definition array_entries i (l : list Z) : list (bytes * bytes) :=
  l ≫= fun length => bitmap_entries (tag_length :: be_put 4 length) (default (NewBitmap 0) (iv_arrayLength i !! length)).
Definition domain_entries i : list (bytes * bytes) :=
  bitmap_entries (bitmap_prefix 0) (iv_rows i) ++ bitmap_entries (bitmap_prefix 1) (iv_nulls i) ++ bitmap_entries (bitmap_prefix 2) (iv_nonNull i).
Definition meta_entries i : list (bytes * bytes) := [(invertedFieldKey, json_field (iv_field i)); (invertedFormatKey, invertedPebbleFormat)].
(** The entries in the order of their keys. *)
Definition ordered_entries i : list (bytes * bytes) :=
  domain_entries i ++ array_entries i (iv_lengths i) ++ meta_entries i ++ posting_entries i (ordinals (iv_ordered i)) ++ term_pairs (ordinals (iv_ordered i)).

Lemma index_entries_perm i : index_entries i ≡ₚ ordered_entries i.
Proof.
  unfold index_entries, ordered_entries, meta_entries. fold (domain_entries i). fold (array_entries i (iv_lengths i)).
  change (iv_lengths i ≫= length_entries i) with (array_entries i (iv_lengths i)). unfold term_entries. rewrite bind_cons_perm.
  fold (posting_entries i (ordinals (iv_ordered i))). unfold term_pairs, term_number. solve_Permutation.
Qed.

Section stored.
Context (i : InvertedIndex R) (Hi : storable_index i).

Lemma storable_new : storable (NewBitmap 0).
Proof. destruct (NewBitmap_inv (R := R) 0) as [Hnew _]; [done|]. split; [done|]. change (bm_logicalWords (NewBitmap 0)) with 0. lia. Qed.
Lemma term_posting_storable entry : storable (term_posting i entry).
Proof. unfold term_posting. destruct (iv_postings i !! entry.2) eqn:E; [by apply (sx_postings i Hi _ _ E)|apply storable_new]. Qed.
Lemma array_posting_storable length : storable (default (NewBitmap 0) (iv_arrayLength i !! length)).
Proof. destruct (iv_arrayLength i !! length) eqn:E; [by apply (sx_arrayLength i Hi _ _ E)|apply storable_new]. Qed.
Lemma ordinals_number (n : nat) entry : ordinals (iv_ordered i) !! n = Some entry -> term_number entry = Z.of_nat n /\ 0 <= Z.of_nat n < 4294967296.
Proof.
  rewrite ordinals_lookup. destruct (iv_ordered i !! n) as [k|] eqn:E; [|done]. intros [= <-]. apply lookup_lt_Some in E. pose proof (sx_terms i Hi) as Hn. unfold zlen in Hn.
  unfold term_number. cbn [fst]. unfold wrap32. split; [apply Z.mod_small; lia|lia].
Qed.
Lemma ordinals_sorted : StronglySorted (fun x y => term_number x < term_number y) (ordinals (iv_ordered i)).
Proof.
  apply sorted_lookup. intros a c x y Hac Hx Hy. destruct (ordinals_number a x Hx) as [-> _], (ordinals_number c y Hy) as [-> _]. lia.
Qed.
Lemma postings_sorted : StronglySorted klt (posting_entries i (ordinals (iv_ordered i))) /\ tagged tag_posting (posting_entries i (ordinals (iv_ordered i))).
Proof.
  apply numbered_sorted; [apply ordinals_sorted|]. apply Forall_forall. intros entry He. apply list_elem_of_lookup in He as [n Hn].
  destruct (ordinals_number n entry Hn) as [-> ?]. split; [done|]. apply term_posting_storable.
Qed.
Lemma terms_sorted : StronglySorted klt (term_pairs (ordinals (iv_ordered i))) /\ tagged tag_term (term_pairs (ordinals (iv_ordered i))).
Proof.
  split; [|apply Forall_fmap, Forall_forall; by intros]. apply sorted_lookup. intros a c x y Hac Hx Hy. unfold term_pairs in Hx, Hy. rewrite list_lookup_fmap in Hx, Hy.
  destruct (ordinals _ !! a) as [ex|] eqn:Ea; [|done]. destruct (ordinals _ !! c) as [ey|] eqn:Ec; [|done]. injection Hx as <-. injection Hy as <-. unfold klt. cbn [fst].
  destruct (ordinals_number a ex Ea) as [-> ?], (ordinals_number c ey Ec) as [-> ?]. apply (bytes_lt_app_same [tag_term]), be_put_lt; [lia|].
  change (256 ^ Z.of_nat 4) with 4294967296. lia.
Qed.
Lemma arrays_sorted : StronglySorted klt (array_entries i (iv_lengths i)) /\ tagged tag_length (array_entries i (iv_lengths i)).
Proof.
  apply (numbered_sorted tag_length (fun length => length)); [apply (sx_lengths i Hi)|]. eapply Forall_impl; [apply (sx_u32 i Hi)|]. intros length Hl.
  unfold is_u32, u32_max in Hl. split; [lia|]. apply array_posting_storable.
Qed.
Lemma domain_sorted : StronglySorted klt (domain_entries i) /\ tagged tag_bitmap (domain_entries i).
Proof.
  pose proof (sx_rows i Hi) as H0. pose proof (sx_nulls i Hi) as H1. pose proof (sx_nonNull i Hi) as H2. unfold domain_entries.
  assert (Hlt : forall (k k' : Z) b b', 0 <= k < k' -> k' < 256 -> storable b -> storable b' ->
    forall x y, x ∈ bitmap_entries (bitmap_prefix k) b -> y ∈ bitmap_entries (bitmap_prefix k') b' -> klt x y).
  { intros k k' b b' Hk Hk' Hb Hb' x y Hx Hy. apply bitmap_entries_sorted in Hx as (n & Hx); [|done]. apply bitmap_entries_sorted in Hy as (n' & Hy); [|done].
    unfold klt. rewrite Hx, Hy. apply bytes_lt_app; [done|]. unfold bitmap_prefix, bytes_lt. rewrite !bytes_ltb_cons, Z.ltb_irrefl, Z.eqb_refl, !Z_of_byte_of_Z.
    rewrite !Z.mod_small by lia. by rewrite (proj2 (Z.ltb_lt _ _)) by lia. }
  split; [|repeat apply tagged_app; by apply bitmap_entries_tagged].
  apply klt_sorted_app; [by apply bitmap_entries_sorted|apply klt_sorted_app; [by apply bitmap_entries_sorted..|by apply (Hlt 1 2)]|].
  intros x y Hx Hy. apply elem_of_app in Hy as [Hy|Hy]; [by apply (Hlt 0 1 (iv_rows i) (iv_nulls i))|by apply (Hlt 0 2 (iv_rows i) (iv_nonNull i))].
Qed.
Lemma meta_tagged : tagged "m"%byte (meta_entries i).
Proof. repeat constructor. Qed.
Lemma ordered_entries_sorted : StronglySorted klt (ordered_entries i).
Proof.
  destruct domain_sorted as [D1 D2], arrays_sorted as [A1 A2], postings_sorted as [P1 P2], terms_sorted as [T1 T2].
  assert (M1 : StronglySorted klt (meta_entries i)) by (repeat constructor).
  pose proof meta_tagged as M2.
  unfold ordered_entries. repeat first [done | apply klt_sorted_app]; intros x y Hx Hy; repeat (apply elem_of_app in Hy as [Hy|Hy]).
  all: eapply tagged_klt; [| | |exact Hx|exact Hy]; [|eassumption|eassumption]; done.
Qed.

Definition index_view : gmap bytes bytes := list_to_map (index_entries i).
Lemma index_prefixed prefix : prefixed prefix index_view = base.filter (fun e => prefix `prefix_of` e.1) (ordered_entries i).
Proof. apply prefixed_sorted; [apply index_entries_perm|apply ordered_entries_sorted]. Qed.
Lemma index_entries_nodup : NoDup (index_entries i).*1.
Proof. rewrite index_entries_perm. apply klt_NoDup, ordered_entries_sorted. Qed.
Lemma index_prefix_tag tag : prefixed [tag] index_view =
  (if bool_decide (tag = tag_bitmap) then domain_entries i else []) ++ (if bool_decide (tag = tag_length) then array_entries i (iv_lengths i) else []) ++
  (if bool_decide (tag = "m"%byte) then meta_entries i else []) ++ (if bool_decide (tag = tag_posting) then posting_entries i (ordinals (iv_ordered i)) else []) ++
  (if bool_decide (tag = tag_term) then term_pairs (ordinals (iv_ordered i)) else []).
Proof.
  rewrite index_prefixed. unfold ordered_entries. rewrite !filter_app.
  assert (Hf : forall t es, tagged t es -> base.filter (fun e => [tag] `prefix_of` e.1) es = if bool_decide (tag = t) then es else []).
  { intros t es Ht. case_bool_decide as He; [subst t; by apply filter_tagged|]. by apply (filter_other_tag t). }
  by rewrite (Hf _ _ (proj2 domain_sorted)), (Hf _ _ (proj2 arrays_sorted)), (Hf _ _ meta_tagged), (Hf _ _ (proj2 postings_sorted)), (Hf _ _ (proj2 terms_sorted)).
Qed.
Lemma index_prefix_bitmap kind b :
  (kind, b) = (0, iv_rows i) \/ (kind, b) = (1, iv_nulls i) \/ (kind, b) = (2, iv_nonNull i) ->
  prefixed (bitmap_prefix kind) index_view = bitmap_entries (bitmap_prefix kind) b.
Proof.
  intros Hkb. rewrite index_prefixed. unfold ordered_entries. rewrite !filter_app.
  assert (Ho : forall t es, t <> tag_bitmap -> tagged t es -> base.filter (fun e => bitmap_prefix kind `prefix_of` e.1) es = []).
  { intros t es Hne Ht. by apply (filter_other_tag t). }
  rewrite (Ho tag_length _ ltac:(done) (proj2 arrays_sorted)), (Ho "m"%byte _ ltac:(done) meta_tagged), (Ho tag_posting _ ltac:(done) (proj2 postings_sorted)), (Ho tag_term _ ltac:(done) (proj2 terms_sorted)).
  rewrite !app_nil_r.
  assert (Hf : forall k b', 0 <= k < 256 -> 0 <= kind < 256 -> storable b' -> base.filter (fun e => bitmap_prefix kind `prefix_of` e.1) (bitmap_entries (bitmap_prefix k) b') =
    if kind =? k then bitmap_entries (bitmap_prefix k) b' else []).
  { intros k b' Hk Hkind Hb'. destruct (Z.eqb_spec kind k) as [<-|Hne].
    - apply filter_all, Forall_forall. intros e He. apply bitmap_entries_sorted in He as (n & ->); [|done]. by apply prefix_app_r.
    - apply filter_none, Forall_forall. intros e He Hp. apply bitmap_entries_sorted in He as (n & He); [|done]. rewrite He in Hp. unfold bitmap_prefix in Hp.
      apply prefix_cons_inv_2, prefix_cons_inv_1 in Hp. apply (f_equal Z_of_byte) in Hp. rewrite !Z_of_byte_of_Z, !Z.mod_small in Hp by lia. done. }
  unfold domain_entries. rewrite !filter_app. destruct Hkb as [[= -> ->]|[[= -> ->]|[= -> ->]]];
    rewrite !Hf by (lia || apply Hi); cbn [Z.eqb Pos.eqb]; by rewrite ?app_nil_r.
Qed.
Lemma index_get key value : (key, value) ∈ index_entries i -> index_view !! key = Some value.
Proof. intros Hin. apply elem_of_list_to_map_1; [apply index_entries_nodup|done]. Qed.
End stored.

(** ** Reading the terms and the array lengths *)
Fixpoint number_from (n : Z) (keys : list scalarKey) : list (Z * scalarKey) :=
  match keys with [] => [] | key :: keys => (n, key) :: number_from (n + 1) keys end.
Lemma ordinals_number_from keys : ordinals keys = number_from 0 keys.
Proof.
  unfold ordinals. change 0 with (Z.of_nat 0). generalize 0%nat. induction keys as [|key keys IH]; intros n; [done|]. cbn [length seq fmap list_fmap zip zip_with number_from].
  f_equal. replace (Z.of_nat n + 1) with (Z.of_nat (S n)) by lia. by rewrite <- IH.
Qed.
Lemma bm_Count_nonempty b b' : same_bitmap b b' -> bm_inv b -> (exists row, row ∈ bm_set b) -> bm_Count b' =? 0 = false.
Proof.
  intros (Hb' & Hset & _) Hb [row Hrow]. apply Z.eqb_neq. unfold bm_Count. rewrite bc_count_spec by apply Hb'. fold (bm_set b'). rewrite Hset.
  intros Hz. assert (size (bm_set b) = 0%nat) as Hs by lia. apply size_empty_inv in Hs. rewrite Hs in Hrow. by apply not_elem_of_empty in Hrow.
Qed.
Lemma posting_accepted b b' d d' :
  same_bitmap b b' -> same_bitmap d d' -> bm_inv b -> bm_set b ⊆ bm_set d -> (exists row, row ∈ bm_set b) ->
  (bm_Count b' =? 0) || negb (bitmapSubset b' d') = false.
Proof.
  intros Hbb Hdd Hb Hsub Hne. rewrite (bm_Count_nonempty b) by done. destruct Hbb as (Hb' & Hset & _), Hdd as (Hd' & Hdset & _).
  rewrite bitmapSubset_ok by (done || by rewrite Hset, Hdset). done.
Qed.
(** The postings of the keys read so far. *)
Definition read_so_far {K} `{Countable K} (saved m : gmap K (Bitmap R)) (done_ : list K) : Prop :=
  forall key, match m !! key with
  | Some b' => key ∈ done_ /\ exists b, saved !! key = Some b /\ same_bitmap b b'
  | None => key ∉ done_
  end.
Lemma read_so_far_insert {K} `{Countable K} (saved m : gmap K (Bitmap R)) done_ key b b' :
  read_so_far saved m done_ -> saved !! key = Some b -> same_bitmap b b' -> read_so_far saved (<[key := b']> m) (done_ ++ [key]).
Proof.
  intros Hm Hb Hsame k. destruct (decide (k = key)) as [->|Hne].
  - rewrite lookup_insert_eq. split; [apply elem_of_app; right; by left|]. by exists b.
  - rewrite lookup_insert_ne by done. specialize (Hm k). destruct (m !! k).
    + destruct Hm as [Hk Hex]. split; [by apply elem_of_app; left|done].
    + intros [?|?%list_elem_of_singleton]%elem_of_app; done.
Qed.

Section read_back.
Context (ctx : context) (Hlive : ctx_Err ctx = None) (i : InvertedIndex R) (Hi : storable_index i) (kind : ValueKind) (d' : Bitmap R).
Context (Hdomain : same_bitmap (iv_nonNull i) d').
Context (Hpostings : forall key b, iv_postings i !! key = Some b -> bm_set b ⊆ bm_set (iv_nonNull i) /\ exists row, row ∈ bm_set b).
Context (Harrays : forall length b, iv_arrayLength i !! length = Some b -> bm_set b ⊆ bm_set (iv_nonNull i) /\ exists row, row ∈ bm_set b).

Lemma term_key_checks n : is_u32 n ->
  negb (zlen (term_key n) =? 5) || negb (HasPrefix (term_key n) [tag_term]) || negb (be_get (drop 1 (term_key n)) =? n) = false.
Proof.
  intros Hn. unfold term_key. change (tag_term :: be_put 4 n) with ([tag_term] ++ be_put 4 n). rewrite HasPrefix_app. unfold zlen. rewrite length_app, length_be_put.
  change (drop 1 ([tag_term] ++ be_put 4 n)) with (be_put 4 n). rewrite be_get_put4 by done. by rewrite (Z.eqb_refl n).
Qed.
Lemma read_terms_spec keys : forall n done_ m terms postings fuel,
  0 <= n -> n + zlen keys <= 4294967296 -> Forall (stored_key kind) (done_ ++ keys) -> keys_sorted (done_ ++ keys) ->
  (forall key, key ∈ keys -> is_Some (iv_postings i !! key)) -> read_so_far (iv_postings i) m done_ ->
  cursor_at terms (term_pairs (number_from n keys)) -> cursor_at postings (posting_entries i (number_from n keys)) -> (length keys < fuel)%nat ->
  exists terms' postings' m', read_terms fuel ctx kind d' terms n postings (m, done_) = Ok (terms', postings', (m', done_ ++ keys)) /\
    cursor_at terms' [] /\ cursor_at postings' [] /\ read_so_far (iv_postings i) m' (done_ ++ keys).
Proof.
  induction keys as [|key keys IH]; intros n done_ m terms postings fuel Hn Hbound Hstored Hsorted Hposted Hm Hterms Hpost Hfuel;
    (destruct fuel as [|fuel]; [cbn in Hfuel; lia|]); cbn [read_terms].
  { assert (terms.2 = false) as -> by (by destruct Hterms as [all ->]). exists terms, postings, m. by rewrite app_nil_r. }
  cbn [number_from] in Hterms, Hpost. unfold term_pairs in Hterms. cbn [fmap list_fmap] in Hterms. apply cursor_next in Hterms as (T1 & T2 & T3 & T4).
  change (list_fmap _ _ _ ?l) with (term_pairs l) in T4. cbn [fst snd] in T2, T3. rewrite T1, T2, T3. unfold zlen in Hbound. cbn [length] in Hbound, Hfuel.
  assert (Hnum : wrap32 n = n) by (unfold wrap32; apply Z.mod_small; lia). unfold term_number in T2, T3. cbn [fst] in T2. rewrite ?Hnum in *.
  assert (Hu : is_u32 n) by (unfold is_u32, u32_max; lia). unfold read_term. rewrite Hlive.
  assert ((if Z.land n 1023 =? 0 then None else None) = (None : option gerror)) as -> by by destruct (_ =? 0).
  unfold term_number. cbn [fst]. rewrite Hnum, term_key_checks by done. cbn iota.
  assert (Hk : stored_key kind key) by (apply Forall_app in Hstored as [_ Hs]; by apply Forall_cons in Hs as [? _]).
  rewrite (decode_encode_key kind key Hk). cbn [or_corrupt mbind result_bind snd].
  match goal with |- context [if negb ?o then _ else _] => assert (o = true) as -> end.
  { destruct (last done_) as [previous|] eqn:El; [|done]. apply last_Some in El as [front ->].
    assert (Hp : stored_key kind previous) by (rewrite <- app_assoc in Hstored; apply Forall_app in Hstored as [_ Hs]; by apply Forall_cons in Hs as [? _]).
    rewrite (compareValues_scalar kind) by (apply key_of_scalar; (apply Hp || apply Hk)). apply Z.ltb_lt.
    apply (keys_sorted_lookup _ (length front) (S (length front)) previous key Hsorted); [| |lia].
    - rewrite <- app_assoc. change ([previous] ++ key :: keys) with (previous :: key :: keys). by rewrite list_lookup_middle.
    - rewrite list_lookup_middle; [done|]. rewrite length_app. cbn. lia. }
  cbn [negb]. unfold posting_entries in Hpost. cbn [mbind list_bind] in Hpost. unfold term_number at 1 in Hpost. cbn [fst] in Hpost. rewrite Hnum in Hpost.
  fold (posting_entries i (number_from (n + 1) keys)) in Hpost. change (list_bind _ _ _ ?l) with (posting_entries i l) in Hpost.
  destruct (Hposted key ltac:(by left)) as [b Hb]. assert (term_posting i (n, key) = b) as Htp by (unfold term_posting; cbn [snd]; by rewrite Hb). rewrite Htp in Hpost.
  destruct (read_bitmap_entries ctx Hlive (tag_posting :: be_put 4 n) b postings (posting_entries i (number_from (n + 1) keys))) as (b' & c' & R1 & R2 & R3).
  { by apply (sx_postings i Hi _ _ Hb). }
  { exact Hpost. }
  { destruct keys as [|next keys]; [done|]. unfold posting_entries. cbn [number_from mbind list_bind]. apply bitmap_entries_stops.
    - apply term_posting_storable. exact Hi.
    - by rewrite !length_be_put.
    - cbn [length] in Hbound. unfold term_number. cbn [fst]. intros He. apply (f_equal be_get) in He. rewrite !be_get_put4 in He; [|unfold wrap32, is_u32, u32_max; rewrite Z.mod_small by lia; lia|done].
      unfold wrap32 in He. rewrite Z.mod_small in He by lia. lia. }
  unfold invertedPostingPrefix. rewrite R1. cbn [mbind result_bind]. destruct (Hpostings key b Hb) as [Hsub Hrow].
  rewrite (posting_accepted b b' (iv_nonNull i) d') by (done || by apply (sx_postings i Hi _ _ Hb)). cbn [mbind result_bind fst snd].
  destruct keys as [|next keys].
  - destruct fuel as [|fuel]; [lia|]. cbn [read_terms]. assert ((Iterator_Next terms.1).2 = false) as -> by (destruct T4 as [all HT]; by rewrite HT).
    exists (Iterator_Next terms.1), c', (<[key := b']> m). split; [done|]. split; [done|]. split; [done|]. by apply (read_so_far_insert _ _ _ _ b).
  - cbn [length] in Hbound, Hfuel. assert (wrap32 (n + 1) = n + 1) as -> by (unfold wrap32; apply Z.mod_small; lia).
    destruct (IH (n + 1) (done_ ++ [key]) (<[key := b']> m) (Iterator_Next terms.1) c' fuel) as (terms' & postings' & m' & G1 & G2 & G3 & G4);
      [lia|unfold zlen; cbn [length]; lia|by rewrite <- app_assoc|by rewrite <- app_assoc|intros k Hin; apply Hposted; by right|by apply (read_so_far_insert _ _ _ _ b)|done|done|cbn [length]; lia|].
    rewrite <- app_assoc in G1, G4. by exists terms', postings', m'.
Qed.

Lemma bitmap_entries_cons prefix b : exists value rest, bitmap_entries prefix b = (prefix ++ be_put 4 0, value) :: rest.
Proof. unfold bitmap_entries. cbn [chunk_entries]. rewrite orb_true_r. by do 2 eexists. Qed.
Lemma read_lengths_spec lengths : forall done_ m c fuel array,
  StronglySorted Z.lt (done_ ++ lengths) -> Forall is_u32 (done_ ++ lengths) -> (lengths <> [] -> array = true) ->
  (forall length, length ∈ lengths -> is_Some (iv_arrayLength i !! length)) -> read_so_far (iv_arrayLength i) m done_ ->
  cursor_at c (array_entries i lengths) -> (length lengths < fuel)%nat ->
  exists c' m', read_lengths fuel ctx array d' c (m, done_) = Ok (c', (m', done_ ++ lengths)) /\ cursor_at c' [] /\
    read_so_far (iv_arrayLength i) m' (done_ ++ lengths).
Proof.
  induction lengths as [|x lengths IH]; intros done_ m c fuel array Hsorted Hu Harr Hposted Hm Hc Hfuel;
    (destruct fuel as [|fuel]; [cbn in Hfuel; lia|]); cbn [read_lengths].
  { assert (c.2 = false) as -> by (by destruct Hc as [all ->]). exists c, m. by rewrite app_nil_r. }
  unfold array_entries in Hc. cbn [mbind list_bind] in Hc. change (list_bind _ _ _ ?l) with (array_entries i l) in Hc. cbn [length] in Hfuel.
  destruct (Hposted x ltac:(by left)) as [b Hb]. rewrite Hb in Hc. cbn [default from_option] in Hc. unfold id in Hc.
  assert (Hx : is_u32 x) by (apply Forall_app in Hu as [_ Hu]; by apply Forall_cons in Hu as [? _]).
  destruct (bitmap_entries_cons (tag_length :: be_put 4 x) b) as (value & rest & Hcons).
  pose proof Hc as Hc0. rewrite Hcons in Hc0. apply cursor_next in Hc0 as (T1 & T2 & _ & _). cbn [fst] in T2. rewrite T1, T2. cbn zeta.
  change ((tag_length :: be_put 4 x) ++ be_put 4 0) with ([tag_length] ++ (be_put 4 x ++ be_put 4 0)). rewrite HasPrefix_app.
  assert (zlen ([tag_length] ++ (be_put 4 x ++ be_put 4 0)) =? 9 = true) as -> by (unfold zlen; by rewrite !length_app, !length_be_put). cbn [negb orb].
  change (drop 1 ([tag_length] ++ (be_put 4 x ++ be_put 4 0))) with (be_put 4 x ++ be_put 4 0).
  assert (take 4 (be_put 4 x ++ be_put 4 0) = be_put 4 x) as -> by (rewrite take_app_length'; by rewrite ?length_be_put).
  assert (take 5 ([tag_length] ++ be_put 4 x ++ be_put 4 0) = tag_length :: be_put 4 x) as -> by (cbn [app take]; f_equal; rewrite take_app_length'; by rewrite ?length_be_put).
  rewrite be_get_put4 by done. cbn [snd].
  assert ((match last done_ with Some previous => x <=? previous | None => false end) = false) as ->.
  { destruct (last done_) as [previous|] eqn:El; [|done]. apply last_Some in El as [front ->]. apply Z.leb_gt.
    apply (StronglySorted_lookup_lt _ (length front) (S (length front)) _ _ Hsorted).
    - rewrite <- app_assoc. change ([previous] ++ x :: lengths) with (previous :: x :: lengths). by rewrite list_lookup_middle.
    - rewrite list_lookup_middle; [done|]. rewrite length_app. cbn. lia.
    - lia. }
  destruct (read_bitmap_entries ctx Hlive (tag_length :: be_put 4 x) b c (array_entries i lengths)) as (b' & c' & R1 & R2 & R3).
  { by apply (sx_arrayLength i Hi _ _ Hb). }
  { exact Hc. }
  { destruct lengths as [|next lengths]; [done|]. unfold array_entries. cbn [mbind list_bind]. apply bitmap_entries_stops.
    - apply array_posting_storable. exact Hi.
    - by rewrite !length_be_put.
    - apply Forall_app in Hu as [_ Hu]. apply Forall_cons in Hu as [_ Hu]. apply Forall_cons in Hu as [Hnext _].
      intros He. apply (f_equal be_get) in He. rewrite !be_get_put4 in He by done. subst next.
      apply (StronglySorted_lookup_lt _ (length done_) (S (length done_)) x x) in Hsorted; [lia|by rewrite list_lookup_middle| |lia].
      rewrite lookup_app_r by lia. by replace (S (length done_) - length done_)%nat with 1%nat by lia. }
  rewrite R1. cbn [mbind result_bind]. destruct (Harrays x b Hb) as [Hsub Hrow]. rewrite (Harr ltac:(done)). cbn [negb].
  rewrite <- orb_assoc, (posting_accepted b b' (iv_nonNull i) d') by (done || by apply (sx_arrayLength i Hi _ _ Hb)). cbn [orb fst].
  destruct (IH (done_ ++ [x]) (<[x := b']> m) c' fuel true) as (c2 & m2 & G1 & G2 & G3);
    [by rewrite <- app_assoc|by rewrite <- app_assoc|done|intros k Hin; apply Hposted; by right|by apply (read_so_far_insert _ _ _ _ b)|done|lia|].
  rewrite <- app_assoc in G1, G3. by exists c2, m2.
Qed.
End read_back.

(** ** The whole index *)
Definition words_within (n : Z) i : Prop :=
  bm_logicalWords (iv_rows i) <= n /\ bm_logicalWords (iv_nulls i) <= n /\ bm_logicalWords (iv_nonNull i) <= n /\
  map_Forall (fun _ b => bm_logicalWords b <= n) (iv_postings i) /\ map_Forall (fun _ b => bm_logicalWords b <= n) (iv_arrayLength i).
Lemma set_row_within n row b : 0 <= row < 64 * n -> bm_logicalWords b <= n -> bm_logicalWords (set_row row b) <= n.
Proof.
  intros Hr Hb. unfold set_row, bm_Set. destruct (bc_add (bm_contents b) row) as [contents added]. cbn. unfold bitmapWordIndex. rewrite Z.shiftr_div_pow2 by lia.
  change (2 ^ 6) with 64. assert (row / 64 < n) by (apply Z.div_lt_upper_bound; lia). lia.
Qed.
Lemma addPosting_within {K} `{Countable K} n (key : K) row (m : gmap K (Bitmap R)) :
  0 <= n -> 0 <= row < 64 * n -> map_Forall (fun _ b => bm_logicalWords b <= n) m -> map_Forall (fun _ b => bm_logicalWords b <= n) (addPosting key row m).
Proof.
  intros Hn Hr Hm. unfold addPosting. apply map_Forall_insert_2; [|done]. apply set_row_within; [done|]. destruct (m !! key) eqn:E; [by apply (Hm _ _ E)|].
  change (bm_logicalWords (NewBitmap 0)) with 0. done.
Qed.
Lemma add_elements_within n row elements seen (m : gmap scalarKey (Bitmap R)) :
  0 <= n -> 0 <= row < 64 * n -> map_Forall (fun _ b => bm_logicalWords b <= n) m -> map_Forall (fun _ b => bm_logicalWords b <= n) (add_elements row elements seen m).
Proof.
  intros Hn Hr. revert seen m. induction elements as [|element elements IH]; intros seen m Hm; [done|]. cbn [add_elements]. cbv zeta.
  destruct (decide _); apply IH; [done|]. by apply addPosting_within.
Qed.
Lemma Add_within n row value i i' :
  0 <= n -> 0 <= row < 64 * n -> words_within n i -> InvertedIndex_Add row value i = Ok i' -> words_within n i'.
Proof.
  intros Hn Hr (H1 & H2 & H3 & H4 & H5). unfold InvertedIndex_Add. destruct (iv_sealed i); [done|]. destruct (bm_Contains _ _); [done|].
  destruct (_ || _); [done|]. destruct (invalid_text value); [done|].
  destruct (v_null value); [|destruct (v_array value)]; intros [= <-]; unfold words_within; cbn;
    repeat split; auto using set_row_within, addPosting_within, add_elements_within.
Qed.
Lemma Seal_within n i : words_within n i -> words_within n (Seal i).
Proof. unfold Seal. by destruct (iv_sealed i). Qed.
Lemma added_within n field entries i0 i :
  0 <= n -> NewInvertedIndex field = Ok i0 -> Forall (fun e => 0 <= e.1 < 64 * n) entries -> add_rows entries i0 = Ok i -> words_within n (Seal i).
Proof.
  intros Hn Hnew Hrows Ha. apply Seal_within. assert (H0 : words_within n i0).
  { unfold NewInvertedIndex in Hnew. case_in Hnew; [done|]. injection Hnew as <-. unfold words_within. cbn. change (wordsForBits 0) with 0. repeat split; done. }
  clear Hnew. revert i0 H0 Ha. induction Hrows as [|[row value] entries Hr Hrows IH]; intros i0 H0 Ha; [by injection Ha as <-|]. unfold add_rows in Ha. cbn [foldM] in Ha.
  destruct (InvertedIndex_Add row value i0) as [i1|] eqn:E; [|done]. apply (IH i1); [|done]. by apply (Add_within n row value i0).
Qed.

Section whole.
Context (i : InvertedIndex R) (rows : gmap Z Value) (Hi : iv_inv i rows) (Hsealed : iv_sealed i = true).
Context (Hwords : words_within (512 * 4294967295) i) (Hterms : zlen (iv_ordered i) <= 4294967296) (Hfield : field_ok (iv_field i)).

Lemma sealed_storable : storable_index i.
Proof.
  destruct Hwords as (W1 & W2 & W3 & W4 & W5). pose proof (ii_sealed i rows Hi Hsealed) as [S1 S2 S3 S4 S5].
  assert (Hnd : NoDup (iv_lengths i)) by (rewrite S4; apply NoDup_fst_map_to_list).
  split; try done; try (split; [apply Hi|done]).
  - intros key b Hb. split; [|by apply (W4 _ _ Hb)]. pose proof (ii_postings i rows Hi key) as Hp. rewrite Hb in Hp. apply Hp.
  - intros key b Hb. split; [|by apply (W5 _ _ Hb)]. pose proof (ii_arrayLength i rows Hi key) as Hp. rewrite Hb in Hp. apply Hp.
  - clear -S5 Hnd. induction S5 as [|x l Hl IH Hx]; [constructor|]. apply NoDup_cons in Hnd as [Hni Hnd]. constructor; [by apply IH|].
    rewrite Forall_forall in Hx |- *. intros y Hy. specialize (Hx y Hy). assert (x <> y) by (intros ->; done). lia.
  - apply Forall_forall. intros length Hin. rewrite S4 in Hin. apply list_elem_of_fmap in Hin as ([l b] & -> & Hin). apply elem_of_map_to_list in Hin.
    pose proof (ii_arrayLength i rows Hi l) as Hp. rewrite Hin in Hp. destruct Hp as [_ (row & v & Hv & _ & _ & <-)].
    by apply (ii_values i rows Hi row v Hv).
Qed.
Lemma ordered_posted key : key ∈ iv_ordered i <-> is_Some (iv_postings i !! key).
Proof.
  rewrite (so_keys _ _ (ii_sealed i rows Hi Hsealed)). rewrite list_elem_of_fmap. split.
  - intros ([k b] & -> & Hin). apply elem_of_map_to_list in Hin. by exists b.
  - intros [b Hb]. exists (key, b). split; [done|]. by apply elem_of_map_to_list.
Qed.
Lemma lengths_posted length : length ∈ iv_lengths i <-> is_Some (iv_arrayLength i !! length).
Proof.
  rewrite (so_lengths _ _ (ii_sealed i rows Hi Hsealed)). rewrite list_elem_of_fmap. split.
  - intros ([k b] & -> & Hin). apply elem_of_map_to_list in Hin. by exists b.
  - intros [b Hb]. exists (length, b). split; [done|]. by apply elem_of_map_to_list.
Qed.
Lemma stored_keys : Forall (stored_key (fd_Kind (iv_field i))) (iv_ordered i).
Proof.
  apply Forall_forall. intros key Hin. apply ordered_posted in Hin as [b Hb]. split; [by apply (posting_keys i rows key b)|]. intros Hk.
  pose proof (ii_postings i rows Hi key) as Hp. rewrite Hb in Hp. destruct Hp as [_ (row & v & Hv & Hn & Hkey)].
  destruct (ii_values i rows Hi row v Hv) as (_ & [F1 F2 F3] & Ht & _). unfold invalid_text in Ht. rewrite F2, Hk, Hn, bool_decide_true in Ht by done. cbn in Ht.
  apply orb_false_iff in Ht as [Ht1 Ht2]. unfold value_keys in Hkey. destruct (v_array v) eqn:Ea.
  - apply list_elem_of_fmap in Hkey as (e & -> & He). pose proof (built_array v F1 Hn Ea) as Hall. rewrite Forall_forall in Hall. destruct (Hall e He) as [_ Hke].
    assert (ValidString (v_text e) = true) as Hte.
    { destruct (ValidString (v_text e)) eqn:E; [done|]. exfalso. apply not_true_iff_false in Ht2. apply Ht2, existsb_exists. exists e.
      split; [by apply list_elem_of_In|]. by rewrite E. }
    unfold keyFromValue. by rewrite Hke, F2, Hk.
  - apply list_elem_of_singleton in Hkey as ->. cbn in Ht1. apply negb_false_iff in Ht1. unfold keyFromValue. by rewrite F2, Hk.
Qed.
Lemma postings_in_domain key b : iv_postings i !! key = Some b -> bm_set b ⊆ bm_set (iv_nonNull i) /\ exists row, row ∈ bm_set b.
Proof.
  intros Hb. pose proof (ii_postings i rows Hi key) as Hp. rewrite Hb in Hp. destruct Hp as [[_ Hset] [row Hrow]]. split; [|exists row; by apply Hset].
  intros r Hr. apply Hset in Hr as (v & Hv & Hn & _). apply (ii_nonNull i rows Hi). by exists v.
Qed.
Lemma arrays_in_domain length b : iv_arrayLength i !! length = Some b -> bm_set b ⊆ bm_set (iv_nonNull i) /\ exists row, row ∈ bm_set b.
Proof.
  intros Hb. pose proof (ii_arrayLength i rows Hi length) as Hp. rewrite Hb in Hp. destruct Hp as [[_ Hset] [row Hrow]]. split; [|exists row; by apply Hset].
  intros r Hr. apply Hset in Hr as (v & Hv & Hn & _). apply (ii_nonNull i rows Hi). by exists v.
Qed.
Lemma lengths_array : iv_lengths i <> [] -> fd_Array (iv_field i) = true.
Proof.
  intros Hne. destruct (iv_lengths i) as [|length l] eqn:El; [done|]. assert (length ∈ iv_lengths i) as Hin by (rewrite El; by left). apply lengths_posted in Hin as [b Hb].
  pose proof (ii_arrayLength i rows Hi length) as Hp. rewrite Hb in Hp. destruct Hp as [_ (row & v & Hv & _ & Ha & _)].
  destruct (ii_values i rows Hi row v Hv) as (_ & [_ _ F3] & _). congruence.
Qed.
Lemma same_bitmap_of b b' P : bitmap_of b P -> same_bitmap b b' -> bitmap_of b' P.
Proof. intros [_ Hp] (H1 & H2 & _). split; [done|]. intros row. by rewrite H2. Qed.
Lemma read_postings_ok {K} `{Countable K} (saved m : gmap K (Bitmap R)) keys P :
  keys ≡ₚ (map_to_list saved).*1 -> read_so_far saved m keys -> postings_ok saved P -> postings_ok m P /\ keys ≡ₚ (map_to_list m).*1.
Proof.
  intros Hk Hm Hp. assert (Hin : forall key, key ∈ keys <-> is_Some (saved !! key)).
  { intros key. rewrite Hk, list_elem_of_fmap. split; [intros ([k b] & -> & Hkb); apply elem_of_map_to_list in Hkb; by exists b|].
    intros [b Hb]. exists (key, b). split; [done|]. by apply elem_of_map_to_list. }
  split.
  - intros key. specialize (Hm key). specialize (Hp key). destruct (m !! key) as [b'|].
    + destruct Hm as (_ & b & Hb & Hsame). rewrite Hb in Hp. destruct Hp as [Hbm Hrow]. split; [by apply (same_bitmap_of b)|done].
    + rewrite Hin in Hm. destruct (saved !! key); [|done]. exfalso. apply Hm. done.
  - apply NoDup_Permutation; [rewrite Hk; apply NoDup_fst_map_to_list|apply NoDup_fst_map_to_list|]. intros key. rewrite list_elem_of_fmap. specialize (Hm key). split.
    + intros Hkey. destruct (m !! key) as [b'|] eqn:E; [|done]. exists (key, b'). split; [done|]. by apply elem_of_map_to_list.
    + intros ([k b'] & -> & Hkb). apply elem_of_map_to_list in Hkb. cbn in *. rewrite Hkb in Hm. apply Hm.
Qed.
End whole.

(** ** Saving and opening *)
Lemma index_terms i : storable_index i -> prefixed [tag_term] (index_view i) = term_pairs (ordinals (iv_ordered i)).
Proof. intros Hi. rewrite index_prefix_tag by done. change (bool_decide (tag_term = tag_bitmap)) with false. change (bool_decide (tag_term = tag_length)) with false. change (bool_decide (tag_term = "m"%byte)) with false. change (bool_decide (tag_term = tag_posting)) with false. change (bool_decide (tag_term = tag_term)) with true. cbn iota. rewrite ?app_nil_r. reflexivity. Qed.
Lemma index_postings i : storable_index i -> prefixed [tag_posting] (index_view i) = posting_entries i (ordinals (iv_ordered i)).
Proof. intros Hi. rewrite index_prefix_tag by done. change (bool_decide (tag_posting = tag_bitmap)) with false. change (bool_decide (tag_posting = tag_length)) with false. change (bool_decide (tag_posting = "m"%byte)) with false. change (bool_decide (tag_posting = tag_posting)) with true. change (bool_decide (tag_posting = tag_term)) with false. cbn iota. rewrite ?app_nil_r. reflexivity. Qed.
Lemma index_lengths i : storable_index i -> prefixed [tag_length] (index_view i) = array_entries i (iv_lengths i).
Proof. intros Hi. rewrite index_prefix_tag by done. change (bool_decide (tag_length = tag_bitmap)) with false. change (bool_decide (tag_length = tag_length)) with true. change (bool_decide (tag_length = "m"%byte)) with false. change (bool_decide (tag_length = tag_posting)) with false. change (bool_decide (tag_length = tag_term)) with false. cbn iota. rewrite ?app_nil_r. reflexivity. Qed.
Lemma read_index_ok repeated ctx i rows db :
  iv_inv i rows -> iv_sealed i = true -> words_within (512 * 4294967295) i -> zlen (iv_ordered i) <= 4294967296 -> field_ok (iv_field i) ->
  ctx_Err ctx = None -> reads_ok db -> kv_view db = index_view i ->
  exists i', read_index repeated ctx (read_only db) = Ok i' /\ iv_inv i' rows /\ iv_sealed i' = true /\ iv_field i' = iv_field i.
Proof.
  intros Hi Hs Hw Ht Hf Hlive Hr Hv. pose proof (sealed_storable i rows Hi Hs Hw Ht) as Hst. pose proof (ii_sealed i rows Hi Hs) as [S1 S2 S3 S4 S5].
  unfold read_index, read_field.
  assert (Hget : forall key value, (key, value) ∈ index_entries i -> Store_Get (read_only db) key = Ok value).
  { intros key value Hin. unfold Store_Get. cbn [ss_db read_only]. rewrite (proj1 Hr key value); [done|]. rewrite Hv. by apply index_get. }
  rewrite (Hget invertedFormatKey invertedPebbleFormat) by (unfold index_entries; by left). cbn [or_corrupt mbind result_bind]. rewrite bytes_eqb_refl. cbn [negb].
  rewrite (Hget invertedFieldKey (json_field (iv_field i))) by (unfold index_entries; right; by left). cbn [or_corrupt mbind result_bind].
  rewrite field_of_json_ok by done. cbn [or_corrupt mbind result_bind]. destruct Hf as (Hname & Hfilter & Hindexed & Hkind).
  unfold NewInvertedIndex at 1. rewrite Hfilter, Hindexed, Hkind. cbn [negb orb or_corrupt mbind result_bind]. cbv zeta. cbn [iv_field].
  assert (Hbm : forall kind b, (kind, b) = (0, iv_rows i) \/ (kind, b) = (1, iv_nulls i) \/ (kind, b) = (2, iv_nonNull i) -> storable b ->
    exists b', readInvertedBitmap ctx (read_only db) (bitmap_prefix kind) = Ok b' /\ same_bitmap b b').
  { intros kind b Hkb Hb. apply readInvertedBitmap_ok; [done..|]. rewrite Hv. by apply index_prefix_bitmap. }
  destruct (Hbm 0 (iv_rows i) ltac:(by left) (sx_rows i Hst)) as (rows' & -> & Hrows'). cbn [mbind result_bind].
  destruct (Hbm 1 (iv_nulls i) ltac:(right; by left) (sx_nulls i Hst)) as (nulls' & -> & Hnulls'). cbn [mbind result_bind].
  destruct (Hbm 2 (iv_nonNull i) ltac:(right; by right) (sx_nonNull i Hst)) as (nonNull' & -> & HnonNull'). cbn [mbind result_bind].
  assert (bitmapPartition rows' nulls' nonNull' = true) as ->.
  { destruct Hrows' as (P1 & P2 & _), Hnulls' as (P3 & P4 & _), HnonNull' as (P5 & P6 & _). apply bitmapPartition_ok; [done..| |]; rewrite ?P2, P4, P6.
    - apply set_eq. intros row. rewrite elem_of_union, (proj2 (ii_rows i rows Hi)), (proj2 (ii_nulls i rows Hi)), (proj2 (ii_nonNull i rows Hi)). unfold row_with.
      split; [|by intros [(v & Hrv & _)|(v & Hrv & _)]; exists v]. intros (v & Hrv & _). destruct (v_null v) eqn:En; [left|right]; by exists v.
    - intros row. rewrite (proj2 (ii_nulls i rows Hi)), (proj2 (ii_nonNull i rows Hi)). intros (v & Hrv & Hn) (v' & Hrv' & Hn'). simplify_eq. congruence. }
  cbn [negb].
  destruct (prefix_cursor db [tag_term] Hr) as (terms & -> & Hterms). destruct (prefix_cursor db [tag_posting] Hr) as (postings & -> & Hpostings).
  destruct (prefix_cursor db [tag_length] Hr) as (lengths & -> & Hlengths). cbn [or_corrupt mbind result_bind].
  rewrite Hv, index_terms in Hterms by done. rewrite Hv, index_postings in Hpostings by done. rewrite Hv, index_lengths in Hlengths by done.
  rewrite ordinals_number_from in Hterms, Hpostings.
  destruct (read_terms_spec ctx Hlive i Hst (fd_Kind (iv_field i)) nonNull' HnonNull' (postings_in_domain i rows Hi) (iv_ordered i) 0 [] ∅
    (Iterator_First terms) (Iterator_First postings) (S (entries_left (Iterator_First terms)))) as (t' & p' & m' & T1 & T2 & T3 & T4).
  { done. } { done. } { by apply (stored_keys i rows). } { exact S2. } { intros key. by apply (ordered_posted i rows). }
  { intros key. rewrite lookup_empty. by intros ?%elem_of_nil. } { exact Hterms. } { exact Hpostings. }
  { rewrite (cursor_left _ _ Hterms). unfold term_pairs. rewrite length_fmap, <- ordinals_number_from. unfold ordinals. rewrite length_zip_with, length_fmap, length_seq. lia. }
  rewrite T1. cbn [mbind result_bind app]. unfold iteration_error. rewrite (cursor_error _ _ T2), (cursor_error _ _ T3). cbn [mbind result_bind].
  assert (p'.2 = false) as -> by (by destruct T3 as [all ->]).
  destruct (read_lengths_spec ctx Hlive i Hst nonNull' HnonNull' (arrays_in_domain i rows Hi) (iv_lengths i) [] ∅ (Iterator_First lengths)
    (S (entries_left (Iterator_First lengths))) (fd_Array (iv_field i))) as (l' & a' & L1 & L2 & L3).
  { apply Hst. } { apply Hst. } { by apply (lengths_array i rows). } { intros length. by apply (lengths_posted i rows). }
  { intros key. rewrite lookup_empty. by intros ?%elem_of_nil. } { exact Hlengths. }
  { rewrite (cursor_left _ _ Hlengths). unfold array_entries. assert (forall l, (length l <= length (array_entries i l))%nat) as Hle; [|specialize (Hle (iv_lengths i)); unfold array_entries in Hle; lia].
    induction l as [|x l IH]; [done|]. unfold array_entries in *. cbn [mbind list_bind]. destruct (bitmap_entries_cons (tag_length :: be_put 4 x) (default (NewBitmap 0) (iv_arrayLength i !! x))) as (value & rest & ->).
    rewrite length_app. cbn [length]. lia. }
  rewrite L1. cbn [mbind result_bind app]. rewrite (cursor_error _ _ L2). cbn [mbind result_bind fst snd].
  destruct (read_postings_ok _ _ _ _ S1 T4 (ii_postings i rows Hi)) as [P1 P2]. destruct (read_postings_ok _ _ _ _ S4 L3 (ii_arrayLength i rows Hi)) as [A1 A2].
  eexists. split; [reflexivity|]. split; [|done]. split; cbn; [apply Hi|by eapply same_bitmap_of; [apply Hi|]..|done|done|]. intros _. by split.
Qed.
Lemma Open_new io path store d :
  Open (DB := DB) io path false None = (Ok store, d) ->
  exists db, store = {| ss_db := Some db; ss_readOnly := false |} /\ kv_view db = ∅ /\ d = Some {| dy_marker := Some indexstoreMarkerContents; dy_db := db |}.
Proof.
  unfold Open. destruct (String.eqb path ""); [done|]. destruct (oi_resolve io); [done|]. destruct (oi_inspect io); [done|].
  destruct (kv_Open kv_Empty) as [db|] eqn:E; [|done]. destruct (oi_write io); [done|]. intros [= <- <-]. exists db. split; [done|]. split; [|done].
  by rewrite (kv_open_view _ _ E), kv_empty_view.
Qed.
Lemma Save_view io ctx path i d0 d :
  Save io ctx path i d0 = (None, d) -> (NoDup (index_entries i).*1) ->
  exists dir, d = Some dir /\ kv_view (dy_db dir) = index_view i.
Proof.
  unfold Save. intros Hsave Hnd. destruct ctx as [| |e]; try done. cbn [ctx_guard] in Hsave. destruct (requireEmptyInvertedDirectory io path d0) eqn:Er; [done|].
  assert (d0 = None) as ->.
  { unfold requireEmptyInvertedDirectory in Er. destruct (String.eqb path ""); [done|]. destruct (sv_list io); [done|]. by destruct d0. }
  destruct (iv_sealed i); [|done]. cbn [negb] in Hsave. destruct (Open (sv_open io) path false None) as [[store|e] d1] eqn:Eo; [|done].
  apply Open_new in Eo as (db0 & -> & Hempty & ->). cbv zeta in Hsave.
  destruct (write_index CtxLive i _) as [w|] eqn:Ew; [|done]. destruct (write_index_entries CtxLive eq_refl i _ w Ew) as (w1 & Hw1 & Hclose).
  assert (Hopen : writer_open (newInvertedStoreWriter {| ss_db := Some db0; ss_readOnly := false |}) ∅) by (exists db0, []; by rewrite <- Hempty).
  pose proof (writer_sets_open _ _ _ _ Hopen Hw1) as Hview. rewrite foldl_insert_NoDup, (right_id_L ∅ (∪)) in Hview by done.
  destruct (writer_close_open _ _ _ Hview Hclose) as (db1 & Hs & Hdb1). unfold Store_Flush in Hsave. rewrite Hs in Hsave. cbn in Hsave.
  destruct (kv_Flush db1) as [db2|] eqn:Ef; [|done]. cbn in Hsave. unfold Store_Close in Hsave. cbn in Hsave. pose proof (kv_close_view db2) as Hc.
  destruct (kv_Close db2) as [db3 [e|]]; [done|]. cbn in Hsave. injection Hsave as <-. eexists. split; [done|]. cbn in *. rewrite Hc, (kv_flush_view _ _ Ef). exact Hdb1.
Qed.

(** C20: a saved index reads back.  Whatever rows were added to an index, if [Save]
    succeeds then opening the directory succeeds whenever its store can be opened and
    read: every check of [OpenInvertedIndex] passes, and each search of the opened
    index answers exactly the rows on which the predicate evaluates to TRUE, as it did
    before saving.  Row ordinals are below 2^47 - 2^15 and there are at most 2^32 terms,
    so that chunks and terms have keys of 32 bits. *)
Theorem inverted_save_reopen field entries i0 i io ctx path d0 d :
  NewInvertedIndex field = Ok i0 -> Forall (fun x => Z_of_byte x < 128) (fd_Name field) -> Forall entry_ok entries ->
  Forall (fun e => e.1 < 140737488322560) entries -> add_rows entries i0 = Ok i -> zlen (iv_ordered (Seal i)) <= 4294967296 ->
  Save (DB := DB) io ctx path (Seal i) d0 = (None, d) ->
  forall repeated oi db, (Open oi path true d).1 = Ok (read_only db) -> reads_ok db ->
  exists i', OpenInvertedIndex repeated oi CtxLive path d = Ok i' /\ iv_field i' = field /\
    forall p, made_for (fd_Kind field) (fd_Array field) p ->
      exists r, Search p i' = Ok r /\ (ir_Supported r = true \/ bp_operator p = PredicateLike) /\
        (ir_Supported r = true -> exists b, ir_Bitmap r = Some b /\ bm_inv b /\
           forall row, row ∈ bm_set b <-> exists v, (row, v) ∈ entries /\ Evaluate p v = Ok TruthTrue).
Proof.
  intros Hnew Hname Hok Hrows Ha Hterms Hsave repeated oi db Hopen Hr.
  destruct (added_rows field entries i0 i Hnew Hok Ha) as (rows & Hi & Hs & Hf & Hin).
  assert (Hwords : words_within (512 * 4294967295) (Seal i)).
  { apply (added_within _ field entries i0 i); [lia|done| |done]. apply Forall_forall. rewrite Forall_forall in Hok, Hrows. intros e He.
    destruct (Hok e He) as (Hu & _). unfold is_u64 in Hu. specialize (Hrows e He). lia. }
  assert (Hfield : field_ok (iv_field (Seal i))).
  { rewrite Hf. unfold NewInvertedIndex in Hnew. destruct (_ || _) eqn:E in Hnew; [done|]. apply orb_false_iff in E as [E Ek]. apply orb_false_iff in E as [Efl Eix].
    apply negb_false_iff in Ek, Efl, Eix. by split. }
  pose proof (sealed_storable (Seal i) rows Hi Hs Hwords Hterms) as Hst.
  destruct (Save_view io ctx path (Seal i) d0 d Hsave) as (dir & -> & Hview); [by apply index_entries_nodup|].
  assert (kv_view db = index_view (Seal i)) as Hdb.
  { rewrite <- Hview. unfold Open in Hopen. destruct (String.eqb path ""); [done|]. destruct (oi_resolve oi); [done|]. destruct (oi_inspect oi); [done|].
    destruct (validateIndexstoreMarker oi dir); [done|]. destruct (kv_Open (dy_db dir)) as [db'|] eqn:E; [|done]. injection Hopen as <-. by apply kv_open_view. }
  destruct (read_index_ok repeated CtxLive (Seal i) rows db Hi Hs Hwords Hterms Hfield eq_refl Hr Hdb) as (i' & Hread & Hi' & Hs' & Hf').
  exists i'. unfold OpenInvertedIndex. cbn [ctx_guard]. rewrite Hopen. split; [done|]. split; [congruence|]. intros p Hp.
  destruct (Search_evaluates i' rows p Hi' Hs') as (r & H1 & H2 & H3); [by rewrite Hf', Hf|]. exists r. split; [done|]. split; [done|].
  intros Hsup. destruct (H3 Hsup) as (b & Hb & Hinv & Hset). exists b. split; [done|]. split; [done|]. intros row. rewrite Hset. by setoid_rewrite Hin.
Qed.
End reopen.

(** ** A witness *)
Definition ex_save_io : save_io (DB := gmap bytes bytes) :=
  {| sv_list := None; sv_open := {| oi_resolve := None; oi_inspect := None; oi_read := None; oi_write := None |}; sv_remove := None; sv_safe := true |}.
Definition ex_saved : bool :=
  match NewInvertedIndex (R := gset Z) ex_field with
  | Ok i0 =>
      match add_rows ex_entries i0 with
      | Ok i =>
          match Save ex_save_io CtxLive "index" (Seal i) None with
          | (None, d) =>
              match (Open (sv_open ex_save_io) "index" true d).1 with
              | Ok {| ss_db := Some _; ss_readOnly := true |} => zlen (iv_ordered (Seal i)) <=? 4294967296
              | _ => false
              end
          | _ => false
          end
      | Fail _ => false
      end
  | Fail _ => false
  end.
(** The index of [ex_entries], saved and opened, with the search [field >= 5]. *)
Lemma inverted_save_reopen_witness :
  exists i0 i d i' p r b, NewInvertedIndex (R := gset Z) ex_field = Ok i0 /\ add_rows ex_entries i0 = Ok i /\
    Save ex_save_io CtxLive "index" (Seal i) None = (None, d) /\ OpenInvertedIndex (fun _ => Fail panicked) (sv_open ex_save_io) CtxLive "index" d = Ok i' /\
    NewComparisonPredicate PredicateGE (Int32Value 5) = Ok p /\ Search p i' = Ok r /\ ir_Bitmap r = Some b /\ 4 ∈ bm_set b.
Proof.
  destruct (NewInvertedIndex (R := gset Z) ex_field) as [i0|] eqn:E0; [|done]. destruct (add_rows ex_entries i0) as [i|] eqn:E1.
  2:{ exfalso. assert (is_ok (add_rows ex_entries i0) = true) as H; [|by rewrite E1 in H]. clear E1. injection E0 as <-. vm_compute. reflexivity. }
  assert (Hall : ex_saved = true) by (vm_compute; reflexivity). unfold ex_saved in Hall. rewrite E0, E1 in Hall.
  destruct (Save ex_save_io CtxLive "index" (Seal i) None) as [[e|] d] eqn:Es; [done|].
  destruct ((Open (sv_open ex_save_io) "index" true d).1) as [[[db|] []]|] eqn:Eo; try done. apply Z.leb_le in Hall.
  destruct (NewComparisonPredicate PredicateGE (Int32Value 5)) as [p|] eqn:Ep; [|done].
  destruct (inverted_save_reopen ex_field ex_entries i0 i ex_save_io CtxLive "index" None d E0) with (repeated := fun _ : bytes => Fail (A := Field) panicked) (oi := sv_open ex_save_io) (db := db)
    as (i' & Hi' & _ & Hsearch); [|exact ex_entries_ok| |exact E1|exact Hall|exact Es|exact Eo| |].
  { by apply (bool_decide_unpack _). }
  { apply (bool_decide_unpack _). vm_compute. exact I. }
  { split; [by intros key value Hkv; cbn in *; rewrite Hkv|]. intros lower upper. by eexists. }
  destruct (Hsearch p) as (r & H1 & H2 & H3).
  { apply (MadeComparison _ _ _ PredicateGE (Int32Value 5)); try done. split; [|done]. apply ScalarInt32. unfold is_i32. lia. }
  destruct H3 as (b & Hb & _ & Hset). { destruct H2 as [H2|H2]; [done|]. injection Ep as <-. discriminate H2. }
  exists i0, i, d, i', p, r, b. do 7 (split; [done|]). apply Hset. exists (Int32Value 5). split; [unfold ex_entries; set_solver|]. injection Ep as <-. reflexivity.
Defined.
