(* ===== verification/FilterExpr.v ===== *)
(** * Filter expressions: [internal/db/sqlengine/ast.go]

    The syntax tree that the parser makes, with the source range of every node,
    and its text form.  [Expr] is one of two node types or a [ValueExpr]; a
    [PredicateExpr] of IS NULL has no right operand. *)
From S2P Require Import Prelude Bytes JsonText Predicate.
#[local] Open Scope string_scope.
#[local] Open Scope list_scope.
#[local] Open Scope Z_scope.

Record Position := { ps_Offset : Z; ps_Line : Z; ps_Column : Z }.
Record Span := { sp_Start : Position; sp_End : Position }.

Inductive LogicalOperator := LogicalAnd | LogicalOr | LogicalInvalid (code : Z).
#[export] Instance LogicalOperator_eq_dec : EqDecision LogicalOperator.
Proof. solve_decision. Defined.
Inductive LiteralKind := LiteralInteger | LiteralFloat | LiteralString | LiteralBool | LiteralInvalid (code : Z).
#[export] Instance LiteralKind_eq_dec : EqDecision LiteralKind.
Proof. solve_decision. Defined.

Record LiteralExpr := { li_Kind : LiteralKind; li_Text : bytes; li_Raw : bytes; li_Range : Span }.
Inductive ValueExpr :=
| IdentifierExpr (Name : bytes) (Range : Span)
| CallExpr (Name : bytes) (Arguments : list ValueExpr) (Range : Span)
| LiteralValue (literal : LiteralExpr)
| ListExpr (Values : list LiteralExpr) (Range : Span)
| VectorExpr (Rows : list (list LiteralExpr)) (Matrix : bool) (Range : Span).
Inductive Expr :=
| LogicalExpr (Operator : LogicalOperator) (Left Right : Expr) (Range : Span)
| PredicateExpr (Operator : PredicateOperator) (Left : ValueExpr) (Right : option ValueExpr) (Negated : bool) (Range : Span)
| ValueNode (value : ValueExpr).

Definition value_span (expression : ValueExpr) : Span :=
  match expression with
  | IdentifierExpr _ range | CallExpr _ _ range | ListExpr _ range | VectorExpr _ _ range => range
  | LiteralValue literal => li_Range literal
  end.
Definition NodeSpan (expression : Expr) : Span :=
  match expression with
  | LogicalExpr _ _ _ range | PredicateExpr _ _ _ _ range => range
  | ValueNode value => value_span value
  end.

(** ** The text of an expression *)
Definition logical_String (o : LogicalOperator) : bytes :=
  match o with LogicalAnd => bs "AND" | LogicalOr => bs "OR" | LogicalInvalid _ => bs "UNKNOWN" end.
Definition predicate_String (o : PredicateOperator) : bytes :=
  match o with
  | PredicateEQ => bs "="
  | PredicateNE => bs "!="
  | PredicateLT => bs "<"
  | PredicateLE => bs "<="
  | PredicateGT => bs ">"
  | PredicateGE => bs ">="
  | PredicateLike => bs "LIKE"
  | PredicateIn => bs "IN"
  | PredicateContainAll => bs "CONTAIN_ALL"
  | PredicateContainAny => bs "CONTAIN_ANY"
  | PredicateIsNull => bs "IS NULL"
  | PredicateInvalid _ => bs "UNKNOWN"
  end.
Fixpoint strings_Join (parts : list bytes) (separator : bytes) : bytes :=
  match parts with
  | [] => []
  | [part] => part
  | part :: parts => part ++ separator ++ strings_Join parts separator
  end.
(** [strings.ReplaceAll] of one byte. *)
Definition replace_byte (old : byte) (new text : bytes) : bytes := text ≫= fun b => if bool_decide (b = old) then new else [b].
Definition apostrophe : byte := "'"%byte.
Definition reverse_solidus : byte := "\"%byte.
Definition format_literal (literal : LiteralExpr) : bytes :=
  if bool_decide (li_Kind literal = LiteralString) then
    [apostrophe] ++ replace_byte apostrophe [reverse_solidus; apostrophe] (replace_byte reverse_solidus [reverse_solidus; reverse_solidus] (li_Text literal)) ++ [apostrophe]
  else li_Text literal.
Fixpoint format_value (expression : ValueExpr) : bytes :=
  match expression with
  | IdentifierExpr name _ => name
  | CallExpr name arguments _ => name ++ bs "(" ++ strings_Join (map format_value arguments) (bs ", ") ++ bs ")"
  | LiteralValue literal => format_literal literal
  | ListExpr values _ => bs "(" ++ strings_Join (map format_literal values) (bs ", ") ++ bs ")"
  | VectorExpr rows matrix _ =>
      let rows := map (fun row => bs "[" ++ strings_Join (map format_literal row) (bs ", ") ++ bs "]") rows in
      if matrix then bs "[" ++ strings_Join rows (bs ", ") ++ bs "]"
      else match rows with [row] => row | _ => bs "[]" end
  end.
Fixpoint Format (expression : Expr) : bytes :=
  match expression with
  | LogicalExpr operator lhs rhs _ => bs "(" ++ Format lhs ++ bs " " ++ logical_String operator ++ bs " " ++ Format rhs ++ bs ")"
  | PredicateExpr operator lhs rhs negated _ =>
      let l := format_value lhs in
      let r := match rhs with Some value => format_value value | None => bs "<nil>" end in
      match operator with
      | PredicateIsNull => l ++ bs (if negated then " IS NOT NULL" else " IS NULL")
      | PredicateIn | PredicateContainAll | PredicateContainAny =>
          l ++ bs " " ++ (if negated then bs "NOT " else []) ++ predicate_String operator ++ bs " " ++ r
      | _ => l ++ bs " " ++ predicate_String operator ++ bs " " ++ r
      end
  | ValueNode value => format_value value
  end.
