(* ===== verification/FilterPlan.v ===== *)
(** * Filter plans: [internal/db/sqlengine/plan.go]

    The executable form of a filter, its evaluation on one row, the optimizer,
    and the candidate rows that the indexes give.  A row is a [Resolver]. *)
From S2P Require Import Prelude Bytes JsonText Bitmap SqlValue Like Predicate Inverted IndexRows FilterExpr.
#[local] Open Scope string_scope.
#[local] Open Scope list_scope.
#[local] Open Scope Z_scope.

Definition Resolver : Type := Field -> result Value.
Record PlanStats := { st_EqualitySets : Z; st_EmptyContainRewrites : Z; st_ConstantFolds : Z }.

(** ** Nodes *)
Inductive valueSource := FieldSource (field : Field) | ArrayLengthSource (field : Field).
Inductive planNode :=
| ConstantPlan (value : Truth)
| LogicalPlan (operator : LogicalOperator) (lhs rhs : planNode)
| PredicatePlan (source : valueSource) (predicate : BoundPredicate) (text : bytes).

Definition source_resolve (source : valueSource) (resolve : Resolver) : result Value :=
  match source with
  | FieldSource field => resolve field
  | ArrayLengthSource field =>
      match resolve field with
      | Fail e => Fail e
      | Ok value =>
          if v_null value then NullValue ValueUint32 false
          else match Value_Len value with
          | None => Fail (errors_New "sql: array_length resolver returned a scalar")
          | Some length => if u32_max <? length then Fail (errors_New "sql: array length exceeds UINT32") else Ok (Uint32Value length)
          end
      end
  end.
Definition source_explain (source : valueSource) : bytes :=
  match source with
  | FieldSource field => fd_Name field
  | ArrayLengthSource field => bs "array_length(" ++ fd_Name field ++ bs ")"
  end.
Definition truth_String (t : Truth) : bytes :=
  match t with TruthUnknown => bs "UNKNOWN" | TruthFalse => bs "FALSE" | TruthTrue => bs "TRUE" end.
Fixpoint explain (node : planNode) : bytes :=
  match node with
  | ConstantPlan value => truth_String value
  | LogicalPlan operator lhs rhs => bs "(" ++ explain lhs ++ bs " " ++ logical_String operator ++ bs " " ++ explain rhs ++ bs ")"
  | PredicatePlan _ _ text => text
  end.

Fixpoint evaluate (node : planNode) (resolve : Resolver) : result Truth :=
  match node with
  | ConstantPlan value => Ok value
  | LogicalPlan operator lhs rhs =>
      match evaluate lhs resolve with
      | Fail e => Fail e
      | Ok l =>
          if bool_decide (operator = LogicalAnd) && bool_decide (l = TruthFalse) then Ok TruthFalse
          else if bool_decide (operator = LogicalOr) && bool_decide (l = TruthTrue) then Ok TruthTrue
          else match evaluate rhs resolve with
          | Fail e => Fail e
          | Ok r =>
              match operator with
              | LogicalAnd => Ok (truth_And l r)
              | LogicalOr => Ok (truth_Or l r)
              | LogicalInvalid _ => Fail (errors_New "sql: invalid logical plan operator")
              end
          end
      end
  | PredicatePlan source predicate _ =>
      match source_resolve source resolve with
      | Fail e => Fail e
      | Ok value => Evaluate predicate value
      end
  end.

(** ** The optimizer *)
Definition count_contain (stats : PlanStats) : PlanStats :=
  {| st_EqualitySets := st_EqualitySets stats; st_EmptyContainRewrites := st_EmptyContainRewrites stats + 1; st_ConstantFolds := st_ConstantFolds stats |}.
Definition count_fold (stats : PlanStats) : PlanStats :=
  {| st_EqualitySets := st_EqualitySets stats; st_EmptyContainRewrites := st_EmptyContainRewrites stats; st_ConstantFolds := st_ConstantFolds stats + 1 |}.
Fixpoint rewriteBoundPlan (node : planNode) (stats : PlanStats) : planNode * PlanStats :=
  match node with
  | LogicalPlan operator lhs rhs =>
      let '(lhs, stats) := rewriteBoundPlan lhs stats in
      let '(rhs, stats) := rewriteBoundPlan rhs stats in
      (LogicalPlan operator lhs rhs, stats)
  | PredicatePlan source predicate text =>
      let operator := bp_operator predicate in
      let all := bool_decide (operator = PredicateContainAll) in
      let any := bool_decide (operator = PredicateContainAny) in
      if negb (zlen (bp_set predicate) =? 0) || (negb all && negb any) then (node, stats)
      else if (all && negb (bp_negated predicate)) || (any && bp_negated predicate)
      then (PredicatePlan source (NewNullPredicate true) (source_explain source ++ bs " IS NOT NULL"), count_contain stats)
      else (ConstantPlan TruthFalse, count_contain stats)
  | ConstantPlan _ => (node, stats)
  end.
(** The node is a [constantPlanNode] with this value. *)
Definition is_constant (node : planNode) (value : Truth) : bool :=
  match node with ConstantPlan v => bool_decide (v = value) | _ => false end.
Fixpoint optimizePlan (node : planNode) (stats : PlanStats) : planNode * PlanStats :=
  match node with
  | LogicalPlan operator lhs rhs =>
      let '(lhs, stats) := optimizePlan lhs stats in
      let '(rhs, stats) := optimizePlan rhs stats in
      match operator with
      | LogicalAnd =>
          if is_constant lhs TruthFalse || is_constant rhs TruthFalse then (ConstantPlan TruthFalse, count_fold stats)
          else if is_constant lhs TruthTrue then (rhs, count_fold stats)
          else if is_constant rhs TruthTrue then (lhs, count_fold stats)
          else (LogicalPlan operator lhs rhs, stats)
      | LogicalOr =>
          if is_constant lhs TruthTrue || is_constant rhs TruthTrue then (ConstantPlan TruthTrue, count_fold stats)
          else if is_constant lhs TruthFalse then (rhs, count_fold stats)
          else if is_constant rhs TruthFalse then (lhs, count_fold stats)
          else (LogicalPlan operator lhs rhs, stats)
      | LogicalInvalid _ => (LogicalPlan operator lhs rhs, stats)
      end
  | _ => (node, stats)
  end.
Definition optimize (node : planNode) (stats : PlanStats) : planNode * PlanStats :=
  let '(node, stats) := rewriteBoundPlan node stats in optimizePlan node stats.

(** ** Plans *)
Record Plan := { pl_root : planNode; pl_fields : list Field; pl_normalized : bytes; pl_stats : PlanStats }.
Definition plan_Evaluate (p : Plan) (resolve : Resolver) : result Truth := evaluate (pl_root p) resolve.
Definition plan_Match (p : Plan) (resolve : Resolver) : result bool :=
  match plan_Evaluate p resolve with Ok t => Ok (truth_Match t) | Fail e => Fail e end.
Definition AlwaysFalse (p : Plan) : bool := is_constant (pl_root p) TruthFalse.

(** ** Candidates

    The bitmap that a node gives, and whether it is exact; [None] is [used =
    false].  The bitmaps of a search are copies of the index's, which the code
    changes in place. *)
Notation IndexSet R := (gmap bytes (InvertedIndex R)).
Section candidates.
Context {R : Type} `{Roaring R}.

Definition all_rows (totalRows : Z) : Bitmap R := foldl (fun bitmap row => (bm_Set row bitmap).1) (NewBitmap totalRows) (seqZ 0 totalRows).
Definition indexed_search (field : Field) (indexes : IndexSet R) (search : InvertedIndex R -> result (InvertedResult R)) : result (option (Bitmap R * bool)) :=
  if negb (fd_Indexed field) then Ok None
  else match indexes !! fd_Name field with
  | None => Ok None
  | Some index =>
      match search index with
      | Fail e => Fail e
      | Ok found => if ir_Supported found then Ok ((fun bitmap => (bitmap, true)) <$> ir_Bitmap found) else Ok None
      end
  end.
Fixpoint candidatesForNode (node : planNode) (indexes : IndexSet R) (totalRows : Z) : result (option (Bitmap R * bool)) :=
  match node with
  | ConstantPlan value => Ok (Some (if bool_decide (value = TruthTrue) then all_rows totalRows else NewBitmap totalRows, true))
  | PredicatePlan (FieldSource field) predicate _ => indexed_search field indexes (Search predicate)
  | PredicatePlan (ArrayLengthSource field) predicate _ => indexed_search field indexes (SearchArrayLength predicate)
  | LogicalPlan operator lhs rhs =>
      match candidatesForNode lhs indexes totalRows with
      | Fail e => Fail e
      | Ok l =>
          match candidatesForNode rhs indexes totalRows with
          | Fail e => Fail e
          | Ok r =>
              match operator with
              | LogicalAnd =>
                  match l, r with
                  | Some (l, l_exact), Some (r, r_exact) => Ok (Some (bm_And (OperandOther r) l, l_exact && r_exact))
                  | Some (l, _), None => Ok (Some (l, false))
                  | None, Some (r, _) => Ok (Some (r, false))
                  | None, None => Ok None
                  end
              | LogicalOr =>
                  match l, r with
                  | Some (l, l_exact), Some (r, r_exact) => Ok (Some (bm_Or (OperandOther r) l, l_exact && r_exact))
                  | _, _ => Ok None
                  end
              | LogicalInvalid _ => Fail (errors_New "sql: invalid logical plan operator")
              end
          end
      end
  end.
Definition Candidates (p : Plan) (indexes : IndexSet R) (totalRows : Z) : result (option (Bitmap R * bool)) :=
  candidatesForNode (pl_root p) indexes totalRows.
End candidates.

(** ** Well-typed plans *)
Definition source_field (source : valueSource) : Field := match source with FieldSource field | ArrayLengthSource field => field end.
Definition source_kind (source : valueSource) : ValueKind := match source with FieldSource field => fd_Kind field | ArrayLengthSource _ => ValueUint32 end.
Definition source_array (source : valueSource) : bool := match source with FieldSource field => fd_Array field | ArrayLengthSource _ => false end.
Definition valid_operator (operator : LogicalOperator) : Prop := operator = LogicalAnd \/ operator = LogicalOr.
Fixpoint node_ok (node : planNode) : Prop :=
  match node with
  | ConstantPlan _ => True
  | LogicalPlan operator lhs rhs => valid_operator operator /\ node_ok lhs /\ node_ok rhs
  | PredicatePlan source predicate _ =>
      predicate_ok (source_kind source) (source_array source) predicate /\
      match source with
      | ArrayLengthSource field => fd_Array field = true /\ is_comparison (bp_operator predicate) = true
      | FieldSource _ => True
      end
  end.
Fixpoint node_fields (node : planNode) : list Field :=
  match node with
  | ConstantPlan _ => []
  | LogicalPlan _ lhs rhs => node_fields lhs ++ node_fields rhs
  | PredicatePlan source _ _ => [source_field source]
  end.
(** A row has values for the fields of a plan. *)
Definition resolves (resolve : Resolver) (field : Field) : Prop :=
  exists v, resolve field = Ok v /\ field_value (fd_Kind field) (fd_Array field) v /\ is_u32 (zlen (v_elements v)).
Definition row_ok (node : planNode) (resolve : Resolver) : Prop := Forall (resolves resolve) (node_fields node).

Lemma source_resolve_ok source resolve :
  resolves resolve (source_field source) -> (source_array source = false -> forall field, source = ArrayLengthSource field -> fd_Array field = true) ->
  exists w, source_resolve source resolve = Ok w /\ field_value (source_kind source) (source_array source) w /\
    match source with
    | FieldSource field => resolve field = Ok w
    | ArrayLengthSource field => exists v, resolve field = Ok v /\ v_null w = v_null v /\ (v_null v = false -> w = Uint32Value (zlen (v_elements v)))
    end.
Proof.
  intros (v & Hv & Hf & Hlen) Ha. destruct source as [field|field]; cbn in *; [by exists v|]. rewrite Hv. specialize (Ha eq_refl field eq_refl).
  destruct Hf as [F1 F2 F3]. destruct (v_null v) eqn:Hn.
  - eexists. split; [reflexivity|]. split; [by split; [apply (BuiltNull ValueUint32 false)|..]|]. exists v. by rewrite Hn.
  - unfold Value_Len. rewrite Hn, F3, Ha. cbn. unfold is_u32, u32_max in *. rewrite (proj2 (Z.ltb_ge _ _)) by lia.
    eexists. split; [done|]. split; [split; [by apply BuiltScalar, ScalarUint32|done..]|]. by exists v.
Qed.

(** What a plan answers on a row. *)
Definition combine (operator : LogicalOperator) (a b : Truth) : Truth :=
  match operator with LogicalAnd => truth_And a b | LogicalOr => truth_Or a b | LogicalInvalid _ => TruthUnknown end.
Lemma evaluate_logical operator lhs rhs resolve a b :
  valid_operator operator -> evaluate lhs resolve = Ok a -> evaluate rhs resolve = Ok b ->
  evaluate (LogicalPlan operator lhs rhs) resolve = Ok (combine operator a b).
Proof. intros [-> | ->] Ha Hb; cbn [evaluate]; rewrite Ha; destruct a; try done; cbn; rewrite Hb; by destruct b. Qed.
(** A well-typed plan answers, on a row that has its fields. *)
Lemma evaluate_ok node resolve : node_ok node -> row_ok node resolve -> exists t, evaluate node resolve = Ok t.
Proof.
  unfold row_ok. induction node as [value|operator lhs IHl rhs IHr|source predicate text]; cbn [node_ok node_fields]; intros Hok Hrow.
  - by exists value.
  - destruct Hok as (Hop & Hl & Hr). apply Forall_app in Hrow as [Rl Rr]. destruct (IHl Hl Rl) as [a Ha], (IHr Hr Rr) as [b Hb].
    exists (combine operator a b). by apply evaluate_logical.
  - destruct Hok as [Hp Hs]. apply Forall_cons in Hrow as [Hrow _].
    destruct (source_resolve_ok source resolve Hrow) as (w & Hw & Hf & _); [intros _ field ->; apply Hs|]. cbn [evaluate]. rewrite Hw.
    rewrite (Evaluate_meaning _ _ _ _ Hp Hf). by eexists.
Qed.
Definition matches (node : planNode) (resolve : Resolver) (b : bool) : Prop := exists t, evaluate node resolve = Ok t /\ truth_Match t = b.
Lemma matches_fun node resolve a b : matches node resolve a -> matches node resolve b -> a = b.
Proof. intros (t & Ht & <-) (u & Hu & <-). rewrite Ht in Hu. by injection Hu as ->. Qed.
Definition combine_match (operator : LogicalOperator) (a b : bool) : bool :=
  match operator with LogicalAnd => a && b | LogicalOr => a || b | LogicalInvalid _ => false end.
Lemma matches_logical operator lhs rhs resolve a b :
  valid_operator operator -> matches lhs resolve a -> matches rhs resolve b -> matches (LogicalPlan operator lhs rhs) resolve (combine_match operator a b).
Proof.
  intros Hop (t & Ht & <-) (u & Hu & <-). exists (combine operator t u). split; [by apply evaluate_logical|].
  destruct Hop as [-> | ->]; by destruct t, u.
Qed.
Lemma matches_total node resolve : node_ok node -> row_ok node resolve -> exists b, matches node resolve b.
Proof. intros H1 H2. destruct (evaluate_ok node resolve H1 H2) as [t Ht]. by exists (truth_Match t), t. Qed.
Lemma matches_logical_inv operator lhs rhs resolve c :
  node_ok (LogicalPlan operator lhs rhs) -> row_ok (LogicalPlan operator lhs rhs) resolve -> matches (LogicalPlan operator lhs rhs) resolve c ->
  exists a b, matches lhs resolve a /\ matches rhs resolve b /\ c = combine_match operator a b.
Proof.
  intros (Hop & Hl & Hr) Hrow Hm. apply Forall_app in Hrow as [Rl Rr]. destruct (matches_total lhs resolve Hl Rl) as [a Ha], (matches_total rhs resolve Hr Rr) as [b Hb].
  exists a, b. split; [done|]. split; [done|]. by apply (matches_fun (LogicalPlan operator lhs rhs) resolve); [|apply matches_logical].
Qed.

(** ** The optimizer keeps the matches *)
Definition refines (node node' : planNode) : Prop :=
  node_ok node' /\ node_fields node' ⊆ node_fields node /\ forall resolve b, row_ok node resolve -> matches node resolve b -> matches node' resolve b.
Lemma refines_refl node : node_ok node -> refines node node.
Proof. by split; [|split]. Qed.
Lemma refines_trans a b c : refines a b -> refines b c -> refines a c.
Proof.
  intros (H1 & H2 & H3) (H4 & H5 & H6). split; [done|]. split; [set_solver|]. intros resolve m Hrow Hm. apply H6; [|by apply H3].
  unfold row_ok in *. rewrite Forall_forall in *. set_solver.
Qed.
Lemma refines_logical operator lhs rhs lhs' rhs' :
  node_ok (LogicalPlan operator lhs rhs) -> refines lhs lhs' -> refines rhs rhs' -> refines (LogicalPlan operator lhs rhs) (LogicalPlan operator lhs' rhs').
Proof.
  intros Hok (L1 & L2 & L3) (R1 & R2 & R3). split; [by destruct Hok|]. split; [cbn; set_solver|]. intros resolve c Hrow Hm.
  destruct (matches_logical_inv _ _ _ _ _ Hok Hrow Hm) as (a & b & Ha & Hb & ->). apply Forall_app in Hrow as [Hl Hr].
  apply matches_logical; [by apply Hok|by apply L3|by apply R3].
Qed.

Lemma matches_predicate source predicate text resolve b :
  node_ok (PredicatePlan source predicate text) -> row_ok (PredicatePlan source predicate text) resolve ->
  matches (PredicatePlan source predicate text) resolve b <->
  exists w, source_resolve source resolve = Ok w /\ field_value (source_kind source) (source_array source) w /\ truth_Match (predicate_meaning predicate w) = b.
Proof.
  intros [Hp Hs] Hrow. apply Forall_cons in Hrow as [Hrow _].
  destruct (source_resolve_ok source resolve Hrow) as (w & Hw & Hf & _); [intros _ field ->; apply Hs|].
  unfold matches. cbn [evaluate]. rewrite Hw, (Evaluate_meaning _ _ _ _ Hp Hf). split.
  - intros (t & [= <-] & Hm). by exists w.
  - intros (w' & [= <-] & _ & Hm). by eexists.
Qed.
Lemma matches_constant value resolve b : matches (ConstantPlan value) resolve b <-> truth_Match value = b.
Proof. split; [by intros (t & [= <-] & H)|]. intros H. by exists value. Qed.

Lemma rewrite_empty_contain source predicate text :
  node_ok (PredicatePlan source predicate text) -> bp_set predicate = [] ->
  bp_operator predicate = PredicateContainAll \/ bp_operator predicate = PredicateContainAny ->
  let keep := xorb (bp_negated predicate) (bool_decide (bp_operator predicate = PredicateContainAll)) in
  refines (PredicatePlan source predicate text)
    (if keep then PredicatePlan source (NewNullPredicate true) (source_explain source ++ bs " IS NOT NULL") else ConstantPlan TruthFalse).
Proof.
  intros Hok Hset Hop keep. assert (Hcmp : is_comparison (bp_operator predicate) = false) by (by destruct Hop as [-> | ->]).
  assert (node_ok (PredicatePlan source (NewNullPredicate true) (source_explain source ++ bs " IS NOT NULL"))) as Hnull.
  { destruct Hok as [_ Hs]. split; [done|]. destruct source; [done|]. destruct Hs as [_ Hs]. congruence. }
  assert (Hholds : forall w, predicate_holds predicate w = keep).
  { intros w. unfold predicate_holds, keep. rewrite Hset. by destruct Hop as [-> | ->], (bp_negated predicate). }
  assert (Hmatch : forall w, truth_Match (predicate_meaning predicate w) = negb (v_null w) && keep).
  { intros w. unfold predicate_meaning. rewrite Hholds, bool_decide_false by (by destruct Hop as [-> | ->]). by destruct (v_null w), keep. }
  destruct keep eqn:Ek; (split; [done|]); (split; [cbn; set_solver|]); intros resolve b Hrow Hm; apply matches_predicate in Hm as (w & Hw & Hf & Hb); try done;
    rewrite Hmatch in Hb; subst b.
  - apply matches_predicate; [done..|]. exists w. split; [done|]. split; [done|]. unfold predicate_meaning. cbn. by destruct (v_null w).
  - rewrite andb_false_r. by apply matches_constant.
Qed.
Lemma rewriteBoundPlan_refines node stats : node_ok node -> refines node (rewriteBoundPlan node stats).1.
Proof.
  revert stats. induction node as [value|operator lhs IHl rhs IHr|source predicate text]; intros stats Hok; cbn [rewriteBoundPlan].
  - by apply refines_refl.
  - specialize (IHl stats (proj1 (proj2 Hok))). destruct (rewriteBoundPlan lhs stats) as [lhs' stats1].
    specialize (IHr stats1 (proj2 (proj2 Hok))). destruct (rewriteBoundPlan rhs stats1) as [rhs' stats2]. by apply refines_logical.
  - destruct (negb (zlen (bp_set predicate) =? 0) || _) eqn:E; [by apply refines_refl|]. apply orb_false_iff in E as [E1 E2].
    apply negb_false_iff, Z.eqb_eq, zlen_0_nil in E1.
    assert (bp_operator predicate = PredicateContainAll \/ bp_operator predicate = PredicateContainAny) as Hop.
    { apply andb_false_iff in E2 as [E2|E2]; apply negb_false_iff, bool_decide_eq_true in E2; auto. }
    pose proof (rewrite_empty_contain source predicate text Hok E1 Hop) as Href. cbv zeta in Href.
    destruct Hop as [Ho|Ho]; rewrite Ho in *; destruct (bp_negated predicate); exact Href.
Qed.

Lemma is_constant_spec node value : is_constant node value = true -> node = ConstantPlan value.
Proof. destruct node; cbn; try done. intros H. by apply bool_decide_eq_true in H as ->. Qed.
(** A constant side decides the whole or leaves the other side. *)
Lemma refines_by_match node node' :
  node_ok node' -> node_fields node' ⊆ node_fields node ->
  (forall resolve b, row_ok node resolve -> row_ok node' resolve -> matches node resolve b -> matches node' resolve b) -> refines node node'.
Proof.
  intros H1 H2 H3. split; [done|]. split; [done|]. intros resolve b Hrow. apply H3; [done|]. unfold row_ok in *. rewrite Forall_forall in *. set_solver.
Qed.
Lemma fold_constant operator lhs rhs value node' :
  node_ok (LogicalPlan operator lhs rhs) -> is_constant lhs value = true \/ is_constant rhs value = true ->
  node_ok node' -> node_fields node' ⊆ node_fields lhs ++ node_fields rhs ->
  (forall resolve a b, matches lhs resolve a -> matches rhs resolve b -> a = truth_Match value \/ b = truth_Match value ->
     (is_constant lhs value = true -> a = truth_Match value) -> (is_constant rhs value = true -> b = truth_Match value) ->
     matches node' resolve (combine_match operator a b)) ->
  refines (LogicalPlan operator lhs rhs) node'.
Proof.
  intros Hok Hc Hn Hf Hm. apply refines_by_match; [done..|]. intros resolve c Hrow _ H.
  destruct (matches_logical_inv _ _ _ _ _ Hok Hrow H) as (a & b & Ha & Hb & ->).
  assert (Hl : is_constant lhs value = true -> a = truth_Match value).
  { intros Hl. apply is_constant_spec in Hl as ->. symmetry. by apply matches_constant in Ha. }
  assert (Hr : is_constant rhs value = true -> b = truth_Match value).
  { intros Hr. apply is_constant_spec in Hr as ->. symmetry. by apply matches_constant in Hb. }
  apply Hm; try done. destruct Hc as [Hc|Hc]; auto.
Qed.
Lemma optimize_and lhs rhs stats :
  node_ok lhs -> node_ok rhs ->
  refines (LogicalPlan LogicalAnd lhs rhs)
    (if is_constant lhs TruthFalse || is_constant rhs TruthFalse then (ConstantPlan TruthFalse, count_fold stats)
     else if is_constant lhs TruthTrue then (rhs, count_fold stats)
     else if is_constant rhs TruthTrue then (lhs, count_fold stats)
     else (LogicalPlan LogicalAnd lhs rhs, stats)).1.
Proof.
  intros Hl Hr. assert (node_ok (LogicalPlan LogicalAnd lhs rhs)) as Hok by (split; [by left|done]).
  case_if; [|case_if; [|case_if; [|by apply refines_refl]]]; cbn [fst].
  - apply orb_true_iff in E. apply (fold_constant _ _ _ TruthFalse); try done; [set_solver|]. intros resolve a b _ _ [->| ->] _ _; apply matches_constant; [done|].
    by rewrite andb_false_r.
  - apply (fold_constant _ _ _ TruthTrue); [done|by left|done|set_solver|]. intros resolve a b _ Hb _ Ha _. cbn. by rewrite (Ha E0).
  - apply (fold_constant _ _ _ TruthTrue); [done|by right|done|set_solver|]. intros resolve a b Ha _ _ _ Hb. cbn. by rewrite (Hb E1), andb_true_r.
Qed.
Lemma optimize_or lhs rhs stats :
  node_ok lhs -> node_ok rhs ->
  refines (LogicalPlan LogicalOr lhs rhs)
    (if is_constant lhs TruthTrue || is_constant rhs TruthTrue then (ConstantPlan TruthTrue, count_fold stats)
     else if is_constant lhs TruthFalse then (rhs, count_fold stats)
     else if is_constant rhs TruthFalse then (lhs, count_fold stats)
     else (LogicalPlan LogicalOr lhs rhs, stats)).1.
Proof.
  intros Hl Hr. assert (node_ok (LogicalPlan LogicalOr lhs rhs)) as Hok by (split; [by right|done]).
  case_if; [|case_if; [|case_if; [|by apply refines_refl]]]; cbn [fst].
  - apply orb_true_iff in E. apply (fold_constant _ _ _ TruthTrue); try done; [set_solver|]. intros resolve a b _ _ [->| ->] _ _; apply matches_constant; [done|].
    by rewrite orb_true_r.
  - apply (fold_constant _ _ _ TruthFalse); [done|by left|done|set_solver|]. intros resolve a b _ Hb _ Ha _. cbn. by rewrite (Ha E0).
  - apply (fold_constant _ _ _ TruthFalse); [done|by right|done|set_solver|]. intros resolve a b Ha _ _ _ Hb. cbn. by rewrite (Hb E1), orb_false_r.
Qed.
Lemma optimizePlan_refines node stats : node_ok node -> refines node (optimizePlan node stats).1.
Proof.
  revert stats. induction node as [value|operator lhs IHl rhs IHr|source predicate text]; intros stats Hok; cbn [optimizePlan]; try by apply refines_refl.
  destruct Hok as (Hop & Hl & Hr). specialize (IHl stats Hl). destruct (optimizePlan lhs stats) as [lhs' stats1].
  specialize (IHr stats1 Hr). destruct (optimizePlan rhs stats1) as [rhs' stats2]. cbn [fst] in *.
  apply refines_trans with (LogicalPlan operator lhs' rhs'); [by apply refines_logical|]. destruct IHl as [Hl' _], IHr as [Hr' _].
  destruct Hop as [-> | ->]; [by apply optimize_and|by apply optimize_or].
Qed.
Lemma optimize_refines node stats : node_ok node -> refines node (optimize node stats).1.
Proof.
  intros Hok. unfold optimize. pose proof (rewriteBoundPlan_refines node stats Hok) as H1. destruct (rewriteBoundPlan node stats) as [node1 stats1]. cbn [fst] in H1.
  apply refines_trans with node1; [done|]. by apply optimizePlan_refines, H1.
Qed.

(** C18: the optimizer is sound.  On every row that has values for the fields of a
    well-typed plan, the optimized plan answers without an error and keeps the row
    exactly when the plan keeps it; it is well typed itself and needs no other field. *)
Theorem filter_optimizer_sound node stats resolve :
  node_ok node -> row_ok node resolve ->
  let node' := (optimize node stats).1 in
  node_ok node' /\ node_fields node' ⊆ node_fields node /\
  exists t t', evaluate node resolve = Ok t /\ evaluate node' resolve = Ok t' /\ truth_Match t' = truth_Match t.
Proof.
  intros Hok Hrow node'. destruct (optimize_refines node stats Hok) as (H1 & H2 & H3). split; [done|]. split; [done|].
  destruct (evaluate_ok node resolve Hok Hrow) as [t Ht]. destruct (H3 resolve (truth_Match t) Hrow) as (t' & Ht' & Hm); [by exists t|]. by exists t, t'.
Qed.

(** ** Candidates are exact *)
Section candidate_rows.
Context {R : Type} `{Hroaring : Roaring R} {Hlaws : RoaringLaws R}.
Implicit Types (indexes : IndexSet R).

(** An index that was built from the values of a field in the rows of a snapshot. *)
Definition built_index (index : InvertedIndex R) (field : Field) (totalRows : Z) (rows : Z -> Resolver) : Prop :=
  exists entries i0 i, NewInvertedIndex field = Ok i0 /\ Forall entry_ok entries /\ add_rows entries i0 = Ok i /\ index = Seal i /\
    forall row v, (row, v) ∈ entries <-> 0 <= row < totalRows /\ rows row field = Ok v.
Definition indexes_ok indexes (node : planNode) (totalRows : Z) (rows : Z -> Resolver) : Prop :=
  forall field index, field ∈ node_fields node -> indexes !! fd_Name field = Some index -> built_index index field totalRows rows.
Definition matching (node : planNode) (totalRows : Z) (rows : Z -> Resolver) (row : Z) : Prop :=
  0 <= row < totalRows /\ matches node (rows row) true.
(** A bitmap that misses no matching row, and has no other when it is exact. *)
Definition candidates_ok (node : planNode) (totalRows : Z) (rows : Z -> Resolver) (c : option (Bitmap R * bool)) : Prop :=
  match c with
  | None => True
  | Some (b, exact) =>
      exists P, bitmap_of b P /\ (forall row, P row -> 0 <= row < totalRows) /\ (forall row, matching node totalRows rows row -> P row) /\
        (exact = true -> forall row, P row -> matching node totalRows rows row)
  end.

Lemma all_rows_ok totalRows : is_u64 totalRows -> bitmap_of (all_rows (R := R) totalRows) (fun row => 0 <= row < totalRows).
Proof.
  intros Ht. unfold all_rows. destruct (NewBitmap_inv (R := R) totalRows Ht) as [H1 H2].
  cut (forall l (b : Bitmap R) P, bitmap_of b P -> Forall is_u64 l -> bitmap_of (foldl (fun bitmap row => (bm_Set row bitmap).1) b l) (fun r => P r \/ r ∈ l)).
  { intros Hl. eapply bitmap_of_iff; [|apply (Hl _ _ (fun _ => False))].
    - intros r. cbn beta. rewrite elem_of_seqZ. split; [intros [[]|?]; lia|right; lia].
    - split; [done|]. intros r. rewrite H2. set_solver.
    - apply Forall_forall. intros r Hr. apply elem_of_seqZ in Hr. unfold is_u64 in *. lia. }
  induction l as [|row l IH]; intros b P Hb Hf.
  - eapply bitmap_of_iff; [|exact Hb]. intros r. split; [by left|]. by intros [?|?%elem_of_nil].
  - apply Forall_cons in Hf as [Hr Hf]. cbn [foldl]. eapply bitmap_of_iff; [|apply IH; [by apply (bitmap_of_set b P row)|done]]. intros r. rewrite elem_of_cons. tauto.
Qed.
Lemma built_rows index field totalRows rows :
  built_index index field totalRows rows ->
  exists values, iv_inv index values /\ iv_sealed index = true /\ iv_field index = field /\
    forall row v, values !! row = Some v <-> 0 <= row < totalRows /\ rows row field = Ok v.
Proof.
  intros (entries & i0 & i & H1 & H2 & H3 & -> & H4). destruct (added_rows field entries i0 i H1 H2 H3) as (values & G1 & G2 & G3 & G4).
  exists values. split; [done|]. split; [done|]. split; [done|]. intros row v. by rewrite G4.
Qed.
(** The rows that an exact search found, against those that the plan keeps. *)
Lemma search_candidates node totalRows rows (found : InvertedResult R) P :
  search_ok P found -> (forall row, P row <-> matching node totalRows rows row) ->
  candidates_ok node totalRows rows (if ir_Supported found then (fun bitmap => (bitmap, true)) <$> ir_Bitmap found else None).
Proof.
  intros Hs HP. unfold search_ok in Hs. destruct (ir_Supported found); [|done]. destruct Hs as (b & -> & Hb). exists P. split; [done|].
  split; [intros row Hr; by apply HP in Hr as [? _]|]. split; [intros row Hr; by apply HP|]. intros _ row Hr. by apply HP.
Qed.

Lemma field_candidates field predicate text indexes totalRows rows :
  let node := PredicatePlan (FieldSource field) predicate text in
  node_ok node -> (forall row, 0 <= row < totalRows -> row_ok node (rows row)) -> indexes_ok indexes node totalRows rows ->
  exists c, candidatesForNode node indexes totalRows = Ok c /\ candidates_ok node totalRows rows c.
Proof.
  intros node Hok Hrows Hix. cbn [node candidatesForNode]. unfold indexed_search. case_if; [by exists None|].
  destruct (indexes !! fd_Name field) as [index|] eqn:Ei; [|by exists None].
  destruct (built_rows index field totalRows rows) as (values & Hi & Hs & Hf & Hv); [apply Hix; [cbn; set_solver|done]|].
  destruct (Search_exact index values predicate Hi Hs) as (found & -> & _ & Hfound); [rewrite Hf; apply Hok|].
  pose proof (search_candidates node totalRows rows found _ Hfound) as Hc. destruct (ir_Supported found); (eexists; split; [reflexivity|]); [|done].
  apply Hc. intros row. unfold true_rows, row_with, matching. split.
  - intros (v & Hval & Hm). apply Hv in Hval as [Hrow Hval]. split; [done|]. apply matches_predicate; [done|by apply Hrows|]. exists v. split; [done|].
    split; [|by rewrite Hm]. pose proof (Hrows row Hrow) as Hr. apply Forall_cons in Hr as [(w & Hw & Hfw & _) _]. cbn in Hw. rewrite Hval in Hw. by injection Hw as <-.
  - intros [Hrow Hm]. apply matches_predicate in Hm as (v & Hval & _ & Hm); [|done|by apply Hrows]. exists v. split; [by apply Hv|].
    unfold truth_Match in Hm. by apply bool_decide_eq_true in Hm.
Qed.
Lemma length_candidates field predicate text indexes totalRows rows :
  let node := PredicatePlan (ArrayLengthSource field) predicate text in
  node_ok node -> (forall row, 0 <= row < totalRows -> row_ok node (rows row)) -> indexes_ok indexes node totalRows rows ->
  exists c, candidatesForNode node indexes totalRows = Ok c /\ candidates_ok node totalRows rows c.
Proof.
  intros node Hok Hrows Hix. cbn [node candidatesForNode]. unfold indexed_search. case_if; [by exists None|].
  destruct (indexes !! fd_Name field) as [index|] eqn:Ei; [|by exists None]. assert (Hok' := Hok). destruct Hok' as (Hp & Harr & Hop).
  destruct (built_rows index field totalRows rows) as (values & Hi & Hs & Hf & Hv); [apply Hix; [cbn; set_solver|done]|].
  destruct (SearchArrayLength_exact index values predicate Hi Hs) as (found & -> & Hsup & Hfound); [by rewrite Hf|done..|].
  pose proof (search_candidates node totalRows rows found (holds_rows values (length_holds predicate)) Hfound) as Hc. rewrite Hsup in *. eexists. split; [reflexivity|].
  apply Hc. intros row. unfold holds_rows, row_with, matching, length_holds.
  assert (Hnn : forall w, truth_Match (predicate_meaning predicate w) = negb (v_null w) && predicate_holds predicate w).
  { intros w. unfold predicate_meaning. rewrite bool_decide_false by (intros He; by rewrite He in Hop). by destruct (v_null w), (predicate_holds predicate w). }
  assert (Hsrc : 0 <= row < totalRows -> exists v w, rows row field = Ok v /\ source_resolve (ArrayLengthSource field) (rows row) = Ok w /\
    field_value ValueUint32 false w /\ v_null w = v_null v /\ (v_null v = false -> w = Uint32Value (zlen (v_elements v)))).
  { intros Hrow. assert (resolves (rows row) field) as Hres by (pose proof (Hrows row Hrow) as Hr; by apply Forall_cons in Hr as [? _]).
    destruct (source_resolve_ok (ArrayLengthSource field) (rows row) Hres) as (w & Hw & Hfw & v & H1 & H2 & H3); [by intros _ f [= <-]|]. by exists v, w. }
  split.
  - intros (v & Hval & Hn & Hm). apply Hv in Hval as [Hrow Hval]. split; [done|]. destruct (Hsrc Hrow) as (v' & w & H1 & H2 & H3 & H4 & H5).
    rewrite Hval in H1. injection H1 as <-. apply matches_predicate; [done|by apply Hrows|]. exists w. split; [done|]. split; [done|].
    by rewrite Hnn, H4, Hn, (H5 Hn).
  - intros [Hrow Hm]. destruct (Hsrc Hrow) as (v & w & H1 & H2 & H3 & H4 & H5). apply matches_predicate in Hm as (w' & Hw' & _ & Hm); [|done|by apply Hrows].
    rewrite H2 in Hw'. injection Hw' as <-. rewrite Hnn, andb_true_iff, H4 in Hm. destruct Hm as [Hn Hm]. apply negb_true_iff in Hn.
    exists v. split; [by apply Hv|]. split; [done|]. by rewrite <- (H5 Hn).
Qed.

Lemma candidates_spec node indexes totalRows rows :
  node_ok node -> is_u64 totalRows -> (forall row, 0 <= row < totalRows -> row_ok node (rows row)) -> indexes_ok indexes node totalRows rows ->
  exists c, candidatesForNode node indexes totalRows = Ok c /\ candidates_ok node totalRows rows c.
Proof.
  intros Hok Ht. induction node as [value|operator lhs IHl rhs IHr|source predicate text]; intros Hrows Hix.
  - eexists. split; [done|]. cbn. case_bool_decide as Hv.
    + exists (fun row => 0 <= row < totalRows). split; [by apply all_rows_ok|]. split; [done|]. split; [by intros row [? _]|]. intros _ row Hr.
      split; [done|]. apply matches_constant. by rewrite Hv.
    + exists (fun _ => False). split; [|split; [done|split; [|done]]].
      * destruct (NewBitmap_inv (R := R) totalRows Ht) as [H1 H2]. split; [done|]. intros r. rewrite H2. set_solver.
      * intros row [_ Hm]. apply matches_constant in Hm. unfold truth_Match in Hm. by apply bool_decide_eq_true in Hm.
  - assert (Hok' := Hok). destruct Hok' as (Hop & Hl & Hr). cbn [candidatesForNode].
    assert (Hm : forall row, 0 <= row < totalRows -> exists a b, matches lhs (rows row) a /\ matches rhs (rows row) b /\
      (matches (LogicalPlan operator lhs rhs) (rows row) true <-> combine_match operator a b = true)).
    { intros row Hrow. destruct (matches_total _ _ Hok (Hrows row Hrow)) as [c Hc].
      destruct (matches_logical_inv _ _ _ _ _ Hok (Hrows row Hrow) Hc) as (a & b & Ha & Hb & ->). exists a, b. split; [done|]. split; [done|].
      split; [intros Htrue; by apply (matches_fun _ _ _ _ Hc Htrue)|intros <-; done]. }
    destruct (IHl Hl) as (cl & -> & Cl); [intros row Hrow; by apply (Forall_app _ (node_fields lhs) (node_fields rhs)), Hrows|intros f ix Hf; apply Hix; cbn; set_solver|].
    destruct (IHr Hr) as (cr & -> & Cr); [intros row Hrow; by apply (Forall_app _ (node_fields lhs) (node_fields rhs)), Hrows|intros f ix Hf; apply Hix; cbn; set_solver|].
    assert (Hlm : forall row b, 0 <= row < totalRows -> matches lhs (rows row) b -> b = true <-> matching lhs totalRows rows row).
    { intros row b Hrow Hb. split; [intros ->; by split|intros [_ H]; by apply (matches_fun _ _ _ _ Hb H)]. }
    assert (Hrm : forall row b, 0 <= row < totalRows -> matches rhs (rows row) b -> b = true <-> matching rhs totalRows rows row).
    { intros row b Hrow Hb. split; [intros ->; by split|intros [_ H]; by apply (matches_fun _ _ _ _ Hb H)]. }
    assert (Hmatch : forall row, matching (LogicalPlan operator lhs rhs) totalRows rows row <->
      match operator with LogicalAnd => matching lhs totalRows rows row /\ matching rhs totalRows rows row
      | _ => matching lhs totalRows rows row \/ matching rhs totalRows rows row end).
    { intros row. destruct (decide (0 <= row < totalRows)) as [Hrow|Hrow].
      - destruct (Hm row Hrow) as (a & b & Ha & Hb & H). pose proof (Hlm row a Hrow Ha) as La. pose proof (Hrm row b Hrow Hb) as Lb.
        unfold matching in *. rewrite H. destruct Hop as [-> | ->]; cbn; rewrite ?andb_true_iff, ?orb_true_iff; tauto.
      - unfold matching. destruct Hop as [-> | ->]; tauto. }
    clear Hm Hlm Hrm IHl IHr Hix.
    destruct Hop as [-> | ->], cl as [[l le]|], cr as [[r re]|]; (eexists; split; [reflexivity|]); try done.
    + destruct Cl as (P & P1 & P2 & P3 & P4), Cr as (Q & Q1 & Q2 & Q3 & Q4). exists (fun row => P row /\ Q row). split; [by apply bitmap_of_and|].
      split; [naive_solver|]. split; [intros row; rewrite Hmatch; naive_solver|]. rewrite andb_true_iff. intros [-> ->] row. rewrite Hmatch. naive_solver.
    + destruct Cl as (P & P1 & P2 & P3 & _). exists P. split; [done|]. split; [done|]. split; [|done]. intros row. rewrite Hmatch. naive_solver.
    + destruct Cr as (Q & Q1 & Q2 & Q3 & _). exists Q. split; [done|]. split; [done|]. split; [|done]. intros row. rewrite Hmatch. naive_solver.
    + destruct Cl as (P & P1 & P2 & P3 & P4), Cr as (Q & Q1 & Q2 & Q3 & Q4). exists (fun row => P row \/ Q row). split; [by apply bitmap_of_or|].
      split; [naive_solver|]. split; [intros row; rewrite Hmatch; naive_solver|]. rewrite andb_true_iff. intros [-> ->] row. rewrite Hmatch. naive_solver.
  - destruct source as [field|field]; [by apply field_candidates|by apply length_candidates].
Qed.

(** C17: the candidate rows are safe, and exact when they say so.  For a well-typed
    plan over rows that have its fields, with indexes that were built from these rows,
    [Candidates] succeeds; the bitmap it gives has only rows of the snapshot and every
    row that the plan keeps, and when it is exact it has exactly these rows. *)
Theorem plan_candidates_exact p indexes totalRows rows :
  node_ok (pl_root p) -> is_u64 totalRows -> (forall row, 0 <= row < totalRows -> row_ok (pl_root p) (rows row)) ->
  indexes_ok indexes (pl_root p) totalRows rows ->
  exists c, Candidates p indexes totalRows = Ok c /\
    forall b exact, c = Some (b, exact) -> bm_inv b /\
      (forall row, row ∈ bm_set b -> 0 <= row < totalRows) /\
      (forall row, 0 <= row < totalRows -> plan_Match p (rows row) = Ok true -> row ∈ bm_set b) /\
      (exact = true -> forall row, row ∈ bm_set b <-> 0 <= row < totalRows /\ plan_Match p (rows row) = Ok true).
Proof.
  intros Hok Ht Hrows Hix. destruct (candidates_spec (pl_root p) indexes totalRows rows Hok Ht Hrows Hix) as (c & Hc & Hcand).
  exists c. split; [done|]. intros b exact ->. destruct Hcand as (P & [Hinv Hset] & H1 & H2 & H3).
  assert (Hm : forall row, matches (pl_root p) (rows row) true <-> plan_Match p (rows row) = Ok true).
  { intros row. unfold plan_Match, plan_Evaluate, matches. destruct (evaluate (pl_root p) (rows row)) as [t|]; [|split; [by intros (? & ? & _)|done]].
    split; [by intros (? & [= <-] & ->)|]. intros [= H]. by exists t. }
  split; [done|]. split; [intros row Hr; by apply H1, Hset|].
  split; [intros row Hrow Hr; apply Hset, H2; split; [done|by apply Hm]|]. intros Hex row. rewrite Hset, <- Hm. split.
  - intros Hr. split; [by apply H1|by apply H3].
  - intros Hr. by apply H2.
Qed.
End candidate_rows.

(** ** Witnesses *)
Definition ex_resolver (row : Z) : Resolver := fun field =>
  if bool_decide (fd_Name field = fd_Name ex_field) then Ok (if row =? 1 then MkValue ValueInt32 true false [] [] false 0 0 0 [] else Int32Value (row + 4))
  else Fail (errors_New "no such field").
Definition ex_comparison : BoundPredicate :=
  {| bp_operator := PredicateGE; bp_negated := false; bp_right := Int32Value 5; bp_set := []; bp_like := None |}.
Definition ex_node : planNode := PredicatePlan (FieldSource ex_field) ex_comparison [].
Lemma ex_node_ok : node_ok ex_node.
Proof. split; [|done]. split; [done|]. split; [split; [apply ScalarInt32; unfold is_i32; lia|done]|]. done. Qed.
Definition ex_rows : list (Z * Value) := (fun row => (row, if row =? 1 then MkValue ValueInt32 true false [] [] false 0 0 0 [] else Int32Value (row + 4))) <$> seqZ 0 3.
Lemma ex_resolves row : 0 <= row < 3 -> row_ok ex_node (ex_resolver row).
Proof.
  intros Hr. constructor; [|constructor]. eexists. split; [reflexivity|]. case_if; (split; [|done]); (split; [|done..]).
  - by apply (BuiltNull ValueInt32 false).
  - apply BuiltScalar, ScalarInt32. unfold is_i32. lia.
Qed.
Lemma ex_rows_ok : Forall entry_ok ex_rows.
Proof.
  unfold ex_rows. apply Forall_fmap, Forall_forall. intros row Hr. apply elem_of_seqZ in Hr. pose proof (ex_resolves row Hr) as Hres.
  apply Forall_cons in Hres as [(v & Hv & [Hb _ _] & Hl) _]. injection Hv as <-. split; [unfold is_u64, u64_max; cbn; lia|by split].
Qed.
Lemma ex_built i0 i : NewInvertedIndex (R := gset Z) ex_field = Ok i0 -> add_rows ex_rows i0 = Ok i -> built_index (Seal i) ex_field 3 ex_resolver.
Proof.
  intros H0 H1. exists ex_rows, i0, i. split; [done|]. split; [apply ex_rows_ok|]. split; [done|]. split; [done|]. intros row v. unfold ex_rows.
  rewrite list_elem_of_fmap. setoid_rewrite elem_of_seqZ. change (ex_resolver row ex_field) with (Ok (if row =? 1 then MkValue ValueInt32 true false [] [] false 0 0 0 [] else Int32Value (row + 4))).
  split; [intros (x & [= -> ->] & Hx); by split|intros [Hr [= <-]]; by exists row].
Qed.
Definition no_stats : PlanStats := {| st_EqualitySets := 0; st_EmptyContainRewrites := 0; st_ConstantFolds := 0 |}.
Definition ex_plan : Plan := {| pl_root := ex_node; pl_fields := [ex_field]; pl_normalized := []; pl_stats := no_stats |}.
Lemma plan_candidates_exact_witness :
  exists i b, built_index (Seal i) ex_field 3 ex_resolver /\ Candidates ex_plan {[fd_Name ex_field := Seal i]} 3 = Ok (Some (b, true)) /\
    2 ∈ bm_set (R := gset Z) b /\ 1 ∉ bm_set b.
Proof.
  destruct (NewInvertedIndex (R := gset Z) ex_field) as [i0|] eqn:E0; [|done]. destruct (add_rows ex_rows i0) as [i|] eqn:E1.
  2:{ exfalso. assert (is_ok (add_rows ex_rows i0) = true) as H; [|by rewrite E1 in H]. clear E1. injection E0 as <-. vm_compute. reflexivity. }
  assert (Hb := ex_built i0 i E0 E1).
  assert (Hc : match add_rows ex_rows i0 with
    | Ok i => match Candidates ex_plan {[fd_Name ex_field := Seal i]} 3 with Ok (Some (_, true)) => true | _ => false end
    | Fail _ => false end = true) by (injection E0 as <-; vm_compute; reflexivity).
  rewrite E1 in Hc. destruct (plan_candidates_exact ex_plan {[fd_Name ex_field := Seal i]} 3 ex_resolver) as (c & H1 & H2).
  - apply ex_node_ok.
  - done.
  - apply ex_resolves.
  - intros field index Hf Hix. apply list_elem_of_singleton in Hf as ->. assert (Seal i = index) as <- by (cbn [source_field] in Hix; rewrite lookup_singleton_eq in Hix; by injection Hix). exact Hb.
  - rewrite H1 in Hc. destruct c as [[b exact]|]; [|done]. destruct exact; [|done]. destruct (H2 b true eq_refl) as (_ & _ & _ & H3). specialize (H3 eq_refl).
    exists i, b. split; [done|]. split; [done|]. rewrite !H3. split; [split; [lia|reflexivity]|]. by intros [_ H].
Defined.
Definition ex_empty_contain : planNode :=
  LogicalPlan LogicalOr (PredicatePlan (FieldSource ex_array_field) {| bp_operator := PredicateContainAll; bp_negated := true; bp_right := no_value; bp_set := []; bp_like := None |} [])
    ex_node.
Lemma filter_optimizer_sound_witness :
  (optimize ex_empty_contain no_stats).1 = ex_node /\
  exists t, evaluate ex_empty_contain (fun field => if fd_Array field then Ok ex_array else ex_resolver 2 field) = Ok t /\ truth_Match t = true.
Proof.
  assert (E : (optimize ex_empty_contain no_stats).1 = ex_node) by reflexivity. split; [exact E|]. destruct (filter_optimizer_sound ex_empty_contain no_stats (fun field => if fd_Array field then Ok ex_array else ex_resolver 2 field)) as (_ & _ & t & t' & H1 & H2 & H3).
  - split; [by right|]. split; [by split|apply ex_node_ok].
  - constructor; [|constructor; [|constructor]].
    + exists ex_array. split; [done|]. split; [|done]. split; [|done..]. apply (BuiltArray ValueInt32 [Int32Value 5; Int32Value 3]); [|reflexivity].
      repeat constructor; unfold is_i32; lia.
    + exists (Int32Value 6). split; [done|]. split; [|done]. split; [|done..]. apply BuiltScalar, ScalarInt32. unfold is_i32. lia.
  - exists t. split; [exact H1|]. rewrite <- H3. rewrite E in H2. assert (H4 : evaluate ex_node (fun field => if fd_Array field then Ok ex_array else ex_resolver 2 field) = Ok TruthTrue)
      by (vm_compute; reflexivity).
    rewrite H4 in H2. by injection H2 as <-.
Defined.

