(* ===== verification/Literals.v ===== *)
(** * Literals of filters: [bindLiteral] of [internal/db/sqlengine/analyzer.go]

    The conversions of Go's [strconv] that it uses: [ParseInt] and [ParseUint] in
    base ten, and [ParseFloat] on decimal numbers, with the exponent cut off at
    ten thousands and the result rounded to the nearest even.  The lexer makes no
    other number text (no hexadecimal, no [inf], no underscore). *)
From S2P Require Import Prelude Bytes Json JsonText SqlValue FilterExpr.
#[local] Open Scope string_scope.
#[local] Open Scope list_scope.
#[local] Open Scope Z_scope.

(** ** Digits *)
Fixpoint scan_digits (s : bytes) : bytes * bytes :=
  match s with
  | b :: rest => if json_digit b then let '(digits, rest) := scan_digits rest in (b :: digits, rest) else ([], s)
  | [] => ([], [])
  end.
Definition digits_value (digits : bytes) : Z := foldl (fun n b => 10 * n + (Z_of_byte b - 48)) 0 digits.
Definition sign_minus : byte := "-"%byte.
Definition sign_plus : byte := "+"%byte.
(** An optional sign. *)
Definition scan_sign (s : bytes) : bool * bytes :=
  match s with
  | b :: rest => if bool_decide (b = sign_minus) then (true, rest) else if bool_decide (b = sign_plus) then (false, rest) else (false, s)
  | [] => (false, [])
  end.

Definition ErrSyntax : gerror := errors_New "invalid syntax".
Definition ErrRange : gerror := errors_New "value out of range".

Definition ParseUint (s : bytes) (bitSize : Z) : result Z :=
  let '(digits, rest) := scan_digits s in
  if bool_decide (digits = []) || negb (bool_decide (rest = [])) then Fail ErrSyntax
  else if 2 ^ bitSize <=? digits_value digits then Fail ErrRange
  else Ok (digits_value digits).
Definition ParseInt (s : bytes) (bitSize : Z) : result Z :=
  let '(negative, s) := scan_sign s in
  let '(digits, rest) := scan_digits s in
  if bool_decide (digits = []) || negb (bool_decide (rest = [])) then Fail ErrSyntax
  else
    let cutoff := 2 ^ (bitSize - 1) in
    if negb negative && (cutoff <=? digits_value digits) then Fail ErrRange
    else if negative && (cutoff <? digits_value digits) then Fail ErrRange
    else Ok (if negative then - digits_value digits else digits_value digits).

(** ** Decimal numbers *)
Record decimal := { dc_negative : bool; dc_mantissa : Z; dc_exponent : Z }.
Definition exponent_value (digits : bytes) : Z :=
  foldl (fun e b => if e <? 10000 then 10 * e + (Z_of_byte b - 48) else e) 0 digits.
Definition is_exponent (b : byte) : bool := bool_decide (b = "e"%byte) || bool_decide (b = "E"%byte).
Definition read_decimal (s : bytes) : option decimal :=
  let '(negative, s) := scan_sign s in
  let '(whole, s) := scan_digits s in
  let '(fraction, s) :=
    match s with b :: rest => if bool_decide (b = "."%byte) then scan_digits rest else ([], s) | [] => ([], []) end in
  if bool_decide (whole = []) && bool_decide (fraction = []) then None
  else
    let number exponent :=
      Some {| dc_negative := negative; dc_mantissa := digits_value (whole ++ fraction); dc_exponent := exponent - zlen fraction |} in
    match s with
    | [] => number 0
    | b :: rest =>
        if is_exponent b then
          let '(below, rest) := scan_sign rest in
          let '(digits, rest) := scan_digits rest in
          if bool_decide (digits = []) || negb (bool_decide (rest = [])) then None
          else number (if below then - exponent_value digits else exponent_value digits)
        else None
    end.

(** The bits of [numerator / denominator] in a format with [precision] bits of
    mantissa and least exponent [least], to the nearest even. *)
Definition nearest_even (numerator denominator : Z) : Z :=
  let quotient := numerator / denominator in
  let rest := 2 * (numerator mod denominator) in
  if (denominator <? rest) || ((rest =? denominator) && Z.odd quotient) then quotient + 1 else quotient.
Definition binary_exponent (numerator denominator : Z) : Z :=
  let e := Z.log2 numerator - Z.log2 denominator in
  if numerator * 2 ^ Z.max 0 (- e) <? denominator * 2 ^ Z.max 0 e then e - 1 else e.
Definition float_bits (precision least : Z) (numerator denominator : Z) : Z :=
  let e := Z.max least (binary_exponent numerator denominator - (precision - 1)) in
  (e - least) * 2 ^ (precision - 1) + nearest_even (numerator * 2 ^ Z.max 0 (- e)) (denominator * 2 ^ Z.max 0 e).
Definition ParseFloat (precision least infinity sign : Z) (s : bytes) : result Z :=
  match read_decimal s with
  | None => Fail ErrSyntax
  | Some d =>
      let numerator := dc_mantissa d * 10 ^ Z.max 0 (dc_exponent d) in
      let denominator := 10 ^ Z.max 0 (- dc_exponent d) in
      let bits := if dc_mantissa d =? 0 then 0 else float_bits precision least numerator denominator in
      if infinity <=? bits then Fail ErrRange else Ok ((if dc_negative d then sign else 0) + bits)
  end.
Definition ParseFloat64 : bytes -> result Z := ParseFloat 53 (-1074) f64_infinity (2 ^ 63).
Definition ParseFloat32 : bytes -> result Z := ParseFloat 24 (-149) (255 * 2 ^ 23) (2 ^ 31).

(** ** Binding *)
Definition TrimSuffix (s suffix : bytes) : bytes :=
  if bool_decide (length suffix <= length s)%nat && bool_decide (drop (length s - length suffix) s = suffix)
  then take (length s - length suffix) s else s.
Definition trim_float (s : bytes) : bytes := TrimSuffix (TrimSuffix (TrimSuffix (TrimSuffix s (bs "f")) (bs "F")) (bs "d")) (bs "D").
Definition mismatch : gerror := errors_New "sql: literal of another type".
Definition invalidNumericLiteral (e : gerror) : gerror := errors_New "sql: invalid literal".
Definition numeric {A} (r : result A) (value : A -> Value) : result Value :=
  match r with Ok number => Ok (value number) | Fail e => Fail (invalidNumericLiteral e) end.
Definition bindLiteral (literal : LiteralExpr) (kind : ValueKind) : result Value :=
  let is_kind k := bool_decide (li_Kind literal = k) in
  match kind with
  | ValueBinary => if is_kind LiteralString then Ok (BinaryValue (li_Text literal)) else Fail mismatch
  | ValueString => if is_kind LiteralString then Ok (StringValue (li_Text literal)) else Fail mismatch
  | ValueBool => if is_kind LiteralBool then Ok (BoolValue (bool_decide (li_Text literal = bs "true"))) else Fail mismatch
  | ValueInt32 => if is_kind LiteralInteger then numeric (ParseInt (li_Text literal) 32) Int32Value else Fail mismatch
  | ValueInt64 => if is_kind LiteralInteger then numeric (ParseInt (li_Text literal) 64) Int64Value else Fail mismatch
  | ValueUint32 => if is_kind LiteralInteger then numeric (ParseUint (li_Text literal) 32) Uint32Value else Fail mismatch
  | ValueUint64 => if is_kind LiteralInteger then numeric (ParseUint (li_Text literal) 64) Uint64Value else Fail mismatch
  | ValueFloat32 =>
      if is_kind LiteralInteger || is_kind LiteralFloat then
        match ParseFloat32 (trim_float (li_Text literal)) with
        | Fail e => Fail (invalidNumericLiteral e)
        | Ok value => match Float32Value value with Ok bound => Ok bound | Fail e => Fail (invalidNumericLiteral e) end
        end
      else Fail mismatch
  | ValueFloat64 =>
      if is_kind LiteralInteger || is_kind LiteralFloat then
        match ParseFloat64 (trim_float (li_Text literal)) with
        | Fail e => Fail (invalidNumericLiteral e)
        | Ok value => match Float64Value value with Ok bound => Ok bound | Fail e => Fail (invalidNumericLiteral e) end
        end
      else Fail mismatch
  | ValueInvalid _ => Fail (errors_New "sql: unsupported field kind")
  end.
Example parse_float_tenth : ParseFloat64 (bs "0.1") = Ok 4591870180066957722. Proof. vm_compute. reflexivity. Qed.
Example parse_float_small : ParseFloat64 (bs "-4.9E-324") = Ok (2 ^ 63 + 1). Proof. vm_compute. reflexivity. Qed.
Example parse_float_third : ParseFloat32 (bs "16777217") = Ok 1266679808. Proof. vm_compute. reflexivity. Qed.
Example parse_float_large : ParseFloat64 (bs "1.8e308") = Fail ErrRange. Proof. vm_compute. reflexivity. Qed.

(** ** Bound literals are scalars of the kind *)
Lemma digits_value_nonneg digits : Forall (fun b => json_digit b = true) digits -> 0 <= digits_value digits.
Proof.
  unfold digits_value. intros H. cut (forall n, 0 <= n -> 0 <= foldl (fun n b => 10 * n + (Z_of_byte b - 48)) n digits); [intros Hn; by apply Hn|].
  induction H as [|b digits Hb H IH]; intros n Hn; [done|]. cbn [foldl]. apply IH. unfold json_digit in Hb. to_prop. lia.
Qed.
Lemma scan_digits_spec s : Forall (fun b => json_digit b = true) (scan_digits s).1 /\ s = (scan_digits s).1 ++ (scan_digits s).2.
Proof.
  induction s as [|b s [IH1 IH2]]; [done|]. cbn [scan_digits]. destruct (json_digit b) eqn:Eb; [|done].
  destruct (scan_digits s) as [digits rest]. cbn in *. split; [by constructor|]. by rewrite IH2 at 1.
Qed.
Lemma ParseUint_bound s bitSize n : ParseUint s bitSize = Ok n -> 0 <= n < 2 ^ bitSize.
Proof.
  unfold ParseUint. pose proof (proj1 (scan_digits_spec s)) as Hd. destruct (scan_digits s) as [digits rest]. cbn in Hd.
  intros H. case_in H; [done|]. case_in H; [done|]. injection H as <-. to_prop. split; [by apply digits_value_nonneg|done].
Qed.
Lemma ParseInt_bound s bitSize n : 0 < bitSize -> ParseInt s bitSize = Ok n -> - 2 ^ (bitSize - 1) <= n < 2 ^ (bitSize - 1).
Proof.
  intros Hbits. pose proof (Z.pow_pos_nonneg 2 (bitSize - 1) ltac:(lia) ltac:(lia)) as Hcut. unfold ParseInt. destruct (scan_sign s) as [negative s']. pose proof (proj1 (scan_digits_spec s')) as Hd. destruct (scan_digits s') as [digits rest].
  cbn in Hd. apply digits_value_nonneg in Hd. intros H. case_in H; [done|]. case_in H; [done|]. case_in H; [done|]. injection H as <-.
  destruct negative; cbn in *; to_prop; lia.
Qed.

(** A text of digits is the number that it writes, up to the width. *)
Lemma scan_digits_all digits : Forall (fun b => json_digit b = true) digits -> scan_digits digits = (digits, []).
Proof. induction 1 as [|b digits Hb H IH]; [done|]. cbn [scan_digits]. by rewrite Hb, IH. Qed.
Lemma ParseUint_digits digits bitSize :
  digits <> [] -> Forall (fun b => json_digit b = true) digits ->
  ParseUint digits bitSize = if digits_value digits <? 2 ^ bitSize then Ok (digits_value digits) else Fail ErrRange.
Proof.
  intros Hne Hd. unfold ParseUint. rewrite scan_digits_all, bool_decide_false by done. cbn. rewrite Z.ltb_antisym. by destruct (_ <=? _).
Qed.

Lemma nearest_even_nonneg numerator denominator : 0 <= numerator -> 0 < denominator -> 0 <= nearest_even numerator denominator.
Proof. intros Hn Hd. unfold nearest_even. pose proof (Z.div_pos numerator denominator Hn Hd). case_if; lia. Qed.
(** To the nearest, and to an even quotient at a tie. *)
Lemma nearest_even_spec numerator denominator :
  0 <= numerator -> 0 < denominator -> let q := nearest_even numerator denominator in
  - denominator <= 2 * (q * denominator - numerator) <= denominator /\
  (2 * (q * denominator - numerator) = denominator \/ 2 * (q * denominator - numerator) = - denominator -> Z.even q = true).
Proof.
  intros Hn Hd. cbv zeta. unfold nearest_even. pose proof (Z.div_mod numerator denominator ltac:(lia)) as Hq.
  pose proof (Z.mod_pos_bound numerator denominator Hd) as Hr. set (q := numerator / denominator) in *. set (r := numerator mod denominator) in *.
  rewrite <- Z.negb_odd. destruct ((denominator <? 2 * r) || ((2 * r =? denominator) && Z.odd q)) eqn:E.
  - rewrite Z.odd_add. destruct (denominator <? 2 * r) eqn:E1; [to_prop; split; [nia|intros; nia]|].
    cbn [orb] in E. apply andb_true_iff in E as [E2 E3]. to_prop. rewrite E3. split; [nia|done].
  - apply orb_false_iff in E as [E1 E2]. split; [to_prop; nia|]. intros Ht. destruct (2 * r =? denominator) eqn:E3; [cbn in E2; by rewrite E2|to_prop; nia].
Qed.
Lemma float_bits_nonneg precision least numerator denominator :
  0 <= numerator -> 0 < denominator -> 0 <= float_bits precision least numerator denominator.
Proof.
  intros Hn Hd. unfold float_bits. set (e := Z.max least _). apply Z.add_nonneg_nonneg.
  - apply Z.mul_nonneg_nonneg; [lia|apply Z.pow_nonneg; lia].
  - apply nearest_even_nonneg; [apply Z.mul_nonneg_nonneg; [done|apply Z.pow_nonneg; lia]|apply Z.mul_pos_pos; [done|apply Z.pow_pos_nonneg; lia]].
Qed.
Lemma read_decimal_nonneg s d : read_decimal s = Some d -> 0 <= dc_mantissa d.
Proof.
  unfold read_decimal. destruct (scan_sign s) as [negative s1]. pose proof (proj1 (scan_digits_spec s1)) as H1. destruct (scan_digits s1) as [whole s2].
  assert (Hf : Forall (fun b => json_digit b = true) (match s2 with b :: rest => if bool_decide (b = "."%byte) then scan_digits rest else ([], s2) | [] => ([], []) end).1).
  { destruct s2 as [|b rest]; [constructor|]. case_if; [apply scan_digits_spec|constructor]. }
  destruct (match s2 with b :: rest => _ | [] => _ end) as [fraction s3]. cbn in *. assert (0 <= digits_value (whole ++ fraction)) as Hv
    by (apply digits_value_nonneg, Forall_app; by split).
  intros H. case_in H; [done|]. destruct s3 as [|b rest]; [by injection H as <-|]. case_in H; [|done]. destruct (scan_sign rest) as [below rest1].
  destruct (scan_digits rest1) as [digits rest2]. case_in H; [done|]. by injection H as <-.
Qed.
Lemma ParseFloat_bound precision least infinity sign s n :
  0 <= sign -> ParseFloat precision least infinity sign s = Ok n -> 0 <= n < sign + infinity.
Proof.
  unfold ParseFloat. intros Hs H. destruct (read_decimal s) as [d|] eqn:Ed; [|done]. pose proof (read_decimal_nonneg s d Ed) as Hm.
  set (bits := if dc_mantissa d =? 0 then 0 else _) in *. assert (0 <= bits) as Hb.
  { unfold bits. case_if; [done|]. apply float_bits_nonneg; [apply Z.mul_nonneg_nonneg; [done|apply Z.pow_nonneg; lia]|apply Z.pow_pos_nonneg; lia]. }
  case_in H; [done|]. injection H as <-. to_prop. destruct (dc_negative d); lia.
Qed.

Lemma bindLiteral_scalar literal kind v : bindLiteral literal kind = Ok v -> scalar_value v /\ v_kind v = kind.
Proof.
  unfold bindLiteral, numeric. intros H. destruct kind; try done; (case_in H; [|done]); try (injection H as <-; split; [constructor|]; done).
  - destruct (ParseInt _ _) as [n|] eqn:Ep; [|done]. injection H as <-. apply ParseInt_bound in Ep; [|lia]. split; [apply ScalarInt32; unfold is_i32; lia|done].
  - destruct (ParseInt _ _) as [n|] eqn:Ep; [|done]. injection H as <-. apply ParseInt_bound in Ep; [|lia]. split; [apply ScalarInt64; unfold is_i64; lia|done].
  - destruct (ParseUint _ _) as [n|] eqn:Ep; [|done]. injection H as <-. apply ParseUint_bound in Ep. split; [apply ScalarUint32; unfold is_u32, u32_max; lia|done].
  - destruct (ParseUint _ _) as [n|] eqn:Ep; [|done]. injection H as <-. apply ParseUint_bound in Ep. split; [apply ScalarUint64; unfold is_u64, u64_max; lia|done].
  - destruct (ParseFloat32 _) as [n|] eqn:Ep; [|done]. destruct (Float32Value n) as [f|] eqn:Ef; [|done]. injection H as <-. unfold ParseFloat32 in Ep.
    apply ParseFloat_bound in Ep; [|lia]. split; [apply (ScalarFloat32 n); [lia|done]|]. unfold Float32Value in Ef. case_in Ef; [done|]. by injection Ef as <-.
  - destruct (ParseFloat64 _) as [n|] eqn:Ep; [|done]. destruct (Float64Value n) as [f|] eqn:Ef; [|done]. injection H as <-. unfold ParseFloat64 in Ep.
    apply ParseFloat_bound in Ep; [|lia]. split.
    + apply (ScalarFloat64 n); [|done]. assert (f64_infinity <= 2 ^ 63) by (vm_compute; discriminate). lia.
    + unfold Float64Value in Ef. case_in Ef; [done|]. by injection Ef as <-.
Qed.

(** ** Integers at their width *)
Definition signed_text (negative : bool) (digits : bytes) : bytes := if negative then sign_minus :: digits else digits.
Definition signed_value (negative : bool) (digits : bytes) : Z := if negative then - digits_value digits else digits_value digits.
Lemma json_digit_sign b : json_digit b = true -> b <> sign_minus /\ b <> sign_plus.
Proof. intros H. split; intros ->; by vm_compute in H. Qed.
Lemma scan_sign_signed negative digits :
  Forall (fun b => json_digit b = true) digits -> scan_sign (signed_text negative digits) = (negative, digits).
Proof.
  intros Hd. destruct negative; cbn; [done|]. destruct Hd as [|b digits Hb Hd]; [done|]. apply json_digit_sign in Hb as [H1 H2].
  cbn. by rewrite !bool_decide_false.
Qed.
Lemma ParseInt_digits negative digits bitSize :
  digits <> [] -> Forall (fun b => json_digit b = true) digits -> 0 < bitSize ->
  let n := signed_value negative digits in
  ParseInt (signed_text negative digits) bitSize =
    if (- 2 ^ (bitSize - 1) <=? n) && (n <? 2 ^ (bitSize - 1)) then Ok n else Fail ErrRange.
Proof.
  intros Hne Hd Hb n. unfold ParseInt. rewrite scan_sign_signed, scan_digits_all, bool_decide_false by done. cbn [negb orb].
  pose proof (digits_value_nonneg digits Hd) as Hn. pose proof (Z.pow_pos_nonneg 2 (bitSize - 1) ltac:(lia) ltac:(lia)) as Hcut.
  unfold n, signed_value. destruct negative; cbn [negb andb].
  - destruct (Z.ltb_spec (2 ^ (bitSize - 1)) (digits_value digits)), (Z.leb_spec (- 2 ^ (bitSize - 1)) (- digits_value digits)),
      (Z.ltb_spec (- digits_value digits) (2 ^ (bitSize - 1))); cbn; done || lia.
  - destruct (Z.leb_spec (2 ^ (bitSize - 1)) (digits_value digits)), (Z.leb_spec (- 2 ^ (bitSize - 1)) (digits_value digits)),
      (Z.ltb_spec (digits_value digits) (2 ^ (bitSize - 1))); cbn; done || lia.
Qed.
Lemma ParseUint_minus digits bitSize : ParseUint (sign_minus :: digits) bitSize = Fail ErrSyntax.
Proof. done. Qed.

(** What an integer literal is as a value of the kind, if the kind has it. *)
Definition integer_value (kind : ValueKind) (negative : bool) (digits : bytes) : option Value :=
  let n := signed_value negative digits in
  match kind with
  | ValueInt32 => if (- 2 ^ 31 <=? n) && (n <? 2 ^ 31) then Some (Int32Value n) else None
  | ValueInt64 => if (- 2 ^ 63 <=? n) && (n <? 2 ^ 63) then Some (Int64Value n) else None
  | ValueUint32 => if negb negative && (n <? 2 ^ 32) then Some (Uint32Value n) else None
  | ValueUint64 => if negb negative && (n <? 2 ^ 64) then Some (Uint64Value n) else None
  | _ => None
  end.
Definition integer_kind (kind : ValueKind) : bool :=
  match kind with ValueInt32 | ValueInt64 | ValueUint32 | ValueUint64 => true | _ => false end.

(** C25: literals stay within the width of their field.  A literal of decimal digits
    with an optional minus sign binds to a field of an integer kind exactly when its
    number is one of the kind (an unsigned kind takes no sign), and then to that very
    number, never to one that wrapped around; and whatever literal binds to whatever
    kind, its value is a scalar of that kind within its bounds, floats finite. *)
Theorem bind_literal_bounds kind negative digits raw range :
  integer_kind kind = true -> digits <> [] -> Forall (fun b => json_digit b = true) digits ->
  let literal := {| li_Kind := LiteralInteger; li_Text := signed_text negative digits; li_Raw := raw; li_Range := range |} in
  match integer_value kind negative digits with
  | Some v => bindLiteral literal kind = Ok v
  | None => exists e, bindLiteral literal kind = Fail e
  end /\
  forall literal kind v, bindLiteral literal kind = Ok v -> scalar_value v /\ v_kind v = kind.
Proof.
  intros Hk Hne Hd literal. split; [|apply bindLiteral_scalar].
  destruct kind; try done; cbn [bindLiteral integer_value li_Kind literal li_Text]; rewrite bool_decide_true by done.
  1,2: rewrite ParseInt_digits by done; cbv zeta; change (32 - 1) with 31; change (64 - 1) with 63; destruct (_ && _); cbn; [done|by eexists].
  all: unfold signed_text, signed_value; destruct negative; cbn [negb andb]; [rewrite ParseUint_minus; by eexists|].
  all: rewrite ParseUint_digits by done; destruct (_ <? _); cbn; [done|by eexists].
Qed.
(** The least INT32, and one below it. *)
Lemma bind_literal_bounds_witness :
  let range := {| sp_Start := Build_Position 0 1 1; sp_End := Build_Position 11 1 12 |} in
  let literal text := {| li_Kind := LiteralInteger; li_Text := bs text; li_Raw := bs text; li_Range := range |} in
  bindLiteral (literal "-2147483648") ValueInt32 = Ok (Int32Value (- 2147483648)) /\
  (exists e, bindLiteral (literal "-2147483649") ValueInt32 = Fail e) /\
  forall literal kind v, bindLiteral literal kind = Ok v -> scalar_value v /\ v_kind v = kind.
Proof.
  set (range := {| sp_Start := Build_Position 0 1 1; sp_End := Build_Position 11 1 12 |}).
  pose proof (bind_literal_bounds ValueInt32 true (bs "2147483648") (bs "-2147483648") range eq_refl ltac:(discriminate) ltac:(repeat constructor)) as [H1 H].
  pose proof (bind_literal_bounds ValueInt32 true (bs "2147483649") (bs "-2147483649") range eq_refl ltac:(discriminate) ltac:(repeat constructor)) as [H2 _].
  split; [exact H1|]. split; [exact H2|exact H].
Defined.
