(* ===== verification/FilterRewrite.v ===== *)
(** * Rewriting filters: [internal/db/sqlengine/rewrite.go]

    Equalities and IN predicates on one field that OR connects become one IN
    predicate.  An expression is a value here: the rewriter makes new nodes and
    changes none of the old ones. *)
From S2P Require Import Prelude Bytes Predicate FilterExpr.
#[local] Open Scope string_scope.
#[local] Open Scope list_scope.
#[local] Open Scope Z_scope.

Fixpoint flattenLogical (expression : Expr) (operator : LogicalOperator) : list Expr :=
  match expression with
  | LogicalExpr op lhs rhs _ =>
      if bool_decide (op = operator) then flattenLogical lhs operator ++ flattenLogical rhs operator else [expression]
  | _ => [expression]
  end.
Definition join_step (operator : LogicalOperator) (joined expression : Expr) : Expr :=
  LogicalExpr operator joined expression {| sp_Start := sp_Start (NodeSpan joined); sp_End := sp_End (NodeSpan expression) |}.
Definition joinLogical (expressions : list Expr) (operator : LogicalOperator) : option Expr :=
  match expressions with
  | [] => None
  | expression :: expressions => Some (foldl (join_step operator) expression expressions)
  end.

(** The field, with its range, and the literals of an equality or of an IN predicate. *)
Definition equalitySetCandidate (expression : Expr) : option (bytes * Span * list LiteralExpr) :=
  match expression with
  | PredicateExpr PredicateEQ (IdentifierExpr name range) (Some (LiteralValue literal)) false _ => Some (name, range, [literal])
  | PredicateExpr PredicateIn (IdentifierExpr name range) (Some (ListExpr values _)) false _ => Some (name, range, values)
  | _ => None
  end.

Record equalityGroup := {
  eg_index : nat;
  eg_name : bytes;
  eg_field : Span;
  eg_values : list LiteralExpr;
  eg_terms : Z;
  eg_range : Span
}.
(** The turn of the loop for one term. *)
Definition group_term (state : gmap bytes equalityGroup * list Expr) (term : Expr) : gmap bytes equalityGroup * list Expr :=
  let '(groups, kept) := state in
  match equalitySetCandidate term with
  | None => (groups, kept ++ [term])
  | Some (name, range, values) =>
      match groups !! name with
      | None =>
          (<[name := {| eg_index := length kept; eg_name := name; eg_field := range; eg_values := values; eg_terms := 1; eg_range := NodeSpan term |}]> groups,
           kept ++ [term])
      | Some group =>
          (<[name := {| eg_index := eg_index group; eg_name := eg_name group; eg_field := eg_field group; eg_values := eg_values group ++ values;
                        eg_terms := eg_terms group + 1;
                        eg_range := {| sp_Start := sp_Start (eg_range group); sp_End := sp_End (NodeSpan term) |} |}]> groups,
           kept)
      end
  end.
(** The range of a group's list; the parser makes no empty one. *)
Definition list_range (values : list LiteralExpr) (range : Span) : Span :=
  match head values, last values with
  | Some first, Some final => {| sp_Start := sp_Start (li_Range first); sp_End := sp_End (li_Range final) |}
  | _, _ => range
  end.
Definition in_predicate (group : equalityGroup) : Expr :=
  PredicateExpr PredicateIn (IdentifierExpr (eg_name group) (eg_field group))
    (Some (ListExpr (eg_values group) (list_range (eg_values group) (eg_range group)))) false (eg_range group).
Definition place_group (state : list Expr * Z) (group : equalityGroup) : list Expr * Z :=
  let '(kept, sets) := state in
  if eg_terms group <? 2 then (kept, sets) else (<[eg_index group := in_predicate group]> kept, sets + 1).
(** The rewritten terms, joined, and the number of sets that were made. *)
Definition rewriteEqualitySets (terms : list Expr) : option Expr * Z :=
  let '(groups, kept) := foldl group_term (∅, []) terms in
  let '(kept, sets) := foldl place_group (kept, 0) (map_to_list groups).*2 in
  (joinLogical kept LogicalOr, sets).

Fixpoint expr_size (expression : Expr) : nat :=
  match expression with LogicalExpr _ lhs rhs _ => S (expr_size lhs + expr_size rhs) | _ => 1 end.
(** The recursion on the terms of an OR, with the size of the expression as its fuel. *)
Fixpoint rewrite_loop (fuel : nat) (expression : Expr) : Expr * Z :=
  match fuel with
  | O => (expression, 0)
  | S fuel =>
      match expression with
      | LogicalExpr operator lhs rhs range =>
          if bool_decide (operator = LogicalOr) then
            let terms := rewrite_loop fuel <$> flattenLogical expression LogicalOr in
            let '(joined, sets) := rewriteEqualitySets terms.*1 in
            (default expression joined, foldr Z.add 0 terms.*2 + sets)
          else
            let '(lhs, l_sets) := rewrite_loop fuel lhs in
            let '(rhs, r_sets) := rewrite_loop fuel rhs in
            (LogicalExpr operator lhs rhs range, l_sets + r_sets)
      | _ => (expression, 0)
      end
  end.
Definition rewriteExpression (expression : Expr) : Expr * Z := rewrite_loop (expr_size expression) expression.
(** The expression and [RewriteStats.EqualitySets]. *)
Definition RewriteFilter (expression : Expr) : Expr * Z := rewriteExpression expression.

(** ** Enough fuel *)
Lemma expr_size_pos e : (1 <= expr_size e)%nat.
Proof. destruct e; cbn; lia. Qed.
Lemma flatten_size e op t : t ∈ flattenLogical e op -> (expr_size t <= expr_size e)%nat.
Proof.
  induction e as [o lhs IHl rhs IHr range|o l r n range|v]; cbn [flattenLogical]; try (intros ->%list_elem_of_singleton; done).
  case_bool_decide; [|by intros ->%list_elem_of_singleton]. rewrite elem_of_app. cbn [expr_size]. intros [H1|H1]; [specialize (IHl H1)|specialize (IHr H1)]; lia.
Qed.
Lemma flatten_nonempty e op : flattenLogical e op <> [].
Proof.
  induction e as [o lhs IHl rhs IHr range|o l r n range|v]; cbn [flattenLogical]; [|done..]. case_bool_decide; [|done].
  intros Hn. by apply app_eq_nil in Hn as [? _].
Qed.
Lemma flatten_or_size lhs rhs range t : t ∈ flattenLogical (LogicalExpr LogicalOr lhs rhs range) LogicalOr -> (expr_size t < expr_size (LogicalExpr LogicalOr lhs rhs range))%nat.
Proof.
  cbn [flattenLogical]. rewrite bool_decide_true, elem_of_app by done. cbn [expr_size].
  intros [H1|H1]; apply flatten_size in H1; lia.
Qed.
Lemma rewrite_loop_fuel fuel e : (expr_size e <= fuel)%nat -> rewrite_loop fuel e = rewriteExpression e.
Proof.
  unfold rewriteExpression. cut (forall f1 f2 e, (expr_size e <= f1)%nat -> (expr_size e <= f2)%nat -> rewrite_loop f1 e = rewrite_loop f2 e); [intros H1 H2; by apply H1|].
  clear. induction f1 as [|f1 IH]; intros f2 e H1 H2; [pose proof (expr_size_pos e); lia|]. destruct f2 as [|f2]; [pose proof (expr_size_pos e); lia|].
  destruct e as [o lhs rhs range|o l r n range|v]; cbn [rewrite_loop]; [|done..]. case_bool_decide as Ho.
  - subst o. replace (rewrite_loop f1 <$> flattenLogical (LogicalExpr LogicalOr lhs rhs range) LogicalOr)
      with (rewrite_loop f2 <$> flattenLogical (LogicalExpr LogicalOr lhs rhs range) LogicalOr); [done|].
    apply list_fmap_ext. intros i t Ht. apply list_elem_of_lookup_2, flatten_or_size in Ht. symmetry. apply IH; lia.
  - cbn [expr_size] in *. rewrite (IH f2 lhs), (IH f2 rhs) by lia. done.
Qed.
(** [rewriteExpression] as the code has it. *)
Lemma rewriteExpression_or lhs rhs range :
  let e := LogicalExpr LogicalOr lhs rhs range in
  rewriteExpression e =
    let terms := rewriteExpression <$> flattenLogical e LogicalOr in
    let '(joined, sets) := rewriteEqualitySets terms.*1 in (default e joined, foldr Z.add 0 terms.*2 + sets).
Proof.
  intros e. unfold rewriteExpression at 1. destruct (expr_size e) as [|n] eqn:En; [done|]. cbn [rewrite_loop e]. rewrite bool_decide_true by done. fold e.
  replace (rewrite_loop n <$> flattenLogical e LogicalOr) with (rewriteExpression <$> flattenLogical e LogicalOr); [done|].
  apply list_fmap_ext. intros i t Ht. apply list_elem_of_lookup_2, flatten_or_size in Ht. fold e in Ht. symmetry. apply rewrite_loop_fuel. lia.
Qed.
Lemma rewriteExpression_other operator lhs rhs range :
  operator <> LogicalOr ->
  (rewriteExpression (LogicalExpr operator lhs rhs range)).1 = LogicalExpr operator (rewriteExpression lhs).1 (rewriteExpression rhs).1 range.
Proof.
  intros Hne. unfold rewriteExpression at 1. cbn [expr_size rewrite_loop]. rewrite bool_decide_false by done.
  rewrite !rewrite_loop_fuel by lia. by destruct (rewriteExpression lhs), (rewriteExpression rhs).
Qed.
