(* ===== verification/Analyzer.v ===== *)
(** * The analyzer: [internal/db/sqlengine/analyzer.go]

    Binding a rewritten expression to a schema, and [BuildPlan], which parses,
    rewrites, binds and optimizes.  The parser is generated by ANTLR: it is an
    argument here.  The state of the analyzer is the fields seen so far. *)
From S2P Require Import Prelude Bytes JsonText SqlValue Like Predicate FilterExpr FilterPlan Literals FilterRewrite.
#[local] Open Scope string_scope.
#[local] Open Scope list_scope.
#[local] Open Scope Z_scope.

Definition analysisError (text : string) : gerror := errors_New text.

(** [seen] and [fields]. *)
Record analyzed := { an_seen : gset bytes; an_fields : list Field }.
Definition nothing_analyzed : analyzed := {| an_seen := ∅; an_fields := [] |}.

Section analyzer.
Context (schema : Schema).

Definition requireField (name : bytes) (a : analyzed) : result (Field * analyzed) :=
  match Schema_Field schema name with
  | None => Fail (analysisError "field does not exist in schema")
  | Some field =>
      if negb (fd_Filterable field) then Fail (analysisError "field cannot be used in scalar filters")
      else if bool_decide (name ∈ an_seen a) then Ok (field, a)
      else Ok (field, {| an_seen := {[name]} ∪ an_seen a; an_fields := an_fields a ++ [field] |})
  end.

(** The operand's source and the field that stands for it in the checks. *)
Definition bindSource (expression : ValueExpr) (a : analyzed) : result (valueSource * Field * analyzed) :=
  match expression with
  | IdentifierExpr name _ =>
      match requireField name a with
      | Fail e => Fail e
      | Ok (field, a) => Ok (FieldSource field, field, a)
      end
  | CallExpr name arguments _ =>
      if negb (bool_decide (name = bs "array_length")) then Fail (analysisError "function is not supported")
      else match arguments with
      | [IdentifierExpr argument _] =>
          match requireField argument a with
          | Fail e => Fail e
          | Ok (field, a) =>
              if negb (fd_Array field) then Fail (analysisError "array_length requires an array field")
              else Ok (ArrayLengthSource field,
                {| fd_Name := format_value expression; fd_Kind := ValueUint32; fd_Array := false; fd_Nullable := fd_Nullable field;
                   fd_Filterable := true; fd_Indexed := false; fd_RangeOptimized := false; fd_ExtendedWildcard := false |}, a)
          end
      | [_] => Fail (analysisError "array_length argument must be a field name")
      | _ => Fail (analysisError "array_length requires exactly one field argument")
      end
  | _ => Fail (analysisError "predicate left operand must be a field or supported function")
  end.

Fixpoint bind_literals (literals : list LiteralExpr) (kind : ValueKind) : result (list Value) :=
  match literals with
  | [] => Ok []
  | literal :: literals =>
      match bindLiteral literal kind with
      | Fail e => Fail e
      | Ok value => match bind_literals literals kind with Fail e => Fail e | Ok values => Ok (value :: values) end
      end
  end.
Definition bindSetPredicate (operator : PredicateOperator) (rhs : option ValueExpr) (negated : bool) (kind : ValueKind) : result BoundPredicate :=
  match rhs with
  | Some (ListExpr literals _) =>
      match bind_literals literals kind with
      | Fail e => Fail e
      | Ok values => NewSetPredicate operator negated values
      end
  | _ => Fail (analysisError "requires a literal list")
  end.

(** The predicate of an operator on a field. *)
Definition bind_kernel (operator : PredicateOperator) (field : Field) (rhs : option ValueExpr) (negated : bool) : result BoundPredicate :=
  match operator with
  | PredicateIsNull => Ok (NewNullPredicate negated)
  | PredicateLike =>
      if fd_Array field || negb (bool_decide (fd_Kind field = ValueString)) then Fail (analysisError "LIKE requires a STRING scalar field")
      else match rhs with
      | Some (LiteralValue literal) =>
          if negb (bool_decide (li_Kind literal = LiteralString)) then Fail (analysisError "LIKE requires a string literal")
          else NewLikePredicate (li_Text literal)
      | _ => Fail (analysisError "LIKE requires a string literal")
      end
  | PredicateIn =>
      if fd_Array field then Fail (analysisError "IN requires a scalar field") else bindSetPredicate operator rhs negated (fd_Kind field)
  | PredicateContainAll | PredicateContainAny => bindSetPredicate operator rhs negated (fd_Kind field)
  | PredicateInvalid _ => Fail (analysisError "unsupported predicate operator")
  | _ =>
      if fd_Array field then Fail (analysisError "comparison operators do not support array fields")
      else if bool_decide (fd_Kind field = ValueBool) && negb (bool_decide (operator = PredicateEQ)) && negb (bool_decide (operator = PredicateNE))
      then Fail (analysisError "BOOL fields support only = and !=")
      else match rhs with
      | Some (LiteralValue literal) =>
          match bindLiteral literal (fd_Kind field) with
          | Fail e => Fail e
          | Ok value => NewComparisonPredicate operator value
          end
      | _ => Fail (analysisError "comparison right operand must be a scalar literal")
      end
  end.
Definition is_contain (operator : PredicateOperator) : bool :=
  bool_decide (operator = PredicateContainAll) || bool_decide (operator = PredicateContainAny).
Definition bindPredicate (operator : PredicateOperator) (lhs : ValueExpr) (rhs : option ValueExpr) (negated : bool) (range : Span) (a : analyzed) :
  result (planNode * analyzed) :=
  match bindSource lhs a with
  | Fail e => Fail e
  | Ok (source, field, a) =>
      if match source with ArrayLengthSource _ => negb (is_comparison operator) | FieldSource _ => false end
      then Fail (analysisError "array_length supports only comparison operators")
      else if fd_Array field && negb (is_contain operator) && negb (bool_decide (operator = PredicateIsNull))
      then Fail (analysisError "array field supports only CONTAIN_ALL, CONTAIN_ANY, and IS [NOT] NULL")
      else if negb (fd_Array field) && is_contain operator then Fail (analysisError "requires an array field")
      else match bind_kernel operator field rhs negated with
      | Fail e => Fail e
      | Ok predicate => Ok (PredicatePlan source predicate (Format (PredicateExpr operator lhs rhs negated range)), a)
      end
  end.
Fixpoint bindExpression (expression : Expr) (a : analyzed) : result (planNode * analyzed) :=
  match expression with
  | LogicalExpr operator lhs rhs _ =>
      match bindExpression lhs a with
      | Fail e => Fail e
      | Ok (l, a) =>
          match bindExpression rhs a with
          | Fail e => Fail e
          | Ok (r, a) => Ok (LogicalPlan operator l r, a)
          end
      end
  | PredicateExpr operator lhs rhs negated range => bindPredicate operator lhs rhs negated range a
  | ValueNode _ => Fail (analysisError "expected logical or predicate expression")
  end.

Definition BuildPlan (ParseFilter : bytes -> result Expr) (input : bytes) : result Plan :=
  match ParseFilter input with
  | Fail e => Fail e
  | Ok expression =>
      let '(rewritten, equalitySets) := RewriteFilter expression in
      match bindExpression rewritten nothing_analyzed with
      | Fail e => Fail e
      | Ok (root, a) =>
          let '(root, stats) := optimize root {| st_EqualitySets := equalitySets; st_EmptyContainRewrites := 0; st_ConstantFolds := 0 |} in
          Ok {| pl_root := root; pl_fields := an_fields a; pl_normalized := Format rewritten; pl_stats := stats |}
      end
  end.
End analyzer.

(** ** Bound expressions are well typed *)
Fixpoint expr_ok (e : Expr) : Prop :=
  match e with
  | LogicalExpr operator lhs rhs _ => valid_operator operator /\ expr_ok lhs /\ expr_ok rhs
  | _ => True
  end.

Lemma bind_literals_scalars literals kind values : bind_literals literals kind = Ok values -> Forall (scalar_of kind) values.
Proof.
  revert values. induction literals as [|literal literals IH]; intros values H; [by injection H as <-|]. cbn in H.
  destruct (bindLiteral literal kind) as [v|] eqn:Ev; [|done]. destruct (bind_literals literals kind) as [vs|]; [|done]. injection H as <-.
  constructor; [by apply (bindLiteral_scalar literal)|by apply IH].
Qed.
Lemma bind_literals_app l1 l2 kind v1 v2 :
  bind_literals l1 kind = Ok v1 -> bind_literals l2 kind = Ok v2 -> bind_literals (l1 ++ l2) kind = Ok (v1 ++ v2).
Proof.
  revert v1. induction l1 as [|literal l1 IH]; intros v1 H1 H2; [by injection H1 as <-|]. cbn in *.
  destruct (bindLiteral literal kind); [|done]. destruct (bind_literals l1 kind) as [vs|]; [|done]. injection H1 as <-. by rewrite (IH vs).
Qed.
Lemma bind_kernel_ok operator field rhs negated p :
  (fd_Array field = true -> is_contain operator = true \/ operator = PredicateIsNull) -> (fd_Array field = false -> is_contain operator = false) ->
  bind_kernel operator field rhs negated = Ok p -> predicate_ok (fd_Kind field) (fd_Array field) p /\ bp_operator p = operator.
Proof.
  intros H1 H2. assert (Hset : forall a, fd_Array field = a -> (operator = PredicateIn <-> a = false) ->
    bindSetPredicate operator rhs negated (fd_Kind field) = Ok p -> predicate_ok (fd_Kind field) a p /\ bp_operator p = operator).
  { intros a Ha Hiff H. unfold bindSetPredicate in H. destruct rhs as [[| | |literals range|]|]; try done.
    destruct (bind_literals literals (fd_Kind field)) as [values|] eqn:El; [|done]. split.
    - by apply (NewSetPredicate_ok _ a operator negated values); [apply (bind_literals_scalars literals)|..].
    - unfold NewSetPredicate in H. case_in H; [done|]. case_in H; [done|]. case_in H; [done|]. case_in H; [|done]. by injection H as <-. }
  assert (Hcmp : is_comparison operator = true -> (if fd_Array field then Fail (analysisError "comparison operators do not support array fields")
      else if bool_decide (fd_Kind field = ValueBool) && negb (bool_decide (operator = PredicateEQ)) && negb (bool_decide (operator = PredicateNE))
      then Fail (analysisError "BOOL fields support only = and !=")
      else match rhs with
      | Some (LiteralValue literal) =>
          match bindLiteral literal (fd_Kind field) with Fail e => Fail e | Ok value => NewComparisonPredicate operator value end
      | _ => Fail (analysisError "comparison right operand must be a scalar literal")
      end) = Ok p -> predicate_ok (fd_Kind field) (fd_Array field) p /\ bp_operator p = operator).
  { intros Hop H. destruct (fd_Array field); [done|]. destruct (bool_decide (fd_Kind field = ValueBool) && _ && _) eqn:Eb; [done|].
    destruct rhs as [[| |literal| |]|]; try done. destruct (bindLiteral literal (fd_Kind field)) as [value|] eqn:El; [|done]. split.
    - apply (NewComparisonPredicate_ok _ operator value); [by apply (bindLiteral_scalar literal)| |done]. intros Hk. rewrite bool_decide_true in Eb by done.
      cbn in Eb. apply andb_false_iff in Eb as [Eb|Eb]; apply negb_false_iff, bool_decide_eq_true in Eb; auto.
    - unfold NewComparisonPredicate in H. case_in H; [done|]. case_in H; [done|]. by injection H as <-. }
  destruct operator; cbn [bind_kernel]; try (by apply Hcmp); intros H.
  - destruct (fd_Array field) eqn:Ea; [done|]. destruct (bool_decide (fd_Kind field = ValueString)) eqn:Ek; [|done]. apply bool_decide_eq_true in Ek. cbn in H.
    destruct rhs as [[| |literal| |]|]; try done. case_in H; [done|]. rewrite Ek. split; [by apply (NewLikePredicate_ok (li_Text literal))|].
    unfold NewLikePredicate in H. destruct (CompileLike _); [|done]. by injection H as <-.
  - destruct (fd_Array field) eqn:Ea; [done|]. by apply Hset.
  - destruct (fd_Array field) eqn:Ea; [|by specialize (H2 eq_refl)]. by apply Hset.
  - destruct (fd_Array field) eqn:Ea; [|by specialize (H2 eq_refl)]. by apply Hset.
  - by injection H as <-.
  - done.
Qed.

Section bound.
Context (schema : Schema).

(** The fields recorded are filterable fields of the schema, and every name seen is recorded. *)
Definition schema_field (f : Field) : Prop := exists name, Schema_Field schema name = Some f /\ fd_Filterable f = true.
Record an_ok (a : analyzed) : Prop := {
  ao_fields : Forall schema_field (an_fields a);
  ao_seen : forall name f, name ∈ an_seen a -> Schema_Field schema name = Some f -> f ∈ an_fields a
}.
Lemma requireField_spec name a f b :
  requireField schema name a = Ok (f, b) -> an_ok a ->
  an_ok b /\ an_fields a ⊆ an_fields b /\ f ∈ an_fields b /\ Schema_Field schema name = Some f /\ fd_Filterable f = true.
Proof.
  unfold requireField. intros H [A1 A2]. destruct (Schema_Field schema name) as [g|] eqn:Eg; [|done]. destruct (fd_Filterable g) eqn:Ef; [|done]. cbn in H.
  case_bool_decide as Hin; injection H as <- <-.
  - split; [done|]. split; [done|]. split; [by apply (A2 name)|done].
  - split; [split; cbn|split; [cbn; set_solver|split; [cbn; set_solver|done]]].
    + apply Forall_app. split; [done|]. constructor; [by exists name|constructor].
    + intros n f Hn Hf. apply elem_of_union in Hn as [->%elem_of_singleton|Hn]; [rewrite Eg in Hf; injection Hf as <-; set_solver|].
      specialize (A2 n f Hn Hf). set_solver.
Qed.
Lemma bindSource_spec lhs a source field b :
  bindSource schema lhs a = Ok (source, field, b) -> an_ok a ->
  an_ok b /\ an_fields a ⊆ an_fields b /\ source_field source ∈ an_fields b /\ fd_Kind field = source_kind source /\ fd_Array field = source_array source /\
  match source with ArrayLengthSource f => fd_Array f = true | FieldSource _ => True end.
Proof.
  intros H Ha. destruct lhs as [name range|name arguments range|literal|literals range|rows matrix range]; try done; cbn in H.
  - destruct (requireField schema name a) as [[f a1]|] eqn:E; [|done]. injection H as <- <- <-. by destruct (requireField_spec _ _ _ _ E Ha) as (? & ? & ? & _).
  - case_in H; [done|]. destruct arguments as [|[argument r| | | |] [|]]; try done. destruct (requireField schema argument a) as [[f a1]|] eqn:E1; [|done].
    destruct (fd_Array f) eqn:Earr; [|done]. injection H as <- <- <-. by destruct (requireField_spec _ _ _ _ E1 Ha) as (? & ? & ? & _).
Qed.
Lemma bindPredicate_spec operator lhs rhs negated range a node b :
  bindPredicate schema operator lhs rhs negated range a = Ok (node, b) -> an_ok a ->
  node_ok node /\ an_ok b /\ an_fields a ⊆ an_fields b /\ node_fields node ⊆ an_fields b.
Proof.
  unfold bindPredicate. intros H Ha. destruct (bindSource schema lhs a) as [[[source field] a1]|] eqn:Es; [|done].
  destruct (bindSource_spec _ _ _ _ _ Es Ha) as (S1 & S2 & S3 & S4 & S5 & S6).
  destruct (match source with ArrayLengthSource _ => _ | FieldSource _ => _ end) eqn:E1; [done|].
  destruct (fd_Array field && negb (is_contain operator) && _) eqn:E2; [done|]. destruct (negb (fd_Array field) && is_contain operator) eqn:E3; [done|].
  destruct (bind_kernel operator field rhs negated) as [p|] eqn:Ek; [|done]. injection H as <- <-.
  destruct (bind_kernel_ok operator field rhs negated p) as [Hp Hop]; [| |done|].
  - intros Harr. rewrite Harr in E2. destruct (is_contain operator); [by left|right]. cbn in E2. by apply negb_false_iff, bool_decide_eq_true in E2.
  - intros Harr. by rewrite Harr in E3.
  - rewrite S4, S5 in Hp. split; [split; [done|]|]. { destruct source; [done|]. split; [done|]. rewrite Hop. by apply negb_false_iff in E1. }
    split; [done|]. split; [done|]. cbn. set_solver.
Qed.
Lemma bindExpression_spec e a node b :
  expr_ok e -> bindExpression schema e a = Ok (node, b) -> an_ok a ->
  node_ok node /\ an_ok b /\ an_fields a ⊆ an_fields b /\ node_fields node ⊆ an_fields b.
Proof.
  revert a node b. induction e as [operator lhs IHl rhs IHr range|operator lhs rhs negated range|value]; intros a node b Hok H Ha; [| |done].
  - destruct Hok as (Hop & Hl & Hr). cbn in H. destruct (bindExpression schema lhs a) as [[l a1]|] eqn:El; [|done].
    destruct (bindExpression schema rhs a1) as [[r a2]|] eqn:Er; [|done]. injection H as <- <-.
    destruct (IHl _ _ _ Hl El Ha) as (L1 & L2 & L3 & L4). destruct (IHr _ _ _ Hr Er L2) as (R1 & R2 & R3 & R4).
    split; [by split|]. split; [done|]. split; [set_solver|]. cbn. set_solver.
  - by apply (bindPredicate_spec operator lhs rhs negated range a).
Qed.
Lemma nothing_ok : an_ok nothing_analyzed.
Proof. split; [constructor|]. intros name f Hn. by apply elem_of_empty in Hn. Qed.

(** The node does not depend on the fields seen before. *)
Lemma requireField_any name a f b c : requireField schema name a = Ok (f, b) -> exists d, requireField schema name c = Ok (f, d).
Proof.
  unfold requireField. destruct (Schema_Field schema name) as [g|]; [|done]. case_if; [done|].
  intros H. assert (g = f) as -> by (case_in H; by injection H). case_if; by eexists.
Qed.
Lemma bindSource_any lhs a source field b c : bindSource schema lhs a = Ok (source, field, b) -> exists d, bindSource schema lhs c = Ok (source, field, d).
Proof.
  destruct lhs as [name range|name arguments range|literal|literals range|rows matrix range]; try done; cbn.
  - destruct (requireField schema name a) as [[f a1]|] eqn:E; [|done]. intros [= <- <- <-]. destruct (requireField_any _ _ _ _ c E) as [d ->]. by exists d.
  - case_if; [done|]. destruct arguments as [|[argument r| | | |] [|]]; try done. destruct (requireField schema argument a) as [[f a1]|] eqn:E1; [|done].
    destruct (requireField_any _ _ _ _ c E1) as [d ->]. case_if; [done|]. intros [= <- <- <-]. by exists d.
Qed.
Lemma bindExpression_any e a node b c : bindExpression schema e a = Ok (node, b) -> exists d, bindExpression schema e c = Ok (node, d).
Proof.
  revert a node b c. induction e as [operator lhs IHl rhs IHr range|operator lhs rhs negated range|value]; intros a node b c; [| |done]; cbn.
  - destruct (bindExpression schema lhs a) as [[l a1]|] eqn:El; [|done]. destruct (bindExpression schema rhs a1) as [[r a2]|] eqn:Er; [|done]. intros [= <- <-].
    destruct (IHl _ _ _ c El) as [d ->]. destruct (IHr _ _ _ d Er) as [d' ->]. by exists d'.
  - unfold bindPredicate. destruct (bindSource schema lhs a) as [[[source field] a1]|] eqn:Es; [|done]. destruct (bindSource_any _ _ _ _ _ c Es) as [d ->].
    case_if; [done|]. case_if; [done|]. case_if; [done|]. destruct (bind_kernel operator field rhs negated) as [p|]; [|done]. intros [= <- <-]. by exists d.
Qed.
End bound.
