(* ===== verification/FilterMeaning.v ===== *)
(** * Building a plan keeps the meaning of the filter

    The truth of an expression on a row is that of the plan that it is bound to.
    Rewriting keeps the truth of every expression, binding gives a well-typed
    plan, and [BuildPlan] a plan that keeps the rows on which the filter is TRUE. *)
From S2P Require Import Prelude Bytes JsonText SqlValue Like Predicate FilterExpr FilterPlan Literals FilterRewrite Analyzer.
#[local] Open Scope string_scope.
#[local] Open Scope list_scope.
#[local] Open Scope Z_scope.

(** ** OR of a list *)
Definition list_or (l : list Truth) : Truth := foldr truth_Or TruthFalse l.
Lemma truth_Or_comm a b : truth_Or a b = truth_Or b a.
Proof. by destruct a, b. Qed.
Lemma truth_Or_assoc a b c : truth_Or a (truth_Or b c) = truth_Or (truth_Or a b) c.
Proof. by destruct a, b, c. Qed.
Lemma truth_Or_false a : truth_Or TruthFalse a = a.
Proof. by destruct a. Qed.
Lemma list_or_cons t l : list_or (t :: l) = truth_Or t (list_or l).
Proof. done. Qed.
Lemma list_or_app l k : list_or (l ++ k) = truth_Or (list_or l) (list_or k).
Proof. induction l as [|t l IH]; [by rewrite truth_Or_false|]. rewrite <- app_comm_cons, !list_or_cons, IH. apply truth_Or_assoc. Qed.
Lemma list_or_snoc l t : list_or (l ++ [t]) = truth_Or (list_or l) t.
Proof. rewrite list_or_app, list_or_cons. by destruct t. Qed.
Lemma list_or_insert l (i : nat) x t : l !! i = Some x -> list_or (<[i := truth_Or x t]> l) = truth_Or (list_or l) t.
Proof.
  intros Hi. rewrite <- (take_drop_middle l i x Hi) at 2. rewrite insert_take_drop by (by apply lookup_lt_Some in Hi).
  rewrite !list_or_app, !list_or_cons. destruct (list_or (take i l)), x, t, (list_or (drop (S i) l)); done.
Qed.

Section meaning.
Context (schema : Schema) (resolve : Resolver).

(** A row has values for the filterable fields of the schema. *)
Definition row_of_schema : Prop := forall f, schema_field schema f -> resolves resolve f.
Context (Hrow : row_of_schema).

(** The truth of an expression on the row. *)
Definition truth_of (e : Expr) : option Truth :=
  match bindExpression schema e nothing_analyzed with
  | Ok (node, _) => match evaluate node resolve with Ok t => Some t | Fail _ => None end
  | Fail _ => None
  end.
Lemma truth_of_bound e node a t :
  bindExpression schema e nothing_analyzed = Ok (node, a) -> truth_of e = Some t <-> evaluate node resolve = Ok t.
Proof. intros H. unfold truth_of. rewrite H. destruct (evaluate node resolve); split; congruence. Qed.
Lemma bound_row_ok e node a : expr_ok e -> bindExpression schema e nothing_analyzed = Ok (node, a) -> node_ok node /\ row_ok node resolve.
Proof.
  intros Hok H. destruct (bindExpression_spec schema e _ _ _ Hok H (nothing_ok schema)) as (H1 & [H2 _] & _ & H3). split; [done|].
  apply Forall_forall. intros f Hf. apply Hrow. rewrite Forall_forall in H2. by apply H2, H3.
Qed.
Lemma truth_of_total e node a : expr_ok e -> bindExpression schema e nothing_analyzed = Ok (node, a) -> exists t, truth_of e = Some t.
Proof.
  intros Hok H. destruct (bound_row_ok e node a Hok H) as [H1 H2]. destruct (evaluate_ok node resolve H1 H2) as [t Ht]. exists t. by apply (truth_of_bound e node a).
Qed.
Lemma truth_of_logical operator lhs rhs range t :
  expr_ok (LogicalExpr operator lhs rhs range) ->
  truth_of (LogicalExpr operator lhs rhs range) = Some t <->
  exists a b, truth_of lhs = Some a /\ truth_of rhs = Some b /\ t = combine operator a b.
Proof.
  intros (Hop & Hl & Hr). unfold truth_of at 1. cbn [bindExpression].
  destruct (bindExpression schema lhs nothing_analyzed) as [[l a1]|] eqn:El.
  2:{ split; [done|]. intros (a & b & Ha & _). unfold truth_of in Ha. by rewrite El in Ha. }
  destruct (bindExpression schema rhs a1) as [[r a2]|] eqn:Er.
  2:{ split; [done|]. intros (a & b & _ & Hb & _). unfold truth_of in Hb. destruct (bindExpression schema rhs nothing_analyzed) as [[r' a2]|] eqn:Er'; [|done].
      destruct (bindExpression_any schema _ _ _ _ a1 Er') as [d Hd]. congruence. }
  destruct (bindExpression_any schema _ _ _ _ nothing_analyzed Er) as [a3 Er'].
  destruct (truth_of_total lhs l a1 Hl El) as [a Ha], (truth_of_total rhs r a3 Hr Er') as [b Hb].
  rewrite (evaluate_logical operator l r resolve a b) by (done || by apply (truth_of_bound lhs l a1) || by apply (truth_of_bound rhs r a3)).
  rewrite Ha, Hb. split; [intros [= <-]; by exists a, b|]. by intros (x & y & [= <-] & [= <-] & ->).
Qed.

(** ** Equality sets *)
Definition in_truth (v : Value) (set : list Value) : Truth := if v_null v then TruthUnknown else truthFromBool (existsb (same_rank v) set).
Lemma in_truth_app v s1 s2 : in_truth v (s1 ++ s2) = truth_Or (in_truth v s1) (in_truth v s2).
Proof. unfold in_truth. rewrite existsb_app. by destruct (v_null v), (existsb (same_rank v) s1), (existsb (same_rank v) s2). Qed.
(** The truth of a field being one of some literals. *)
Definition field_in (name : bytes) (literals : list LiteralExpr) (t : Truth) : Prop :=
  exists f v values, Schema_Field schema name = Some f /\ fd_Filterable f = true /\ fd_Array f = false /\
    bind_literals literals (fd_Kind f) = Ok values /\ values <> [] /\ resolve f = Ok v /\ t = in_truth v values.
Lemma field_in_app name l1 l2 t1 t2 : field_in name l1 t1 -> field_in name l2 t2 -> field_in name (l1 ++ l2) (truth_Or t1 t2).
Proof.
  intros (f & v & s1 & F1 & F2 & F3 & F4 & F5 & F6 & ->) (f' & v' & s2 & G1 & _ & _ & G4 & G5 & G6 & ->).
  rewrite F1 in G1. injection G1 as <-. rewrite F6 in G6. injection G6 as <-. exists f, v, (s1 ++ s2).
  do 3 (split; [done|]). split; [by apply bind_literals_app|]. split; [by destruct s1|]. split; [done|]. by rewrite in_truth_app.
Qed.

Lemma scalar_row f v : schema_field schema f -> resolve f = Ok v -> field_value (fd_Kind f) (fd_Array f) v.
Proof. intros Hf Hv. destruct (Hrow f Hf) as (w & Hw & Hfv & _). congruence. Qed.
Lemma field_in_truth name range literals r1 r2 t :
  field_in name literals t -> truth_of (PredicateExpr PredicateIn (IdentifierExpr name range) (Some (ListExpr literals r1)) false r2) = Some t.
Proof.
  intros (f & v & values & F1 & F2 & F3 & F4 & F5 & F6 & ->). unfold truth_of. cbn. unfold bindPredicate, bindSource, requireField. rewrite F1, F2.
  cbn [negb]. rewrite bool_decide_false by (by intros ?%elem_of_empty). cbn [is_contain]. rewrite F3. cbn [negb andb]. unfold is_contain. cbn [bind_kernel].
  rewrite !bool_decide_false by done. cbn [andb orb]. rewrite F3. unfold bindSetPredicate. rewrite F4. pose proof (bind_literals_scalars _ _ _ F4) as Hs.
  unfold NewSetPredicate. rewrite bool_decide_true by done. cbn [negb andb]. destruct (zlen values =? 0) eqn:Ez; [to_prop; by apply zlen_0_nil in Ez|]. cbn [andb].
  pose proof (set_values_accepted _ _ Hs) as Hset. destruct (foldM set_value_ok values None); [|done]. cbn [evaluate source_resolve]. rewrite F6.
  rewrite (Evaluate_meaning (fd_Kind f) false); [done|by split; [|split]|]. rewrite <- F3. apply scalar_row; [by exists name|done].
Qed.
Lemma candidate_truth e name range literals t :
  equalitySetCandidate e = Some (name, range, literals) -> truth_of e = Some t -> field_in name literals t.
Proof.
  destruct e as [| operator lhs rhs negated r|]; try done. cbn [equalitySetCandidate]. intros H Ht.
  assert (Hsource : forall source field a, bindSource schema (IdentifierExpr name range) nothing_analyzed = Ok (source, field, a) ->
    source = FieldSource field /\ Schema_Field schema name = Some field /\ fd_Filterable field = true).
  { intros source field a Hs. cbn in Hs. destruct (requireField schema name nothing_analyzed) as [[f b]|] eqn:Ef; [|done]. injection Hs as <- <- <-.
    destruct (requireField_spec schema _ _ _ _ Ef (nothing_ok schema)) as (_ & _ & _ & ? & ?). done. }
  assert (Hev : forall field v p, schema_field schema field -> resolve field = Ok v -> predicate_ok (fd_Kind field) (fd_Array field) p ->
    Evaluate p v = Ok (predicate_meaning p v)) by (intros field v p Hf Hv Hp; apply (Evaluate_meaning _ _ _ _ Hp); by apply scalar_row).
  unfold truth_of in Ht. cbn [bindExpression] in Ht. unfold bindPredicate in Ht.
  destruct operator; try done.
  - destruct lhs as [n rg| | | |]; try done. destruct rhs as [[| |literal| |]|]; try done. destruct negated; [done|]. injection H as -> -> <-.
    destruct (bindSource schema (IdentifierExpr name range) nothing_analyzed) as [[[source field] a]|] eqn:Es; [|done].
    destruct (Hsource _ _ _ eq_refl) as (-> & Hf1 & Hf2). case_in Ht; [done|]. case_in Ht; [done|].
    destruct (bind_kernel PredicateEQ field _ false) as [p|] eqn:Ek; [|done]. cbn [evaluate source_resolve] in Ht.
    destruct (resolve field) as [v|] eqn:Ev; [|done]. assert (Hk := Ek). cbn [bind_kernel] in Ek. destruct (fd_Array field) eqn:Ea; [done|].
    apply bind_kernel_ok in Hk as [Hp _]; [|by rewrite Ea|done]. rewrite (Hev field v p) in Ht; [|by exists name|done|done]. injection Ht as <-.
    case_in Ek; [done|]. destruct (bindLiteral literal (fd_Kind field)) as [value|] eqn:El; [|done]. exists field, v, [value].
    do 3 (split; [done|]). split; [cbn; by rewrite El|]. split; [done|]. split; [done|].
    unfold NewComparisonPredicate in Ek. case_in Ek; [done|]. case_in Ek; [done|]. injection Ek as <-. unfold predicate_meaning, in_truth, predicate_holds. cbn.
    by rewrite orb_false_r.
  - destruct lhs as [n rg| | | |]; try done. destruct rhs as [[| | |values rg2|]|]; try done. destruct negated; [done|]. injection H as -> -> ->.
    destruct (bindSource schema (IdentifierExpr name range) nothing_analyzed) as [[[source field] a]|] eqn:Es; [|done].
    destruct (Hsource _ _ _ eq_refl) as (-> & Hf1 & Hf2). case_in Ht; [done|]. case_in Ht; [done|].
    destruct (bind_kernel PredicateIn field _ false) as [p|] eqn:Ek; [|done]. cbn [evaluate source_resolve] in Ht.
    destruct (resolve field) as [v|] eqn:Ev; [|done]. assert (Hk := Ek). cbn [bind_kernel] in Ek. destruct (fd_Array field) eqn:Ea; [done|].
    apply bind_kernel_ok in Hk as [Hp _]; [|by rewrite Ea|done]. rewrite (Hev field v p) in Ht; [|by exists name|done|done]. injection Ht as <-.
    unfold bindSetPredicate in Ek. destruct (bind_literals literals (fd_Kind field)) as [set|] eqn:El; [|done]. exists field, v, set.
    do 3 (split; [done|]). split; [done|]. unfold NewSetPredicate in Ek. case_in Ek; [done|]. case_in Ek; [done|]. case_in Ek; [done|]. case_in Ek; [|done].
    injection Ek as <-. split; [by destruct Hp as (_ & ? & _)|]. split; [done|]. done.
Qed.

(** ** Grouping the terms of an OR *)
Definition truth_at (kept : list Expr) (i : nat) (t : Truth) : Prop := exists e, kept !! i = Some e /\ truth_of e = Some t.
Record grouped (groups : gmap bytes equalityGroup) (kept : list Expr) (truths : list Truth) : Prop := {
  gr_length : length truths = length kept;
  gr_ok : Forall expr_ok kept;
  gr_truths : forall i t, truths !! i = Some t ->
    (exists name g, groups !! name = Some g /\ eg_index g = i /\ 2 <= eg_terms g) \/ truth_at kept i t;
  gr_groups : forall name g, groups !! name = Some g ->
    eg_name g = name /\ 1 <= eg_terms g /\ exists t, truths !! eg_index g = Some t /\ field_in name (eg_values g) t;
  gr_distinct : forall n1 n2 g1 g2, groups !! n1 = Some g1 -> groups !! n2 = Some g2 -> eg_index g1 = eg_index g2 -> n1 = n2
}.

Lemma truth_at_app kept e i t : truth_at kept i t -> truth_at (kept ++ [e]) i t.
Proof. intros (x & Hx & Ht). exists x. split; [|done]. by apply lookup_app_l_Some. Qed.
Lemma grouped_snoc groups kept truths e t :
  grouped groups kept truths -> expr_ok e -> truth_of e = Some t ->
  length (truths ++ [t]) = length (kept ++ [e]) /\ Forall expr_ok (kept ++ [e]) /\
  forall i x, (truths ++ [t]) !! i = Some x ->
    (exists name g, groups !! name = Some g /\ eg_index g = i /\ 2 <= eg_terms g) \/ truth_at (kept ++ [e]) i x.
Proof.
  intros [G1 G2 G3 _ _] He Ht. split; [rewrite !length_app; cbn; lia|]. split; [apply Forall_app; split; [done|by constructor]|].
  intros i x Hx. apply lookup_app_Some in Hx as [Hx|[Hi Hx]].
  - destruct (G3 i x Hx) as [?|?]; [by left|right; by apply truth_at_app].
  - apply list_lookup_singleton_Some in Hx as [Hi0 <-]. right. exists e. split; [|done]. replace i with (length kept) by lia. by rewrite lookup_app_r, Nat.sub_diag by lia.
Qed.
Lemma group_term_grouped groups kept truths e t :
  grouped groups kept truths -> expr_ok e -> truth_of e = Some t ->
  exists truths', grouped (group_term (groups, kept) e).1 (group_term (groups, kept) e).2 truths' /\ list_or truths' = truth_Or (list_or truths) t.
Proof.
  intros Hg He Ht. destruct (grouped_snoc groups kept truths e t Hg He Ht) as (S1 & S2 & S3). assert (Hg' := Hg). destruct Hg' as [G1 G2 G3 G4 G5].
  assert (Hold : forall name g, groups !! name = Some g -> (eg_index g < length kept)%nat /\ exists x, (truths ++ [t]) !! eg_index g = Some x /\ field_in name (eg_values g) x).
  { intros name g Hn. destruct (G4 name g Hn) as (_ & _ & x & Hx & Hf). split; [rewrite <- G1; by apply lookup_lt_Some in Hx|]. exists x. split; [|done]. by apply lookup_app_l_Some. }
  unfold group_term. destruct (equalitySetCandidate e) as [[[name range] literals]|] eqn:Ec; [|].
  2:{ exists (truths ++ [t]). split; [|apply list_or_snoc]. split; cbn; try done. intros n g Hn. destruct (G4 n g Hn) as (? & ? & _). by destruct (Hold n g Hn) as [_ ?]. }
  pose proof (candidate_truth e name range literals t Ec Ht) as Hin. destruct (groups !! name) as [g|] eqn:Eg; cbn [fst snd].
  - destruct (G4 name g Eg) as (N1 & N2 & x & Hx & Hf). exists (<[eg_index g := truth_Or x t]> truths). split; [|by apply list_or_insert].
    split; cbn.
    + by rewrite length_insert.
    + done.
    + intros i y Hy. destruct (decide (i = eg_index g)) as [->|Hne].
      * left. eexists name, _. rewrite lookup_insert_eq. split; [reflexivity|]. cbn. split; [done|lia].
      * rewrite list_lookup_insert_ne in Hy by done. destruct (G3 i y Hy) as [(n & h & Hn & Hi & Hterms)|?]; [left|by right].
        exists n, h. rewrite lookup_insert_ne; [done|]. intros <-. rewrite Eg in Hn. injection Hn as <-. done.
    + intros n h Hn. destruct (decide (n = name)) as [->|Hne].
      * rewrite lookup_insert_eq in Hn. injection Hn as <-. cbn. split; [done|]. split; [lia|]. exists (truth_Or x t).
        split; [apply list_lookup_insert_eq; by apply lookup_lt_Some in Hx|by apply field_in_app].
      * rewrite lookup_insert_ne in Hn by done. destruct (G4 n h Hn) as (M1 & M2 & y & Hy & Hfy). split; [done|]. split; [done|]. exists y. split; [|done].
        rewrite list_lookup_insert_ne; [done|]. intros Hi. by apply Hne, (G5 n name h g).
    + intros n1 n2 g1 g2 H1 H2 Hi. destruct (decide (n1 = name)) as [->|Hn1], (decide (n2 = name)) as [->|Hn2]; try done;
        rewrite ?lookup_insert_eq, ?lookup_insert_ne in H1 by done; rewrite ?lookup_insert_eq, ?lookup_insert_ne in H2 by done.
      * injection H1 as <-. cbn in Hi. by apply (G5 name n2 g g2).
      * injection H2 as <-. cbn in Hi. by apply (G5 n1 name g1 g).
      * by apply (G5 n1 n2 g1 g2).
  - exists (truths ++ [t]). split; [|apply list_or_snoc]. split; cbn; try done.
    + intros i y Hy. destruct (S3 i y Hy) as [(n & h & Hn & Hi & Hterms)|?]; [left|by right]. exists n, h. rewrite lookup_insert_ne; [done|]. intros <-. congruence.
    + intros n h Hn. destruct (decide (n = name)) as [->|Hne].
      * rewrite lookup_insert_eq in Hn. injection Hn as <-. cbn. split; [done|]. split; [lia|]. exists t. split; [|done].
        rewrite <- G1, lookup_app_r, Nat.sub_diag by lia. done.
      * rewrite lookup_insert_ne in Hn by done. destruct (G4 n h Hn) as (M1 & M2 & _). by destruct (Hold n h Hn) as [_ ?].
    + intros n1 n2 g1 g2 H1 H2 Hi. destruct (decide (n1 = name)) as [->|Hn1], (decide (n2 = name)) as [->|Hn2]; try done;
        rewrite ?lookup_insert_eq, ?lookup_insert_ne in H1 by done; rewrite ?lookup_insert_eq, ?lookup_insert_ne in H2 by done.
      * injection H1 as <-. cbn in Hi. destruct (Hold n2 g2 H2) as [? _]. lia.
      * injection H2 as <-. cbn in Hi. destruct (Hold n1 g1 H1) as [? _]. lia.
      * by apply (G5 n1 n2 g1 g2).
Qed.
Lemma group_terms_grouped terms ts groups kept truths :
  grouped groups kept truths -> Forall2 (fun e t => expr_ok e /\ truth_of e = Some t) terms ts ->
  exists truths', grouped (foldl group_term (groups, kept) terms).1 (foldl group_term (groups, kept) terms).2 truths' /\
    list_or truths' = truth_Or (list_or truths) (list_or ts).
Proof.
  intros Hg Hts. revert groups kept truths Hg. induction Hts as [|e t terms ts [He Ht] Hts IH]; intros groups kept truths Hg.
  - exists truths. split; [done|]. cbn. by destruct (list_or truths).
  - cbn [foldl]. destruct (group_term_grouped groups kept truths e t Hg He Ht) as (tr1 & H1 & H2).
    destruct (group_term (groups, kept) e) as [groups1 kept1]. cbn [fst snd] in H1. destruct (IH _ _ _ H1) as (tr2 & H3 & H4). exists tr2. split; [done|].
    by rewrite H4, H2, list_or_cons, truth_Or_assoc.
Qed.

(** Placing the groups leaves every place with its truth. *)
Lemma place_groups gs kept sets truths :
  length truths = length kept -> Forall expr_ok kept ->
  (forall g, g ∈ gs -> 2 <= eg_terms g -> exists t, truths !! eg_index g = Some t /\ truth_of (in_predicate g) = Some t) ->
  (forall i t, truths !! i = Some t -> (exists g, g ∈ gs /\ eg_index g = i /\ 2 <= eg_terms g) \/ truth_at kept i t) ->
  let kept' := (foldl place_group (kept, sets) gs).1 in
  length truths = length kept' /\ Forall expr_ok kept' /\ forall i t, truths !! i = Some t -> truth_at kept' i t.
Proof.
  revert kept sets. induction gs as [|g gs IH]; intros kept sets Hlen Hok Hgs Htr; cbv zeta.
  { split; [done|]. split; [done|]. intros i t Hi. destruct (Htr i t Hi) as [(g & Hg & _)|?]; [by apply elem_of_nil in Hg|done]. }
  cbn [foldl]. unfold place_group at 2 4 6. destruct (eg_terms g <? 2) eqn:E; to_prop.
  - apply IH; [done..| |]; [intros h Hh; apply Hgs; by right|]. intros i t Hi. destruct (Htr i t Hi) as [(h & Hh & Hhi & Hterms)|?]; [left|by right].
    exists h. split; [|done]. apply elem_of_cons in Hh as [->|Hh]; [lia|done].
  - apply IH; [by rewrite length_insert|by apply Forall_insert| |]; [intros h Hh; apply Hgs; by right|].
    destruct (Hgs g) as (tg & Htg & Hin); [by left|lia|]. intros i t Hi. destruct (decide (i = eg_index g)) as [->|Hne].
    + right. exists (in_predicate g). split; [apply list_lookup_insert_eq; rewrite <- Hlen; by apply lookup_lt_Some in Htg|]. congruence.
    + destruct (Htr i t Hi) as [(h & Hh & Hhi & Hterms)|(x & Hx & Ht)]; [left|right].
      * exists h. split; [|done]. apply elem_of_cons in Hh as [->|Hh]; [done|done].
      * exists x. by rewrite list_lookup_insert_ne.
Qed.
Lemma joinLogical_truth kept truths :
  length truths = length kept -> Forall expr_ok kept -> (forall i t, truths !! i = Some t -> truth_at kept i t) -> kept <> [] ->
  exists e, joinLogical kept LogicalOr = Some e /\ expr_ok e /\ truth_of e = Some (list_or truths).
Proof.
  intros Hlen Hok Htr Hne. destruct kept as [|e kept]; [done|]. destruct truths as [|t truths]; [done|]. cbn [joinLogical].
  eexists. split; [done|]. apply Forall_cons in Hok as [He Hok]. destruct (Htr 0%nat t eq_refl) as (e' & [= <-] & Het).
  assert (Hrest : Forall2 (fun e t => truth_of e = Some t) kept truths).
  { apply Forall2_same_length_lookup_2; [cbn in Hlen; lia|]. intros i x y Hx Hy. destruct (Htr (S i) y Hy) as (z & Hz & Hzt).
    change ((e :: kept) !! S i) with (kept !! i) in Hz. rewrite Hx in Hz. injection Hz as <-. done. }
  rewrite list_or_cons. clear Htr Hne Hlen. revert e t He Het. induction Hrest as [|x y kept truths Hxy Hrest IH]; intros e t He Het; cbn [foldl].
  - split; [done|]. cbn. by destruct t.
  - apply Forall_cons in Hok as [Hx Hok]. rewrite list_or_cons, truth_Or_assoc. apply IH; [done|..].
    + split; [by right|done].
    + apply truth_of_logical; [split; [by right|done]|]. by exists t, y.
Qed.
Lemma kept_length terms groups kept : (length kept <= length (foldl group_term (groups, kept) terms).2)%nat.
Proof.
  revert groups kept. induction terms as [|e terms IH]; intros groups kept; [done|]. cbn [foldl]. unfold group_term at 2.
  destruct (equalitySetCandidate e) as [[[name range] literals]|]; [destruct (groups !! name)|]; (etrans; [|apply IH]); rewrite ?length_app; lia.
Qed.
Lemma rewriteEqualitySets_truth terms ts :
  Forall2 (fun e t => expr_ok e /\ truth_of e = Some t) terms ts -> terms <> [] ->
  exists e, (rewriteEqualitySets terms).1 = Some e /\ expr_ok e /\ truth_of e = Some (list_or ts).
Proof.
  intros Hts Hne. destruct (group_terms_grouped terms ts ∅ [] []) as (truths & Hg & Hor).
  { split; try done; intros *; by rewrite ?lookup_empty. }
  { done. }
  unfold rewriteEqualitySets. destruct (foldl group_term (∅, []) terms) as [groups kept] eqn:Ef. cbn [fst snd] in Hg. rewrite truth_Or_false in Hor.
  destruct Hg as [G1 G2 G3 G4 G5].
  assert (Hin : forall g, g ∈ (map_to_list groups).*2 <-> exists name, groups !! name = Some g).
  { intros g. rewrite list_elem_of_fmap. split; [intros ([name h] & -> & Hh); apply elem_of_map_to_list in Hh; by exists name|].
    intros [name Hn]. exists (name, g). split; [done|]. by apply elem_of_map_to_list. }
  destruct (place_groups (map_to_list groups).*2 kept 0 truths G1 G2) as (P1 & P2 & P3).
  - intros g Hgs Hterms. apply Hin in Hgs as [name Hn]. destruct (G4 name g Hn) as (<- & _ & t & Ht & Hf). exists t. split; [done|]. by apply field_in_truth.
  - intros i t Ht. destruct (G3 i t Ht) as [(name & g & Hn & Hi & Hterms)|?]; [left|by right]. exists g. split; [apply Hin; by exists name|done].
  - destruct (foldl place_group (kept, 0) (map_to_list groups).*2) as [kept' sets] eqn:Ep. cbn [fst] in *. rewrite <- Hor. apply joinLogical_truth; try done.
    intros ->. destruct truths; [|done]. destruct kept; [|done]. destruct terms as [|e terms]; [done|]. cbn [foldl] in Ef.
    pose proof (kept_length terms (group_term (∅, []) e).1 (group_term (∅, []) e).2) as Hk. rewrite <- surjective_pairing, Ef in Hk.
    unfold group_term in Hk. destruct (equalitySetCandidate e) as [[[name range] literals]|]; rewrite ?lookup_empty in Hk; cbn in Hk; lia.
Qed.

Lemma flatten_truth e t :
  expr_ok e -> truth_of e = Some t ->
  exists ts, Forall2 (fun e t => expr_ok e /\ truth_of e = Some t) (flattenLogical e LogicalOr) ts /\ list_or ts = t.
Proof.
  assert (Hone : forall x y, expr_ok x -> truth_of x = Some y ->
    exists ts, Forall2 (fun e t => expr_ok e /\ truth_of e = Some t) [x] ts /\ list_or ts = y).
  { intros x y Hx Hy. exists [y]. split; [by repeat constructor|]. cbn. by destruct y. }
  revert t. induction e as [operator lhs IHl rhs IHr range|operator lhs rhs negated range|value]; intros t Hok Ht; cbn [flattenLogical]; [|by apply Hone..].
  case_bool_decide as Ho; [|by apply Hone]. subst operator. assert (Ht' := Ht). apply truth_of_logical in Ht' as (a & b & Ha & Hb & ->); [|done].
  destruct Hok as (_ & Hl & Hr). destruct (IHl a Hl Ha) as (ts1 & T1 & <-), (IHr b Hr Hb) as (ts2 & T2 & <-).
  exists (ts1 ++ ts2). split; [by apply Forall2_app|apply list_or_app].
Qed.
Lemma rewriteExpression_truth e t :
  expr_ok e -> truth_of e = Some t -> expr_ok (rewriteExpression e).1 /\ truth_of (rewriteExpression e).1 = Some t.
Proof.
  remember (expr_size e) as n eqn:Hn. revert e t Hn. induction (lt_wf n) as [n _ IH]. intros e t -> Hok Ht.
  destruct e as [operator lhs rhs range|operator lhs rhs negated range|value]; [|done..].
  destruct (decide (operator = LogicalOr)) as [->|Hne].
  - rewrite rewriteExpression_or. set (e := LogicalExpr LogicalOr lhs rhs range) in *. destruct (flatten_truth e t Hok Ht) as (ts & Hts & Hor).
    set (terms := rewriteExpression <$> flattenLogical e LogicalOr).
    assert (Hterms : Forall2 (fun e t => expr_ok e /\ truth_of e = Some t) terms.*1 ts).
    { unfold terms. rewrite <- list_fmap_compose. apply Forall2_fmap_l. apply Forall2_same_length_lookup_2; [by apply Forall2_length in Hts|].
      intros i x y Hx Hy. destruct (Forall2_lookup_lr _ _ _ _ _ _ Hts Hx Hy) as [Hox Htx]. apply list_elem_of_lookup_2, flatten_or_size in Hx.
      by apply (IH (expr_size x)). }
    destruct (rewriteEqualitySets_truth terms.*1 ts Hterms) as (joined & Hj & Hoj & Htj).
    { intros Hnil. apply Forall2_length in Hts. unfold terms in Hnil. rewrite <- list_fmap_compose in Hnil. apply fmap_nil_inv in Hnil.
      pose proof (flatten_nonempty e LogicalOr). done. }
    cbv zeta. destruct (rewriteEqualitySets terms.*1) as [j sets]. cbn in Hj. subst j. cbn. by rewrite Htj, Hor.
  - rewrite rewriteExpression_other by done. assert (Ht' := Ht). apply truth_of_logical in Ht' as (a & b & Ha & Hb & ->); [|done]. destruct Hok as (Hop & Hl & Hr).
    destruct (IH (expr_size lhs)) with (e := lhs) (t := a) as [L1 L2]; [cbn; lia|done..|].
    destruct (IH (expr_size rhs)) with (e := rhs) (t := b) as [R1 R2]; [cbn; lia|done..|].
    split; [done|]. apply truth_of_logical; [done|]. by exists a, b.
Qed.
End meaning.

(** ** Rows of NULL, by which binding is seen to succeed *)
Lemma NewSchema_kinds fields schema f : NewSchema fields = Ok schema -> schema_field schema f -> kind_valid (fd_Kind f) = true.
Proof.
  intros H (name & Hn & Hf). revert name f Hn Hf. apply (foldM_invariant (fun s => forall name f, Schema_Field s name = Some f -> fd_Filterable f = true -> kind_valid (fd_Kind f) = true)
    add_field fields no_schema schema); [|by intros name f|done].
  intros s g s' IH _ Hs name f Hn Hf. unfold add_field in Hs. case_in Hs; [done|]. destruct (sc_fields s !! fd_Name g); [done|].
  destruct (fd_Filterable g && negb (kind_valid (fd_Kind g))) eqn:Eg; [done|]. case_in Hs; [done|]. injection Hs as <-. unfold Schema_Field in Hn. cbn in Hn.
  destruct (decide (fd_Name g = name)) as [<-|Hne].
  - rewrite lookup_insert_eq in Hn. injection Hn as <-. rewrite Hf in Eg. cbn in Eg. by apply negb_false_iff in Eg.
  - rewrite lookup_insert_ne in Hn by done. by apply (IH name).
Qed.
Definition null_row : Resolver := fun f => NullValue (fd_Kind f) (fd_Array f).
Lemma null_row_ok fields schema : NewSchema fields = Ok schema -> row_of_schema schema null_row.
Proof.
  intros Hs f Hf. pose proof (NewSchema_kinds fields schema f Hs Hf) as Hk. unfold resolves, null_row, NullValue. rewrite Hk. cbn.
  eexists. split; [done|]. split; [|done]. split; [|done..]. apply (BuiltNull (fd_Kind f) (fd_Array f)). unfold NullValue. by rewrite Hk.
Qed.

(** What rewriting and binding make of an expression. *)
Lemma rewrite_bound fields schema e node a :
  NewSchema fields = Ok schema -> expr_ok e -> bindExpression schema e nothing_analyzed = Ok (node, a) ->
  exists node' a', bindExpression schema (RewriteFilter e).1 nothing_analyzed = Ok (node', a') /\ expr_ok (RewriteFilter e).1 /\
    forall resolve, row_of_schema schema resolve -> exists t, evaluate node resolve = Ok t /\ evaluate node' resolve = Ok t.
Proof.
  intros Hs Hok Hb. unfold RewriteFilter. assert (Hall : forall resolve, row_of_schema schema resolve ->
    exists t, truth_of schema resolve e = Some t /\ expr_ok (rewriteExpression e).1 /\ truth_of schema resolve (rewriteExpression e).1 = Some t).
  { intros resolve Hrow. destruct (truth_of_total schema resolve Hrow e node a Hok Hb) as [t Ht]. exists t. split; [done|]. by apply rewriteExpression_truth. }
  destruct (Hall null_row (null_row_ok fields schema Hs)) as (t0 & _ & Hok' & Ht0). unfold truth_of in Ht0.
  destruct (bindExpression schema (rewriteExpression e).1 nothing_analyzed) as [[node' a']|] eqn:Eb; [|done]. exists node', a'. split; [done|]. split; [done|].
  intros resolve Hrow. destruct (Hall resolve Hrow) as (t & Ht & _ & Ht'). exists t. split; [by apply (truth_of_bound schema resolve e node a)|].
  by apply (truth_of_bound schema resolve (rewriteExpression e).1 node' a').
Qed.



(** ** Properties *)

(** C16: binding is type sound.  A plan that the analyzer makes of an expression is
    well typed, whatever its literals and operators; it reads filterable fields of the
    schema only, all of them recorded; and on every row that has values for these
    fields its evaluation ends without an error. *)
Theorem bound_plan_well_typed schema e node a :
  expr_ok e -> bindExpression schema e nothing_analyzed = Ok (node, a) ->
  node_ok node /\ node_fields node ⊆ an_fields a /\ Forall (schema_field schema) (an_fields a) /\
  forall resolve, row_of_schema schema resolve -> exists t, evaluate node resolve = Ok t.
Proof.
  intros Hok H. destruct (bindExpression_spec schema e _ _ _ Hok H (nothing_ok schema)) as (H1 & [H2 _] & _ & H3).
  split; [done|]. split; [done|]. split; [done|]. intros resolve Hrow. destruct (bound_row_ok schema resolve Hrow e node a Hok H) as [_ H4].
  by apply evaluate_ok.
Qed.
(** C15: rewriting keeps the truth of a filter.  If an expression binds to a schema,
    so does the rewritten one, and on every row of the schema both plans evaluate to
    the same of TRUE, FALSE and UNKNOWN, however the equalities and IN predicates of
    an OR were gathered. *)
Theorem filter_rewrite_sound fields schema e node a :
  NewSchema fields = Ok schema -> expr_ok e -> bindExpression schema e nothing_analyzed = Ok (node, a) ->
  exists node' a', bindExpression schema (RewriteFilter e).1 nothing_analyzed = Ok (node', a') /\
    forall resolve, row_of_schema schema resolve -> exists t, evaluate node resolve = Ok t /\ evaluate node' resolve = Ok t.
Proof. intros Hs Hok Hb. destruct (rewrite_bound fields schema e node a Hs Hok Hb) as (node' & a' & H1 & _ & H2). by exists node', a'. Qed.
(** C14: [BuildPlan] keeps the meaning of the filter.  When the parsed expression binds
    to the schema, the whole pipeline of rewriting, binding, empty contain sets and
    constant folding succeeds; its plan is well typed, reads no field but those it
    lists, and keeps a row exactly when the expression as it was parsed is TRUE on it. *)
Theorem build_plan_sound ParseFilter input fields schema e node a :
  NewSchema fields = Ok schema -> ParseFilter input = Ok e -> expr_ok e -> bindExpression schema e nothing_analyzed = Ok (node, a) ->
  exists plan, BuildPlan schema ParseFilter input = Ok plan /\ node_ok (pl_root plan) /\ node_fields (pl_root plan) ⊆ pl_fields plan /\
    forall resolve, row_of_schema schema resolve ->
      exists t, evaluate node resolve = Ok t /\ plan_Match plan resolve = Ok (truth_Match t).
Proof.
  intros Hs Hp Hok Hb. destruct (rewrite_bound fields schema e node a Hs Hok Hb) as (node' & a' & Hb' & Hok' & Hsame).
  unfold BuildPlan. rewrite Hp. destruct (RewriteFilter e) as [rewritten sets]. cbn [fst] in *. rewrite Hb'.
  destruct (bindExpression_spec schema _ _ _ _ Hok' Hb' (nothing_ok schema)) as (N1 & _ & _ & N2).
  set (stats := {| st_EqualitySets := sets; st_EmptyContainRewrites := 0; st_ConstantFolds := 0 |}).
  destruct (optimize_refines node' stats N1) as (O1 & O2 & O3). destruct (optimize node' stats) as [root stats']. cbn [fst] in *.
  eexists. split; [done|]. cbn. split; [done|]. split; [set_solver|]. intros resolve Hrow. destruct (Hsame resolve Hrow) as (t & Ht & Ht'). exists t. split; [done|].
  destruct (bound_row_ok schema resolve Hrow _ _ _ Hok' Hb') as [_ Hr].
  destruct (O3 resolve (truth_Match t) Hr) as (u & Hu & <-); [by exists t|]. unfold plan_Match, plan_Evaluate. cbn. by rewrite Hu.
Qed.

(** ** Witnesses *)
Definition ex_position : Position := {| ps_Offset := 0; ps_Line := 1; ps_Column := 1 |}.
Definition ex_span : Span := {| sp_Start := ex_position; sp_End := ex_position |}.
Definition ex_literal (text : string) : LiteralExpr := {| li_Kind := LiteralInteger; li_Text := bs text; li_Raw := bs text; li_Range := ex_span |}.
Definition ex_equal (name text : string) : Expr := PredicateExpr PredicateEQ (IdentifierExpr (bs name) ex_span) (Some (LiteralValue (ex_literal text))) false ex_span.
(** [a = 5 OR b CONTAIN_ALL () OR a = -7]. *)
Definition ex_filter : Expr :=
  LogicalExpr LogicalOr
    (LogicalExpr LogicalOr (ex_equal "a" "5") (PredicateExpr PredicateContainAll (IdentifierExpr (bs "b") ex_span) (Some (ListExpr [] ex_span)) false ex_span) ex_span)
    (ex_equal "a" "-7") ex_span.
Definition ex_fields : list Field :=
  [{| fd_Name := bs "a"; fd_Kind := ValueInt32; fd_Array := false; fd_Nullable := true; fd_Filterable := true; fd_Indexed := false;
      fd_RangeOptimized := false; fd_ExtendedWildcard := false |};
   {| fd_Name := bs "b"; fd_Kind := ValueString; fd_Array := true; fd_Nullable := true; fd_Filterable := true; fd_Indexed := false;
      fd_RangeOptimized := false; fd_ExtendedWildcard := false |}].
Lemma ex_filter_ok : expr_ok ex_filter.
Proof. by repeat split; right. Qed.
Lemma ex_bound : exists schema node a, NewSchema ex_fields = Ok schema /\ bindExpression schema ex_filter nothing_analyzed = Ok (node, a).
Proof.
  assert (H : match NewSchema ex_fields with Ok s => is_ok (bindExpression s ex_filter nothing_analyzed) | Fail _ => false end = true) by (vm_compute; reflexivity).
  destruct (NewSchema ex_fields) as [schema|]; [|done]. destruct (bindExpression schema ex_filter nothing_analyzed) as [[node a]|] eqn:Eb; [|done].
  by exists schema, node, a.
Qed.
Lemma bound_plan_well_typed_witness :
  exists schema node a t, bindExpression schema ex_filter nothing_analyzed = Ok (node, a) /\ node_ok node /\ evaluate node null_row = Ok t.
Proof.
  destruct ex_bound as (schema & node & a & Es & Eb). destruct (bound_plan_well_typed schema ex_filter node a ex_filter_ok Eb) as (H1 & _ & _ & H2).
  destruct (H2 null_row (null_row_ok ex_fields schema Es)) as [t Ht]. by exists schema, node, a, t.
Defined.
Lemma filter_rewrite_sound_witness :
  (RewriteFilter ex_filter).2 = 1 /\
  exists schema node node' a' t, bindExpression schema (RewriteFilter ex_filter).1 nothing_analyzed = Ok (node', a') /\
    evaluate node null_row = Ok t /\ evaluate node' null_row = Ok t.
Proof.
  split; [reflexivity|]. destruct ex_bound as (schema & node & a & Es & Eb).
  destruct (filter_rewrite_sound ex_fields schema ex_filter node a Es ex_filter_ok Eb) as (node' & a' & H1 & H2).
  destruct (H2 null_row (null_row_ok ex_fields schema Es)) as (t & H3 & H4). by exists schema, node, node', a', t.
Defined.
Lemma build_plan_sound_witness :
  exists schema plan, BuildPlan schema (fun _ => Ok ex_filter) [] = Ok plan /\ node_ok (pl_root plan) /\ is_ok (plan_Match plan null_row) = true.
Proof.
  destruct ex_bound as (schema & node & a & Es & Eb).
  destruct (build_plan_sound (fun _ => Ok ex_filter) [] ex_fields schema ex_filter node a Es eq_refl ex_filter_ok Eb) as (plan & H1 & H2 & _ & H3).
  exists schema, plan. split; [done|]. split; [done|]. destruct (H3 null_row (null_row_ok ex_fields schema Es)) as (t & _ & ->). reflexivity.
Defined.
