(* ===== verification/FtsPack.v ===== *)
(** * Packed integers of the full-text posting lists

    The encodings below the posting lists of
    [internal/db/index/column/fts_column/fts_posting.go]: arrays of [uint32]
    packed at a common bit width ([packFTSUint32], [unpackFTSUint32Into] and
    the sizes around them) and delta-varint token positions
    ([appendFTSPositionDeltas], [decodeFTSPositionDeltas]), with the
    [Uvarint] code of [encoding/binary].  Arrays of a full block go through
    the package [github.com/parquet-go/bitpack]; it is the class [Bitpack],
    and [BitpackLaws] states what its documentation promises: a packed array
    with its padding unpacks to the values.

    The proofs see a packed array as one little-endian number whose digits in
    base [2^width] are the values ([packed_number]); packing and unpacking
    are shown to compute exactly these digits. *)
From S2P Require Import Prelude Bytes.

(** ** Constants *)
Definition ftsPostingDocumentsBlock : Z := 128.

(** ** [encoding/binary]: varints *)

(** [binary.AppendUvarint]: the bytes it appends; ten of them hold any [uint64]. *)
Fixpoint append_uvarint (fuel : nat) (x : Z) : bytes :=
  match fuel with
  | O => []
  | S fuel =>
      if 128 <=? x then byte_of_Z (Z.lor (Z.land x 255) 128) :: append_uvarint fuel (Z.shiftr x 7)
      else [byte_of_Z x]
  end.
Definition AppendUvarint (buf : bytes) (x : Z) : bytes := buf ++ append_uvarint 10 x.

(** [binary.Uvarint]: the value and the number of bytes read, which is not positive on an error. *)
Fixpoint uvarint_loop (buf : bytes) (i x s : Z) : Z * Z :=
  match buf with
  | [] => (0, 0)
  | b :: buf =>
      let b := Z_of_byte b in
      if i =? 10 then (0, -(i + 1))
      else if b <? 128 then
        if (i =? 9) && (1 <? b) then (0, -(i + 1))
        else (Z.lor x (wrap64 (Z.shiftl b s)), i + 1)
      else uvarint_loop buf (i + 1) (Z.lor x (wrap64 (Z.shiftl (Z.land b 127) s))) (s + 7)
  end.
Definition Uvarint (buf : bytes) : Z * Z := uvarint_loop buf 0 0 0.

(** ** Token positions *)

(** The polls [if work&4095 == 0 { if err := ctx.Err() ... }] of the loops. *)
Definition poll (ctx : context) (work : Z) : option gerror :=
  if Z.land work 4095 =? 0 then ctx_Err ctx else None.

Fixpoint append_deltas (ctx : context) (index : Z) (destination : bytes) (previous : Z) (positions : list Z) : result bytes :=
  match positions with
  | [] => Ok destination
  | position :: positions =>
      match poll ctx index with
      | Some e => Fail e
      | None => append_deltas ctx (index + 1) (AppendUvarint destination (wrap32 (position - previous))) position positions
      end
  end.
Definition appendFTSPositionDeltas (ctx : context) (destination : bytes) (positions : list Z) : result bytes :=
  append_deltas ctx 0 destination 0 positions.

Fixpoint decode_deltas (ctx : context) (count : nat) (index : Z) (data : bytes) (previous : Z) (positions : list Z) : result (list Z) :=
  match count with
  | O => if bool_decide (data = []) then Ok positions else Fail (errors_New "position payload has trailing bytes")
  | S count =>
      match poll ctx index with
      | Some e => Fail e
      | None =>
          let '(value, length) := Uvarint data in
          if (length <=? 0) || (u32_max <? value) || (u32_max - previous <? value) then Fail (errors_New "invalid delta-varint positions")
          else decode_deltas ctx count (index + 1) (drop (Z.to_nat length) data) (previous + value) (positions ++ [previous + value])
      end
  end.
Definition decodeFTSPositionDeltas (ctx : context) (data : bytes) (count : Z) : result (list Z) :=
  if zlen data <? count then Fail (errors_New "position count exceeds payload length")
  else decode_deltas ctx (Z.to_nat count) 0 data 0 [].

(** ** Packed arrays *)

(** [bits.Len32] *)
Definition Len32 (x : Z) : Z := if x =? 0 then 0 else Z.log2 x + 1.
Definition ftsBitsNeeded (value : Z) : Z := Len32 value.
Definition maxUint32Slice (values : list Z) : Z := fold_left Z.max values 0.

Definition ftsPackedByteSize (width count : Z) : Z := (width * count + 7) / 8.

(** [output[k] |= z] *)
Definition or_byte (k : nat) (z : Z) (output : bytes) : bytes :=
  alter (fun b => byte_of_Z (Z.lor (Z_of_byte b) z)) k output.

Fixpoint pack_value (fuel : nat) (output : bytes) (value remaining bitOffset : Z) : bytes :=
  match fuel with
  | O => output
  | S fuel =>
      if 0 <? remaining then
        let byteIndex := Z.shiftr bitOffset 3 in
        let shift := Z.land bitOffset 7 in
        let take := Z.min remaining (8 - shift) in
        let mask := Z.shiftl 1 take - 1 in
        pack_value fuel (or_byte (Z.to_nat byteIndex) (Z.shiftl (Z.land value mask) shift mod 256) output)
          (Z.shiftr value take) (remaining - take) (bitOffset + take)
      else output
  end.
Fixpoint pack_values (output : bytes) (values : list Z) (width bitOffset : Z) : bytes :=
  match values with
  | [] => output
  | value :: values =>
      pack_values (pack_value (Z.to_nat width) output value width bitOffset) values width (bitOffset + width)
  end.
Definition packFTSUint32 (values : list Z) (width : Z) : bytes :=
  let output := make_bytes (Z.to_nat (ftsPackedByteSize width (zlen values))) in
  if width =? 0 then output else pack_values output values width 0.

(** The refill of the reservoir byte by byte; at most four bytes are missing. *)
Fixpoint refill_bytes (fuel : nat) (data : bytes) (width : Z) (input : nat) (reservoir available : Z) : nat * Z * Z :=
  match fuel with
  | O => (input, reservoir, available)
  | S fuel =>
      if available <? width then
        refill_bytes fuel data width (input + 1)
          (Z.lor reservoir (wrap64 (Z.shiftl (Z_of_byte (default x00 (data !! input))) available))) (available + 8)
      else (input, reservoir, available)
  end.
Definition refill (data : bytes) (width : Z) (input : nat) (reservoir available : Z) : nat * Z * Z :=
  if available <? width then
    if 4 <=? zlen data - Z.of_nat input then
      ((input + 4)%nat, Z.lor reservoir (wrap64 (Z.shiftl (le_get (slice input (input + 4) data)) available)), available + 32)
    else refill_bytes 4 data width input reservoir available
  else (input, reservoir, available).
Fixpoint unpack_values (count : nat) (data : bytes) (width mask : Z) (input : nat) (reservoir available : Z) : list Z :=
  match count with
  | O => []
  | S count =>
      let '(input, reservoir, available) := refill data width input reservoir available in
      wrap32 (Z.land reservoir mask) :: unpack_values count data width mask input (Z.shiftr reservoir width) (available - width)
  end.

(** [bitpack.Pack(dst, values, width)], [bitpack.Unpack(dst, src, width)]: the
    destination afterwards.  Unpacking overwrites the whole destination, of
    which only the length is passed. *)
Class Bitpack := {
  PaddingInt32 : nat;
  bitpack_Pack : bytes -> list Z -> Z -> bytes;
  bitpack_Unpack : nat -> bytes -> Z -> list Z
}.

Class BitpackLaws `{!Bitpack} := {
  Pack_length dst values width :
    zlen dst = ftsPackedByteSize width (zlen values) -> length (bitpack_Pack dst values width) = length dst;
  Unpack_length n src width : length (bitpack_Unpack n src width) = n;
  Unpack_range n src width : Forall is_u32 (bitpack_Unpack n src width);
  Unpack_Pack values width :
    1 <= width <= 32 -> Forall (fun v => 0 <= v < 2 ^ width) values ->
    bitpack_Unpack (length values)
      (bitpack_Pack (make_bytes (Z.to_nat (ftsPackedByteSize width (zlen values)))) values width ++ make_bytes PaddingInt32) width = values
}.

Section packed.
Context `{BP : !Bitpack}.

Definition ftsPackedStorageSize (width count : Z) : Z :=
  let size := ftsPackedByteSize width count in
  if count =? ftsPostingDocumentsBlock then size + Z.of_nat PaddingInt32 else size.

Definition appendFTSPackedUint32 (destination : bytes) (values : list Z) (width : Z) : bytes :=
  if negb (zlen values =? ftsPostingDocumentsBlock) then destination ++ packFTSUint32 values width
  else
    let packedSize := Z.to_nat (ftsPackedByteSize width (zlen values)) in
    let start := length destination in
    let destination := destination ++ make_bytes (packedSize + PaddingInt32) in
    if 0 <? width then splice start (bitpack_Pack (slice start (start + packedSize) destination) values width) destination
    else destination.

(** The [output] array is overwritten as a whole; [count] is its length. *)
Definition unpackFTSUint32Into (data : bytes) (width : Z) (count : nat) : list Z :=
  if width =? 0 then replicate count 0
  else
    let packedSize := ftsPackedByteSize width (Z.of_nat count) in
    if (Z.of_nat count =? ftsPostingDocumentsBlock) && (packedSize + Z.of_nat PaddingInt32 <=? zlen data)
    then bitpack_Unpack count data width
    else unpack_values count data width (if width <? 32 then Z.shiftl 1 width - 1 else u32_max) 0 0 0.
Definition unpackFTSUint32 (data : bytes) (width count : Z) : list Z := unpackFTSUint32Into data width (Z.to_nat count).
End packed.

Example pack_example : packFTSUint32 [1; 2; 3] 2 = [byte_of_Z 57].
Proof. vm_compute. reflexivity. Qed.

(** ** Bit lemmas *)

(** An [or] of disjoint bit ranges is a sum. *)
Lemma lor_shiftl x y s : 0 <= s -> 0 <= x < 2 ^ s -> 0 <= y -> Z.lor x (Z.shiftl y s) = x + y * 2 ^ s.
Proof.
  intros Hs Hx Hy. rewrite <- Z.shiftl_mul_pow2 by done.
  assert (Z.land x (Z.shiftl y s) = 0) as Hl.
  { apply Z.bits_inj'. intros n Hn. rewrite Z.land_spec, Z.bits_0, Z.shiftl_spec by done.
    destruct (decide (n < s)).
    - rewrite (Z.testbit_neg_r y) by lia. apply andb_false_r.
    - rewrite <- (Z.mod_small x (2 ^ s)), Z.mod_pow2_bits_high by lia. done. }
  by rewrite <- (Z.lxor_lor _ _ Hl), <- Z.add_nocarry_lxor.
Qed.

Lemma land_low x n : 0 <= n -> Z.land x (Z.shiftl 1 n - 1) = x mod 2 ^ n.
Proof. intros H. rewrite Z.shiftl_1_l. change (2 ^ n - 1) with (Z.pred (2 ^ n)). rewrite <- Z.ones_equiv. by apply Z.land_ones. Qed.

Lemma land_7 x : Z.land x 7 = x mod 8.
Proof. change 7 with (Z.ones 3). by rewrite Z.land_ones. Qed.

(** The bytes of a varint: seven bits and the continuation mark. *)
Lemma uvarint_byte x : 0 <= x ->
  Z.lor (Z.land x 255) 128 = x mod 128 + 128.
Proof.
  intros Hx. assert (Z.lor (Z.land x 255) 128 = Z.lor (x mod 128) 128) as ->.
  { change 255 with (Z.ones 8). rewrite (Z.land_ones x 8) by lia. change 128 with (2 ^ 7). apply Z.bits_inj'. intros n Hn.
    rewrite !Z.lor_spec, Z.pow2_bits_eqb by lia. destruct (decide (n < 7)); [by rewrite !Z.mod_pow2_bits_low by lia|].
    destruct (decide (n = 7)) as [->|]; [by rewrite !orb_true_r|]. by rewrite !Z.mod_pow2_bits_high by lia. }
  pose proof (lor_shiftl (x mod 128) 1 7 ltac:(lia) ltac:(apply Z.mod_pos_bound; lia) ltac:(lia)) as H.
  by rewrite Z.mul_1_l in H.
Qed.

Lemma pow2_split a b : 0 <= a -> 0 <= b -> 2 ^ (a + b) = 2 ^ a * 2 ^ b.
Proof. apply Z.pow_add_r. Qed.

Lemma wrap64_small z : 0 <= z < 2 ^ 64 -> wrap64 z = z.
Proof. intros H. apply Z.mod_small. exact H. Qed.

(** ** Varints *)
Lemma append_uvarint_nonempty fuel x : (0 < fuel)%nat -> (0 < length (append_uvarint fuel x))%nat.
Proof. destruct fuel; [lia|]. cbn. destruct (_ <=? _); cbn; lia. Qed.

Lemma uvarint_loop_append n x rest i acc :
  0 <= x -> 0 <= i -> i + Z.of_nat n = 10 -> 0 <= acc < 2 ^ (7 * i) -> acc + x * 2 ^ (7 * i) < 2 ^ 64 -> x < 2 ^ (7 * Z.of_nat n) ->
  (0 < n)%nat ->
  uvarint_loop (append_uvarint n x ++ rest) i acc (7 * i) = (acc + x * 2 ^ (7 * i), i + zlen (append_uvarint n x)).
Proof.
  revert x i acc. induction n as [|n IH]; intros x i acc Hx Hi Hn Ha Hb Hxn Hpos; [lia|].
  cbn [append_uvarint].
  pose proof (Z.pow_pos_nonneg 2 (7 * i) ltac:(lia) ltac:(lia)) as Hp.
  destruct (128 <=? x) eqn:E; to_prop.
  - rewrite uvarint_byte by done. cbn [app uvarint_loop]. rewrite (proj2 (Z.eqb_neq i 10)) by lia. rewrite Z_of_byte_of_Z.
    pose proof (Z.mod_pos_bound x 128 ltac:(lia)). rewrite (Z.mod_small (x mod 128 + 128)) by lia.
    destruct (x mod 128 + 128 <? 128) eqn:E1; to_prop; [lia|].
    replace (Z.land (x mod 128 + 128) 127) with (x mod 128).
    2:{ change 127 with (Z.ones 7). rewrite Z.land_ones by lia. change (2 ^ 7) with 128.
        replace (x mod 128 + 128) with (x mod 128 + 1 * 128) by lia. by rewrite Z.mod_add, Z.mod_mod by lia. }
    assert (x = 128 * (x / 128) + x mod 128) as Hd by (apply Z.div_mod; lia).
    assert (0 <= x / 128) by (apply Z.div_pos; lia).
    assert (2 ^ (7 * i + 7) = 2 ^ (7 * i) * 128) as Hs by (rewrite pow2_split by lia; done).
    assert ((x mod 128) * 2 ^ (7 * i) < 2 ^ 64) by nia.
    rewrite (wrap64_small (Z.shiftl _ _)) by (rewrite Z.shiftl_mul_pow2 by lia; nia).
    rewrite lor_shiftl by lia. replace (7 * i + 7) with (7 * (i + 1)) in * by lia.
    rewrite Z.shiftr_div_pow2 by lia. change (2 ^ 7) with 128.
    assert (0 < n)%nat. { destruct n; [|lia]. replace (7 * Z.of_nat 1) with 7 in Hxn by lia. change (2 ^ 7) with 128 in Hxn. lia. }
    rewrite IH; [|lia..| | | |done].
    + rewrite zlen_cons. f_equal; [|lia]. rewrite Hs. nia.
    + split; [nia|]. rewrite Hs. nia.
    + rewrite Hs. nia.
    + apply Z.div_lt_upper_bound; [lia|]. change 128 with (2 ^ 7). rewrite <- pow2_split by lia. replace (7 + 7 * Z.of_nat n) with (7 * Z.of_nat (S n)) by lia. done.
  - cbn [app uvarint_loop]. rewrite (proj2 (Z.eqb_neq i 10)) by lia. rewrite Z_of_byte_of_Z, (Z.mod_small x) by lia.
    destruct (x <? 128) eqn:E1; to_prop; [|lia].
    assert ((i =? 9) && (1 <? x) = false) as ->.
    { apply andb_false_iff. destruct (decide (i = 9)) as [->|]; [right|left; by apply Z.eqb_neq].
      apply Z.ltb_ge. change (2 ^ (7 * 9)) with 9223372036854775808 in *. change (2 ^ 64) with 18446744073709551616 in *. nia. }
    rewrite (wrap64_small (Z.shiftl _ _)) by (rewrite Z.shiftl_mul_pow2 by lia; nia).
    by rewrite lor_shiftl by lia.
Qed.

(** [Uvarint] reads back what [AppendUvarint] wrote. *)
Lemma Uvarint_append x rest : is_u64 x -> Uvarint (append_uvarint 10 x ++ rest) = (x, zlen (append_uvarint 10 x)).
Proof.
  unfold is_u64, u64_max. intros H. unfold Uvarint. change 0 with (7 * 0) at 3.
  rewrite uvarint_loop_append; cbn -[append_uvarint]; [f_equal; lia|lia..].
Qed.

(** ** Token positions *)

(** Positions that do not decrease from [previous] on and are [uint32]s. *)
Fixpoint ascending (previous : Z) (positions : list Z) : Prop :=
  match positions with
  | [] => True
  | position :: positions => previous <= position <= u32_max /\ ascending position positions
  end.

#[global] Instance ascending_dec previous positions : Decision (ascending previous positions).
Proof. revert previous. induction positions as [|p ps IH]; intros previous; cbn; apply _. Defined.

(** The payload of [appendFTSPositionDeltas]. *)
Fixpoint deltas_bytes (previous : Z) (positions : list Z) : bytes :=
  match positions with
  | [] => []
  | position :: positions => append_uvarint 10 (position - previous) ++ deltas_bytes position positions
  end.

Lemma poll_live work : poll CtxLive work = None.
Proof. unfold poll. by destruct (_ =? _). Qed.

Lemma append_deltas_spec index destination previous positions :
  0 <= previous -> ascending previous positions ->
  append_deltas CtxLive index destination previous positions = Ok (destination ++ deltas_bytes previous positions).
Proof.
  revert index destination previous. induction positions as [|p ps IH]; intros index destination previous Hp Ha; cbn [append_deltas deltas_bytes].
  - by rewrite app_nil_r.
  - destruct Ha as [Hr Ha]. rewrite poll_live, IH by (done || lia). unfold AppendUvarint, wrap32. rewrite Z.mod_small by (unfold u32_max in *; lia).
    by rewrite app_assoc.
Qed.

Lemma length_deltas_bytes previous positions : (length positions <= length (deltas_bytes previous positions))%nat.
Proof.
  revert previous. induction positions as [|p ps IH]; intros previous; cbn [length deltas_bytes]; [lia|].
  rewrite length_app. pose proof (append_uvarint_nonempty 10 (p - previous) ltac:(lia)). specialize (IH p). lia.
Qed.

Lemma decode_deltas_bytes index previous positions acc :
  0 <= previous -> ascending previous positions ->
  decode_deltas CtxLive (length positions) index (deltas_bytes previous positions) previous acc = Ok (acc ++ positions).
Proof.
  revert index previous acc. induction positions as [|p ps IH]; intros index previous acc Hp Ha; cbn [decode_deltas deltas_bytes length].
  - by rewrite bool_decide_true, app_nil_r.
  - destruct Ha as [Hr Ha]. unfold u32_max in *. rewrite poll_live, Uvarint_append by (unfold is_u64, u64_max; lia).
    pose proof (append_uvarint_nonempty 10 (p - previous) ltac:(lia)).
    assert ((zlen (append_uvarint 10 (p - previous)) <=? 0) = false) as -> by (apply Z.leb_gt; unfold zlen; lia).
    assert ((4294967295 <? p - previous) = false) as -> by (apply Z.ltb_ge; lia).
    assert ((4294967295 - previous <? p - previous) = false) as -> by (apply Z.ltb_ge; lia). cbn [orb].
    rewrite zlen_to_nat, drop_app_length. replace (previous + (p - previous)) with p by lia. rewrite IH by (done || lia). by rewrite <- app_assoc.
Qed.

Lemma uvarint_loop_nonneg buf i x s : 0 <= x -> 0 <= fst (uvarint_loop buf i x s).
Proof.
  revert i x s. induction buf as [|b buf IH]; intros i x s Hx; cbn [uvarint_loop fst]; [lia|].
  repeat case_if; cbn [fst]; try lia; [|apply IH]; apply Z.lor_nonneg; (split; [done|apply wrap64_range]).
Qed.

(** Positions that decode are ascending and as many as asked for. *)
Lemma decode_deltas_sound count index data previous acc positions :
  0 <= previous -> decode_deltas CtxLive count index data previous acc = Ok positions ->
  exists ps, positions = acc ++ ps /\ length ps = count /\ ascending previous ps.
Proof.
  revert index data previous acc. induction count as [|n IH]; intros index data previous acc Hp H; cbn [decode_deltas] in H.
  - case_bool_decide; [|done]. injection H as <-. exists []. by rewrite app_nil_r.
  - rewrite poll_live in H. pose proof (uvarint_loop_nonneg data 0 0 0 ltac:(lia)) as Hv. fold (Uvarint data) in Hv.
    destruct (Uvarint data) as [value len]. cbn [fst] in Hv. case_in H; [done|]. to_prop.
    apply IH in H as (ps & -> & Hl & Ha); [|lia]. exists (previous + value :: ps). rewrite <- app_assoc. cbn. split_and!; (done || lia).
Qed.

(** Decoding the positions of a posting gives back what was appended. *)
Lemma positions_roundtrip positions :
  ascending 0 positions -> decodeFTSPositionDeltas CtxLive (deltas_bytes 0 positions) (zlen positions) = Ok positions.
Proof.
  intros Ha. unfold decodeFTSPositionDeltas. pose proof (length_deltas_bytes 0 positions).
  assert (zlen (deltas_bytes 0 positions) <? zlen positions = false) as -> by (apply Z.ltb_ge; unfold zlen; lia).
  rewrite zlen_to_nat. by apply decode_deltas_bytes.
Qed.

Lemma positions_sound data count positions :
  0 <= count -> decodeFTSPositionDeltas CtxLive data count = Ok positions ->
  zlen positions = count /\ ascending 0 positions.
Proof.
  intros Hc. unfold decodeFTSPositionDeltas. case_if; [done|]. intros H.
  apply decode_deltas_sound in H as (ps & -> & Hl & Ha); [|lia]. split; [unfold zlen; cbn [app]; lia|done].
Qed.

(** ** Packing *)

(** The number whose digits in base [2^width] are the values. *)
Fixpoint packed_number (width : Z) (values : list Z) : Z :=
  match values with
  | [] => 0
  | v :: values => v + 2 ^ width * packed_number width values
  end.

Lemma le_get_app a b : le_get (a ++ b) = le_get a + 256 ^ zlen a * le_get b.
Proof.
  induction a as [|x a IH]; [change (le_get b = 0 + 1 * le_get b); lia|]. cbn [app le_get]. rewrite IH, zlen_cons, Z.pow_add_r by (apply zlen_nonneg || lia).
  change (256 ^ 1) with 256. lia.
Qed.

Lemma le_get_zeros n : le_get (make_bytes n) = 0.
Proof. induction n as [|n IH]; [done|]. cbn [make_bytes replicate le_get] in *. unfold make_bytes in IH. rewrite IH, <- x00_byte, Z_of_byte_of_Z. done. Qed.

Lemma pow256 k : 0 <= k -> 256 ^ k = 2 ^ (8 * k).
Proof. intros H. change 256 with (2 ^ 8). by rewrite <- Z.pow_mul_r by lia. Qed.

Lemma length_or_byte k z output : length (or_byte k z output) = length output.
Proof. apply length_alter. Qed.

(** Setting bits above all the bits set so far adds their number. *)
Lemma or_byte_spec k s x output :
  (k < length output)%nat -> 0 <= s <= 8 -> 0 <= x < 2 ^ (8 - s) -> le_get output < 2 ^ (8 * Z.of_nat k + s) ->
  le_get (or_byte k (Z.shiftl x s mod 256) output) = le_get output + x * 2 ^ (8 * Z.of_nat k + s).
Proof.
  intros Hk Hs Hx Hb. destruct (lookup_lt_is_Some_2 _ _ Hk) as [b Hlk].
  assert (exists pre post, output = pre ++ b :: post /\ length pre = k) as (pre & post & -> & Hl).
  { exists (take k output), (drop (S k) output). split; [by rewrite take_drop_middle|rewrite length_take; lia]. }
  clear Hlk Hk.
  unfold or_byte. rewrite alter_app_r_alt by lia. replace (k - length pre)%nat with 0%nat by lia. cbn [alter list_alter].
  rewrite !le_get_app in *. cbn [le_get] in *. rewrite Z_of_byte_of_Z.
  assert (zlen pre = Z.of_nat k) as Hz by (unfold zlen; lia). rewrite Hz, pow256 in * by lia.
  pose proof (le_get_bound pre) as [Hp _]. pose proof (le_get_bound post) as [Hq _]. pose proof (Z_of_byte_range b) as Hbr.
  rewrite pow2_split in * by lia. pose proof (Z.pow_pos_nonneg 2 (8 * Z.of_nat k) ltac:(lia) ltac:(lia)) as H1.
  pose proof (Z.pow_pos_nonneg 2 s ltac:(lia) ltac:(lia)) as H2. assert (2 ^ 8 = 2 ^ s * 2 ^ (8 - s)) as H8 by (rewrite <- pow2_split by lia; f_equal; lia).
  change (2 ^ 8) with 256 in H8. assert (Z_of_byte b + 256 * le_get post < 2 ^ s) as Hr by nia.
  assert (2 ^ s <= 256) by nia. assert (le_get post = 0) as Hpost by nia.
  rewrite Z.shiftl_mul_pow2 by lia. rewrite (Z.mod_small (x * 2 ^ s)) by nia. rewrite <- Z.shiftl_mul_pow2, lor_shiftl by lia.
  rewrite Z.mod_small by nia. nia.
Qed.

Lemma pack_value_spec fuel output value remaining bitOffset :
  0 <= value -> 0 <= remaining <= Z.of_nat fuel -> 0 <= bitOffset -> bitOffset + remaining <= 8 * zlen output -> le_get output < 2 ^ bitOffset ->
  length (pack_value fuel output value remaining bitOffset) = length output /\
  le_get (pack_value fuel output value remaining bitOffset) = le_get output + (value mod 2 ^ remaining) * 2 ^ bitOffset.
Proof.
  revert output value remaining bitOffset. induction fuel as [|fuel IH]; intros output value remaining bitOffset Hv Hr Hb Hl Hlt; cbn [pack_value].
  { replace remaining with 0 by lia. rewrite Z.mod_1_r. lia. }
  destruct (0 <? remaining) eqn:E; to_prop.
  2:{ replace remaining with 0 by lia. rewrite Z.mod_1_r. lia. }
  rewrite land_7, Z.shiftr_div_pow2 by lia. change (2 ^ 3) with 8.
  pose proof (Z.mod_pos_bound bitOffset 8 ltac:(lia)) as Hm. pose proof (Z.div_mod bitOffset 8 ltac:(lia)) as Hd.
  set (s := bitOffset mod 8) in *. set (k := bitOffset / 8) in *. assert (0 <= k) by (apply Z.div_pos; lia).
  set (t := Z.min remaining (8 - s)). assert (0 < t <= 8 - s /\ t <= remaining) as Ht by lia. clearbody t.
  rewrite land_low by lia. pose proof (Z.pow_pos_nonneg 2 t ltac:(lia) ltac:(lia)) as Hpt.
  pose proof (Z.mod_pos_bound value (2 ^ t) ltac:(lia)). assert (2 ^ t <= 2 ^ (8 - s)) by (apply Z.pow_le_mono_r; lia).
  assert (8 * Z.of_nat (Z.to_nat k) + s = bitOffset) as Hko by lia.
  pose proof (or_byte_spec (Z.to_nat k) s (value mod 2 ^ t) output ltac:(unfold zlen in *; lia) ltac:(lia) ltac:(lia) ltac:(by rewrite Hko)) as Ho.
  rewrite Hko in Ho. pose proof (Z.pow_pos_nonneg 2 bitOffset ltac:(lia) ltac:(lia)).
  destruct (IH (or_byte (Z.to_nat k) (Z.shiftl (value mod 2 ^ t) s mod 256) output) (Z.shiftr value t) (remaining - t) (bitOffset + t)) as [IHl IHg].
  - by apply Z.shiftr_nonneg.
  - lia.
  - lia.
  - unfold zlen in *. rewrite length_or_byte. lia.
  - rewrite Ho, pow2_split by lia. nia.
  - rewrite IHl, IHg, length_or_byte, Ho. split; [done|]. rewrite Z.shiftr_div_pow2, pow2_split by lia.
    replace (2 ^ remaining) with (2 ^ t * 2 ^ (remaining - t)) by (rewrite <- pow2_split by lia; f_equal; lia).
    rewrite (Z.rem_mul_r value) by (lia || apply Z.pow_nonzero; lia). lia.
Qed.

Lemma packed_number_bound width values :
  0 <= width -> Forall (fun v => 0 <= v < 2 ^ width) values -> 0 <= packed_number width values < 2 ^ (width * zlen values).
Proof.
  intros Hw. induction 1 as [|v values Hv _ IH]; cbn [packed_number]; [change (zlen []) with 0; rewrite Z.mul_0_r; cbn; lia|].
  rewrite zlen_cons, Z.mul_add_distr_l, Z.mul_1_r, pow2_split by (pose proof (zlen_nonneg values); nia). nia.
Qed.

Lemma pack_values_spec output values width bitOffset :
  0 <= width -> Forall (fun v => 0 <= v < 2 ^ width) values -> 0 <= bitOffset -> bitOffset + width * zlen values <= 8 * zlen output -> le_get output < 2 ^ bitOffset ->
  length (pack_values output values width bitOffset) = length output /\
  le_get (pack_values output values width bitOffset) = le_get output + packed_number width values * 2 ^ bitOffset.
Proof.
  intros Hw Hf. revert output bitOffset. induction Hf as [|v values Hv Hf IH]; intros output bitOffset Hb Hl Hlt; cbn [pack_values packed_number]; [lia|].
  rewrite zlen_cons in Hl. pose proof (zlen_nonneg values).
  destruct (pack_value_spec (Z.to_nat width) output v width bitOffset) as [Hpl Hpg]; [lia|lia|lia|nia|done|].
  rewrite (Z.mod_small v) in Hpg by done. pose proof (Z.pow_pos_nonneg 2 bitOffset ltac:(lia) ltac:(lia)).
  destruct (IH (pack_value (Z.to_nat width) output v width bitOffset) (bitOffset + width)) as [IHl IHg]; [lia| | |].
  - unfold zlen in *. rewrite Hpl. lia.
  - rewrite Hpg, pow2_split by lia. nia.
  - rewrite IHl, IHg, Hpl, Hpg, pow2_split by lia. split; [done|]. lia.
Qed.

Lemma packed_size_bits width count : 0 <= width * count -> width * count <= 8 * ftsPackedByteSize width count.
Proof. intros H. unfold ftsPackedByteSize. pose proof (Z.div_mod (width * count + 7) 8 ltac:(lia)). pose proof (Z.mod_pos_bound (width * count + 7) 8 ltac:(lia)). lia. Qed.

Lemma packed_size_nonneg width count : 0 <= width -> 0 <= count -> 0 <= ftsPackedByteSize width count.
Proof. intros. apply Z.div_pos; nia. Qed.

(** [packFTSUint32] writes the packed number in the packed size. *)
Lemma packFTSUint32_spec values width :
  0 <= width -> Forall (fun v => 0 <= v < 2 ^ width) values ->
  zlen (packFTSUint32 values width) = ftsPackedByteSize width (zlen values) /\
  le_get (packFTSUint32 values width) = packed_number width values.
Proof.
  intros Hw Hf. pose proof (zlen_nonneg values) as Hz. pose proof (packed_size_nonneg width (zlen values) Hw Hz) as Hs.
  assert (zlen (make_bytes (Z.to_nat (ftsPackedByteSize width (zlen values)))) = ftsPackedByteSize width (zlen values)) as Hm
    by (unfold zlen at 1, make_bytes; rewrite length_replicate; lia).
  unfold packFTSUint32. destruct (width =? 0) eqn:E; to_prop.
  - subst width. rewrite Hm, le_get_zeros. split; [done|]. clear -Hf. induction Hf as [|v vs Hv _ IH]; [done|]. cbn [packed_number].
    change (2 ^ 0) with 1 in *. lia.
  - destruct (pack_values_spec (make_bytes (Z.to_nat (ftsPackedByteSize width (zlen values)))) values width 0) as [Hl Hg]; try done.
    + rewrite Hm. pose proof (packed_size_bits width (zlen values)). nia.
    + by rewrite le_get_zeros.
    + rewrite le_get_zeros in Hg. split; [unfold zlen in *; by rewrite Hl|]. lia.
Qed.

(** ** Unpacking *)

(** The low [count] digits of [n] in base [2^width]. *)
Fixpoint digits (width : Z) (count : nat) (n : Z) : list Z :=
  match count with
  | O => []
  | S count => n mod 2 ^ width :: digits width count (n / 2 ^ width)
  end.

Lemma length_digits width count n : length (digits width count n) = count.
Proof. revert n. induction count as [|c IH]; intros n; cbn; [done|by rewrite IH]. Qed.

Lemma digits_range width count n : 0 <= width <= 32 -> Forall is_u32 (digits width count n).
Proof.
  intros Hw. revert n. induction count as [|c IH]; intros n; cbn [digits]; constructor; [|done].
  pose proof (Z.pow_pos_nonneg 2 width ltac:(lia) ltac:(lia)). pose proof (Z.mod_pos_bound n (2 ^ width) ltac:(lia)).
  assert (2 ^ width <= 2 ^ 32) by (apply Z.pow_le_mono_r; lia). unfold is_u32, u32_max. change (2 ^ 32) with 4294967296 in *. lia.
Qed.

Lemma digits_packed width values :
  0 <= width -> Forall (fun v => 0 <= v < 2 ^ width) values -> digits width (length values) (packed_number width values) = values.
Proof.
  intros Hw. induction 1 as [|v values Hv Hf IH]; [done|]. cbn [packed_number digits length].
  rewrite (Z.mul_comm (2 ^ width)), Z.mod_add, Z.mod_small, Z.div_add, Z.div_small by lia. by rewrite Z.add_0_l, IH.
Qed.

(** A slice of bytes is a range of bits of the number. *)
Lemma le_get_slice i c data :
  (i + c <= length data)%nat -> le_get (slice i (i + c) data) = (le_get data / 2 ^ (8 * Z.of_nat i)) mod 2 ^ (8 * Z.of_nat c).
Proof.
  intros H. unfold slice. replace (i + c - i)%nat with c by lia.
  rewrite <- (take_drop i data) at 2. rewrite <- (take_drop c (drop i data)) at 2. rewrite !le_get_app.
  assert (zlen (take i data) = Z.of_nat i) as Hi by (unfold zlen; rewrite length_take; lia).
  assert (zlen (take c (drop i data)) = Z.of_nat c) as Hc by (unfold zlen; rewrite length_take, length_drop; lia).
  pose proof (le_get_bound (take i data)) as H1. pose proof (le_get_bound (take c (drop i data))) as H2. rewrite Hi, Hc, !pow256 in * by lia.
  rewrite (Z.mul_comm (2 ^ (8 * Z.of_nat i))), Z.div_add, Z.div_small, Z.add_0_l by lia.
  by rewrite (Z.mul_comm (2 ^ (8 * Z.of_nat c))), Z.mod_add, Z.mod_small by lia.
Qed.

(** The reservoir after [input] bytes of [n] were read and [pos] bits given out. *)
Definition reservoir_of (n pos : Z) (input : nat) : Z := (n mod 2 ^ (8 * Z.of_nat input)) / 2 ^ pos.

Lemma reservoir_bound n pos input : 0 <= pos <= 8 * Z.of_nat input -> 0 <= reservoir_of n pos input < 2 ^ (8 * Z.of_nat input - pos).
Proof.
  intros H. unfold reservoir_of. pose proof (Z.pow_pos_nonneg 2 pos ltac:(lia) ltac:(lia)).
  pose proof (Z.mod_pos_bound n (2 ^ (8 * Z.of_nat input)) ltac:(apply Z.pow_pos_nonneg; lia)). split; [apply Z.div_pos; lia|].
  apply Z.div_lt_upper_bound; [lia|]. rewrite <- pow2_split by lia. replace (pos + (8 * Z.of_nat input - pos)) with (8 * Z.of_nat input) by lia. lia.
Qed.

Lemma reservoir_load data pos input c :
  0 <= pos <= 8 * Z.of_nat input -> (input + c <= length data)%nat -> 8 * Z.of_nat input - pos + 8 * Z.of_nat c <= 64 ->
  Z.lor (reservoir_of (le_get data) pos input) (wrap64 (Z.shiftl (le_get (slice input (input + c) data)) (8 * Z.of_nat input - pos)))
  = reservoir_of (le_get data) pos (input + c).
Proof.
  intros Hp Hl H64. rewrite le_get_slice by done. set (n := le_get data). set (i := 8 * Z.of_nat input) in *.
  pose proof (Z.mod_pos_bound (n / 2 ^ i) (2 ^ (8 * Z.of_nat c)) ltac:(apply Z.pow_pos_nonneg; lia)) as Hc.
  pose proof (Z.pow_pos_nonneg 2 (i - pos) ltac:(lia) ltac:(lia)). pose proof (Z.pow_pos_nonneg 2 pos ltac:(lia) ltac:(lia)).
  assert (2 ^ (8 * Z.of_nat c) * 2 ^ (i - pos) <= 2 ^ 64) by (rewrite <- pow2_split by lia; apply Z.pow_le_mono_r; lia).
  rewrite wrap64_small by (rewrite Z.shiftl_mul_pow2 by lia; nia). rewrite lor_shiftl by (try (apply reservoir_bound; lia); lia).
  unfold reservoir_of. fold i. replace (8 * Z.of_nat (input + c)) with (i + 8 * Z.of_nat c) by lia.
  rewrite pow2_split, Z.rem_mul_r by (try apply Z.pow_nonzero; try apply Z.pow_pos_nonneg; lia).
  replace (2 ^ i) with (2 ^ (i - pos) * 2 ^ pos) at 4 by (rewrite <- pow2_split by lia; f_equal; lia).
  replace (2 ^ (i - pos) * 2 ^ pos * _) with ((n / 2 ^ i) mod 2 ^ (8 * Z.of_nat c) * 2 ^ (i - pos) * 2 ^ pos) by lia.
  by rewrite Z.div_add by lia.
Qed.

Lemma refill_bytes_spec fuel data width pos input :
  0 <= pos <= 8 * Z.of_nat input -> width <= 32 -> pos + width <= 8 * zlen data -> width - (8 * Z.of_nat input - pos) <= 8 * Z.of_nat fuel ->
  (input <= length data)%nat ->
  exists input', refill_bytes fuel data width input (reservoir_of (le_get data) pos input) (8 * Z.of_nat input - pos)
    = (input', reservoir_of (le_get data) pos input', 8 * Z.of_nat input' - pos) /\
    width <= 8 * Z.of_nat input' - pos /\ pos <= 8 * Z.of_nat input' /\ (input' <= length data)%nat.
Proof.
  revert input. induction fuel as [|fuel IH]; intros input Hp Hw Hl Hf Hi; cbn [refill_bytes].
  - exists input. split_and!; (done || lia).
  - destruct (_ <? width) eqn:E; to_prop; [|exists input; split_and!; (done || lia)].
    assert (input < length data)%nat as Hin by (unfold zlen in *; lia). destruct (lookup_lt_is_Some_2 _ _ Hin) as [b Hb].
    rewrite Hb. cbn [from_option]. unfold id. replace (Z_of_byte b) with (le_get (slice input (input + 1) data)).
    2:{ unfold slice. replace (input + 1 - input)%nat with 1%nat by lia. rewrite (drop_S _ _ _ Hb). cbn [take le_get]. rewrite take_0. cbn [le_get]. lia. }
    rewrite reservoir_load by lia. replace (8 * Z.of_nat input - pos + 8) with (8 * Z.of_nat (input + 1) - pos) by lia. apply IH; lia.
Qed.

Lemma refill_spec data width pos input :
  0 <= pos <= 8 * Z.of_nat input -> width <= 32 -> pos + width <= 8 * zlen data -> (input <= length data)%nat ->
  exists input', refill data width input (reservoir_of (le_get data) pos input) (8 * Z.of_nat input - pos)
    = (input', reservoir_of (le_get data) pos input', 8 * Z.of_nat input' - pos) /\
    width <= 8 * Z.of_nat input' - pos /\ pos <= 8 * Z.of_nat input' /\ (input' <= length data)%nat.
Proof.
  intros Hp Hw Hl Hi. unfold refill. destruct (_ <? width) eqn:E; to_prop; [|exists input; split_and!; (done || lia)].
  destruct (4 <=? _) eqn:E4; to_prop; [|apply refill_bytes_spec; lia].
  exists (input + 4)%nat. unfold zlen in *. change 32 with (8 * Z.of_nat 4). rewrite reservoir_load by lia. split_and!; [|lia..].
  f_equal. lia.
Qed.

Lemma unpack_values_spec count data width mask pos input :
  1 <= width <= 32 -> (forall r, 0 <= r -> Z.land r mask = r mod 2 ^ width) ->
  0 <= pos <= 8 * Z.of_nat input -> pos + width * Z.of_nat count <= 8 * zlen data -> (input <= length data)%nat ->
  unpack_values count data width mask input (reservoir_of (le_get data) pos input) (8 * Z.of_nat input - pos) = digits width count (le_get data / 2 ^ pos).
Proof.
  intros Hw Hm. revert pos input. induction count as [|count IH]; intros pos input Hp Hl Hi; cbn [unpack_values digits]; [done|].
  destruct (refill_spec data width pos input) as (i & -> & Ha & Hpi & Hil); [lia|lia|nia|lia|].
  pose proof (reservoir_bound (le_get data) pos i ltac:(lia)) as Hr. rewrite Hm by lia.
  set (n := le_get data) in *. pose proof (Z.pow_pos_nonneg 2 pos ltac:(lia) ltac:(lia)). pose proof (Z.pow_pos_nonneg 2 width ltac:(lia) ltac:(lia)).
  assert (reservoir_of n pos i mod 2 ^ width = (n / 2 ^ pos) mod 2 ^ width) as Hd.
  { unfold reservoir_of. apply Z.bits_inj'. intros k Hk. destruct (decide (k < width)); [|by rewrite !Z.mod_pow2_bits_high by lia].
    rewrite !Z.mod_pow2_bits_low, !Z.div_pow2_bits by lia. by rewrite Z.mod_pow2_bits_low by lia. }
  rewrite Hd. f_equal.
  - apply Z.mod_small. pose proof (Z.mod_pos_bound (n / 2 ^ pos) (2 ^ width) ltac:(lia)).
    assert (2 ^ width <= 2 ^ 32) by (apply Z.pow_le_mono_r; lia). change (2 ^ 32) with 4294967296 in *. lia.
  - replace (Z.shiftr (reservoir_of n pos i) width) with (reservoir_of n (pos + width) i).
    2:{ unfold reservoir_of. by rewrite Z.shiftr_div_pow2, Z.div_div, <- pow2_split by lia. }
    replace (8 * Z.of_nat i - pos - width) with (8 * Z.of_nat i - (pos + width)) by lia. rewrite IH by lia.
    by rewrite Z.div_div, <- pow2_split by lia.
Qed.

(** ** Widths *)
Lemma fold_max_spec values m : m <= fold_left Z.max values m /\ Forall (fun v => v <= fold_left Z.max values m) values.
Proof.
  revert m. induction values as [|v values IH]; intros m; cbn [fold_left]; [split; [lia|constructor]|].
  destruct (IH (Z.max m v)) as [H1 H2]. split; [lia|]. constructor; [lia|done].
Qed.

Lemma maxUint32Slice_range values : Forall is_u32 values -> is_u32 (maxUint32Slice values).
Proof.
  unfold maxUint32Slice. assert (is_u32 0) as H0 by (unfold is_u32, u32_max; lia). revert H0. generalize 0.
  induction values as [|v values IH]; intros m Hm Hf; cbn [fold_left]; [done|]. inversion Hf; subst. apply IH; [|done].
  unfold is_u32 in *. lia.
Qed.

Lemma Len32_spec x : is_u32 x -> 0 <= Len32 x <= 32 /\ x < 2 ^ Len32 x.
Proof.
  unfold is_u32, u32_max, Len32. intros H. case_if; to_prop; [subst; cbn; lia|].
  pose proof (Z.log2_spec x ltac:(lia)). pose proof (Z.log2_nonneg x). rewrite <- Z.add_1_r in *.
  assert (Z.log2 x < 32) by (apply Z.log2_lt_pow2; lia). lia.
Qed.

(** The width of an array holds each of its values. *)
Lemma ftsBitsNeeded_spec values : Forall is_u32 values ->
  0 <= ftsBitsNeeded (maxUint32Slice values) <= 32 /\ Forall (fun v => 0 <= v < 2 ^ ftsBitsNeeded (maxUint32Slice values)) values.
Proof.
  intros Hf. destruct (Len32_spec _ (maxUint32Slice_range _ Hf)) as [H1 H2]. unfold ftsBitsNeeded. split; [done|].
  destruct (fold_max_spec values 0) as [_ Hm]. fold (maxUint32Slice values) in Hm.
  rewrite !Forall_forall in *. intros v Hv. specialize (Hf v Hv). specialize (Hm v Hv). cbn beta in *. unfold is_u32 in *. lia.
Qed.

Lemma unpack_values_range count data width mask input reservoir available :
  Forall is_u32 (unpack_values count data width mask input reservoir available) /\
  length (unpack_values count data width mask input reservoir available) = count.
Proof.
  revert input reservoir available. induction count as [|n IH]; intros input reservoir available; cbn [unpack_values]; [by split|].
  destruct (refill _ _ _ _ _) as [[i r] a]. split; [constructor; [|apply IH]|cbn; by rewrite (proj2 (IH _ _ _))].
  unfold is_u32, wrap32, u32_max. pose proof (Z.mod_pos_bound (Z.land r mask) 4294967296). lia.
Qed.

(** ** Packed arrays of a block *)
Lemma zlen_make_bytes n : 0 <= n -> zlen (make_bytes (Z.to_nat n)) = n.
Proof. intros H. unfold zlen, make_bytes. rewrite length_replicate. lia. Qed.

Section packed_laws.
Context `{BP : !Bitpack, BL : !BitpackLaws}.

(** The bytes that [appendFTSPackedUint32] appends. *)
Definition packed_bytes (values : list Z) (width : Z) : bytes :=
  if negb (zlen values =? ftsPostingDocumentsBlock) then packFTSUint32 values width
  else
    let packedSize := Z.to_nat (ftsPackedByteSize width (zlen values)) in
    (if 0 <? width then bitpack_Pack (make_bytes packedSize) values width else make_bytes packedSize) ++ make_bytes PaddingInt32.

Lemma appendFTSPackedUint32_spec destination values width :
  0 <= width -> appendFTSPackedUint32 destination values width = destination ++ packed_bytes values width.
Proof.
  intros Hw. unfold appendFTSPackedUint32, packed_bytes. case_if; [done|]. pose proof (zlen_nonneg values) as Hz.
  pose proof (packed_size_nonneg width (zlen values) Hw Hz) as Hs. set (n := Z.to_nat (ftsPackedByteSize width (zlen values))).
  rewrite make_bytes_add. case_if; [|done]. unfold make_bytes at 1.
  rewrite slice_field by (try done; rewrite length_replicate; lia).
  apply splice_field; [done|]. rewrite Pack_length; [done|]. unfold n. by apply zlen_make_bytes.
Qed.

Lemma packed_bytes_length values width :
  0 <= width -> Forall (fun v => 0 <= v < 2 ^ width) values -> zlen (packed_bytes values width) = ftsPackedStorageSize width (zlen values).
Proof.
  intros Hw Hf. unfold packed_bytes, ftsPackedStorageSize. pose proof (zlen_nonneg values) as Hz.
  pose proof (packed_size_nonneg width (zlen values) Hw Hz) as Hs. destruct (_ =? ftsPostingDocumentsBlock); cbn [negb].
  - rewrite zlen_app. f_equal; [|unfold zlen, make_bytes; by rewrite length_replicate].
    case_if; [|by apply zlen_make_bytes]. unfold zlen at 1. rewrite Pack_length; by apply zlen_make_bytes.
  - by apply packFTSUint32_spec.
Qed.

(** The padding of a full block is zero. *)
Lemma packed_bytes_padding values width :
  0 <= width -> zlen values = ftsPostingDocumentsBlock ->
  drop (Z.to_nat (ftsPackedByteSize width (zlen values))) (packed_bytes values width) = make_bytes PaddingInt32.
Proof.
  intros Hw Hl. unfold packed_bytes. rewrite Hl, Z.eqb_refl. cbn [negb].
  pose proof (packed_size_nonneg width 128 Hw ltac:(lia)) as Hs. apply drop_app_exact.
  case_if; [rewrite Pack_length|]; try (by unfold make_bytes; rewrite length_replicate).
  rewrite Hl. by apply zlen_make_bytes.
Qed.

(** Unpacking gives back the packed values. *)
Lemma unpack_packed values width :
  0 <= width <= 32 -> Forall (fun v => 0 <= v < 2 ^ width) values -> unpackFTSUint32Into (packed_bytes values width) width (length values) = values.
Proof.
  intros Hw Hf. unfold unpackFTSUint32Into. destruct (width =? 0) eqn:E0; to_prop.
  { subst width. clear -Hf. induction Hf as [|v vs Hv _ IH]; [done|]. cbn [length replicate]. rewrite IH. f_equal. change (2 ^ 0) with 1 in Hv. lia. }
  fold (zlen values). pose proof (packed_bytes_length values width ltac:(lia) Hf) as Hl. unfold ftsPackedStorageSize in Hl.
  destruct (zlen values =? ftsPostingDocumentsBlock) eqn:E; cbn [andb].
  - rewrite Hl, Z.leb_refl. unfold packed_bytes. rewrite E, (proj2 (Z.ltb_lt 0 width)) by lia. cbn [negb].
    apply Unpack_Pack; [lia|done].
  - destruct (packFTSUint32_spec values width ltac:(lia) Hf) as [Hz Hg]. unfold packed_bytes. rewrite E. cbn [negb].
    replace 0 with (reservoir_of (le_get (packFTSUint32 values width)) 0 0) at 1 by (unfold reservoir_of; by rewrite Z.mod_1_r).
    change 0 with (8 * Z.of_nat 0 - 0) at 2. rewrite unpack_values_spec; [|lia| |lia| |lia].
    + change (2 ^ 0) with 1. rewrite Z.div_1_r, Hg. apply digits_packed; [lia|done].
    + intros r Hr. case_if; [apply land_low; lia|]. to_prop. replace width with 32 by lia. change u32_max with (Z.ones 32). by rewrite Z.land_ones.
    + rewrite Hz. pose proof (packed_size_bits width (zlen values) ltac:(pose proof (zlen_nonneg values); nia)). unfold zlen in *. lia.
Qed.

(** Whatever the bytes, unpacking gives as many [uint32]s as asked for. *)
Lemma unpack_range data width count :
  Forall is_u32 (unpackFTSUint32Into data width count) /\ length (unpackFTSUint32Into data width count) = count.
Proof.
  unfold unpackFTSUint32Into. destruct (width =? 0).
  { split; [|apply length_replicate]. apply Forall_replicate. unfold is_u32, u32_max. lia. }
  destruct (_ && _); [split; [apply Unpack_range|apply Unpack_length]|apply unpack_values_range].
Qed.
End packed_laws.

(** ** An instance: packing by [packFTSUint32] itself, with a padding of sixteen zero bytes *)
Definition scalar_unpack (count : nat) (data : bytes) (width : Z) : list Z := digits (Z.min 32 (Z.max 0 width)) count (le_get data).
Definition scalar_bitpack : Bitpack := {|
  PaddingInt32 := 16;
  bitpack_Pack dst values width := take (length dst) (packFTSUint32 values width ++ dst);
  bitpack_Unpack := scalar_unpack
|}.

Lemma scalar_bitpack_laws : @BitpackLaws scalar_bitpack.
Proof.
  split; cbn -[make_bytes].
  - intros dst values width H. rewrite length_take, length_app. lia.
  - intros. apply length_digits.
  - intros. apply digits_range. lia.
  - intros values width Hw Hf. destruct (packFTSUint32_spec values width ltac:(lia) Hf) as [Hz Hg].
    rewrite take_app_exact. 2:{ unfold make_bytes. rewrite length_replicate. unfold zlen in *. lia. }
    unfold scalar_unpack. rewrite le_get_app, (le_get_zeros 16), Hg, Z.mul_0_r, Z.add_0_r.
    replace (Z.min 32 (Z.max 0 width)) with width by lia. apply digits_packed; [lia|done].
Qed.
