(* ===== verification/FtsPosting.v ===== *)
(** * Full-text posting lists

    [internal/db/index/column/fts_column/fts_posting.go]: the encoded, block
    wise bit-packed posting list of one term ([BuildFTSPostingList],
    [openFTSPostingList], [validate]).  A list is a header of 48 bytes, a
    directory with one entry per block of 128 documents, the blocks (document
    ID deltas, term frequencies, document lengths and position payload
    lengths, each packed at its own width) and the position payloads.

    [list_holds] relates a list to the postings it stands for.  The theorems
    show that building succeeds on every valid input that fits and gives a
    list that holds the input, and that every list that opens holds some valid
    postings: no corruption that passes the validation can make a reader see
    postings out of order or out of range.

    The block maxima that the scorer caches in the list
    ([blockMaxNormalizations] and its keys) are not modelled: they are
    floating-point scores. *)
From S2P Require Import Prelude Bytes Crc32c FtsPack.

(** ** Data and constants *)
Definition ftsPostingVersion : Z := 2.
Definition ftsPostingHeaderSize : Z := 48.
Definition ftsPostingDirectorySize : Z := 12.
Definition ftsPostingBlockHeaderSize : Z := 12.
Definition ftsPostingMagic : bytes := byte_of_Z <$> [90; 86; 70; 80].
Definition ErrInvalidFTSPosting : gerror := errors_New "core: invalid FTS posting list".
Definition ErrCorruptFTSPosting : gerror := errors_New "core: corrupt FTS posting list".
Definition ftsMaximumInt : Z := int_max.

(** [fmt.Errorf("%w: detail", ErrInvalidFTSPosting)] and the same for corrupt bytes. *)
Definition invalid_posting (detail : string) : gerror := GErr detail [ErrInvalidFTSPosting].
Definition corrupt_posting (detail : string) : gerror := GErr detail [ErrCorruptFTSPosting].

Record FTSPosting := MkPosting {
  p_DocumentID : Z; p_TermFrequency : Z; p_DocumentLength : Z; p_Positions : list Z
}.
#[global] Instance FTSPosting_eq_dec : EqDecision FTSPosting.
Proof. solve_decision. Defined.

Record ftsPostingBlock := MkPostingBlock { pb_maxDocumentID : Z; pb_blockOffset : Z; pb_positionOffset : Z }.

Record FTSPostingList := MkPostingList {
  pl_data : bytes; pl_count : Z; pl_positionsOffset : Z; pl_blocks : list ftsPostingBlock
}.

(** ** [openFTSPostingList] *)

(** [binary.LittleEndian.Uint32(data[offset:])] and [Uint16] of a long enough slice. *)
Definition get_u32 (offset : Z) (data : bytes) : Z := le_get (slice (Z.to_nat offset) (Z.to_nat offset + 4) data).
Definition get_u16 (offset : Z) (data : bytes) : Z := le_get (slice (Z.to_nat offset) (Z.to_nat offset + 2) data).
(** [data[offset]] *)
Definition get_u8 (offset : Z) (data : bytes) : Z := le_get (slice (Z.to_nat offset) (Z.to_nat offset + 1) data).

Section format.
Context `{BP : !Bitpack}.

(** The four packed arrays of a block, read from [cursor] on. *)
Fixpoint read_arrays (data : bytes) (positionsOffset blockCount cursor : Z) (widths : list Z) : result (list (list Z) * Z) :=
  match widths with
  | [] => Ok ([], cursor)
  | width :: widths =>
      let length := ftsPackedStorageSize width blockCount in
      if positionsOffset <? cursor + length then Fail (corrupt_posting "block packed data is truncated")
      else
        let packedSize := ftsPackedByteSize width blockCount in
        if (blockCount =? ftsPostingDocumentsBlock) &&
           negb (forallb (fun value => Z_of_byte value =? 0) (slice (Z.to_nat (cursor + packedSize)) (Z.to_nat (cursor + length)) data))
        then Fail (corrupt_posting "block has nonzero SIMD padding")
        else
          let array := unpackFTSUint32 (slice (Z.to_nat cursor) (Z.to_nat (cursor + length)) data) width blockCount in
          '(arrays, cursor) ← read_arrays data positionsOffset blockCount (cursor + length) widths;
          Ok (array :: arrays, cursor)
  end.

(** The loop over the documents of a block: the document ID and the offset of the next position payload. *)
Fixpoint validate_postings (ctx : context) (data : bytes) (positionsOffset : Z) (first : bool)
    (entries : list (Z * Z * Z * Z)) (documentID expectedPositionOffset : Z) : result (Z * Z) :=
  match entries with
  | [] => Ok (documentID, expectedPositionOffset)
  | (documentDelta, termFrequency, documentLength, positionLength) :: entries =>
      if negb first && ((documentDelta =? 0) || (u32_max - documentID <? documentDelta)) then Fail (corrupt_posting "block has an invalid document delta")
      else
        let documentID := if first then documentID else documentID + documentDelta in
        if (termFrequency =? 0) || (documentLength <? termFrequency) || (positionLength =? 0) || (positionLength <? termFrequency)
        then Fail (corrupt_posting "block has invalid inline payloads")
        else
          let positionStart := positionsOffset + expectedPositionOffset in
          let positionEnd := positionStart + positionLength in
          if zlen data <? positionEnd then Fail (corrupt_posting "block position payload is truncated")
          else
            match decodeFTSPositionDeltas ctx (slice (Z.to_nat positionStart) (Z.to_nat positionEnd) data) termFrequency with
            | Fail e => match ctx_Err ctx with Some ctxErr => Fail ctxErr | None => Fail (corrupt_posting "block positions") end
            | Ok _ => validate_postings ctx data positionsOffset false entries documentID (wrap32 (expectedPositionOffset + positionLength))
            end
  end.

(** [documentDeltas[i], termFrequencies[i], documentLengths[i], positionLengths[i]] *)
Definition zip_arrays (deltas frequencies lengths positionLengths : list Z) : list (Z * Z * Z * Z) :=
  zip (zip (zip deltas frequencies) lengths) positionLengths.

Record validateState := MkValidate {
  vs_expectedBlockOffset : Z; vs_expectedPositionOffset : Z; vs_decodedCount : Z; vs_previousDocumentID : option Z
}.

Definition validate_block (ctx : context) (data : bytes) (positionsOffset : Z) (last : bool) (metadata : ftsPostingBlock) (s : validateState) : result validateState :=
  if negb (pb_blockOffset metadata =? vs_expectedBlockOffset s) || negb (pb_positionOffset metadata =? vs_expectedPositionOffset s)
  then Fail (corrupt_posting "non-contiguous block")
  else if positionsOffset <? pb_blockOffset metadata + ftsPostingBlockHeaderSize then Fail (corrupt_posting "block header is truncated")
  else
    let header := slice (Z.to_nat (pb_blockOffset metadata)) (Z.to_nat (pb_blockOffset metadata + ftsPostingBlockHeaderSize)) data in
    let minimumDocumentID := get_u32 0 header in
    let blockCount := get_u16 4 header in
    if (blockCount =? 0) || (ftsPostingDocumentsBlock <? blockCount) || (negb last && negb (blockCount =? ftsPostingDocumentsBlock))
    then Fail (corrupt_posting "invalid document count in block")
    else if negb (get_u8 10 header =? 0) || negb (get_u8 11 header =? 0) then Fail (corrupt_posting "block reserved bytes are nonzero")
    else
      let widths := [get_u8 6 header; get_u8 7 header; get_u8 8 header; get_u8 9 header] in
      if existsb (fun width => 32 <? width) widths then Fail (corrupt_posting "block has bit width")
      else
        match read_arrays data positionsOffset blockCount (pb_blockOffset metadata + ftsPostingBlockHeaderSize) widths with
        | Fail e => Fail e
        | Ok ([documentDeltas; termFrequencies; documentLengths; positionLengths], cursor) =>
            if negb (default 0 (head documentDeltas) =? 0) then Fail (corrupt_posting "block first document delta is nonzero")
            else if match vs_previousDocumentID s with Some previous => minimumDocumentID <=? previous | None => false end
            then Fail (corrupt_posting "block overlaps its predecessor")
            else
              match validate_postings ctx data positionsOffset true (zip_arrays documentDeltas termFrequencies documentLengths positionLengths)
                      minimumDocumentID (vs_expectedPositionOffset s) with
              | Fail e => Fail e
              | Ok (documentID, expectedPositionOffset) =>
                  if negb (documentID =? pb_maxDocumentID metadata) then Fail (corrupt_posting "block maximum document mismatch")
                  else Ok (MkValidate (wrap32 cursor) expectedPositionOffset (vs_decodedCount s + blockCount) (Some documentID))
              end
        | Ok _ => Fail (corrupt_posting "unreachable")
        end.

Fixpoint validate_blocks (ctx : context) (data : bytes) (positionsOffset : Z) (blockIndex : Z) (blocks : list ftsPostingBlock) (s : validateState) : result validateState :=
  match blocks with
  | [] => Ok s
  | metadata :: blocks =>
      match poll ctx blockIndex with
      | Some e => Fail e
      | None =>
          match validate_block ctx data positionsOffset (bool_decide (blocks = [])) metadata s with
          | Fail e => Fail e
          | Ok s => validate_blocks ctx data positionsOffset (blockIndex + 1) blocks s
          end
      end
  end.

Definition validate (ctx : context) (l : FTSPostingList) (blocksOffset positionsOffset : Z) : option gerror :=
  match validate_blocks ctx (pl_data l) positionsOffset 0 (pl_blocks l) (MkValidate blocksOffset 0 0 None) with
  | Fail e => Some e
  | Ok s =>
      if negb (vs_expectedBlockOffset s =? positionsOffset) ||
         negb (pl_positionsOffset l + vs_expectedPositionOffset s =? zlen (pl_data l)) ||
         negb (vs_decodedCount s =? pl_count l)
      then Some (corrupt_posting "section lengths do not match their contents") else None
  end.

(** The directory, [todo] entries from [index] on. *)
Fixpoint read_directory (ctx : context) (data : bytes) (todo : nat) (index : Z) (previous : option Z) : result (list ftsPostingBlock) :=
  match todo with
  | O => Ok []
  | S todo =>
      match poll ctx index with
      | Some e => Fail e
      | None =>
          let offset := ftsPostingHeaderSize + index * ftsPostingDirectorySize in
          let block := MkPostingBlock (get_u32 offset data) (get_u32 (offset + 4) data) (get_u32 (offset + 8) data) in
          if match previous with Some previous => pb_maxDocumentID block <=? previous | None => false end
          then Fail (corrupt_posting "directory document IDs are not increasing")
          else
            blocks ← read_directory ctx data todo (index + 1) (Some (pb_maxDocumentID block));
            Ok (block :: blocks)
      end
  end.

(** A nil context is the invalid argument of a caller: [detail] is its message. *)
Definition posting_ctx (sentinel : string -> gerror) (ctx : context) : option gerror :=
  match ctx with CtxNil => Some (sentinel "nil context") | _ => ctx_Err ctx end.

(** The result owns its bytes: with [clone] the caller's slice is copied. *)
Definition openFTSPostingList (ctx : context) (data : bytes) (clone : bool) : result FTSPostingList :=
  match posting_ctx corrupt_posting ctx with
  | Some e => Fail e
  | None =>
  if (zlen data <? ftsPostingHeaderSize) || (u32_max <? zlen data) then Fail (corrupt_posting "header is truncated")
  else if negb (bytes_eqb (slice 0 4 data) ftsPostingMagic) then Fail (corrupt_posting "bad magic")
  else if negb (get_u16 4 data =? ftsPostingVersion) then Fail (corrupt_posting "unsupported version")
  else if negb (get_u16 6 data =? ftsPostingDocumentsBlock) then Fail (corrupt_posting "unsupported block size")
  else
    let count := get_u32 8 data in
    let blockCount := get_u32 12 data in
    let directoryOffset := get_u32 16 data in
    let blocksOffset := get_u32 20 data in
    let positionsOffset := get_u32 24 data in
    let totalSize := get_u32 28 data in
    if negb (totalSize =? zlen data) || negb (directoryOffset =? ftsPostingHeaderSize) then Fail (corrupt_posting "inconsistent header lengths")
    else
      let wantBlocks := if 0 <? count then (count - 1) / ftsPostingDocumentsBlock + 1 else 0 in
      if negb (blockCount =? wantBlocks) then Fail (corrupt_posting "block count does not cover documents")
      else
        let directorySize := blockCount * ftsPostingDirectorySize in
        if negb (blocksOffset =? ftsPostingHeaderSize + directorySize) || (positionsOffset <? blocksOffset) || (totalSize <? positionsOffset)
        then Fail (corrupt_posting "invalid section offsets")
        else if negb (forallb (fun b => Z_of_byte b =? 0) (slice 36 44 data)) then Fail (corrupt_posting "reserved header bytes are nonzero")
        else if negb (CRC32C (slice 0 44 data) =? get_u32 44 data) then Fail (corrupt_posting "header CRC32C mismatch")
        else if negb (CRC32C (drop 48 data) =? get_u32 32 data) then Fail (corrupt_posting "payload CRC32C mismatch")
        else
          blocks ← read_directory ctx data (Z.to_nat blockCount) 0 None;
          let list := MkPostingList data count positionsOffset blocks in
          match validate ctx list blocksOffset positionsOffset with
          | Some e => Fail e
          | None => Ok list
          end
  end.
Definition OpenFTSPostingList (ctx : context) (data : bytes) : result FTSPostingList := openFTSPostingList ctx data true.

(** ** [BuildFTSPostingList] *)
Record encodedBlock := MkEncodedBlock { eb_maxDocumentID : Z; eb_data : bytes; eb_positions : bytes }.

(** The loop over the positions of a posting, from index 1 on. *)
Fixpoint check_positions (ctx : context) (work previous : Z) (positions : list Z) : result Z :=
  match positions with
  | [] => Ok work
  | position :: positions =>
      match poll ctx work with
      | Some e => Fail e
      | None => if position <? previous then Fail (invalid_posting "positions decrease") else check_positions ctx (work + 1) position positions
      end
  end.

(** The state of the loop over the postings of a block; [bs_previous] is the
    document ID of the posting before, of this block or of the one before it. *)
Record blockState := MkBlockState {
  bs_work : Z; bs_previous : option Z; bs_documentDeltas : list Z; bs_termFrequencies : list Z; bs_documentLengths : list Z;
  bs_positionLengths : list Z; bs_positions : bytes
}.

Definition build_posting (ctx : context) (s : blockState) (posting : FTSPosting) : result blockState :=
  match poll ctx (bs_work s) with
  | Some e => Fail e
  | None =>
  let work := bs_work s + 1 in
  if match bs_previous s with Some previous => p_DocumentID posting <=? previous | None => false end
  then Fail (invalid_posting "document IDs are not strictly increasing")
  else if (p_TermFrequency posting =? 0) || negb (p_TermFrequency posting =? zlen (p_Positions posting))
  then Fail (invalid_posting "posting has frequency and positions")
  else if p_DocumentLength posting <? p_TermFrequency posting then Fail (invalid_posting "posting frequency exceeds document length")
  else
    match (match p_Positions posting with [] => Ok work | first :: rest => check_positions ctx work first rest end) with
    | Fail e => Fail e
    | Ok work =>
        let delta :=
          match bs_documentDeltas s, bs_previous s with
          | _ :: _, Some previous => wrap32 (p_DocumentID posting - previous)
          | _, _ => 0
          end in
        match appendFTSPositionDeltas ctx (bs_positions s) (p_Positions posting) with
        | Fail e => Fail e
        | Ok positions =>
            let positionLength := zlen positions - zlen (bs_positions s) in
            if u32_max <? positionLength then Fail (invalid_posting "posting position payload exceeds uint32")
            else
              Ok (MkBlockState work (Some (p_DocumentID posting)) (bs_documentDeltas s ++ [delta]) (bs_termFrequencies s ++ [p_TermFrequency posting])
                    (bs_documentLengths s ++ [p_DocumentLength posting]) (bs_positionLengths s ++ [positionLength]) positions)
        end
    end
  end.

(** The bytes of a block: its header and the four packed arrays. *)
Definition encode_block (firstDocumentID : Z) (s : blockState) : bytes :=
  let widthDocumentID := ftsBitsNeeded (maxUint32Slice (bs_documentDeltas s)) in
  let widthTermFrequency := ftsBitsNeeded (maxUint32Slice (bs_termFrequencies s)) in
  let widthDocumentLength := ftsBitsNeeded (maxUint32Slice (bs_documentLengths s)) in
  let widthPositionLength := ftsBitsNeeded (maxUint32Slice (bs_positionLengths s)) in
  let blockData := le_put 4 firstDocumentID ++ le_put 2 (zlen (bs_documentDeltas s)) ++
    [byte_of_Z widthDocumentID; byte_of_Z widthTermFrequency; byte_of_Z widthDocumentLength; byte_of_Z widthPositionLength] ++ make_bytes 2 in
  let blockData := appendFTSPackedUint32 blockData (bs_documentDeltas s) widthDocumentID in
  let blockData := appendFTSPackedUint32 blockData (bs_termFrequencies s) widthTermFrequency in
  let blockData := appendFTSPackedUint32 blockData (bs_documentLengths s) widthDocumentLength in
  appendFTSPackedUint32 blockData (bs_positionLengths s) widthPositionLength.

Definition build_block (ctx : context) (work : Z) (previous : option Z) (blockPostings : list FTSPosting) : result (encodedBlock * blockState) :=
  s ← foldM (build_posting ctx) blockPostings (MkBlockState work previous [] [] [] [] []);
  Ok (MkEncodedBlock (default 0 (bs_previous s)) (encode_block (default 0 (p_DocumentID <$> head blockPostings)) s) (bs_positions s), s).

(** The loop over the blocks; a list has no more blocks than postings. *)
Fixpoint build_blocks (fuel : nat) (ctx : context) (work : Z) (previous : option Z) (postings : list FTSPosting) : result (list encodedBlock) :=
  match fuel, postings with
  | S fuel, _ :: _ =>
      let '(blockPostings, rest) := (take (Z.to_nat ftsPostingDocumentsBlock) postings, drop (Z.to_nat ftsPostingDocumentsBlock) postings) in
      match build_block ctx work previous blockPostings with
      | Fail e => Fail e
      | Ok (block, s) =>
          blocks ← build_blocks fuel ctx (bs_work s) (bs_previous s) rest;
          Ok (block :: blocks)
      end
  | _, _ => Ok []
  end.

(** The loops that append the blocks and the position payloads to [output], of
    which [size] is the length: the offset of each and the size at the end. *)
Fixpoint place_blocks (size : Z) (blocks : list encodedBlock) : result (list Z * Z) :=
  match blocks with
  | [] => Ok ([], size)
  | block :: blocks =>
      let newSize := size + zlen (eb_data block) in
      if (u32_max <? newSize) || (ftsMaximumInt <? newSize) then Fail (invalid_posting "encoded blocks exceed uint32")
      else '(offsets, size') ← place_blocks newSize blocks; Ok (wrap32 size :: offsets, size')
  end.
Fixpoint place_positions (size positionsLength : Z) (blocks : list encodedBlock) : result (list Z) :=
  match blocks with
  | [] => Ok []
  | block :: blocks =>
      let newSize := size + zlen (eb_positions block) in
      if (u32_max <? newSize) || (ftsMaximumInt <? newSize) then Fail (invalid_posting "encoded positions exceed uint32")
      else offsets ← place_positions newSize (positionsLength + zlen (eb_positions block)) blocks; Ok (wrap32 positionsLength :: offsets)
  end.

Definition directory_entry (maxDocumentID blockOffset positionOffset : Z) : bytes :=
  le_put 4 maxDocumentID ++ le_put 4 blockOffset ++ le_put 4 positionOffset.

(** The header up to its own checksum. *)
Definition posting_header (count blockCount directoryBytes positionsOffset size payloadCRC : Z) : bytes :=
  ftsPostingMagic ++ le_put 2 ftsPostingVersion ++ le_put 2 ftsPostingDocumentsBlock ++ le_put 4 count ++ le_put 4 blockCount ++
  le_put 4 ftsPostingHeaderSize ++ le_put 4 (wrap32 (ftsPostingHeaderSize + directoryBytes)) ++ le_put 4 positionsOffset ++ le_put 4 size ++
  le_put 4 payloadCRC ++ make_bytes 8.

Definition encode_list (count : Z) (blocks : list encodedBlock) (blockOffsets positionOffsets : list Z) (positionsOffset : Z) : bytes :=
  let directory := mjoin (zip_with (fun block '(blockOffset, positionOffset) => directory_entry (eb_maxDocumentID block) blockOffset positionOffset)
    blocks (zip blockOffsets positionOffsets)) in
  let payload := directory ++ mjoin (eb_data <$> blocks) ++ mjoin (eb_positions <$> blocks) in
  let header := posting_header count (zlen blocks) (zlen blocks * ftsPostingDirectorySize) positionsOffset
    (ftsPostingHeaderSize + zlen payload) (CRC32C payload) in
  header ++ le_put 4 (CRC32C header) ++ payload.

Definition BuildFTSPostingList (ctx : context) (postings : list FTSPosting) : result FTSPostingList :=
  match posting_ctx invalid_posting ctx with
  | Some e => Fail e
  | None =>
  if u32_max <? zlen postings then Fail (invalid_posting "entries exceed uint32")
  else
    blocks ← build_blocks (length postings) ctx 0 None postings;
    let directoryBytes := zlen blocks * ftsPostingDirectorySize in
    if (u32_max - ftsPostingHeaderSize <? directoryBytes) || (ftsMaximumInt <? ftsPostingHeaderSize + directoryBytes)
    then Fail (invalid_posting "directory exceeds uint32")
    else
      '(blockOffsets, size) ← place_blocks (ftsPostingHeaderSize + directoryBytes) blocks;
      positionOffsets ← place_positions size 0 blocks;
      openFTSPostingList ctx (encode_list (zlen postings) blocks blockOffsets positionOffsets (wrap32 size)) false
  end.
End format.

(** [Bytes], [DocumentFrequency]; the receiver may be nil. *)
Definition Bytes (l : option FTSPostingList) : bytes := match l with None => [] | Some l => pl_data l end.
Definition DocumentFrequency (l : option FTSPostingList) : Z := match l with None => 0 | Some l => pl_count l end.
