(* ===== verification/FtsHolds.v ===== *)
(** * What a posting list holds

    The relation between the bytes of a posting list and the postings it
    stands for, and the proof that the validation of [FtsPosting] decides it:
    a list passes [validate] exactly when its blocks hold valid postings. *)
From S2P Require Import Prelude Bytes Crc32c FtsPack FtsPosting.

(** ** Valid postings *)

(** One posting as [BuildFTSPostingList] accepts it. *)
Record valid_posting (p : FTSPosting) : Prop := {
  vp_id : is_u32 (p_DocumentID p);
  vp_frequency : 0 < p_TermFrequency p;
  vp_positions_length : zlen (p_Positions p) = p_TermFrequency p;
  vp_length : p_TermFrequency p <= p_DocumentLength p <= u32_max;
  vp_positions : ascending 0 (p_Positions p)
}.

(** The document ID [id] comes after the one before it, when there is one. *)
Definition comes_after (previous : option Z) (id : Z) : Prop := match previous with Some previous => previous < id | None => True end.

(** Valid postings with strictly increasing document IDs, after [previous]. *)
Fixpoint valid_after (previous : option Z) (ps : list FTSPosting) : Prop :=
  match ps with
  | [] => True
  | p :: ps => comes_after previous (p_DocumentID p) /\ valid_posting p /\ valid_after (Some (p_DocumentID p)) ps
  end.
Definition valid_postings (ps : list FTSPosting) : Prop := valid_after None ps.

(** The document ID of the last posting, [previous] when there is none. *)
Definition last_document (previous : Z) (ps : list FTSPosting) : Z := default previous (p_DocumentID <$> last ps).
Definition after_postings (previous : option Z) (ps : list FTSPosting) : option Z :=
  match last ps with Some p => Some (p_DocumentID p) | None => previous end.

Lemma last_posting_id_cons previous p ps : last_document previous (p :: ps) = last_document (p_DocumentID p) ps.
Proof. unfold last_document. destruct ps as [|q ps]; [done|]. by rewrite last_cons_cons, !last_cons; destruct (last ps). Qed.

Lemma after_postings_cons previous p ps : after_postings previous (p :: ps) = Some (last_document (p_DocumentID p) ps).
Proof. unfold after_postings, last_document. rewrite last_cons. by destruct (last ps). Qed.

Lemma valid_after_weaken previous ps : valid_after previous ps -> valid_postings ps.
Proof. destruct ps as [|p ps]; [done|]. intros (_ & Hp & Hps). by split. Qed.

Lemma valid_after_app previous ps qs :
  valid_after previous (ps ++ qs) <-> valid_after previous ps /\ valid_after (after_postings previous ps) qs.
Proof.
  revert previous. induction ps as [|p ps IH]; intros previous; cbn [app valid_after].
  - unfold after_postings. cbn. naive_solver.
  - rewrite IH, after_postings_cons. unfold after_postings. destruct (last ps) eqn:E; unfold last_document; rewrite E; cbn; naive_solver.
Qed.

(** ** The postings of a block *)

(** The distances between the document IDs, from [previous] on. *)
Fixpoint id_deltas (previous : Z) (ps : list FTSPosting) : list Z :=
  match ps with
  | [] => []
  | p :: ps => p_DocumentID p - previous :: id_deltas (p_DocumentID p) ps
  end.

Fixpoint entries_of (previous : Z) (ps : list FTSPosting) (pls : list Z) : list (Z * Z * Z * Z) :=
  match ps, pls with
  | p :: ps, pl :: pls => (p_DocumentID p - previous, p_TermFrequency p, p_DocumentLength p, pl) :: entries_of (p_DocumentID p) ps pls
  | _, _ => []
  end.

Definition sum (zs : list Z) : Z := foldr Z.add 0 zs.

(** The position payloads of the postings are where the lengths [pls] put them. *)
Fixpoint payloads_at (data : bytes) (positionsOffset offset : Z) (pls : list Z) (ps : list FTSPosting) : Prop :=
  match pls, ps with
  | [], [] => True
  | pl :: pls, p :: ps =>
      p_TermFrequency p <= pl /\ positionsOffset + offset + pl <= zlen data /\
      decodeFTSPositionDeltas CtxLive (slice (Z.to_nat (positionsOffset + offset)) (Z.to_nat (positionsOffset + offset + pl)) data) (p_TermFrequency p) = Ok (p_Positions p) /\
      payloads_at data positionsOffset (offset + pl) pls ps
  | _, _ => False
  end.

Lemma payloads_length data positionsOffset offset pls ps : payloads_at data positionsOffset offset pls ps -> length pls = length ps.
Proof. revert offset ps. induction pls as [|pl pls IH]; intros offset [|p ps]; cbn; try done. intros (_ & _ & _ & H). by rewrite (IH _ _ H). Qed.

Lemma length_id_deltas previous ps : length (id_deltas previous ps) = length ps.
Proof. revert previous. induction ps as [|p ps IH]; intros previous; cbn; [done|by rewrite IH]. Qed.

Lemma zip_entries previous ps pls : length pls = length ps ->
  zip_arrays (id_deltas previous ps) (p_TermFrequency <$> ps) (p_DocumentLength <$> ps) pls = entries_of previous ps pls.
Proof.
  revert previous pls. induction ps as [|p ps IH]; intros previous [|pl pls] Hl; try done. injection Hl as Hl.
  unfold zip_arrays in *. cbn. by rewrite IH.
Qed.

Lemma zip_arrays_inj d1 t1 l1 p1 d2 t2 l2 p2 :
  length t1 = length d1 -> length l1 = length d1 -> length p1 = length d1 -> length t2 = length d2 -> length l2 = length d2 -> length p2 = length d2 ->
  zip_arrays d1 t1 l1 p1 = zip_arrays d2 t2 l2 p2 -> d1 = d2 /\ t1 = t2 /\ l1 = l2 /\ p1 = p2.
Proof.
  revert t1 l1 p1 d2 t2 l2 p2. induction d1 as [|d d1 IH]; intros [|t t1] [|l l1] [|p p1] [|d' d2] [|t' t2] [|l' l2] [|p' p2]; try done.
  cbn. intros [= H1] [= H2] [= H3] [= H4] [= H5] [= H6] [= -> -> -> -> H].
  destruct (IH t1 l1 p1 d2 t2 l2 p2) as (-> & -> & -> & ->); done.
Qed.

Lemma length_zip_arrays d t l p : length t = length d -> length l = length d -> length p = length d -> length (zip_arrays d t l p) = length d.
Proof. intros. unfold zip_arrays. rewrite !length_zip_with. lia. Qed.

Definition entry_u32 (e : Z * Z * Z * Z) : Prop := let '(d, t, l, p) := e in is_u32 d /\ is_u32 t /\ is_u32 l /\ is_u32 p.

Lemma zip_arrays_u32 d t l p : Forall is_u32 d -> Forall is_u32 t -> Forall is_u32 l -> Forall is_u32 p -> Forall entry_u32 (zip_arrays d t l p).
Proof.
  intros Hd. revert t l p. induction Hd as [|x d Hx Hd IH]; intros [|y t] [|z l] [|w p] Ht Hl Hp; try constructor; inversion Ht; inversion Hl; inversion Hp; subst; [done|by apply IH].
Qed.

(** ** [validate_postings] *)
Lemma validate_postings_sound data positionsOffset (first : bool) entries documentID offset lastID pend :
  Forall entry_u32 entries -> is_u32 documentID -> 0 <= positionsOffset -> 0 <= offset -> zlen data <= u32_max ->
  (first = true -> match entries with (d, _, _, _) :: _ => d = 0 | [] => True end) ->
  validate_postings CtxLive data positionsOffset first entries documentID offset = Ok (lastID, pend) ->
  exists ps pls, entries = entries_of documentID ps pls /\ payloads_at data positionsOffset offset pls ps /\
    valid_after (if first then None else Some documentID) ps /\ lastID = last_document documentID ps /\ pend = offset + sum pls /\ 0 <= pend.
Proof.
  revert first documentID offset. induction entries as [|[[[d t] l] p] entries IH]; intros first documentID offset Hf Hid Hpo Ho Hd Hfirst H; cbn [validate_postings] in H.
  - injection H as <- <-. exists [], []. cbn. split_and!; (done || lia).
  - apply Forall_cons in Hf as [(Hdu & Ht & Hl & Hp) Hf]. destruct (negb first && _) eqn:Eg; [done|].
    destruct ((t =? 0) || _ || _ || _) eqn:Ei; [done|]. destruct (zlen data <? _) eqn:Ee; [done|]. to_prop.
    destruct (decodeFTSPositionDeltas _ _ t) as [positions|] eqn:Edec; [|done].
    destruct (positions_sound _ t positions ltac:(unfold is_u32 in *; lia) Edec) as [Hpl Hpa].
    set (id := if first then documentID else documentID + d) in *.
    assert (id = documentID + d) as Hidd by (unfold id; destruct first; [specialize (Hfirst eq_refl); lia|done]).
    assert (is_u32 id /\ comes_after (if first then None else Some documentID) id) as [Hidu Hca].
    { destruct first; cbn in *; [rewrite Hidd, Hfirst, Z.add_0_r by done; done|]. to_prop. unfold is_u32, u32_max in *. lia. }
    unfold wrap32 in H. rewrite Z.mod_small in H by (unfold is_u32, u32_max in *; lia).
    destruct (IH false id (offset + p)) as (ps & pls & -> & Hpay & Hv & -> & -> & Hpe); try done; [unfold is_u32 in *; lia|].
    exists (MkPosting id t l positions :: ps), (p :: pls). cbn [entries_of payloads_at valid_after sum foldr p_DocumentID p_TermFrequency p_DocumentLength p_Positions].
    rewrite last_posting_id_cons. cbn [p_DocumentID]. split_and!; try (done || lia).
    + rewrite Hidd. by replace (documentID + d - documentID) with d by lia.
    + split; cbn; try done; unfold is_u32 in *; lia.
    + unfold sum. lia.
Qed.

Lemma validate_postings_complete data positionsOffset (first : bool) documentID offset ps pls :
  is_u32 documentID -> 0 <= positionsOffset -> 0 <= offset -> zlen data <= u32_max ->
  payloads_at data positionsOffset offset pls ps -> valid_after (if first then None else Some documentID) ps ->
  (first = true -> match ps with p :: _ => p_DocumentID p = documentID | [] => True end) ->
  validate_postings CtxLive data positionsOffset first (entries_of documentID ps pls) documentID offset = Ok (last_document documentID ps, offset + sum pls).
Proof.
  revert first documentID offset pls. induction ps as [|p ps IH]; intros first documentID offset pls Hid Hpo Ho Hd Hpay Hv Hfirst; cbn [entries_of validate_postings].
  - destruct pls; [|done]. cbn. do 2 f_equal. lia.
  - destruct pls as [|pl pls]; [done|]. cbn [payloads_at valid_after] in *. destruct Hpay as (Htf & Hfit & Hdec & Hpay). destruct Hv as (Hca & [Hu Hf Hpl Hl Ha] & Hv).
    cbn [entries_of validate_postings]. set (d := p_DocumentID p - documentID). set (id := if first then documentID else documentID + d).
    assert (id = p_DocumentID p) as Hidd by (unfold id, d; destruct first; [by rewrite Hfirst|lia]).
    assert (negb first && ((d =? 0) || (u32_max - documentID <? d)) = false) as ->.
    { destruct first; cbn; [done|]. cbn in Hca. unfold d, is_u32, u32_max in *. apply orb_false_iff. split; [apply Z.eqb_neq|apply Z.ltb_ge]; lia. }
    assert ((p_TermFrequency p =? 0) || (p_DocumentLength p <? p_TermFrequency p) || (pl =? 0) || (pl <? p_TermFrequency p) = false) as ->.
    { rewrite !orb_false_iff. split_and!; (apply Z.eqb_neq || apply Z.ltb_ge); lia. }
    rewrite (proj2 (Z.ltb_ge _ _)) by lia. rewrite Hdec. unfold wrap32. rewrite Z.mod_small by (unfold u32_max in *; lia).
    fold id. rewrite Hidd, IH; try done; [|lia]. rewrite last_posting_id_cons. cbn [sum foldr]. unfold sum. do 2 f_equal. lia.
Qed.

(** ** Headers of blocks *)
Lemma le_get_slice_bound lo n data : 0 <= le_get (slice lo (lo + n) data) < 256 ^ Z.of_nat n.
Proof.
  pose proof (le_get_bound (slice lo (lo + n) data)) as [H1 H2]. split; [done|]. eapply Z.lt_le_trans; [exact H2|].
  apply Z.pow_le_mono_r; [lia|]. unfold zlen, slice. rewrite length_take. lia.
Qed.

Lemma get_u32_range offset data : is_u32 (get_u32 offset data).
Proof. unfold get_u32, is_u32, u32_max. pose proof (le_get_slice_bound (Z.to_nat offset) 4 data) as H. change (256 ^ Z.of_nat 4) with 4294967296 in H. lia. Qed.

Lemma get_u8_range offset data : 0 <= get_u8 offset data < 256.
Proof. unfold get_u8. pose proof (le_get_slice_bound (Z.to_nat offset) 1 data) as H. by change (256 ^ Z.of_nat 1) with 256 in H. Qed.

Lemma get_u16_range offset data : 0 <= get_u16 offset data < 65536.
Proof. unfold get_u16. pose proof (le_get_slice_bound (Z.to_nat offset) 2 data) as H. by change (256 ^ Z.of_nat 2) with 65536 in H. Qed.

#[export] Hint Resolve get_u32_range get_u8_range get_u16_range : xvec.

Definition block_header (data : bytes) (md : ftsPostingBlock) : bytes :=
  slice (Z.to_nat (pb_blockOffset md)) (Z.to_nat (pb_blockOffset md + ftsPostingBlockHeaderSize)) data.
Definition block_widths (data : bytes) (md : ftsPostingBlock) : list Z :=
  [get_u8 6 (block_header data md); get_u8 7 (block_header data md); get_u8 8 (block_header data md); get_u8 9 (block_header data md)].
Definition first_id (ps : list FTSPosting) : Z := default 0 (p_DocumentID <$> head ps).

Section holds.
Context `{BP : !Bitpack, BL : !BitpackLaws}.

(** The block at [md] holds the postings [ps]; it ends at [bend], and its position payloads at [pend]. *)
Record block_at (data : bytes) (positionsOffset : Z) (md : ftsPostingBlock) (ps : list FTSPosting) (bend pend : Z) : Prop := {
  ba_nonempty : ps <> [];
  ba_size : zlen ps <= ftsPostingDocumentsBlock;
  ba_fits : pb_blockOffset md + ftsPostingBlockHeaderSize <= positionsOffset;
  ba_first : get_u32 0 (block_header data md) = first_id ps;
  ba_count : get_u16 4 (block_header data md) = zlen ps;
  ba_reserved : get_u8 10 (block_header data md) = 0 /\ get_u8 11 (block_header data md) = 0;
  ba_widths : Forall (fun w => w <= 32) (block_widths data md);
  ba_body : exists pls,
    read_arrays data positionsOffset (zlen ps) (pb_blockOffset md + ftsPostingBlockHeaderSize) (block_widths data md)
      = Ok ([id_deltas (first_id ps) ps; p_TermFrequency <$> ps; p_DocumentLength <$> ps; pls], bend) /\
    payloads_at data positionsOffset (pb_positionOffset md) pls ps /\ pend = pb_positionOffset md + sum pls;
  ba_max : pb_maxDocumentID md = last_document (first_id ps) ps
}.

Lemma storage_nonneg width count : 0 <= width -> 0 <= count -> 0 <= ftsPackedByteSize width count <= ftsPackedStorageSize width count.
Proof. intros Hw Hc. pose proof (packed_size_nonneg width count Hw Hc). unfold ftsPackedStorageSize. case_if; lia. Qed.

Lemma read_arrays_sound data positionsOffset count cursor widths arrays cursor' :
  0 <= count -> Forall (fun w => 0 <= w) widths -> cursor <= positionsOffset -> read_arrays data positionsOffset count cursor widths = Ok (arrays, cursor') ->
  length arrays = length widths /\ Forall (fun a => Forall is_u32 a /\ zlen a = count) arrays /\ cursor <= cursor' <= positionsOffset.
Proof.
  intros Hc Hw. revert cursor arrays. induction Hw as [|w widths Hw Hf IH]; intros cursor arrays Hcp H; cbn [read_arrays] in H.
  - injection H as <- <-. split_and!; (done || lia).
  - destruct (_ <? _) eqn:E; [done|]. to_prop. case_in H; [done|]. apply bind_Ok in H as ([as' c'] & H & Heq). injection Heq as <- <-.
    pose proof (storage_nonneg w count Hw Hc). apply IH in H as (Hl & Hall & Hcc); [|lia]. cbn. split_and!; [by rewrite Hl| |lia|lia].
    constructor; [|done]. unfold unpackFTSUint32. destruct (unpack_range (slice (Z.to_nat cursor) (Z.to_nat (cursor + ftsPackedStorageSize w count)) data) w (Z.to_nat count)) as [H1 H2].
    split; [done|]. unfold zlen. lia.
Qed.

Lemma widths_nonneg data md : Forall (fun w => 0 <= w) (block_widths data md).
Proof. unfold block_widths. repeat constructor; apply get_u8_range. Qed.

Lemma existsb_widths ws : existsb (fun width => 32 <? width) ws = false <-> Forall (fun w => w <= 32) ws.
Proof. induction ws as [|w ws IH]; cbn; [split; [constructor|done]|]. rewrite orb_false_iff, IH, Forall_cons, Z.ltb_ge. done. Qed.

Lemma entries_first documentID ps pls e : entries_of documentID ps pls = e ->
  match e with (d, _, _, _) :: _ => d = 0 | [] => True end -> length pls = length ps -> match ps with p :: _ => p_DocumentID p = documentID | [] => True end.
Proof. intros <-. destruct ps as [|p ps], pls as [|pl pls]; cbn; try done. intros. lia. Qed.

Lemma validate_block_sound data positionsOffset last md s s' :
  0 <= vs_expectedPositionOffset s -> 0 <= positionsOffset <= zlen data -> zlen data <= u32_max ->
  0 <= vs_expectedBlockOffset s ->
  validate_block CtxLive data positionsOffset last md s = Ok s' ->
  exists ps, block_at data positionsOffset md ps (vs_expectedBlockOffset s') (vs_expectedPositionOffset s') /\
    pb_blockOffset md = vs_expectedBlockOffset s /\ pb_positionOffset md = vs_expectedPositionOffset s /\
    valid_after (vs_previousDocumentID s) ps /\ (last = false -> zlen ps = ftsPostingDocumentsBlock) /\
    vs_decodedCount s' = vs_decodedCount s + zlen ps /\ vs_previousDocumentID s' = Some (pb_maxDocumentID md) /\
    0 <= vs_expectedPositionOffset s' /\ vs_expectedBlockOffset s <= vs_expectedBlockOffset s'.
Proof.
  intros Hpe Hpo Hd Hbo H. unfold validate_block in H. fold (block_header data md) in H. fold (block_widths data md) in H.
  destruct (negb (pb_blockOffset md =? _) || _) eqn:E1; [done|]. destruct (positionsOffset <? _) eqn:E2; [done|]. destruct ((get_u16 _ _ =? 0) || _ || _) eqn:E3; [done|].
  destruct (negb _ || negb _) eqn:E4 in H; [done|]. destruct (existsb _ _) eqn:E5; [done|]. apply existsb_widths in E5. to_prop.
  set (n := get_u16 4 (block_header data md)) in *. set (id := get_u32 0 (block_header data md)) in *.
  pose proof (get_u16_range 4 (block_header data md)) as Hn. fold n in Hn. pose proof (get_u32_range 0 (block_header data md)) as Hid. fold id in Hid.
  destruct (read_arrays _ _ _ _ _) as [[arrays cursor]|] eqn:Er; [|done].
  pose proof Er as Er'. apply read_arrays_sound in Er' as (_ & Hall & Hc); [|lia|apply widths_nonneg|lia].
  destruct arrays as [|ds [|ts [|ls [|pls0 [|]]]]]; try done. rewrite !Forall_cons in Hall. destruct Hall as ([Hdu Hdl] & [Htu Htl] & [Hlu Hll] & [Hpu Hpl] & _).
  destruct (negb (default 0 (head ds) =? 0)) eqn:E6; [done|]. destruct (match vs_previousDocumentID s with Some _ => _ | None => _ end) eqn:E7; [done|].
  destruct (validate_postings _ _ _ _ _ _ _) as [[lastID pend]|] eqn:Ev; [|done]. destruct (negb (lastID =? _)) eqn:E8; [done|]. injection H as <-. to_prop.
  apply validate_postings_sound in Ev as (ps & pls & Hz & Hpay & Hv & Hlast & Hpend & Hpe'); [|by apply zip_arrays_u32|done|lia|done|done|].
  2:{ intros _. destruct ds as [|d ds]; [done|]. by destruct ts, ls, pls0. }
  pose proof (payloads_length _ _ _ _ _ Hpay) as Hlp. unfold zlen in Hdl, Htl, Hll, Hpl.
  assert (length ds = length ps) as Hps.
  { apply (f_equal length) in Hz. rewrite length_zip_arrays in Hz by lia. rewrite <- zip_entries, length_zip_arrays in Hz by (rewrite ?length_fmap, ?length_id_deltas; lia).
    by rewrite length_id_deltas in Hz. }
  pose proof Hz as Hz'. rewrite <- zip_entries in Hz' by done. apply zip_arrays_inj in Hz' as (-> & -> & -> & ->); try (rewrite ?length_fmap, ?length_id_deltas in *; lia).
  assert (zlen ps = n) as Hzn by (unfold zlen; lia). assert (ps <> []) as Hne by (intros ->; change (zlen (@nil FTSPosting)) with 0 in Hzn; lia).
  destruct ps as [|p ps]; [done|]. cbn in E6. assert (first_id (p :: ps) = id) as Hfirst by (cbn; lia).
  exists (p :: ps). cbn [vs_expectedBlockOffset vs_expectedPositionOffset vs_decodedCount vs_previousDocumentID].
  unfold wrap32. rewrite Z.mod_small by (unfold u32_max, ftsPostingBlockHeaderSize in *; lia).
  split_and!; try (done || lia).
  - split; try (done || lia); [|rewrite Hfirst, <- Hlast; lia].
    exists pls. rewrite Hzn, Hfirst. split_and!; [exact Er|by rewrite H6|lia].
  - destruct Hv as (_ & Hvp & Hv). split_and!; [|done|done]. destruct (vs_previousDocumentID s); cbn in *; [|done]. to_prop. lia.
  - intros ->. cbn in H3. destruct H3 as [?|?%negb_false_iff%Z.eqb_eq]; [done|]. lia.
  - rewrite Hlast. congruence.
  - unfold ftsPostingBlockHeaderSize in *. lia.
Qed.

Lemma block_at_pend data positionsOffset md ps bend pend :
  block_at data positionsOffset md ps bend pend -> pb_blockOffset md + ftsPostingBlockHeaderSize <= bend <= positionsOffset.
Proof.
  intros [_ _ Hfit _ _ _ _ (pls & Hr & _) _].
  apply read_arrays_sound in Hr as (_ & _ & H); [lia|apply zlen_nonneg|apply widths_nonneg|done].
Qed.

Lemma validate_block_complete data positionsOffset last md s ps bend pend :
  block_at data positionsOffset md ps bend pend -> pb_blockOffset md = vs_expectedBlockOffset s -> pb_positionOffset md = vs_expectedPositionOffset s ->
  valid_after (vs_previousDocumentID s) ps -> (last = false -> zlen ps = ftsPostingDocumentsBlock) ->
  0 <= vs_expectedPositionOffset s -> 0 <= vs_expectedBlockOffset s -> 0 <= positionsOffset <= zlen data -> zlen data <= u32_max ->
  validate_block CtxLive data positionsOffset last md s = Ok (MkValidate bend pend (vs_decodedCount s + zlen ps) (Some (pb_maxDocumentID md))).
Proof.
  intros Hba Hbo Hpo Hv Hlast Hp0 Hb0 Hpos Hd. pose proof (block_at_pend _ _ _ _ _ _ Hba) as Hbend.
  destruct Hba as [Hne Hsize Hfit Hfirst Hcount [Hr1 Hr2] Hw (pls & Hr & Hpay & ->) Hmax]. unfold validate_block.
  fold (block_header data md). fold (block_widths data md). rewrite Hbo, Hpo, !Z.eqb_refl. cbn [negb orb]. rewrite <- Hbo.
  rewrite (proj2 (Z.ltb_ge _ _)) by lia. rewrite Hcount, Hfirst, Hr1, Hr2.
  destruct ps as [|p ps]; [done|]. pose proof (zlen_nonneg ps). rewrite zlen_cons in *.
  rewrite (proj2 (Z.eqb_neq _ _)) by lia. rewrite (proj2 (Z.ltb_ge ftsPostingDocumentsBlock _)) by lia. cbn [orb].
  assert (negb last && negb (zlen ps + 1 =? ftsPostingDocumentsBlock) = false) as ->.
  { destruct last; [done|]. cbn. by rewrite Hlast, Z.eqb_refl. }
  cbn [Z.eqb negb orb]. rewrite (proj2 (existsb_widths _)) by done. rewrite Hr. cbn [id_deltas head default from_option id].
  change (first_id (p :: ps)) with (p_DocumentID p) in *. rewrite Z.sub_diag. cbn [Z.eqb negb].
  destruct Hv as (Hca & Hvp & Hv).
  assert (match vs_previousDocumentID s with Some previous => p_DocumentID p <=? previous | None => false end = false) as ->.
  { destruct (vs_previousDocumentID s); cbn in Hca; [apply Z.leb_gt; lia|done]. }
  pose proof (payloads_length _ _ _ _ _ Hpay) as Hl.
  replace (zip_arrays _ _ _ pls) with (entries_of (p_DocumentID p) (p :: ps) pls) by (rewrite <- zip_entries by done; cbn [id_deltas]; by rewrite Z.sub_diag).
  rewrite validate_postings_complete; [|apply Hvp|lia|lia|done|by rewrite <- Hpo|done|done].
  rewrite Hmax, Z.eqb_refl. cbn [negb]. unfold wrap32. rewrite Z.mod_small by (unfold u32_max, ftsPostingBlockHeaderSize in *; lia).
  done.
Qed.

(** Contiguous blocks that hold [pss], one list of postings each; all but the last are full. *)
Inductive blocks_at (data : bytes) (positionsOffset : Z) : option Z -> Z -> Z -> list ftsPostingBlock -> list (list FTSPosting) -> Z -> Z -> Prop :=
| BlocksNil previous bo po : blocks_at data positionsOffset previous bo po [] [] bo po
| BlocksCons previous md ps blocks pss bend pend bo' po' :
    block_at data positionsOffset md ps bend pend -> valid_after previous ps -> (blocks <> [] -> zlen ps = ftsPostingDocumentsBlock) ->
    0 <= pend -> blocks_at data positionsOffset (Some (pb_maxDocumentID md)) bend pend blocks pss bo' po' ->
    blocks_at data positionsOffset previous (pb_blockOffset md) (pb_positionOffset md) (md :: blocks) (ps :: pss) bo' po'.

Lemma validate_blocks_sound data positionsOffset index blocks s s' :
  0 <= vs_expectedPositionOffset s -> 0 <= positionsOffset <= zlen data -> zlen data <= u32_max -> 0 <= vs_expectedBlockOffset s ->
  validate_blocks CtxLive data positionsOffset index blocks s = Ok s' ->
  exists pss, blocks_at data positionsOffset (vs_previousDocumentID s) (vs_expectedBlockOffset s) (vs_expectedPositionOffset s) blocks pss
      (vs_expectedBlockOffset s') (vs_expectedPositionOffset s') /\
    vs_decodedCount s' = vs_decodedCount s + zlen (concat pss).
Proof.
  revert index s. induction blocks as [|md blocks IH]; intros index s Hp Hpo Hd Hb H; cbn [validate_blocks] in H.
  - injection H as <-. exists []. split; [constructor|]. change (zlen (concat (@nil (list FTSPosting)))) with 0. lia.
  - rewrite poll_live in H. destruct (validate_block _ _ _ _ _ _) as [s1|] eqn:E; [|done].
    apply validate_block_sound in E as (ps & Hba & Hbo & Hpos & Hv & Hfull & Hcnt & Hprev & Hpe & Hbe); try done.
    apply IH in H as (pss & Hbs & Hc); try done; [|lia]. exists (ps :: pss). split.
    + rewrite <- Hbo, <- Hpos. rewrite Hprev in Hbs. econstructor; try done. intros Hne. apply Hfull. by apply bool_decide_eq_false_2.
    + cbn [concat]. rewrite zlen_app. lia.
Qed.

Lemma validate_blocks_complete data positionsOffset index previous bo po blocks pss bo' po' count :
  blocks_at data positionsOffset previous bo po blocks pss bo' po' ->
  0 <= po -> 0 <= positionsOffset <= zlen data -> zlen data <= u32_max -> 0 <= bo ->
  exists last, validate_blocks CtxLive data positionsOffset index blocks (MkValidate bo po count previous) = Ok (MkValidate bo' po' (count + zlen (concat pss)) last).
Proof.
  intros H. revert index count. induction H as [previous bo po|previous md ps blocks pss bend pend bo' po' Hba Hv Hfull Hpend Hbs IH];
    intros index count Hp Hpo Hd Hb; cbn [validate_blocks].
  - exists previous. do 2 f_equal. change (zlen (concat (@nil (list FTSPosting)))) with 0. lia.
  - rewrite poll_live. rewrite (validate_block_complete _ _ _ _ _ _ _ _ Hba); try done.
    2:{ intros E. apply bool_decide_eq_false in E. by apply Hfull. }
    cbn [vs_decodedCount]. pose proof (block_at_pend _ _ _ _ _ _ Hba) as Hbend. unfold ftsPostingBlockHeaderSize in Hbend.
    destruct (IH (index + 1) (count + zlen ps)) as [last Hlast]; try (done || lia).
    exists last. rewrite Hlast. cbn [concat]. rewrite zlen_app. do 2 f_equal. lia.
Qed.

(** The list [l] holds the postings [ps]. *)
Record list_holds (l : FTSPostingList) (pss : list (list FTSPosting)) : Prop := {
  lh_size : zlen (pl_data l) <= u32_max;
  lh_offset : 0 <= pl_positionsOffset l <= zlen (pl_data l);
  lh_blocks : exists blocksOffset, 0 <= blocksOffset /\
    blocks_at (pl_data l) (pl_positionsOffset l) None blocksOffset 0 (pl_blocks l) pss (pl_positionsOffset l) (zlen (pl_data l) - pl_positionsOffset l);
  lh_count : pl_count l = zlen (concat pss)
}.

Lemma validate_holds l blocksOffset :
  0 <= blocksOffset -> 0 <= pl_positionsOffset l <= zlen (pl_data l) -> zlen (pl_data l) <= u32_max ->
  validate CtxLive l blocksOffset (pl_positionsOffset l) = None -> exists pss, list_holds l pss.
Proof.
  intros Hb Hpo Hd H. unfold validate in H. destruct (validate_blocks _ _ _ _ _ _) as [s|] eqn:E; [|done].
  apply validate_blocks_sound in E as (pss & Hbs & Hc); try done. cbn in Hbs, Hc. destruct (negb _ || _ || _) eqn:En; [done|]. to_prop.
  exists pss. split; try done; [|lia]. exists blocksOffset. split; [done|].
  replace (zlen (pl_data l) - pl_positionsOffset l) with (vs_expectedPositionOffset s) by lia.
  by replace (vs_expectedBlockOffset s) with (pl_positionsOffset l) in Hbs by lia.
Qed.

(** Whatever opens holds postings. *)
Lemma open_holds clone data l : openFTSPostingList CtxLive data clone = Ok l -> pl_data l = data /\ exists pss, list_holds l pss.
Proof.
  unfold openFTSPostingList. cbn [posting_ctx ctx_Err]. cbv zeta. intros H.
  repeat match type of H with (if ?b then Fail _ else _) = _ => let E := fresh "E" in destruct b eqn:E; [done|] end.
  apply bind_Ok in H as (blocks & _ & H). destruct (validate _ _ _ _) eqn:Ev; [done|]. injection H as <-. split; [done|]. to_prop.
  pose proof (get_u32_range 24 data) as Hp. pose proof (get_u32_range 20 data) as Hb. unfold is_u32 in *.
  eapply validate_holds; [|cbn..|exact Ev]; cbn; lia.
Qed.
End holds.
