(* ===== verification/FtsBuild.v ===== *)
(** * Building posting lists

    What [BuildFTSPostingList] encodes ([FtsPosting]) is a list that passes
    its own validation and holds the postings it was given ([FtsHolds]); its
    only errors are those of the input. *)
From S2P Require Import Prelude Bytes Crc32c FtsPack FtsPosting FtsHolds.

(** What the types of an [FTSPosting] say: its integers are [uint32]s. *)
Record typed_posting (p : FTSPosting) : Prop := {
  tp_id : is_u32 (p_DocumentID p);
  tp_frequency : is_u32 (p_TermFrequency p);
  tp_length : is_u32 (p_DocumentLength p);
  tp_positions : Forall is_u32 (p_Positions p)
}.

(** The position payload of a posting and its length. *)
Definition payload (p : FTSPosting) : bytes := deltas_bytes 0 (p_Positions p).
Definition payload_length (p : FTSPosting) : Z := zlen (payload p).

(** ** One posting *)
Lemma check_positions_sound work previous positions work' :
  Forall is_u32 positions -> check_positions CtxLive work previous positions = Ok work' -> ascending previous positions.
Proof.
  intros Hf. revert work previous. induction Hf as [|p ps Hp Hf IH]; intros work previous H; cbn [check_positions] in H; [done|].
  rewrite poll_live in H. destruct (p <? previous) eqn:E; [done|]. to_prop. split; [unfold is_u32 in *; lia|by eapply IH].
Qed.

Lemma check_positions_complete work previous positions : ascending previous positions -> exists work', check_positions CtxLive work previous positions = Ok work'.
Proof.
  revert work previous. induction positions as [|p ps IH]; intros work previous Ha; cbn [check_positions]; [by eexists|].
  destruct Ha as [Hr Ha]. rewrite poll_live, (proj2 (Z.ltb_ge _ _)) by lia. by apply IH.
Qed.

Lemma check_positions_error work previous positions e :
  check_positions CtxLive work previous positions = Fail e -> errors_Is e ErrInvalidFTSPosting = true.
Proof.
  revert work previous. induction positions as [|p ps IH]; intros work previous H; cbn [check_positions] in H; [done|].
  rewrite poll_live in H. destruct (p <? previous); [by injection H as <-|]. by eapply IH.
Qed.

(** The state after a posting was accepted. *)
Definition after_posting (s : blockState) (p : FTSPosting) (work : Z) : blockState :=
  MkBlockState work (Some (p_DocumentID p))
    (bs_documentDeltas s ++ [match bs_documentDeltas s, bs_previous s with _ :: _, Some previous => wrap32 (p_DocumentID p - previous) | _, _ => 0 end])
    (bs_termFrequencies s ++ [p_TermFrequency p]) (bs_documentLengths s ++ [p_DocumentLength p])
    (bs_positionLengths s ++ [payload_length p]) (bs_positions s ++ payload p).

Lemma build_posting_ok s p :
  comes_after (bs_previous s) (p_DocumentID p) -> valid_posting p -> payload_length p <= u32_max ->
  exists work, build_posting CtxLive s p = Ok (after_posting s p work).
Proof.
  intros Hca [Hid Hf Hpl Hl Ha] Hpay. unfold build_posting. rewrite poll_live.
  assert (match bs_previous s with Some previous => p_DocumentID p <=? previous | None => false end = false) as ->.
  { destruct (bs_previous s); cbn in Hca; [apply Z.leb_gt; lia|done]. }
  rewrite Hpl, Z.eqb_refl, (proj2 (Z.eqb_neq _ _)), (proj2 (Z.ltb_ge _ _)) by lia. cbn [negb orb].
  assert (exists work, (match p_Positions p with [] => Ok (bs_work s + 1) | first :: rest => check_positions CtxLive (bs_work s + 1) first rest end) = Ok work) as [work Hw].
  { destruct (p_Positions p) as [|x xs]; [by eexists|]. apply check_positions_complete. apply Ha. }
  exists work. rewrite Hw. unfold appendFTSPositionDeltas. rewrite append_deltas_spec by (done || lia). fold (payload p).
  rewrite zlen_app. replace (zlen (bs_positions s) + zlen (payload p) - zlen (bs_positions s)) with (payload_length p) by (unfold payload_length; lia).
  by rewrite (proj2 (Z.ltb_ge _ _)) by lia.
Qed.

Lemma build_posting_inv s p :
  typed_posting p ->
  match build_posting CtxLive s p with
  | Ok _ => comes_after (bs_previous s) (p_DocumentID p) /\ valid_posting p /\ payload_length p <= u32_max
  | Fail e => errors_Is e ErrInvalidFTSPosting = true
  end.
Proof.
  intros [Hid Htf Hdl Hps]. unfold build_posting. rewrite poll_live.
  destruct (match bs_previous s with Some _ => _ | None => _ end) eqn:Ep; [done|].
  destruct ((p_TermFrequency p =? 0) || _) eqn:Ef; [done|]. destruct (p_DocumentLength p <? _) eqn:El; [done|]. to_prop.
  destruct (match p_Positions p with [] => _ | _ :: _ => _ end) as [work|e] eqn:Ec.
  2:{ destruct (p_Positions p); [done|]. by eapply check_positions_error. }
  assert (ascending 0 (p_Positions p)) as Ha.
  { destruct (p_Positions p) as [|x xs]; [done|]. inversion Hps as [|? ? Hx Hxs]; subst. split; [exact Hx|]. by eapply check_positions_sound. }
  unfold appendFTSPositionDeltas. rewrite append_deltas_spec by (done || lia). fold (payload p).
  rewrite zlen_app. replace (zlen (bs_positions s) + zlen (payload p) - zlen (bs_positions s)) with (payload_length p) by (unfold payload_length; lia).
  destruct (u32_max <? payload_length p) eqn:E; [done|]. to_prop. split_and!; [|split; try done; unfold is_u32 in *; lia|lia].
  destruct (bs_previous s); cbn; [to_prop; lia|done].
Qed.

(** ** The postings of a block *)
Definition payload_lengths (ps : list FTSPosting) : list Z := payload_length <$> ps.
Definition payloads (ps : list FTSPosting) : bytes := mjoin (payload <$> ps).

Record block_state (previous : option Z) (ps : list FTSPosting) (s s' : blockState) (base : Z) : Prop := {
  st_previous : bs_previous s' = after_postings (bs_previous s) ps;
  st_deltas : bs_documentDeltas s' = bs_documentDeltas s ++ id_deltas base ps;
  st_frequencies : bs_termFrequencies s' = bs_termFrequencies s ++ (p_TermFrequency <$> ps);
  st_lengths : bs_documentLengths s' = bs_documentLengths s ++ (p_DocumentLength <$> ps);
  st_position_lengths : bs_positionLengths s' = bs_positionLengths s ++ payload_lengths ps;
  st_positions : bs_positions s' = bs_positions s ++ payloads ps
}.

Lemma build_postings_ok ps s base :
  valid_after (bs_previous s) ps -> Forall (fun p => payload_length p <= u32_max) ps ->
  (bs_documentDeltas s = [] -> ps <> [] -> base = first_id ps) -> (bs_documentDeltas s <> [] -> bs_previous s = Some base /\ 0 <= base) ->
  exists s', foldM (build_posting CtxLive) ps s = Ok s' /\ block_state (bs_previous s) ps s s' base.
Proof.
  revert s base. induction ps as [|p ps IH]; intros s base Hv Hf Hb1 Hb2; cbn [foldM].
  - exists s. split; [done|]. split; cbn; rewrite ?app_nil_r; done.
  - destruct Hv as (Hca & Hvp & Hv). apply Forall_cons in Hf as [Hp Hf].
    destruct (build_posting_ok s p Hca Hvp Hp) as [work ->]. set (s1 := after_posting s p work).
    destruct (IH s1 (p_DocumentID p)) as (s' & Hs' & [H1 H2 H3 H4 H5 H6]).
    { exact Hv. } { exact Hf. }
    { unfold s1. cbn. intros E. by apply app_eq_nil in E as [_ ?]. }
    { intros _. split; [done|]. apply Hvp. }
    exists s'. split; [done|]. split.
    + rewrite H1, after_postings_cons. unfold after_postings, last_document. by destruct (last ps).
    + rewrite H2. unfold s1, after_posting. cbn [bs_documentDeltas id_deltas]. rewrite <- app_assoc. cbn [app]. do 2 f_equal.
      destruct (bs_documentDeltas s) as [|d ds] eqn:E.
      * rewrite Hb1 by done. cbn. lia.
      * destruct Hb2 as [Hpv Hbase]; [done|]. destruct Hvp as [Hid _ _ _ _]. rewrite Hpv in *. cbn in Hca.
        unfold wrap32, is_u32, u32_max in *. by rewrite Z.mod_small by lia.
    + rewrite H3. unfold s1. cbn. by rewrite <- app_assoc.
    + rewrite H4. unfold s1. cbn. by rewrite <- app_assoc.
    + rewrite H5. unfold s1. cbn. by rewrite <- app_assoc.
    + rewrite H6. unfold s1. cbn. by rewrite <- app_assoc.
Qed.

Lemma build_postings_inv ps s :
  Forall typed_posting ps ->
  match foldM (build_posting CtxLive) ps s with
  | Ok _ => valid_after (bs_previous s) ps /\ Forall (fun p => payload_length p <= u32_max) ps
  | Fail e => errors_Is e ErrInvalidFTSPosting = true
  end.
Proof.
  intros Hf. revert s. induction Hf as [|p ps Hp Hf IH]; intros s; cbn [foldM]; [split; [done|constructor]|].
  pose proof (build_posting_inv s p Hp) as Hinv. destruct (build_posting CtxLive s p) as [s1|e] eqn:E; [|done].
  destruct Hinv as (Hca & Hvp & Hpl). destruct (build_posting_ok s p Hca Hvp Hpl) as [work Hw]. rewrite E in Hw. injection Hw as ->.
  specialize (IH (after_posting s p work)). destruct (foldM _ ps _); [|done]. destruct IH as [IH1 IH2]. split; [by split_and!|by constructor].
Qed.

(** ** The bytes of a block *)
Section build.
Context `{BP : !Bitpack, BL : !BitpackLaws}.

Definition arrays_of (ps : list FTSPosting) : blockState :=
  MkBlockState 0 None (id_deltas (first_id ps) ps) (p_TermFrequency <$> ps) (p_DocumentLength <$> ps) (payload_lengths ps) [].
Definition block_bytes (ps : list FTSPosting) : bytes := encode_block (first_id ps) (arrays_of ps).
Definition encoded (ps : list FTSPosting) : encodedBlock := MkEncodedBlock (last_document (first_id ps) ps) (block_bytes ps) (payloads ps).

Lemma build_block_ok work previous ps :
  ps <> [] -> valid_after previous ps -> Forall (fun p => payload_length p <= u32_max) ps ->
  exists s, build_block CtxLive work previous ps = Ok (encoded ps, s) /\ bs_previous s = Some (last_document (first_id ps) ps).
Proof.
  intros Hne Hv Hf. unfold build_block.
  destruct (build_postings_ok ps (MkBlockState work previous [] [] [] [] []) (first_id ps)) as (s & -> & [H1 H2 H3 H4 H5 H6]); try done.
  cbn in *. exists s. assert (bs_previous s = Some (last_document (first_id ps) ps)) as Hp.
  { rewrite H1. destruct ps as [|p ps]; [done|]. rewrite after_postings_cons. by rewrite last_posting_id_cons. }
  split; [|done]. do 2 f_equal. unfold encoded, block_bytes, encode_block, arrays_of. cbn [bs_documentDeltas bs_termFrequencies bs_documentLengths bs_positionLengths].
  by rewrite Hp, H2, H3, H4, H5, H6.
Qed.

Lemma id_deltas_u32 base ps : valid_after None ps -> match ps with p :: _ => 0 <= base <= p_DocumentID p | [] => True end -> Forall is_u32 (id_deltas base ps).
Proof.
  revert base. induction ps as [|p ps IH]; intros base Hv Hb; cbn [id_deltas]; constructor.
  - destruct Hv as (_ & [Hid _ _ _ _] & _). unfold is_u32 in *. lia.
  - destruct Hv as (_ & [Hid _ _ _ _] & Hv). apply IH; [by eapply valid_after_weaken|]. destruct ps; [done|]. destruct Hv as (Hca & _). cbn in Hca. unfold is_u32 in *. lia.
Qed.

Lemma arrays_u32 previous ps : valid_after previous ps -> Forall (fun p => payload_length p <= u32_max) ps ->
  Forall is_u32 (id_deltas (first_id ps) ps) /\ Forall is_u32 (p_TermFrequency <$> ps) /\ Forall is_u32 (p_DocumentLength <$> ps) /\ Forall is_u32 (payload_lengths ps).
Proof.
  intros Hv Hf. apply valid_after_weaken in Hv as Hn. split.
  { apply id_deltas_u32; [done|]. destruct ps as [|p ps]; [done|]. destruct Hn as (_ & [Hid _ _ _ _] & _). unfold is_u32 in *. cbn. lia. }
  clear Hv. assert (Forall valid_posting ps) as Hall.
  { clear Hf. unfold valid_postings in Hn. revert Hn. generalize (@None Z). induction ps as [|p ps IH]; intros o; [constructor|]. intros (_ & Hp & H). constructor; [done|by eapply IH]. }
  unfold payload_lengths. rewrite !Forall_fmap. split_and!; (eapply Forall_impl; [eapply Forall_and; split; [exact Hall|exact Hf]|]); intros p [[Hid Hfr Hpl Hl Ha] Hpay]; cbn in *; unfold is_u32 in *; [lia..|].
  split; [apply zlen_nonneg|done].
Qed.

Definition width_of (values : list Z) : Z := ftsBitsNeeded (maxUint32Slice values).

Definition block_prefix (ps : list FTSPosting) : bytes :=
  le_put 4 (first_id ps) ++ le_put 2 (zlen ps) ++
  [byte_of_Z (width_of (id_deltas (first_id ps) ps)); byte_of_Z (width_of (p_TermFrequency <$> ps)); byte_of_Z (width_of (p_DocumentLength <$> ps)); byte_of_Z (width_of (payload_lengths ps))]
  ++ make_bytes 2.

Lemma Forall_width values : Forall is_u32 values -> 0 <= width_of values <= 32 /\ Forall (fun v => 0 <= v < 2 ^ width_of values) values.
Proof. apply ftsBitsNeeded_spec. Qed.

Definition packed (values : list Z) : bytes := packed_bytes values (width_of values).

Lemma block_bytes_eq previous ps : valid_after previous ps -> Forall (fun p => payload_length p <= u32_max) ps ->
  block_bytes ps = block_prefix ps ++ packed (id_deltas (first_id ps) ps) ++ packed (p_TermFrequency <$> ps) ++ packed (p_DocumentLength <$> ps) ++ packed (payload_lengths ps).
Proof.
  intros Hv Hf. destruct (arrays_u32 _ _ Hv Hf) as (H1 & H2 & H3 & H4). apply Forall_width in H1 as [W1 _], H2 as [W2 _], H3 as [W3 _], H4 as [W4 _].
  unfold block_bytes, encode_block, arrays_of. cbn [bs_documentDeltas bs_termFrequencies bs_documentLengths bs_positionLengths].
  fold (width_of (id_deltas (first_id ps) ps)) (width_of (p_TermFrequency <$> ps)) (width_of (p_DocumentLength <$> ps)) (width_of (payload_lengths ps)).
  rewrite !appendFTSPackedUint32_spec by lia. unfold packed, block_prefix. replace (zlen (id_deltas (first_id ps) ps)) with (zlen ps) by (unfold zlen; by rewrite length_id_deltas).
  by rewrite <- !app_assoc.
Qed.

(** One packed array where the reader expects it. *)
Lemma read_arrays_packed data positionsOffset cursor values ws pre post n :
  Forall is_u32 values -> data = pre ++ packed values ++ post -> zlen pre = cursor -> zlen values = n -> cursor + zlen (packed values) <= positionsOffset ->
  read_arrays data positionsOffset n cursor (width_of values :: ws) =
    '(arrays, cursor) ← read_arrays data positionsOffset n (cursor + zlen (packed values)) ws; Ok (values :: arrays, cursor).
Proof.
  intros Hu -> <- <- Hfit. destruct (Forall_width _ Hu) as [Hw Hf]. pose proof (packed_bytes_length values (width_of values) ltac:(lia) Hf) as Hl. fold (packed values) in Hl.
  pose proof (zlen_nonneg values) as Hz. pose proof (packed_size_nonneg (width_of values) (zlen values) ltac:(lia) Hz) as Hs.
  cbn [read_arrays]. rewrite <- Hl. rewrite (proj2 (Z.ltb_ge _ _)) by lia.
  assert (slice (Z.to_nat (zlen pre)) (Z.to_nat (zlen pre + zlen (packed values))) (pre ++ packed values ++ post) = packed values) as Hslice
    by (apply slice_field; unfold zlen; lia).
  rewrite Hslice. unfold unpackFTSUint32. rewrite zlen_to_nat. assert (unpackFTSUint32Into (packed values) (width_of values) (length values) = values) as -> by by apply unpack_packed.
  destruct (zlen values =? ftsPostingDocumentsBlock) eqn:E; cbn [andb]; [|done]. to_prop.
  assert (slice (Z.to_nat (zlen pre + ftsPackedByteSize (width_of values) (zlen values))) (Z.to_nat (zlen pre + zlen (packed values))) (pre ++ packed values ++ post)
    = make_bytes PaddingInt32) as ->; [|].
  { rewrite <- (packed_bytes_padding values (width_of values)) by (done || lia). fold (packed values).
    unfold ftsPackedStorageSize in Hl. rewrite E, Z.eqb_refl in Hl. rewrite E in *.
    rewrite slice_app_r by (unfold zlen in *; lia). rewrite slice_app_l by (unfold zlen in *; lia).
    unfold slice. rewrite take_ge by (rewrite length_drop; unfold zlen in *; lia). f_equal. unfold zlen in *. lia. }
  assert (forallb (fun value => Z_of_byte value =? 0) (make_bytes PaddingInt32) = true) as ->; [|done].
  unfold make_bytes. generalize PaddingInt32. intros k. induction k as [|k IH]; [done|]. cbn. rewrite IH, <- x00_byte, Z_of_byte_of_Z. done.
Qed.

Lemma payloads_cons p ps : payloads (p :: ps) = payload p ++ payloads ps.
Proof. done. Qed.

(** The position payloads where the reader expects them. *)
Lemma payloads_encoded data positionsOffset po ps pre post previous :
  valid_after previous ps -> data = pre ++ payloads ps ++ post -> zlen pre = positionsOffset + po -> payloads_at data positionsOffset po (payload_lengths ps) ps.
Proof.
  revert po pre previous. induction ps as [|p ps IH]; intros po pre previous Hv -> Hpre; cbn [payload_lengths fmap list_fmap payloads_at]; [done|].
  destruct Hv as (_ & [Hid Hf Hpl Hl Ha] & Hv). pose proof (length_deltas_bytes 0 (p_Positions p)) as Hld. fold (payload p) in Hld.
  rewrite payloads_cons. split_and!.
  - unfold payload_length, zlen in *. lia.
  - rewrite !zlen_app, <- Hpre. pose proof (zlen_nonneg (payloads ps)). pose proof (zlen_nonneg post). unfold payload_length. lia.
  - rewrite <- Hpre, <- app_assoc. rewrite slice_field; [|unfold zlen; lia|unfold payload_length, zlen; lia].
    rewrite <- Hpl. unfold payload. by apply positions_roundtrip.
  - apply (IH _ (pre ++ payload p) _ Hv); [by rewrite payloads_cons, <- !app_assoc|]. rewrite zlen_app. unfold payload_length. lia.
Qed.

Lemma sum_payloads ps : sum (payload_lengths ps) = zlen (payloads ps).
Proof. induction ps as [|p ps IH]; [done|]. rewrite payloads_cons, zlen_app, <- IH. done. Qed.

Lemma block_header_fields ps :
  ps <> [] -> zlen ps <= ftsPostingDocumentsBlock -> valid_postings ps -> Forall (fun p => payload_length p <= u32_max) ps ->
  get_u32 0 (block_prefix ps) = first_id ps /\ get_u16 4 (block_prefix ps) = zlen ps /\
  [get_u8 6 (block_prefix ps); get_u8 7 (block_prefix ps); get_u8 8 (block_prefix ps); get_u8 9 (block_prefix ps)] =
    [width_of (id_deltas (first_id ps) ps); width_of (p_TermFrequency <$> ps); width_of (p_DocumentLength <$> ps); width_of (payload_lengths ps)] /\
  get_u8 10 (block_prefix ps) = 0 /\ get_u8 11 (block_prefix ps) = 0.
Proof.
  intros Hne Hs Hv Hf. destruct (arrays_u32 _ _ Hv Hf) as (H1 & H2 & H3 & H4). apply Forall_width in H1 as [W1 _], H2 as [W2 _], H3 as [W3 _], H4 as [W4 _].
  assert (is_u32 (first_id ps)) as Hid by (destruct ps as [|p ps]; [done|]; apply Hv).
  change (get_u32 0 (block_prefix ps)) with (le_get (le_put 4 (first_id ps))). change (get_u16 4 (block_prefix ps)) with (le_get (le_put 2 (zlen ps))).
  rewrite le_get_put4, le_get_put2 by (done || (unfold u16_max, ftsPostingDocumentsBlock in *; pose proof (zlen_nonneg ps); lia)).
  assert (forall w, 0 <= w <= 32 -> Z_of_byte (byte_of_Z w) + 256 * 0 = w) as Hw by (intros w Hw; rewrite Z_of_byte_of_Z, Z.mod_small; lia).
  split_and!; [done|done| |by vm_compute|by vm_compute].
  change (get_u8 6 (block_prefix ps)) with (Z_of_byte (byte_of_Z (width_of (id_deltas (first_id ps) ps))) + 256 * 0).
  change (get_u8 7 (block_prefix ps)) with (Z_of_byte (byte_of_Z (width_of (p_TermFrequency <$> ps))) + 256 * 0).
  change (get_u8 8 (block_prefix ps)) with (Z_of_byte (byte_of_Z (width_of (p_DocumentLength <$> ps))) + 256 * 0).
  change (get_u8 9 (block_prefix ps)) with (Z_of_byte (byte_of_Z (width_of (payload_lengths ps))) + 256 * 0).
  by rewrite !Hw.
Qed.

Lemma length_block_prefix ps : length (block_prefix ps) = 12%nat.
Proof. done. Qed.

(** An encoded block in the data is a block that holds its postings. *)
Lemma block_at_encoded data positionsOffset bo po ps pre post pre' post' :
  ps <> [] -> zlen ps <= ftsPostingDocumentsBlock -> valid_postings ps -> Forall (fun p => payload_length p <= u32_max) ps ->
  data = pre ++ block_bytes ps ++ post -> zlen pre = bo -> bo + zlen (block_bytes ps) <= positionsOffset ->
  data = pre' ++ payloads ps ++ post' -> zlen pre' = positionsOffset + po ->
  block_at data positionsOffset (MkPostingBlock (last_document (first_id ps) ps) bo po) ps (bo + zlen (block_bytes ps)) (po + zlen (payloads ps)).
Proof.
  intros Hne Hs Hv Hf Hd Hpre Hfit Hd' Hpre'. destruct (arrays_u32 _ _ Hv Hf) as (H1 & H2 & H3 & H4).
  destruct (block_header_fields ps Hne Hs Hv Hf) as (F1 & F2 & F3 & F4 & F5). rewrite (block_bytes_eq _ _ Hv Hf) in *.
  set (d := id_deltas (first_id ps) ps) in *. set (t := p_TermFrequency <$> ps) in *. set (l := p_DocumentLength <$> ps) in *. set (pl := payload_lengths ps) in *.
  assert (block_header data (MkPostingBlock (last_document (first_id ps) ps) bo po) = block_prefix ps) as Hh.
  { unfold block_header. cbn [pb_blockOffset]. rewrite Hd, <- !app_assoc. apply slice_field; [unfold zlen in *; lia|].
    rewrite length_block_prefix. unfold ftsPostingBlockHeaderSize, zlen in *. lia. }
  assert (zlen (block_prefix ps) = 12) as H12 by (unfold zlen; by rewrite length_block_prefix).
  rewrite !zlen_app in *. pose proof (zlen_nonneg (packed d)). pose proof (zlen_nonneg (packed t)). pose proof (zlen_nonneg (packed l)). pose proof (zlen_nonneg (packed pl)).
  assert (zlen d = zlen ps /\ zlen t = zlen ps /\ zlen l = zlen ps /\ zlen pl = zlen ps) as (Ld & Lt & Ll & Lp).
  { unfold d, t, l, pl, payload_lengths, zlen. rewrite length_id_deltas, !length_fmap. lia. }
  destruct (Forall_width _ H1) as [W1 _], (Forall_width _ H2) as [W2 _], (Forall_width _ H3) as [W3 _], (Forall_width _ H4) as [W4 _].
  split; cbn [pb_blockOffset pb_positionOffset pb_maxDocumentID]; unfold block_widths; rewrite ?Hh, ?F3; try done.
  - unfold ftsPostingBlockHeaderSize. lia.
  - repeat constructor; lia.
  - exists pl. split_and!; [|by eapply payloads_encoded|unfold pl; by rewrite sum_payloads].
    rewrite (read_arrays_packed _ _ _ d _ (pre ++ block_prefix ps) (packed t ++ packed l ++ packed pl ++ post)); [|done|by rewrite Hd, <- !app_assoc|rewrite zlen_app; unfold ftsPostingBlockHeaderSize; lia|done|unfold ftsPostingBlockHeaderSize; lia].
    rewrite (read_arrays_packed _ _ _ t _ (pre ++ block_prefix ps ++ packed d) (packed l ++ packed pl ++ post)); [|done|by rewrite Hd, <- !app_assoc|rewrite !zlen_app; unfold ftsPostingBlockHeaderSize; lia|done|unfold ftsPostingBlockHeaderSize; lia].
    rewrite (read_arrays_packed _ _ _ l _ (pre ++ block_prefix ps ++ packed d ++ packed t) (packed pl ++ post)); [|done|by rewrite Hd, <- !app_assoc|rewrite !zlen_app; unfold ftsPostingBlockHeaderSize; lia|done|unfold ftsPostingBlockHeaderSize; lia].
    rewrite (read_arrays_packed _ _ _ pl _ (pre ++ block_prefix ps ++ packed d ++ packed t ++ packed l) post); [|done|by rewrite Hd, <- !app_assoc|rewrite !zlen_app; unfold ftsPostingBlockHeaderSize; lia|done|unfold ftsPostingBlockHeaderSize; lia].
    cbn [read_arrays mbind result_bind]. do 2 f_equal. unfold ftsPostingBlockHeaderSize. lia.
Qed.

(** ** The sequence of blocks *)

(** The postings of each block. *)
Fixpoint chunks (fuel : nat) (ps : list FTSPosting) : list (list FTSPosting) :=
  match fuel, ps with
  | S fuel, _ :: _ => take (Z.to_nat ftsPostingDocumentsBlock) ps :: chunks fuel (drop (Z.to_nat ftsPostingDocumentsBlock) ps)
  | _, _ => []
  end.

(** Blocks that are not empty and, all but the last, full. *)
Fixpoint chunked (pss : list (list FTSPosting)) : Prop :=
  match pss with
  | [] => True
  | ps :: pss => ps <> [] /\ zlen ps <= ftsPostingDocumentsBlock /\ (pss <> [] -> zlen ps = ftsPostingDocumentsBlock) /\ chunked pss
  end.

Lemma chunks_spec fuel ps : (length ps <= fuel)%nat -> concat (chunks fuel ps) = ps /\ chunked (chunks fuel ps).
Proof.
  revert ps. induction fuel as [|fuel IH]; intros ps Hl; [by destruct ps; [|cbn in Hl; lia]|].
  destruct ps as [|p ps]; [done|]. cbn [chunks]. set (q := p :: ps) in *. set (n := Z.to_nat ftsPostingDocumentsBlock).
  assert (n = 128%nat) as Hn by done. destruct (IH (drop n q)) as [Hc Hch]; [rewrite length_drop; lia|]. cbn [concat chunked]. rewrite Hc. split; [apply take_drop|].
  assert (length q <> 0%nat) by done. unfold zlen, ftsPostingDocumentsBlock in *. rewrite length_take. split_and!; [|lia| |done].
  - intros E. apply (f_equal length) in E. rewrite length_take in E. cbn [length] in E. lia.
  - intros Hne. destruct (decide (length q <= n)%nat) as [Hle|]; [|lia]. rewrite drop_ge in Hne by done. by destruct fuel.
Qed.

Lemma after_last previous ps : ps <> [] -> after_postings previous ps = Some (last_document (first_id ps) ps).
Proof. destruct ps as [|p ps]; [done|]. intros _. by rewrite after_postings_cons, last_posting_id_cons. Qed.

Lemma build_blocks_ok fuel work previous ps :
  (length ps <= fuel)%nat -> valid_after previous ps -> Forall (fun p => payload_length p <= u32_max) ps ->
  build_blocks fuel CtxLive work previous ps = Ok (encoded <$> chunks fuel ps).
Proof.
  revert work previous ps. induction fuel as [|fuel IH]; intros work previous ps Hl Hv Hf; [done|].
  destruct ps as [|p ps]; [done|]. cbn [build_blocks chunks fmap list_fmap]. set (q := p :: ps) in *. set (n := Z.to_nat ftsPostingDocumentsBlock).
  assert (n = 128%nat) as Hn by done. assert (take n q <> []) as Hne by done. rewrite <- (take_drop n q) in Hv, Hf. apply valid_after_app in Hv as [Hv1 Hv2]. apply Forall_app in Hf as [Hf1 Hf2].
  destruct (build_block_ok work previous (take n q) Hne Hv1 Hf1) as (s & -> & Hs). rewrite after_last in Hv2 by done.
  rewrite (IH _ _ (drop n q)); [done|rewrite length_drop; cbn in *; lia|by rewrite Hs|done].
Qed.

Lemma build_blocks_inv fuel work previous ps :
  (length ps <= fuel)%nat -> Forall typed_posting ps ->
  match build_blocks fuel CtxLive work previous ps with
  | Ok _ => valid_after previous ps /\ Forall (fun p => payload_length p <= u32_max) ps
  | Fail e => errors_Is e ErrInvalidFTSPosting = true
  end.
Proof.
  revert work previous ps. induction fuel as [|fuel IH]; intros work previous ps Hl Hf; [destruct ps; [|cbn in Hl; lia]; by split; [|constructor]|].
  destruct ps as [|p ps]; [by split; [|constructor]|]. cbn [build_blocks]. set (q := p :: ps) in *. set (n := Z.to_nat ftsPostingDocumentsBlock).
  assert (n = 128%nat) as Hn by done. assert (take n q <> []) as Hne by done. rewrite <- (take_drop n q) in Hf. apply Forall_app in Hf as [Hf1 Hf2].
  pose proof (build_postings_inv (take n q) (MkBlockState work previous [] [] [] [] []) Hf1) as Hinv.
  unfold build_block. destruct (foldM _ _ _) as [s'|e] eqn:E; cbn [mbind result_bind]; [|done]. destruct Hinv as [Hv Hp]. cbn in Hv.
  destruct (build_block_ok work previous (take n q) Hne Hv Hp) as (s & Hs & Hsp). unfold build_block in Hs. rewrite E in Hs. cbn [mbind result_bind] in Hs. assert (s' = s) as -> by congruence.
  specialize (IH (bs_work s) (bs_previous s) (drop n q)). destruct (build_blocks fuel _ _ _ _); cbn [mbind result_bind].
  - rewrite <- (take_drop n q). rewrite valid_after_app, Forall_app, after_last, <- Hsp by done. destruct IH as [IH1 IH2]; [rewrite length_drop; cbn in *; lia|done|done].
  - apply IH; [rewrite length_drop; cbn in *; lia|done].
Qed.

(** ** Offsets and the directory *)

(** The directory of the blocks [pss] whose bytes start at [bo] and whose position payloads start at [po]. *)
Fixpoint directory_of (bo po : Z) (pss : list (list FTSPosting)) : list ftsPostingBlock :=
  match pss with
  | [] => []
  | ps :: pss => MkPostingBlock (last_document (first_id ps) ps) bo po :: directory_of (bo + zlen (block_bytes ps)) (po + zlen (payloads ps)) pss
  end.
Definition all_blocks (pss : list (list FTSPosting)) : bytes := mjoin (block_bytes <$> pss).
Definition all_payloads (pss : list (list FTSPosting)) : bytes := mjoin (payloads <$> pss).

Lemma all_blocks_cons ps pss : all_blocks (ps :: pss) = block_bytes ps ++ all_blocks pss.
Proof. done. Qed.
Lemma all_payloads_cons ps pss : all_payloads (ps :: pss) = payloads ps ++ all_payloads pss.
Proof. done. Qed.

Lemma length_directory_of bo po pss : length (directory_of bo po pss) = length pss.
Proof. revert bo po. induction pss as [|ps pss IH]; intros bo po; cbn; [done|by rewrite IH]. Qed.

Lemma blocks_at_encoded data positionsOffset previous bo po pss pre post pre' post' :
  chunked pss -> valid_after previous (concat pss) -> Forall (fun p => payload_length p <= u32_max) (concat pss) -> 0 <= po ->
  data = pre ++ all_blocks pss ++ post -> zlen pre = bo -> bo + zlen (all_blocks pss) <= positionsOffset ->
  data = pre' ++ all_payloads pss ++ post' -> zlen pre' = positionsOffset + po ->
  blocks_at data positionsOffset previous bo po (directory_of bo po pss) pss (bo + zlen (all_blocks pss)) (po + zlen (all_payloads pss)).
Proof.
  revert previous bo po pre pre'. induction pss as [|ps pss IH]; intros previous bo po pre pre' Hc Hv Hf Hp0 Hd Hpre Hfit Hd' Hpre'.
  - change (zlen (all_blocks [])) with 0. change (zlen (all_payloads [])) with 0. rewrite !Z.add_0_r. constructor.
  - destruct Hc as (Hne & Hs & Hfull & Hc). cbn [concat] in Hv, Hf. apply valid_after_app in Hv as [Hv1 Hv2]. apply Forall_app in Hf as [Hf1 Hf2].
    rewrite all_blocks_cons in Hd, Hfit |- *. rewrite all_payloads_cons in Hd' |- *. rewrite <- app_assoc in Hd, Hd'. rewrite zlen_app in Hfit.
    pose proof (zlen_nonneg (all_blocks pss)). pose proof (zlen_nonneg (payloads ps)). rewrite !zlen_app, !Z.add_assoc. cbn [directory_of].
    set (md := MkPostingBlock (last_document (first_id ps) ps) bo po).
    apply (BlocksCons data positionsOffset previous md ps _ _ (bo + zlen (block_bytes ps)) (po + zlen (payloads ps))); [|done| |lia|].
    + eapply block_at_encoded; try done; [by eapply valid_after_weaken|lia].
    + intros Hn. apply Hfull. intros ->. done.
    + rewrite after_last in Hv2 by done. eapply IH; try done; [lia|rewrite app_assoc in Hd; exact Hd|rewrite zlen_app; lia|lia|rewrite app_assoc in Hd'; exact Hd'|rewrite zlen_app; lia].
Qed.

Lemma place_blocks_spec size po pss :
  0 <= size <= u32_max ->
  match place_blocks size (encoded <$> pss) with
  | Ok (offsets, size') => offsets = pb_blockOffset <$> directory_of size po pss /\ size' = size + zlen (all_blocks pss) /\ size' <= u32_max
  | Fail e => errors_Is e ErrInvalidFTSPosting = true /\ u32_max < size + zlen (all_blocks pss)
  end.
Proof.
  revert size po. induction pss as [|ps pss IH]; intros size po Hs; cbn [fmap list_fmap place_blocks directory_of].
  - change (zlen (all_blocks [])) with 0. split_and!; (done || lia).
  - cbn [eb_data encoded]. rewrite all_blocks_cons, zlen_app. pose proof (zlen_nonneg (block_bytes ps)). pose proof (zlen_nonneg (all_blocks pss)).
    destruct (_ || _) eqn:E.
    + split; [done|]. apply orb_true_iff in E as [E|E]; to_prop; unfold ftsMaximumInt, int_max, u32_max in *; lia.
    + to_prop. specialize (IH (size + zlen (block_bytes ps)) (po + zlen (payloads ps)) ltac:(lia)).
      destruct (place_blocks _ _) as [[offsets size']|]; cbn [mbind result_bind]; [|split; [apply IH|destruct IH; lia]].
      destruct IH as (-> & -> & Hle). split_and!; [|lia|lia]. cbn [fmap list_fmap pb_blockOffset]. f_equal. unfold wrap32, u32_max in *. apply Z.mod_small. lia.
Qed.

Lemma place_positions_spec size bo po pss :
  0 <= size <= u32_max -> 0 <= po <= size ->
  match place_positions size po (encoded <$> pss) with
  | Ok offsets => offsets = pb_positionOffset <$> directory_of bo po pss /\ size + zlen (all_payloads pss) <= u32_max
  | Fail e => errors_Is e ErrInvalidFTSPosting = true /\ u32_max < size + zlen (all_payloads pss)
  end.
Proof.
  revert size bo po. induction pss as [|ps pss IH]; intros size bo po Hs Hp; cbn [fmap list_fmap place_positions directory_of].
  - change (zlen (all_payloads [])) with 0. split_and!; (done || lia).
  - cbn [eb_positions encoded]. rewrite all_payloads_cons, zlen_app. pose proof (zlen_nonneg (payloads ps)). pose proof (zlen_nonneg (all_payloads pss)).
    destruct (_ || _) eqn:E.
    + split; [done|]. apply orb_true_iff in E as [E|E]; to_prop; unfold ftsMaximumInt, int_max, u32_max in *; lia.
    + to_prop. specialize (IH (size + zlen (payloads ps)) (bo + zlen (block_bytes ps)) (po + zlen (payloads ps)) ltac:(lia) ltac:(lia)).
      destruct (place_positions _ _ _) as [offsets|]; cbn [mbind result_bind]; [|split; [apply IH|destruct IH; lia]].
      destruct IH as (-> & Hle). split_and!; [|lia]. cbn [fmap list_fmap pb_positionOffset]. f_equal. unfold wrap32, u32_max in *. apply Z.mod_small. lia.
Qed.

Definition entry_bytes (b : ftsPostingBlock) : bytes := directory_entry (pb_maxDocumentID b) (pb_blockOffset b) (pb_positionOffset b).
Definition directory_bytes (bs : list ftsPostingBlock) : bytes := mjoin (entry_bytes <$> bs).

Lemma directory_bytes_cons b bs : directory_bytes (b :: bs) = entry_bytes b ++ directory_bytes bs.
Proof. done. Qed.

Lemma length_directory_bytes bs : length (directory_bytes bs) = (12 * length bs)%nat.
Proof. induction bs as [|b bs IH]; [done|]. rewrite directory_bytes_cons, length_app, IH. change (length (entry_bytes b)) with 12%nat. cbn [length]. lia. Qed.

Lemma directory_zip bo po pss :
  mjoin (zip_with (fun block '(blockOffset, positionOffset) => directory_entry (eb_maxDocumentID block) blockOffset positionOffset)
    (encoded <$> pss) (zip (pb_blockOffset <$> directory_of bo po pss) (pb_positionOffset <$> directory_of bo po pss)))
  = directory_bytes (directory_of bo po pss).
Proof.
  revert bo po. induction pss as [|ps pss IH]; intros bo po; [done|]. specialize (IH (bo + zlen (block_bytes ps)) (po + zlen (payloads ps))).
  cbn [directory_of]. rewrite directory_bytes_cons, <- IH. reflexivity.
Qed.

(** Directory entries with increasing document IDs whose fields are [uint32]s. *)
Fixpoint directory_ok (previous : option Z) (bs : list ftsPostingBlock) : Prop :=
  match bs with
  | [] => True
  | b :: bs => comes_after previous (pb_maxDocumentID b) /\ is_u32 (pb_maxDocumentID b) /\ is_u32 (pb_blockOffset b) /\ is_u32 (pb_positionOffset b) /\
      directory_ok (Some (pb_maxDocumentID b)) bs
  end.

Lemma read_directory_encoded data index previous bs pre post :
  directory_ok previous bs -> data = pre ++ directory_bytes bs ++ post -> zlen pre = ftsPostingHeaderSize + index * ftsPostingDirectorySize ->
  0 <= index -> read_directory CtxLive data (length bs) index previous = Ok bs.
Proof.
  revert index previous pre. induction bs as [|b bs IH]; intros index previous pre Hok Hd Hpre Hi; cbn [length read_directory]; [done|].
  destruct Hok as (Hca & Hm & Hb & Hp & Hok). rewrite poll_live, directory_bytes_cons, <- app_assoc in *. set (offset := ftsPostingHeaderSize + index * ftsPostingDirectorySize) in *.
  assert (0 <= offset) as H0 by (unfold offset, ftsPostingHeaderSize, ftsPostingDirectorySize; lia).
  assert (forall k v, 0 <= k -> is_u32 v -> (exists a c, entry_bytes b = a ++ le_put 4 v ++ c /\ zlen a = k) -> get_u32 (offset + k) data = v) as Hget.
  { intros k v Hk Hv (a & c & He & Ha). unfold get_u32. rewrite Hd, He, <- !app_assoc, (app_assoc pre a). rewrite slice_field.
    - by apply le_get_put4.
    - rewrite length_app. unfold zlen in *. lia.
    - rewrite length_le_put. lia. }
  assert (get_u32 offset data = pb_maxDocumentID b) as ->.
  { rewrite <- (Z.add_0_r offset). apply Hget; [lia|done|]. by exists [], (le_put 4 (pb_blockOffset b) ++ le_put 4 (pb_positionOffset b)). }
  rewrite (Hget 4 (pb_blockOffset b)), (Hget 8 (pb_positionOffset b)); [|lia|done| |lia|done|].
  2:{ by exists (le_put 4 (pb_maxDocumentID b) ++ le_put 4 (pb_blockOffset b)), []. }
  2:{ by exists (le_put 4 (pb_maxDocumentID b)), (le_put 4 (pb_positionOffset b)). }
  cbn [pb_maxDocumentID]. assert (match previous with Some previous => pb_maxDocumentID b <=? previous | None => false end = false) as ->.
  { destruct previous; cbn in Hca; [apply Z.leb_gt; lia|done]. }
  rewrite (IH (index + 1) _ (pre ++ entry_bytes b)); [by destruct b|done|by rewrite <- app_assoc| |lia].
  rewrite zlen_app, Hpre. change (zlen (entry_bytes b)) with 12. unfold offset, ftsPostingDirectorySize. lia.
Qed.

Lemma last_id_u32 base ps : valid_after None ps -> is_u32 base -> is_u32 (last_document base ps).
Proof.
  revert base. induction ps as [|p ps IH]; intros base Hv Hb; [done|]. rewrite last_posting_id_cons. destruct Hv as (_ & [Hid _ _ _ _] & Hv).
  apply IH; [by eapply valid_after_weaken|done].
Qed.

Lemma last_id_after previous base ps : valid_after (Some previous) ps -> ps <> [] -> previous < last_document base ps.
Proof.
  revert previous base. induction ps as [|p ps IH]; intros previous base Hv Hne; [done|]. rewrite last_posting_id_cons. destruct Hv as (Hca & _ & Hv). cbn in Hca.
  destruct ps as [|q ps]; [done|]. specialize (IH _ (p_DocumentID p) Hv ltac:(done)). lia.
Qed.

Lemma directory_of_ok previous bo po pss :
  chunked pss -> valid_after previous (concat pss) -> 0 <= bo -> 0 <= po -> bo + zlen (all_blocks pss) <= u32_max -> po + zlen (all_payloads pss) <= u32_max ->
  directory_ok previous (directory_of bo po pss).
Proof.
  revert previous bo po. induction pss as [|ps pss IH]; intros previous bo po Hc Hv Hb Hp Hbt Hpt; cbn [directory_of directory_ok]; [done|].
  destruct Hc as (Hne & _ & _ & Hc). cbn [concat] in Hv. apply valid_after_app in Hv as [Hv1 Hv2]. rewrite after_last in Hv2 by done.
  rewrite all_blocks_cons, all_payloads_cons, !zlen_app in *. pose proof (zlen_nonneg (block_bytes ps)). pose proof (zlen_nonneg (all_blocks pss)).
  pose proof (zlen_nonneg (payloads ps)). pose proof (zlen_nonneg (all_payloads pss)). cbn [pb_maxDocumentID pb_blockOffset pb_positionOffset].
  split_and!; [| |unfold is_u32; lia|unfold is_u32; lia|apply IH; (done || lia)].
  - destruct previous as [z|]; [|done]. cbn. by apply last_id_after.
  - pose proof (valid_after_weaken _ _ Hv1). apply last_id_u32; [done|]. destruct ps as [|p ps]; [done|]. apply Hv1.
Qed.

(** ** The header *)
Lemma posting_header_fields count blockCount directoryBytes positionsOffset size payloadCRC headerCRC rest :
  is_u32 count -> is_u32 blockCount -> is_u32 (ftsPostingHeaderSize + directoryBytes) -> is_u32 positionsOffset -> is_u32 size -> is_u32 payloadCRC -> is_u32 headerCRC ->
  let header := posting_header count blockCount directoryBytes positionsOffset size payloadCRC in
  let data := header ++ le_put 4 headerCRC ++ rest in
  slice 0 4 data = ftsPostingMagic /\ get_u16 4 data = ftsPostingVersion /\ get_u16 6 data = ftsPostingDocumentsBlock /\
  get_u32 8 data = count /\ get_u32 12 data = blockCount /\ get_u32 16 data = ftsPostingHeaderSize /\
  get_u32 20 data = ftsPostingHeaderSize + directoryBytes /\ get_u32 24 data = positionsOffset /\ get_u32 28 data = size /\
  get_u32 32 data = payloadCRC /\ slice 36 44 data = make_bytes 8 /\ get_u32 44 data = headerCRC /\ slice 0 44 data = header /\ drop 48 data = rest.
Proof.
  intros H1 H2 H3 H4 H5 H6 H7 header data.
  assert (wrap32 (ftsPostingHeaderSize + directoryBytes) = ftsPostingHeaderSize + directoryBytes) as Hw by (apply Z.mod_small; unfold is_u32, u32_max in *; lia).
  split_and!; try reflexivity.
  - change (get_u32 8 data) with (le_get (le_put 4 count)). by apply le_get_put4.
  - change (get_u32 12 data) with (le_get (le_put 4 blockCount)). by apply le_get_put4.
  - change (get_u32 20 data) with (le_get (le_put 4 (wrap32 (ftsPostingHeaderSize + directoryBytes)))). rewrite Hw. by apply le_get_put4.
  - change (get_u32 24 data) with (le_get (le_put 4 positionsOffset)). by apply le_get_put4.
  - change (get_u32 28 data) with (le_get (le_put 4 size)). by apply le_get_put4.
  - change (get_u32 32 data) with (le_get (le_put 4 payloadCRC)). by apply le_get_put4.
  - change (get_u32 44 data) with (le_get (le_put 4 headerCRC)). by apply le_get_put4.
Qed.

(** ** Building *)
Lemma chunked_count pss : chunked pss -> zlen pss = if 0 <? zlen (concat pss) then (zlen (concat pss) - 1) / ftsPostingDocumentsBlock + 1 else 0.
Proof.
  unfold ftsPostingDocumentsBlock. induction pss as [|ps pss IH]; [done|]. intros (Hne & Hs & Hfull & Hc). specialize (IH Hc). unfold ftsPostingDocumentsBlock in *.
  cbn [concat]. rewrite zlen_app, zlen_cons, IH. clear IH. pose proof (zlen_nonneg (concat pss)). pose proof (zlen_nonneg ps). rewrite <- zlen_0_nil in Hne.
  destruct (0 <? zlen (concat pss)) eqn:E; to_prop; rewrite (proj2 (Z.ltb_lt 0 _)) by lia.
  - assert (pss <> []) as Hn by (intros ->; change (zlen (concat (@nil (list FTSPosting)))) with 0 in *; lia). rewrite (Hfull Hn).
    replace (128 + zlen (concat pss) - 1) with (zlen (concat pss) - 1 + 1 * 128) by lia. by rewrite Z.div_add by lia.
  - rewrite Z.div_small; lia.
Qed.

Lemma blocks_at_start data positionsOffset previous bo po blocks pss bo' po' :
  blocks_at data positionsOffset previous bo po blocks pss bo' po' -> bo = match blocks with md :: _ => pb_blockOffset md | [] => bo' end.
Proof. by destruct 1. Qed.

Lemma directory_start bo po pss : match directory_of bo po pss with md :: _ => pb_blockOffset md | [] => bo + zlen (all_blocks pss) end = bo.
Proof. destruct pss; [|done]. cbn [directory_of]. change (zlen (all_blocks [])) with 0. lia. Qed.

(** The size of a list with these blocks. *)
Definition encoded_size (pss : list (list FTSPosting)) : Z :=
  ftsPostingHeaderSize + zlen pss * ftsPostingDirectorySize + zlen (all_blocks pss) + zlen (all_payloads pss).

Section assembly.
Context (pss : list (list FTSPosting)).
Hypothesis Hchunked : chunked pss.
Hypothesis Hvalid : valid_postings (concat pss).
Hypothesis Hpayloads : Forall (fun p => payload_length p <= u32_max) (concat pss).
Hypothesis Hcount : zlen (concat pss) <= u32_max.
Hypothesis Hsize : encoded_size pss <= u32_max.

Let blocksOffset := ftsPostingHeaderSize + zlen pss * ftsPostingDirectorySize.
Let positionsOffset := blocksOffset + zlen (all_blocks pss).
Let directory := directory_of blocksOffset 0 pss.
Let tail := directory_bytes directory ++ all_blocks pss ++ all_payloads pss.
Let header := posting_header (zlen (concat pss)) (zlen pss) (zlen pss * ftsPostingDirectorySize) positionsOffset (ftsPostingHeaderSize + zlen tail) (CRC32C tail).
Let data := header ++ le_put 4 (CRC32C header) ++ tail.
Let the_list := MkPostingList data (zlen (concat pss)) positionsOffset directory.

Lemma assembled_sizes : zlen header = 44 /\ zlen tail = zlen pss * 12 + zlen (all_blocks pss) + zlen (all_payloads pss) /\ zlen data = encoded_size pss /\
  0 <= zlen pss /\ 0 <= zlen (all_blocks pss) /\ 0 <= zlen (all_payloads pss) /\ blocksOffset = 48 + zlen pss * 12.
Proof.
  assert (zlen (directory_bytes directory) = zlen pss * 12) as Hd.
  { unfold zlen at 1. rewrite length_directory_bytes. unfold directory. rewrite length_directory_of. unfold zlen. lia. }
  assert (zlen tail = zlen pss * 12 + zlen (all_blocks pss) + zlen (all_payloads pss)) as Ht by (unfold tail; rewrite !zlen_app, Hd; lia).
  pose proof (zlen_nonneg pss). pose proof (zlen_nonneg (all_blocks pss)). pose proof (zlen_nonneg (all_payloads pss)).
  split_and!; try (done || lia). unfold data. rewrite !zlen_app, Ht. change (zlen header) with 44. change (zlen (le_put 4 (CRC32C header))) with 4.
  unfold encoded_size, ftsPostingHeaderSize, ftsPostingDirectorySize. lia.
Qed.

Lemma assembled_holds : list_holds the_list pss.
Proof.
  destruct assembled_sizes as (H1 & H2 & H3 & H4 & H5 & H6 & H7). unfold encoded_size, ftsPostingHeaderSize, ftsPostingDirectorySize in *.
  split; unfold the_list; cbn [pl_data pl_positionsOffset pl_blocks pl_count]; [lia|unfold positionsOffset; lia| |done].
  exists blocksOffset. split; [lia|].
  assert (zlen (directory_bytes directory) = zlen pss * 12) as Hd by (unfold tail in H2; rewrite !zlen_app in H2; lia).
  pose proof (blocks_at_encoded data positionsOffset None blocksOffset 0 pss (header ++ le_put 4 (CRC32C header) ++ directory_bytes directory) (all_payloads pss)
    (header ++ le_put 4 (CRC32C header) ++ directory_bytes directory ++ all_blocks pss) []) as Hb.
  replace (zlen data - positionsOffset) with (0 + zlen (all_payloads pss)) by (unfold positionsOffset; lia). apply Hb; try done.
  - rewrite !zlen_app, H1, Hd. change (zlen (le_put 4 (CRC32C header))) with 4. lia.
  - unfold data, tail. by rewrite app_nil_r, <- ?app_assoc.
  - rewrite !zlen_app, H1, Hd. change (zlen (le_put 4 (CRC32C header))) with 4. unfold positionsOffset. lia.
Qed.

Lemma assembled_validates : validate CtxLive the_list blocksOffset positionsOffset = None.
Proof.
  destruct assembled_holds as [Hsz Hpo (bo & Hbo & Hbs) Hcnt]. unfold validate. unfold the_list in *. cbn [pl_data pl_positionsOffset pl_blocks pl_count] in *.
  assert (bo = blocksOffset) as ->.
  { rewrite (blocks_at_start _ _ _ _ _ _ _ _ _ Hbs). apply directory_start. }
  destruct (validate_blocks_complete _ _ 0 _ _ _ _ _ _ _ 0 Hbs) as [last ->]; try (done || lia). cbn [vs_expectedBlockOffset vs_expectedPositionOffset vs_decodedCount].
  rewrite Z.eqb_refl. replace (positionsOffset + (zlen data - positionsOffset)) with (zlen data) by lia. by rewrite Z.add_0_l, !Z.eqb_refl.
Qed.

Lemma assembled_opens clone : openFTSPostingList CtxLive data clone = Ok the_list.
Proof.
  destruct assembled_sizes as (H1 & H2 & H3 & H4 & H5 & H6 & H7).
  destruct assembled_holds as [Hsz Hpo _ _]. cbn [the_list pl_data pl_positionsOffset] in Hsz, Hpo. unfold the_list in Hsz, Hpo. cbn [pl_data pl_positionsOffset] in Hsz, Hpo.
  pose proof (zlen_nonneg (concat pss)). pose proof (zlen_nonneg data).
  assert (ftsPostingHeaderSize + zlen tail = zlen data) as Hlen by (rewrite H2, H3; unfold ftsPostingHeaderSize, encoded_size, ftsPostingDirectorySize; unfold ftsPostingHeaderSize; lia).
  destruct (posting_header_fields (zlen (concat pss)) (zlen pss) (zlen pss * ftsPostingDirectorySize) positionsOffset (ftsPostingHeaderSize + zlen tail) (CRC32C tail) (CRC32C header) tail)
    as (F1 & F2 & F3 & F4 & F5 & F6 & F7 & F8 & F9 & F10 & F11 & F12 & F13 & F14);
    try (apply CRC32C_range); try (unfold is_u32, encoded_size, ftsPostingHeaderSize, ftsPostingDirectorySize in *; lia).
  fold header in F1, F2, F3, F4, F5, F6, F7, F8, F9, F10, F11, F12, F13, F14. fold data in F1, F2, F3, F4, F5, F6, F7, F8, F9, F10, F11, F12, F13, F14.
  unfold openFTSPostingList. cbn [posting_ctx ctx_Err]. cbv zeta.
  rewrite F1, F2, F3, F4, F5, F6, F7, F8, F9, F10, F11, F12, F13, F14.
  rewrite (proj2 (Z.ltb_ge (zlen data) _)) by (unfold ftsPostingHeaderSize, encoded_size, ftsPostingDirectorySize in *; lia).
  rewrite (proj2 (Z.ltb_ge u32_max _)) by lia. rewrite bytes_eqb_refl, !Z.eqb_refl, Hlen, Z.eqb_refl, <- chunked_count, Z.eqb_refl by done.
  fold blocksOffset. rewrite (proj2 (Z.ltb_ge positionsOffset _)) by (unfold positionsOffset; lia). rewrite (proj2 (Z.ltb_ge (zlen data) _)) by lia.
  change (forallb (fun b => Z_of_byte b =? 0) (make_bytes 8)) with true. cbn [negb orb].
  replace (Z.to_nat (zlen pss)) with (length directory) by (unfold directory; rewrite length_directory_of; unfold zlen; lia).
  rewrite (read_directory_encoded data 0 None directory (header ++ le_put 4 (CRC32C header)) (all_blocks pss ++ all_payloads pss)).
  - cbn [mbind result_bind]. fold the_list. by rewrite assembled_validates.
  - assert (blocksOffset + zlen (all_blocks pss) + zlen (all_payloads pss) <= u32_max) as Htot
      by (rewrite H7; unfold encoded_size, ftsPostingHeaderSize, ftsPostingDirectorySize in Hsize; lia).
    apply directory_of_ok; [exact Hchunked|exact Hvalid|lia..].
  - unfold data, tail. by rewrite <- ?app_assoc.
  - rewrite zlen_app, H1. done.
  - done.
Qed.
End assembly.

(** The blocks that the postings are cut into, and the bound on their encoded size. *)
Definition blocks_of (ps : list FTSPosting) : list (list FTSPosting) := chunks (length ps) ps.
Definition fits (ps : list FTSPosting) : Prop := encoded_size (blocks_of ps) <= u32_max.

Lemma blocks_of_spec ps : concat (blocks_of ps) = ps /\ chunked (blocks_of ps).
Proof. by apply chunks_spec. Qed.

Lemma all_payloads_concat pss : all_payloads pss = payloads (concat pss).
Proof.
  induction pss as [|ps pss IH]; [done|]. rewrite all_payloads_cons, IH. cbn [concat]. clear IH. induction ps as [|p ps IH]; [done|].
  cbn [app]. by rewrite !payloads_cons, <- app_assoc, IH.
Qed.

Lemma payloads_bound previous ps : valid_after previous ps -> zlen ps <= zlen (payloads ps) /\ Forall (fun p => payload_length p <= zlen (payloads ps)) ps.
Proof.
  revert previous. induction ps as [|p ps IH]; intros previous Hv; [split; [done|constructor]|].
  destruct Hv as (_ & [_ Hf Hpl _ _] & Hv). destruct (IH _ Hv) as [IH1 IH2]. rewrite payloads_cons, zlen_app, zlen_cons.
  pose proof (length_deltas_bytes 0 (p_Positions p)) as Hl. fold (payload p) in Hl. pose proof (zlen_nonneg (payloads ps)). unfold payload_length in *. split.
  - unfold zlen in *. lia.
  - constructor; [lia|]. eapply Forall_impl; [exact IH2|]. intros q Hq. cbn in *. pose proof (zlen_nonneg (payload p)). lia.
Qed.

Lemma fits_bounds ps : valid_postings ps -> fits ps -> zlen ps <= u32_max /\ Forall (fun p => payload_length p <= u32_max) ps /\
  ftsPostingHeaderSize + zlen (blocks_of ps) * ftsPostingDirectorySize <= u32_max.
Proof.
  intros Hv Hf. destruct (payloads_bound _ _ Hv) as [H1 H2]. destruct (blocks_of_spec ps) as [Hc _]. unfold fits, encoded_size in Hf. rewrite all_payloads_concat, Hc in Hf.
  pose proof (zlen_nonneg (blocks_of ps)). pose proof (zlen_nonneg (all_blocks (blocks_of ps))). pose proof (zlen_nonneg (payloads ps)). unfold ftsPostingHeaderSize, ftsPostingDirectorySize in *.
  split_and!; [lia| |lia]. eapply Forall_impl; [exact H2|]. intros p Hp. cbn in *. lia.
Qed.

(** The end of a successful build, after the blocks are encoded. *)
Lemma build_assembles ps :
  valid_postings ps -> Forall (fun p => payload_length p <= u32_max) ps -> zlen ps <= u32_max ->
  match BuildFTSPostingList CtxLive ps with
  | Ok l => fits ps /\ list_holds l (blocks_of ps) /\ forall clone, openFTSPostingList CtxLive (pl_data l) clone = Ok l
  | Fail e => errors_Is e ErrInvalidFTSPosting = true /\ ~ fits ps
  end.
Proof.
  intros Hv Hf Hn. destruct (blocks_of_spec ps) as [Hc Hch]. unfold BuildFTSPostingList. cbn [posting_ctx ctx_Err].
  rewrite (proj2 (Z.ltb_ge _ _)) by lia. rewrite build_blocks_ok by done. fold (blocks_of ps). cbn [mbind result_bind]. cbv zeta. set (pss := blocks_of ps) in *.
  replace (zlen (encoded <$> pss)) with (zlen pss) by (unfold zlen; by rewrite length_fmap).
  pose proof (zlen_nonneg pss) as Hz. unfold fits. fold pss. pose proof (zlen_nonneg (all_blocks pss)) as Hzb. pose proof (zlen_nonneg (all_payloads pss)) as Hzp.
  destruct (_ || _) eqn:Ed.
  { split; [done|]. unfold encoded_size. apply orb_true_iff in Ed as [Ed|Ed]; to_prop; unfold ftsMaximumInt, int_max, u32_max, ftsPostingHeaderSize, ftsPostingDirectorySize in *; lia. }
  to_prop. set (bo := ftsPostingHeaderSize + zlen pss * ftsPostingDirectorySize) in *.
  assert (0 <= bo <= u32_max) as Hbo by (unfold bo, ftsPostingHeaderSize, ftsPostingDirectorySize in *; lia).
  pose proof (place_blocks_spec bo 0 pss Hbo) as Hpb. destruct (place_blocks bo _) as [[offsets size]|e]; cbn [mbind result_bind].
  2:{ destruct Hpb as [He Hlt]. split; [done|]. unfold encoded_size. fold bo. lia. }
  destruct Hpb as (-> & -> & Hle). pose proof (place_positions_spec (bo + zlen (all_blocks pss)) bo 0 pss ltac:(lia) ltac:(lia)) as Hpp.
  destruct (place_positions _ _ _) as [poffs|e]; cbn [mbind result_bind].
  2:{ destruct Hpp as [He Hlt]. split; [done|]. unfold encoded_size. fold bo. lia. }
  destruct Hpp as [-> Htotal]. unfold encode_list. cbv zeta. rewrite directory_zip.
  replace (zlen (encoded <$> pss)) with (zlen pss) by (unfold zlen; by rewrite length_fmap).
  assert (wrap32 (bo + zlen (all_blocks pss)) = bo + zlen (all_blocks pss)) as -> by (unfold wrap32, u32_max in *; apply Z.mod_small; lia).
  assert (mjoin (eb_data <$> (encoded <$> pss)) = all_blocks pss) as -> by (unfold all_blocks; by rewrite <- list_fmap_compose).
  assert (mjoin (eb_positions <$> (encoded <$> pss)) = all_payloads pss) as -> by (unfold all_payloads; by rewrite <- list_fmap_compose).
  rewrite <- Hc in Hv, Hf, Hn. assert (encoded_size pss <= u32_max) as Hsize by (unfold encoded_size; fold bo; lia).
  pose proof (assembled_opens pss Hch Hv Hf Hn Hsize) as Hopen. rewrite Hc in Hopen. fold bo in Hopen. rewrite Hopen.
  split_and!; [done| |exact Hopen]. pose proof (assembled_holds pss Hch Hv Hf Hsize) as Hh. rewrite Hc in Hh. exact Hh.
Qed.

(** Building succeeds on exactly the valid postings that fit, fails as invalid input otherwise, and holds what it was given. *)
Lemma build_spec ps : Forall typed_posting ps ->
  match BuildFTSPostingList CtxLive ps with
  | Ok l => valid_postings ps /\ fits ps /\ list_holds l (blocks_of ps) /\ forall clone, openFTSPostingList CtxLive (pl_data l) clone = Ok l
  | Fail e => errors_Is e ErrInvalidFTSPosting = true /\ ~ (valid_postings ps /\ fits ps)
  end.
Proof.
  intros Ht. pose proof (build_blocks_inv (length ps) 0 None ps ltac:(lia) Ht) as Hinv.
  destruct (build_blocks _ _ _ _ _) as [blocks|e] eqn:E.
  - destruct Hinv as [Hv Hf]. destruct (decide (zlen ps <= u32_max)) as [Hn|Hn].
    + pose proof (build_assembles ps Hv Hf Hn) as H. destruct (BuildFTSPostingList _ _); naive_solver.
    + unfold BuildFTSPostingList. cbn [posting_ctx ctx_Err]. rewrite (proj2 (Z.ltb_lt _ _)) by lia. split; [done|].
      intros [H1 H2]. by destruct (fits_bounds _ H1 H2).
  - unfold BuildFTSPostingList. cbn [posting_ctx ctx_Err]. rewrite E. cbn [mbind result_bind].
    assert (~ (valid_postings ps /\ fits ps)) as Hno.
    { intros [H1 H2]. destruct (fits_bounds _ H1 H2) as (_ & H3 & _). rewrite (build_blocks_ok (length ps) 0 None ps) in E; done. }
    destruct (u32_max <? zlen ps); done.
Qed.
End build.
