(* ===== verification/FtsCursor.v ===== *)
(** * Iterators are cursors over the postings

    The refinement of [FtsIterator]: the abstract cursor, the relation between
    an iterator and a cursor, and the proof that each operation keeps it.  The
    theorems about sequences of calls and about building and reading back are
    at the end. *)
From S2P Require Import Prelude Bytes Crc32c FtsPack FtsPosting FtsHolds FtsBuild FtsIterator.

(** ** Binary search *)
Lemma block_search_spec fuel key target low high :
  low <= high -> high - low <= Z.of_nat fuel -> (forall i j, low <= i < j -> j < high -> key i <= key j) ->
  let r := search_half_loop fuel key target low high in
  low <= r <= high /\ (forall j, low <= j < r -> key j < target) /\ (r < high -> target <= key r).
Proof.
  revert low high. induction fuel as [|fuel IH]; intros low high Hle Hf Hm; cbn [search_half_loop]; cbv zeta; [split_and!; intros; lia|].
  destruct (low <? high) eqn:E; to_prop; [|split_and!; intros; lia].
  rewrite Z.shiftr_div_pow2 by lia. change (2 ^ 1) with 2. set (m := (low + high) / 2).
  assert (low <= m < high) as Hmid by (unfold m; split; [apply Z.div_le_lower_bound|apply Z.div_lt_upper_bound]; lia).
  destruct (key m <? target) eqn:Ek; to_prop.
  - destruct (IH (m + 1) high ltac:(lia) ltac:(lia)) as (H1 & H2 & H3); [intros; apply Hm; lia|]. split_and!; [lia|lia| |done].
    intros j Hj. destruct (decide (j < m)); [pose proof (Hm j m ltac:(lia) ltac:(lia)); lia|]. destruct (decide (j = m)) as [->|]; [done|]. apply H2. lia.
  - destruct (IH low m ltac:(lia) ltac:(lia)) as (H1 & H2 & H3); [intros; apply Hm; lia|]. split_and!; [lia|lia|done|].
    intros Hr. destruct (decide (search_half_loop fuel key target low m < m)); [by apply H3|].
    by replace (search_half_loop fuel key target low m) with m by lia.
Qed.

(** ** Increasing document IDs *)
Definition ids (ps : list FTSPosting) : list Z := p_DocumentID <$> ps.

Lemma valid_after_head previous ps k p : valid_after previous ps -> ps !! k = Some p -> comes_after previous (p_DocumentID p) /\ valid_posting p.
Proof.
  revert previous k. induction ps as [|q ps IH]; intros previous k Hv Hk; [done|]. destruct Hv as (Hca & Hvp & Hv). destruct k as [|k]; [by injection Hk as ->|].
  destruct (IH _ _ Hv Hk) as [H1 H2]. split; [|done]. destruct previous; cbn in *; [lia|done].
Qed.

Lemma valid_sorted previous ps i j p q : valid_after previous ps -> (i < j)%nat -> ps !! i = Some p -> ps !! j = Some q -> p_DocumentID p < p_DocumentID q.
Proof.
  revert previous i j. induction ps as [|x ps IH]; intros previous i j Hv Hij Hi Hj; [done|]. destruct Hv as (_ & _ & Hv). destruct j as [|j]; [lia|].
  destruct i as [|i]; [injection Hi as ->; by apply (valid_after_head _ _ _ _ Hv Hj)|]. eapply IH; [exact Hv| |done|done]. lia.
Qed.

Lemma document_ids_spec ps : valid_postings ps -> document_ids (first_id ps) (id_deltas (first_id ps) ps) = ids ps.
Proof.
  destruct ps as [|p ps]; [done|]. intros (_ & _ & Hv). cbn [id_deltas document_ids]. unfold ids. cbn [fmap list_fmap]. f_equal.
  change (first_id (p :: ps)) with (p_DocumentID p). revert p Hv. induction ps as [|q ps IH]; intros p Hv; [done|]. cbn [id_deltas documents_from fmap list_fmap].
  destruct Hv as (_ & [Hid _ _ _ _] & Hv). replace (p_DocumentID p + (p_DocumentID q - p_DocumentID p)) with (p_DocumentID q) by lia.
  assert (wrap32 (p_DocumentID q) = p_DocumentID q) as -> by (apply Z.mod_small; unfold is_u32, u32_max in *; lia). f_equal. by apply IH.
Qed.

(** ** Blocks of a list *)
Lemma blocks_at_chunked `{BP : !Bitpack} data positionsOffset previous bo po blocks pss bo' po' :
  blocks_at data positionsOffset previous bo po blocks pss bo' po' -> 0 <= po ->
  chunked pss /\ valid_after previous (concat pss) /\ length blocks = length pss /\
  forall b ps, pss !! b = Some ps -> exists md bend pend, blocks !! b = Some md /\ block_at data positionsOffset md ps bend pend /\ valid_postings ps /\ 0 <= pb_positionOffset md.
Proof.
  induction 1 as [previous bo po|previous md ps blocks pss bend pend bo' po' Hba Hv Hfull Hpend Hbs IH]; intros Hpo.
  - split_and!; [done|done|done|]. intros b ps H. by rewrite lookup_nil in H.
  - destruct (IH Hpend) as (IHc & IHv & IHl & IHb). destruct Hba as [Hne Hs ? ? ? ? ? ? Hmax] eqn:Eba. split_and!.
    + cbn [chunked]. split_and!; try done. intros Hn. apply Hfull. intros ->. by destruct pss.
    + cbn [concat]. apply valid_after_app. split; [done|]. by rewrite after_last, <- Hmax.
    + cbn. by rewrite IHl.
    + intros [|b] qs Hb; [|by apply IHb]. injection Hb as <-. exists md, bend, pend. split_and!; [done|done|by eapply valid_after_weaken|done].
Qed.

Lemma chunked_lookup pss b ps j : chunked pss -> pss !! b = Some ps -> (j < length ps)%nat -> concat pss !! (128 * b + j)%nat = ps !! j.
Proof.
  revert b. induction pss as [|qs pss IH]; intros b Hc Hb Hj; [done|]. destruct Hc as (_ & Hs & Hfull & Hc). cbn [concat]. destruct b as [|b].
  - injection Hb as ->. by rewrite lookup_app_l by lia.
  - cbn in Hb. assert (zlen qs = 128) as H128 by (apply Hfull; by intros ->). unfold zlen in H128. rewrite lookup_app_r by lia.
    rewrite <- (IH b Hc Hb Hj). f_equal. lia.
Qed.

(** Every posting is in the block of its quotient. *)
Lemma chunked_place pss k : chunked pss -> (k < length (concat pss))%nat ->
  exists b ps j, pss !! b = Some ps /\ (j < length ps)%nat /\ k = (128 * b + j)%nat.
Proof.
  revert k. induction pss as [|qs pss IH]; intros k Hc Hk; [cbn in Hk; lia|]. destruct Hc as (_ & Hs & Hfull & Hc). cbn [concat] in Hk. rewrite length_app in Hk.
  destruct (decide (k < length qs)%nat) as [Hl|Hl].
  - exists 0%nat, qs, k. split_and!; [done|done|lia].
  - destruct (IH (k - length qs)%nat Hc ltac:(lia)) as (b & ps & j & Hb & Hj & Hkj).
    assert (zlen qs = 128) as H128 by (apply Hfull; by intros ->). unfold zlen in H128. exists (S b), ps, j. split_and!; [done|done|lia].
Qed.

Lemma chunked_size pss b ps : chunked pss -> pss !! b = Some ps -> ps <> [] /\ (length ps <= 128)%nat /\ ((S b < length pss)%nat -> length ps = 128%nat).
Proof.
  revert b. induction pss as [|qs pss IH]; intros b Hc Hb; [done|]. destruct Hc as (Hne & Hs & Hfull & Hc). unfold zlen, ftsPostingDocumentsBlock in *. destruct b as [|b].
  - injection Hb as ->. split_and!; [done|lia|]. cbn. intros Hl. assert (Z.of_nat (length ps) = 128) by (apply Hfull; intros ->; cbn in Hl; lia). lia.
  - destruct (IH b Hc Hb) as (H1 & H2 & H3). split_and!; [done|done|]. intros Hl. apply H3. cbn in Hl. lia.
Qed.

(** ** Loaded blocks *)
Section cursor.
Context `{BP : !Bitpack, BL : !BitpackLaws}.

Lemma read_arrays_unpack data positionsOffset n cursor w ws arrays cursor' :
  read_arrays data positionsOffset n cursor (w :: ws) = Ok (arrays, cursor') ->
  exists rest, arrays = unpack_at data cursor w n :: rest /\ read_arrays data positionsOffset n (cursor + ftsPackedStorageSize w n) ws = Ok (rest, cursor').
Proof.
  cbn [read_arrays]. intros H. destruct (_ <? _); [done|]. destruct (_ && _); [done|]. apply bind_Ok in H as ([rest c] & H & Heq). injection Heq as <- <-.
  by exists rest.
Qed.

(** The decoded block [b] in the buffers of the iterator; term frequencies and document lengths may still be missing. *)
Record loaded (l : FTSPostingList) (b : nat) (ps : list FTSPosting) (i : FTSPostingIterator) : Prop := {
  ld_block : it_blockIndex i = Z.of_nat b;
  ld_ids : it_documentIDs i = ids ps;
  ld_frequencies : it_termFrequencies i = [] \/ it_termFrequencies i = p_TermFrequency <$> ps;
  ld_lengths : it_documentLengths i = [] \/ it_documentLengths i = p_DocumentLength <$> ps;
  ld_frequencies_array : decode_array l i 1 = p_TermFrequency <$> ps;
  ld_lengths_array : decode_array l i 2 = p_DocumentLength <$> ps;
  ld_positions : it_decodePositions i = true -> exists offset, 0 <= offset /\ payloads_at (pl_data l) (pl_positionsOffset l) offset (it_positionLengths i) ps /\
    it_positionOffsets i = offsets_from offset (it_positionLengths i)
}.

Lemma block_arrays data positionsOffset md ps bend pend :
  block_at data positionsOffset md ps bend pend ->
  let n := get_u16 4 (block_header data md) in
  let w k := get_u8 k (block_header data md) in
  let c0 := pb_blockOffset md + ftsPostingBlockHeaderSize in
  let c1 := c0 + ftsPackedStorageSize (w 6) n in
  let c2 := c1 + ftsPackedStorageSize (w 7) n in
  let c3 := c2 + ftsPackedStorageSize (w 8) n in
  unpack_at data c0 (w 6) n = id_deltas (first_id ps) ps /\ unpack_at data c1 (w 7) n = p_TermFrequency <$> ps /\
  unpack_at data c2 (w 8) n = p_DocumentLength <$> ps /\ payloads_at data positionsOffset (pb_positionOffset md) (unpack_at data c3 (w 9) n) ps.
Proof.
  intros [_ _ _ _ Hcount _ _ (pls & Hr & Hpay & _) _]. cbv zeta. rewrite Hcount. unfold block_widths in Hr.
  apply read_arrays_unpack in Hr as (r1 & E1 & Hr). apply read_arrays_unpack in Hr as (r2 & E2 & Hr). apply read_arrays_unpack in Hr as (r3 & E3 & Hr).
  apply read_arrays_unpack in Hr as (r4 & E4 & _). subst. injection E1 as <- <- <- -> _. done.
Qed.

Lemma decode_array_at l i b md n :
  it_blockIndex i = Z.of_nat b -> pl_blocks l !! b = Some md -> get_u16 4 (block_header (pl_data l) md) = n -> zlen (it_documentIDs i) = n ->
  let w k := get_u8 k (block_header (pl_data l) md) in
  let c0 := pb_blockOffset md + ftsPostingBlockHeaderSize in
  decode_array l i 1 = unpack_at (pl_data l) (c0 + ftsPackedStorageSize (w 6) n) (w 7) n /\
  decode_array l i 2 = unpack_at (pl_data l) (c0 + ftsPackedStorageSize (w 6) n + ftsPackedStorageSize (w 7) n) (w 8) n.
Proof.
  intros Hb Hmd Hn Hl. unfold decode_array, packedBlockArray, block_of. rewrite Hb, Nat2Z.id, Hmd. cbn [default from_option id]. rewrite Hn, Hl.
  cbn [seq fold_left]. by change (6 + Z.of_nat 0) with 6; change (6 + Z.of_nat 1) with 7; change (6 + Z.of_nat 2) with 8.
Qed.

Lemma list_holds_block l pss b ps :
  list_holds l pss -> pss !! b = Some ps -> exists md bend pend, pl_blocks l !! b = Some md /\ block_at (pl_data l) (pl_positionsOffset l) md ps bend pend /\ valid_postings ps /\ 0 <= pb_positionOffset md.
Proof. intros [_ _ (bo & _ & Hbs) _] Hb. apply blocks_at_chunked in Hbs as (_ & _ & _ & H); [|done]. by apply H. Qed.

Lemma list_holds_chunked l pss : list_holds l pss -> chunked pss /\ valid_postings (concat pss) /\ zlen (pl_blocks l) = zlen pss /\ pl_count l = zlen (concat pss).
Proof. intros [_ _ (bo & _ & Hbs) Hc]. apply blocks_at_chunked in Hbs as (H1 & H2 & H3 & _); [|done]. split_and!; try done. unfold zlen. by rewrite H3. Qed.

Lemma zlen_ids ps : zlen (ids ps) = zlen ps.
Proof. unfold zlen, ids. by rewrite length_fmap. Qed.

(** [loadBlock] decodes the block it is asked for. *)
Lemma loadBlock_spec l pss b ps i :
  list_holds l pss -> pss !! b = Some ps ->
  loaded l b ps (loadBlock l (Z.of_nat b) i) /\ it_list (loadBlock l (Z.of_nat b) i) = it_list i /\
  it_decodePositions (loadBlock l (Z.of_nat b) i) = it_decodePositions i /\ it_globalIndex (loadBlock l (Z.of_nat b) i) = it_globalIndex i.
Proof.
  intros Hl Hb. destruct (list_holds_block _ _ _ _ Hl Hb) as (md & bend & pend & Hmd & Hba & Hv & Hpo0). split; [|done].
  destruct (block_arrays _ _ _ _ _ _ Hba) as (A1 & A2 & A3 & A4). pose proof (ba_count _ _ _ _ _ _ Hba) as Hcount. pose proof (ba_first _ _ _ _ _ _ Hba) as Hfirst.
  assert (block_of l (Z.of_nat b) = md) as Hbo by (unfold block_of; by rewrite Nat2Z.id, Hmd).
  set (j := loadBlock l (Z.of_nat b) i). assert (it_documentIDs j = ids ps) as Hids.
  { unfold j, loadBlock. rewrite Hbo. cbn [it_documentIDs]. rewrite A1, Hfirst. by apply document_ids_spec. }
  destruct (decode_array_at l j b md (zlen ps) eq_refl Hmd Hcount) as [D1 D2]; [by rewrite Hids, zlen_ids|]. rewrite Hcount in A1, A2, A3, A4.
  split; try done; [by left|by left|by rewrite D1|by rewrite D2|].
  intros Hdec. exists (pb_positionOffset md). unfold j, loadBlock in Hdec |- *. rewrite Hbo. cbn [it_positionLengths it_positionOffsets it_decodePositions] in Hdec |- *. rewrite Hdec, Hcount.
  by split_and!; [|exact A4|].
Qed.

(** The payload of one posting of a loaded block. *)
Lemma payloads_lookup data positionsOffset offset pls ps j p :
  0 <= positionsOffset -> 0 <= offset -> zlen data <= u32_max -> Forall valid_posting ps -> payloads_at data positionsOffset offset pls ps -> ps !! j = Some p ->
  exists pl o, pls !! j = Some pl /\ offsets_from offset pls !! j = Some o /\
    decodeFTSPositionDeltas CtxLive (slice (Z.to_nat (positionsOffset + o)) (Z.to_nat (positionsOffset + o + pl)) data) (p_TermFrequency p) = Ok (p_Positions p).
Proof.
  intros Hpo Ho Hd Hv. revert offset pls j Ho. induction Hv as [|q ps Hq Hv IH]; intros offset pls j Ho Hp Hj; [done|].
  destruct pls as [|pl pls]; [done|]. destruct Hp as (Htf & Hfit & Hdec & Hp). destruct j as [|j].
  - injection Hj as ->. by exists pl, offset.
  - cbn [offsets_from]. pose proof (vp_frequency _ Hq). assert (wrap32 (offset + pl) = offset + pl) as Hw by (apply Z.mod_small; unfold u32_max in *; lia).
    destruct (IH (offset + pl) pls j ltac:(lia) Hp Hj) as (pl' & o & H1 & H2 & H3). exists pl', o. rewrite Hw. done.
Qed.

Lemma valid_Forall previous ps : valid_after previous ps -> Forall valid_posting ps.
Proof. revert previous. induction ps as [|p ps IH]; intros previous Hv; [constructor|]. destruct Hv as (_ & Hp & Hv). constructor; [done|by eapply IH]. Qed.

(** ** The abstract cursor *)
Inductive posting_cursor :=
| Before
| At (k : nat)
| Ended.

Definition cursor_posting (ps : list FTSPosting) (c : posting_cursor) : option FTSPosting := match c with At k => ps !! k | _ => None end.

Definition next_cursor (ps : list FTSPosting) (c : posting_cursor) : bool * posting_cursor :=
  match ps, c with
  | [], _ => (false, c)
  | _, Before => (true, At 0)
  | _, At k => if decide (S k < length ps)%nat then (true, At (S k)) else (false, Ended)
  | _, Ended => (false, Ended)
  end.

(** The first posting from [k] on whose document ID is not below [target]. *)
Definition seek (ps : list FTSPosting) (target : Z) (k : nat) : option nat :=
  (fun found => (k + fst found)%nat) <$> list_find (fun p => target <= p_DocumentID p) (drop k ps).
Definition advance_cursor (ps : list FTSPosting) (target : Z) (c : posting_cursor) : bool * posting_cursor :=
  let from k := match seek ps target k with Some k => (true, At k) | None => (false, Ended) end in
  match ps, c with
  | [], _ => (false, c)
  | _, Before => from 0%nat
  | _, At k => from k
  | _, Ended => (false, Ended)
  end.

Lemma seek_found ps target k k' p :
  valid_postings ps -> (k <= k')%nat -> ps !! k' = Some p -> target <= p_DocumentID p ->
  (forall q, (k < k')%nat -> ps !! (k' - 1)%nat = Some q -> p_DocumentID q < target) -> seek ps target k = Some k'.
Proof.
  intros Hv Hk Hp Ht Hbefore. unfold seek.
  assert (list_find (fun p => target <= p_DocumentID p) (drop k ps) = Some ((k' - k)%nat, p)) as ->; [|cbn; f_equal; lia].
  apply list_find_Some. rewrite lookup_drop. replace (k + (k' - k))%nat with k' by lia. split_and!; [done|done|].
  intros j q Hj Hlt Hge. rewrite lookup_drop in Hj. destruct (lookup_lt_is_Some_2 ps (k' - 1)) as [r Hr]; [apply lookup_lt_Some in Hp; lia|].
  specialize (Hbefore r ltac:(lia) Hr). destruct (decide (k + j = k' - 1)%nat) as [E|E]; [rewrite E in Hj; rewrite Hr in Hj; injection Hj as ->; lia|].
  assert (p_DocumentID q < p_DocumentID r); [|lia]. eapply (valid_sorted None ps); [exact Hv| |exact Hj|exact Hr]. lia.
Qed.

Lemma seek_none ps target k : valid_postings ps -> (forall q, last ps = Some q -> p_DocumentID q < target) -> seek ps target k = None.
Proof.
  intros Hv Hlast. unfold seek. destruct (list_find _ (drop k ps)) as [[j p]|] eqn:E; [|done]. apply list_find_Some in E as (Hj & Hge & _).
  rewrite lookup_drop in Hj. destruct (last ps) as [q|] eqn:El; [|by apply last_None in El; subst]. specialize (Hlast q eq_refl). rewrite last_lookup in El.
  pose proof (lookup_lt_Some _ _ _ Hj) as Hlt. destruct (decide (k + j = pred (length ps))%nat) as [Ek|Ek].
  - rewrite <- Ek, Hj in El. injection El as ->. lia.
  - assert (p_DocumentID p < p_DocumentID q); [|lia]. eapply (valid_sorted None ps); [exact Hv| |exact Hj|exact El]. lia.
Qed.

(** ** The relation between iterators and cursors *)
Definition iterator_at (l : FTSPostingList) (pss : list (list FTSPosting)) (decodePositions : bool) (c : posting_cursor) (i : FTSPostingIterator) : Prop :=
  it_list i = Some l /\ it_decodePositions i = decodePositions /\
  match c with
  | Before => it_valid i = false /\ it_blockIndex i = -1
  | At k => it_valid i = true /\ it_globalIndex i = wrap32 (Z.of_nat k) /\
      exists b ps j, pss !! b = Some ps /\ (j < length ps)%nat /\ k = (128 * b + j)%nat /\ loaded l b ps i /\ it_indexInBlock i = Z.of_nat j
  | Ended => it_valid i = false /\ it_blockIndex i = zlen (pl_blocks l)
  end.

Section simulation.
Context (l : FTSPostingList) (pss : list (list FTSPosting)) (Hl : list_holds l pss) (decodePositions : bool).

Let ps := concat pss.

Lemma count_0 : (pl_count l =? 0) = match ps with [] => true | _ => false end.
Proof. destruct (list_holds_chunked _ _ Hl) as (_ & _ & _ & ->). fold ps. destruct ps; [done|]. rewrite zlen_cons. pose proof (zlen_nonneg l0). apply Z.eqb_neq. lia. Qed.

Lemma blocks_positive : ps <> [] -> (0 < length pss)%nat /\ zlen (pl_blocks l) = Z.of_nat (length pss).
Proof. destruct (list_holds_chunked _ _ Hl) as (_ & _ & -> & _). intros Hne. split; [|done]. unfold ps in Hne. destruct pss; [done|cbn; lia]. Qed.

Lemma move_to_at b qs j i :
  it_list i = Some l -> it_decodePositions i = decodePositions -> pss !! b = Some qs -> (j < length qs)%nat -> loaded l b qs i ->
  iterator_at l pss decodePositions (At (128 * b + j)) (move_to (Z.of_nat j) (wrap32 (Z.of_nat (128 * b + j))) i).
Proof.
  intros H1 H2 Hb Hj Hld. split_and!; [done|done|done|done|]. exists b, qs, j. split_and!; try done. by destruct Hld as [? ? ? ? ? ? ?].
Qed.

(** A block is loaded and the iterator moves to a place in it. *)
Lemma load_at b qs j i :
  it_list i = Some l -> it_decodePositions i = decodePositions -> pss !! b = Some qs -> (j < length qs)%nat ->
  iterator_at l pss decodePositions (At (128 * b + j)) (move_to (Z.of_nat j) (wrap32 (Z.of_nat (128 * b + j))) (loadBlock l (Z.of_nat b) i)).
Proof. intros H1 H2 Hb Hj. destruct (loadBlock_spec l pss b qs i Hl Hb) as (Hld & E1 & E2 & _). apply move_to_at with qs; congruence || done. Qed.

Lemma Iterator_at : iterator_at l pss decodePositions Before (list_iterator (Some l) decodePositions).
Proof. done. Qed.

Lemma iterator_valid c i : iterator_at l pss decodePositions c i -> it_valid i = match cursor_posting ps c with Some _ => true | None => false end.
Proof.
  intros (_ & _ & Hc). destruct c as [|k|]; cbn; try apply Hc. destruct Hc as (-> & _ & b & qs & j & Hb & Hj & -> & _).
  destruct (list_holds_chunked _ _ Hl) as (Hch & _). unfold ps. rewrite (chunked_lookup _ _ _ _ Hch Hb Hj). by destruct (lookup_lt_is_Some_2 qs j Hj) as [p ->].
Qed.

Lemma wrap32_succ z : wrap32 (wrap32 z + 1) = wrap32 (z + 1).
Proof. unfold wrap32. by rewrite Z.add_mod_idemp_l. Qed.

Lemma block_end b qs j : pss !! b = Some qs -> (j < length qs)%nat -> (S (128 * b + j) < length ps)%nat -> (length qs <= S j)%nat -> exists rs, pss !! S b = Some rs /\ length qs = 128%nat /\ rs <> [].
Proof.
  intros Hb Hj Hlt Hend. destruct (list_holds_chunked _ _ Hl) as (Hch & _). destruct (chunked_size _ _ _ Hch Hb) as (_ & H128 & Hfull).
  destruct (chunked_place pss (S (128 * b + j)) Hch Hlt) as (b' & rs & j' & Hb' & Hj' & E). destruct (chunked_size _ _ _ Hch Hb') as (Hne' & H128' & _).
  destruct (decide (b' = b)) as [->|Hbb]; [rewrite Hb in Hb'; injection Hb' as ->; lia|].
  assert (b' = S b) as -> by lia. exists rs. split_and!; [done| |done]. apply Hfull. by apply lookup_lt_Some in Hb'.
Qed.

Lemma last_place b qs j : pss !! b = Some qs -> (j < length qs)%nat -> (length qs <= S j)%nat -> ~ (S b < length pss)%nat -> length ps = S (128 * b + j).
Proof.
  intros Hb Hj Hend Hlast. destruct (list_holds_chunked _ _ Hl) as (Hch & _). pose proof (chunked_lookup _ _ _ _ Hch Hb Hj) as Hk. fold ps in Hk.
  destruct (lookup_lt_is_Some_2 qs j Hj) as [p Hp]. rewrite Hp in Hk. apply lookup_lt_Some in Hk. destruct (decide (length ps = S (128 * b + j))); [done|].
  destruct (block_end b qs j Hb Hj ltac:(lia) Hend) as (rs & Hrs & _). apply lookup_lt_Some in Hrs. lia.
Qed.

(** [Next] is the next place. *)
Lemma Next_refines c i : iterator_at l pss decodePositions c i ->
  fst (Next i) = fst (next_cursor ps c) /\ iterator_at l pss decodePositions (snd (next_cursor ps c)) (snd (Next i)).
Proof.
  intros Hi. pose proof Hi as (Hlist & Hdec & Hc). unfold Next. rewrite Hlist, count_0. unfold next_cursor.
  destruct ps as [|p0 ps0] eqn:Eps; [done|]. assert (ps <> []) as Hne by by rewrite Eps. destruct (blocks_positive Hne) as [Hpos Hnb].
  rewrite Hnb. destruct c as [|k|].
  - destruct Hc as [-> ->]. cbn [negb]. rewrite (proj2 (Z.leb_gt _ _)) by lia. cbn [Z.ltb Z.compare fst snd]. split; [done|].
    destruct (lookup_lt_is_Some_2 pss 0 Hpos) as [qs Hq]. destruct (list_holds_chunked _ _ Hl) as (Hch & _). destruct (chunked_size _ _ _ Hch Hq) as (Hqne & _ & _).
    apply (load_at 0 qs 0); [done|done|done|]. destruct qs; [done|cbn; lia].
  - destruct Hc as (-> & Hg & b & qs & j & Hb & Hj & -> & Hld & Hix). cbn [negb]. unfold next_in_block. rewrite Hix, (ld_ids _ _ _ _ Hld), zlen_ids, (ld_block _ _ _ _ Hld), Hg, wrap32_succ, Hnb.
    rewrite <- Eps. destruct (Z.of_nat j + 1 <? zlen qs) eqn:E; to_prop; unfold zlen in E.
    + destruct (list_holds_chunked _ _ Hl) as (Hch & _). destruct (lookup_lt_is_Some_2 qs (S j) ltac:(lia)) as [p Hp].
      pose proof (chunked_lookup _ _ _ (S j) Hch Hb ltac:(lia)) as Hk. fold ps in Hk. rewrite Hp in Hk. apply lookup_lt_Some in Hk.
      rewrite decide_True by lia. cbn [fst snd]. split; [done|]. replace (Z.of_nat j + 1) with (Z.of_nat (S j)) by lia.
      replace (S (128 * b + j)) with (128 * b + S j)%nat by lia. replace (Z.of_nat (128 * b + j) + 1) with (Z.of_nat (128 * b + S j)) by lia.
      apply move_to_at with qs; (done || lia).
    + destruct (decide (S (128 * b + j) < length ps)%nat) as [Hlt|Hge].
      * destruct (block_end b qs j Hb Hj Hlt ltac:(lia)) as (rs & Hrs & H128 & Hrne). pose proof (lookup_lt_Some _ _ _ Hrs). rewrite (proj2 (Z.leb_gt _ _)) by lia. cbn [fst snd].
        split; [done|]. replace (Z.of_nat b + 1) with (Z.of_nat (S b)) by lia.
        destruct (loadBlock_spec l pss (S b) rs i Hl Hrs) as (_ & _ & _ & ->). rewrite Hg, wrap32_succ. replace (S (128 * b + j)) with (128 * S b + 0)%nat by lia.
        replace (Z.of_nat (128 * b + j) + 1) with (Z.of_nat (128 * S b + 0)) by lia. apply (load_at (S b) rs 0); [done|done|done|]. destruct rs; [done|cbn; lia].
      * assert (~ (S b < length pss)%nat) as Hlast.
        { intros Hsb. destruct (lookup_lt_is_Some_2 pss (S b) Hsb) as [rs Hrs]. destruct (list_holds_chunked _ _ Hl) as (Hch & _).
          destruct (chunked_size _ _ _ Hch Hrs) as (Hrne & _ & _). destruct (chunked_size _ _ _ Hch Hb) as (_ & _ & Hfull). specialize (Hfull Hsb).
          destruct rs as [|r rs]; [done|]. pose proof (chunked_lookup _ _ _ 0 Hch Hrs ltac:(cbn; lia)) as Hk. fold ps in Hk. apply lookup_lt_Some in Hk. lia. }
        rewrite (proj2 (Z.leb_le _ _)) by lia. cbn [fst snd]. split; [done|]. by split_and!.
  - destruct Hc as [-> Hbi]. cbn [negb]. rewrite Hbi, Hnb, Z.leb_refl. done.
Qed.

(** ** [Advance] *)
Lemma block_max b qs : pss !! b = Some qs ->
  exists p, qs !! (length qs - 1)%nat = Some p /\ pb_maxDocumentID (block_of l (Z.of_nat b)) = p_DocumentID p /\ (0 < length qs)%nat.
Proof.
  intros Hb. destruct (list_holds_block _ _ _ _ Hl Hb) as (md & bend & pend & Hmd & Hba & _ & _). unfold block_of. rewrite Nat2Z.id, Hmd. cbn [default from_option id].
  rewrite (ba_max _ _ _ _ _ _ Hba). pose proof (ba_nonempty _ _ _ _ _ _ Hba) as Hne. unfold last_document. rewrite last_lookup. destruct qs as [|q qs]; [done|].
  destruct (lookup_lt_is_Some_2 (q :: qs) (length (q :: qs) - 1) ltac:(cbn; lia)) as [p Hp]. exists p. split_and!; [done| |cbn; lia].
  replace (pred (length (q :: qs))) with (length (q :: qs) - 1)%nat by (cbn; lia). by rewrite Hp.
Qed.

(** The last posting of a block, as a place in the list. *)
Lemma block_max_place b qs : pss !! b = Some qs ->
  exists p, ps !! (128 * b + (length qs - 1))%nat = Some p /\ pb_maxDocumentID (block_of l (Z.of_nat b)) = p_DocumentID p.
Proof.
  intros Hb. destruct (block_max b qs Hb) as (p & Hp & Hm & Hpos). exists p. split; [|done]. destruct (list_holds_chunked _ _ Hl) as (Hch & _).
  unfold ps. by rewrite (chunked_lookup _ _ _ _ Hch Hb) by lia.
Qed.

Lemma search_block start target :
  (start <= length pss)%nat -> zlen (pl_blocks l) = Z.of_nat (length pss) ->
  exists r : nat, searchFTSPostingBlock (pl_blocks l) (Z.of_nat start) target = Z.of_nat r /\ (start <= r <= length pss)%nat /\
    (forall b, (start <= b < r)%nat -> pb_maxDocumentID (block_of l (Z.of_nat b)) < target) /\ ((r < length pss)%nat -> target <= pb_maxDocumentID (block_of l (Z.of_nat r))).
Proof.
  intros Hs Hn. unfold searchFTSPostingBlock. rewrite Hn. destruct (list_holds_chunked _ _ Hl) as (Hch & Hv & _).
  set (key := fun middle => default 0 (pb_maxDocumentID <$> pl_blocks l !! Z.to_nat middle)).
  assert (forall b : nat, (b < length pss)%nat -> key (Z.of_nat b) = pb_maxDocumentID (block_of l (Z.of_nat b))) as Hkey.
  { intros b Hb. unfold key, block_of. destruct (lookup_lt_is_Some_2 (pl_blocks l) (Z.to_nat (Z.of_nat b))) as [md ->]; [unfold zlen in Hn; lia|]. done. }
  destruct (block_search_spec (length (pl_blocks l)) key target (Z.of_nat start) (Z.of_nat (length pss))) as (H1 & H2 & H3); [lia|unfold zlen in Hn; lia| |].
  - intros i j Hij Hj. replace i with (Z.of_nat (Z.to_nat i)) by lia. replace j with (Z.of_nat (Z.to_nat j)) by lia. rewrite !Hkey by lia.
    destruct (lookup_lt_is_Some_2 pss (Z.to_nat i) ltac:(lia)) as [qi Hqi], (lookup_lt_is_Some_2 pss (Z.to_nat j) ltac:(lia)) as [qj Hqj].
    destruct (block_max_place _ _ Hqi) as (pi & Hpi & ->), (block_max_place _ _ Hqj) as (pj & Hpj & ->).
    destruct (chunked_size _ _ _ Hch Hqi) as (_ & H128 & _). destruct (chunked_size _ _ _ Hch Hqj) as (Hqne & _ & _).
    assert (p_DocumentID pi < p_DocumentID pj); [|lia]. eapply (valid_sorted None ps); [exact Hv| |exact Hpi|exact Hpj]. destruct qj; [done|cbn; lia].
  - set (r := search_half_loop _ _ _ _ _) in *. exists (Z.to_nat r). split_and!; [lia|lia|lia| |].
    + intros b Hb. rewrite <- Hkey by lia. apply H2. lia.
    + intros Hr. rewrite <- Hkey by lia. rewrite Z2Nat.id by lia. apply H3. lia.
Qed.

(** The search inside a block whose last document is not below the target. *)
Lemma search_in_block b qs start k target :
  pss !! b = Some qs -> (start <= length qs)%nat -> target <= pb_maxDocumentID (block_of l (Z.of_nat b)) -> (k <= 128 * b + start)%nat ->
  (forall q, (k < 128 * b + start)%nat -> ps !! (128 * b + start - 1)%nat = Some q -> p_DocumentID q < target) ->
  (start < length qs)%nat ->
  exists j, (j < length qs)%nat /\ searchFTSDocumentID (ids qs) (Z.of_nat start) target = Z.of_nat j /\ seek ps target k = Some (128 * b + j)%nat.
Proof.
  intros Hb Hs Ht Hk Hbefore Hlt. unfold searchFTSDocumentID. rewrite zlen_ids. destruct (list_holds_chunked _ _ Hl) as (Hch & Hv & _).
  destruct (list_holds_block _ _ _ _ Hl Hb) as (_ & _ & _ & _ & _ & Hvq & _). destruct (block_max b qs Hb) as (pm & Hpm & Hmax & _).
  assert (forall j p, qs !! j = Some p -> at_index (ids qs) (Z.of_nat j) = p_DocumentID p) as Hkey.
  { intros j p Hj. unfold at_index, ids. by rewrite Nat2Z.id, list_lookup_fmap, Hj. }
  destruct (block_search_spec (length (ids qs)) (at_index (ids qs)) target (Z.of_nat start) (zlen qs)) as (H1 & H2 & H3); [unfold zlen; lia|unfold zlen, ids; rewrite length_fmap; lia| |].
  - intros i j Hij Hj. unfold zlen in Hj. destruct (lookup_lt_is_Some_2 qs (Z.to_nat i) ltac:(lia)) as [pi Hpi], (lookup_lt_is_Some_2 qs (Z.to_nat j) ltac:(lia)) as [pj Hpj].
    replace i with (Z.of_nat (Z.to_nat i)) by lia. replace j with (Z.of_nat (Z.to_nat j)) by lia. rewrite (Hkey _ _ Hpi), (Hkey _ _ Hpj).
    assert (p_DocumentID pi < p_DocumentID pj); [|lia]. eapply (valid_sorted None qs); [exact Hvq| |exact Hpi|exact Hpj]. lia.
  - set (r := search_half_loop _ _ _ _ _) in *. unfold zlen in *. assert (r < Z.of_nat (length qs)) as Hr.
    { destruct (decide (r < Z.of_nat (length qs))); [done|]. specialize (H2 (Z.of_nat (length qs - 1)) ltac:(lia)). rewrite (Hkey _ _ Hpm) in H2. lia. }
    exists (Z.to_nat r). split_and!; [lia|lia|]. destruct (lookup_lt_is_Some_2 qs (Z.to_nat r) ltac:(lia)) as [p Hp].
    specialize (H3 Hr). replace r with (Z.of_nat (Z.to_nat r)) in H3 by lia. rewrite (Hkey _ _ Hp) in H3.
    apply (seek_found ps target k _ p Hv); [lia|unfold ps; rewrite (chunked_lookup _ _ _ _ Hch Hb) by lia; done|done|].
    intros q Hkr Hq. destruct (decide (Z.to_nat r = start)) as [E|E]; [apply Hbefore; [lia|by rewrite <- E]|].
    specialize (H2 (Z.of_nat (Z.to_nat r - 1)) ltac:(lia)). destruct (lookup_lt_is_Some_2 qs (Z.to_nat r - 1) ltac:(lia)) as [p' Hp'].
    rewrite (Hkey _ _ Hp') in H2. pose proof (chunked_lookup _ _ _ (Z.to_nat r - 1) Hch Hb ltac:(lia)) as Hc. fold ps in Hc. rewrite Hp' in Hc.
    replace (128 * b + Z.to_nat r - 1)%nat with (128 * b + (Z.to_nat r - 1))%nat in Hq by lia. rewrite Hc in Hq. by injection Hq as <-.
Qed.

(** No block from [start] on reaches the target: no posting does. *)
Lemma seek_past_end start k target :
  ps <> [] -> (forall b, (start <= b < length pss)%nat -> pb_maxDocumentID (block_of l (Z.of_nat b)) < target) ->
  (forall b qs, pss !! b = Some qs -> start = S b -> pb_maxDocumentID (block_of l (Z.of_nat b)) < target) -> (start <= length pss)%nat -> (0 < start \/ 0 < length pss)%nat ->
  seek ps target k = None.
Proof.
  intros Hne Hall Hprev Hs Hpos. destruct (list_holds_chunked _ _ Hl) as (Hch & Hv & _). apply seek_none; [done|]. intros q Hq. rewrite last_lookup in Hq.
  destruct (blocks_positive Hne) as [Hp _]. destruct (lookup_lt_is_Some_2 pss (length pss - 1) ltac:(lia)) as [qs Hqs]. destruct (block_max _ _ Hqs) as (p & Hpl & Hm & Hlen).
  pose proof (last_place (length pss - 1) qs (length qs - 1) Hqs ltac:(lia) ltac:(lia) ltac:(lia)) as Hlp.
  pose proof (chunked_lookup _ _ _ (length qs - 1) Hch Hqs ltac:(lia)) as Hc. fold ps in Hc. rewrite Hlp in Hq. cbn [pred] in Hq. rewrite Hc, Hpl in Hq. injection Hq as <-.
  rewrite <- Hm. destruct (decide (start = length pss)) as [->|]; [|apply Hall; lia]. apply (Hprev _ qs); [done|lia].
Qed.

(** The end of [Advance]: the target is in block [b], which is loaded. *)
Definition land (fuel_out : option (bool * FTSPostingIterator)) (targetBlock start target : Z) (i : FTSPostingIterator) : option (bool * FTSPostingIterator) :=
  let position := searchFTSDocumentID (it_documentIDs i) start target in
  if zlen (it_documentIDs i) <=? position then fuel_out
  else Some (true, move_to position (wrap32 (targetBlock * ftsPostingDocumentsBlock + position)) i).

Lemma land_refines out b qs start k target i :
  it_list i = Some l -> it_decodePositions i = decodePositions -> pss !! b = Some qs -> loaded l b qs i ->
  (start < length qs)%nat -> target <= pb_maxDocumentID (block_of l (Z.of_nat b)) -> (k <= 128 * b + start)%nat ->
  (forall q, (k < 128 * b + start)%nat -> ps !! (128 * b + start - 1)%nat = Some q -> p_DocumentID q < target) ->
  exists i' k', land out (Z.of_nat b) (Z.of_nat start) target i = Some (true, i') /\ seek ps target k = Some k' /\ iterator_at l pss decodePositions (At k') i'.
Proof.
  intros Hi Hd Hb Hld Hs Ht Hk Hbefore. destruct (search_in_block b qs start k target Hb ltac:(lia) Ht Hk Hbefore Hs) as (j & Hj & Hsearch & Hseek).
  unfold land. rewrite (ld_ids _ _ _ _ Hld), zlen_ids, Hsearch. rewrite (proj2 (Z.leb_gt _ _)) by (unfold zlen; lia). eexists _, _. split_and!; [done|exact Hseek|].
  replace (Z.of_nat b * ftsPostingDocumentsBlock + Z.of_nat j) with (Z.of_nat (128 * b + j)) by (unfold ftsPostingDocumentsBlock; lia). by apply move_to_at with qs.
Qed.

Lemma ended_at i : it_list i = Some l -> it_decodePositions i = decodePositions -> iterator_at l pss decodePositions Ended (invalidate (zlen (pl_blocks l)) i).
Proof. done. Qed.

(** The block search of [Advance] from block [start] on, and its landing. *)
Lemma advance_from (out : FTSPostingIterator -> option (bool * FTSPostingIterator)) s0 start k target i :
  it_list i = Some l -> it_decodePositions i = decodePositions -> ps <> [] -> (start < length pss)%nat -> it_blockIndex i < Z.of_nat start -> (k <= 128 * start)%nat ->
  (forall q, (k < 128 * start)%nat -> ps !! (128 * start - 1)%nat = Some q -> p_DocumentID q < target) ->
  (forall b qs, pss !! b = Some qs -> start = S b -> pb_maxDocumentID (block_of l (Z.of_nat b)) < target) ->
  exists r, (let targetBlock := searchFTSPostingBlock (pl_blocks l) (Z.of_nat start) target in
    if targetBlock =? zlen (pl_blocks l) then Some (false, invalidate (zlen (pl_blocks l)) i)
    else
      let '(j, startIndex) := if negb (targetBlock =? it_blockIndex i) then (loadBlock l targetBlock i, 0) else (i, s0) in
      land (out j) targetBlock startIndex target j) = Some r /\
    fst r = match seek ps target k with Some _ => true | None => false end /\
    iterator_at l pss decodePositions (match seek ps target k with Some k' => At k' | None => Ended end) (snd r).
Proof.
  intros Hi Hd Hne Hs Hbi Hk Hbefore Hprev. destruct (blocks_positive Hne) as [Hpos Hnb]. destruct (search_block start target ltac:(lia) Hnb) as (r & Hr & Hrange & Hlow & Hhigh).
  cbv zeta. rewrite Hr, Hnb. destruct (Z.of_nat r =? Z.of_nat (length pss)) eqn:E; to_prop.
  - assert (r = length pss) as -> by lia. rewrite (seek_past_end start k target Hne) by (first [exact Hprev|intros; apply Hlow; lia|lia]).
    eexists. split_and!; [done|done|]. cbn [snd]. rewrite <- Hnb. by apply ended_at.
  - rewrite (proj2 (Z.eqb_neq _ _)) by lia. cbn [negb]. destruct (lookup_lt_is_Some_2 pss r ltac:(lia)) as [qs Hqs].
    destruct (loadBlock_spec l pss r qs i Hl Hqs) as (Hld & E1 & E2 & _). destruct (block_max r qs Hqs) as (_ & _ & _ & Hlen).
    destruct (land_refines (out (loadBlock l (Z.of_nat r) i)) r qs 0 k target (loadBlock l (Z.of_nat r) i)) as (i' & k' & Hland & Hseek & Hat); try (congruence || done || lia).
    + intros q Hkq Hq. destruct (decide (r = start)) as [->|Hrs]; [apply Hbefore; [lia|by rewrite Nat.add_0_r in Hq]|].
      specialize (Hlow (r - 1)%nat ltac:(lia)). destruct (lookup_lt_is_Some_2 pss (r - 1) ltac:(lia)) as [rs Hrs'].
      destruct (block_max_place _ _ Hrs') as (p & Hp & Hm). rewrite Hm in Hlow. destruct (list_holds_chunked _ _ Hl) as (Hch & _).
      destruct (chunked_size _ _ _ Hch Hrs') as (_ & _ & H128). rewrite H128 in Hp by lia. replace (128 * (r - 1) + (128 - 1))%nat with (128 * r + 0 - 1)%nat in Hp by lia.
      rewrite Hp in Hq. by injection Hq as <-.
    + exists (true, i'). rewrite Hseek. split_and!; [exact Hland|done|done].
Qed.

(** One round of [Advance]. *)
Lemma Advance_unfold fuel target i :
  it_list i = Some l -> (pl_count l =? 0) = false ->
  Advance fuel target i =
    let out j := match fuel with O => None | S fuel => Advance fuel target (invalidate (it_blockIndex j) j) end in
    let blocks := zlen (pl_blocks l) in
    if it_valid i && (target <=? DocumentID i) then Some (true, i)
    else if negb (it_valid i) && (blocks <=? it_blockIndex i) then Some (false, i)
    else
      let '(startBlock, startIndex) :=
        if it_valid i then
          if pb_maxDocumentID (block_of l (it_blockIndex i)) <? target then (it_blockIndex i + 1, 0) else (it_blockIndex i, it_indexInBlock i + 1)
        else (0, 0) in
      if blocks <=? startBlock then Some (false, invalidate blocks i)
      else
        let targetBlock := if negb (it_valid i) || negb (startBlock =? it_blockIndex i) then searchFTSPostingBlock (pl_blocks l) startBlock target else startBlock in
        if targetBlock =? blocks then Some (false, invalidate blocks i)
        else
          let '(j, startIndex) := if negb (targetBlock =? it_blockIndex i) then (loadBlock l targetBlock i, 0) else (i, startIndex) in
          land (out j) targetBlock startIndex target j.
Proof. intros Hi H0. destruct fuel; cbn [Advance]; rewrite Hi, H0; reflexivity. Qed.

(** [Advance] is the first place from the current one on whose document ID reaches the target; its recursion is never entered. *)
Lemma Advance_refines fuel c target i : iterator_at l pss decodePositions c i ->
  exists r, Advance fuel target i = Some r /\ fst r = fst (advance_cursor ps target c) /\ iterator_at l pss decodePositions (snd (advance_cursor ps target c)) (snd r).
Proof.
  intros Hi. pose proof Hi as (Hlist & Hdec & Hc). destruct (decide (ps = [])) as [Hemp|Hne].
  { exists (false, i). unfold advance_cursor. pose proof count_0 as H0. rewrite Hemp in *. split_and!; [|done|done]. destruct fuel; cbn [Advance]; by rewrite Hlist, H0. }
  destruct (blocks_positive Hne) as [Hpos Hnb]. destruct (list_holds_chunked _ _ Hl) as (Hch & Hv & _).
  assert ((pl_count l =? 0) = false) as H0 by (rewrite count_0; by destruct ps).
  assert (forall c, advance_cursor ps target c = match c with Ended => (false, Ended) | _ =>
      match seek ps target (match c with At k => k | _ => 0%nat end) with Some k => (true, At k) | None => (false, Ended) end end) as Habs
    by (intros [| |]; unfold advance_cursor; by destruct ps).
  rewrite Habs, (Advance_unfold fuel target i Hlist H0). clear Habs. cbv zeta.
  set (out := fun j => match fuel with O => None | S fuel => Advance fuel target (invalidate (it_blockIndex j) j) end).
  assert (forall r k, fst r = match seek ps target k with Some _ => true | None => false end ->
      iterator_at l pss decodePositions (match seek ps target k with Some k' => At k' | None => Ended end) (snd r) ->
      fst r = fst (match seek ps target k with Some k => (true, At k) | None => (false, Ended) end) /\
      iterator_at l pss decodePositions (snd (match seek ps target k with Some k => (true, At k) | None => (false, Ended) end)) (snd r)) as Hconv
    by (intros r k; by destruct (seek ps target k)).
  destruct c as [|k|].
  - destruct Hc as [-> Hbi]. cbn [andb negb orb]. rewrite !(proj2 (Z.leb_gt _ _)) by lia.
    destruct (advance_from out 0 0 0 target i) as (r & Hr & Hf & Hat); try (done || lia). exists r. split; [exact Hr|by apply Hconv].
  - destruct Hc as (-> & Hg & b & qs & j & Hb & Hj & -> & Hld & Hix). cbn [andb negb orb]. pose proof (chunked_lookup _ _ _ _ Hch Hb Hj) as Hk. fold ps in Hk.
    destruct (lookup_lt_is_Some_2 qs j Hj) as [p Hp]. rewrite Hp in Hk.
    assert (DocumentID i = p_DocumentID p) as Hid.
    { unfold DocumentID, at_index. destruct Hi as (_ & _ & -> & _). rewrite (ld_ids _ _ _ _ Hld), Hix, Nat2Z.id. unfold ids. by rewrite list_lookup_fmap, Hp. }
    rewrite Hid. destruct (target <=? p_DocumentID p) eqn:Et; to_prop.
    { exists (true, i). rewrite (seek_found ps target (128 * b + j) (128 * b + j) p) by (done || lia). done. }
    rewrite (ld_block _ _ _ _ Hld), Hix. destruct (block_max_place b qs Hb) as (pm & Hpm & Hmax).
    destruct (pb_maxDocumentID (block_of l (Z.of_nat b)) <? target) eqn:Em; to_prop.
    + rewrite (proj2 (Z.eqb_neq (Z.of_nat b + 1) (Z.of_nat b))) by lia. cbn [negb]. pose proof (lookup_lt_Some _ _ _ Hb) as Hblt.
      assert (forall b' qs', pss !! b' = Some qs' -> S b = S b' -> pb_maxDocumentID (block_of l (Z.of_nat b')) < target) as Hprev by (intros b' qs' _ [= <-]; lia).
      destruct (zlen (pl_blocks l) <=? Z.of_nat b + 1) eqn:Eb; to_prop.
      * eexists. split; [done|]. apply Hconv; rewrite (seek_past_end (S b) (128 * b + j) target Hne) by (first [exact Hprev|intros; lia|lia]); [done|by apply ended_at].
      * destruct (chunked_size _ _ _ Hch Hb) as (_ & _ & H128). specialize (H128 ltac:(lia)). replace (Z.of_nat b + 1) with (Z.of_nat (S b)) by lia.
        destruct (advance_from out 0 (S b) (128 * b + j) target i) as (r & Hr & Hf & Hat); try (done || lia); [rewrite (ld_block _ _ _ _ Hld); lia| |].
        { intros q _ Hq. replace (128 * S b - 1)%nat with (128 * b + (length qs - 1))%nat in Hq by lia. rewrite Hpm in Hq. injection Hq as <-. lia. }
        rewrite (ld_block _ _ _ _ Hld) in Hr. exists r. split; [exact Hr|by apply Hconv].
    + pose proof (lookup_lt_Some _ _ _ Hb) as Hblt. rewrite (proj2 (Z.leb_gt _ _)) by lia. rewrite !Z.eqb_refl. cbn [negb]. rewrite (proj2 (Z.eqb_neq _ _)) by lia.
      assert (S j < length qs)%nat as Hsj.
      { destruct (decide (S j < length qs)%nat); [done|]. replace (length qs - 1)%nat with j in Hpm by lia. rewrite Hk in Hpm. injection Hpm as <-. lia. }
      destruct (land_refines (out i) b qs (S j) (128 * b + j) target i) as (i' & k' & Hland & Hseek & Hat); try (done || lia).
      { intros q _ Hq. replace (128 * b + S j - 1)%nat with (128 * b + j)%nat in Hq by lia. rewrite Hk in Hq. injection Hq as <-. lia. }
      exists (true, i'). replace (Z.of_nat j + 1) with (Z.of_nat (S j)) by lia. split; [exact Hland|]. by rewrite Hseek.
  - destruct Hc as [-> Hbi]. cbn [andb negb]. rewrite Hbi, Z.leb_refl. by exists (false, i).
Qed.

(** ** Accessors *)
Definition view (p : FTSPosting) : FTSPosting :=
  MkPosting (p_DocumentID p) (p_TermFrequency p) (p_DocumentLength p) (if decodePositions then p_Positions p else []).

Definition reading {A} (c : posting_cursor) (r : A * FTSPostingIterator) (a : A) : Prop := fst r = a /\ iterator_at l pss decodePositions c (snd r).

Lemma at_index_fmap (f : FTSPosting -> Z) qs j p : qs !! j = Some p -> at_index (f <$> qs) (Z.of_nat j) = f p.
Proof. intros H. unfold at_index. by rewrite Nat2Z.id, list_lookup_fmap, H. Qed.

(** The place of a valid iterator. *)
Lemma at_place k i : iterator_at l pss decodePositions (At k) i -> exists b qs j p, pss !! b = Some qs /\ qs !! j = Some p /\ ps !! k = Some p /\ k = (128 * b + j)%nat /\
  loaded l b qs i /\ it_indexInBlock i = Z.of_nat j /\ it_valid i = true /\ it_list i = Some l /\ it_decodePositions i = decodePositions.
Proof.
  intros (Hi & Hd & Hv & _ & b & qs & j & Hb & Hj & -> & Hld & Hix). destruct (lookup_lt_is_Some_2 qs j Hj) as [p Hp]. destruct (list_holds_chunked _ _ Hl) as (Hch & _).
  exists b, qs, j, p. split_and!; try done. unfold ps. by rewrite (chunked_lookup _ _ _ _ Hch Hb Hj).
Qed.

Lemma decode_same l' i arrayIndex j : it_blockIndex i = it_blockIndex j -> it_documentIDs i = it_documentIDs j -> decode_array l' i arrayIndex = decode_array l' j arrayIndex.
Proof. intros H1 H2. unfold decode_array, packedBlockArray. by rewrite H1, H2. Qed.

Lemma DocumentID_reads k i p : iterator_at l pss decodePositions (At k) i -> ps !! k = Some p -> DocumentID i = p_DocumentID p.
Proof.
  intros Hi Hp. destruct (at_place _ _ Hi) as (b & qs & j & p' & Hb & Hj & Hk & _ & Hld & Hix & Hv & _). rewrite Hp in Hk. injection Hk as <-.
  unfold DocumentID. rewrite Hv, Hix, (ld_ids _ _ _ _ Hld). by apply (at_index_fmap p_DocumentID).
Qed.

Lemma TermFrequency_reads k i p : iterator_at l pss decodePositions (At k) i -> ps !! k = Some p -> reading (At k) (TermFrequency i) (p_TermFrequency p).
Proof.
  intros Hi Hp. destruct (at_place _ _ Hi) as (b & qs & j & p' & Hb & Hj & Hk & _ & Hld & Hix & Hv & Hlist & _). rewrite Hp in Hk. injection Hk as <-.
  unfold reading, TermFrequency. rewrite Hv, Hlist. cbv zeta. cbn [fst snd]. unfold decodeTermFrequencies. destruct Hld as [L1 L2 L3 L4 L5 L6 L7].
  destruct (zlen (it_termFrequencies i) =? zlen (it_documentIDs i)) eqn:E.
  - rewrite Hix. destruct L3 as [L3|L3]; [|rewrite L3; split; [by apply (at_index_fmap p_TermFrequency)|done]].
    rewrite L2, L3, zlen_ids in E. apply lookup_lt_Some in Hj. unfold zlen in E. cbn in E. to_prop. lia.
  - cbn [it_termFrequencies it_indexInBlock]. rewrite Hix, L5. split; [by apply (at_index_fmap p_TermFrequency)|].
    destruct Hi as (H1 & H2 & H3 & H4 & b' & qs' & j' & H5 & H6 & H7 & [M1 M2 M3 M4 M5 M6 M7] & H8). split_and!; try done.
    exists b', qs', j'. split_and!; try done; [|cbn; congruence]. split; try done. right. cbn. congruence.
Qed.

Lemma DocumentLength_reads k i p : iterator_at l pss decodePositions (At k) i -> ps !! k = Some p -> reading (At k) (DocumentLength i) (p_DocumentLength p).
Proof.
  intros Hi Hp. destruct (at_place _ _ Hi) as (b & qs & j & p' & Hb & Hj & Hk & _ & Hld & Hix & Hv & Hlist & _). rewrite Hp in Hk. injection Hk as <-.
  unfold reading, DocumentLength. rewrite Hv, Hlist. cbv zeta. cbn [fst snd]. unfold decodeDocumentLengths. destruct Hld as [L1 L2 L3 L4 L5 L6 L7].
  destruct (zlen (it_documentLengths i) =? zlen (it_documentIDs i)) eqn:E.
  - rewrite Hix. destruct L4 as [L4|L4]; [|rewrite L4; split; [by apply (at_index_fmap p_DocumentLength)|done]].
    rewrite L2, L4, zlen_ids in E. apply lookup_lt_Some in Hj. unfold zlen in E. cbn in E. to_prop. lia.
  - cbn [it_documentLengths it_indexInBlock]. rewrite Hix, L6. split; [by apply (at_index_fmap p_DocumentLength)|].
    destruct Hi as (H1 & H2 & H3 & H4 & b' & qs' & j' & H5 & H6 & H7 & [M1 M2 M3 M4 M5 M6 M7] & H8). split_and!; try done.
    exists b', qs', j'. split_and!; try done; [|cbn; congruence]. split; try done. right. cbn. congruence.
Qed.

Lemma Positions_reads k i p : iterator_at l pss decodePositions (At k) i -> ps !! k = Some p -> reading (At k) (Positions i) (p_Positions (view p)).
Proof.
  intros Hi Hp. destruct (at_place _ _ Hi) as (b & qs & j & p' & Hb & Hj & Hk & _ & Hld & Hix & Hv & Hlist & Hdec). rewrite Hp in Hk. injection Hk as <-.
  unfold reading, Positions. rewrite Hv, Hlist, Hdec. cbn [view p_Positions]. destruct decodePositions eqn:Edec; cbn [andb]; [|done].
  destruct (TermFrequency_reads k i p ltac:(by rewrite Edec) Hp) as [Hf Hat]. destruct (TermFrequency i) as [frequency i']. cbn [fst snd] in *. subst frequency.
  destruct (ld_positions _ _ _ _ Hld Hdec) as (offset & Ho & Hpay & Hoff). destruct (list_holds_block _ _ _ _ Hl Hb) as (_ & _ & _ & _ & _ & Hvq & _).
  destruct Hl as [Hsize Hrange _ _]. destruct (payloads_lookup (pl_data l) (pl_positionsOffset l) offset (it_positionLengths i) qs j p ltac:(lia) Ho Hsize (valid_Forall _ _ Hvq) Hpay Hj) as (pl & o & H1 & H2 & H3).
  unfold at_index. rewrite Hix, Nat2Z.id, Hoff, H1, H2. cbn [default from_option id]. rewrite H3. split; [done|]. by rewrite Edec in Hat.
Qed.

Lemma Posting_reads k i p : iterator_at l pss decodePositions (At k) i -> ps !! k = Some p -> reading (At k) (Posting i) (Some (view p)).
Proof.
  intros Hi Hp. unfold reading, Posting. pose proof Hi as (_ & _ & Hv & _). rewrite Hv. cbn [negb].
  rewrite (DocumentID_reads k i p Hi Hp). destruct (TermFrequency_reads k i p Hi Hp) as [H1 A1]. destruct (TermFrequency i) as [f i1]. cbn [fst snd] in *. subst f.
  destruct (DocumentLength_reads k i1 p A1 Hp) as [H2 A2]. destruct (DocumentLength i1) as [n i2]. cbn [fst snd] in *. subst n.
  destruct (Positions_reads k i2 p A2 Hp) as [H3 A3]. destruct (Positions i2) as [q i3]. cbn [fst snd] in *. subst q. done.
Qed.
End simulation.

(** ** Sequences of calls *)
Inductive call :=
| CallNext | CallAdvance (target : Z) | CallValid | CallDocumentID | CallTermFrequency | CallDocumentLength | CallPositions | CallPosting.
Inductive answer :=
| AnswerBool (b : bool) | AnswerNumber (n : Z) | AnswerPositions (positions : list Z) | AnswerPosting (p : option FTSPosting).

Definition call_iterator (c : call) (i : FTSPostingIterator) : option (answer * FTSPostingIterator) :=
  match c with
  | CallNext => let '(b, i) := Next i in Some (AnswerBool b, i)
  | CallAdvance target => match Advance 0 target i with Some (b, i) => Some (AnswerBool b, i) | None => None end
  | CallValid => Some (AnswerBool (Valid i), i)
  | CallDocumentID => Some (AnswerNumber (DocumentID i), i)
  | CallTermFrequency => let '(n, i) := TermFrequency i in Some (AnswerNumber n, i)
  | CallDocumentLength => let '(n, i) := DocumentLength i in Some (AnswerNumber n, i)
  | CallPositions => let '(q, i) := Positions i in Some (AnswerPositions q, i)
  | CallPosting => let '(p, i) := Posting i in Some (AnswerPosting p, i)
  end.

Definition call_cursor (decodePositions : bool) (ps : list FTSPosting) (k : call) (c : posting_cursor) : answer * posting_cursor :=
  let read {A} (d : A) (f : FTSPosting -> A) := match cursor_posting ps c with Some p => f (view decodePositions p) | None => d end in
  match k with
  | CallNext => let '(b, c) := next_cursor ps c in (AnswerBool b, c)
  | CallAdvance target => let '(b, c) := advance_cursor ps target c in (AnswerBool b, c)
  | CallValid => (AnswerBool (read false (fun _ => true)), c)
  | CallDocumentID => (AnswerNumber (read 0 p_DocumentID), c)
  | CallTermFrequency => (AnswerNumber (read 0 p_TermFrequency), c)
  | CallDocumentLength => (AnswerNumber (read 0 p_DocumentLength), c)
  | CallPositions => (AnswerPositions (read [] p_Positions), c)
  | CallPosting => (AnswerPosting (read None Some), c)
  end.

Fixpoint run_iterator (calls : list call) (i : FTSPostingIterator) : option (list answer) :=
  match calls with
  | [] => Some []
  | c :: calls => '(a, i) ← call_iterator c i; answers ← run_iterator calls i; Some (a :: answers)
  end.
Fixpoint run_cursor (decodePositions : bool) (ps : list FTSPosting) (calls : list call) (c : posting_cursor) : list answer :=
  match calls with
  | [] => []
  | k :: calls => let '(a, c) := call_cursor decodePositions ps k c in a :: run_cursor decodePositions ps calls c
  end.

Lemma call_refines l pss decodePositions k c i :
  list_holds l pss -> iterator_at l pss decodePositions c i ->
  exists i', call_iterator k i = Some (fst (call_cursor decodePositions (concat pss) k c), i') /\
    iterator_at l pss decodePositions (snd (call_cursor decodePositions (concat pss) k c)) i'.
Proof.
  intros Hl Hi. pose proof (iterator_valid l pss Hl _ _ _ Hi) as Hval.
  destruct k as [|target| | | | | |]; cbn [call_iterator call_cursor].
  - destruct (Next_refines l pss Hl _ _ _ Hi) as [H1 H2]. destruct (Next i) as [b i'], (next_cursor _ c) as [b' c']. cbn in *. subst. by exists i'.
  - destruct (Advance_refines l pss Hl _ 0 _ target _ Hi) as ([b i'] & -> & H1 & H2). destruct (advance_cursor _ target c) as [b' c']. cbn in *. subst. by exists i'.
  - exists i. unfold Valid. rewrite Hval. by destruct (cursor_posting _ c).
  - exists i. split; [|done]. destruct (cursor_posting _ c) as [p|] eqn:Ec; [|unfold DocumentID; by rewrite Hval]. destruct c as [|k|]; try done. by rewrite (DocumentID_reads l pss Hl _ k i p Hi Ec).
  - destruct (cursor_posting _ c) as [p|] eqn:Ec; [|exists i; split; [unfold TermFrequency; by rewrite Hval|done]]. destruct c as [|k|]; try done.
    destruct (TermFrequency_reads l pss Hl _ k i p Hi Ec) as [H1 H2]. destruct (TermFrequency i) as [n i']. cbn in *. subst. by exists i'.
  - destruct (cursor_posting _ c) as [p|] eqn:Ec; [|exists i; split; [unfold DocumentLength; by rewrite Hval|done]]. destruct c as [|k|]; try done.
    destruct (DocumentLength_reads l pss Hl _ k i p Hi Ec) as [H1 H2]. destruct (DocumentLength i) as [n i']. cbn in *. subst. by exists i'.
  - destruct (cursor_posting _ c) as [p|] eqn:Ec; [|exists i; split; [unfold Positions; by rewrite Hval|done]]. destruct c as [|k|]; try done.
    destruct (Positions_reads l pss Hl _ k i p Hi Ec) as [H1 H2]. destruct (Positions i) as [n i']. cbn in *. subst. by exists i'.
  - destruct (cursor_posting _ c) as [p|] eqn:Ec; [|exists i; split; [unfold Posting; by rewrite Hval|done]]. destruct c as [|k|]; try done.
    destruct (Posting_reads l pss Hl _ k i p Hi Ec) as [H1 H2]. destruct (Posting i) as [n i']. cbn in *. subst. by exists i'.
Qed.

Lemma run_refines l pss decodePositions calls c i :
  list_holds l pss -> iterator_at l pss decodePositions c i -> run_iterator calls i = Some (run_cursor decodePositions (concat pss) calls c).
Proof.
  intros Hl. revert c i. induction calls as [|k calls IH]; intros c i Hi; cbn [run_iterator run_cursor]; [done|].
  destruct (call_refines l pss decodePositions k c i Hl Hi) as (i' & -> & Hi'). destruct (call_cursor _ _ k c) as [a c']. cbn [fst snd mbind option_bind] in *.
  by rewrite (IH c' i' Hi').
Qed.

(** ** Reading a list to its end *)

(** [for iterator.Next() { ... iterator.Posting() ... }], at most [fuel] rounds. *)
Fixpoint read_all (fuel : nat) (i : FTSPostingIterator) : list FTSPosting :=
  match fuel with
  | O => []
  | S fuel =>
      let '(more, i) := Next i in
      if more then
        let '(p, i) := Posting i in
        match p with Some p => p :: read_all fuel i | None => read_all fuel i end
      else []
  end.

(** The postings that are left behind a cursor. *)
Definition next_place (c : posting_cursor) (n : nat) : nat := match c with Before => 0 | At k => S k | Ended => n end.

Lemma read_all_at l pss decodePositions fuel c i :
  list_holds l pss -> iterator_at l pss decodePositions c i -> (length (concat pss) - next_place c (length (concat pss)) < fuel)%nat ->
  read_all fuel i = view decodePositions <$> drop (next_place c (length (concat pss))) (concat pss).
Proof.
  intros Hl. set (ps := concat pss). revert c i. induction fuel as [|fuel IH]; intros c i Hi Hf; [lia|]. cbn [read_all].
  destruct (Next_refines l pss Hl _ _ _ Hi) as [H1 H2]. fold ps in H1, H2. destruct (Next i) as [more i1]. cbn [fst snd] in H1, H2.
  assert (forall k, (k < length ps)%nat -> next_place c (length ps) = k -> more = true -> iterator_at l pss decodePositions (At k) i1 ->
    (let '(p, j) := Posting i1 in match p with Some p => p :: read_all fuel j | None => read_all fuel j end) = view decodePositions <$> drop k ps) as Hstep.
  { intros k Hk Hc _ Hat. rewrite Hc in Hf. destruct (lookup_lt_is_Some_2 ps k Hk) as [p Hp]. destruct (Posting_reads l pss Hl _ k i1 p Hat Hp) as [P1 P2].
    destruct (Posting i1) as [q i2]. cbn [fst snd] in P1, P2. subst q. rewrite (IH (At k) i2 P2) by (cbn [next_place]; lia). cbn [next_place].
    by rewrite (drop_S ps p k Hp). }
  unfold next_cursor in H1, H2. destruct ps as [|p0 ps0] eqn:Eps; [cbn [fst] in H1; subst more; by destruct c as [|[]|]|].
  assert (0 < length ps)%nat as Hne by (rewrite Eps; cbn; lia). rewrite <- Eps in *. destruct c as [|k|].
  - cbn [fst snd] in H1, H2. subst more. by apply (Hstep 0%nat).
  - destruct (decide (S k < length ps)%nat) as [Hk|Hk]; cbn [fst snd] in H1, H2; subst more; [by apply Hstep|]. cbn [next_place]. by rewrite drop_ge by lia.
  - cbn [fst snd] in H1, H2. subst more. cbn [next_place]. by rewrite drop_ge by lia.
Qed.

(** C21: the iterators of every posting list that opens are cursors over valid
    postings.  Whatever bytes [OpenFTSPostingList] accepts, there is one list
    of valid postings (strictly increasing document IDs, as many ascending
    positions as the term frequency, which the document length bounds), as
    long as the document frequency says, such that any sequence of [Next],
    [Advance] and accessor calls, on an iterator that decodes positions or on
    a scoring iterator, gives the answers of the abstract cursor: [Next] the
    next posting, [Advance] the first posting from the current one on whose
    document ID is not below the target, the accessors the fields of the
    current posting.  [Advance] never runs into its recursion. *)
Theorem posting_iterator_refines data l :
  OpenFTSPostingList CtxLive data = Ok l ->
  exists ps, valid_postings ps /\ DocumentFrequency (Some l) = zlen ps /\ Bytes (Some l) = data /\
    forall decodePositions calls, run_iterator calls (list_iterator (Some l) decodePositions) = Some (run_cursor decodePositions ps calls Before).
Proof.
  intros H. apply (open_holds true) in H as [Hd [pss Hl]]. destruct (list_holds_chunked _ _ Hl) as (_ & Hv & _ & Hc). exists (concat pss). split_and!; [done|done|done|].
  intros decodePositions calls. apply (run_refines l pss); [done|]. apply Iterator_at.
Qed.

(** C22: building a posting list and reading it back.  For postings whose
    fields are [uint32]s, [BuildFTSPostingList] succeeds exactly when they are
    valid and their encoding fits into [uint32] offsets; then the encoded
    bytes open to the same list, and iterating over it to the end gives the
    postings.  Otherwise the error is [ErrInvalidFTSPosting], never that of
    corrupt bytes. *)
Theorem posting_build_roundtrip ps fuel :
  Forall typed_posting ps -> (length ps < fuel)%nat ->
  match BuildFTSPostingList CtxLive ps with
  | Ok l => valid_postings ps /\ fits ps /\ OpenFTSPostingList CtxLive (Bytes (Some l)) = Ok l /\ read_all fuel (FTSPostingList_Iterator (Some l)) = ps
  | Fail e => errors_Is e ErrInvalidFTSPosting = true /\ ~ (valid_postings ps /\ fits ps)
  end.
Proof.
  intros Ht Hf. pose proof (build_spec ps Ht) as H. destruct (BuildFTSPostingList CtxLive ps) as [l|e]; [|done].
  destruct H as (Hv & Hfits & Hl & Hopen). destruct (blocks_of_spec ps) as [Hc _]. split_and!; [done|done|apply Hopen|].
  unfold FTSPostingList_Iterator. rewrite (read_all_at l (blocks_of ps) true fuel Before); [|done|apply Iterator_at|rewrite Hc; cbn; lia]. rewrite Hc. cbn [next_place]. rewrite drop_0.
  clear. induction ps as [|[a b c d] ps IH]; [done|]. cbn [fmap list_fmap]. by rewrite IH.
Qed.
End cursor.

(** ** Witnesses *)
Definition ex_postings : list FTSPosting := [MkPosting 3 2 9 [1; 5]; MkPosting 10 1 4 [0]; MkPosting 1000 3 3 [0; 1; 70000]].
Definition ex_posting_bytes : bytes :=
  match BuildFTSPostingList (BP := scalar_bitpack) CtxLive ex_postings with Ok l => pl_data l | Fail _ => [] end.

Lemma posting_iterator_refines_witness :
  exists l ps, OpenFTSPostingList (BP := scalar_bitpack) CtxLive ex_posting_bytes = Ok l /\ valid_postings ps /\ zlen ps = 3 /\
    run_iterator (BP := scalar_bitpack) [CallAdvance 4; CallTermFrequency; CallNext; CallPositions; CallNext] (list_iterator (Some l) true) =
      Some (run_cursor true ps [CallAdvance 4; CallTermFrequency; CallNext; CallPositions; CallNext] Before) /\
    run_cursor true ps [CallAdvance 4; CallTermFrequency; CallNext; CallPositions; CallNext] Before =
      [AnswerBool true; AnswerNumber 1; AnswerBool true; AnswerPositions [0; 1; 70000]; AnswerBool false].
Proof.
  destruct (OpenFTSPostingList (BP := scalar_bitpack) CtxLive ex_posting_bytes) as [l|e] eqn:E; [|vm_compute in E; discriminate E].
  destruct (@posting_iterator_refines scalar_bitpack scalar_bitpack_laws ex_posting_bytes l E) as (ps & H1 & H2 & H3 & H4).
  exists l, ps. split; [reflexivity|]. split; [exact H1|]. split; [rewrite <- H2; vm_compute in E; injection E as <-; reflexivity|]. split; [apply H4|].
  pose proof (H4 true [CallAdvance 4; CallTermFrequency; CallNext; CallPositions; CallNext]) as H5. vm_compute in E. injection E as <-.
  vm_compute in H5. injection H5 as H5. symmetry. exact H5.
Defined.

Lemma posting_build_roundtrip_witness :
  exists l, BuildFTSPostingList (BP := scalar_bitpack) CtxLive ex_postings = Ok l /\
    OpenFTSPostingList (BP := scalar_bitpack) CtxLive (Bytes (Some l)) = Ok l /\ read_all (BP := scalar_bitpack) 10 (FTSPostingList_Iterator (Some l)) = ex_postings.
Proof.
  pose proof (@posting_build_roundtrip scalar_bitpack scalar_bitpack_laws ex_postings 10) as H.
  destruct (BuildFTSPostingList (BP := scalar_bitpack) CtxLive ex_postings) as [l|e] eqn:E; [|vm_compute in E; discriminate E].
  exists l. destruct H as (_ & _ & H1 & H2).
  - unfold ex_postings. repeat constructor; cbn; unfold is_u32, u32_max; lia.
  - cbn. lia.
  - split; [reflexivity|]. split; assumption.
Defined.
